(* ===== verification/_CoqProject ===== *)
-Q . S2P
Prelude.v
Vlong.v
VlongDiv.v
Chain.v
Xalloc.v
Boot.v
Rune.v
Memory.v
Qsort.v
Cstring.v
Numbers.v
Geometry.v
Chan.v
Tod.v
Timers.v
Mlvalues.v
Interp.v
Trap.v
Curry.v
Intext.v
Format.v
Extern.v
ExternTable.v
Encode.v
Intern.v
Decode.v
Marshal.v
Compare.v
Structural.v
Hash.v
Copy.v
Lexing.v
Taslock.v
Gcheap.v
Minor.v
MinorCorrect.v
Major.v
Marking.v
Collector.v
Primitives.v
PrimTypes.v
Fmt.v
FmtSpec.v
FmtInt.v
FmtSink.v
FmtConv.v
FmtPrint.v
FmtOut.v
FormatInt.v
Pool.v
PoolWords.v
PoolTree.v
PoolFree.v
PoolBlocks.v
PoolAlloc.v
PoolArena.v
PoolMerge.v
PoolSafe.v
PoolCheck.v
PoolLaws.v
Md5.v
FreeList.v
FreeListSpec.v
FreeListLaws.v
Parsing.v
ParseTables.v
ParseStack.v
ParseRun.v
ParseSteps.v
ParseLaws.v
Layer.v
LayerPieces.v
LayerCalls.v
LayerOrder.v
LayerPixels.v
LayerLaws.v
LayerMoves.v
