(* ===== verification/Prelude.v ===== *)
(** * The C part of plan9-ocaml: a verification library

    plan9-ocaml rewrites Plan 9 in OCaml; what is left in C, under src/kernel/, is a
    minimal kernel for the Raspberry Pi (Port/, Bcm/, main.c), its C library (Libc/),
    the geometry and drawing libraries (Libgeometry/, Libmemdraw/, Libmemlayer/) and
    the run-time system of the OCaml byte-code programs (Byterun/).  This library
    models the part of that code that computes, and proves what it computes.

    ** The machine

    The target is a 32-bit ARM: [int], [long] and pointers are 32-bit words, [vlong]
    is a 64-bit one.  Words are integers of type [Z] reduced by [u32], [u64], [s32], ...
    below; the operators [⊞], [⊟], [⊠] and [⋘] wrap.  Code that can fail
    returns a [result]: [Ok], [Fault] (an access outside the objects of the
    program, or a C operation without a defined result), [Panic] (the code's own panic
    or fatal error) or [Loop] (the fuel ran out).  Where a loop needs fuel, the theorems
    say how much is enough, or that the fuel the wrapper gives is: [Loop]
    never appears in a conclusion.

    ** Files, and the code each one models

    - [Prelude]: words, the error monad, shared lemmas and tactics.
    - [Vlong], [VlongDiv]: Libc/arm/vlrt.c, the 64-bit arithmetic the compiler calls:
      sums, shifts, conversions, the compound assignment [_vasop], and the
      shift-and-subtract division.
    - [Chain]: linked lists in a store, shared by the allocator and the timers.
    - [Xalloc]: Port/xalloc.c, the allocator of the boot: holes ordered by address.
    - [Boot]: main.c [arch__confinit], Bcm/mmu.c [arch_cankaddr], Port/xalloc.c [xinit].
    - [Rune]: Libc/port/rune.c, UTF-8.
    - [Memory]: memory as a map from addresses to cells, for the code that works on buffers.
    - [Qsort]: Libc/port/qsort.c, with the two exchange routines and any comparison.
    - [Cstring]: the string functions of Libc/port.
    - [Numbers]: strtoul.c, atol.c, ctype.c, toupper.c, abs.c.
    - [Geometry]: Libgeometry/arith.c, replclipr_geom.c, resolution.c, icossin.c, icossin2.c.
    - [Chan]: Libgeometry/chan.c and Libmemdraw/chan.c, image channel descriptors.
    - [Tod]: Port/tod.c and mul64fract.c, the clock.
    - [Timers]: Port/portclock.c, the timer queues and the clock interrupt.
    - [Mlvalues]: Byterun/mlvalues.h, OCaml values over a heap of named blocks.
    - [Interp]: Byterun/interp.c, instruct.h, stacks.c and the exceptions of fail.c: one
      definition per instruction, [exec] dispatches, [step] and [run] execute.
    - [Trap]: the exception handlers of [Interp] as a property of its runs.
    - [Curry]: functions of several arguments, and the specialised instructions.
    - [Intext], [Extern], [Intern]: marshalling: the codes of Byterun/intext.h with the
      string blocks of alloc.c and str.c, the writer extern.c with its output block and
      its table of shared blocks, and the reader intern.c.
    - [Format], [ExternTable], [Encode], [Decode], [Marshal]: the format as a
      relation between values and bytes; the table refines a list of the blocks
      seen; the writer produces, and the reader understands, the format; both composed.
    - [Compare], [Structural]: Byterun/compare.c, and the order on trees it decides.
    - [Hash]: Byterun/hash.c.
    - [Copy]: marshalling composed with comparison and hashing.
    - [Lexing]: Byterun/lexing.c, the engine of the lexers.
    - [Parsing]: Byterun/parsing.c, the engine of the parsers, with the loop of lib_parsing/orig/parsing.ml that
      calls it; [ParseTables]: grammars, the validation of tables and derivations; [ParseStack]: the
      stack in the arrays; [ParseRun], [ParseSteps]: the invariant of the engine and its labels one by one;
      [ParseLaws]: the class [ParserClient], which is what the engine expects of lexer and actions, and the contract.
    - [Taslock]: Port/taslock.c, spin locks between processes and interrupt handlers on several
      processors, as a transition system.
    - [Gcheap]: the heap of the collectors with headers, colours and generations: gc.h, memory.c,
      memory.h, the write barrier and its table; [Minor] and [MinorCorrect]: Byterun/minor_gc.c and
      the roots of roots.c, and what a minor collection does; [Major] and [Marking]: major_gc.c,
      and the invariant of its marking; [Collector]: the program and both collectors
      interleaved, as a transition system.
    - [Primitives], [PrimTypes]: the primitives of Byterun/str.c, array.c, ints.c and obj.c, and the
      types of OCaml that they keep.
    - [Fmt], [FmtSpec], [FmtInt], [FmtSink], [FmtConv], [FmtPrint], [FmtOut]: Libc/fmt, formatted
      output: the state of an output, the text that a format stands for, the integer
      conversions, the output of pieces of text to a buffer or a file, the other
      conversions, the loop over the format, and the callable functions.
    - [FormatInt]: [format_int] of ints.c, on top of the C library's [sprint].
    - [Pool]: Libc/port/pool.c, the allocator behind malloc, over words of memory.  [PoolWords] and
      [PoolTree] are about bytes in words and about trees and rings in memory; [PoolFree]: the free
      blocks as a multiset; [PoolBlocks]: the blocks of the arenas as segments of memory, and what
      each function does to them; [PoolAlloc]: splitting, gluing, freeing; [PoolArena], [PoolMerge]: new
      arenas, joined arenas and [poolallocl], against the class [Coarse], which is what a
      pool expects of the allocator under it; [PoolSafe]: runs of callers; [PoolCheck]: the
      check of a pool; [PoolLaws]: the contracts, an instance of [Coarse], and examples.
    - [Md5]: Byterun/md5.c, and the function of RFC 1321 it computes.
    - [FreeList], [FreeListSpec], [FreeListLaws]: Byterun/freelist.c, the free list of the major heap:
      the code over the words of the heap, the list in memory, and what each operation does to it.
    - [Layer]: Libmemlayer, overlapping windows: layerop.c, lhide.c, ltofront.c, ltorear.c and
      [_memlsetclear] of ldelete.c, against the class [Memdraw], which is what they expect of Libmemdraw.
      [LayerPieces]: how [_memlayerop] cuts rectangles; [LayerCalls], [LayerPixels]: hiding and exposing as
      sequences of copies; [LayerOrder]: the linked order of the windows; [LayerLaws]: the exchange
      of neighbours keeps the pictures; [LayerMoves]: the operations, and three windows.

    ** What the theorems show

    Refinement: the free list of xalloc.c is the ordered set of free regions, aligned and with touching holes merged
    ([Xalloc.xhole_frees], [xallocz_allocates], [xfree_xallocz], [xspanalloc_aligned]);
    the linked timer queues are insertion into ordered lists ([Timers.timer_queues]);
    GRAB and RESTART implement application in any grouping of the arguments
    ([Curry.partial_application]); the string functions meet their specification
    on lists ([Cstring]); the hash table of extern.c is a list of pairs ([ExternTable]);
    the lexing engine finds the longest match ([Lexing.lex_engine_longest]); a parser whose tables pass the
    validator returns the value of a derivation of the tokens, or the parse ends after an error, found by the engine or signalled by an action
    ([ParseLaws.yyparse_parses]; there is one exception, [ParseLaws.derails], which is a defect of the code);
    comparison and hashing compute functions of the tree a value denotes
    ([Structural.structural_order], [Hash.hash_equal]); a minor collection is
    a renaming of the live blocks ([MinorCorrect.minor_collection_copies]);
    formatted output stores the longest part that fits of the text that the format stands for
    ([FmtOut.vsnprint_prints]), or hands it to the [write] of fakes.c ([FmtOut.vfprint_writes]); the tree of a pool is a multiset of
    free blocks with best fit ([PoolLaws.tree_refines]), and [poolallocl] and [poolfreel] keep
    their contracts, which for [poolfreel] has the joining of free neighbours ([poolallocl_allocates], [poolfreel_frees]), and [poolcheckl] accepts what they leave
    ([poolcheckl_accepts]); next fit takes the first block
    that is large enough after the last one taken, and the sweep joins neighbours
    ([FreeListLaws.fl_allocate_next_fit], [fl_merge_block_joins]); a digest does not depend on how the
    message is cut into pieces, and is the one of RFC 1321, whose table of sines is computed apart from the code ([Md5.md5_streams]); an operation on a window is done
    exactly once for each of its pixels, where the pixel is kept ([LayerMoves.memlayerop_partitions]).
    Invariants and safety: the memory of the machine is divided between kernel and users without loss ([Boot.xinit_partition]); exception handlers
    restore the state they saved ([Trap.try_with]); sorting stays inside the
    array whatever the comparison does ([Qsort.qsort_permutes]); the clock never goes
    backwards ([Tod.tod_monotone]); in every interleaving one context at most holds a
    spin lock ([Taslock.lock_excludes]); however the program and the collectors
    interleave, no block within reach is freed ([Collector.collector_safe]); however callers
    use a pool, no assertion fails and no data is lost ([PoolSafe.pool_runs]); windows keep their
    pictures when they change places ([LayerMoves.windows_keep_pictures]); the primitives on
    values of their OCaml types return values of theirs, or raise ([PrimTypes.primitives_typed],
    [Primitives.accesses_checked]).  Termination and liveness: decoding,
    sorting and the clock interrupt return, and every due timer fires
    ([Timers.timerintr_fires]); a free lock is taken and a held one can be
    released ([Taslock.lock_progress]); reading a message ends whatever its bytes
    ([Intern.input_ends]), hashing a cyclic value ends ([Hash.hash_ends]).
    Equivalence: specialised instructions, each with the code that interp.c has for it, and their expansions ([Curry.short_forms]); decoding of UTF-8 and its definition
    ([Rune.chartorune_exact]).  Round trips: graphs of
    blocks, shared and cyclic, through the marshalled bytes ([Marshal.marshal_roundtrip],
    [Copy.marshal_equal]), decimal integers ([FormatInt.string_of_int_roundtrip]), runes, channel descriptors, xfree of xalloc.  Bounds: 64-bit arithmetic modulo 2^64, tagged integers modulo 2^31, the error of
    the clock's conversions.  Where the code has a defect the theorem states what
    the code does: see [VlongDiv.signed_division] (-2^31 / -1),
    [Rune.runenlen_counts] (runes above Runemax), [Marshal.float_array_lost],
    [Structural.nan_not_transitive], [Hash.zeros_hash], [Taslock.cpu_not_set],
    [FormatInt.format_int_overruns], [PoolLaws.realloc_counts_twice],
    [ParseLaws.stale_slot_recovers], [ParseLaws.unstored_value], [Primitives.int_of_string_parses], [FreeListLaws.add_block_unsorted], [fragment_counts_twice], [merge_overflows].

    ** Not modelled

    - Device code and code that only moves registers (Bcm/ except [arch_cankaddr] and
      [getramsize]; the exchange with the video core, traps, the MMU, the
      coprocessors): its meaning is in the hardware.
    - The [lock]/[unlock] pairs of xalloc.c, tod.c and portclock.c: each model is of the code
      between them, which [Taslock.lock_excludes] makes exclusive.  Queued locks
      and the scheduler are not in this kernel.
    - Of the garbage collector: compact.c and weak.c.  Which free block is taken
      is an argument of [Gcheap], for which any policy is safe; [FreeList] is the policy.  The heap of [Mlvalues], which the other files of the run-time
      system use, names blocks; there allocation takes a fresh name and no collection is
      seen: [MinorCorrect.minor_collection_copies] and [Collector.collector_safe] say why.
      C primitives are a parameter of [Interp]; those of [Primitives] could be given for it.  Infix pointers
      (into the middle of a closure block) are no values of [Mlvalues].
    - The debugger, backtraces and the bytecode loader; channels, system calls and
      files; floating point (the mathematical functions, strtod, _v2d);
      of md5.c, the digest of a channel.
    - What [print] shows of the bytes that the [write] of fakes.c gets: it takes them as a format and ignores their number.
    - Of formatted output: runes as the unit of output ([f->runes]), floating-point conversions and %r.
    - Of the pools: the printing, the debugging flags, the locks.  [p->move] is a parameter, and the
      theorems are about pools that have none; [poolreallocl], [poolallocalignl] and
      [arenacompact] are definitions, with examples of runs.
    - Of the parsers: actions that start another parse, which shares the stacks; that tables accept every word of their
      grammar is not shown.
    - Drawing (Libmemdraw apart from the channel descriptors) and the consoles.  Of the windows only their order is
      modelled, on one screen that is not itself a window: not their creation, deletion and moves on
      the screen, and not drawing through them. *)
From stdpp Require Export base numbers list.
From Stdlib Require Export ZArith Lia.

#[export] Set Default Goal Selector "!".
#[global] Open Scope Z_scope.

(** ** Machine integers

    The program runs on a 32-bit ARM: [int], [long] and pointers have 32
    bits, [vlong] has 64.  A word is the [Z] of its unsigned value; [u32]
    and [u64] reduce an exact result to the word the machine keeps, and
    [s32] and [s64] give the signed reading of a word. *)

Definition u8 (x : Z) : Z := x mod 2 ^ 8.
Definition u16 (x : Z) : Z := x mod 2 ^ 16.
Definition u32 (x : Z) : Z := x mod 2 ^ 32.
Definition u64 (x : Z) : Z := x mod 2 ^ 64.
Definition s8 (x : Z) : Z := (x + 2 ^ 7) mod 2 ^ 8 - 2 ^ 7.
Definition s16 (x : Z) : Z := (x + 2 ^ 15) mod 2 ^ 16 - 2 ^ 15.
Definition s32 (x : Z) : Z := (x + 2 ^ 31) mod 2 ^ 32 - 2 ^ 31.
Definition s64 (x : Z) : Z := (x + 2 ^ 63) mod 2 ^ 64 - 2 ^ 63.

Declare Scope word_scope.
Delimit Scope word_scope with word.
#[global] Open Scope word_scope.
(** The operators of [ulong]: each wraps at 32 bits. *)
Notation "x ⊞ y" := (u32 (x + y)) (at level 50, left associativity) : word_scope.
Notation "x ⊟ y" := (u32 (x - y)) (at level 50, left associativity) : word_scope.
Notation "x ⊠ y" := (u32 (x * y)) (at level 40, left associativity) : word_scope.
Notation "x ⋘ n" := (u32 (Z.shiftl x n)) (at level 36, left associativity) : word_scope.
Notation "x ⋙ n" := (Z.shiftr x n) (at level 36, left associativity) : word_scope.
(** A comparison yields the C integers 0 and 1. *)
Definition c_bool (b : bool) : Z := if b then 1 else 0.

Definition is_u32 (x : Z) : Prop := 0 <= x < 2 ^ 32.
Definition is_u64 (x : Z) : Prop := 0 <= x < 2 ^ 64.
Definition is_s32 (x : Z) : Prop := - 2 ^ 31 <= x < 2 ^ 31.
Definition is_s64 (x : Z) : Prop := - 2 ^ 63 <= x < 2 ^ 63.

(** ** Results of kernel code

    [Panic] is a call of [panic] (or [abort]), [Fault] an access through a
    pointer that holds no object, [Loop] a loop that used up the bound of the
    model: the theorems show where the last two cannot happen. *)
Inductive result (A : Type) := Ok (a : A) | Panic | Fault | Loop.
Arguments Ok {A}. Arguments Panic {A}. Arguments Fault {A}. Arguments Loop {A}.

Definition rbind {A B} (c : result A) (f : A -> result B) : result B :=
  match c with Ok a => f a | Panic => Panic | Fault => Fault | Loop => Loop end.
Definition of_ptr {A} (o : option A) : result A :=
  match o with Some a => Ok a | None => Fault end.
Declare Scope result_scope.
Delimit Scope result_scope with result.
#[global] Open Scope result_scope.
Notation "'let*' x := c 'in' k" := (rbind c (fun x => k))
  (at level 10, x pattern, k at level 200) : result_scope.

Lemma rbind_Ok {A B} (c : result A) (f : A -> result B) r :
  rbind c f = Ok r -> exists a, c = Ok a /\ f a = Ok r.
Proof. destruct c; [by eexists|done..]. Qed.
Lemma of_ptr_Ok {A} (o : option A) a : of_ptr o = Ok a -> o = Some a.
Proof. destruct o; by intros [= ->]. Qed.

(** ** Tactics *)

(** Invert a computation that succeeded, step by step. *)
Ltac inv_ok H :=
  lazymatch type of H with
  | rbind _ _ = Ok _ =>
      let a := fresh "a" in let H1 := fresh "Hstep" in
      apply rbind_Ok in H as (a & H1 & H); try (inv_ok H1); inv_ok H
  | (let '(_, _) := ?a in _) = Ok _ => destruct a; inv_ok H
  | of_ptr _ = Ok _ => apply of_ptr_Ok in H
  | (if ?c then _ else _) = Ok _ => destruct c eqn:?; inv_ok H
  | Fault = Ok _ => discriminate H
  | Panic = Ok _ => discriminate H
  | Ok _ = Ok _ => injection H; clear H; intros; subst
  | _ => idtac
  end.

(** Turn [div] and [mod] into their equations and call [lia]. *)
Ltac zlia := Z.to_euclidean_division_equations; lia.
Ltac znia := Z.to_euclidean_division_equations; nia.
(** Make the literals of the word sizes visible to [lia]. *)
Ltac unfold_words :=
  unfold is_u32, is_u64, is_s32, is_s64, u8, u16, u32, u64, s8, s16, s32, s64 in *.
Ltac solve_word := unfold_words; zlia.
(** Split every boolean test of the goal into its two cases. *)
Ltac case_tests :=
  repeat match goal with
    | |- context [(?a =? ?b)] => destruct (Z.eqb_spec a b)
    | |- context [(?a <? ?b)] => destruct (Z.ltb_spec a b)
    | |- context [(?a <=? ?b)] => destruct (Z.leb_spec a b)
    | |- context [(?a >? ?b)] => rewrite (Z.gtb_ltb a b)
    | |- context [(?a >=? ?b)] => rewrite (Z.geb_leb a b)
    end; simpl.
Ltac case_tests_in H :=
  repeat match type of H with
    | context [(?a =? ?b)] => destruct (Z.eqb_spec a b)
    | context [(?a <? ?b)] => destruct (Z.ltb_spec a b)
    | context [(?a <=? ?b)] => destruct (Z.leb_spec a b)
    | context [(?a >? ?b)] => rewrite (Z.gtb_ltb a b) in H
    | context [(?a >=? ?b)] => rewrite (Z.geb_leb a b) in H
    end; simpl in H.

(** Split the [if]s of the goal from the outside in, naming the tests. *)
Ltac case_if :=
  match goal with
  | |- context [if ?c then _ else _] =>
      lazymatch c with
      | context [if _ then _ else _] => fail
      | _ => destruct c eqn:?
      end
  end.
Ltac case_ifs := repeat (case_if; simpl).

(** ** Words: ranges *)

Create HintDb words.
Create Rewrite HintDb words.

Lemma u8_range x : 0 <= u8 x < 2 ^ 8.
Proof. apply Z.mod_pos_bound. lia. Qed.
Lemma u16_range x : 0 <= u16 x < 2 ^ 16.
Proof. apply Z.mod_pos_bound. lia. Qed.
Lemma u32_range x : is_u32 (u32 x).
Proof. apply Z.mod_pos_bound. lia. Qed.
Lemma u64_range x : is_u64 (u64 x).
Proof. apply Z.mod_pos_bound. lia. Qed.
Lemma s32_range x : is_s32 (s32 x).
Proof. unfold is_s32, s32. pose proof (Z.mod_pos_bound (x + 2^31) (2^32)). lia. Qed.
Lemma s64_range x : is_s64 (s64 x).
Proof. unfold is_s64, s64. pose proof (Z.mod_pos_bound (x + 2^63) (2^64)). lia. Qed.
Lemma u32_small x : is_u32 x -> u32 x = x.
Proof. apply Z.mod_small. Qed.
Lemma u64_small x : is_u64 x -> u64 x = x.
Proof. apply Z.mod_small. Qed.
Lemma s32_small x : is_s32 x -> s32 x = x.
Proof. unfold is_s32, s32. intros H. rewrite Z.mod_small; lia. Qed.
Lemma s64_small x : is_s64 x -> s64 x = x.
Proof. unfold is_s64, s64. intros H. rewrite Z.mod_small; lia. Qed.
#[export] Hint Resolve u8_range u16_range u32_range u64_range s32_range s64_range : words.
#[export] Hint Rewrite u32_small s32_small u64_small s64_small using (unfold_words; lia) : words.

Lemma s64_u64 x : s64 (u64 x) = s64 x.
Proof. unfold s64, u64. rewrite Zplus_mod_idemp_l. done. Qed.
Lemma s32_u32 x : s32 (u32 x) = s32 x.
Proof. unfold s32, u32. rewrite Zplus_mod_idemp_l. done. Qed.
Lemma u64_s64 x : u64 (s64 x) = u64 x.
Proof.
  unfold s64, u64. rewrite Zminus_mod_idemp_l. f_equal. lia.
Qed.
Lemma u32_s32 x : u32 (s32 x) = u32 x.
Proof. unfold s32, u32. rewrite Zminus_mod_idemp_l. f_equal. lia. Qed.
Lemma u64_eq_iff x y : u64 x = u64 y <-> s64 x = s64 y.
Proof.
  split; intros H.
  - rewrite <-(s64_u64 x), <-(s64_u64 y). by rewrite H.
  - rewrite <-(u64_s64 x), <-(u64_s64 y). by rewrite H.
Qed.
(** Wrapping inside a sum is absorbed by the wrapping of the sum. *)
Lemma s64_add_l x y : s64 (s64 x + y) = s64 (x + y).
Proof.
  apply u64_eq_iff. unfold u64. rewrite <-Zplus_mod_idemp_l.
  change (s64 x mod 2 ^ 64) with (u64 (s64 x)). rewrite u64_s64. apply Zplus_mod_idemp_l.
Qed.
Lemma s64_add_r x y : s64 (x + s64 y) = s64 (x + y).
Proof. rewrite (Z.add_comm x (s64 y)), (Z.add_comm x y). apply s64_add_l. Qed.
(** The signed reading of a word, by its top bit. *)
Lemma s32_word x : is_u32 x -> s32 x = if x <? 2 ^ 31 then x else x - 2 ^ 32.
Proof. intros H. case_tests; solve_word. Qed.
Lemma s64_word x : is_u64 x -> s64 x = if x <? 2 ^ 63 then x else x - 2 ^ 64.
Proof. intros H. case_tests; solve_word. Qed.

(** ** Bits *)

Lemma shiftr_div a n : 0 <= n -> Z.shiftr a n = a / 2 ^ n.
Proof. apply Z.shiftr_div_pow2. Qed.
Lemma shiftl_mul a n : 0 <= n -> Z.shiftl a n = a * 2 ^ n.
Proof. apply Z.shiftl_mul_pow2. Qed.
Lemma testbit_small a n i : 0 <= a < 2 ^ n -> n <= i -> Z.testbit a i = false.
Proof.
  intros H Hi. destruct (Z.eq_dec a 0) as [->|]; [apply Z.bits_0|].
  apply Z.bits_above_log2; [lia|]. apply Z.log2_lt_pow2; [lia|].
  eapply Z.lt_le_trans; [apply H|]. apply Z.pow_le_mono_r; lia.
Qed.
(** Or-ing a low field into a shifted high field is an addition. *)
Lemma lor_add hi lo n :
  0 <= n -> 0 <= lo < 2 ^ n -> Z.lor (hi * 2 ^ n) lo = hi * 2 ^ n + lo.
Proof.
  intros Hn Hlo. symmetry. rewrite <-Z.shiftl_mul_pow2 by done.
  rewrite Z.add_nocarry_lxor.
  - apply Z.bits_inj'. intros i Hi. rewrite Z.lxor_spec, Z.lor_spec.
    destruct (Z.lt_ge_cases i n).
    + rewrite Z.shiftl_spec_low by done. by destruct (Z.testbit lo i).
    + rewrite (testbit_small lo n i) by done. by destruct (Z.testbit _ i).
  - apply Z.bits_inj'. intros i Hi. rewrite Z.land_spec, Z.bits_0.
    destruct (Z.lt_ge_cases i n).
    + by rewrite Z.shiftl_spec_low.
    + rewrite (testbit_small lo n i) by done. apply andb_false_r.
Qed.
Lemma lor_add_r hi lo n :
  0 <= n -> 0 <= lo < 2 ^ n -> Z.lor lo (hi * 2 ^ n) = lo + hi * 2 ^ n.
Proof. intros. rewrite Z.lor_comm, lor_add by done. lia. Qed.
Lemma land_mask x n : 0 <= n -> Z.land x (2 ^ n - 1) = x mod 2 ^ n.
Proof.
  intros. rewrite <-Z.land_ones by done. f_equal. rewrite Z.ones_equiv. lia.
Qed.
(** Clearing the low [n] bits of a word rounds it down to a multiple of [2^n]. *)
Lemma land_clear x n : 0 <= n -> Z.land x (Z.lnot (2 ^ n - 1)) = x - x mod 2 ^ n.
Proof.
  intros. replace (2 ^ n - 1) with (Z.ones n) by (rewrite Z.ones_equiv; lia).
  rewrite <-Z.ldiff_land, Z.ldiff_ones_r by done.
  rewrite Z.shiftr_div_pow2, Z.shiftl_mul_pow2 by done.
  pose proof (Z.div_mod x (2 ^ n)). lia.
Qed.
(** The same with the mask of a 32-bit word. *)
Lemma land_clear_word x n :
  is_u32 x -> 0 <= n <= 32 -> Z.land x (0xffffffff - (2 ^ n - 1)) = x - x mod 2 ^ n.
Proof.
  intros Hx Hn. assert (2 ^ 32 = 2 ^ n * 2 ^ (32 - n)) as H32 by (rewrite <-Z.pow_add_r by lia; f_equal; lia).
  assert (0 < 2 ^ n) by (apply Z.pow_pos_nonneg; lia).
  assert (0 < 2 ^ (32 - n)) by (apply Z.pow_pos_nonneg; lia).
  replace (0xffffffff - (2 ^ n - 1)) with (Z.land (2 ^ 32 - 1) (Z.lnot (2 ^ n - 1))).
  - rewrite Z.land_assoc, land_mask, Z.mod_small by (done || lia). apply land_clear; lia.
  - rewrite land_clear by lia.
    rewrite <-(Z.mod_unique (2 ^ 32 - 1) (2 ^ n) (2 ^ (32 - n) - 1) (2 ^ n - 1)); lia.
Qed.
Lemma align_up v p :
  0 < p -> (v + p - (v + p) mod p) mod p = 0 /\ v < v + p - (v + p) mod p <= v + p.
Proof.
  intros Hp. pose proof (Z.mod_pos_bound (v + p) p). pose proof (Z.div_mod (v + p) p).
  split; [|lia]. rewrite Z.mod_divide by lia. exists ((v + p) / p). lia.
Qed.
