(* ===== verification/Vlong.v ===== *)
(** * 64-bit integers on a 32-bit machine: kernel/Libc/arm/vlrt.c

    The compiler turns every operation on [vlong] and [uvlong] into a call
    of this file.  A [Vlong] is the pair of its 32-bit halves; the results
    the C functions store through a pointer are the values returned here.
    The division routines are in [VlongDiv]. *)
From S2P Require Import Prelude.

(** ** Data *)

Record Vlong := mkVlong { lo : Z; hi : Z }.

Definition SIGN (n : Z) : Z := Z.shiftl 1 (n - 1).

(** ** Addition, negation, increments *)

Definition addv (a b : Vlong) : Vlong :=
  let lo' := lo a ⊞ lo b in
  let hi' := hi a ⊞ hi b in
  let hi' := if lo' <? lo a then hi' ⊞ 1 else hi' in
  mkVlong lo' hi'.

Definition subv (a b : Vlong) : Vlong :=
  let lo' := lo a ⊟ lo b in
  let hi' := hi a ⊟ hi b in
  let hi' := if lo' >? lo a then hi' ⊟ 1 else hi' in
  mkVlong lo' hi'.

Definition vneg (v : Vlong) : Vlong :=
  if lo v =? 0 then mkVlong (lo v) (u32 (- hi v))
  else mkVlong (u32 (- lo v)) (u32 (Z.lnot (hi v))).

(** [_vpp(l, r)] and its relatives read and write [r] and store in [l] the
    value of the C expression: the pair is (value of [*l], value of [*r]). *)
Definition vpp (r : Vlong) : Vlong * Vlong :=
  let l := mkVlong (lo r) (hi r) in
  let rlo := lo r ⊞ 1 in
  let rhi := if rlo =? 0 then hi r ⊞ 1 else hi r in
  (l, mkVlong rlo rhi).

Definition vmm (r : Vlong) : Vlong * Vlong :=
  let l := mkVlong (lo r) (hi r) in
  let rhi := if lo r =? 0 then hi r ⊟ 1 else hi r in
  let rlo := lo r ⊟ 1 in
  (l, mkVlong rlo rhi).

Definition ppv (r : Vlong) : Vlong * Vlong :=
  let rlo := lo r ⊞ 1 in
  let rhi := if rlo =? 0 then hi r ⊞ 1 else hi r in
  (mkVlong rlo rhi, mkVlong rlo rhi).

Definition mmv (r : Vlong) : Vlong * Vlong :=
  let rhi := if lo r =? 0 then hi r ⊟ 1 else hi r in
  let rlo := lo r ⊟ 1 in
  (mkVlong rlo rhi, mkVlong rlo rhi).

(** ** Shifts: the count is a C [int] *)

Definition rshav (a : Vlong) (b : Z) : Vlong :=
  let t := s32 (hi a) in
  if b >=? 32 then
    if b >=? 64 then mkVlong (u32 (t ⋙ 31)) (u32 (t ⋙ 31))
    else mkVlong (u32 (t ⋙ (b - 32))) (u32 (t ⋙ 31))
  else if b <=? 0 then mkVlong (lo a) (u32 t)
  else mkVlong (Z.lor (t ⋘ (32 - b)) (lo a ⋙ b)) (u32 (t ⋙ b)).

Definition rshlv (a : Vlong) (b : Z) : Vlong :=
  let t := hi a in
  if b >=? 32 then
    if b >=? 64 then mkVlong 0 0
    else mkVlong (t ⋙ (b - 32)) 0
  else if b <=? 0 then mkVlong (lo a) t
  else mkVlong (Z.lor (t ⋘ (32 - b)) (lo a ⋙ b)) (t ⋙ b).

Definition lshv (a : Vlong) (b : Z) : Vlong :=
  let t := lo a in
  if b >=? 32 then
    if b >=? 64 then mkVlong 0 0
    else mkVlong 0 (t ⋘ (b - 32))
  else if b <=? 0 then mkVlong t (hi a)
  else mkVlong (t ⋘ b) (Z.lor (t ⋙ (32 - b)) (hi a ⋘ b)).

(** ** Bitwise operations *)

Definition andv (a b : Vlong) : Vlong := mkVlong (Z.land (lo a) (lo b)) (Z.land (hi a) (hi b)).
Definition orv (a b : Vlong) : Vlong := mkVlong (Z.lor (lo a) (lo b)) (Z.lor (hi a) (hi b)).
Definition xorv (a b : Vlong) : Vlong := mkVlong (Z.lxor (lo a) (lo b)) (Z.lxor (hi a) (hi b)).

(** ** Conversions.  The local [long t] keeps the signed value. *)

Definition p2v (p : Z) : Vlong := let t := s32 p in mkVlong (u32 t) 0.
Definition sl2v (sl : Z) : Vlong := let t := s32 sl in mkVlong (u32 t) (u32 (t ⋙ 31)).
Definition ul2v (ul : Z) : Vlong := let t := s32 ul in mkVlong (u32 t) 0.
Definition si2v (si : Z) : Vlong := let t := s32 si in mkVlong (u32 t) (u32 (t ⋙ 31)).
Definition ui2v (ui : Z) : Vlong := let t := s32 ui in mkVlong (u32 t) 0.
Definition sh2v (sh : Z) : Vlong :=
  let t := s32 (Z.shiftl sh 16) ⋙ 16 in mkVlong (u32 t) (u32 (t ⋙ 31)).
Definition uh2v (ul : Z) : Vlong := let t := s32 (Z.land ul 0xffff) in mkVlong (u32 t) 0.
Definition sc2v (uc : Z) : Vlong :=
  let t := s32 (Z.shiftl uc 24) ⋙ 24 in mkVlong (u32 t) (u32 (t ⋙ 31)).
Definition uc2v (ul : Z) : Vlong := let t := s32 (Z.land ul 0xff) in mkVlong (u32 t) 0.

Definition v2sc (rv : Vlong) : Z := s32 (Z.shiftl (Z.land (lo rv) 0xff) 24) ⋙ 24.
Definition v2uc (rv : Vlong) : Z := Z.land (lo rv) 0xff.
Definition v2sh (rv : Vlong) : Z := s32 (Z.shiftl (Z.land (lo rv) 0xffff) 16) ⋙ 16.
Definition v2uh (rv : Vlong) : Z := Z.land (lo rv) 0xffff.
Definition v2sl (rv : Vlong) : Z := s32 (lo rv).
Definition v2ul (rv : Vlong) : Z := s32 (lo rv).
Definition v2si (rv : Vlong) : Z := s32 (lo rv).
Definition v2ui (rv : Vlong) : Z := s32 (lo rv).

(** ** Comparisons *)

Definition testv (rv : Vlong) : bool := negb (lo rv =? 0) || negb (hi rv =? 0).
Definition eqv (l r : Vlong) : bool := (lo l =? lo r) && (hi l =? hi r).
Definition nev (l r : Vlong) : bool := negb (lo l =? lo r) || negb (hi l =? hi r).
Definition ltv (l r : Vlong) : bool :=
  (s32 (hi l) <? s32 (hi r)) || ((hi l =? hi r) && (lo l <? lo r)).
Definition lev (l r : Vlong) : bool :=
  (s32 (hi l) <? s32 (hi r)) || ((hi l =? hi r) && (lo l <=? lo r)).
Definition gtv (l r : Vlong) : bool :=
  (s32 (hi l) >? s32 (hi r)) || ((hi l =? hi r) && (lo l >? lo r)).
Definition gev (l r : Vlong) : bool :=
  (s32 (hi l) >? s32 (hi r)) || ((hi l =? hi r) && (lo l >=? lo r)).
Definition lov (l r : Vlong) : bool :=
  (hi l <? hi r) || ((hi l =? hi r) && (lo l <? lo r)).
Definition lsv (l r : Vlong) : bool :=
  (hi l <? hi r) || ((hi l =? hi r) && (lo l <=? lo r)).
Definition hiv (l r : Vlong) : bool :=
  (hi l >? hi r) || ((hi l =? hi r) && (lo l >? lo r)).
Definition hsv (l r : Vlong) : bool :=
  (hi l >? hi r) || ((hi l =? hi r) && (lo l >=? lo r)).

(** ** Assignment operators: [lv op= rv] through a run-time type code

    [m] is the 8-byte cell at [lv] in the little-endian order of the machine,
    read and written at the width of the code; [fn(&u, t, rv)] may fault. *)

Definition load_lv (type : Z) (m : Vlong) : option Vlong :=
  match type with
  | 1 => let l := u32 (s8 (lo m)) in Some (mkVlong l (l ⋙ 31))
  | 2 => Some (mkVlong (u8 (lo m)) 0)
  | 3 => let l := u32 (s16 (lo m)) in Some (mkVlong l (l ⋙ 31))
  | 4 => Some (mkVlong (u16 (lo m)) 0)
  | 9 | 5 => let l := u32 (s32 (lo m)) in Some (mkVlong l (l ⋙ 31))
  | 10 | 6 => Some (mkVlong (lo m) 0)
  | 7 | 8 => Some m
  | _ => None
  end.

Definition store_lv (type : Z) (m u : Vlong) : Vlong :=
  match type with
  | 1 | 2 => mkVlong (Z.lor (Z.land (lo m) 0xffffff00) (u8 (lo u))) (hi m)
  | 3 | 4 => mkVlong (Z.lor (Z.land (lo m) 0xffff0000) (u16 (lo u))) (hi m)
  | 9 | 10 | 5 | 6 => mkVlong (lo u) (hi m)
  | _ => u
  end.

(** The pair is (value of [*ret], cell at [lv]); [None] is [abort] or a fault
    of the operation. *)
Definition vasop (ret m : Vlong) (fn : Vlong -> Vlong -> Vlong -> option Vlong)
    (type : Z) (rv : Vlong) : option (Vlong * Vlong) :=
  match load_lv type m with
  | None => None
  | Some t =>
      match fn ret t rv with
      | None => None
      | Some u => Some (u, store_lv type m u)
      end
  end.

(** ** Conversion from [double]

    [xhi] and [xlo] are the halves of the IEEE bit pattern of [d].  On
    overflow the code assigns [d] itself to a [ulong], which C leaves
    undefined: [d_to_ulong] is what the machine makes of it. *)
Definition d2v (d_to_ulong : Z -> Z -> Z) (dhi dlo : Z) : Vlong :=
  let xhi := Z.lor (Z.land dhi 0xfffff) 0x100000 in
  let xlo := dlo in
  let sh := 1075 - Z.land (dhi ⋙ 20) 0x7ff in
  let '(ylo, yhi) :=
    if sh >=? 0 then
      if sh <? 32 then
        if sh =? 0 then (xlo, xhi)
        else (Z.lor (xlo ⋙ sh) (xhi ⋘ (32 - sh)), xhi ⋙ sh)
      else if sh =? 32 then (xhi, 0)
      else if sh <? 64 then (xhi ⋙ (sh - 32), 0)
      else (0, 0)
    else
      let sh := - sh in
      if sh <=? 10 then (xlo ⋘ sh, Z.lor (xhi ⋘ sh) (xlo ⋙ (32 - sh)))
      else (0, d_to_ulong dhi dlo) in
  if negb (Z.land dhi (SIGN 32) =? 0) then
    if negb (ylo =? 0) then mkVlong (u32 (- ylo)) (u32 (Z.lnot yhi))
    else mkVlong ylo (u32 (- yhi))
  else mkVlong ylo yhi.

(** ** Specification: the numbers a [Vlong] stands for *)

Definition wf (v : Vlong) : Prop := is_u32 (lo v) /\ is_u32 (hi v).
Definition uval (v : Vlong) : Z := hi v * 2 ^ 32 + lo v.
Definition sval (v : Vlong) : Z := s64 (uval v).
Definition of_u64 (x : Z) : Vlong := mkVlong (u32 x) (u64 x / 2 ^ 32).

(** The integer part of a finite [double], from the fields of its bits. *)
Definition double_trunc (dhi dlo : Z) : Z :=
  let e := (dhi / 2 ^ 20) mod 2 ^ 11 in
  let m := (2 ^ 20 + dhi mod 2 ^ 20) * 2 ^ 32 + dlo in
  let a := if e <=? 1075 then m / 2 ^ (1075 - e) else m * 2 ^ (e - 1075) in
  if dhi <? 2 ^ 31 then a else - a.

(** The C type behind a code of [_vasop]: its width and the value of the
    cell read at this type. *)
Definition lv_width (type : Z) : Z :=
  match type with 1 | 2 => 8 | 3 | 4 => 16 | 5 | 6 | 9 | 10 => 32 | _ => 64 end.
Definition lv_value (type : Z) (m : Vlong) : Z :=
  match type with
  | 1 => s8 (lo m) | 2 => u8 (lo m) | 3 => s16 (lo m) | 4 => u16 (lo m)
  | 5 | 9 => s32 (lo m) | 6 | 10 => lo m | _ => uval m
  end.
Definition lv_code (type : Z) : Prop := 1 <= type <= 10.
Definition lv_signed_narrow (type : Z) : bool :=
  match type with 1 | 3 | 5 | 9 => true | _ => false end.

(** ** Lemmas *)

Lemma uval_range v : wf v -> is_u64 (uval v).
Proof. unfold wf, uval. intros [? ?]. solve_word. Qed.
Lemma sval_range v : is_s64 (sval v).
Proof. apply s64_range. Qed.
Lemma u64_uval v : wf v -> u64 (uval v) = uval v.
Proof. intros. by apply u64_small, uval_range. Qed.
Lemma u64_sval v : wf v -> u64 (sval v) = uval v.
Proof. intros. unfold sval. by rewrite u64_s64, u64_uval. Qed.
Lemma uval_inj a b : wf a -> wf b -> uval a = uval b -> a = b.
Proof.
  destruct a as [al ah], b as [bl bh]. unfold wf, uval; simpl.
  intros [? ?] [? ?] ?. assert (al = bl) by solve_word. assert (ah = bh) by lia. by subst.
Qed.
Lemma sval_inj a b : wf a -> wf b -> sval a = sval b -> a = b.
Proof.
  intros Ha Hb H. apply uval_inj; [done..|].
  rewrite <-(u64_sval a), <-(u64_sval b) by done. by rewrite H.
Qed.
Lemma of_u64_wf x : wf (of_u64 x).
Proof. unfold wf, of_u64; simpl. split; solve_word. Qed.
Lemma uval_of_u64 x : uval (of_u64 x) = u64 x.
Proof. unfold uval, of_u64; simpl. solve_word. Qed.
Lemma of_u64_uval v : wf v -> of_u64 (uval v) = v.
Proof. intros. apply uval_inj; [apply of_u64_wf|done|]. by rewrite uval_of_u64, u64_uval. Qed.
Lemma sval_word v :
  wf v -> sval v = if hi v <? 2 ^ 31 then uval v else uval v - 2 ^ 64.
Proof.
  intros Hwf. unfold sval. rewrite s64_word by (by apply uval_range).
  unfold wf, uval in *. case_tests; unfold_words; lia.
Qed.
(** The signed value splits into the signed high half and the low half. *)
Lemma sval_halves v : wf v -> sval v = s32 (hi v) * 2 ^ 32 + lo v.
Proof.
  intros Hwf. rewrite sval_word by done. destruct Hwf as [? ?].
  rewrite s32_word by done. unfold uval. case_tests; lia.
Qed.

Lemma wf_parts a b : is_u32 a -> is_u32 b -> wf (mkVlong a b).
Proof. done. Qed.
#[export] Hint Resolve wf_parts of_u64_wf uval_range sval_range : words.

Lemma addv_spec a b : wf a -> wf b -> wf (addv a b) /\ uval (addv a b) = u64 (uval a + uval b).
Proof.
  destruct a as [al ah], b as [bl bh]. unfold wf, addv, uval; simpl.
  intros [? ?] [? ?]. case_tests; repeat split; solve_word.
Qed.
Lemma subv_spec a b : wf a -> wf b -> wf (subv a b) /\ uval (subv a b) = u64 (uval a - uval b).
Proof.
  destruct a as [al ah], b as [bl bh]. unfold wf, subv, uval; simpl.
  intros [? ?] [? ?]. case_tests; repeat split; solve_word.
Qed.
Lemma vneg_spec v : wf v -> wf (vneg v) /\ uval (vneg v) = u64 (- uval v).
Proof.
  destruct v as [l h]. unfold wf, vneg, uval, Z.lnot; simpl.
  intros [? ?]. case_tests; repeat split; solve_word.
Qed.

(** Splitting a 64-bit shift by [0 < b < 32] across the two halves. *)
Lemma pow2_split b : 0 <= b <= 32 -> 2 ^ b * 2 ^ (32 - b) = 2 ^ 32.
Proof. intros. rewrite <-Z.pow_add_r by lia. f_equal. lia. Qed.
Lemma u32_shiftl_field t b :
  0 <= b <= 32 -> u32 (t * 2 ^ b) = (t mod 2 ^ (32 - b)) * 2 ^ b.
Proof.
  intros. unfold u32. rewrite <-(pow2_split (32 - b)) by lia.
  replace (32 - (32 - b)) with b by lia.
  rewrite <-Z.mul_mod_distr_r; lia.
Qed.
Lemma u32_high_part l b : is_u32 l -> 0 <= b <= 32 -> 0 <= l / 2 ^ b < 2 ^ (32 - b).
Proof.
  intros [? ?] ?. split; [apply Z.div_pos; lia|].
  apply Z.div_lt_upper_bound; [lia|]. by rewrite pow2_split.
Qed.

(** The low half of a right shift: the low bits of [t] above those of [l]. *)
Lemma rsh_low t l b :
  is_u32 l -> 0 <= b <= 32 ->
  Z.lor (t ⋘ (32 - b)) (l ⋙ b) = u32 ((t * 2 ^ 32 + l) / 2 ^ b).
Proof.
  intros Hl Hb. rewrite shiftl_mul, shiftr_div, u32_shiftl_field by lia.
  replace (32 - (32 - b)) with b by lia.
  rewrite lor_add by (try apply u32_high_part; done || lia).
  assert ((t * 2 ^ 32 + l) / 2 ^ b = t * 2 ^ (32 - b) + l / 2 ^ b) as ->.
  { rewrite <-(pow2_split b), <-Z.div_add_l by lia. f_equal. ring. }
  pose proof (u32_high_part l b Hl Hb). unfold u32.
  rewrite <-(pow2_split b), Z.mul_comm, (Z.mul_comm (2 ^ b)) by done.
  rewrite Z.rem_mul_r by lia.
  rewrite (Z.add_comm (t * _)), Z.mod_add, (Z.mod_small (l / 2 ^ b)) by lia.
  rewrite Z.div_add by lia. rewrite (Z.div_small (l / 2 ^ b)), Z.add_0_l by lia. ring.
Qed.
Lemma rsh_high t l b :
  is_u32 l -> 0 <= b <= 32 -> (t * 2 ^ 32 + l) / 2 ^ b / 2 ^ 32 = t / 2 ^ b.
Proof.
  intros Hl Hb. rewrite Z.div_div, (Z.mul_comm (2 ^ b)), <-Z.div_div by lia.
  rewrite Z.div_add_l, (Z.div_small l) by (unfold is_u32 in *; lia). f_equal. lia.
Qed.

Lemma shiftr_word_range x b : is_u32 x -> 0 <= b -> is_u32 (x / 2 ^ b).
Proof.
  intros [? ?] ?. split; [apply Z.div_pos; lia|].
  apply Z.div_lt_upper_bound; nia.
Qed.
Lemma shiftr_signed_range x b : is_s32 x -> 0 <= b -> is_s32 (x / 2 ^ b).
Proof.
  intros [? ?] ?. split; [apply Z.div_le_lower_bound; nia|].
  apply Z.div_lt_upper_bound; nia.
Qed.
(** The parts of a number over 32 bits, after reassembly. *)
Lemma u32_split x : u32 (x / 2 ^ 32) * 2 ^ 32 + u32 x = u64 x.
Proof. solve_word. Qed.

(** A shift by 32 or more drops the low half. *)
Lemma div_beyond_low h l b :
  is_u32 l -> 32 <= b -> (h * 2 ^ 32 + l) / 2 ^ b = h / 2 ^ (b - 32).
Proof.
  intros Hl Hb. replace b with (32 + (b - 32)) at 1 by lia.
  rewrite Z.pow_add_r, <-Z.div_div by lia.
  rewrite Z.div_add_l, (Z.div_small l) by (unfold_words; lia). f_equal. lia.
Qed.
(** A shift by the whole width leaves the sign. *)
Lemma div_sign t b : is_s32 t -> 31 <= b -> t / 2 ^ b = if t <? 0 then -1 else 0.
Proof.
  intros Ht Hb. assert (2 ^ 31 <= 2 ^ b) by (apply Z.pow_le_mono_r; lia). unfold_words.
  case_tests; [|apply Z.div_small; lia].
  symmetry. apply Z.div_unique with (r := t + 2 ^ b); lia.
Qed.
Lemma u64_high x : u64 x / 2 ^ 32 = u32 (x / 2 ^ 32).
Proof. solve_word. Qed.

Lemma rshlv_spec a b : wf a -> 0 <= b -> rshlv a b = of_u64 (uval a / 2 ^ b).
Proof.
  destruct a as [l h]. intros [Hl Hh] Hb. unfold rshlv, of_u64, uval; simpl in *.
  rewrite u64_high. case_ifs.
  - rewrite div_beyond_low, (Z.div_small h); [done|split; [apply Hh|]|done|lia].
    eapply Z.lt_le_trans; [apply Hh|]. apply Z.pow_le_mono_r; lia.
  - rewrite div_beyond_low, shiftr_div by (done || lia).
    pose proof (shiftr_word_range h (b - 32) Hh ltac:(lia)).
    rewrite (u32_small (_ / _)) by done. f_equal. unfold_words. rewrite Z.div_small by lia. done.
  - assert (b = 0) as -> by lia. rewrite Z.pow_0_r, Z.div_1_r. f_equal; solve_word.
  - rewrite rsh_low, rsh_high, shiftr_div by (done || lia).
    f_equal. symmetry. by apply u32_small, shiftr_word_range; [|lia].
Qed.

Lemma rshav_spec a b : wf a -> 0 <= b -> rshav a b = of_u64 (sval a / 2 ^ b).
Proof.
  intros Hwf Hb. rewrite sval_halves by done. destruct a as [l h]. destruct Hwf as [Hl Hh].
  unfold rshav, of_u64; simpl in *. pose proof (s32_range h) as Ht.
  generalize dependent (s32 h). intros t Ht. rewrite u64_high. case_ifs.
  - rewrite div_beyond_low, shiftr_div, !div_sign by (done || lia). case_tests; done.
  - rewrite div_beyond_low, !shiftr_div by (done || lia).
    pose proof (shiftr_signed_range t (b - 32) Ht ltac:(lia)).
    rewrite Z.div_div, <-Z.pow_add_r, (div_sign t 31), (div_sign t (_ + _)) by (done || lia). done.
  - assert (b = 0) as -> by lia. rewrite Z.pow_0_r, Z.div_1_r. f_equal; solve_word.
  - rewrite rsh_low, rsh_high, shiftr_div by (done || lia). done.
Qed.

(** A left shift by [b] and the high word of the result. *)
Lemma shl_beyond x b : 32 <= b -> x * 2 ^ b = x * 2 ^ (b - 32) * 2 ^ 32.
Proof. intros. rewrite <-Z.mul_assoc, <-Z.pow_add_r by lia. do 2 f_equal. lia. Qed.
Lemma shl_high x b : 0 <= b <= 32 -> x * 2 ^ b / 2 ^ 32 = x / 2 ^ (32 - b).
Proof.
  intros. rewrite <-(pow2_split (32 - b)) by lia. replace (32 - (32 - b)) with b by lia.
  rewrite Z.div_mul_cancel_r; lia.
Qed.
Lemma u32_multiple x : u32 (x * 2 ^ 32) = 0.
Proof. apply Z.mod_mul. lia. Qed.
Lemma u32_add_multiple x y : u32 (x * 2 ^ 32 + y) = u32 y.
Proof. unfold u32. by rewrite Z.add_comm, Z.mod_add by lia. Qed.

Lemma lshv_spec a b : wf a -> 0 <= b -> lshv a b = of_u64 (uval a * 2 ^ b).
Proof.
  destruct a as [l h]. intros [Hl Hh] Hb. unfold lshv, of_u64, uval; simpl in *.
  rewrite u64_high. case_ifs.
  - rewrite (shl_beyond _ b), u32_multiple, Z.div_mul by lia.
    rewrite (shl_beyond _ (b - 32)), u32_multiple by lia. done.
  - rewrite (shl_beyond _ b), u32_multiple, Z.div_mul, shiftl_mul by lia. f_equal.
    rewrite <-(u32_add_multiple (h * 2 ^ (b - 32))). f_equal. ring.
  - assert (b = 0) as -> by lia. rewrite Z.pow_0_r, Z.mul_1_r. f_equal; solve_word.
  - rewrite shl_high, Z.lor_comm, <-rsh_low, shiftl_mul by (done || lia). f_equal.
    + rewrite <-(u32_add_multiple (h * 2 ^ b)). f_equal. ring.
    + by replace (32 - (32 - b)) with b by lia.
Qed.

(** A result known by its value. *)
Lemma of_u64_intro v x : wf v -> uval v = u64 x -> v = of_u64 x.
Proof. intros. apply uval_inj; [done|apply of_u64_wf|]. by rewrite uval_of_u64. Qed.
Lemma addv_eq a b : wf a -> wf b -> addv a b = of_u64 (uval a + uval b).
Proof. intros. apply of_u64_intro; by apply addv_spec. Qed.
Lemma subv_eq a b : wf a -> wf b -> subv a b = of_u64 (uval a - uval b).
Proof. intros. apply of_u64_intro; by apply subv_spec. Qed.
Lemma vneg_eq v : wf v -> vneg v = of_u64 (- uval v).
Proof. intros. apply of_u64_intro; by apply vneg_spec. Qed.
Lemma incr_eq l h :
  wf (mkVlong l h) ->
  mkVlong (l ⊞ 1) (if l ⊞ 1 =? 0 then h ⊞ 1 else h) = of_u64 (uval (mkVlong l h) + 1).
Proof.
  unfold wf, uval; simpl. intros [? ?]. apply of_u64_intro; unfold wf, uval; simpl;
    case_tests; solve_word.
Qed.
Lemma decr_eq l h :
  wf (mkVlong l h) ->
  mkVlong (l ⊟ 1) (if l =? 0 then h ⊟ 1 else h) = of_u64 (uval (mkVlong l h) - 1).
Proof.
  unfold wf, uval; simpl. intros [? ?]. apply of_u64_intro; unfold wf, uval; simpl;
    case_tests; solve_word.
Qed.

Lemma of_s32 t : is_s32 t -> mkVlong (u32 t) (u32 (t ⋙ 31)) = of_u64 t.
Proof.
  intros Ht. unfold of_u64. f_equal. rewrite u64_high, shiftr_div, !div_sign by (done || lia).
  unfold_words. case_tests; zlia.
Qed.
Lemma of_u32 x : mkVlong (u32 (s32 x)) 0 = of_u64 (u32 x).
Proof. unfold of_u64. rewrite u32_s32. f_equal; solve_word. Qed.
Lemma narrow_sign n x : 0 < n <= 31 ->
  s32 (Z.shiftl x (32 - n)) ⋙ (32 - n) = (x + 2 ^ (n - 1)) mod 2 ^ n - 2 ^ (n - 1).
Proof.
  intros Hn. rewrite shiftr_div, shiftl_mul by lia. unfold s32.
  assert (2 ^ 31 = 2 ^ (n - 1) * 2 ^ (32 - n)) as ->.
  { rewrite <-Z.pow_add_r by lia. f_equal. lia. }
  rewrite <-(pow2_split n) by lia.
  rewrite <-Z.mul_add_distr_r, Z.mul_mod_distr_r by lia.
  rewrite <-Z.mul_sub_distr_r. apply Z.div_mul. lia.
Qed.
Lemma narrow16 x : s32 (Z.shiftl x 16) ⋙ 16 = s16 x.
Proof. exact (narrow_sign 16 x ltac:(lia)). Qed.
Lemma narrow8 x : s32 (Z.shiftl x 24) ⋙ 24 = s8 x.
Proof. exact (narrow_sign 8 x ltac:(lia)). Qed.
Lemma u8_small_range x : is_u32 (u8 x).
Proof. solve_word. Qed.
Lemma u16_small_range x : is_u32 (u16 x).
Proof. solve_word. Qed.
Lemma s8_small_range x : is_s32 (s8 x).
Proof. solve_word. Qed.
Lemma s16_small_range x : is_s32 (s16 x).
Proof. solve_word. Qed.
#[export] Hint Resolve u8_small_range u16_small_range s8_small_range s16_small_range : words.
Lemma land_byte x : Z.land x 0xff = u8 x.
Proof. exact (land_mask x 8 ltac:(lia)). Qed.
Lemma land_half x : Z.land x 0xffff = u16 x.
Proof. exact (land_mask x 16 ltac:(lia)). Qed.
Lemma s8_of_u8 x : s8 (u8 x) = s8 x.
Proof. unfold s8, u8. by rewrite Zplus_mod_idemp_l. Qed.
Lemma s16_of_u16 x : s16 (u16 x) = s16 x.
Proof. unfold s16, u16. by rewrite Zplus_mod_idemp_l. Qed.

(** Narrow readings of a [Vlong] depend on its low half only. *)
Lemma s32_s32 x : s32 (s32 x) = s32 x.
Proof. apply s32_small, s32_range. Qed.
Lemma mod_low h l n : 0 <= n <= 32 -> (h * 2 ^ 32 + l) mod 2 ^ n = l mod 2 ^ n.
Proof.
  intros. rewrite <-(pow2_split n) by done.
  replace (h * (2 ^ n * 2 ^ (32 - n)) + l) with (l + h * 2 ^ (32 - n) * 2 ^ n) by ring.
  apply Z.mod_add. lia.
Qed.
Lemma s32_uval v : s32 (uval v) = s32 (lo v).
Proof. unfold s32, uval. by rewrite <-Z.add_assoc, mod_low by lia. Qed.
Lemma s16_uval v : s16 (uval v) = s16 (lo v).
Proof. unfold s16, uval. by rewrite <-Z.add_assoc, mod_low by lia. Qed.
Lemma s8_uval v : s8 (uval v) = s8 (lo v).
Proof. unfold s8, uval. by rewrite <-Z.add_assoc, mod_low by lia. Qed.
Lemma u16_uval v : u16 (uval v) = u16 (lo v).
Proof. unfold u16, uval. by rewrite mod_low by lia. Qed.
Lemma u8_uval v : u8 (uval v) = u8 (lo v).
Proof. unfold u8, uval. by rewrite mod_low by lia. Qed.
Lemma s16_u64_s16 x : s16 (u64 (s16 x)) = s16 x.
Proof. solve_word. Qed.
Lemma s8_u64_s8 x : s8 (u64 (s8 x)) = s8 x.
Proof. solve_word. Qed.
Lemma sh2v_eq x : sh2v x = of_u64 (s16 x).
Proof.
  unfold sh2v. rewrite narrow16. apply (of_s32 (s16 x)). auto with words.
Qed.
Lemma sc2v_eq x : sc2v x = of_u64 (s8 x).
Proof.
  unfold sc2v. rewrite narrow8. apply (of_s32 (s8 x)). auto with words.
Qed.
Lemma v2sh_eq v : v2sh v = s16 (uval v).
Proof. unfold v2sh. rewrite narrow16, land_half. rewrite s16_uval. apply s16_of_u16. Qed.
Lemma v2sc_eq v : v2sc v = s8 (uval v).
Proof. unfold v2sc. rewrite narrow8, land_byte. rewrite s8_uval. apply s8_of_u8. Qed.

(** ** Properties *)

(** addition, subtraction, negation and the increments of [vlong] are the
    operations of the integers modulo 2^64, carries and borrows included; the
    post forms return the old value and the pre forms the new one. *)
Theorem vlong_ring a b :
  wf a -> wf b ->
  addv a b = of_u64 (uval a + uval b) /\ subv a b = of_u64 (uval a - uval b) /\
  vneg a = of_u64 (- uval a) /\
  vpp a = (a, of_u64 (uval a + 1)) /\ vmm a = (a, of_u64 (uval a - 1)) /\
  ppv a = (of_u64 (uval a + 1), of_u64 (uval a + 1)) /\
  mmv a = (of_u64 (uval a - 1), of_u64 (uval a - 1)).
Proof.
  intros Ha Hb. rewrite addv_eq, subv_eq, vneg_eq by done. destruct a as [l h].
  unfold vpp, vmm, ppv, mmv; simpl. rewrite incr_eq, decr_eq by done. done.
Qed.

(** the shifts by any count [b >= 0], 32 and 64 included: [_lshv] is the
    product by [2^b] modulo 2^64, [_rshlv] the unsigned quotient by [2^b] and
    [_rshav] the floor of the signed quotient. *)
Theorem vlong_shifts a b :
  wf a -> 0 <= b ->
  lshv a b = of_u64 (uval a * 2 ^ b) /\
  uval (rshlv a b) = uval a / 2 ^ b /\
  sval (rshav a b) = sval a / 2 ^ b.
Proof.
  intros Ha Hb. rewrite lshv_spec, rshlv_spec, rshav_spec by done.
  unfold sval at 1. rewrite !uval_of_u64, s64_u64.
  pose proof (uval_range a Ha). pose proof (sval_range a).
  split; [done|split]; [apply u64_small|apply s64_small]; unfold_words;
    (split; [apply Z.div_le_lower_bound|apply Z.div_lt_upper_bound]); nia.
Qed.

(** The eleven comparisons decide the order of the 64-bit numbers, signed
    ([_ltv], [_lev], [_gtv], [_gev]) or unsigned ([_lov], [_lsv], [_hiv],
    [_hsv]), and the equality and zero tests. *)
Theorem vlong_comparisons a b :
  wf a -> wf b ->
  ltv a b = (sval a <? sval b) /\ lev a b = (sval a <=? sval b) /\
  gtv a b = (sval a >? sval b) /\ gev a b = (sval a >=? sval b) /\
  lov a b = (uval a <? uval b) /\ lsv a b = (uval a <=? uval b) /\
  hiv a b = (uval a >? uval b) /\ hsv a b = (uval a >=? uval b) /\
  eqv a b = (uval a =? uval b) /\ nev a b = negb (uval a =? uval b) /\
  testv a = negb (uval a =? 0).
Proof.
  intros Ha Hb. rewrite (sval_halves a), (sval_halves b) by done.
  destruct a as [al ah], b as [bl bh], Ha as [? ?], Hb as [? ?].
  unfold ltv, lev, gtv, gev, lov, lsv, hiv, hsv, eqv, nev, testv, uval; simpl in *.
  pose proof (s32_word ah) as Ea. pose proof (s32_word bh) as Eb.
  rewrite Ea, Eb by done. clear Ea Eb. unfold_words. rewrite !Z.gtb_ltb, !Z.geb_leb.
  repeat split; case_ifs; lia.
Qed.

(** The conversions between the integer types and [vlong].  Widening keeps
    the value of the narrow type, sign included; narrowing reduces modulo the
    width and reads the result with the sign of the type; the two compose to
    the identity on the narrow type. *)
Theorem vlong_conversions x v :
  (sl2v x = of_u64 (s32 x) /\ si2v x = of_u64 (s32 x) /\
   sh2v x = of_u64 (s16 x) /\ sc2v x = of_u64 (s8 x)) /\
  (ul2v x = of_u64 (u32 x) /\ ui2v x = of_u64 (u32 x) /\ p2v x = of_u64 (u32 x) /\
   uh2v x = of_u64 (u16 x) /\ uc2v x = of_u64 (u8 x)) /\
  (v2sl v = s32 (uval v) /\ v2si v = s32 (uval v) /\ v2sh v = s16 (uval v) /\
   v2sc v = s8 (uval v) /\ v2uh v = u16 (uval v) /\ v2uc v = u8 (uval v)) /\
  (v2sl (sl2v x) = s32 x /\ v2sh (sh2v x) = s16 x /\ v2sc (sc2v x) = s8 x).
Proof.
  rewrite !v2sc_eq, !v2sh_eq, !sh2v_eq, !sc2v_eq.
  unfold sl2v, si2v, ul2v, ui2v, p2v, uh2v, uc2v, v2sl, v2si, v2uh, v2uc.
  rewrite !land_byte, !land_half, !of_s32, !of_u32, !(u32_small (u16 _)), !(u32_small (u8 _)) by auto with words.
  rewrite s32_uval, u16_uval, u8_uval, !uval_of_u64, s16_u64_s16, s8_u64_s8. simpl.
  rewrite s32_u32, s32_s32. done.
Qed.

(** *** Assignment operators *)
Lemma lv_code_cases (P : Z -> Prop) :
  P 1 -> P 2 -> P 3 -> P 4 -> P 5 -> P 6 -> P 7 -> P 8 -> P 9 -> P 10 ->
  forall type, lv_code type -> P type.
Proof.
  intros ?????????? type H. unfold lv_code in H.
  assert (type = 1 \/ type = 2 \/ type = 3 \/ type = 4 \/ type = 5 \/ type = 6 \/
          type = 7 \/ type = 8 \/ type = 9 \/ type = 10) as Hc by lia.
  repeat destruct Hc as [->|Hc]; subst; done.
Qed.

(** Masking the high bits of a word, and replacing its low byte or half. *)
Lemma land_high x n :
  0 <= n <= 32 -> is_u32 x -> Z.land x (2 ^ 32 - 2 ^ n) = x / 2 ^ n * 2 ^ n.
Proof.
  intros Hn Hx.
  replace (2 ^ 32 - 2 ^ n) with (Z.land (2 ^ 32 - 1) (Z.lnot (2 ^ n - 1))).
  - rewrite Z.land_assoc, land_mask, Z.mod_small, land_clear by (done || lia).
    pose proof (Z.div_mod x (2 ^ n)). lia.
  - rewrite land_clear by lia. rewrite <-(pow2_split n) by done.
    replace (2 ^ n * 2 ^ (32 - n) - 1) with (2 ^ n - 1 + (2 ^ (32 - n) - 1) * 2 ^ n) by ring.
    rewrite Z.mod_add, Z.mod_small by lia. ring.
Qed.
Lemma replace_low x y n :
  0 <= n <= 32 -> is_u32 x ->
  Z.lor (Z.land x (2 ^ 32 - 2 ^ n)) (y mod 2 ^ n) = x / 2 ^ n * 2 ^ n + y mod 2 ^ n.
Proof.
  intros Hn Hx. rewrite land_high by done. apply lor_add; [lia|]. apply Z.mod_pos_bound. lia.
Qed.
Lemma land_sign x : is_u32 x -> negb (Z.land x (SIGN 32) =? 0) = negb (x <? 2 ^ 31).
Proof.
  intros Hx. pose proof (land_high x 31 ltac:(lia) Hx) as E.
  change (2 ^ 32 - 2 ^ 31) with (SIGN 32) in E. rewrite E. f_equal.
  case_tests; solve_word.
Qed.
Lemma load_lv_spec type m :
  wf m -> lv_code type ->
  exists t, load_lv type m = Some t /\ wf t /\ lo t = u32 (lv_value type m) /\
    uval t = if lv_signed_narrow type && (lv_value type m <? 0)
             then lv_value type m + 2 ^ 33 else lv_value type m.
Proof.
  intros [Hl Hh]. revert type. destruct m as [l h]; simpl in *.
  apply lv_code_cases; eexists; (split; [reflexivity|]); unfold wf; simpl; unfold uval; simpl;
    rewrite ?shiftr_div by lia; (split; [solve_word|]); (split; [solve_word|]);
    case_ifs; solve_word.
Qed.
(** A store changes the low [lv_width] bits of the cell and nothing else. *)
Lemma store_lv_spec type m u :
  wf m -> wf u -> lv_code type ->
  let m' := store_lv type m u in let w := lv_width type in
  wf m' /\ uval m' mod 2 ^ w = uval u mod 2 ^ w /\ uval m' / 2 ^ w = uval m / 2 ^ w.
Proof.
  intros [Hml Hmh] [Hul Huh]. revert type. destruct m as [l h], u as [ul uh]; simpl in *.
  pose proof (replace_low l ul 8 ltac:(lia) Hml) as R8.
  pose proof (replace_low l ul 16 ltac:(lia) Hml) as R16.
  change (2 ^ 32 - 2 ^ 8) with 0xffffff00 in R8. change (2 ^ 32 - 2 ^ 16) with 0xffff0000 in R16.
  apply lv_code_cases; unfold wf, uval; simpl; unfold u8, u16; rewrite ?R8, ?R16;
    unfold_words; repeat split; zlia.
Qed.
Lemma lv_wide type : lv_code type -> 32 < lv_width type -> type = 7 \/ type = 8.
Proof.
  revert type. apply (lv_code_cases (fun type => 32 < lv_width type -> type = 7 \/ type = 8)); simpl; lia.
Qed.
Lemma lv_width_pos type : lv_code type -> 0 <= lv_width type.
Proof. revert type. apply (lv_code_cases (fun type => 0 <= lv_width type)); simpl; lia. Qed.
Lemma u32_of_u64_lo x : lo (of_u64 x) = u32 x.
Proof. done. Qed.
(** Two values that agree on the bits a code keeps. *)
Lemma lv_mod_low type a b :
  lv_width type <= 32 -> lv_code type -> lo a = lo b ->
  uval a mod 2 ^ lv_width type = uval b mod 2 ^ lv_width type.
Proof.
  intros Hw Hc Hlo. apply lv_width_pos in Hc. unfold uval. by rewrite !mod_low, Hlo by lia.
Qed.

(** [lv op= rv] on a cell of any integer type stores, in the bits of that
    type, the low bits of [op] applied to the value of the cell, leaves every
    other bit of the cell alone and returns the full result, whenever the low
    word of [op] depends only on the low word of its operand (sums,
    differences, products, masks, left shifts); an unknown type code aborts. *)
Theorem vasop_stores ret m op type rv :
  wf m -> (forall t, wf t -> wf (op t rv)) ->
  (forall t t', wf t -> wf t' -> lo t = lo t' -> lo (op t rv) = lo (op t' rv)) ->
  match vasop ret m (fun _ t r => Some (op t r)) type rv with
  | None => ~ lv_code type
  | Some (u, m') =>
      let w := lv_width type in
      wf m' /\
      uval m' mod 2 ^ w = uval (op (of_u64 (lv_value type m)) rv) mod 2 ^ w /\
      uval m' / 2 ^ w = uval m / 2 ^ w
  end.
Proof.
  intros Hm Hop Hlow. unfold vasop.
  destruct (decide (lv_code type)) as [Hc|Hc].
  - destruct (load_lv_spec type m Hm Hc) as (t & -> & Ht & Hlo & Hval).
    destruct (store_lv_spec type m (op t rv) Hm (Hop t Ht) Hc) as (Hwf & Hmod & Hdiv).
    split; [done|split; [|done]]. rewrite Hmod.
    destruct (Z.le_gt_cases (lv_width type) 32) as [Hw|Hw].
    + apply lv_mod_low; [done..|]. apply Hlow; [done|auto with words|]. by rewrite Hlo.
    + assert (t = of_u64 (lv_value type m)) as ->; [|done].
      assert (type = 7 \/ type = 8) as Ht78.
      { by apply lv_wide. }
      apply of_u64_intro; [done|]. rewrite Hval.
      by destruct Ht78 as [-> | ->]; simpl; rewrite u64_uval.
  - destruct type as [|p|p]; [done| |done]. unfold lv_code in Hc.
    do 4 (destruct p as [p|p|]; simpl; try done; try lia).
Qed.

(** *** Conversion from [double] *)

(** The magnitude computed from the mantissa [xhi:xlo] and the shift [sh]. *)
Lemma d2v_magnitude (f : Z -> Z -> Z) dhi dlo xhi xlo sh :
  - 10 <= sh ->
  (if sh >=? 0 then
      if sh <? 32 then
        if sh =? 0 then (xlo, xhi)
        else (Z.lor (xlo ⋙ sh) (xhi ⋘ (32 - sh)), xhi ⋙ sh)
      else if sh =? 32 then (xhi, 0)
      else if sh <? 64 then (xhi ⋙ (sh - 32), 0)
      else (0, 0)
    else
      if - sh <=? 10 then (xlo ⋘ - sh, Z.lor (xhi ⋘ - sh) (xlo ⋙ (32 - - sh)))
      else (0, f dhi dlo))
  = let v := if 0 <=? sh then rshlv (mkVlong xlo xhi) sh else lshv (mkVlong xlo xhi) (- sh) in
    (lo v, hi v).
Proof.
  intros Hsh. unfold rshlv, lshv; simpl.
  rewrite (Z.lor_comm (xlo ⋙ sh)), (Z.lor_comm (xhi ⋘ - sh)).
  case_ifs; try lia; try done. f_equal. replace (sh - 32) with 0 by lia. by rewrite Z.shiftr_0_r.
Qed.
Lemma d2v_magnitude_value xhi xlo e :
  2 ^ 20 <= xhi < 2 ^ 21 -> is_u32 xlo -> 0 <= e <= 1085 ->
  let v := mkVlong xlo xhi in
  let m := xhi * 2 ^ 32 + xlo in
  let a := if e <=? 1075 then m / 2 ^ (1075 - e) else m * 2 ^ (e - 1075) in
  let v' := if 0 <=? 1075 - e then rshlv v (1075 - e) else lshv v (- (1075 - e)) in
  v' = of_u64 a /\ 0 <= a < 2 ^ 63.
Proof.
  intros Hx Hl He v m a v'. assert (wf v) as Hv by (unfold wf; simpl; unfold_words; lia).
  assert (0 <= m < 2 ^ 53) as Hm by (unfold_words; lia).
  subst a v'. case_ifs; try lia.
  - rewrite rshlv_spec by (done || lia). split; [done|].
    split; [apply Z.div_pos; lia|]. apply Z.div_lt_upper_bound; nia.
  - replace (- (1075 - e)) with (e - 1075) by lia.
    rewrite lshv_spec by (done || lia). split; [done|].
    assert (0 < 2 ^ (e - 1075) <= 2 ^ 10)
      by (split; [lia|apply Z.pow_le_mono_r; lia]).
    generalize dependent (2 ^ (e - 1075)). intros p Hp. clearbody m. nia.
Qed.
(** The sign step of [_d2v] is a 64-bit negation. *)
Lemma neg_halves v :
  (if negb (lo v =? 0) then mkVlong (u32 (- lo v)) (u32 (Z.lnot (hi v)))
   else mkVlong (lo v) (u32 (- hi v))) = vneg v.
Proof. unfold vneg. by destruct (lo v =? 0). Qed.
Lemma mantissa_high dhi : Z.lor (dhi mod 2 ^ 20) 0x100000 = 2 ^ 20 + dhi mod 2 ^ 20.
Proof.
  pose proof (lor_add_r 1 (dhi mod 2 ^ 20) 20 ltac:(lia) (Z.mod_pos_bound dhi (2 ^ 20) ltac:(lia))) as E.
  rewrite !Z.mul_1_l in E. rewrite Z.add_comm. exact E.
Qed.

(** a finite [double] of magnitude below 2^63 is converted to its integer
    part, rounded toward zero, with its sign: every exponent from the
    subnormals up to 1085 is covered; only from 1086 on (|d| >= 2^63) does the
    result depend on the undefined conversion to [ulong]. *)
Theorem d2v_truncates f dhi dlo :
  is_u32 dhi -> is_u32 dlo -> (dhi / 2 ^ 20) mod 2 ^ 11 <= 1085 ->
  wf (d2v f dhi dlo) /\ sval (d2v f dhi dlo) = double_trunc dhi dlo.
Proof.
  intros Hhi Hlo He. unfold d2v, double_trunc.
  change 0xfffff with (2 ^ 20 - 1). change 0x7ff with (2 ^ 11 - 1).
  rewrite !land_mask, shiftr_div, mantissa_high, land_sign by (done || lia).
  pose proof (Z.mod_pos_bound dhi (2 ^ 20) ltac:(lia)).
  pose proof (Z.mod_pos_bound (dhi / 2 ^ 20) (2 ^ 11) ltac:(lia)).
  rewrite d2v_magnitude by lia.
  destruct (d2v_magnitude_value (2 ^ 20 + dhi mod 2 ^ 20) dlo ((dhi / 2 ^ 20) mod 2 ^ 11))
    as [-> Ha]; [lia|done|lia|].
  set (a := if _ <=? 1075 then _ else _) in *. cbv zeta. cbv match. rewrite neg_halves.
  assert (is_u64 a) as Ha' by (unfold_words; lia).
  assert (of_u64 a = mkVlong (lo (of_u64 a)) (hi (of_u64 a))) as E by done. rewrite <-E.
  rewrite vneg_eq, uval_of_u64, (u64_small a) by auto with words.
  destruct (dhi <? 2 ^ 31); simpl; (split; [apply of_u64_wf|]);
    unfold sval; rewrite uval_of_u64, s64_u64; apply s64_small; unfold_words; lia.
Qed.

(** ** The properties at concrete inputs *)

Lemma wf_intro l h : (0 <=? l) && (l <? 2 ^ 32) && (0 <=? h) && (h <? 2 ^ 32) = true -> wf (mkVlong l h).
Proof. unfold wf, is_u32; simpl. lia. Qed.

(** A carry and a borrow between the halves. *)
Lemma vlong_ring_witness :
  addv (mkVlong 0xffffffff 0) (mkVlong 1 0) = mkVlong 0 1 /\
  vmm (mkVlong 0 1) = (mkVlong 0 1, mkVlong 0xffffffff 0).
Proof.
  split.
  - exact (proj1 (vlong_ring (mkVlong 0xffffffff 0) (mkVlong 1 0)
      (wf_intro 0xffffffff 0 eq_refl) (wf_intro 1 0 eq_refl))).
  - exact (proj1 (proj2 (proj2 (proj2 (proj2 (vlong_ring (mkVlong 0 1) (mkVlong 1 0)
      (wf_intro 0 1 eq_refl) (wf_intro 1 0 eq_refl))))))).
Defined.
(** -2^40 shifted right by 36 keeps its sign. *)
Lemma vlong_shifts_witness : sval (rshav (mkVlong 0 0xffffff00) 36) = -16.
Proof.
  refine (eq_trans (proj2 (proj2 (vlong_shifts (mkVlong 0 0xffffff00) 36 ltac:(by apply wf_intro) _))) _).
  - lia.
  - reflexivity.
Defined.
(** -1 < 1 signed, and above it unsigned. *)
Lemma vlong_comparisons_witness :
  ltv (mkVlong 0xffffffff 0xffffffff) (mkVlong 1 0) = true /\
  hiv (mkVlong 0xffffffff 0xffffffff) (mkVlong 1 0) = true.
Proof.
  destruct (vlong_comparisons (mkVlong 0xffffffff 0xffffffff) (mkVlong 1 0)
    ltac:(by apply wf_intro) ltac:(by apply wf_intro)) as (H & _ & _ & _ & _ & _ & H' & _).
  rewrite H, H'. split; reflexivity.
Defined.
(** [s += 3] on the [short] -2 inside a cell. *)
Lemma vasop_stores_witness :
  vasop (mkVlong 0 0) (mkVlong 0x1234fffe 7) (fun _ t r => Some (addv t r)) 3 (mkVlong 3 0)
  = Some (mkVlong 1 2, mkVlong 0x12340001 7) /\
  uval (mkVlong 0x12340001 7) mod 2 ^ 16 = uval (addv (of_u64 (-2)) (mkVlong 3 0)) mod 2 ^ 16.
Proof.
  split; [reflexivity|].
  pose proof (vasop_stores (mkVlong 0 0) (mkVlong 0x1234fffe 7) addv 3 (mkVlong 3 0)
    ltac:(by apply wf_intro)) as H.
  refine (proj1 (proj2 (H _ _))).
  - intros t Ht. exact (proj1 (addv_spec t (mkVlong 3 0) Ht ltac:(by apply wf_intro))).
  - intros t t' _ _ E. simpl. rewrite E. reflexivity.
Defined.
(** -2.5 is 0xc0040000:00000000; it becomes -2. *)
Lemma d2v_truncates_witness : sval (d2v (fun _ _ => 0) 0xc0040000 0) = -2.
Proof.
  refine (eq_trans (proj2 (d2v_truncates (fun _ _ => 0) 0xc0040000 0 _ _ _)) _).
  - unfold is_u32. lia.
  - unfold is_u32. lia.
  - vm_compute. discriminate.
  - reflexivity.
Defined.
