(* ===== verification/VlongDiv.v ===== *)
(** * 64-bit division: [dodiv], [_divvu], [_modvu], [_divv] and [_modv] of
    kernel/Libc/arm/vlrt.c

    [dodiv] is a shift-and-subtract division on the four halves.  A division
    by zero executes the 32-bit [numlo / denlo], which faults: the functions
    return [None] there. *)
From S2P Require Import Prelude Vlong.

(** ** [dodiv] *)

(** The local variables of [dodiv]. *)
Record divstate := mkDiv {
  d_numlo : Z; d_numhi : Z; d_denlo : Z; d_denhi : Z; d_quolo : Z; d_quohi : Z }.

(** [while(denhi < quohi || (denhi == quohi && denlo < quolo))]: the
    denominator is doubled up to the numerator; [i] counts the doublings. *)
Fixpoint div_align (fuel : nat) (denlo denhi quolo quohi : Z) (i : nat) : option (Z * Z * nat) :=
  if (denhi <? quohi) || ((denhi =? quohi) && (denlo <? quolo)) then
    match fuel with
    | O => None
    | S fuel =>
        let denhi' := Z.lor (denhi ⋘ 1) (denlo ⋙ 31) in
        let denlo' := denlo ⋘ 1 in
        div_align fuel denlo' denhi' quolo quohi (S i)
    end
  else Some (denlo, denhi, i).

(** One round of [for(; i >= 0; i--)]. *)
Definition div_round (s : divstate) : divstate :=
  let '(mkDiv numlo numhi denlo denhi quolo quohi) := s in
  let quohi := Z.lor (quohi ⋘ 1) (quolo ⋙ 31) in
  let quolo := quolo ⋘ 1 in
  let '(numlo, numhi, quolo) :=
    if (numhi >? denhi) || ((numhi =? denhi) && (numlo >=? denlo)) then
      let t := numlo in
      let numlo := numlo ⊟ denlo in
      let numhi := if numlo >? t then numhi ⊟ 1 else numhi in
      let numhi := numhi ⊟ denhi in
      (numlo, numhi, Z.lor quolo 1)
    else (numlo, numhi, quolo) in
  let denlo := Z.lor (denlo ⋙ 1) (denhi ⋘ 31) in
  let denhi := denhi ⋙ 1 in
  mkDiv numlo numhi denlo denhi quolo quohi.

(** The loop runs for [i], [i-1], ..., 0. *)
Fixpoint div_rounds (i : nat) (s : divstate) : divstate :=
  match i with
  | O => div_round s
  | S i => div_rounds i (div_round s)
  end.

(** 64 doublings always suffice (see [div_align_spec]). *)
Definition div_fuel : nat := 64.

(** The pair is (quotient, remainder). *)
Definition dodiv (num den : Vlong) : option (Vlong * Vlong) :=
  let numhi := hi num in let numlo := lo num in
  let denhi := hi den in let denlo := lo den in
  if (denlo =? 0) && (denhi =? 0) then None
  else
    let '(quohi, quolo) :=
      if numhi >=? SIGN 32 then (SIGN 32, 0) else (numhi, numlo) in
    match div_align div_fuel denlo denhi quolo quohi 0 with
    | None => None
    | Some (denlo, denhi, i) =>
        let '(mkDiv numlo numhi _ _ quolo quohi) :=
          div_rounds i (mkDiv numlo numhi denlo denhi 0 0) in
        Some (mkVlong quolo quohi, mkVlong numlo numhi)
    end.

(** ** The division routines *)

Definition divvu (n d : Vlong) : option Vlong :=
  if (hi n =? 0) && (hi d =? 0) then
    if lo d =? 0 then None else Some (mkVlong (lo n / lo d) 0)
  else
    match dodiv n d with Some (q, _) => Some q | None => None end.

Definition modvu (n d : Vlong) : option Vlong :=
  if (hi n =? 0) && (hi d =? 0) then
    if lo d =? 0 then None else Some (mkVlong (lo n mod lo d) 0)
  else
    match dodiv n d with Some (_, r) => Some r | None => None end.

(** [n.hi == (((long)n.lo)>>31)]: the number fits a [long]. *)
Definition fits_long (n : Vlong) : bool := hi n =? u32 (s32 (lo n) ⋙ 31).

(** The 32-bit [/] and [%] of [long] are the routines of div.s, which divide
    the magnitudes and set the sign: the truncated quotient, kept to 32 bits. *)
Definition divv (n d : Vlong) : option Vlong :=
  if fits_long n && fits_long d then
    if lo d =? 0 then None
    else
      let qlo := u32 (Z.quot (s32 (lo n)) (s32 (lo d))) in
      Some (mkVlong qlo (u32 (s32 qlo ⋙ 31)))
  else
    let nneg := hi n ⋙ 31 in
    let n := if negb (nneg =? 0) then vneg n else n in
    let dneg := hi d ⋙ 31 in
    let d := if negb (dneg =? 0) then vneg d else d in
    match dodiv n d with
    | Some (q, _) => Some (if negb (nneg =? dneg) then vneg q else q)
    | None => None
    end.

Definition modv (n d : Vlong) : option Vlong :=
  if fits_long n && fits_long d then
    if lo d =? 0 then None
    else
      let rlo := u32 (Z.rem (s32 (lo n)) (s32 (lo d))) in
      Some (mkVlong rlo (u32 (s32 rlo ⋙ 31)))
  else
    let nneg := hi n ⋙ 31 in
    let n := if negb (nneg =? 0) then vneg n else n in
    let dneg := hi d ⋙ 31 in
    let d := if negb (dneg =? 0) then vneg d else d in
    match dodiv n d with
    | Some (_, r) => Some (if negb (nneg =? 0) then vneg r else r)
    | None => None
    end.

(** ** The halves as 64-bit numbers *)

Definition s_num (s : divstate) : Vlong := mkVlong (d_numlo s) (d_numhi s).
Definition s_den (s : divstate) : Vlong := mkVlong (d_denlo s) (d_denhi s).
Definition s_quo (s : divstate) : Vlong := mkVlong (d_quolo s) (d_quohi s).
Definition wf_state (s : divstate) : Prop := wf (s_num s) /\ wf (s_den s) /\ wf (s_quo s).

(** What a division of the integers gives; [None] for a zero divisor. *)
Definition udiv_spec (n d : Vlong) : option (Vlong * Vlong) :=
  if uval d =? 0 then None
  else Some (of_u64 (uval n / uval d), of_u64 (uval n mod uval d)).

(** ** Lemmas *)

Lemma shl1_pair l h :
  wf (mkVlong l h) ->
  mkVlong (l ⋘ 1) (Z.lor (h ⋘ 1) (l ⋙ 31)) = of_u64 (2 * uval (mkVlong l h)).
Proof.
  intros Hwf. rewrite Z.lor_comm. rewrite (Z.mul_comm 2). exact (lshv_spec (mkVlong l h) 1 Hwf ltac:(lia)).
Qed.
Lemma shr1_pair l h :
  wf (mkVlong l h) ->
  mkVlong (Z.lor (l ⋙ 1) (h ⋘ 31)) (h ⋙ 1) = of_u64 (uval (mkVlong l h) / 2).
Proof.
  intros Hwf. rewrite Z.lor_comm. exact (rshlv_spec (mkVlong l h) 1 Hwf ltac:(lia)).
Qed.
Lemma ltu_pair al ah bl bh :
  wf (mkVlong al ah) -> wf (mkVlong bl bh) ->
  (ah <? bh) || ((ah =? bh) && (al <? bl)) = (uval (mkVlong al ah) <? uval (mkVlong bl bh)).
Proof. unfold wf, uval; simpl. intros [? ?] [? ?]. unfold_words. lia. Qed.
Lemma geu_pair al ah bl bh :
  wf (mkVlong al ah) -> wf (mkVlong bl bh) ->
  (ah >? bh) || ((ah =? bh) && (al >=? bl)) = (uval (mkVlong bl bh) <=? uval (mkVlong al ah)).
Proof. unfold wf, uval; simpl. intros [? ?] [? ?]. unfold_words. lia. Qed.
Lemma sub_pair al ah bl bh :
  wf (mkVlong al ah) -> wf (mkVlong bl bh) ->
  mkVlong (al ⊟ bl) ((if al ⊟ bl >? al then ah ⊟ 1 else ah) ⊟ bh)
  = of_u64 (uval (mkVlong al ah) - uval (mkVlong bl bh)).
Proof.
  unfold wf, uval; simpl. intros [? ?] [? ?].
  apply of_u64_intro; unfold wf, uval; simpl; rewrite Z.gtb_ltb; case_ifs; solve_word.
Qed.
Lemma lor1_even l h :
  wf (mkVlong l h) -> Z.even l = true -> mkVlong (Z.lor l 1) h = of_u64 (uval (mkVlong l h) + 1).
Proof.
  unfold wf, uval; simpl. intros [Hl Hh] He.
  apply Z.even_spec in He as [k ->].
  assert (Z.lor (2 * k) 1 = 2 * k + 1) as ->.
  { rewrite (Z.mul_comm 2). exact (lor_add k 1 1 ltac:(lia) ltac:(lia)). }
  apply of_u64_intro; unfold wf, uval; simpl; solve_word.
Qed.
Lemma even_shl1 l : Z.even (l ⋘ 1) = true.
Proof.
  rewrite shiftl_mul by lia. unfold u32. apply Z.even_spec. exists ((l * 2) mod 2 ^ 32 / 2). zlia.
Qed.

(** One round, on the numbers: compare, subtract, halve. *)
Lemma div_round_spec s :
  wf_state s ->
  let N := uval (s_num s) in let D := uval (s_den s) in let Q := uval (s_quo s) in
  let s' := div_round s in
  wf_state s' /\
  uval (s_num s') = (if D <=? N then N - D else N) /\
  uval (s_den s') = D / 2 /\
  uval (s_quo s') = u64 (2 * Q + (if D <=? N then 1 else 0)).
Proof.
  destruct s as [nl nh dl dh ql qh]. intros (HN & HD & HQ).
  unfold s_num, s_den, s_quo in *; simpl in *.
  pose proof (uval_range _ HN) as RN. pose proof (uval_range _ HD) as RD.
  pose proof (shl1_pair ql qh HQ) as EQ. pose proof (shr1_pair dl dh HD) as ED.
  pose proof (sub_pair nl nh dl dh HN HD) as ES.
  rewrite geu_pair by done. destruct (Z.leb_spec (uval (mkVlong dl dh)) (uval (mkVlong nl nh))).
  - unfold wf_state, s_num, s_den, s_quo; simpl. rewrite ED, ES, lor1_even, EQ by
      (try apply even_shl1; try rewrite EQ; auto with words).
    split; [auto with words|]. rewrite !uval_of_u64. unfold_words. repeat split; zlia.
  - unfold wf_state, s_num, s_den, s_quo; simpl. rewrite ED, EQ.
    split; [auto with words|]. rewrite !uval_of_u64. unfold_words. repeat split; zlia.
Qed.

(** The alignment loop ends within its fuel: the denominator has been doubled
    [k] times, without overflow, up to at least the aligned numerator. *)
Lemma div_align_spec fuel dl dh ql qh i :
  wf (mkVlong dl dh) -> wf (mkVlong ql qh) ->
  0 < uval (mkVlong dl dh) -> uval (mkVlong ql qh) <= 2 ^ 63 ->
  uval (mkVlong ql qh) <= uval (mkVlong dl dh) * 2 ^ Z.of_nat fuel ->
  exists dl' dh' k,
    div_align fuel dl dh ql qh i = Some (dl', dh', (i + k)%nat) /\
    wf (mkVlong dl' dh') /\
    uval (mkVlong dl' dh') = uval (mkVlong dl dh) * 2 ^ Z.of_nat k /\
    uval (mkVlong ql qh) <= uval (mkVlong dl' dh').
Proof.
  intros Hd Hq. revert dl dh i Hd.
  induction fuel as [|fuel IH]; intros dl dh i Hd Hpos HQ Hfuel; simpl;
    rewrite ltu_pair by done;
    destruct (Z.ltb_spec (uval (mkVlong dl dh)) (uval (mkVlong ql qh))) as [Hlt|Hge].
  - rewrite Z.mul_1_r in Hfuel. lia.
  - exists dl, dh, 0%nat. rewrite Nat.add_0_r, Z.mul_1_r. done.
  - pose proof (shl1_pair dl dh Hd) as E.
    set (dl' := dl ⋘ 1) in *. set (dh' := Z.lor _ _) in *.
    assert (wf (mkVlong dl' dh')) as Hd' by (rewrite E; auto with words).
    assert (uval (mkVlong dl' dh') = 2 * uval (mkVlong dl dh)) as HV.
    { rewrite E, uval_of_u64. apply u64_small. unfold_words. lia. }
    rewrite Nat2Z.inj_succ, Z.pow_succ_r in Hfuel by lia.
    destruct (IH dl' dh' (S i) Hd') as (l & h & k & Heq & Hwf & Hv & Hle);
      [lia|done|rewrite HV; lia|].
    exists l, h, (S k). rewrite Heq, Nat.add_succ_r, Nat2Z.inj_succ, Z.pow_succ_r by lia.
    split; [done|split; [done|split; [lia|done]]].
  - exists dl, dh, 0%nat. rewrite Nat.add_0_r, Z.mul_1_r. done.
Qed.

(** The rounds compute the quotient and the remainder, most significant bit
    first; [Q] is the part of the quotient found so far. *)
Lemma div_rounds_spec i s d :
  wf_state s -> 0 < d -> uval (s_den s) = d * 2 ^ Z.of_nat i ->
  uval (s_num s) < 2 * (d * 2 ^ Z.of_nat i) ->
  let s' := div_rounds i s in
  wf_state s' /\ uval (s_num s') = uval (s_num s) mod d /\
  uval (s_quo s') = u64 (uval (s_quo s) * 2 ^ Z.of_nat (S i) + uval (s_num s) / d).
Proof.
  revert s. induction i as [|i IH]; intros s Hwf Hd HD HN.
  - rewrite Z.mul_1_r in *. simpl.
    destruct (div_round_spec s Hwf) as (Hwf' & HN' & _ & HQ'). rewrite HD in *.
    assert (0 <= uval (s_num s)) by apply uval_range, Hwf.
    split; [done|]. rewrite HN', HQ'. case_ifs.
    + split; [apply Z.mod_unique_pos with 1; lia|].
      do 2 f_equal; [lia|]. apply Z.div_unique_pos with (uval (s_num s) - d); lia.
    + rewrite Z.mod_small, Z.div_small by lia. split; [done|]. f_equal. lia.
  - cbn [div_rounds]. destruct (div_round_spec s Hwf) as (Hwf' & HN' & HD' & HQ').
    assert (0 <= uval (s_num s)) by apply uval_range, Hwf.
    rewrite HD in *. rewrite Nat2Z.inj_succ, Z.pow_succ_r in * by lia.
    assert (d * (2 * 2 ^ Z.of_nat i) / 2 = d * 2 ^ Z.of_nat i) as Hhalf.
    { replace (d * (2 * 2 ^ Z.of_nat i)) with (d * 2 ^ Z.of_nat i * 2) by ring.
      apply Z.div_mul. lia. }
    rewrite Hhalf in HD'. set (P := 2 ^ Z.of_nat i) in *.
    destruct (IH _ Hwf' Hd HD') as (Hwf'' & HN'' & HQ'').
    { rewrite HN'. case_ifs; lia. }
    split; [done|]. rewrite HN'', HQ'', HQ', HN'.
    rewrite !Nat2Z.inj_succ, !Z.pow_succ_r by lia. fold P. case_ifs.
    + replace (uval (s_num s) - d * (2 * P)) with (uval (s_num s) + - (2 * P) * d) by ring.
      rewrite Z.mod_add, Z.div_add by lia. split; [done|].
      unfold u64. rewrite Zplus_mod, Zmult_mod_idemp_l, <-Zplus_mod. f_equal. ring.
    + split; [done|]. unfold u64. rewrite Zplus_mod, Zmult_mod_idemp_l, <-Zplus_mod. f_equal. ring.
Qed.

(** [dodiv] is the division of the 64-bit numbers. *)
Lemma dodiv_spec n d : wf n -> wf d -> dodiv n d = udiv_spec n d.
Proof.
  intros Hn Hd. destruct n as [nl nh], d as [dl dh].
  pose proof (uval_range _ Hn) as RN. pose proof (uval_range _ Hd) as RD.
  unfold dodiv, udiv_spec; cbn [lo hi]; cbv zeta.
  assert ((dl =? 0) && (dh =? 0) = (uval (mkVlong dl dh) =? 0)) as ->.
  { unfold wf, uval in *; simpl in *. unfold_words. lia. }
  destruct (Z.eqb_spec (uval (mkVlong dl dh)) 0) as [|Hnz]; [done|].
  set (q := if nh >=? SIGN 32 then _ else _).
  assert (wf (mkVlong q.2 q.1) /\ uval (mkVlong q.2 q.1) <= 2 ^ 63 /\
          forall x, uval (mkVlong q.2 q.1) <= x -> uval (mkVlong nl nh) < 2 * x \/ x <= 0) as (Hq & HQ & HNx).
  { subst q. change (SIGN 32) with (2 ^ 31). revert RN Hn.
    case_if; unfold wf, uval, is_u32, is_u64; simpl; intros; repeat split; intros; lia. }
  destruct q as [qh ql]; cbn [fst snd] in *.
  destruct (div_align_spec div_fuel dl dh ql qh 0) as (dl' & dh' & k & -> & Hd' & HD' & Hle);
    [done|done|unfold_words; lia|done|change (2 ^ Z.of_nat div_fuel) with (2 ^ 64); unfold_words; lia|].
  rewrite Nat.add_0_l. assert (0 < 2 ^ Z.of_nat k) by lia.
  pose proof (div_rounds_spec k (mkDiv nl nh dl' dh' 0 0) (uval (mkVlong dl dh))) as H'.
  destruct (div_rounds _ _) as [nl' nh' ? ? ql' qh']; unfold wf_state, s_num, s_den, s_quo in H'; simpl in H'.
  destruct H' as ((Hn' & _ & Hq') & HN' & HQ'); [split; [done|split; [done|by apply wf_intro]]|
    unfold_words; lia|done|destruct (HNx _ Hle); unfold_words; lia|].
  do 2 f_equal; apply of_u64_intro; [done|by rewrite HQ'|done|].
  rewrite HN'. symmetry. apply u64_small. unfold_words.
  pose proof (Z.mod_pos_bound (uval (mkVlong nl nh)) (uval (mkVlong dl dh))). lia.
Qed.

(** *** Signed division *)

Lemma of_u64_u64 x : of_u64 (u64 x) = of_u64 x.
Proof. apply of_u64_intro; [apply of_u64_wf|]. rewrite uval_of_u64. solve_word. Qed.
Lemma vneg_of_u64 x : vneg (of_u64 x) = of_u64 (- x).
Proof.
  rewrite vneg_eq by apply of_u64_wf. rewrite uval_of_u64, <-of_u64_u64.
  rewrite <-(of_u64_u64 (- x)). f_equal. unfold u64.
  rewrite <-(Z.sub_0_l x), <-(Z.sub_0_l (x mod 2 ^ 64)). apply Zminus_mod_idemp_r.
Qed.
Lemma sval_zero d : wf d -> (sval d =? 0) = (uval d =? 0).
Proof.
  intros Hd. pose proof (uval_range d Hd). rewrite sval_word by done.
  destruct Hd. unfold uval in *. unfold_words. case_ifs; lia.
Qed.
(** The sign word and the magnitude of a number. *)
Lemma sign_word n : wf n -> hi n ⋙ 31 = if sval n <? 0 then 1 else 0.
Proof.
  intros Hn. rewrite shiftr_div, sval_word by (done || lia). destruct Hn as [? ?].
  unfold uval. unfold_words. case_ifs; zlia.
Qed.
Definition vabs (n : Vlong) : Vlong := if negb (hi n ⋙ 31 =? 0) then vneg n else n.
Lemma vabs_spec n : wf n -> wf (vabs n) /\ uval (vabs n) = Z.abs (sval n).
Proof.
  intros Hn. pose proof (uval_range n Hn) as R. unfold vabs. rewrite sign_word by done.
  pose proof (sval_word n Hn) as E.
  assert (sval n = uval n \/ sval n = uval n - 2 ^ 64) as Hs by (rewrite E; case_if; auto).
  pose proof (sval_range n). destruct (Z.ltb_spec (sval n) 0); simpl.
  - split; [by apply vneg_spec|]. rewrite vneg_eq, uval_of_u64 by done. unfold_words. zlia.
  - split; [done|]. unfold_words. lia.
Qed.
Lemma fits_long_spec n : wf n -> fits_long n = true -> sval n = s32 (lo n).
Proof.
  unfold fits_long. intros Hn H. apply Z.eqb_eq in H. rewrite sval_halves, H, s32_u32 by done.
  destruct Hn as [Hl Hh]. rewrite shiftr_div, div_sign by (try apply s32_range; lia).
  rewrite (s32_word (lo n)) by done. unfold_words. case_ifs; unfold s32; zlia.
Qed.

(** The slow path: divide the magnitudes, then set the sign. *)
Lemma dodiv_abs n d :
  wf n -> wf d -> sval d <> 0 ->
  dodiv (vabs n) (vabs d) =
  Some (of_u64 (Z.abs (sval n) / Z.abs (sval d)), of_u64 (Z.abs (sval n) mod Z.abs (sval d))).
Proof.
  intros Hn Hd Hnz. destruct (vabs_spec n Hn) as [Hwn Hvn], (vabs_spec d Hd) as [Hwd Hvd].
  rewrite dodiv_spec by done. unfold udiv_spec. rewrite Hvn, Hvd.
  destruct (Z.eqb_spec (Z.abs (sval d)) 0); [lia|done].
Qed.
Lemma quot_sign n d :
  d <> 0 -> Z.quot n d = if Bool.eqb (n <? 0) (d <? 0) then Z.abs n / Z.abs d else - (Z.abs n / Z.abs d).
Proof.
  intros Hd. rewrite Z.quot_div by done.
  destruct (Z.eq_dec n 0) as [->|]; [by destruct (_ : bool)|].
  case_tests; repeat (rewrite Z.sgn_neg by lia || rewrite Z.sgn_pos by lia); lia.
Qed.
Lemma rem_sign n d :
  d <> 0 -> Z.rem n d = if n <? 0 then - (Z.abs n mod Z.abs d) else Z.abs n mod Z.abs d.
Proof.
  intros Hd. rewrite Z.rem_mod by done.
  destruct (Z.eq_dec n 0) as [->|]; [by rewrite Z.mod_0_l by lia|].
  case_tests; repeat (rewrite Z.sgn_neg by lia || rewrite Z.sgn_pos by lia); lia.
Qed.

(** The one signed division whose quotient does not fit the 32-bit fast path. *)
Definition div_corner (n d : Vlong) : bool := (sval n =? - 2 ^ 31) && (sval d =? -1).

(** The result of a 32-bit operation, sign-extended. *)
Lemma extend_u32 q : mkVlong (u32 q) (u32 (s32 (u32 q) ⋙ 31)) = of_u64 (s32 q).
Proof. rewrite s32_u32, <-(u32_s32 q). apply of_s32, s32_range. Qed.
Lemma quot_s32_range a b :
  is_s32 a -> is_s32 b -> b <> 0 -> is_s32 (Z.quot a b) \/ (a = - 2 ^ 31 /\ b = -1).
Proof.
  intros Ha Hb Hnz. unfold_words. destruct (Z.eq_dec b (-1)) as [->|].
  - replace (Z.quot a (-1)) with (- a); [lia|].
    change (-1) with (- (1)). rewrite Z.quot_opp_r, Z.quot_1_r by lia. lia.
  - left. pose proof (Z.quot_rem' a b). pose proof (Z.rem_bound_abs a b Hnz).
    assert (Z.abs (Z.quot a b) <= Z.abs a) by (rewrite <-Z.quot_abs by done; apply Z.quot_le_upper_bound; nia).
    destruct (Z.eq_dec b 1) as [->|]; [rewrite Z.quot_1_r; lia|].
    assert (2 * Z.abs (Z.quot a b) <= Z.abs a); [|lia].
    rewrite <-Z.quot_abs by done. pose proof (Z.mul_quot_le (Z.abs a) (Z.abs b)). nia.
Qed.
Lemma rem_s32_range a b : is_s32 a -> is_s32 b -> b <> 0 -> is_s32 (Z.rem a b).
Proof.
  intros Ha Hb Hnz. unfold_words. pose proof (Z.rem_bound_abs a b Hnz). lia.
Qed.
Lemma fits_long_zero n : wf n -> fits_long n = true -> (lo n =? 0) = (sval n =? 0).
Proof.
  intros Hn Hf. rewrite fits_long_spec by done. destruct Hn as [Hl _].
  rewrite s32_word by done. unfold_words. case_ifs; lia.
Qed.

Lemma div_mod_bounds a b : 0 <= a -> 0 < b -> 0 <= a / b <= a /\ 0 <= a mod b < b.
Proof.
  intros. split; [|by apply Z.mod_pos_bound]. split; [by apply Z.div_pos|].
  apply Z.div_le_upper_bound; nia.
Qed.
Lemma not_corner n d : wf n -> wf d -> fits_long n && fits_long d = false -> div_corner n d = false.
Proof.
  intros Hn Hd Hf. apply not_true_iff_false. intros Hc.
  apply andb_prop in Hc as [H1%Z.eqb_eq H2%Z.eqb_eq].
  assert (n = of_u64 (- 2 ^ 31)) as -> by (apply sval_inj; [done|apply of_u64_wf|by rewrite H1]).
  assert (d = of_u64 (-1)) as -> by (apply sval_inj; [done|apply of_u64_wf|by rewrite H2]).
  by vm_compute in Hf.
Qed.

(** C25: unsigned 64-bit division and remainder are those of the integers for
    every pair of operands, and both fault exactly on a zero divisor. *)
Theorem unsigned_division n d :
  wf n -> wf d ->
  divvu n d = (if uval d =? 0 then None else Some (of_u64 (uval n / uval d))) /\
  modvu n d = (if uval d =? 0 then None else Some (of_u64 (uval n mod uval d))).
Proof.
  intros Hn Hd. unfold divvu, modvu. rewrite dodiv_spec by done. unfold udiv_spec.
  destruct ((hi n =? 0) && (hi d =? 0)) eqn:E; [|by destruct (uval d =? 0)].
  assert (uval n = lo n /\ uval d = lo d) as [-> ->] by (unfold uval; lia).
  destruct Hn as [Hln _], Hd as [Hld _]. destruct (Z.eqb_spec (lo d) 0); [done|].
  destruct (div_mod_bounds (lo n) (lo d)) as [? ?]; [unfold_words; lia..|].
  generalize dependent (lo n / lo d). generalize dependent (lo n mod lo d). intros.
  split; f_equal; apply of_u64_intro; unfold wf, uval; simpl; solve_word.
Qed.

(** C29: signed 64-bit division truncates toward zero and the remainder has the
    sign of the dividend, for every pair of operands but one: when both fit 32
    bits the quotient is computed in 32 bits, and -2^31 / -1 yields -2^31. *)
Theorem signed_division n d :
  wf n -> wf d ->
  divv n d = (if sval d =? 0 then None
              else Some (of_u64 (if div_corner n d then - 2 ^ 31 else Z.quot (sval n) (sval d)))) /\
  modv n d = (if sval d =? 0 then None else Some (of_u64 (Z.rem (sval n) (sval d)))).
Proof.
  intros Hn Hd. unfold divv, modv.
  destruct (fits_long n && fits_long d) eqn:Ef.
  - apply andb_prop in Ef as [Hfn Hfd]. rewrite (fits_long_zero d) by done.
    destruct (Z.eqb_spec (sval d) 0) as [|Hnz]; [done|].
    rewrite !extend_u32, <-!fits_long_spec by done.
    assert (is_s32 (sval n) /\ is_s32 (sval d)) as [Rn Rd]
      by (rewrite !fits_long_spec by done; auto with words).
    rewrite (s32_small (Z.rem _ _)) by (by apply rem_s32_range).
    split; [|done]. unfold div_corner. do 2 f_equal.
    destruct (quot_s32_range _ _ Rn Rd Hnz) as [Hq|[-> ->]]; [|done].
    rewrite (s32_small (Z.quot _ _)) by done. case_if; [|done].
    apply andb_prop in Heqb as [H1%Z.eqb_eq H2%Z.eqb_eq]. rewrite H1, H2 in Hq |- *.
    by destruct Hq.
  - fold (vabs n) (vabs d). rewrite !sign_word by done.
    destruct (Z.eqb_spec (sval d) 0) as [E0|Hnz].
    + destruct (vabs_spec n Hn) as [Hwn _], (vabs_spec d Hd) as [Hwd Hvd].
      rewrite dodiv_spec by done. unfold udiv_spec. by rewrite Hvd, E0.
    + rewrite dodiv_abs, not_corner by done. rewrite quot_sign, rem_sign by done.
      split; f_equal; destruct (sval n <? 0), (sval d <? 0); simpl; try done; apply vneg_of_u64.
Qed.

(** *** Consequences *)

(** The corner case computes -2^31 where the 64-bit quotient is 2^31. *)
Theorem divv_corner_wrong :
  let n := of_u64 (- 2 ^ 31) in let d := of_u64 (-1) in
  divv n d = Some (of_u64 (- 2 ^ 31)) /\ Z.quot (sval n) (sval d) = 2 ^ 31.
Proof. vm_compute. done. Qed.
(** [i /= 2] on the [int] -7 through [_vasop] yields -4: the operand is widened
    with the top bit of its unsigned low half instead of its sign. *)
Theorem vasop_signed_operand_wrong :
  exists u m', vasop (of_u64 0) (of_u64 (-7)) (fun _ t r => divv t r) 9 (of_u64 2) = Some (u, m') /\
    lv_value 9 m' = -4 /\ Z.quot (lv_value 9 (of_u64 (-7))) 2 = -3.
Proof. eexists _, _. split; [vm_compute; reflexivity|]. done. Qed.

(** ** The properties at concrete inputs *)

Lemma unsigned_division_witness :
  divvu (of_u64 (10 ^ 19)) (of_u64 7) = Some (of_u64 1428571428571428571) /\
  modvu (of_u64 (10 ^ 19)) (of_u64 7) = Some (of_u64 3).
Proof.
  destruct (unsigned_division (of_u64 (10 ^ 19)) (of_u64 7) (of_u64_wf _) (of_u64_wf _)) as [H H'].
  rewrite H, H'. split; reflexivity.
Defined.
Lemma signed_division_witness :
  divv (of_u64 (- 10 ^ 18)) (of_u64 7) = Some (of_u64 (-142857142857142857)) /\
  modv (of_u64 (- 10 ^ 18)) (of_u64 7) = Some (of_u64 (-1)).
Proof.
  destruct (signed_division (of_u64 (- 10 ^ 18)) (of_u64 7) (of_u64_wf _) (of_u64_wf _)) as [H H'].
  rewrite H, H'. split; reflexivity.
Defined.
