(* ===== verification/Chain.v ===== *)
(** * Singly linked lists through a store

    The kernel's tables link their records by a [next] field and walk them
    with a pointer to the last link ([for(l = &head; h = *l; l = &h->next)]).
    A store maps keys (the pointers) to records; a class says where the link
    of a record is; [lseg] says which records a chain of links visits. *)
From stdpp Require Import gmap.
From S2P Require Import Prelude.

(** Records with a [next] field. *)
Class Linked (K R : Type) := {
  lk : R -> option K;
  set_lk : option K -> R -> R;
  lk_set_lk o r : lk (set_lk o r) = o
}.

Section chain.
Context {K R : Type} `{HC : Countable K} {HL : Linked K R}.
Implicit Types (m : gmap K R) (l : list (K * R)) (h e : option K).

(** The chain that starts at [h] visits the records [l] in order and ends
    with the link [e]. *)
Fixpoint lseg m (l : list (K * R)) h e : Prop :=
  match l with
  | [] => h = e
  | (k, r) :: l => h = Some k /\ m !! k = Some r /\ lseg m l (lk r) e
  end.

(** A pointer to a link: [None] is the head variable, [Some k] the field of
    [k].  Writing through it: *)
Definition write_link (h : option K) m (loc : option K) (v : option K) : option K * gmap K R :=
  match loc with
  | None => (v, m)
  | Some k => (h, match m !! k with Some r => <[k := set_lk v r]> m | None => m end)
  end.

(** The link through which the record after [l] is reached. *)
Definition last_loc (loc : option K) (l : list (K * R)) : option K :=
  match last l with Some (k, _) => Some k | None => loc end.

Definition keys (l : list (K * R)) : list K := l.*1.

(** A segment whose last link has been redirected. *)
Fixpoint set_last (v : option K) (l : list (K * R)) : list (K * R) :=
  match l with
  | [] => []
  | [(k, r)] => [(k, set_lk v r)]
  | p :: l => p :: set_last v l
  end.

Lemma lseg_app m l1 l2 h e :
  lseg m (l1 ++ l2) h e <-> exists x, lseg m l1 h x /\ lseg m l2 x e.
Proof.
  revert h. induction l1 as [|[k r] l1 IH]; intros h; simpl.
  - split; [by eexists|]. by intros (? & -> & ?).
  - rewrite IH. split.
    + intros (-> & Hk & x & ? & ?). eauto.
    + intros (x & (-> & Hk & ?) & ?). eauto.
Qed.
Lemma lseg_nil_end m l h : lseg m l h None -> l = [] -> h = None.
Proof. by intros ? ->. Qed.
Lemma lseg_frame m l h e k r : k ∉ keys l -> lseg m l h e -> lseg (<[k := r]> m) l h e.
Proof.
  revert h. induction l as [|[k' r'] l IH]; intros h Hk; simpl; [done|].
  unfold keys in *; simpl in Hk. apply not_elem_of_cons in Hk as [Hne Hk].
  intros (-> & ? & ?). rewrite lookup_insert_ne by done. auto.
Qed.
(** The records of a segment, retrieved by the walk. *)
Lemma lseg_lookup m l h e k r : lseg m l h e -> (k, r) ∈ l -> m !! k = Some r.
Proof.
  revert h. induction l as [|[k' r'] l IH]; intros h; simpl; [by rewrite elem_of_nil|].
  intros (-> & Hk & Hl) Hin. apply elem_of_cons in Hin as [[= -> ->]|]; eauto.
Qed.
(** The same start and store visit the same records. *)
Lemma lseg_None_det m l1 l2 h : lseg m l1 h None -> lseg m l2 h None -> l1 = l2.
Proof.
  revert l2 h. induction l1 as [|[k r] l1 IH]; intros [|[k' r'] l2] h; simpl;
    [done|by intros -> (? & _)|by intros (-> & _) ?|].
  intros (-> & E & ?) ([= <-] & E' & ?). rewrite E in E'. injection E' as <-. f_equal. eauto.
Qed.
(** A chain that ends never visits a record twice. *)
Lemma lseg_NoDup m l h : lseg m l h None -> NoDup (keys l).
Proof.
  remember (length l) as n eqn:Hn. revert l h Hn.
  induction n as [n IH] using lt_wf_ind; intros [|[k r] l] h Hn Hl; [apply NoDup_nil_2|].
  simpl in *. destruct Hl as (-> & Hk & Hl). apply NoDup_cons. split; [|eapply IH; [|done|done]; lia].
  intros ([k' r'] & Heq & Hin)%list_elem_of_fmap. simpl in Heq. subst k'.
  apply list_elem_of_split in Hin as (l1 & l2 & ->).
  apply lseg_app in Hl as (x & Hl1 & Hl2). simpl in Hl2. destruct Hl2 as (-> & Hk' & Hl2).
  rewrite Hk in Hk'. injection Hk' as <-.
  assert (l1 ++ (k, r) :: l2 = l2) as E.
  { apply lseg_None_det with m (lk r); [|done]. apply lseg_app. exists (Some k). by simpl. }
  apply (f_equal length) in E. rewrite length_app in E. simpl in E. lia.
Qed.

Lemma set_last_snoc v l k r : set_last v (l ++ [(k, r)]) = l ++ [(k, set_lk v r)].
Proof.
  induction l as [|[k' r'] l IH]; [done|]. simpl. rewrite IH. by destruct l as [|[]].
Qed.
Lemma keys_set_last v l : keys (set_last v l) = keys l.
Proof.
  destruct l as [|[k r] l _] using rev_ind; [done|].
  rewrite set_last_snoc. unfold keys. by rewrite !fmap_app.
Qed.
(** Redirecting a link changes nothing a view of the other fields can see. *)
Lemma view_set_last {A} (f : R -> A) v l :
  (forall o r, f (set_lk o r) = f r) -> f <$> (set_last v l).*2 = f <$> l.*2.
Proof.
  intros Hf. destruct l as [|[k r] l _] using rev_ind; [done|].
  rewrite set_last_snoc, !fmap_app. simpl. by rewrite Hf.
Qed.

Lemma fmap_set_last {A} (f : K * R -> A) v l :
  (forall k o r, f (k, set_lk o r) = f (k, r)) -> f <$> set_last v l = f <$> l.
Proof.
  intros Hf. destruct l as [|[k r] l _] using rev_ind; [done|].
  rewrite set_last_snoc, !fmap_app. simpl. by rewrite Hf.
Qed.
(** A walk needs no more steps than the store has records. *)
Lemma lseg_size m l h : lseg m l h None -> (length l <= size m)%nat.
Proof.
  intros Hl. pose proof (lseg_NoDup _ _ _ Hl) as Hnd.
  replace (length l) with (length (keys l)) by apply length_fmap.
  rewrite <-(size_list_to_set (C := gset K)) by done. rewrite <-(size_dom m).
  apply subseteq_size. intros k. rewrite elem_of_list_to_set, elem_of_dom.
  intros ([k' r] & -> & Hin)%list_elem_of_fmap. exists r. by eapply lseg_lookup.
Qed.

(** Writing the last link of a segment redirects its end. *)
Lemma write_last_link m l h e v :
  lseg m l h e -> NoDup (keys l) ->
  lseg (write_link h m (last_loc None l) v).2 (set_last v l)
       (write_link h m (last_loc None l) v).1 v.
Proof.
  unfold last_loc. destruct l as [|[k r] l _] using rev_ind; [done|].
  rewrite last_snoc, set_last_snoc. intros Hl Hnd.
  apply lseg_app in Hl as (x & Hl & -> & Hk & _).
  unfold keys in Hnd. rewrite fmap_app in Hnd. apply NoDup_app in Hnd as (_ & Hd & _).
  simpl. rewrite Hk. simpl. apply lseg_app. exists (Some k). split.
  - apply lseg_frame; [|done]. intros Hin. apply (Hd k Hin). by apply list_elem_of_singleton.
  - simpl. rewrite lookup_insert_eq, lk_set_lk. done.
Qed.
(** Writing a link of one segment leaves a disjoint one alone. *)
Lemma write_link_frame m l h e h0 loc v :
  lseg m l h e -> (forall k, loc = Some k -> k ∉ keys l) -> lseg (write_link h0 m loc v).2 l h e.
Proof.
  intros Hl Hk. destruct loc as [k|]; simpl; [|done].
  destruct (m !! k); [|done]. apply lseg_frame; auto.
Qed.

(** *** List surgery *)

(** Splitting a chain at a record. *)
Lemma lseg_split m l1 l2 h e :
  lseg m (l1 ++ l2) h e -> exists x, lseg m l1 h x /\ lseg m l2 x e.
Proof. apply lseg_app. Qed.
Lemma keys_app l1 l2 : keys (l1 ++ l2) = keys l1 ++ keys l2.
Proof. apply fmap_app. Qed.
Lemma NoDup_keys_mid l1 k r l2 :
  NoDup (keys (l1 ++ (k, r) :: l2)) ->
  NoDup (keys l1) /\ k ∉ keys l1 /\ k ∉ keys l2 /\ NoDup (keys l2) /\
  (forall x, x ∈ keys l1 -> x ∉ keys l2).
Proof.
  rewrite keys_app. intros (H1 & H12 & H2)%NoDup_app. unfold keys in *; simpl in *.
  apply NoDup_cons in H2 as [Hk H2]. repeat split; [done| |done|done|].
  - intros Hin. apply (H12 k Hin). set_solver.
  - intros x Hx Hx2. apply (H12 x Hx). set_solver.
Qed.
(** Replacing a record by one with the same link. *)
Lemma lseg_set m l1 k r r' l2 h e :
  lseg m (l1 ++ (k, r) :: l2) h e -> NoDup (keys (l1 ++ (k, r) :: l2)) -> lk r' = lk r ->
  lseg (<[k := r']> m) (l1 ++ (k, r') :: l2) h e.
Proof.
  intros Hl Hnd Hlk. apply NoDup_keys_mid in Hnd as (_ & Hk1 & Hk2 & _).
  apply lseg_app in Hl as (x & Hl1 & -> & Hk & Hl2). apply lseg_app. exists (Some k).
  split; [by apply lseg_frame|]. simpl. rewrite lookup_insert_eq, Hlk.
  split; [done|split; [done|by apply lseg_frame]].
Qed.
(** The link through which a walk that has passed [l1] goes on. *)
Lemma last_loc_link m l1 h x :
  lseg m l1 h x ->
  match last_loc None l1 with None => h = x | Some k => exists r, m !! k = Some r /\ lk r = x end.
Proof.
  unfold last_loc. destruct l1 as [|[k r] l1 _] using rev_ind; [done|].
  rewrite last_snoc. intros (y & _ & _ & Hk & Hlk)%lseg_app. by exists r.
Qed.
Lemma last_loc_in l1 k : last_loc None l1 = Some k -> k ∈ keys l1.
Proof.
  unfold last_loc. destruct l1 as [|[k' r] l1 _] using rev_ind; [done|].
  rewrite last_snoc. intros [= ->]. rewrite keys_app. set_solver.
Qed.
Lemma last_loc_app l l1 : last_loc (last_loc None l) l1 = last_loc None (l ++ l1).
Proof.
  unfold last_loc. destruct l1 as [|[k r] l1 _] using rev_ind; [by rewrite app_nil_r|].
  by rewrite app_assoc, !last_snoc.
Qed.
(** Linking a new record after [l1]. *)
Lemma lseg_link_in m l1 l2 h x k r :
  lseg m l1 h x -> lseg m l2 x None -> NoDup (keys (l1 ++ l2)) -> k ∉ keys (l1 ++ l2) -> lk r = x ->
  let w := write_link h (<[k := r]> m) (last_loc None l1) (Some k) in
  lseg w.2 (set_last (Some k) l1 ++ (k, r) :: l2) w.1 None.
Proof.
  intros Hl1 Hl2 Hnd Hk Hlk w. rewrite keys_app in Hnd, Hk. apply not_elem_of_app in Hk as [Hk1 Hk2].
  apply NoDup_app in Hnd as (Hnd1 & Hd & _).
  apply (lseg_frame _ _ _ _ k r Hk1) in Hl1. apply (lseg_frame _ _ _ _ k r Hk2) in Hl2.
  apply lseg_app. exists (Some k). split; [by apply (write_last_link _ _ _ x)|].
  assert (lseg (<[k := r]> m) ((k, r) :: l2) (Some k) None) as Hm.
  { simpl. rewrite lookup_insert_eq, Hlk. done. }
  apply write_link_frame; [done|]. intros k' Hk'%last_loc_in. unfold keys; simpl.
  apply not_elem_of_cons. split; [set_solver|]. by apply Hd.
Qed.
(** Unlinking the record after [l1]. *)
Lemma lseg_unlink m l1 k r l2 h :
  lseg m (l1 ++ (k, r) :: l2) h None -> NoDup (keys (l1 ++ (k, r) :: l2)) ->
  let w := write_link h m (last_loc None l1) (lk r) in
  lseg w.2 (set_last (lk r) l1 ++ l2) w.1 None.
Proof.
  intros (x & Hl1 & -> & Hk & Hl2)%lseg_app Hnd w.
  apply NoDup_keys_mid in Hnd as (Hnd1 & Hk1 & Hk2 & Hnd2 & Hd).
  apply lseg_app. exists (lk r). split; [by apply (write_last_link _ _ _ (Some k))|].
  apply write_link_frame; [done|]. intros k' Hk'%last_loc_in. by apply Hd.
Qed.
(** A write through a link changes no record outside the segment. *)
Lemma write_link_lookup m l1 h v k :
  k ∉ keys l1 -> (write_link h m (last_loc None l1) v).2 !! k = m !! k.
Proof.
  intros Hk. destruct (last_loc None l1) as [k'|] eqn:E; simpl; [|done].
  apply last_loc_in in E. destruct (m !! k'); [|done].
  apply lookup_insert_ne. by intros ->.
Qed.
(** ... and in a record it changes only the link. *)
Lemma write_link_view {A} (f : R -> A) m h loc v k :
  (forall o r, f (set_lk o r) = f r) -> f <$> (write_link h m loc v).2 !! k = f <$> m !! k.
Proof.
  intros Hf. destruct loc as [k'|]; simpl; [|done]. destruct (m !! k') as [r|] eqn:E; [|done].
  destruct (decide (k = k')) as [-> |].
  - rewrite lookup_insert_eq, E. simpl. by rewrite Hf.
  - by rewrite lookup_insert_ne.
Qed.
End chain.
