(* ===== verification/Xalloc.v ===== *)
(** * The early kernel allocator: kernel/Port/xalloc.c

    [xlists] is a table of [Nhole] hole descriptors threaded by [next] into
    two lists: the free memory, sorted by address, and the unused
    descriptors.  [xallocz] carves blocks from the first hole that is large
    enough and [xhole] returns memory, merging neighbours.  Pointers to
    descriptors are indices of the table; kernel memory is a map from byte
    addresses to words; addresses are 32-bit words. *)
From stdpp Require Import gmap.
From S2P Require Import Prelude Chain.

(** ** Data *)

Record Hole := mkHole { addr : Z; top : Z; size : Z; next : option nat }.

Record Xalloc := mkXalloc {
  hole : gmap nat Hole; unused_slots : option nat; sorted_holes : option nat }.

Definition Nhole : nat := 128.
Definition Magichole : Z := 0x484F4C45.
Definition BY2V : Z := 8.
(** [offsetof(Xhdr, data[0])]: the words [size] and [magix] precede the data. *)
Definition Xhdr_data : Z := 8.
Definition Xhdr_magix : Z := 4.

Definition KZERO : Z := 0x80000000.
Definition KSEGM : Z := 0xC0000000.
Definition KADDR (pa : Z) : Z := Z.lor KZERO (Z.land pa (0xffffffff - KSEGM)).
Definition PADDR (va : Z) : Z := Z.land va (0xffffffff - KSEGM).

Definition set_next (n : option nat) (h : Hole) : Hole := mkHole (addr h) (top h) (size h) n.
#[export] Instance hole_linked : Linked nat Hole :=
  { lk := next; set_lk := set_next; lk_set_lk := fun _ _ => eq_refl }.

(** [*l] for a pointer to a link of the sorted list. *)
Definition read_sorted (x : Xalloc) (l : option nat) : result (option nat) :=
  match l with
  | None => Ok (sorted_holes x)
  | Some k => let* h := of_ptr (hole x !! k) in Ok (next h)
  end.
Definition write_sorted (x : Xalloc) (l v : option nat) : Xalloc :=
  let '(s, m) := write_link (sorted_holes x) (hole x) l v in
  mkXalloc m (unused_slots x) s.
Definition set_hole (x : Xalloc) (k : nat) (h : Hole) : Xalloc :=
  mkXalloc (<[k := h]> (hole x)) (unused_slots x) (sorted_holes x).
Definition set_unused (x : Xalloc) (u : option nat) : Xalloc :=
  mkXalloc (hole x) u (sorted_holes x).

(** ** [xhole]: give memory back *)

(** The walk: stops at a hole that ends at [a] ([true]), or before the first
    hole above [a] ([false]); yields the link and the hole. *)
Fixpoint xhole_scan (fuel : nat) (m : gmap nat Hole) (l h : option nat) (a : Z)
    : result (bool * option nat * option nat) :=
  match h with
  | None => Ok (false, l, None)
  | Some k =>
      match fuel with
      | O => Loop
      | S fuel =>
          let* r := of_ptr (m !! k) in
          if top r =? a then Ok (true, l, h)
          else if addr r >? a then Ok (false, l, h)
          else xhole_scan fuel m (Some k) (next r) a
      end
  end.

(** The hole [k] ends where the block starts: extend it, and absorb the next
    hole when the block closes the gap. *)
Definition xhole_extend (x : Xalloc) (k : nat) (sz : Z) : result Xalloc :=
  let* h := of_ptr (hole x !! k) in
  let size' := size h ⊞ sz in
  let h := mkHole (addr h) (addr h ⊞ size') size' (next h) in
  let x := set_hole x k h in
  match next h with
  | None => Ok x
  | Some c =>
      let* ch := of_ptr (hole x !! c) in
      if top h =? addr ch then
        let h := mkHole (addr h) (top h ⊞ size ch) (size h ⊞ size ch) (next ch) in
        let x := set_hole x k h in
        let x := set_hole x c (set_next (unused_slots x) ch) in
        Ok (set_unused x (Some c))
      else Ok x
  end.

(** Take a descriptor from the unused list for the new hole and link it at [l];
    with no descriptor left the memory is lost, and the number of bytes leaked
    is reported. *)
Definition xhole_insert (x : Xalloc) (l : option nat) (a t sz : Z) : result (Xalloc * option Z) :=
  match unused_slots x with
  | None => Ok (x, Some sz)
  | Some k =>
      let* h := of_ptr (hole x !! k) in
      let x := set_unused x (next h) in
      let* after := read_sorted x l in
      let x := set_hole x k (mkHole a t sz after) in
      Ok (write_sorted x l (Some k), None)
  end.

Definition xhole (x : Xalloc) (a sz : Z) : result (Xalloc * option Z) :=
  if sz =? 0 then Ok (x, None)
  else
    let t := a ⊞ sz in
    let* (found, l, h) := xhole_scan (S Nhole) (hole x) None (sorted_holes x) a in
    match found, h with
    | true, Some k => let* x := xhole_extend x k sz in Ok (x, None)
    | false, Some k =>
        let* r := of_ptr (hole x !! k) in
        if t =? addr r then
          Ok (set_hole x k (mkHole (addr r ⊟ sz) (top r) (size r ⊞ sz) (next r)), None)
        else xhole_insert x l a t sz
    | _, None => xhole_insert x l a t sz
    end.

(** ** [xallocz]: first fit *)

Definition memory := Z -> Z.
Definition store (m : memory) (a v : Z) : memory := fun b => if b =? a then v else m b.
(** [memset(p, 0, n)] on words. *)
Definition zero_fill (m : memory) (p n : Z) : memory :=
  fun b => if (p <=? b) && (b <? p + n) then 0 else m b.

Fixpoint xalloc_scan (fuel : nat) (m : gmap nat Hole) (l h : option nat) (sz : Z)
    : result (option nat * option nat) :=
  match h with
  | None => Ok (l, None)
  | Some k =>
      match fuel with
      | O => Loop
      | S fuel =>
          let* r := of_ptr (m !! k) in
          if size r >=? sz then Ok (l, h) else xalloc_scan fuel m (Some k) (next r) sz
      end
  end.

(** The size of a block: header and data, rounded to a multiple of [BY2V]. *)
Definition block_size (sz : Z) : Z := Z.land (sz ⊞ (BY2V + Xhdr_data)) (0xffffffff - (BY2V - 1)).

(** The result is 0 ([nil]) or the address of the data. *)
Definition xallocz (x : Xalloc) (m : memory) (sz : Z) (zero : bool) : result (Xalloc * memory * Z) :=
  let sz := block_size sz in
  let* (l, h) := xalloc_scan (S Nhole) (hole x) None (sorted_holes x) sz in
  match h with
  | None => Ok (x, m, 0)
  | Some k =>
      let* r := of_ptr (hole x !! k) in
      let p := KADDR (addr r) in
      let r := mkHole (addr r ⊞ sz) (top r) (size r ⊟ sz) (next r) in
      let x := set_hole x k r in
      let x :=
        if size r =? 0 then
          let x := write_sorted x l (next r) in
          let x := set_hole x k (set_next (unused_slots x) r) in
          set_unused x (Some k)
        else x in
      let m := if zero then zero_fill m p sz else m in
      let m := store m (p ⊞ Xhdr_magix) Magichole in
      let m := store m p sz in
      Ok (x, m, p ⊞ Xhdr_data)
  end.

Definition xalloc (x : Xalloc) (m : memory) (sz : Z) : result (Xalloc * memory * Z) :=
  xallocz x m sz true.

Definition xfree (x : Xalloc) (m : memory) (p : Z) : result (Xalloc * option Z) :=
  let h := p ⊟ Xhdr_data in
  if negb (m (h ⊞ Xhdr_magix) =? Magichole) then Panic
  else xhole x (PADDR h) (m h).

(** Glue the block of [vq] to the block of [vp] when they are adjacent. *)
Definition xmerge (m : memory) (vp vq : Z) : result (memory * bool) :=
  let p := vp ⊟ Xhdr_data in
  let q := vq ⊟ Xhdr_data in
  if negb (m (p ⊞ Xhdr_magix) =? Magichole) || negb (m (q ⊞ Xhdr_magix) =? Magichole) then Panic
  else if p ⊞ m p =? q then Ok (store m p (m p ⊞ m q), true)
  else Ok (m, false).

(** A block of [sz] bytes aligned to [align] inside one [span]; the slack on
    both sides goes back to the holes. *)
Definition xspanalloc (x : Xalloc) (m : memory) (sz align span : Z) : result (Xalloc * memory * Z) :=
  let* (x, m, a) := xalloc x m (sz ⊞ align ⊞ span) in
  if a =? 0 then Panic
  else
    let* (x, v) :=
      if span >? 2 then
        let v := Z.land (a ⊞ span) (0xffffffff - (span ⊟ 1)) in
        let t := v ⊟ a in
        let* x := (if t >? 0 then let* (x, _) := xhole x (PADDR a) t in Ok x else Ok x) in
        let t := a ⊞ span ⊟ v in
        let* x := (if t >? 0 then let* (x, _) := xhole x (PADDR (v ⊞ sz ⊞ align)) t in Ok x else Ok x) in
        Ok (x, v)
      else Ok (x, a) in
    let v := if align >? 1 then Z.land (v ⊞ align) (0xffffffff - (align ⊟ 1)) else v in
    Ok (x, m, v).

(** ** Specification: the free memory as a list of regions

    A region is a start and a size.  The allocator promises to keep an
    ordered list of disjoint regions; the three operations on it: *)
Definition region : Type := Z * Z.

Fixpoint ordered (lo : Z) (rs : list region) (hi : Z) : Prop :=
  match rs with
  | [] => lo <= hi
  | (a, s) :: rs => lo <= a /\ 0 < s /\ ordered (a + s) rs hi
  end.
Definition free_at (rs : list region) (b : Z) : Prop :=
  exists r, r ∈ rs /\ r.1 <= b < r.1 + r.2.

(** No two regions touch: what can be one region is one.  The second definition also keeps a distance from [lo]. *)
Fixpoint gapped (lo : Z) (rs : list region) : Prop :=
  match rs with [] => True | (a, s) :: rs => lo < a /\ gapped (a + s) rs end.
Definition merged (rs : list region) : Prop := gapped (-1) rs.
(** All regions begin at multiples of 8. *)
Definition aligned (rs : list region) : Prop := Forall (fun r => r.1 mod BY2V = 0) rs.

(** Addition of a region, merged with the neighbours it touches. *)
Fixpoint add_region (a s : Z) (rs : list region) : list region :=
  match rs with
  | [] => [(a, s)]
  | (a1, s1) :: rs' =>
      if a1 + s1 =? a then
        match rs' with
        | (a2, s2) :: rs'' => if a + s =? a2 then (a1, s1 + s + s2) :: rs'' else (a1, s1 + s) :: rs'
        | [] => [(a1, s1 + s)]
        end
      else if a1 >? a then
        if a + s =? a1 then (a, s1 + s) :: rs' else (a, s) :: rs
      else (a1, s1) :: add_region a s rs'
  end.
(** Whether the addition needs a descriptor of its own. *)
Fixpoint add_needs_slot (a s : Z) (rs : list region) : bool :=
  match rs with
  | [] => true
  | (a1, s1) :: rs' =>
      if a1 + s1 =? a then false
      else if a1 >? a then negb (a + s =? a1)
      else add_needs_slot a s rs'
  end.
(** First fit: the block taken, and what is left. *)
Fixpoint take_region (s : Z) (rs : list region) : option (Z * list region) :=
  match rs with
  | [] => None
  | (a1, s1) :: rs' =>
      if s1 >=? s then Some (a1, if s1 - s =? 0 then rs' else (a1 + s, s1 - s) :: rs')
      else match take_region s rs' with
           | Some (a, rs'') => Some (a, (a1, s1) :: rs'')
           | None => None
           end
  end.

(** The representation: the two lists of the table are disjoint and together
    hold at most [Nhole] descriptors; the holes are the regions. *)
Definition region_of (h : Hole) : region := (addr h, size h).
Definition regions (ks : list (nat * Hole)) : list region := region_of <$> ks.*2.
Definition hole_ok (h : Hole) : Prop := top h = addr h + size h.

Definition rep (x : Xalloc) (rs : list region) (slots : nat) : Prop :=
  exists ks us,
    lseg (hole x) ks (sorted_holes x) None /\
    lseg (hole x) us (unused_slots x) None /\
    NoDup (keys ks ++ keys us) /\
    (length ks + length us <= Nhole)%nat /\
    regions ks = rs /\ Forall hole_ok ks.*2 /\ slots = length us.

(** ** Lemmas on regions *)

Lemma free_at_cons r rs b : free_at (r :: rs) b <-> r.1 <= b < r.1 + r.2 \/ free_at rs b.
Proof.
  unfold free_at. split.
  - intros (r' & [->|Hin]%elem_of_cons & Hb); eauto.
  - intros [Hb|(r' & Hin & Hb)]; eexists; (split; [|exact Hb]); apply elem_of_cons; auto.
Qed.
Lemma free_at_nil b : ~ free_at [] b.
Proof. by intros (r & Hin%elem_of_nil & _). Qed.
Lemma ordered_weaken lo lo' rs hi : lo' <= lo -> ordered lo rs hi -> ordered lo' rs hi.
Proof. destruct rs as [|[a s] rs]; simpl; [lia|]. intros ? (? & ? & ?). repeat split; [lia|done|done]. Qed.
Lemma ordered_bounds lo rs hi b : ordered lo rs hi -> free_at rs b -> lo <= b < hi.
Proof.
  revert lo. induction rs as [|[a s] rs IH]; intros lo; simpl; [by intros _ ?%free_at_nil|].
  intros (? & ? & Ho) [Hb|Hb]%free_at_cons; simpl in *.
  - assert (forall lo rs, ordered lo rs hi -> lo <= hi) as Hle.
    { intros l rs'. revert l. induction rs' as [|[a' s'] rs' IH']; intros l; simpl; [done|].
      intros (? & ? & ?%IH'). lia. }
    apply Hle in Ho. lia.
  - specialize (IH _ Ho Hb). lia.
Qed.
Lemma ordered_le lo rs hi : ordered lo rs hi -> lo <= hi.
Proof.
  revert lo. induction rs as [|[a s] rs IH]; intros lo; simpl; [done|]. intros (? & ? & ?%IH). lia.
Qed.

(** Adding a region that is disjoint from the free memory. *)
Definition disjoint_from (a s : Z) (rs : list region) : Prop :=
  forall b, a <= b < a + s -> ~ free_at rs b.
Lemma disjoint_cons a s a1 s1 rs :
  0 < s -> 0 < s1 -> disjoint_from a s ((a1, s1) :: rs) ->
  (a + s <= a1 \/ a1 + s1 <= a) /\ disjoint_from a s rs.
Proof.
  intros Hs Hs1 Hd. split.
  - destruct (Z.le_gt_cases (a + s) a1); [by left|]. destruct (Z.le_gt_cases (a1 + s1) a); [by right|].
    exfalso. apply (Hd (Z.max a a1)); [lia|]. apply free_at_cons. left; simpl. lia.
  - intros b Hb Hf. apply (Hd b Hb). apply free_at_cons. by right.
Qed.
Lemma add_region_ordered a s lo rs hi :
  0 < s -> lo <= a -> a + s <= hi -> ordered lo rs hi -> disjoint_from a s rs ->
  ordered lo (add_region a s rs) hi.
Proof.
  intros Hs. revert lo. induction rs as [|[a1 s1] rs IH]; intros lo Hlo Hhi Ho Hd; simpl.
  - lia.
  - simpl in Ho. destruct Ho as (H1 & H2 & H3). apply disjoint_cons in Hd as [Hd1 Hd]; [|done..].
    case_ifs.
    + destruct rs as [|[a2 s2] rs]; simpl in *; [lia|].
      destruct H3 as (? & ? & ?). apply disjoint_cons in Hd as [? Hd]; [|done..].
      case_ifs; repeat split; try lia.
      * by replace (a1 + (s1 + s + s2)) with (a2 + s2) by lia.
      * done.
    + repeat split; try lia. by replace (a + (s1 + s)) with (a1 + s1) by lia.
    + repeat split; try lia. done.
    + repeat split; try lia. apply IH; try done. lia.
Qed.
Lemma add_region_length a s rs : (length (add_region a s rs) <= S (length rs))%nat.
Proof.
  induction rs as [|[a1 s1] rs IH]; simpl; [done|].
  set (q := add_region a s rs) in *. clearbody q.
  destruct rs as [|[a2 s2] rs]; case_ifs; simpl in *; lia.
Qed.
Lemma add_region_free a s rs lo hi b :
  0 < s -> ordered lo rs hi -> disjoint_from a s rs ->
  free_at (add_region a s rs) b <-> free_at rs b \/ a <= b < a + s.
Proof.
  intros Hs. revert lo. induction rs as [|[a1 s1] rs IH]; intros lo Ho Hd; simpl.
  - rewrite free_at_cons; simpl. pose proof (free_at_nil b). tauto.
  - simpl in Ho. destruct Ho as (H1 & H2 & H3). apply disjoint_cons in Hd as [Hd1 Hd]; [|done..].
    rewrite (free_at_cons (a1, s1)); simpl. case_ifs.
    + destruct rs as [|[a2 s2] rs].
      * rewrite free_at_cons; simpl. pose proof (free_at_nil b). intuition lia.
      * simpl in H3. destruct H3 as (? & ? & ?). case_ifs; rewrite !free_at_cons; simpl; intuition lia.
    + rewrite free_at_cons; simpl. intuition lia.
    + rewrite !free_at_cons; simpl. intuition lia.
    + rewrite free_at_cons, (IH _ H3 Hd); simpl. intuition lia.
Qed.

Lemma gapped_weaken lo lo' rs : lo' <= lo -> gapped lo rs -> gapped lo' rs.
Proof. destruct rs as [|[a s] rs]; simpl; [done|]. intros ? []. split; [lia|done]. Qed.
Lemma add_region_gapped a s rs : 0 < s -> forall lo l hi, ordered l rs hi -> disjoint_from a s rs -> lo < a -> gapped lo rs -> gapped lo (add_region a s rs).
Proof.
  intros Hs. induction rs as [|[a1 s1] rs IH]; intros lo l hi Ho Hd Hlo Hg; simpl in *; [done|].
  destruct Ho as (H1 & H2 & H3), Hg as [G1 G2]. apply disjoint_cons in Hd as [Hd1 Hd]; [|done..]. case_ifs.
  - destruct rs as [|[a2 s2] rs]; simpl in *; [done|]. destruct H3 as (? & ? & ?), G2 as [G2 G3]. apply disjoint_cons in Hd as [? Hd]; [|done..].
    case_ifs; (split; [lia|]); [|split; [lia|done]]. by replace (a1 + (s1 + s + s2)) with (a2 + s2) by lia.
  - split; [done|]. by replace (a + (s1 + s)) with (a1 + s1) by lia.
  - split; [done|]. split; [lia|done].
  - split; [done|]. eapply IH; [done|done|lia|done].
Qed.
Lemma add_region_aligned a s rs : a mod BY2V = 0 -> aligned rs -> aligned (add_region a s rs).
Proof.
  intros Ha. induction 1 as [|[a1 s1] rs H1 Hrs IH]; simpl in *; [by constructor|]. case_ifs; try (by repeat constructor).
  destruct Hrs as [|[a2 s2] rs H2 Hrs]; case_ifs; by repeat constructor.
Qed.
Lemma take_region_gapped s rs a rs' : 0 <= s -> take_region s rs = Some (a, rs') -> forall lo, gapped lo rs -> gapped lo rs'.
Proof.
  intros Hs. revert a rs'. induction rs as [|[a1 s1] rs IH]; intros a rs' Ht lo Hg; simpl in *; [done|]. destruct Hg as [G1 G2].
  destruct (s1 >=? s) eqn:E.
  - injection Ht as <- <-. case_if; simpl.
    + eapply gapped_weaken; [|exact G2]. lia.
    + split; [lia|]. by replace (a1 + s + (s1 - s)) with (a1 + s1) by lia.
  - destruct (take_region s rs) as [[a' rs'']|]; [|done]. injection Ht as <- <-. simpl. split; [done|]. by eapply IH.
Qed.
Lemma take_region_aligned s rs a rs' : s mod BY2V = 0 -> take_region s rs = Some (a, rs') -> aligned rs -> a mod BY2V = 0 /\ aligned rs'.
Proof.
  intros Hs Ht H. revert a rs' Ht. induction H as [|[a1 s1] rs H1 Hrs IH]; intros a rs' Ht; simpl in *; [done|].
  destruct (s1 >=? s).
  - injection Ht as <- <-. split; [done|]. case_if; [done|]. constructor; [|done]. simpl. unfold BY2V in *. zlia.
  - destruct (take_region s rs) as [[a' rs'']|]; [|done]. injection Ht as <- <-. destruct (IH _ _ eq_refl). split; [done|by constructor].
Qed.
Lemma take_region_spec s rs lo hi a rs' :
  0 < s -> ordered lo rs hi -> take_region s rs = Some (a, rs') ->
  ordered lo rs' hi /\ disjoint_from a s rs' /\ lo <= a /\ a + s <= hi /\
  (forall b, free_at rs b <-> free_at rs' b \/ a <= b < a + s).
Proof.
  intros Hs. revert lo a rs'. induction rs as [|[a1 s1] rs IH]; intros lo a rs' Ho Ht; simpl in *; [done|].
  destruct Ho as (H1 & H2 & H3). pose proof (ordered_le _ _ _ H3).
  assert (forall b, free_at rs b -> a1 + s1 <= b) as Hrs
    by (intros b Hb; apply (ordered_bounds _ _ _ _ H3) in Hb; lia).
  destruct (s1 >=? s) eqn:E.
  - injection Ht as <- <-. destruct (s1 - s =? 0) eqn:E0; simpl.
    + split; [by eapply ordered_weaken; [|exact H3]; lia|]. split; [|split; [done|split; [lia|]]].
      * intros b Hb Hf%Hrs. lia.
      * intros b. rewrite free_at_cons; simpl. assert (s1 = s) as -> by lia. tauto.
    + split; [|split; [|split; [done|split; [lia|]]]].
      * split; [lia|split; [lia|]]. by replace (a1 + s + (s1 - s)) with (a1 + s1) by lia.
      * intros b Hb [?|?%Hrs]%free_at_cons; simpl in *; lia.
      * intros b. rewrite !free_at_cons; simpl. intuition lia.
  - destruct (take_region s rs) as [[a' rs'']|]; [|done]. injection Ht as <- <-.
    destruct (IH _ _ _ H3 eq_refl) as (Ho & Hd & ? & ? & Hf). simpl.
    split; [done|split; [|split; [lia|split; [lia|]]]].
    + intros b Hb [?|?]%free_at_cons; simpl in *; [lia|]. by apply (Hd b).
    + intros b. rewrite !free_at_cons, Hf; simpl. tauto.
Qed.
Lemma take_region_none s rs r : take_region s rs = None -> r ∈ rs -> r.2 < s.
Proof.
  induction rs as [|[a1 s1] rs IH]; simpl; [by intros _ ?%elem_of_nil|].
  destruct (s1 >=? s) eqn:E; [done|]. destruct (take_region s rs) as [[]|]; [done|].
  intros _ [->|Hin]%elem_of_cons; [simpl; lia|auto].
Qed.

(** Skipping the regions that the walks pass. *)
Lemma add_region_skip a s (rs1 rs2 : list region) :
  Forall (fun r : region => (r.1 + r.2 =? a) || (r.1 >? a) = false) rs1 ->
  add_region a s (rs1 ++ rs2) = rs1 ++ add_region a s rs2 /\
  add_needs_slot a s (rs1 ++ rs2) = add_needs_slot a s rs2.
Proof.
  induction 1 as [|[a1 s1] rs1 H _ [IH1 IH2]]; [done|]. simpl in *.
  apply orb_false_elim in H as [-> ->]. by rewrite IH1, IH2.
Qed.
Lemma take_region_skip s (rs1 rs2 : list region) :
  Forall (fun r : region => (r.2 >=? s) = false) rs1 ->
  take_region s (rs1 ++ rs2) =
    match take_region s rs2 with Some (a, rs') => Some (a, rs1 ++ rs') | None => None end.
Proof.
  induction 1 as [|[a1 s1] rs1 H _ IH]; simpl in *; [by destruct (take_region s rs2) as [[]|]|].
  rewrite H, IH. by destruct (take_region s rs2) as [[]|].
Qed.
Lemma ordered_app lo (rs1 rs2 : list region) hi :
  ordered lo (rs1 ++ rs2) hi <-> exists mid, ordered lo rs1 mid /\ ordered mid rs2 hi.
Proof.
  revert lo. induction rs1 as [|[a s] rs1 IH]; intros lo; simpl.
  - split; [intros H; exists lo; split; [lia|done]|].
    intros (mid & H & Ho). by apply ordered_weaken with mid.
  - rewrite IH. split; [intros (? & ? & mid & ? & ?); eauto|intros (mid & (? & ? & ?) & ?); eauto].
Qed.

(** ** The walks *)

Lemma xhole_scan_spec m a h fuel ks l0 :
  lseg m ks h None -> (length ks < fuel)%nat -> Forall hole_ok ks.*2 ->
  exists ks1 ks2,
    ks = ks1 ++ ks2 /\
    Forall (fun r : region => (r.1 + r.2 =? a) || (r.1 >? a) = false) (regions ks1) /\
    match ks2 with
    | [] => xhole_scan fuel m (last_loc None l0) h a = Ok (false, last_loc None (l0 ++ ks1), None)
    | (k, r) :: _ =>
        (addr r + size r =? a) || (addr r >? a) = true /\
        xhole_scan fuel m (last_loc None l0) h a
        = Ok (addr r + size r =? a, last_loc None (l0 ++ ks1), Some k)
    end.
Proof.
  revert h fuel l0. induction ks as [|[k r] ks IH]; intros h fuel l0 Hl Hf Hok; simpl in Hl.
  - subst h. exists [], []. rewrite !app_nil_r. split; [done|split; [by apply Forall_nil|by destruct fuel]].
  - destruct Hl as (-> & Hk & Hl). apply Forall_cons in Hok as [Hr Hok].
    destruct fuel as [|fuel]; simpl in Hf; [lia|].
    destruct ((addr r + size r =? a) || (addr r >? a)) eqn:E.
    + exists [], ((k, r) :: ks). rewrite app_nil_r. split; [done|split; [done|split; [done|]]].
      simpl. rewrite Hk. simpl. unfold hole_ok in Hr. simpl in Hr. rewrite Hr.
      destruct (addr r + size r =? a); [done|]. simpl in E. by rewrite E.
    + destruct (IH (next r) fuel (l0 ++ [(k, r)]) Hl ltac:(lia) Hok) as (ks1 & ks2 & -> & Hall & Hres).
      exists ((k, r) :: ks1), ks2. split; [done|split; [by simpl; constructor|]].
      assert (xhole_scan (S fuel) m (last_loc None l0) (Some k) a
              = xhole_scan fuel m (last_loc None (l0 ++ [(k, r)])) (next r) a) as ->.
      { simpl. rewrite Hk. simpl. unfold hole_ok in Hr. simpl in Hr. rewrite Hr.
        apply orb_false_elim in E as [-> ->]. unfold last_loc. by rewrite last_snoc. }
      by rewrite <-app_assoc in Hres.
Qed.
Lemma xalloc_scan_spec m s h fuel ks l0 :
  lseg m ks h None -> (length ks < fuel)%nat ->
  exists ks1 ks2,
    ks = ks1 ++ ks2 /\ Forall (fun r : region => (r.2 >=? s) = false) (regions ks1) /\
    match ks2 with
    | [] => xalloc_scan fuel m (last_loc None l0) h s = Ok (last_loc None (l0 ++ ks1), None)
    | (k, r) :: _ =>
        (size r >=? s) = true /\
        xalloc_scan fuel m (last_loc None l0) h s = Ok (last_loc None (l0 ++ ks1), Some k)
    end.
Proof.
  revert h fuel l0. induction ks as [|[k r] ks IH]; intros h fuel l0 Hl Hf; simpl in Hl.
  - subst h. exists [], []. rewrite !app_nil_r. split; [done|split; [by apply Forall_nil|by destruct fuel]].
  - destruct Hl as (-> & Hk & Hl). destruct fuel as [|fuel]; simpl in Hf; [lia|].
    destruct (size r >=? s) eqn:E.
    + exists [], ((k, r) :: ks). rewrite app_nil_r. split; [done|split; [done|split; [done|]]].
      simpl. rewrite Hk. simpl. by rewrite E.
    + destruct (IH (next r) fuel (l0 ++ [(k, r)]) Hl ltac:(lia)) as (ks1 & ks2 & -> & Hall & Hres).
      exists ((k, r) :: ks1), ks2. split; [done|split; [by simpl; constructor|]].
      assert (xalloc_scan (S fuel) m (last_loc None l0) (Some k) s
              = xalloc_scan fuel m (last_loc None (l0 ++ [(k, r)])) (next r) s) as ->.
      { simpl. rewrite Hk. simpl. rewrite E. unfold last_loc. by rewrite last_snoc. }
      by rewrite <-app_assoc in Hres.
Qed.

(** ** Refinement of [xhole] *)

(** The pointer-level state, with the two chains made explicit. *)
Definition chains (x : Xalloc) (ks us : list (nat * Hole)) : Prop :=
  lseg (hole x) ks (sorted_holes x) None /\ lseg (hole x) us (unused_slots x) None /\
  NoDup (keys ks ++ keys us) /\ Forall hole_ok ks.*2.

Lemma rep_chains x rs n :
  rep x rs n <-> exists ks us, chains x ks us /\ (length ks + length us <= Nhole)%nat /\
                  regions ks = rs /\ n = length us.
Proof.
  unfold rep, chains. split.
  - intros (ks & us & ? & ? & ? & ? & ? & ? & ?). eauto 10.
  - intros (ks & us & (? & ? & ? & ?) & ? & ? & ?). exists ks, us. auto 10.
Qed.

Lemma regions_app ks1 ks2 : regions (ks1 ++ ks2) = regions ks1 ++ regions ks2.
Proof. unfold regions. by rewrite !fmap_app. Qed.
Lemma length_regions ks : length (regions ks) = length ks.
Proof. unfold regions. by rewrite !length_fmap. Qed.
Lemma regions_set_last v (l : list (nat * Hole)) : regions (set_last v l) = regions l.
Proof. by apply (view_set_last region_of). Qed.
Lemma hole_ok_set_last v (l : list (nat * Hole)) : Forall hole_ok (set_last v l).*2 <-> Forall hole_ok l.*2.
Proof.
  assert (forall q : list Hole, Forall hole_ok q <-> Forall (fun p => p.1 = p.2) ((fun h => (top h, addr h + size h)) <$> q)) as E.
  { intros q. rewrite Forall_fmap. done. }
  rewrite !E. rewrite (view_set_last (fun h : Hole => (top h, addr h + size h))); done.
Qed.
Lemma length_set_last v (l : list (nat * Hole)) : length (set_last v l) = length l.
Proof. rewrite <-(length_fmap fst), <-(length_fmap fst l). apply (f_equal length), (keys_set_last v l). Qed.

(** Changing the bounds of a hole in place. *)
Lemma chains_set x ks1 k r r' ks2 us :
  chains x (ks1 ++ (k, r) :: ks2) us -> next r' = next r -> hole_ok r' ->
  chains (set_hole x k r') (ks1 ++ (k, r') :: ks2) us.
Proof.
  intros (Hs & Hu & Hnd & Hok) Hn Hr'. unfold chains; simpl.
  assert (NoDup (keys (ks1 ++ (k, r) :: ks2))) as Hnd1 by (by apply NoDup_app in Hnd as [? _]).
  assert (k ∉ keys us) as Hku.
  { apply NoDup_app in Hnd as (_ & Hd & _). apply Hd. rewrite keys_app. unfold keys; simpl. set_solver. }
  split; [by apply (lseg_set _ _ _ r)|split; [by apply lseg_frame|]].
  rewrite !keys_app, !fmap_app in *. split; [done|].
  apply Forall_app in Hok as [? Hok]. simpl in *. apply Forall_cons in Hok as [_ ?].
  apply Forall_app; split; [done|]. by apply Forall_cons.
Qed.
(** Moving the hole after [ks1] to the unused descriptors. *)
Lemma chains_drop x ks1 k r ks2 us r' :
  chains x (ks1 ++ (k, r) :: ks2) us -> next r' = unused_slots x ->
  let x' := set_unused (set_hole (write_sorted x (last_loc None ks1) (next r)) k r') (Some k) in
  chains x' (set_last (next r) ks1 ++ ks2) ((k, r') :: us).
Proof.
  intros (Hs & Hu & Hnd & Hok) Hn. unfold chains, write_sorted.
  pose proof Hnd as Hnd'. apply NoDup_app in Hnd' as (Hnd1 & Hd & Hnd2).
  assert (k ∉ keys us) as Hku by (apply Hd; rewrite keys_app; unfold keys; simpl; set_solver).
  pose proof (lseg_unlink _ _ _ _ _ _ Hs Hnd1) as Hs'. cbv zeta in Hs'. change (lk r) with (next r) in Hs'.
  assert (forall k', last_loc None ks1 = Some k' -> k' ∉ keys us) as Hloc.
  { intros k' Hk'%last_loc_in. apply Hd. rewrite keys_app. set_solver. }
  pose proof (write_link_frame _ _ _ _ (sorted_holes x) _ (next r) Hu Hloc) as Hu'.
  apply NoDup_keys_mid in Hnd1 as (Hn1 & Hk1 & Hk2 & Hn2 & H12).
  destruct (write_link _ _ _ _) as [s m]; simpl in *.
  split; [apply lseg_frame; [|done]|split; [|split]].
  - rewrite keys_app, keys_set_last, not_elem_of_app. done.
  - rewrite lookup_insert_eq. split; [done|split; [done|]]. rewrite Hn. by apply lseg_frame.
  - rewrite keys_app, keys_set_last. rewrite !keys_app in Hnd, Hd. unfold keys in *; simpl in *.
    apply NoDup_app. split; [apply NoDup_app; auto|split].
    + intros k' Hk'. apply not_elem_of_cons. split; [set_solver|]. apply Hd. set_solver.
    + by apply NoDup_cons.
  - rewrite fmap_app in *. apply Forall_app in Hok as [? Hok]. simpl in *. apply Forall_cons in Hok as [_ ?].
    apply Forall_app. by rewrite hole_ok_set_last.
Qed.
(** Linking the first unused descriptor after [ks1]. *)
Lemma chains_add x ks1 ks2 k h us r :
  chains x (ks1 ++ ks2) ((k, h) :: us) -> hole_ok r ->
  lseg (hole x) ks1 (sorted_holes x) (next r) -> lseg (hole x) ks2 (next r) None ->
  let x' := write_sorted (set_hole (set_unused x (next h)) k r) (last_loc None ks1) (Some k) in
  chains x' (set_last (Some k) ks1 ++ (k, r) :: ks2) us.
Proof.
  intros (Hs & (_ & _ & Hu) & Hnd & Hok) Hr Hl1 Hl2. unfold chains, write_sorted. simpl.
  apply NoDup_app in Hnd as (Hnd1 & Hd & Hnd2). unfold keys in Hnd2; simpl in Hnd2.
  apply NoDup_cons in Hnd2 as [Hku Hnd2].
  assert (k ∉ keys (ks1 ++ ks2)) as Hk by (intros Hin; apply (Hd k Hin); unfold keys; simpl; set_solver).
  pose proof (lseg_link_in _ _ _ _ _ _ r Hl1 Hl2 Hnd1 Hk eq_refl) as Hs'. cbv zeta in Hs'.
  assert (forall k', last_loc None ks1 = Some k' -> k' ∉ keys us) as Hloc.
  { intros k' Hk'%last_loc_in Hin. apply (Hd k').
    - rewrite keys_app. set_solver.
    - unfold keys in *; simpl. set_solver. }
  apply (lseg_frame _ _ _ _ k r Hku) in Hu.
  pose proof (write_link_frame _ _ _ _ (sorted_holes x) _ (Some k) Hu Hloc) as Hu'.
  destruct (write_link _ _ _ _) as [s m]; simpl in *.
  split; [done|split; [done|split]].
  - rewrite keys_app, keys_set_last. rewrite keys_app in Hnd1, Hd, Hk. unfold keys in *; simpl in *.
    apply not_elem_of_app in Hk as [Hk1 Hk2]. apply NoDup_app in Hnd1 as (? & Hd12 & ?).
    apply NoDup_app. split; [apply NoDup_app; split; [done|split; [set_solver|]]; by apply NoDup_cons|].
    split; [|done]. intros k' Hk'. destruct (decide (k' = k)) as [->|]; [done|].
    intros Hin. apply (Hd k'); [set_solver|]. apply elem_of_cons. by right.
  - rewrite fmap_app in *. apply Forall_app in Hok as [? ?]. simpl.
    apply Forall_app. rewrite hole_ok_set_last. split; [done|]. by apply Forall_cons.
Qed.

Lemma read_sorted_last x ks1 e :
  lseg (hole x) ks1 (sorted_holes x) e -> read_sorted x (last_loc None ks1) = Ok e.
Proof.
  intros Hl%last_loc_link. unfold read_sorted. destruct (last_loc None ks1) as [k|].
  - destruct Hl as (r & Hk & <-). by rewrite Hk.
  - by rewrite Hl.
Qed.

(** Absorbing the next hole: its descriptor becomes the first unused one. *)
Lemma absorb_next x ks1 k r1 c cr ks2 us r2 :
  chains x (ks1 ++ (k, r1) :: (c, cr) :: ks2) us -> next r2 = next cr -> hole_ok r2 ->
  let x' := set_unused (set_hole (set_hole x k r2) c (set_next (unused_slots x) cr)) (Some c) in
  chains x' (ks1 ++ (k, r2) :: ks2) ((c, set_next (unused_slots x) cr) :: us).
Proof.
  intros Hch Hn Hr2. change ((k, r1) :: (c, cr) :: ks2) with ([(k, r1)] ++ (c, cr) :: ks2) in Hch.
  rewrite app_assoc in Hch.
  assert (k <> c /\ hole x !! k = Some r1) as [Hkc Hk].
  { destruct Hch as (Hl & _ & (Hnd & _)%NoDup_app & _). split.
    - apply NoDup_keys_mid in Hnd as (_ & Hn1 & _). intros ->. apply Hn1. rewrite keys_app. set_solver.
    - apply (lseg_lookup _ _ _ _ _ _ Hl). set_solver. }
  pose proof (chains_drop _ _ _ _ _ _ (set_next (unused_slots x) cr) Hch eq_refl) as Hd; cbv zeta in Hd.
  rewrite set_last_snoc, <-app_assoc in Hd. simpl in Hd.
  apply (chains_set _ _ _ _ r2) in Hd; [|done|done].
  unfold write_sorted, last_loc in Hd. rewrite last_snoc in Hd. simpl in Hd. rewrite Hk in Hd.
  unfold set_unused, set_hole in *; simpl in *.
  rewrite (insert_insert_ne _ k c), insert_insert_eq in Hd by done.
  exact Hd.
Qed.
Lemma xhole_extend_spec x ks1 k r ks2 us s hi :
  chains x (ks1 ++ (k, r) :: ks2) us -> 0 < s -> 0 <= addr r -> hi < 2 ^ 32 ->
  let a := addr r + size r in
  ordered a (regions ks2) hi -> 0 < size r -> a + s <= hi -> disjoint_from a s (regions ks2) ->
  exists x' ks' us', xhole_extend x k s = Ok x' /\ chains x' ks' us' /\
    regions ks' = (regions ks1) ++ add_region a s (regions ((k, r) :: ks2)) /\
    (length ks' + length us' = length (ks1 ++ (k, r) :: ks2) + length us)%nat.
Proof.
  intros Hch Hs Ha Hhi a Ho Hsz Has Hd. unfold xhole_extend.
  assert (hole x !! k = Some r) as Hk.
  { destruct Hch as (Hl & _). apply (lseg_lookup _ _ _ _ _ _ Hl). set_solver. }
  rewrite Hk. cbn [rbind of_ptr].
  rewrite !(u32_small (size r + s)), (u32_small (addr r + (size r + s))) by (unfold_words; lia).
  set (r1 := mkHole (addr r) (addr r + (size r + s)) (size r + s) (next r)).
  apply (chains_set _ _ _ _ r1) in Hch; [|done|done]. set (x1 := set_hole x k r1) in *.
  change (next r1) with (next r). simpl add_region.
  assert (addr r + size r =? a = true) as -> by (subst a; lia).
  destruct ks2 as [|[c cr] ks2].
  - assert (next r = None) as ->.
    { destruct Hch as (Hl & _). apply lseg_app in Hl as (y & _ & _ & _ & Hl). done. }
    exists x1, (ks1 ++ [(k, r1)]), us. split; [done|split; [done|]].
    rewrite !regions_app, !length_app. done.
  - assert (next r = Some c /\ hole x1 !! c = Some cr) as [-> Hc].
    { destruct Hch as (Hl & _). apply lseg_app in Hl as (y & _ & _ & _ & Hn & Hc & _). done. }
    rewrite Hc. cbn [rbind of_ptr top addr size]. simpl in Ho, Hd |- *.
    destruct Ho as (Ho1 & Ho2 & Ho3). pose proof (ordered_le _ _ _ Ho3).
    apply disjoint_cons in Hd as [Hd _]; [|done..].
    replace (addr r + (size r + s)) with (a + s) by (subst a; lia).
    destruct (Z.eqb_spec (a + s) (addr cr)) as [E|E].
    + assert (k <> c) as Hkc.
      { destruct Hch as (_ & _ & (Hnd & _)%NoDup_app & _). apply NoDup_keys_mid in Hnd as (_ & _ & Hn & _).
        intros ->. apply Hn. unfold keys; simpl. set_solver. }
      rewrite !u32_small by (unfold_words; lia).
      set (r2 := mkHole (addr r) (a + s + size cr) (size r + s + size cr) (next cr)).
      pose proof (absorb_next _ _ _ r1 _ _ _ _ r2 Hch eq_refl ltac:(unfold hole_ok; simpl; lia)) as Hch'.
      eexists _, _, _. split; [reflexivity|split; [exact Hch'|]].
      rewrite !regions_app, !length_app. simpl. split; [done|lia].
    + exists x1, (ks1 ++ (k, r1) :: (c, cr) :: ks2), us. split; [done|split; [done|]].
      rewrite !regions_app, !length_app. done.
Qed.

Lemma xhole_insert_spec x ks1 ks2 us a s :
  chains x (ks1 ++ ks2) us -> (length (ks1 ++ ks2) + length us <= Nhole)%nat ->
  if (length us =? 0)%nat
  then xhole_insert x (last_loc None ks1) a (a + s) s = Ok (x, Some s)
  else exists x' n', xhole_insert x (last_loc None ks1) a (a + s) s = Ok (x', None) /\
    rep x' (regions ks1 ++ (a, s) :: regions ks2) n' /\
    (length (regions ks1 ++ (a, s) :: regions ks2) + n' = length (regions ks1 ++ regions ks2) + length us)%nat.
Proof.
  intros Hch Hlen. unfold xhole_insert. pose proof Hch as (Hl & Hu & _).
  destruct us as [|[k h] us]; simpl in Hu; [by rewrite Hu|]. destruct Hu as (-> & Hk & _). rewrite Hk. simpl.
  apply lseg_app in Hl as (e & Hl1 & Hl2).
  assert (read_sorted (set_unused x (next h)) (last_loc None ks1) = Ok e) as ->
    by (by apply (read_sorted_last (set_unused x (next h)))).
  simpl. eexists _, _. split; [reflexivity|]. split.
  - apply rep_chains. eexists _, us. split; [|split; [|split; [|reflexivity]]].
    + by apply (chains_add x ks1 ks2 k h us (mkHole a (a + s) s e)).
    + rewrite !length_app, length_set_last in *. simpl in *. lia.
    + by rewrite regions_app, regions_set_last.
  - rewrite !length_app. simpl. lia.
Qed.

(** The number of descriptors is fixed: those of the regions and the unused. *)
Lemma xhole_spec x rs n a s hi :
  rep x rs n -> 0 < s -> 0 <= a -> a + s <= hi -> hi < 2 ^ 32 ->
  ordered 0 rs hi -> disjoint_from a s rs ->
  if add_needs_slot a s rs && (n =? 0)%nat then xhole x a s = Ok (x, Some s)
  else exists x' n', xhole x a s = Ok (x', None) /\ rep x' (add_region a s rs) n' /\
         (length (add_region a s rs) + n' = length rs + n)%nat.
Proof.
  intros (ks & us & Hch & Hlen & <- & ->)%rep_chains Hs Ha Has Hhi Ho Hd.
  unfold xhole. assert (s =? 0 = false) as -> by lia. rewrite (u32_small (a + s)) by (unfold_words; lia).
  pose proof Hch as (Hl & Hu & Hnd & Hok).
  destruct (xhole_scan_spec (hole x) a (sorted_holes x) (S Nhole) ks [] Hl ltac:(lia) Hok)
    as (ks1 & ks2 & -> & Hskip & Hres). rewrite app_nil_l in Hres.
  change (last_loc None []) with (@None nat) in Hres.
  pose proof (add_region_skip a s _ (regions ks2) Hskip) as [Hadd Hneed].
  rewrite !regions_app in Ho, Hd |- *. rewrite Hadd, Hneed.
  apply ordered_app in Ho as (mid & Ho1 & Ho2). pose proof (ordered_le _ _ _ Ho1).
  assert (disjoint_from a s (regions ks2)) as Hd2.
  { intros b Hb (r & Hr & ?). apply (Hd b Hb). exists r. split; [set_solver|done]. }
  pose proof (xhole_insert_spec x ks1 ks2 us a s Hch Hlen) as Hins.
  destruct ks2 as [|[k r] ks2].
  - rewrite Hres. cbn [rbind]. simpl. exact Hins.
  - destruct Hres as [Htest ->]. cbn [rbind].
    assert (mid <= addr r /\ 0 < size r /\ ordered (addr r + size r) (regions ks2) hi) as (Hr1 & Hr2 & Ho2') by exact Ho2.
    change (regions ((k, r) :: ks2)) with ((addr r, size r) :: regions ks2) in Hd2.
    apply disjoint_cons in Hd2 as [Hdr Hd2]; [|done..].
    destruct (Z.eqb_spec (addr r + size r) a) as [Ea|Ea].
    + destruct (xhole_extend_spec x ks1 k r ks2 us s hi Hch) as (x' & ks' & us' & Hx & Hch' & Hreg & Hcount);
        rewrite ?Ea in *; try done; try lia.
      change (regions ((k, r) :: ks2)) with ((addr r, size r) :: regions ks2) in *.
      cbn [add_needs_slot]. rewrite (proj2 (Z.eqb_eq _ _) Ea). simpl andb. cbv iota.
      rewrite Hx. cbn [rbind]. exists x', (length us'). split; [done|split].
      * apply rep_chains. exists ks', us'. split; [done|split; [rewrite Hcount; lia|done]].
      * rewrite <-Hreg. change ((addr r, size r) :: regions ks2) with (regions ((k, r) :: ks2)).
        rewrite <-regions_app, !length_regions. lia.
    + assert (hole x !! k = Some r) as Hk by (apply (lseg_lookup _ _ _ _ _ _ Hl); set_solver).
      rewrite Hk. cbn [rbind of_ptr]. simpl in Htest.
      assert (addr r + size r =? a = false) as E1 by lia.
      change (regions ((k, r) :: ks2)) with ((addr r, size r) :: regions ks2) in *.
      cbn [add_needs_slot add_region]. rewrite E1, Htest.
      destruct (Z.eqb_spec (a + s) (addr r)) as [E2|E2]; simpl; [|exact Hins].
      rewrite !u32_small by (pose proof (ordered_le _ _ _ Ho2'); unfold_words; lia).
      eexists _, (length us). split; [reflexivity|]. rewrite !length_app. split; [|done].
      apply rep_chains. exists (ks1 ++ (k, mkHole (addr r - s) (top r) (size r + s) (next r)) :: ks2), us.
      split; [|split; [rewrite length_app in *; done|split; [|done]]].
      * apply (chains_set x ks1 k r); [done|done|]. rewrite fmap_app in Hok. apply Forall_app in Hok as [_ [Hok _]%Forall_cons].
        unfold hole_ok in *; simpl in *; lia.
      * rewrite regions_app. unfold regions; simpl. unfold region_of; simpl. do 3 f_equal. lia.
Qed.

(** ** Refinement of [xallocz] *)

Lemma KADDR_linear a : 0 <= a < 2 ^ 30 -> KADDR a = KZERO + a.
Proof.
  intros Ha. unfold KADDR. change (0xffffffff - KSEGM) with (2 ^ 30 - 1).
  rewrite land_mask, Z.mod_small by lia. exact (lor_add 1 a 31 ltac:(lia) ltac:(lia)).
Qed.
Lemma PADDR_linear a : 0 <= a < 2 ^ 30 -> PADDR (KZERO + a) = a.
Proof.
  intros Ha. unfold PADDR. change (0xffffffff - KSEGM) with (2 ^ 30 - 1).
  rewrite land_mask by lia. unfold KZERO. zlia.
Qed.
Lemma PADDR_sub v : 2 ^ 31 <= v < 2 ^ 31 + 2 ^ 30 -> PADDR v = v - 2 ^ 31.
Proof.
  intros Hv. replace v with (KZERO + (v - 2 ^ 31)) at 1 by (unfold KZERO; lia).
  by apply PADDR_linear; lia.
Qed.
(** The block holds the header and the data, in a whole number of [vlong]s. *)
Lemma block_size_spec sz :
  0 <= sz < 2 ^ 32 - 16 -> sz + 8 < block_size sz <= sz + 16 /\ block_size sz mod 8 = 0.
Proof.
  intros Hsz. unfold block_size. change (BY2V + Xhdr_data) with 16.
  rewrite u32_small by (unfold_words; lia).
  change (BY2V - 1) with (2 ^ 3 - 1). rewrite land_clear_word by (unfold_words; lia).
  zlia.
Qed.

(** What an allocation writes: the header, and zeros if asked. *)
Definition block_written (m m' : memory) (p blk : Z) (zero : bool) : Prop :=
  m' p = blk /\ m' (p + Xhdr_magix) = Magichole /\
  (zero = true -> forall b, p + Xhdr_data <= b < p + blk -> m' b = 0) /\
  (forall b, b < p \/ p + blk <= b -> m' b = m b).

Lemma block_written_intro (m : memory) (p blk : Z) (zero : bool) :
  0 <= p -> 8 < blk -> p + blk < 2 ^ 32 ->
  block_written m (store (store (if zero then zero_fill m p blk else m) (p ⊞ Xhdr_magix) Magichole) p blk)
    p blk zero.
Proof.
  intros Hp Hb Hpb. rewrite u32_small by (unfold_words; unfold Xhdr_magix; lia).
  unfold block_written, store, zero_fill, Xhdr_magix, Xhdr_data. repeat split.
  - by rewrite Z.eqb_refl.
  - case_ifs; lia.
  - intros -> b Hbb. case_ifs; lia.
  - intros b Hbb. destruct zero; case_ifs; lia.
Qed.

Lemma xallocz_spec x rs n m sz zero hi :
  rep x rs n -> ordered 0 rs hi -> hi <= 2 ^ 30 -> 0 <= sz < 2 ^ 32 - 16 ->
  let blk := block_size sz in
  match take_region blk rs with
  | None => xallocz x m sz zero = Ok (x, m, 0)
  | Some (a, rs') => exists x' m' n',
      xallocz x m sz zero = Ok (x', m', KZERO + a + Xhdr_data) /\
      rep x' rs' n' /\ (length rs' + n' = length rs + n)%nat /\
      block_written m m' (KZERO + a) blk zero
  end.
Proof.
  intros (ks & us & Hch & Hlen & <- & ->)%rep_chains Ho Hhi Hsz blk.
  destruct (block_size_spec sz Hsz) as [Hblk _]. fold blk in Hblk.
  pose proof Hch as (Hl & Hu & Hnd & Hok). unfold xallocz. fold blk.
  destruct (xalloc_scan_spec (hole x) blk (sorted_holes x) (S Nhole) ks [] Hl ltac:(lia))
    as (ks1 & ks2 & -> & Hskip & Hres). rewrite app_nil_l in Hres.
  change (last_loc None []) with (@None nat) in Hres.
  rewrite !regions_app in Ho |- *. rewrite (take_region_skip blk _ (regions ks2) Hskip).
  apply ordered_app in Ho as (mid & Ho1 & Ho2). pose proof (ordered_le _ _ _ Ho1).
  destruct ks2 as [|[k r] ks2]; [by rewrite Hres|]. destruct Hres as [Hfit ->]. cbn [rbind].
  assert (mid <= addr r /\ 0 < size r /\ ordered (addr r + size r) (regions ks2) hi) as (Hr1 & Hr2 & Ho3) by exact Ho2.
  pose proof (ordered_le _ _ _ Ho3).
  assert (hole x !! k = Some r) as Hk by (apply (lseg_lookup _ _ _ _ _ _ Hl); set_solver).
  change (regions ((k, r) :: ks2)) with ((addr r, size r) :: regions ks2). cbn [take_region]. rewrite Hfit.
  rewrite Hk. cbn [rbind of_ptr]. rewrite KADDR_linear by lia.
  assert (hole_ok r) as Hokr.
  { rewrite fmap_app in Hok. by apply Forall_app in Hok as [_ [Hokr _]%Forall_cons]. }
  rewrite (u32_small (addr r + blk)), (u32_small (size r - blk)), (u32_small (KZERO + addr r + Xhdr_data))
    by (unfold_words; unfold KZERO, Xhdr_data; lia).
  set (r2 := mkHole (addr r + blk) (top r) (size r - blk) (next r)).
  assert (hole_ok r2) as Hokr2 by (unfold hole_ok in *; simpl in *; lia).
  pose proof (chains_set _ _ _ _ r2 _ _ Hch eq_refl Hokr2) as Hch2. set (x2 := set_hole x k r2) in *.
  assert (forall m0, block_written m0 (store (store (if zero then zero_fill m0 (KZERO + addr r) blk else m0)
            (KZERO + addr r ⊞ Xhdr_magix) Magichole) (KZERO + addr r) blk) (KZERO + addr r) blk zero) as Hmem.
  { intros m0. apply block_written_intro; unfold KZERO; lia. }
  simpl (size r2). destruct (size r - blk =? 0) eqn:E0.
  - pose proof (chains_drop _ _ _ _ _ _ (set_next (unused_slots x2) r2) Hch2 eq_refl) as Hd.
    eexists _, _, _. split; [reflexivity|]. split; [|split; [|apply Hmem]].
    + apply rep_chains. eexists _, _. split; [|split; [|split; [|reflexivity]]].
      * unfold write_sorted in *. destruct (write_link _ _ _ _). exact Hd.
      * rewrite !length_app, length_set_last in *. simpl in *. lia.
      * by rewrite regions_app, regions_set_last.
    + rewrite !length_app. simpl. lia.
  - eexists x2, _, (length us). split; [reflexivity|]. split; [|split; [|apply Hmem]].
    + apply rep_chains. exists (ks1 ++ (k, r2) :: ks2), us. split; [done|split; [|split; [|done]]].
      * rewrite !length_app in *. done.
      * by rewrite regions_app.
    + by rewrite !length_app.
Qed.

(** ** Freeing what was just allocated *)

Lemma take_then_add_slot s rs lo hi a rs' :
  0 < s -> ordered lo rs hi -> take_region s rs = Some (a, rs') ->
  add_needs_slot a s rs' = true -> (length rs' < length rs)%nat.
Proof.
  intros Hs. revert lo a rs'. induction rs as [|[a1 s1] rs IH]; intros lo a rs' Ho Ht Hn; simpl in *; [done|].
  destruct Ho as (H1 & H2 & H3). destruct (s1 >=? s) eqn:E.
  - injection Ht as <- <-. destruct (s1 - s =? 0) eqn:E0; [lia|]. simpl in Hn.
    destruct (_ =? a1) eqn:E1 in Hn; [lia|]. destruct (a1 + s >? a1) eqn:E2; [|lia].
    rewrite Z.eqb_refl in Hn. done.
  - destruct (take_region s rs) as [[a' rs'']|] eqn:Et; [|done]. injection Ht as <- <-. simpl in *.
    destruct (a1 + s1 =? a') eqn:E1; [done|].
    destruct (a1 >? a') eqn:E2.
    + destruct (take_region_spec _ _ _ _ _ _ Hs H3 Et) as (_ & _ & ? & _). lia.
    + specialize (IH _ _ _ H3 eq_refl Hn). lia.
Qed.

(** ** [xspanalloc]: two gifts back to the holes out of one block *)

(** Whatever a call of [xhole] leaks, the free memory only grows by the block. *)
Lemma xhole_within x rs n a s hi :
  rep x rs n -> 0 < s -> 0 <= a -> a + s <= hi -> hi < 2 ^ 32 ->
  ordered 0 rs hi -> disjoint_from a s rs ->
  exists x' leak rs' n', xhole x a s = Ok (x', leak) /\ rep x' rs' n' /\ ordered 0 rs' hi /\
    (forall b, free_at rs' b -> free_at rs b \/ a <= b < a + s).
Proof.
  intros Hrep Hs Ha Has Hhi Ho Hd. pose proof (xhole_spec _ _ _ _ _ _ Hrep Hs Ha Has Hhi Ho Hd) as H.
  destruct (add_needs_slot a s rs && (n =? 0)%nat).
  - exists x, (Some s), rs, n. auto 10.
  - destruct H as (x' & n' & Hx & Hrep' & Hn). exists x', None, (add_region a s rs), n'.
    split; [done|split; [done|split; [by apply add_region_ordered|]]].
    intros b. apply (add_region_free a s rs 0 hi); done.
Qed.
Lemma disjoint_grow a s a' s' (rs rs' : list region) :
  disjoint_from a s rs -> (a + s <= a' \/ a' + s' <= a) ->
  (forall b, free_at rs' b -> free_at rs b \/ a' <= b < a' + s') -> disjoint_from a s rs'.
Proof. intros Hd Ha Hf b Hb [?|?]%Hf; [by apply (Hd b)|lia]. Qed.
Lemma disjoint_sub a s a' s' (rs : list region) :
  disjoint_from a s rs -> a <= a' -> a' + s' <= a + s -> disjoint_from a' s' rs.
Proof. intros Hd H1 H2 b Hb. apply Hd. lia. Qed.

(** The part of [xspanalloc] between the allocation and the alignment: [d] is
    the start of [sz + align + span] bytes, of which [sz + align] stay taken. *)
Lemma xspan_carve x rs n d sz align j hi :
  rep x rs n -> ordered 0 rs hi -> hi <= 2 ^ 30 -> 0 <= j < 28 -> 0 <= sz < 2 ^ 30 -> 0 < align < 2 ^ 28 ->
  let span := 2 ^ j in
  2 ^ 31 <= d -> d - 2 ^ 31 + sz + align + span <= hi ->
  disjoint_from (d - 2 ^ 31) (sz + align + span) rs ->
  exists v x' rs' n',
    (if span >? 2 then
       let v := Z.land (d ⊞ span) (0xffffffff - (span ⊟ 1)) in
       let t := v ⊟ d in
       let* x := (if t >? 0 then let* (x, _) := xhole x (PADDR d) t in Ok x else Ok x) in
       let t := d ⊞ span ⊟ v in
       let* x := (if t >? 0 then let* (x, _) := xhole x (PADDR (v ⊞ sz ⊞ align)) t in Ok x else Ok x) in
       Ok (x, v)
     else Ok (x, d)) = Ok (x', v) /\
    rep x' rs' n' /\ ordered 0 rs' hi /\ d <= v <= d + span /\
    disjoint_from (v - 2 ^ 31) (sz + align) rs' /\
    (forall b, free_at rs' b -> free_at rs b \/ d - 2 ^ 31 <= b < d - 2 ^ 31 + sz + align + span) /\
    (4 <= span -> v mod span = 0).
Proof.
  intros Hrep Ho Hhi Hj Hsz Hal span Hd0 Hd1 Hd.
  assert (1 <= span < 2 ^ 28) as Hsp by (split; [apply (Z.pow_le_mono_r 2 0)|apply Z.pow_lt_mono_r]; lia).
  destruct (span >? 2) eqn:Es.
  2:{ exists d, x, rs, n. split; [done|split; [done|split; [done|split; [lia|split; [|split; [auto|lia]]]]]].
      eapply disjoint_sub; [exact Hd|lia|lia]. }
  rewrite (u32_small (d + span)), (u32_small (span - 1)) by (unfold_words; lia).
  unfold span at 2. rewrite land_clear_word by (unfold_words; fold span; lia). fold span.
  set (v := d + span - (d + span) mod span).
  assert (d < v <= d + span /\ v mod span = 0) as [Hv1 Hv2].
  { subst v. pose proof (align_up d span). lia. }
  cbv zeta. rewrite (u32_small (v - d)), (u32_small (d + span - v)), (u32_small (v + sz)), (u32_small (v + sz + align))
    by (unfold_words; lia).
  assert (v - d >? 0 = true) as -> by lia.
  rewrite (PADDR_sub d) by lia.
  destruct (xhole_within x rs n (d - 2 ^ 31) (v - d) hi) as (x1 & leak1 & rs1 & n1 & -> & Hrep1 & Ho1 & Hf1);
    try done; try lia; [by eapply disjoint_sub; [exact Hd|lia|lia]|]. cbn [rbind].
  assert (disjoint_from (v - 2 ^ 31) (d + span - v + sz + align) rs1) as Hd2.
  { apply (disjoint_grow _ _ (d - 2 ^ 31) (v - d) rs); [|lia|done]. eapply disjoint_sub; [exact Hd|lia|lia]. }
  destruct (d + span - v >? 0) eqn:Et.
  - rewrite (PADDR_sub (v + sz + align)) by lia.
    replace (v + sz + align - 2 ^ 31) with (v - 2 ^ 31 + sz + align) by lia.
    destruct (xhole_within x1 rs1 n1 (v - 2 ^ 31 + sz + align) (d + span - v) hi)
      as (x2 & leak2 & rs2 & n2 & -> & Hrep2 & Ho2 & Hf2); try done; try lia.
    { eapply disjoint_sub; [exact Hd2|lia|lia]. }
    exists v, x2, rs2, n2. split; [done|split; [done|split; [done|split; [lia|split; [|split; [|done]]]]]].
    + apply (disjoint_grow _ _ (v - 2 ^ 31 + sz + align) (d + span - v) rs1); [|lia|done].
      eapply disjoint_sub; [exact Hd2|lia|lia].
    + intros b [[?|?]%Hf1|?]%Hf2; [by left|right; lia..].
  - exists v, x1, rs1, n1. split; [done|split; [done|split; [done|split; [lia|split; [|split; [|done]]]]]].
    + eapply disjoint_sub; [exact Hd2|lia|lia].
    + intros b [?|?]%Hf1; [by left|right; lia].
Qed.

(** ** Properties *)

(** C4: [xhole] returns a block that is disjoint from the free memory: the
    table stays well formed and ordered, and either exactly the block is added
    to the free memory, or - only when no descriptor is left and the block touches
    no hole - nothing changes and its size is reported as leaked.  The block is
    merged with the holes it touches: where no two holes touched each other
    before, none do afterwards, so that the table holds the free memory in the
    smallest number of holes.  Holes stay aligned to 8 bytes if
    the block is.  It never loops or follows a bad pointer. *)
Theorem xhole_frees x rs n a s hi :
  rep x rs n -> 0 < s -> 0 <= a -> a + s <= hi -> hi < 2 ^ 32 ->
  ordered 0 rs hi -> disjoint_from a s rs ->
  exists x' leak rs' n',
    xhole x a s = Ok (x', leak) /\ rep x' rs' n' /\ ordered 0 rs' hi /\
    (length rs' + n' = length rs + n)%nat /\
    match leak with
    | None => (forall b, free_at rs' b <-> free_at rs b \/ a <= b < a + s) /\
        (merged rs -> merged rs') /\ (a mod BY2V = 0 -> aligned rs -> aligned rs')
    | Some lost => lost = s /\ x' = x /\ rs' = rs /\ n = 0%nat /\ add_needs_slot a s rs = true
    end.
Proof.
  intros Hrep Hs Ha Has Hhi Ho Hd. pose proof (xhole_spec _ _ _ _ _ _ Hrep Hs Ha Has Hhi Ho Hd) as H.
  destruct (add_needs_slot a s rs && (n =? 0)%nat) eqn:E.
  - apply andb_prop in E as [E1 E2%Nat.eqb_eq]. exists x, (Some s), rs, n. auto 10.
  - destruct H as (x' & n' & Hx & Hrep' & Hn). exists x', None, (add_region a s rs), n'.
    split; [done|]. split; [done|]. split; [by apply add_region_ordered|]. split; [done|]. split; [|split].
    + intros b. by apply (add_region_free a s rs 0 hi).
    + intros Hg. unfold merged. apply (add_region_gapped a s rs Hs (-1) 0 hi); try done. lia.
    + by apply add_region_aligned.
Qed.

(** C5: [xallocz] takes a block from the free memory or returns [nil], and
    [nil] only when no hole can hold the block.  The block is a multiple of 8
    bytes with room for the header and the data asked for; it was free, it is
    free no longer, and the rest of the free memory and of the kernel's memory
    is unchanged; the data is zeroed on demand.  Where all holes begin at multiples of
    8 the address of the data is one too, and they still do.  Holes that do not touch
    still do not. *)
Theorem xallocz_allocates x rs n m sz zero hi :
  rep x rs n -> ordered 0 rs hi -> hi <= 2 ^ 30 -> 0 <= sz < 2 ^ 32 - 16 ->
  exists x' m' p rs' n',
    xallocz x m sz zero = Ok (x', m', p) /\ rep x' rs' n' /\ ordered 0 rs' hi /\
    (length rs' + n' = length rs + n)%nat /\
    let blk := block_size sz in
    (p = 0 /\ x' = x /\ rs' = rs /\ forall r, r ∈ rs -> r.2 < blk) \/
    (exists a, p = KZERO + a + Xhdr_data /\ sz + Xhdr_data <= blk /\ blk mod 8 = 0 /\
       block_written m m' (KZERO + a) blk zero /\ disjoint_from a blk rs' /\
       (forall b, free_at rs b <-> free_at rs' b \/ a <= b < a + blk) /\
       (aligned rs -> p mod BY2V = 0 /\ aligned rs') /\ (merged rs -> merged rs')).
Proof.
  intros Hrep Ho Hhi Hsz. pose proof (xallocz_spec x rs n m sz zero hi Hrep Ho Hhi Hsz) as H.
  destruct (block_size_spec sz Hsz) as [Hb1 Hb2]. cbv zeta in *.
  destruct (take_region (block_size sz) rs) as [[a rs']|] eqn:E.
  - destruct H as (x' & m' & n' & Hx & Hrep' & Hn & Hm).
    pose proof (take_region_gapped (block_size sz) rs a rs' ltac:(lia) E (-1)) as Hg. pose proof (take_region_aligned _ _ _ _ Hb2 E) as Hal.
    apply (take_region_spec _ _ 0 hi) in E as (Ho' & Hd & _ & _ & Hf); [|lia|done].
    exists x', m', (KZERO + a + Xhdr_data), rs', n'. split; [done|split; [done|split; [done|split; [done|]]]].
    right. exists a. unfold Xhdr_data in *. split; [done|split; [lia|split; [done|split; [done|split; [done|split; [done|split; [|exact Hg]]]]]]].
    intros [Ha Hal']%Hal. split; [|done]. unfold BY2V, KZERO in *. zlia.
  - exists x, m, 0, rs, n. split; [done|split; [done|split; [done|split; [done|]]]].
    left. split; [done|split; [done|split; [done|]]]. intros r. by apply take_region_none.
Qed.

(** C30: freeing the block just allocated gives its memory back: [xfree]
    recognises the header, never runs out of descriptors, and the free memory
    is the one before the allocation. *)
Theorem xfree_xallocz x rs n m sz zero hi x' m' p :
  rep x rs n -> ordered 0 rs hi -> hi <= 2 ^ 30 -> 0 <= sz < 2 ^ 32 - 16 ->
  xallocz x m sz zero = Ok (x', m', p) -> p <> 0 ->
  exists x'' rs'' n'',
    xfree x' m' p = Ok (x'', None) /\ rep x'' rs'' n'' /\ ordered 0 rs'' hi /\
    forall b, free_at rs'' b <-> free_at rs b.
Proof.
  intros Hrep Ho Hhi Hsz Hx Hp. pose proof (xallocz_spec x rs n m sz zero hi Hrep Ho Hhi Hsz) as H.
  destruct (block_size_spec sz Hsz) as [Hb1 Hb2]. cbv zeta in *. rewrite Hx in H.
  destruct (take_region (block_size sz) rs) as [[a rs']|] eqn:E; [|by injection H as <- <- ->].
  destruct H as (? & ? & n' & [= <- <- ->] & Hrep' & Hn & Hm1 & Hm2 & _).
  pose proof (take_region_spec (block_size sz) _ 0 hi _ _ ltac:(lia) Ho E) as (Ho' & Hd & Ha & Has & Hf).
  unfold xfree. assert (KZERO + a + Xhdr_data ⊟ Xhdr_data = KZERO + a) as ->.
  { rewrite u32_small; unfold_words; unfold KZERO, Xhdr_data; lia. }
  rewrite (u32_small (KZERO + a + Xhdr_magix)) by (unfold_words; unfold KZERO, Xhdr_magix; lia).
  rewrite Hm2, Z.eqb_refl, PADDR_linear, Hm1 by lia. simpl.
  pose proof (xhole_spec x' rs' n' a (block_size sz) hi Hrep' ltac:(lia) Ha Has ltac:(lia) Ho' Hd) as H.
  destruct (add_needs_slot a (block_size sz) rs' && (n' =? 0)%nat) eqn:E'.
  - apply andb_prop in E' as [E1 E2%Nat.eqb_eq].
    apply (take_then_add_slot (block_size sz) _ 0 hi _ _ ltac:(lia) Ho E) in E1. lia.
  - destruct H as (x2 & n2 & Hx2 & Hrep2 & _). exists x2, (add_region a (block_size sz) rs'), n2.
    split; [done|split; [done|split; [by apply add_region_ordered; try done; lia|]]].
    intros b. rewrite (add_region_free _ _ _ 0 hi), Hf by (done || lia). done.
Qed.

(** [xspanalloc] panics only when no hole can hold the block with its
    slack; otherwise the address is a multiple of [align], the block lies in
    memory that was free and is free no longer, memory outside the allocation
    stays as it was (what the two calls of [xhole] give back is part of it),
    and a block that fits a [span] together with its alignment never crosses a
    multiple of it. *)
Theorem xspanalloc_aligned x rs n m sz k j hi :
  rep x rs n -> ordered 0 rs hi -> hi <= 2 ^ 30 ->
  0 <= sz < 2 ^ 30 -> 0 <= k < 28 -> 0 <= j < 28 ->
  let align := 2 ^ k in let span := 2 ^ j in
  (xspanalloc x m sz align span = Panic /\
   forall r, r ∈ rs -> r.2 < block_size (sz + align + span)) \/
  (exists x' m' v rs' n',
     xspanalloc x m sz align span = Ok (x', m', v) /\ rep x' rs' n' /\ ordered 0 rs' hi /\
     v mod align = 0 /\
     (forall b, v <= b < v + sz -> free_at rs (b - KZERO) /\ ~ free_at rs' (b - KZERO)) /\
     (forall b, free_at rs' b -> free_at rs b) /\
     (4 <= span -> 0 < sz -> sz + align <= span -> v / span = (v + sz - 1) / span)).
Proof.
  intros Hrep Ho Hhi Hsz Hk Hj align span.
  assert (1 <= align < 2 ^ 28) as Hal by (split; [apply (Z.pow_le_mono_r 2 0)|apply Z.pow_lt_mono_r]; lia).
  assert (1 <= span < 2 ^ 28) as Hsp by (split; [apply (Z.pow_le_mono_r 2 0)|apply Z.pow_lt_mono_r]; lia).
  unfold xspanalloc, xalloc. rewrite (u32_small (sz + align)), (u32_small (sz + align + span)) by (unfold_words; lia).
  pose proof (xallocz_spec x rs n m (sz + align + span) true hi Hrep Ho Hhi ltac:(lia)) as H.
  destruct (block_size_spec (sz + align + span) ltac:(lia)) as [Hb _]. cbv zeta in H.
  set (blk := block_size _) in *.
  destruct (take_region blk rs) as [[a rs1]|] eqn:E.
  2:{ left. rewrite H. split; [done|]. intros r. by apply take_region_none. }
  right. destruct H as (x1 & m1 & n1 & -> & Hrep1 & _ & _). cbn [rbind].
  destruct (take_region_spec blk rs 0 hi a rs1 ltac:(lia) Ho E) as (Ho1 & Hd1 & Ha & Has & Hf).
  set (d := KZERO + a + Xhdr_data). assert (d = 2 ^ 31 + a + 8) as Hdv by (unfold d, KZERO, Xhdr_data; lia).
  assert (d =? 0 = false) as -> by lia.
  destruct (xspan_carve x1 rs1 n1 d sz align j hi) as (v & x2 & rs2 & n2 & Hx & Hrep2 & Ho2 & Hv & Hd2 & Hf2 & Hs);
    try done; try lia.
  { eapply disjoint_sub; [exact Hd1|lia|]. fold span. lia. }
  fold span in Hx, Hv, Hd2, Hf2, Hs. cbn [rbind] in Hx. rewrite Hx. cbn [rbind].
  clear Hx. set (w := if align >? 1 then Z.land (v ⊞ align) (0xffffffff - (align ⊟ 1)) else v).
  assert (w mod align = 0 /\ v <= w <= v + align) as [Hw1 Hw2].
  { subst w. destruct (align >? 1) eqn:Ealign.
    - unfold align in *. rewrite !u32_small, land_clear_word by (unfold_words; lia).
      pose proof (align_up v (2 ^ k)). lia.
    - assert (align = 1) as -> by lia. rewrite Z.mod_1_r. lia. }
  exists x2, m1, w, rs2, n2. split; [done|split; [done|split; [done|split; [done|split; [|split]]]]].
  - intros b Hbw. split.
    + apply Hf. right. change KZERO with (2 ^ 31). lia.
    + apply Hd2. change KZERO with (2 ^ 31). lia.
  - intros b [?|Hb2]%Hf2; apply Hf; [by left|right; lia].
  - intros H1 H2 H3. specialize (Hs H1). rewrite <-(Z.div_unique w span (v / span) (w - v));
      [|lia|pose proof (Z.div_mod v span); lia].
    apply Z.div_unique with (w + sz - 1 - v); [lia|]. pose proof (Z.div_mod v span). lia.
Qed.

(** *** A concrete table: two holes and one free descriptor *)
Definition table_example : Xalloc :=
  mkXalloc (list_to_map [(0%nat, mkHole 0x1000 0x1100 0x100 (Some 1%nat));
                         (1%nat, mkHole 0x2000 0x3000 0x1000 None);
                         (2%nat, mkHole 0 0 0 None)]) (Some 2%nat) (Some 0%nat).
Lemma table_example_rep : rep table_example [(0x1000, 0x100); (0x2000, 0x1000)] 1.
Proof.
  exists [(0%nat, mkHole 0x1000 0x1100 0x100 (Some 1%nat)); (1%nat, mkHole 0x2000 0x3000 0x1000 None)],
    [(2%nat, mkHole 0 0 0 None)].
  split; [vm_compute; auto 10|]. split; [vm_compute; auto|].
  split; [apply (bool_decide_unpack _); vm_compute; exact I|].
  split; [vm_compute; lia|]. split; [done|split; [|done]]. repeat constructor.
Qed.

Lemma xhole_frees_witness : exists x' leak rs' n',
    xhole table_example 0x1100 0xF00 = Ok (x', leak) /\ rep x' rs' n' /\ ordered 0 rs' (2 ^ 30) /\
    (length rs' + n' = 3)%nat /\
    match leak with
    | None => (forall b, free_at rs' b <->
        free_at [(0x1000, 0x100); (0x2000, 0x1000)] b \/ 0x1100 <= b < 0x1100 + 0xF00) /\
        (merged [(0x1000, 0x100); (0x2000, 0x1000)] -> merged rs') /\
        (0x1100 mod BY2V = 0 -> aligned [(0x1000, 0x100); (0x2000, 0x1000)] -> aligned rs')
    | Some lost => lost = 0xF00 /\ x' = table_example /\ rs' = [(0x1000, 0x100); (0x2000, 0x1000)] /\
        1%nat = 0%nat /\ add_needs_slot 0x1100 0xF00 [(0x1000, 0x100); (0x2000, 0x1000)] = true
    end.
Proof.
  apply (xhole_frees table_example _ 1 0x1100 0xF00 (2 ^ 30) table_example_rep); try lia.
  - simpl. lia.
  - intros b Hb Hf. rewrite !free_at_cons in Hf. simpl in Hf. pose proof (free_at_nil b). intuition lia.
Defined.
Lemma xallocz_allocates_witness : exists x' m' p rs' n',
    xallocz table_example (fun _ => 0) 0x200 true = Ok (x', m', p) /\ rep x' rs' n' /\
    ordered 0 rs' (2 ^ 30) /\ (length rs' + n' = 3)%nat /\
    let blk := block_size 0x200 in
    (p = 0 /\ x' = table_example /\ rs' = [(0x1000, 0x100); (0x2000, 0x1000)] /\
     forall r, r ∈ [(0x1000, 0x100); (0x2000, 0x1000)] -> r.2 < blk) \/
    (exists a, p = KZERO + a + Xhdr_data /\ 0x200 + Xhdr_data <= blk /\ blk mod 8 = 0 /\
       block_written (fun _ => 0) m' (KZERO + a) blk true /\ disjoint_from a blk rs' /\
       (forall b, free_at [(0x1000, 0x100); (0x2000, 0x1000)] b <-> free_at rs' b \/ a <= b < a + blk) /\
       (aligned [(0x1000, 0x100); (0x2000, 0x1000)] -> p mod BY2V = 0 /\ aligned rs') /\
       (merged [(0x1000, 0x100); (0x2000, 0x1000)] -> merged rs')).
Proof.
  apply (xallocz_allocates table_example _ 1 (fun _ => 0) 0x200 true (2 ^ 30) table_example_rep);
    [simpl|..]; lia.
Defined.
Lemma xfree_xallocz_witness : exists x' m' p x'' rs'' n'',
    xallocz table_example (fun _ => 0) 0x200 true = Ok (x', m', p) /\
    xfree x' m' p = Ok (x'', None) /\ rep x'' rs'' n'' /\ ordered 0 rs'' (2 ^ 30) /\
    forall b, free_at rs'' b <-> free_at [(0x1000, 0x100); (0x2000, 0x1000)] b.
Proof.
  eexists _, _, _.
  edestruct (xfree_xallocz table_example [(0x1000, 0x100); (0x2000, 0x1000)] 1 (fun _ => 0) 0x200 true (2 ^ 30)) as (x'' & rs'' & n'' & H);
    [exact table_example_rep|simpl; lia|lia|lia|reflexivity|vm_compute; discriminate|].
  exists x'', rs'', n''. split; [reflexivity|exact H].
Defined.
Lemma xspanalloc_aligned_witness :
  (xspanalloc table_example (fun _ => 0) 0x100 (2 ^ 4) (2 ^ 10) = Panic /\
   forall r, r ∈ [(0x1000, 0x100); (0x2000, 0x1000)] -> r.2 < block_size (0x100 + 2 ^ 4 + 2 ^ 10)) \/
  (exists x' m' v rs' n',
     xspanalloc table_example (fun _ => 0) 0x100 (2 ^ 4) (2 ^ 10) = Ok (x', m', v) /\
     rep x' rs' n' /\ ordered 0 rs' (2 ^ 30) /\ v mod 2 ^ 4 = 0 /\
     (forall b, v <= b < v + 0x100 ->
        free_at [(0x1000, 0x100); (0x2000, 0x1000)] (b - KZERO) /\ ~ free_at rs' (b - KZERO)) /\
     (forall b, free_at rs' b -> free_at [(0x1000, 0x100); (0x2000, 0x1000)] b) /\
     (4 <= 2 ^ 10 -> 0 < 0x100 -> 0x100 + 2 ^ 4 <= 2 ^ 10 -> v / 2 ^ 10 = (v + 0x100 - 1) / 2 ^ 10)).
Proof.
  apply (xspanalloc_aligned table_example _ 1 (fun _ => 0) 0x100 4 10 (2 ^ 30) table_example_rep);
    [simpl|..]; lia.
Defined.
