(* ===== verification/Boot.v ===== *)
(** * The first allocation of memory: arch__confinit (kernel/main.c) and
    xinit (kernel/Port/xalloc.c)

    [arch__confinit] computes the number of physical pages and their split
    between the kernel and the users; [xinit] gives the kernel's share of
    every bank to the holes of [xlists] and records the rest in
    [palloc.mem].  What the firmware answers about the memory is an argument. *)
From stdpp Require Import gmap.
From S2P Require Import Prelude Chain Xalloc.

(** ** Data *)

Record Confmem := mkConfmem { base : Z; limit : Z; npage : Z; kbase : Z; klimit : Z }.
Record Conf := mkConf {
  mem : list Confmem; nproc : Z; copymode : Z; nswap : Z; nswppo : Z;
  conf_npage : Z; upages : Z; nimage : Z; ialloc : Z }.
(** The used entries of [palloc.mem], which has 4. *)
Record Pallocmem := mkPallocmem { pbase : Z; pnpage : Z }.

Definition BY2PG : Z := 4096.
Definition MB : Z := 1024 * 1024.
Definition PGROUND (s : Z) : Z := (s ⊞ (BY2PG - 1)) / BY2PG * BY2PG.
Definition arch_cankaddr (memsize pa : Z) : Z := if pa <? memsize then memsize - pa else 0.

(** ** [arch__confinit] *)

(** [vc] is the answer of the video core: base and limit, or no answer. *)
Definition getramsize (vc : option (Z * Z)) (m : Confmem) : Confmem :=
  match vc with
  | None => m
  | Some (b, l) => mkConfmem b l (npage m) (kbase m) (klimit m)
  end.

(** One turn of the loop over the banks. *)
Definition conf_bank (pa : Z) (m : Confmem) : Confmem :=
  let b := if (pa >? base m) && (pa <? limit m) then pa else base m in
  mkConfmem b (limit m) ((limit m ⊟ b) / BY2PG) (kbase m) (klimit m).

(** [kend] is the address of the linker symbol [end]; the sizes are those of
    [Page], [Proc] and [KImage].  The second component is the [maxsize] given
    to both pools. *)
Definition arch__confinit (memsize kend sizeof_Page sizeof_Proc sizeof_KImage : Z)
    (vc : option (Z * Z)) (mem0 : Confmem) (mems : list Confmem) : Conf * Z :=
  let m0 := getramsize vc mem0 in
  let m0 := if limit m0 =? 0 then mkConfmem 0 memsize (npage m0) (kbase m0) (klimit m0) else m0 in
  let pa := PADDR (PGROUND kend) in
  let ms := conf_bank pa <$> (m0 :: mems) in
  let np := fold_left (fun n m => n ⊞ npage m) ms 0 in
  let up := (np ⊠ 80) / 100 in
  let kpages := np ⊟ up in
  let procs := 100 ⊞ (np ⊠ BY2PG) / MB ⊠ 5 in
  let procs := if procs >? 2000 then 2000 else procs in
  let nsw := np ⊠ 3 in
  let c := mkConf ms procs 1 nsw 4096 np up 200 (kpages / 2 ⊠ BY2PG) in
  let kmem := kpages ⊠ BY2PG ⊟ (up * sizeof_Page + procs * sizeof_Proc + 200 * sizeof_KImage + nsw + 4096 * 4) in
  (c, kmem).

(** ** [xinit] *)

(** [for(h = xlists.hole; h < eh; h++) h->next = h+1;] *)
Definition xinit_links (x : Xalloc) : Xalloc :=
  let hs := fold_left (fun m h => alter (set_next (Some (S h))) h m) (seq 0 (Nhole - 1)) (hole x) in
  mkXalloc hs (Some 0%nat) (sorted_holes x).

Fixpoint xinit_banks (memsize : Z) (ms : list Confmem) (kpages : Z) (x : Xalloc) (pm : list Pallocmem)
    : result (list Confmem * Xalloc * list Pallocmem) :=
  match ms with
  | [] => Ok ([], x, pm)
  | m :: ms =>
      let nkpages := s32 (npage m) in
      let nkpages := if nkpages >? kpages then kpages else nkpages in
      let maxpages := arch_cankaddr memsize (base m) / BY2PG in
      let nkpages := if u32 nkpages >? maxpages then s32 maxpages else nkpages in
      let* (x, kpages, m) :=
        if nkpages >? 0 then
          let* (x, _) := xhole x (base m) (u32 (nkpages * BY2PG)) in
          Ok (x, s32 (kpages - nkpages),
              mkConfmem (base m) (limit m) (npage m) (KADDR (base m)) (KADDR (base m ⊞ nkpages * BY2PG)))
        else Ok (x, kpages, m) in
      let pm :=
        if npage m >? u32 nkpages then
          if (4 <=? length pm)%nat then pm
          else pm ++ [mkPallocmem (base m ⊞ nkpages * BY2PG) (npage m ⊟ nkpages)]
        else pm in
      let* (ms, x, pm) := xinit_banks memsize ms kpages x pm in
      Ok (m :: ms, x, pm)
  end.

Definition xinit (memsize : Z) (c : Conf) (x : Xalloc) : result (list Confmem * Xalloc * list Pallocmem) :=
  xinit_banks memsize (mem c) (s32 (conf_npage c - upages c)) (xinit_links x) [].

(** The table in the zeroed data segment. *)
Definition xlists_bss : Xalloc :=
  mkXalloc (list_to_map ((fun k => (k, mkHole 0 0 0 None)) <$> seq 0 Nhole)) None None.

(** ** Specification: the split of the banks *)

Definition kernel_share (memsize kpages : Z) (m : Confmem) : Z :=
  Z.min (Z.min (npage m) kpages) (arch_cankaddr memsize (base m) / BY2PG).
Fixpoint kernel_regions (memsize kpages : Z) (ms : list Confmem) : list region :=
  match ms with
  | [] => []
  | m :: ms =>
      let k := kernel_share memsize kpages m in
      let rs := kernel_regions memsize (kpages - k) ms in
      if k =? 0 then rs else (base m, k * BY2PG) :: rs
  end.
Fixpoint user_banks (memsize kpages : Z) (ms : list Confmem) : list Pallocmem :=
  match ms with
  | [] => []
  | m :: ms =>
      let k := kernel_share memsize kpages m in
      let pm := user_banks memsize (kpages - k) ms in
      if npage m - k =? 0 then pm else mkPallocmem (base m + k * BY2PG) (npage m - k) :: pm
  end.
Definition total_pages (ms : list Confmem) : Z := foldr (fun m n => npage m + n) 0 ms.
Definition kernel_pages (rs : list region) : Z := foldr (fun r n => r.2 / BY2PG + n) 0 rs.
Definition user_pages (pm : list Pallocmem) : Z := foldr (fun p n => pnpage p + n) 0 pm.

Definition bank_ok (m : Confmem) : Prop :=
  0 <= base m /\ 0 <= npage m /\ base m + npage m * BY2PG <= 2 ^ 30.
Definition apart (m m' : Confmem) : Prop :=
  base m + npage m * BY2PG <= base m' \/ base m' + npage m' * BY2PG <= base m.
Definition in_bank (m : Confmem) (b : Z) : Prop := base m <= b < base m + npage m * BY2PG.

Definition user_at (pm : list Pallocmem) (b : Z) : Prop :=
  Exists (fun p => pbase p <= b < pbase p + pnpage p * BY2PG) pm.

(** ** Lemmas *)

Lemma xinit_links_rep : rep (xinit_links xlists_bss) [] Nhole.
Proof.
  exists [], ((fun k => (k, mkHole 0 0 0 (if (k <? 127)%nat then Some (S k) else None))) <$> seq 0 Nhole).
  split; [done|]. split; [vm_compute; repeat split|].
  split; [apply (bool_decide_unpack _); vm_compute; exact I|].
  split; [vm_compute; lia|]. split; [done|split; [by apply Forall_nil|done]].
Qed.
Lemma cankaddr_range memsize pa : 0 <= pa -> is_u32 memsize -> is_u32 (arch_cankaddr memsize pa).
Proof. unfold arch_cankaddr. intros. case_tests; unfold_words; lia. Qed.
Lemma kernel_share_range memsize kpages m :
  bank_ok m -> 0 <= kpages -> is_u32 memsize ->
  0 <= kernel_share memsize kpages m <= npage m /\ kernel_share memsize kpages m <= kpages.
Proof.
  intros (? & ? & ?) ? Hm. unfold kernel_share.
  pose proof (cankaddr_range memsize (base m) ltac:(done) Hm) as Hc. unfold_words.
  assert (0 <= arch_cankaddr memsize (base m) / BY2PG) by (apply Z.div_pos; unfold BY2PG; lia). lia.
Qed.
(** The tests of the code compute the share. *)
Lemma kernel_share_code memsize kpages m :
  bank_ok m -> 0 <= kpages < 2 ^ 31 -> is_u32 memsize ->
  (let nk := s32 (npage m) in
   let nk := if nk >? kpages then kpages else nk in
   let maxpages := arch_cankaddr memsize (base m) / BY2PG in
   if u32 nk >? maxpages then s32 maxpages else nk) = kernel_share memsize kpages m.
Proof.
  intros (H1 & H2 & H3) Hk Hm. cbv zeta. unfold kernel_share.
  pose proof (cankaddr_range memsize (base m) H1 Hm) as Hc.
  set (mx := arch_cankaddr memsize (base m) / BY2PG).
  assert (0 <= mx < 2 ^ 20) by (subst mx; unfold BY2PG, is_u32 in *; zlia).
  unfold BY2PG in *. rewrite (s32_small (npage m)), (s32_small mx) by (unfold_words; lia).
  assert ((if npage m >? kpages then kpages else npage m) = Z.min (npage m) kpages) as ->
    by (case_tests; lia).
  rewrite u32_small by (unfold_words; lia). case_tests; lia.
Qed.

Lemma kernel_regions_in memsize kpages ms b :
  Forall bank_ok ms -> 0 <= kpages -> is_u32 memsize ->
  free_at (kernel_regions memsize kpages ms) b -> Exists (fun m => in_bank m b) ms.
Proof.
  intros Hok Hk Hm. revert kpages Hk. induction Hok as [|m ms Hm' _ IH]; intros kpages Hk; cbn [kernel_regions].
  - by intros ?%free_at_nil.
  - pose proof (kernel_share_range _ _ _ Hm' Hk Hm). destruct (_ =? 0).
    + intros ?%IH; [by right|lia].
    + intros [Hb|?%IH]%free_at_cons; [left|by right|lia].
      unfold in_bank. unfold BY2PG in *. simpl in Hb. lia.
Qed.

Lemma kernel_regions_addressable memsize kpages ms b :
  Forall bank_ok ms -> 0 <= kpages -> is_u32 memsize ->
  free_at (kernel_regions memsize kpages ms) b -> b < memsize.
Proof.
  intros Hok Hk Hm. revert kpages Hk. induction Hok as [|m ms Hm' _ IH]; intros kpages Hk; cbn [kernel_regions].
  - by intros ?%free_at_nil.
  - pose proof (kernel_share_range _ _ _ Hm' Hk Hm). destruct (_ =? 0) eqn:E.
    + intros ?%IH; [done|lia].
    + intros [Hb|?%IH]%free_at_cons; [|done|lia]. simpl in Hb.
      assert (kernel_share memsize kpages m <= arch_cankaddr memsize (base m) / BY2PG) as Hs
        by (unfold kernel_share; lia).
      unfold arch_cankaddr, BY2PG in *. case_tests_in Hs; zlia.
Qed.

(** The loop over the banks, from any state with enough free descriptors. *)
Lemma xinit_banks_spec memsize ms kpages x rs n pm :
  rep x rs n -> ordered 0 rs (2 ^ 30) -> Forall bank_ok ms -> ForallOrdPairs apart ms ->
  Forall (fun m => disjoint_from (base m) (npage m * BY2PG) rs) ms ->
  (length ms <= n)%nat -> (length pm + length ms <= 4)%nat -> 0 <= kpages < 2 ^ 31 -> is_u32 memsize ->
  exists ms' x' rs' n',
    xinit_banks memsize ms kpages x pm = Ok (ms', x', pm ++ user_banks memsize kpages ms) /\
    rep x' rs' n' /\ ordered 0 rs' (2 ^ 30) /\
    forall b, free_at rs' b <-> free_at rs b \/ free_at (kernel_regions memsize kpages ms) b.
Proof.
  intros Hrep Ho Hok Hap. revert kpages x rs n pm Hrep Ho.
  induction Hok as [|m ms Hm _ IH]; intros kpages x rs n pm Hrep Ho Hd Hn Hpm Hk Hmem.
  { exists [], x, rs, n. cbn. rewrite app_nil_r. split; [done|split; [done|split; [done|]]].
    intros b. pose proof (free_at_nil b). tauto. }
  apply Forall_cons in Hd as [Hdm Hd]. inversion Hap as [|? ? Ham Hap']; subst.
  cbn [length] in Hn, Hpm. cbn [xinit_banks].
  pose proof (kernel_share_code memsize kpages m Hm Hk Hmem) as Hsh. cbv zeta in Hsh. cbv zeta. rewrite !Hsh. clear Hsh.
  pose proof (kernel_share_range memsize kpages m Hm ltac:(lia) Hmem) as [Hr1 Hr2].
  cbn [kernel_regions user_banks]. cbv zeta.
  set (k := kernel_share memsize kpages m) in *. destruct Hm as (Hm1 & Hm2 & Hm3).
  unfold BY2PG in *.
  assert (exists x1 rs1 n1 m1,
    (if k >? 0 then
       let* (x, _) := xhole x (base m) (u32 (k * 4096)) in
       Ok (x, s32 (kpages - k), mkConfmem (base m) (limit m) (npage m) (KADDR (base m)) (KADDR (base m ⊞ k * 4096)))
     else Ok (x, kpages, m)) = Ok (x1, kpages - k, m1) /\ base m1 = base m /\ npage m1 = npage m /\
    rep x1 rs1 n1 /\ ordered 0 rs1 (2 ^ 30) /\ (length ms <= n1)%nat /\
    (forall b, free_at rs1 b <-> free_at rs b \/ base m <= b < base m + k * 4096)) as
    (x1 & rs1 & n1 & m1 & -> & Hb & Hp & Hrep1 & Ho1 & Hn1 & Hf1).
  { destruct (k >? 0) eqn:Ek.
    - rewrite (u32_small (k * 4096)), (s32_small (kpages - k)) by (unfold_words; lia).
      pose proof (xhole_spec x rs n (base m) (k * 4096) (2 ^ 30) Hrep ltac:(lia) Hm1 ltac:(lia) ltac:(lia) Ho) as H.
      assert (disjoint_from (base m) (k * 4096) rs) as Hdk by (eapply disjoint_sub; [exact Hdm|lia|lia]).
      specialize (H Hdk). assert ((n =? 0)%nat = false) as En by (apply Nat.eqb_neq; lia).
      rewrite En, andb_false_r in H. destruct H as (x1 & n1 & -> & Hrep1 & Hlen).
      eexists x1, (add_region (base m) (k * 4096) rs), n1, _. split; [reflexivity|].
      split; [done|split; [done|split; [done|]]].
      split; [apply add_region_ordered; try done; lia|].
      split; [pose proof (add_region_length (base m) (k * 4096) rs); lia|].
      intros b. apply (add_region_free _ _ _ 0 (2 ^ 30)); [lia|done|done].
    - exists x, rs, n, m. assert (k = 0) as -> by lia. rewrite Z.sub_0_r.
      split; [done|split; [done|split; [done|split; [done|split; [done|split; [lia|]]]]]].
      intros b. split; [by left|]. intros [?|?]; [done|lia]. }
  cbn [rbind]. rewrite Hb, Hp, (u32_small k) by (unfold_words; lia).
  set (pm1 := if npage m >? k then _ else pm).
  assert (pm1 = pm ++ (if npage m - k =? 0 then [] else [mkPallocmem (base m + k * 4096) (npage m - k)])) as Epm.
  { subst pm1. assert ((4 <=? length pm)%nat = false) as -> by (apply Nat.leb_gt; lia).
    destruct (npage m >? k) eqn:E1, (npage m - k =? 0) eqn:E2; try lia.
    - rewrite !u32_small by (unfold_words; lia). done.
    - by rewrite app_nil_r. }
  destruct (IH Hap' (kpages - k) x1 rs1 n1 pm1 Hrep1 Ho1) as (ms' & x' & rs' & n' & -> & Hrep' & Ho' & Hf'); try lia; try done.
  - apply Forall_forall. intros m' Hin b Hbb [Hf|Hf]%Hf1.
    + rewrite Forall_forall in Hd. by apply (Hd m' Hin b).
    + rewrite Forall_forall in Ham. destruct (Ham m' Hin); unfold BY2PG in *; lia.
  - rewrite Epm, length_app. case_if; cbn [length]; lia.
  - cbn [rbind]. exists (m1 :: ms'), x', rs', n'. split; [|split; [done|split; [done|]]].
    + rewrite Epm, <-app_assoc. by case_if.
    + intros b. rewrite Hf', Hf1. destruct (k =? 0) eqn:Ek.
      * assert (k = 0) as -> by lia. intuition lia.
      * rewrite free_at_cons. simpl. tauto.
Qed.

(** Every byte of a bank is the kernel's or a user's. *)
Lemma split_covers memsize ms kpages b :
  Forall bank_ok ms -> 0 <= kpages -> is_u32 memsize ->
  Exists (fun m => in_bank m b) ms <->
  free_at (kernel_regions memsize kpages ms) b \/ user_at (user_banks memsize kpages ms) b.
Proof.
  intros Hok Hk Hm. unfold user_at. revert kpages Hk. induction Hok as [|m ms Hm' _ IH]; intros kpages Hk.
  - cbn. rewrite !Exists_nil. pose proof (free_at_nil b). tauto.
  - pose proof (kernel_share_range _ _ _ Hm' Hk Hm). cbn [kernel_regions user_banks]. cbv zeta.
    rewrite Exists_cons, (IH (kpages - kernel_share memsize kpages m)) by lia.
    set (k := kernel_share memsize kpages m) in *. unfold in_bank, BY2PG in *.
    destruct (k =? 0) eqn:E1, (npage m - k =? 0) eqn:E2; rewrite ?free_at_cons, ?Exists_cons; simpl;
      intuition lia.
Qed.
Lemma user_banks_in memsize kpages ms b :
  Forall bank_ok ms -> 0 <= kpages -> is_u32 memsize ->
  user_at (user_banks memsize kpages ms) b -> Exists (fun m => in_bank m b) ms.
Proof. intros Hok Hk Hm Hu. apply (split_covers memsize ms kpages b Hok Hk Hm). by right. Qed.
(** No byte is both. *)
Lemma split_disjoint memsize ms kpages b :
  Forall bank_ok ms -> ForallOrdPairs apart ms -> 0 <= kpages -> is_u32 memsize ->
  free_at (kernel_regions memsize kpages ms) b -> user_at (user_banks memsize kpages ms) b -> False.
Proof.
  intros Hok Hap Hk Hm. revert kpages Hk. induction Hap as [|m ms Ham Hap IH]; intros kpages Hk; [by intros ?%free_at_nil|].
  apply Forall_cons in Hok as [Hm' Hok]. pose proof (kernel_share_range _ _ _ Hm' Hk Hm).
  cbn [kernel_regions user_banks]. cbv zeta. set (k := kernel_share memsize kpages m) in *.
  assert (forall kp, 0 <= kp -> free_at (kernel_regions memsize kp ms) b \/ user_at (user_banks memsize kp ms) b ->
            in_bank m b -> False) as Hout.
  { intros kp Hkp Hf Hb. apply split_covers in Hf; [|done..].
    apply Exists_exists in Hf as (m' & Hin & Hb'). rewrite Forall_forall in Ham.
    destruct (Ham m' Hin); unfold in_bank, BY2PG in *; lia. }
  specialize (Hout (kpages - k) ltac:(lia)). specialize (IH Hok (kpages - k) ltac:(lia)).
  assert (forall b, base m <= b < base m + k * BY2PG -> in_bank m b) by (unfold in_bank, BY2PG; lia).
  assert (forall b, base m + k * BY2PG <= b < base m + k * BY2PG + (npage m - k) * BY2PG -> in_bank m b)
    by (unfold in_bank, BY2PG; lia).
  unfold user_at in *.
  destruct (k =? 0) eqn:E1, (npage m - k =? 0) eqn:E2; rewrite ?free_at_cons, ?Exists_cons; simpl; intuition (lia || eauto).
Qed.
Lemma kernel_pages_nonneg memsize ms kpages :
  Forall bank_ok ms -> 0 <= kpages -> is_u32 memsize -> 0 <= kernel_pages (kernel_regions memsize kpages ms).
Proof.
  intros Hok Hk Hm. revert kpages Hk. unfold kernel_pages. induction Hok as [|m ms Hm' Hok IH]; intros kpages Hk; [simpl; lia|].
  pose proof (kernel_share_range _ _ _ Hm' Hk Hm) as Hr. cbn [kernel_regions]. cbv zeta.
  specialize (IH (kpages - kernel_share memsize kpages m) ltac:(lia)).
  case_if; [done|]. cbn [foldr snd]. rewrite Z.div_mul by done. lia.
Qed.
Lemma total_pages_nonneg ms : Forall bank_ok ms -> 0 <= total_pages ms.
Proof. unfold total_pages. induction 1 as [|m ms (_ & ? & _) _ IH]; simpl; lia. Qed.
Lemma split_pages memsize ms kpages :
  Forall bank_ok ms -> 0 <= kpages -> is_u32 memsize ->
  kernel_pages (kernel_regions memsize kpages ms) + user_pages (user_banks memsize kpages ms) = total_pages ms /\
  (Forall (fun m => base m + npage m * BY2PG <= memsize) ms ->
   kernel_pages (kernel_regions memsize kpages ms) = Z.min kpages (total_pages ms)).
Proof.
  intros Hok Hk Hm. revert kpages Hk. induction Hok as [|m ms Hm' Hok IH]; intros kpages Hk; [simpl; lia|].
  pose proof (kernel_share_range _ _ _ Hm' Hk Hm) as Hr. cbn [kernel_regions user_banks]. cbv zeta.
  destruct (IH (kpages - kernel_share memsize kpages m) ltac:(lia)) as [IH1 IH2].
  assert (base m + npage m * BY2PG <= memsize -> kernel_share memsize kpages m = Z.min (npage m) kpages) as Hs.
  { intros Hin. unfold kernel_share, arch_cankaddr, BY2PG in *. destruct Hm' as (? & ? & ?). case_tests; zlia. }
  set (k := kernel_share memsize kpages m) in *. unfold total_pages, kernel_pages, user_pages in *. cbn [foldr].
  pose proof (total_pages_nonneg ms Hok) as Htot. unfold total_pages in Htot.
  rewrite Forall_cons.
  destruct (k =? 0) eqn:E1, (npage m - k =? 0) eqn:E2; cbn [foldr fst snd pnpage]; rewrite ?Z.div_mul by done;
    split; try lia; intros [Hb Hbs]; specialize (Hs Hb); specialize (IH2 Hbs); lia.
Qed.

(** The kernel image ends below [pa], a page boundary. *)
Lemma PGROUND_end kend :
  2 ^ 31 <= kend < 2 ^ 31 + 2 ^ 30 - 4096 ->
  let pa := PADDR (PGROUND kend) in pa mod BY2PG = 0 /\ kend <= KZERO + pa < kend + BY2PG /\ 0 <= pa.
Proof.
  intros Hk. unfold PGROUND, BY2PG. rewrite (u32_small (kend + (4096 - 1))) by (unfold_words; lia).
  rewrite PADDR_sub by zlia. unfold KZERO. zlia.
Qed.

Definition zbank : Confmem := mkConfmem 0 0 0 0 0.
Lemma zbank_share memsize k : 0 <= k -> is_u32 memsize -> kernel_share memsize k zbank = 0.
Proof.
  intros Hk Hm. unfold kernel_share. simpl. pose proof (cankaddr_range memsize 0 ltac:(lia) Hm).
  assert (0 <= arch_cankaddr memsize 0 / BY2PG) by (apply Z.div_pos; unfold BY2PG, is_u32 in *; lia). lia.
Qed.
(** [conf] when the kernel lies in the one bank [0, lim). *)
Lemma confinit_one_bank memsize kend sizeof_Page sizeof_Proc sizeof_KImage vc lim :
  (vc = None /\ lim = memsize \/ vc = Some (0, lim)) ->
  let pa := PADDR (PGROUND kend) in
  0 < pa < lim -> lim <= 2 ^ 30 ->
  let c := (arch__confinit memsize kend sizeof_Page sizeof_Proc sizeof_KImage vc zbank [zbank; zbank; zbank]).1 in
  mem c = [mkConfmem pa lim ((lim - pa) / BY2PG) 0 0; zbank; zbank; zbank] /\
  conf_npage c = (lim - pa) / BY2PG /\ upages c = conf_npage c * 80 / 100 /\ nproc c <= 2000.
Proof.
  intros Hvc pa Hpa Hlim. unfold arch__confinit. fold pa. cbv zeta. cbn [fst mem conf_npage upages nproc].
  assert (conf_bank pa zbank = zbank) as Ez.
  { unfold conf_bank. cbn [base limit npage kbase klimit zbank].
    replace ((pa >? 0) && (pa <? 0)) with false by lia. done. }
  set (b0 := if limit _ =? 0 then _ else _).
  assert (conf_bank pa b0 = mkConfmem pa lim ((lim - pa) / BY2PG) 0 0) as E0.
  { assert (exists x, b0 = mkConfmem 0 lim x 0 0) as [x ->].
    { unfold b0. destruct Hvc as [[-> <-]| ->]; cbn [getramsize limit npage kbase klimit zbank]; [simpl; eauto|].
      assert (lim =? 0 = false) as -> by lia. eauto. }
    unfold conf_bank. cbn [base limit npage kbase klimit].
    replace ((pa >? 0) && (pa <? lim)) with true by lia.
    rewrite u32_small by (unfold_words; lia). done. }
  cbn [fmap list_fmap]. rewrite E0, Ez. cbn [fold_left npage zbank].
  assert (0 <= (lim - pa) / BY2PG < 2 ^ 18) by (unfold BY2PG; zlia).
  rewrite !Z.add_0_l, !Z.add_0_r, !(u32_small ((lim - pa) / BY2PG)) by (unfold_words; lia).
  rewrite !(u32_small ((lim - pa) / BY2PG * 80)) by (unfold_words; lia).
  split; [done|split; [done|split; [done|case_ifs; lia]]].
Qed.

(** ** Properties *)

(** C24: [xinit] splits the banks: it succeeds, hands the kernel's share of
    every bank to the holes and the rest to [palloc.mem], so that every byte of
    a bank is the kernel's or the users' and none is both; the kernel is given
    only memory it can address; no page is lost, and
    when the kernel can address all of the memory it gets its whole share. *)
Theorem xinit_partition memsize c :
  (length (mem c) <= 4)%nat -> Forall bank_ok (mem c) -> ForallOrdPairs apart (mem c) ->
  is_u32 memsize -> 0 <= conf_npage c - upages c < 2 ^ 31 ->
  exists ms' x' rs' n' pm,
    xinit memsize c xlists_bss = Ok (ms', x', pm) /\ rep x' rs' n' /\ ordered 0 rs' (2 ^ 30) /\
    (forall b, Exists (fun m => in_bank m b) (mem c) <-> free_at rs' b \/ user_at pm b) /\
    (forall b, ~ (free_at rs' b /\ user_at pm b)) /\ (forall b, free_at rs' b -> b < memsize) /\
    user_pages pm <= total_pages (mem c) /\
    (Forall (fun m => base m + npage m * BY2PG <= memsize) (mem c) ->
     user_pages pm = total_pages (mem c) - Z.min (conf_npage c - upages c) (total_pages (mem c))).
Proof.
  intros Hlen Hok Hap Hm Hk. unfold xinit. rewrite s32_small by (unfold_words; lia).
  destruct (xinit_banks_spec memsize (mem c) (conf_npage c - upages c) (xinit_links xlists_bss) [] Nhole [])
    as (ms' & x' & rs' & n' & Hx & Hrep & Ho & Hf); try done; try (simpl; unfold Nhole; lia); [exact xinit_links_rep| |].
  { apply Forall_forall. intros m _ b _. apply free_at_nil. }
  assert (forall b, free_at rs' b <-> free_at (kernel_regions memsize (conf_npage c - upages c) (mem c)) b) as Hf'
    by (intros b; rewrite Hf; pose proof (free_at_nil b); tauto).
  destruct (split_pages memsize (mem c) (conf_npage c - upages c)) as [Hs1 Hs2]; [done|lia|done|].
  exists ms', x', rs', n', (user_banks memsize (conf_npage c - upages c) (mem c)).
  split; [done|split; [done|split; [done|split; [|split; [|split; [|split]]]]]].
  - intros b. rewrite Hf'. apply split_covers; [done|lia|done].
  - intros b [Hb1%Hf' Hb2]. by apply (split_disjoint memsize (mem c) (conf_npage c - upages c) b); try done; lia.
  - intros b Hb%Hf'. eapply kernel_regions_addressable; [done| |done|exact Hb]. lia.
  - pose proof (kernel_pages_nonneg memsize (mem c) (conf_npage c - upages c) Hok ltac:(lia) Hm). lia.
  - intros Hall%Hs2. lia.
Qed.

(** At boot, with the firmware reporting one bank that holds the kernel
    (or nothing, and then the default size): the page counts of [conf] are
    exact, the kernel's heap starts at the first page after the image and has
    its fifth of the pages as far as the kernel can address them, and the users
    get every other page. *)
Theorem boot_memory memsize kend sizeof_Page sizeof_Proc sizeof_KImage vc lim :
  2 ^ 31 <= kend < 2 ^ 31 + 2 ^ 30 - 4096 ->
  (vc = None /\ lim = memsize \/ vc = Some (0, lim)) ->
  let pa := PADDR (PGROUND kend) in
  0 < pa < lim -> lim <= 2 ^ 30 -> is_u32 memsize ->
  let c := (arch__confinit memsize kend sizeof_Page sizeof_Proc sizeof_KImage vc zbank [zbank; zbank; zbank]).1 in
  let kp := Z.min (conf_npage c - upages c) (arch_cankaddr memsize pa / BY2PG) in
  pa mod BY2PG = 0 /\ kend <= KZERO + pa < kend + BY2PG /\
  conf_npage c = (lim - pa) / BY2PG /\ upages c = conf_npage c * 80 / 100 /\ nproc c <= 2000 /\
  exists ms' x' rs' n' pm,
    xinit memsize c xlists_bss = Ok (ms', x', pm) /\ rep x' rs' n' /\
    (forall b, free_at rs' b <-> pa <= b < pa + kp * BY2PG) /\
    user_pages pm = conf_npage c - kp /\ (lim <= memsize -> user_pages pm = upages c).
Proof.
  intros Hkend Hvc pa Hpa Hlim Hm. cbv zeta.
  destruct (PGROUND_end kend Hkend) as (Hp1 & Hp2 & _). fold pa in Hp1, Hp2.
  split; [done|split; [done|]].
  pose proof (confinit_one_bank memsize kend sizeof_Page sizeof_Proc sizeof_KImage vc lim Hvc Hpa Hlim) as (Em & En & Eu & Epr).
  fold pa in Em, En. set (c := (arch__confinit _ _ _ _ _ _ _ _).1) in *.
  rewrite Eu, En. set (np := (lim - pa) / BY2PG) in *. rewrite En in Eu.
  assert (0 <= np < 2 ^ 18 /\ np * BY2PG <= lim - pa) as [Hnp Hnp'] by (subst np; unfold BY2PG; zlia).
  set (up := np * 80 / 100) in *. assert (0 <= up <= np) as Hup by (subst up; zlia).
  split; [done|split; [done|split; [done|]]]. set (kp := Z.min _ _).
  unfold xinit. rewrite Em, En, Eu, s32_small by (unfold_words; lia).
  set (m0 := mkConfmem pa lim np 0 0).
  assert (bank_ok m0) as Hok0 by (unfold bank_ok, BY2PG in *; simpl; lia).
  assert (Forall bank_ok [m0; zbank; zbank; zbank]) as Hok.
  { repeat first [apply Forall_nil_2 | apply Forall_cons_2; [unfold bank_ok, BY2PG in *; simpl; lia|]]. }
  assert (kernel_share memsize (np - up) m0 = kp) as Eks by (unfold kernel_share, kp; simpl; lia).
  pose proof (kernel_share_range memsize (np - up) m0 Hok0 ltac:(lia) Hm) as Hkr. rewrite Eks in Hkr.
  destruct (xinit_banks_spec memsize [m0; zbank; zbank; zbank] (np - up) (xinit_links xlists_bss) [] Nhole [])
    as (ms' & x' & rs' & n' & Hx & Hrep & Ho & Hf);
    [exact xinit_links_rep|cbn; lia|exact Hok| | |cbn; unfold Nhole; lia|cbn; lia|lia|exact Hm|].
  { repeat first [apply FOP_nil | apply FOP_cons | apply Forall_nil_2 | apply Forall_cons_2];
      unfold apart, BY2PG in *; simpl; lia. }
  { apply Forall_forall. intros m _ b _. apply free_at_nil. }
  exists ms', x', rs', n', (user_banks memsize (np - up) [m0; zbank; zbank; zbank]).
  split; [done|split; [done|]].
  cbn [kernel_regions user_banks] in *. cbv zeta in *. rewrite Eks, !zbank_share in * by (rewrite ?Z.sub_0_r; lia || done).
  cbn [Z.eqb npage zbank base m0 user_pages foldr] in *. split; [|split].
  - intros b. rewrite Hf. pose proof (free_at_nil b). destruct (kp =? 0) eqn:E; rewrite ?free_at_cons; simpl; [|intuition lia].
    assert (kp = 0) as -> by lia. intuition lia.
  - destruct (np - kp =? 0) eqn:E; simpl; lia.
  - intros Hlm. assert (kp = np - up) as Ekp.
    { unfold kp, arch_cankaddr, BY2PG in *. case_tests; zlia. }
    destruct (np - kp =? 0) eqn:E; simpl; lia.
Qed.

Lemma xinit_partition_witness : exists ms' x' rs' n' pm,
    let c := mkConf [mkConfmem 0x100000 0 0x100 0 0; mkConfmem 0x800000 0 0x100 0 0] 100 1 0 0 0x200 0x180 200 0 in
    xinit (2 ^ 27) c xlists_bss = Ok (ms', x', pm) /\ rep x' rs' n' /\ ordered 0 rs' (2 ^ 30) /\
    (forall b, Exists (fun m => in_bank m b) (mem c) <-> free_at rs' b \/ user_at pm b) /\
    (forall b, ~ (free_at rs' b /\ user_at pm b)) /\ (forall b, free_at rs' b -> b < 2 ^ 27) /\
    user_pages pm <= total_pages (mem c) /\
    (Forall (fun m => base m + npage m * BY2PG <= 2 ^ 27) (mem c) ->
     user_pages pm = total_pages (mem c) - Z.min (conf_npage c - upages c) (total_pages (mem c))).
Proof.
  apply (xinit_partition (2 ^ 27)
    (mkConf [mkConfmem 0x100000 0 0x100 0 0; mkConfmem 0x800000 0 0x100 0 0] 100 1 0 0 0x200 0x180 200 0)).
  - simpl. lia.
  - repeat first [apply Forall_nil_2 | apply Forall_cons_2]; unfold bank_ok, BY2PG; simpl; lia.
  - repeat first [apply FOP_nil | apply FOP_cons | apply Forall_nil_2 | apply Forall_cons_2];
      unfold apart, BY2PG; simpl; lia.
  - unfold_words. lia.
  - simpl. lia.
Defined.
Lemma boot_memory_witness :
  let pa := PADDR (PGROUND 0x80123456) in
  let c := (arch__confinit (2 ^ 27) 0x80123456 64 1024 128 (Some (0, 2 ^ 27)) zbank [zbank; zbank; zbank]).1 in
  let kp := Z.min (conf_npage c - upages c) (arch_cankaddr (2 ^ 27) pa / BY2PG) in
  pa mod BY2PG = 0 /\ 0x80123456 <= KZERO + pa < 0x80123456 + BY2PG /\
  conf_npage c = (2 ^ 27 - pa) / BY2PG /\ upages c = conf_npage c * 80 / 100 /\ nproc c <= 2000 /\
  exists ms' x' rs' n' pm,
    xinit (2 ^ 27) c xlists_bss = Ok (ms', x', pm) /\ rep x' rs' n' /\
    (forall b, free_at rs' b <-> pa <= b < pa + kp * BY2PG) /\
    user_pages pm = conf_npage c - kp /\ (2 ^ 27 <= 2 ^ 27 -> user_pages pm = upages c).
Proof.
  apply (boot_memory (2 ^ 27) 0x80123456 64 1024 128 (Some (0, 2 ^ 27)) (2 ^ 27)); try lia.
  - by right.
  - vm_compute. done.
  - unfold_words. lia.
Defined.
