(* ===== verification/Rune.v ===== *)
(** * UTF-8: kernel/Libc/port/rune.c

    [chartorune] decodes one rune from a string and [runetochar] encodes
    one.  A string is the list of its bytes; a read past the end of the list
    is a [Fault].  A [Rune] is a 32-bit word. *)
From S2P Require Import Prelude.

(** ** The constants of the source *)

Definition UTFmax : nat := 4.
Definition Runeself : Z := 0x80.
Definition Runesync : Z := 0x80.
Definition Runeerror : Z := 0xFFFD.
Definition Runemax : Z := 0x10FFFF.

Definition Bit (i : Z) : Z := 7 - i.
Definition Bitx : Z := Bit 1.
Definition T (i : Z) : Z := Z.lxor (Z.shiftl 1 (Bit i + 1) - 1) 0xFF.
Definition RuneX (i : Z) : Z := Z.shiftl 1 (Bit i + (i - 1) * Bitx) - 1.
Definition Tx : Z := T 1.
Definition Rune1 : Z := Z.shiftl 1 (Bit 0 + 0 * Bitx) - 1.
Definition Maskx : Z := Z.shiftl 1 Bitx - 1.
Definition Testx : Z := Z.lxor Maskx 0xFF.
Definition SurrogateMin : Z := 0xD800.
Definition SurrogateMax : Z := 0xDFFF.
Definition Bad : Z := Runeerror.

(** ** Operations *)

(** The decoded rune and the number of bytes it took. *)
Definition bad : result (Z * nat) := Ok (Bad, 1%nat).
(** The loop [for(i = 1; i < UTFmax; i++)], [n] turns before its end. *)
Fixpoint chartorune_loop (n : nat) (i : nat) (c0 l : Z) (str : list Z) : result (Z * nat) :=
  match n with
  | O => bad
  | S n =>
      let* ci := of_ptr (str !! i) in
      let ci := Z.lxor ci Tx in
      if negb (Z.land ci Testx =? 0) then bad
      else
        let l := Z.lor (l ⋘ Bitx) ci in
        if c0 <? T (Z.of_nat i + 2) then
          let l := Z.land l (RuneX (Z.of_nat i + 1)) in
          if (if (i =? 1)%nat then (c0 <? T 2) || (l <=? Rune1)
              else (l <=? RuneX (Z.of_nat i)) || (l >? Runemax)) then bad
          else if (i =? 2)%nat && (SurrogateMin <=? l) && (l <=? SurrogateMax) then bad
          else Ok (l, S i)
        else chartorune_loop n (S i) c0 l str
  end.
Definition chartorune (str : list Z) : result (Z * nat) :=
  let* c0 := of_ptr (str !! 0%nat) in
  if c0 <? Tx then Ok (c0, 1%nat) else chartorune_loop (UTFmax - 1) 1 c0 c0 str.

(** The bytes stored at [str]. *)
Fixpoint runetochar_loop (n : nat) (i : nat) (c : Z) : list Z :=
  match n with
  | O => []
  | S n =>
      let c :=
        if (i =? 3)%nat then
          let c := if c >? Runemax then Runeerror else c in
          if (SurrogateMin <=? c) && (c <=? SurrogateMax) then Runeerror else c
        else c in
      let zi := Z.of_nat i in
      if (c <=? RuneX zi) || (i =? UTFmax)%nat then
        u8 (Z.lor (T zi) (c ⋙ ((zi - 1) * Bitx))) ::
        map (fun j => u8 (Z.lor Tx (Z.land (c ⋙ ((zi - Z.of_nat j - 1) * Bitx)) Maskx))) (seq 1 (i - 1))
      else runetochar_loop n (S i) c
  end.
Definition runetochar (c : Z) : list Z :=
  if c <=? Rune1 then [u8 c] else runetochar_loop (UTFmax - 1) 2 c.

(** [c] is a [long]; the rune is its word. *)
Definition runelen (c : Z) : nat := length (runetochar (u32 c)).

Fixpoint runenlen_one (n : nat) (i : nat) (c : Z) : nat :=
  match n with
  | O => 0
  | S n => if (c <=? RuneX (Z.of_nat i)) || (i =? UTFmax)%nat then i else runenlen_one n (S i) c
  end.
Fixpoint runenlen (r : list Z) : nat :=
  match r with
  | [] => 0
  | c :: r => (if c <=? Rune1 then 1 else runenlen_one (UTFmax - 1) 2 c) + runenlen r
  end.

Fixpoint fullrune_loop (k : nat) (i : nat) (c n : Z) : bool :=
  match k with
  | O => n >=? Z.of_nat UTFmax
  | S k => if c <? T (Z.of_nat i) then n >=? Z.of_nat i - 1 else fullrune_loop k (S i) c n
  end.
Definition fullrune (str : list Z) (n : Z) : result bool :=
  if n <=? 0 then Ok false
  else
    let* c := of_ptr (str !! 0%nat) in
    if c <? Tx then Ok true else Ok (fullrune_loop (UTFmax - 2) 3 c n).

(** ** Specification: the UTF-8 table *)

Definition is_byte (b : Z) : Prop := 0 <= b < 256.
(** The Unicode scalar values. *)
Definition scalar (c : Z) : Prop := 0 <= c <= Runemax /\ ~ (SurrogateMin <= c <= SurrogateMax).
Definition cont (x : Z) : Z := 0x80 + x mod 64.
Definition utf8 (c : Z) : list Z :=
  if c <? 0x80 then [c]
  else if c <? 0x800 then [0xC0 + c / 64; cont c]
  else if c <? 0x10000 then [0xE0 + c / 4096; cont (c / 64); cont c]
  else [0xF0 + c / 262144; cont (c / 4096); cont (c / 64); cont c].

(** ** The bit operations as arithmetic *)

Lemma byte_continuation b :
  is_byte b -> (Z.land (Z.lxor b Tx) Testx =? 0) = (0x80 <=? b) && (b <? 0xC0) /\
  (0x80 <= b < 0xC0 -> Z.lxor b Tx = b - 0x80).
Proof.
  intros Hb. assert (forallb (fun n => let b := Z.of_nat n in
    Bool.eqb (Z.land (Z.lxor b Tx) Testx =? 0) ((0x80 <=? b) && (b <? 0xC0)) &&
    (negb ((0x80 <=? b) && (b <? 0xC0)) || (Z.lxor b Tx =? b - 0x80))) (seq 0 256) = true) as H by done.
  rewrite forallb_forall in H. specialize (H (Z.to_nat b)).
  rewrite Z2Nat.id in H by (unfold is_byte in Hb; lia). unfold is_byte in Hb.
  apply andb_prop in H as [H1%Bool.eqb_prop H2]; [|apply in_seq; lia].
  split; [done|]. intros H3. apply orb_prop in H2 as [H2|H2]; lia.
Qed.
Lemma push_bits l b : 0 <= l < 2 ^ 20 -> 0 <= b < 64 -> Z.lor (l ⋘ Bitx) b = l * 64 + b.
Proof.
  intros Hl Hb. rewrite shiftl_mul by done. change (2 ^ Bitx) with (2 ^ 6).
  rewrite u32_small by (unfold_words; lia). by apply lor_add; lia.
Qed.
Lemma mask_RuneX l i : 1 <= i -> Z.land l (RuneX i) = l mod 2 ^ (5 * i + 1).
Proof.
  intros Hi. unfold RuneX, Bitx, Bit. rewrite shiftl_mul by lia.
  rewrite Z.mul_1_l, land_mask by lia. f_equal. f_equal. lia.
Qed.
Lemma cont_code x : u8 (Z.lor Tx (Z.land x Maskx)) = cont x.
Proof.
  change Maskx with (2 ^ 6 - 1). rewrite land_mask by lia.
  change Tx with (2 * 2 ^ 6). rewrite lor_add by (try zlia). unfold cont, u8. zlia.
Qed.
Lemma lead_code i x n hi :
  T i = hi * 2 ^ n -> 0 <= n -> 0 <= x < 2 ^ n -> T i + x < 256 -> 0 <= T i -> u8 (Z.lor (T i) x) = T i + x.
Proof. intros H ? ? ? ?. rewrite H in *. rewrite lor_add by done. unfold u8. rewrite Z.mod_small; lia. Qed.

(** ** Encoding *)

Lemma shift_cont c k : 0 <= k -> u8 (Z.lor Tx (Z.land (c ⋙ k) Maskx)) = cont (c / 2 ^ k).
Proof. intros. by rewrite cont_code, shiftr_div. Qed.
Lemma runetochar_long c :
  0x7F < c ->
  runetochar c = utf8 (if (Runemax <? c) || ((SurrogateMin <=? c) && (c <=? SurrogateMax)) then Runeerror else c).
Proof.
  intros Hc. unfold runetochar. change Rune1 with 0x7F. assert (c <=? 0x7F = false) as -> by lia.
  change (UTFmax - 1)%nat with 3%nat. cbn [runetochar_loop Nat.eqb UTFmax].
  change (RuneX (Z.of_nat 2)) with 0x7FF. change (RuneX (Z.of_nat 3)) with 0xFFFF.
  change (RuneX (Z.of_nat 4)) with 0x1FFFFF. unfold Runemax, SurrogateMin, SurrogateMax, Runeerror, utf8.
  destruct (Z.leb_spec c 0x7FF) as [H|H]; cbn [orb seq map Nat.sub].
  - replace (0x10FFFF <? c) with false by lia. replace (0xD800 <=? c) with false by lia. cbn [orb andb].
    assert (c <? 128 = false) as -> by lia. assert (c <? 2048 = true) as -> by lia.
    rewrite shift_cont, shiftr_div by done. change (2 ^ ((Z.of_nat 2 - 1) * Bitx)) with 64.
    change (2 ^ ((Z.of_nat 2 - Z.of_nat 1 - 1) * Bitx)) with 1. rewrite Z.div_1_r.
    rewrite (lead_code (Z.of_nat 2) (c / 64) 5 6); [done|done|done|zlia|change (T (Z.of_nat 2)) with 192; zlia|done].
  - set (d := if _ >? _ then _ else c).
    assert ((if (0xD800 <=? d) && (d <=? 0xDFFF) then 0xFFFD else d) =
            (if (0x10FFFF <? c) || ((0xD800 <=? c) && (c <=? 0xDFFF)) then 0xFFFD else c)) as ->.
    { subst d. destruct (c >? 0x10FFFF) eqn:?; case_tests; lia. }
    set (e := if _ || _ then _ else c).
    assert (0x7FF < e <= 0x10FFFF) as He by (subst e; case_tests; lia). clearbody e. clear d.
    assert (e <? 128 = false) as -> by lia. assert (e <? 2048 = false) as -> by lia.
    destruct (Z.leb_spec e 0xFFFF) as [H'|H']; cbn [orb seq map Nat.sub].
    + assert (e <? 0x10000 = true) as -> by lia. rewrite !shift_cont, shiftr_div by done.
      change (2 ^ ((Z.of_nat 3 - 1) * Bitx)) with 4096.
      change (2 ^ ((Z.of_nat 3 - Z.of_nat 1 - 1) * Bitx)) with 64.
      change (2 ^ ((Z.of_nat 3 - Z.of_nat 2 - 1) * Bitx)) with 1. rewrite Z.div_1_r.
      rewrite (lead_code (Z.of_nat 3) (e / 4096) 4 14); [done|done|done|zlia|change (T (Z.of_nat 3)) with 224; zlia|done].
    + assert (e <? 0x10000 = false) as -> by lia. rewrite orb_true_r.
      cbn [orb seq map Nat.sub]. rewrite !shift_cont, shiftr_div by done.
      change (2 ^ ((Z.of_nat 4 - 1) * Bitx)) with 262144.
      change (2 ^ ((Z.of_nat 4 - Z.of_nat 1 - 1) * Bitx)) with 4096.
      change (2 ^ ((Z.of_nat 4 - Z.of_nat 2 - 1) * Bitx)) with 64.
      change (2 ^ ((Z.of_nat 4 - Z.of_nat 3 - 1) * Bitx)) with 1. rewrite Z.div_1_r.
      rewrite (lead_code (Z.of_nat 4) (e / 262144) 3 30); [done|done|done|zlia|change (T (Z.of_nat 4)) with 240; zlia|done].
Qed.
Lemma runetochar_short c : 0 <= c <= 0x7F -> runetochar c = [c].
Proof.
  intros Hc. unfold runetochar. change Rune1 with 0x7F. assert (c <=? 0x7F = true) as -> by lia.
  f_equal. unfold u8. rewrite Z.mod_small; lia.
Qed.
Lemma runetochar_scalar c : scalar c -> runetochar c = utf8 c.
Proof.
  intros [Hc1 Hc2]. destruct (Z.le_gt_cases c 0x7F).
  - rewrite runetochar_short by lia. unfold utf8. by assert (c <? 128 = true) as -> by lia.
  - rewrite runetochar_long by done. replace (Runemax <? c) with false by lia.
    assert ((SurrogateMin <=? c) && (c <=? SurrogateMax) = false) as -> by (apply andb_false_iff; lia). done.
Qed.

(** ** Decoding *)

(** The code units as arithmetic: the lead byte's payload and the continuations. *)
Definition payload (b : Z) : option Z := if (0x80 <=? b) && (b <? 0xC0) then Some (b - 0x80) else None.
(** What [chartorune] computes, with the loop unrolled. *)
Definition decode (str : list Z) : result (Z * nat) :=
  let* c0 := of_ptr (str !! 0%nat) in
  if c0 <? 0x80 then Ok (c0, 1%nat)
  else
    let* b1 := of_ptr (str !! 1%nat) in
    match payload b1 with
    | None => bad
    | Some x1 =>
        let l := c0 * 64 + x1 in
        if c0 <? 0xE0 then
          let l := l mod 0x800 in if (c0 <? 0xC0) || (l <=? 0x7F) then bad else Ok (l, 2%nat)
        else
          let* b2 := of_ptr (str !! 2%nat) in
          match payload b2 with
          | None => bad
          | Some x2 =>
              let l := l * 64 + x2 in
              if c0 <? 0xF0 then
                let l := l mod 0x10000 in
                if (l <=? 0x7FF) || (l >? Runemax) then bad
                else if (SurrogateMin <=? l) && (l <=? SurrogateMax) then bad else Ok (l, 3%nat)
              else
                let* b3 := of_ptr (str !! 3%nat) in
                match payload b3 with
                | None => bad
                | Some x3 =>
                    let l := (l * 64 + x3) in
                    if c0 <? 0xF8 then
                      let l := l mod 0x200000 in
                      if (l <=? 0xFFFF) || (l >? Runemax) then bad else Ok (l, 4%nat)
                    else bad
                end
          end
    end.

Lemma payload_code b :
  is_byte b ->
  match payload b with
  | Some x => Z.lxor b Tx = x /\ (Z.land (Z.lxor b Tx) Testx =? 0) = true
  | None => (Z.land (Z.lxor b Tx) Testx =? 0) = false
  end.
Proof.
  intros Hb. destruct (byte_continuation b Hb) as [H1 H2]. unfold payload. rewrite H1.
  destruct ((0x80 <=? b) && (b <? 0xC0)) eqn:E; [|done]. split; [apply H2; lia|done].
Qed.
Lemma payload_range b x : payload b = Some x -> 0 <= x < 64 /\ b = 0x80 + x /\ 0x80 <= b < 0xC0.
Proof. unfold payload. destruct ((0x80 <=? b) && (b <? 0xC0)) eqn:E; [|done]. intros [= <-]. lia. Qed.

Lemma lookup_byte str i b : Forall is_byte str -> str !! i = Some b -> is_byte b.
Proof. intros H Hi. by apply (Forall_lookup_1 _ _ _ _ H Hi). Qed.
Lemma chartorune_decode str : Forall is_byte str -> chartorune str = decode str.
Proof.
  intros Hs. unfold chartorune, decode. destruct (str !! 0%nat) as [c0|] eqn:E0; [|done]. cbn [of_ptr rbind].
  change Tx with 0x80 at 1. destruct (c0 <? 0x80) eqn:H0; [done|].
  pose proof (lookup_byte _ _ _ Hs E0) as Hc0. unfold is_byte in Hc0.
  change (UTFmax - 1)%nat with 3%nat. cbn [chartorune_loop Nat.eqb].
  destruct (str !! 1%nat) as [b1|] eqn:E1; [|done]. cbn [of_ptr rbind]. cbv zeta.
  pose proof (payload_code b1 ltac:(by eapply lookup_byte)) as C1.
  destruct (payload b1) as [x1|] eqn:P1; [destruct C1 as [L1 ->]; rewrite L1; cbn [negb]|by rewrite C1].
  apply payload_range in P1 as (P1 & _ & _). rewrite (push_bits c0 x1) by lia.
  change (T (Z.of_nat 1 + 2)) with 0xE0. change (T 2) with 0xC0. change Rune1 with 0x7F.
  rewrite (mask_RuneX _ (Z.of_nat 1 + 1)) by lia. change (2 ^ (5 * (Z.of_nat 1 + 1) + 1)) with 0x800.
  cbn [andb]. destruct (c0 <? 0xE0) eqn:H1; [done|].
  destruct (str !! 2%nat) as [b2|] eqn:E2; [|done]. cbn [of_ptr rbind].
  pose proof (payload_code b2 ltac:(by eapply lookup_byte)) as C2.
  destruct (payload b2) as [x2|] eqn:P2; [destruct C2 as [L2 ->]; rewrite L2; cbn [negb]|by rewrite C2].
  apply payload_range in P2 as (P2 & _ & _). rewrite (push_bits _ x2) by lia.
  change (T (Z.of_nat 2 + 2)) with 0xF0. change (RuneX (Z.of_nat 2)) with 0x7FF.
  rewrite (mask_RuneX _ (Z.of_nat 2 + 1)) by lia. change (2 ^ (5 * (Z.of_nat 2 + 1) + 1)) with 0x10000.
  destruct (c0 <? 0xF0) eqn:H2; [done|].
  destruct (str !! 3%nat) as [b3|] eqn:E3; [|done]. cbn [of_ptr rbind].
  pose proof (payload_code b3 ltac:(by eapply lookup_byte)) as C3.
  destruct (payload b3) as [x3|] eqn:P3; [destruct C3 as [L3 ->]; rewrite L3; cbn [negb]|by rewrite C3].
  apply payload_range in P3 as (P3 & _ & _). rewrite (push_bits _ x3) by lia.
  change (T (Z.of_nat 3 + 2)) with 0xF8. change (RuneX (Z.of_nat 3)) with 0xFFFF.
  rewrite (mask_RuneX _ (Z.of_nat 3 + 1)) by lia. change (2 ^ (5 * (Z.of_nat 3 + 1) + 1)) with 0x200000.
  done.
Qed.

Lemma payload_cont x : payload (cont x) = Some (x mod 64).
Proof.
  unfold payload, cont. assert ((0x80 <=? 0x80 + x mod 64) && (0x80 + x mod 64 <? 0xC0) = true) as -> by zlia.
  f_equal. lia.
Qed.
Lemma cont_byte x : is_byte (cont x).
Proof. unfold is_byte, cont. zlia. Qed.
Lemma utf8_bytes c : scalar c -> Forall is_byte (utf8 c).
Proof.
  intros [Hc _]. unfold utf8, Runemax in *.
  case_ifs; repeat first [apply Forall_nil_2 | apply Forall_cons_2]; try apply cont_byte; unfold is_byte; zlia.
Qed.
Lemma decode_utf8 c rest : scalar c -> decode (utf8 c ++ rest) = Ok (c, length (utf8 c)).
Proof.
  intros [Hc Hs]. unfold utf8, decode, Runemax in *.
  destruct (c <? 0x80) eqn:E1; [cbn; by rewrite E1|].
  destruct (c <? 0x800) eqn:E2; [|destruct (c <? 0x10000) eqn:E3];
    cbn [app lookup list_lookup of_ptr rbind length]; rewrite !payload_cont; cbv zeta.
  - assert (0xC0 + c / 64 <? 0x80 = false) as -> by zlia. assert (0xC0 + c / 64 <? 0xE0 = true) as -> by zlia.
    replace (((0xC0 + c / 64) * 64 + c mod 64) mod 0x800) with c by zlia.
    replace ((0xC0 + c / 64 <? 0xC0) || (c <=? 0x7F)) with false by zlia. done.
  - assert (0xE0 + c / 4096 <? 0x80 = false) as -> by zlia. assert (0xE0 + c / 4096 <? 0xE0 = false) as -> by zlia.
    assert (0xE0 + c / 4096 <? 0xF0 = true) as -> by zlia.
    replace ((((0xE0 + c / 4096) * 64 + (c / 64) mod 64) * 64 + c mod 64) mod 0x10000) with c by zlia.
    replace ((c <=? 0x7FF) || (c >? 0x10FFFF)) with false by lia.
    assert ((SurrogateMin <=? c) && (c <=? SurrogateMax) = false) as -> by (apply andb_false_iff; lia). done.
  - assert (0xF0 + c / 262144 <? 0x80 = false) as -> by zlia. assert (0xF0 + c / 262144 <? 0xE0 = false) as -> by zlia.
    assert (0xF0 + c / 262144 <? 0xF0 = false) as -> by zlia. assert (0xF0 + c / 262144 <? 0xF8 = true) as -> by zlia.
    replace (((((0xF0 + c / 262144) * 64 + (c / 4096) mod 64) * 64 + (c / 64) mod 64) * 64 + c mod 64) mod 0x200000)
      with c by zlia.
    replace ((c <=? 0xFFFF) || (c >? 0x10FFFF)) with false by lia. done.
Qed.

(** The reverse: what is decoded is the rune of the bytes taken. *)
Definition decoded (str : list Z) (r : Z) (n : nat) : Prop :=
  scalar r /\ take n str = utf8 r /\ n = length (utf8 r).
Definition refused (str : list Z) (r : Z) (n : nat) : Prop :=
  r = Bad /\ n = 1%nat /\ exists b, str !! 0%nat = Some b /\ 0x80 <= b.

Lemma decode_sound str r n :
  Forall is_byte str -> decode str = Ok (r, n) -> decoded str r n \/ refused str r n.
Proof.
  intros Hs. unfold decode. destruct str as [|c0 str]; [done|]. cbn [lookup list_lookup of_ptr rbind].
  apply Forall_cons in Hs as [Hc0 _]. unfold is_byte in Hc0. destruct (c0 <? 0x80) eqn:E0.
  { intros [= <- <-]. left. split; [unfold scalar, Runemax, SurrogateMin; lia|]. unfold utf8. by rewrite E0. }
  assert (forall r n, bad = Ok (r, n) -> refused (c0 :: str) r n) as Hbad.
  { intros r' n' [= <- <-]. split; [done|split; [done|]]. exists c0. split; [done|lia]. }
  destruct str as [|b1 str]; [done|]. cbn [lookup list_lookup of_ptr rbind].
  destruct (payload b1) as [x1|] eqn:P1; [|by right; apply Hbad]. apply payload_range in P1 as (P1 & -> & _).
  cbv zeta. destruct (c0 <? 0xE0) eqn:E1.
  { destruct (_ || _) eqn:Eb; [by right; apply Hbad|]. intros [= <- <-]. left.
    apply orb_false_elim in Eb as [Eb1 Eb2]. set (l := _ mod 0x800) in *.
    assert (l = (c0 - 0xC0) * 64 + x1) as El by (subst l; zlia). clearbody l.
    unfold decoded, scalar, utf8, Runemax, SurrogateMin, cont. cbn [take].
    assert (l <? 128 = false) as -> by lia. assert (l <? 2048 = true) as -> by lia.
    split; [lia|split; [|done]]. f_equal; [zlia|f_equal; zlia]. }
  destruct str as [|b2 str]; [done|]. cbn [lookup list_lookup of_ptr rbind].
  destruct (payload b2) as [x2|] eqn:P2; [|by right; apply Hbad]. apply payload_range in P2 as (P2 & -> & _).
  destruct (c0 <? 0xF0) eqn:E2.
  { destruct (_ || _) eqn:Eb; [by right; apply Hbad|]. destruct (_ && _) eqn:Es; [by right; apply Hbad|].
    intros [= <- <-]. left. apply orb_false_elim in Eb as [Eb1 Eb2]. apply andb_false_iff in Es.
    set (l := _ mod 0x10000) in *.
    assert (l = (c0 - 0xE0) * 4096 + x1 * 64 + x2) as El by (subst l; zlia). clearbody l.
    unfold decoded, scalar, utf8, Runemax, SurrogateMin, SurrogateMax, cont in *. cbn [take].
    assert (l <? 128 = false) as -> by lia. assert (l <? 2048 = false) as -> by lia.
    assert (l <? 0x10000 = true) as -> by lia.
    split; [lia|split; [|done]]. f_equal; [zlia|f_equal; [zlia|f_equal; zlia]]. }
  destruct str as [|b3 str]; [done|]. cbn [lookup list_lookup of_ptr rbind].
  destruct (payload b3) as [x3|] eqn:P3; [|by right; apply Hbad]. apply payload_range in P3 as (P3 & -> & _).
  destruct (c0 <? 0xF8) eqn:E3; [|by right; apply Hbad].
  destruct (_ || _) eqn:Eb; [by right; apply Hbad|]. intros [= <- <-]. left.
  apply orb_false_elim in Eb as [Eb1 Eb2]. set (l := _ mod 0x200000) in *.
  assert (l = (c0 - 0xF0) * 262144 + x1 * 4096 + x2 * 64 + x3) as El by (subst l; zlia). clearbody l.
  unfold decoded, scalar, utf8, Runemax, SurrogateMin, SurrogateMax, cont in *. cbn [take].
  assert (l <? 128 = false) as -> by lia. assert (l <? 2048 = false) as -> by lia.
  assert (l <? 0x10000 = false) as -> by lia.
  split; [lia|split; [|done]]. f_equal; [zlia|f_equal; [zlia|f_equal; [zlia|f_equal; zlia]]].
Qed.

(** ** How far a decoding reads *)

(** The bytes the lead byte [c] asks for. *)
Definition need (c : Z) : nat :=
  if c <? 0x80 then 1 else if c <? 0xE0 then 2 else if c <? 0xF0 then 3 else 4.
Lemma lookup_take_eq {A} (s s' : list A) k i : take k s = take k s' -> (i < k)%nat -> s !! i = s' !! i.
Proof. intros H Hi. by rewrite <-(lookup_take_lt s k i Hi), H, lookup_take_lt. Qed.
Lemma decode_local c s s' : s !! 0%nat = Some c -> take (need c) s = take (need c) s' -> decode s = decode s'.
Proof.
  intros Hc H. assert (s' !! 0%nat = Some c) as Hc' by (rewrite <-Hc; symmetry; apply (lookup_take_eq _ _ (need c)); [done|unfold need; case_ifs; lia]).
  unfold decode. rewrite Hc, Hc'. cbn [of_ptr rbind]. unfold need in H.
  destruct (c <? 0x80); [done|].
  assert (s !! 1%nat = s' !! 1%nat) as E1 by (eapply lookup_take_eq; [exact H|case_ifs; lia]).
  rewrite E1. destruct (s' !! 1%nat) as [b1|]; [|done]. cbn [of_ptr rbind]. destruct (payload b1); [|done].
  cbv zeta. destruct (c <? 0xE0); [done|].
  assert (s !! 2%nat = s' !! 2%nat) as E2 by (eapply lookup_take_eq; [exact H|case_ifs; lia]).
  rewrite E2. destruct (s' !! 2%nat) as [b2|]; [|done]. cbn [of_ptr rbind]. destruct (payload b2); [|done].
  destruct (c <? 0xF0); [done|].
  assert (s !! 3%nat = s' !! 3%nat) as E3 by (eapply lookup_take_eq; [exact H|lia]). by rewrite E3.
Qed.
Lemma fullrune_need s n c :
  s !! 0%nat = Some c -> 0 < n -> fullrune s n = Ok (Z.of_nat (need c) <=? n).
Proof.
  intros Hc Hn. unfold fullrune. assert (n <=? 0 = false) as -> by lia. rewrite Hc. cbn [of_ptr rbind].
  change Tx with 0x80. change (UTFmax - 2)%nat with 2%nat. cbn [fullrune_loop].
  change (T (Z.of_nat 3)) with 0xE0. change (T (Z.of_nat 4)) with 0xF0. unfold need.
  change (Z.of_nat 3 - 1) with 2. change (Z.of_nat 4 - 1) with 3. change (Z.of_nat UTFmax) with 4.
  rewrite !Z.geb_leb.
  destruct (c <? 0x80); [by assert (Z.of_nat 1 <=? n = true) as -> by (apply Z.leb_le; lia)|].
  destruct (c <? 0xE0); [done|]. by destruct (c <? 0xF0).
Qed.
Lemma need_utf8 c rest : scalar c -> exists b, (utf8 c ++ rest) !! 0%nat = Some b /\ need b = length (utf8 c).
Proof.
  intros [Hc _]. unfold utf8, Runemax in *. case_ifs; eexists; (split; [reflexivity|]); unfold need; case_ifs; try done; zlia.
Qed.
Lemma decode_terminated s rest :
  s <> [] -> exists r n, decode (s ++ 0 :: rest) = Ok (r, n) /\ (1 <= n <= length s)%nat.
Proof.
  intros Hs. destruct s as [|c0 s]; [done|]. unfold decode. cbn [app lookup list_lookup of_ptr rbind length].
  assert (forall k, exists r n, bad = Ok (r, n) /\ (1 <= n <= S k)%nat) as Hbad.
  { intros k. exists Bad, 1%nat. split; [done|lia]. }
  destruct (c0 <? 0x80); [exists c0, 1%nat; split; [done|lia]|].
  destruct s as [|b1 s]; cbn [app lookup list_lookup of_ptr rbind length]; [apply Hbad|].
  destruct (payload b1); [|apply Hbad]. cbv zeta.
  destruct (c0 <? 0xE0); [case_if; [apply Hbad|]; eexists _, _; split; [done|lia]|].
  destruct s as [|b2 s]; cbn [app lookup list_lookup of_ptr rbind length]; [apply Hbad|].
  destruct (payload b2); [|apply Hbad].
  destruct (c0 <? 0xF0); [case_if; [apply Hbad|]; case_if; [apply Hbad|]; eexists _, _; split; [done|lia]|].
  destruct s as [|b3 s]; cbn [app lookup list_lookup of_ptr rbind length]; [apply Hbad|].
  destruct (payload b3); [|apply Hbad].
  destruct (c0 <? 0xF8); [|apply Hbad]. case_if; [apply Hbad|]. eexists _, _; split; [done|lia].
Qed.

(** What follows a NUL does not matter. *)
Lemma decode_nul s rest : decode (s ++ 0 :: rest) = decode (s ++ [0]).
Proof.
  unfold decode. destruct s as [|c0 s]; [done|]. cbn [app lookup list_lookup of_ptr rbind].
  destruct (c0 <? 0x80); [done|].
  destruct s as [|b1 s]; cbn [app lookup list_lookup of_ptr rbind]; [done|].
  destruct (payload b1); [|done]. cbv zeta. destruct (c0 <? 0xE0); [done|].
  destruct s as [|b2 s]; cbn [app lookup list_lookup of_ptr rbind]; [done|].
  destruct (payload b2); [|done]. destruct (c0 <? 0xF0); [done|].
  destruct s as [|b3 s]; cbn [app lookup list_lookup of_ptr rbind]; done.
Qed.

(** ** The runes of a string *)

(** The runes that repeated calls of [chartorune] find, with their bytes. *)
Fixpoint runes_fuel (fuel : nat) (s : list Z) : list (Z * list Z) :=
  match fuel with
  | O => []
  | S fuel =>
      match s with
      | [] => []
      | _ =>
          match chartorune (s ++ [0]) with
          | Ok (r, n) => (r, take n s) :: runes_fuel fuel (drop n s)
          | _ => []
          end
      end
  end.
Definition runes (s : list Z) : list (Z * list Z) := runes_fuel (length s) s.
Definition in_string (b : Z) : Prop := 0 < b < 256.

Lemma in_string_bytes s : Forall in_string s -> Forall is_byte s.
Proof. intros H. eapply Forall_impl; [exact H|]. unfold in_string, is_byte. lia. Qed.
Lemma chartorune_string s :
  Forall in_string s -> s <> [] ->
  exists r n, chartorune (s ++ [0]) = Ok (r, n) /\ (1 <= n <= length s)%nat /\ r <> 0.
Proof.
  intros Hs Hne. assert (Forall is_byte (s ++ [0])) as Hb.
  { apply Forall_app. split; [by apply in_string_bytes|]. repeat constructor; unfold is_byte; lia. }
  destruct (decode_terminated s [] Hne) as (r & n & Hd & Hn). exists r, n.
  rewrite (chartorune_decode _ Hb). split; [done|split; [done|]]. intros ->.
  destruct (decode_sound _ _ _ Hb Hd) as [(_ & Ht & Hl)|(Hbad & _)]; [|done].
  change (utf8 0) with [0] in *. destruct s as [|b s]; [done|]. apply Forall_cons in Hs as [Hb0 _].
  destruct n as [|n]; [done|]. cbn in Ht. injection Ht as -> _. unfold in_string in Hb0. lia.
Qed.
Lemma runes_fuel_eq fuel1 fuel2 s :
  Forall in_string s -> (length s <= fuel1)%nat -> (length s <= fuel2)%nat -> runes_fuel fuel1 s = runes_fuel fuel2 s.
Proof.
  revert fuel2 s. induction fuel1 as [|fuel1 IH]; intros fuel2 s Hs H1 H2; [destruct s; [by destruct fuel2|simpl in H1; lia]|].
  destruct s as [|b s]; [by destruct fuel2|]. destruct fuel2 as [|fuel2]; [simpl in H2; lia|]. cbn [runes_fuel].
  destruct (chartorune_string (b :: s) Hs) as (r & n & -> & Hn & _); [done|]. f_equal.
  apply IH; [by apply Forall_drop|rewrite length_drop; simpl in *; lia..].
Qed.
Lemma runes_step s r n :
  Forall in_string s -> s <> [] -> chartorune (s ++ [0]) = Ok (r, n) -> runes s = (r, take n s) :: runes (drop n s).
Proof.
  intros Hs Hne Hc. destruct (chartorune_string s Hs Hne) as (r' & n' & Hc' & Hn & _).
  assert (n' = n) as -> by congruence. unfold runes at 1.
  destruct s as [|b s]; [done|]. cbn [length runes_fuel]. rewrite Hc. f_equal.
  apply runes_fuel_eq; [by apply Forall_drop|rewrite length_drop; simpl in *; lia|done].
Qed.
(** An ASCII byte is a rune of its own. *)
Lemma chartorune_ascii b s : b < 0x80 -> chartorune (b :: s) = Ok (b, 1%nat).
Proof. intros Hb. unfold chartorune. simpl. change Tx with 0x80. by assert (b <? 0x80 = true) as -> by lia. Qed.
Lemma runes_ind (P : list Z -> Prop) :
  P [] ->
  (forall s r n, Forall in_string s -> s <> [] -> chartorune (s ++ [0]) = Ok (r, n) -> (1 <= n <= length s)%nat ->
     r <> 0 -> P (drop n s) -> P s) ->
  forall s, Forall in_string s -> P s.
Proof.
  intros H0 Hstep. assert (forall k s, (length s <= k)%nat -> Forall in_string s -> P s) as H; [|by eauto].
  induction k as [|k IH]; intros s Hk Hs; [destruct s; [done|simpl in Hk; lia]|].
  destruct s as [|b s]; [done|]. destruct (chartorune_string (b :: s) Hs) as (r & n & Hc & Hn & Hr); [done|].
  apply (Hstep _ r n); try done. apply IH; [rewrite length_drop; simpl in *; lia|by apply Forall_drop].
Qed.
(** A rune that starts with a byte above ASCII has no ASCII byte. *)
Lemma utf8_high r : 0x80 <= r -> Forall (fun b => 0x80 <= b) (utf8 r).
Proof.
  intros Hr. unfold utf8, cont. assert (r <? 0x80 = false) as -> by lia.
  case_ifs; repeat first [apply Forall_nil_2 | apply Forall_cons_2]; zlia.
Qed.
Lemma chartorune_high b s r n :
  Forall is_byte (b :: s) -> 0x80 <= b -> chartorune (b :: s) = Ok (r, n) ->
  0x80 <= r /\ Forall (fun b => 0x80 <= b) (take n (b :: s)).
Proof.
  intros Hs Hb. rewrite (chartorune_decode _ Hs). intros Hd.
  destruct (decode_sound _ _ _ Hs Hd) as [(Hr & Ht & Hn)|(-> & -> & _)].
  - assert (0x80 <= r) as Hr80; [|split; [done|]; rewrite Ht; by apply utf8_high].
    destruct (Z.le_gt_cases 0x80 r); [done|]. unfold utf8 in Ht, Hn. assert (r <? 0x80 = true) as E by lia.
    rewrite E in Ht, Hn. subst n. cbn in Ht. injection Ht as ->. lia.
  - split; [done|]. by repeat constructor.
Qed.
Lemma runes_concat s : Forall in_string s -> concat (runes s).*2 = s.
Proof.
  revert s. apply runes_ind; [done|]. intros s r n Hs Hne Hc Hn _ IH.
  rewrite (runes_step s r n Hs Hne Hc). cbn. by rewrite IH, take_drop.
Qed.
Lemma utf8_in_string c : scalar c -> c <> 0 -> Forall in_string (utf8 c).
Proof.
  intros [Hc _] H0. unfold utf8, Runemax, in_string, cont in *.
  case_ifs; repeat first [apply Forall_nil_2 | apply Forall_cons_2]; zlia.
Qed.
Lemma runes_utf8 cs : Forall (fun c => scalar c /\ c <> 0) cs -> runes (concat (map utf8 cs)) = map (fun c => (c, utf8 c)) cs.
Proof.
  induction 1 as [|c cs [Hc H0] Hcs IH]; [done|]. cbn [map concat].
  assert (Forall in_string (concat (map utf8 cs))) as Hs.
  { clear IH. induction Hcs as [|c' cs [Hc' H0'] _ IH]; [constructor|]. cbn. apply Forall_app. split; [by apply utf8_in_string|done]. }
  pose proof (utf8_in_string c Hc H0) as Hu. set (t := concat (map utf8 cs)) in *.
  assert (chartorune ((utf8 c ++ t) ++ [0]) = Ok (c, length (utf8 c))) as Hd.
  { rewrite <-app_assoc, chartorune_decode; [by apply decode_utf8|]. apply Forall_app. split; [by apply utf8_bytes|].
    apply Forall_app. split; [by apply in_string_bytes|]. repeat constructor; unfold is_byte; lia. }
  rewrite (runes_step _ c (length (utf8 c))); [|by apply Forall_app| |done].
  - by rewrite take_app_length, drop_app_length, IH.
  - unfold utf8. by case_ifs.
Qed.

(** ** Counting bytes *)

Lemma runenlen_head c :
  is_u32 c ->
  (if c <=? Rune1 then 1%nat else runenlen_one (UTFmax - 1) 2 c) =
  (if Runemax <? c then 4%nat else length (runetochar c)).
Proof.
  intros Hc. unfold is_u32 in Hc. change Rune1 with 0x7F. destruct (c <=? 0x7F) eqn:E.
  { rewrite runetochar_short by lia. by assert (Runemax <? c = false) as -> by (unfold Runemax; lia). }
  rewrite runetochar_long by lia. change (UTFmax - 1)%nat with 3%nat. cbn [runenlen_one Nat.eqb UTFmax].
  change (RuneX (Z.of_nat 2)) with 0x7FF. change (RuneX (Z.of_nat 3)) with 0xFFFF.
  change (RuneX (Z.of_nat 4)) with 0x1FFFFF. rewrite orb_true_r.
  destruct (Runemax <? c) eqn:E2; unfold Runemax, SurrogateMin, SurrogateMax, Runeerror, utf8 in *;
    [case_tests; lia|]. cbn [orb].
  destruct ((0xD800 <=? c) && (c <=? 0xDFFF)) eqn:E3; case_tests; lia.
Qed.
Lemma runenlen_utf8 c : scalar c -> runenlen [c] = length (utf8 c).
Proof.
  intros Hc. cbn [runenlen]. rewrite Nat.add_0_r, runenlen_head, runetochar_scalar; [|done|].
  - destruct Hc as [Hc _]. by assert (Runemax <? c = false) as -> by lia.
  - destruct Hc as [Hc _]. unfold Runemax in Hc. unfold_words. lia.
Qed.

(** ** Properties *)

(** Every Unicode scalar value is encoded by its UTF-8 bytes and decoded
    back from them, whatever follows; the lengths agree and [fullrune] says
    that the bytes are all there exactly when they are. *)
Theorem rune_roundtrip c rest n :
  scalar c -> Forall is_byte rest -> 0 < n ->
  runetochar c = utf8 c /\ runelen c = length (utf8 c) /\ runenlen [c] = length (utf8 c) /\
  chartorune (runetochar c ++ rest) = Ok (c, length (runetochar c)) /\
  fullrune (runetochar c ++ rest) n = Ok (Z.of_nat (length (runetochar c)) <=? n).
Proof.
  intros Hc Hr Hn. rewrite (runetochar_scalar c Hc). split; [done|].
  pose proof (runetochar_scalar c Hc) as Hu. destruct (need_utf8 c rest Hc) as (b & Hb & Hnb).
  split; [|split; [|split]].
  - unfold runelen. rewrite u32_small, Hu; [done|]. destruct Hc as [Hc _]. unfold Runemax in Hc. unfold_words. lia.
  - by apply runenlen_utf8.
  - rewrite chartorune_decode; [by apply decode_utf8|]. apply Forall_app. by split; [apply utf8_bytes|].
  - by rewrite (fullrune_need _ _ _ Hb Hn), Hnb.
Qed.

(** C28: [chartorune] accepts exactly UTF-8.  The encoding of every scalar value is decoded to that value, whatever
    follows it.  And when it succeeds on any bytes, either the bytes taken are the encoding of the scalar value it
    returns - so no overlong form, surrogate or value above [Runemax] is ever accepted - or it reports
    [Runeerror] for one byte that is not ASCII, and no encoding of a scalar value stands there.  It does succeed before
    the NUL of a string that has one, and takes no byte behind it. *)
Theorem chartorune_exact str :
  Forall is_byte str ->
  (forall c rest, scalar c -> str = utf8 c ++ rest -> chartorune str = Ok (c, length (utf8 c))) /\
  (forall r n, chartorune str = Ok (r, n) ->
    (scalar r /\ take n str = utf8 r /\ n = length (utf8 r)) \/
    (r = Runeerror /\ n = 1%nat /\ (exists b, str !! 0%nat = Some b /\ 0x80 <= b) /\
     forall c rest, scalar c -> str <> utf8 c ++ rest)) /\
  (forall s rest, s <> [] -> str = s ++ 0 :: rest -> exists r n, chartorune str = Ok (r, n) /\ (1 <= n <= length s)%nat).
Proof.
  intros Hs. rewrite (chartorune_decode _ Hs). split; [intros c rest Hc ->; by apply decode_utf8|].
  split; [|intros s rest Hne ->; by apply decode_terminated].
  intros r n Hd. destruct (decode_sound str r n Hs Hd) as [(H1 & H2 & H3)|(H1 & H2 & H3)]; [by left|]. subst r n.
  destruct (decide (take 3 str = utf8 Runeerror)) as [E|E].
  { exfalso. rewrite <-(take_drop 3 str), E, decode_utf8 in Hd by done. done. }
  right. split; [done|]. split; [done|]. split; [done|]. intros c rest Hc ->. rewrite (decode_utf8 c rest Hc) in Hd. injection Hd as -> _.
  by apply E.
Qed.

(** on a string that ends in NUL [chartorune] always returns, takes at
    least one byte and never goes past the NUL; and it looks only at the bytes
    that [fullrune] asks for. *)
Theorem chartorune_stays_inside s rest :
  Forall is_byte (s ++ 0 :: rest) -> s <> [] ->
  (exists r n, chartorune (s ++ 0 :: rest) = Ok (r, n) /\ (1 <= n <= length s)%nat) /\
  (forall n s', fullrune s n = Ok true -> Forall is_byte s' -> n <= Z.of_nat (length s) ->
     take (Z.to_nat n) s' = take (Z.to_nat n) s -> chartorune s' = chartorune s).
Proof.
  intros Hb Hs. rewrite (chartorune_decode _ Hb). split; [by apply decode_terminated|].
  intros n s' Hf Hb' Hlen Heq. apply Forall_app in Hb as [Hb _].
  rewrite !chartorune_decode by done. symmetry.
  destruct (s !! 0%nat) as [c|] eqn:Hc; [|by destruct s].
  destruct (Z.le_gt_cases n 0) as [Hn|Hn].
  { unfold fullrune in Hf. by assert (n <=? 0 = true) as E by lia; rewrite E in Hf. }
  rewrite (fullrune_need s n c Hc Hn) in Hf. injection Hf as Hf.
  apply (decode_local c); [done|]. replace (need c) with (need c `min` Z.to_nat n)%nat by lia.
  by rewrite <-!take_take, Heq.
Qed.

(** A rune that is no scalar value is written as [Runeerror], and
    [runenlen] counts the bytes that [runetochar] writes for every rune except
    the ones above [Runemax], for which it counts 4 where 3 are written. *)
Theorem runenlen_counts c rs :
  is_u32 c -> Forall is_u32 rs ->
  (~ scalar c -> runetochar c = runetochar Runeerror /\ runelen c = 3%nat) /\
  runenlen rs = foldr (fun c n => (if (Runemax <? c)%Z then 4 else length (runetochar c)) + n)%nat 0%nat rs.
Proof.
  intros Hc Hrs. split.
  - intros Hn. assert (runetochar c = runetochar Runeerror) as E; [|by unfold runelen; rewrite u32_small, E].
    rewrite runetochar_long by (unfold scalar, Runemax, SurrogateMin, is_u32 in *; lia).
    assert ((Runemax <? c) || ((SurrogateMin <=? c) && (c <=? SurrogateMax)) = true) as ->; [|done].
    unfold scalar, Runemax, SurrogateMin, SurrogateMax, is_u32 in *. lia.
  - induction Hrs as [|r rs Hr _ IH]; [done|]. cbn [runenlen foldr]. rewrite IH. f_equal. by apply runenlen_head.
Qed.

Lemma rune_roundtrip_witness :
  runetochar 0x20AC = utf8 0x20AC /\ runelen 0x20AC = length (utf8 0x20AC) /\
  runenlen [0x20AC] = length (utf8 0x20AC) /\
  chartorune (runetochar 0x20AC ++ [65]) = Ok (0x20AC, length (runetochar 0x20AC)) /\
  fullrune (runetochar 0x20AC ++ [65]) 2 = Ok (Z.of_nat (length (runetochar 0x20AC)) <=? 2).
Proof.
  apply (rune_roundtrip 0x20AC [65] 2); [|by repeat constructor|lia].
  unfold scalar, Runemax, SurrogateMin, SurrogateMax. lia.
Defined.
Lemma chartorune_exact_witness :
  (forall c rest, scalar c -> [0xF0; 0x90; 0x80; 0x80; 0] = utf8 c ++ rest -> chartorune [0xF0; 0x90; 0x80; 0x80; 0] = Ok (c, length (utf8 c))) /\
  (forall r n, chartorune [0xF0; 0x90; 0x80; 0x80; 0] = Ok (r, n) ->
    (scalar r /\ take n [0xF0; 0x90; 0x80; 0x80; 0] = utf8 r /\ n = length (utf8 r)) \/
    (r = Runeerror /\ n = 1%nat /\ (exists b, [0xF0; 0x90; 0x80; 0x80; 0] !! 0%nat = Some b /\ 0x80 <= b) /\
     forall c rest, scalar c -> [0xF0; 0x90; 0x80; 0x80; 0] <> utf8 c ++ rest)) /\
  (forall s rest, s <> [] -> [0xF0; 0x90; 0x80; 0x80; 0] = s ++ 0 :: rest -> exists r n, chartorune [0xF0; 0x90; 0x80; 0x80; 0] = Ok (r, n) /\ (1 <= n <= length s)%nat).
Proof. apply (chartorune_exact [0xF0; 0x90; 0x80; 0x80; 0]). by repeat constructor. Defined.
Lemma chartorune_stays_inside_witness :
  (exists r n, chartorune ([0xE2; 0x82] ++ 0 :: []) = Ok (r, n) /\ (1 <= n <= 2)%nat) /\
  (forall n s', fullrune [0xE2; 0x82] n = Ok true -> Forall is_byte s' -> n <= 2 ->
     take (Z.to_nat n) s' = take (Z.to_nat n) [0xE2; 0x82] -> chartorune s' = chartorune [0xE2; 0x82]).
Proof. apply (chartorune_stays_inside [0xE2; 0x82] []); [by repeat constructor|done]. Defined.
Lemma runenlen_counts_witness :
  (~ scalar 0xD800 -> runetochar 0xD800 = runetochar Runeerror /\ runelen 0xD800 = 3%nat) /\
  runenlen [0x41; 0x110000] =
    foldr (fun c n => (if (Runemax <? c)%Z then 4 else length (runetochar c)) + n)%nat 0%nat [0x41; 0x110000].
Proof. apply (runenlen_counts 0xD800 [0x41; 0x110000]); [by unfold_words|by repeat constructor]. Defined.
