(* ===== verification/Memory.v ===== *)
(** * Byte memory

    A finite map from addresses to bytes: an access outside the mapped cells
    is a [Fault].  [cstr m p s] says that the bytes of the string [s] lie at
    [p], followed by a NUL. *)
From stdpp Require Import gmap.
From S2P Require Import Prelude.

(** ** Accesses *)

Abbreviation mem := (gmap Z Z).
Definition get (m : mem) (p : Z) : result Z := of_ptr (m !! p).
Definition put (m : mem) (p v : Z) : result mem := let* _ := get m p in Ok (<[p := v]> m).
(** The [n] bytes at [p]. *)
Definition load (m : mem) (p n : Z) : result (list Z) := of_ptr (mapM (fun t => m !! (p + t)) (seqZ 0 n)).

(** More turns than any loop that reads a new cell in each turn can take. *)
Definition turns (m : mem) : nat := S (size m).

Fixpoint cstr (m : mem) (p : Z) (s : list Z) : Prop :=
  match s with
  | [] => m !! p = Some 0
  | b :: s => m !! p = Some b /\ 0 < b < 256 /\ cstr m (p + 1) s
  end.
Definition same_between (m m' : mem) (lo hi : Z) : Prop := forall q, lo <= q < hi -> m' !! q = m !! q.

(** ** Lemmas *)

Lemma get_some m p v : m !! p = Some v -> get m p = Ok v.
Proof. unfold get. by intros ->. Qed.
Lemma put_some m p v : is_Some (m !! p) -> put m p v = Ok (<[p := v]> m).
Proof. intros [w Hw]. unfold put. by rewrite (get_some _ _ _ Hw). Qed.

Lemma insert_some (m : mem) p v q : is_Some (m !! q) -> is_Some (<[p := v]> m !! q).
Proof. rewrite lookup_insert. case_decide; eauto. Qed.


Lemma load_mapped (m : mem) p n l t : load m p n = Ok l -> 0 <= t < n -> is_Some (m !! (p + t)).
Proof.
  unfold load. destruct (mapM _ _) as [l'|] eqn:E; [|done]. intros _ Ht. apply mapM_Some in E.
  destruct (Forall2_lookup_l _ _ _ (Z.to_nat t) t E) as (y & _ & Hy); [|by rewrite Hy].
  apply lookup_seqZ. lia.
Qed.
Lemma load_ext (m m' : mem) p p' n :
  (forall t, 0 <= t < n -> m' !! (p' + t) = m !! (p + t)) -> load m' p' n = load m p n.
Proof.
  intros H. unfold load. f_equal. apply Forall_mapM_ext, Forall_forall. intros t Ht%elem_of_seqZ. apply H. lia.
Qed.


Lemma mapped_size (m : mem) p n : (forall t, 0 <= t < n -> is_Some (m !! (p + t))) -> (Z.to_nat n <= size m)%nat.
Proof.
  intros H. rewrite <-(length_seqZ p n).
  pose proof (size_list_to_set (C := gset Z) (seqZ p n) (NoDup_seqZ p n)) as <-.
  rewrite <-(size_dom m). apply subseteq_size. intros q Hq%elem_of_list_to_set%elem_of_seqZ. apply elem_of_dom.
  replace q with (p + (q - p)) by lia. apply H. lia.
Qed.
Lemma cstr_mapped m p s t : cstr m p s -> 0 <= t <= Z.of_nat (length s) -> is_Some (m !! (p + t)).
Proof.
  revert p t. induction s as [|b s IH]; intros p t; cbn [cstr length].
  - intros H Ht. replace (p + t) with p by lia. by rewrite H.
  - intros (Hb & _ & H) Ht. destruct (Z.eq_dec t 0) as [->|]; [rewrite Z.add_0_r, Hb; eauto|].
    replace (p + t) with (p + 1 + (t - 1)) by lia. apply IH; [done|lia].
Qed.
Lemma cstr_turns m p s : cstr m p s -> (length s < turns m)%nat.
Proof.
  intros H. pose proof (mapped_size m p (Z.of_nat (length s) + 1)) as Hm. unfold turns.
  assert (Z.to_nat (Z.of_nat (length s) + 1) <= size m)%nat; [|lia].
  apply Hm. intros t Ht. by apply (cstr_mapped m p s); [|lia].
Qed.
Lemma cstr_frame m m' p s :
  cstr m p s -> same_between m m' p (p + Z.of_nat (length s) + 1) -> cstr m' p s.
Proof.
  revert p. induction s as [|b s IH]; intros p; cbn [cstr length]; intros H Hs.
  - rewrite Hs; [done|lia].
  - destruct H as (Hb & Hr & H). rewrite Hs by lia. split; [done|split; [done|]].
    apply IH; [done|]. intros q Hq. apply Hs. lia.
Qed.
Lemma cstr_suffix m p s1 s2 : cstr m p (s1 ++ s2) -> cstr m (p + Z.of_nat (length s1)) s2.
Proof.
  revert p. induction s1 as [|b s1 IH]; intros p; cbn [app cstr length]; [by rewrite Z.add_0_r|].
  intros (_ & _ & H%IH). by replace (p + Z.of_nat (S (length s1))) with (p + 1 + Z.of_nat (length s1)) by lia.
Qed.
Lemma cstr_lookup m p s i b : cstr m p s -> s !! i = Some b -> m !! (p + Z.of_nat i) = Some b /\ 0 < b < 256.
Proof.
  revert p i. induction s as [|b' s IH]; intros p i; cbn [cstr]; [done|]. intros (Hb & Hr & H).
  destruct i as [|i]; simpl; [intros [= <-]; by rewrite Z.add_0_r|]. intros Hi.
  replace (p + Z.of_nat (S i)) with (p + 1 + Z.of_nat i) by lia. by apply IH.
Qed.
Lemma cstr_end m p s : cstr m p s -> m !! (p + Z.of_nat (length s)) = Some 0.
Proof. intros H. rewrite <-(app_nil_r s) in H. by apply cstr_suffix in H. Qed.
Lemma cstr_intro m p s :
  (forall i b, s !! i = Some b -> m !! (p + Z.of_nat i) = Some b /\ 0 < b < 256) ->
  m !! (p + Z.of_nat (length s)) = Some 0 -> cstr m p s.
Proof.
  revert p. induction s as [|b s IH]; intros p Hs He; cbn [cstr].
  - by rewrite Z.add_0_r in He.
  - destruct (Hs 0%nat b eq_refl) as [H0 Hr]. rewrite Z.add_0_r in H0. split; [done|split; [done|]]. apply IH.
    + intros i b' Hi. destruct (Hs (S i) b' Hi) as [H1 H2]. split; [|done].
      by replace (p + 1 + Z.of_nat i) with (p + Z.of_nat (S i)) by lia.
    + cbn [length] in He. by replace (p + 1 + Z.of_nat (length s)) with (p + Z.of_nat (S (length s))) by lia.
Qed.
Lemma cstr_det m p s1 s2 : cstr m p s1 -> cstr m p s2 -> s1 = s2.
Proof.
  revert p s2. induction s1 as [|b1 s1 IH]; intros p [|b2 s2]; cbn [cstr]; [done|..].
  - intros H (H' & ? & _). rewrite H in H'. injection H' as <-. lia.
  - intros (H & ? & _) H'. rewrite H in H'. injection H' as ->. lia.
  - intros (H & _ & H1) (H' & _ & H2). rewrite H in H'. injection H' as ->. f_equal. by apply (IH (p + 1)).
Qed.

(** ** Blocks of bytes *)

Fixpoint bytes_at (m : mem) (p : Z) (l : list Z) : Prop :=
  match l with
  | [] => True
  | b :: l => m !! p = Some b /\ bytes_at m (p + 1) l
  end.
(** [m'] is [m] with [l] written at [p]. *)
Definition written (m m' : mem) (p : Z) (l : list Z) : Prop :=
  bytes_at m' p l /\ forall q, q < p \/ p + Z.of_nat (length l) <= q -> m' !! q = m !! q.
Definition mapped (m : mem) (p n : Z) : Prop := forall t, 0 <= t < n -> is_Some (m !! (p + t)).

Lemma cstr_bytes_at m p s : cstr m p s -> bytes_at m p (s ++ [0]).
Proof. revert p. induction s as [|b s IH]; intros p; cbn; [done|]. intros (? & _ & ?). auto. Qed.
Lemma bytes_at_cstr m p s : Forall (fun b => 0 < b < 256) s -> bytes_at m p (s ++ [0]) -> cstr m p s.
Proof.
  intros Hs. revert p. induction Hs as [|b s Hb _ IH]; intros p; cbn; [by intros [? _]|]. intros [? ?]. auto.
Qed.
Lemma bytes_at_app m p l1 l2 :
  bytes_at m p (l1 ++ l2) <-> bytes_at m p l1 /\ bytes_at m (p + Z.of_nat (length l1)) l2.
Proof.
  revert p. induction l1 as [|b l1 IH]; intros p; cbn [app bytes_at length]; [rewrite Z.add_0_r; tauto|].
  rewrite IH. replace (p + 1 + Z.of_nat (length l1)) with (p + Z.of_nat (S (length l1))) by lia. tauto.
Qed.
Lemma bytes_at_frame m m' p l :
  bytes_at m p l -> same_between m m' p (p + Z.of_nat (length l)) -> bytes_at m' p l.
Proof.
  revert p. induction l as [|b l IH]; intros p; cbn [bytes_at length]; [done|]. intros [Hb H] Hs. split.
  - rewrite Hs; [done|lia].
  - apply IH; [done|]. intros q Hq. apply Hs. lia.
Qed.
Lemma bytes_at_lookup m p l i b : bytes_at m p l -> l !! i = Some b -> m !! (p + Z.of_nat i) = Some b.
Proof.
  revert p i. induction l as [|b' l IH]; intros p i; cbn [bytes_at]; [done|]. intros [Hb H].
  destruct i as [|i]; simpl lookup; [intros [= <-]; by rewrite Z.add_0_r|]. intros Hi.
  replace (p + Z.of_nat (S i)) with (p + 1 + Z.of_nat i) by lia. by apply IH.
Qed.
Lemma written_nil m p : written m m p [].
Proof. done. Qed.
Lemma written_cons m m' p b l : written (<[p := b]> m) m' (p + 1) l -> written m m' p (b :: l).
Proof.
  intros [Hl Ho]. split.
  - split; [|done]. rewrite Ho by lia. apply lookup_insert_eq.
  - intros q Hq. cbn [length] in Hq. rewrite Ho by lia. apply lookup_insert_ne. lia.
Qed.
Lemma put_mapped m p b n : mapped m p n -> 0 < n -> put m p b = Ok (<[p := b]> m) /\ mapped (<[p := b]> m) (p + 1) (n - 1).
Proof.
  intros Hm Hn. split.
  - apply put_some. specialize (Hm 0 ltac:(lia)). by rewrite Z.add_0_r in Hm.
  - intros t Ht. apply insert_some. replace (p + 1 + t) with (p + (1 + t)) by lia. apply Hm. lia.
Qed.
Lemma insert_same_between m p b lo hi : p < lo \/ hi <= p -> same_between m (<[p := b]> m) lo hi.
Proof. intros H q Hq. apply lookup_insert_ne. lia. Qed.
Lemma cstr_mapped_at m p l k : bytes_at m p l -> (k < length l)%nat -> is_Some (m !! (p + Z.of_nat k)).
Proof.
  intros H Hk. destruct (lookup_lt_is_Some_2 l k Hk) as [b Hb]. rewrite (bytes_at_lookup m p l k b H Hb). eauto.
Qed.
