(* ===== verification/Qsort.v ===== *)
(** * Sorting in place: kernel/Libc/port/qsort.c

    The array lies in the byte memory of [Memory]; an object in memory is
    smaller than 2^31 bytes, so the pointer arithmetic is exact.  The comparison function of
    the caller is an argument: a function of the bytes of the two elements. *)
From stdpp Require Import gmap.
From S2P Require Import Prelude Memory.

(** ** The program *)

Record Sort := mkSort {
  cmp : list Z -> list Z -> Z; swap : mem -> Z -> Z -> Z -> result mem; es : Z }.

Definition call_cmp (p : Sort) (m : mem) (x y : Z) : result Z :=
  let* bx := load m x (es p) in
  let* bY := load m y (es p) in
  Ok (cmp p bx bY).

(** The loops [do ... while(es != 0)] take [fuel] turns at most. *)
Fixpoint swapb_loop (fuel : nat) (m : mem) (i j es : Z) : result mem :=
  match fuel with
  | O => Loop
  | S fuel =>
      let* c := get m i in
      let* d := get m j in
      let* m := put m i d in
      let* m := put m j c in
      let es := es - 1 in
      if negb (es =? 0) then swapb_loop fuel m (i + 1) (j + 1) es else Ok m
  end.
Definition swapb (m : mem) (i j es : Z) : result mem := swapb_loop (Z.to_nat es) m i j es.

(** A [long] is four bytes. *)
Definition put4 (m : mem) (p : Z) (v : list Z) : result mem :=
  match v with
  | [v0; v1; v2; v3] =>
      let* m := put m p v0 in let* m := put m (p + 1) v1 in
      let* m := put m (p + 2) v2 in put m (p + 3) v3
  | _ => Fault
  end.
Fixpoint swapi_loop (fuel : nat) (m : mem) (i j es : Z) : result mem :=
  match fuel with
  | O => Loop
  | S fuel =>
      let* c := load m i 4 in
      let* d := load m j 4 in
      let* m := put4 m i d in
      let* m := put4 m j c in
      let es := es - 4 in
      if negb (es =? 0) then swapi_loop fuel m (i + 4) (j + 4) es else Ok m
  end.
Definition swapi (m : mem) (ii ij es : Z) : result mem := swapi_loop (Z.to_nat es) m ii ij es.

Definition pivot (m : mem) (a n : Z) (p : Sort) : result Z :=
  let j := n ÷ 6 * es p in
  let pi := a + j in
  let j := j + j in
  let pj := pi + j in
  let pk := pj + j in
  let* ij := call_cmp p m pi pj in
  if ij <? 0 then
    let* ik := call_cmp p m pi pk in
    if ik <? 0 then
      let* jk := call_cmp p m pj pk in
      if jk <? 0 then Ok pj else Ok pk
    else Ok pi
  else
    let* jk := call_cmp p m pj pk in
    if jk <? 0 then
      let* ik := call_cmp p m pi pk in
      if ik <? 0 then Ok pi else Ok pk
    else Ok pj.

(** [do pi += es; while(pi < pn && cmp(pi, a) < 0);] *)
Fixpoint scan_up (fuel : nat) (m : mem) (p : Sort) (a pi pn : Z) : result Z :=
  match fuel with
  | O => Loop
  | S fuel =>
      let pi := pi + es p in
      if pi <? pn then
        let* c := call_cmp p m pi a in
        if c <? 0 then scan_up fuel m p a pi pn else Ok pi
      else Ok pi
  end.
(** [do pj -= es; while(pj > a && cmp(pj, a) > 0);] *)
Fixpoint scan_down (fuel : nat) (m : mem) (p : Sort) (a pj : Z) : result Z :=
  match fuel with
  | O => Loop
  | S fuel =>
      let pj := pj - es p in
      if pj >? a then
        let* c := call_cmp p m pj a in
        if c >? 0 then scan_down fuel m p a pj else Ok pj
      else Ok pj
  end.
(** The loop [for(;;)] of [qsorts], up to its [break]. *)
Fixpoint partition (fuel : nat) (m : mem) (p : Sort) (a pi pj pn : Z) (n : nat) : result (mem * Z) :=
  match fuel with
  | O => Loop
  | S fuel =>
      let* pi := scan_up n m p a pi pn in
      let* pj := scan_down n m p a pj in
      if pj <? pi then Ok (m, pj)
      else
        let* m := swap p m pi pj (es p) in
        partition fuel m p a pi pj pn n
  end.

(** [fuel] bounds the recursive calls and the turns of [while(n > 1)]. *)
Fixpoint qsorts (fuel : nat) (m : mem) (a n : Z) (p : Sort) : result mem :=
  if n >? 1 then
    match fuel with
    | O => Loop
    | S fuel =>
        let* pi := if n >? 10 then pivot m a n p else Ok (a + Z.shiftr n 1 * es p) in
        let* m := swap p m a pi (es p) in
        let pn := a + n * es p in
        let* (m, pj) := partition (Z.to_nat n) m p a a pn pn (Z.to_nat n) in
        let* m := swap p m a pj (es p) in
        let j := (pj - a) ÷ es p in
        let n := n - j - 1 in
        if j >=? n then
          let* m := qsorts fuel m a j p in
          qsorts fuel m (a + (j + 1) * es p) n p
        else
          let* m := qsorts fuel m (a + (j + 1) * es p) n p in
          qsorts fuel m a j p
    end
  else Ok m.

Definition qsort (m : mem) (va n es : Z) (cmp : list Z -> list Z -> Z) : result mem :=
  let sw := if negb (Z.lor va es mod 4 =? 0) then swapb else swapi in
  qsorts (Z.to_nat n) m va n (mkSort cmp sw es).

(** ** Specification: an array of elements in memory *)

(** [e k] is the element of index [k]. *)
Definition holds (m : mem) (a es N : Z) (e : Z -> list Z) : Prop :=
  forall k, 0 <= k < N -> load m (a + k * es) es = Ok (e k).
Definition exch (i j : Z) (k : Z) : Z := if k =? i then j else if k =? j then i else k.
Definition segment (e : Z -> list Z) (lo n : Z) : list (list Z) := e <$> seqZ lo n.
(** What a swap function must do with two objects that are equal or apart. *)
Definition inside (i n q : Z) : bool := (i <=? q) && (q <? i + n).
Definition swapped (m m' : mem) (i j n : Z) : Prop :=
  forall q, m' !! q = if inside i n q then m !! (q - i + j)
                      else if inside j n q then m !! (q - j + i) else m !! q.
Definition swap_ok (sw : mem -> Z -> Z -> Z -> result mem) (es : Z) : Prop :=
  forall m i j, i = j \/ i + es <= j \/ j + es <= i ->
    (forall t, 0 <= t < es -> is_Some (m !! (i + t)) /\ is_Some (m !! (j + t))) ->
    exists m', sw m i j es = Ok m' /\ swapped m m' i j es.

(** ** The swap functions *)

(** A swap of the first [k] bytes and a swap of the rest. *)
Lemma swapped_step (m m2 m' : mem) i j k n :
  0 < k < n -> i = j \/ i + n <= j \/ j + n <= i ->
  swapped m m2 i j k -> swapped m2 m' (i + k) (j + k) (n - k) -> swapped m m' i j n.
Proof.
  intros Hk Hd H1 H2 q. rewrite H2. replace (q - (i + k) + (j + k)) with (q - i + j) by lia.
  replace (q - (j + k) + (i + k)) with (q - j + i) by lia. rewrite !H1.
  destruct (inside i n q) eqn:Ei; [|destruct (inside j n q) eqn:Ej].
  - destruct (Z.ltb_spec q (i + k)); unfold inside in *.
    + replace ((i + k <=? q) && (q <? i + k + (n - k))) with false by lia.
      replace ((j + k <=? q) && (q <? j + k + (n - k))) with false by lia.
      by replace ((i <=? q) && (q <? i + k)) with true by lia.
    + replace ((i + k <=? q) && (q <? i + k + (n - k))) with true by lia.
      replace ((i <=? q - i + j) && (q - i + j <? i + k)) with false by lia.
      by replace ((j <=? q - i + j) && (q - i + j <? j + k)) with false by lia.
  - destruct (Z.ltb_spec q (j + k)); unfold inside in *.
    + replace ((i + k <=? q) && (q <? i + k + (n - k))) with false by lia.
      replace ((j + k <=? q) && (q <? j + k + (n - k))) with false by lia.
      replace ((i <=? q) && (q <? i + k)) with false by lia.
      by replace ((j <=? q) && (q <? j + k)) with true by lia.
    + replace ((i + k <=? q) && (q <? i + k + (n - k))) with false by lia.
      replace ((j + k <=? q) && (q <? j + k + (n - k))) with true by lia.
      replace ((i <=? q - j + i) && (q - j + i <? i + k)) with false by lia.
      by replace ((j <=? q - j + i) && (q - j + i <? j + k)) with false by lia.
  - unfold inside in *.
    replace ((i + k <=? q) && (q <? i + k + (n - k))) with false by lia.
    replace ((j + k <=? q) && (q <? j + k + (n - k))) with false by lia.
    replace ((i <=? q) && (q <? i + k)) with false by lia.
    by replace ((j <=? q) && (q <? j + k)) with false by lia.
Qed.
(** The cells stay mapped. *)
Lemma swapped_mapped (m m2 : mem) i j k n :
  0 < k < n -> swapped m m2 i j k ->
  (forall t, 0 <= t < n -> is_Some (m !! (i + t)) /\ is_Some (m !! (j + t))) ->
  forall t, 0 <= t < n - k -> is_Some (m2 !! (i + k + t)) /\ is_Some (m2 !! (j + k + t)).
Proof.
  intros Hk Hs Hm.
  assert (forall q, (exists t, 0 <= t < n /\ (q = i + t \/ q = j + t)) -> is_Some (m2 !! q)) as H.
  { intros q (t & Ht & Hq). rewrite Hs. unfold inside. destruct ((i <=? q) && _) eqn:E1.
    - destruct (Hm (q - i) ltac:(lia)) as [_ ?]. by replace (q - i + j) with (j + (q - i)) by lia.
    - destruct ((j <=? q) && _) eqn:E2.
      + destruct (Hm (q - j) ltac:(lia)) as [? _]. by replace (q - j + i) with (i + (q - j)) by lia.
      + destruct Hq as [-> | ->]; by apply Hm. }
  intros t Ht. split; apply H; exists (k + t); lia.
Qed.

Lemma swapb_loop_ok fuel (m : mem) i j n :
  0 < n -> (Z.to_nat n <= fuel)%nat -> i = j \/ i + n <= j \/ j + n <= i ->
  (forall t, 0 <= t < n -> is_Some (m !! (i + t)) /\ is_Some (m !! (j + t))) ->
  exists m', swapb_loop fuel m i j n = Ok m' /\ swapped m m' i j n.
Proof.
  revert m i j n. induction fuel as [|fuel IH]; intros m i j n Hn Hf Hd Hm; [lia|]. cbn [swapb_loop].
  destruct (Hm 0 ltac:(lia)) as [[c Hc] [d Hdd]]. rewrite Z.add_0_r in Hc, Hdd.
  rewrite (get_some _ _ _ Hc), (get_some _ _ _ Hdd). cbn [rbind].
  rewrite put_some by eauto. cbn [rbind]. rewrite put_some by (apply insert_some; eauto). cbn [rbind].
  set (m2 := <[j := c]> (<[i := d]> m)).
  assert (swapped m m2 i j 1) as Hm2.
  { intros q. subst m2. rewrite !lookup_insert. unfold inside.
    destruct (decide (j = q)) as [<-|]; [|destruct (decide (i = q)) as [<-|]].
    - replace ((j <=? j) && (j <? j + 1)) with true by lia. rewrite Z.sub_diag, Z.add_0_l.
      destruct ((i <=? j) && _) eqn:E; [|done]. assert (i = j) as -> by lia.
      by rewrite Z.sub_diag, Z.add_0_l.
    - replace ((i <=? i) && (i <? i + 1)) with true by lia. by rewrite Z.sub_diag, Z.add_0_l.
    - replace ((i <=? q) && (q <? i + 1)) with false by lia. by replace ((j <=? q) && (q <? j + 1)) with false by lia. }
  destruct (Z.eqb_spec (n - 1) 0) as [E|E]; cbn [negb].
  - exists m2. split; [done|]. by replace n with 1 by lia.
  - destruct (IH m2 (i + 1) (j + 1) (n - 1)) as (m' & -> & Hm'); [lia|lia|lia| |].
    { by apply (swapped_mapped m m2 i j 1 n); [lia|..]. }
    exists m'. split; [done|]. by apply (swapped_step m m2 m' i j 1 n); [lia|..].
Qed.
Lemma swapb_ok es : 0 < es -> swap_ok swapb es.
Proof. intros H m i j Hd Hm. by apply swapb_loop_ok. Qed.

Lemma load4_ok (m : mem) p :
  (forall t, 0 <= t < 4 -> is_Some (m !! (p + t))) ->
  exists v0 v1 v2 v3, load m p 4 = Ok [v0; v1; v2; v3] /\
    m !! (p + 0) = Some v0 /\ m !! (p + 1) = Some v1 /\ m !! (p + 2) = Some v2 /\ m !! (p + 3) = Some v3.
Proof.
  intros H. destruct (H 0 ltac:(lia)) as [v0 H0], (H 1 ltac:(lia)) as [v1 H1],
    (H 2 ltac:(lia)) as [v2 H2], (H 3 ltac:(lia)) as [v3 H3].
  exists v0, v1, v2, v3. split; [|done]. unfold load. change (seqZ 0 4) with [0; 1; 2; 3].
  cbn [mapM]. rewrite H0. cbn [mbind option_bind]. rewrite H1. cbn [mbind option_bind]. rewrite H2. cbn [mbind option_bind]. by rewrite H3.
Qed.
Lemma put4_ok (m : mem) p v0 v1 v2 v3 :
  (forall t, 0 <= t < 4 -> is_Some (m !! (p + t))) ->
  exists m', put4 m p [v0; v1; v2; v3] = Ok m' /\
    forall q, m' !! q = if q =? p then Some v0 else if q =? p + 1 then Some v1
                        else if q =? p + 2 then Some v2 else if q =? p + 3 then Some v3 else m !! q.
Proof.
  intros H. unfold put4. pose proof (H 0 ltac:(lia)) as H0. rewrite Z.add_0_r in H0.
  rewrite put_some by done. cbn [rbind].
  do 3 (rewrite put_some by (repeat apply insert_some; apply H; lia); cbn [rbind]).
  eexists. split; [reflexivity|]. intros q. rewrite !lookup_insert.
  repeat case_decide; case_tests; subst; try lia; done.
Qed.
(** One turn of [swapi]. *)
Lemma swap4 (m : mem) i j :
  i = j \/ i + 4 <= j \/ j + 4 <= i ->
  (forall t, 0 <= t < 4 -> is_Some (m !! (i + t)) /\ is_Some (m !! (j + t))) ->
  exists c d m1 m2, load m i 4 = Ok c /\ load m j 4 = Ok d /\ put4 m i d = Ok m1 /\ put4 m1 j c = Ok m2 /\
    swapped m m2 i j 4.
Proof.
  intros Hd Hm.
  destruct (load4_ok m i) as (c0 & c1 & c2 & c3 & Hc & C0 & C1 & C2 & C3); [intros; by apply Hm|].
  destruct (load4_ok m j) as (d0 & d1 & d2 & d3 & Hdd & D0 & D1 & D2 & D3); [intros; by apply Hm|].
  destruct (put4_ok m i d0 d1 d2 d3) as (m1 & H1 & L1); [intros; by apply Hm|].
  destruct (put4_ok m1 j c0 c1 c2 c3) as (m2 & H2 & L2).
  { intros t Ht. rewrite L1. case_tests; eauto. by apply Hm. }
  eexists _, _, m1, m2. split; [exact Hc|]. split; [exact Hdd|]. split; [done|split; [done|]].
  intros q. rewrite L2, L1. unfold inside.
  assert (forall b t, q = b + t -> forall b', q - b + b' = b' + t) as Hq by (intros; lia).
  destruct (Z.leb_spec i q), (Z.ltb_spec q (i + 4)), (Z.leb_spec j q), (Z.ltb_spec q (j + 4)); cbn [andb];
    try (case_tests; (lia || done)).
  1: assert (i = j) as <- by lia.
  all: match goal with
    | |- context [?m !! (?q - ?b + ?b')] =>
        assert (q = b + 0 \/ q = b + 1 \/ q = b + 2 \/ q = b + 3) as [E|[E|[E|E]]] by lia;
        rewrite (Hq _ _ E); case_tests; (lia || congruence)
    end.
Qed.
Lemma swapi_loop_ok fuel (m : mem) i j n :
  0 < n -> (4 | n) -> (Z.to_nat n <= fuel)%nat -> i = j \/ i + n <= j \/ j + n <= i ->
  (forall t, 0 <= t < n -> is_Some (m !! (i + t)) /\ is_Some (m !! (j + t))) ->
  exists m', swapi_loop fuel m i j n = Ok m' /\ swapped m m' i j n.
Proof.
  revert m i j n. induction fuel as [|fuel IH]; intros m i j n Hn [k Hk] Hf Hd Hm; [lia|]. cbn [swapi_loop].
  destruct (swap4 m i j) as (c & d & m1 & m2 & -> & -> & H1 & H2 & L); [lia|intros; apply Hm; lia|].
  cbn [rbind]. rewrite H1. cbn [rbind]. rewrite H2. cbn [rbind].
  destruct (Z.eqb_spec (n - 4) 0) as [E|E]; cbn [negb].
  - exists m2. split; [done|]. by replace n with 4 by lia.
  - destruct (IH m2 (i + 4) (j + 4) (n - 4)) as (m' & -> & Hm'); [lia|exists (k - 1); lia|lia|lia| |].
    { by apply (swapped_mapped m m2 i j 4 n); [lia|..]. }
    exists m'. split; [done|]. by apply (swapped_step m m2 m' i j 4 n); [lia|..].
Qed.
Lemma swapi_ok es : 0 < es -> (4 | es) -> swap_ok swapi es.
Proof. intros H H4 m i j Hd Hm. by apply swapi_loop_ok. Qed.

(** ** Segments and exchanges *)

Lemma segment_perm_forall (P : list Z -> Prop) e e' lo n :
  segment e' lo n ≡ₚ segment e lo n -> (forall k, lo <= k < lo + n -> P (e k)) ->
  forall k, lo <= k < lo + n -> P (e' k).
Proof.
  intros Hp He k Hk. assert (e' k ∈ segment e lo n) as Hin.
  { rewrite <-Hp. apply list_elem_of_fmap. exists k. split; [done|]. apply elem_of_seqZ. lia. }
  apply list_elem_of_fmap in Hin as (k' & -> & Hk'%elem_of_seqZ). apply He. lia.
Qed.
Lemma segment_ext e e' lo n : (forall k, lo <= k < lo + n -> e' k = e k) -> segment e' lo n = segment e lo n.
Proof. intros H. apply list_fmap_ext. intros i x Hx%lookup_seqZ. apply H. lia. Qed.
Lemma segment_app e lo n1 n2 :
  0 <= n1 -> 0 <= n2 -> segment e lo (n1 + n2) = segment e lo n1 ++ segment e (lo + n1) n2.
Proof. intros. unfold segment. by rewrite seqZ_app, fmap_app. Qed.
Lemma segment_mid e lo j hi :
  lo <= j < hi ->
  segment e lo (hi - lo) = segment e lo (j - lo) ++ e j :: segment e (j + 1) (hi - j - 1).
Proof.
  intros H. replace (hi - lo) with ((j - lo) + (1 + (hi - j - 1))) by lia.
  rewrite !segment_app by lia. replace (lo + (j - lo)) with j by lia. done.
Qed.

Lemma exch_involutive i j k : exch i j (exch i j k) = k.
Proof. unfold exch. destruct (Z.eqb_spec k i), (Z.eqb_spec k j); case_tests; lia. Qed.
Lemma exch_range i j k lo hi : lo <= i < hi -> lo <= j < hi -> lo <= k < hi <-> lo <= exch i j k < hi.
Proof. unfold exch. case_tests; lia. Qed.
Lemma segment_exch e i j lo n :
  lo <= i < lo + n -> lo <= j < lo + n -> segment (e ∘ exch i j) lo n ≡ₚ segment e lo n.
Proof.
  intros Hi Hj. unfold segment. rewrite list_fmap_compose. apply Permutation_map.
  apply NoDup_Permutation.
  - apply NoDup_fmap; [|apply NoDup_seqZ]. intros x y Hxy. by rewrite <-(exch_involutive i j x), Hxy, exch_involutive.
  - apply NoDup_seqZ.
  - intros k. rewrite list_elem_of_fmap. setoid_rewrite elem_of_seqZ. split.
    + intros (k' & -> & Hk'). by apply (exch_range i j k').
    + intros Hk. exists (exch i j k). by rewrite exch_involutive, <-exch_range.
Qed.

(** ** The array in memory *)

Section array.
Variables (p : Sort) (a N : Z).
Hypothesis es_pos : 0 < es p.
Hypothesis swap_correct : swap_ok (swap p) (es p).

Abbreviation at_ k := (a + k * es p).
Definition outside (m m' : mem) : Prop := forall q, q < a \/ a + N * es p <= q -> m' !! q = m !! q.

Lemma holds_ext m e e' : holds m a (es p) N e -> (forall k, e' k = e k) -> holds m a (es p) N e'.
Proof. intros H He k Hk. by rewrite He, H. Qed.
Lemma call_cmp_ok m e i j :
  holds m a (es p) N e -> 0 <= i < N -> 0 <= j < N -> call_cmp p m (at_ i) (at_ j) = Ok (cmp p (e i) (e j)).
Proof. intros H Hi Hj. unfold call_cmp. by rewrite (H i Hi), (H j Hj). Qed.

(** An exchange of two elements. *)
Lemma holds_swap m e i j :
  holds m a (es p) N e -> 0 <= i < N -> 0 <= j < N ->
  exists m', swap p m (at_ i) (at_ j) (es p) = Ok m' /\
    holds m' a (es p) N (e ∘ exch i j) /\ outside m m'.
Proof.
  intros H Hi Hj. destruct (swap_correct m (at_ i) (at_ j)) as (m' & Hm' & Hs).
  - destruct (Z.lt_trichotomy i j) as [?|[->|?]]; [right; left; nia|by left|right; right; nia].
  - intros t Ht. split; by eapply load_mapped; [apply H|].
  - exists m'. split; [done|]. split.
    + intros k Hk. simpl. rewrite <-(H (exch i j k)).
      2:{ by apply exch_range. }
      apply load_ext. intros t Ht. rewrite Hs. unfold exch, inside.
      destruct (Z.eqb_spec k i) as [->|Hki]; [|destruct (Z.eqb_spec k j) as [->|Hkj]].
      * replace ((at_ i <=? at_ i + t) && (at_ i + t <? at_ i + es p)) with true by lia. f_equal. lia.
      * assert (at_ i + es p <= at_ j \/ at_ j + es p <= at_ i) by nia.
        replace ((at_ i <=? at_ j + t) && (at_ j + t <? at_ i + es p)) with false by lia.
        replace ((at_ j <=? at_ j + t) && (at_ j + t <? at_ j + es p)) with true by lia. f_equal. lia.
      * assert (at_ i + es p <= at_ k \/ at_ k + es p <= at_ i) by nia.
        assert (at_ j + es p <= at_ k \/ at_ k + es p <= at_ j) by nia.
        replace ((at_ i <=? at_ k + t) && (at_ k + t <? at_ i + es p)) with false by lia.
        by replace ((at_ j <=? at_ k + t) && (at_ k + t <? at_ j + es p)) with false by lia.
    + intros q Hq. rewrite Hs. unfold inside.
      assert (a <= at_ i /\ at_ i + es p <= a + N * es p) by nia.
      assert (a <= at_ j /\ at_ j + es p <= a + N * es p) by nia.
      replace ((at_ i <=? q) && (q <? at_ i + es p)) with false by lia.
      by replace ((at_ j <=? q) && (q <? at_ j + es p)) with false by lia.
Qed.

(** ** The scans *)

Lemma scan_up_ok fuel m e lo i hi :
  holds m a (es p) N e -> 0 <= lo <= i -> i < hi <= N -> hi - i <= Z.of_nat fuel ->
  exists i', scan_up fuel m p (at_ lo) (at_ i) (at_ hi) = Ok (at_ i') /\ i < i' <= hi /\
    (forall k, i < k < i' -> cmp p (e k) (e lo) < 0) /\ (i' = hi \/ cmp p (e i') (e lo) >= 0).
Proof.
  intros H Hlo. revert i Hlo. induction fuel as [|fuel IH]; intros i Hlo Hhi Hf; [lia|]. cbn [scan_up].
  replace (at_ i + es p) with (at_ (i + 1)) by lia.
  destruct (Z.ltb_spec (at_ (i + 1)) (at_ hi)) as [Hlt|Hge].
  - assert (i + 1 < hi) by nia. rewrite (call_cmp_ok m e) by (done || lia). cbn [rbind].
    destruct (Z.ltb_spec (cmp p (e (i + 1)) (e lo)) 0) as [Hc|Hc].
    + destruct (IH (i + 1)) as (i' & Hs & Hi' & Hall & Hstop); [lia|lia|lia|].
      exists i'. split; [done|split; [lia|split; [|done]]].
      intros k Hk. destruct (Z.eq_dec k (i + 1)) as [->|]; [done|apply Hall; lia].
    + exists (i + 1). split; [done|split; [lia|split; [lia|right; lia]]].
  - assert (i + 1 = hi) by nia. exists (i + 1). split; [done|split; [lia|split; [lia|by left]]].
Qed.
Lemma scan_down_ok fuel m e lo j :
  holds m a (es p) N e -> 0 <= lo < j -> j <= N -> j - lo <= Z.of_nat fuel ->
  exists j', scan_down fuel m p (at_ lo) (at_ j) = Ok (at_ j') /\ lo <= j' < j /\
    (forall k, j' < k < j -> cmp p (e k) (e lo) > 0) /\ (j' = lo \/ cmp p (e j') (e lo) <= 0).
Proof.
  intros H Hlo. revert j Hlo. induction fuel as [|fuel IH]; intros j Hlo Hhi Hf; [lia|]. cbn [scan_down].
  replace (at_ j - es p) with (at_ (j - 1)) by lia.
  destruct (Z.gtb_spec (at_ (j - 1)) (at_ lo)) as [Hlt|Hge].
  - assert (lo < j - 1) by nia. rewrite (call_cmp_ok m e) by (done || lia). cbn [rbind].
    destruct (Z.gtb_spec (cmp p (e (j - 1)) (e lo)) 0) as [Hc|Hc].
    + destruct (IH (j - 1)) as (j' & Hs & Hj' & Hall & Hstop); [lia|lia|lia|].
      exists j'. split; [done|split; [lia|split; [|done]]].
      intros k Hk. destruct (Z.eq_dec k (j - 1)) as [->|]; [lia|apply Hall; lia].
    + exists (j - 1). split; [done|split; [lia|split; [lia|right; lia]]].
  - assert (j - 1 = lo) by nia. exists (j - 1). split; [done|split; [lia|split; [lia|by left]]].
Qed.

(** ** One partition *)

(** [e'] rearranges the elements of [e] with indices in [lo, lo + n). *)
Definition rearranged (e e' : Z -> list Z) (lo n : Z) : Prop :=
  (forall k, k < lo \/ lo + n <= k -> e' k = e k) /\ segment e' lo n ≡ₚ segment e lo n.
Definition split_at (e : Z -> list Z) (v : list Z) (lo j hi : Z) : Prop :=
  (forall k, lo < k <= j -> cmp p (e k) v <= 0) /\ (forall k, j < k < hi -> cmp p (e k) v >= 0).

Lemma rearranged_refl e lo n : rearranged e e lo n.
Proof. split; done. Qed.
Lemma rearranged_trans e1 e2 e3 lo n : rearranged e1 e2 lo n -> rearranged e2 e3 lo n -> rearranged e1 e3 lo n.
Proof. intros [H1 P1] [H2 P2]. split; [intros k Hk; by rewrite H2, H1|by rewrite P2]. Qed.
Lemma rearranged_exch e i j lo n :
  lo <= i < lo + n -> lo <= j < lo + n -> rearranged e (e ∘ exch i j) lo n.
Proof.
  intros Hi Hj. split; [|by apply segment_exch]. intros k Hk. simpl. unfold exch. case_tests; try lia; done.
Qed.
Lemma outside_trans m1 m2 m3 : outside m1 m2 -> outside m2 m3 -> outside m1 m3.
Proof. intros H1 H2 q Hq. by rewrite H2, H1. Qed.

Lemma partition_ok fuel n m e lo i j hi :
  holds m a (es p) N e -> 0 <= lo <= i -> i <= j -> j <= hi <= N -> i < hi -> lo < j ->
  j - i <= Z.of_nat fuel -> (0 < fuel)%nat -> hi - lo <= Z.of_nat n ->
  (forall k, lo < k <= i -> cmp p (e k) (e lo) <= 0) ->
  (forall k, j <= k < hi -> cmp p (e k) (e lo) >= 0) ->
  exists m' e' j', partition fuel m p (at_ lo) (at_ i) (at_ j) (at_ hi) n = Ok (m', at_ j') /\
    lo <= j' < hi /\ holds m' a (es p) N e' /\ outside m m' /\
    rearranged e e' (lo + 1) (hi - lo - 1) /\ split_at e' (e lo) lo j' hi.
Proof.
  revert m e i j. induction fuel as [|fuel IH]; intros m e i j H Hlo Hij Hj Hi Hlj Hf Hf0 Hn Hle Hge; [lia|].
  cbn [partition].
  destruct (scan_up_ok n m e lo i hi H) as (i' & -> & Hi' & Hup & Hus); [lia..|]. cbn [rbind].
  destruct (scan_down_ok n m e lo j H) as (j' & -> & Hj' & Hdn & Hds); [lia..|]. cbn [rbind].
  destruct (Z.ltb_spec (at_ j') (at_ i')) as [Hlt|Hnlt].
  - assert (j' < i') by nia. exists m, e, j'. split; [done|split; [lia|split; [done|split; [done|]]]].
    split; [apply rearranged_refl|split].
    + intros k Hk. destruct (Z.le_gt_cases k i); [apply Hle; lia|]. assert (cmp p (e k) (e lo) < 0) by (apply Hup; lia). lia.
    + intros k Hk. destruct (Z.le_gt_cases j k); [apply Hge; lia|]. assert (cmp p (e k) (e lo) > 0) by (apply Hdn; lia). lia.
  - assert (i' <= j') by nia.
    destruct (holds_swap m e i' j' H) as (m1 & -> & H1 & Ho1); [lia..|]. cbn [rbind].
    assert (forall k, k <> i' -> k <> j' -> (e ∘ exch i' j') k = e k) as Hsame.
    { intros k Hk1 Hk2. simpl. unfold exch. by case_tests. }
    assert ((e ∘ exch i' j') i' = e j') as Ei by (simpl; unfold exch; by case_tests).
    assert ((e ∘ exch i' j') j' = e i') as Ej by (simpl; unfold exch; case_tests; congruence).
    assert ((e ∘ exch i' j') lo = e lo) as El by (apply Hsame; lia).
    destruct (IH m1 (e ∘ exch i' j') i' j' H1) as (m2 & e2 & j2 & -> & Hj2 & H2 & Ho2 & Hr2 & Hs2); try lia.
    + intros k Hk. rewrite El. destruct (Z.eq_dec k i') as [->|].
      * rewrite Ei. destruct Hds; [lia|done].
      * rewrite Hsame by lia. destruct (Z.le_gt_cases k i); [apply Hle; lia|].
        assert (cmp p (e k) (e lo) < 0) by (apply Hup; lia). lia.
    + intros k Hk. rewrite El. destruct (Z.eq_dec k j') as [->|].
      * rewrite Ej. destruct Hus; [lia|done].
      * rewrite Hsame by lia. destruct (Z.le_gt_cases j k); [apply Hge; lia|].
        assert (cmp p (e k) (e lo) > 0) by (apply Hdn; lia). lia.
    + exists m2, e2, j2. rewrite El in Hs2. split; [done|split; [done|split; [done|split; [by eapply outside_trans|split; [|done]]]]].
      eapply rearranged_trans; [|exact Hr2]. apply rearranged_exch; lia.
Qed.

Lemma pivot_ok m e lo n :
  holds m a (es p) N e -> 0 <= lo -> 10 < n -> lo + n <= N ->
  exists k, pivot m (at_ lo) n p = Ok (at_ k) /\ lo <= k < lo + n.
Proof.
  intros H Hlo Hn HN. unfold pivot. set (t := n ÷ 6).
  assert (0 <= t /\ 6 * t <= n) as [Ht1 Ht2] by (subst t; Z.to_euclidean_division_equations; lia).
  replace (at_ lo + t * es p) with (at_ (lo + t)) by lia.
  replace (at_ (lo + t) + (t * es p + t * es p)) with (at_ (lo + 3 * t)) by lia.
  replace (at_ (lo + 3 * t) + (t * es p + t * es p)) with (at_ (lo + 5 * t)) by lia.
  cbv zeta. rewrite !(call_cmp_ok m e) by (done || lia). cbn [rbind].
  case_ifs; eexists; (split; [reflexivity|lia]).
Qed.

(** ** The recursion *)

Lemma rearranged_widen e e' lo1 n1 lo n :
  lo <= lo1 -> 0 <= n1 -> lo1 + n1 <= lo + n -> rearranged e e' lo1 n1 -> rearranged e e' lo n.
Proof.
  intros Hlo Hn1 Hn [Hout Hp]. split; [intros k Hk; apply Hout; lia|].
  replace n with ((lo1 - lo) + (n1 + (lo + n - lo1 - n1))) by lia. rewrite !segment_app by lia.
  replace (lo + (lo1 - lo)) with lo1 by lia. rewrite Hp.
  rewrite (segment_ext e e' lo (lo1 - lo)) by (intros k Hk; apply Hout; lia).
  by rewrite (segment_ext e e' (lo1 + n1)) by (intros k Hk; apply Hout; lia).
Qed.

(** A comparison function that orders the elements. *)
Record comparison (c : list Z -> list Z -> Z) : Prop := {
  comparison_swap x y : c x y < 0 <-> c y x > 0;
  comparison_trans x y z : c x y <= 0 -> c y z <= 0 -> c x z <= 0 }.
Definition sorted (e : Z -> list Z) (lo n : Z) : Prop :=
  forall i j, lo <= i <= j -> j < lo + n -> cmp p (e i) (e j) <= 0.

Lemma comparison_ge c x y : comparison c -> c x y >= 0 <-> c y x <= 0.
Proof. intros Hc. pose proof (comparison_swap c Hc x y). lia. Qed.

Lemma join_sorted e1 e2 lo j hi :
  comparison (cmp p) -> lo <= j < hi ->
  (forall k, lo <= k < j -> cmp p (e1 k) (e1 j) <= 0) -> (forall k, j < k < hi -> cmp p (e1 k) (e1 j) >= 0) ->
  segment e2 lo (j - lo) ≡ₚ segment e1 lo (j - lo) ->
  segment e2 (j + 1) (hi - j - 1) ≡ₚ segment e1 (j + 1) (hi - j - 1) -> e2 j = e1 j ->
  sorted e2 lo (j - lo) -> sorted e2 (j + 1) (hi - j - 1) -> sorted e2 lo (hi - lo).
Proof.
  intros Hc Hj Hle Hge Hl Hr Ej Sl Sr.
  pose proof (segment_perm_forall (fun x => cmp p x (e1 j) <= 0) _ _ _ _ Hl ltac:(intros; apply Hle; lia)) as Hle2.
  pose proof (segment_perm_forall (fun x => cmp p x (e1 j) >= 0) _ _ _ _ Hr ltac:(intros; apply Hge; lia)) as Hge2.
  simpl in Hle2, Hge2.
  assert (forall k, lo <= k <= j -> cmp p (e2 k) (e1 j) <= 0) as Hle3.
  { intros k Hk. destruct (Z.eq_dec k j) as [->|]; [|apply Hle2; lia].
    rewrite Ej. pose proof (comparison_swap _ Hc (e1 j) (e1 j)). lia. }
  assert (forall k, j <= k < hi -> cmp p (e1 j) (e2 k) <= 0) as Hge3.
  { intros k Hk. apply comparison_ge; [done|]. destruct (Z.eq_dec k j) as [->|]; [|apply Hge2; lia].
    rewrite Ej. pose proof (comparison_swap _ Hc (e1 j) (e1 j)). lia. }
  intros i k Hik Hk. destruct (Z.lt_ge_cases k j); [apply Sl; lia|].
  destruct (Z.lt_ge_cases j i); [apply Sr; lia|].
  apply (comparison_trans _ Hc _ (e1 j)); [apply Hle3; lia|apply Hge3; lia].
Qed.

(** The turn of the loop before the recursion. *)
Lemma qsorts_turn m e lo n k :
  holds m a (es p) N e -> 0 <= lo -> 1 < n -> lo + n <= N -> lo <= k < lo + n ->
  exists m1 m2 m3 e3 j,
    swap p m (at_ lo) (at_ k) (es p) = Ok m1 /\
    partition (Z.to_nat n) m1 p (at_ lo) (at_ lo) (at_ (lo + n)) (at_ (lo + n)) (Z.to_nat n) = Ok (m2, at_ j) /\
    swap p m2 (at_ lo) (at_ j) (es p) = Ok m3 /\ lo <= j < lo + n /\
    holds m3 a (es p) N e3 /\ outside m m3 /\ rearranged e e3 lo n /\
    (forall k, lo <= k < j -> cmp p (e3 k) (e3 j) <= 0) /\
    (forall k, j < k < lo + n -> cmp p (e3 k) (e3 j) >= 0).
Proof.
  intros H Hlo Hn HN Hk.
  destruct (holds_swap m e lo k H) as (m1 & Hm1 & H1 & Ho1); [lia..|]. set (e1 := e ∘ exch lo k) in *.
  destruct (partition_ok (Z.to_nat n) (Z.to_nat n) m1 e1 lo lo (lo + n) (lo + n) H1)
    as (m2 & e2 & j & Hm2 & Hj & H2 & Ho2 & Hr2 & Hs2); try lia.
  destruct (holds_swap m2 e2 lo j H2) as (m3 & Hm3 & H3 & Ho3); [lia..|]. set (e3 := e2 ∘ exch lo j) in *.
  exists m1, m2, m3, e3, j. split; [done|split; [done|split; [done|split; [lia|split; [done|split; [by eauto using outside_trans|split]]]]]].
  - eapply rearranged_trans; [by apply (rearranged_exch e lo k lo n); lia|]. fold e1.
    eapply rearranged_trans; [by apply (rearranged_widen _ _ (lo + 1) (lo + n - lo - 1)); [lia..|exact Hr2]|].
    apply rearranged_exch; lia.
  - assert (e2 lo = e1 lo) as El by (apply Hr2; lia). destruct Hs2 as [Hle Hge].
    assert (e3 j = e1 lo) as Ej by (unfold e3; simpl; unfold exch; case_tests; congruence).
    rewrite Ej. split; intros i Hi.
    + unfold e3; simpl; unfold exch. case_tests; try lia; apply Hle; lia.
    + unfold e3; simpl; unfold exch. case_tests; try lia. apply Hge. lia.
Qed.

Definition sorts (fuel : nat) : Prop := forall m e lo n,
  holds m a (es p) N e -> 0 <= lo -> lo + n <= N -> n <= Z.of_nat fuel ->
  exists m' e', qsorts fuel m (at_ lo) n p = Ok m' /\ holds m' a (es p) N e' /\ outside m m' /\
    rearranged e e' lo n /\ (comparison (cmp p) -> sorted e' lo n).

(** The two parts [s1] and [s2] around [j], in either order. *)
Lemma qsorts_both fuel m e lo n j s1 s2 :
  sorts fuel -> holds m a (es p) N e -> 0 <= lo -> lo + n <= N -> n <= Z.of_nat (S fuel) -> lo <= j < lo + n ->
  (forall k, lo <= k < j -> cmp p (e k) (e j) <= 0) -> (forall k, j < k < lo + n -> cmp p (e k) (e j) >= 0) ->
  let left := (lo, j - lo) in let right := (j + 1, lo + n - j - 1) in
  (s1 = left /\ s2 = right) \/ (s1 = right /\ s2 = left) ->
  exists m' e', (let* m := qsorts fuel m (at_ s1.1) s1.2 p in qsorts fuel m (at_ s2.1) s2.2 p) = Ok m' /\
    holds m' a (es p) N e' /\ outside m m' /\ rearranged e e' lo n /\ (comparison (cmp p) -> sorted e' lo n).
Proof.
  intros IH Hh Hlo HN Hf Hj Hle Hge left right Hs12.
  assert (lo <= s1.1 /\ 0 <= s1.2 /\ s1.1 + s1.2 <= lo + n /\ s1.2 < n) as (? & ? & ? & ?)
    by (destruct Hs12 as [[-> ->]|[-> ->]]; simpl; lia).
  assert (lo <= s2.1 /\ 0 <= s2.2 /\ s2.1 + s2.2 <= lo + n /\ s2.2 < n) as (? & ? & ? & ?)
    by (destruct Hs12 as [[-> ->]|[-> ->]]; simpl; lia).
  assert (s1.1 + s1.2 <= s2.1 \/ s2.1 + s2.2 <= s1.1) as Hdis
    by (destruct Hs12 as [[-> ->]|[-> ->]]; simpl; lia).
  destruct (IH m e s1.1 s1.2 Hh) as (m4 & e4 & -> & Hh4 & Ho4 & Hr4 & Hs4); [lia..|]. cbn [rbind].
  destruct (IH m4 e4 s2.1 s2.2 Hh4) as (m5 & e5 & -> & Hh5 & Ho5 & Hr5 & Hs5); [lia..|].
  exists m5, e5. split; [done|split; [done|split; [by eauto using outside_trans|split]]].
  { eapply rearranged_trans; (eapply rearranged_widen; [..|exact Hr4 || exact Hr5]; lia). }
  intros Hc. replace n with (lo + n - lo) by lia.
  assert (segment e5 s1.1 s1.2 = segment e4 s1.1 s1.2) as E1 by (apply segment_ext; intros; apply Hr5; lia).
  assert (segment e4 s2.1 s2.2 = segment e s2.1 s2.2) as E2 by (apply segment_ext; intros; apply Hr4; lia).
  assert (segment e5 s1.1 s1.2 ≡ₚ segment e s1.1 s1.2) as P1 by (rewrite E1; apply Hr4).
  assert (segment e5 s2.1 s2.2 ≡ₚ segment e s2.1 s2.2) as P2 by (rewrite <-E2; apply Hr5).
  assert (sorted e5 s1.1 s1.2) as S1.
  { intros i k' Hi Hk'. rewrite !(proj1 Hr5) by lia. by apply (Hs4 Hc). }
  assert (e5 j = e j) as Ej.
  { rewrite (proj1 Hr5), (proj1 Hr4); [done|..]; destruct Hs12 as [[-> ->]|[-> ->]]; simpl; lia. }
  destruct Hs12 as [[-> ->]|[-> ->]]; simpl in *; apply (join_sorted e e5 lo j (lo + n)); auto.
Qed.

Lemma qsorts_ok fuel : sorts fuel.
Proof.
  induction fuel as [|fuel IH]; intros m e lo n H Hlo HN Hf; cbn [qsorts].
  - assert (n >? 1 = false) as -> by lia. exists m, e. split; [done|split; [done|split; [done|split; [apply rearranged_refl|]]]].
    intros _ i j ? ?. lia.
  - destruct (Z.gtb_spec n 1) as [Hn|Hn].
    2:{ exists m, e. split; [done|split; [done|split; [done|split; [apply rearranged_refl|]]]].
        intros Hc i j Hij Hj. assert (i = j) as -> by lia. pose proof (comparison_swap _ Hc (e j) (e j)). lia. }
    assert (exists k, (if n >? 10 then pivot m (at_ lo) n p else Ok (at_ lo + Z.shiftr n 1 * es p)) = Ok (at_ k) /\
              lo <= k < lo + n) as (k & -> & Hk).
    { destruct (n >? 10) eqn:E; [by apply (pivot_ok m e); [done|lia..]|].
      exists (lo + n / 2). rewrite shiftr_div by lia. change (2 ^ 1) with 2. split; [f_equal; lia|zlia]. }
    cbn [rbind]. destruct (qsorts_turn m e lo n k H) as (m1 & m2 & m3 & e3 & j & -> & Hp & Hs & Hj & H3 & Ho3 & Hr3 & Hle & Hge);
      [lia..|]. cbn [rbind]. cbv zeta. replace (at_ lo + n * es p) with (at_ (lo + n)) by lia.
    rewrite Hp. cbn [rbind]. rewrite Hs. cbn [rbind].
    replace ((at_ j - at_ lo) ÷ es p) with (j - lo)
      by (replace (at_ j - at_ lo) with ((j - lo) * es p) by lia; by rewrite Z.quot_mul by lia).
    replace (at_ lo + (j - lo + 1) * es p) with (at_ (j + 1)) by lia.
    replace (n - (j - lo) - 1) with (lo + n - j - 1) by lia.
    pose proof (fun s1 s2 => qsorts_both fuel m3 e3 lo n j s1 s2 IH H3 Hlo HN ltac:(lia) Hj Hle Hge) as Hboth.
    destruct (j - lo >=? lo + n - j - 1).
    + destruct (Hboth (lo, j - lo) (j + 1, lo + n - j - 1)) as (m' & e' & Hm' & Hh' & Ho' & Hr' & Hs'); [by left|].
      exists m', e'. split; [exact Hm'|split; [done|split; [by eauto using outside_trans|split; [by eauto using rearranged_trans|done]]]].
    + destruct (Hboth (j + 1, lo + n - j - 1) (lo, j - lo)) as (m' & e' & Hm' & Hh' & Ho' & Hr' & Hs'); [by right|].
      exists m', e'. split; [exact Hm'|split; [done|split; [by eauto using outside_trans|split; [by eauto using rearranged_trans|done]]]].
Qed.
End array.

(** ** Properties *)

(** The swap function that [qsort] chooses fits the element size. *)
Lemma qsort_swap_ok va es :
  0 < es -> 0 <= va -> swap_ok (if negb (Z.lor va es mod 4 =? 0) then swapb else swapi) es.
Proof.
  intros Hes Hva. destruct (Z.eqb_spec (Z.lor va es mod 4) 0) as [E|]; [|by apply swapb_ok]. apply swapi_ok; [done|].
  apply Z.mod_divide; [done|]. change 4 with (2 ^ 2) in *. rewrite <-Z.land_ones in * by done.
  rewrite Z.land_lor_distr_l in E. by apply Z.lor_eq_0_iff in E as [_ ?].
Qed.

(** [qsort] on an array of [n] elements of any positive size, with any
    comparison function at all: it terminates, touches no cell outside the
    array, leaves the rest of the memory alone, and rearranges the elements. *)
Theorem qsort_permutes m va n es cmp e :
  0 < es -> 0 <= va -> holds m va es n e ->
  exists m' e', qsort m va n es cmp = Ok m' /\ holds m' va es n e' /\
    segment e' 0 n ≡ₚ segment e 0 n /\
    (forall q, q < va \/ va + n * es <= q -> m' !! q = m !! q).
Proof.
  intros Hes Hva H. unfold qsort. set (p := mkSort _ _ _).
  destruct (qsorts_ok p va n Hes (qsort_swap_ok va es Hes Hva) (Z.to_nat n) m e 0 n H) as (m' & e' & Hq & Hh & Ho & Hr & _);
    [lia..|]. rewrite Z.add_0_r in Hq. exists m', e'. split; [exact Hq|split; [exact Hh|split; [apply Hr|exact Ho]]].
Qed.

(** C6: when the comparison function orders the elements - it is
    antisymmetric in sign and transitive, ties allowed - the result is sorted. *)
Theorem qsort_sorts m va n es c e :
  0 < es -> 0 <= va -> holds m va es n e -> comparison c ->
  exists m' e', qsort m va n es c = Ok m' /\ holds m' va es n e' /\
    segment e' 0 n ≡ₚ segment e 0 n /\
    forall i j, 0 <= i <= j -> j < n -> c (e' i) (e' j) <= 0.
Proof.
  intros Hes Hva H Hc. unfold qsort. set (p := mkSort _ _ _).
  destruct (qsorts_ok p va n Hes (qsort_swap_ok va es Hes Hva) (Z.to_nat n) m e 0 n H) as (m' & e' & Hq & Hh & Ho & Hr & Hs);
    [lia..|]. rewrite Z.add_0_r in Hq. exists m', e'. split; [exact Hq|split; [exact Hh|split; [apply Hr|]]].
  exact (Hs Hc).
Qed.

(** *** Three elements of two bytes, compared by their first byte *)
Definition array_example : mem := list_to_map [(100, 3); (101, 0); (102, 1); (103, 0); (104, 2); (105, 0)].
Definition element_example (k : Z) : list Z := if k =? 0 then [3; 0] else if k =? 1 then [1; 0] else [2; 0].
Definition first_byte (x y : list Z) : Z := nth 0 x 0 - nth 0 y 0.
Lemma array_example_holds : holds array_example 100 2 3 element_example.
Proof. intros k Hk. assert (k = 0 \/ k = 1 \/ k = 2) as [-> | [-> | ->]] by lia; reflexivity. Qed.
Lemma first_byte_comparison : comparison first_byte.
Proof. unfold first_byte. split; lia. Qed.

Lemma qsort_permutes_witness : exists m' e',
    qsort array_example 100 3 2 (fun _ _ => 1) = Ok m' /\ holds m' 100 2 3 e' /\
    segment e' 0 3 ≡ₚ segment element_example 0 3 /\
    (forall q, q < 100 \/ 100 + 3 * 2 <= q -> m' !! q = array_example !! q).
Proof. apply (qsort_permutes array_example 100 3 2 (fun _ _ => 1)); [lia|lia|exact array_example_holds]. Defined.
Lemma qsort_sorts_witness : exists m' e',
    qsort array_example 100 3 2 first_byte = Ok m' /\ holds m' 100 2 3 e' /\
    segment e' 0 3 ≡ₚ segment element_example 0 3 /\
    forall i j, 0 <= i <= j -> j < 3 -> first_byte (e' i) (e' j) <= 0.
Proof.
  apply (qsort_sorts array_example 100 3 2 first_byte);
    [lia|lia|exact array_example_holds|exact first_byte_comparison].
Defined.
