(* ===== verification/Cstring.v ===== *)
(** * C strings: kernel/Libc/port str*.c, mem*.c, utf*.c, getfields.c

    The functions walk the byte memory of [Memory]; a pointer is an address,
    0 is [nil].  A loop that reads a new cell in every turn is given more turns
    than there are cells.  Characters are compared for equality, or with ASCII
    characters, or as [unsigned] after the same widening of both sides, so the
    signedness of [char] does not show. *)
From stdpp Require Import gmap.
From S2P Require Import Prelude Memory Rune.

(** ** Operations *)

Fixpoint strchr_end (fuel : nat) (m : mem) (s : Z) : result Z :=
  match fuel with
  | O => Loop
  | S fuel => let* b := get m s in if negb (b =? 0) then strchr_end fuel m (s + 1) else Ok s
  end.
Fixpoint strchr_loop (fuel : nat) (m : mem) (s c0 : Z) : result Z :=
  match fuel with
  | O => Loop
  | S fuel =>
      let* c1 := get m s in
      if c1 =? 0 then Ok 0
      else if c1 =? c0 then Ok s
      else strchr_loop fuel m (s + 1) c0
  end.
Definition strchr (m : mem) (s c : Z) : result Z :=
  if c =? 0 then strchr_end (turns m) m s else strchr_loop (turns m) m s (u8 c).
Definition strlen (m : mem) (s : Z) : result Z := let* q := strchr m s 0 in Ok (q - s).

(** The count [n] is the measure of these loops. *)
Fixpoint strncmp_loop (n : nat) (m : mem) (s1 s2 : Z) : result Z :=
  match n with
  | O => Ok 0
  | S n =>
      let* c1 := get m s1 in
      let* c2 := get m s2 in
      if negb (c1 =? c2) then if c1 >? c2 then Ok 1 else Ok (-1)
      else if c1 =? 0 then Ok 0
      else strncmp_loop n m (s1 + 1) (s2 + 1)
  end.
Definition strncmp (m : mem) (s1 s2 n : Z) : result Z := strncmp_loop (Z.to_nat n) m s1 s2.

Fixpoint memcmp_loop (n : nat) (m : mem) (s1 s2 : Z) : result Z :=
  match n with
  | O => Ok 0
  | S n =>
      let* c1 := get m s1 in
      let* c2 := get m s2 in
      if negb (c1 =? c2) then if c1 >? c2 then Ok 1 else Ok (-1)
      else memcmp_loop n m (s1 + 1) (s2 + 1)
  end.
Definition memcmp (m : mem) (a1 a2 n : Z) : result Z := memcmp_loop (Z.to_nat n) m a1 a2.

(** [while(++i < n) *s1++ = 0;] *)
Fixpoint strncpy_pad (n : nat) (m : mem) (s1 : Z) : result mem :=
  match n with
  | O => Ok m
  | S n => let* m := put m s1 0 in strncpy_pad n m (s1 + 1)
  end.
Fixpoint strncpy_loop (n : nat) (m : mem) (s1 s2 : Z) : result mem :=
  match n with
  | O => Ok m
  | S n =>
      let* b := get m s2 in
      let* m := put m s1 b in
      if b =? 0 then strncpy_pad n m (s1 + 1) else strncpy_loop n m (s1 + 1) (s2 + 1)
  end.
Definition strncpy (m : mem) (s1 s2 n : Z) : result (mem * Z) :=
  let* m := strncpy_loop (Z.to_nat n) m s1 s2 in Ok (m, s1).

(** The address after the copy of [c], or 0. *)
Fixpoint memccpy_loop (n : nat) (m : mem) (s1 s2 c : Z) : result (mem * Z) :=
  match n with
  | O => Ok (m, 0)
  | S n =>
      let* b := get m s2 in
      let* m := put m s1 b in
      if b =? c then Ok (m, s1 + 1) else memccpy_loop n m (s1 + 1) (s2 + 1) c
  end.
Definition memccpy (m : mem) (a1 a2 c n : Z) : result (mem * Z) :=
  memccpy_loop (Z.to_nat n) m a1 a2 (Z.land c 0xFF).

(** Back over continuation bytes, to the byte that is replaced by the NUL. *)
Fixpoint utfecpy_back (fuel : nat) (m : mem) (to end_ : Z) : result Z :=
  match fuel with
  | O => Loop
  | S fuel =>
      if end_ >? to then
        let end_ := end_ - 1 in
        let* b := get m end_ in
        if Z.land b 0xC0 =? 0x80 then utfecpy_back fuel m to end_ else Ok end_
      else Ok end_
  end.
Definition utfecpy (m : mem) (to e from : Z) : result (mem * Z) :=
  if to >=? e then Ok (m, to)
  else
    let* (m, end_) := memccpy m to from 0 (e - to) in
    if end_ =? 0 then
      let* end_ := utfecpy_back (S (Z.to_nat (e - to))) m to e in
      let* m := put m end_ 0 in
      Ok (m, end_)
    else Ok (m, end_ - 1).

(** The bytes that [chartorune] may look at. *)
Fixpoint window (n : nat) (m : mem) (p : Z) : list Z :=
  match n with
  | O => []
  | S n => match m !! p with Some b => b :: window n m (p + 1) | None => [] end
  end.
Definition chartorune_at (m : mem) (p : Z) : result (Z * nat) := chartorune (window UTFmax m p).

Fixpoint utflen_loop (fuel : nat) (m : mem) (s n : Z) : result Z :=
  match fuel with
  | O => Loop
  | S fuel =>
      let* c := get m s in
      if c <? Runeself then
        if c =? 0 then Ok n else utflen_loop fuel m (s + 1) (n + 1)
      else
        let* (_, k) := chartorune_at m s in
        utflen_loop fuel m (s + Z.of_nat k) (n + 1)
  end.
Definition utflen (m : mem) (s : Z) : result Z := utflen_loop (turns m) m s 0.

Fixpoint utfrune_loop (fuel : nat) (m : mem) (s c : Z) : result Z :=
  match fuel with
  | O => Loop
  | S fuel =>
      let* c1 := get m s in
      if c1 <? Runeself then
        if c1 =? 0 then Ok 0
        else if c1 =? c then Ok s
        else utfrune_loop fuel m (s + 1) c
      else
        let* (r, n) := chartorune_at m s in
        if r =? c then Ok s else utfrune_loop fuel m (s + Z.of_nat n) c
  end.
Definition utfrune (m : mem) (s c : Z) : result Z :=
  if c <? Runesync then strchr m s c else utfrune_loop (turns m) m s c.

(** The array [args] has its own store; an index outside it is a [Fault]. *)
Definition set_arg (args : list Z) (k v : Z) : result (list Z) :=
  if (0 <=? k) && (k <? Z.of_nat (length args)) then Ok (<[Z.to_nat k := v]> args) else Fault.
Fixpoint getfields_loop (fuel : nat) (m : mem) (args : list Z) (str narg max : Z) (mflag intok : bool) (set : Z)
    : result (mem * list Z * Z) :=
  match fuel with
  | O => Loop
  | S fuel =>
      let* (r, nr) := chartorune_at m str in
      let next := str + Z.of_nat nr in
      if r =? 0 then Ok (m, args, narg)
      else
        let* q := utfrune m set r in
        if negb (q =? 0) then
          if narg >=? max then Ok (m, args, narg)
          else
            let* m := put m str 0 in
            let* args := set_arg args narg next in
            getfields_loop fuel m args next (if mflag then narg else narg + 1) max mflag false set
        else
          getfields_loop fuel m args next (if negb intok && mflag then narg + 1 else narg) max mflag true set
  end.
Definition getfields (m : mem) (args : list Z) (str max : Z) (mflag : bool) (set : Z) : result (mem * list Z * Z) :=
  if max <=? 0 then Ok (m, args, 0)
  else
    let* args := set_arg args 0 str in
    getfields_loop (turns m) m args str (if mflag then 0 else 1) max mflag false set.

(** ** Specification *)

(** Lexicographic order, as -1, 0, 1. *)
Fixpoint lexcmp (l1 l2 : list Z) : Z :=
  match l1, l2 with
  | [], [] => 0
  | [], _ => -1
  | _, [] => 1
  | a :: l1, b :: l2 => if a =? b then lexcmp l1 l2 else if a >? b then 1 else -1
  end.
(** The address of the first character that satisfies [P], or 0. *)
Fixpoint find_at (P : Z -> bool) (p : Z) (s : list Z) : Z :=
  match s with
  | [] => 0
  | b :: s => if P b then p else find_at P (p + 1) s
  end.
Fixpoint find_rune_at (c p : Z) (rs : list (Z * list Z)) : Z :=
  match rs with
  | [] => 0
  | (r, bs) :: rs => if r =? c then p else find_rune_at c (p + Z.of_nat (length bs)) rs
  end.

(** ** Searching *)

Lemma cstr_get m p b s : cstr m p (b :: s) -> get m p = Ok b.
Proof. intros (H & _). by apply get_some. Qed.
Lemma cstr_get_end m p : cstr m p [] -> get m p = Ok 0.
Proof. apply get_some. Qed.
Lemma cstr_in_string m p s : cstr m p s -> Forall in_string s.
Proof. revert p. induction s as [|b s IH]; intros p; [constructor|]. intros (_ & Hb & H). constructor; [done|eauto]. Qed.

Lemma strchr_end_ok fuel m p s : cstr m p s -> (length s < fuel)%nat -> strchr_end fuel m p = Ok (p + Z.of_nat (length s)).
Proof.
  revert p s. induction fuel as [|fuel IH]; intros p s H Hf; [lia|]. cbn [strchr_end].
  destruct s as [|b s]; [rewrite (cstr_get_end m p H); cbn; f_equal; lia|].
  rewrite (cstr_get m p b s H). cbn [rbind]. destruct H as (_ & Hb & H). assert (b =? 0 = false) as -> by lia. cbn [negb].
  rewrite (IH _ s H); [f_equal|]; simpl length in *; lia.
Qed.
Lemma strchr_loop_ok fuel m p s c :
  cstr m p s -> (length s < fuel)%nat -> strchr_loop fuel m p c = Ok (find_at (fun b => b =? c) p s).
Proof.
  revert p s. induction fuel as [|fuel IH]; intros p s H Hf; [lia|]. cbn [strchr_loop].
  destruct s as [|b s]; [by rewrite (cstr_get_end m p H)|].
  rewrite (cstr_get m p b s H). cbn [rbind find_at]. destruct H as (_ & Hb & H). assert (b =? 0 = false) as -> by lia.
  destruct (b =? c); [done|]. apply IH; [done|]. simpl length in *. lia.
Qed.
Lemma strchr_ok m p s c :
  cstr m p s -> strchr m p c = Ok (if c =? 0 then p + Z.of_nat (length s) else find_at (fun b => b =? u8 c) p s).
Proof.
  intros H. pose proof (cstr_turns m p s H). unfold strchr.
  destruct (c =? 0); [by apply strchr_end_ok|by apply strchr_loop_ok].
Qed.

(** ** Runes in memory *)

Lemma window_cstr m p s : cstr m p s -> exists rest, window UTFmax m p = take UTFmax (s ++ 0 :: rest).
Proof.
  assert (forall n p s, cstr m p s -> exists rest, window n m p = take n (s ++ 0 :: rest)) as H; [|by apply H].
  clear. induction n as [|n IH]; intros p s H; [by exists []|]. cbn [window].
  destruct s as [|b s]; cbn [cstr app] in *.
  - rewrite H. exists (window n m (p + 1)). rewrite firstn_cons. f_equal. symmetry. apply take_ge.
    clear. generalize (p + 1). induction n as [|n IH]; intros q; simpl; [lia|]. destruct (m !! q); simpl; [|lia].
    specialize (IH (q + 1)). lia.
  - destruct H as (Hb & _ & H). rewrite Hb. destruct (IH (p + 1) s H) as (rest & E). exists rest. by rewrite E.
Qed.
Lemma window_bytes (m : mem) p : map_Forall (fun _ b => is_byte b) m -> Forall is_byte (window UTFmax m p).
Proof.
  intros Hm. generalize UTFmax. intros n. revert p. induction n as [|n IH]; intros p; cbn [window]; [constructor|].
  destruct (m !! p) as [b|] eqn:E; [|constructor]. constructor; [by apply (Hm p)|apply IH].
Qed.
Definition bytes (m : mem) : Prop := map_Forall (fun _ b => is_byte b) m.
Lemma chartorune_at_ok m p s : bytes m -> cstr m p s -> chartorune_at m p = chartorune (s ++ [0]).
Proof.
  intros Hm H. pose proof (window_bytes m p Hm) as Hw. unfold chartorune_at.
  pose proof (in_string_bytes s (cstr_in_string m p s H)) as Hs.
  assert (Forall is_byte (s ++ [0])) as Hs0 by (apply Forall_app; split; [done|repeat constructor; unfold is_byte; lia]).
  rewrite (chartorune_decode _ Hw), (chartorune_decode _ Hs0).
  destruct (window_cstr m p s H) as (rest & Ew). rewrite Ew, <-(decode_nul s rest).
  assert (exists c, (s ++ 0 :: rest) !! 0%nat = Some c) as [c Hc] by (destruct s; simpl; eauto).
  symmetry. apply (decode_local c); [done|]. rewrite take_take. f_equal. unfold need. unfold UTFmax. case_ifs; lia.
Qed.
Lemma chartorune_at_end m p : bytes m -> cstr m p [] -> chartorune_at m p = Ok (0, 1%nat).
Proof. intros Hm H. by rewrite (chartorune_at_ok m p [] Hm H). Qed.
(** The next rune of a string, and the rest of the string. *)
Lemma chartorune_next m p s :
  bytes m -> cstr m p s -> s <> [] ->
  exists r n, chartorune_at m p = Ok (r, n) /\ chartorune (s ++ [0]) = Ok (r, n) /\ (1 <= n <= length s)%nat /\ r <> 0 /\
    cstr m (p + Z.of_nat n) (drop n s).
Proof.
  intros Hm H Hne. destruct (chartorune_string s (cstr_in_string m p s H) Hne) as (r & n & Hc & Hn & Hr).
  exists r, n. rewrite (chartorune_at_ok m p s Hm H). split; [done|split; [done|split; [done|split; [done|]]]].
  rewrite <-(take_drop n s) in H. apply cstr_suffix in H. by rewrite length_take_le in H by lia.
Qed.

Lemma utflen_loop_ok fuel m p s n :
  bytes m -> cstr m p s -> (length s < fuel)%nat -> utflen_loop fuel m p n = Ok (n + Z.of_nat (length (runes s))).
Proof.
  intros Hm. revert p s n. induction fuel as [|fuel IH]; intros p s n H Hf; [lia|]. cbn [utflen_loop].
  destruct s as [|b s]; [rewrite (cstr_get_end m p H); cbn; f_equal; lia|].
  pose proof (cstr_in_string m p _ H) as Hs.
  rewrite (cstr_get m p b s H). cbn [rbind]. change Runeself with 0x80. destruct (b <? 0x80) eqn:E.
  - rewrite (runes_step (b :: s) b 1) by (done || apply chartorune_ascii; lia).
    destruct H as (_ & Hb & H). assert (b =? 0 = false) as -> by lia. rewrite (IH _ s) by (done || simpl in *; lia).
    f_equal. change (drop 1 (b :: s)) with s. cbn [length]. lia.
  - destruct (chartorune_next m p _ Hm H) as (r & k & -> & Hc & Hk & _ & H'); [done|]. cbn [rbind].
    rewrite (runes_step (b :: s) r k) by done. rewrite (IH _ _ _ H') by (rewrite length_drop; simpl in *; lia).
    f_equal. cbn [length]. lia.
Qed.
Lemma utfrune_loop_ok fuel m p s c :
  bytes m -> cstr m p s -> (length s < fuel)%nat -> 0x80 <= c ->
  utfrune_loop fuel m p c = Ok (find_rune_at c p (runes s)).
Proof.
  intros Hm. revert p s. induction fuel as [|fuel IH]; intros p s H Hf Hc; [lia|]. cbn [utfrune_loop].
  destruct s as [|b s]; [by rewrite (cstr_get_end m p H)|].
  pose proof (cstr_in_string m p _ H) as Hs.
  rewrite (cstr_get m p b s H). cbn [rbind]. change Runeself with 0x80. destruct (b <? 0x80) eqn:E.
  - rewrite (runes_step (b :: s) b 1) by (done || apply chartorune_ascii; lia).
    destruct H as (_ & Hb & H). assert (b =? 0 = false) as -> by lia. assert (b =? c = false) as E2 by lia.
    rewrite E2. rewrite (IH _ s) by (done || simpl in *; lia). cbn [find_rune_at take drop length]. rewrite E2. done.
  - destruct (chartorune_next m p _ Hm H) as (r & k & -> & Hck & Hk & _ & H'); [done|]. cbn [rbind].
    rewrite (runes_step (b :: s) r k) by done. cbn [find_rune_at]. destruct (r =? c); [done|].
    rewrite (IH _ _ H') by (done || rewrite length_drop; simpl in *; lia). by rewrite length_take_le by lia.
Qed.
Lemma find_at_app P p s1 s2 :
  Forall (fun b => P b = false) s1 -> find_at P p (s1 ++ s2) = find_at P (p + Z.of_nat (length s1)) s2.
Proof.
  intros H. revert p. induction H as [|b s1 Hb _ IH]; intros p; cbn [app find_at length]; [by rewrite Z.add_0_r|].
  rewrite Hb, IH. f_equal. lia.
Qed.
(** Below [Runesync] the bytes are searched; they are the runes. *)
Lemma find_ascii c p s :
  Forall in_string s -> 0 < c < 0x80 -> find_at (fun b => b =? c) p s = find_rune_at c p (runes s).
Proof.
  intros Hs Hc. revert s Hs p. apply (runes_ind (fun s => forall p, find_at _ p s = find_rune_at c p (runes s))); [done|].
  intros s r n Hs Hne Hr Hn _ IH p. rewrite (runes_step s r n) by done. cbn [find_rune_at].
  destruct s as [|b s]; [done|]. pose proof (Forall_inv Hs) as Hb. cbn [app] in Hr. destruct (Z.ltb_spec b 0x80) as [Hlt|Hge].
  - rewrite (chartorune_ascii b _ Hlt) in Hr. injection Hr as <- <-. cbn [find_at]. destruct (b =? c); [done|]. apply IH.
  - apply (chartorune_high b (s ++ [0])) in Hr as [Hr Hh]; [|constructor; [unfold is_byte, in_string in *; lia|]|done].
    2:{ apply Forall_app. split; [by apply in_string_bytes, Forall_inv_tail in Hs|]. repeat constructor; unfold is_byte; lia. }
    assert (r =? c = false) as -> by lia. rewrite <-IH, length_take_le by lia.
    rewrite <-(take_drop n (b :: s)) at 1. rewrite find_at_app.
    + by rewrite length_take_le by lia.
    + change (b :: s ++ [0]) with ((b :: s) ++ [0]) in Hh. rewrite take_app_le in Hh by lia.
      eapply Forall_impl; [exact Hh|]. simpl. lia.
Qed.

(** ** Comparing *)

Lemma memcmp_loop_ok m p q l1 l2 :
  bytes_at m p l1 -> bytes_at m q l2 -> length l1 = length l2 -> memcmp_loop (length l1) m p q = Ok (lexcmp l1 l2).
Proof.
  revert p q l2. induction l1 as [|a l1 IH]; intros p q [|b l2]; try done. cbn [bytes_at memcmp_loop length lexcmp].
  intros [Ha H1] [Hb H2] [= Hl]. rewrite (get_some _ _ _ Ha), (get_some _ _ _ Hb). cbn [rbind].
  destruct (a =? b); cbn [negb]; [by apply IH|by destruct (a >? b)].
Qed.
Lemma strncmp_loop_ok n m p q s1 s2 :
  cstr m p s1 -> cstr m q s2 -> strncmp_loop n m p q = Ok (lexcmp (take n (s1 ++ [0])) (take n (s2 ++ [0]))).
Proof.
  revert p q s1 s2. induction n as [|n IH]; intros p q s1 s2 H1 H2; [done|]. cbn [strncmp_loop].
  assert (lexcmp (take n []) (take n []) = 0) as Hnil by (by rewrite take_nil).
  destruct s1 as [|a s1], s2 as [|b s2];
    rewrite ?(cstr_get_end _ _ H1), ?(cstr_get_end _ _ H2), ?(cstr_get _ _ _ _ H1), ?(cstr_get _ _ _ _ H2);
    cbn [rbind app]; rewrite !firstn_cons; cbn [lexcmp]; try (destruct H1 as (_ & Ha & H1)); try (destruct H2 as (_ & Hb & H2)).
  - rewrite Z.eqb_refl, Hnil. done.
  - destruct (Z.eqb_spec 0 b); [lia|]. cbn [negb]. by destruct (0 >? b).
  - destruct (Z.eqb_spec a 0); [lia|]. cbn [negb]. by destruct (a >? 0).
  - assert (a =? 0 = false) as Ea by lia. destruct (a =? b) eqn:E; cbn [negb]; [|by destruct (a >? b)].
    rewrite Ea. by apply IH.
Qed.
Lemma lexcmp_eq l1 l2 : lexcmp l1 l2 = 0 <-> l1 = l2.
Proof.
  revert l2. induction l1 as [|a l1 IH]; intros [|b l2]; cbn; try done.
  destruct (Z.eqb_spec a b) as [->|Hne]; [rewrite IH; naive_solver|]. destruct (a >? b); naive_solver.
Qed.

(** ** Copying *)

Lemma strncpy_pad_ok n m p : mapped m p (Z.of_nat n) -> exists m', strncpy_pad n m p = Ok m' /\ written m m' p (replicate n 0).
Proof.
  revert m p. induction n as [|n IH]; intros m p Hm; [by exists m|]. cbn [strncpy_pad].
  destruct (put_mapped m p 0 _ Hm) as [-> Hm']; [lia|]. cbn [rbind].
  destruct (IH (<[p := 0]> m) (p + 1)) as (m' & -> & Hw); [by replace (Z.of_nat n) with (Z.of_nat (S n) - 1) by lia|].
  exists m'. split; [done|]. by apply written_cons.
Qed.
Lemma strncpy_loop_ok n m p q s :
  mapped m p (Z.of_nat n) -> cstr m q s -> (p + Z.of_nat n <= q \/ q + Z.of_nat (length s) + 1 <= p) ->
  exists m', strncpy_loop n m p q = Ok m' /\ written m m' p (take n (s ++ replicate n 0)).
Proof.
  revert m p q s. induction n as [|n IH]; intros m p q s Hm Hs Hd; [by exists m|]. cbn [strncpy_loop].
  destruct s as [|b s].
  - rewrite (cstr_get_end _ _ Hs). cbn [rbind]. destruct (put_mapped m p 0 _ Hm) as [-> Hm']; [lia|]. cbn [rbind Z.eqb].
    destruct (strncpy_pad_ok n (<[p := 0]> m) (p + 1)) as (m' & -> & Hw); [by replace (Z.of_nat n) with (Z.of_nat (S n) - 1) by lia|].
    exists m'. split; [done|]. rewrite app_nil_l, take_ge by (rewrite length_replicate; lia). by apply written_cons.
  - rewrite (cstr_get _ _ _ _ Hs). cbn [rbind length] in *. destruct (put_mapped m p b _ Hm) as [-> Hm']; [lia|]. cbn [rbind].
    destruct Hs as (_ & Hb & Hs). assert (b =? 0 = false) as -> by lia.
    destruct (IH (<[p := b]> m) (p + 1) (q + 1) s) as (m' & -> & Hw).
    + by replace (Z.of_nat n) with (Z.of_nat (S n) - 1) by lia.
    + apply (cstr_frame m); [done|]. apply insert_same_between. lia.
    + lia.
    + exists m'. split; [done|].
      change (take (S n) ((b :: s) ++ replicate (S n) 0)) with (b :: take n (s ++ replicate (S n) 0)). apply written_cons.
      replace (take n (s ++ replicate (S n) 0)) with (take n (s ++ replicate n 0)); [done|].
      rewrite replicate_S_end, app_assoc. symmetry. apply take_app_le. rewrite length_app, length_replicate. lia.
Qed.

(** What [memccpy] copies of [l], and whether it found [c]. *)
Fixpoint until (c : Z) (l : list Z) : list Z * bool :=
  match l with
  | [] => ([], false)
  | b :: l => if b =? c then ([b], true) else ((b :: (until c l).1), (until c l).2)
  end.
Lemma memccpy_loop_ok n m p q c l :
  mapped m p (Z.of_nat n) -> bytes_at m q l -> (p + Z.of_nat n <= q \/ q + Z.of_nat (length l) <= p) ->
  ((n <= length l)%nat \/ (until c l).2 = true) ->
  let u := until c (take n l) in
  exists m', memccpy_loop n m p q c = Ok (m', if u.2 then p + Z.of_nat (length u.1) else 0) /\ written m m' p u.1.
Proof.
  revert m p q l. induction n as [|n IH]; intros m p q l Hm Hl Hd Hn; [by exists m|]. cbn [memccpy_loop].
  destruct l as [|b l]; [cbn in Hn; destruct Hn; [lia|done]|]. destruct Hl as [Hb Hl]. rewrite (get_some _ _ _ Hb). cbn [rbind].
  destruct (put_mapped m p b _ Hm) as [-> Hm']; [lia|]. cbn [rbind]. rewrite firstn_cons. cbn [until length] in *.
  destruct (b =? c); [by exists (<[p := b]> m); split; [done|apply written_cons]|].
  destruct (IH (<[p := b]> m) (p + 1) (q + 1) l) as (m' & -> & Hw).
  - by replace (Z.of_nat n) with (Z.of_nat (S n) - 1) by lia.
  - apply (bytes_at_frame m); [done|]. apply insert_same_between. lia.
  - lia.
  - destruct Hn as [Hn|Hn]; [left; lia|by right].
  - exists m'. split; [|by apply written_cons]. cbn [fst snd length]. destruct (until c (take n l)).2; do 2 f_equal. lia.
Qed.

(** ** [utfecpy] *)

Definition is_cont (b : Z) : bool := Z.land b 0xC0 =? 0x80.
Lemma is_cont_range b : is_byte b -> is_cont b = (0x80 <=? b) && (b <? 0xC0).
Proof.
  intros Hb. unfold is_byte in Hb.
  assert (forallb (fun n => Bool.eqb (is_cont (Z.of_nat n)) ((0x80 <=? Z.of_nat n) && (Z.of_nat n <? 0xC0))) (seq 0 256) = true) as H by done.
  rewrite forallb_forall in H. specialize (H (Z.to_nat b)). rewrite Z2Nat.id in H by lia.
  apply Bool.eqb_prop, H. apply in_seq. lia.
Qed.
Lemma utf8_tail c k b : scalar c -> utf8 c !! S k = Some b -> is_cont b = true.
Proof.
  intros Hc Hb. assert (exists x, b = cont x) as [x ->].
  { unfold utf8 in Hb. destruct (c <? 0x80); [done|].
    destruct (c <? 0x800); [|destruct (c <? 0x10000)]; destruct k as [|[|[|k]]]; simpl in Hb; try done;
      injection Hb as <-; eauto. }
  rewrite is_cont_range by apply cont_byte. unfold cont. zlia.
Qed.
(** Cutting a string of runes at a byte that is no continuation. *)
Lemma cut_between cs k :
  Forall scalar cs -> (k = 0%nat \/ exists b, concat (map utf8 cs) !! k = Some b /\ is_cont b = false) ->
  exists i, take k (concat (map utf8 cs)) = concat (map utf8 (take i cs)).
Proof.
  intros Hcs. revert k. induction Hcs as [|c cs Hc Hcs IH]; intros k Hk; [exists 0%nat; cbn; apply take_nil|].
  destruct k as [|k]; [by exists 0%nat|]. destruct Hk as [?|(b & Hb & Hnc)]; [done|]. cbn [map concat] in *.
  destruct (decide (S k < length (utf8 c))%nat) as [Hlt|Hge].
  - rewrite lookup_app_l in Hb by done. by rewrite (utf8_tail c k b Hc Hb) in Hnc.
  - destruct (IH (S k - length (utf8 c))%nat) as (i & Hi).
    + rewrite lookup_app_r in Hb by lia. right. eauto.
    + exists (S i). cbn [take map concat]. rewrite <-Hi. rewrite take_app_ge by lia. done.
Qed.
Lemma utfecpy_back_ok fuel m to t :
  bytes_at m to t -> (length t < fuel)%nat -> t <> [] ->
  exists k, utfecpy_back fuel m to (to + Z.of_nat (length t)) = Ok (to + Z.of_nat k) /\ (k < length t)%nat /\
    (k = 0%nat \/ exists b, t !! k = Some b /\ is_cont b = false).
Proof.
  revert fuel. induction t as [|b t IH] using rev_ind; intros fuel Ht Hf Hne; [done|].
  apply bytes_at_app in Ht as [Ht [Hb _]]. rewrite length_app in *. cbn [length] in *.
  destruct fuel as [|fuel]; [lia|]. cbn [utfecpy_back].
  assert (to + Z.of_nat (length t + 1) >? to = true) as -> by (apply Z.gtb_lt; lia).
  replace (to + Z.of_nat (length t + 1) - 1) with (to + Z.of_nat (length t)) by lia.
  rewrite (get_some _ _ _ Hb). cbn [rbind]. fold (is_cont b). destruct (is_cont b) eqn:E.
  - destruct t as [|b' t'] eqn:Et.
    + exists 0%nat. split; [|split; [lia|by left]]. destruct fuel as [|fuel]; [simpl in Hf; lia|]. cbn [utfecpy_back length].
      assert (to + Z.of_nat 0 >? to = false) as -> by (rewrite Z.gtb_ltb; apply Z.ltb_ge; lia). done.
    + rewrite <-Et in *. destruct (IH fuel Ht) as (k & Hk1 & Hk2 & Hk3); [lia|by rewrite Et|].
      exists k. split; [done|split; [lia|]]. destruct Hk3 as [?|(b2 & Hb2 & ?)]; [by left|right].
      exists b2. by rewrite lookup_app_l by lia.
  - exists (length t). split; [done|split; [lia|right]]. exists b. by rewrite lookup_app_r, Nat.sub_diag by lia.
Qed.

Lemma until_string n s :
  Forall in_string s ->
  until 0 (take n (s ++ [0])) = if (length s <? n)%nat then (s ++ [0], true) else (take n s, false).
Proof.
  intros Hs. revert n. induction Hs as [|b s Hb _ IH]; intros n; destruct n as [|n]; try done.
  cbn [app length]. rewrite firstn_cons. cbn [until]. unfold in_string in Hb. assert (b =? 0 = false) as -> by lia.
  rewrite IH. change (S (length s) <? S n)%nat with (length s <? n)%nat. by destruct (length s <? n)%nat.
Qed.
Lemma cstr_prefix m p s k :
  Forall in_string s -> (k <= length s)%nat -> bytes_at m p (take k s) -> m !! (p + Z.of_nat k) = Some 0 -> cstr m p (take k s).
Proof.
  intros Hs Hk Hb H0. apply bytes_at_cstr; [by apply Forall_take|]. apply bytes_at_app. split; [done|].
  rewrite length_take_le by done. by split.
Qed.

Lemma utfecpy_ok m to e from s :
  0 <= to < e -> mapped m to (e - to) -> cstr m from s -> (e <= from \/ from + Z.of_nat (length s) + 1 <= to) ->
  exists m' k, utfecpy m to e from = Ok (m', to + Z.of_nat k) /\ cstr m' to (take k s) /\ (k <= length s)%nat /\
    Z.of_nat k < e - to /\ (forall q, q < to \/ e <= q -> m' !! q = m !! q) /\
    (k = length s \/ (e - to <= Z.of_nat (length s) /\ (k = 0%nat \/ exists b, s !! k = Some b /\ is_cont b = false))).
Proof.
  intros Hto Hm Hs Hd. pose proof (cstr_in_string m from s Hs) as Hin.
  unfold utfecpy. assert (to >=? e = false) as -> by lia. unfold memccpy. change (Z.land 0 255) with 0.
  set (n := Z.to_nat (e - to)). assert (Z.of_nat n = e - to) as Hn by lia.
  destruct (memccpy_loop_ok n m to from 0 (s ++ [0])) as (m1 & -> & Hw).
  - by rewrite Hn.
  - by apply cstr_bytes_at.
  - rewrite length_app. simpl. lia.
  - destruct (Nat.le_gt_cases n (length s)); [left; rewrite length_app; lia|right].
    rewrite <-(take_ge (s ++ [0]) (S n)) by (rewrite length_app; simpl; lia). rewrite until_string by done.
    by assert ((length s <? S n)%nat = true) as -> by (apply Nat.ltb_lt; lia).
  - cbn [rbind]. rewrite until_string in Hw |- * by done. destruct (Nat.ltb_spec (length s) n) as [Hlt|Hge]; cbn [fst snd] in *.
    + rewrite length_app. cbn [length]. assert (to + Z.of_nat (length s + 1) =? 0 = false) as -> by (apply Z.eqb_neq; lia).
      exists m1, (length s). rewrite take_ge by done. destruct Hw as [Hw1 Hw2]. rewrite length_app in Hw2. simpl in Hw2.
      split; [do 2 f_equal; lia|]. split; [by apply bytes_at_cstr|]. split; [done|split; [lia|split; [|by left]]].
      intros q Hq. apply Hw2. lia.
    + cbn [Z.eqb]. destruct Hw as [Hw1 Hw2]. rewrite length_take_le in Hw2 by done.
      destruct (utfecpy_back_ok (S n) m1 to (take n s) Hw1) as (k & Hk & Hkn & Hkc).
      { rewrite length_take_le by done. lia. }
      { destruct s, n; try done; simpl in *; lia. }
      rewrite length_take_le in Hk, Hkn by done. replace (to + Z.of_nat n) with e in Hk by lia. rewrite Hk. cbn [rbind].
      rewrite put_some; [cbn [rbind]|apply (cstr_mapped_at m1 to (take n s)); [done|rewrite length_take_le by done; lia]].
      exists (<[to + Z.of_nat k := 0]> m1), k. split; [done|]. split; [|split; [lia|split; [lia|split]]].
      * apply cstr_prefix; [done|lia| |apply lookup_insert_eq].
        apply (bytes_at_frame m1); [|apply insert_same_between; rewrite length_take_le by lia; lia].
        rewrite <-(take_drop k (take n s)), take_take in Hw1. apply bytes_at_app in Hw1 as [Hw1 _].
        by rewrite Nat.min_l in Hw1 by lia.
      * intros q Hq. rewrite lookup_insert_ne by lia. apply Hw2. lia.
      * right. split; [lia|]. destruct Hkc as [?|(b & Hb & ?)]; [by left|right]. exists b.
        rewrite lookup_take_lt in Hb by done. done.
Qed.

(** ** [getfields] *)

Definition is_sep (seps : list Z) (r : Z) : bool := existsb (fun x => x.1 =? r) (runes seps).
(** The fields of a list of runes.  [k] more fields may begin after the current
    one, whose bytes so far are [cur]; with [mflag] a field begins with its
    first character ([intok]), so that separators do not delimit empty ones. *)
Fixpoint fields (seps : list Z) (mflag intok : bool) (k : nat) (cur : list Z) (rs : list (Z * list Z)) : list (list Z) :=
  match rs with
  | [] => if mflag && negb intok then [] else [cur]
  | (r, bs) :: rs' =>
      if is_sep seps r then
        if mflag && negb intok then fields seps mflag false k [] rs'
        else match k with
             | O => [cur ++ concat rs.*2]
             | S k => cur :: fields seps mflag false k [] rs'
             end
      else fields seps mflag true k (cur ++ bs) rs'
  end.

Lemma find_rune_nonzero c p rs : 0 < p -> negb (find_rune_at c p rs =? 0) = existsb (fun x => x.1 =? c) rs.
Proof.
  revert p. induction rs as [|[r bs] rs IH]; intros p Hp; cbn [find_rune_at existsb]; [done|].
  cbn [fst]. destruct (r =? c); cbn [orb]; [by assert (p =? 0 = false) as -> by lia|]. apply IH. lia.
Qed.
Lemma utfrune_ok m p s c :
  bytes m -> cstr m p s -> 0 < c -> utfrune m p c = Ok (find_rune_at c p (runes s)).
Proof.
  intros Hm H Hc. unfold utfrune. change Runesync with 0x80. destruct (Z.ltb_spec c 0x80).
  - rewrite (strchr_ok m p s c H). assert (c =? 0 = false) as -> by lia.
    assert (u8 c = c) as -> by (unfold u8; apply Z.mod_small; lia).
    f_equal. apply find_ascii; [by eapply cstr_in_string|lia].
  - apply utfrune_loop_ok; try done. by eapply cstr_turns.
Qed.
Lemma bytes_insert m p b : bytes m -> is_byte b -> bytes (<[p := b]> m).
Proof. intros H Hb. by apply map_Forall_insert_2. Qed.
Lemma chartorune_pos m p s r n :
  bytes m -> cstr m p s -> s <> [] -> chartorune_at m p = Ok (r, n) -> 0 < r.
Proof.
  intros Hm H Hne. rewrite (chartorune_at_ok m p s Hm H). intros Hc.
  pose proof (cstr_in_string m p s H) as Hs. destruct (chartorune_string s Hs Hne) as (r' & n' & Hc' & _ & Hr).
  assert (r' = r) as -> by congruence. assert (Forall is_byte (s ++ [0])) as Hb.
  { apply Forall_app. split; [by apply in_string_bytes|]. repeat constructor; unfold is_byte; lia. }
  rewrite (chartorune_decode _ Hb) in Hc. destruct (decode_sound _ _ _ Hb Hc) as [([? _] & _)|(-> & _)]; [lia|done].
Qed.

Lemma set_arg_ok args (n : nat) v : (n < length args)%nat -> set_arg args (Z.of_nat n) v = Ok (<[n := v]> args).
Proof.
  intros Hn. unfold set_arg. assert ((0 <=? Z.of_nat n) && (Z.of_nat n <? Z.of_nat (length args)) = true) as ->.
  { apply andb_true_iff. split; [apply Z.leb_le|apply Z.ltb_lt]; lia. }
  by rewrite Nat2Z.id.
Qed.

Section getfields.
Variables (set max : Z) (mflag : bool) (seps : list Z).
Hypothesis set_pos : 0 < set.

(** [n] is the number of fields done, and [start] the pointer in slot [n]. *)
Lemma getfields_loop_ok fuel m args p s n cur intok :
  bytes m -> cstr m p s -> cstr m set seps ->
  (p + Z.of_nat (length s) < set \/ set + Z.of_nat (length seps) < p - Z.of_nat (length cur)) ->
  bytes_at m (p - Z.of_nat (length cur)) cur -> Forall in_string cur -> (mflag && negb intok = true -> cur = []) ->
  args !! n = Some (p - Z.of_nat (length cur)) -> Z.of_nat n < max -> max <= Z.of_nat (length args) ->
  (length s < fuel)%nat ->
  let fs := fields seps mflag intok (Z.to_nat (max - 1 - Z.of_nat n)) cur (runes s) in
  exists m' args',
    getfields_loop fuel m args p (Z.of_nat n + if mflag && negb intok then 0 else 1) max mflag intok set
      = Ok (m', args', Z.of_nat (n + length fs)) /\
    Z.of_nat (n + length fs) <= max /\ length args' = length args /\
    (forall i, (i < n)%nat -> args' !! i = args !! i) /\
    (forall i f, fs !! i = Some f -> exists q, args' !! (n + i)%nat = Some q /\ cstr m' q f) /\
    (forall q, q < p - Z.of_nat (length cur) \/ p + Z.of_nat (length s) < q -> m' !! q = m !! q).
Proof.
  revert m args p s n cur intok. induction fuel as [|fuel IH]; intros m args p s n cur intok
    Hm Hs Hsep Hd Hcur Hcs Hpend Harg Hn Hmax Hf; [lia|]. cbn [getfields_loop].
  set (start := p - Z.of_nat (length cur)) in *.
  assert (cstr m start (cur ++ s)) as Hall.
  { apply bytes_at_cstr; [apply Forall_app; split; [done|by eapply cstr_in_string]|].
    rewrite <-app_assoc. apply bytes_at_app. split; [done|].
    replace (start + Z.of_nat (length cur)) with p by (unfold start; lia). by apply cstr_bytes_at. }
  destruct s as [|b s].
  { rewrite (chartorune_at_end m p Hm Hs). cbn [rbind Z.eqb]. change (runes []) with (@nil (Z * list Z)). cbn [fields].
    rewrite app_nil_r in Hall.
    exists m, args. destruct (mflag && negb intok); cbn [length].
    - split; [do 2 f_equal; lia|split; [lia|split; [done|split; [done|split; [|done]]]]]. intros i f Hi. by rewrite lookup_nil in Hi.
    - split; [do 2 f_equal; lia|split; [lia|split; [done|split; [done|split; [|done]]]]].
      intros [|i] f Hi; [|done]. injection Hi as <-. exists start. by rewrite Nat.add_0_r. }
  destruct (chartorune_next m p _ Hm Hs) as (r & k & Hc & Hcr & Hk & Hr & Hs'); [done|].
  pose proof (chartorune_pos m p _ r k Hm Hs ltac:(done) Hc) as Hrp.
  rewrite Hc. cbn [rbind]. assert (r =? 0 = false) as -> by lia.
  pose proof (cstr_in_string m p _ Hs) as Hin.
  rewrite (utfrune_ok m set seps r Hm Hsep Hrp). cbn [rbind]. rewrite (find_rune_nonzero r set _ set_pos).
  fold (is_sep seps r). rewrite (runes_step (b :: s) r k Hin ltac:(done) Hcr). cbn [fields]. cbv zeta.
  set (s0 := b :: s) in *. set (s1 := drop k s0) in *.
  assert (length s1 = length s0 - k)%nat as Hl1 by apply length_drop.
  assert (put m p 0 = Ok (<[p := 0]> m)) as Hput.
  { apply put_some. destruct Hs as [Hp _]. by rewrite Hp. }
  assert (bytes (<[p := 0]> m)) as Hm1 by (apply bytes_insert; [done|unfold is_byte; lia]).
  assert (forall lo hi, (hi <= p \/ p < lo) -> same_between m (<[p := 0]> m) lo hi) as Hsame
    by (intros lo hi H; apply insert_same_between; lia).
  assert (length s0 = length (b :: s)) as Hl0 by done. cbn [length] in Hl0.
  assert (cstr (<[p := 0]> m) (p + Z.of_nat k) s1) as Hs1 by (apply (cstr_frame m); [done|apply Hsame; lia]).
  assert (cstr (<[p := 0]> m) set seps) as Hsep1 by (apply (cstr_frame m); [done|apply Hsame; lia]).
  destruct (is_sep seps r).
  - destruct (mflag && negb intok) eqn:Ep.
    + specialize (Hpend eq_refl). unfold start in *. rewrite Hpend in *. cbn [length] in *. apply andb_prop in Ep as [Em Ei].
      assert (Z.of_nat n + 0 >=? max = false) as -> by (rewrite Z.geb_leb; apply Z.leb_gt; lia).
      rewrite Hput. cbn [rbind]. rewrite Z.add_0_r, set_arg_ok by lia. cbn [rbind]. rewrite Em.
      destruct (IH (<[p := 0]> m) (<[n := p + Z.of_nat k]> args) (p + Z.of_nat k) s1 n [] false)
        as (m' & args' & Hl & Hn' & Hlen & Hbelow & Hfs & Hout); try done; try (cbn [length]; lia).
      { cbn [length]. rewrite list_lookup_insert_eq; [f_equal; lia|lia]. }
      { by rewrite length_insert. }
      rewrite Em in Hl. cbn [andb negb] in Hl. rewrite Z.add_0_r in Hl. rewrite Em in Hn', Hfs.
      exists m', args'. split; [exact Hl|split; [done|split; [by rewrite Hlen, length_insert|split; [|split; [done|]]]]].
      * intros i Hi. rewrite Hbelow by done. apply list_lookup_insert_ne. lia.
      * intros q Hq. cbn [length] in Hout. rewrite Hout by lia. apply lookup_insert_ne. lia.
    + destruct (Z.to_nat (max - 1 - Z.of_nat n)) as [|k'] eqn:Ek.
      * assert (Z.of_nat n + 1 >=? max = true) as -> by (rewrite Z.geb_leb; apply Z.leb_le; lia).
        exists m, args. cbn [length]. split; [do 2 f_equal; lia|split; [lia|split; [done|split; [done|split; [|done]]]]].
        intros [|i] f Hi; [|done]. injection Hi as <-. exists start. rewrite Nat.add_0_r. split; [done|].
        change (list_fmap _ _ snd (runes s1)) with ((runes s1).*2).
        rewrite (runes_concat s1) by (by apply Forall_drop). unfold s1. by rewrite take_drop.
      * assert (Z.of_nat n + 1 >=? max = false) as -> by (rewrite Z.geb_leb; apply Z.leb_gt; lia).
        rewrite Hput. cbn [rbind]. replace (Z.of_nat n + 1) with (Z.of_nat (S n)) by lia. rewrite set_arg_ok by lia. cbn [rbind].
        destruct (IH (<[p := 0]> m) (<[S n := p + Z.of_nat k]> args) (p + Z.of_nat k) s1 (S n) [] false)
          as (m' & args' & Hl & Hn' & Hlen & Hbelow & Hfs & Hout); try done; try (cbn [length]; lia).
        { cbn [length]. rewrite list_lookup_insert_eq; [f_equal; lia|lia]. }
        { by rewrite length_insert. }
        replace (Z.to_nat (max - 1 - Z.of_nat (S n))) with k' in * by lia.
        exists m', args'. cbn [length]. replace (n + S (length (fields seps mflag false k' [] (runes s1))))%nat
          with (S n + length (fields seps mflag false k' [] (runes s1)))%nat by lia.
        split; [|split; [done|split; [by rewrite Hlen, length_insert|split; [|split]]]].
        -- rewrite <-Hl. f_equal. destruct mflag; simpl; lia.
        -- intros i Hi. rewrite Hbelow by lia. apply list_lookup_insert_ne. lia.
        -- intros [|i] f Hi.
           ++ injection Hi as <-. exists start. rewrite Nat.add_0_r, Hbelow by lia. split; [rewrite list_lookup_insert_ne by lia; done|].
              apply bytes_at_cstr; [done|]. apply (bytes_at_frame (<[p := 0]> m)).
              ** apply bytes_at_app. split; [apply (bytes_at_frame m); [done|apply Hsame; unfold start; lia]|].
                 split; [|done]. replace (start + Z.of_nat (length cur)) with p by (unfold start; lia). apply lookup_insert_eq.
              ** intros q Hq. apply Hout. rewrite length_app in Hq. cbn [length] in *. unfold start in *. lia.
           ++ destruct (Hfs i f Hi) as (q & Hq1 & Hq2). exists q. by replace (n + S i)%nat with (S n + i)%nat by lia.
        -- intros q Hq. cbn [length] in Hout. unfold start in *. rewrite Hout by lia. apply lookup_insert_ne. lia.
  - assert (length (take k s0) = k) as Hlk by (apply length_take_le; lia).
    destruct (IH m args (p + Z.of_nat k) s1 n (cur ++ take k s0) true)
      as (m' & args' & Hl & Hn' & Hlen & Hbelow & Hfs & Hout); try done; rewrite ?length_app, ?Hlk.
    + unfold start in *. lia.
    + replace (p + Z.of_nat k - Z.of_nat (length cur + k)) with start by (unfold start; lia).
      apply bytes_at_app. split; [done|]. replace (start + Z.of_nat (length cur)) with p by (unfold start; lia).
      apply cstr_bytes_at in Hs. rewrite <-(take_drop k s0), <-app_assoc in Hs. by apply bytes_at_app in Hs as [? _].
    + apply Forall_app. split; [done|by apply Forall_take].
    + by rewrite andb_false_r.
    + rewrite Harg. f_equal. unfold start. lia.
    + lia.
    + rewrite length_app, Hlk in Hout. rewrite andb_false_r in Hl. exists m', args'.
      split; [|split; [done|split; [done|split; [done|split; [done|]]]]].
      * rewrite <-Hl. f_equal. destruct mflag, intok; simpl; lia.
      * intros q Hq. apply Hout. unfold start in Hq. lia.
Qed.
End getfields.

(** ** Properties *)

(** The searches on a string [s] at [p]: [strlen] is its length, [strchr]
    finds the first occurrence of a character (or the NUL), [utflen] counts its
    runes and [utfrune] finds the first occurrence of a rune; what they skip is
    all of [s], and none of them reads past the NUL. *)
Theorem string_search m p s c :
  bytes m -> cstr m p s ->
  strlen m p = Ok (Z.of_nat (length s)) /\
  strchr m p c = Ok (if c =? 0 then p + Z.of_nat (length s) else find_at (fun b => b =? u8 c) p s) /\
  utflen m p = Ok (Z.of_nat (length (runes s))) /\
  (0 < c -> utfrune m p c = Ok (find_rune_at c p (runes s))) /\ concat (runes s).*2 = s /\
  (forall cs, Forall (fun c => scalar c /\ c <> 0) cs -> s = concat (map utf8 cs) ->
     utflen m p = Ok (Z.of_nat (length cs))).
Proof.
  intros Hm H. assert (utflen m p = Ok (Z.of_nat (length (runes s)))) as Hu.
  { unfold utflen. rewrite (utflen_loop_ok _ m p s) by (done || by eapply cstr_turns). done. }
  split; [|split; [by apply strchr_ok|split; [done|split; [by intros; apply utfrune_ok|split]]]].
  - unfold strlen. rewrite (strchr_ok m p s 0 H). cbn [rbind Z.eqb]. f_equal. lia.
  - by apply runes_concat, (cstr_in_string m p).
  - intros cs Hcs ->. rewrite Hu, runes_utf8 by done. by rewrite length_map.
Qed.

(** [memcmp] and [strncmp] compare in the lexicographic order of the
    bytes, [strncmp] up to [n] characters or the NUL; they return 0 exactly on
    equal contents. *)
Theorem string_compare m p q s1 s2 l1 l2 n :
  cstr m p s1 -> cstr m q s2 -> 0 <= n ->
  let t1 := take (Z.to_nat n) (s1 ++ [0]) in let t2 := take (Z.to_nat n) (s2 ++ [0]) in
  strncmp m p q n = Ok (lexcmp t1 t2) /\ (strncmp m p q n = Ok 0 <-> t1 = t2) /\
  (bytes_at m p l1 -> bytes_at m q l2 -> Z.of_nat (length l1) = n -> length l2 = length l1 ->
   memcmp m p q n = Ok (lexcmp l1 l2) /\ (memcmp m p q n = Ok 0 <-> l1 = l2)).
Proof.
  intros H1 H2 Hn t1 t2. unfold strncmp. rewrite (strncmp_loop_ok _ m p q s1 s2 H1 H2). fold t1 t2.
  split; [done|split; [rewrite <-lexcmp_eq; split; congruence|]].
  intros B1 B2 L1 L2. unfold memcmp. replace (Z.to_nat n) with (length l1) by lia.
  rewrite (memcmp_loop_ok m p q l1 l2 B1 B2) by done. split; [done|]. rewrite <-lexcmp_eq. split; congruence.
Qed.

(** [strncpy] writes exactly [n] bytes, the string cut or padded with
    NULs, and touches nothing else; [memccpy] copies up to and including the
    first [c], or [n] bytes, and says which. *)
Theorem bounded_copies m p q s n c l :
  0 <= n -> mapped m p n ->
  (cstr m q s -> (p + n <= q \/ q + Z.of_nat (length s) + 1 <= p) ->
   exists m', strncpy m p q n = Ok (m', p) /\ written m m' p (take (Z.to_nat n) (s ++ replicate (Z.to_nat n) 0))) /\
  (bytes_at m q l -> (p + n <= q \/ q + n <= p) -> Z.of_nat (length l) = n -> 0 <= c < 256 ->
   exists m', memccpy m p q c n = Ok (m', if (until c l).2 then p + Z.of_nat (length (until c l).1) else 0) /\
     written m m' p (until c l).1).
Proof.
  intros Hn Hm. rewrite <-(Z2Nat.id n Hn) in Hm |- *. set (k := Z.to_nat n) in *. rewrite Nat2Z.id. split.
  - intros Hs Hd. unfold strncpy. rewrite Nat2Z.id.
    destruct (strncpy_loop_ok k m p q s Hm Hs Hd) as (m' & -> & Hw). by exists m'.
  - intros Hl Hd Hlen Hc. unfold memccpy. rewrite Nat2Z.id. change 0xFF with (2 ^ 8 - 1).
    rewrite land_mask, Z.mod_small by lia.
    destruct (memccpy_loop_ok k m p q c l Hm Hl) as (m' & -> & Hw); [lia|left; lia|].
    rewrite take_ge in * by lia. by exists m'.
Qed.

(** [utfecpy] never overruns its buffer: the copy is a prefix of the
    string, terminated inside the buffer and complete when it fits; a string of
    runes is cut between two runes. *)
Theorem utfecpy_copies m to e from s :
  0 <= to < e -> mapped m to (e - to) -> cstr m from s -> (e <= from \/ from + Z.of_nat (length s) + 1 <= to) ->
  exists m' k, utfecpy m to e from = Ok (m', to + Z.of_nat k) /\ cstr m' to (take k s) /\ Z.of_nat k < e - to /\
    (forall q, q < to \/ e <= q -> m' !! q = m !! q) /\
    (Z.of_nat (length s) < e - to -> k = length s) /\
    (forall cs, Forall scalar cs -> s = concat (map utf8 cs) -> exists i, take k s = concat (map utf8 (take i cs))).
Proof.
  intros Hto Hm Hs Hd. destruct (utfecpy_ok m to e from s Hto Hm Hs Hd) as (m' & k & Hu & Hc & Hk & Hke & Ho & Hcut).
  exists m', k. split; [done|split; [done|split; [done|split; [done|split]]]].
  - intros Hlen. destruct Hcut as [?|[? _]]; [done|lia].
  - intros cs Hcs ->. destruct Hcut as [->|[_ Hcut]]; [|by apply cut_between].
    exists (length cs). by rewrite !take_ge by done.
Qed.

(** [getfields] splits the string at the runes of [set] into the fields of
    the specification, in place: the first [narg] slots of [args] point to the
    NUL-terminated fields, at most [max] of them, and nothing but the string is
    written.  With [mflag] runs of separators count as one. *)
Theorem getfields_splits m args str s max mflag set seps :
  bytes m -> cstr m str s -> cstr m set seps -> 0 < set ->
  (str + Z.of_nat (length s) < set \/ set + Z.of_nat (length seps) < str) ->
  0 < max <= Z.of_nat (length args) ->
  let fs := fields seps mflag false (Z.to_nat (max - 1)) [] (runes s) in
  exists m' args',
    getfields m args str max mflag set = Ok (m', args', Z.of_nat (length fs)) /\
    Z.of_nat (length fs) <= max /\ length args' = length args /\
    (forall i f, fs !! i = Some f -> exists q, args' !! i = Some q /\ cstr m' q f) /\
    (forall q, q < str \/ str + Z.of_nat (length s) < q -> m' !! q = m !! q).
Proof.
  intros Hm Hs Hsep Hset Hd Hmax. unfold getfields. assert (max <=? 0 = false) as -> by (apply Z.leb_gt; lia).
  change 0 with (Z.of_nat 0) at 1. rewrite set_arg_ok by lia. cbn [rbind].
  destruct (getfields_loop_ok set max mflag seps Hset (turns m) m (<[0%nat := str]> args) str s 0 [] false)
    as (m' & args' & Hl & Hn & Hlen & _ & Hfs & Ho); try done; cbn [length]; try lia.
  - rewrite list_lookup_insert_eq; [f_equal; lia|lia].
  - rewrite length_insert. lia.
  - by eapply cstr_turns.
  - replace (max - 1 - Z.of_nat 0) with (max - 1) in * by lia. cbn [Nat.add length] in *.
    exists m', args'. split; [|split; [done|split; [by rewrite Hlen, length_insert|split; [done|]]]].
    + rewrite <-Hl. by destruct mflag.
    + intros q Hq. apply Ho. lia.
Qed.

(** *** Memory with the strings "a  b" at 10, " " at 30 and room at 50 *)
Definition strings_example : mem :=
  list_to_map [(10, 97); (11, 32); (12, 32); (13, 98); (14, 0); (30, 32); (31, 0); (50, 1); (51, 1); (52, 1)].
Lemma strings_example_bytes : bytes strings_example.
Proof. apply (bool_decide_unpack (map_Forall (fun _ b => 0 <= b < 256) strings_example)). vm_compute. exact I. Qed.
Lemma strings_example_a : cstr strings_example 10 [97; 32; 32; 98].
Proof. vm_compute. auto 20. Qed.
Lemma strings_example_sep : cstr strings_example 30 [32].
Proof. vm_compute. auto 20. Qed.
Lemma strings_example_room : mapped strings_example 50 3.
Proof. intros t Ht. assert (t = 0 \/ t = 1 \/ t = 2) as [-> | [-> | ->]] by lia; vm_compute; eauto. Qed.

Lemma string_search_witness :
  strlen strings_example 10 = Ok 4 /\
  strchr strings_example 10 98 = Ok (if 98 =? 0 then 10 + 4 else find_at (fun b => b =? u8 98) 10 [97; 32; 32; 98]) /\
  utflen strings_example 10 = Ok (Z.of_nat (length (runes [97; 32; 32; 98]))) /\
  (0 < 98 -> utfrune strings_example 10 98 = Ok (find_rune_at 98 10 (runes [97; 32; 32; 98]))) /\
  concat (runes [97; 32; 32; 98]).*2 = [97; 32; 32; 98] /\
  (forall cs, Forall (fun c => scalar c /\ c <> 0) cs -> [97; 32; 32; 98] = concat (map utf8 cs) ->
     utflen strings_example 10 = Ok (Z.of_nat (length cs))).
Proof. exact (string_search strings_example 10 [97; 32; 32; 98] 98 strings_example_bytes strings_example_a). Defined.
Lemma string_compare_witness :
  let t1 := take 2 [97; 32; 32; 98; 0] in let t2 := take 2 [32; 0] in
  strncmp strings_example 10 30 2 = Ok (lexcmp t1 t2) /\ (strncmp strings_example 10 30 2 = Ok 0 <-> t1 = t2) /\
  (bytes_at strings_example 10 [97; 32] -> bytes_at strings_example 30 [32; 0] -> 2 = 2 -> 2%nat = 2%nat ->
   memcmp strings_example 10 30 2 = Ok (lexcmp [97; 32] [32; 0]) /\
   (memcmp strings_example 10 30 2 = Ok 0 <-> [97; 32] = [32; 0])).
Proof.
  apply (string_compare strings_example 10 30 [97; 32; 32; 98] [32] [97; 32] [32; 0] 2);
    [exact strings_example_a|exact strings_example_sep|lia].
Defined.
Lemma bounded_copies_witness :
  (cstr strings_example 30 [32] -> (50 + 3 <= 30 \/ 30 + 1 + 1 <= 50) ->
   exists m', strncpy strings_example 50 30 3 = Ok (m', 50) /\ written strings_example m' 50 (take 3 ([32] ++ replicate 3 0))) /\
  (bytes_at strings_example 10 [97; 32; 32] -> (50 + 3 <= 10 \/ 10 + 3 <= 50) -> 3 = 3 -> 0 <= 32 < 256 ->
   exists m', memccpy strings_example 50 10 32 3 =
       Ok (m', if (until 32 [97; 32; 32]).2 then 50 + Z.of_nat (length (until 32 [97; 32; 32]).1) else 0) /\
     written strings_example m' 50 (until 32 [97; 32; 32]).1).
Proof.
  split; intros.
  - by apply (bounded_copies strings_example 50 30 [32] 3 32 [97; 32; 32]); [lia|exact strings_example_room|..].
  - by apply (bounded_copies strings_example 50 10 [32] 3 32 [97; 32; 32]); [lia|exact strings_example_room|..].
Defined.
Lemma utfecpy_copies_witness : exists m' k,
    utfecpy strings_example 50 53 10 = Ok (m', 50 + Z.of_nat k) /\ cstr m' 50 (take k [97; 32; 32; 98]) /\
    Z.of_nat k < 53 - 50 /\ (forall q, q < 50 \/ 53 <= q -> m' !! q = strings_example !! q) /\
    (4 < 53 - 50 -> k = 4%nat) /\
    (forall cs, Forall scalar cs -> [97; 32; 32; 98] = concat (map utf8 cs) ->
       exists i, take k [97; 32; 32; 98] = concat (map utf8 (take i cs))).
Proof.
  apply (utfecpy_copies strings_example 50 53 10 [97; 32; 32; 98]);
    [lia|exact strings_example_room|exact strings_example_a|right; simpl; lia].
Defined.
Lemma getfields_splits_witness :
  let fs := fields [32] true false 2 [] (runes [97; 32; 32; 98]) in
  fs = [[97]; [98]] /\
  exists m' args',
    getfields strings_example [0; 0; 0] 10 3 true 30 = Ok (m', args', Z.of_nat (length fs)) /\
    Z.of_nat (length fs) <= 3 /\ length args' = 3%nat /\
    (forall i f, fs !! i = Some f -> exists q, args' !! i = Some q /\ cstr m' q f) /\
    (forall q, q < 10 \/ 10 + 4 < q -> m' !! q = strings_example !! q).
Proof.
  split; [reflexivity|].
  apply (getfields_splits strings_example [0; 0; 0] 10 [97; 32; 32; 98] 3 true 30 [32]);
    [exact strings_example_bytes|exact strings_example_a|exact strings_example_sep|lia|left; simpl; lia|simpl; lia].
Defined.
