(* ===== verification/Numbers.v ===== *)
(** * Numbers in strings and characters: kernel/Libc/port/strtoul.c, atol.c,
    toupper.c, ctype.c, abs.c

    The parsers walk the byte memory of [Memory].  [ulong] and [long] are
    32-bit words. *)
From stdpp Require Import gmap.
From S2P Require Import Prelude Memory Rune Cstring.

(** ** Characters *)

Definition toupper (c : Z) : Z := if (c <? 97) || (c >? 122) then c else c - 97 + 65.
Definition tolower (c : Z) : Z := if (c <? 65) || (c >? 90) then c else c - 65 + 97.
Definition abs (a : Z) : Z := if a <? 0 then s32 (- a) else a.

Definition ct_U : Z := 1.
Definition ct_L : Z := 2.
Definition ct_N : Z := 4.
Definition ct_S : Z := 8.
Definition ct_P : Z := 16.
Definition ct_C : Z := 32.
Definition ct_B : Z := 64.
Definition ct_X : Z := 128.

(** The rows of the table, eight characters each; the rest is zero. *)
Definition _ctype : list Z :=
  let C := ct_C in let S := ct_S in let P := ct_P in let N := ct_N in let U := ct_U in let L := ct_L in
  let X := ct_X in let B := ct_B in let o := Z.lor in
  [C; C; C; C; C; C; C; C;
   C; o S C; o S C; o S C; o S C; o S C; C; C;
   C; C; C; C; C; C; C; C;
   C; C; C; C; C; C; C; C;
   o S B; P; P; P; P; P; P; P;
   P; P; P; P; P; P; P; P;
   o N X; o N X; o N X; o N X; o N X; o N X; o N X; o N X;
   o N X; o N X; P; P; P; P; P; P;
   P; o U X; o U X; o U X; o U X; o U X; o U X; U;
   U; U; U; U; U; U; U; U;
   U; U; U; U; U; U; U; U;
   U; U; U; P; P; P; P; P;
   P; o L X; o L X; o L X; o L X; o L X; o L X; L;
   L; L; L; L; L; L; L; L;
   L; L; L; L; L; L; L; L;
   L; L; L; P; P; P; P; C] ++ replicate 128 0.
Definition ctype_is (mask c : Z) : bool := negb (Z.land (nth (Z.to_nat (u8 c)) _ctype 0) mask =? 0).
Definition isalpha := ctype_is (Z.lor ct_U ct_L).
Definition isupper := ctype_is ct_U.
Definition islower := ctype_is ct_L.
Definition isdigit := ctype_is ct_N.
Definition isxdigit := ctype_is ct_X.
Definition isspace := ctype_is ct_S.
Definition ispunct := ctype_is ct_P.
Definition isalnum := ctype_is (Z.lor (Z.lor ct_U ct_L) ct_N).
Definition isprint := ctype_is (Z.lor (Z.lor (Z.lor ct_P ct_U) ct_L) (Z.lor ct_N ct_B)).
Definition isgraph := ctype_is (Z.lor (Z.lor (Z.lor ct_P ct_U) ct_L) ct_N).
Definition iscntrl := ctype_is ct_C.

(** ** [strtoul] *)

Definition ULONG_MAX : Z := 4294967295.
Definition between (a c b : Z) : bool := (a <=? c) && (c <=? b).
(** White space: ' ', \t, \n, \v, \f, \r. *)
Definition is_white (c : Z) : bool := (c =? 32) || between 9 c 13.
Fixpoint skip_white (fuel : nat) (m : mem) (p : Z) : result Z :=
  match fuel with
  | O => Loop
  | S fuel => let* c := get m p in if is_white c then skip_white fuel m (p + 1) else Ok p
  end.
(** The value of a digit, or [base]. *)
Definition digit_value (base c : Z) : Z :=
  if between 48 c 57 then c - 48
  else if between 97 c 122 then c - 97 + 10
  else if between 65 c 90 then c - 65 + 10
  else base.
Definition is_x (c : Z) : bool := (c =? 120) || (c =? 88).
Definition is_hex (c : Z) : bool := between 48 c 57 || between 97 c 102 || between 65 c 70.

Fixpoint strtoul_digits (fuel : nat) (m : mem) (p base n ndig : Z) (ovfl : bool) : result (Z * Z * Z * bool) :=
  match fuel with
  | O => Loop
  | S fuel =>
      let* c := get m p in
      let v := digit_value base c in
      if v >=? base then Ok (p, n, ndig, ovfl)
      else
        let ovfl := ovfl || (n >? ULONG_MAX / base) in
        let nn := u32 (n * base + v) in
        let ovfl := ovfl || (nn <? n) in
        strtoul_digits fuel m (p + 1) base nn (ndig + 1) ovfl
  end.
(** The base, when the caller leaves it open. *)
Definition strtoul_base (m : mem) (p base : Z) : result Z :=
  if base =? 0 then
    let* c := get m p in
    if negb (c =? 48) then Ok 10
    else
      let* x := get m (p + 1) in
      if is_x x then Ok 16 else Ok 8
  else Ok base.
(** The prefix 0x is skipped only before a digit. *)
Definition strtoul_prefix (m : mem) (p base : Z) : result Z :=
  if base =? 16 then
    let* c := get m p in
    if c =? 48 then
      let* x := get m (p + 1) in
      if is_x x then
        let* h := get m (p + 2) in
        if is_hex h then Ok (p + 2) else Ok p
      else Ok p
    else Ok p
  else Ok p.
(** The value and what is stored at [endptr]. *)
Definition strtoul (m : mem) (nptr base : Z) : result (Z * Z) :=
  let* p := skip_white (turns m) m nptr in
  let* c := get m p in
  let '(p, neg) := if (c =? 45) || (c =? 43) then (p + 1, c =? 45) else (p, false) in
  let* base := strtoul_base m p base in
  let* (p, n, ndig, ovfl) :=
    if (base <? 2) || (36 <? base) then Ok (p, 0, 0, false)
    else
      let* p := strtoul_prefix m p base in
      strtoul_digits (turns m) m p base 0 0 false in
  let p := if ndig =? 0 then nptr else p in
  if ovfl then Ok (ULONG_MAX, p)
  else if neg then Ok (u32 (- n), p)
  else Ok (n, p).

(** ** [atol] *)

Definition is_blank (c : Z) : bool := (c =? 32) || (c =? 9).
Fixpoint skip_blank (fuel : nat) (m : mem) (s : Z) : result Z :=
  match fuel with
  | O => Loop
  | S fuel => let* c := get m s in if is_blank c then skip_blank fuel m (s + 1) else Ok s
  end.
(** The three digit loops: [n] is a [long], the arithmetic wraps. *)
Fixpoint atol_digits (fuel : nat) (m : mem) (s base : Z) (is_digit : Z -> bool) (n : Z) : result Z :=
  match fuel with
  | O => Loop
  | S fuel =>
      let* c := get m s in
      if is_digit c then atol_digits fuel m (s + 1) base is_digit (s32 (n * base + digit_value base c))
      else Ok n
  end.
(** The digits after the sign. *)
Definition atol_number (m : mem) (s : Z) : result Z :=
  let* c0 := get m s in
  if c0 =? 48 then
    let* c1 := get m (s + 1) in
    if negb (c1 =? 0) then
      if is_x c1 then atol_digits (turns m) m (s + 2) 16 is_hex 0
      else atol_digits (turns m) m s 8 (fun c => between 48 c 55) 0
    else atol_digits (turns m) m s 10 (fun c => between 48 c 57) 0
  else atol_digits (turns m) m s 10 (fun c => between 48 c 57) 0.
Definition atol (m : mem) (s : Z) : result Z :=
  let* s := skip_blank (turns m) m s in
  let* c := get m s in
  let* (s, f) :=
    if (c =? 45) || (c =? 43) then let* s := skip_blank (turns m) m (s + 1) in Ok (s, c =? 45)
    else Ok (s, false) in
  let* n := atol_number m s in
  Ok (if f then s32 (- n) else n).
Definition atoi (m : mem) (s : Z) : result Z := atol m s.

(** ** Specification *)

Fixpoint take_while (P : Z -> bool) (s : list Z) : list Z :=
  match s with
  | [] => []
  | b :: s => if P b then b :: take_while P s else []
  end.
Definition drop_while (P : Z -> bool) (s : list Z) : list Z := drop (length (take_while P s)) s.
(** The number a list of digits stands for. *)
Definition digits_value (base : Z) (ds : list Z) : Z := fold_left (fun n c => n * base + digit_value base c) ds 0.
Definition is_digit (base c : Z) : bool := digit_value base c <? base.

(** A number as the parsers read it: an optional sign, ... *)
Definition sign_of (s : list Z) : bool * list Z :=
  match s with
  | c :: s' => if (c =? 45) || (c =? 43) then (c =? 45, s') else (false, s)
  | [] => (false, [])
  end.
(** ... the base from the prefix, ... *)
Definition base_of (base : Z) (s : list Z) : Z :=
  if base =? 0 then
    match s with
    | 48 :: x :: _ => if is_x x then 16 else 8
    | 48 :: _ => 8
    | _ => 10
    end
  else base.
(** ... and the digits after it. *)
Definition after_prefix (base : Z) (s : list Z) : list Z :=
  if base =? 16 then
    match s with
    | 48 :: x :: h :: s' => if is_x x && is_hex h then h :: s' else s
    | _ => s
    end
  else s.
(** Value, digits and what follows them; no digits when the base is invalid. *)
Definition parse_number (base : Z) (s : list Z) : bool * Z * list Z * list Z :=
  let '(neg, s) := sign_of (drop_while is_white s) in
  let base := base_of base s in
  if (base <? 2) || (36 <? base) then (neg, 0, [], s)
  else
    let s := after_prefix base s in
    (neg, digits_value base (take_while (is_digit base) s), take_while (is_digit base) s, drop_while (is_digit base) s).

(** ** Walking a string *)

Lemma take_while_app P s : take_while P s ++ drop_while P s = s.
Proof.
  unfold drop_while. induction s as [|b s IH]; [done|]. cbn [take_while]. destruct (P b); [|done].
  cbn [length app]. by rewrite skipn_cons, IH.
Qed.
Lemma take_while_all P s : Forall (fun b => P b = true) (take_while P s).
Proof. induction s as [|b s IH]; cbn; [constructor|]. destruct (P b) eqn:E; constructor; done. Qed.
Lemma drop_while_head P b s : drop_while P (b :: s) = if P b then drop_while P s else b :: s.
Proof. unfold drop_while. cbn [take_while]. by destruct (P b). Qed.
Lemma cstr_drop m p P s :
  cstr m p s -> cstr m (p + Z.of_nat (length (take_while P s))) (drop_while P s).
Proof. intros H. rewrite <-(take_while_app P s) in H. by apply cstr_suffix. Qed.

(** The loops that skip characters, with the NUL not among them. *)
Lemma skip_white_ok fuel m p s :
  cstr m p s -> (length s < fuel)%nat ->
  skip_white fuel m p = Ok (p + Z.of_nat (length (take_while is_white s))).
Proof.
  revert p s. induction fuel as [|fuel IH]; intros p s H Hf; [lia|]. cbn [skip_white].
  destruct s as [|b s]; [rewrite (cstr_get_end m p H); cbn; f_equal; lia|].
  rewrite (cstr_get m p b s H). cbn [rbind take_while]. destruct (is_white b); [|cbn; f_equal; lia].
  destruct H as (_ & _ & H). rewrite (IH _ s H) by (simpl in Hf; lia). cbn [length]. f_equal. lia.
Qed.
Lemma skip_blank_ok fuel m p s :
  cstr m p s -> (length s < fuel)%nat ->
  skip_blank fuel m p = Ok (p + Z.of_nat (length (take_while is_blank s))).
Proof.
  revert p s. induction fuel as [|fuel IH]; intros p s H Hf; [lia|]. cbn [skip_blank].
  destruct s as [|b s]; [rewrite (cstr_get_end m p H); cbn; f_equal; lia|].
  rewrite (cstr_get m p b s H). cbn [rbind take_while]. destruct (is_blank b); [|cbn; f_equal; lia].
  destruct H as (_ & _ & H). rewrite (IH _ s H) by (simpl in Hf; lia). cbn [length]. f_equal. lia.
Qed.

(** ** The digits *)

Definition tracks (v n : Z) (ovfl : bool) : Prop :=
  if ovfl then ULONG_MAX < v else n = v /\ 0 <= v <= ULONG_MAX.
Lemma digit_value_nonneg base c : 0 <= base -> 0 <= digit_value base c.
Proof. intros Hb. unfold digit_value, between. case_ifs; lia. Qed.
Lemma tracks_step base v n ovfl d :
  2 <= base <= 36 -> 0 <= d < base -> tracks v n ovfl ->
  tracks (v * base + d) (u32 (n * base + d)) ((ovfl || (n >? ULONG_MAX / base)) || (u32 (n * base + d) <? n)).
Proof.
  intros Hb Hd. unfold tracks. destruct ovfl; cbn [orb]; [unfold ULONG_MAX; nia|]. intros [-> Hv].
  assert (0 <= ULONG_MAX / base /\ ULONG_MAX / base * base <= ULONG_MAX < (ULONG_MAX / base + 1) * base) as (? & ? & ?)
    by (unfold ULONG_MAX; znia).
  destruct (Z.gtb_spec v (ULONG_MAX / base)); cbn [orb]; [nia|].
  assert (v * base <= ULONG_MAX) by nia. unfold ULONG_MAX in *.
  destruct (Z.le_gt_cases (v * base + d) 4294967295) as [Hs|Hs].
  - rewrite u32_small by (unfold_words; nia). assert (v * base + d <? v = false) as -> by nia. split; [done|nia].
  - assert (u32 (v * base + d) = v * base + d - 2 ^ 32) as -> by (unfold u32; rewrite <-(Z.mod_unique _ _ 1 (v * base + d - 2 ^ 32)); lia).
    assert (v * base + d - 2 ^ 32 <? v = true) as -> by nia. lia.
Qed.
Lemma strtoul_digits_ok fuel m p s base n v ndig ovfl :
  cstr m p s -> (length s < fuel)%nat -> 2 <= base <= 36 -> tracks v n ovfl ->
  let ds := take_while (is_digit base) s in
  exists n' ovfl', strtoul_digits fuel m p base n ndig ovfl
      = Ok (p + Z.of_nat (length ds), n', ndig + Z.of_nat (length ds), ovfl') /\
    tracks (fold_left (fun n c => n * base + digit_value base c) ds v) n' ovfl'.
Proof.
  revert p s n v ndig ovfl. induction fuel as [|fuel IH]; intros p s n v ndig ovfl H Hf Hb Ht; [lia|]. cbn [strtoul_digits].
  destruct s as [|b s].
  { rewrite (cstr_get_end m p H). cbn [rbind]. assert (digit_value base 0 >=? base = true) as -> by (unfold digit_value; cbn; lia).
    exists n, ovfl. cbn [take_while length fold_left]. change (Z.of_nat 0) with 0. rewrite !Z.add_0_r. done. }
  rewrite (cstr_get m p b s H). cbn [rbind take_while]. rewrite Z.geb_leb.
  assert (is_digit base b = negb (base <=? digit_value base b)) as -> by (unfold is_digit; apply Z.ltb_antisym).
  destruct (Z.leb_spec base (digit_value base b)); cbn [negb].
  { exists n, ovfl. cbn [take_while length fold_left]. change (Z.of_nat 0) with 0. rewrite !Z.add_0_r. done. }
  destruct H as (_ & _ & H). pose proof (digit_value_nonneg base b ltac:(lia)).
  pose proof (tracks_step base v n ovfl (digit_value base b) Hb ltac:(lia) Ht) as Ht'.
  destruct (IH (p + 1) s _ _ (ndig + 1) _ H ltac:(simpl in Hf; lia) Hb Ht') as (n' & ovfl' & -> & Ht2).
  exists n', ovfl'. split; [|done]. cbn [length]. set (k := length _).
  replace (p + Z.of_nat (S k)) with (p + 1 + Z.of_nat k) by lia.
  by replace (ndig + Z.of_nat (S k)) with (ndig + 1 + Z.of_nat k) by lia.
Qed.

(** ** The parts of [strtoul] *)

Lemma strtoul_base_ok m p s base : cstr m p s -> strtoul_base m p base = Ok (base_of base s).
Proof.
  intros H. unfold strtoul_base, base_of. destruct (base =? 0); [|done].
  destruct s as [|b s]; [by rewrite (cstr_get_end m p H)|]. rewrite (cstr_get m p b s H). cbn [rbind].
  destruct H as (_ & _ & H). destruct (Z.eqb_spec b 48) as [->|Hb]; cbn [negb].
  - destruct s as [|x s]; [by rewrite (cstr_get_end _ _ H)|]. rewrite (cstr_get _ _ x s H). cbn [rbind]. by destruct (is_x x).
  - destruct b as [|b|b]; try done. repeat (destruct b as [b|b|]; try done).
Qed.
Lemma strtoul_prefix_ok m p s base :
  cstr m p s -> strtoul_prefix m p base = Ok (p + Z.of_nat (length s - length (after_prefix base s))) /\
    cstr m (p + Z.of_nat (length s - length (after_prefix base s))) (after_prefix base s) /\
    (length (after_prefix base s) <= length s)%nat.
Proof.
  intros H. unfold strtoul_prefix, after_prefix.
  assert (forall r, r = Ok p -> r = Ok (p + Z.of_nat (length s - length s)) /\
            cstr m (p + Z.of_nat (length s - length s)) s /\ (length s <= length s)%nat) as Hsame.
  { intros r ->. rewrite Nat.sub_diag, Z.add_0_r. done. }
  destruct (base =? 16); [|by apply Hsame].
  destruct s as [|b s]; [by rewrite (cstr_get_end m p H); apply Hsame|]. rewrite (cstr_get m p b s H). cbn [rbind].
  destruct (Z.eqb_spec b 48) as [->|Hb].
  - destruct s as [|x s]; [destruct H as (_ & _ & H); rewrite (cstr_get_end _ _ H); by apply Hsame|].
    pose proof H as (_ & _ & Hx). rewrite (cstr_get _ _ x s Hx). cbn [rbind].
    destruct (is_x x); cbn [andb]; [|destruct s; by apply Hsame].
    replace (p + 2) with (p + 1 + 1) by lia.
    destruct s as [|h s]; [destruct Hx as (_ & _ & Hh); rewrite (cstr_get_end _ _ Hh); by apply Hsame|].
    pose proof Hx as (_ & _ & Hh). rewrite (cstr_get _ _ h s Hh). cbn [rbind]. replace (p + 1 + 1) with (p + 2) in * by lia.
    destruct (is_hex h); [|by apply Hsame]. cbn [length].
    replace (S (S (S (length s))) - S (length s))%nat with 2%nat by lia. change (Z.of_nat 2) with 2. split; [done|split; [done|lia]].
  - assert (match b :: s with 48 :: x :: h :: s' => if is_x x && is_hex h then h :: s' else b :: s | _ => b :: s end = b :: s) as ->
      by (destruct b as [|b|b]; try done; repeat (destruct b as [b|b|]; try done)).
    by apply Hsame.
Qed.
Lemma sign_ok m p s :
  cstr m p s ->
  exists c, get m p = Ok c /\ c = match s with [] => 0 | c :: _ => c end /\
    let '(neg, s') := sign_of s in
    (if (c =? 45) || (c =? 43) then (p + 1, c =? 45) else (p, false)) = (p + Z.of_nat (length s - length s'), neg) /\
    cstr m (p + Z.of_nat (length s - length s')) s' /\ (length s' <= length s)%nat.
Proof.
  intros H. destruct s as [|c s].
  - exists 0. rewrite (cstr_get_end m p H). cbn. rewrite Z.add_0_r. done.
  - exists c. rewrite (cstr_get m p c s H). split; [done|split; [done|]]. cbn [sign_of].
    destruct ((c =? 45) || (c =? 43)); cbn [length].
    + replace (S (length s) - length s)%nat with 1%nat by lia. destruct H as (_ & _ & H). split; [done|split; [done|lia]].
    + rewrite Nat.sub_diag, Z.add_0_r. done.
Qed.

(** ** [atol] *)

Lemma atol_digits_ok fuel m p s base P n :
  cstr m p s -> (length s < fuel)%nat -> P 0 = false ->
  atol_digits fuel m p base P (s32 n) =
    Ok (s32 (fold_left (fun n c => n * base + digit_value base c) (take_while P s) n)).
Proof.
  revert p s n. induction fuel as [|fuel IH]; intros p s n H Hf HP; [lia|]. cbn [atol_digits].
  destruct s as [|b s]; [rewrite (cstr_get_end m p H); cbn [rbind]; by rewrite HP|].
  rewrite (cstr_get m p b s H). cbn [rbind take_while]. destruct (P b); [|done]. destruct H as (_ & _ & H). cbn [fold_left].
  assert (s32 (s32 n * base + digit_value base b) = s32 (n * base + digit_value base b)) as ->.
  { unfold s32. set (d := digit_value base b).
    replace ((n + 2 ^ 31) mod 2 ^ 32 - 2 ^ 31) with (n - (n + 2 ^ 31) / 2 ^ 32 * 2 ^ 32)
      by (pose proof (Z.div_mod (n + 2 ^ 31) (2 ^ 32)); lia).
    replace ((n - (n + 2 ^ 31) / 2 ^ 32 * 2 ^ 32) * base + d + 2 ^ 31)
      with (n * base + d + 2 ^ 31 + (- ((n + 2 ^ 31) / 2 ^ 32) * base) * 2 ^ 32) by ring.
    by rewrite Z.mod_add. }
  apply IH; [done|simpl in Hf; lia|done].
Qed.
(** The sign, the base and the digits as [atol] reads them. *)
Definition parse_atol (s : list Z) : bool * Z :=
  let s := drop_while is_blank s in
  let '(neg, s) :=
    match s with
    | c :: s' => if (c =? 45) || (c =? 43) then (c =? 45, drop_while is_blank s') else (false, s)
    | [] => (false, [])
    end in
  (neg, match s with
        | 48 :: x :: s' =>
            if is_x x then digits_value 16 (take_while is_hex s')
            else digits_value 8 (take_while (fun c => between 48 c 55) s)
        | _ => digits_value 10 (take_while (fun c => between 48 c 57) s)
        end).
Lemma atol_number_ok m p s :
  cstr m p s ->
  atol_number m p =
  Ok (s32 (match s with
        | 48 :: x :: s' =>
            if is_x x then digits_value 16 (take_while is_hex s')
            else digits_value 8 (take_while (fun c => between 48 c 55) s)
        | _ => digits_value 10 (take_while (fun c => between 48 c 57) s)
        end)).
Proof.
  intros H. unfold atol_number. change 0 with (s32 0) at 2 3 4 5.
  rewrite (atol_digits_ok _ m p s 8), (atol_digits_ok _ m p s 10) by (done || by eapply cstr_turns).
  destruct s as [|b s]; [by rewrite (cstr_get_end m p H)|]. rewrite (cstr_get m p b s H). cbn [rbind].
  destruct (Z.eqb_spec b 48) as [->|Hb].
  - pose proof H as (_ & _ & H1). destruct s as [|x s]; [by rewrite (cstr_get_end _ _ H1)|].
    rewrite (cstr_get _ _ x s H1). cbn [rbind]. destruct H1 as (_ & Hx & H2). assert (x =? 0 = false) as -> by lia. cbn [negb].
    replace (p + 1 + 1) with (p + 2) in H2 by lia. rewrite (atol_digits_ok _ m (p + 2) s 16) by (done || by eapply cstr_turns).
    by destruct (is_x x).
  - by destruct b as [|b|b]; try done; repeat (destruct b as [b|b|]; try done).
Qed.

(** The string " 0x1fg" at 60. *)
Definition strings_number : mem :=
  list_to_map [(60, 32); (61, 48); (62, 120); (63, 49); (64, 102); (65, 103); (66, 0)].
Lemma strings_number_ok : cstr strings_number 60 [32; 48; 120; 49; 102; 103].
Proof. vm_compute. auto 30. Qed.

(** ** Properties *)

(** [strtoul] reads the number that the specification parses from the
    string, for every base and every string: it saturates at [ULONG_MAX]
    exactly when the number does not fit (which its two tests of the wrapping
    accumulator detect), negates modulo 2^32, and reports the end of the digits,
    or the start when there are none. *)
Theorem strtoul_parses m p s base neg v ds rest :
  cstr m p s -> parse_number base s = (neg, v, ds, rest) ->
  strtoul m p base =
    Ok (if v >? ULONG_MAX then ULONG_MAX else if neg then u32 (- v) else v,
        if (length ds =? 0)%nat then p else p + Z.of_nat (length s - length rest)).
Proof.
  intros H Hparse. unfold strtoul. rewrite (skip_white_ok _ m p s H) by (by eapply cstr_turns). cbn [rbind].
  pose proof (cstr_drop m p is_white s H) as H1. set (p1 := p + Z.of_nat _) in *. unfold parse_number in Hparse.
  assert (length s = length (take_while is_white s) + length (drop_while is_white s))%nat as L1
    by (rewrite <-length_app, take_while_app; done).
  set (s1 := drop_while is_white s) in *.
  destruct (sign_ok m p1 s1 H1) as (c & -> & _ & Hs). cbn [rbind]. destruct (sign_of s1) as [neg' s2].
  destruct Hs as (-> & H2 & L2). set (p2 := p1 + Z.of_nat _) in *. rewrite (strtoul_base_ok m p2 s2 base H2). cbn [rbind].
  set (b := base_of base s2) in *. destruct ((b <? 2) || (36 <? b)) eqn:Eb.
  { injection Hparse as <- <- <- <-. cbn [rbind length Nat.eqb Z.eqb]. unfold ULONG_MAX.
    assert (0 >? 4294967295 = false) as -> by lia. by destruct neg'. }
  destruct (strtoul_prefix_ok m p2 s2 b H2) as (-> & H3 & L3). cbn [rbind]. set (s3 := after_prefix b s2) in *.
  set (p3 := p2 + Z.of_nat _) in *. injection Hparse as <- <- <- <-.
  assert (length s3 = length (take_while (is_digit b) s3) + length (drop_while (is_digit b) s3))%nat as L4
    by (rewrite <-length_app, take_while_app; done).
  destruct (strtoul_digits_ok (turns m) m p3 s3 b 0 0 0 false H3) as (n & ovfl & -> & Ht);
    [by eapply cstr_turns|lia|done|]. cbn [rbind]. rewrite Z.add_0_l.
  fold (digits_value b (take_while (is_digit b) s3)) in Ht. set (ds := take_while (is_digit b) s3) in *.
  replace (p3 + Z.of_nat (length ds)) with (p + Z.of_nat (length s - length (drop_while (is_digit b) s3)))
    by (unfold p3, p2, p1; lia).
  replace (Z.of_nat (length ds) =? 0) with (length ds =? 0)%nat by (destruct (Nat.eqb_spec (length ds) 0); symmetry; [apply Z.eqb_eq|apply Z.eqb_neq]; lia).
  unfold tracks in Ht. destruct ovfl.
  - by assert (digits_value b ds >? ULONG_MAX = true) as -> by lia.
  - destruct Ht as [-> Ht]. assert (digits_value b ds >? ULONG_MAX = false) as -> by lia. by destruct neg'.
Qed.

(** [atol] and [atoi] read an optionally signed decimal, octal or
    hexadecimal number, modulo 2^32: there is no overflow test, and the result
    is the exact number whenever that is a [long]. *)
Theorem atol_parses m p s :
  cstr m p s ->
  let '(neg, v) := parse_atol s in
  atol m p = Ok (s32 (if neg then - v else v)) /\ atoi m p = atol m p /\
  (is_s32 (if neg then - v else v) -> atol m p = Ok (if neg then - v else v)).
Proof.
  intros H. destruct (parse_atol s) as [neg v] eqn:Hparse.
  assert (atol m p = Ok (s32 (if neg then - v else v))) as E; [|split; [done|split; [done|]]; intros Hv; by rewrite E, s32_small].
  unfold atol. rewrite (skip_blank_ok _ m p s H) by (by eapply cstr_turns). cbn [rbind].
  pose proof (cstr_drop m p is_blank s H) as H1. set (p1 := p + Z.of_nat _) in *. unfold parse_atol in Hparse.
  set (s1 := drop_while is_blank s) in *.
  assert (exists c p2 s2, get m p1 = Ok c /\ cstr m p2 s2 /\
    (if (c =? 45) || (c =? 43) then let* s := skip_blank (turns m) m (p1 + 1) in Ok (s, c =? 45) else Ok (p1, false)) = Ok (p2, neg) /\
    match s1 with
    | c :: s' => if (c =? 45) || (c =? 43) then (c =? 45, drop_while is_blank s') else (false, s1)
    | [] => (false, [])
    end = (neg, s2)) as (c & p2 & s2 & -> & H2 & Hs & Hm).
  { destruct s1 as [|c s1'].
    - injection Hparse as <- _. exists 0, p1, []. rewrite (cstr_get_end m p1 H1). done.
    - exists c. rewrite (cstr_get m p1 c s1' H1). pose proof H1 as (_ & _ & H1').
      destruct ((c =? 45) || (c =? 43)).
      + rewrite (skip_blank_ok _ m (p1 + 1) s1' H1') by (by eapply cstr_turns). injection Hparse as <- _.
        eexists _, (drop_while is_blank s1'). split; [done|split; [by apply cstr_drop|done]].
      + injection Hparse as <- _. by exists p1, (c :: s1'). }
  rewrite Hm in Hparse. cbn [rbind]. rewrite Hs. cbn [rbind]. injection Hparse as Hv. rewrite (atol_number_ok m p2 s2 H2). cbn [rbind].
  rewrite Hv. destruct neg; [|done]. f_equal. unfold s32.
  replace (- ((v + 2 ^ 31) mod 2 ^ 32 - 2 ^ 31) + 2 ^ 31) with (- v + 2 ^ 31 + ((v + 2 ^ 31) / 2 ^ 32) * 2 ^ 32)
    by (pose proof (Z.div_mod (v + 2 ^ 31) (2 ^ 32)); lia).
  by rewrite Z.mod_add.
Qed.

(** The table [_ctype] classifies the 256 characters as ASCII does, and
    [toupper] and [tolower] exchange the letters and leave the rest alone. *)
Theorem char_classes c :
  is_byte c ->
  isupper c = between 65 c 90 /\ islower c = between 97 c 122 /\ isdigit c = between 48 c 57 /\
  isxdigit c = is_hex c /\ isspace c = is_white c /\ isalpha c = isupper c || islower c /\
  isalnum c = isalpha c || isdigit c /\ iscntrl c = (c <? 32) || (c =? 127) /\
  isprint c = between 32 c 126 /\ isgraph c = between 33 c 126 /\ ispunct c = isgraph c && negb (isalnum c) /\
  toupper c = (if islower c then c - 32 else c) /\ tolower c = (if isupper c then c + 32 else c) /\
  (isalpha c = true -> tolower (toupper c) = tolower c /\ toupper (tolower c) = toupper c).
Proof.
  intros Hc. unfold is_byte in Hc.
  set (ok := fun c => forallb (fun x : bool * bool => Bool.eqb x.1 x.2)
    [(isupper c, between 65 c 90); (islower c, between 97 c 122); (isdigit c, between 48 c 57); (isxdigit c, is_hex c);
     (isspace c, is_white c); (isalpha c, isupper c || islower c); (isalnum c, isalpha c || isdigit c);
     (iscntrl c, (c <? 32) || (c =? 127)); (isprint c, between 32 c 126); (isgraph c, between 33 c 126);
     (ispunct c, isgraph c && negb (isalnum c));
     (toupper c =? (if islower c then c - 32 else c), true); (tolower c =? (if isupper c then c + 32 else c), true);
     (negb (isalpha c) || (tolower (toupper c) =? tolower c) && (toupper (tolower c) =? toupper c), true)]).
  assert (forallb (fun n => ok (Z.of_nat n)) (seq 0 256) = true) as H by (vm_compute; reflexivity).
  rewrite forallb_forall in H. specialize (H (Z.to_nat c) ltac:(apply in_seq; lia)). rewrite Z2Nat.id in H by lia.
  unfold ok in H. cbn [forallb fst snd] in H.
  repeat match type of H with _ && _ = true => apply andb_prop in H as [?%Bool.eqb_prop H] end.
  repeat (split; [done || by apply Z.eqb_eq|]). intros Ha.
  match goal with E : negb (isalpha c) || _ = true |- _ => rewrite Ha in E; apply andb_prop in E as [?%Z.eqb_eq ?%Z.eqb_eq] end.
  done.
Qed.

Lemma strtoul_parses_witness :
  strtoul strings_number 60 0 = Ok (if 31 >? ULONG_MAX then ULONG_MAX else if false then u32 (- 31) else 31, 65).
Proof.
  exact (strtoul_parses strings_number 60 [32; 48; 120; 49; 102; 103] 0 false 31 [49; 102] [103] strings_number_ok eq_refl).
Defined.
Lemma atol_parses_witness :
  atol strings_number 60 = Ok (s32 31) /\ atoi strings_number 60 = atol strings_number 60 /\
  (is_s32 31 -> atol strings_number 60 = Ok 31).
Proof. exact (atol_parses strings_number 60 [32; 48; 120; 49; 102; 103] strings_number_ok). Defined.
Lemma char_classes_witness :
  isupper 70 = between 65 70 90 /\ islower 70 = between 97 70 122 /\ isdigit 70 = between 48 70 57 /\
  isxdigit 70 = is_hex 70 /\ isspace 70 = is_white 70 /\ isalpha 70 = isupper 70 || islower 70 /\
  isalnum 70 = isalpha 70 || isdigit 70 /\ iscntrl 70 = (70 <? 32) || (70 =? 127) /\
  isprint 70 = between 32 70 126 /\ isgraph 70 = between 33 70 126 /\ ispunct 70 = isgraph 70 && negb (isalnum 70) /\
  toupper 70 = (if islower 70 then 70 - 32 else 70) /\ tolower 70 = (if isupper 70 then 70 + 32 else 70) /\
  (isalpha 70 = true -> tolower (toupper 70) = tolower 70 /\ toupper (tolower 70) = toupper 70).
Proof. apply (char_classes 70). unfold is_byte. lia. Defined.
