(* ===== verification/Geometry.v ===== *)
(** * Points, rectangles and angles: kernel/Libgeometry

    arith.c, replclipr_geom.c, resolution.c, icossin.c and icossin2.c.  An
    [int] is its signed value; [s32] is applied where the C arithmetic can
    wrap.  A division by zero traps ([Fault]). *)
From S2P Require Import Prelude.

(** ** Data *)

Record Point := mkPoint { x : Z; y : Z }.
Record Rectangle := mkRectangle { rmin : Point; rmax : Point }.

(** ** arith.c *)

Definition Pt (a b : Z) : Point := mkPoint a b.
Definition Rect (ax ay bx by_ : Z) : Rectangle := mkRectangle (mkPoint ax ay) (mkPoint bx by_).
Definition Rpt (min max : Point) : Rectangle := mkRectangle min max.
Definition addpt (a b : Point) : Point := mkPoint (s32 (x a + x b)) (s32 (y a + y b)).
Definition subpt (a b : Point) : Point := mkPoint (s32 (x a - x b)) (s32 (y a - y b)).
Definition insetrect (r : Rectangle) (n : Z) : Rectangle :=
  mkRectangle (mkPoint (s32 (x (rmin r) + n)) (s32 (y (rmin r) + n)))
              (mkPoint (s32 (x (rmax r) - n)) (s32 (y (rmax r) - n))).
Definition divpt (a : Point) (b : Z) : result Point :=
  if b =? 0 then Fault else Ok (mkPoint (s32 (x a ÷ b)) (s32 (y a ÷ b))).
Definition mulpt (a : Point) (b : Z) : Point := mkPoint (s32 (x a * b)) (s32 (y a * b)).
Definition rectsubpt (r : Rectangle) (p : Point) : Rectangle := mkRectangle (subpt (rmin r) p) (subpt (rmax r) p).
Definition rectaddpt (r : Rectangle) (p : Point) : Rectangle := mkRectangle (addpt (rmin r) p) (addpt (rmax r) p).
Definition eqpt (p q : Point) : bool := (x p =? x q) && (y p =? y q).
Definition eqrect (r s : Rectangle) : bool :=
  (x (rmin r) =? x (rmin s)) && (x (rmax r) =? x (rmax s)) && (y (rmin r) =? y (rmin s)) && (y (rmax r) =? y (rmax s)).
Definition rectXrect (r s : Rectangle) : bool :=
  (x (rmin r) <? x (rmax s)) && (x (rmin s) <? x (rmax r)) && (y (rmin r) <? y (rmax s)) && (y (rmin s) <? y (rmax r)).
Definition rectinrect (r s : Rectangle) : bool :=
  (x (rmin s) <=? x (rmin r)) && (x (rmax r) <=? x (rmax s)) && (y (rmin s) <=? y (rmin r)) && (y (rmax r) <=? y (rmax s)).
Definition ptinrect (p : Point) (r : Rectangle) : bool :=
  (x p >=? x (rmin r)) && (x p <? x (rmax r)) && (y p >=? y (rmin r)) && (y p <? y (rmax r)).
Definition canonrect (r : Rectangle) : Rectangle :=
  let r := if x (rmax r) <? x (rmin r)
           then mkRectangle (mkPoint (x (rmax r)) (y (rmin r))) (mkPoint (x (rmin r)) (y (rmax r))) else r in
  if y (rmax r) <? y (rmin r)
  then mkRectangle (mkPoint (x (rmin r)) (y (rmax r))) (mkPoint (x (rmax r)) (y (rmin r))) else r.
(** The new value of [*r1]. *)
Definition combinerect (r1 r2 : Rectangle) : Rectangle :=
  mkRectangle
    (mkPoint (if x (rmin r1) >? x (rmin r2) then x (rmin r2) else x (rmin r1))
             (if y (rmin r1) >? y (rmin r2) then y (rmin r2) else y (rmin r1)))
    (mkPoint (if x (rmax r1) <? x (rmax r2) then x (rmax r2) else x (rmax r1))
             (if y (rmax r1) <? y (rmax r2) then y (rmax r2) else y (rmax r1))).

(** ** replclipr_geom.c *)

(** Whether the rectangles meet, and the new value of [*rp]. *)
Definition rectclip (rp b : Rectangle) : bool * Rectangle :=
  if negb (rectXrect rp b) then (false, rp)
  else
    (true,
     mkRectangle
       (mkPoint (if x (rmin rp) <? x (rmin b) then x (rmin b) else x (rmin rp))
                (if y (rmin rp) <? y (rmin b) then y (rmin b) else y (rmin rp)))
       (mkPoint (if x (rmax rp) >? x (rmax b) then x (rmax b) else x (rmax rp))
                (if y (rmax rp) >? y (rmax b) then y (rmax b) else y (rmax rp)))).
Definition drawreplxy (min max v : Z) : result Z :=
  if s32 (max - min) =? 0 then Fault
  else
    let sx := Z.rem (s32 (v - min)) (s32 (max - min)) in
    let sx := if sx <? 0 then s32 (sx + s32 (max - min)) else sx in
    Ok (s32 (sx + min)).
Definition drawrepl (r : Rectangle) (p : Point) : result Point :=
  let* px := drawreplxy (x (rmin r)) (x (rmax r)) (x p) in
  let* py := drawreplxy (y (rmin r)) (y (rmax r)) (y p) in
  Ok (mkPoint px py).

(** ** resolution.c *)

(** [l] and [t] are [ulong]; the divisions are of [int]s. *)
Definition unitsperline (r : Rectangle) (d bitsperunit : Z) : result Z :=
  if (d <=? 0) || (d >? 32) then Panic
  else
    let l :=
      if x (rmin r) >=? 0 then
        u32 (s32 (s32 (x (rmax r) * d) + bitsperunit - 1) ÷ bitsperunit) ⊟ s32 (x (rmin r) * d) ÷ bitsperunit
      else
        let t := u32 (s32 (s32 (s32 (- x (rmin r)) * d) + bitsperunit - 1) ÷ bitsperunit) in
        t ⊞ s32 (s32 (x (rmax r) * d) + bitsperunit - 1) ÷ bitsperunit in
    Ok (s32 l).
Definition wordsperline (r : Rectangle) (d : Z) : result Z := unitsperline r d 32.
Definition bytesperline (r : Rectangle) (d : Z) : result Z := unitsperline r d 8.

(** ** icossin.c and icossin2.c *)

Definition ICOSSCALE : Z := 1024.
(** An access of a table by an index that may be outside it. *)
Definition entry (t : list Z) (i : Z) : result Z := if i <? 0 then Fault else of_ptr (t !! Z.to_nat i).
Definition sinus : list Z :=
  [0; 18; 36; 54; 71; 89; 107; 125; 143; 160; 178; 195; 213; 230; 248;
   265; 282; 299; 316; 333; 350; 367; 384; 400; 416; 433; 449; 465; 481; 496;
   512; 527; 543; 558; 573; 587; 602; 616; 630; 644; 658; 672; 685; 698; 711;
   724; 737; 749; 761; 773; 784; 796; 807; 818; 828; 839; 849; 859; 868; 878;
   887; 896; 904; 912; 920; 928; 935; 943; 949; 956; 962; 968; 974; 979; 984;
   989; 994; 998; 1002; 1005; 1008; 1011; 1014; 1016; 1018; 1020; 1022; 1023; 1023; 1024;
   1024].

(** The cosine and the sine. *)
Definition icossin (deg : Z) : result (Z * Z) :=
  let deg := Z.rem deg 360 in
  let deg := if deg <? 0 then deg + 360 else deg in
  let q := deg ÷ 90 in
  let '(sinsign, cossign, deg) :=
    if (q =? 2) || (q =? 3) then (-1, -1, deg - 180) else (1, 1, deg) in
  let '(cossign, deg) := if (q =? 1) || (q =? 3) then (- cossign, 180 - deg) else (cossign, deg) in
  let* s := entry sinus deg in
  let* c := entry sinus (90 - deg) in
  Ok (cossign * c, sinsign * s).

Definition sinus2 : list Z :=
  [0; 10; 20; 31; 41; 51; 61; 72; 82; 92; 102; 112; 122; 132; 142;
   152; 162; 172; 181; 191; 201; 210; 220; 230; 239; 248; 258; 267; 276; 285;
   294; 303; 312; 321; 330; 338; 347; 355; 364; 372; 380; 388; 397; 405; 412;
   420; 428; 436; 443; 451; 458; 465; 472; 480; 487; 493; 500; 507; 514; 520;
   527; 533; 540; 546; 552; 558; 564; 570; 576; 582; 587; 593; 598; 604; 609;
   614; 620; 625; 630; 635; 640; 645; 649; 654; 659; 663; 668; 672; 676; 681;
   685; 689; 693; 697; 701; 705; 709; 713; 717; 720; 724; 728].
Definition cosinus2 : list Z :=
  [1024; 1024; 1024; 1024; 1023; 1023; 1022; 1022; 1021; 1020; 1019; 1018; 1017; 1015; 1014;
   1013; 1011; 1010; 1008; 1006; 1004; 1002; 1000; 998; 996; 993; 991; 989; 986; 983;
   981; 978; 975; 972; 969; 967; 963; 960; 957; 954; 951; 947; 944; 941; 937;
   934; 930; 927; 923; 920; 916; 912; 909; 905; 901; 897; 893; 890; 886; 882;
   878; 874; 870; 866; 862; 859; 855; 851; 847; 843; 839; 835; 831; 827; 823;
   819; 815; 811; 807; 804; 800; 796; 792; 788; 784; 780; 776; 773; 769; 765;
   761; 757; 754; 750; 746; 742; 739; 735; 731; 728; 724; 720].
(** The value between two neighbouring entries. *)
Definition interpolate (t : list Z) (i rem : Z) : result Z :=
  let* a := entry t i in
  let* b := entry t (i + 1) in
  Ok (a + (b - a) * rem ÷ 10).
Definition icossin2 (px py : Z) : result (Z * Z) :=
  if px =? 0 then
    if py >=? 0 then Ok (0, ICOSSCALE) else Ok (0, - ICOSSCALE)
  else
    let '(cossign, px) := if px <? 0 then (-1, s32 (- px)) else (1, px) in
    let '(sinsign, py) := if py <? 0 then (-1, s32 (- py)) else (1, py) in
    let '(tan, st, ct) :=
      if py >? px then (s32 (1000 * px) ÷ py, cosinus2, sinus2)
      else (s32 (1000 * py) ÷ px, sinus2, cosinus2) in
    let tan10 := tan ÷ 10 in
    let rem := tan - tan10 * 10 in
    let* s := interpolate st tan10 rem in
    let* c := interpolate ct tan10 rem in
    Ok (cossign * c, sinsign * s).

(** ** Lemmas *)

Definition int_point (p : Point) : Prop := is_s32 (x p) /\ is_s32 (y p).
Definition int_rect (r : Rectangle) : Prop := int_point (rmin r) /\ int_point (rmax r).
Definition nonempty (r : Rectangle) : Prop := x (rmin r) < x (rmax r) /\ y (rmin r) < y (rmax r).
Definition inside (p : Point) (r : Rectangle) : Prop :=
  x (rmin r) <= x p < x (rmax r) /\ y (rmin r) <= y p < y (rmax r).

Lemma ptinrect_inside p r : ptinrect p r = true <-> inside p r.
Proof. unfold ptinrect, inside. lia. Qed.
Lemma s32_add_sub a b : is_s32 a -> s32 (s32 (a + b) - b) = a.
Proof.
  intros Ha. rewrite <-(s32_small a Ha) at 2. unfold s32.
  replace ((a + b + 2 ^ 31) mod 2 ^ 32 - 2 ^ 31 - b + 2 ^ 31) with ((a + b + 2 ^ 31) mod 2 ^ 32 - b) by lia.
  rewrite Zminus_mod_idemp_l. do 2 f_equal. lia.
Qed.

Lemma rem_mod e d : 0 < d -> e mod d = if Z.rem e d <? 0 then Z.rem e d + d else Z.rem e d.
Proof.
  intros Hd. pose proof (Z.quot_rem' e d). destruct (Z.ltb_spec (Z.rem e d) 0).
  - destruct (Z.le_gt_cases 0 e); [pose proof (Z.rem_bound_pos e d); lia|].
    pose proof (Z.rem_bound_pos_neg e d). symmetry. apply Z.mod_unique_pos with (e ÷ d - 1); nia.
  - destruct (Z.le_gt_cases 0 e); [pose proof (Z.rem_bound_pos e d)|pose proof (Z.rem_bound_pos_neg e d)];
      symmetry; apply Z.mod_unique_pos with (e ÷ d); nia.
Qed.
Lemma canonrect_spec r :
  let c := canonrect r in
  x (rmin c) = Z.min (x (rmin r)) (x (rmax r)) /\ x (rmax c) = Z.max (x (rmin r)) (x (rmax r)) /\
  y (rmin c) = Z.min (y (rmin r)) (y (rmax r)) /\ y (rmax c) = Z.max (y (rmin r)) (y (rmax r)).
Proof. unfold canonrect. case_ifs; simpl in *; lia. Qed.
Lemma rectclip_spec r b :
  let '(ok, c) := rectclip r b in
  if ok then forall p, inside p c <-> inside p r /\ inside p b
  else c = r /\ forall p, ~ (inside p r /\ inside p b).
Proof.
  unfold rectclip. destruct (rectXrect r b) eqn:E; simpl; unfold rectXrect, inside in *.
  - intros p. simpl. case_ifs; lia.
  - split; [done|]. intros p. lia.
Qed.
Lemma combinerect_spec r1 r2 :
  let c := combinerect r1 r2 in
  (forall p, inside p r1 \/ inside p r2 -> inside p c) /\
  (forall s, rectinrect r1 s = true -> rectinrect r2 s = true -> rectinrect c s = true).
Proof.
  split; [intros p|intros s]; unfold combinerect, inside, rectinrect; simpl; case_ifs; lia.
Qed.

(** The quotients of [unitsperline] as floors and ceilings. *)
Definition ceil (a b : Z) : Z := - (- a / b).
Lemma quot_ceil a b : 0 <= a -> 0 < b -> (a + b - 1) ÷ b = ceil a b.
Proof. intros Ha Hb. unfold ceil. rewrite Z.quot_div_nonneg by lia. znia. Qed.
Lemma quot_ceil_neg a b : a < 0 -> 0 < b -> ceil a b <= (a + b - 1) ÷ b <= ceil a b + 1.
Proof. intros Ha Hb. unfold ceil. Z.to_euclidean_division_equations. nia. Qed.

Lemma mod_cases_90 d : 0 <= d < 360 -> d ÷ 90 = if d <? 90 then 0 else if d <? 180 then 1 else if d <? 270 then 2 else 3.
Proof. intros Hd. rewrite Z.quot_div_nonneg by lia. case_ifs; zlia. Qed.
Lemma icossin_mod deg : icossin deg = icossin (deg mod 360).
Proof.
  unfold icossin.
  assert (forall d, (if Z.rem d 360 <? 0 then Z.rem d 360 + 360 else Z.rem d 360) = d mod 360) as H.
  { intros d. by rewrite (rem_mod d 360). }
  cbv zeta. rewrite !H, Z.mod_mod by lia. done.
Qed.
(** A fact about every angle, checked on the 360 of them. *)
Lemma icossin_check (P : Z -> result (Z * Z) -> bool) deg :
  forallb (fun n => P (Z.of_nat n) (icossin (Z.of_nat n))) (seq 0 360) = true ->
  P (deg mod 360) (icossin deg) = true.
Proof.
  intros H. rewrite forallb_forall in H. rewrite icossin_mod. pose proof (Z.mod_pos_bound deg 360 ltac:(lia)).
  specialize (H (Z.to_nat (deg mod 360))). rewrite Z2Nat.id in H by lia. apply H, in_seq. lia.
Qed.
Definition near_circle (tol c s : Z) : bool := Z.abs (c * c + s * s - ICOSSCALE * ICOSSCALE) <=? tol.
(** The tangent in thousandths decides the result of [icossin2]. *)
Definition sector (tan : Z) : result (Z * Z) :=
  let* s := interpolate sinus2 (tan ÷ 10) (tan - tan ÷ 10 * 10) in
  let* c := interpolate cosinus2 (tan ÷ 10) (tan - tan ÷ 10 * 10) in
  Ok (c, s).
Definition sector_ok (r : result (Z * Z)) : bool :=
  match r with Ok (c, s) => (0 <=? s) && (s <=? c) && near_circle 2786 c s | _ => false end.
Lemma sector_check tan : 0 <= tan <= 1000 -> sector_ok (sector tan) = true.
Proof.
  intros Ht. assert (forallb (fun n => sector_ok (sector (Z.of_nat n))) (seq 0 1001) = true) as H by (vm_compute; reflexivity).
  rewrite forallb_forall in H. specialize (H (Z.to_nat tan)). rewrite Z2Nat.id in H by lia. apply H, in_seq. lia.
Qed.

(** ** Properties *)

(** the rectangle operations are the set operations on half-open boxes of
    points: [rectclip] is the intersection and fails exactly when no point is
    shared, [rectinrect] implies inclusion, [combinerect] is the least box
    around both, [canonrect] orders the corners, and the translations are
    inverse to each other even when they wrap. *)
Theorem rectangle_sets r b p :
  int_rect r -> int_point p ->
  (let '(ok, c) := rectclip r b in
   (ok = rectXrect r b) /\
   if ok then forall q, ptinrect q c = ptinrect q r && ptinrect q b
   else c = r /\ forall q, ptinrect q r && ptinrect q b = false) /\
  (rectinrect r b = true -> forall q, ptinrect q r = true -> ptinrect q b = true) /\
  (let c := combinerect r b in
   (forall q, ptinrect q r || ptinrect q b = true -> ptinrect q c = true) /\
   (forall s, rectinrect r s = true -> rectinrect b s = true -> rectinrect c s = true)) /\
  (let c := canonrect r in
   x (rmin c) <= x (rmax c) /\ y (rmin c) <= y (rmax c) /\ canonrect c = c) /\
  rectsubpt (rectaddpt r p) p = r /\ (eqrect r b = true <-> r = b).
Proof.
  intros [[H1 H2] [H3 H4]] [Hp1 Hp2]. split; [|split; [|split; [|split; [|split]]]].
  - pose proof (rectclip_spec r b) as H. assert ((rectclip r b).1 = rectXrect r b) as E.
    { unfold rectclip. by destruct (rectXrect r b). }
    destruct (rectclip r b) as [ok c]. simpl in E. subst ok. split; [done|]. destruct (rectXrect r b).
    + intros q. apply eq_true_iff_eq. by rewrite andb_true_iff, !ptinrect_inside.
    + destruct H as [-> H]. split; [done|]. intros q. apply not_true_is_false. rewrite andb_true_iff, !ptinrect_inside. apply H.
  - intros Hin q. rewrite !ptinrect_inside. unfold rectinrect, inside in *. lia.
  - destruct (combinerect_spec r b) as [Hc1 Hc2]. split; [|done]. intros q.
    rewrite orb_true_iff, !ptinrect_inside. apply Hc1.
  - destruct (canonrect_spec r) as (E1 & E2 & E3 & E4). cbv zeta. set (c := canonrect r) in *.
    split; [lia|split; [lia|]]. unfold canonrect at 1.
    assert (x (rmax c) <? x (rmin c) = false) as -> by lia. by assert (y (rmax c) <? y (rmin c) = false) as -> by lia.
  - destruct r as [[rx ry] [sx sy]]. unfold rectsubpt, rectaddpt, subpt, addpt. simpl in *. by rewrite !s32_add_sub.
  - destruct r as [[? ?] [? ?]], b as [[? ?] [? ?]]. unfold eqrect. simpl. split; [|intros [= -> -> -> ->]; lia].
    intros E. assert (x0 = x2 /\ y0 = y2 /\ x1 = x3 /\ y1 = y3) as (-> & -> & -> & ->) by lia. done.
Qed.

(** [drawrepl] maps a point to the point of the tile that it coincides
    with when the tile covers the plane: the result lies in the tile and differs
    from the point by a whole number of tiles in each direction. *)
Theorem drawrepl_tiles r p :
  nonempty r -> int_rect r -> int_point p ->
  is_s32 (x (rmax r) - x (rmin r)) -> is_s32 (y (rmax r) - y (rmin r)) ->
  is_s32 (x p - x (rmin r)) -> is_s32 (y p - y (rmin r)) ->
  exists q, drawrepl r p = Ok q /\ ptinrect q r = true /\
    (exists k, x q = x p + k * (x (rmax r) - x (rmin r))) /\ (exists k, y q = y p + k * (y (rmax r) - y (rmin r))).
Proof.
  intros [Hx Hy] [[I1 I2] [I3 I4]] _ Wx Wy Dx Dy.
  assert (forall min max v, is_s32 min -> is_s32 max -> min < max -> is_s32 (max - min) -> is_s32 (v - min) ->
    exists w, drawreplxy min max v = Ok w /\ min <= w < max /\ exists k, w = v + k * (max - min)) as H.
  { intros min max v Hmin Hmax Hlt Hw Hd. unfold drawreplxy. rewrite !(s32_small (max - min)), (s32_small (v - min)) by done.
    assert (max - min =? 0 = false) as -> by lia.
    set (d := max - min) in *. set (e := v - min) in *.
    assert ((if Z.rem e d <? 0 then s32 (Z.rem e d + d) else Z.rem e d) = e mod d) as ->.
    { pose proof (Z.mod_pos_bound e d ltac:(lia)) as Hb. rewrite rem_mod in Hb |- * by lia. unfold is_s32 in *.
      destruct (Z.rem e d <? 0); [apply s32_small; unfold_words; lia|done]. }
    pose proof (Z.mod_pos_bound e d ltac:(lia)). rewrite s32_small by (unfold_words; lia).
    eexists. split; [reflexivity|split; [lia|]]. exists (- (e / d)). pose proof (Z.div_mod e d). lia. }
  unfold drawrepl. destruct (H _ _ _ I1 I3 Hx Wx Dx) as (wx & -> & Bx & Kx). cbn [rbind].
  destruct (H _ _ _ I2 I4 Hy Wy Dy) as (wy & -> & By & Ky). cbn [rbind].
  exists (mkPoint wx wy). split; [done|split; [|done]]. apply ptinrect_inside. unfold inside. simpl. lia.
Qed.

(** [wordsperline] and [bytesperline] give room for every pixel of a line:
    the count is the number of words (bytes) from the one that holds the first
    bit to the one that holds the last, exactly, except that one more is counted
    for some rectangles left of the origin; a bad depth panics. *)
Theorem units_cover_line r d units bitsperunit :
  (units, bitsperunit) = (wordsperline r d, 32) \/ (units, bitsperunit) = (bytesperline r d, 8) ->
  (0 < d <= 32 -> x (rmin r) <= x (rmax r) -> - 2 ^ 25 <= x (rmin r) -> x (rmax r) <= 2 ^ 25 ->
   exists l, units = Ok l /\
     let exact := ceil (x (rmax r) * d) bitsperunit - (x (rmin r) * d) / bitsperunit in
     exact <= l <= exact + 1 /\ (0 <= x (rmin r) \/ 0 <= x (rmax r) -> l = exact)) /\
  (d <= 0 \/ 32 < d -> units = Panic).
Proof.
  intros Hu. assert (8 <= bitsperunit <= 32 /\ units = unitsperline r d bitsperunit) as [Hb' ->]
    by (destruct Hu as [[= -> ->]|[= -> ->]]; split; (lia || done)). clear Hu. split.
  - intros Hd Hle Hmin Hmax. unfold unitsperline. assert ((d <=? 0) || (d >? 32) = false) as -> by lia.
    set (a := x (rmin r)) in *. set (b := x (rmax r)) in *.
    assert (- 2 ^ 30 <= a * d <= 2 ^ 30) by nia. assert (- 2 ^ 30 <= b * d <= 2 ^ 30) by nia.
    assert (forall z, - 2 ^ 30 - 32 <= z <= 2 ^ 30 + 32 -> s32 z = z) as S by (intros; apply s32_small; unfold_words; lia).
    assert (forall z, - 2 ^ 30 <= z <= 2 ^ 30 -> - 2 ^ 28 <= (z + bitsperunit - 1) ÷ bitsperunit <= 2 ^ 28) as Q
      by (intros; Z.to_euclidean_division_equations; nia).
    assert (forall u v, is_s32 (u + v) -> s32 (u32 u ⊞ v) = u + v) as Sadd.
    { intros u v Huv. rewrite s32_u32. unfold u32, s32. replace (u mod 2 ^ 32 + v + 2 ^ 31) with (u mod 2 ^ 32 + (v + 2 ^ 31)) by lia.
      rewrite Zplus_mod_idemp_l. replace (u + (v + 2 ^ 31)) with (u + v + 2 ^ 31) by lia. by apply s32_small. }
    destruct (a >=? 0) eqn:Ea.
    + rewrite !(S (b * d)), !(S (a * d)), !(S (b * d + bitsperunit - 1)) by lia.
      assert (0 <= b * d) by nia. assert (0 <= a * d) by nia. rewrite quot_ceil by lia. rewrite (Z.quot_div_nonneg (a * d)) by lia.
      eexists. split; [reflexivity|]. pose proof (Q (b * d) ltac:(lia)) as Qb. rewrite quot_ceil in Qb by lia.
      assert (0 <= a * d / bitsperunit <= 2 ^ 30) by (split; [apply Z.div_pos; lia|apply Z.div_le_upper_bound; nia]).
      replace (u32 (ceil (b * d) bitsperunit) - a * d / bitsperunit) with
        (u32 (ceil (b * d) bitsperunit) + (- (a * d / bitsperunit))) by lia. rewrite Sadd by (unfold_words; lia). lia.
    + rewrite (S (- a)), (S (- a * d)), !(S (b * d)), (S (- a * d + bitsperunit - 1)), (S (b * d + bitsperunit - 1)) by nia.
      pose proof (Q (- a * d) ltac:(lia)) as Qa. pose proof (Q (b * d) ltac:(lia)) as Qb.
      rewrite (quot_ceil (- a * d)) in Qa |- * by nia.
      eexists. split; [reflexivity|]. rewrite Sadd by (unfold_words; lia).
      assert (ceil (- a * d) bitsperunit = - (a * d / bitsperunit)) as Ec by (unfold ceil; do 2 f_equal; lia).
      destruct (Z.le_gt_cases 0 (b * d)).
      * rewrite (quot_ceil (b * d)) by lia. lia.
      * pose proof (quot_ceil_neg (b * d) bitsperunit ltac:(lia) ltac:(lia)). split; [lia|]. nia.
  - intros Hd. unfold unitsperline. by assert ((d <=? 0) || (d >? 32) = true) as -> by lia.
Qed.

(** [icossin] is defined for every integral degree, whatever its sign; the
    pair lies on the circle of radius 1024 up to 0.13%, and the symmetries hold
    exactly: periodicity, reflection in the axis and in the diagonal. *)
Theorem icossin_circle deg :
  exists c s, icossin deg = Ok (c, s) /\ near_circle 1295 c s = true /\
    icossin (deg + 360) = Ok (c, s) /\ icossin (- deg) = Ok (c, - s) /\ icossin (90 - deg) = Ok (s, c).
Proof.
  rewrite (icossin_mod (deg + 360)), (icossin_mod (- deg)), (icossin_mod (90 - deg)).
  set (ok := fun d r => match r with
    | Ok (c, s) => near_circle 1295 c s &&
        match icossin ((- d) mod 360), icossin ((90 - d) mod 360) with
        | Ok (c1, s1), Ok (c2, s2) => (c1 =? c) && (s1 =? - s) && (c2 =? s) && (s2 =? c)
        | _, _ => false
        end
    | _ => false end).
  pose proof (icossin_check ok deg ltac:(vm_compute; reflexivity)) as Hok. unfold ok in Hok.
  pose proof (icossin_mod deg) as E. destruct (icossin deg) as [[c s]| | |]; try done. exists c, s.
  apply andb_prop in Hok as [Hn Hok]. split; [done|split; [done|]].
  replace ((deg + 360) mod 360) with (deg mod 360) by (rewrite <-(Z.mod_add deg 1 360) by lia; f_equal; lia).
  replace ((- (deg mod 360)) mod 360) with ((- deg) mod 360) in Hok by zlia.
  replace ((90 - deg mod 360) mod 360) with ((90 - deg) mod 360) in Hok by zlia.
  rewrite <-E. split; [done|]. destruct (icossin ((- deg) mod 360)) as [[c1 s1]| | |]; try done.
  destruct (icossin ((90 - deg) mod 360)) as [[c2 s2]| | |]; try done.
  assert (c1 = c /\ s1 = - s /\ c2 = s /\ s2 = c) as (-> & -> & -> & ->) by lia. done.
Qed.

(** The sign and the absolute value that [icossin2] splits off. *)
Lemma sign_split v :
  - 2 ^ 31 < v < 2 ^ 31 ->
  exists sg, (if v <? 0 then (-1, s32 (- v)) else (1, v)) = (sg, Z.abs v) /\ v = sg * Z.abs v /\ (sg = 1 \/ sg = -1).
Proof.
  intros Hv. destruct (Z.ltb_spec v 0).
  - exists (-1). rewrite s32_small by (unfold_words; lia). split; [f_equal|]; lia.
  - exists 1. split; [f_equal|]; lia.
Qed.
Lemma signed_pair sg sg' c s v w :
  (sg = 1 \/ sg = -1) -> (sg' = 1 \/ sg' = -1) -> near_circle 2786 c s = true -> 0 <= c -> 0 <= s -> 0 <= v -> 0 <= w ->
  near_circle 2786 (sg * c) (sg' * s) = true /\ 0 <= (sg * c) * (sg * v) /\ 0 <= (sg' * s) * (sg' * w) /\
  Z.abs (sg * c) = c /\ Z.abs (sg' * s) = s.
Proof. unfold near_circle. intros [-> | ->] [-> | ->] Hn ? ? ? ?; repeat split; nia. Qed.

(** [icossin2] never leaves its tables and returns the direction of the
    vector on the circle of radius 1024 up to 0.3%: the signs are those of the
    coordinates and the larger component belongs to the larger coordinate.  The
    smaller coordinate must be below 2^31/1000, or the product wraps. *)
Theorem icossin2_direction px py :
  - 2 ^ 31 < px < 2 ^ 31 -> - 2 ^ 31 < py < 2 ^ 31 -> (px <> 0 \/ py <> 0) ->
  Z.min (Z.abs px) (Z.abs py) <= 2147483 ->
  exists c s, icossin2 px py = Ok (c, s) /\ near_circle 2786 c s = true /\ 0 <= c * px /\ 0 <= s * py /\
    (Z.abs py <= Z.abs px -> Z.abs s <= Z.abs c) /\ (Z.abs px <= Z.abs py -> Z.abs c <= Z.abs s).
Proof.
  intros Hx Hy Hne Hmin. unfold icossin2. destruct (Z.eqb_spec px 0) as [->|Hpx].
  { destruct (py >=? 0) eqn:E; eexists _, _; (split; [reflexivity|split; [done|unfold ICOSSCALE; lia]]). }
  destruct (sign_split px Hx) as (sx & -> & Ex & Hsx), (sign_split py Hy) as (sy & -> & Ey & Hsy).
  assert (0 < Z.abs px /\ 0 <= Z.abs py) as [Hax Hay] by lia.
  generalize dependent (Z.abs px). intros ax Hmin Ex Hax. generalize dependent (Z.abs py). intros ay Ey Hay Hmin.
  assert (forall a b, 0 <= a -> 0 < b -> a <= b -> a <= 2147483 -> 0 <= s32 (1000 * a) ÷ b <= 1000) as Htan.
  { intros a b Ha Hb Hab Hl. rewrite s32_small by (unfold_words; lia). rewrite Z.quot_div_nonneg by lia.
    split; [apply Z.div_pos; lia|]. apply Z.div_le_upper_bound; lia. }
  destruct (Z.gtb_spec ay ax) as [Hgt|Hle].
  - pose proof (sector_check _ (Htan ax ay ltac:(lia) ltac:(lia) ltac:(lia) ltac:(lia))) as Hs. unfold sector in Hs.
    set (tan := s32 (1000 * ax) ÷ ay) in *. destruct (interpolate sinus2 _ _) as [a| | |]; try done. cbn [rbind] in Hs.
    destruct (interpolate cosinus2 _ _) as [b| | |]; try done. cbn [rbind sector_ok] in *.
    apply andb_prop in Hs as [[Ha Hab]%andb_prop Hn].
    assert (near_circle 2786 a b = true) as Hn' by (unfold near_circle in *; by rewrite Z.add_comm).
    destruct (signed_pair sx sy a b ax ay Hsx Hsy Hn') as (N & P1 & P2 & A1 & A2); [lia..|].
    exists (sx * a), (sy * b). split; [done|split; [done|split; [by rewrite Ex|split; [by rewrite Ey|rewrite A1, A2; lia]]]].
  - pose proof (sector_check _ (Htan ay ax ltac:(lia) ltac:(lia) ltac:(lia) ltac:(lia))) as Hs. unfold sector in Hs.
    set (tan := s32 (1000 * ay) ÷ ax) in *.
    destruct (interpolate sinus2 _ _) as [a| | |] eqn:Ea; try done. cbn [rbind] in Hs |- *.
    destruct (interpolate cosinus2 _ _) as [b| | |] eqn:Eb; try done. cbn [rbind sector_ok] in *.
    apply andb_prop in Hs as [[Ha Hab]%andb_prop Hn].
    destruct (signed_pair sx sy b a ax ay Hsx Hsy Hn) as (N & P1 & P2 & A1 & A2); [lia..|].
    exists (sx * b), (sy * a). split; [done|split; [done|split; [by rewrite Ex|split; [by rewrite Ey|rewrite A1, A2; split; [lia|]]]]].
    intros Hxy. assert (tan = 1000) as Et.
    { unfold tan. assert (ay = ax) as -> by lia. rewrite s32_small by (unfold_words; lia). by rewrite Z.quot_mul by lia. }
    rewrite Et in Ea, Eb. vm_compute in Ea, Eb. injection Ea as <-. injection Eb as <-. done.
Qed.

Definition tile_example : Rectangle := Rect (-3) 2 5 10.
Lemma rectangle_sets_witness :
  let r := tile_example in let b := Rect 0 0 4 4 in let p := Pt 7 (-9) in
  (let '(ok, c) := rectclip r b in
   (ok = rectXrect r b) /\
   if ok then forall q, ptinrect q c = ptinrect q r && ptinrect q b
   else c = r /\ forall q, ptinrect q r && ptinrect q b = false) /\
  (rectinrect r b = true -> forall q, ptinrect q r = true -> ptinrect q b = true) /\
  (let c := combinerect r b in
   (forall q, ptinrect q r || ptinrect q b = true -> ptinrect q c = true) /\
   (forall s, rectinrect r s = true -> rectinrect b s = true -> rectinrect c s = true)) /\
  (let c := canonrect r in
   x (rmin c) <= x (rmax c) /\ y (rmin c) <= y (rmax c) /\ canonrect c = c) /\
  rectsubpt (rectaddpt r p) p = r /\ (eqrect r b = true <-> r = b).
Proof. apply (rectangle_sets tile_example (Rect 0 0 4 4) (Pt 7 (-9))); repeat split; unfold_words; simpl; lia. Defined.
Lemma drawrepl_tiles_witness :
  exists q, drawrepl tile_example (Pt 21 (-9)) = Ok q /\ ptinrect q tile_example = true /\
    (exists k, x q = 21 + k * (5 - -3)) /\ (exists k, y q = -9 + k * (10 - 2)).
Proof. apply (drawrepl_tiles tile_example (Pt 21 (-9))); repeat split; unfold_words; simpl; lia. Defined.
Lemma units_cover_line_witness :
  (0 < 8 <= 32 -> x (rmin tile_example) <= x (rmax tile_example) -> - 2 ^ 25 <= x (rmin tile_example) ->
   x (rmax tile_example) <= 2 ^ 25 ->
   exists l, wordsperline tile_example 8 = Ok l /\
     let exact := ceil (x (rmax tile_example) * 8) 32 - (x (rmin tile_example) * 8) / 32 in
     exact <= l <= exact + 1 /\ (0 <= x (rmin tile_example) \/ 0 <= x (rmax tile_example) -> l = exact)) /\
  (8 <= 0 \/ 32 < 8 -> wordsperline tile_example 8 = Panic).
Proof. apply (units_cover_line tile_example 8 (wordsperline tile_example 8) 32). by left. Defined.
Lemma icossin2_direction_witness :
  exists c s, icossin2 300 (-400) = Ok (c, s) /\ near_circle 2786 c s = true /\ 0 <= c * 300 /\ 0 <= s * -400 /\
    (Z.abs (-400) <= Z.abs 300 -> Z.abs s <= Z.abs c) /\ (Z.abs 300 <= Z.abs (-400) -> Z.abs c <= Z.abs s).
Proof. apply (icossin2_direction 300 (-400)); simpl; lia. Defined.
