(* ===== verification/Chan.v ===== *)
(** * Channel descriptors: kernel/Libgeometry/chan.c, kernel/Libmemdraw/chan.c

    A descriptor is a 32-bit word with one byte per channel of a pixel, the
    type above and the number of bits below; [chantostr] and [strtochan] turn
    it into a string such as r5g6b5 and back.  Strings are lists of bytes, with
    the NUL where the code looks at it. *)
From S2P Require Import Prelude.

(** ** The constants of draw.h *)

Definition CRed : Z := 0.
Definition CGreen : Z := 1.
Definition CBlue : Z := 2.
Definition CGrey : Z := 3.
Definition CAlpha : Z := 4.
Definition CMap : Z := 5.
Definition CIgnore : Z := 6.
Definition NChan : Z := 7.
Definition __DC (type nbits : Z) : Z := Z.lor (Z.shiftl (Z.land type 15) 4) (Z.land nbits 15).
Definition NBITS (c : Z) : Z := Z.land c 15.
Definition TYPE (c : Z) : Z := Z.land (Z.shiftr c 4) 15.

(** ** chan.c *)

(** "rgbkamx" with its NUL. *)
Definition channames : list Z := [114; 103; 98; 107; 97; 109; 120; 0].

(** A word has at most four bytes, the fuel of the loops over them. *)
Definition bytes_of_word : nat := 5.
Fixpoint chantodepth_loop (fuel : nat) (c n : Z) : result Z :=
  match fuel with
  | O => Loop
  | S fuel =>
      if c =? 0 then
        if (n =? 0) || ((n >? 8) && negb (Z.rem n 8 =? 0)) || ((n <? 8) && negb (Z.rem 8 n =? 0)) then Ok 0 else Ok n
      else if (TYPE c >=? NChan) || (NBITS c >? 8) || (NBITS c <=? 0) then Ok 0
      else chantodepth_loop fuel (c ⋙ 8) (n + NBITS c)
  end.
Definition chantodepth (c : Z) : result Z := chantodepth_loop bytes_of_word c 0.

(** The first loop of [chantostr]: the bytes in reverse. *)
Fixpoint chan_reverse (fuel : nat) (c rc : Z) : result Z :=
  match fuel with
  | O => Loop
  | S fuel =>
      if c =? 0 then Ok rc else chan_reverse fuel (c ⋙ 8) (Z.lor (rc ⋘ 8) (Z.land c 0xFF))
  end.
(** The second: two characters for each byte. *)
Fixpoint chan_chars (fuel : nat) (c : Z) : result (list Z) :=
  match fuel with
  | O => Loop
  | S fuel =>
      if c =? 0 then Ok []
      else
        let* name := of_ptr (channames !! Z.to_nat (TYPE c)) in
        let* p := chan_chars fuel (c ⋙ 8) in
        Ok (name :: 48 + NBITS c :: p)
  end.
(** The characters stored at [buf] before the NUL; [None] is the [nil] result. *)
Definition chantostr (cc : Z) : result (option (list Z)) :=
  let* d := chantodepth cc in
  if d =? 0 then Ok None
  else
    let* rc := chan_reverse bytes_of_word cc 0 in
    let* p := chan_chars bytes_of_word rc in
    Ok (Some p).

Definition isspace (c : Z) : bool := (c =? 32) || (c =? 9) || (c =? 13) || (c =? 10).
(** [strchr(channames, c) - channames], for a [c] that is not NUL. *)
Fixpoint find_name (names : list Z) (c i : Z) : option Z :=
  match names with
  | [] => None
  | n :: names => if n =? 0 then None else if n =? c then Some i else find_name names c (i + 1)
  end.
(** The string is the list of its bytes without the NUL: at its end [*p] is 0. *)
Fixpoint skip_spaces (s : list Z) : list Z :=
  match s with
  | [] => []
  | c :: s' => if isspace c then skip_spaces s' else s
  end.
Fixpoint strtochan_loop (s : list Z) (depth chan : Z) {struct s} : Z :=
  let finish :=
    if (depth =? 0) || ((depth >? 8) && negb (Z.rem depth 8 =? 0)) || ((depth <? 8) && negb (Z.rem 8 depth =? 0))
    then 0 else chan in
  match s with
  | [] => finish
  | p0 :: s' =>
      if isspace p0 then finish
      else
        match find_name channames p0 0 with
        | None => 0
        | Some t =>
            match s' with
            | [] => 0
            | p1 :: s'' =>
                if (p1 <? 48) || (p1 >? 57) then 0
                else
                  let n := p1 - 48 in
                  strtochan_loop s'' (s32 (depth + n)) (Z.lor (chan ⋘ 8) (__DC t n))
            end
        end
  end.
Definition strtochan (s : list Z) : Z := strtochan_loop (skip_spaces s) 0 0.

(** ** memsetchan *)

Definition Fgrey : Z := Z.shiftl 1 2.
Definition Falpha : Z := Z.shiftl 1 3.
Definition Fcmap : Z := Z.shiftl 1 4.
Definition Fbytes : Z := Z.shiftl 1 5.

(** The fields of [Memimage] that [memsetchan] uses; [has_cmap] is
    [i->cmap != nil].  The arrays have [NChan] entries. *)
Record Memimage := mkMemimage {
  chan : Z; depth : Z; nchan : Z; flags : Z; has_cmap : bool;
  shift : list Z; mask : list Z; nbits : list Z }.

Definition set_field (l : list Z) (t v : Z) : list Z := <[Z.to_nat t := v]> l.
Fixpoint memsetchan_loop (fuel : nat) (i : Memimage) (cc j k : Z) (bytes : bool) : result (Memimage * Z * bool * bool) :=
  match fuel with
  | O => Loop
  | S fuel =>
      if cc =? 0 then Ok (i, k, bytes, true)
      else
        let t := TYPE cc in
        if (t <? 0) || (t >=? NChan) then Ok (i, k, bytes, false)
        else
          let fl := if t =? CGrey then Z.lor (flags i) Fgrey else flags i in
          let fl := if t =? CAlpha then Z.lor fl Falpha else fl in
          let '(fl, cm) := if (t =? CMap) && negb (has_cmap i) then (Z.lor fl Fcmap, true) else (fl, has_cmap i) in
          let i := mkMemimage (chan i) (depth i) (nchan i) fl cm
                     (set_field (shift i) t j) (set_field (mask i) t (Z.shiftl 1 (NBITS cc) - 1))
                     (set_field (nbits i) t (NBITS cc)) in
          memsetchan_loop fuel i (cc ⋙ 8) (j + NBITS cc) (k + 1) (bytes && (NBITS cc =? 8))
  end.
(** The image afterwards, and whether the call succeeded. *)
Definition memsetchan (i : Memimage) (ch : Z) : result (Memimage * bool) :=
  let* d := chantodepth ch in
  if d =? 0 then Ok (i, false)
  else
    let clear := 0xffffffff - Z.lor (Z.lor Fgrey Falpha) (Z.lor Fcmap Fbytes) in
    let i := mkMemimage ch d (nchan i) (Z.land (flags i) clear) (has_cmap i) (shift i) (mask i) (nbits i) in
    let* (i, k, bytes, ok) := memsetchan_loop bytes_of_word i ch 0 0 true in
    if negb ok then Ok (i, false)
    else
      let fl := if bytes then Z.lor (flags i) Fbytes else flags i in
      Ok (mkMemimage (chan i) (depth i) k fl (has_cmap i) (shift i) (mask i) (nbits i), true).

(** ** Specification: a descriptor as a list of channels

    From the low byte up, each a type and a number of bits. *)
Definition channel_ok (x : Z * Z) : Prop := 0 <= x.1 < 7 /\ 0 < x.2 <= 8.
Definition pack (cs : list (Z * Z)) : Z := foldr (fun x c => c * 256 + (x.1 * 16 + x.2)) 0 cs.
Definition bits (cs : list (Z * Z)) : Z := foldr (fun x n => x.2 + n) 0 cs.
Definition good_depth (n : Z) : bool :=
  negb ((n =? 0) || ((n >? 8) && negb (Z.rem n 8 =? 0)) || ((n <? 8) && negb (Z.rem 8 n =? 0))).
Definition chan_name (t : Z) : Z := nth (Z.to_nat t) channames 0.
Definition chan_string (cs : list (Z * Z)) : list Z := flat_map (fun x => [chan_name x.1; 48 + x.2]) cs.

(** ** Lemmas *)

Lemma TYPE_word c : 0 <= c -> TYPE c = c / 16 mod 16.
Proof. intros Hc. unfold TYPE. change 15 with (2 ^ 4 - 1). by rewrite land_mask, shiftr_div by lia. Qed.
Lemma NBITS_word c : NBITS c = c mod 16.
Proof. unfold NBITS. change 15 with (2 ^ 4 - 1). by rewrite land_mask by lia. Qed.
Lemma byte_fields c t n : 0 <= c -> 0 <= t < 16 -> 0 <= n < 16 ->
  TYPE (c * 256 + (t * 16 + n)) = t /\ NBITS (c * 256 + (t * 16 + n)) = n /\
  (c * 256 + (t * 16 + n)) ⋙ 8 = c /\ Z.land (c * 256 + (t * 16 + n)) 0xFF = t * 16 + n.
Proof.
  intros Hc Ht Hn. rewrite TYPE_word, NBITS_word, shiftr_div by lia. change 0xFF with (2 ^ 8 - 1).
  rewrite land_mask by lia. change (2 ^ 8) with 256. repeat split; zlia.
Qed.
Lemma DC_word t n : 0 <= t < 16 -> 0 <= n < 16 -> __DC t n = t * 16 + n.
Proof.
  intros Ht Hn. unfold __DC. change 15 with (2 ^ 4 - 1). rewrite !land_mask, shiftl_mul by lia.
  change (2 ^ 4) with 16. rewrite !Z.mod_small by lia. by apply (lor_add t n 4).
Qed.
Lemma pack_nonneg cs : Forall channel_ok cs -> 0 <= pack cs.
Proof. unfold pack, channel_ok. induction 1 as [|[t n] cs H _ IH]; simpl in *; lia. Qed.
Lemma pack_bound cs : Forall channel_ok cs -> pack cs < 256 ^ Z.of_nat (length cs).
Proof.
  unfold pack, channel_ok. induction 1 as [|[t n] cs H _ IH]; simpl length in *; cbn [foldr fst snd] in *; [lia|].
  rewrite Nat2Z.inj_succ, Z.pow_succ_r by lia. lia.
Qed.
Lemma pack_zero cs : Forall channel_ok cs -> pack cs =? 0 = match cs with [] => true | _ => false end.
Proof.
  intros H. destruct cs as [|[t n] cs]; [done|]. apply Forall_cons in H as [Hx H]. pose proof (pack_nonneg cs H).
  unfold channel_ok in Hx. unfold pack in *. cbn [foldr fst snd] in *. lia.
Qed.
Lemma chantodepth_pack fuel cs n :
  Forall channel_ok cs -> (length cs < fuel)%nat ->
  chantodepth_loop fuel (pack cs) n = Ok (if good_depth (n + bits cs) then n + bits cs else 0).
Proof.
  intros H. revert fuel n. induction H as [|[t b] cs Hx H IH]; intros fuel n Hf; destruct fuel as [|fuel]; simpl in Hf; try lia; cbn [chantodepth_loop].
  - cbn. rewrite Z.add_0_r. unfold good_depth. by destruct (_ || _).
  - rewrite pack_zero by (by constructor). unfold channel_ok in Hx. cbn [fst snd] in Hx.
    destruct (byte_fields (pack cs) t b (pack_nonneg cs H)) as (E1 & E2 & E3 & _); [lia..|].
    change (pack ((t, b) :: cs)) with (pack cs * 256 + (t * 16 + b)). rewrite E1, E2, E3. unfold NChan.
    assert ((t >=? 7) || (b >? 8) || (b <=? 0) = false) as -> by lia. rewrite IH by lia.
    change (bits ((t, b) :: cs)) with (b + bits cs). by rewrite Z.add_assoc.
Qed.
(** Every word that [chantodepth] accepts is a packed list. *)
Lemma chantodepth_unpack fuel c n d :
  0 <= c < 256 ^ Z.of_nat fuel -> chantodepth_loop (S fuel) c n = Ok d -> d <> 0 ->
  exists cs, Forall channel_ok cs /\ c = pack cs /\ (length cs <= fuel)%nat.
Proof.
  revert c n. induction fuel as [|fuel IH]; intros c n Hc Hd Hne; cbn [chantodepth_loop] in Hd.
  { exists []. split; [done|]. change (256 ^ Z.of_nat 0) with 1 in Hc. split; [unfold pack; simpl; lia|done]. }
  destruct (Z.eqb_spec c 0) as [->|Hc0]; [exists []; split; [done|split; [done|simpl; lia]]|].
  destruct ((TYPE c >=? NChan) || (NBITS c >? 8) || (NBITS c <=? 0)) eqn:E; [by injection Hd as <-|].
  rewrite Nat2Z.inj_succ, Z.pow_succ_r in Hc by lia.
  destruct (IH (c ⋙ 8) (n + NBITS c)) as (cs & H1 & H2 & H3); [|exact Hd|done|].
  { rewrite shiftr_div by lia. change (2 ^ 8) with 256. zlia. }
  exists ((TYPE c, NBITS c) :: cs). unfold NChan in E. rewrite TYPE_word, NBITS_word, shiftr_div in * by lia.
  change (2 ^ 8) with 256 in *. split; [constructor; [unfold channel_ok; simpl; zlia|done]|]. split; [|simpl; lia].
  change (pack ((c / 16 mod 16, c mod 16) :: cs)) with (pack cs * 256 + (c / 16 mod 16 * 16 + c mod 16)). rewrite <-H2. zlia.
Qed.

Lemma pack_cons t b cs : pack ((t, b) :: cs) = pack cs * 256 + (t * 16 + b).
Proof. done. Qed.
Lemma push_channel t b acc :
  Forall channel_ok ((t, b) :: acc) -> (length acc < 4)%nat ->
  Z.lor (pack acc ⋘ 8) (t * 16 + b) = pack ((t, b) :: acc).
Proof.
  intros [[Hx1 Hx2] H]%Forall_cons Hl. cbn [fst snd] in *. pose proof (pack_nonneg acc H). pose proof (pack_bound acc H) as Hb.
  assert (256 ^ Z.of_nat (length acc) <= 256 ^ 3) by (apply Z.pow_le_mono_r; lia).
  rewrite shiftl_mul by lia. rewrite u32_small by (unfold_words; lia). rewrite pack_cons. by apply lor_add; lia.
Qed.
Lemma chan_reverse_pack fuel cs acc :
  Forall channel_ok cs -> Forall channel_ok acc -> (length cs < fuel)%nat -> (length cs + length acc <= 4)%nat ->
  chan_reverse fuel (pack cs) (pack acc) = Ok (pack (rev cs ++ acc)).
Proof.
  intros H. revert fuel acc. induction H as [|[t b] cs Hx H IH]; intros fuel acc Ha Hf Hl;
    (destruct fuel as [|fuel]; [simpl in Hf; lia|]); cbn [chan_reverse]; [done|].
  rewrite pack_zero by (by constructor). destruct Hx as [Hx1 Hx2]. cbn [fst snd] in *.
  destruct (byte_fields (pack cs) t b (pack_nonneg cs H)) as (_ & _ & E3 & E4); [lia..|].
  rewrite pack_cons, E3, E4. simpl in Hl, Hf. rewrite push_channel; [|by constructor|lia].
  rewrite IH; [|by constructor|lia|simpl; lia]. cbn [rev]. by rewrite <-app_assoc.
Qed.
Lemma chan_name_lookup t : 0 <= t < 7 -> channames !! Z.to_nat t = Some (chan_name t).
Proof.
  intros Ht. assert (t = 0 \/ t = 1 \/ t = 2 \/ t = 3 \/ t = 4 \/ t = 5 \/ t = 6) as H by lia.
  destruct H as [-> | [-> | [-> | [-> | [-> | [-> | ->]]]]]]; reflexivity.
Qed.
Lemma find_chan_name t : 0 <= t < 7 -> find_name channames (chan_name t) 0 = Some t /\ isspace (chan_name t) = false.
Proof.
  intros Ht. assert (t = 0 \/ t = 1 \/ t = 2 \/ t = 3 \/ t = 4 \/ t = 5 \/ t = 6) as H by lia.
  destruct H as [-> | [-> | [-> | [-> | [-> | [-> | ->]]]]]]; split; reflexivity.
Qed.
Lemma chan_chars_pack fuel cs :
  Forall channel_ok cs -> (length cs < fuel)%nat -> chan_chars fuel (pack cs) = Ok (chan_string cs).
Proof.
  intros H. revert fuel. induction H as [|[t b] cs Hx H IH]; intros fuel Hf;
    (destruct fuel as [|fuel]; [simpl in Hf; lia|]); cbn [chan_chars]; [done|].
  rewrite pack_zero by (by constructor). destruct Hx as [Hx1 Hx2]. cbn [fst snd] in *.
  destruct (byte_fields (pack cs) t b (pack_nonneg cs H)) as (E1 & E2 & E3 & _); [lia..|].
  rewrite pack_cons, E1, E2, E3, chan_name_lookup by done. cbn [of_ptr rbind].
  rewrite IH by (simpl in Hf; lia). done.
Qed.
Lemma strtochan_string l acc dep :
  Forall channel_ok l -> Forall channel_ok acc -> (length l + length acc <= 4)%nat -> 0 <= dep <= 8 * Z.of_nat (length acc) ->
  strtochan_loop (chan_string l) dep (pack acc) =
    if good_depth (dep + bits l) then pack (rev l ++ acc) else 0.
Proof.
  intros H. revert acc dep. induction H as [|[t b] l Hx H IH]; intros acc dep Ha Hl Hd.
  - cbn. rewrite Z.add_0_r. unfold good_depth. by destruct (_ || _).
  - destruct Hx as [Hx1 Hx2]. cbn [fst snd] in *. destruct (find_chan_name t Hx1) as [Ef Es].
    cbn [chan_string flat_map app fst snd strtochan_loop]. rewrite Es, Ef.
    assert ((48 + b <? 48) || (48 + b >? 57) = false) as -> by lia. replace (48 + b - 48) with b by lia.
    rewrite DC_word by lia. rewrite push_channel; [|by constructor|simpl in Hl; lia].
    simpl in Hl. rewrite (s32_small (dep + b)) by (unfold_words; lia). fold (chan_string l).
    change (bits ((t, b) :: l)) with (b + bits l). rewrite Z.add_assoc. cbn [rev]. rewrite <-app_assoc.
    apply IH; [by constructor|simpl; lia|simpl length; lia].
Qed.
Lemma bits_rev cs : bits (rev cs) = bits cs.
Proof.
  assert (forall l1 l2, bits (l1 ++ l2) = bits l1 + bits l2) as Happ by (induction l1; intros; simpl; [done|rewrite IHl1; lia]).
  induction cs as [|x cs IH]; [done|]. cbn [rev]. rewrite Happ, IH. simpl. lia.
Qed.

(** ** [memsetchan] *)

(** The entries of the three arrays for the types of [cs], the low byte of
    which is [j] bits from the bottom of the pixel. *)
Definition laid_out (i : Memimage) (t j n : Z) : Prop :=
  shift i !! Z.to_nat t = Some j /\ nbits i !! Z.to_nat t = Some n /\ mask i !! Z.to_nat t = Some (2 ^ n - 1).
Definition arrays_ok (i : Memimage) : Prop :=
  length (shift i) = 7%nat /\ length (mask i) = 7%nat /\ length (nbits i) = 7%nat.

Lemma laid_out_set i t j n (i' : Memimage) :
  0 <= t < 7 -> 0 < n <= 8 -> arrays_ok i ->
  shift i' = set_field (shift i) t j -> mask i' = set_field (mask i) t (Z.shiftl 1 n - 1) ->
  nbits i' = set_field (nbits i) t n ->
  arrays_ok i' /\ laid_out i' t j n /\
  (forall t' j' n', 0 <= t' -> t' <> t -> laid_out i t' j' n' -> laid_out i' t' j' n').
Proof.
  intros Ht Hn (L1 & L2 & L3) E1 E2 E3. unfold arrays_ok, laid_out. rewrite E1, E2, E3. unfold set_field.
  rewrite !length_insert. split; [done|]. split.
  - rewrite !list_lookup_insert_eq by lia. by rewrite shiftl_mul, Z.mul_1_l by lia.
  - intros t' j' n' Ht' Hne (? & ? & ?). by rewrite !list_lookup_insert_ne by lia.
Qed.
Lemma memsetchan_loop_pack fuel i cs j k bytes :
  Forall channel_ok cs -> NoDup cs.*1 -> (length cs < fuel)%nat -> arrays_ok i ->
  exists i', memsetchan_loop fuel i (pack cs) j k bytes =
      Ok (i', k + Z.of_nat (length cs), bytes && forallb (fun x => x.2 =? 8) cs, true) /\
    arrays_ok i' /\ (chan i' = chan i /\ depth i' = depth i /\ Z.testbit (flags i') 5 = Z.testbit (flags i) 5) /\
    (forall cs1 t n cs2, cs = cs1 ++ (t, n) :: cs2 -> laid_out i' t (j + bits cs1) n) /\
    (forall t' j' n', 0 <= t' -> t' ∉ cs.*1 -> laid_out i t' j' n' -> laid_out i' t' j' n').
Proof.
  intros H. revert fuel i j k bytes. induction H as [|[t b] cs Hx H IH]; intros fuel i j k bytes Hnd Hf Hi;
    (destruct fuel as [|fuel]; [simpl in Hf; lia|]); cbn [memsetchan_loop].
  - exists i. rewrite andb_true_r. cbn. rewrite Z.add_0_r. split; [done|split; [done|split; [done|split; [|done]]]].
    intros [|] ? ? ?; done.
  - rewrite pack_zero by (by constructor). destruct Hx as [Hx1 Hx2]. cbn [fst snd] in *.
    destruct (byte_fields (pack cs) t b (pack_nonneg cs H)) as (E1 & E2 & E3 & _); [lia..|].
    rewrite pack_cons, E1, E2, E3. assert ((t <? 0) || (t >=? NChan) = false) as -> by (unfold NChan; lia).
    set (fl := if t =? CAlpha then _ else _). destruct (if _ && _ then _ else _) as [fl' cm'] eqn:Efl.
    assert (Z.testbit fl' 5 = Z.testbit (flags i) 5) as Hb5.
    { assert (Z.testbit fl 5 = Z.testbit (flags i) 5) as <-.
      { subst fl. destruct (t =? CGrey), (t =? CAlpha); rewrite ?Z.lor_spec; change (Z.testbit Fgrey 5) with false; change (Z.testbit Falpha 5) with false;
          by rewrite ?orb_false_r. }
      destruct (_ && _) in Efl; injection Efl as <- _; [|done].
      rewrite Z.lor_spec. change (Z.testbit Fcmap 5) with false. by rewrite orb_false_r. }
    set (i1 := mkMemimage _ _ _ _ _ _ _ _).
    destruct (laid_out_set i t j b i1 Hx1 Hx2 Hi eq_refl eq_refl eq_refl) as (Hi1 & Hl1 & Hk1).
    cbn [fmap list_fmap fst] in Hnd. apply NoDup_cons in Hnd as [Hnin Hnd].
    destruct (IH fuel i1 (j + b) (k + 1) (bytes && (b =? 8)) Hnd ltac:(simpl in Hf; lia) Hi1)
      as (i' & -> & Hi' & (Hc & Hd & Hb) & Hl & Hk).
    exists i'. split.
    { cbn [length forallb snd]. rewrite andb_assoc. do 3 f_equal. f_equal. lia. }
    split; [done|split; [rewrite Hc, Hd, Hb; done|split]].
    + intros [|[t0 b0] cs1] t' n cs2 Heq; injection Heq as E4 E5 E6.
      * subst. cbn. rewrite Z.add_0_r. apply Hk; [lia|done|done].
      * subst t0 b0. change (bits ((t, b) :: cs1)) with (b + bits cs1). rewrite Z.add_assoc. by apply (Hl cs1 t' n cs2).
    + intros t' j' n' Ht' Hnin' Hlo. cbn [fmap list_fmap fst] in Hnin'. apply not_elem_of_cons in Hnin' as [Hne Hnin'].
      apply Hk; [done|done|]. by apply Hk1.
Qed.
Lemma laid_out_fields cs1 t1 n1 cs2 t2 n2 cs3 j :
  let cs := cs1 ++ (t1, n1) :: cs2 ++ (t2, n2) :: cs3 in
  Forall channel_ok cs ->
  0 <= bits cs1 /\ j + bits cs1 + n1 <= j + bits (cs1 ++ (t1, n1) :: cs2) /\ bits (cs1 ++ (t1, n1) :: cs2) + n2 <= bits cs.
Proof.
  intros cs Hok.
  assert (forall l1 l2, bits (l1 ++ l2) = bits l1 + bits l2) as Happ by (induction l1; intros; simpl; [done|rewrite IHl1; lia]).
  assert (forall l, Forall channel_ok l -> 0 <= bits l) as Hpos.
  { induction 1 as [|x l [_ Hx] _ IH]; simpl; lia. }
  unfold cs in *. apply Forall_app in Hok as [H1 [_ [H2 [_ H3]%Forall_cons]%Forall_app]%Forall_cons].
  rewrite !Happ. cbn [bits foldr snd]. fold (bits (cs2 ++ (t2, n2) :: cs3)) (bits cs2). rewrite Happ. cbn [bits foldr snd].
  fold (bits cs3). pose proof (Hpos _ H1). pose proof (Hpos _ H2). pose proof (Hpos _ H3). lia.
Qed.

(** ** Properties *)

(** The channel descriptors and their strings: [chantodepth] accepts
    exactly the packed lists of one to four known channels of 1 to 8 bits whose
    total divides or is a multiple of 8, and gives that total; [chantostr]
    writes the channels from the high byte down, and [strtochan] reads its
    string back to the same word. *)
Theorem chan_roundtrip c d :
  is_u32 c -> chantodepth c = Ok d ->
  (d <> 0 <-> exists cs, Forall channel_ok cs /\ c = pack cs /\ (length cs <= 4)%nat /\ good_depth (bits cs) = true /\ d = bits cs) /\
  (d = 0 -> chantostr c = Ok None) /\
  (d <> 0 -> exists s, chantostr c = Ok (Some s) /\ strtochan s = c).
Proof.
  intros Hc Hd.
  assert (d <> 0 -> exists cs, Forall channel_ok cs /\ c = pack cs /\ (length cs <= 4)%nat /\ good_depth (bits cs) = true /\ d = bits cs) as Hun.
  { intros Hne. destruct (chantodepth_unpack 4 c 0 d Hc Hd Hne) as (cs & H1 & -> & H3). exists cs. split; [done|split; [done|split; [done|]]].
    unfold chantodepth in Hd. rewrite chantodepth_pack in Hd by (done || unfold bytes_of_word; lia).
    rewrite Z.add_0_l in Hd. destruct (good_depth (bits cs)); [|by injection Hd as <-]. by injection Hd as <-. }
  split; [split; [done|]|split].
  - intros (cs & _ & _ & _ & Hg & ->) H0. unfold good_depth in Hg. rewrite H0 in Hg. done.
  - intros ->. unfold chantostr. by rewrite Hd.
  - intros Hne. destruct (Hun Hne) as (cs & H1 & -> & H3 & Hg & _). exists (chan_string (rev cs)).
    assert (Forall channel_ok (rev cs)) as H1r by (apply Forall_rev in H1; by rewrite rev_alt in *; rewrite <-rev_alt in *).
    split.
    + unfold chantostr. rewrite Hd. cbn [rbind]. assert (d =? 0 = false) as -> by lia.
      pose proof (chan_reverse_pack bytes_of_word cs [] H1 ltac:(constructor) ltac:(unfold bytes_of_word; lia) ltac:(simpl; lia)) as Hr.
      change (pack []) with 0 in Hr. rewrite Hr, app_nil_r. cbn [rbind].
      rewrite chan_chars_pack; [done|done|]. rewrite length_rev. unfold bytes_of_word. lia.
    + unfold strtochan. assert (skip_spaces (chan_string (rev cs)) = chan_string (rev cs)) as ->.
      { destruct (rev cs) as [|[t n] l]; [done|]. apply Forall_cons in H1r as [[Ht _] _].
        cbn [chan_string flat_map app fst skip_spaces]. by destruct (find_chan_name t Ht) as [_ ->]. }
      change 0 with (pack []) at 2. rewrite strtochan_string; [|done|constructor|rewrite length_rev; simpl; lia|simpl; lia].
      rewrite Z.add_0_l, bits_rev, Hg, rev_involutive, app_nil_r. done.
Qed.

(** [strtochan] accepts more than [chantodepth]: nine bits in a channel. *)
Example strtochan_accepts_r9g7 :
  strtochan [114; 57; 103; 55] = 0x0917 /\ chantodepth 0x0917 = Ok 0 /\ chantostr 0x0917 = Ok None.
Proof. vm_compute. done. Qed.

(** [memsetchan] refuses a bad descriptor without touching the image, and
    for a good one with distinct channels lays the channels out from bit 0 up in
    fields that do not overlap and fill the depth, with the masks of their
    sizes; it counts the channels and sets [Fbytes] exactly when all have 8
    bits. *)
Theorem memsetchan_layout i c d :
  is_u32 c -> arrays_ok i -> chantodepth c = Ok d ->
  (d = 0 -> memsetchan i c = Ok (i, false)) /\
  (forall cs, d <> 0 -> c = pack cs -> Forall channel_ok cs -> NoDup cs.*1 -> (length cs <= 4)%nat ->
   exists i', memsetchan i c = Ok (i', true) /\ arrays_ok i' /\ chan i' = c /\ depth i' = d /\ d = bits cs /\
     nchan i' = Z.of_nat (length cs) /\ Z.testbit (flags i') 5 = forallb (fun x => x.2 =? 8) cs /\
     (forall cs1 t n cs2, cs = cs1 ++ (t, n) :: cs2 -> laid_out i' t (bits cs1) n) /\
     (forall cs1 t1 n1 cs2 t2 n2 cs3, cs = cs1 ++ (t1, n1) :: cs2 ++ (t2, n2) :: cs3 ->
        bits cs1 + n1 <= bits (cs1 ++ (t1, n1) :: cs2) /\ bits (cs1 ++ (t1, n1) :: cs2) + n2 <= d)).
Proof.
  intros Hc Hi Hd. split; [intros ->; unfold memsetchan; by rewrite Hd|].
  intros cs Hne -> Hok Hnd Hlen. unfold memsetchan. rewrite Hd. cbn [rbind]. assert (d =? 0 = false) as -> by lia.
  set (i0 := mkMemimage _ _ _ _ _ _ _ _). assert (arrays_ok i0) as Hi0 by exact Hi.
  destruct (memsetchan_loop_pack bytes_of_word i0 cs 0 0 true Hok Hnd ltac:(unfold bytes_of_word; lia) Hi0)
    as (i1 & -> & Hi1 & (Hc1 & Hd1 & Hb1) & Hl & _). cbn [rbind negb].
  assert (d = bits cs) as Ed.
  { unfold chantodepth in Hd. rewrite chantodepth_pack in Hd by (done || unfold bytes_of_word; lia).
    rewrite Z.add_0_l in Hd. destruct (good_depth (bits cs)); [by injection Hd|]. injection Hd as <-. done. }
  assert (Z.testbit (flags i0) 5 = false) as Hb0 by (unfold i0; cbn [flags]; rewrite Z.land_spec; apply andb_false_r).
  rewrite Hb0 in Hb1. eexists. split; [reflexivity|]. cbn [chan depth nchan flags andb].
  split; [exact Hi1|split; [by rewrite Hc1|split; [by rewrite Hd1|split; [done|split; [done|split; [|split]]]]]].
  - destruct (forallb _ cs); [by rewrite Z.lor_spec, Hb1|exact Hb1].
  - intros cs1 t n cs2 E. exact (Hl cs1 t n cs2 E).
  - intros cs1 t1 n1 cs2 t2 n2 cs3 ->. rewrite Ed. pose proof (laid_out_fields cs1 t1 n1 cs2 t2 n2 cs3 0 Hok). lia.
Qed.

Lemma chan_roundtrip_witness :
  (16 <> 0 <-> exists cs, Forall channel_ok cs /\ 0x051625 = pack cs /\ (length cs <= 4)%nat /\
     good_depth (bits cs) = true /\ 16 = bits cs) /\
  (16 = 0 -> chantostr 0x051625 = Ok None) /\
  (16 <> 0 -> exists s, chantostr 0x051625 = Ok (Some s) /\ strtochan s = 0x051625).
Proof. apply (chan_roundtrip 0x051625 16); [unfold_words; lia|reflexivity]. Defined.
Definition image_example : Memimage := mkMemimage 0 0 0 0 false (repeat 0 7) (repeat 0 7) (repeat 0 7).
Lemma memsetchan_layout_witness :
  exists i', memsetchan image_example 0x051625 = Ok (i', true) /\ arrays_ok i' /\ chan i' = 0x051625 /\ depth i' = 16 /\
     16 = bits [(2, 5); (1, 6); (0, 5)] /\ nchan i' = 3 /\ Z.testbit (flags i') 5 = forallb (fun x => x.2 =? 8) [(2, 5); (1, 6); (0, 5)] /\
     (forall cs1 t n cs2, [(2, 5); (1, 6); (0, 5)] = cs1 ++ (t, n) :: cs2 -> laid_out i' t (bits cs1) n) /\
     (forall cs1 t1 n1 cs2 t2 n2 cs3, [(2, 5); (1, 6); (0, 5)] = cs1 ++ (t1, n1) :: cs2 ++ (t2, n2) :: cs3 ->
        bits cs1 + n1 <= bits (cs1 ++ (t1, n1) :: cs2) /\ bits (cs1 ++ (t1, n1) :: cs2) + n2 <= 16).
Proof.
  apply (memsetchan_layout image_example 0x051625 16); [unfold_words; lia|done|reflexivity|done|reflexivity| | |simpl; lia].
  - repeat first [apply Forall_nil_2 | apply Forall_cons_2]; unfold channel_ok; simpl; lia.
  - apply (bool_decide_unpack _). vm_compute. exact I.
Defined.
