(* ===== verification/Tod.v ===== *)
(** * The time of day: kernel/Port/tod.c and kernel/Port/mul64fract.c

    [tod] converts the ticks of the fast clock into nanoseconds since the
    epoch with a 32.32 fixed-point multiplier.  A [vlong] is kept as its signed
    value, a [uvlong] and a [ulong] as the word.  What the hardware answers during one
    call (the fast clock, its frequency, the tick counter of the first CPU) is
    an argument of the call.  The locks around the accesses are the subject of
    [Taslock]. *)
From stdpp Require Import list sorting.
From Stdlib Require Import Sorted.
From S2P Require Import Prelude.

(** ** Fixed-point arithmetic *)

(** The middle 64 bits of the product of [a] and [b]. *)
Definition arch_mul64fract (a b : Z) : Z :=
  let bl := Z.land b 0xffffffff in
  let bh := Z.shiftr b 32 in
  let al := Z.land a 0xffffffff in
  let ah := Z.shiftr a 32 in
  let res := Z.shiftr (u64 (al * bl)) 32 in
  let res := u64 (res + u64 (al * bh)) in
  let res := u64 (res + u64 (ah * bl)) in
  u64 (res + u64 (Z.shiftl (u64 (ah * bh)) 32)).

Definition mk64fract (to from : Z) : Z := u64 (Z.shiftl to 32) / from.

Definition TODFREQ : Z := 1000000000.
Definition MicroFREQ : Z := 1000000.
Definition Arch_HZ : Z := 1.

(** ** State *)

(** [struct TOD], less its lock. *)
Record TOD := mkTOD {
  tod_init : bool; tod_cnt : Z;
  tod_multiplier : Z; tod_divider : Z; tod_umultiplier : Z; tod_udivider : Z;
  tod_hz : Z; tod_last : Z; tod_off : Z; tod_lasttime : Z; tod_delta : Z;
  tod_sstart : Z; tod_send : Z }.

(** The hardware during one call: the readings of the fast clock by [todinit] and by the
    function itself, the frequency [arch_fastticks] stores through its
    argument, and [CPUS(0)->ticks]. *)
Record Hw := mkHw { hw_init : Z; hw_hz : Z; hw_fast : Z; hw_ticks : Z }.

(** ** Operations *)

Definition todsetfreq (f : Z) (tod : TOD) : result TOD :=
  if f <=? 0 then Panic
  else
    let '(mkTOD init cnt _ _ _ _ _ last off lasttime delta sstart send) := tod in
    Ok (mkTOD init cnt
          (mk64fract TODFREQ f) (u64 (mk64fract f TODFREQ + 1))
          (mk64fract MicroFREQ f) (u64 (mk64fract f MicroFREQ + 1))
          f last off lasttime delta sstart send).

Definition todinit (hw : Hw) (tod : TOD) : result TOD :=
  if tod_init tod then Ok tod
  else
    let '(mkTOD _ cnt m d um ud _ _ off lasttime delta sstart send) := tod in
    let hz := s64 (hw_hz hw) in
    todsetfreq hz (mkTOD true cnt m d um ud hz (s64 (hw_init hw)) off lasttime delta sstart send).

(** The correction [todset] installs for a negative [t]: [(delta, n)]. *)
Definition todset_correction (delta n : Z) : Z * Z :=
  let n := if n <=? 0 then 1 else n in
  let n := s32 (n * Arch_HZ) in
  let n := if (delta <? 0) && (n >? s64 (- delta)) then s32 (s64 (- delta)) else n in
  let n := if (delta >? 0) && (n >? delta) then s32 delta else n in
  if n =? 0 then (0, n) else (s64 (Z.quot delta n), n).

Definition todset (t delta n : Z) (hw : Hw) (tod : TOD) : result TOD :=
  let* tod := todinit hw tod in
  let '(mkTOD init cnt m d um ud hz last off lasttime delta0 sstart send) := tod in
  if t >=? 0 then
    Ok (mkTOD init cnt m d um ud hz (s64 (hw_fast hw)) t 0 0 send send)
  else
    let '(delta, n) := todset_correction delta n in
    let sstart := hw_ticks hw in
    Ok (mkTOD init cnt m d um ud hz last off lasttime delta sstart (u32 (sstart + n))).

(** "add in correction": one [todget] applies the part of the correction that
    is due; the result is [(off, sstart)]. *)
Definition todget_correct (hw : Hw) (tod : TOD) : Z * Z :=
  if negb (tod_sstart tod =? tod_send tod) then
    let t := hw_ticks hw in
    let t := if t >=? tod_send tod then tod_send tod else t in
    (s64 (tod_off tod + s64 (tod_delta tod * u32 (t - tod_sstart tod))), t)
  else (tod_off tod, tod_sstart tod).

(** The result is the time and what is stored through [ticksp]. *)
Definition todget (hw : Hw) (tod : TOD) : result (TOD * (Z * Z)) :=
  let* tod := todinit hw tod in
  let ticks := s64 (hw_fast hw) in
  let '(off, sstart) := todget_correct hw tod in
  let '(mkTOD init cnt m d um ud hz last _ lasttime delta _ send) := tod in
  let cnt := u32 (cnt + 1) in
  let diff := s64 (ticks - last) in
  let diff := if diff <? 0 then 0 else diff in
  let x := arch_mul64fract (u64 diff) m in
  let x := u64 (x + off) in
  let '(x, lasttime) := if x <? u64 lasttime then (u64 lasttime, lasttime) else (x, s64 x) in
  Ok (mkTOD init cnt m d um ud hz last off lasttime delta sstart send, (s64 x, ticks)).

Definition todfix (hw : Hw) (tod : TOD) : TOD :=
  let '(mkTOD init cnt m d um ud hz last off lasttime delta sstart send) := tod in
  let ticks := s64 (hw_fast hw) in
  let diff := s64 (ticks - last) in
  if diff >? hz then
    let x := arch_mul64fract (u64 diff) m in
    let x := u64 (x + off) in
    mkTOD init cnt m d um ud hz ticks (s64 x) lasttime delta sstart send
  else tod.

Definition seconds (hw : Hw) (tod : TOD) : result (TOD * Z) :=
  let* (tod, (t, _)) := todget hw tod in Ok (tod, s32 (u64 t / TODFREQ)).

Definition fastticks2us (ticks : Z) (hw : Hw) (tod : TOD) : result (TOD * Z) :=
  let* tod := todinit hw tod in Ok (tod, arch_mul64fract ticks (tod_umultiplier tod)).

Definition ns2fastticks (ns : Z) (hw : Hw) (tod : TOD) : result (TOD * Z) :=
  let* tod := todinit hw tod in Ok (tod, arch_mul64fract ns (tod_divider tod)).

(** ** Histories of calls *)

Inductive call :=
  | Cget (hw : Hw) | Cset (t delta n : Z) (hw : Hw) | Cfix (hw : Hw) | Cfreq (f : Z)
  | Cns2fastticks (ns : Z) (hw : Hw).

(** One call, with the times it returned. *)
Definition run1 (c : call) (tod : TOD) : result (TOD * list Z) :=
  match c with
  | Cget hw => let* (tod, (x, _)) := todget hw tod in Ok (tod, [x])
  | Cset t delta n hw => let* tod := todset t delta n hw tod in Ok (tod, [])
  | Cfix hw => Ok (todfix hw tod, [])
  | Cfreq f => let* tod := todsetfreq f tod in Ok (tod, [])
  | Cns2fastticks ns hw => let* (tod, _) := ns2fastticks ns hw tod in Ok (tod, [])
  end.
Fixpoint run (cs : list call) (tod : TOD) : result (TOD * list Z) :=
  match cs with
  | [] => Ok (tod, [])
  | c :: cs =>
      let* (tod, ts) := run1 c tod in
      let* (tod, ts') := run cs tod in Ok (tod, ts ++ ts')
  end.

(** A call that does not set the clock, and cannot panic. *)
Definition adjusts (c : call) : Prop :=
  match c with
  | Cset t _ _ hw => t < 0 /\ 0 < s64 (hw_hz hw)
  | Cfreq f => 0 < f
  | Cget hw | Cns2fastticks _ hw => 0 < s64 (hw_hz hw)
  | Cfix _ => True
  end.

(** ** The fixed-point product *)

Lemma mul_split (ah al bh bl w : Z) :
  0 < w ->
  (ah * w + al) * (bh * w + bl) / w = ah * bh * w + ah * bl + al * bh + al * bl / w.
Proof.
  intros. replace ((ah * w + al) * (bh * w + bl))
    with (al * bl + (ah * bh * w + ah * bl + al * bh) * w) by ring.
  rewrite Z.div_add by lia. lia.
Qed.
Lemma halves a : is_u64 a ->
  exists h l, a mod 2 ^ 32 = l /\ a / 2 ^ 32 = h /\ a = h * 2 ^ 32 + l /\ is_u32 l /\ is_u32 h.
Proof.
  intros Ha. exists (a / 2 ^ 32), (a mod 2 ^ 32). unfold_words.
  pose proof (Z.div_mod a (2 ^ 32)). pose proof (Z.mod_pos_bound a (2 ^ 32)). zlia.
Qed.
Lemma arch_mul64fract_eq a b :
  is_u64 a -> is_u64 b -> arch_mul64fract a b = u64 (a * b / 2 ^ 32).
Proof.
  intros (ah & al & Ea1 & Ea2 & Ea & Hal & _)%halves (bh & bl & Eb1 & Eb2 & Eb & Hbl & _)%halves.
  unfold arch_mul64fract. rewrite !(land_mask _ 32), !(shiftr_div _ 32), shiftl_mul by lia.
  rewrite Ea1, Ea2, Eb1, Eb2, Ea, Eb, (mul_split ah al bh bl) by lia.
  assert (u64 (al * bl) = al * bl) as -> by (apply u64_small; unfold_words; nia).
  unfold u64. rewrite ?Zplus_mod_idemp_l, ?Zplus_mod_idemp_r, ?Zmult_mod_idemp_l.
  rewrite (Zplus_mod _ ((ah * bh) mod 2 ^ 64 * 2 ^ 32)), Zmult_mod_idemp_l, <-Zplus_mod.
  rewrite <-Z.add_assoc, Zplus_mod_idemp_l, Z.add_comm, <-Z.add_assoc, Zplus_mod_idemp_l.
  f_equal. ring.
Qed.
(** Without overflow, the product is the exact one rounded down. *)
Lemma arch_mul64fract_exact a b :
  is_u64 a -> is_u64 b -> a * b / 2 ^ 32 < 2 ^ 64 -> arch_mul64fract a b = a * b / 2 ^ 32.
Proof.
  intros. rewrite arch_mul64fract_eq by done. apply u64_small. unfold_words.
  split; [apply Z.div_pos; nia|done].
Qed.

#[local] Arguments arch_mul64fract : simpl never.
#[local] Arguments mk64fract : simpl never.
#[local] Arguments u64 : simpl never.
#[local] Arguments s64 : simpl never.
#[local] Arguments u32 : simpl never.
#[local] Arguments s32 : simpl never.
#[local] Arguments Z.mul : simpl never.
#[local] Arguments Z.pow : simpl never.

Ltac tod_fields :=
  cbn [tod_init tod_cnt tod_multiplier tod_divider tod_umultiplier tod_udivider tod_hz tod_last
       tod_off tod_lasttime tod_delta tod_sstart tod_send] in *.

(** ** Time does not go backwards *)

Lemma todsetfreq_ok f tod :
  0 < f -> exists tod', todsetfreq f tod = Ok tod' /\ tod_lasttime tod' = tod_lasttime tod.
Proof. intros. unfold todsetfreq. case_tests; [lia|]. destruct tod. by eexists. Qed.
Lemma todinit_ok hw tod :
  0 < s64 (hw_hz hw) ->
  exists tod', todinit hw tod = Ok tod' /\ tod_lasttime tod' = tod_lasttime tod.
Proof.
  intros. unfold todinit. destruct (tod_init tod); [by exists tod|]. destruct tod.
  match goal with |- context [todsetfreq ?f ?t] => destruct (todsetfreq_ok f t) as (x & -> & E) end;
    [done|]. by exists x.
Qed.
Lemma todget_ok hw tod :
  0 < s64 (hw_hz hw) ->
  exists tod' x ticks, todget hw tod = Ok (tod', (x, ticks)) /\
    x = s64 (u64 (tod_lasttime tod')) /\ u64 (tod_lasttime tod) <= u64 (tod_lasttime tod').
Proof.
  intros H. unfold todget. destruct (todinit_ok hw tod H) as (tod1 & -> & <-). cbn [rbind].
  destruct (todget_correct hw tod1) as [off sstart], tod1. cbv zeta.
  match goal with |- context [if ?x <? u64 ?l then _ else _] =>
    assert (is_u64 x) by auto with words; destruct (Z.ltb_spec x (u64 l)) end; cbn [tod_lasttime].
  - eexists _, _, _. split; [reflexivity|]. cbn [tod_lasttime]. split; [done|lia].
  - match goal with H : is_u64 ?x |- _ => assert (u64 (s64 x) = x) as E
      by (rewrite u64_s64; by apply u64_small); generalize dependent x end.
    intros x Hx Hle E. eexists _, _, _. split; [reflexivity|]. cbn [tod_lasttime]. rewrite E. split; [done|lia].
Qed.
Lemma todset_ok t delta n hw tod :
  t < 0 -> 0 < s64 (hw_hz hw) ->
  exists tod', todset t delta n hw tod = Ok tod' /\ tod_lasttime tod' = tod_lasttime tod.
Proof.
  intros Ht H. unfold todset. destruct (todinit_ok hw tod H) as (tod1 & -> & <-). simpl.
  destruct tod1. case_tests; [lia|]. destruct (todset_correction delta n). by eexists.
Qed.

Definition last_between (lo hi : Z) (ts : list Z) : Prop := Forall (fun t => lo <= u64 t <= hi) ts.

(** One call returns the last time it remembers, which only grows. *)
Lemma run1_monotone c tod :
  adjusts c ->
  exists tod' ts, run1 c tod = Ok (tod', ts) /\
    u64 (tod_lasttime tod) <= u64 (tod_lasttime tod') /\
    (ts = [] \/ ts = [s64 (u64 (tod_lasttime tod'))]).
Proof.
  destruct c as [hw|t delta n hw|hw|f|ns hw]; simpl.
  - intros H. destruct (todget_ok hw tod H) as (tod' & x & ticks & -> & -> & ?). simpl. eauto 6.
  - intros [Ht H]. destruct (todset_ok t delta n hw tod Ht H) as (tod' & -> & <-). simpl. eauto 6 with lia.
  - intros _. exists (todfix hw tod), []. split; [done|]. destruct tod; unfold todfix; case_ifs; auto with lia.
  - intros H. destruct (todsetfreq_ok f tod H) as (tod' & -> & <-). simpl. eauto 6 with lia.
  - intros H. unfold ns2fastticks. destruct (todinit_ok hw tod H) as (tod' & -> & <-). simpl. eauto 6 with lia.
Qed.

Lemma run_monotone cs tod :
  Forall adjusts cs ->
  exists tod' ts, run cs tod = Ok (tod', ts) /\
    u64 (tod_lasttime tod) <= u64 (tod_lasttime tod') /\
    StronglySorted (fun a b => u64 a <= u64 b) ts /\
    last_between (u64 (tod_lasttime tod)) (u64 (tod_lasttime tod')) ts /\
    Forall is_s64 ts.
Proof.
  revert tod. induction cs as [|c cs IH]; intros tod Hcs.
  { exists tod, []. repeat split; [lia|constructor|constructor|constructor]. }
  apply Forall_cons_1 in Hcs as [Hc Hcs]. simpl.
  destruct (run1_monotone c tod Hc) as (tod1 & ts1 & -> & Hle1 & Hts1). simpl.
  destruct (IH tod1 Hcs) as (tod2 & ts2 & -> & Hle2 & Hsort & Hbet & H64). simpl.
  exists tod2, (ts1 ++ ts2). split; [done|]. split; [lia|].
  assert (u64 (s64 (u64 (tod_lasttime tod1))) = u64 (tod_lasttime tod1)) as E
    by (rewrite u64_s64; apply u64_small; auto with words).
  assert (last_between (u64 (tod_lasttime tod)) (u64 (tod_lasttime tod2)) ts2)
    by (eapply Forall_impl; [exact Hbet|]; simpl; lia).
  destruct Hts1 as [-> | ->]; simpl; [done|]. split; [|split]; constructor; auto with words; [|rewrite E; lia].
  rewrite E. eapply Forall_impl; [exact Hbet|]. simpl. lia.
Qed.

(** C21: the clock never goes backwards.  Whatever sequence of readings,
    gradual adjustments, frequency changes, overflow fixes and conversions is
    performed, whatever the hardware counter answers (even when it runs
    backwards), no call panics, and the times [todget] returns are in nondecreasing
    order as 64-bit words, none is below the last time handed out before; as
    signed numbers they are ordered too as long as the clock has not passed 2^63
    nanoseconds. *)
Theorem tod_monotone (cs : list call) (tod : TOD) :
  Forall adjusts cs ->
  exists tod' ts, run cs tod = Ok (tod', ts) /\
    StronglySorted (fun a b => u64 a <= u64 b) ts /\
    Forall (fun t => u64 (tod_lasttime tod) <= u64 t <= u64 (tod_lasttime tod')) ts /\
    (u64 (tod_lasttime tod') < 2 ^ 63 -> StronglySorted Z.le ts).
Proof.
  intros Hcs. destruct (run_monotone cs tod Hcs) as (tod' & ts & E & _ & Hs & Hb & H64).
  exists tod', ts. do 3 (split; [done|]). intros Hlast.
  assert (Forall (fun t => u64 t = t) ts) as Hid.
  { apply Forall_forall. intros t Ht. eapply Forall_forall in Hb, H64; [|done..].
    simpl in Hb. unfold_words. zlia. }
  clear -Hs Hid. induction Hs as [|t ts Hs IH Hall]; [constructor|].
  apply Forall_cons_1 in Hid as [Ht Hid]. constructor; [auto|].
  apply Forall_forall. intros x Hx. eapply Forall_forall in Hall, Hid; [|done..]. simpl in *. lia.
Qed.

(** A history in which the hardware clock jumps back, an adjustment is under
    way and the frequency changes. *)
Definition tod0 : TOD := mkTOD false 0 0 0 0 0 0 0 0 0 0 0 0.
Definition hw_at (fast ticks : Z) : Hw := mkHw 0 62500000 fast ticks.
Definition history : list call :=
  [Cget (hw_at 6250 0); Cset (-1) (-9000) 3 (hw_at 6300 1); Cget (hw_at 7000 2);
   Cget (hw_at 6000 3); Cfreq 62500; Cfix (hw_at 90000 3); Cget (hw_at 90001 5);
   Cns2fastticks 1000 (hw_at 0 0)].
Lemma tod_monotone_witness :
  exists tod' ts, run history tod0 = Ok (tod', ts) /\
    StronglySorted (fun a b => u64 a <= u64 b) ts /\
    Forall (fun t => u64 (tod_lasttime tod0) <= u64 t <= u64 (tod_lasttime tod')) ts /\
    (u64 (tod_lasttime tod') < 2 ^ 63 -> StronglySorted Z.le ts).
Proof.
  apply (tod_monotone history tod0).
  repeat first [apply Forall_nil_2 | apply Forall_cons_2]; vm_compute; repeat split; reflexivity.
Defined.
Example history_times :
  (let* (_, ts) := run history tod0 in Ok ts) = Ok [100000; 109000; 109000; 1440007000].
Proof. vm_compute. reflexivity. Qed.

(** ** Conversions *)

Lemma mk64fract_bounds to f :
  0 <= to < 2 ^ 32 -> 0 < f ->
  mk64fract to f * f <= to * 2 ^ 32 < (mk64fract to f + 1) * f /\ is_u64 (mk64fract to f).
Proof.
  intros Hto Hf. unfold mk64fract. rewrite shiftl_mul, u64_small by (unfold_words; lia).
  pose proof (Z.div_mod (to * 2 ^ 32) f). pose proof (Z.mod_pos_bound (to * 2 ^ 32) f Hf).
  assert (0 <= to * 2 ^ 32 / f <= to * 2 ^ 32) by (split; [apply Z.div_pos; lia|apply Z.div_le_upper_bound; nia]).
  unfold_words. nia.
Qed.
(** Multiplying by [(to << 32) / from] and keeping the middle bits rounds the quotient
    [d * to / from] down, by less than 1 and [d / 2^32] units. *)
Lemma fract_down d m to f x :
  0 <= d -> 0 < f -> m * f <= to * 2 ^ 32 < (m + 1) * f -> x = d * m / 2 ^ 32 ->
  f * x <= d * to /\ d * to * 2 ^ 32 <= f * ((x + 1) * 2 ^ 32 + d).
Proof.
  intros Hd Hf Hm ->. pose proof (Z.div_mod (d * m) (2 ^ 32)).
  pose proof (Z.mod_pos_bound (d * m) (2 ^ 32)). nia.
Qed.
(** With 1 added to the factor the result is never below the quotient rounded
    down. *)
Lemma fract_up d m to f x :
  0 <= d -> 0 < f -> (m - 1) * f <= to * 2 ^ 32 < m * f -> x = d * m / 2 ^ 32 ->
  d * to < (x + 1) * f /\ f * x * 2 ^ 32 <= d * (to * 2 ^ 32 + f).
Proof.
  intros Hd Hf Hm ->. pose proof (Z.div_mod (d * m) (2 ^ 32)).
  pose proof (Z.mod_pos_bound (d * m) (2 ^ 32)). nia.
Qed.

(** The factors that [todsetfreq] leaves. *)
Definition factors (f : Z) (tod : TOD) : Prop :=
  tod_init tod = true /\ 0 < f < 2 ^ 32 /\ tod_hz tod = f /\
  tod_multiplier tod = mk64fract TODFREQ f /\ tod_divider tod = u64 (mk64fract f TODFREQ + 1) /\
  tod_umultiplier tod = mk64fract MicroFREQ f /\ tod_udivider tod = u64 (mk64fract f MicroFREQ + 1).
Lemma todsetfreq_factors f tod :
  tod_init tod = true -> 0 < f < 2 ^ 32 ->
  exists tod', todsetfreq f tod = Ok tod' /\ factors f tod' /\
    tod_last tod' = tod_last tod /\ tod_off tod' = tod_off tod /\
    tod_lasttime tod' = tod_lasttime tod /\
    tod_sstart tod' = tod_sstart tod /\ tod_send tod' = tod_send tod.
Proof.
  intros Hi Hf. unfold todsetfreq. case_tests; [lia|]. destruct tod. eexists. split; [reflexivity|].
  unfold factors. simpl in *. naive_solver.
Qed.
Lemma ns2fastticks_factors f tod ns hw :
  factors f tod -> 0 <= ns < 2 ^ 63 -> ns * f < 2 ^ 63 * TODFREQ ->
  exists x, ns2fastticks ns hw tod = Ok (tod, x) /\
    ns * f < (x + 1) * TODFREQ /\ TODFREQ * x * 2 ^ 32 <= ns * (f * 2 ^ 32 + TODFREQ).
Proof.
  intros (Hi & Hf & _ & _ & Hd & _) Hns Hov. unfold ns2fastticks, todinit. rewrite Hi. cbn [rbind].
  destruct (mk64fract_bounds f TODFREQ) as [Hb Hu]; [lia|unfold TODFREQ; lia|].
  assert (mk64fract f TODFREQ < 2 ^ 63) by (unfold TODFREQ in *; lia).
  rewrite u64_small in Hd by (unfold_words; lia). rewrite Hd. eexists. split; [reflexivity|].
  apply fract_up with (mk64fract f TODFREQ + 1); unfold TODFREQ in *; [lia|lia|lia|].
  apply arch_mul64fract_exact; [unfold_words; lia|unfold_words; lia|].
  apply Z.div_lt_upper_bound; [lia|]. nia.
Qed.
Lemma fastticks2us_factors f tod ticks hw :
  factors f tod -> 0 <= ticks < 2 ^ 64 -> ticks * MicroFREQ < 2 ^ 64 * f ->
  exists x, fastticks2us ticks hw tod = Ok (tod, x) /\
    f * x <= ticks * MicroFREQ /\ ticks * MicroFREQ * 2 ^ 32 <= f * ((x + 1) * 2 ^ 32 + ticks).
Proof.
  intros (Hi & Hf & _ & _ & _ & Hm & _) Hns Hov. unfold fastticks2us, todinit. rewrite Hi. cbn [rbind].
  destruct (mk64fract_bounds MicroFREQ f) as [Hb Hu]; [unfold MicroFREQ; lia|lia|].
  rewrite Hm. eexists. split; [reflexivity|].
  apply fract_down with (mk64fract MicroFREQ f); [lia|lia|lia|].
  apply arch_mul64fract_exact; [unfold_words; lia|done|].
  apply Z.div_lt_upper_bound; [lia|]. nia.
Qed.
Lemma todget_factors f tod hw d :
  factors f tod -> tod_sstart tod = tod_send tod ->
  0 <= tod_last tod -> 0 <= d -> hw_fast hw = tod_last tod + d -> hw_fast hw < 2 ^ 63 ->
  d * TODFREQ < 2 ^ 62 * f -> 0 <= tod_lasttime tod <= tod_off tod -> tod_off tod < 2 ^ 62 ->
  exists tod' ns, todget hw tod = Ok (tod', (tod_off tod + ns, hw_fast hw)) /\
    f * ns <= d * TODFREQ /\ d * TODFREQ * 2 ^ 32 <= f * ((ns + 1) * 2 ^ 32 + d).
Proof.
  intros (Hi & Hf & _ & Hm & _) Hcorr Hlast Hd Hfast H63 Hov Hoff H62.
  destruct (mk64fract_bounds TODFREQ f) as [Hb Hu]; [unfold TODFREQ; lia|lia|].
  set (ns := d * mk64fract TODFREQ f / 2 ^ 32).
  destruct (fract_down d (mk64fract TODFREQ f) TODFREQ f ns) as [H1 H2]; [lia..|].
  assert (d < 2 ^ 63) as Hd63 by lia.
  assert (0 <= ns < 2 ^ 62) as Hns.
  { split; [apply Z.div_pos; [apply Z.mul_nonneg_nonneg; [done|apply Hu]|done]|].
    apply Z.mul_lt_mono_pos_l with f; lia. }
  assert (arch_mul64fract d (mk64fract TODFREQ f) = ns) as Ens.
  { apply arch_mul64fract_exact; [split; lia|done|]. fold ns. lia. }
  clearbody ns. clear Hov Hu.
  unfold todget, todget_correct, todinit. rewrite Hi. cbn [rbind].
  destruct tod as [init cnt m dv um ud hz l off lasttime delta ss se]. tod_fields. subst init m ss.
  rewrite Z.eqb_refl. cbn [negb]. rewrite Hfast in *.
  rewrite (s64_small (l + d)) by (split; lia).
  replace (l + d - l) with d by lia. rewrite (s64_small d) by (split; lia).
  assert (d <? 0 = false) as -> by lia. rewrite (u64_small d), Ens by (split; lia).
  rewrite (u64_small (ns + off)), (u64_small lasttime) by (split; lia).
  assert (ns + off <? lasttime = false) as -> by lia. rewrite (s64_small (ns + off)) by (split; lia).
  eexists _, ns. split; [|done]. by rewrite (Z.add_comm ns).
Qed.

(** the conversions are accurate.  After [todsetfreq f], for any clock
    frequency below 4 GHz and as long as the results fit, the clock reads, [d] ticks after
    its last reference point, the offset plus [d * 10^9 / f] nanoseconds rounded
    down with an error below [1 + d / 2^32]; [fastticks2us] has the same bound; [ns2fastticks] never
    answers fewer ticks than the nanoseconds asked for (so that a timer
    is never early by a tick), and at most [ns / 2^32] more. *)
Theorem tod_accuracy (f d : Z) (tod : TOD) (hw : Hw) :
  tod_init tod = true -> 0 < f < 2 ^ 32 -> tod_sstart tod = tod_send tod ->
  0 <= tod_last tod -> 0 <= d -> hw_fast hw = tod_last tod + d -> hw_fast hw < 2 ^ 63 ->
  d * TODFREQ < 2 ^ 62 * f -> 0 <= tod_lasttime tod <= tod_off tod -> tod_off tod < 2 ^ 62 ->
  exists tod1, todsetfreq f tod = Ok tod1 /\
    (exists tod2 ns, todget hw tod1 = Ok (tod2, (tod_off tod + ns, hw_fast hw)) /\
      f * ns <= d * TODFREQ /\ d * TODFREQ * 2 ^ 32 <= f * ((ns + 1) * 2 ^ 32 + d)) /\
    (forall ticks hw', 0 <= ticks < 2 ^ 64 -> ticks * MicroFREQ < 2 ^ 64 * f ->
      exists us, fastticks2us ticks hw' tod1 = Ok (tod1, us) /\ f * us <= ticks * MicroFREQ /\
        ticks * MicroFREQ * 2 ^ 32 <= f * ((us + 1) * 2 ^ 32 + ticks)) /\
    (forall ns hw', 0 <= ns < 2 ^ 63 -> ns * f < 2 ^ 63 * TODFREQ ->
      exists ticks, ns2fastticks ns hw' tod1 = Ok (tod1, ticks) /\ ns * f < (ticks + 1) * TODFREQ /\
        TODFREQ * ticks * 2 ^ 32 <= ns * (f * 2 ^ 32 + TODFREQ)).
Proof.
  intros Hi Hf Hc Hl Hd Hfast H63 Hov Hlt Hoff.
  destruct (todsetfreq_factors f tod Hi Hf) as (tod1 & E & Hfac & El & Eo & Elt & Ess & Ese).
  exists tod1. split; [done|]. split; [|split].
  - rewrite <-Eo. apply todget_factors; rewrite ?El, ?Eo, ?Elt, ?Ess, ?Ese; done.
  - intros. by apply fastticks2us_factors.
  - intros. by apply ns2fastticks_factors.
Qed.
Definition tod1 : TOD := mkTOD true 0 0 0 0 0 0 1000 5000 0 0 7 7.
Lemma tod_accuracy_witness :
  exists t1, todsetfreq 62500000 tod1 = Ok t1 /\
    (exists t2 ns, todget (hw_at 62501000 0) t1 = Ok (t2, (5000 + ns, 62501000)) /\
      62500000 * ns <= 62500000 * TODFREQ /\
      62500000 * TODFREQ * 2 ^ 32 <= 62500000 * ((ns + 1) * 2 ^ 32 + 62500000)) /\
    (exists us, fastticks2us 62500000 (hw_at 0 0) t1 = Ok (t1, us) /\ us <= 1000000) /\
    (exists ticks, ns2fastticks 100 (hw_at 0 0) t1 = Ok (t1, ticks) /\ 6 <= ticks).
Proof.
  destruct (tod_accuracy 62500000 62500000 tod1 (hw_at 62501000 0)) as (t1 & E1 & E2 & E3 & E4);
    try (unfold tod1, hw_at, TODFREQ; cbn; lia); [done..|].
  exists t1. split; [exact E1|]. split; [exact E2|].
  destruct (E3 62500000 (hw_at 0 0)) as (us & Eu & Hu & _); [unfold MicroFREQ; lia..|].
  destruct (E4 100 (hw_at 0 0)) as (tk & Et & Ht & _); [unfold TODFREQ; lia..|].
  split; [exists us; split; [exact Eu|unfold MicroFREQ in *; lia]|].
  exists tk. split; [exact Et|unfold TODFREQ in *; lia].
Defined.

(** ** Gradual adjustments *)

(** The correction spreads [delta] over at most [n] ticks in equal steps and
    never overshoots; what the division leaves is less than one step per tick. *)
Lemma todset_correction_spec delta n dl k :
  - 2 ^ 63 < delta < 2 ^ 63 -> is_s32 n -> todset_correction delta n = (dl, k) ->
  0 < k <= Z.max 1 n /\ 0 <= dl * delta /\ Z.abs (dl * k) <= Z.abs delta < Z.abs (dl * k) + k /\ is_s64 dl.
Proof.
  intros Hd Hn. unfold todset_correction, Arch_HZ.
  set (n1 := if n <=? 0 then 1 else n).
  assert (0 < n1 <= Z.max 1 n /\ n1 < 2 ^ 31) as [Hn1 ?] by (unfold n1, is_s32 in *; case_tests; lia).
  rewrite Z.mul_1_r, (s32_small n1) by (split; lia). rewrite (s64_small (- delta)) by (split; lia).
  set (n2 := if _ && (n1 >? - delta) then _ else _).
  assert (0 < n2 <= n1) as Hn2.
  { unfold n2. destruct (Z.ltb_spec delta 0), (Z.gtb_spec n1 (- delta)); simpl; [|lia..].
    rewrite s32_small; [lia|split; lia]. }
  set (n3 := if _ && (n2 >? delta) then _ else _).
  assert (0 < n3 <= n2) as Hn3.
  { unfold n3. destruct (Z.gtb_spec delta 0), (Z.gtb_spec n2 delta); simpl; [|lia..].
    rewrite s32_small; [lia|split; lia]. }
  clearbody n1 n2 n3. assert (n3 =? 0 = false) as -> by lia.
  pose proof (Z.quot_rem' delta n3) as Eq.
  assert (Z.abs (Z.rem delta n3) < n3 /\ 0 <= Z.rem delta n3 * delta /\ 0 <= Z.quot delta n3 * delta /\
    Z.abs (Z.quot delta n3 * n3) <= Z.abs delta) as (Hr & Hs & Hq & Ha).
  { destruct (Z.le_gt_cases 0 delta).
    - pose proof (Z.rem_bound_pos delta n3). pose proof (Z.quot_pos delta n3). nia.
    - destruct (Z.rem_bound_pos_neg delta n3) as [Hr1 Hr2]; [lia..|].
      assert (0 <= Z.quot (- delta) n3) as Hq by (apply Z.quot_pos; lia).
      rewrite Z.quot_opp_l in Hq by lia. nia. }
  assert (Z.abs (Z.quot delta n3) <= Z.abs delta) by nia.
  rewrite s64_small by (split; lia). intros [= <- <-].
  split; [lia|]. split; [lia|]. split; [lia|split; lia].
Qed.

Definition correcting (tod : TOD) : Prop :=
  tod_init tod = true /\ 0 <= tod_sstart tod <= tod_send tod /\ tod_send tod < 2 ^ 32 /\ is_s64 (tod_off tod).
(** The offset after part of a correction. *)
Lemma todget_adjusts hw tod :
  correcting tod -> tod_sstart tod <= hw_ticks hw ->
  exists tod' r, todget hw tod = Ok (tod', r) /\ correcting tod' /\
    tod_sstart tod' = Z.min (hw_ticks hw) (tod_send tod) /\ tod_send tod' = tod_send tod /\
    tod_delta tod' = tod_delta tod /\
    tod_off tod' = s64 (tod_off tod + tod_delta tod * (tod_sstart tod' - tod_sstart tod)).
Proof.
  intros (Hi & Hs & He & Ho) Ht. unfold todget, todinit. rewrite Hi. cbn [rbind].
  assert (todget_correct hw tod =
    (s64 (tod_off tod + tod_delta tod * (Z.min (hw_ticks hw) (tod_send tod) - tod_sstart tod)),
     Z.min (hw_ticks hw) (tod_send tod))) as ->.
  { unfold todget_correct. destruct (Z.eqb_spec (tod_sstart tod) (tod_send tod)); cbn [negb].
    - replace (Z.min _ _) with (tod_sstart tod) by lia. rewrite Z.sub_diag, Z.mul_0_r, Z.add_0_r.
      by rewrite s64_small.
    - assert ((if hw_ticks hw >=? tod_send tod then tod_send tod else hw_ticks hw) =
        Z.min (hw_ticks hw) (tod_send tod)) as -> by (case_tests; lia).
      rewrite u32_small by (split; lia). f_equal.
      apply s64_add_r. }
  destruct tod. tod_fields. cbv zeta.
  match goal with |- context [if ?c then _ else _] => destruct c end;
    (eexists _, _; split; [reflexivity|]; unfold correcting; tod_fields;
     split; [split; [done|split; [lia|split; [lia|auto with words]]]|done]).
Qed.

(** The tick counter of the last reading. *)
Fixpoint final_ticks (T : Z) (hws : list Hw) : Z :=
  match hws with [] => T | hw :: hws => final_ticks (hw_ticks hw) hws end.
Definition ticks_go_on (T : Z) (hws : list Hw) : Prop := Sorted Z.le (T :: (hw_ticks <$> hws)).
Lemma final_ticks_ge T hws : ticks_go_on T hws -> T <= final_ticks T hws.
Proof.
  revert T. unfold ticks_go_on.
  induction hws as [|hw hws IH]; intros T Hs; simpl in *; [lia|].
  inversion Hs as [|? ? Hs' Hr]. inversion Hr. specialize (IH _ Hs'). lia.
Qed.
(** Successive readings apply the correction piece by piece; the pieces add up. *)
Lemma gets_adjust hws tod off0 dl T0 T :
  correcting tod -> T0 <= tod_sstart tod -> tod_sstart tod = Z.min T (tod_send tod) ->
  tod_delta tod = dl -> tod_off tod = s64 (off0 + dl * (tod_sstart tod - T0)) -> ticks_go_on T hws ->
  exists tod' ts, run (Cget <$> hws) tod = Ok (tod', ts) /\
    tod_off tod' = s64 (off0 + dl * (Z.min (final_ticks T hws) (tod_send tod) - T0)).
Proof.
  revert tod T. induction hws as [|hw hws IH]; intros tod T Hc HT0 Hst Hdl Hoff Hgo.
  { exists tod, []. split; [done|]. simpl. by rewrite <-Hst. }
  inversion Hgo as [|? ? Hgo' Hr]; subst. inversion Hr; subst.
  destruct (todget_adjusts hw tod Hc) as (tod1 & [x tk] & E & Hc1 & Es1 & Ee1 & Ed1 & Eo1); [lia|].
  cbn [fmap list_fmap run run1]. rewrite E. cbn [rbind].
  destruct (IH tod1 (hw_ticks hw)) as (tod2 & ts & E2 & Eo2); [done|lia|congruence|congruence| |done|].
  - rewrite Eo1, Hoff, s64_add_l. f_equal. lia.
  - rewrite E2. cbn [rbind]. exists tod2, ([x] ++ ts). split; [done|]. by rewrite Eo2, Ee1.
Qed.

(** a gradual adjustment adds up to what was asked for.  After
    [todset] with a negative time, [delta] nanoseconds and [n] clock
    ticks, the readings of the clock, however many there are and whenever they happen,
    move the offset by equal steps [dl] per elapsed clock tick and by nothing more
    once [k] ticks have passed: the total is the same whatever the
    readings were.  It has the sign of [delta], never exceeds it and misses it
    by less than [k] nanoseconds; [k] is at most [n] (1 if [n] is not positive). *)
Theorem tod_adjust (delta n : Z) (hw : Hw) (tod : TOD) (hws : list Hw) :
  tod_init tod = true -> is_s64 (tod_off tod) -> - 2 ^ 63 < delta < 2 ^ 63 -> is_s32 n ->
  0 <= hw_ticks hw -> hw_ticks hw + Z.max 1 n < 2 ^ 32 -> ticks_go_on (hw_ticks hw) hws ->
  exists dl k tod1 tod2 ts,
    todset (-1) delta n hw tod = Ok tod1 /\ run (Cget <$> hws) tod1 = Ok (tod2, ts) /\
    tod_off tod2 = s64 (tod_off tod + dl * Z.min (final_ticks (hw_ticks hw) hws - hw_ticks hw) k) /\
    0 < k <= Z.max 1 n /\ 0 <= dl * delta /\ Z.abs (dl * k) <= Z.abs delta < Z.abs (dl * k) + k.
Proof.
  intros Hi Hoff Hd Hn HT Hmax Hgo. unfold todset, todinit. rewrite Hi. cbn [rbind].
  destruct (todset_correction delta n) as [dl k] eqn:Ec.
  destruct (todset_correction_spec delta n dl k Hd Hn Ec) as (Hk & Hsign & Habs & Hdl).
  destruct tod as [init cnt m dv um ud hz l off lt dl0 ss se]. tod_fields. subst init.
  change (-1 >=? 0) with false. cbn match. rewrite (u32_small (hw_ticks hw + k)) by (split; lia).
  set (tod1 := mkTOD _ _ _ _ _ _ _ _ _ _ _ _ _).
  destruct (gets_adjust hws tod1 off dl (hw_ticks hw) (hw_ticks hw)) as (tod2 & ts & E & Eo); [..|done|].
  - split; [done|]. unfold tod1; tod_fields. split; [lia|]. split; [lia|done].
  - unfold tod1; tod_fields. lia.
  - unfold tod1; tod_fields. lia.
  - done.
  - unfold tod1; tod_fields. rewrite Z.sub_diag, Z.mul_0_r, Z.add_0_r. by rewrite s64_small.
  - exists dl, k, tod1, tod2, ts. split; [done|]. split; [done|]. split; [|done].
    rewrite Eo. unfold tod1; tod_fields. do 3 f_equal. lia.
Qed.
Lemma tod_adjust_witness :
  exists dl k t1 t2 ts,
    todset (-1) (-1000) 3 (hw_at 0 10) tod1 = Ok t1 /\
    run (Cget <$> [hw_at 2000 11; hw_at 2001 11; hw_at 3000 40]) t1 = Ok (t2, ts) /\
    tod_off t2 = s64 (5000 + dl * Z.min 30 k) /\
    0 < k <= 3 /\ 0 <= dl * -1000 /\ Z.abs (dl * k) <= 1000 < Z.abs (dl * k) + k.
Proof.
  apply (tod_adjust (-1000) 3 (hw_at 0 10) tod1 [hw_at 2000 11; hw_at 2001 11; hw_at 3000 40]).
  - reflexivity.
  - vm_compute. split; congruence.
  - lia.
  - vm_compute. split; congruence.
  - cbn. lia.
  - cbn. lia.
  - unfold ticks_go_on. repeat constructor; cbn; lia.
Defined.
