(* ===== verification/Timers.v ===== *)
(** * Timers: kernel/Port/portclock.c

    Each CPU has a queue of timers linked by [tnext] in the order of their
    deadlines.  Timers live in a store; [heads] holds [timers[c].head], absent when it is
    [nil].  The locks around each operation are not modelled: an operation is one
    step.  What the fast clock reads during an operation, and the state of the
    time-of-day clock that converts nanoseconds, are passed explicitly. *)
From stdpp Require Import gmap list sorting functions.
From Stdlib Require Import Sorted.
From S2P Require Import Prelude Chain Tod.

(** ** Data *)

(** [enum Timermode]. *)
Definition Trelative : Z := 0.
Definition Tperiodic : Z := 1.

(** [struct Timer]: [tf] names the function called when the timer fires ([None] is
    [nil], the clock tick of the CPU), [tt] is the CPU whose queue it is on. *)
Record Timer := mkTimer {
  tmode : Z; tns : Z; tf : option nat; twhen : Z; tnext : option nat; tt : option nat }.

Definition set_tnext (n : option nat) (t : Timer) : Timer :=
  mkTimer (tmode t) (tns t) (tf t) (twhen t) n (tt t).
Definition set_tt (c : option nat) (t : Timer) : Timer :=
  mkTimer (tmode t) (tns t) (tf t) (twhen t) (tnext t) c.
Definition set_tns (n : Z) (t : Timer) : Timer :=
  mkTimer (tmode t) n (tf t) (twhen t) (tnext t) (tt t).
Definition set_twhen (w : Z) (t : Timer) : Timer :=
  mkTimer (tmode t) (tns t) (tf t) w (tnext t) (tt t).

#[export] Instance Timer_linked : Linked nat Timer :=
  { lk := tnext; set_lk := set_tnext; lk_set_lk _ _ := eq_refl }.

Record timers := mkTimers { store : gmap nat Timer; heads : gmap nat nat; clock : TOD }.

(** Enough for any walk: a queue visits no timer twice. *)
Definition walk_fuel (st : timers) : nat := S (size (store st)).

(** Writing through the link [last]: the head of CPU [c] or the field of a timer. *)
Definition write_last (st : timers) (c : nat) (last v : option nat) : timers :=
  let '(h, m) := write_link (heads st !! c) (store st) last v in
  mkTimers m (partial_alter (fun _ => h) c (heads st)) (clock st).
Definition set_timer (st : timers) (k : nat) (t : Timer) : timers :=
  mkTimers (<[k := t]> (store st)) (heads st) (clock st).

(** ** Adding a timer *)

(** "look for another timer at same frequency for combining". *)
Fixpoint find_periodic (fuel : nat) (m : gmap nat Timer) (p : option nat) (ns : Z)
    : result (option Timer) :=
  match p with
  | None => Ok None
  | Some k =>
      match fuel with
      | O => Loop
      | S fuel =>
          let* t := of_ptr (m !! k) in
          if (tmode t =? Tperiodic) && (tns t =? ns) then Ok (Some t)
          else find_periodic fuel m (tnext t) ns
      end
  end.

(** [for(last = &tt->head; t = *last; last = &t->tnext) if(t->twhen > nt->twhen) break;]
    the result is [(last, *last)]. *)
Fixpoint find_place (fuel : nat) (m : gmap nat Timer) (last p : option nat) (when : Z)
    : result (option nat * option nat) :=
  match p with
  | None => Ok (last, None)
  | Some k =>
      match fuel with
      | O => Loop
      | S fuel =>
          let* t := of_ptr (m !! k) in
          if twhen t >? when then Ok (last, p)
          else find_place fuel m (Some k) (tnext t) when
      end
  end.

(** The [switch] of [tadd]: the deadline of the timer. *)
Definition tadd_when (st : timers) (c : nat) (t : Timer) (hw : Hw) : result (timers * Timer) :=
  if tmode t =? Trelative then
    let t := if tns t <=? 0 then set_tns 1 t else t in
    let* (tod, d) := ns2fastticks (u64 (tns t)) hw (clock st) in
    Ok (mkTimers (store st) (heads st) tod, set_twhen (s64 (u64 (hw_fast hw + d))) t)
  else if tmode t =? Tperiodic then
    if negb (tns t >=? 100000) then Panic
    else
      let* t :=
        if twhen t =? 0 then
          let* o := find_periodic (walk_fuel st) (store st) (heads st !! c) (tns t) in
          match o with
          | Some t' => Ok (set_twhen (twhen t') t)
          | None => Ok (set_twhen (s64 (hw_fast hw)) t)
          end
        else Ok t in
      let* (tod, d) := ns2fastticks (u64 (tns t)) hw (clock st) in
      Ok (mkTimers (store st) (heads st) tod, set_twhen (s64 (u64 (twhen t + d))) t)
  else Panic.

Definition tadd (c nt : nat) (hw : Hw) (st : timers) : result (timers * Z) :=
  let* t := of_ptr (store st !! nt) in
  if negb (bool_decide (tt t = None)) then Panic
  else
    let* (st, t) := tadd_when st c t hw in
    let* (last, p) := find_place (walk_fuel st) (store st) None (heads st !! c) (twhen t) in
    let st := set_timer st nt (set_tnext p t) in
    let st := write_last st c last (Some nt) in
    let* t := of_ptr (store st !! nt) in
    let st := set_timer st nt (set_tt (Some c) t) in
    match last with None => Ok (st, twhen t) | Some _ => Ok (st, 0) end.

(** ** Removing a timer *)

(** The walk of [tdel]: the link that leads to [dt], or the last link. *)
Fixpoint find_timer (fuel : nat) (m : gmap nat Timer) (last p : option nat) (dt : nat)
    : result (option nat * option nat) :=
  match p with
  | None => Ok (last, None)
  | Some k =>
      match fuel with
      | O => Loop
      | S fuel =>
          if decide (k = dt) then Ok (last, Some k)
          else let* t := of_ptr (m !! k) in find_timer fuel m (Some k) (tnext t) dt
      end
  end.

Definition tdel (dt : nat) (st : timers) : result (timers * Z) :=
  let* t := of_ptr (store st !! dt) in
  match tt t with
  | None => Ok (st, 0)
  | Some c =>
      let* (last, p) := find_timer (walk_fuel st) (store st) None (heads st !! c) dt in
      let st :=
        match p with
        | None => st
        | Some _ => write_last (set_timer st dt (set_tt None t)) c last (tnext t)
        end in
      match last, heads st !! c with
      | None, Some h => let* t := of_ptr (store st !! h) in Ok (st, twhen t)
      | _, _ => Ok (st, 0)
      end
  end.

(** ** The interface: the second result is the value given to [arch_timerset]. *)

Definition timeradd (cpuno nt : nat) (hw : Hw) (st : timers) : result (timers * option Z) :=
  let* t := of_ptr (store st !! nt) in
  let* st := match tt t with Some _ => let* (st, _) := tdel nt st in Ok st | None => Ok st end in
  let* (st, when) := tadd cpuno nt hw st in
  Ok (st, if negb (when =? 0) then Some when else None).

Definition timerdel (cpuno dt : nat) (st : timers) : result (timers * option Z) :=
  let* t := of_ptr (store st !! dt) in
  match tt t with
  | Some c =>
      let* (st, when) := tdel dt st in
      if negb (when =? 0) && bool_decide (c = cpuno) then
        let* h := of_ptr (heads st !! c) in
        let* t := of_ptr (store st !! h) in Ok (st, Some (twhen t))
      else Ok (st, None)
  | None => Ok (st, None)
  end.

(** ** The clock interrupt *)

Section timerintr.
(** The functions the timers call, [t->tf(u, t)], are given by the clients. *)
Variable callback : nat -> nat -> timers -> result timers.

(** What an interrupt does besides changing the queues: the timers it fires, each with its
    deadline, the number of [nil] callbacks and the value given to
    [arch_timerset]. *)
Record intr := mkIntr { fired : list (nat * Z); callhzclock : nat; timerset : option Z }.

(** [while((t = tt->head) != nil)]; [fuel] bounds the number of timers fired. *)
Fixpoint timerintr_loop (fuel : nat) (c : nat) (now : Z) (hw : Hw) (st : timers) (log : intr)
    : result (timers * intr) :=
  match heads st !! c with
  | None => Ok (st, mkIntr (fired log) 0 None)
  | Some k =>
      let* t := of_ptr (store st !! k) in
      let when := twhen t in
      if u64 when >? now then Ok (st, mkIntr (fired log) (callhzclock log) (Some when))
      else
        match fuel with
        | O => Loop
        | S fuel =>
            let st := write_last st c None (tnext t) in
            if negb (bool_decide (tt t = Some c)) then Panic
            else
              let st := set_timer st k (set_tt None t) in
              let log := mkIntr (fired log ++ [(k, when)]) (callhzclock log) None in
              let* (st, log) :=
                match tf t with
                | Some f => let* st := callback f k st in Ok (st, log)
                | None => Ok (st, mkIntr (fired log) (S (callhzclock log)) None)
                end in
              let* t := of_ptr (store st !! k) in
              let* st :=
                if tmode t =? Tperiodic then let* (st, _) := tadd c k hw st in Ok st else Ok st in
              timerintr_loop fuel c now hw st log
        end
  end.

Definition timerintr (fuel : nat) (cpuno : nat) (now : Z) (hw : Hw) (st : timers)
    : result (timers * intr) :=
  if now =? 0 then Panic else timerintr_loop fuel cpuno now hw st (mkIntr [] 0 None).
End timerintr.

(** ** Setting up *)

(** [k] is the timer [malloc] returns. *)
Definition timersinit (cpuno : nat) (k : option nat) (hw : Hw) (st : timers)
    : result (timers * option Z) :=
  let* tod := todinit hw (clock st) in
  match k with
  | None => Panic
  | Some k =>
      let t := mkTimer Tperiodic (3000000000 / Arch_HZ) None 0 None None in
      timeradd cpuno k hw (mkTimers (<[k := t]> (store st)) (heads st) tod)
  end.

Definition tk2ms (ticks : Z) : Z := u32 (u64 (u64 ticks * 1000) / Arch_HZ).
Definition ms2tk (ms : Z) : Z :=
  if ms >=? 1000000000 / Arch_HZ then (ms / 1000) ⊠ Arch_HZ
  else u32 (ms * Arch_HZ + 500) / 1000.

(** ** The queues of a state *)

(** A timer as its queue sees it: the link is the queue's business. *)
Definition plain (t : Timer) : Timer := set_tnext None t.
Abbreviation entry := (nat * Timer)%type.
Definition view (p : nat * Timer) : entry := (p.1, plain p.2).
Definition deadline (x : entry) : Z := twhen x.2.
Definition earlier (x y : entry) : Prop := deadline x <= deadline y.

(** [Q c] is the queue of CPU [c]; a timer's [tt] says which queue it is on. *)
Record represents (st : timers) (Q : nat -> list entry) : Prop := {
  rep_chain c : exists l, lseg (store st) l (heads st !! c) None /\ view <$> l = Q c;
  rep_owner k t c : store st !! k = Some t -> tt t = Some c <-> k ∈ (Q c).*1;
  rep_when k t : store st !! k = Some t -> is_s64 (twhen t) }.
Definition ordered (Q : nat -> list entry) : Prop := forall c, StronglySorted earlier (Q c).

(** Insertion after the entries that are not later, and removal. *)
Fixpoint enqueue (x : entry) (q : list entry) : list entry :=
  match q with
  | [] => [x]
  | y :: q => if deadline y >? deadline x then x :: y :: q else y :: enqueue x q
  end.
Definition dequeue (k : nat) (q : list entry) : list entry := filter (fun x => x.1 <> k) q.

Definition is_first (k : nat) (q : list entry) : bool := bool_decide (fst <$> head q = Some k).

(** The length of a period in ticks. *)
Definition period (st : timers) (ns : Z) : Z := arch_mul64fract (u64 ns) (tod_divider (clock st)).
(** The deadline [tadd] computes for a timer, given the queue it joins. *)
Definition base_time (q : list entry) (hw : Hw) (t : Timer) : Z :=
  if twhen t =? 0 then
    match find (fun x => (tmode x.2 =? Tperiodic) && (tns x.2 =? tns t)) q with
    | Some x => deadline x
    | None => s64 (hw_fast hw)
    end
  else twhen t.
Definition retimed (st : timers) (q : list entry) (hw : Hw) (t : Timer) : Timer :=
  if tmode t =? Trelative then
    let t := if tns t <=? 0 then set_tns 1 t else t in
    set_twhen (s64 (hw_fast hw + period st (tns t))) t
  else set_twhen (s64 (base_time q hw t + period st (tns t))) t.
(** The timers [tadd] takes. *)
Definition valid_timer (t : Timer) : Prop :=
  tmode t = Trelative \/ (tmode t = Tperiodic /\ 100000 <= tns t).

(** ** Walks *)

Lemma keys_view l : (view <$> l).*1 = keys l.
Proof. unfold keys. rewrite <-list_fmap_compose. done. Qed.

Lemma find_place_ok m l l0 p when fuel :
  lseg m l p None -> (length l < fuel)%nat ->
  exists l1 l2 p', l = l1 ++ l2 /\
    find_place fuel m (last_loc None l0) p when = Ok (last_loc None (l0 ++ l1), p') /\
    lseg m l1 p p' /\ lseg m l2 p' None /\
    forall k t, twhen t = when -> enqueue (k, t) (view <$> l) = (view <$> l1) ++ (k, t) :: (view <$> l2).
Proof.
  revert l0 p fuel. induction l as [|[k t] l IH]; intros l0 p fuel Hl Hf; simpl in Hl.
  { subst p. exists [], [], None. rewrite (app_nil_r l0).
    split; [done|]. split; [by destruct fuel|]. done. }
  destruct Hl as (-> & Hk & Hl). destruct fuel as [|fuel]; [lia|]. simpl. rewrite Hk. simpl.
  destruct (twhen t >? when) eqn:E.
  - exists [], ((k, t) :: l), (Some k). rewrite (app_nil_r l0). split; [done|]. split; [done|].
    split; [done|]. split; [done|]. intros k' t' <-. simpl. unfold deadline; simpl. by rewrite E.
  - destruct (IH (l0 ++ [(k, t)]) (tnext t) fuel Hl) as (l1 & l2 & p' & -> & Hr & H1 & H2 & He);
      [simpl in *; lia|].
    exists ((k, t) :: l1), l2, p'. split; [done|].
    rewrite <-app_assoc in Hr. unfold last_loc at 1 in Hr. rewrite last_snoc in Hr.
    split; [done|]. split; [done|]. split; [done|].
    intros k' t' Ht. simpl. unfold deadline; simpl. rewrite Ht, E. by rewrite He.
Qed.

Lemma find_timer_ok m l1 k t l2 l0 p fuel :
  lseg m (l1 ++ (k, t) :: l2) p None -> k ∉ keys l1 -> (length l1 < fuel)%nat ->
  find_timer fuel m (last_loc None l0) p k = Ok (last_loc None (l0 ++ l1), Some k).
Proof.
  revert l0 p fuel. induction l1 as [|[k' t'] l1 IH]; intros l0 p fuel Hl Hk Hf; simpl in Hl.
  - destruct Hl as (-> & _ & _). destruct fuel; [simpl in *; lia|]. simpl.
    rewrite decide_True by done. by rewrite (app_nil_r l0).
  - destruct Hl as (-> & Hk' & Hl). destruct fuel as [|fuel]; [simpl in *; lia|]. simpl.
    unfold keys in Hk; simpl in Hk. apply not_elem_of_cons in Hk as [Hne Hk].
    rewrite decide_False by congruence. rewrite Hk'. simpl.
    specialize (IH (l0 ++ [(k', t')]) (tnext t') fuel Hl Hk). simpl in Hf.
    unfold last_loc at 1 in IH. rewrite last_snoc, <-app_assoc in IH. apply IH. lia.
Qed.

Lemma find_periodic_ok m l p ns fuel :
  lseg m l p None -> (length l < fuel)%nat ->
  exists o, find_periodic fuel m p ns = Ok o /\
    twhen <$> o = deadline <$> find (fun x => (tmode x.2 =? Tperiodic) && (tns x.2 =? ns)) (view <$> l).
Proof.
  revert p fuel. induction l as [|[k t] l IH]; intros p fuel Hl Hf; simpl in Hl.
  { subst p. exists None. by destruct fuel. }
  destruct Hl as (-> & Hk & Hl). destruct fuel as [|fuel]; [lia|]. simpl. rewrite Hk. simpl.
  destruct ((tmode t =? Tperiodic) && (tns t =? ns)); [by exists (Some t)|].
  apply IH; [done|]. simpl in *. lia.
Qed.

#[local] Arguments walk_fuel : simpl never.
#[local] Arguments arch_mul64fract : simpl never.
#[local] Arguments u64 : simpl never.
#[local] Arguments s64 : simpl never.
#[local] Arguments find_place : simpl never.
#[local] Arguments find_timer : simpl never.
#[local] Arguments find_periodic : simpl never.

(** ** [tadd] *)

Lemma tadd_when_ok st Q c t hw :
  represents st Q -> valid_timer t -> tod_init (clock st) = true ->
  tadd_when st c t hw = Ok (st, retimed st (Q c) hw t).
Proof.
  intros HQ Hv Hi. unfold tadd_when, retimed, ns2fastticks, todinit. rewrite Hi. simpl rbind.
  assert (mkTimers (store st) (heads st) (clock st) = st) as -> by by destruct st.
  destruct Hv as [-> | [-> Hns]]; simpl.
  { rewrite s64_u64. done. }
  assert (tns t >=? 100000 = true) as -> by lia. simpl. unfold base_time.
  destruct (rep_chain _ _ HQ c) as (l & Hl & <-).
  destruct (find_periodic_ok _ _ _ (tns t) (walk_fuel st) Hl) as (o & Ho & Ew).
  { pose proof (lseg_size _ _ _ Hl). unfold walk_fuel. lia. }
  destruct (twhen t =? 0); simpl; [|by rewrite s64_u64].
  rewrite Ho. simpl. destruct o as [t'|], (find _ _) as [x|]; simpl in Ew; [|done|done|];
    [injection Ew as Ew; simpl; rewrite Ew|simpl]; by rewrite s64_u64.
Qed.

Lemma retimed_keeps st q hw t :
  tmode (retimed st q hw t) = tmode t /\ tf (retimed st q hw t) = tf t /\
  tnext (retimed st q hw t) = tnext t /\ tt (retimed st q hw t) = tt t.
Proof. unfold retimed. destruct (tmode t =? Trelative), (tns t <=? 0); done. Qed.

Lemma retimed_s64 st q hw t : is_s64 (twhen (retimed st q hw t)).
Proof. unfold retimed. destruct (tmode t =? Trelative), (tns t <=? 0); simpl; auto with words. Qed.

Lemma elem_of_enqueue x q y : y ∈ enqueue x q <-> y = x \/ y ∈ q.
Proof.
  induction q as [|z q IH]; simpl; [set_solver|]. destruct (_ >? _); set_solver.
Qed.
Lemma keys_enqueue k t q k' : k' ∈ (enqueue (k, t) q).*1 <-> k' = k \/ k' ∈ q.*1.
Proof.
  induction q as [|z q IH]; simpl; [set_solver|]. destruct (_ >? _); set_solver.
Qed.
Lemma represents_lookup st Q c k t : represents st Q -> (k, t) ∈ Q c ->
  exists t', store st !! k = Some t' /\ t = plain t' /\ tt t' = Some c.
Proof.
  intros HQ Hin. destruct (rep_chain _ _ HQ c) as (l & Hl & E).
  pose proof Hin as Hin'. rewrite <-E in Hin'. apply list_elem_of_fmap in Hin' as ([k' t'] & Ev & Hin').
  unfold view in Ev. simplify_eq/=. pose proof (lseg_lookup _ _ _ _ _ _ Hl Hin') as Hk. exists t'.
  split; [done|split; [done|]]. eapply rep_owner; [done..|]. rewrite <-E, keys_view.
  apply list_elem_of_fmap. by exists (k', t').
Qed.
Lemma represents_NoDup st Q c : represents st Q -> NoDup (Q c).*1.
Proof.
  intros HQ. destruct (rep_chain _ _ HQ c) as (l & Hl & <-). rewrite keys_view. by eapply lseg_NoDup.
Qed.

(** Everything but the links and the owner of one timer is as before. *)
Definition frame (st st' : timers) (k : nat) : Prop :=
  clock st' = clock st /\
  forall k', k' <> k -> plain <$> store st' !! k' = plain <$> store st !! k'.

Lemma plain_eq t t' : plain t = plain t' -> tt t = tt t' /\ tmode t = tmode t' /\ tns t = tns t' /\
  tf t = tf t' /\ twhen t = twhen t'.
Proof. destruct t, t'. unfold plain, set_tnext. simpl. by intros [= -> -> -> -> ->]. Qed.
Lemma frame_lookup st st' k k' t : frame st st' k -> k' <> k -> store st' !! k' = Some t ->
  exists t', store st !! k' = Some t' /\ plain t' = plain t.
Proof.
  intros [_ Hf] Hne Ht. specialize (Hf k' Hne). rewrite Ht in Hf. simpl in Hf.
  destruct (store st !! k') as [t'|]; simpl in Hf; [|done]. exists t'. split; [done|congruence].
Qed.

Lemma owner_unique st Q k c c' : represents st Q -> k ∈ (Q c).*1 -> k ∈ (Q c').*1 -> c = c'.
Proof.
  intros HQ (x & -> & Hx)%list_elem_of_fmap Hc'. destruct x as [k t].
  destruct (represents_lookup _ _ _ _ _ HQ Hx) as (t' & Hk & _ & Htt).
  apply (rep_owner _ _ HQ _ _ c' Hk) in Hc'. congruence.
Qed.

(** The chains of the other queues survive the surgery on one queue. *)
Lemma other_chain st Q c c' (l l1 : list (nat * Timer)) k r v h :
  represents st Q -> c' <> c -> lseg (store st) l (heads st !! c') None -> view <$> l = Q c' ->
  k ∉ (Q c').*1 -> (forall x, x ∈ keys l1 -> x ∈ (Q c).*1) ->
  lseg (write_link h (<[k := r]> (store st)) (last_loc None l1) v).2 l (heads st !! c') None.
Proof.
  intros HQ Hne Hl E Hk Hsub. assert (keys l = (Q c').*1) as Ek by by rewrite <-E, keys_view.
  apply write_link_frame; [apply lseg_frame; [by rewrite Ek|done]|].
  intros k' Hk'%last_loc_in Hin. rewrite Ek in Hin. apply Hne. symmetry.
  by eapply owner_unique; [|apply Hsub|].
Qed.

(** A change of the queue of one CPU around one timer. *)
Lemma represents_update st st' Q c k q' l' :
  represents st Q -> frame st st' k ->
  lseg (store st') l' (heads st' !! c) None -> view <$> l' = q' ->
  (forall c', c' <> c -> heads st' !! c' = heads st !! c' /\
     forall l, lseg (store st) l (heads st !! c') None -> view <$> l = Q c' ->
       lseg (store st') l (heads st !! c') None) ->
  (forall k', k' <> k -> k' ∈ q'.*1 <-> k' ∈ (Q c).*1) ->
  (forall c', c' <> c -> k ∉ (Q c').*1) ->
  (forall t c', store st' !! k = Some t -> tt t = Some c' <-> c' = c /\ k ∈ q'.*1) ->
  (forall t, store st' !! k = Some t -> is_s64 (twhen t)) ->
  represents st' (<[c := q']> Q).
Proof.
  intros HQ Hframe Hl' Eq' Hother Hin Hk Howner Hwhen. split.
  - intros c'. destruct (decide (c = c')) as [<- |].
    + exists l'. by rewrite fn_lookup_insert.
    + rewrite fn_lookup_insert_ne by done. destruct (Hother c') as [-> Hc]; [done|].
      destruct (rep_chain _ _ HQ c') as (l & Hl & El). exists l. auto.
  - intros k' t' c' Ht'. destruct (decide (k' = k)) as [-> | Hne].
    + rewrite (Howner _ c' Ht'). destruct (decide (c = c')) as [<- |].
      * rewrite fn_lookup_insert. naive_solver.
      * rewrite fn_lookup_insert_ne by done. naive_solver.
    + destruct (frame_lookup _ _ _ _ _ Hframe Hne Ht') as (t0 & Ht0 & (Ett & _)%plain_eq).
      rewrite <-Ett, (rep_owner _ _ HQ _ _ c' Ht0). destruct (decide (c = c')) as [<- |].
      * by rewrite fn_lookup_insert, Hin.
      * by rewrite fn_lookup_insert_ne.
  - intros k' t' Ht'. destruct (decide (k' = k)) as [-> | Hne]; [auto|].
    destruct (frame_lookup _ _ _ _ _ Hframe Hne Ht') as (t0 & Ht0 & (_ & _ & _ & _ & Ew)%plain_eq).
    rewrite <-Ew. by eapply rep_when.
Qed.

Lemma tadd_ok st Q c k t hw :
  represents st Q -> store st !! k = Some t -> tt t = None -> valid_timer t ->
  tod_init (clock st) = true ->
  let t' := set_tt (Some c) (retimed st (Q c) hw t) in
  exists st', tadd c k hw st =
      Ok (st', if is_first k (enqueue (k, plain t') (Q c)) then twhen t' else 0) /\
    represents st' (<[c := enqueue (k, plain t') (Q c)]> Q) /\ frame st st' k /\
    plain <$> store st' !! k = Some (plain t').
Proof.
  intros HQ Hk Htt Hv Hi t'. unfold tadd. rewrite Hk. simpl. rewrite bool_decide_true by done. simpl.
  rewrite (tadd_when_ok st Q) by done. simpl.
  set (t1 := retimed st (Q c) hw t) in *.
  destruct (retimed_keeps st (Q c) hw t) as (_ & _ & _ & Ett). fold t1 in Ett.
  destruct (rep_chain _ _ HQ c) as (l & Hl & EQ).
  destruct (find_place_ok _ l [] _ (twhen t1) (walk_fuel st) Hl) as (l1 & l2 & p & -> & Hfp & H1 & H2 & He).
  { pose proof (lseg_size _ _ _ Hl). unfold walk_fuel. lia. }
  change (last_loc (K:=nat) (R:=Timer) None []) with (@None nat) in Hfp. rewrite Hfp. simpl.
  assert (forall c', k ∉ (Q c').*1) as Hout.
  { intros c' Hin. apply (rep_owner _ _ HQ _ _ _ Hk) in Hin. congruence. }
  assert (k ∉ keys (l1 ++ l2)) as Hkl by (rewrite <-keys_view, EQ; apply Hout).
  set (r := set_tnext p t1).
  pose proof (lseg_link_in (store st) l1 l2 (heads st !! c) p k r H1 H2
    (lseg_NoDup _ _ _ Hl) Hkl eq_refl) as Hlink. simpl in Hlink.
  unfold write_last, set_timer. simpl.
  destruct (write_link (heads st !! c) (<[k := r]> (store st)) (last_loc None l1) (Some k))
    as [h m] eqn:Ew. simpl.
  assert (m !! k = Some r) as Hmk.
  { change m with ((h, m).2). rewrite <-Ew. rewrite write_link_lookup; [by rewrite lookup_insert_eq|].
    rewrite keys_app in Hkl. set_solver. }
  rewrite Hmk. simpl.
  set (st' := mkTimers _ _ _).
  assert (frame st st' k) as Hframe.
  { split; [done|]. intros k' Hne. simpl. rewrite lookup_insert_ne by done.
    change m with ((h, m).2). rewrite <-Ew, write_link_view by done. by rewrite lookup_insert_ne. }
  assert (store st' !! k = Some (set_tnext p t')) as Hk' by apply lookup_insert_eq.
  exists st'. split; [|split; [|split; [done|by rewrite Hk']]].
  - rewrite <-EQ, (He k (plain t')) by done. unfold last_loc, is_first.
    destruct l1 as [|[k1 t1'] l1 _] using rev_ind; [by rewrite bool_decide_true|].
    rewrite last_snoc, bool_decide_false; [done|]. rewrite fmap_app. intros Hh. apply Hkl.
    rewrite keys_app. apply elem_of_app. left. unfold keys.
    destruct l1 as [|[k2 t2] l1]; simpl in Hh; simplify_eq/=; set_solver.
  - apply (represents_update st st' Q c k _ (set_last (Some k) l1 ++ (k, set_tnext p t') :: l2)); try done.
    + unfold st'. simpl. rewrite lookup_partial_alter_eq. apply lseg_set with r; [done| |done].
      eapply lseg_NoDup, Hlink.
    + rewrite fmap_app, fmap_set_last by done. simpl. rewrite <-EQ, (He k (plain t')) by done. done.
    + intros c' Hne. unfold st'. simpl. rewrite lookup_partial_alter_ne by done. split; [done|].
      intros l Hl' El. apply lseg_frame; [by rewrite <-keys_view, El|]. change m with ((h, m).2).
      rewrite <-Ew. eapply other_chain; [done|exact Hne|done|done|apply Hout|].
      intros x Hx. rewrite <-EQ, keys_view, keys_app. set_solver.
    + intros k' Hne. rewrite keys_enqueue. naive_solver.
    + intros t2 c'. rewrite Hk'. intros [= <-]. simpl. rewrite keys_enqueue. naive_solver.
    + intros t2. rewrite Hk'. intros [= <-]. simpl. apply retimed_s64.
Qed.

(** ** [tdel] *)

Lemma elem_of_keys_dequeue k' k q : k' ∈ (dequeue k q).*1 <-> k' ∈ q.*1 /\ k' <> k.
Proof.
  unfold dequeue. rewrite !list_elem_of_fmap. split.
  - intros (x & -> & [? ?]%list_elem_of_filter). eauto.
  - intros [(x & -> & ?) ?]. exists x. split; [done|]. by apply list_elem_of_filter.
Qed.
Lemma dequeue_notin k q : k ∉ q.*1 -> dequeue k q = q.
Proof.
  induction q as [|x q IH]; [done|]. simpl. rewrite not_elem_of_cons. intros [Hne Hk].
  unfold dequeue in *. rewrite filter_cons_True by done. by rewrite IH.
Qed.
Lemma dequeue_mid k t q1 q2 : k ∉ q1.*1 -> k ∉ q2.*1 -> dequeue k (q1 ++ (k, t) :: q2) = q1 ++ q2.
Proof.
  intros H1%dequeue_notin H2%dequeue_notin. unfold dequeue in *.
  rewrite filter_app, filter_cons_False by naive_solver. congruence.
Qed.

Lemma rep_find st Q c k t :
  represents st Q -> store st !! k = Some t -> tt t = Some c ->
  exists l1 l2, lseg (store st) (l1 ++ (k, t) :: l2) (heads st !! c) None /\
    view <$> (l1 ++ (k, t) :: l2) = Q c /\ k ∉ keys l1 /\ k ∉ keys l2.
Proof.
  intros HQ Hk Htt. apply (rep_owner _ _ HQ _ _ _ Hk) in Htt.
  destruct (rep_chain _ _ HQ c) as (l & Hl & EQ). rewrite <-EQ in *. rewrite keys_view in Htt.
  apply list_elem_of_fmap in Htt as ([k' t'] & -> & Hin). simpl in *.
  pose proof (lseg_lookup _ _ _ _ _ _ Hl Hin). simplify_eq.
  apply list_elem_of_split in Hin as (l1 & l2 & ->). exists l1, l2.
  pose proof (NoDup_keys_mid _ _ _ _ (lseg_NoDup _ _ _ Hl)) as (_ & ? & ? & _). done.
Qed.

Lemma tdel_ok st Q c k t :
  represents st Q -> store st !! k = Some t -> tt t = Some c ->
  exists st', tdel k st =
      Ok (st', match dequeue k (Q c) with
               | x :: _ => if is_first k (Q c) then deadline x else 0 | [] => 0 end) /\
    represents st' (<[c := dequeue k (Q c)]> Q) /\ frame st st' k /\
    plain <$> store st' !! k = Some (plain (set_tt None t)).
Proof.
  intros HQ Hk Htt. unfold tdel. rewrite Hk. simpl. rewrite Htt.
  destruct (rep_find _ _ _ _ _ HQ Hk Htt) as (l1 & l2 & Hl & EQ & Hk1 & Hk2).
  pose proof (lseg_NoDup _ _ _ Hl) as Hnd.
  pose proof (find_timer_ok _ l1 k t l2 [] _ (walk_fuel st) Hl Hk1) as Hft.
  change (last_loc (K:=nat) (R:=Timer) None []) with (@None nat) in Hft. simpl in Hft.
  rewrite Hft; clear Hft; [|pose proof (lseg_size _ _ _ Hl) as Hs; rewrite length_app in Hs; unfold walk_fuel; lia].
  simpl. set (t0 := set_tt None t).
  pose proof (lseg_set _ _ k t t0 _ _ _ Hl Hnd eq_refl) as Hl0.
  pose proof (lseg_unlink _ _ _ _ _ _ Hl0 (lseg_NoDup _ _ _ Hl0)) as Hun.
  change (lk t0) with (tnext t) in Hun. unfold write_last, set_timer. simpl.
  destruct (write_link (heads st !! c) (<[k := t0]> (store st)) (last_loc None l1) (tnext t))
    as [h m] eqn:Ew. simpl in *. rewrite lookup_partial_alter_eq.
  set (st' := mkTimers _ _ _).
  assert (view <$> l1 ++ l2 = dequeue k (Q c)) as Edel.
  { rewrite <-EQ, !fmap_app. simpl. symmetry. apply dequeue_mid; by rewrite keys_view. }
  assert (frame st st' k) as Hframe.
  { split; [done|]. intros k' Hne. simpl.
    change m with ((h, m).2). rewrite <-Ew, write_link_view by done. by rewrite lookup_insert_ne. }
  assert (store st' !! k = Some t0) as Hk'.
  { simpl. change m with ((h, m).2). rewrite <-Ew, write_link_lookup by done. apply lookup_insert_eq. }
  exists st'. split; [|split; [|split; [done|by rewrite Hk']]].
  - rewrite <-Edel, <-EQ. unfold last_loc, is_first in *.
    destruct l1 as [|[k1 t1] l1 _] using rev_ind.
    + simpl in *. rewrite bool_decide_true by done. destruct l2 as [|[k2 t2] l2]; simpl in *.
      * by subst h.
      * destruct Hun as (-> & -> & _). done.
    + rewrite last_snoc in *. rewrite bool_decide_false.
      * by destruct (view <$> (l1 ++ [(k1, t1)]) ++ l2).
      * intros Hh. apply Hk1. rewrite keys_app. apply elem_of_app.
        destruct l1 as [|[k3 t3] l1]; simpl in Hh; unfold keys; simplify_eq/=; set_solver.
  - apply (represents_update st st' Q c k _ (set_last (tnext t) l1 ++ l2)); try done.
    + unfold st'. simpl. by rewrite lookup_partial_alter_eq.
    + rewrite fmap_app, fmap_set_last by done. by rewrite <-fmap_app.
    + intros c' Hne. unfold st'. simpl. rewrite lookup_partial_alter_ne by done. split; [done|].
      intros l Hl' El. change m with ((h, m).2).
      rewrite <-Ew. eapply other_chain; [done|exact Hne|done|done| |].
      * intros Hin. apply Hne. eapply owner_unique; [done|exact Hin|].
        by apply (rep_owner _ _ HQ _ _ _ Hk).
      * intros x Hx. rewrite <-EQ, keys_view, keys_app. set_solver.
    + intros k' Hne. rewrite elem_of_keys_dequeue. naive_solver.
    + intros c' Hne Hin. apply Hne. eapply owner_unique; [done|exact Hin|].
      by apply (rep_owner _ _ HQ _ _ _ Hk).
    + intros t2 c'. rewrite Hk'. intros [= <-]. simpl. rewrite elem_of_keys_dequeue. naive_solver.
    + intros t2. rewrite Hk'. intros [= <-]. simpl. by eapply rep_when.
Qed.

(** ** Order *)

(** [x] enters [q] behind every entry that is due no later than it. *)
Definition inserted (x : entry) (q1 q2 : list entry) : Prop :=
  Forall (fun y => deadline y <= deadline x) q1 /\ Forall (fun y => deadline x < deadline y) q2.

Lemma enqueue_split x q : StronglySorted earlier q ->
  exists q1 q2, q = q1 ++ q2 /\ enqueue x q = q1 ++ x :: q2 /\ inserted x q1 q2.
Proof.
  intros Hs. induction Hs as [|y q Hs IH Hall]; [by exists [], []|]. simpl.
  destruct (Z.gtb_spec (deadline y) (deadline x)).
  - exists [], (y :: q). split; [done|split; [done|]]. split; [done|]. constructor; [lia|].
    eapply Forall_impl; [exact Hall|]. unfold earlier. simpl. lia.
  - destruct IH as (q1 & q2 & -> & -> & H1 & H2). exists (y :: q1), q2.
    split; [done|split; [done|split; [by constructor|done]]].
Qed.
Lemma enqueue_inserted x q1 q2 : inserted x q1 q2 -> enqueue x (q1 ++ q2) = q1 ++ x :: q2.
Proof.
  intros [H1 H2]. induction H1 as [|y q1 Hy H1 IH]; simpl.
  - destruct H2; simpl; [done|]. by assert (deadline x0 >? deadline x = true) as -> by lia.
  - assert (deadline y >? deadline x = false) as -> by lia. by rewrite IH.
Qed.
Lemma sorted_inserted x q1 q2 :
  StronglySorted earlier (q1 ++ q2) -> inserted x q1 q2 -> StronglySorted earlier (q1 ++ x :: q2).
Proof.
  intros Hs [H1 H2]. induction H1 as [|y q1 Hy H1 IH]; simpl in *.
  - constructor; [done|]. eapply Forall_impl; [exact H2|]. unfold earlier. simpl. lia.
  - inversion Hs as [|? ? Hs' Hall]; subst. constructor; [auto|].
    apply Forall_app in Hall as [? ?]. apply Forall_app. split; [done|]. by constructor.
Qed.
Lemma sorted_enqueue x q : StronglySorted earlier q -> StronglySorted earlier (enqueue x q).
Proof.
  intros Hs. destruct (enqueue_split x q Hs) as (q1 & q2 & -> & -> & Hi). by apply sorted_inserted.
Qed.
Lemma sorted_filter (P : entry -> Prop) `{!forall x, Decision (P x)} q :
  StronglySorted earlier q -> StronglySorted earlier (filter P q).
Proof.
  intros Hs. induction Hs as [|y q Hs IH Hall]; [constructor|]. rewrite filter_cons.
  destruct (decide (P y)); [|done]. constructor; [done|].
  apply Forall_forall. intros z [_ Hz]%list_elem_of_filter. by eapply Forall_forall in Hall.
Qed.
Lemma ordered_insert Q c q : ordered Q -> StronglySorted earlier q -> ordered (<[c := q]> Q).
Proof.
  intros HQ Hq c'. destruct (decide (c = c')) as [<- |].
  - by rewrite fn_lookup_insert.
  - by rewrite fn_lookup_insert_ne.
Qed.
#[local] Hint Resolve ordered_insert sorted_enqueue sorted_filter : core.

Lemma plain_retimed st q hw c t t1 :
  plain t1 = plain (set_tt None t) ->
  plain (set_tt c (retimed st q hw t1)) = plain (set_tt c (retimed st q hw t)).
Proof.
  destruct t as [a b d e g i], t1 as [a' b' d' e' g' i']. unfold plain, set_tnext, set_tt. simpl.
  intros [= -> -> -> -> ->]. unfold retimed, base_time. simpl.
  by destruct (a =? Trelative), (b <=? 0).
Qed.
Lemma is_first_app k t q1 q2 : k ∉ q1.*1 -> is_first k (q1 ++ (k, t) :: q2) = bool_decide (q1 = []).
Proof.
  intros Hk. unfold is_first. destruct q1 as [|[k' t'] q1]; simpl; [by rewrite !bool_decide_true|].
  rewrite bool_decide_false; [done|]. intros [= ->]. set_solver.
Qed.
Lemma frame_trans st1 st2 st3 k : frame st1 st2 k -> frame st2 st3 k -> frame st1 st3 k.
Proof. intros [? H1] [? H2]. split; [congruence|]. intros. by rewrite H2, H1. Qed.

(** The queues once a timer has left the one it is on. *)
Definition leave (Q : nat -> list entry) (k : nat) (t : Timer) : nat -> list entry :=
  match tt t with Some c => <[c := dequeue k (Q c)]> Q | None => Q end.

Lemma timeradd_ok st Q k t cpuno hw :
  represents st Q -> ordered Q -> tod_init (clock st) = true ->
  store st !! k = Some t -> valid_timer t ->
  let Q1 := leave Q k t in
  let x := (k, plain (set_tt (Some cpuno) (retimed st (Q1 cpuno) hw t))) in
  exists st' q1 q2, Q1 cpuno = q1 ++ q2 /\ inserted x q1 q2 /\
    timeradd cpuno k hw st =
      Ok (st', if bool_decide (q1 = []) && negb (deadline x =? 0) then Some (deadline x) else None) /\
    represents st' (<[cpuno := q1 ++ x :: q2]> Q1) /\ ordered (<[cpuno := q1 ++ x :: q2]> Q1) /\
    frame st st' k /\ plain <$> store st' !! k = Some x.2.
Proof.
  intros HQ Ho Hi Hk Hv Q1 x. unfold timeradd. rewrite Hk. simpl.
  assert (exists st1 t1,
    match tt t with Some _ => let* (st, _) := tdel k st in Ok st | None => Ok st end = Ok st1 /\
    represents st1 Q1 /\ ordered Q1 /\ frame st st1 k /\ store st1 !! k = Some t1 /\
    plain t1 = plain (set_tt None t)) as (st1 & t1 & -> & HQ1 & Ho1 & Hf1 & Hk1 & Ht1).
  { unfold Q1, leave. destruct (tt t) as [c|] eqn:Htt.
    - destruct (tdel_ok _ _ _ _ _ HQ Hk Htt) as (st1 & -> & ? & ? & Hk1). simpl.
      destruct (store st1 !! k) as [t1|] eqn:Hst1; [|done]. apply (inj Some) in Hk1.
      exists st1, t1. split; [done|split; [done|split; [|done]]]. apply ordered_insert; [done|].
      by apply sorted_filter.
    - exists st, t. repeat (split; [done|]). destruct t; simpl in Htt. by rewrite Htt. }
  simpl. destruct (plain_eq _ _ Ht1) as (Htt1 & Hm1 & Hn1 & _ & _). simpl in Htt1, Hm1, Hn1.
  destruct (tadd_ok st1 Q1 cpuno k t1 hw) as (st2 & -> & HQ2 & Hf2 & Hk2); try done.
  { unfold valid_timer. by rewrite Hm1, Hn1. }
  { by rewrite (proj1 Hf1). }
  assert (plain (set_tt (Some cpuno) (retimed st1 (Q1 cpuno) hw t1)) = x.2) as Ex.
  { simpl. rewrite <-(plain_retimed _ _ _ _ _ _ Ht1). unfold retimed, period. by rewrite (proj1 Hf1). }
  assert (twhen (set_tt (Some cpuno) (retimed st1 (Q1 cpuno) hw t1)) = deadline x) as Ew
    by (unfold deadline; by rewrite <-Ex).
  rewrite Ew. rewrite Ex in *. change (k, x.2) with x in *.
  destruct (enqueue_split x (Q1 cpuno) (Ho1 cpuno)) as (q1 & q2 & E1 & E2 & Hins). rewrite E2 in *.
  exists st2, q1, q2. split; [done|]. split; [done|]. split; [|split; [done|split; [|split; [|done]]]].
  - assert (is_first k (q1 ++ x :: q2) = bool_decide (q1 = [])) as Hfirst.
    { apply is_first_app. intros Hin. assert (k ∈ (Q1 cpuno).*1) as Hin' by (rewrite E1; set_solver).
      apply (rep_owner _ _ HQ1 _ _ _ Hk1) in Hin'. congruence. }
    simpl. rewrite Hfirst. by destruct (bool_decide (q1 = [])), (deadline x =? 0).
  - apply ordered_insert; [done|]. rewrite <-E2. by apply sorted_enqueue.
  - by eapply frame_trans.
Qed.

Lemma timerdel_ok st Q k t cpuno :
  represents st Q -> ordered Q -> store st !! k = Some t ->
  exists st', timerdel cpuno k st =
      Ok (st', match tt t, dequeue k (Q cpuno) with
               | Some c, y :: _ =>
                   if bool_decide (c = cpuno) && is_first k (Q c) && negb (deadline y =? 0)
                   then Some (deadline y) else None
               | _, _ => None end) /\
    represents st' (leave Q k t) /\ ordered (leave Q k t) /\ frame st st' k /\
    plain <$> store st' !! k = Some (plain (set_tt None t)).
Proof.
  intros HQ Ho Hk. unfold timerdel, leave. rewrite Hk. simpl. destruct (tt t) as [c|] eqn:Htt.
  - destruct (tdel_ok _ _ _ _ _ HQ Hk Htt) as (st1 & -> & HQ1 & ? & Hk1). simpl. exists st1.
    split; [|split; [done|split; [apply ordered_insert; [done|by apply sorted_filter]|done]]].
    destruct (decide (c = cpuno)) as [<- |].
    + rewrite !bool_decide_true by done. destruct (rep_chain _ _ HQ1 c) as (l & Hl & El).
      rewrite fn_lookup_insert in El. destruct (dequeue k (Q c)) as [|y q]; [done|].
      destruct l as [|[k1 t1] l]; simplify_eq/=. destruct Hl as (-> & Hk2 & _).
      destruct (is_first k (Q c)); simpl; [|done]. destruct (_ =? 0); simpl; [done|].
      rewrite Hk2. done.
    + rewrite !bool_decide_false by done. rewrite andb_false_r. by destruct (dequeue k (Q cpuno)).
  - exists st. repeat (split; [done|]). rewrite Hk. simpl. destruct t; simpl in *. by subst.
Qed.

(** C22: the queues behave as ordered lists.  In any state whose links
    represent queues ordered by deadline, adding a timer (or
    moving one that is already queued) never fails, leaves every other timer
    alone, computes the deadline from the clock or, for a periodic timer, from its
    previous deadline or from a timer of the same frequency, and places the
    timer behind all those that are due no later (first come first served
    among equals); the hardware is programmed exactly when the timer comes
    first.  Deleting removes exactly that timer, and programs the hardware with the
    new first deadline exactly when the first timer of the own CPU left and another
    remains.  Both keep the queues represented, disjoint and ordered. *)
Theorem timer_queues (st : timers) (Q : nat -> list entry) (k : nat) (t : Timer) (cpuno : nat) (hw : Hw) :
  represents st Q -> ordered Q -> tod_init (clock st) = true ->
  store st !! k = Some t -> valid_timer t ->
  (let Q1 := leave Q k t in
   let x := (k, plain (set_tt (Some cpuno) (retimed st (Q1 cpuno) hw t))) in
   exists st' q1 q2, Q1 cpuno = q1 ++ q2 /\ inserted x q1 q2 /\
     timeradd cpuno k hw st =
       Ok (st', if bool_decide (q1 = []) && negb (deadline x =? 0) then Some (deadline x) else None) /\
     represents st' (<[cpuno := q1 ++ x :: q2]> Q1) /\ ordered (<[cpuno := q1 ++ x :: q2]> Q1) /\
     frame st st' k) /\
  (exists st', timerdel cpuno k st =
     Ok (st', match tt t, dequeue k (Q cpuno) with
              | Some c, y :: _ =>
                  if bool_decide (c = cpuno) && is_first k (Q c) && negb (deadline y =? 0)
                  then Some (deadline y) else None
              | _, _ => None end) /\
     represents st' (leave Q k t) /\ ordered (leave Q k t) /\ frame st st' k).
Proof.
  intros HQ Ho Hi Hk Hv. split.
  - destruct (timeradd_ok st Q k t cpuno hw HQ Ho Hi Hk Hv) as (st' & q1 & q2 & ? & ? & ? & ? & ? & ? & _).
    exists st', q1, q2. auto 10.
  - destruct (timerdel_ok st Q k t cpuno HQ Ho Hk) as (st' & ? & ? & ? & ? & _). eauto 10.
Qed.

(** Two queued timers of CPU 0 and an idle one. *)
Definition clk : TOD := mkTOD true 0 0 (2 ^ 28) 0 0 62500000 0 0 0 0 0 0.
Definition timer1 : Timer := mkTimer Tperiodic 160000 (Some 1%nat) 5000 None (Some 0%nat).
Definition timer2 : Timer := mkTimer Trelative 300 (Some 2%nat) 7000 None (Some 0%nat).
Definition timer3 : Timer := mkTimer Tperiodic 160000 None 0 None None.
Definition queues0 : timers :=
  mkTimers {[1%nat := set_tnext (Some 2%nat) timer1; 2%nat := timer2; 3%nat := timer3]} {[0%nat := 1%nat]} clk.
Definition Q0 : nat -> list entry := <[0%nat := [(1%nat, timer1); (2%nat, timer2)]]> (fun _ => []).

Lemma queues0_ok : represents queues0 Q0 /\ ordered Q0.
Proof.
  unfold Q0. split; [split|].
  - intros [|c].
    + exists [(1%nat, set_tnext (Some 2%nat) timer1); (2%nat, timer2)]. by repeat split.
    + exists []. split; [|done]. simpl. by rewrite lookup_singleton_ne.
  - intros k t c. unfold queues0. cbn [store]. intros [[<- <-]|[? Hk]]%lookup_insert_Some;
      [|apply lookup_insert_Some in Hk as [[<- <-]|[? Hk]];
        [|apply lookup_singleton_Some in Hk as [<- <-]]];
      (destruct c as [|c]; [rewrite fn_lookup_insert|rewrite fn_lookup_insert_ne by done];
       simpl; set_solver).
  - intros k t. unfold queues0. cbn [store]. intros [[<- <-]|[? Hk]]%lookup_insert_Some;
      [|apply lookup_insert_Some in Hk as [[<- <-]|[? Hk]];
        [|apply lookup_singleton_Some in Hk as [<- <-]]]; vm_compute; split; congruence.
  - apply ordered_insert; [intros c; constructor|].
    constructor; [constructor; [constructor|constructor]|].
    constructor; [|constructor]. unfold earlier, deadline. simpl. lia.
Qed.

Lemma timer_queues_witness :
  (let x := (3%nat, plain (set_tt (Some 0%nat) (retimed queues0 (Q0 0%nat) (hw_at 100 0) timer3))) in
   deadline x = 15000 /\
   exists st' q1 q2, Q0 0%nat = q1 ++ q2 /\ inserted x q1 q2 /\
     timeradd 0 3 (hw_at 100 0) queues0 =
       Ok (st', if bool_decide (q1 = []) && negb (deadline x =? 0) then Some (deadline x) else None) /\
     represents st' (<[0%nat := q1 ++ x :: q2]> Q0)) /\
  (exists st', timerdel 0 1 queues0 = Ok (st', Some 7000) /\
     represents st' (<[0%nat := dequeue 1 (Q0 0%nat)]> Q0)).
Proof.
  split.
  - split; [vm_compute; reflexivity|].
    destruct (timer_queues queues0 Q0 3 timer3 0 (hw_at 100 0)) as [(st' & q1 & q2 & E & Hi & Ha & Hr & _) _].
    + apply queues0_ok.
    + apply queues0_ok.
    + reflexivity.
    + reflexivity.
    + right. split; [reflexivity|vm_compute; congruence].
    + exists st', q1, q2. split; [exact E|]. split; [exact Hi|]. split; [exact Ha|exact Hr].
  - destruct (timer_queues queues0 Q0 1 (set_tnext (Some 2%nat) timer1) 0 (hw_at 100 0))
      as [_ (st' & Hd & Hr & _)].
    + apply queues0_ok.
    + apply queues0_ok.
    + reflexivity.
    + reflexivity.
    + right. split; [reflexivity|vm_compute; congruence].
    + exists st'. split; [exact Hd|exact Hr].
Defined.

(** ** The clock interrupt *)

Definition periodic (x : entry) : Prop := tmode x.2 = Tperiodic.
#[local] Instance periodic_dec x : Decision (periodic x) := Z.eq_dec _ _.

Section interrupt.
Context (callback : nat -> nat -> timers -> result timers) (c : nat) (now : Z) (dv : Z).
Hypothesis Hnow : 0 < now < 2 ^ 63.

(** The period of an entry in ticks, under the factor [dv] of the clock. *)
Definition per (x : entry) : Z := arch_mul64fract (u64 (tns x.2)) dv.
(** The times at which an entry fires up to [now]. *)
Definition occurrences (x : entry) : list (nat * Z) :=
  if decide (periodic x)
  then (fun i => (x.1, deadline x + i * per x)) <$> seqZ 0 ((now - deadline x) / per x + 1)
  else if decide (deadline x <= now) then [(x.1, deadline x)] else [].
(** A periodic entry once it has fired up to [now]. *)
Definition settle (x : entry) : entry :=
  (x.1, set_twhen (deadline x + Z.max 0 ((now - deadline x) / per x + 1) * per x) x.2).
Definition advance (x : entry) : entry := (x.1, set_twhen (deadline x + per x) x.2).
(** What the interrupt is responsible for: the timers that are due and the periodic
    ones.  The functions it calls may change the other ones. *)
Definition kept (x : entry) : Prop := periodic x \/ deadline x <= now.
#[local] Instance kept_dec x : Decision (kept x) :=
  or_dec (decide (periodic x)) (decide (deadline x <= now)).
(** Deadlines start after the epoch of the clock, periods are positive, and neither overflows. *)
Definition fit (x : entry) : Prop :=
  0 < deadline x /\ (periodic x -> 100000 <= tns x.2 /\ 0 < per x /\ now + per x < 2 ^ 63).

(** What the functions called by timers must respect. *)
Definition callback_ok : Prop :=
  forall f k st Q t, represents st Q -> ordered Q ->
    tod_init (clock st) = true -> tod_divider (clock st) = dv ->
    store st !! k = Some t -> tt t = None ->
    exists st' Q' t', callback f k st = Ok st' /\ represents st' Q' /\ ordered Q' /\
      tod_init (clock st') = true /\ tod_divider (clock st') = dv /\
      filter kept (Q' c) = filter kept (Q c) /\ store st' !! k = Some t' /\
      tmode t' = tmode t /\ (tmode t = Tperiodic -> plain t' = plain t).

Lemma occurrences_due x : fit x -> deadline x <= now ->
  occurrences x = (x.1, deadline x) :: (if decide (periodic x) then occurrences (advance x) else []).
Proof.
  intros [_ Hfit] Hdue. unfold occurrences. destruct (decide (periodic x)) as [Hp|]; [|by rewrite decide_True].
  rewrite decide_True by done. destruct (Hfit Hp) as (_ & Hper & _).
  change (per (advance x)) with (per x). unfold advance, deadline; simpl. fold (deadline x).
  replace ((now - (deadline x + per x)) / per x + 1) with ((now - deadline x) / per x)
    by (replace (now - (deadline x + per x)) with (now - deadline x + (-1) * per x) by ring;
        rewrite Z.div_add by lia; lia).
  assert (0 <= (now - deadline x) / per x) by (apply Z.div_pos; lia).
  rewrite seqZ_cons by lia. simpl. f_equal; [f_equal; lia|].
  replace (Z.succ 0) with (1 + 0) by lia. rewrite <-fmap_add_seqZ, <-list_fmap_compose.
  replace (Z.pred ((now - deadline x) / per x + 1)) with ((now - deadline x) / per x) by lia.
  apply list_fmap_ext. intros i y _. simpl. f_equal. lia.
Qed.
Lemma occurrences_later x : fit x -> now < deadline x -> occurrences x = [].
Proof.
  intros [_ Hfit] Hd. unfold occurrences. destruct (decide (periodic x)) as [Hp|]; [|by rewrite decide_False by lia].
  destruct (Hfit Hp) as (_ & Hper & _). rewrite seqZ_nil; [done|].
  assert ((now - deadline x) / per x < 0) by (apply Z.div_lt_upper_bound; lia). lia.
Qed.
Lemma occurrences_ge x y : fit x -> y ∈ occurrences x -> deadline x <= y.2.
Proof.
  intros [_ Hfit]. unfold occurrences. destruct (decide (periodic x)) as [Hp|].
  - destruct (Hfit Hp) as (_ & Hper & _). intros (i & -> & Hi%elem_of_seqZ)%list_elem_of_fmap. simpl. nia.
  - destruct (decide _); [|by rewrite elem_of_nil]. rewrite list_elem_of_singleton. by intros ->.
Qed.
Lemma settle_due x : fit x -> deadline x <= now -> periodic x -> settle (advance x) = settle x.
Proof.
  intros [_ Hfit] Hdue Hp. destruct (Hfit Hp) as (_ & Hper & _). unfold settle.
  change (per (advance x)) with (per x). unfold advance, deadline; simpl. fold (deadline x).
  replace (now - (deadline x + per x)) with (now - deadline x + (-1) * per x) by ring.
  rewrite Z.div_add by lia. assert (0 <= (now - deadline x) / per x) by (apply Z.div_pos; lia).
  unfold set_twhen; simpl. do 2 f_equal. lia.
Qed.
Lemma settle_later x : fit x -> now < deadline x -> periodic x -> settle x = x.
Proof.
  intros [_ Hfit] Hd Hp. destruct (Hfit Hp) as (_ & Hper & _). unfold settle.
  assert ((now - deadline x) / per x < 0) by (apply Z.div_lt_upper_bound; lia).
  rewrite Z.max_l by lia. destruct x as [k []]. unfold deadline, set_twhen; simpl. do 2 f_equal. lia.
Qed.
Lemma fit_advance x : fit x -> periodic x -> fit (advance x) /\ kept (advance x).
Proof.
  intros [Hd Hfit] Hp. destruct (Hfit Hp) as (? & ? & ?).
  split; [|by left]. split; [unfold advance, deadline in *; simpl; lia|]. intros _. by apply Hfit.
Qed.

Lemma enqueue_Permutation x q : enqueue x q ≡ₚ x :: q.
Proof.
  induction q as [|y q IH]; simpl; [done|]. destruct (_ >? _); [done|]. rewrite IH. apply Permutation_swap.
Qed.
Lemma filter_enqueue x q : StronglySorted earlier q -> kept x ->
  filter kept (enqueue x q) = enqueue x (filter kept q).
Proof.
  intros Hs Hx. destruct (enqueue_split x q Hs) as (q1 & q2 & -> & -> & H1 & H2).
  rewrite !filter_app, filter_cons_True by done. symmetry. apply enqueue_inserted.
  split; apply Forall_forall; intros y [_ Hy]%list_elem_of_filter;
    [by eapply Forall_forall in H1|by eapply Forall_forall in H2].
Qed.

(** Taking the first timer off the queue, as the loop does. *)
Lemma pop_ok st Q k t q :
  represents st Q -> Q c = (k, plain t) :: q -> store st !! k = Some t -> tt t = Some c ->
  heads st !! c = Some k ->
  let st1 := set_timer (write_last st c None (tnext t)) k (set_tt None t) in
  represents st1 (<[c := q]> Q) /\ clock st1 = clock st /\ store st1 !! k = Some (set_tt None t).
Proof.
  intros HQ EQ Hk Htt Hh st1. destruct (tdel_ok st Q c k t HQ Hk Htt) as (st' & Hdel & HQ' & _).
  assert (dequeue k (Q c) = q) as Edel.
  { rewrite EQ. apply (dequeue_mid k (plain t) [] q); [set_solver|].
    pose proof (represents_NoDup st Q c HQ) as Hnd. rewrite EQ in Hnd. by apply NoDup_cons in Hnd as [? _]. }
  rewrite Edel in HQ'. assert (st' = st1) as E; [|rewrite E in HQ'; split; [done|split]].
  - unfold tdel in Hdel. rewrite Hk in Hdel. simpl in Hdel. rewrite Htt, Hh in Hdel. simpl in Hdel.
    unfold find_timer, walk_fuel in Hdel. rewrite decide_True in Hdel by done. simpl in Hdel.
    destruct (partial_alter _ _ _ !! c) as [h|]; [|by injection Hdel].
    destruct (<[k := _]> (store st) !! h); [|done]. simpl in Hdel. by injection Hdel.
  - unfold st1, set_timer, write_last. done.
  - unfold set_timer, write_last. simpl. apply lookup_insert_eq.
Qed.

#[local] Arguments set_timer : simpl never.
#[local] Arguments write_last : simpl never.
#[local] Arguments tadd : simpl never.

Section loop.
Hypothesis Hcallback : callback_ok.

(** One round of the loop fires the first timer and queues it again if it is
    periodic. *)
Lemma fire_one st Q log hw x q :
  represents st Q -> ordered Q -> tod_init (clock st) = true -> tod_divider (clock st) = dv ->
  Q c = x :: q -> deadline x <= now -> fit x ->
  exists st' Q' log',
    (forall fuel, timerintr_loop callback (S fuel) c now hw st log =
                  timerintr_loop callback fuel c now hw st' log') /\
    represents st' Q' /\ ordered Q' /\ tod_init (clock st') = true /\ tod_divider (clock st') = dv /\
    fired log' = fired log ++ [(x.1, deadline x)] /\
    filter kept (Q' c) =
      if decide (periodic x) then enqueue (advance x) (filter kept q) else filter kept q.
Proof.
  intros HQ Ho Hi Hdv EQ Hdue [Hd Hfit].
  destruct (rep_chain _ _ HQ c) as ([|[k t] l] & Hl & El); rewrite EQ in El; [done|].
  simpl in El. injection El as <- <-. destruct Hl as (Hh & Hk & _).
  assert (tt t = Some c) as Htt by (apply (rep_owner _ _ HQ k t c Hk); rewrite EQ; set_solver).
  destruct (pop_ok st Q k t _ HQ EQ Hk Htt Hh) as (HQ1 & Hc1 & Hk1).
  set (st1 := set_timer (write_last st c None (tnext t)) k (set_tt None t)) in *.
  set (Q1 := <[c := view <$> l]> Q) in *.
  assert (ordered Q1) as Ho1.
  { apply ordered_insert; [done|]. pose proof (Ho c) as Hs. rewrite EQ in Hs. by inversion Hs. }
  unfold deadline in Hdue, Hd; simpl in Hdue, Hd.
  assert (exists st2 Q2 t2 log2, (forall fuel, timerintr_loop callback (S fuel) c now hw st log =
      let* st3 := if tmode t2 =? Tperiodic then let* (st, _) := tadd c k hw st2 in Ok st else Ok st2 in
      timerintr_loop callback fuel c now hw st3 log2) /\
    represents st2 Q2 /\ ordered Q2 /\ tod_init (clock st2) = true /\ tod_divider (clock st2) = dv /\
    filter kept (Q2 c) = filter kept (view <$> l) /\ store st2 !! k = Some t2 /\ tmode t2 = tmode t /\
    (tmode t = Tperiodic -> plain t2 = plain (set_tt None t)) /\
    fired log2 = fired log ++ [(k, twhen t)])
    as (st2 & Q2 & t2 & log2 & Hloop & HQ2 & Ho2 & Hi2 & Hdv2 & Hkept2 & Hk2 & Hm2 & Ht2 & Hlog2).
  { assert (u64 (twhen t) >? now = false) as Hnot by (rewrite u64_small by (split; lia); lia).
    destruct (tf t) as [f|] eqn:Hf.
    - destruct (Hcallback f k st1 Q1 (set_tt None t)) as
        (st2 & Q2 & t2 & Hcb & ? & ? & ? & ? & Hkept & Hk2 & ? & ?); try congruence; [done..|].
      exists st2, Q2, t2, (mkIntr (fired log ++ [(k, twhen t)]) (callhzclock log) None).
      unfold Q1 in Hkept. rewrite fn_lookup_insert in Hkept.
      split; [|by repeat (split; [done|])]. intros fuel. simpl. rewrite Hh, Hk. simpl.
      rewrite Hnot, (bool_decide_true _ Htt), Hf. simpl. fold st1. rewrite Hcb. simpl. by rewrite Hk2.
    - exists st1, Q1, (set_tt None t), (mkIntr (fired log ++ [(k, twhen t)]) (S (callhzclock log)) None).
      split; [|split; [done|split; [done|split; [congruence|split; [congruence|]]]]].
      + intros fuel. simpl. rewrite Hh, Hk. simpl. rewrite Hnot, (bool_decide_true _ Htt), Hf. simpl.
        fold st1. by rewrite lookup_insert_eq.
      + unfold Q1. by rewrite fn_lookup_insert. }
  destruct (decide (periodic (view (k, t)))) as [Hp|Hp]; unfold periodic in Hp; simpl in Hp.
  - destruct (Hfit Hp) as (Hns & Hper & Hnov). specialize (Ht2 Hp).
    destruct (plain_eq _ _ Ht2) as (Htt2 & _ & Hns2 & _ & Hwhen2). simpl in Htt2, Hns2, Hwhen2, Hns.
    destruct (tadd_ok st2 Q2 c k t2 hw HQ2 Hk2 Htt2) as (st3 & Hadd & HQ3 & [Hc3 _] & _); [|done|].
    { right. by rewrite Hm2, Hns2. }
    assert (plain (set_tt (Some c) (retimed st2 (Q2 c) hw t2)) = (advance (view (k, t))).2) as Ex.
    { unfold retimed, base_time, period. rewrite Hm2, Hp, Hdv2, Hwhen2, Hns2. simpl.
      assert (twhen t =? 0 = false) as -> by lia. unfold per in Hper, Hnov. simpl in Hper, Hnov.
      unfold advance, per, deadline; simpl.
      rewrite s64_small by (split; lia). destruct t, t2. unfold plain, set_tt, set_twhen, set_tnext in *. simpl in *.
      by simplify_eq. }
    rewrite Ex in HQ3. exists st3, (<[c := enqueue (advance (view (k, t))) (Q2 c)]> Q2), log2.
    split; [intros fuel; rewrite Hloop, Hm2, Hp; simpl; by rewrite Hadd|].
    split; [done|]. split; [apply ordered_insert; [done|apply sorted_enqueue, Ho2]|].
    do 2 (split; [congruence|]). split; [done|].
    rewrite fn_lookup_insert, filter_enqueue by (done || apply Ho2 || by left). by rewrite Hkept2.
  - exists st2, Q2, log2. split; [|done]. intros fuel. rewrite Hloop, Hm2.
    assert (tmode t =? Tperiodic = false) as -> by (by apply Z.eqb_neq). done.
Qed.

(** When the first deadline is in the future the loop stops. *)
Lemma loop_stops st Q log hw :
  represents st Q -> ordered Q -> Forall (fun x => now < deadline x) (Q c) ->
  exists n, forall fuel, timerintr_loop callback fuel c now hw st log =
    Ok (st, mkIntr (fired log) n (deadline <$> head (Q c))).
Proof.
  intros HQ Ho Hall. destruct (rep_chain _ _ HQ c) as ([|[k t] l] & Hl & El); rewrite <-El in *.
  - simpl in Hl. exists 0%nat. intros fuel. destruct fuel; simpl; by rewrite Hl.
  - destruct Hl as (Hh & Hk & _). apply Forall_cons_1 in Hall as [Hlate _]. simpl in Hlate.
    unfold deadline in Hlate; simpl in Hlate.
    pose proof (rep_when _ _ HQ _ _ Hk) as H64. unfold is_s64 in H64.
    assert (u64 (twhen t) >? now = true) as Hgt by (rewrite u64_small by (split; lia); lia).
    exists (callhzclock log). intros fuel. destruct fuel; simpl; rewrite Hh, Hk; simpl; by rewrite Hgt.
Qed.

(** The state of the queue that matters, before and after. *)
Definition outcome (K : list entry) (fs : list (nat * Z)) (Q' : nat -> list entry) : Prop :=
  fs ≡ₚ K ≫= occurrences /\ StronglySorted (fun a b => a.2 <= b.2) fs /\
  Forall (fun x => now < deadline x) (Q' c) /\
  filter kept (Q' c) ≡ₚ settle <$> filter periodic K.

Lemma outcome_idle q K Q' :
  Forall (fun x => now < deadline x) q -> Forall fit K -> Q' c = q -> filter kept q = K ->
  outcome K [] Q'.
Proof.
  intros Hall Hfit EQ EK.
  assert (Forall (fun x => now < deadline x /\ periodic x /\ fit x) K) as HK.
  { apply Forall_forall. intros x Hx. rewrite <-EK in Hx. apply list_elem_of_filter in Hx as [Hkept Hx].
    pose proof (proj1 (Forall_forall _ _) Hall x Hx) as Hlate. simpl in Hlate.
    split; [done|]. split; [destruct Hkept; [done|lia]|].
    eapply Forall_forall; [exact Hfit|]. rewrite <-EK. by apply list_elem_of_filter. }
  split; [|split; [constructor|split; [by rewrite EQ|rewrite EQ, EK]]].
  - clear -HK Hnow. induction HK as [|x K (Hl & _ & Hf) HK IH]; [done|]. simpl. rewrite <-IH.
    rewrite occurrences_later by done. done.
  - clear -HK Hnow. induction HK as [|x K (Hl & Hp & Hf) HK IH]; [done|].
    rewrite filter_cons_True by done. simpl. rewrite settle_later by done. by constructor.
Qed.

Lemma outcome_step x K fs Q' :
  deadline x <= now -> fit x -> StronglySorted earlier (x :: K) -> Forall fit K ->
  outcome (if decide (periodic x) then enqueue (advance x) K else K) fs Q' ->
  outcome (x :: K) ((x.1, deadline x) :: fs) Q'.
Proof.
  intros Hdue Hfx Hs HK (Hperm & Hsort & Hlate & Hkept).
  set (K1 := if decide (periodic x) then enqueue (advance x) K else K) in *.
  assert (K1 ≡ₚ if decide (periodic x) then advance x :: K else K) as HK1
    by (unfold K1; destruct (decide _); [apply enqueue_Permutation|done]).
  assert (fs ≡ₚ (if decide (periodic x) then occurrences (advance x) else []) ++ (K ≫= occurrences)) as Hfs.
  { rewrite Hperm, HK1. by destruct (decide _). }
  split; [|split; [|split; [done|]]].
  - rewrite Hfs. simpl. rewrite (occurrences_due x) by done. done.
  - constructor; [done|]. apply Forall_forall. intros y Hy. simpl. rewrite Hfs in Hy.
    inversion Hs as [|? ? _ Hall]; subst. apply elem_of_app in Hy as [Hy|Hy].
    + destruct (decide (periodic x)) as [Hp|]; [|by apply elem_of_nil in Hy].
      destruct (fit_advance x Hfx Hp) as [Hfa _]. apply (occurrences_ge _ _ Hfa) in Hy.
      destruct Hfx as [_ Hfx]. destruct (Hfx Hp) as (_ & Hper & _).
      unfold advance, deadline in *. simpl in *. lia.
    + apply list_elem_of_bind in Hy as (z & Hy & Hz).
      pose proof (proj1 (Forall_forall _ _) HK z Hz) as Hfz.
      pose proof (proj1 (Forall_forall _ _) Hall z Hz) as Hle. unfold earlier in Hle.
      apply (occurrences_ge _ _ Hfz) in Hy. lia.
  - rewrite Hkept, HK1. rewrite (filter_cons periodic x K).
    destruct (decide (periodic x)) as [Hp|]; [|done].
    rewrite filter_cons_True by done. simpl. by rewrite settle_due.
Qed.

Lemma loop_ok n st Q log hw :
  represents st Q -> ordered Q -> tod_init (clock st) = true -> tod_divider (clock st) = dv ->
  Forall fit (filter kept (Q c)) -> length (filter kept (Q c) ≫= occurrences) = n ->
  exists st' Q' log' fs,
    (forall fuel, (n <= fuel)%nat -> timerintr_loop callback fuel c now hw st log = Ok (st', log')) /\
    represents st' Q' /\ ordered Q' /\ fired log' = fired log ++ fs /\
    outcome (filter kept (Q c)) fs Q' /\ timerset log' = deadline <$> head (Q' c).
Proof.
  revert st Q log. induction n as [n IH] using lt_wf_ind. intros st Q log HQ Ho Hi Hdv Hfit Hn.
  assert (Forall (fun x => now < deadline x) (Q c) \/
    exists x q, Q c = x :: q /\ deadline x <= now) as [Hall|(x & q & EQ & Hdue)].
  { pose proof (Ho c) as Hs. destruct Hs as [|x q Hs Hall]; [left; constructor|].
    destruct (Z.le_gt_cases (deadline x) now); [right; eauto|left]. constructor; [done|].
    eapply Forall_impl; [exact Hall|]. unfold earlier. simpl. lia. }
  - destruct (loop_stops st Q log hw HQ Ho Hall) as [m Hstop].
    exists st, Q, (mkIntr (fired log) m (deadline <$> head (Q c))), [].
    split; [auto|]. do 2 (split; [done|]). split; [by rewrite app_nil_r|]. split; [|done].
    by apply (outcome_idle (Q c)).
  - assert (kept x) as Hkx by by right.
    rewrite EQ, filter_cons_True in Hfit, Hn by done. apply Forall_cons_1 in Hfit as [Hfx HfK].
    destruct (fire_one st Q log hw x q HQ Ho Hi Hdv EQ Hdue Hfx)
      as (st1 & Q1 & log1 & Hstep & HQ1 & Ho1 & Hi1 & Hdv1 & Hlog1 & HK1).
    pose proof (Ho c) as Hs. rewrite EQ in Hs.
    assert (StronglySorted earlier (x :: filter kept q)) as HsK.
    { apply (sorted_filter kept) in Hs. by rewrite filter_cons_True in Hs. }
    assert (Forall fit (filter kept (Q1 c))) as Hfit1.
    { rewrite HK1. destruct (decide (periodic x)) as [Hp|]; [|done].
      rewrite enqueue_Permutation. constructor; [by apply fit_advance|done]. }
    assert (n = S (length (filter kept (Q1 c) ≫= occurrences))) as Hn1.
    { rewrite <-Hn, HK1. simpl. rewrite occurrences_due by done. simpl. f_equal.
      destruct (decide (periodic x)); [|done]. by rewrite enqueue_Permutation. }
    destruct (IH (length (filter kept (Q1 c) ≫= occurrences))) with st1 Q1 log1
      as (st' & Q' & log' & fs & Hrun & HQ' & Ho' & Hlog' & Hout & Hset); [lia|done..|].
    exists st', Q', log', ((x.1, deadline x) :: fs).
    split; [|split; [done|split; [done|split; [|split; [|done]]]]].
    + intros [|fuel] Hle; [lia|]. rewrite Hstep. apply Hrun. lia.
    + by rewrite Hlog', Hlog1, <-app_assoc.
    + rewrite EQ, filter_cons_True by done. apply outcome_step; [done..|]. by rewrite <-HK1.
Qed.

(** C23: the clock interrupt fires exactly what is due.  Whatever number of
    timers are due, [timerintr] terminates; each timer fires at each of its
    deadlines up to [now], once if it is relative, and at every multiple of
    its period if it is periodic (missed periods are caught up, none is lost
    and none repeated); timers fire in the order of their deadlines; afterwards
    nothing due is left, every periodic timer waits for its first deadline
    after [now] on the same grid (so periods do not drift), and the hardware is
    programmed with the first deadline of the queue.  The functions called may add,
    move or delete other timers that are not due. *)
Theorem timerintr_fires (st : timers) (Q : nat -> list entry) (hw : Hw) :
  represents st Q -> ordered Q -> tod_init (clock st) = true -> tod_divider (clock st) = dv ->
  Forall fit (filter kept (Q c)) ->
  exists st' Q' log,
    (forall fuel, (length (filter kept (Q c) ≫= occurrences) <= fuel)%nat ->
       timerintr callback fuel c now hw st = Ok (st', log)) /\
    represents st' Q' /\ ordered Q' /\
    fired log ≡ₚ filter kept (Q c) ≫= occurrences /\
    StronglySorted (fun a b => a.2 <= b.2) (fired log) /\
    Forall (fun x => now < deadline x) (Q' c) /\
    filter kept (Q' c) ≡ₚ settle <$> filter periodic (filter kept (Q c)) /\
    timerset log = deadline <$> head (Q' c).
Proof.
  intros HQ Ho Hi Hdv Hfit.
  destruct (loop_ok _ st Q (mkIntr [] 0 None) hw HQ Ho Hi Hdv Hfit eq_refl)
    as (st' & Q' & log & fs & Hrun & HQ' & Ho' & Hlog & (? & ? & ? & ?) & Hset).
  simpl in Hlog. subst fs. exists st', Q', log. split; [|by repeat (split; [done|])].
  intros fuel Hle. unfold timerintr. assert (now =? 0 = false) as -> by lia. by apply Hrun.
Qed.
End loop.
End interrupt.

(** At tick 27000, the periodic timer of [queues0] has missed three deadlines and the
    relative one is due. *)
Definition quiet : nat -> nat -> timers -> result timers := fun _ _ st => Ok st.
Lemma timerintr_fires_witness :
  exists st' Q' log,
    (forall fuel, (4 <= fuel)%nat -> timerintr quiet fuel 0 27000 (hw_at 27000 0) queues0 = Ok (st', log)) /\
    represents st' Q' /\
    fired log ≡ₚ [(1%nat, 5000); (1%nat, 15000); (1%nat, 25000); (2%nat, 7000)] /\
    Forall (fun x => 27000 < deadline x) (Q' 0%nat) /\
    filter (kept 27000) (Q' 0%nat) ≡ₚ [(1%nat, set_twhen 35000 timer1)] /\
    timerset log = deadline <$> head (Q' 0%nat).
Proof.
  destruct (timerintr_fires quiet 0 27000 (2 ^ 28)) with queues0 Q0 (hw_at 27000 0)
    as (st' & Q' & log & Hrun & HQ' & _ & Hperm & _ & Hlate & Hkept & Hset).
  - lia.
  - intros f k st Q t ? ? ? ? Hk ?. exists st, Q, t. by repeat (split; [done|]).
  - apply queues0_ok.
  - apply queues0_ok.
  - reflexivity.
  - reflexivity.
  - replace (filter (kept 27000) (Q0 0%nat)) with [(1%nat, timer1); (2%nat, timer2)]
      by (vm_compute; reflexivity).
    apply Forall_cons_2; [|apply Forall_cons_2; [|apply Forall_nil_2]].
    + split; [reflexivity|]. intros _. split; [vm_compute; congruence|split; reflexivity].
    + split; [reflexivity|]. intros H. discriminate H.
  - exists st', Q', log. split; [exact Hrun|]. split; [exact HQ'|]. split.
    { etransitivity; [exact Hperm|]. vm_compute. reflexivity. }
    split; [exact Hlate|]. split; [|exact Hset].
    etransitivity; [exact Hkept|]. vm_compute. reflexivity.
Defined.
Example timerintr_runs :
  (let* (st, log) := timerintr quiet 4 0 27000 (hw_at 27000 0) queues0 in
   Ok (fired log, timerset log, heads st !! 0%nat)) =
  Ok ([(1%nat, 5000); (2%nat, 7000); (1%nat, 15000); (1%nat, 25000)], Some 35000, Some 1%nat).
Proof. vm_compute. reflexivity. Qed.
