(* ===== verification/Mlvalues.v ===== *)
(** * OCaml values: kernel/Byterun/mlvalues.h

    A [value] is a 32-bit word.  Words that are pointers are kept symbolic:
    the address of a heap block is the name of the block, an atom is its tag, a code pointer
    is the index of an opcode in the program, a pointer into the stack is its
    distance from [stack_high] in words.  All other words are integers
    [Int w], [0 <= w < 2^32]; an OCaml integer is an odd one.  Names of blocks do not
    change when the collector moves blocks, so collections are
    invisible in the model. *)
From stdpp Require Import gmap list.
From S2P Require Import Prelude.

Inductive value :=
  | Int (w : Z)
  | Ptr (b : nat)
  | Atom (t : Z)
  | Code (p : Z)
  | Stk (d : nat).
#[export] Instance value_eq_dec : EqDecision value.
Proof. solve_decision. Defined.

(** The data of a block: fields, or the bytes of a string or of floating-point numbers. *)
Inductive contents := Fields (l : list value) | Bytes (l : list Z).
Record block := mkBlock { tag : Z; data : contents }.
Abbreviation heap_t := (gmap nat block).

(** ** Longs *)

Definition Is_long (v : value) : bool := match v with Int w => Z.odd w | _ => false end.
Definition Is_block (v : value) : bool := negb (Is_long v).
Definition Val_long (x : Z) : value := Int (u32 (Z.shiftl x 1 + 1)).
(** Of a pointer, the shift gives a number the program never uses. *)
Definition Long_val (v : value) : result Z :=
  match v with Int w => Ok (Z.shiftr (s32 w) 1) | _ => Fault end.
Definition Val_int := Val_long.
Definition Max_long : Z := 2 ^ 30 - 1.
Definition Min_long : Z := - 2 ^ 30.
Definition Val_bool (b : bool) : value := Val_int (c_bool b).
Definition Val_false : value := Val_int 0.
Definition Val_true : value := Val_int 1.
Definition Val_unit : value := Val_int 0.
Definition Val_not (v : value) : result value :=
  match v with Int w => Ok (Int (u32 (4 - w))) | _ => Fault end.

(** ** Blocks *)

Definition Closure_tag : Z := 250.
Definition Infix_tag : Z := 249.
Definition Object_tag : Z := 248.
Definition Abstract_tag : Z := 251.
Definition String_tag : Z := 252.
Definition Double_tag : Z := 253.
Definition Double_array_tag : Z := 254.
Definition Final_tag : Z := 255.
Definition Double_wosize : Z := 2.
Definition Max_wosize : Z := 2 ^ 22 - 1.

Definition size_of (c : contents) : Z :=
  match c with Fields l => Z.of_nat (length l) | Bytes l => Z.of_nat (length l) / 4 end.
Definition get_block (h : heap_t) (v : value) : result block :=
  match v with
  | Ptr b => of_ptr (h !! b)
  | Atom t => Ok (mkBlock t (Fields []))
  | _ => Fault
  end.
Definition Tag_val (h : heap_t) (v : value) : result Z :=
  let* b := get_block h v in Ok (tag b).
Definition Wosize_val (h : heap_t) (v : value) : result Z :=
  let* b := get_block h v in Ok (size_of (data b)).
Definition Bosize_val (h : heap_t) (v : value) : result Z :=
  let* n := Wosize_val h v in Ok (4 * n).

(** [Field] as a value and as the left side of an assignment. *)
Definition Field (h : heap_t) (v : value) (i : Z) : result value :=
  let* b := get_block h v in
  match data b with
  | Fields l => if i <? 0 then Fault else of_ptr (l !! Z.to_nat i)
  | Bytes _ => Fault
  end.
Definition set_Field (h : heap_t) (v : value) (i : Z) (x : value) : result heap_t :=
  match v with
  | Ptr b =>
      let* blk := of_ptr (h !! b) in
      match data blk with
      | Fields l =>
          if (0 <=? i) && (i <? Z.of_nat (length l))
          then Ok (<[b := mkBlock (tag blk) (Fields (<[Z.to_nat i := x]> l))]> h)
          else Fault
      | Bytes _ => Fault
      end
  | _ => Fault
  end.
Definition Code_val (h : heap_t) (v : value) : result Z :=
  let* c := Field h v 0 in match c with Code p => Ok p | _ => Fault end.

(** Bytes are numbered from 0; the last byte of a word counts. *)
Definition Byte_u (h : heap_t) (v : value) (i : Z) : result Z :=
  let* b := get_block h v in
  match data b with
  | Bytes l => if i <? 0 then Fault else of_ptr (l !! Z.to_nat i)
  | Fields _ => Fault
  end.
Definition set_Byte_u (h : heap_t) (v : value) (i c : Z) : result heap_t :=
  match v with
  | Ptr b =>
      let* blk := of_ptr (h !! b) in
      match data blk with
      | Bytes l =>
          if (0 <=? i) && (i <? Z.of_nat (length l))
          then Ok (<[b := mkBlock (tag blk) (Bytes (<[Z.to_nat i := u8 c]> l))]> h)
          else Fault
      | Fields _ => Fault
      end
  | _ => Fault
  end.

(** [Alloc_small] and the allocation functions return a block under a new name. *)
Definition alloc (b : block) (h : heap_t) : value * heap_t :=
  let k := fresh (dom h) in (Ptr k, <[k := b]> h).

(** ** Lemmas *)

Definition is_long (x : Z) : Prop := Min_long <= x <= Max_long.
(** The 31-bit integer that an OCaml integer wraps to. *)
Definition wrap31 (x : Z) : Z := (x + 2 ^ 30) mod 2 ^ 31 - 2 ^ 30.

#[global] Arguments Val_long : simpl never.
#[global] Arguments u32 : simpl never.
#[global] Arguments s32 : simpl never.

Lemma Val_long_eq x : Val_long x = Int (u32 (2 * x + 1)).
Proof. unfold Val_long. rewrite shiftl_mul by lia. do 2 f_equal. lia. Qed.
Lemma Long_val_Int w : Long_val (Int w) = Ok (s32 w / 2).
Proof. unfold Long_val. by rewrite shiftr_div by lia. Qed.
Lemma wrap31_small x : is_long x -> wrap31 x = x.
Proof. unfold is_long, Min_long, Max_long, wrap31. zlia. Qed.
Lemma wrap31_range x : is_long (wrap31 x).
Proof. unfold is_long, Min_long, Max_long, wrap31. zlia. Qed.
(** Tagging and untagging: the top bit is lost. *)
Lemma Long_Val_long x : Long_val (Val_long x) = Ok (wrap31 x).
Proof.
  rewrite Val_long_eq, Long_val_Int. f_equal. rewrite s32_u32. unfold s32, wrap31. zlia.
Qed.
Lemma Val_long_wrap x : Val_long (wrap31 x) = Val_long x.
Proof. rewrite !Val_long_eq. unfold wrap31, u32. f_equal. zlia. Qed.
Lemma Val_long_inj x y : Val_long x = Val_long y <-> wrap31 x = wrap31 y.
Proof.
  split; intros H.
  - apply (f_equal Long_val) in H. rewrite !Long_Val_long in H. congruence.
  - rewrite <-(Val_long_wrap x), H. apply Val_long_wrap.
Qed.
Lemma Is_long_Val_long x : Is_long (Val_long x) = true.
Proof.
  rewrite Val_long_eq. simpl. unfold u32. rewrite Zodd_mod. apply Z.eqb_eq. zlia.
Qed.
Lemma lookup_fresh (h : heap_t) : h !! fresh (dom h) = None.
Proof. apply not_elem_of_dom. apply is_fresh. Qed.
