(* ===== verification/Interp.v ===== *)
(** * The bytecode interpreter: kernel/Byterun/interp.c, stacks.c, instruct.h

    [step] executes one instruction of the OCaml abstract machine.  The stack
    is the list of the words from [sp] up to [stack_high]; a pointer into it is kept
    as its distance from [stack_high], which is what [realloc_stack]
    preserves when it moves the stack.  C primitives are a parameter.  Collections
    do not change the state of the model (see [Mlvalues]); the debugger and the
    backtrace are left out. *)
From stdpp Require Import gmap list.
From S2P Require Import Prelude Mlvalues.

(** ** The instruction set (instruct.h) *)

Inductive instr :=
  | CONSTINT | CONST0 | CONST1 | CONST2 | CONST3
  | PUSHCONSTINT | PUSHCONST0 | PUSHCONST1 | PUSHCONST2 | PUSHCONST3
  | NEGINT | ADDINT | SUBINT | MULINT | DIVINT | MODINT
  | ANDINT | ORINT | XORINT | LSLINT | LSRINT | ASRINT
  | EQ | NEQ | LTINT | LEINT | GTINT | GEINT | OFFSETINT | OFFSETREF
  | ACC | PUSH | POP | ASSIGN
  | ACC0 | ACC1 | ACC2 | ACC3 | ACC4 | ACC5 | ACC6 | ACC7
  | PUSHACC0 | PUSHACC1 | PUSHACC2 | PUSHACC3 | PUSHACC4 | PUSHACC5 | PUSHACC6 | PUSHACC7 | PUSHACC
  | ENVACC | ENVACC1 | ENVACC2 | ENVACC3 | ENVACC4
  | PUSHENVACC1 | PUSHENVACC2 | PUSHENVACC3 | PUSHENVACC4 | PUSHENVACC
  | ATOM | MAKEBLOCK | PUSHATOM | ATOM0 | PUSHATOM0 | MAKEBLOCK1 | MAKEBLOCK2 | MAKEBLOCK3
  | GETFIELD | SETFIELD | GETFIELD0 | GETFIELD1 | GETFIELD2 | GETFIELD3
  | SETFIELD0 | SETFIELD1 | SETFIELD2 | SETFIELD3
  | GETGLOBAL | SETGLOBAL | GETGLOBALFIELD | PUSHGETGLOBAL | PUSHGETGLOBALFIELD
  | BRANCH | BRANCHIF | BRANCHIFNOT | SWITCH | BOOLNOT
  | PUSH_RETADDR | APPLY | APPTERM | RETURN
  | APPLY1 | APPLY2 | APPLY3 | APPTERM1 | APPTERM2 | APPTERM3
  | DUMMY | UPDATE | PUSHTRAP | POPTRAP | RAISE | CHECK_SIGNALS
  | C_CALLN | C_CALL1 | C_CALL2 | C_CALL3 | C_CALL4 | C_CALL5
  | GETSTRINGCHAR | SETSTRINGCHAR | VECTLENGTH | GETVECTITEM | SETVECTITEM
  | RESTART | GRAB | CLOSURE | CLOSUREREC | STOP | EVENT | BREAK.
#[export] Instance instr_eq_dec : EqDecision instr.
Proof. solve_decision. Defined.

(** The instructions in the order of the enumeration. *)
Definition instructions : list instr :=
  [CONSTINT; CONST0; CONST1; CONST2; CONST3; PUSHCONSTINT; PUSHCONST0; PUSHCONST1; PUSHCONST2; PUSHCONST3;
   NEGINT; ADDINT; SUBINT; MULINT; DIVINT; MODINT; ANDINT; ORINT; XORINT; LSLINT; LSRINT; ASRINT;
   EQ; NEQ; LTINT; LEINT; GTINT; GEINT; OFFSETINT; OFFSETREF;
   ACC; PUSH; POP; ASSIGN; ACC0; ACC1; ACC2; ACC3; ACC4; ACC5; ACC6; ACC7;
   PUSHACC0; PUSHACC1; PUSHACC2; PUSHACC3; PUSHACC4; PUSHACC5; PUSHACC6; PUSHACC7; PUSHACC;
   ENVACC; ENVACC1; ENVACC2; ENVACC3; ENVACC4; PUSHENVACC1; PUSHENVACC2; PUSHENVACC3; PUSHENVACC4; PUSHENVACC;
   ATOM; MAKEBLOCK; PUSHATOM; ATOM0; PUSHATOM0; MAKEBLOCK1; MAKEBLOCK2; MAKEBLOCK3;
   GETFIELD; SETFIELD; GETFIELD0; GETFIELD1; GETFIELD2; GETFIELD3; SETFIELD0; SETFIELD1; SETFIELD2; SETFIELD3;
   GETGLOBAL; SETGLOBAL; GETGLOBALFIELD; PUSHGETGLOBAL; PUSHGETGLOBALFIELD;
   BRANCH; BRANCHIF; BRANCHIFNOT; SWITCH; BOOLNOT; PUSH_RETADDR; APPLY; APPTERM; RETURN;
   APPLY1; APPLY2; APPLY3; APPTERM1; APPTERM2; APPTERM3; DUMMY; UPDATE; PUSHTRAP; POPTRAP; RAISE; CHECK_SIGNALS;
   C_CALLN; C_CALL1; C_CALL2; C_CALL3; C_CALL4; C_CALL5; GETSTRINGCHAR; SETSTRINGCHAR;
   VECTLENGTH; GETVECTITEM; SETVECTITEM; RESTART; GRAB; CLOSURE; CLOSUREREC; STOP; EVENT; BREAK].
Definition decode (op : Z) : option instr :=
  if op <? 0 then None else instructions !! Z.to_nat op.
Fixpoint index_of (i : instr) (l : list instr) : Z :=
  match l with [] => 0 | j :: l => if decide (i = j) then 0 else 1 + index_of i l end.
(** The opcode of an instruction, as the enumeration numbers it. *)
Definition opcode (i : instr) : Z := index_of i instructions.

(** ** The machine *)

(** Globals of the run-time system that the interpreter reads. *)
Record runtime := mkRuntime {
  global_data : value; stack_size : nat;
  something_to_do : bool; pending_signal : Z; signal_handlers : value }.

Record machine := mkMachine {
  pc : Z; sp : list value; accu : value; env : value; trapsp : nat; extra_args : Z;
  heap : heap_t; rt : runtime }.

Definition set_pc x m := mkMachine x (sp m) (accu m) (env m) (trapsp m) (extra_args m) (heap m) (rt m).
Definition set_sp x m := mkMachine (pc m) x (accu m) (env m) (trapsp m) (extra_args m) (heap m) (rt m).
Definition set_accu x m := mkMachine (pc m) (sp m) x (env m) (trapsp m) (extra_args m) (heap m) (rt m).
Definition set_env x m := mkMachine (pc m) (sp m) (accu m) x (trapsp m) (extra_args m) (heap m) (rt m).
Definition set_trapsp x m := mkMachine (pc m) (sp m) (accu m) (env m) x (extra_args m) (heap m) (rt m).
Definition set_extra x m := mkMachine (pc m) (sp m) (accu m) (env m) (trapsp m) x (heap m) (rt m).
Definition set_heap x m := mkMachine (pc m) (sp m) (accu m) (env m) (trapsp m) (extra_args m) x (rt m).
Definition set_rt x m := mkMachine (pc m) (sp m) (accu m) (env m) (trapsp m) (extra_args m) (heap m) x.

(** The result of an instruction: the next state, the end of [interprete], or
    an exception that leaves it. *)
Inductive outcome :=
  | Running (m : machine)
  | Stopped (v : value) (m : machine)
  | Escaped (exn : value) (m : machine).

(** What a C primitive does: it returns a value or raises an exception, and may change the
    heap and the globals. *)
Inductive primres := Returned (v : value) | Raised (exn : value).

(** Indices of predefined exceptions in [global_data] (fail.h), and the margin of the
    stack check in words (config.h). *)
Definition ZERO_DIVIDE_EXN : Z := 5.
Definition STACK_OVERFLOW_EXN : Z := 8.
Definition Stack_threshold : nat := 256.

Section interp.
(** The program, the limit of the stack, the depth of the stack when
    [interprete] was entered, and the table of C primitives. *)
Variables (code : list Z) (max_stack_size initial_depth : nat)
  (cprim : Z -> list value -> heap_t -> runtime -> result (primres * heap_t * runtime)).

(** *** Registers and operands *)

Definition fetch (p : Z) : result Z := if p <? 0 then Fault else of_ptr (code !! Z.to_nat p).
(** [*pc++] *)
Definition operand (m : machine) : result (Z * machine) :=
  let* x := fetch (pc m) in Ok (x, set_pc (pc m + 1) m).
(** [sp[n]] *)
Definition sp_at (n : Z) (m : machine) : result value :=
  if n <? 0 then Fault else of_ptr (sp m !! Z.to_nat n).
(** The [n] words at [sp], and the words above them. *)
Definition split_sp (n : Z) (l : list value) : result (list value * list value) :=
  if (0 <=? n) && (n <=? Z.of_nat (length l))
  then Ok (take (Z.to_nat n) l, drop (Z.to_nat n) l) else Fault.
(** [*sp++] *)
Definition pop (m : machine) : result (value * machine) :=
  match sp m with v :: l => Ok (v, set_sp l m) | [] => Fault end.
Definition push (v : value) (m : machine) : machine := set_sp (v :: sp m) m.
Definition next (m : machine) : result outcome := Ok (Running m).

(** *** Stack and environment access *)

Definition op_acc (n : Z) (m : machine) : result machine :=
  let* v := sp_at n m in Ok (set_accu v m).
Definition op_push (m : machine) : machine := push (accu m) m.
Definition op_pop (n : Z) (m : machine) : result machine :=
  let* (_, l) := split_sp n (sp m) in Ok (set_sp l m).
Definition op_assign (n : Z) (m : machine) : result machine :=
  let* _ := sp_at n m in
  Ok (set_accu Val_unit (set_sp (<[Z.to_nat n := accu m]> (sp m)) m)).
Definition op_envacc (n : Z) (m : machine) : result machine :=
  let* v := Field (heap m) (env m) n in Ok (set_accu v m).
(** The instructions for small offsets. *)
Definition op_acc0 (m : machine) : result machine := let* v := sp_at 0 m in Ok (set_accu v m).
Definition op_acc1 (m : machine) : result machine := let* v := sp_at 1 m in Ok (set_accu v m).
Definition op_acc2 (m : machine) : result machine := let* v := sp_at 2 m in Ok (set_accu v m).
Definition op_acc3 (m : machine) : result machine := let* v := sp_at 3 m in Ok (set_accu v m).
Definition op_acc4 (m : machine) : result machine := let* v := sp_at 4 m in Ok (set_accu v m).
Definition op_acc5 (m : machine) : result machine := let* v := sp_at 5 m in Ok (set_accu v m).
Definition op_acc6 (m : machine) : result machine := let* v := sp_at 6 m in Ok (set_accu v m).
Definition op_acc7 (m : machine) : result machine := let* v := sp_at 7 m in Ok (set_accu v m).
Definition op_pushacc1 (m : machine) : result machine := let m := push (accu m) m in let* v := sp_at 1 m in Ok (set_accu v m).
Definition op_pushacc2 (m : machine) : result machine := let m := push (accu m) m in let* v := sp_at 2 m in Ok (set_accu v m).
Definition op_pushacc3 (m : machine) : result machine := let m := push (accu m) m in let* v := sp_at 3 m in Ok (set_accu v m).
Definition op_pushacc4 (m : machine) : result machine := let m := push (accu m) m in let* v := sp_at 4 m in Ok (set_accu v m).
Definition op_pushacc5 (m : machine) : result machine := let m := push (accu m) m in let* v := sp_at 5 m in Ok (set_accu v m).
Definition op_pushacc6 (m : machine) : result machine := let m := push (accu m) m in let* v := sp_at 6 m in Ok (set_accu v m).
Definition op_pushacc7 (m : machine) : result machine := let m := push (accu m) m in let* v := sp_at 7 m in Ok (set_accu v m).
Definition op_envacc1 (m : machine) : result machine := let* v := Field (heap m) (env m) 1 in Ok (set_accu v m).
Definition op_envacc2 (m : machine) : result machine := let* v := Field (heap m) (env m) 2 in Ok (set_accu v m).
Definition op_envacc3 (m : machine) : result machine := let* v := Field (heap m) (env m) 3 in Ok (set_accu v m).
Definition op_envacc4 (m : machine) : result machine := let* v := Field (heap m) (env m) 4 in Ok (set_accu v m).
Definition op_pushenvacc1 (m : machine) : result machine := let m := push (accu m) m in let* v := Field (heap m) (env m) 1 in Ok (set_accu v m).
Definition op_pushenvacc2 (m : machine) : result machine := let m := push (accu m) m in let* v := Field (heap m) (env m) 2 in Ok (set_accu v m).
Definition op_pushenvacc3 (m : machine) : result machine := let m := push (accu m) m in let* v := Field (heap m) (env m) 3 in Ok (set_accu v m).
Definition op_pushenvacc4 (m : machine) : result machine := let m := push (accu m) m in let* v := Field (heap m) (env m) 4 in Ok (set_accu v m).

(** *** Exceptions *)

(** The label [raise_exception], with the exception in [accu]. *)
Definition raise_exception (m : machine) : result outcome :=
  if Nat.ltb (length (sp m)) (trapsp m) then Fault
  else
    let m := set_sp (drop (length (sp m) - trapsp m) (sp m)) m in
    if Nat.leb (trapsp m) initial_depth then Ok (Escaped (accu m) m)
    else
    match sp m with
    | Code p :: Stk d :: e :: x :: l =>
        let* extra := Long_val x in
        next (mkMachine p l (accu m) e d extra (heap m) (rt m))
    | _ => Fault
    end.
(** A C function raised: [mlraise] jumps back to [raise_exception]. *)
Definition mlraise (exn : value) (m : machine) : result outcome := raise_exception (set_accu exn m).
(** [raise_constant(Field(global_data, n))] *)
Definition raise_constant (n : Z) (m : machine) : result outcome :=
  let* t := Field (heap m) (global_data (rt m)) n in
  let '(bucket, h) := alloc (mkBlock 0 (Fields [t])) (heap m) in
  mlraise bucket (set_heap h m).
Definition op_pushtrap (m : machine) : result machine :=
  let* off := fetch (pc m) in
  let l := Code (pc m + off) :: Stk (trapsp m) :: env m :: Val_long (extra_args m) :: sp m in
  Ok (set_pc (pc m + 1) (set_trapsp (length l) (set_sp l m))).
Definition op_poptrap (m : machine) : result machine :=
  match sp m with
  | _ :: Stk d :: _ :: _ :: l => Ok (set_sp l (set_trapsp d m))
  | _ => Fault
  end.

(** *** Signals and the stack check *)

(** The label [process_signal] pushes a return frame to the current code location
    and enters the handler. *)
Definition process_signal (m : machine) : result outcome :=
  let signal_number := pending_signal (rt m) in
  let m := set_rt (mkRuntime (global_data (rt m)) (stack_size (rt m)) false 0 (signal_handlers (rt m))) m in
  if signal_number =? 0 then next m
  else
    let m := set_sp (Val_int signal_number :: Code (pc m) :: env m :: Val_long (extra_args m) :: sp m) m in
    let* e := Field (heap m) (signal_handlers (rt m)) signal_number in
    let* p := Code_val (heap m) e in
    next (set_extra 0 (set_pc p (set_env e m))).
Definition check_signals (m : machine) : result outcome :=
  if something_to_do (rt m) then process_signal m else next m.
(** [realloc_stack] doubles the stack or raises [Stack_overflow]. *)
Definition check_stacks (m : machine) : result outcome :=
  let size := stack_size (rt m) in
  if Nat.ltb size (length (sp m) + Stack_threshold) then
    if Nat.leb max_stack_size size then raise_constant STACK_OVERFLOW_EXN m
    else
      let r := rt m in
      check_signals (set_rt (mkRuntime (global_data r) (2 * size) (something_to_do r)
                               (pending_signal r) (signal_handlers r)) m)
  else check_signals m.

(** *** Function application *)

(** [pc = Code_val(accu); env = accu] *)
Definition enter (m : machine) : result machine :=
  let* p := Code_val (heap m) (accu m) in Ok (set_env (accu m) (set_pc p m)).
(** Popping a return frame. *)
Definition pop_frame (m : machine) : result machine :=
  match sp m with
  | Code p :: e :: x :: l =>
      let* extra := Long_val x in
      Ok (mkMachine p l (accu m) e (trapsp m) extra (heap m) (rt m))
  | _ => Fault
  end.
Definition frame (p : Z) (m : machine) : list value := [Code p; env m; Val_long (extra_args m)].
Definition op_push_retaddr (m : machine) : result machine :=
  let* off := fetch (pc m) in
  Ok (set_pc (pc m + 1) (set_sp (frame (pc m + off) m ++ sp m) m)).
Definition op_apply (m : machine) : result outcome :=
  let* n := fetch (pc m) in
  let* m := enter (set_extra (n - 1) m) in check_stacks m.
(** [APPLY1], [APPLY2], [APPLY3] slide the arguments and push the return frame. *)
Definition op_apply1 (m : machine) : result outcome :=
  match sp m with
  | arg1 :: l =>
      let m := set_sp (arg1 :: Code (pc m) :: env m :: Val_long (extra_args m) :: l) m in
      let* m := enter m in check_stacks (set_extra 0 m)
  | _ => Fault
  end.
Definition op_apply2 (m : machine) : result outcome :=
  match sp m with
  | arg1 :: arg2 :: l =>
      let m := set_sp (arg1 :: arg2 :: Code (pc m) :: env m :: Val_long (extra_args m) :: l) m in
      let* m := enter m in check_stacks (set_extra 1 m)
  | _ => Fault
  end.
Definition op_apply3 (m : machine) : result outcome :=
  match sp m with
  | arg1 :: arg2 :: arg3 :: l =>
      let m := set_sp (arg1 :: arg2 :: arg3 :: Code (pc m) :: env m :: Val_long (extra_args m) :: l) m in
      let* m := enter m in check_stacks (set_extra 2 m)
  | _ => Fault
  end.
(** The arguments move to the top of a frame of [slotsize] words; the compiler emits
    [nargs <= slotsize]. *)
Definition op_appterm (nargs slotsize : Z) (m : machine) : result outcome :=
  if nargs >? slotsize then Fault
  else
    let* (args, _) := split_sp nargs (sp m) in
    let* (_, l) := split_sp slotsize (sp m) in
    let* m := enter (set_extra (extra_args m + (nargs - 1)) (set_sp (args ++ l) m)) in
    check_stacks m.
(** [APPTERM1], [APPTERM2], [APPTERM3]: the operand is the size of the frame. *)
Definition op_appterm1 (m : machine) : result outcome :=
  let* n := fetch (pc m) in
  if n <? 1 then Fault
  else
    match sp m with
    | arg1 :: _ =>
        let* (_, l) := split_sp n (sp m) in
        let* m := enter (set_sp (arg1 :: l) m) in check_stacks m
    | _ => Fault
    end.
Definition op_appterm2 (m : machine) : result outcome :=
  let* n := fetch (pc m) in
  if n <? 2 then Fault
  else
    match sp m with
    | arg1 :: arg2 :: _ =>
        let* (_, l) := split_sp n (sp m) in
        let* m := enter (set_sp (arg1 :: arg2 :: l) m) in check_stacks (set_extra (extra_args m + 1) m)
    | _ => Fault
    end.
Definition op_appterm3 (m : machine) : result outcome :=
  let* n := fetch (pc m) in
  if n <? 3 then Fault
  else
    match sp m with
    | arg1 :: arg2 :: arg3 :: _ =>
        let* (_, l) := split_sp n (sp m) in
        let* m := enter (set_sp (arg1 :: arg2 :: arg3 :: l) m) in check_stacks (set_extra (extra_args m + 2) m)
    | _ => Fault
    end.
Definition op_return (n : Z) (m : machine) : result machine :=
  let* (_, l) := split_sp n (sp m) in
  let m := set_sp l m in
  if extra_args m >? 0 then enter (set_extra (extra_args m - 1) m) else pop_frame m.
Definition op_restart (m : machine) : result machine :=
  let* blk := get_block (heap m) (env m) in
  match data blk with
  | Fields (_ :: e :: args) =>
      Ok (set_extra (extra_args m + Z.of_nat (length args)) (set_env e (set_sp (args ++ sp m) m)))
  | _ => Fault
  end.
Definition op_grab (required : Z) (m : machine) : result machine :=
  if extra_args m >=? required then Ok (set_extra (extra_args m - required) m)
  else
    let* (args, l) := split_sp (1 + extra_args m) (sp m) in
    let '(v, h) := alloc (mkBlock Closure_tag (Fields (Code (pc m - 3) :: env m :: args))) (heap m) in
    pop_frame (set_sp l (set_heap h (set_accu v m))).

(** *** Closures and globals *)

Definition op_closure (nvars : Z) (m : machine) : result machine :=
  let m := if nvars >? 0 then push (accu m) m else m in
  let* off := fetch (pc m) in
  let* (vars, l) := split_sp nvars (sp m) in
  let '(v, h) := alloc (mkBlock Closure_tag (Fields (Code (pc m + off) :: vars))) (heap m) in
  Ok (set_pc (pc m + 1) (set_sp l (set_accu v (set_heap h m)))).
Definition op_closurerec (nvars : Z) (m : machine) : result machine :=
  let m := if nvars >? 0 then push (accu m) m else m in
  let* off := fetch (pc m) in
  let* (vars, l) := split_sp nvars (sp m) in
  let '(v, h) := alloc (mkBlock Closure_tag (Fields (Code (pc m + off) :: Val_int 0 :: vars))) (heap m) in
  let* h := set_Field h v 1 v in
  Ok (set_pc (pc m + 1) (set_sp l (set_accu v (set_heap h m)))).
Definition op_getglobal (m : machine) : result machine :=
  let* (n, m) := operand m in
  let* v := Field (heap m) (global_data (rt m)) n in Ok (set_accu v m).
Definition op_setglobal (m : machine) : result machine :=
  let* (n, m) := operand m in
  let* h := set_Field (heap m) (global_data (rt m)) n (accu m) in
  Ok (set_accu Val_unit (set_heap h m)).
Definition op_getglobalfield (m : machine) : result machine :=
  let* m := op_getglobal m in
  let* (n, m) := operand m in
  let* v := Field (heap m) (accu m) n in Ok (set_accu v m).

(** *** Blocks *)

Definition op_makeblock (wosize t : Z) (m : machine) : result machine :=
  let* (l1, l) := split_sp (wosize - 1) (sp m) in
  let '(v, h) := alloc (mkBlock t (Fields (accu m :: l1))) (heap m) in
  Ok (set_sp l (set_accu v (set_heap h m))).
Definition op_makeblock1 (t : Z) (m : machine) : result machine :=
  let '(block, h) := alloc (mkBlock t (Fields [accu m])) (heap m) in Ok (set_accu block (set_heap h m)).
Definition op_makeblock2 (t : Z) (m : machine) : result machine :=
  match sp m with
  | x :: l => let '(block, h) := alloc (mkBlock t (Fields [accu m; x])) (heap m) in Ok (set_sp l (set_accu block (set_heap h m)))
  | _ => Fault
  end.
Definition op_makeblock3 (t : Z) (m : machine) : result machine :=
  match sp m with
  | x :: y :: l => let '(block, h) := alloc (mkBlock t (Fields [accu m; x; y])) (heap m) in Ok (set_sp l (set_accu block (set_heap h m)))
  | _ => Fault
  end.
Definition op_getfield (n : Z) (m : machine) : result machine :=
  let* v := Field (heap m) (accu m) n in Ok (set_accu v m).
(** The label [modify]. *)
Definition modify (n : Z) (newval : value) (m : machine) : result machine :=
  let* h := set_Field (heap m) (accu m) n newval in Ok (set_accu Val_unit (set_heap h m)).
Definition op_setfield (n : Z) (m : machine) : result machine :=
  let* (newval, m) := pop m in modify n newval m.
Definition op_getfield0 (m : machine) : result machine := let* v := Field (heap m) (accu m) 0 in Ok (set_accu v m).
Definition op_getfield1 (m : machine) : result machine := let* v := Field (heap m) (accu m) 1 in Ok (set_accu v m).
Definition op_getfield2 (m : machine) : result machine := let* v := Field (heap m) (accu m) 2 in Ok (set_accu v m).
Definition op_getfield3 (m : machine) : result machine := let* v := Field (heap m) (accu m) 3 in Ok (set_accu v m).
Definition op_setfield0 (m : machine) : result machine := let* (newval, m) := pop m in modify 0 newval m.
Definition op_setfield1 (m : machine) : result machine := let* (newval, m) := pop m in modify 1 newval m.
Definition op_setfield2 (m : machine) : result machine := let* (newval, m) := pop m in modify 2 newval m.
Definition op_setfield3 (m : machine) : result machine := let* (newval, m) := pop m in modify 3 newval m.
Definition op_dummy (size : Z) (m : machine) : result machine :=
  let '(v, h) := alloc (mkBlock 0 (Fields (replicate (Z.to_nat size) (Val_long 0)))) (heap m) in
  Ok (set_accu v (set_heap h m)).
(** [UPDATE] copies the tag and the fields of a block over a dummy of the same size. *)
Definition op_update (m : machine) : result machine :=
  let* (newval, m) := pop m in
  let* new := get_block (heap m) newval in
  match accu m with
  | Ptr b =>
      let* old := of_ptr (heap m !! b) in
      if size_of (data new) =? size_of (data old)
      then Ok (set_accu Val_unit (set_heap (<[b := mkBlock (tag new) (data new)]> (heap m)) m))
      else Fault
  | _ => Fault
  end.
Definition op_vectlength (m : machine) : result machine :=
  let* n := Wosize_val (heap m) (accu m) in Ok (set_accu (Val_long n) m).
Definition op_getvectitem (m : machine) : result machine :=
  let* (x, m) := pop m in
  let* n := Long_val x in op_getfield n m.
Definition op_setvectitem (m : machine) : result machine :=
  let* (x, m) := pop m in
  let* n := Long_val x in
  let* (newval, m) := pop m in modify n newval m.
Definition op_getstringchar (m : machine) : result machine :=
  let* (x, m) := pop m in
  let* n := Long_val x in
  let* c := Byte_u (heap m) (accu m) n in Ok (set_accu (Val_int c) m).
Definition op_setstringchar (m : machine) : result machine :=
  let* (x, m) := pop m in
  let* n := Long_val x in
  let* (y, m) := pop m in
  let* c := Long_val y in
  let* h := set_Byte_u (heap m) (accu m) n c in
  Ok (set_accu Val_unit (set_heap h m)).

(** *** Branches *)

Definition op_branch (m : machine) : result machine :=
  let* off := fetch (pc m) in Ok (set_pc (pc m + off) m).
Definition op_branch_when (b : bool) (m : machine) : result machine :=
  if b then op_branch m else Ok (set_pc (pc m + 1) m).
Definition op_switch (m : machine) : result machine :=
  let* (sizes, m) := operand m in
  let sizes := u32 sizes in
  if Is_block (accu m) then
    let* index := Tag_val (heap m) (accu m) in
    let* off := fetch (pc m + (Z.land sizes 0xFFFF + index)) in Ok (set_pc (pc m + off) m)
  else
    let* index := Long_val (accu m) in
    if u32 index <? Z.land sizes 0xFFFF then
      let* off := fetch (pc m + index) in Ok (set_pc (pc m + off) m)
    else Ok (set_pc (pc m + (Z.land sizes 0xFFFF + Z.shiftr sizes 16)) m).

(** *** C primitives *)

Definition c_call (args l : list value) (m : machine) : result outcome :=
  let* n := fetch (pc m) in
  let* (res, h, r) := cprim n args (heap m) (rt m) in
  match res with
  | Returned v => next (set_pc (pc m + 1) (set_sp l (set_accu v (set_rt r (set_heap h m)))))
  | Raised exn => mlraise exn (set_rt r (set_heap h m))
  end.
Definition op_c_calln (nargs : Z) (m : machine) : result outcome :=
  let* (args, l) := split_sp nargs (accu m :: sp m) in c_call args l m.
Definition op_c_call1 (m : machine) : result outcome := c_call [accu m] (sp m) m.
Definition op_c_call2 (m : machine) : result outcome :=
  match sp m with x1 :: l => c_call [accu m; x1] l m | _ => Fault end.
Definition op_c_call3 (m : machine) : result outcome :=
  match sp m with x1 :: x2 :: l => c_call [accu m; x1; x2] l m | _ => Fault end.
Definition op_c_call4 (m : machine) : result outcome :=
  match sp m with x1 :: x2 :: x3 :: l => c_call [accu m; x1; x2; x3] l m | _ => Fault end.
Definition op_c_call5 (m : machine) : result outcome :=
  match sp m with x1 :: x2 :: x3 :: x4 :: l => c_call [accu m; x1; x2; x3; x4] l m | _ => Fault end.

(** *** Integers *)

Definition op_constint (m : machine) : result machine :=
  let* (n, m) := operand m in Ok (set_accu (Val_int n) m).
Definition op_const0 (m : machine) : machine := set_accu (Val_int 0) m.
Definition op_const1 (m : machine) : machine := set_accu (Val_int 1) m.
Definition op_const2 (m : machine) : machine := set_accu (Val_int 2) m.
Definition op_const3 (m : machine) : machine := set_accu (Val_int 3) m.
Definition op_pushconst0 (m : machine) : machine := let m := push (accu m) m in set_accu (Val_int 0) m.
Definition op_pushconst1 (m : machine) : machine := let m := push (accu m) m in set_accu (Val_int 1) m.
Definition op_pushconst2 (m : machine) : machine := let m := push (accu m) m in set_accu (Val_int 2) m.
Definition op_pushconst3 (m : machine) : machine := let m := push (accu m) m in set_accu (Val_int 3) m.
(** An operation on the words of [accu] and of the top of the stack. *)
Definition int_op (f : Z -> Z -> result Z) (m : machine) : result machine :=
  let* (y, m) := pop m in
  match accu m, y with
  | Int a, Int b => let* c := f a b in Ok (set_accu (Int (u32 c)) m)
  | _, _ => Fault
  end.
Definition long (w : Z) : Z := Z.shiftr (s32 w) 1.
(** [Val_long(x)] as a word. *)
Definition word_of (x : Z) : Z := Z.shiftl x 1 + 1.
Definition negint (m : machine) : result machine :=
  match accu m with Int a => Ok (set_accu (Int (u32 (2 - a))) m) | _ => Fault end.
Definition addint (a b : Z) : result Z := Ok (a + b - 1).
Definition subint (a b : Z) : result Z := Ok (a - b + 1).
Definition mulint (a b : Z) : result Z := Ok (word_of (long a * long b)).
Definition andint (a b : Z) : result Z := Ok (Z.land a b).
Definition orint (a b : Z) : result Z := Ok (Z.lor a b).
Definition xorint (a b : Z) : result Z := Ok (Z.lor (Z.lxor a b) 1).
(** C leaves a shift by less than 0 or by 32 and more undefined. *)
Definition shift_ok (n : Z) : bool := (0 <=? n) && (n <? 32).
Definition lslint (a b : Z) : result Z :=
  if shift_ok (long b) then Ok (Z.shiftl (a - 1) (long b) + 1) else Fault.
Definition lsrint (a b : Z) : result Z :=
  if shift_ok (long b) then Ok (Z.lor (Z.shiftr (u32 (a - 1)) (long b)) 1) else Fault.
Definition asrint (a b : Z) : result Z :=
  if shift_ok (long b) then Ok (Z.lor (Z.shiftr (s32 (a - 1)) (long b)) 1) else Fault.
(** [DIVINT] and [MODINT]: the exception is raised with [env] pushed. *)
Definition op_div (f : Z -> Z -> Z) (m : machine) : result outcome :=
  let* (y, m) := pop m in
  let* divisor := Long_val y in
  if divisor =? 0 then raise_constant ZERO_DIVIDE_EXN (push (env m) m)
  else
    let* n := Long_val (accu m) in next (set_accu (Val_long (f n divisor)) m).
Definition compare_int (tst : Z -> Z -> bool) (m : machine) : result machine :=
  let* (y, m) := pop m in
  match accu m, y with
  | Int a, Int b => Ok (set_accu (Val_bool (tst (s32 a) (s32 b))) m)
  | _, _ => Fault
  end.
(** [EQ] and [NEQ] also compare pointers. *)
Definition op_eq (m : machine) : result machine :=
  let* (y, m) := pop m in Ok (set_accu (Val_bool (bool_decide (accu m = y))) m).
Definition op_neq (m : machine) : result machine :=
  let* (y, m) := pop m in Ok (set_accu (Val_bool (negb (bool_decide (accu m = y)))) m).
Definition op_offsetint (m : machine) : result machine :=
  let* (n, m) := operand m in
  match accu m with Int a => Ok (set_accu (Int (u32 (a + Z.shiftl n 1))) m) | _ => Fault end.
Definition op_offsetref (m : machine) : result machine :=
  let* v := Field (heap m) (accu m) 0 in
  let* n := fetch (pc m) in
  match v with
  | Int a =>
      let* h := set_Field (heap m) (accu m) 0 (Int (u32 (a + Z.shiftl n 1))) in
      Ok (set_pc (pc m + 1) (set_accu Val_unit (set_heap h m)))
  | _ => Fault
  end.
Definition op_boolnot (m : machine) : result machine :=
  let* v := Val_not (accu m) in Ok (set_accu v m).

(** *** Dispatch *)

(** An instruction that continues with [m]. *)
Definition continue (c : result machine) : result outcome := let* m := c in next m.
Definition with_operand (f : Z -> machine -> result machine) (m : machine) : result outcome :=
  let* (n, m) := operand m in continue (f n m).

(** The [switch] of [interprete]; [pc] is behind the opcode. *)
Definition exec (i : instr) (m : machine) : result outcome :=
  match i with
  | PUSHACC => with_operand op_acc (op_push m)
  | ACC => with_operand op_acc m
  | PUSH | PUSHACC0 => next (op_push m)
  | POP => with_operand op_pop m
  | ASSIGN => with_operand op_assign m
  | ACC0 => continue (op_acc0 m) | ACC1 => continue (op_acc1 m)
  | ACC2 => continue (op_acc2 m) | ACC3 => continue (op_acc3 m)
  | ACC4 => continue (op_acc4 m) | ACC5 => continue (op_acc5 m)
  | ACC6 => continue (op_acc6 m) | ACC7 => continue (op_acc7 m)
  | PUSHACC1 => continue (op_pushacc1 m) | PUSHACC2 => continue (op_pushacc2 m)
  | PUSHACC3 => continue (op_pushacc3 m) | PUSHACC4 => continue (op_pushacc4 m)
  | PUSHACC5 => continue (op_pushacc5 m) | PUSHACC6 => continue (op_pushacc6 m)
  | PUSHACC7 => continue (op_pushacc7 m)
  | PUSHENVACC => with_operand op_envacc (op_push m)
  | ENVACC => with_operand op_envacc m
  | ENVACC1 => continue (op_envacc1 m) | ENVACC2 => continue (op_envacc2 m)
  | ENVACC3 => continue (op_envacc3 m) | ENVACC4 => continue (op_envacc4 m)
  | PUSHENVACC1 => continue (op_pushenvacc1 m) | PUSHENVACC2 => continue (op_pushenvacc2 m)
  | PUSHENVACC3 => continue (op_pushenvacc3 m) | PUSHENVACC4 => continue (op_pushenvacc4 m)
  | PUSH_RETADDR => continue (op_push_retaddr m)
  | APPLY => op_apply m
  | APPTERM =>
      let* (nargs, m) := operand m in
      let* slotsize := fetch (pc m) in op_appterm nargs slotsize m
  | RETURN => with_operand op_return m
  | APPLY1 => op_apply1 m | APPLY2 => op_apply2 m | APPLY3 => op_apply3 m
  | APPTERM1 => op_appterm1 m
  | APPTERM2 => op_appterm2 m
  | APPTERM3 => op_appterm3 m
  | RESTART => continue (op_restart m)
  | GRAB => with_operand op_grab m
  | CLOSURE => with_operand op_closure m
  | CLOSUREREC => with_operand op_closurerec m
  | PUSHGETGLOBAL => continue (op_getglobal (op_push m))
  | GETGLOBAL => continue (op_getglobal m)
  | SETGLOBAL => continue (op_setglobal m)
  | PUSHGETGLOBALFIELD => continue (op_getglobalfield (op_push m))
  | GETGLOBALFIELD => continue (op_getglobalfield m)
  | PUSHATOM => with_operand (fun t m => Ok (set_accu (Atom t) m)) (op_push m)
  | ATOM => with_operand (fun t m => Ok (set_accu (Atom t) m)) m
  | MAKEBLOCK => let* (wosize, m) := operand m in with_operand (op_makeblock wosize) m
  | PUSHATOM0 => next (set_accu (Atom 0) (op_push m))
  | ATOM0 => next (set_accu (Atom 0) m)
  | MAKEBLOCK1 => with_operand op_makeblock1 m
  | MAKEBLOCK2 => with_operand op_makeblock2 m
  | MAKEBLOCK3 => with_operand op_makeblock3 m
  | GETFIELD => with_operand op_getfield m
  | SETFIELD => with_operand op_setfield m
  | SETFIELD0 => continue (op_setfield0 m) | SETFIELD1 => continue (op_setfield1 m)
  | SETFIELD2 => continue (op_setfield2 m) | SETFIELD3 => continue (op_setfield3 m)
  | GETFIELD0 => continue (op_getfield0 m) | GETFIELD1 => continue (op_getfield1 m)
  | GETFIELD2 => continue (op_getfield2 m) | GETFIELD3 => continue (op_getfield3 m)
  | DUMMY => with_operand op_dummy m
  | UPDATE => continue (op_update m)
  | BRANCH => continue (op_branch m)
  | BRANCHIF => continue (op_branch_when (bool_decide (accu m <> Val_false)) m)
  | BRANCHIFNOT => continue (op_branch_when (bool_decide (accu m = Val_false)) m)
  | SWITCH => continue (op_switch m)
  | BOOLNOT => continue (op_boolnot m)
  | PUSHTRAP => continue (op_pushtrap m)
  | POPTRAP => continue (op_poptrap m)
  | RAISE => raise_exception m
  | CHECK_SIGNALS => check_signals m
  | C_CALLN => let* (nargs, m) := operand m in op_c_calln nargs m
  | C_CALL1 => op_c_call1 m | C_CALL2 => op_c_call2 m | C_CALL3 => op_c_call3 m
  | C_CALL4 => op_c_call4 m | C_CALL5 => op_c_call5 m
  | PUSHCONSTINT => continue (op_constint (op_push m))
  | CONSTINT => continue (op_constint m)
  | CONST0 => next (op_const0 m) | CONST1 => next (op_const1 m)
  | CONST2 => next (op_const2 m) | CONST3 => next (op_const3 m)
  | PUSHCONST0 => next (op_pushconst0 m) | PUSHCONST1 => next (op_pushconst1 m)
  | PUSHCONST2 => next (op_pushconst2 m) | PUSHCONST3 => next (op_pushconst3 m)
  | NEGINT => continue (negint m)
  | ADDINT => continue (int_op addint m) | SUBINT => continue (int_op subint m)
  | MULINT => continue (int_op mulint m)
  | DIVINT => op_div Z.quot m | MODINT => op_div Z.rem m
  | ANDINT => continue (int_op andint m) | ORINT => continue (int_op orint m)
  | XORINT => continue (int_op xorint m)
  | LSLINT => continue (int_op lslint m) | LSRINT => continue (int_op lsrint m)
  | ASRINT => continue (int_op asrint m)
  | EQ => continue (op_eq m) | NEQ => continue (op_neq m)
  | LTINT => continue (compare_int Z.ltb m) | LEINT => continue (compare_int Z.leb m)
  | GTINT => continue (compare_int Z.gtb m) | GEINT => continue (compare_int Z.geb m)
  | OFFSETINT => continue (op_offsetint m)
  | OFFSETREF => continue (op_offsetref m)
  | VECTLENGTH => continue (op_vectlength m)
  | GETVECTITEM => continue (op_getvectitem m)
  | SETVECTITEM => continue (op_setvectitem m)
  | GETSTRINGCHAR => continue (op_getstringchar m)
  | SETSTRINGCHAR => continue (op_setstringchar m)
  | STOP => Ok (Stopped (accu m) m)
  | EVENT | BREAK => Fault
  end.

(** One turn of [while(1)]; an unknown opcode is a fatal error. *)
Definition step (m : machine) : result outcome :=
  let* op := fetch (pc m) in
  match decode op with Some i => exec i (set_pc (pc m + 1) m) | None => Panic end.

(** Running to the end of [interprete]; [fuel] bounds the number of instructions. *)
Fixpoint run (fuel : nat) (m : machine) : result outcome :=
  match fuel with
  | O => Loop
  | S fuel =>
      let* o := step m in
      match o with Running m => run fuel m | _ => Ok o end
  end.

(** [interprete(prog, prog_size)] enters the program at its first opcode. *)
Definition start (l : list value) (trap : nat) (h : heap_t) (r : runtime) : machine :=
  mkMachine 0 l (Val_int 0) (Atom 0) trap 0 h r.
(** *** The unrolled instructions, and the general code of which each is an instance *)

Definition op_applyn (n : Z) (m : machine) : result outcome :=
  let* (args, l) := split_sp n (sp m) in
  let* m := enter (set_extra (n - 1) (set_sp (args ++ frame (pc m) m ++ l) m)) in
  check_stacks m.
Lemma split_sp_small (l : list value) :
  split_sp 1 l = match l with a :: l => Ok ([a], l) | _ => Fault end /\
  split_sp 2 l = match l with a :: b :: l => Ok ([a; b], l) | _ => Fault end /\
  split_sp 3 l = match l with a :: b :: c :: l => Ok ([a; b; c], l) | _ => Fault end.
Proof.
  unfold split_sp. split_and!.
  - destruct l as [|a l]; [done|]. by replace (1 <=? Z.of_nat (length (a :: l))) with true by (symmetry; apply Z.leb_le; cbn [length]; lia).
  - destruct l as [|a [|b l]]; [done|done|]. by replace (2 <=? Z.of_nat (length (a :: b :: l))) with true by (symmetry; apply Z.leb_le; cbn [length]; lia).
  - destruct l as [|a [|b [|c l]]]; [done|done|done|]. by replace (3 <=? Z.of_nat (length (a :: b :: c :: l))) with true by (symmetry; apply Z.leb_le; cbn [length]; lia).
Qed.
Lemma op_apply_unrolled m : op_apply1 m = op_applyn 1 m /\ op_apply2 m = op_applyn 2 m /\ op_apply3 m = op_applyn 3 m.
Proof.
  destruct (split_sp_small (sp m)) as (E1 & E2 & E3). unfold op_apply1, op_apply2, op_apply3, op_applyn, enter. rewrite E1, E2, E3.
  destruct (sp m) as [|a [|b [|c l]]]; cbn [rbind]; split_and!; try done; simpl; by destruct (Code_val _ _).
Qed.
Lemma op_appterm_unrolled m :
  op_appterm1 m = (let* n := fetch (pc m) in op_appterm 1 n m) /\
  op_appterm2 m = (let* n := fetch (pc m) in op_appterm 2 n m) /\
  op_appterm3 m = (let* n := fetch (pc m) in op_appterm 3 n m).
Proof.
  destruct (split_sp_small (sp m)) as (E1 & E2 & E3). unfold op_appterm1, op_appterm2, op_appterm3, op_appterm, enter. rewrite E1, E2, E3.
  destruct (fetch (pc m)) as [n| | |]; cbn [rbind]; [|done..]. rewrite !Z.gtb_ltb. split_and!.
  - destruct (n <? 1); [done|]. destruct (sp m) as [|a l]; cbn [rbind]; [done|]. destruct (split_sp n _) as [[l1 l2]| | |]; cbn [rbind]; [|done..].
    cbn [heap accu set_extra set_sp]. destruct (Code_val _ _); [|done..]. cbn [rbind].
    replace (extra_args m + (1 - 1)) with (extra_args m) by lia. by destruct m.
  - destruct (n <? 2); [done|]. destruct (sp m) as [|a [|b l]]; cbn [rbind]; [done..|]. destruct (split_sp n _) as [[l1 l2]| | |]; cbn [rbind]; [|done..].
    simpl. by destruct (Code_val _ _).
  - destruct (n <? 3); [done|]. destruct (sp m) as [|a [|b [|c l]]]; cbn [rbind]; [done..|]. destruct (split_sp n _) as [[l1 l2]| | |]; cbn [rbind]; [|done..].
    simpl. by destruct (Code_val _ _).
Qed.
Lemma op_makeblock_unrolled t m :
  op_makeblock1 t m = op_makeblock 1 t m /\ op_makeblock2 t m = op_makeblock 2 t m /\ op_makeblock3 t m = op_makeblock 3 t m.
Proof.
  destruct (split_sp_small (sp m)) as (E1 & E2 & E3). unfold op_makeblock1, op_makeblock2, op_makeblock3, op_makeblock.
  replace (1 - 1) with 0 by lia. replace (2 - 1) with 1 by lia. replace (3 - 1) with 2 by lia. rewrite E1, E2.
  split_and!; [|by destruct (sp m) as [|a l]|by destruct (sp m) as [|a [|b l]]].
  assert (split_sp 0 (sp m) = Ok ([], sp m)) as -> by (unfold split_sp; rewrite (proj2 (Z.leb_le 0 (Z.of_nat (length (sp m))))) by lia; done).
  by destruct m.
Qed.
Lemma op_c_call_unrolled m :
  op_c_call1 m = op_c_calln 1 m /\ op_c_call2 m = op_c_calln 2 m /\ op_c_call3 m = op_c_calln 3 m /\
  op_c_call4 m = op_c_calln 4 m /\ op_c_call5 m = op_c_calln 5 m.
Proof.
  unfold op_c_call1, op_c_call2, op_c_call3, op_c_call4, op_c_call5, op_c_calln. destruct (split_sp_small (accu m :: sp m)) as (E1 & E2 & E3). rewrite E1, E2, E3.
  split_and!; [done|by destruct (sp m)|by destruct (sp m) as [|a [|b l]]| |].
  - unfold split_sp. destruct (sp m) as [|a [|b [|c l]]]; [done..|]. by replace (4 <=? Z.of_nat (length (accu m :: a :: b :: c :: l))) with true by (symmetry; apply Z.leb_le; cbn [length]; lia).
  - unfold split_sp. destruct (sp m) as [|a [|b [|c [|d l]]]]; [done..|]. by replace (5 <=? Z.of_nat (length (accu m :: a :: b :: c :: d :: l))) with true by (symmetry; apply Z.leb_le; cbn [length]; lia).
Qed.
End interp.

(** ** Integer instructions *)

(** The bits of a tagged integer. *)
Lemma word_bits x i :
  0 <= i -> Z.testbit (u32 (2 * x + 1)) i = (i =? 0) || ((i <? 32) && Z.testbit x (i - 1)).
Proof.
  intros Hi. unfold u32. rewrite <-Z.land_ones, Z.land_spec by lia.
  destruct (Z.eqb_spec i 0) as [->|Hne].
  - rewrite Z.testbit_odd_0, Z.ones_spec_low by lia. done.
  - replace i with (Z.succ (i - 1)) at 1 by lia. rewrite Z.testbit_odd_succ by lia. simpl.
    destruct (Z.ltb_spec i 32); [rewrite Z.ones_spec_low by lia|rewrite Z.ones_spec_high by lia];
      by rewrite ?andb_true_r, ?andb_false_r.
Qed.
Lemma word_land x y : u32 (Z.land (u32 (2 * x + 1)) (u32 (2 * y + 1))) = u32 (2 * Z.land x y + 1).
Proof.
  apply Z.bits_inj'. intros i Hi. rewrite word_bits by done.
  unfold u32 at 1. rewrite <-Z.land_ones, !Z.land_spec, !word_bits by done.
  destruct (Z.eqb_spec i 0) as [->|]; [by rewrite Z.ones_spec_low by lia|]. simpl.
  destruct (Z.ltb_spec i 32); [rewrite Z.ones_spec_low by lia|]; simpl; by rewrite ?andb_true_r, ?Z.land_spec.
Qed.
Lemma word_lor x y : u32 (Z.lor (u32 (2 * x + 1)) (u32 (2 * y + 1))) = u32 (2 * Z.lor x y + 1).
Proof.
  apply Z.bits_inj'. intros i Hi. rewrite word_bits by done.
  unfold u32 at 1. rewrite <-Z.land_ones, Z.land_spec, Z.lor_spec, !word_bits by done.
  destruct (Z.eqb_spec i 0) as [->|]; [by rewrite Z.ones_spec_low by lia|]. simpl.
  destruct (Z.ltb_spec i 32); [rewrite Z.ones_spec_low by lia|]; simpl; by rewrite ?andb_true_r, ?Z.lor_spec.
Qed.
Lemma word_lxor x y :
  u32 (Z.lor (Z.lxor (u32 (2 * x + 1)) (u32 (2 * y + 1))) 1) = u32 (2 * Z.lxor x y + 1).
Proof.
  apply Z.bits_inj'. intros i Hi. rewrite word_bits by done.
  unfold u32 at 1. rewrite <-Z.land_ones, Z.land_spec, Z.lor_spec, Z.lxor_spec, !word_bits by done.
  destruct (Z.eqb_spec i 0) as [->|]; [by rewrite Z.ones_spec_low by lia|].
  rewrite (testbit_small 1 1 i) by lia. simpl.
  destruct (Z.ltb_spec i 32); [rewrite Z.ones_spec_low by lia|]; simpl;
    by rewrite ?andb_true_r, ?orb_false_r, ?Z.lxor_spec.
Qed.
Lemma long_word x : is_long x -> long (u32 (2 * x + 1)) = x.
Proof.
  unfold is_long, Min_long, Max_long, long. intros Hx. rewrite s32_u32, shiftr_div, s32_small by solve_word.
  zlia.
Qed.
Lemma lor_1 z : Z.even z = true -> Z.lor z 1 = z + 1.
Proof.
  intros [k ->]%Z.even_spec. replace (2 * k) with (k * 2 ^ 1) by lia. apply lor_add; lia.
Qed.
Lemma lor_1_half z : Z.lor z 1 = 2 * (z / 2) + 1.
Proof.
  apply Z.bits_inj'. intros i Hi. rewrite Z.lor_spec. destruct (Z.eqb_spec i 0) as [->|Hne].
  - by rewrite Z.testbit_odd_0, orb_true_r.
  - replace i with (Z.succ (i - 1)) at 3 by lia. rewrite Z.testbit_odd_succ by lia.
    rewrite (testbit_small 1 1 i) by lia. rewrite orb_false_r.
    change (z / 2) with (z / 2 ^ 1). rewrite Z.div_pow2_bits by lia. f_equal. lia.
Qed.
(** Shifting a doubled number right and setting the last bit shifts the number. *)
Lemma shift_right_tag z n : 0 <= n -> Z.lor (2 * z / 2 ^ n) 1 = 2 * (z / 2 ^ n) + 1.
Proof.
  intros. assert (0 < 2 ^ n) by (apply Z.pow_pos_nonneg; lia).
  rewrite lor_1_half, Z.div_div, (Z.mul_comm (2 ^ n)), Z.div_mul_cancel_l by lia. done.
Qed.
Lemma s32_word_of x : is_long x -> s32 (u32 (2 * x + 1)) = 2 * x + 1.
Proof.
  unfold is_long, Min_long, Max_long. intros. rewrite s32_u32. apply s32_small. split; lia.
Qed.

Section integers.
Variables (code : list Z) (max_stack_size initial_depth : nat)
  (cprim : Z -> list value -> heap_t -> runtime -> result (primres * heap_t * runtime)).
Abbreviation exec := (exec code max_stack_size initial_depth cprim).

Lemma int_op_ok f m x y l c :
  accu m = Val_long x -> sp m = Val_long y :: l ->
  f (u32 (2 * x + 1)) (u32 (2 * y + 1)) = Ok c ->
  continue (int_op f m) = Ok (Running (set_accu (Int (u32 c)) (set_sp l m))).
Proof.
  intros Ha Hs Hf. unfold int_op, pop. rewrite Hs. cbn [rbind]. cbn [accu set_sp].
  rewrite Ha, !Val_long_eq. by rewrite Hf.
Qed.
Lemma compare_int_ok tst m x y l :
  accu m = Val_long x -> sp m = Val_long y :: l -> is_long x -> is_long y ->
  (forall a b, tst (2 * a + 1) (2 * b + 1) = tst a b) ->
  continue (compare_int tst m) = Ok (Running (set_accu (Val_bool (tst x y)) (set_sp l m))).
Proof.
  intros Ha Hs Hx Hy Htst. unfold compare_int, pop. rewrite Hs. cbn [rbind accu set_sp].
  rewrite Ha, !Val_long_eq. by rewrite !s32_word_of, Htst.
Qed.
Lemma op_div_ok f m x y l :
  accu m = Val_long x -> sp m = Val_long y :: l -> is_long x -> is_long y ->
  op_div initial_depth f m =
    if y =? 0 then raise_constant initial_depth ZERO_DIVIDE_EXN (push (env m) (set_sp l m))
    else Ok (Running (set_accu (Val_long (f x y)) (set_sp l m))).
Proof.
  intros Ha Hs Hx Hy. unfold op_div, pop. rewrite Hs. cbn [rbind].
  rewrite Long_Val_long, wrap31_small by done. simpl. destruct (y =? 0); [done|].
  rewrite Ha, Long_Val_long, wrap31_small by done. done.
Qed.

(** C26: integer instructions.  On tagged integers [x] and [y] (31 bits,
    signed) every arithmetic instruction leaves the tagged result of the mathematical
    operation, wrapped to 31 bits: addition, subtraction, multiplication,
    negation, the quotient and remainder that round toward zero, bitwise
    operations, shifts (logical on the 31-bit pattern, arithmetic with the sign), comparisons as
    booleans, negation of booleans and the addition of a constant.  Division
    by zero raises the predefined exception. *)
Theorem integer_instructions (m : machine) (x y n : Z) (l : list value) (b : bool) :
  accu m = Val_long x -> sp m = Val_long y :: l -> is_long x -> is_long y ->
  let ok v := Ok (Running (set_accu v (set_sp l m))) in
  (exec ADDINT m = ok (Val_long (x + y)) /\ exec SUBINT m = ok (Val_long (x - y)) /\
   exec MULINT m = ok (Val_long (x * y)) /\
   exec NEGINT m = Ok (Running (set_accu (Val_long (- x)) m))) /\
  (exec DIVINT m = (if y =? 0 then raise_constant initial_depth ZERO_DIVIDE_EXN (push (env m) (set_sp l m))
                    else ok (Val_long (Z.quot x y))) /\
   exec MODINT m = (if y =? 0 then raise_constant initial_depth ZERO_DIVIDE_EXN (push (env m) (set_sp l m))
                    else ok (Val_long (Z.rem x y)))) /\
  (exec ANDINT m = ok (Val_long (Z.land x y)) /\ exec ORINT m = ok (Val_long (Z.lor x y)) /\
   exec XORINT m = ok (Val_long (Z.lxor x y))) /\
  (0 <= y < 32 ->
   exec LSLINT m = ok (Val_long (x * 2 ^ y)) /\
   exec LSRINT m = ok (Val_long (x mod 2 ^ 31 / 2 ^ y)) /\
   exec ASRINT m = ok (Val_long (x / 2 ^ y))) /\
  (exec EQ m = ok (Val_bool (x =? y)) /\ exec NEQ m = ok (Val_bool (negb (x =? y))) /\
   exec LTINT m = ok (Val_bool (x <? y)) /\ exec LEINT m = ok (Val_bool (x <=? y)) /\
   exec GTINT m = ok (Val_bool (x >? y)) /\ exec GEINT m = ok (Val_bool (x >=? y))) /\
  (exec BOOLNOT (set_accu (Val_bool b) m) = Ok (Running (set_accu (Val_bool (negb b)) m)) /\
   (fetch code (pc m) = Ok n ->
    exec OFFSETINT m = Ok (Running (set_accu (Val_long (x + n)) (set_pc (pc m + 1) m))))).
Proof.
  intros Ha Hs Hx Hy ok.
  assert (forall f c, f (u32 (2 * x + 1)) (u32 (2 * y + 1)) = Ok c -> forall z,
    u32 c = u32 (2 * z + 1) -> continue (int_op f m) = ok (Val_long z)) as Hop.
  { intros f c Hf z Hz. rewrite (int_op_ok f m x y l c) by done. unfold ok. by rewrite Val_long_eq, Hz. }
  assert (forall a c, u32 (u32 a + c) = u32 (a + c)) as Hl by (intros; unfold u32; by rewrite Zplus_mod_idemp_l).
  split; [|split; [|split; [|split; [|split]]]].
  - split; [|split; [|split]].
    + eapply Hop; [done|]. unfold u32. zlia.
    + eapply Hop; [done|]. unfold u32. zlia.
    + eapply Hop; [done|]. rewrite !long_word by done. unfold word_of. rewrite shiftl_mul by lia. f_equal. lia.
    + unfold exec, negint. rewrite Ha, !Val_long_eq. unfold continue. cbn [rbind]. unfold next.
      do 4 f_equal. unfold u32. zlia.
  - split; simpl; by rewrite (op_div_ok _ _ x y l).
  - split; [|split]; (eapply Hop; [done|]).
    + apply word_land. + apply word_lor. + apply word_lxor.
  - intros Hn. assert (shift_ok (long (u32 (2 * y + 1))) = true) as Hok
      by (rewrite long_word by done; unfold shift_ok; lia).
    assert (0 < 2 ^ y) by (apply Z.pow_pos_nonneg; lia).
    split; [|split].
    + eapply Hop; [unfold lslint; by rewrite Hok|]. rewrite long_word by done. rewrite shiftl_mul by lia.
      unfold u32. rewrite <-Zplus_mod_idemp_l, Zmult_mod, Zminus_mod_idemp_l, <-Zmult_mod, Zplus_mod_idemp_l.
      f_equal. ring.
    + eapply Hop; [unfold lsrint; by rewrite Hok|]. rewrite long_word, shiftr_div by done || lia.
      assert (u32 (u32 (2 * x + 1) - 1) = 2 * (x mod 2 ^ 31)) as -> by (unfold u32; zlia).
      by rewrite shift_right_tag by lia.
    + eapply Hop; [unfold asrint; by rewrite Hok|]. rewrite long_word, shiftr_div by done || lia.
      assert (s32 (u32 (2 * x + 1) - 1) = 2 * x) as ->.
      { unfold is_long, Min_long, Max_long in Hx. unfold s32, u32. zlia. }
      by rewrite shift_right_tag by lia.
  - assert (bool_decide (accu m = Val_long y) = (x =? y)) as Heq.
    { rewrite Ha. destruct (Z.eqb_spec x y) as [->|Hne]; [by rewrite bool_decide_true|].
      apply bool_decide_false. by rewrite Val_long_inj, !wrap31_small. }
    split; [|split].
    + unfold exec, op_eq, pop. rewrite Hs. simpl. by rewrite Heq.
    + unfold exec, op_neq, pop. rewrite Hs. simpl. by rewrite Heq.
    + repeat split; (apply (compare_int_ok _ m x y l); [done..|]); intros a c; zlia.
  - split.
    + unfold exec, op_boolnot, Val_bool. by destruct b.
    + intros Hn. unfold exec, op_offsetint, operand. rewrite Hn. cbn [rbind accu set_pc].
      rewrite Ha, !Val_long_eq. unfold continue. cbn [rbind]. unfold next.
      rewrite shiftl_mul by lia. do 4 f_equal. unfold u32. zlia.
Qed.
End integers.

(** [-7] and [2] in the accumulator and on the stack; the operand of [OFFSETINT] is [3]. *)
Definition int_machine : machine :=
  mkMachine 0 [Val_long 2; Val_unit] (Val_long (-7)) (Atom 0) 0 0 ∅ (mkRuntime Val_unit 600 false 0 Val_unit).
Lemma integer_instructions_witness :
  let ex i := exec [3] 1200 0 (fun _ _ _ _ => Fault) i int_machine in
  let ok v := Ok (Running (set_accu (Val_long v) (set_sp [Val_unit] int_machine))) in
  ex MULINT = ok (-14) /\ ex DIVINT = ok (-3) /\ ex MODINT = ok (-1) /\ ex LSRINT = ok 536870910 /\
  ex ASRINT = ok (-2) /\ ex LTINT = ok 1.
Proof.
  destruct (integer_instructions [3] 1200 0 (fun _ _ _ _ => Fault) int_machine (-7) 2 3 [Val_unit] true)
    as ((_ & _ & Hmul & _) & (Hdiv & Hmod) & _ & Hshift & (_ & _ & Hlt & _) & _);
    [reflexivity|reflexivity|split; discriminate|split; discriminate|].
  destruct Hshift as (_ & Hlsr & Hasr); [split; reflexivity || discriminate|].
  exact (conj Hmul (conj Hdiv (conj Hmod (conj Hlsr (conj Hasr Hlt))))).
Defined.
