(* ===== verification/Trap.v ===== *)
(** * Exception handlers of the interpreter

    What each instruction of [Interp] does to the stack, and the chain of trap
    frames through which [PUSHTRAP], [POPTRAP] and [raise_exception] implement
    [try ... with]. *)
From stdpp Require Import gmap list.
From S2P Require Import Prelude Mlvalues Interp.

Section trap.
Variables (code : list Z) (max_stack_size initial_depth : nat)
  (cprim : Z -> list value -> heap_t -> runtime -> result (primres * heap_t * runtime)).
Abbreviation exec := (exec code max_stack_size initial_depth cprim).
Abbreviation step := (step code max_stack_size initial_depth cprim).
Abbreviation raise_exception := (raise_exception initial_depth).

(** *** Stack effects *)

Definition arg (k : Z) (m : machine) : Z :=
  match fetch code (pc m + k) with Ok n => n | _ => 0 end.
(** How many words at [sp] an instruction removes or overwrites; [pc] is behind the opcode. *)
Definition consumed (i : instr) (m : machine) : Z :=
  match i with
  | POP => arg 0 m
  | ASSIGN => arg 0 m + 1
  | APPLY1 => 1 | APPLY2 => 2 | APPLY3 => 3
  | APPTERM => arg 1 m
  | APPTERM1 | APPTERM2 | APPTERM3 => arg 0 m
  | RETURN => arg 0 m + if extra_args m >? 0 then 0 else 3
  | GRAB => if extra_args m >=? arg 0 m then 0 else 1 + extra_args m + 3
  | CLOSURE | CLOSUREREC => Z.max 0 (arg 0 m - 1)
  | MAKEBLOCK => arg 0 m - 1
  | MAKEBLOCK2 => 1 | MAKEBLOCK3 => 2
  | SETFIELD | SETFIELD0 | SETFIELD1 | SETFIELD2 | SETFIELD3 | UPDATE => 1
  | POPTRAP => 4
  | C_CALLN => Z.max 0 (arg 0 m - 1)
  | C_CALL2 => 1 | C_CALL3 => 2 | C_CALL4 => 3 | C_CALL5 => 4
  | ADDINT | SUBINT | MULINT | DIVINT | MODINT | ANDINT | ORINT | XORINT
  | LSLINT | LSRINT | ASRINT | EQ | NEQ | LTINT | LEINT | GTINT | GEINT => 1
  | GETVECTITEM | GETSTRINGCHAR => 1
  | SETVECTITEM | SETSTRINGCHAR => 2
  | _ => 0
  end.
Definition leaves (k : Z) (m m' : machine) : Prop :=
  trapsp m' = trapsp m /\ exists top, sp m' = top ++ drop (Z.to_nat k) (sp m).

Lemma split_sp_Ok n l a b :
  split_sp n l = Ok (a, b) -> a = take (Z.to_nat n) l /\ b = drop (Z.to_nat n) l /\ 0 <= n <= Z.of_nat (length l).
Proof.
  unfold split_sp. destruct (0 <=? n) eqn:E1, (n <=? Z.of_nat (length l)) eqn:E2; simpl; try done.
  intros [= <- <-]. apply Z.leb_le in E1, E2. done.
Qed.
Lemma leaves_refl m : leaves 0 m m.
Proof. split; [done|]. by exists []. Qed.
Lemma leaves_trans k m m1 m2 : leaves k m m1 -> leaves 0 m1 m2 -> leaves k m m2.
Proof.
  intros [E1 [t1 H1]] [E2 [t2 H2]]. split; [congruence|]. exists (t2 ++ t1).
  rewrite drop_0 in H2. by rewrite H2, H1, app_assoc.
Qed.
(** Closing [leaves] goals on explicit machines. *)
Ltac leaves :=
  split; [reflexivity|]; cbn [sp set_pc set_sp set_accu set_env set_trapsp set_extra set_heap set_rt push];
  first [exists []; reflexivity | eexists [_]; reflexivity | eexists [_; _; _]; reflexivity | eexists [_; _; _; _]; reflexivity].
Ltac inv_pop H :=
  unfold pop in H; lazymatch type of H with match sp ?m with _ => _ end = _ =>
    let E := fresh "Esp" in destruct (sp m) eqn:E; [discriminate H|injection H as ? ?; subst] end.
(** An operation that pops [n] words with [pop], then leaves the stack alone. *)
Ltac popping H :=
  repeat match goal with
    | E : pop _ = Ok _ |- _ => inv_pop E
    | E : operand _ = Ok _ |- _ => unfold operand in E; inv_ok E; idtac
    end.

Lemma leaves_pop k m v l m' : 0 <= k -> sp m = v :: l -> leaves k (set_sp l m) m' -> leaves (k + 1) m m'.
Proof.
  intros Hk Es [E [t H]]. split; [done|]. exists t. rewrite H, Es. simpl.
  replace (Z.to_nat (k + 1)) with (S (Z.to_nat k)) by lia. done.
Qed.
Lemma leaves_operand m x m' : operand code m = Ok (x, m') -> leaves 0 m m' /\ x = arg 0 m /\ m' = set_pc (pc m + 1) m.
Proof.
  unfold operand, arg. rewrite Z.add_0_r. intros H. inv_ok H. rewrite Hstep.
  split; [leaves|done].
Qed.

Lemma op_acc_leaves n m m' : op_acc n m = Ok m' -> leaves 0 m m'.
Proof. unfold op_acc. intros H. inv_ok H. leaves. Qed.
Lemma op_envacc_leaves n m m' : op_envacc n m = Ok m' -> leaves 0 m m'.
Proof. unfold op_envacc. intros H. inv_ok H. leaves. Qed.
Lemma op_pop_leaves n m m' : op_pop n m = Ok m' -> leaves n m m'.
Proof.
  unfold op_pop. intros H. inv_ok H. apply split_sp_Ok in Hstep as (_ & -> & _). leaves.
Qed.
Lemma op_assign_leaves n m m' : op_assign n m = Ok m' -> leaves (n + 1) m m'.
Proof.
  unfold op_assign, sp_at. intros H. inv_ok H.
  apply Z.ltb_ge in Heqb. split; [done|]. simpl.
  exists (take (Z.to_nat n) (sp m) ++ [accu m]). rewrite insert_take_drop by (by eapply lookup_lt_Some).
  rewrite <-app_assoc. do 2 f_equal. simpl. f_equal. lia.
Qed.
Lemma op_push_retaddr_leaves m m' : op_push_retaddr code m = Ok m' -> leaves 0 m m'.
Proof. unfold op_push_retaddr. intros H. inv_ok H. leaves. Qed.
Lemma enter_leaves m m' : enter m = Ok m' -> leaves 0 m m'.
Proof. unfold enter. intros H. inv_ok H. leaves. Qed.
Lemma pop_frame_leaves m m' : pop_frame m = Ok m' -> leaves 3 m m'.
Proof.
  unfold pop_frame. intros H. destruct (sp m) as [|[] [|e [|x l]]] eqn:E; try done.
  inv_ok H. split; [done|]. exists []. by rewrite E.
Qed.
Lemma leaves_drop k n m m' :
  0 <= k -> 0 <= n -> leaves k (set_sp (drop (Z.to_nat n) (sp m)) m) m' -> leaves (n + k) m m'.
Proof.
  intros Hk Hn [E [t H]]. split; [done|]. exists t. rewrite H. simpl. rewrite drop_drop. do 2 f_equal. lia.
Qed.
Lemma op_return_leaves n m m' :
  op_return n m = Ok m' -> leaves (n + if extra_args m >? 0 then 0 else 3) m m'.
Proof.
  unfold op_return. intros H. inv_ok H; apply split_sp_Ok in Hstep as (_ & -> & Hn);
    simpl in Heqb; rewrite Heqb; apply leaves_drop; try lia.
  - eapply leaves_trans; [|by eapply enter_leaves]. leaves.
  - by apply pop_frame_leaves in H.
Qed.
Lemma op_restart_leaves m m' : op_restart m = Ok m' -> leaves 0 m m'.
Proof.
  unfold op_restart. intros H. inv_ok H. destruct (data a) as [[|v [|e args]]|]; try done.
  injection H as <-. split; [done|]. by exists args.
Qed.
Lemma op_grab_leaves n m m' :
  op_grab n m = Ok m' -> leaves (if extra_args m >=? n then 0 else 1 + extra_args m + 3) m m'.
Proof.
  unfold op_grab. intros H. destruct (extra_args m >=? n); [injection H as <-; leaves|].
  inv_ok H. apply split_sp_Ok in Hstep as (_ & -> & Hn).
  apply leaves_drop; [lia|lia|]. apply pop_frame_leaves in H. done.
Qed.
Lemma push_leaves v m : leaves 0 m (push v m).
Proof. leaves. Qed.
(** [CLOSURE] and [CLOSUREREC] push [accu] first when there are variables. *)
Lemma closure_leaves nvars m m1 l1 l :
  m1 = (if nvars >? 0 then push (accu m) m else m) -> split_sp nvars (sp m1) = Ok (l1, l) ->
  l = drop (Z.to_nat (Z.max 0 (nvars - 1))) (sp m).
Proof.
  intros -> (_ & -> & Hn & _)%split_sp_Ok. destruct (Z.gtb_spec nvars 0); simpl.
  - replace (Z.to_nat nvars) with (S (Z.to_nat (Z.max 0 (nvars - 1)))) by lia. done.
  - by replace nvars with 0 by lia.
Qed.
Lemma op_closure_leaves n m m' : op_closure code n m = Ok m' -> leaves (Z.max 0 (n - 1)) m m'.
Proof.
  unfold op_closure. intros H. inv_ok H. apply (closure_leaves _ m) in Hstep0 as ->; [|done].
  destruct (n >? 0); leaves.
Qed.
Lemma op_closurerec_leaves n m m' : op_closurerec code n m = Ok m' -> leaves (Z.max 0 (n - 1)) m m'.
Proof.
  unfold op_closurerec. intros H. inv_ok H. apply (closure_leaves _ m) in Hstep0 as ->; [|done].
  destruct (n >? 0); leaves.
Qed.
Lemma op_getglobal_leaves m m' : op_getglobal code m = Ok m' -> leaves 0 m m'.
Proof. unfold op_getglobal. intros H. inv_ok H. apply leaves_operand in Hstep as (_ & _ & ->). leaves. Qed.
Lemma op_setglobal_leaves m m' : op_setglobal code m = Ok m' -> leaves 0 m m'.
Proof. unfold op_setglobal. intros H. inv_ok H. apply leaves_operand in Hstep as (_ & _ & ->). leaves. Qed.
Lemma op_getglobalfield_leaves m m' : op_getglobalfield code m = Ok m' -> leaves 0 m m'.
Proof.
  unfold op_getglobalfield. intros H. inv_ok H. eapply leaves_trans; [by eapply op_getglobal_leaves|].
  apply leaves_operand in Hstep0 as (_ & _ & ->). leaves.
Qed.
Lemma op_makeblock_leaves w t m m' : op_makeblock w t m = Ok m' -> leaves (w - 1) m m'.
Proof. unfold op_makeblock. intros H. inv_ok H. apply split_sp_Ok in Hstep as (_ & -> & _). leaves. Qed.
Lemma op_getfield_leaves n m m' : op_getfield n m = Ok m' -> leaves 0 m m'.
Proof. unfold op_getfield. intros H. inv_ok H. leaves. Qed.
Lemma modify_leaves n v m m' : modify n v m = Ok m' -> leaves 0 m m'.
Proof. unfold modify. intros H. inv_ok H. leaves. Qed.
Lemma pop_Ok v m m' : pop m = Ok (v, m') -> exists l, sp m = v :: l /\ m' = set_sp l m.
Proof. unfold pop. destruct (sp m) as [|w l]; [done|]. intros [= <- <-]. eauto. Qed.
(** Popping a word and going on. *)
Lemma pop_leaves k v m m1 m' : 0 <= k -> pop m = Ok (v, m1) -> leaves k m1 m' -> leaves (k + 1) m m'.
Proof. intros Hk (l & Es & ->)%pop_Ok H. by apply (leaves_pop k m v l). Qed.
Lemma op_setfield_leaves n m m' : op_setfield n m = Ok m' -> leaves 1 m m'.
Proof.
  unfold op_setfield. intros H. inv_ok H. eapply (pop_leaves 0); [done|done|]. by eapply modify_leaves.
Qed.
Lemma op_dummy_leaves n m m' : op_dummy n m = Ok m' -> leaves 0 m m'.
Proof. unfold op_dummy. intros H. inv_ok H. leaves. Qed.
Lemma op_update_leaves m m' : op_update m = Ok m' -> leaves 1 m m'.
Proof.
  unfold op_update. intros H. inv_ok H. eapply (pop_leaves 0); [done|done|].
  destruct (accu m0); try done. inv_ok H. leaves.
Qed.
Lemma op_vectlength_leaves m m' : op_vectlength m = Ok m' -> leaves 0 m m'.
Proof. unfold op_vectlength. intros H. inv_ok H. leaves. Qed.
Lemma op_getvectitem_leaves m m' : op_getvectitem m = Ok m' -> leaves 1 m m'.
Proof.
  unfold op_getvectitem. intros H. inv_ok H. eapply (pop_leaves 0); [done|done|]. by eapply op_getfield_leaves.
Qed.
Lemma op_setvectitem_leaves m m' : op_setvectitem m = Ok m' -> leaves 2 m m'.
Proof.
  unfold op_setvectitem. intros H. inv_ok H. eapply (pop_leaves 1); [done|done|].
  eapply (pop_leaves 0); [done|done|]. by eapply modify_leaves.
Qed.
Lemma op_getstringchar_leaves m m' : op_getstringchar m = Ok m' -> leaves 1 m m'.
Proof. unfold op_getstringchar. intros H. inv_ok H. eapply (pop_leaves 0); [done|done|]. leaves. Qed.
Lemma op_setstringchar_leaves m m' : op_setstringchar m = Ok m' -> leaves 2 m m'.
Proof.
  unfold op_setstringchar. intros H. inv_ok H. eapply (pop_leaves 1); [done|done|].
  eapply (pop_leaves 0); [done|done|]. leaves.
Qed.
Lemma op_branch_leaves m m' : op_branch code m = Ok m' -> leaves 0 m m'.
Proof. unfold op_branch. intros H. inv_ok H. leaves. Qed.
Lemma op_branch_when_leaves b m m' : op_branch_when code b m = Ok m' -> leaves 0 m m'.
Proof. destruct b; [apply op_branch_leaves|]. simpl. intros H. inv_ok H. leaves. Qed.
Lemma op_switch_leaves m m' : op_switch code m = Ok m' -> leaves 0 m m'.
Proof.
  unfold op_switch. intros H. inv_ok H; apply leaves_operand in Hstep as (_ & _ & ->); leaves.
Qed.
Lemma op_constint_leaves m m' : op_constint code m = Ok m' -> leaves 0 m m'.
Proof. unfold op_constint. intros H. inv_ok H. apply leaves_operand in Hstep as (_ & _ & ->). leaves. Qed.
Lemma int_op_leaves f m m' : int_op f m = Ok m' -> leaves 1 m m'.
Proof.
  unfold int_op. intros H. inv_ok H. eapply (pop_leaves 0); [done|done|].
  destruct (accu m0), v; try done. inv_ok H. leaves.
Qed.
Lemma compare_int_leaves f m m' : compare_int f m = Ok m' -> leaves 1 m m'.
Proof.
  unfold compare_int. intros H. inv_ok H. eapply (pop_leaves 0); [done|done|].
  destruct (accu m0), v; try done. inv_ok H. leaves.
Qed.
Lemma op_eq_leaves m m' : op_eq m = Ok m' -> leaves 1 m m'.
Proof. unfold op_eq. intros H. inv_ok H. eapply (pop_leaves 0); [done|done|]. leaves. Qed.
Lemma op_neq_leaves m m' : op_neq m = Ok m' -> leaves 1 m m'.
Proof. unfold op_neq. intros H. inv_ok H. eapply (pop_leaves 0); [done|done|]. leaves. Qed.
Lemma negint_leaves m m' : negint m = Ok m' -> leaves 0 m m'.
Proof. unfold negint. intros H. destruct (accu m); try done. inv_ok H. leaves. Qed.
Lemma op_boolnot_leaves m m' : op_boolnot m = Ok m' -> leaves 0 m m'.
Proof. unfold op_boolnot. intros H. inv_ok H. leaves. Qed.
Lemma op_offsetint_leaves m m' : op_offsetint code m = Ok m' -> leaves 0 m m'.
Proof.
  unfold op_offsetint. intros H. inv_ok H. apply leaves_operand in Hstep as (_ & _ & ->). simpl in H.
  destruct (accu m); try done. inv_ok H. leaves.
Qed.
Lemma op_offsetref_leaves m m' : op_offsetref code m = Ok m' -> leaves 0 m m'.
Proof. unfold op_offsetref. intros H. inv_ok H. destruct a; try done. inv_ok H. leaves. Qed.

(** An instruction goes on normally or raises an exception. *)
Inductive effect (k : Z) (m : machine) : machine -> Prop :=
  | eff_plain m' : leaves k m m' -> effect k m m'
  | eff_raise m1 m' : leaves k m m1 -> raise_exception m1 = Ok (Running m') -> effect k m m'.

Lemma effect_trans k m m1 m2 : leaves k m m1 -> effect 0 m1 m2 -> effect k m m2.
Proof.
  intros H [m' H'|m3 m' H' Hr]; [apply eff_plain|apply (eff_raise _ _ m3); [|done]];
    by eapply leaves_trans.
Qed.
Lemma raise_constant_effect n m m' :
  raise_constant initial_depth n m = Ok (Running m') -> effect 0 m m'.
Proof.
  unfold raise_constant, mlraise. intros H. apply rbind_Ok in H as (t & _ & H).
  destruct (alloc _ _) as [b h]. eapply eff_raise; [|exact H]. leaves.
Qed.
Lemma process_signal_effect m m' : process_signal m = Ok (Running m') -> effect 0 m m'.
Proof. unfold process_signal, next. intros H. apply eff_plain. inv_ok H; leaves. Qed.
Lemma check_signals_effect m m' : check_signals m = Ok (Running m') -> effect 0 m m'.
Proof.
  unfold check_signals, next. intros H. destruct (something_to_do (rt m)); [by apply process_signal_effect|].
  apply eff_plain. inv_ok H. apply leaves_refl.
Qed.
Lemma check_stacks_effect m m' :
  check_stacks max_stack_size initial_depth m = Ok (Running m') -> effect 0 m m'.
Proof.
  unfold check_stacks. intros H. destruct (Nat.ltb _ _); [|by apply check_signals_effect].
  destruct (Nat.leb _ _); [by eapply raise_constant_effect|].
  eapply effect_trans; [|by eapply check_signals_effect]. leaves.
Qed.
(** Entering a closure after the stack has been arranged. *)
Lemma enter_effect k m m1 m' :
  leaves k m m1 -> (let* m := enter m1 in check_stacks max_stack_size initial_depth m) = Ok (Running m') ->
  effect k m m'.
Proof.
  intros Hl H. apply rbind_Ok in H as (m2 & He & H).
  eapply effect_trans; [|by eapply check_stacks_effect]. eapply leaves_trans; [done|]. by apply enter_leaves.
Qed.
Lemma op_apply_effect m m' : op_apply code max_stack_size initial_depth m = Ok (Running m') -> effect 0 m m'.
Proof. unfold op_apply. intros H. apply rbind_Ok in H as (n & _ & H). eapply enter_effect; [|exact H]. leaves. Qed.
Lemma op_applyn_effect n m m' :
  op_applyn max_stack_size initial_depth n m = Ok (Running m') -> effect n m m'.
Proof.
  unfold op_applyn. intros H. apply rbind_Ok in H as ([args l] & (_ & -> & _)%split_sp_Ok & H).
  eapply enter_effect; [|exact H]. split; [done|]. simpl. eexists (args ++ [_; _; _]). by rewrite <-app_assoc.
Qed.
Lemma op_appterm_effect n s m m' :
  op_appterm max_stack_size initial_depth n s m = Ok (Running m') -> effect s m m'.
Proof.
  unfold op_appterm. intros H. destruct (n >? s); [done|]. apply rbind_Ok in H as ([args l] & _ & H).
  apply rbind_Ok in H as ([args' l'] & (_ & -> & _)%split_sp_Ok & H).
  eapply enter_effect; [|exact H]. split; [done|]. by exists args.
Qed.
Lemma op_c_calln_effect n m m' : 
  op_c_calln code initial_depth cprim n m = Ok (Running m') -> effect (Z.max 0 (n - 1)) m m'.
Proof.
  unfold op_c_calln, c_call. intros H. apply rbind_Ok in H as ([args l] & Hs%split_sp_Ok & H).
  apply rbind_Ok in H as (k & _ & H). apply rbind_Ok in H as ([[res h] r] & _ & H).
  assert (exists top, l = top ++ drop (Z.to_nat (Z.max 0 (n - 1))) (sp m)) as [top Hl].
  { destruct Hs as (_ & -> & Hn & _). destruct (Z.eqb_spec n 0) as [->|]; [by exists [accu m]|].
    exists []. replace (Z.to_nat n) with (S (Z.to_nat (Z.max 0 (n - 1)))) by lia. done. }
  destruct res as [v|exn].
  - unfold next in H. injection H as <-. apply eff_plain. split; [done|]. by exists top.
  - eapply eff_raise; [|exact H]. split; [done|]. simpl.
    exists (take (Z.to_nat (Z.max 0 (n - 1))) (sp m)). by rewrite take_drop.
Qed.
Lemma op_div_effect f m m' : op_div initial_depth f m = Ok (Running m') -> effect 1 m m'.
Proof.
  unfold op_div. intros H. apply rbind_Ok in H as ([y m1] & Hp & H). apply rbind_Ok in H as (d & _ & H).
  assert (leaves 1 m m1) as H1 by (eapply (pop_leaves 0); [done|done|apply leaves_refl]).
  destruct (d =? 0).
  - apply raise_constant_effect in H. eapply effect_trans; [exact H1|].
    eapply effect_trans; [apply push_leaves|done].
  - unfold next in H. inv_ok H. apply eff_plain. eapply leaves_trans; [exact H1|]. leaves.
Qed.

(** Instructions that are one operation. *)
Lemma continue_effect k c m m' :
  continue c = Ok (Running m') -> (forall m1, c = Ok m1 -> leaves k m m1) -> effect k m m'.
Proof.
  unfold continue, next. intros H Hc. apply rbind_Ok in H as (m1 & H1 & [= <-]). apply eff_plain. auto.
Qed.
Lemma operand_effect f k m m' :
  with_operand code f m = Ok (Running m') ->
  (forall m1, f (arg 0 m) (set_pc (pc m + 1) m) = Ok m1 -> leaves k (set_pc (pc m + 1) m) m1) -> effect k m m'.
Proof.
  unfold with_operand. intros H Hf. apply rbind_Ok in H as ([n m1] & (_ & -> & ->)%leaves_operand & H).
  apply (continue_effect k _ (set_pc (pc m + 1) m)) in H; [|exact Hf].
  destruct H as [m' H|m1 m' H Hr]; [by apply eff_plain|by apply (eff_raise _ _ m1)].
Qed.
Lemma next_effect m m1 m' : next m1 = Ok (Running m') -> leaves 0 m m1 -> effect 0 m m'.
Proof. unfold next. intros [= <-] H. by apply eff_plain. Qed.
Lemma push_effect v m m' : effect 0 (push v m) m' -> effect 0 m m'.
Proof. intros H. eapply effect_trans; [apply push_leaves|done]. Qed.
Lemma appterm_effect n m m' :
  (let* s := fetch code (pc m) in op_appterm max_stack_size initial_depth n s m) = Ok (Running m') ->
  effect (arg 0 m) m m'.
Proof.
  intros H. apply rbind_Ok in H as (s & Hs & H). apply op_appterm_effect in H. unfold arg.
  by rewrite Z.add_0_r, Hs.
Qed.
#[local] Hint Resolve op_acc_leaves op_envacc_leaves op_pop_leaves op_assign_leaves op_push_retaddr_leaves
  op_return_leaves op_restart_leaves op_grab_leaves op_closure_leaves op_closurerec_leaves op_getglobal_leaves
  op_setglobal_leaves op_getglobalfield_leaves op_makeblock_leaves op_getfield_leaves op_setfield_leaves
  op_dummy_leaves op_update_leaves op_vectlength_leaves op_getvectitem_leaves op_setvectitem_leaves
  op_getstringchar_leaves op_setstringchar_leaves op_branch_leaves op_branch_when_leaves op_switch_leaves
  op_constint_leaves int_op_leaves compare_int_leaves op_eq_leaves op_neq_leaves negint_leaves op_boolnot_leaves
  op_offsetint_leaves op_offsetref_leaves push_leaves leaves_refl : core.

(** The instructions without operand that read or write at a small offset do the same as the general ones. *)
Lemma short_leaves m m' :
  (forall n, (let* v := sp_at n m in Ok (set_accu v m)) = Ok m' -> leaves 0 m m') /\
  (forall n, (let* v := sp_at n (push (accu m) m) in Ok (set_accu v (push (accu m) m))) = Ok m' -> leaves 0 m m') /\
  (forall n, (let* v := Field (heap m) (env m) n in Ok (set_accu v m)) = Ok m' -> leaves 0 m m') /\
  (forall n, (let* v := Field (heap (push (accu m) m)) (env (push (accu m) m)) n in Ok (set_accu v (push (accu m) m))) = Ok m' -> leaves 0 m m') /\
  (forall n, (let* v := Field (heap m) (accu m) n in Ok (set_accu v m)) = Ok m' -> leaves 0 m m') /\
  (forall n, (let* (newval, m1) := pop m in modify n newval m1) = Ok m' -> leaves 1 m m').
Proof.
  split_and!; intros n H; try (inv_ok H; leaves). by apply (op_setfield_leaves n).
Qed.
Ltac short_instruction m m' :=
  destruct (short_leaves m m') as (L1 & L2 & L3 & L4 & L5 & L6);
  first [eapply L1; eassumption|eapply L2; eassumption|eapply L3; eassumption|eapply L4; eassumption|eapply L5; eassumption|eapply L6; eassumption].
Lemma exec_effect i m m' :
  i <> PUSHTRAP -> i <> POPTRAP -> i <> RAISE ->
  exec i m = Ok (Running m') -> effect (consumed i m) m m'.
Proof.
  intros H1 H2 H3 H. destruct i; try done; simpl in H; unfold consumed;
    rewrite ?(proj1 (op_apply_unrolled _ _ _)), ?(proj1 (proj2 (op_apply_unrolled _ _ _))), ?(proj2 (proj2 (op_apply_unrolled _ _ _))) in H;
    rewrite ?(proj1 (op_appterm_unrolled _ _ _ _)), ?(proj1 (proj2 (op_appterm_unrolled _ _ _ _))), ?(proj2 (proj2 (op_appterm_unrolled _ _ _ _))) in H;
    try (eapply continue_effect; [exact H|intros m1 Hm; short_instruction m m1]);
    try (eapply continue_effect; [exact H|by eauto]);
    try (eapply operand_effect; [exact H|by eauto]);
    try (apply (push_effect (accu m)); eapply continue_effect; [exact H|by eauto]);
    try (apply (push_effect (accu m)); eapply operand_effect; [exact H|by eauto]);
    try (eapply next_effect; [exact H|leaves]);
    try (by eapply op_div_effect); try (by eapply op_applyn_effect); try (by eapply op_apply_effect);
    try (by eapply check_signals_effect);
    try (destruct (op_c_call_unrolled code initial_depth cprim m) as (U1 & U2 & U3 & U4 & U5);
      first [rewrite U1 in H|rewrite U2 in H|rewrite U3 in H|rewrite U4 in H|rewrite U5 in H]; apply op_c_calln_effect in H; exact H).
  - eapply operand_effect; [exact H|]. intros m1 Hm. injection Hm as <-. leaves.
  - apply rbind_Ok in H as ([w m1] & (_ & -> & ->)%leaves_operand & H).
    apply (operand_effect _ (arg 0 m - 1)) in H; [|intros m1 Hm; by apply op_makeblock_leaves in Hm].
    destruct H as [m' H|m1 m' H Hr]; [by apply eff_plain|by apply (eff_raise _ _ m1)].
  - apply (push_effect (accu m)). eapply operand_effect; [exact H|]. intros m1 Hm. injection Hm as <-. leaves.
  - eapply operand_effect; [exact H|]. intros m1 Hm. rewrite (proj1 (op_makeblock_unrolled _ _)) in Hm. by apply op_makeblock_leaves in Hm.
  - eapply operand_effect; [exact H|]. intros m1 Hm. rewrite (proj1 (proj2 (op_makeblock_unrolled _ _))) in Hm. by apply op_makeblock_leaves in Hm.
  - eapply operand_effect; [exact H|]. intros m1 Hm. rewrite (proj2 (proj2 (op_makeblock_unrolled _ _))) in Hm. by apply op_makeblock_leaves in Hm.
  - apply rbind_Ok in H as ([nargs m1] & (_ & _ & ->)%leaves_operand & H).
    apply rbind_Ok in H as (s & Hs & H). apply op_appterm_effect in H. unfold arg.
    simpl in Hs. rewrite Hs. destruct H as [m' H|m1 m' H Hr]; [by apply eff_plain|by apply (eff_raise _ _ m1)].
  - eapply operand_effect; [exact H|]. intros m1 Hm. by apply op_return_leaves in Hm.
  - by eapply appterm_effect.
  - by eapply appterm_effect.
  - by eapply appterm_effect.
  - apply rbind_Ok in H as ([nargs m1] & (_ & -> & ->)%leaves_operand & H). apply op_c_calln_effect in H.
    destruct H as [m' H|m1 m' H Hr]; [by apply eff_plain|by apply (eff_raise _ _ m1)].
  - eapply operand_effect; [exact H|]. intros m1 Hm. by apply op_grab_leaves in Hm.
Qed.

(** *** The chain of trap frames *)

(** The [d] words nearest to [stack_high]. *)
Definition bottom (d : nat) (l : list value) : list value := drop (length l - d) l.
(** From depth [d] the frames are linked down to the depth at which the
    interpreter was entered. *)
Inductive handlers (l : list value) : nat -> Prop :=
  | no_handler d : (d <= initial_depth)%nat -> (d <= length l)%nat -> handlers l d
  | one_handler d p d' e x l' :
      (initial_depth + 4 <= d)%nat -> (d <= length l)%nat ->
      bottom d l = Code p :: Stk d' :: e :: Int x :: l' -> (d' + 4 <= d)%nat ->
      handlers l d' -> handlers l d.

Lemma bottom_length d l : (d <= length l)%nat -> length (bottom d l) = d.
Proof. intros. unfold bottom. rewrite length_drop. lia. Qed.
Lemma bottom_bottom d d' l : (d' <= d)%nat -> (d <= length l)%nat -> bottom d' (bottom d l) = bottom d' l.
Proof.
  intros. unfold bottom at 1. rewrite bottom_length by done. unfold bottom. rewrite drop_drop. f_equal. lia.
Qed.
Lemma bottom_app d t l : (d <= length l)%nat -> bottom d (t ++ l) = bottom d l.
Proof.
  intros. unfold bottom. rewrite length_app, drop_app_ge by lia. f_equal. lia.
Qed.
Lemma bottom_drop d k l : (d + k <= length l)%nat -> bottom d (drop k l) = bottom d l.
Proof. intros. unfold bottom. rewrite length_drop, drop_drop. f_equal. lia. Qed.
(** The chain from [d] is in the [d] bottom words. *)
Lemma handlers_bottom l1 l2 d :
  (d <= length l1)%nat -> bottom d l1 = bottom d l2 -> (d <= length l2)%nat -> handlers l1 d -> handlers l2 d.
Proof.
  intros Hl1 Hb Hl2 H. revert Hl1 Hb Hl2. induction H as [d Hd _|d p d' e x l' Hi Hle Hf Hd' H IH]; intros Hl1 Hb Hl2.
  - by apply no_handler.
  - apply (one_handler _ d p d' e x l'); [done|done|congruence|done|]. apply IH; [lia| |lia].
    rewrite <-(bottom_bottom d d' l1), <-(bottom_bottom d d' l2) by lia. by rewrite Hb.
Qed.
Lemma handlers_length l d : handlers l d -> (d <= length l)%nat.
Proof. by destruct 1. Qed.
Lemma leaves_bottom k m m' d :
  leaves k m m' -> Z.of_nat d + Z.max 0 k <= Z.of_nat (length (sp m)) ->
  bottom d (sp m') = bottom d (sp m) /\ (d <= length (sp m'))%nat.
Proof.
  intros [_ [t ->]] Hd. rewrite bottom_app, bottom_drop, length_app, length_drop by (rewrite ?length_drop; lia).
  split; [done|lia].
Qed.

(** Raising with a well-formed chain: either no handler of this
    [interprete] is left, or its frame is restored. *)
Lemma raise_handlers m :
  handlers (sp m) (trapsp m) ->
  (exists m', raise_exception m = Ok (Escaped (accu m) m') /\ (trapsp m <= initial_depth)%nat) \/
  (exists p d e x l,
    bottom (trapsp m) (sp m) = Code p :: Stk d :: e :: Int x :: l /\ (initial_depth + 4 <= trapsp m)%nat /\
    raise_exception m = Ok (Running (mkMachine p l (accu m) e d (s32 x / 2) (heap m) (rt m))) /\
    handlers l d).
Proof.
  intros H. pose proof (handlers_length _ _ H) as Hle. unfold raise_exception, Interp.raise_exception.
  assert (Nat.ltb (length (sp m)) (trapsp m) = false) as -> by (apply Nat.ltb_ge; lia).
  fold (bottom (trapsp m) (sp m)).
  inversion H as [d Hd _ E|d p d' e x l' Hi _ Hf Hd' Hch E]; subst d.
  - left. assert (Nat.leb (trapsp m) initial_depth = true) as Hleb by (by apply Nat.leb_le).
    simpl. rewrite Hleb. eexists. split; [reflexivity|done].
  - right. assert (Nat.leb (trapsp m) initial_depth = false) as Hleb by (apply Nat.leb_gt; lia).
    exists p, d', e, x, l'. split; [done|]. split; [done|]. simpl. rewrite Hleb, Hf, Long_val_Int.
    split; [done|]. apply (handlers_bottom (sp m)); [lia| | |done].
    + rewrite <-(bottom_bottom (trapsp m) d') by lia. rewrite Hf.
      apply (f_equal length) in Hf. rewrite bottom_length in Hf by lia. simpl in Hf.
      change (Code p :: Stk d' :: e :: Int x :: l') with ([Code p; Stk d'; e; Int x] ++ l').
      apply bottom_app. lia.
    + apply (f_equal length) in Hf. rewrite bottom_length in Hf by lia. simpl in Hf. lia.
Qed.

(** *** Handlers stay in place *)

Definition inv (m : machine) : Prop :=
  handlers (sp m) (trapsp m) /\ (initial_depth <= length (sp m))%nat.
(** The next instruction does not consume the words of a handler or of the caller of
    [interprete], and [POPTRAP] finds the innermost frame at [sp]: what
    the code of [try ... with] guarantees by nesting. *)
Definition respects (m : machine) : Prop :=
  forall op i, fetch code (pc m) = Ok op -> decode op = Some i ->
    match i with
    | RAISE | PUSHTRAP => True
    | POPTRAP => length (sp m) = trapsp m /\ (initial_depth < trapsp m)%nat
    | _ => Z.of_nat (Nat.max (trapsp m) initial_depth) + Z.max 0 (consumed i (set_pc (pc m + 1) m))
             <= Z.of_nat (length (sp m))
    end.
(** What a step keeps of the handlers below [d]. *)
Definition keeps (m m' : machine) : Prop :=
  inv m' /\ forall d, (d <= trapsp m)%nat -> (d <= trapsp m')%nat -> bottom d (sp m') = bottom d (sp m).

Lemma raise_keeps m m' : inv m -> raise_exception m = Ok (Running m') -> keeps m m'.
Proof.
  intros [Hh Hi] Hr. destruct (raise_handlers m Hh) as [(m2 & E & _)|(p & d & e & x & l & Hb & Hd & E & Hch)];
    rewrite E in Hr; [done|]. injection Hr as <-.
  pose proof (handlers_length _ _ Hh) as Hle. pose proof (f_equal length Hb) as Hlen.
  rewrite bottom_length in Hlen by done. simpl in Hlen.
  split; [split; [done|simpl; lia]|]. simpl. intros d' H1 H2.
  pose proof (handlers_length _ _ Hch). rewrite <-(bottom_bottom (trapsp m) d' (sp m)) by lia. rewrite Hb.
  change (Code p :: Stk d :: e :: Int x :: l) with ([Code p; Stk d; e; Int x] ++ l).
  symmetry. apply bottom_app. lia.
Qed.
Lemma leaves_keeps k m m' :
  inv m -> leaves k m m' ->
  Z.of_nat (Nat.max (trapsp m) initial_depth) + Z.max 0 k <= Z.of_nat (length (sp m)) -> keeps m m'.
Proof.
  intros [Hh Hi] Hl Hk. pose proof Hl as [Et _].
  assert (forall d, (d <= Nat.max (trapsp m) initial_depth)%nat ->
    bottom d (sp m') = bottom d (sp m) /\ (d <= length (sp m'))%nat) as Hb.
  { intros d Hd. eapply leaves_bottom; [done|lia]. }
  split; [split; [rewrite Et|apply Hb; lia]|].
  - destruct (Hb (trapsp m)) as [Hb1 Hb2]; [lia|].
    apply (handlers_bottom (sp m)); [by apply handlers_length|done|done|done].
  - intros d H1 _. apply Hb. lia.
Qed.
Lemma keeps_trans m m1 m' : trapsp m1 = trapsp m -> keeps m m1 -> keeps m1 m' -> keeps m m'.
Proof.
  intros E [_ H1] [Hi H2]. split; [done|]. intros d Hd Hd'. rewrite H2 by lia. apply H1; lia.
Qed.
Lemma effect_keeps k m m' :
  inv m -> effect k m m' ->
  Z.of_nat (Nat.max (trapsp m) initial_depth) + Z.max 0 k <= Z.of_nat (length (sp m)) -> keeps m m'.
Proof.
  intros Hi [m1 H|m1 m2 H Hr] Hk; [by eapply leaves_keeps|].
  assert (keeps m m1) as Hm1 by (by eapply leaves_keeps).
  apply (keeps_trans _ m1); [apply H|done|]. apply raise_keeps; [apply Hm1|done].
Qed.

Lemma pushtrap_step m m' op :
  fetch code (pc m) = Ok op -> decode op = Some PUSHTRAP -> step m = Ok (Running m') ->
  exists off, fetch code (pc m + 1) = Ok off /\
    sp m' = Code (pc m + 1 + off) :: Stk (trapsp m) :: env m :: Val_long (extra_args m) :: sp m /\
    trapsp m' = (length (sp m) + 4)%nat /\ heap m' = heap m /\ rt m' = rt m /\ pc m' = pc m + 2.
Proof.
  intros Hf Hd Hs. unfold step, Interp.step in Hs. rewrite Hf in Hs. simpl in Hs. rewrite Hd in Hs.
  simpl in Hs. unfold continue, op_pushtrap, next in Hs.
  apply rbind_Ok in Hs as (m1 & Hm1 & [= <-]). apply rbind_Ok in Hm1 as (off & Hoff & [= <-]).
  exists off. simpl in *. split; [done|]. split; [done|]. split; [lia|]. split; [done|split; [done|lia]].
Qed.
Lemma poptrap_step m m' op :
  inv m -> respects m -> fetch code (pc m) = Ok op -> decode op = Some POPTRAP -> step m = Ok (Running m') ->
  exists p d e x, sp m = Code p :: Stk d :: e :: Int x :: sp m' /\ trapsp m' = d /\ handlers (sp m') d /\
    length (sp m) = trapsp m /\ (initial_depth + 4 <= trapsp m)%nat.
Proof.
  intros [Hh Hi] Hr Hf Hd Hs. specialize (Hr op POPTRAP Hf Hd). simpl in Hr. destruct Hr as [Hlen Hlt].
  assert (bottom (trapsp m) (sp m) = sp m) as Eb by (unfold bottom; by rewrite Hlen, Nat.sub_diag).
  destruct (raise_handlers m Hh) as [(m2 & _ & ?)|(p & d & e & x & l & Hb & Hd4 & _ & Hch)]; [lia|].
  rewrite Eb in Hb. exists p, d, e, x.
  unfold step, Interp.step in Hs. rewrite Hf in Hs. simpl in Hs. rewrite Hd in Hs.
  simpl in Hs. unfold continue, op_poptrap, next in Hs. simpl in Hs. rewrite Hb in Hs. simpl in Hs.
  injection Hs as <-. split; [exact Hb|done].
Qed.

Lemma step_keeps m m' : inv m -> respects m -> step m = Ok (Running m') -> keeps m m'.
Proof.
  intros Hinv Hresp Hs. pose proof Hinv as [Hh Hi]. pose proof Hs as Hs'.
  unfold step, Interp.step in Hs'. apply rbind_Ok in Hs' as (op & Hf & Hs').
  destruct (decode op) as [i|] eqn:Hd; [|done].
  destruct (decide (i = RAISE)) as [->|H1].
  { simpl in Hs'. apply (keeps_trans _ (set_pc (pc m + 1) m)); [done| |by apply raise_keeps].
    split; [done|done]. }
  destruct (decide (i = PUSHTRAP)) as [->|H2].
  { destruct (pushtrap_step m m' op Hf Hd Hs) as (off & _ & Esp & Et & _).
    pose proof (handlers_length _ _ Hh).
    assert (forall d, (d <= length (sp m))%nat -> bottom d (sp m') = bottom d (sp m)) as Hb.
    { intros d Hle. rewrite Esp. apply (bottom_app d [_; _; _; _]). lia. }
    split; [split; [|rewrite Esp; simpl; lia]|intros d ? _; apply Hb; lia].
    rewrite Et. rewrite Val_long_eq in Esp. eapply one_handler; [lia|rewrite Esp; simpl; lia| | |].
    - unfold bottom. rewrite Esp. replace (_ - _)%nat with 0%nat by (simpl; lia). reflexivity.
    - lia.
    - apply (handlers_bottom (sp m)); [lia|by rewrite Hb|rewrite Esp; simpl; lia|done]. }
  destruct (decide (i = POPTRAP)) as [->|H3].
  { destruct (poptrap_step m m' op Hinv Hresp Hf Hd Hs) as (p & d & e & x & Esp & Et & Hch & Hlen & Hlt).
    pose proof (f_equal length Esp) as E. simpl in E.
    split; [split; [congruence|lia]|]. intros d' _ Hd'. rewrite Esp. symmetry.
    pose proof (handlers_length _ _ Hch). apply (bottom_app d' [_; _; _; _]). lia. }
  apply exec_effect in Hs'; [|done..].
  apply (keeps_trans _ (set_pc (pc m + 1) m)); [done|by split|].
  eapply effect_keeps; [done|exact Hs'|]. specialize (Hresp op i Hf Hd). by destruct i.
Qed.

(** A run in which the handler at depth [d] stays installed. *)
Inductive protected (d : nat) : machine -> machine -> Prop :=
  | protected_refl m : protected d m m
  | protected_step m m1 m' :
      respects m -> step m = Ok (Running m1) -> (d <= trapsp m1)%nat -> protected d m1 m' -> protected d m m'.
Lemma protected_keeps d m m' :
  inv m -> (d <= trapsp m)%nat -> protected d m m' ->
  inv m' /\ bottom d (sp m') = bottom d (sp m).
Proof.
  intros Hi Hd H. revert Hi Hd. induction H as [m|m m1 m' Hr Hs Hd1 H IH]; intros Hi Hd; [done|].
  destruct (step_keeps m m1 Hi Hr Hs) as [Hi1 Hb1]. destruct (IH Hi1 Hd1) as [Hi' Hb'].
  split; [done|]. by rewrite Hb', Hb1.
Qed.

(** C7: [try ... with].  Let [m0] execute [PUSHTRAP] and let the protected code run
    any number of steps (with nested handlers, raised and caught exceptions, calls
    of C primitives that raise, growth of the stack) without consuming the
    handler.  Then raising is always defined; when the handler is again the
    innermost one, raising continues at the handler with the stack, the
    environment, the pending arguments and the outer handler that [m0]
    had, the exception in the accumulator; and [POPTRAP], reached with the frame at
    [sp], restores the stack and the outer handler of [m0]. *)
Theorem try_with (m0 m1 m : machine) (op off : Z) :
  inv m0 -> is_long (extra_args m0) ->
  fetch code (pc m0) = Ok op -> decode op = Some PUSHTRAP -> fetch code (pc m0 + 1) = Ok off ->
  step m0 = Ok (Running m1) -> protected (trapsp m1) m1 m ->
  (exists o, raise_exception m = Ok o) /\
  (trapsp m = trapsp m1 ->
   raise_exception m = Ok (Running
     (mkMachine (pc m0 + 1 + off) (sp m0) (accu m) (env m0) (trapsp m0) (extra_args m0) (heap m) (rt m)))) /\
  (forall op' m', fetch code (pc m) = Ok op' -> decode op' = Some POPTRAP -> respects m ->
   trapsp m = trapsp m1 -> step m = Ok (Running m') -> sp m' = sp m0 /\ trapsp m' = trapsp m0).
Proof.
  intros Hinv He Hop Hdec Hoff Hs Hrun.
  destruct (pushtrap_step m0 m1 op Hop Hdec Hs) as (off' & Hoff' & Esp & Et & _).
  rewrite Hoff in Hoff'. injection Hoff' as <-.
  assert (keeps m0 m1) as [Hinv1 _] by (apply step_keeps; [done| |done];
    intros op' i Hf' Hd'; rewrite Hop in Hf'; injection Hf' as <-; rewrite Hdec in Hd'; by injection Hd' as <-).
  destruct (protected_keeps (trapsp m1) m1 m Hinv1 (le_n _) Hrun) as [Hinvm Hb].
  assert (bottom (trapsp m1) (sp m1) = sp m1) as Eb1
    by (unfold bottom; rewrite Esp; replace (_ - _)%nat with 0%nat by (simpl; lia); done).
  rewrite Eb1, Esp, Val_long_eq in Hb. destruct (raise_handlers m (proj1 Hinvm)) as [(m2 & E & Hle)|
    (p & d & e & x & l & Hf & Hlt & E & Hch)].
  - split; [by eexists|]. pose proof (proj2 Hinv). split; [intros; lia|intros; lia].
  - split; [by eexists|]. split.
    + intros Etr. rewrite Etr, Hb in Hf. injection Hf as <- <- <- <- <-. rewrite E. do 3 f_equal.
      pose proof (Long_Val_long (extra_args m0)) as EL. rewrite wrap31_small, Val_long_eq, Long_val_Int in EL by done.
      by injection EL.
    + intros op' m' Hf' Hd' Hr Etr Hs'.
      destruct (poptrap_step m m' op' Hinvm Hr Hf' Hd' Hs') as (p' & d' & e' & x' & Esp' & Et' & _ & Hlen & _).
      assert (bottom (trapsp m) (sp m) = sp m) as Ebm by (unfold bottom; by rewrite Hlen, Nat.sub_diag).
      rewrite <-Etr, Ebm, Esp' in Hb. injection Hb as _ Ed _ _ El. by rewrite El, Et', Ed.
Qed.
End trap.

(** [try 1 + raise 2 with e -> e]: the handler is at opcode 6. *)
Definition try_code : list Z :=
  [opcode PUSHTRAP; 5; opcode CONST1; opcode PUSHCONST2; opcode RAISE; opcode STOP; opcode STOP].
Definition no_prims : Z -> list value -> heap_t -> runtime -> result (primres * heap_t * runtime) :=
  fun _ _ _ _ => Fault.
Definition quiet_rt : runtime := mkRuntime Val_unit 600 false 0 Val_unit.
Definition try_start : machine := start [Val_int 7] 0 ∅ quiet_rt.
Definition try_step (m : machine) : machine :=
  match step try_code 1200 1 no_prims m with Ok (Running m') => m' | _ => m end.
Definition try_body : machine := try_step try_start.
Definition try_raise : machine := try_step (try_step try_body).
Ltac solve_respects :=
  intros op i Hf Hd; vm_compute in Hf; injection Hf as <-; vm_compute in Hd; injection Hd as <-;
  vm_compute; congruence.
Lemma try_with_witness :
  (pc try_raise = 4 /\ accu try_raise = Val_int 2) /\
  raise_exception 1 try_raise =
    Ok (Running (mkMachine 6 [Val_int 7] (accu try_raise) (Atom 0) 0 0 (heap try_raise) (rt try_raise))).
Proof.
  split; [split; vm_compute; reflexivity|].
  destruct (try_with try_code 1200 1 no_prims try_start try_body try_raise (opcode PUSHTRAP) 5)
    as (_ & Hraise & _).
  - split; [apply no_handler; vm_compute; lia|vm_compute; lia].
  - vm_compute. split; congruence.
  - vm_compute. reflexivity.
  - vm_compute. reflexivity.
  - vm_compute. reflexivity.
  - vm_compute. reflexivity.
  - apply protected_step with (try_step try_body); [solve_respects|vm_compute; reflexivity|vm_compute; lia|].
    apply protected_step with try_raise; [solve_respects|vm_compute; reflexivity|vm_compute; lia|].
    apply protected_refl.
  - apply Hraise. vm_compute. reflexivity.
Defined.
