(* ===== verification/Curry.v ===== *)
(** * Function application in the interpreter

    A function of several arguments starts with [GRAB] behind a [RESTART].  When it is given too few
    arguments [GRAB] builds a closure that remembers them; applying
    that closure enters the function again through [RESTART].  The file shows
    that arguments can be supplied in any grouping, and that the
    specialised instructions are abbreviations of the general ones. *)
From stdpp Require Import gmap list.
From S2P Require Import Prelude Mlvalues Interp.

Section curry.
Variables (code : list Z) (max_stack_size initial_depth : nat)
  (cprim : Z -> list value -> heap_t -> runtime -> result (primres * heap_t * runtime)).
Abbreviation step := (step code max_stack_size initial_depth cprim).

(** [n] instructions. *)
Fixpoint steps (n : nat) (m : machine) : result machine :=
  match n with
  | O => Ok m
  | S n => let* o := step m in match o with Running m => steps n m | _ => Fault end
  end.

Lemma decode_opcode i : decode (opcode i) = Some i.
Proof. by destruct i. Qed.
Lemma step_instr m i : fetch code (pc m) = Ok (opcode i) ->
  step m = exec code max_stack_size initial_depth cprim i (set_pc (pc m + 1) m).
Proof. intros H. unfold step, Interp.step. rewrite H. cbn [rbind]. by rewrite decode_opcode. Qed.
Lemma split_sp_app n (l1 l2 : list value) : n = Z.of_nat (length l1) -> split_sp n (l1 ++ l2) = Ok (l1, l2).
Proof.
  intros ->. unfold split_sp. rewrite length_app.
  assert ((0 <=? Z.of_nat (length l1)) && (Z.of_nat (length l1) <=? Z.of_nat (length l1 + length l2)) = true) as ->.
  { apply andb_true_iff. split; apply Z.leb_le; lia. }
  by rewrite Nat2Z.id, take_app_length, drop_app_length.
Qed.

(** *** Partial application *)

(** A function that needs more than [required] arguments, with entry [e]. *)
Variables (e required : Z) (f : value).
Hypothesis Hrestart : fetch code (e - 1) = Ok (opcode RESTART).
Hypothesis Hgrab : fetch code e = Ok (opcode GRAB).
Hypothesis Hrequired : fetch code (e + 1) = Ok required.

(** The value [v] stands for the function [f] applied to the arguments [xs]. *)
Definition applied_to (h : heap_t) (v : value) (xs : list value) : Prop :=
  match xs with
  | [] => v = f
  | _ => exists p, v = Ptr p /\ h !! p = Some (mkBlock Closure_tag (Fields (Code (e - 1) :: f :: xs)))
  end.
(** The machine as an application instruction leaves it: entering [v] with the
    arguments [ys] on top of the stack [l]. *)
Definition entering (v : value) (xs ys l : list value) (m : machine) : Prop :=
  pc m = (match xs with [] => e | _ => e - 1 end) /\ env m = v /\ sp m = ys ++ l /\
  extra_args m = Z.of_nat (length ys) - 1 /\ ys <> [].

Lemma restart_ok v xs ys l m :
  applied_to (heap m) v xs -> entering v xs ys l m ->
  exists n, steps n m = Ok (set_pc e (set_env f (set_sp (xs ++ ys ++ l)
    (set_extra (Z.of_nat (length (xs ++ ys)) - 1) m)))).
Proof.
  intros Ha (Hpc & He & Hs & Hx & Hy). destruct xs as [|x xs].
  - simpl in Ha. subst v. exists 0%nat. simpl. destruct m; simpl in *. by subst.
  - destruct Ha as (p & -> & Hp). exists 1%nat. cbn [steps].
    rewrite (step_instr m RESTART) by by rewrite Hpc. cbn [exec].
    unfold op_restart. cbn [env heap set_pc]. rewrite He. cbn [get_block]. rewrite Hp. cbn [of_ptr rbind data].
    unfold continue, next. cbn [rbind]. f_equal. destruct m; simpl in *. subst. unfold set_extra, set_env, set_sp, set_pc.
    simpl. f_equal; [lia|]. rewrite length_app. lia.
Qed.

Lemma steps_app n1 n2 m m1 : steps n1 m = Ok m1 -> steps (n1 + n2) m = steps n2 m1.
Proof.
  revert m. induction n1 as [|n1 IH]; intros m; simpl; [by intros [= ->]|].
  destruct (step m) as [[m2|v m2|v m2]| | |]; simpl; try done. apply IH.
Qed.
Lemma steps_1 m m1 : step m = Ok (Running m1) -> steps 1 m = Ok m1.
Proof. intros H. simpl. by rewrite H. Qed.
Lemma grab_enough m : pc m = e -> required <= extra_args m ->
  step m = Ok (Running (set_pc (e + 2) (set_extra (extra_args m - required) m))).
Proof.
  intros Hpc Hle. rewrite (step_instr m GRAB) by by rewrite Hpc. cbn [exec].
  unfold with_operand, operand. cbn [pc set_pc]. rewrite Hpc, Hrequired. cbn [rbind].
  unfold op_grab. cbn [extra_args set_pc]. assert (extra_args m >=? required = true) as -> by lia.
  unfold continue, next. cbn [rbind]. do 2 f_equal. unfold set_pc, set_extra. simpl. f_equal. lia.
Qed.
Lemma grab_short m zs ret env0 extra0 l' :
  pc m = e -> extra_args m = Z.of_nat (length zs) - 1 -> extra_args m < required -> is_long extra0 ->
  sp m = zs ++ Code ret :: env0 :: Val_long extra0 :: l' ->
  let blk := mkBlock Closure_tag (Fields (Code (e - 1) :: env m :: zs)) in
  let p := fresh (dom (heap m)) in
  step m = Ok (Running (mkMachine ret l' (Ptr p) env0 (trapsp m) extra0 (<[p := blk]> (heap m)) (rt m))).
Proof.
  intros Hpc Hx Hlt Hl Hs blk p. rewrite (step_instr m GRAB) by by rewrite Hpc. cbn [exec].
  unfold with_operand, operand. cbn [pc set_pc]. rewrite Hpc, Hrequired. cbn [rbind].
  unfold op_grab. cbn [extra_args set_pc sp env heap pc]. assert (extra_args m >=? required = false) as -> by lia.
  rewrite Hs, split_sp_app by lia. cbn [rbind alloc]. unfold pop_frame. cbn [sp set_sp].
  rewrite Long_Val_long, wrap31_small by done. cbn [rbind]. unfold continue, next. cbn [rbind].
  replace (e + 1 + 1 - 3) with (e - 1) by lia. done.
Qed.

(** C8: arguments in any grouping.  Let [v] be a function applied to [xs] so far
    ([xs] may be empty), entered with the arguments [ys].  If together they are
    enough, at most two instructions reach the body of the function with the stack,
    environment and number of extra arguments of the application of [f] to
    all the arguments at once, and the heap is untouched.  Otherwise the
    machine returns to the caller's frame with a fresh value that stands for [f]
    applied to all of them, the rest of the heap unchanged: so partial applications never
    nest and can be resumed in turn. *)
Theorem partial_application (v : value) (xs ys l : list value) (m : machine) :
  applied_to (heap m) v xs -> entering v xs ys l m ->
  (required < Z.of_nat (length (xs ++ ys)) ->
   exists n, steps n m = Ok (set_pc (e + 2) (set_env f (set_sp (xs ++ ys ++ l)
     (set_extra (Z.of_nat (length (xs ++ ys)) - 1 - required) m))))) /\
  (forall ret env0 extra0 l', Z.of_nat (length (xs ++ ys)) <= required ->
   l = Code ret :: env0 :: Val_long extra0 :: l' -> is_long extra0 ->
   exists n m' p, steps n m = Ok m' /\ heap m !! p = None /\ accu m' = Ptr p /\
     applied_to (heap m') (accu m') (xs ++ ys) /\ Code_val (heap m') (accu m') = Ok (e - 1) /\
     (forall q, q <> p -> heap m' !! q = heap m !! q) /\
     pc m' = ret /\ env m' = env0 /\ extra_args m' = extra0 /\ sp m' = l' /\
     trapsp m' = trapsp m /\ rt m' = rt m).
Proof.
  intros Ha Hent. destruct (restart_ok v xs ys l m Ha Hent) as [n Hn].
  destruct Hent as (_ & _ & _ & _ & Hy). set (m1 := set_pc e _) in Hn.
  assert (xs ++ ys <> []) as Hne by (by intros [_ ?]%app_eq_nil).
  split.
  - intros Hlt. exists (n + 1)%nat. rewrite (steps_app _ _ _ _ Hn). apply steps_1.
    rewrite grab_enough by (done || simpl; lia). done.
  - intros ret env0 extra0 l' Hle -> Hl.
    pose proof (grab_short m1 (xs ++ ys) ret env0 extra0 l') as Hg.
    rewrite <-app_assoc in Hg. specialize (Hg eq_refl eq_refl). simpl in Hg.
    exists (n + 1)%nat. eexists _, (fresh (dom (heap m))).
    split; [rewrite (steps_app _ _ _ _ Hn); apply steps_1, Hg; [lia|done|done]|].
    split; [apply lookup_fresh|]. simpl. split; [done|].
    split; [destruct (xs ++ ys); [done|]; eexists; split; [done|apply lookup_insert_eq]|].
    split; [unfold Code_val, Field, get_block; by rewrite lookup_insert_eq|].
    split; [intros q Hq; by apply lookup_insert_ne|]. done.
Qed.
End curry.

(** [fun x y -> x] applied to one argument, then to a second one. *)
Definition const_code : list Z :=
  [opcode RESTART; opcode GRAB; 1; opcode ACC0; opcode RETURN; 2; opcode STOP].
Definition prims0 : Z -> list value -> heap_t -> runtime -> result (primres * heap_t * runtime) :=
  fun _ _ _ _ => Fault.
Definition rt0 : runtime := mkRuntime Val_unit 600 false 0 Val_unit.
Definition const_heap : heap_t := {[0%nat := mkBlock Closure_tag (Fields [Code 1])]}.
Definition const_first : machine :=
  mkMachine 1 [Val_int 5; Code 6; Atom 0; Val_long 0] (Ptr 0) (Ptr 0) 0 0 const_heap rt0.
Definition const_second : machine :=
  mkMachine 0 [Val_int 8; Code 6; Atom 0; Val_long 0] (Ptr 1) (Ptr 1) 0 0
    (<[1%nat := mkBlock Closure_tag (Fields [Code 0; Ptr 0; Val_int 5])]> const_heap) rt0.
Lemma partial_application_witness :
  (exists n m' p, steps const_code 1200 0 prims0 n const_first = Ok m' /\ accu m' = Ptr p /\
    applied_to 1 (Ptr 0) (heap m') (accu m') [Val_int 5] /\ pc m' = 6 /\ sp m' = []) /\
  (exists n, steps const_code 1200 0 prims0 n const_second =
    Ok (set_pc 3 (set_env (Ptr 0) (set_sp [Val_int 5; Val_int 8; Code 6; Atom 0; Val_long 0]
         (set_extra 0 const_second))))).
Proof.
  split.
  - destruct (partial_application const_code 1200 0 prims0 1 1 (Ptr 0) eq_refl eq_refl eq_refl
      (Ptr 0) [] [Val_int 5] [Code 6; Atom 0; Val_long 0] const_first) as [_ Hshort].
    + reflexivity.
    + repeat split. discriminate.
    + destruct (Hshort 6 (Atom 0) 0 []) as (n & m' & p & Hn & _ & Ha & Hap & _ & _ & Hpc & _ & _ & Hsp & _).
      * vm_compute. discriminate.
      * reflexivity.
      * vm_compute. split; discriminate.
      * exists n, m', p. split; [exact Hn|]. split; [exact Ha|]. split; [exact Hap|]. split; [exact Hpc|exact Hsp].
  - destruct (partial_application const_code 1200 0 prims0 1 1 (Ptr 0) eq_refl eq_refl eq_refl
      (Ptr 1) [Val_int 5] [Val_int 8] [Code 6; Atom 0; Val_long 0] const_second) as [Henough _].
    + exists 1%nat. split; reflexivity.
    + repeat split. discriminate.
    + destruct Henough as [n Hn]; [vm_compute; reflexivity|]. exists n. exact Hn.
Defined.
Example const_runs : exists m,
  run const_code 1200 0 prims0 10 const_second = Ok (Stopped (Val_int 5) m).
Proof. eexists. vm_compute. reflexivity. Qed.

(** ** Specialised instructions *)

(** The general instructions, with operands, that a specialised instruction with the
    operands [ops] abbreviates. *)
Definition expand (i : instr) (ops : list Z) : option (list (instr * list Z)) :=
  match i, ops with
  | ACC0, [] => Some [(ACC, [0])] | ACC1, [] => Some [(ACC, [1])] | ACC2, [] => Some [(ACC, [2])]
  | ACC3, [] => Some [(ACC, [3])] | ACC4, [] => Some [(ACC, [4])] | ACC5, [] => Some [(ACC, [5])]
  | ACC6, [] => Some [(ACC, [6])] | ACC7, [] => Some [(ACC, [7])]
  | PUSHACC, [n] => Some [(PUSH, []); (ACC, [n])]
  | PUSHACC0, [] => Some [(PUSH, []); (ACC, [0])] | PUSHACC1, [] => Some [(PUSH, []); (ACC, [1])]
  | PUSHACC2, [] => Some [(PUSH, []); (ACC, [2])] | PUSHACC3, [] => Some [(PUSH, []); (ACC, [3])]
  | PUSHACC4, [] => Some [(PUSH, []); (ACC, [4])] | PUSHACC5, [] => Some [(PUSH, []); (ACC, [5])]
  | PUSHACC6, [] => Some [(PUSH, []); (ACC, [6])] | PUSHACC7, [] => Some [(PUSH, []); (ACC, [7])]
  | ENVACC1, [] => Some [(ENVACC, [1])] | ENVACC2, [] => Some [(ENVACC, [2])]
  | ENVACC3, [] => Some [(ENVACC, [3])] | ENVACC4, [] => Some [(ENVACC, [4])]
  | PUSHENVACC, [n] => Some [(PUSH, []); (ENVACC, [n])]
  | PUSHENVACC1, [] => Some [(PUSH, []); (ENVACC, [1])] | PUSHENVACC2, [] => Some [(PUSH, []); (ENVACC, [2])]
  | PUSHENVACC3, [] => Some [(PUSH, []); (ENVACC, [3])] | PUSHENVACC4, [] => Some [(PUSH, []); (ENVACC, [4])]
  | CONST0, [] => Some [(CONSTINT, [0])] | CONST1, [] => Some [(CONSTINT, [1])]
  | CONST2, [] => Some [(CONSTINT, [2])] | CONST3, [] => Some [(CONSTINT, [3])]
  | PUSHCONSTINT, [n] => Some [(PUSH, []); (CONSTINT, [n])]
  | PUSHCONST0, [] => Some [(PUSH, []); (CONSTINT, [0])] | PUSHCONST1, [] => Some [(PUSH, []); (CONSTINT, [1])]
  | PUSHCONST2, [] => Some [(PUSH, []); (CONSTINT, [2])] | PUSHCONST3, [] => Some [(PUSH, []); (CONSTINT, [3])]
  | ATOM0, [] => Some [(ATOM, [0])]
  | PUSHATOM, [t] => Some [(PUSH, []); (ATOM, [t])] | PUSHATOM0, [] => Some [(PUSH, []); (ATOM, [0])]
  | MAKEBLOCK1, [t] => Some [(MAKEBLOCK, [1; t])] | MAKEBLOCK2, [t] => Some [(MAKEBLOCK, [2; t])]
  | MAKEBLOCK3, [t] => Some [(MAKEBLOCK, [3; t])]
  | GETFIELD0, [] => Some [(GETFIELD, [0])] | GETFIELD1, [] => Some [(GETFIELD, [1])]
  | GETFIELD2, [] => Some [(GETFIELD, [2])] | GETFIELD3, [] => Some [(GETFIELD, [3])]
  | SETFIELD0, [] => Some [(SETFIELD, [0])] | SETFIELD1, [] => Some [(SETFIELD, [1])]
  | SETFIELD2, [] => Some [(SETFIELD, [2])] | SETFIELD3, [] => Some [(SETFIELD, [3])]
  | PUSHGETGLOBAL, [n] => Some [(PUSH, []); (GETGLOBAL, [n])]
  | GETGLOBALFIELD, [n; p] => Some [(GETGLOBAL, [n]); (GETFIELD, [p])]
  | PUSHGETGLOBALFIELD, [n; p] => Some [(PUSH, []); (GETGLOBAL, [n]); (GETFIELD, [p])]
  | APPTERM1, [s] => Some [(APPTERM, [1; s])] | APPTERM2, [s] => Some [(APPTERM, [2; s])]
  | APPTERM3, [s] => Some [(APPTERM, [3; s])]
  | _, _ => None
  end.
Definition jumps (i : instr) : bool :=
  match i with APPTERM1 | APPTERM2 | APPTERM3 => true | _ => false end.
(** The opcodes of a sequence of instructions, and code that holds given words. *)
Definition assemble (l : list (instr * list Z)) : list Z := mjoin ((fun x => opcode x.1 :: x.2) <$> l).
Fixpoint holds_at (code : list Z) (p : Z) (l : list Z) : Prop :=
  match l with [] => True | x :: l => fetch code p = Ok x /\ holds_at code (p + 1) l end.

Section abbreviations.
Variables (code1 code2 : list Z) (max_stack_size initial_depth : nat)
  (cprim : Z -> list value -> heap_t -> runtime -> result (primres * heap_t * runtime)).
Abbreviation step1 := (step code1 max_stack_size initial_depth cprim).
Abbreviation step2 := (step code2 max_stack_size initial_depth cprim).

(** The outcome of the [n + 1]st instruction, or of an earlier one that leaves the
    machine. *)
Fixpoint outcome_of (n : nat) (m : machine) : result outcome :=
  match n with
  | O => step2 m
  | S n => let* o := step2 m in match o with Running m => outcome_of n m | _ => Ok o end
  end.
(** The same outcome, up to the place in the program. *)
Definition alike (d : Z) (r1 r2 : result outcome) : Prop :=
  match r1, r2 with
  | Ok (Running m1), Ok (Running m2) => set_pc 0 m1 = set_pc 0 m2 /\ pc m2 = pc m1 + d
  | Ok (Stopped v1 m1), Ok (Stopped v2 m2) | Ok (Escaped v1 m1), Ok (Escaped v2 m2) => v1 = v2 /\ set_pc 0 m1 = set_pc 0 m2
  | Fault, Fault | Panic, Panic | Loop, Loop => True
  | _, _ => False
  end.

Lemma step_pc code m p i :
  pc m = p -> fetch code p = Ok (opcode i) ->
  Interp.step code max_stack_size initial_depth cprim m
  = exec code max_stack_size initial_depth cprim i (set_pc (p + 1) m).
Proof. intros <-. apply step_instr. Qed.
#[local] Arguments opcode : simpl never.
#[local] Arguments fetch : simpl never.

Create HintDb short.
#[local] Hint Unfold op_acc0 op_acc1 op_acc2 op_acc3 op_acc4 op_acc5 op_acc6 op_acc7 op_pushacc1 op_pushacc2 op_pushacc3
  op_pushacc4 op_pushacc5 op_pushacc6 op_pushacc7 op_envacc1 op_envacc2 op_envacc3 op_envacc4 op_pushenvacc1
  op_pushenvacc2 op_pushenvacc3 op_pushenvacc4 op_getfield0 op_getfield1 op_getfield2 op_getfield3 op_setfield0
  op_setfield1 op_setfield2 op_setfield3 op_const0 op_const1 op_const2 op_const3 op_pushconst0 op_pushconst1
  op_pushconst2 op_pushconst3 : short.
(** Compute both sides; where they access the same thing, split on the access. *)
Ltac compute_both :=
  repeat first
    [ progress cbn [Z.ltb Z.compare Z.to_nat lookup list_lookup of_ptr jumps rbind outcome_of length Nat.sub pc set_pc set_sp set_accu set_heap sp accu env heap rt]
    | match goal with H : fetch ?c ?p = Ok _ |- context [fetch ?c ?p] => rewrite H end
    | match goal with |- context [of_ptr ((?v :: ?l) !! ?k)] => change (of_ptr ((v :: l) !! k)) with (Ok v) end
    | match goal with |- context [Interp.step ?c _ _ _ ?m] =>
        erewrite (step_pc c m); [|reflexivity|eassumption]; cbn [exec] end
    | progress unfold with_operand, operand, op_constint, op_getglobal, op_getglobalfield, op_setfield,
        modify, continue, next, op_acc, op_envacc, op_getfield, op_push, push, pop, sp_at
    | progress autounfold with short
    | rewrite (proj1 (op_makeblock_unrolled _ _)) | rewrite (proj1 (proj2 (op_makeblock_unrolled _ _))) | rewrite (proj2 (proj2 (op_makeblock_unrolled _ _)))
    | rewrite (proj1 (op_appterm_unrolled _ _ _ _)) | rewrite (proj1 (proj2 (op_appterm_unrolled _ _ _ _))) | rewrite (proj2 (proj2 (op_appterm_unrolled _ _ _ _)))
    | progress unfold op_makeblock ].
Ltac split_access :=
  match goal with
  | |- context [rbind ?c _] =>
      lazymatch c with context [rbind _ _] => fail | context [match _ with _ => _ end] => fail | _ => destruct c end
  | |- context [match ?l with [] => _ | _ => _ end] => destruct l
  | |- context [let '(_, _) := ?a in _] => destruct a
  | |- context [if ?b then _ else _] => destruct b eqn:?
  end.

Lemma op_appterm_pc n s p q m :
  op_appterm max_stack_size initial_depth n s (set_pc p m)
  = op_appterm max_stack_size initial_depth n s (set_pc q m).
Proof.
  unfold op_appterm, enter. destruct (n >? s); [done|]. cbn [sp set_pc].
  by destruct (split_sp n (sp m)) as [[a l]| | |], (split_sp s (sp m)) as [[a' l']| | |].
Qed.
Lemma alike_refl r : alike 0 r r.
Proof. destruct r as [[]| | |]; simpl; try done. split; [done|lia]. Qed.

(** C27: specialised instructions.  Each short form ([ACC0] to [ACC7], the [PUSH...]
    combinations, [ENVACC1] to [ENVACC4], [CONST0] to [CONST3],
    [ATOM0], [MAKEBLOCK1] to [MAKEBLOCK3], the field accesses, the global
    accesses and [APPTERM1] to [APPTERM3]) does exactly what the general
    instructions it abbreviates do, wherever the two stand in a program: the same state up
    to the program counter, which moves past each of them, and the same
    faults and escaping exceptions. *)
Theorem short_forms (i : instr) (ops : list Z) (l : list (instr * list Z)) (p q : Z) (m : machine) :
  expand i ops = Some l -> holds_at code1 p (opcode i :: ops) -> holds_at code2 q (assemble l) ->
  alike (if jumps i then 0 else (q + Z.of_nat (length (assemble l))) - (p + 1 + Z.of_nat (length ops)))
    (step1 (set_pc p m)) (outcome_of (length l - 1) (set_pc q m)).
Proof.
  intros Hexp H1 H2.
  destruct i; try discriminate Hexp; destruct ops as [|n [|n' [|]]]; try discriminate Hexp;
    injection Hexp as <-; cbn [holds_at assemble fmap list_fmap mjoin list_join app fst snd] in H1, H2;
    destruct_and?; compute_both; repeat (split_access; compute_both);
    try exact I; try (split; [reflexivity|cbn; lia]).
  all: rewrite (op_appterm_pc _ _ (p + 1) (q + 1 + 1)); apply alike_refl.
Qed.
End abbreviations.

Lemma short_forms_witness :
  alike 3 (step [opcode PUSHACC1] 1200 0 prims0 (set_pc 0 const_first))
          (outcome_of [opcode STOP; opcode PUSH; opcode ACC; 1] 1200 0 prims0 1 (set_pc 1 const_first)) /\
  outcome_of [opcode STOP; opcode PUSH; opcode ACC; 1] 1200 0 prims0 1 (set_pc 1 const_first)
  = Ok (Running (set_pc 4 (set_accu (Val_int 5) (set_sp (Ptr 0 :: sp const_first) const_first)))).
Proof.
  split; [|vm_compute; reflexivity].
  apply (short_forms [opcode PUSHACC1] [opcode STOP; opcode PUSH; opcode ACC; 1] 1200 0 prims0
    PUSHACC1 [] [(PUSH, []); (ACC, [1])] 0 1 const_first); [reflexivity| |]; repeat split.
Defined.
