(* ===== verification/Intext.v ===== *)
(** * The compact external format: kernel/Byterun/intext.h, and string blocks

    The codes of the format that [Extern] writes and [Intern] reads, the bytes of a
    word, the string blocks of alloc.c and str.c, and the exceptions that the
    primitives raise. *)
From stdpp Require Import gmap list strings.
From S2P Require Import Prelude Mlvalues.

(** ** Codes *)

Definition Intext_magic_number : Z := 0x8495A6BE.
Definition PREFIX_SMALL_BLOCK : Z := 0x80.
Definition PREFIX_SMALL_INT : Z := 0x40.
Definition PREFIX_SMALL_STRING : Z := 0x20.
Definition CODE_INT8 : Z := 0x0.
Definition CODE_INT16 : Z := 0x1.
Definition CODE_INT32 : Z := 0x2.
Definition CODE_INT64 : Z := 0x3.
Definition CODE_SHARED8 : Z := 0x4.
Definition CODE_SHARED16 : Z := 0x5.
Definition CODE_SHARED32 : Z := 0x6.
Definition CODE_BLOCK32 : Z := 0x8.
Definition CODE_STRING8 : Z := 0x9.
Definition CODE_STRING32 : Z := 0xA.
Definition CODE_DOUBLE_BIG : Z := 0xB.
Definition CODE_DOUBLE_LITTLE : Z := 0xC.
Definition CODE_DOUBLE_ARRAY8_BIG : Z := 0xD.
Definition CODE_DOUBLE_ARRAY8_LITTLE : Z := 0xE.
Definition CODE_DOUBLE_ARRAY32_BIG : Z := 0xF.
Definition CODE_DOUBLE_ARRAY32_LITTLE : Z := 0x7.
Definition CODE_CODEPOINTER : Z := 0x10.
Definition CODE_INFIXPOINTER : Z := 0x11.
Definition INITIAL_EXTERN_BLOCK_SIZE : Z := 8192.
Definition INITIAL_EXTERN_TABLE_SIZE : Z := 2039.
Definition INITIAL_OFFSET_MAX : Z := 2 ^ 31.

(** The header of a block without its colour, and its parts. *)
Definition Make_header (wosize tag : Z) : Z := u32 (Z.shiftl wosize 10 + tag).
Definition Tag_hd (hd : Z) : Z := Z.land hd 0xFF.
Definition Wosize_hd (hd : Z) : Z := hd ⋙ 10.

(** [failwith] and [invalid_argument] with their message, and [raise_end_of_file]. *)
Inductive ml_exn := Failwith (msg : string) | Invalid_argument (msg : string) | End_of_file.

(** ** Words as bytes, the most significant first *)

Definition be16 (x : Z) : list Z := [u8 (Z.shiftr x 8); u8 x].
Definition be32 (x : Z) : list Z := [u8 (Z.shiftr x 24); u8 (Z.shiftr x 16); u8 (Z.shiftr x 8); u8 x].
(** [n] bytes at the front of the input. *)
Definition readblock (n : Z) (src : list Z) : result (list Z * list Z) :=
  if (0 <=? n) && (n <=? Z.of_nat (length src)) then Ok (take (Z.to_nat n) src, drop (Z.to_nat n) src) else Fault.
Definition read8u (src : list Z) : result (Z * list Z) :=
  match src with b :: src => Ok (b, src) | _ => Fault end.
Definition Sign_extend (b : Z) : Z := s8 b.
Definition read8s (src : list Z) : result (Z * list Z) :=
  match src with b :: src => Ok (Sign_extend b, src) | _ => Fault end.
Definition read16u (src : list Z) : result (Z * list Z) :=
  match src with a :: b :: src => Ok (Z.shiftl a 8 + b, src) | _ => Fault end.
Definition read16s (src : list Z) : result (Z * list Z) :=
  match src with a :: b :: src => Ok (Z.shiftl (Sign_extend a) 8 + b, src) | _ => Fault end.
Definition read32u (src : list Z) : result (Z * list Z) :=
  match src with
  | a :: b :: c :: d :: src => Ok (u32 (Z.shiftl a 24 + Z.shiftl b 16 + Z.shiftl c 8 + d), src)
  | _ => Fault
  end.
Definition read32s (src : list Z) : result (Z * list Z) :=
  match src with
  | a :: b :: c :: d :: src => Ok (s32 (Z.shiftl (Sign_extend a) 24 + Z.shiftl b 16 + Z.shiftl c 8 + d), src)
  | _ => Fault
  end.

(** ** String blocks (alloc.c, str.c)

    The last byte of a string block gives the number of bytes after the string, less one. *)

Definition string_length (h : heap_t) (v : value) : result Z :=
  let* n := Bosize_val h v in
  let temp := u32 (n - 1) in
  let* pad := Byte_u h v temp in
  Ok (u32 (temp - s8 pad)).
(** [alloc_string(len)]: the last word of the block is cleared and its last byte set;
    the words before it hold what the memory held, in the model 0. *)
Definition string_wosize (len : Z) : Z := (u32 (len + 4)) / 4.
Definition alloc_string (len : Z) (h : heap_t) : result (value * heap_t) :=
  let wosize := string_wosize len in
  if wosize <? 1 then Fault
  else
    let offset_index := 4 * wosize - 1 in
    let junk := replicate (Z.to_nat (4 * (wosize - 1))) 0 in
    Ok (alloc (mkBlock String_tag (Bytes (junk ++ [0; 0; 0; u8 (offset_index - len)]))) h).
(** [bcopy(s, String_val(v), length s)] *)
Definition blit_string (v : value) (s : list Z) (h : heap_t) : result heap_t :=
  match v with
  | Ptr b =>
      let* blk := of_ptr (h !! b) in
      match data blk with
      | Bytes l =>
          if (length s <=? length l)%nat
          then Ok (<[b := mkBlock (tag blk) (Bytes (s ++ drop (length s) l))]> h) else Fault
      | Fields _ => Fault
      end
  | _ => Fault
  end.
(** The contents of a string block that holds [s]. *)
Definition string_bytes (s : list Z) : list Z :=
  let n := Z.to_nat (string_wosize (Z.of_nat (length s))) in
  s ++ replicate (4 * n - 1 - length s) 0 ++ [Z.of_nat (4 * n - 1 - length s)].

(** ** Lemmas *)

Definition is_byte (b : Z) : Prop := 0 <= b < 256.

Lemma read8u_app b r : read8u ([b] ++ r) = Ok (b, r).
Proof. done. Qed.
Lemma read8s_app n r : - 2 ^ 7 <= n < 2 ^ 7 -> read8s ([u8 n] ++ r) = Ok (n, r).
Proof. intros Hn. simpl. unfold Sign_extend. do 2 f_equal. unfold s8, u8. zlia. Qed.
Lemma read16u_app n r : 0 <= n < 2 ^ 16 -> read16u (be16 n ++ r) = Ok (n, r).
Proof. intros Hn. simpl. do 2 f_equal. rewrite shiftl_mul, shiftr_div by lia. unfold u8. zlia. Qed.
Lemma read16s_app n r : - 2 ^ 15 <= n < 2 ^ 15 -> read16s (be16 n ++ r) = Ok (n, r).
Proof.
  intros Hn. simpl. unfold Sign_extend. do 2 f_equal. rewrite shiftl_mul, shiftr_div by lia. unfold s8, u8. zlia.
Qed.
Lemma be32_value n : Z.shiftl (u8 (n ⋙ 24)) 24 + Z.shiftl (u8 (n ⋙ 16)) 16 + Z.shiftl (u8 (n ⋙ 8)) 8 + u8 n = u32 n.
Proof. rewrite !shiftl_mul, !shiftr_div by lia. unfold u8, u32. zlia. Qed.
Lemma read32u_app n r : is_u32 n -> read32u (be32 n ++ r) = Ok (n, r).
Proof.
  intros Hn. simpl. rewrite be32_value. do 2 f_equal. rewrite (u32_small (u32 n)) by apply u32_range. by apply u32_small.
Qed.
Lemma read32s_app n r : is_s32 n -> read32s (be32 n ++ r) = Ok (n, r).
Proof.
  intros Hn. simpl. unfold Sign_extend. do 2 f_equal. rewrite !shiftl_mul, !shiftr_div by lia.
  assert (s8 (u8 (n / 2 ^ 24)) = n / 2 ^ 24) as -> by (unfold s8, u8; unfold_words; zlia).
  assert (n / 2 ^ 24 * 2 ^ 24 + u8 (n / 2 ^ 16) * 2 ^ 16 + u8 (n / 2 ^ 8) * 2 ^ 8 + u8 n = n) as ->
    by (change (2 ^ 16) with (2 ^ 8 * 2 ^ 8); change (2 ^ 24) with (2 ^ 8 * 2 ^ 8 * 2 ^ 8);
        rewrite <-!Zdiv_Zdiv by lia; unfold u8; zlia).
  by apply s32_small.
Qed.
Lemma readblock_app s r : readblock (Z.of_nat (length s)) (s ++ r) = Ok (s, r).
Proof.
  unfold readblock. rewrite length_app, Nat2Z.id.
  assert ((0 <=? Z.of_nat (length s)) && (Z.of_nat (length s) <=? Z.of_nat (length s + length r)) = true) as ->
    by (apply andb_true_intro; split; apply Z.leb_le; lia).
  by rewrite take_app_length, drop_app_length.
Qed.
Lemma string_wosize_eq n : 0 <= n < 2 ^ 31 -> string_wosize n = (n + 4) / 4.
Proof. intros Hn. unfold string_wosize. by rewrite u32_small by (unfold is_u32; lia). Qed.
Lemma length_string_bytes s :
  Z.of_nat (length s) < 2 ^ 31 -> Z.of_nat (length (string_bytes s)) = 4 * string_wosize (Z.of_nat (length s)).
Proof.
  intros Hs. unfold string_bytes. rewrite !length_app, length_replicate, string_wosize_eq by lia. simpl.
  assert (4 * ((Z.of_nat (length s) + 4) / 4) - 4 <= Z.of_nat (length s) < 4 * ((Z.of_nat (length s) + 4) / 4)) by zlia. lia.
Qed.
Lemma string_length_ok h b str :
  h !! b = Some (mkBlock String_tag (Bytes (string_bytes str))) -> Z.of_nat (length str) < 2 ^ 24 ->
  string_length h (Ptr b) = Ok (Z.of_nat (length str)).
Proof.
  intros Hb Hl. pose proof (length_string_bytes str ltac:(lia)) as Hlen. rewrite string_wosize_eq in Hlen by lia.
  set (w := (Z.of_nat (length str) + 4) / 4) in *.
  assert (4 * w - 4 <= Z.of_nat (length str) < 4 * w) as Hw by (subst w; zlia).
  unfold string_length, Bosize_val, Wosize_val, Byte_u. cbn [get_block]. rewrite Hb. cbn [of_ptr rbind data size_of].
  rewrite Hlen, (Z.mul_comm 4 w), Z.div_mul, (Z.mul_comm 4 w), u32_small by (done || unfold is_u32; lia).
  destruct (Z.ltb_spec (w * 4 - 1) 0); [lia|].
  assert (string_bytes str !! Z.to_nat (w * 4 - 1) = Some (w * 4 - 1 - Z.of_nat (length str))) as ->.
  { unfold string_bytes. rewrite string_wosize_eq by lia. fold w. rewrite app_assoc, lookup_app_r; rewrite length_app, length_replicate; [|lia].
    replace (Z.to_nat (w * 4 - 1) - _)%nat with 0%nat by lia. simpl. f_equal. lia. }
  cbn [of_ptr rbind]. f_equal. unfold s8. rewrite (Z.mod_small (_ + 2 ^ 7)) by lia. rewrite u32_small by (unfold is_u32; lia). lia.
Qed.
Lemma string_bytes_inj s1 s2 :
  Z.of_nat (length s1) < 2 ^ 24 -> Z.of_nat (length s2) < 2 ^ 24 -> string_bytes s1 = string_bytes s2 -> s1 = s2.
Proof.
  intros H1 H2 E. pose proof (string_length_ok {[0%nat := mkBlock String_tag (Bytes (string_bytes s1))]} 0 s1) as L1.
  pose proof (string_length_ok {[0%nat := mkBlock String_tag (Bytes (string_bytes s2))]} 0 s2) as L2.
  rewrite E in L1. rewrite L1 in L2 by (done || apply lookup_singleton_eq). specialize (L2 (lookup_singleton_eq _ _) H2).
  injection L2 as L2. assert (length s1 = length s2) as Hl by lia.
  unfold string_bytes in E. apply (f_equal (take (length s1))) in E. rewrite take_app_length in E.
  by rewrite Hl, take_app_length in E.
Qed.
