(* ===== verification/Format.v ===== *)
(** * The compact external format as a relation

    [enc] is the format of extern.c and intern.c without the machinery of either
    side: the bytes of a list of values, given the blocks that were written before
    them. *)
From stdpp Require Import gmap list strings.
From S2P Require Import Prelude Mlvalues Intext.

(** ** The format *)

Definition int_bytes (n : Z) : list Z :=
  if (n >=? 0) && (n <? 0x40) then [PREFIX_SMALL_INT + n]
  else if (n >=? - 2 ^ 7) && (n <? 2 ^ 7) then [CODE_INT8; u8 n]
  else if (n >=? - 2 ^ 15) && (n <? 2 ^ 15) then CODE_INT16 :: be16 n
  else CODE_INT32 :: be32 n.
Definition shared_bytes (d : Z) : list Z :=
  if d <? 0x100 then [CODE_SHARED8; d]
  else if d <? 0x10000 then CODE_SHARED16 :: be16 d else CODE_SHARED32 :: be32 d.
Definition block_head (tag sz : Z) : list Z :=
  if (tag <? 16) && (sz <? 8) then [PREFIX_SMALL_BLOCK + tag + Z.shiftl sz 4]
  else CODE_BLOCK32 :: be32 (Make_header sz tag).
Definition string_head (len : Z) : list Z :=
  if len <? 0x20 then [PREFIX_SMALL_STRING + len]
  else if len <? 0x100 then [CODE_STRING8; len] else CODE_STRING32 :: be32 len.

(** A tag of blocks whose fields are written one by one. *)
Definition plain_tag (t : Z) : Prop := 0 <= t < 249 /\ t <> Object_tag \/ t = Closure_tag.
(** The words of the blocks [vis] with their headers. *)
Definition block_words (h : heap_t) (b : nat) : Z :=
  match h !! b with Some blk => 1 + size_of (data blk) | None => 0 end.
Definition words (h : heap_t) (vis : list nat) : Z := foldr (fun b n => block_words h b + n) 0 vis.

Section marshal.
Variables (h : heap_t) (cks : list Z).

(** [enc vis l bs vis']: the values [l] are written as [bs] when the blocks [vis] have
    been written in this order before; [vis'] have been written in the end. *)
Inductive enc : list nat -> list value -> list Z -> list nat -> Prop :=
  | enc_nil vis : enc vis [] [] vis
  | enc_int vis n l bs vis' :
      is_long n -> enc vis l bs vis' -> enc vis (Val_long n :: l) (int_bytes n ++ bs) vis'
  | enc_atom vis t l bs vis' :
      0 <= t < 256 -> enc vis l bs vis' -> enc vis (Atom t :: l) (block_head t 0 ++ bs) vis'
  | enc_code vis p l bs vis' :
      is_u32 (4 * p) -> enc vis l bs vis' ->
      enc vis (Code p :: l) ((CODE_CODEPOINTER :: be32 (4 * p)) ++ cks ++ bs) vis'
  | enc_shared vis i b l bs vis' :
      vis !! i = Some b -> Z.of_nat (length vis) < 2 ^ 32 -> enc vis l bs vis' ->
      enc vis (Ptr b :: l) (shared_bytes (Z.of_nat (length vis - i)) ++ bs) vis'
  | enc_string vis b s l bs vis' :
      b ∉ vis -> h !! b = Some (mkBlock String_tag (Bytes (string_bytes s))) -> Z.of_nat (length s) < 2 ^ 31 ->
      enc (vis ++ [b]) l bs vis' ->
      enc vis (Ptr b :: l) (string_head (Z.of_nat (length s)) ++ s ++ bs) vis'
  | enc_double vis b d l bs vis' :
      b ∉ vis -> h !! b = Some (mkBlock Double_tag (Bytes d)) -> length d = 8%nat ->
      enc (vis ++ [b]) l bs vis' ->
      enc vis (Ptr b :: l) ([CODE_DOUBLE_LITTLE] ++ d ++ bs) vis'
  | enc_block vis b t fs bs1 vis1 l bs2 vis' :
      b ∉ vis -> h !! b = Some (mkBlock t (Fields fs)) -> fs <> [] -> plain_tag t ->
      Z.of_nat (length fs) <= Max_wosize ->
      enc (vis ++ [b]) fs bs1 vis1 -> enc vis1 l bs2 vis' ->
      enc vis (Ptr b :: l) (block_head t (Z.of_nat (length fs)) ++ bs1 ++ bs2) vis'.

Lemma enc_prefix vis l bs vis' : enc vis l bs vis' -> exists d, vis' = vis ++ d.
Proof.
  induction 1; repeat match goal with H : exists _, _ = _ |- _ => destruct H as [? H]; rewrite H end;
    rewrite <-?app_assoc; try by eexists.
  exists []. by rewrite app_nil_r.
Qed.
Lemma words_app vis d : words h (vis ++ d) = words h vis + words h d.
Proof. induction vis as [|b vis IH]; simpl; lia. Qed.
Lemma size_of_nonneg c : 0 <= size_of c.
Proof. destruct c; simpl; [lia|apply Z.div_pos; lia]. Qed.
Lemma block_words_nonneg b : 0 <= block_words h b.
Proof. unfold block_words. destruct (h !! b) as [blk|]; [pose proof (size_of_nonneg (data blk))|]; lia. Qed.
Lemma words_nonneg vis : 0 <= words h vis.
Proof. induction vis as [|b vis IH]; simpl; [done|]. pose proof (block_words_nonneg b). lia. Qed.
Lemma enc_words vis l bs vis' : enc vis l bs vis' -> words h vis <= words h vis' /\ (length vis <= length vis')%nat.
Proof. intros [d ->]%enc_prefix. rewrite words_app, length_app. pose proof (words_nonneg d). lia. Qed.
End marshal.
