(* ===== verification/Extern.v ===== *)
(** * Structured output: kernel/Byterun/extern.c

    [extern_value] writes a value in the compact external format: the output
    block and its growth, the hash table of the objects already written, the
    recursive traversal and the header.  Where the collector has placed a block,
    which decides its place in the hash table, is a parameter; so are the size and
    the checksum of the code.  Recursion is on a fuel that bounds the depth of
    the calls. *)
From stdpp Require Import gmap list strings.
From S2P Require Import Prelude Mlvalues Intext.

Record extern_obj := mkObj { ofs : Z; obj : value }.
(** The variables of the file.  [block] is the whole output block, from
    [extern_block] to [extern_limit]; [ptr] is [extern_ptr - extern_block]. *)
Record estate := mkExt {
  initial_ofs : Z; extern_table : option (list extern_obj); extern_table_size : Z; obj_counter : Z;
  block : list Z; ptr : Z; malloced : bool; size_32 : Z; size_64 : Z;
  ignore_sharing : bool; closures : bool }.

Definition set_init x s := mkExt x (extern_table s) (extern_table_size s) (obj_counter s) (block s) (ptr s) (malloced s) (size_32 s) (size_64 s) (ignore_sharing s) (closures s).
Definition set_table x s := mkExt (initial_ofs s) x (extern_table_size s) (obj_counter s) (block s) (ptr s) (malloced s) (size_32 s) (size_64 s) (ignore_sharing s) (closures s).
Definition set_tsize x s := mkExt (initial_ofs s) (extern_table s) x (obj_counter s) (block s) (ptr s) (malloced s) (size_32 s) (size_64 s) (ignore_sharing s) (closures s).
Definition set_counter x s := mkExt (initial_ofs s) (extern_table s) (extern_table_size s) x (block s) (ptr s) (malloced s) (size_32 s) (size_64 s) (ignore_sharing s) (closures s).
Definition set_block x s := mkExt (initial_ofs s) (extern_table s) (extern_table_size s) (obj_counter s) x (ptr s) (malloced s) (size_32 s) (size_64 s) (ignore_sharing s) (closures s).
Definition set_ptr x s := mkExt (initial_ofs s) (extern_table s) (extern_table_size s) (obj_counter s) (block s) x (malloced s) (size_32 s) (size_64 s) (ignore_sharing s) (closures s).
Definition set_sizes x y s := mkExt (initial_ofs s) (extern_table s) (extern_table_size s) (obj_counter s) (block s) (ptr s) (malloced s) x y (ignore_sharing s) (closures s).
Definition set_flags x y s := mkExt (initial_ofs s) (extern_table s) (extern_table_size s) (obj_counter s) (block s) (ptr s) (malloced s) (size_32 s) (size_64 s) x y.

(** A function of the file returns, or raises an exception of OCaml. *)
Inductive eresult := Done (s : estate) | Raise (e : ml_exn) (s : estate).
Definition ebind (c : result eresult) (f : estate -> result eresult) : result eresult :=
  let* r := c in match r with Done s => f s | Raise e s => Ok (Raise e s) end.
Notation "'let+' s := c 'in' k" := (ebind c (fun s => k)) (at level 10, s name, k at level 200) : result_scope.
Definition ret (s : estate) : result eresult := Ok (Done s).

Section extern.
Variables (addr : nat -> Z) (code_size : Z) (code_checksum : list Z).

(** ** The table of the objects seen *)

(** [Hash(v)] for the address of a block. *)
Definition address (v : value) : Z := match v with Ptr b => u32 (addr b) | _ => 0 end.
Definition Hash (size : Z) (v : value) : Z := (address v ⋙ 2) mod size.
Definition alloc_extern_table (s : estate) : estate :=
  set_table (Some (replicate (Z.to_nat (extern_table_size s)) (mkObj 0 (Int 0)))) s.
(** [while (table[h].ofs >= initial_ofs) { h++; if (h >= size) h = 0; }], which
    stops early at an entry for [v] when there is one to look for. *)
Fixpoint probe (fuel : nat) (init size : Z) (t : list extern_obj) (v : option value) (h : Z) : result Z :=
  match fuel with
  | O => Loop
  | S fuel =>
      let* e := of_ptr (t !! Z.to_nat h) in
      if ofs e >=? init then
        if bool_decide (v = Some (obj e)) then Ok h
        else
          let h := h + 1 in
          probe fuel init size t v (if h >=? size then 0 else h)
      else Ok h
  end.
Definition probe_fuel (t : list extern_obj) : nat := S (length t).
Definition rehash (init size : Z) (t : list extern_obj) (e : extern_obj) : result (list extern_obj) :=
  if ofs e >=? init then
    let* h := probe (probe_fuel t) init size t None (Hash size (obj e)) in
    Ok (<[Z.to_nat h := e]> t)
  else Ok t.
Fixpoint rehash_all (init size : Z) (old t : list extern_obj) : result (list extern_obj) :=
  match old with
  | [] => Ok t
  | e :: old => let* t := rehash init size t e in rehash_all init size old t
  end.
Definition resize_extern_table (s : estate) : result estate :=
  let* oldtable := of_ptr (extern_table s) in
  let s := alloc_extern_table (set_tsize (u32 (2 * extern_table_size s)) s) in
  let* t := of_ptr (extern_table s) in
  let* t := rehash_all (initial_ofs s) (extern_table_size s) oldtable t in
  Ok (set_table (Some t) s).
Definition free_extern_table (s : estate) : estate :=
  if (extern_table_size s >? INITIAL_EXTERN_TABLE_SIZE) || (initial_ofs s >=? INITIAL_OFFSET_MAX)
  then set_table None s else s.

(** ** The output block *)

(** [while (size <= reqd_size) size *= 2] *)
Fixpoint grow (fuel : nat) (size reqd_size : Z) : result Z :=
  match fuel with
  | O => Loop
  | S fuel => if size <=? reqd_size then grow fuel (s32 (size * 2)) reqd_size else Ok size
  end.
Definition resize_extern_block (required : Z) (s : estate) : result eresult :=
  if negb (malloced s) then
    let s := free_extern_table (set_init (u32 (initial_ofs s + obj_counter s)) s) in
    Ok (Raise (Failwith "Marshal.to_buffer: buffer overflow") s)
  else
    let size := Z.of_nat (length (block s)) in
    let* size' := grow 64 size (s32 (ptr s + required)) in
    ret (set_block (block s ++ replicate (Z.to_nat (size' - size)) 0) s).
(** Stores at [extern_ptr], which is left after them. *)
Definition store (bs : list Z) (s : estate) : result eresult :=
  let n := Z.to_nat (ptr s) in
  if (n + length bs <=? length (block s))%nat
  then ret (set_ptr (ptr s + Z.of_nat (length bs)) (set_block (take n (block s) ++ bs ++ drop (n + length bs) (block s)) s))
  else Fault.
Definition reserve (n : Z) (s : estate) : result eresult :=
  if ptr s + n >? Z.of_nat (length (block s)) then resize_extern_block n s else ret s.
Definition Write (c : Z) (s : estate) : result eresult := let+ s := reserve 1 s in store [u8 c] s.
Definition writeblock (data : list Z) (s : estate) : result eresult :=
  let+ s := reserve (Z.of_nat (length data)) s in store data s.
Definition writecode8 (code val : Z) (s : estate) : result eresult :=
  let+ s := reserve 2 s in store (u8 code :: [u8 val]) s.
Definition writecode16 (code val : Z) (s : estate) : result eresult :=
  let+ s := reserve 3 s in store (u8 code :: be16 val) s.
Definition write32 (val : Z) (s : estate) : result eresult := let+ s := reserve 4 s in store (be32 val) s.
Definition writecode32 (code val : Z) (s : estate) : result eresult :=
  let+ s := reserve 5 s in store (u8 code :: be32 val) s.

(** ** The traversal *)

Definition extern_invalid_argument (msg : string) (s : estate) : result eresult :=
  Ok (Raise (Invalid_argument msg) (free_extern_table (set_init (u32 (initial_ofs s + obj_counter s)) s))).
Definition extern_int (n : Z) (s : estate) : result eresult :=
  if (n >=? 0) && (n <? 0x40) then Write (PREFIX_SMALL_INT + n) s
  else if (n >=? - 2 ^ 7) && (n <? 2 ^ 7) then writecode8 CODE_INT8 n s
  else if (n >=? - 2 ^ 15) && (n <? 2 ^ 15) then writecode16 CODE_INT16 n s
  else writecode32 CODE_INT32 n s.
Definition extern_shared (d : Z) (s : estate) : result eresult :=
  if d <? 0x100 then writecode8 CODE_SHARED8 d s
  else if d <? 0x10000 then writecode16 CODE_SHARED16 d s
  else writecode32 CODE_SHARED32 d s.
Definition add_sizes (x y : Z) (s : estate) : estate :=
  set_sizes (u32 (size_32 s + x)) (u32 (size_64 s + y)) s.
(** Look [v] up and record it: the distance to its first occurrence, or nothing. *)
Definition check_seen (v : value) (s : estate) : result (option Z * estate) :=
  if ignore_sharing s then Ok (None, s)
  else
    let* s := if u32 (2 * obj_counter s) >=? extern_table_size s then resize_extern_table s else Ok s in
    let* t := of_ptr (extern_table s) in
    let* h := probe (probe_fuel t) (initial_ofs s) (extern_table_size s) t (Some v) (Hash (extern_table_size s) v) in
    let* e := of_ptr (t !! Z.to_nat h) in
    if ofs e >=? initial_ofs s then Ok (Some (u32 (obj_counter s - (ofs e - initial_ofs s))), s)
    else
      let t := <[Z.to_nat h := mkObj (u32 (initial_ofs s + obj_counter s)) v]> t in
      Ok (None, set_counter (u32 (obj_counter s + 1)) (set_table (Some t) s)).
Definition extern_string (h : heap_t) (v : value) (bs : list Z) (s : estate) : result eresult :=
  let* len := string_length h v in
  let+ s :=
    if len <? 0x20 then Write (PREFIX_SMALL_STRING + len) s
    else if len <? 0x100 then writecode8 CODE_STRING8 len s
    else writecode32 CODE_STRING32 len s in
  let* (str, _) := readblock len bs in
  let+ s := writeblock str s in
  ret (add_sizes (1 + u32 (len + 4) / 4) (1 + u32 (len + 8) / 8) s).
Definition extern_double (bs : list Z) (s : estate) : result eresult :=
  let+ s := Write CODE_DOUBLE_LITTLE s in
  let* (d, _) := readblock 8 bs in
  let+ s := writeblock d s in
  ret (add_sizes (1 + 2) (1 + 1) s).
Definition extern_double_array (bs : list Z) (sz : Z) (s : estate) : result eresult :=
  let nfloats := sz / Double_wosize in
  let+ s :=
    if nfloats <? 0x100 then writecode8 CODE_DOUBLE_ARRAY8_LITTLE nfloats s
    else writecode32 CODE_DOUBLE_ARRAY32_LITTLE nfloats s in
  let* (d, _) := readblock (4 * sz) bs in
  let+ s := writeblock d s in
  ret (add_sizes (1 + nfloats * 2) (1 + nfloats) s).
(** The fields of a block, in order. *)
Fixpoint each (f : value -> estate -> result eresult) (l : list value) (s : estate) : result eresult :=
  match l with
  | [] => ret s
  | v :: l => let+ s := f v s in each f l s
  end.
Fixpoint extern_rec (fuel : nat) (h : heap_t) (v : value) (s : estate) : result eresult :=
  match fuel with
  | O => Loop
  | S fuel =>
      if Is_long v then let* n := Long_val v in extern_int n s
      else
        match v with
        | Ptr _ | Atom _ =>
            let* b := get_block h v in
            let t := tag b in
            let sz := size_of (data b) in
            if sz =? 0 then
              if t <? 16 then Write (PREFIX_SMALL_BLOCK + t) s
              else writecode32 CODE_BLOCK32 (Make_header sz t) s
            else
              let* (d, s) := check_seen v s in
              match d with
              | Some d => extern_shared d s
              | None =>
                  if t =? String_tag then
                    match data b with Bytes bs => extern_string h v bs s | Fields _ => Fault end
                  else if t =? Double_tag then
                    match data b with Bytes bs => extern_double bs s | Fields _ => Fault end
                  else if t =? Double_array_tag then
                    match data b with Bytes bs => extern_double_array bs sz s | Fields _ => Fault end
                  else if (t =? Abstract_tag) || (t =? Final_tag) then
                    extern_invalid_argument "output_value: abstract value" s
                  else if t =? Infix_tag then Fault
                  else if t =? Object_tag then
                    extern_invalid_argument "output_value: object value" s
                  else
                    let+ s :=
                      if (t <? 16) && (sz <? 8) then Write (PREFIX_SMALL_BLOCK + t + Z.shiftl sz 4) s
                      else writecode32 CODE_BLOCK32 (Make_header sz t) s in
                    let s := add_sizes (1 + sz) (1 + sz) s in
                    match data b with Fields l => each (extern_rec fuel h) l s | Bytes _ => Fault end
              end
        | Code p =>
            if (0 <=? p) && (4 * p <? code_size) then
              if negb (closures s) then extern_invalid_argument "output_value: functional value" s
              else
                let+ s := writecode32 CODE_CODEPOINTER (4 * p) s in
                writeblock code_checksum s
            else extern_invalid_argument "output_value: abstract value" s
        | _ => extern_invalid_argument "output_value: abstract value" s
        end
  end.

(** ** The entry points *)

Definition alloc_extern_block (s : estate) : estate :=
  mkExt (initial_ofs s) (extern_table s) (extern_table_size s) (obj_counter s)
    (replicate (Z.to_nat INITIAL_EXTERN_BLOCK_SIZE) 0) 0 true (size_32 s) (size_64 s)
    (ignore_sharing s) (closures s).
Definition NO_SHARING : Z := 1.
Definition CLOSURES : Z := 2.
Definition extern_flags : list Z := [NO_SHARING; CLOSURES].
(** [convert_flag_list] of alloc.c: the union of the flags of an OCaml list. *)
Fixpoint convert_flag_list (fuel : nat) (h : heap_t) (l : value) (flags : list Z) (res : Z) : result Z :=
  if bool_decide (l = Val_int 0) then Ok res
  else
    match fuel with
    | O => Loop
    | S fuel =>
        let* f := Field h l 0 in
        let* i := Long_val f in
        let* x := of_ptr (if i <? 0 then None else flags !! Z.to_nat i) in
        let* l := Field h l 1 in
        convert_flag_list fuel h l flags (Z.lor res x)
    end.
(** [extern_value]: the length of the result, which starts at [extern_block]. *)
Definition extern_value (fuel : nat) (h : heap_t) (v flags : value) (s : estate) : result (option Z * eresult) :=
  let* fl := convert_flag_list fuel h flags extern_flags 0 in
  let s := set_flags (negb (Z.land fl NO_SHARING =? 0)) (negb (Z.land fl CLOSURES =? 0)) s in
  let s := set_tsize INITIAL_EXTERN_TABLE_SIZE s in
  let s := match extern_table s with
           | None => set_init 1 (alloc_extern_table s)
           | Some _ => s
           end in
  let s := set_sizes 0 0 (set_counter 0 s) in
  let* r :=
    let+ s := write32 Intext_magic_number s in
    let s := set_ptr (ptr s + 4 * 4) s in
    let+ s := extern_rec fuel h v s in
    ret (free_extern_table (set_init (u32 (initial_ofs s + obj_counter s)) s)) in
  match r with
  | Raise e s => Ok (None, Raise e s)
  | Done s =>
      let res_len := ptr s in
      let s := set_ptr 4 s in
      let* r :=
        let+ s := write32 (res_len - 5 * 4) s in
        let+ s := write32 (obj_counter s) s in
        let+ s := write32 (size_32 s) s in
        write32 (size_64 s) s in
      Ok (match r with Done _ => Some res_len | Raise _ _ => None end, r)
  end.
(** [output_val]: the bytes that go to the channel, or the exception. *)
Definition output_val (fuel : nat) (h : heap_t) (v flags : value) (s : estate)
    : result ((list Z + ml_exn) * estate) :=
  let* (len, r) := extern_value fuel h v flags (alloc_extern_block s) in
  match len, r with
  | Some len, Done s => let* (bs, _) := readblock len (block s) in Ok (inl bs, s)
  | _, Raise e s => Ok (inr e, s)
  | None, Done _ => Fault
  end.
Definition output_value_to_string (fuel : nat) (h : heap_t) (v flags : value) (s : estate)
    : result ((value + ml_exn) * heap_t * estate) :=
  let* (len, r) := extern_value fuel h v flags (alloc_extern_block s) in
  match len, r with
  | Some len, Done s =>
      let* (res, h) := alloc_string len h in
      let* (bs, _) := readblock len (block s) in
      let* h := blit_string res bs h in
      Ok (inl res, h, s)
  | _, Raise e s => Ok (inr e, h, s)
  | None, Done _ => Fault
  end.
(** [output_value_to_buffer] writes the bytes of [buf] from [ofs] on, at most [len] of them. *)
Definition output_value_to_buffer (fuel : nat) (h : heap_t) (buf : value) (ofs len : Z) (v flags : value) (s : estate)
    : result ((value + ml_exn) * heap_t * estate) :=
  let* b := get_block h buf in
  match data b with
  | Fields _ => Fault
  | Bytes bs =>
      let* (pre, bs) := readblock ofs bs in
      let* (mid, post) := readblock len bs in
      let s := mkExt (initial_ofs s) (extern_table s) (extern_table_size s) (obj_counter s) mid 0 false
                 (size_32 s) (size_64 s) (ignore_sharing s) (closures s) in
      let* (len_res, r) := extern_value fuel h v flags s in
      let s := match r with Done s | Raise _ s => s end in
      let* h := blit_string buf (pre ++ block s ++ post) h in
      match len_res, r with
      | Some len_res, Done s => Ok (inl (Val_long len_res), h, s)
      | _, Raise e s => Ok (inr e, h, s)
      | None, Done _ => Fault
      end
  end.
End extern.
