(* ===== verification/ExternTable.v ===== *)
(** * The table of [Extern]: open addressing implements a finite map

    [rep t ps] says that the live entries of the table [t] are the pairs [ps] of a
    block and its offset, and that linear probing finds each of them.  Looking
    up, recording and doubling the table are the operations on [ps]. *)
From stdpp Require Import gmap list strings.
From S2P Require Import Prelude Mlvalues Intext Extern.

Section table.
Variables (addr : nat -> Z) (init : Z).
Abbreviation Hash := (Hash addr).

Definition live (e : extern_obj) : Prop := init <= ofs e.
#[local] Instance live_dec e : Decision (live e).
Proof. unfold live. apply _. Defined.
Definition entry (p : nat * Z) : extern_obj := mkObj p.2 (Ptr p.1).
(** The slot after [k] steps of probing from the place of [b]. *)
Definition at_step (t : list extern_obj) (h k : nat) : nat := ((h + k) mod length t)%nat.
Definition place (t : list extern_obj) (b : nat) : nat := Z.to_nat (Hash (Z.of_nat (length t)) (Ptr b)).
Definition live_at (t : list extern_obj) (s : nat) : Prop := exists e, t !! s = Some e /\ live e.
Definition dead_at (t : list extern_obj) (s : nat) : Prop := exists e, t !! s = Some e /\ ~ live e.

Record rep (t : list extern_obj) (ps : list (nat * Z)) : Prop := {
  rep_live : filter live t ≡ₚ entry <$> ps;
  rep_nodup : NoDup ps.*1;
  rep_path b o : (b, o) ∈ ps -> exists k, t !! at_step t (place t b) k = Some (mkObj o (Ptr b)) /\
    forall j, (j < k)%nat -> live_at t (at_step t (place t b) j) }.

Lemma rep_perm t ps qs : ps ≡ₚ qs -> rep t ps -> rep t qs.
Proof.
  intros Hp [Hl Hn Hpath]. split.
  - by rewrite <-Hp.
  - by rewrite <-Hp.
  - intros b o Hin. apply Hpath. by rewrite Hp.
Qed.
Lemma rep_in t ps s e : rep t ps -> t !! s = Some e -> live e -> exists b, obj e = Ptr b /\ (b, ofs e) ∈ ps.
Proof.
  intros [Hl _ _] Hs He. assert (e ∈ entry <$> ps) as Hin
    by (rewrite <-Hl; apply list_elem_of_filter; split; [done|by eapply list_elem_of_lookup_2]).
  apply list_elem_of_fmap in Hin as ([b o] & -> & Hin). by exists b.
Qed.
Lemma rep_unique (ps : list (nat * Z)) b o o' : NoDup ps.*1 -> (b, o) ∈ ps -> (b, o') ∈ ps -> o = o'.
Proof.
  intros Hn H1 H2. apply list_elem_of_lookup in H1 as [i Hi], H2 as [j Hj].
  assert (ps.*1 !! i = Some b) by by rewrite list_lookup_fmap, Hi.
  assert (ps.*1 !! j = Some b) by by rewrite list_lookup_fmap, Hj.
  assert (i = j) as -> by by eapply NoDup_lookup. congruence.
Qed.
Lemma Hash_range t b : (0 < length t)%nat -> (place t b < length t)%nat.
Proof.
  intros Ht. unfold place, Extern.Hash. pose proof (Z.mod_pos_bound (address addr (Ptr b) ⋙ 2) (Z.of_nat (length t))). lia.
Qed.
Lemma at_step_lt t h k : (0 < length t)%nat -> (at_step t h k < length t)%nat.
Proof. intros Ht. apply Nat.mod_upper_bound. lia. Qed.
Lemma at_step_S t h k : at_step t h (S k) = at_step t (at_step t h 1) k.
Proof. unfold at_step. rewrite Nat.Div0.add_mod_idemp_l. f_equal. lia. Qed.
Lemma at_step_0 t h : (h < length t)%nat -> at_step t h 0 = h.
Proof. intros Hh. unfold at_step. rewrite Nat.add_0_r. by apply Nat.mod_small. Qed.
Lemma filter_live_all t : Forall live t -> filter live t = t.
Proof. induction 1 as [|e t He _ IH]; [done|]. by rewrite filter_cons_True, IH. Qed.
(** There is a dead slot, some steps away. *)
Lemma dead_slot t ps : rep t ps -> (length ps < length t)%nat -> exists s, dead_at t s.
Proof.
  intros [Hl _ _] Hlt. destruct (decide (Forall live t)) as [Hall|Hno].
  - apply Permutation_length in Hl. rewrite filter_live_all, length_fmap in Hl by done. lia.
  - apply not_Forall_Exists in Hno; [|apply _]. apply Exists_exists in Hno as (e & He & Hd).
    apply list_elem_of_lookup in He as [s Hs]. by exists s, e.
Qed.
Lemma step_to t h s : (h < length t)%nat -> (s < length t)%nat -> exists k, (k < length t)%nat /\ s = at_step t h k.
Proof.
  intros Hh Hs. destruct (decide (h <= s)%nat).
  - exists (s - h)%nat. split; [lia|]. unfold at_step. replace (h + (s - h))%nat with s by lia.
    symmetry. by apply Nat.mod_small.
  - exists (length t - h + s)%nat. split; [lia|]. unfold at_step.
    replace (h + (length t - h + s))%nat with (s + 1 * length t)%nat by lia.
    rewrite Nat.Div0.mod_add. symmetry. by apply Nat.mod_small.
Qed.

(** Probing stops at the first slot that is dead or holds the value. *)
Lemma probe_spec t v h d fuel :
  (h < length t)%nat -> dead_at t (at_step t h d) -> (d < fuel)%nat ->
  exists k e, probe fuel init (Z.of_nat (length t)) t v (Z.of_nat h) = Ok (Z.of_nat (at_step t h k)) /\
    t !! at_step t h k = Some e /\ (~ live e \/ live e /\ v = Some (obj e)) /\
    forall j, (j < k)%nat -> exists e', t !! at_step t h j = Some e' /\ live e' /\ v <> Some (obj e').
Proof.
  revert h fuel. induction d as [|d IH]; intros h [|fuel] Hh Hd Hf; try lia.
  - rewrite at_step_0 in Hd by done. destruct Hd as (e & He & Hd). exists 0%nat, e.
    rewrite at_step_0 by done. cbn [probe]. rewrite Nat2Z.id, He. cbn [of_ptr rbind].
    destruct (Z.geb_spec (ofs e) init); [by destruct Hd|]. split; [done|]. split; [done|]. split; [by left|]. intros; lia.
  - assert (exists e, t !! h = Some e) as [e He] by by apply lookup_lt_is_Some.
    cbn [probe]. rewrite Nat2Z.id, He. cbn [of_ptr rbind].
    destruct (Z.geb_spec (ofs e) init) as [Hl|Hl].
    + destruct (bool_decide_reflect (v = Some (obj e))) as [Hv|Hv].
      * exists 0%nat, e. rewrite at_step_0 by done. split; [done|]. split; [done|]. split; [right; split; [unfold live; lia|done]|].
        intros; lia.
      * assert (Z.of_nat (at_step t h 1) = if Z.of_nat h + 1 >=? Z.of_nat (length t) then 0 else Z.of_nat h + 1) as E.
        { unfold at_step. destruct (Z.geb_spec (Z.of_nat h + 1) (Z.of_nat (length t))).
          - replace (h + 1)%nat with (length t) by lia. by rewrite Nat.Div0.mod_same.
          - rewrite Nat.mod_small by lia. lia. }
        rewrite at_step_S in Hd. rewrite <-E.
        destruct (IH (at_step t h 1) fuel) as (k & e' & Hp & He' & Hstop & Hbefore); [apply at_step_lt; lia|done|lia|].
        exists (S k), e'. rewrite (at_step_S t h k). split; [done|]. split; [done|]. split; [done|].
        intros [|j] Hj; [exists e; rewrite at_step_0 by done; split; [done|]; split; [unfold live; lia|done]|].
        rewrite (at_step_S t h j). apply Hbefore. lia.
    + exists 0%nat, e. rewrite at_step_0 by done. split; [done|]. split; [done|]. split; [left; unfold live; lia|]. intros; lia.
Qed.
Lemma probe_stops t ps v b :
  rep t ps -> (length ps < length t)%nat ->
  exists k e, probe (probe_fuel t) init (Z.of_nat (length t)) t v (Hash (Z.of_nat (length t)) (Ptr b))
      = Ok (Z.of_nat (at_step t (place t b) k)) /\
    t !! at_step t (place t b) k = Some e /\ (~ live e \/ live e /\ v = Some (obj e)) /\
    forall j, (j < k)%nat -> exists e', t !! at_step t (place t b) j = Some e' /\ live e' /\ v <> Some (obj e').
Proof.
  intros Hrep Hlt. destruct (dead_slot _ _ Hrep Hlt) as (s & e & Hs & Hd).
  assert (place t b < length t)%nat as Hp by (apply Hash_range; lia).
  destruct (step_to t (place t b) s Hp) as (d & Hd' & ->); [by eapply lookup_lt_Some|].
  destruct (probe_spec t v (place t b) d (probe_fuel t)) as (k & e' & H); [done|by exists e|unfold probe_fuel; lia|].
  exists k, e'. unfold place in H at 1. rewrite Z2Nat.id in H; [done|].
  apply Z.mod_pos_bound. lia.
Qed.

(** ** Looking up and recording *)

Lemma lookup_seen t ps b o :
  rep t ps -> (length ps < length t)%nat -> (b, o) ∈ ps ->
  exists s, probe (probe_fuel t) init (Z.of_nat (length t)) t (Some (Ptr b)) (Hash (Z.of_nat (length t)) (Ptr b))
    = Ok (Z.of_nat s) /\ t !! s = Some (mkObj o (Ptr b)).
Proof.
  intros Hrep Hlt Hin. destruct (probe_stops t ps (Some (Ptr b)) b Hrep Hlt) as (k & e & Hp & He & Hstop & Hbefore).
  exists (at_step t (place t b) k). split; [done|].
  destruct (rep_path _ _ Hrep b o Hin) as (k' & He' & Hpath).
  destruct (lt_eq_lt_dec k k') as [[Hlt' | ->]|Hgt].
  - destruct (Hpath k Hlt') as (e' & He'' & Hl). assert (e' = e) as -> by congruence.
    destruct Hstop as [?|[_ [= Hobj]]]; [done|].
    destruct (rep_in _ _ _ _ Hrep He Hl) as (b' & Hb' & Hin'). rewrite <-Hobj in Hb'. injection Hb' as <-.
    rewrite (rep_unique _ _ _ _ (rep_nodup _ _ Hrep) Hin Hin'), He, Hobj. by destruct e.
  - done.
  - destruct (Hbefore k' Hgt) as (e' & He'' & _ & Hne). rewrite He' in He''. injection He'' as <-. done.
Qed.
Lemma filter_insert_dead t s e e' :
  t !! s = Some e -> ~ live e -> live e' -> filter live (<[s := e']> t) ≡ₚ e' :: filter live t.
Proof.
  intros Hs He He'. assert (s < length t)%nat by (by eapply lookup_lt_Some).
  rewrite insert_take_drop by done. rewrite <-(take_drop_middle t s e Hs) at 3.
  rewrite !filter_app, filter_cons_True, filter_cons_False by done. by rewrite Permutation_middle.
Qed.
(** Storing at a dead slot that probing from the place of [b] has reached. *)
Lemma rep_insert t ps b o k :
  rep t ps -> b ∉ ps.*1 -> init <= o -> dead_at t (at_step t (place t b) k) ->
  (forall j, (j < k)%nat -> live_at t (at_step t (place t b) j)) ->
  rep (<[at_step t (place t b) k := mkObj o (Ptr b)]> t) ((b, o) :: ps).
Proof.
  intros [Hl Hn Hpath] Hb Ho (e & Hs & Hd) Hlive. set (s := at_step t (place t b) k) in *.
  assert (forall x, live_at t x -> live_at (<[s:=mkObj o (Ptr b)]> t) x) as Hkeep.
  { intros x (e' & Hx & He'). exists e'. split; [|done]. rewrite list_lookup_insert_ne; [done|].
    intros <-. assert (e' = e) as -> by congruence. done. }
  split.
  - rewrite (filter_insert_dead t s e) by done. cbn [fmap list_fmap]. by rewrite Hl.
  - by constructor.
  - intros b' o' [[= -> ->]|Hin]%elem_of_cons; unfold at_step, place; rewrite length_insert.
    + exists k. split; [|intros j Hj; by apply Hkeep, Hlive].
      change (<[s := mkObj o (Ptr b)]> t !! s = Some (mkObj o (Ptr b))).
      apply list_lookup_insert_eq. by eapply lookup_lt_Some.
    + destruct (Hpath b' o' Hin) as (k' & Hk' & Hlive'). exists k'. split; [|intros j Hj; by apply Hkeep, Hlive'].
      fold (place t b'). fold (at_step t (place t b') k'). rewrite list_lookup_insert_ne; [done|].
      intros Heq. rewrite <-Heq, Hs in Hk'. injection Hk' as ->. apply Hd. unfold live. simpl.
      assert (mkObj o' (Ptr b') ∈ filter live t) as Hf by (rewrite Hl; apply list_elem_of_fmap; by exists (b', o')).
      by apply list_elem_of_filter in Hf as [Hf _].
Qed.
Lemma lookup_new t ps b v :
  rep t ps -> (length ps < length t)%nat -> b ∉ ps.*1 -> v = Some (Ptr b) \/ v = None ->
  exists k e, let s := at_step t (place t b) k in
    probe (probe_fuel t) init (Z.of_nat (length t)) t v (Hash (Z.of_nat (length t)) (Ptr b)) = Ok (Z.of_nat s) /\
    t !! s = Some e /\ ~ live e /\
    forall o, init <= o -> rep (<[s := mkObj o (Ptr b)]> t) ((b, o) :: ps).
Proof.
  intros Hrep Hlt Hb Hv. destruct (probe_stops t ps v b Hrep Hlt) as (k & e & Hp & He & Hstop & Hbefore).
  exists k, e. cbv zeta. split; [done|]. split; [done|]. assert (~ live e) as Hd.
  { destruct Hstop as [?|[Hl Heq]]; [done|]. destruct Hv as [->| ->]; [|done]. injection Heq as Heq.
    destruct (rep_in _ _ _ _ Hrep He Hl) as (b' & Hb' & Hin). rewrite <-Heq in Hb'. injection Hb' as <-.
    exfalso. apply Hb. apply list_elem_of_fmap. by exists (b, ofs e). }
  split; [done|]. intros o Ho. apply rep_insert; try done; [by exists e|].
  intros j Hj. destruct (Hbefore j Hj) as (e' & He' & Hl & _). by exists e'.
Qed.

(** ** Doubling the table *)

Lemma rehash_all_ok old qs t ps :
  filter live old = entry <$> qs -> rep t ps -> NoDup (qs ++ ps).*1 -> (length qs + length ps < length t)%nat ->
  exists t', rehash_all addr init (Z.of_nat (length t)) old t = Ok t' /\ length t' = length t /\ rep t' (rev qs ++ ps).
Proof.
  revert qs t ps. induction old as [|e old IH]; intros qs t ps Hold Hrep Hn Hlt; cbn [rehash_all].
  - destruct qs; [|discriminate Hold]. by exists t.
  - unfold rehash. destruct (decide (live e)) as [Hl|Hl].
    + rewrite filter_cons_True in Hold by done. destruct qs as [|[b o] qs]; [discriminate Hold|].
      injection Hold as -> Hold. cbn [app fmap list_fmap fst] in Hn. apply NoDup_cons in Hn as [Hb Hn].
      unfold live in Hl. simpl in Hl, Hlt. destruct (Z.geb_spec o init); [|lia]. simpl ofs. simpl obj.
      destruct (Z.geb_spec o init); [|lia].
      rewrite fmap_app in Hb. apply not_elem_of_app in Hb as [Hb1 Hb2].
      destruct (lookup_new t ps b None) as (k & e & Hp & He & Hd & Hins); [done|lia|done|by right|].
      rewrite Hp. cbn [rbind]. rewrite Nat2Z.id.
      destruct (IH qs (<[at_step t (place t b) k:=mkObj o (Ptr b)]> t) ((b, o) :: ps)) as (t' & Ht' & Hlen & Hrep').
      { done. }
      { by apply Hins. }
      { rewrite fmap_app in *. cbn [fmap list_fmap fst]. rewrite <-Permutation_middle. apply NoDup_cons. split; [|done].
        by apply not_elem_of_app. }
      { rewrite length_insert. simpl. lia. }
      exists t'. rewrite length_insert in Ht', Hlen. split; [done|]. split; [done|]. simpl. by rewrite <-app_assoc.
    + rewrite filter_cons_False in Hold by done. unfold live in Hl. destruct (Z.geb_spec (ofs e) init); [lia|].
      cbn [rbind]. by apply IH.
Qed.
Lemma rep_empty n : 0 < init -> rep (replicate n (mkObj 0 (Int 0))) [].
Proof.
  intros Hi. split; [|constructor|by intros ? ? ?%not_elem_of_nil].
  induction n as [|n IH]; [done|]. simpl. rewrite filter_cons_False; [done|]. unfold live. simpl. lia.
Qed.
Lemma resize_ok old ps n :
  0 < init -> rep old ps -> (length ps < n)%nat ->
  exists t, rehash_all addr init (Z.of_nat n) old (replicate n (mkObj 0 (Int 0))) = Ok t /\ length t = n /\ rep t ps.
Proof.
  intros Hi Hrep Hlt. destruct (Permutation_map_inv entry ps (rep_live _ _ Hrep)) as (qs & Hqs & Hp).
  destruct (rehash_all_ok old qs (replicate n (mkObj 0 (Int 0))) []) as (t & Ht & Hlen & Hrep').
  { done. }
  { by apply rep_empty. }
  { rewrite app_nil_r, <-Hp. apply (rep_nodup _ _ Hrep). }
  { rewrite length_replicate. apply Permutation_length in Hp. simpl. lia. }
  rewrite length_replicate in *. exists t. split; [done|]. split; [done|].
  eapply rep_perm; [|exact Hrep']. rewrite app_nil_r. by rewrite <-Permutation_rev, Hp.
Qed.
End table.
