(* ===== verification/Encode.v ===== *)
(** * Encoding: [extern_rec] writes the format

    From a state in which the blocks [vis] have been written, [Extern] writes bytes of the
    relation [enc], keeps its table and its counters exact, and stays inside
    its buffer, which it enlarges ([encode]). *)
From stdpp Require Import gmap list strings.
From S2P Require Import Prelude Mlvalues Intext Format Extern ExternTable.

(** ** What can be written *)

(** [all] is a set of blocks, closed under the pointers of its blocks, that can be written. *)
Section good.
Variables (h : heap_t) (code_size : Z) (cl : bool) (all : list nat).
Definition good_value (v : value) : Prop :=
  match v with
  | Int w => exists n, is_long n /\ v = Val_long n
  | Ptr b => b ∈ all
  | Atom t => 0 <= t < 256
  | Code p => cl = true /\ 0 <= p /\ 4 * p < code_size
  | Stk _ => False
  end.
Definition good_block (blk : Mlvalues.block) : Prop :=
  match data blk with
  | Fields fs => fs <> [] /\ plain_tag (tag blk) /\ Z.of_nat (length fs) <= Max_wosize /\ Forall good_value fs
  | Bytes bs =>
      tag blk = String_tag /\ (exists s, bs = string_bytes s /\ Forall is_byte s /\ Z.of_nat (length s) < 2 ^ 24) \/
      tag blk = Double_tag /\ length bs = 8%nat
  end.
Definition closed : Prop := forall b, b ∈ all -> exists blk, h !! b = Some blk /\ good_block blk.
End good.

Lemma ebind_Done c f s : ebind c f = Ok (Done s) -> exists s', c = Ok (Done s') /\ f s' = Ok (Done s).
Proof. unfold ebind. destruct c as [[s'|e s']| | |]; try done. intros H. by exists s'. Qed.

(** ** The output block *)

Section encode.
Variables (addr : nat -> Z) (code_size : Z) (cks : list Z) (h : heap_t) (init : Z) (cl : bool).

Definition pairs (vis : list nat) : list (nat * Z) := imap (fun i b => (b, init + Z.of_nat i)) vis.
(** The state when [vis] and the bytes [out] have been written and the size
    accounted for is [w]. *)
Record est (vis : list nat) (out : list Z) (w : Z) (s : estate) : Prop := {
  es_init : initial_ofs s = init; es_closures : closures s = cl; es_sharing : ignore_sharing s = false;
  es_counter : obj_counter s = Z.of_nat (length vis);
  es_table : exists t, extern_table s = Some t /\ extern_table_size s = Z.of_nat (length t) /\
    rep addr init t (pairs vis) /\ (2 * length vis <= length t + 1)%nat /\ 2039 <= Z.of_nat (length t) <= 2039 + 4 * Z.of_nat (length vis);
  es_ptr : ptr s = Z.of_nat (length out);
  es_out : take (length out) (block s) = out;
  es_block : (length out <= length (block s))%nat /\ 0 < Z.of_nat (length (block s)) <= 8192 + 2 * Z.of_nat (length out);
  es_malloced : malloced s = true;
  es_size : size_32 s = w }.

Lemma grow_ok k size reqd :
  0 < size -> reqd < 2 ^ 29 -> reqd < size * 2 ^ Z.of_nat k ->
  exists size', grow (S k) size reqd = Ok size' /\ reqd < size' /\ size <= size' <= Z.max size (2 * reqd).
Proof.
  revert size. induction k as [|k IH]; intros size Hs Hr Hk; cbn [grow]; destruct (Z.leb_spec size reqd).
  - simpl in Hk. lia.
  - exists size. split; [done|]. lia.
  - rewrite s32_small by (unfold is_s32; lia).
    destruct (IH (size * 2)) as (size' & Hg & H1 & H2); [lia|done| |].
    { rewrite Nat2Z.inj_succ, Z.pow_succ_r in Hk by lia. lia. }
    exists size'. split; [exact Hg|]. lia.
  - exists size. split; [done|]. lia.
Qed.
(** Reserving room and storing appends to the output. *)
Lemma emit_ok vis out w s bs :
  est vis out w s -> Z.of_nat (length out) + Z.of_nat (length bs) < 2 ^ 29 ->
  exists s', (let+ s := reserve (Z.of_nat (length bs)) s in store bs s) = Ok (Done s') /\ est vis (out ++ bs) w s'.
Proof.
  intros [Hi Hc Hg Hn Ht Hp Ho [Hb1 Hb2] Hm Hz] Hlen.
  assert (exists blk, reserve (Z.of_nat (length bs)) s = ret (set_block blk s) /\ take (length out) blk = out /\
    (length out + length bs <= length blk)%nat /\
    0 < Z.of_nat (length blk) <= 8192 + 2 * Z.of_nat (length (out ++ bs))) as (blk & Hr & Hout & Hfit & Hsz).
  { rewrite length_app. unfold reserve. rewrite Hp.
    destruct (Z.gtb_spec (Z.of_nat (length out) + Z.of_nat (length bs)) (Z.of_nat (length (block s)))) as [Hgt|Hle].
    - unfold resize_extern_block. rewrite Hm, Hp. cbn [negb].
      rewrite s32_small by (unfold is_s32; lia).
      destruct (grow_ok 63 (Z.of_nat (length (block s))) (Z.of_nat (length out) + Z.of_nat (length bs)))
        as (size' & -> & H1 & H2); [lia|done|lia|]. cbn [rbind].
      eexists. split; [done|]. rewrite length_app, length_replicate, take_app_le by lia. split; [done|]. lia.
    - exists (block s). split; [by destruct s|]. split; [done|]. lia. }
  rewrite Hr. cbn [ret ebind rbind]. unfold store. cbn [ptr block set_block]. rewrite Hp, Nat2Z.id.
  destruct (Nat.leb_spec (length out + length bs) (length blk)); [|lia].
  eexists. split; [done|]. split; cbn [set_ptr set_block initial_ofs closures ignore_sharing obj_counter extern_table extern_table_size ptr block malloced size_32]; try done.
  - rewrite length_app. lia.
  - rewrite Hout, app_assoc, take_app_length. done.
  - rewrite !length_app, length_take, length_drop in *. lia.
Qed.
(** ** The pieces *)

Definition room (out : list Z) (n : Z) : Prop := Z.of_nat (length out) + n < 2 ^ 29.
(** [c] appends [bs] to the output of [s]. *)
Definition appends (c : estate -> result eresult) (bs : list Z) : Prop :=
  forall vis out w s, est vis out w s -> room out (Z.of_nat (length bs)) ->
  exists s', c s = Ok (Done s') /\ est vis (out ++ bs) w s'.
Lemma appends_emit bs n : n = Z.of_nat (length bs) -> appends (fun s => let+ s := reserve n s in store bs s) bs.
Proof. intros -> vis out w s He Hr. by apply emit_ok. Qed.
Lemma u8_small x : 0 <= x < 256 -> u8 x = x.
Proof. intros Hx. apply Z.mod_small. lia. Qed.
Lemma Write_ok c : 0 <= c < 256 -> appends (Write c) [c].
Proof. intros Hc. unfold Write. rewrite u8_small by done. by apply appends_emit. Qed.
Lemma writecode8_ok c x : 0 <= c < 256 -> appends (writecode8 c x) [c; u8 x].
Proof. intros Hc. unfold writecode8. rewrite (u8_small c) by done. by apply appends_emit. Qed.
Lemma writecode16_ok c x : 0 <= c < 256 -> appends (writecode16 c x) (c :: be16 x).
Proof. intros Hc. unfold writecode16. rewrite (u8_small c) by done. by apply appends_emit. Qed.
Lemma writecode32_ok c x : 0 <= c < 256 -> appends (writecode32 c x) (c :: be32 x).
Proof. intros Hc. unfold writecode32. rewrite (u8_small c) by done. by apply appends_emit. Qed.
Lemma writeblock_ok bs : appends (writeblock bs) bs.
Proof. unfold writeblock. by apply appends_emit. Qed.
Lemma appends_seq c1 c2 bs1 bs2 :
  appends c1 bs1 -> appends c2 bs2 -> appends (fun s => let+ s := c1 s in c2 s) (bs1 ++ bs2).
Proof.
  intros H1 H2 vis out w s He Hr. unfold room in *. rewrite length_app in Hr.
  destruct (H1 vis out w s He) as (s1 & E1 & He1); [unfold room; lia|].
  destruct (H2 vis (out ++ bs1) w s1 He1) as (s2 & E2 & He2); [unfold room; rewrite length_app; lia|].
  exists s2. rewrite E1. cbn [ebind rbind]. by rewrite app_assoc.
Qed.

Lemma extern_int_ok n : is_long n -> appends (extern_int n) (int_bytes n).
Proof.
  unfold is_long, Min_long, Max_long, extern_int, int_bytes. intros Hn. repeat case_if.
  - apply Write_ok. unfold PREFIX_SMALL_INT. lia.
  - by apply writecode8_ok.
  - by apply writecode16_ok.
  - by apply writecode32_ok.
Qed.
Lemma extern_shared_ok d : is_u32 d -> appends (extern_shared d) (shared_bytes d).
Proof.
  unfold is_u32, extern_shared, shared_bytes. intros Hd. repeat case_if.
  - replace [CODE_SHARED8; d] with [CODE_SHARED8; u8 d] by (by rewrite u8_small by lia). by apply writecode8_ok.
  - by apply writecode16_ok.
  - by apply writecode32_ok.
Qed.
Definition write_head (t sz : Z) (s : estate) : result eresult :=
  if (t <? 16) && (sz <? 8) then Write (PREFIX_SMALL_BLOCK + t + Z.shiftl sz 4) s
  else writecode32 CODE_BLOCK32 (Make_header sz t) s.
Lemma write_head_ok t sz : 0 <= t < 256 -> 0 <= sz <= Max_wosize -> appends (write_head t sz) (block_head t sz).
Proof.
  intros Ht Hsz. unfold write_head, block_head. case_if.
  - apply andb_prop in Heqb as [Ht'%Z.ltb_lt Hsz'%Z.ltb_lt]. apply Write_ok.
    rewrite shiftl_mul by lia. unfold PREFIX_SMALL_BLOCK. lia.
  - by apply writecode32_ok.
Qed.
Definition write_string_head (len : Z) (s : estate) : result eresult :=
  if len <? 0x20 then Write (PREFIX_SMALL_STRING + len) s
  else if len <? 0x100 then writecode8 CODE_STRING8 len s
  else writecode32 CODE_STRING32 len s.
Lemma write_string_head_ok len : 0 <= len < 2 ^ 31 -> appends (write_string_head len) (string_head len).
Proof.
  unfold write_string_head, string_head. intros Hn. repeat case_if.
  - apply Write_ok. unfold PREFIX_SMALL_STRING. lia.
  - replace [CODE_STRING8; len] with [CODE_STRING8; u8 len] by (by rewrite u8_small by lia). by apply writecode8_ok.
  - by apply writecode32_ok.
Qed.
Lemma appends_ext c c' bs : (forall s, c s = c' s) -> appends c bs -> appends c' bs.
Proof. intros Hc Ha vis out w s He Hr. rewrite <-Hc. by apply Ha. Qed.

(** ** Blocks seen and not seen *)

Lemma pairs_fst vis : (pairs vis).*1 = vis.
Proof.
  apply list_eq. intros i. unfold pairs. rewrite list_lookup_fmap, list_lookup_imap. by destruct (vis !! i).
Qed.
Lemma length_pairs vis : length (pairs vis) = length vis.
Proof. apply length_imap. Qed.
Lemma pairs_snoc vis b : pairs (vis ++ [b]) ≡ₚ (b, init + Z.of_nat (length vis)) :: pairs vis.
Proof. unfold pairs. rewrite imap_app. simpl. rewrite Nat.add_0_r. by rewrite <-Permutation_cons_append. Qed.
Lemma elem_of_pairs vis i b : vis !! i = Some b -> (b, init + Z.of_nat i) ∈ pairs vis.
Proof. intros Hi. apply elem_of_lookup_imap. by exists i, b. Qed.

Hypothesis init_pos : 0 < init.
Lemma resize_seen vis out w s :
  est vis out w s -> Z.of_nat (length vis) < 2 ^ 29 ->
  exists s', (if u32 (2 * obj_counter s) >=? extern_table_size s then resize_extern_table addr s else Ok s) = Ok s' /\
    est vis out w s' /\ exists t, extern_table s' = Some t /\ (2 * length vis < length t)%nat.
Proof.
  intros He Hlen. pose proof He as [Hi Hc Hg Hn (t & Ht & Hsz & Hrep & Hcap & Hsize) Hp Ho Hb Hm Hz].
  rewrite Hn, Hsz, u32_small by (unfold is_u32; lia).
  destruct (Z.geb_spec (2 * Z.of_nat (length vis)) (Z.of_nat (length t))) as [Hge|Hlt].
  - unfold resize_extern_table. rewrite Ht. cbn [of_ptr rbind]. rewrite Hsz.
    rewrite u32_small by (unfold is_u32; lia). cbn [alloc_extern_table set_table set_tsize extern_table extern_table_size initial_ofs].
    cbn [of_ptr rbind]. rewrite Hi.
    destruct (resize_ok addr init t (pairs vis) (2 * length t)%nat init_pos Hrep) as (t' & Hr & Hlen' & Hrep').
    { rewrite length_pairs. lia. }
    replace (2 * Z.of_nat (length t)) with (Z.of_nat (2 * length t)) by lia. rewrite Nat2Z.id, Hr.
    eexists. split; [done|]. split; [|exists t'; split; [done|lia]].
    split; cbn [set_table set_tsize initial_ofs closures ignore_sharing obj_counter extern_table extern_table_size ptr block malloced size_32]; try done.
    exists t'. split; [done|]. split; [cbn [extern_table_size alloc_extern_table set_tsize set_table]; lia|]. split; [done|]. lia.
  - exists s. split; [done|]. split; [done|]. exists t. split; [done|lia].
Qed.
Lemma check_seen_old vis out w s i b :
  est vis out w s -> Z.of_nat (length vis) < 2 ^ 29 -> init <= 2 ^ 31 -> vis !! i = Some b ->
  exists s', check_seen addr (Ptr b) s = Ok (Some (Z.of_nat (length vis - i)), s') /\ est vis out w s'.
Proof.
  intros He Hlen Hinit Hb. unfold check_seen. rewrite (es_sharing _ _ _ _ He).
  destruct (resize_seen vis out w s He Hlen) as (s1 & -> & He1 & t & Ht & Hcap). cbn [rbind]. rewrite Ht. cbn [of_ptr rbind].
  pose proof He1 as [Hi Hc Hg Hn (t' & Ht' & Hsz & Hrep & _ & _) Hp Ho Hbl Hm Hz].
  rewrite Ht in Ht'. injection Ht' as <-. rewrite Hi, Hsz.
  destruct (lookup_seen addr init t (pairs vis) b (init + Z.of_nat i) Hrep) as (sl & -> & Hsl).
  { rewrite length_pairs. lia. }
  { by apply elem_of_pairs. }
  cbn [rbind]. rewrite Nat2Z.id, Hsl. cbn [of_ptr rbind ofs].
  destruct (Z.geb_spec (init + Z.of_nat i) init); [|lia]. eexists. split; [|exact He1].
  apply lookup_lt_Some in Hb. rewrite Hn, u32_small by (unfold is_u32; lia). do 3 f_equal. lia.
Qed.
Lemma check_seen_new vis out w s b :
  est vis out w s -> Z.of_nat (length vis) < 2 ^ 29 -> init <= 2 ^ 31 -> b ∉ vis ->
  exists s', check_seen addr (Ptr b) s = Ok (None, s') /\ est (vis ++ [b]) out w s'.
Proof.
  intros He Hlen Hinit Hb. unfold check_seen. rewrite (es_sharing _ _ _ _ He).
  destruct (resize_seen vis out w s He Hlen) as (s1 & -> & [Hi Hc Hg Hn (t' & Ht' & Hsz & Hrep & _ & Hsize) Hp Ho Hbl Hm Hz] & t & Ht & Hcap).
  cbn [rbind]. rewrite Ht. cbn [of_ptr rbind]. rewrite Ht in Ht'. injection Ht' as <-. rewrite Hi, Hsz.
  destruct (lookup_new addr init t (pairs vis) b (Some (Ptr b)) Hrep) as (k & e & Hprobe & Hsl & Hd & Hins).
  { rewrite length_pairs. lia. }
  { by rewrite pairs_fst. }
  { by left. }
  rewrite Hprobe. cbn [rbind]. rewrite Nat2Z.id, Hsl. cbn [of_ptr rbind].
  unfold live in Hd. destruct (Z.geb_spec (ofs e) init); [lia|]. eexists. split; [done|].
  split; cbn [set_table set_counter initial_ofs closures ignore_sharing obj_counter extern_table extern_table_size ptr block malloced size_32]; try done.
  - rewrite Hn, length_app, u32_small by (unfold is_u32; lia). simpl. lia.
  - eexists. split; [done|]. rewrite length_insert, length_app. split; [done|]. split; [|simpl; lia].
    eapply rep_perm; [symmetry; apply pairs_snoc|]. rewrite Hn, u32_small by (unfold is_u32; lia). apply Hins. lia.
Qed.

(** ** The contents of a block *)

Lemma add_sizes_ok vis out w s x y :
  est vis out w s -> 0 <= w + x < 2 ^ 32 -> est vis out (w + x) (add_sizes x y s).
Proof.
  intros [Hi Hc Hg Hn Ht Hp Ho Hb Hm Hz] Hx. split; try done. cbn [size_32 add_sizes set_sizes].
  rewrite Hz. by apply u32_small.
Qed.
Lemma extern_string_ok b str vis out w s :
  h !! b = Some (mkBlock String_tag (Bytes (string_bytes str))) -> Z.of_nat (length str) < 2 ^ 24 ->
  est vis out w s -> room out (5 + Z.of_nat (length str)) -> 0 <= w < 2 ^ 31 ->
  exists s', extern_string h (Ptr b) (string_bytes str) s = Ok (Done s') /\
    est vis (out ++ string_head (Z.of_nat (length str)) ++ str) (w + block_words h b) s'.
Proof.
  intros Hb Hl He Hr Hw. unfold extern_string. rewrite (string_length_ok h b str) by done. cbn [rbind].
  pose proof (readblock_app str (drop (length str) (string_bytes str))) as Hread.
  replace (str ++ drop (length str) (string_bytes str)) with (string_bytes str) in Hread
    by (unfold string_bytes; by rewrite drop_app_length).
  destruct (appends_seq _ _ _ _ (write_string_head_ok (Z.of_nat (length str)) ltac:(lia)) (writeblock_ok str)
    vis out w s He) as (s1 & E & He1).
  { unfold room in *. rewrite length_app. assert (length (string_head (Z.of_nat (length str))) <= 5)%nat
      by (unfold string_head; repeat case_if; simpl; lia). lia. }
  unfold write_string_head in E. destruct (ebind_Done _ _ _ E) as (s2 & E1 & E2). rewrite E1. cbn [ebind rbind].
  rewrite Hread. cbn [rbind]. rewrite E2. cbn [ebind rbind ret]. eexists. split; [done|].
  assert (block_words h b = 1 + u32 (Z.of_nat (length str) + 4) / 4) as ->.
  { unfold block_words. rewrite Hb. cbn [data size_of]. rewrite length_string_bytes by lia.
    change (u32 _ / 4) with (string_wosize (Z.of_nat (length str))). by rewrite Z.mul_comm, Z.div_mul. }
  apply add_sizes_ok; [done|]. rewrite u32_small by (unfold is_u32; lia). zlia.
Qed.
Lemma extern_double_ok b d vis out w s :
  h !! b = Some (mkBlock Double_tag (Bytes d)) -> length d = 8%nat ->
  est vis out w s -> room out 9 -> 0 <= w < 2 ^ 31 ->
  exists s', extern_double d s = Ok (Done s') /\ est vis (out ++ [CODE_DOUBLE_LITTLE] ++ d) (w + block_words h b) s'.
Proof.
  intros Hb Hl He Hr Hw. unfold extern_double. pose proof (readblock_app d []) as Hread. rewrite Hl, app_nil_r in Hread.
  destruct (appends_seq _ _ _ _ (Write_ok CODE_DOUBLE_LITTLE ltac:(done)) (writeblock_ok d) vis out w s He) as (s1 & E & He1).
  { unfold room in *. rewrite length_app, Hl. simpl. lia. }
  destruct (ebind_Done _ _ _ E) as (s2 & E1 & E2). rewrite E1. cbn [ebind rbind].
  change (readblock 8 d) with (readblock (Z.of_nat 8) d). rewrite Hread. cbn [rbind]. rewrite E2. cbn [ebind rbind ret].
  eexists. split; [done|].
  assert (block_words h b = 1 + 2) as -> by (unfold block_words; rewrite Hb; simpl; by rewrite Hl).
  apply add_sizes_ok; [done|lia].
Qed.

(** ** The traversal *)

Variable all : list nat.
Lemma words_sub vis vis' : vis ⊆+ vis' -> words h vis <= words h vis'.
Proof.
  induction 1 as [|b l1 l2 _ IH|b1 b2 l|b l1 l2 _ IH|l1 l2 l3 _ IH1 _ IH2]; simpl; try lia.
  pose proof (block_words_nonneg h b). lia.
Qed.
Lemma visited_bounds vis :
  NoDup vis -> vis ⊆ all -> words h vis <= words h all /\ (length vis <= length all)%nat.
Proof. intros Hn Hs. assert (vis ⊆+ all) by by apply NoDup_submseteq. split; [by apply words_sub|by apply submseteq_length]. Qed.
Hypotheses (all_closed : closed h code_size cl all) (all_words : words h all <= Max_wosize + 1)
  (all_length : Z.of_nat (length all) <= Max_wosize + 1)
  (init_max : init <= 2 ^ 31) (code_max : code_size <= 2 ^ 31) (cks_length : length cks = 16%nat).
Abbreviation good := (good_value code_size cl all).
Abbreviation extern_rec := (extern_rec addr code_size cks).

Lemma visited_snoc vis b : NoDup vis -> vis ⊆ all -> b ∉ vis -> b ∈ all -> NoDup (vis ++ [b]) /\ vis ++ [b] ⊆ all.
Proof.
  intros Hn Hs Hb Hin. split.
  - apply NoDup_app. split; [done|]. split; [|apply NoDup_singleton]. by intros x Hx ->%list_elem_of_singleton.
  - intros x [?| ->%list_elem_of_singleton]%elem_of_app; auto.
Qed.

(** The bytes that a list of values can take. *)
Definition budget (n : nat) (vis vis' : list nat) : Z := 21 * Z.of_nat n + 25 * (words h vis' - words h vis).
Record wrote (c : result eresult) (vis : list nat) (out : list Z) (n : nat) (bs : list Z) (vis' : list nat) (s' : estate) : Prop := {
  wr_done : c = Ok (Done s');
  wr_est : est vis' (out ++ bs) (words h vis') s';
  wr_nodup : NoDup vis';
  wr_all : vis' ⊆ all;
  wr_prefix : exists d, vis' = vis ++ d;
  wr_bytes : Z.of_nat (length bs) <= budget n vis vis' }.
Definition writes_list (f : value -> estate -> result eresult) (fuel : nat) : Prop :=
  forall l vis out s, est vis out (words h vis) s -> NoDup vis -> vis ⊆ all -> Forall good l ->
  (length all < fuel + length vis)%nat -> room out (budget (length l) vis all) ->
  exists bs vis' s', enc h cks vis l bs vis' /\ wrote (each f l s) vis out (length l) bs vis' s'.
Definition writes_one (f : value -> estate -> result eresult) (fuel : nat) : Prop :=
  forall v vis out s, est vis out (words h vis) s -> NoDup vis -> vis ⊆ all -> good v ->
  (length all < fuel + length vis)%nat -> room out (budget 1 vis all) ->
  exists bs vis' s', (forall l bs2 vis2, enc h cks vis' l bs2 vis2 -> enc h cks vis (v :: l) (bs ++ bs2) vis2) /\
    wrote (f v s) vis out 1 bs vis' s'.

Lemma writes_each f fuel : writes_one f fuel -> writes_list f fuel.
Proof.
  intros Hone l. induction l as [|v l IH]; intros vis out s He Hn Hs Hg Hf Hr.
  - exists [], vis, s. split; [constructor|]. split; try done.
    + by rewrite app_nil_r.
    + exists []. by rewrite app_nil_r.
    + unfold budget. simpl. lia.
  - apply Forall_cons in Hg as [Hv Hg]. destruct (visited_bounds vis Hn Hs) as [Hw _].
    destruct (Hone v vis out s) as (bs1 & vis1 & s1 & Henc1 & [Hd1 He1 Hn1 Hs1 [d ->] Hb1]); try done.
    { unfold room, budget in *. simpl length in Hr. lia. }
    destruct (visited_bounds (vis ++ d) Hn1 Hs1) as [Hw1 _].
    assert (words h vis <= words h (vis ++ d)) by (rewrite words_app; pose proof (words_nonneg h d); lia).
    destruct (IH (vis ++ d) (out ++ bs1) s1) as (bs2 & vis2 & s2 & Henc2 & [Hd2 He2 Hn2 Hs2 [d2 ->] Hb2]); try done.
    { rewrite length_app. lia. }
    { unfold room, budget in *. rewrite length_app. simpl length in Hr. lia. }
    exists (bs1 ++ bs2), ((vis ++ d) ++ d2), s2. split; [by apply Henc1|]. split; try done.
    + cbn [each]. rewrite Hd1. cbn [ebind rbind]. done.
    + by rewrite app_assoc.
    + exists (d ++ d2). by rewrite app_assoc.
    + unfold budget in *. rewrite length_app. simpl length. lia.
Qed.
Lemma budget_pos vis n : NoDup vis -> vis ⊆ all -> 21 * Z.of_nat n <= budget n vis all.
Proof. intros Hn Hs. destruct (visited_bounds vis Hn Hs). unfold budget. lia. Qed.
(** A value that is written without recording a block. *)
Lemma writes_plain c bs vis out s :
  appends c bs -> est vis out (words h vis) s -> NoDup vis -> vis ⊆ all -> (length bs <= 21)%nat ->
  room out (budget 1 vis all) -> exists s', wrote (c s) vis out 1 bs vis s'.
Proof.
  intros Ha He Hn Hs Hl Hr. pose proof (budget_pos vis 1 Hn Hs).
  destruct (Ha _ _ _ _ He) as (s' & E & He'); [unfold room in *; lia|]. exists s'. split; try done.
  - exists []. by rewrite app_nil_r.
  - unfold budget. lia.
Qed.

Lemma length_int_bytes n : (length (int_bytes n) <= 21)%nat.
Proof. unfold int_bytes. repeat case_if; simpl; lia. Qed.
Lemma length_block_head t n : (length (block_head t n) <= 5)%nat.
Proof. unfold block_head. repeat case_if; simpl; lia. Qed.
Lemma length_shared_bytes n : (length (shared_bytes n) <= 21)%nat.
Proof. unfold shared_bytes. repeat case_if; simpl; lia. Qed.
Lemma length_string_head n : (length (string_head n) <= 5)%nat.
Proof. unfold string_head. repeat case_if; simpl; lia. Qed.

Lemma extern_code p :
  0 <= p -> 4 * p < code_size -> cl = true ->
  appends (fun s => if (0 <=? p) && (4 * p <? code_size) then
      if negb (closures s) then extern_invalid_argument "output_value: functional value" s
      else let+ s := writecode32 CODE_CODEPOINTER (4 * p) s in writeblock cks s
    else extern_invalid_argument "output_value: abstract value" s)
    ((CODE_CODEPOINTER :: be32 (4 * p)) ++ cks).
Proof.
  intros H1 H2 Hcl vis out w s He Hr. destruct (Z.leb_spec 0 p); [|lia]. destruct (Z.ltb_spec (4 * p) code_size); [|lia].
  cbn [andb]. rewrite (es_closures _ _ _ _ He), Hcl. cbn [negb].
  by apply (appends_seq _ _ _ _ (writecode32_ok CODE_CODEPOINTER (4 * p) ltac:(done)) (writeblock_ok cks)).
Qed.
(** A block that has not been seen, by the kind of its contents. *)
Definition contents_written (f : value -> estate -> result eresult) (fuel : nat) : Prop :=
  forall b vis out s, est vis out (words h vis) s -> NoDup vis -> vis ⊆ all -> b ∈ all -> b ∉ vis ->
  (length all < S fuel + length vis)%nat -> room out (budget 1 vis all) ->
  forall blk s1, h !! b = Some blk -> est (vis ++ [b]) out (words h vis) s1 ->
  exists bs vis' s', (forall l bs2 vis2, enc h cks vis' l bs2 vis2 -> enc h cks vis (Ptr b :: l) (bs ++ bs2) vis2) /\
    wrote (match data blk with
           | Bytes c => if tag blk =? String_tag then extern_string h (Ptr b) c s1 else extern_double c s1
           | Fields l => let+ s2 := write_head (tag blk) (Z.of_nat (length l)) s1 in
               each f l (add_sizes (1 + Z.of_nat (length l)) (1 + Z.of_nat (length l)) s2)
           end) vis out 1 bs vis' s'.
Lemma wrote_leaf c vis out b blk bs s' :
  h !! b = Some blk -> NoDup vis -> vis ⊆ all -> b ∈ all -> b ∉ vis ->
  c = Ok (Done s') -> est (vis ++ [b]) (out ++ bs) (words h vis + block_words h b) s' ->
  Z.of_nat (length bs) <= 21 + 25 * block_words h b ->
  wrote c vis out 1 bs (vis ++ [b]) s'.
Proof.
  intros Hb Hn Hs Hin Hnew Hc He Hl. destruct (visited_snoc vis b Hn Hs Hnew Hin) as [Hn' Hs'].
  assert (words h (vis ++ [b]) = words h vis + block_words h b) as Hw by (rewrite words_app; simpl; lia).
  split; try done; [by rewrite Hw|by exists [b]|]. unfold budget. rewrite Hw. lia.
Qed.
Lemma block_words_all vis b : NoDup vis -> vis ⊆ all -> b ∈ all -> b ∉ vis -> words h vis + block_words h b <= words h all.
Proof.
  intros Hn Hs Hin Hnew. destruct (visited_snoc vis b Hn Hs Hnew Hin) as [Hn' Hs'].
  destruct (visited_bounds (vis ++ [b]) Hn' Hs') as [Hw _]. rewrite words_app in Hw. simpl in Hw. lia.
Qed.
Lemma string_words b str : h !! b = Some (mkBlock String_tag (Bytes (string_bytes str))) -> Z.of_nat (length str) < 2 ^ 24 ->
  Z.of_nat (length str) <= 4 * block_words h b.
Proof.
  intros Hb Hl. unfold block_words. rewrite Hb. cbn [data size_of]. rewrite length_string_bytes by lia.
  rewrite (Z.mul_comm 4 (string_wosize _)), Z.div_mul by done. rewrite string_wosize_eq by lia. zlia.
Qed.
Lemma contents_ok f fuel : writes_list f fuel -> contents_written f fuel.
Proof.
  intros Hlist b vis out s He Hn Hs Hin Hnew Hf Hr blk s1 Hb He1.
  pose proof (block_words_all vis b Hn Hs Hin Hnew) as Hw. pose proof (words_nonneg h vis).
  destruct (all_closed b Hin) as (blk' & Hb' & Hgood). rewrite Hb in Hb'. injection Hb' as <-.
  unfold good_block in Hgood. destruct blk as [t [fs|c]]; cbn [data tag] in *.
  - destruct Hgood as (Hfs & Ht & Hsz & Hg). destruct (visited_snoc vis b Hn Hs Hnew Hin) as [Hn' Hs'].
    assert (block_words h b = 1 + Z.of_nat (length fs)) as Hbw by (unfold block_words; by rewrite Hb).
    assert (words h (vis ++ [b]) = words h vis + (1 + Z.of_nat (length fs))) as Hws by (rewrite words_app; simpl; lia).
    assert (0 <= t < 256) as Ht' by (destruct Ht as [[? _]| ->]; unfold Closure_tag; lia).
    pose proof (length_block_head t (Z.of_nat (length fs))) as Hhd.
    destruct (write_head_ok t (Z.of_nat (length fs)) Ht' ltac:(lia) _ _ _ _ He1) as (s2 & E2 & He2).
    { unfold room, budget in *. lia. }
    rewrite E2. cbn [ebind rbind].
    destruct (Hlist fs (vis ++ [b]) (out ++ block_head t (Z.of_nat (length fs)))
      (add_sizes (1 + Z.of_nat (length fs)) (1 + Z.of_nat (length fs)) s2))
      as (bs & vis' & s' & Henc & [Hd3 He3 Hn3 Hs3 [d ->] Hb3]); try done.
    { rewrite Hws. apply add_sizes_ok; [done|]. unfold Max_wosize in *. lia. }
    { rewrite length_app. simpl. lia. }
    { unfold room, budget in *. rewrite length_app. lia. }
    exists (block_head t (Z.of_nat (length fs)) ++ bs), ((vis ++ [b]) ++ d), s'. split.
    + intros l bs2 vis2 H2. rewrite <-app_assoc. by eapply enc_block.
    + split; try done; [by rewrite app_assoc|by exists ([b] ++ d); rewrite app_assoc|].
      unfold budget in *. rewrite length_app. lia.
  - assert (forall n, n <= 25 * block_words h b + 21 -> room out n) as Hroom.
    { intros n Hn'. unfold room, budget in *. lia. }
    destruct Hgood as [(-> & str & -> & Hbytes & Hl)|(-> & Hl)].
    + rewrite Z.eqb_refl. pose proof (string_words b str Hb Hl) as Hsw.
      pose proof (length_string_head (Z.of_nat (length str))) as Hhd.
      destruct (extern_string_ok b str _ _ _ _ Hb Hl He1) as (s' & E & He').
      { apply Hroom. pose proof (block_words_nonneg h b). lia. }
      { unfold Max_wosize in *. pose proof (block_words_nonneg h b). lia. }
      exists (string_head (Z.of_nat (length str)) ++ str), (vis ++ [b]), s'. split.
      * intros l bs2 vis2 H2. rewrite <-app_assoc. apply enc_string; try done. lia.
      * eapply wrote_leaf; try done. rewrite length_app. lia.
    + change (Double_tag =? String_tag) with false. cbv iota.
      assert (block_words h b = 3) as Hbw by (unfold block_words; rewrite Hb; simpl; by rewrite Hl).
      destruct (extern_double_ok b c _ _ _ _ Hb Hl He1) as (s' & E & He').
      { apply Hroom. lia. }
      { unfold Max_wosize in *. lia. }
      exists ([CODE_DOUBLE_LITTLE] ++ c), (vis ++ [b]), s'. split.
      * intros l bs2 vis2 H2. rewrite <-app_assoc. by apply enc_double.
      * eapply wrote_leaf; try done. rewrite length_app, Hl. simpl. lia.
Qed.

(** [extern_rec] on a block, once it is known not to be empty. *)
Lemma extern_block_eq fuel b blk s :
  h !! b = Some blk -> good_block code_size cl all blk ->
  extern_rec (S fuel) h (Ptr b) s =
  (let* (d, s) := check_seen addr (Ptr b) s in
   match d with
   | Some d => extern_shared d s
   | None =>
       match data blk with
       | Bytes c => if tag blk =? String_tag then extern_string h (Ptr b) c s else extern_double c s
       | Fields l => let+ s2 := write_head (tag blk) (Z.of_nat (length l)) s in
           each (extern_rec fuel h) l (add_sizes (1 + Z.of_nat (length l)) (1 + Z.of_nat (length l)) s2)
       end
   end).
Proof.
  intros Hb Hgood. cbn [Extern.extern_rec Is_long get_block]. rewrite Hb. cbn [of_ptr rbind].
  unfold good_block in Hgood. destruct blk as [t [fs|c]]; cbn [data tag size_of] in *.
  - destruct Hgood as (Hfs & Ht & _ & _). destruct (Z.eqb_spec (Z.of_nat (length fs)) 0) as [Hz|_].
    { destruct fs; [done|]. simpl in Hz. lia. }
    destruct (check_seen addr (Ptr b) s) as [[[d|] s1]| | |]; cbn [rbind]; try done.
    unfold plain_tag, String_tag, Double_tag, Double_array_tag, Abstract_tag, Final_tag, Infix_tag, Object_tag, Closure_tag in *.
    destruct (Z.eqb_spec t 252); [lia|]. destruct (Z.eqb_spec t 253); [lia|]. destruct (Z.eqb_spec t 254); [lia|].
    destruct (Z.eqb_spec t 251); [lia|]. destruct (Z.eqb_spec t 255); [lia|]. destruct (Z.eqb_spec t 249); [lia|].
    destruct (Z.eqb_spec t 248); [lia|]. done.
  - assert (0 < Z.of_nat (length c) / 4 /\ (t = String_tag \/ t = Double_tag)) as [Hz Ht].
    { destruct Hgood as [(-> & str & -> & _ & Hl)|(-> & ->)]; [|split; [done|by right]].
      rewrite length_string_bytes by lia. rewrite Z.mul_comm, Z.div_mul, string_wosize_eq by (done || lia).
      split; [zlia|by left]. }
    destruct (Z.eqb_spec (Z.of_nat (length c) / 4) 0) as [?|_]; [lia|].
    destruct (check_seen addr (Ptr b) s) as [[[d|] s1]| | |]; cbn [rbind]; try done. by destruct Ht as [-> | ->].
Qed.
Lemma extern_writes fuel : writes_one (extern_rec fuel h) fuel.
Proof.
  induction fuel as [|fuel IH]; intros v vis out s He Hn Hs Hv Hf Hr; [destruct (visited_bounds vis Hn Hs); lia|].
  assert (forall c bs, appends c bs -> (length bs <= 21)%nat -> (forall l bs2 vis2, enc h cks vis l bs2 vis2 -> enc h cks vis (v :: l) (bs ++ bs2) vis2) ->
    c s = extern_rec (S fuel) h v s -> exists bs vis' s', (forall l bs2 vis2, enc h cks vis' l bs2 vis2 -> enc h cks vis (v :: l) (bs ++ bs2) vis2) /\
    wrote (extern_rec (S fuel) h v s) vis out 1 bs vis' s') as Hplain.
  { intros c bs Ha Hl Henc <-. destruct (writes_plain c bs vis out s Ha He Hn Hs Hl Hr) as [s' Hw]. by exists bs, vis, s'. }
  destruct v as [w|b|t|p|d]; simpl in Hv.
  - destruct Hv as (n & Hnl & [= ->]). apply (Hplain (extern_int n) (int_bytes n)).
    + by apply extern_int_ok.
    + apply length_int_bytes.
    + intros l bs2 vis2. by apply enc_int.
    + cbn [Extern.extern_rec]. change (Int (u32 (Z.shiftl n 1 + 1))) with (Val_long n).
      rewrite Is_long_Val_long, Long_Val_long, wrap31_small by done. done.
  - destruct (all_closed b Hv) as (blk & Hb & Hgood). rewrite (extern_block_eq fuel b blk s Hb Hgood).
    destruct (visited_bounds vis Hn Hs) as [_ Hlv]. assert (Z.of_nat (length vis) < 2 ^ 29) by (unfold Max_wosize in *; lia).
    destruct (decide (b ∈ vis)) as [Hin|Hnew].
    + apply list_elem_of_lookup in Hin as [i Hi]. pose proof (lookup_lt_Some _ _ _ Hi).
      destruct (check_seen_old _ _ _ _ i b He) as (s1 & -> & He1); [done..|]. cbn [rbind].
      destruct (writes_plain (extern_shared (Z.of_nat (length vis - i))) _ vis out s1
        (extern_shared_ok (Z.of_nat (length vis - i)) ltac:(unfold is_u32; lia)) He1 Hn Hs (length_shared_bytes _) Hr) as [s' Hw].
      eexists _, vis, s'. split; [|done]. intros l bs2 vis2. apply enc_shared; [done|lia].
    + destruct (check_seen_new _ _ _ _ b He) as (s1 & -> & He1); [done..|]. cbn [rbind].
      by apply (contents_ok (extern_rec fuel h) fuel (writes_each _ _ IH) b vis out s).
  - apply (Hplain (write_head t 0) (block_head t 0)).
    + apply write_head_ok; [done|unfold Max_wosize; lia].
    + pose proof (length_block_head t 0). lia.
    + intros l bs2 vis2. by apply enc_atom.
    + unfold write_head. cbn [Extern.extern_rec Is_long get_block rbind tag data size_of length Z.of_nat].
      rewrite Z.eqb_refl. change (0 <? 8) with true. rewrite andb_true_r. change (Z.shiftl 0 4) with 0. by rewrite Z.add_0_r.
  - destruct Hv as (Hcl & Hp1 & Hp2). apply (Hplain _ _ (extern_code p Hp1 Hp2 Hcl)).
    + rewrite length_app, cks_length. simpl. lia.
    + intros l bs2 vis2. rewrite <-app_assoc. apply enc_code. unfold is_u32. lia.
    + done.
  - done.
Qed.
End encode.
