(* ===== verification/Intern.v ===== *)
(** * Structured input: kernel/Byterun/intern.c

    [intern_rec] reads one value of the compact external format into the block that
    [intern_alloc] made for the whole structure.  The model gives each block carved
    out of it a name of its own, and counts the words used, [dest_words]: going past the end of
    the structure, of the input or of the table of objects is a fault, as are the
    code pointers and infix pointers that the values of [Mlvalues] do not have. *)
From stdpp Require Import gmap list strings.
From S2P Require Import Prelude Mlvalues Intext.

(** The variables of the file.  [src] is the input from [intern_src] on, [whsize] the
    size of the block under [intern_dest] and [obj_table] the objects recorded
    so far, [num_objects] the size of the table: 0 when there is none. *)
Record istate := mkInt {
  src : list Z; dest_words : Z; whsize : Z; obj_table : list value; num_objects : Z; iheap : heap_t }.
Definition set_src x s := mkInt x (dest_words s) (whsize s) (obj_table s) (num_objects s) (iheap s).
Definition set_iheap x s := mkInt (src s) (dest_words s) (whsize s) (obj_table s) (num_objects s) x.

(** [dest]: a local variable, whose value is returned, or a field of a block. *)
Inductive dest := Local | Slot (b : nat) (i : Z).
Inductive iresult := Read (v : value) (s : istate) | Refused (e : ml_exn) (s : istate).

(** [*dest = v] *)
Definition put_dest (d : dest) (v : value) (h : heap_t) : result heap_t :=
  match d with Local => Ok h | Slot b i => set_Field h (Ptr b) i v end.
Definition put (d : dest) (v : value) (s : istate) : result istate :=
  let* h := put_dest d v (iheap s) in Ok (set_iheap h s).
(** [read8u] and its like on [intern_src]. *)
Definition read {A} (f : list Z -> result (A * list Z)) (s : istate) : result (A * istate) :=
  let* (a, l) := f (src s) in Ok (a, set_src l s).
(** [v = Val_hp(intern_dest)], recorded in the table when there is one; the words
    of the block hold what the memory held. *)
Definition new_block (b : Mlvalues.block) (s : istate) : result (nat * istate) :=
  let used := dest_words s + 1 + size_of (data b) in
  if used >? whsize s then Fault
  else
    let k := fresh (dom (iheap s)) in
    let h := <[k := b]> (iheap s) in
    if num_objects s =? 0 then Ok (k, mkInt (src s) used (whsize s) (obj_table s) (num_objects s) h)
    else if Z.of_nat (length (obj_table s)) <? num_objects s
    then Ok (k, mkInt (src s) used (whsize s) (obj_table s ++ [Ptr k]) (num_objects s) h)
    else Fault.
Definition read_shared (ofs : Z) (s : istate) : result value :=
  let i := Z.of_nat (length (obj_table s)) - ofs in
  if i <? 0 then Fault else of_ptr (obj_table s !! Z.to_nat i).
Definition read_string (len : Z) (s : istate) : result (value * istate) :=
  let size := string_wosize len in
  if size <? 1 then Fault
  else
  let pad := replicate (Z.to_nat (4 * (size - 1))) 0 ++ [0; 0; 0; u8 (4 * size - 1 - len)] in
  let* (k, s) := new_block (mkBlock String_tag (Bytes pad)) s in
  let* (str, s) := read (readblock len) s in
  let* h := blit_string (Ptr k) str (iheap s) in
  Ok (Ptr k, set_iheap h s).
Definition read_double (code : Z) (s : istate) : result (value * istate) :=
  let* (k, s) := new_block (mkBlock Double_tag (Bytes (replicate 8 0))) s in
  let* (d, s) := read (readblock 8) s in
  let d := if code =? CODE_DOUBLE_LITTLE then d else rev d in
  Ok (Ptr k, set_iheap (<[k := mkBlock Double_tag (Bytes d)]> (iheap s)) s).

Section intern.
Variables (code_checksum : list Z).

(** The calls of [intern_rec] for the fields of a block, in order; the last one
    is the tail call. *)
Fixpoint each_dest (f : dest -> istate -> result iresult) (l : list dest) (s : istate) : result (option ml_exn * istate) :=
  match l with
  | [] => Ok (None, s)
  | d :: l =>
      let* r := f d s in
      match r with Read _ s => each_dest f l s | Refused e s => Ok (Some e, s) end
  end.
Definition slots (k : nat) (size : Z) : list dest := (fun i => Slot k (Z.of_nat i)) <$> seq 0 (Z.to_nat size).
Definition finish (d : dest) (r : result (value * istate)) : result iresult :=
  let* (v, s) := r in let* s := put d v s in Ok (Read v s).

(** The label [read_block]. *)
Definition read_block (f : dest -> istate -> result iresult) (d : dest) (tag size : Z) (s : istate) : result iresult :=
  if size =? 0 then finish d (Ok (Atom tag, s))
  else
    let* (k, s) := new_block (mkBlock tag (Fields (replicate (Z.to_nat size) (Int 0)))) s in
    let* s := put d (Ptr k) s in
    let* (e, s) := each_dest f (slots k size) s in
    match e with None => Ok (Read (Ptr k) s) | Some e => Ok (Refused e s) end.

Fixpoint intern_rec (fuel : nat) (d : dest) (s : istate) : result iresult :=
  match fuel with
  | O => Loop
  | S fuel =>
      let* (code, s) := read read8u s in
      if code >=? PREFIX_SMALL_BLOCK then read_block (intern_rec fuel) d (Z.land code 0xF) (Z.land (code ⋙ 4) 0x7) s
      else if code >=? PREFIX_SMALL_INT then finish d (Ok (Val_int (Z.land code 0x3F), s))
      else if code >=? PREFIX_SMALL_STRING then finish d (read_string (Z.land code 0x1F) s)
      else if code =? CODE_INT8 then finish d (let* (n, s) := read read8s s in Ok (Val_long n, s))
      else if code =? CODE_INT16 then finish d (let* (n, s) := read read16s s in Ok (Val_long n, s))
      else if code =? CODE_INT32 then finish d (let* (n, s) := read read32s s in Ok (Val_long n, s))
      else if code =? CODE_INT64 then Ok (Refused (Failwith "input_value: integer too large") s)
      else if code =? CODE_SHARED8 then
        finish d (let* (ofs, s) := read read8u s in let* v := read_shared ofs s in Ok (v, s))
      else if code =? CODE_SHARED16 then
        finish d (let* (ofs, s) := read read16u s in let* v := read_shared ofs s in Ok (v, s))
      else if code =? CODE_SHARED32 then
        finish d (let* (ofs, s) := read read32u s in let* v := read_shared ofs s in Ok (v, s))
      else if code =? CODE_BLOCK32 then
        let* (hd, s) := read read32u s in read_block (intern_rec fuel) d (Tag_hd hd) (Wosize_hd hd) s
      else if code =? CODE_STRING8 then
        finish d (let* (len, s) := read read8u s in read_string len s)
      else if code =? CODE_STRING32 then
        finish d (let* (len, s) := read read32u s in read_string len s)
      else if (code =? CODE_DOUBLE_LITTLE) || (code =? CODE_DOUBLE_BIG) then finish d (read_double code s)
      else if (code =? CODE_DOUBLE_ARRAY8_LITTLE) || (code =? CODE_DOUBLE_ARRAY8_BIG) then
        let* (_, s) := read read8u s in Ok (Refused (Failwith "input_value: cannot read float array") s)
      else if (code =? CODE_DOUBLE_ARRAY32_LITTLE) || (code =? CODE_DOUBLE_ARRAY32_BIG) then
        let* (_, s) := read read32u s in Ok (Refused (Failwith "input_value: cannot read float array") s)
      else if code =? CODE_CODEPOINTER then
        let* (ofs, s) := read read32u s in
        let* (cksum, s) := read (readblock 16) s in
        if negb (bool_decide (cksum = code_checksum)) then Ok (Refused (Failwith "input_value: code mismatch") s)
        else if negb (ofs mod 4 =? 0) then Fault
        else finish d (Ok (Code (ofs / 4), s))
      else if code =? CODE_INFIXPOINTER then
        let* (_, s) := read read32u s in
        let* r := intern_rec fuel Local s in
        match r with Read _ _ => Fault | Refused e s => Ok (Refused e s) end
      else Ok (Refused (Failwith "input_value: ill-formed message") s)
  end.

(** [intern_alloc]: the block and the table for a structure of [whsize] words. *)
Definition intern_alloc (whsize num_objects : Z) (src : list Z) (h : heap_t) : istate + ml_exn :=
  if whsize =? 0 then inl (mkInt src 0 0 [] 0 h)
  else if whsize - 1 >? Max_wosize then inr (Failwith "intern: structure too big")
  else inl (mkInt src 0 whsize [] num_objects h).

(** [getword] of a channel, whose bytes are a list; it raises [End_of_file]. *)
Definition getword (chan : list Z) : option (Z * list Z) :=
  match read32u chan with Ok r => Some r | _ => None end.
Fixpoint getwords (n : nat) (chan : list Z) : option (list Z * list Z) :=
  match n with
  | O => Some ([], chan)
  | S n =>
      match getword chan with
      | None => None
      | Some (w, chan) =>
          match getwords n chan with None => None | Some (ws, chan) => Some (w :: ws, chan) end
      end
  end.
(** [input_val]: the value, the rest of the channel and the heap, or the exception. *)
Definition input_val (chan : list Z) (h : heap_t) : result ((value + ml_exn) * list Z * heap_t) :=
  match getword chan with
  | None => Ok (inr End_of_file, [], h)
  | Some (magic, chan) =>
  if negb (magic =? Intext_magic_number) then Ok (inr (Failwith "input_value: bad object"), chan, h)
  else
    match getwords 4 chan with
    | Some ([block_len; num_objects; size_32; size_64], chan) =>
    if Z.of_nat (length chan) <? block_len then Ok (inr (Failwith "input_value: truncated object"), [], h)
    else
      let* (input, chan) := readblock block_len chan in
      match intern_alloc size_32 num_objects input h with
      | inr e => Ok (inr e, chan, h)
      | inl s =>
          let* r := intern_rec (S (length input)) Local s in
          match r with
          | Read v s => Ok (inl v, chan, iheap s)
          | Refused e s => Ok (inr e, chan, h)
          end
      end
    | _ => Ok (inr End_of_file, [], h)
    end
  end.
(** [input_val_from_string] and [marshal_data_size] on the bytes of a string. *)
Definition input_val_from_string (h : heap_t) (str : value) (ofs : Z) : result ((value + ml_exn) * heap_t) :=
  let* b := get_block h str in
  match data b with
  | Fields _ => Fault
  | Bytes bs =>
      let* (_, input) := readblock (u32 (ofs + 2 * 4)) bs in
      let* (num_objects, input) := read32u input in
      let* (size_32, input) := read32u input in
      let* (size_64, input) := read32u input in
      match intern_alloc size_32 num_objects input h with
      | inr e => Ok (inr e, h)
      | inl s =>
          let* r := intern_rec (S (length input)) Local s in
          match r with
          | Read v s => Ok (inl v, iheap s)
          | Refused e s => Ok (inr e, h)
          end
      end
  end.
Definition marshal_data_size (h : heap_t) (buff : value) (ofs : Z) : result (value + ml_exn) :=
  let* b := get_block h buff in
  match data b with
  | Fields _ => Fault
  | Bytes bs =>
      let* (_, input) := readblock ofs bs in
      let* (magic, input) := read32u input in
      if negb (magic =? Intext_magic_number) then Ok (inr (Failwith "Marshal.data_size: bad object"))
      else let* (block_len, input) := read32u input in Ok (inl (Val_long block_len))
  end.
End intern.

(** ** Termination *)

Create HintDb ends.
Section total.
Variables (code_checksum : list Z).
(** A step of the reader returns or faults, and consumes no more than what is left. *)
Definition ends (n : nat) (r : result iresult) : Prop :=
  match r with
  | Loop => False
  | Ok (Read _ s) => (length (src s) <= n)%nat
  | _ => True
  end.
Lemma ends_le n n' r : (n <= n')%nat -> ends n r -> ends n' r.
Proof. destruct r as [[]| | |]; simpl; try done. lia. Qed.
(** The readers of the format do not loop, and consume from the front. *)
Definition shrinks {A} (f : list Z -> result (A * list Z)) : Prop :=
  forall l, match f l with Loop => False | Ok (_, l') => (length l' <= length l)%nat | _ => True end.
Lemma shrinks_read8u : shrinks read8u. Proof. intros [|? ?]; simpl; try done. lia. Qed.
Lemma shrinks_read8s : shrinks read8s. Proof. intros [|? ?]; simpl; try done. lia. Qed.
Lemma shrinks_read16u : shrinks read16u. Proof. intros [|? [|? ?]]; simpl; try done. lia. Qed.
Lemma shrinks_read16s : shrinks read16s. Proof. intros [|? [|? ?]]; simpl; try done. lia. Qed.
Lemma shrinks_read32u : shrinks read32u. Proof. intros [|? [|? [|? [|? ?]]]]; simpl; try done. lia. Qed.
Lemma shrinks_read32s : shrinks read32s. Proof. intros [|? [|? [|? [|? ?]]]]; simpl; try done. lia. Qed.
Lemma shrinks_readblock n : shrinks (readblock n).
Proof. intros l. unfold readblock. destruct (_ && _); [|done]. rewrite length_drop. lia. Qed.
(** A computation of the reader from input of length [n]. *)
Definition within {A} (n : nat) (r : result (A * istate)) : Prop :=
  match r with Loop => False | Ok (_, s) => (length (src s) <= n)%nat | _ => True end.
Lemma within_read {A B} (f : list Z -> result (A * list Z)) (k : A * istate -> result (B * istate)) n s :
  shrinks f -> (length (src s) <= n)%nat ->
  (forall a s', (length (src s') <= n)%nat -> within n (k (a, s'))) -> within n (rbind (read f s) k).
Proof.
  intros Hf Hs Hk. unfold read. specialize (Hf (src s)). destruct (f (src s)) as [[a l]| | |]; cbn [rbind]; try done.
  apply Hk. simpl. lia.
Qed.
Lemma finish_ends n d r : within n r -> ends n (finish d r).
Proof.
  intros Hr. unfold finish. destruct r as [[v s]| | |]; cbn [rbind]; try done. unfold put, put_dest.
  destruct d as [|b i]; cbn [rbind]; [done|]. unfold set_Field. destruct (iheap s !! b) as [[t [l|l]]|]; cbn [of_ptr rbind data]; try done.
  by destruct (_ && _).
Qed.
Lemma new_block_src b s k s' : new_block b s = Ok (k, s') -> src s' = src s.
Proof. unfold new_block. intros H. inv_ok H; done. Qed.
Lemma new_block_ends b s : new_block b s <> Loop.
Proof. unfold new_block. by repeat case_if. Qed.
Lemma put_src d v s s' : put d v s = Ok s' -> src s' = src s.
Proof. unfold put. intros H. by inv_ok H. Qed.
Lemma put_ends d v s : put d v s <> Loop.
Proof.
  unfold put, put_dest. destruct d as [|b i]; [done|]. unfold set_Field.
  destruct (iheap s !! b) as [[t [l|l]]|]; cbn [of_ptr rbind data]; try done. by destruct (_ && _).
Qed.
Lemma read_string_within len n s : (length (src s) <= n)%nat -> within n (read_string len s).
Proof.
  intros Hs. unfold read_string. case_if; [done|].
  pose proof (new_block_ends (mkBlock String_tag (Bytes (replicate (Z.to_nat (4 * (string_wosize len - 1))) 0 ++
    [0; 0; 0; u8 (4 * string_wosize len - 1 - len)]))) s) as Hn.
  destruct (new_block _ s) as [[k s1]| | |] eqn:E; cbn [rbind]; try done. apply new_block_src in E.
  apply within_read; [apply shrinks_readblock|by rewrite E|]. intros str s2 Hs2.
  destruct (blit_string (Ptr k) str (iheap s2)) as [h| | |] eqn:Eb; cbn [rbind]; try done.
  unfold blit_string in Eb. destruct (iheap s2 !! k) as [[t [l|l]]|]; cbn [of_ptr rbind data] in Eb; try done.
  by destruct (_ <=? _)%nat.
Qed.
Lemma read_double_within code n s : (length (src s) <= n)%nat -> within n (read_double code s).
Proof.
  intros Hs. unfold read_double. pose proof (new_block_ends (mkBlock Double_tag (Bytes (replicate 8 0))) s) as Hn.
  destruct (new_block _ s) as [[k s1]| | |] eqn:E; cbn [rbind]; try done. apply new_block_src in E.
  apply within_read; [apply shrinks_readblock|by rewrite E|]. by intros str s2 Hs2.
Qed.
Lemma each_dest_ends f n ds s :
  (forall d s, (length (src s) <= n)%nat -> ends n (f d s)) -> (length (src s) <= n)%nat ->
  match each_dest f ds s with Loop => False | Ok (None, s') => (length (src s') <= n)%nat | _ => True end.
Proof.
  intros Hf. revert s. induction ds as [|d ds IH]; intros s Hs; [done|]. simpl. specialize (Hf d s Hs).
  destruct (f d s) as [[v s1|e s1]| | |]; simpl in *; try done. by apply IH.
Qed.
Lemma read_block_ends f d t sz n s :
  (forall d s, (length (src s) <= n)%nat -> ends n (f d s)) -> (length (src s) <= n)%nat -> ends n (read_block f d t sz s).
Proof.
  intros Hf Hs. unfold read_block. destruct (sz =? 0); [by apply finish_ends|].
  pose proof (new_block_ends (mkBlock t (Fields (replicate (Z.to_nat sz) (Int 0)))) s) as Hn.
  destruct (new_block _ s) as [[k s1]| | |] eqn:E; cbn [rbind]; try done. apply new_block_src in E.
  pose proof (put_ends d (Ptr k) s1) as Hp. destruct (put d (Ptr k) s1) as [s2| | |] eqn:E2; cbn [rbind]; try done.
  apply put_src in E2. pose proof (each_dest_ends f n (slots k sz) s2 Hf) as He.
  destruct (each_dest f (slots k sz) s2) as [[[e|] s3]| | |]; cbn [rbind]; try done; apply He; by rewrite E2, E.
Qed.
Lemma read_ends {A} (f : list Z -> result (A * list Z)) (k : A * istate -> result iresult) n s :
  shrinks f -> (length (src s) <= n)%nat ->
  (forall a s', (length (src s') <= n)%nat -> ends n (k (a, s'))) -> ends n (rbind (read f s) k).
Proof.
  intros Hf Hs Hk. unfold read. specialize (Hf (src s)). destruct (f (src s)) as [[a l]| | |]; cbn [rbind]; try done.
  apply Hk. simpl. lia.
Qed.
Lemma read_within {A} (f : list Z -> result (A * list Z)) (k : A -> value) n s :
  shrinks f -> (length (src s) <= n)%nat -> within n (let* (a, s) := read f s in Ok (k a, s)).
Proof. intros Hf Hs. by apply within_read. Qed.
Lemma shared_within (f : list Z -> result (Z * list Z)) n s :
  shrinks f -> (length (src s) <= n)%nat -> within n (let* (ofs, s) := read f s in let* v := read_shared ofs s in Ok (v, s)).
Proof.
  intros Hf Hs. apply within_read; [done..|]. intros a s' Hs'. unfold read_shared. case_if; [done|].
  by destruct (obj_table s' !! _).
Qed.
#[local] Hint Resolve shrinks_read8u shrinks_read8s shrinks_read16u shrinks_read16s shrinks_read32u shrinks_read32s
  shrinks_readblock read_string_within read_double_within read_within shared_within finish_ends : ends.
Lemma intern_rec_ends fuel d s : (length (src s) < fuel)%nat -> ends (length (src s) - 1) (intern_rec code_checksum fuel d s).
Proof.
  revert d s. induction fuel as [|fuel IH]; intros d s Hf; [lia|]. cbn [intern_rec].
  unfold read at 1. destruct (src s) as [|c l] eqn:Es; [done|]. cbn [read8u rbind]. set (s1 := set_src l s).
  assert (length (c :: l) - 1 = length l)%nat as -> by (simpl; lia). simpl in Hf.
  assert (length (src s1) <= length l)%nat as Hl by done.
  assert (forall d s, (length (src s) <= length l)%nat -> ends (length l) (intern_rec code_checksum fuel d s)) as Hrec.
  { intros d' s' Hs'. eapply ends_le; [|apply IH; lia]. lia. }
  repeat case_if; eauto with ends; try done.
  - by apply read_block_ends.
  - apply read_ends; eauto with ends. intros hd s' Hs'. by apply read_block_ends.
  - apply finish_ends, within_read; eauto with ends.
  - apply finish_ends, within_read; eauto with ends.
  - by apply read_ends; eauto with ends.
  - by apply read_ends; eauto with ends.
  - apply read_ends; eauto with ends. intros ofs s2 Hs2. apply read_ends; eauto with ends. intros ck s3 Hs3.
    case_if; [done|]. case_if; [done|]. by apply finish_ends.
  - apply read_ends; eauto with ends. intros ofs s2 Hs2. specialize (Hrec Local s2 Hs2).
    by destruct (intern_rec _ _ _ _) as [[v s3|e s3]| | |].
Qed.
End total.

(** Reading ends, whatever the input: the bytes of a channel, well-formed or not, give a
    value, an exception or an access outside the message, after as many
    steps as the message has bytes. *)
Theorem input_ends (cks chan : list Z) (h : heap_t) : input_val cks chan h <> Loop.
Proof.
  unfold input_val. destruct (getword chan) as [[magic chan1]|]; [|done]. destruct (negb _); [done|].
  destruct (getwords 4 chan1) as [[[|len [|num [|s32 [|s64 [|]]]]] chan2]|]; try done.
  case_if; [done|]. destruct (readblock len chan2) as [[input chan3]| | |] eqn:E; cbn [rbind]; try done.
  - destruct (intern_alloc s32 num input h) as [s|e] eqn:Ea; [|done].
    assert (src s = input) as Hs by (unfold intern_alloc in Ea; repeat case_match; simplify_eq; done).
    pose proof (intern_rec_ends cks (S (length input)) Local s ltac:(rewrite Hs; lia)) as Hends.
    by destruct (intern_rec _ _ _ _) as [[]| | |].
  - pose proof (shrinks_readblock len chan2) as Hr. by rewrite E in Hr.
Qed.
