(* ===== verification/Decode.v ===== *)
(** * Decoding: [intern_rec] reads the format back

    On bytes of the format, [Intern] builds a copy of the graph: the blocks
    get fresh names, their contents are the copies of the contents, and the rest of
    the heap is untouched ([decode]). *)
From stdpp Require Import gmap list strings.
From S2P Require Import Prelude Mlvalues Intext Format Intern.

Section decode.
Variables (h : heap_t) (cks : list Z).
Abbreviation words := (words h).
Abbreviation enc := (enc h cks).

(** ** The copy *)

(** [v'] is the copy of [v] when the blocks [vis] have been copied to [nw]. *)
Definition vrel (vis nw : list nat) (v v' : value) : Prop :=
  match v with
  | Ptr b => exists i c, vis !! i = Some b /\ nw !! i = Some c /\ v' = Ptr c
  | _ => v' = v
  end.
Definition brel (vis nw : list nat) (blk blk' : block) : Prop :=
  tag blk' = tag blk /\
  match data blk, data blk' with
  | Fields l, Fields l' => Forall2 (vrel vis nw) l l'
  | Bytes l, Bytes l' => l' = l
  | _, _ => False
  end.
Lemma vrel_app vis nw d d' v v' : length nw = length vis -> vrel vis nw v v' -> vrel (vis ++ d) (nw ++ d') v v'.
Proof.
  intros Hl. destruct v; simpl; try done. intros (i & c & Hi & Hc & ->). exists i, c.
  by rewrite !lookup_app_l by (eapply lookup_lt_Some; eauto).
Qed.
Lemma vrels_app vis nw d d' l l' :
  length nw = length vis -> Forall2 (vrel vis nw) l l' -> Forall2 (vrel (vis ++ d) (nw ++ d')) l l'.
Proof. intros Hl Hf. eapply Forall2_impl; [done|]. intros. by apply vrel_app. Qed.
Lemma brel_app vis nw d d' blk blk' :
  length nw = length vis -> brel vis nw blk blk' -> brel (vis ++ d) (nw ++ d') blk blk'.
Proof.
  intros Hl [Ht Hd]. split; [done|]. destruct (data blk), (data blk'); try done. by apply vrels_app.
Qed.

(** Stores into fields, as total functions. *)
Definition put1 (d : dest) (v : value) (hp : heap_t) : heap_t :=
  match d with
  | Local => hp
  | Slot b i =>
      alter (fun blk => match data blk with
                        | Fields l => mkBlock (tag blk) (Fields (<[Z.to_nat i := v]> l))
                        | Bytes _ => blk
                        end) b hp
  end.
Fixpoint puts (ds : list dest) (vs : list value) (hp : heap_t) : heap_t :=
  match ds, vs with d :: ds, v :: vs => puts ds vs (put1 d v hp) | _, _ => hp end.
Definition valid (hp : heap_t) (d : dest) : Prop :=
  match d with
  | Local => True
  | Slot b i => exists t l, hp !! b = Some (mkBlock t (Fields l)) /\ 0 <= i < Z.of_nat (length l)
  end.
Lemma put_dest_ok d v hp : valid hp d -> put_dest d v hp = Ok (put1 d v hp).
Proof.
  destruct d as [|b i]; [done|]. intros (t & l & Hb & Hi). simpl. rewrite Hb. simpl.
  assert ((0 <=? i) && (i <? Z.of_nat (length l)) = true) as ->
    by (apply andb_true_intro; split; [apply Z.leb_le|apply Z.ltb_lt]; lia).
  f_equal. apply map_eq. intros c. destruct (decide (c = b)) as [->|Hne].
  - rewrite lookup_alter_eq, lookup_insert_eq, Hb. done.
  - by rewrite lookup_alter_ne, lookup_insert_ne.
Qed.
Lemma put1_pointwise d v hp1 hp2 c : hp1 !! c = hp2 !! c -> put1 d v hp1 !! c = put1 d v hp2 !! c.
Proof.
  destruct d as [|b i]; simpl; [done|]. intros Hc. destruct (decide (c = b)) as [->|Hne].
  - rewrite !lookup_alter_eq. by rewrite Hc.
  - by rewrite !lookup_alter_ne.
Qed.
Lemma puts_pointwise ds vs hp1 hp2 c : hp1 !! c = hp2 !! c -> puts ds vs hp1 !! c = puts ds vs hp2 !! c.
Proof.
  revert vs hp1 hp2. induction ds as [|d ds IH]; intros [|v vs] hp1 hp2 Hc; simpl; try done.
  by apply IH, put1_pointwise.
Qed.
Lemma puts_none ds vs hp c : hp !! c = None -> puts ds vs hp !! c = None.
Proof.
  revert vs hp. induction ds as [|d ds IH]; intros [|v vs] hp Hc; simpl; try done. apply IH.
  destruct d as [|b i]; simpl; [done|]. destruct (decide (c = b)) as [->|Hne].
  - by rewrite lookup_alter_eq, Hc.
  - by rewrite lookup_alter_ne.
Qed.
Lemma puts_app ds1 ds2 vs1 vs2 hp : length ds1 = length vs1 -> puts (ds1 ++ ds2) (vs1 ++ vs2) hp = puts ds2 vs2 (puts ds1 vs1 hp).
Proof. revert vs1 hp. induction ds1 as [|d ds1 IH]; intros [|v vs1] hp [=]; simpl; [done|]. by apply IH. Qed.
Lemma puts_other ds vs hp c : (forall i, Slot c i ∉ ds) -> puts ds vs hp !! c = hp !! c.
Proof.
  revert vs hp. induction ds as [|d ds IH]; intros [|v vs] hp Hc; simpl; try done.
  rewrite IH by (intros i Hi; apply (Hc i); by right). destruct d as [|b i]; simpl; [done|].
  apply lookup_alter_ne. intros ->. apply (Hc i). by left.
Qed.
Lemma valid_other hp d c : valid hp d -> hp !! c = None -> forall i, d <> Slot c i.
Proof. intros Hv Hc i ->. destruct Hv as (t & l & Hb & _). congruence. Qed.
Lemma valid_put1 hp d d' v : valid hp d -> valid (put1 d' v hp) d.
Proof.
  destruct d as [|b i], d' as [|b' i']; try done. intros (t & l & Hb & Hi). simpl.
  destruct (decide (b = b')) as [<-|Hne].
  - rewrite lookup_alter_eq, Hb. exists t, (<[Z.to_nat i':=v]> l). by rewrite length_insert.
  - rewrite lookup_alter_ne by done. eauto.
Qed.
Lemma valid_same hp1 hp2 d : (forall b, hp1 !! b <> None -> hp2 !! b = hp1 !! b) -> valid hp1 d -> valid hp2 d.
Proof. intros Hs. destruct d as [|b i]; [done|]. intros (t & l & Hb & Hi). exists t, l. by rewrite Hs, Hb by by rewrite Hb. Qed.

(** ** Reading one code *)

Definition stored (d : dest) (v : value) (rest : list Z) (s : istate) : istate :=
  mkInt rest (dest_words s) (whsize s) (obj_table s) (num_objects s) (put1 d v (iheap s)).
Lemma finish_ok d v s : valid (iheap s) d -> finish d (Ok (v, s)) = Ok (Read v (stored d v (src s) s)).
Proof. intros Hd. unfold finish, put. cbn [rbind]. by rewrite put_dest_ok by done. Qed.
Lemma read_ok {A} (f : list Z -> result (A * list Z)) s a rest :
  f (src s) = Ok (a, rest) -> read f s = Ok (a, set_src rest s).
Proof. intros H. unfold read. by rewrite H. Qed.

Lemma read_code s code rest : src s = code :: rest -> read read8u s = Ok (code, set_src rest s).
Proof. intros H. apply read_ok. by rewrite H. Qed.
(** Decide the comparisons of a code that is a literal or has known bounds. *)
Ltac code_tests :=
  repeat first
    [ progress cbn [rbind orb andb negb]
    | match goal with
      | |- context [?a >=? ?b] => first [assert ((a >=? b) = true) as -> by lia | assert ((a >=? b) = false) as -> by lia]
      | |- context [?a =? ?b] => first [assert ((a =? b) = true) as -> by lia | assert ((a =? b) = false) as -> by lia]
      end ].
Ltac intern_code H :=
  cbn [intern_rec]; rewrite (read_code _ _ _ H); cbn [rbind];
  unfold PREFIX_SMALL_BLOCK, PREFIX_SMALL_INT, PREFIX_SMALL_STRING, CODE_INT8, CODE_INT16, CODE_INT32, CODE_INT64,
    CODE_SHARED8, CODE_SHARED16, CODE_SHARED32, CODE_BLOCK32, CODE_STRING8, CODE_STRING32, CODE_DOUBLE_LITTLE,
    CODE_DOUBLE_BIG, CODE_DOUBLE_ARRAY8_LITTLE, CODE_DOUBLE_ARRAY8_BIG, CODE_DOUBLE_ARRAY32_LITTLE,
    CODE_DOUBLE_ARRAY32_BIG, CODE_CODEPOINTER, CODE_INFIXPOINTER in *;
  code_tests.
Lemma set_src_set_src x y s : set_src x (set_src y s) = set_src x s.
Proof. done. Qed.

Lemma rec_int fuel d s n rest :
  is_long n -> src s = int_bytes n ++ rest ->
  intern_rec cks (S fuel) d s = finish d (Ok (Val_long n, set_src rest s)).
Proof.
  unfold is_long, Min_long, Max_long, int_bytes. intros Hn. repeat case_if; cbn [app]; intros Hs; intern_code Hs.
  - do 4 f_equal. change 0x3F with (Z.ones 6). rewrite Z.land_ones by lia. unfold PREFIX_SMALL_INT. unfold Val_int. f_equal. zlia.
  - rewrite (read_ok read8s _ n rest); [done|]. apply (read8s_app n rest). lia.
  - rewrite (read_ok read16s _ n rest); [done|]. apply read16s_app. lia.
  - rewrite (read_ok read32s _ n rest); [done|]. apply read32s_app. unfold is_s32. lia.
Qed.
Lemma rec_shared fuel d s n v rest :
  is_u32 n -> src s = shared_bytes n ++ rest -> read_shared n (set_src rest s) = Ok v ->
  intern_rec cks (S fuel) d s = finish d (Ok (v, set_src rest s)).
Proof.
  unfold shared_bytes, is_u32. intros Hn. repeat case_if; cbn [app]; intros Hs Hv; intern_code Hs.
  - rewrite (read_ok read8u _ n rest) by done. cbn [rbind]. by rewrite set_src_set_src, Hv.
  - rewrite (read_ok read16u _ n rest) by (apply read16u_app; lia). cbn [rbind]. by rewrite set_src_set_src, Hv.
  - rewrite (read_ok read32u _ n rest) by (apply read32u_app; unfold is_u32; lia). cbn [rbind]. by rewrite set_src_set_src, Hv.
Qed.
Lemma header_parts t sz : 0 <= t < 256 -> 0 <= sz < 2 ^ 22 -> Tag_hd (Make_header sz t) = t /\ Wosize_hd (Make_header sz t) = sz.
Proof.
  intros Ht Hsz. unfold Make_header, Tag_hd, Wosize_hd. rewrite shiftl_mul by lia. rewrite u32_small by (unfold is_u32; lia).
  change 0xFF with (Z.ones 8). rewrite Z.land_ones, shiftr_div by lia. split; zlia.
Qed.
Lemma rec_block fuel d s t sz rest :
  0 <= t < 256 -> 0 <= sz <= Max_wosize -> src s = block_head t sz ++ rest ->
  intern_rec cks (S fuel) d s = read_block (intern_rec cks fuel) d t sz (set_src rest s).
Proof.
  unfold block_head, Max_wosize. intros Ht Hsz. case_if; cbn [app]; intros Hs.
  - apply andb_prop in Heqb as [Ht'%Z.ltb_lt Hsz'%Z.ltb_lt].
    rewrite shiftl_mul in Hs by lia. intern_code Hs.
    change 0xF with (Z.ones 4). change 7 with (Z.ones 3). rewrite !Z.land_ones, shiftr_div by lia.
    unfold PREFIX_SMALL_BLOCK. f_equal; zlia.
  - intern_code Hs. rewrite (read_ok read32u _ (Make_header sz t) rest) by (apply read32u_app; apply u32_range).
    cbn [rbind]. rewrite set_src_set_src. destruct (header_parts t sz) as [-> ->]; [done|lia|done].
Qed.
Lemma rec_string fuel d s len rest :
  0 <= len < 2 ^ 31 -> src s = string_head len ++ rest ->
  intern_rec cks (S fuel) d s = finish d (read_string len (set_src rest s)).
Proof.
  unfold string_head. intros Hn. repeat case_if; cbn [app]; intros Hs; intern_code Hs.
  - change 0x1F with (Z.ones 5). rewrite Z.land_ones by lia. unfold PREFIX_SMALL_STRING. do 2 f_equal. zlia.
  - by rewrite (read_ok read8u _ len rest) by done.
  - by rewrite (read_ok read32u _ len rest) by (apply read32u_app; unfold is_u32; lia).
Qed.
Lemma rec_double fuel d s rest :
  src s = CODE_DOUBLE_LITTLE :: rest ->
  intern_rec cks (S fuel) d s = finish d (read_double CODE_DOUBLE_LITTLE (set_src rest s)).
Proof. intros Hs. intern_code Hs. done. Qed.
Lemma rec_code fuel d s p rest :
  is_u32 (4 * p) -> length cks = 16%nat -> src s = CODE_CODEPOINTER :: be32 (4 * p) ++ cks ++ rest ->
  intern_rec cks (S fuel) d s = finish d (Ok (Code p, set_src rest s)).
Proof.
  intros Hp Hc Hs. intern_code Hs. rewrite (read_ok read32u _ (4 * p) (cks ++ rest)) by by apply read32u_app.
  cbn [rbind]. rewrite (read_ok (readblock 16) _ cks rest)
    by (pose proof (readblock_app cks rest) as Hr; rewrite Hc in Hr; exact Hr).
  cbn [rbind]. rewrite bool_decide_true by done. cbn [negb].
  assert (4 * p mod 4 = 0) as -> by zlia. cbn [Z.eqb negb]. do 4 f_equal. zlia.
Qed.

(** ** Decoding *)

(** What holds before and after reading the encoding of [l] into [ds]: the blocks
    [vis] have the copies [nw]; afterwards [nw'] are the fresh copies of the blocks that
    [vis'] has more, complete, and nothing else has changed. *)
Record pre (ds : list dest) (vis vis' nw : list nat) (s : istate) : Prop := {
  pre_table : obj_table s = Ptr <$> nw;
  pre_length : length nw = length vis;
  pre_objects : Z.of_nat (length vis') <= num_objects s;
  pre_words : dest_words s + words vis' - words vis <= whsize s;
  pre_valid : Forall (valid (iheap s)) ds }.
Record post (ds : list dest) (l vs : list value) (vis vis' nw nw' : list nat) (rest : list Z) (s s' : istate) : Prop := {
  post_src : src s' = rest;
  post_table : obj_table s' = Ptr <$> nw ++ nw';
  post_length : length (nw ++ nw') = length vis';
  post_words : dest_words s' = dest_words s + words vis' - words vis;
  post_sizes : whsize s' = whsize s /\ num_objects s' = num_objects s;
  post_values : Forall2 (vrel vis' (nw ++ nw')) l vs;
  post_nodup : NoDup nw';
  post_fresh c : c ∈ nw' -> iheap s !! c = None /\ iheap s' !! c <> None;
  post_same c : c ∉ nw' -> iheap s' !! c = puts ds vs (iheap s) !! c;
  post_copies i b c : (length vis <= i)%nat -> vis' !! i = Some b -> (nw ++ nw') !! i = Some c ->
    exists blk blk', h !! b = Some blk /\ iheap s' !! c = Some blk' /\ brel vis' (nw ++ nw') blk blk' }.

Lemma post_nil vis nw rest s :
  src s = rest -> obj_table s = Ptr <$> nw -> length nw = length vis -> post [] [] [] vis vis nw [] rest s s.
Proof.
  intros Hs Ht Hl. split; rewrite ?app_nil_r; try done.
  - lia.
  - constructor.
  - intros c Hc. by apply not_elem_of_nil in Hc.
  - intros i b c Hi Hb. apply lookup_lt_Some in Hb. lia.
Qed.
(** Values without a block. *)
Lemma post_imm d v0 v vis nw rest s :
  vrel vis nw v0 v -> obj_table s = Ptr <$> nw -> length nw = length vis ->
  post [d] [v0] [v] vis vis nw [] rest s (stored d v rest s).
Proof.
  intros Hv Ht Hl. split; rewrite ?app_nil_r; try done.
  - simpl. lia.
  - by repeat constructor.
  - constructor.
  - intros c Hc. by apply not_elem_of_nil in Hc.
  - intros i b c Hi Hb. apply lookup_lt_Some in Hb. lia.
Qed.
Lemma post_cons d ds v0 l v vs vis vis1 vis' nw nw1 nw2 rest1 rest s s1 s' :
  (exists d, vis' = vis1 ++ d) -> length nw = length vis -> Forall (valid (iheap s)) (d :: ds) ->
  post [d] [v0] [v] vis vis1 nw nw1 rest1 s s1 ->
  post ds l vs vis1 vis' (nw ++ nw1) nw2 rest s1 s' ->
  post (d :: ds) (v0 :: l) (v :: vs) vis vis' nw (nw1 ++ nw2) rest s s'.
Proof.
  intros [e He] Hlen [Hd Hds]%Forall_cons P1 P2.
  destruct P1 as [Hs1 Ht1 Hl1 Hw1 [Hz1 Hn1] Hv1 Hnd1 Hf1 Hsm1 Hc1].
  destruct P2 as [Hs2 Ht2 Hl2 Hw2 [Hz2 Hn2] Hv2 Hnd2 Hf2 Hsm2 Hc2].
  rewrite <-(app_assoc nw nw1 nw2) in *.
  assert (forall c, c ∈ nw1 -> iheap s' !! c = iheap s1 !! c) as Hkeep.
  { intros c Hc. rewrite Hsm2 by (intros Hc'; by apply (proj2 (Hf1 c Hc)), Hf2).
    apply puts_other. intros i Hi. rewrite Forall_forall in Hds.
    by apply (valid_other _ _ c (Hds _ Hi) (proj1 (Hf1 c Hc)) i). }
  assert (forall c, iheap s !! c <> None -> c ∉ nw1) as Hold by (intros c Hc Hin; by apply Hc, Hf1).
  assert (length nw + length nw1 = length vis1)%nat as Hl by by rewrite <-length_app.
  split.
  - done.
  - done.
  - done.
  - lia.
  - split; congruence.
  - constructor; [|done]. subst vis'. rewrite app_assoc. apply vrel_app; [done|]. by inversion Hv1.
  - apply NoDup_app. split; [done|]. split; [|done]. intros c Hc Hc'. by apply (proj2 (Hf1 c Hc)), Hf2.
  - intros c [Hc|Hc]%elem_of_app.
    + split; [by apply Hf1|]. rewrite Hkeep by done. by apply Hf1.
    + destruct (Hf2 c Hc) as [Hc1' Hc2']. split; [|done].
      destruct (decide (c ∈ nw1)) as [Hin|Hin]; [by destruct (Hf1 c Hin)|].
      rewrite Hsm1 in Hc1' by done. simpl in Hc1'. destruct d as [|b i]; [done|]. simpl in Hc1'.
      apply lookup_alter_None in Hc1'. done.
  - intros c [Hc1' Hc2']%not_elem_of_app. rewrite Hsm2 by done. simpl. apply puts_pointwise.
    by rewrite Hsm1.
  - intros i b c Hi Hb Hc. destruct (decide (i < length vis1)%nat) as [Hlt|Hge].
    + subst vis'. rewrite lookup_app_l in Hb by done.
      rewrite app_assoc, lookup_app_l in Hc by (rewrite length_app; lia).
      destruct (Hc1 i b c Hi Hb Hc) as (blk & blk' & Hb1 & Hb2 & Hrel). exists blk, blk'.
      split; [done|]. split; [|rewrite app_assoc; by apply brel_app].
      destruct (decide (c ∈ nw1)) as [Hin|Hin]; [by rewrite Hkeep|].
      exfalso. apply Hin. apply list_elem_of_lookup. exists (i - length nw)%nat.
      rewrite lookup_app_r in Hc by lia. done.
    + apply (Hc2 i b c); [lia|done|done].
Qed.
(** The state is again what [pre] asks for. *)
Lemma pre_tail d ds v0 v vis vis1 vis' nw nw1 rest s s1 :
  (exists d, vis' = vis1 ++ d) -> pre (d :: ds) vis vis' nw s -> post [d] [v0] [v] vis vis1 nw nw1 rest s s1 ->
  pre ds vis1 vis' (nw ++ nw1) s1.
Proof.
  intros [e He] [Ht Hl Ho Hw Hv] [Hs1 Ht1 Hl1 Hw1 [Hz1 Hn1] Hv1 Hnd1 Hf1 Hsm1 Hc1].
  split; [done|done|by rewrite Hn1|lia|].
  apply Forall_cons in Hv as [Hd Hds]. eapply Forall_impl; [exact Hds|]. intros [|b i] Hb; [done|].
  assert (b ∉ nw1) as Hb1 by (intros Hin; destruct Hb as (? & ? & Hb & _); rewrite (proj1 (Hf1 _ Hin)) in Hb; done).
  apply (valid_put1 _ _ d v) in Hb. destruct Hb as (t & l & Hb & Hi). exists t, l.
  by rewrite Hsm1 by done.
Qed.

(** ** A new block *)

Lemma new_block_ok b s nw :
  obj_table s = Ptr <$> nw -> Z.of_nat (length nw) < num_objects s ->
  dest_words s + 1 + size_of (data b) <= whsize s ->
  let k := fresh (dom (iheap s)) in
  new_block b s = Ok (k, mkInt (src s) (dest_words s + 1 + size_of (data b)) (whsize s) (Ptr <$> nw ++ [k]) (num_objects s)
    (<[k := b]> (iheap s))).
Proof.
  intros Ht Hn Hw k. unfold new_block. rewrite Ht, length_fmap.
  destruct (Z.gtb_spec (dest_words s + 1 + size_of (data b)) (whsize s)); [lia|].
  destruct (Z.eqb_spec (num_objects s) 0); [lia|].
  destruct (Z.ltb_spec (Z.of_nat (length nw)) (num_objects s)); [|lia]. by rewrite fmap_app.
Qed.
(** [blit_string] into the block of [alloc_string] gives the block of the string. *)
Lemma string_bytes_blit s :
  Z.of_nat (length s) < 2 ^ 31 ->
  let size := string_wosize (Z.of_nat (length s)) in
  let l := replicate (Z.to_nat (4 * (size - 1))) 0 ++ [0; 0; 0; u8 (4 * size - 1 - Z.of_nat (length s))] in
  Z.of_nat (length l) = 4 * size /\ 1 <= size /\ (length s <= length l)%nat /\ s ++ drop (length s) l = string_bytes s.
Proof.
  intros Hs size l. subst size l. rewrite string_wosize_eq by lia. set (n := Z.of_nat (length s)) in *.
  set (w := (n + 4) / 4). assert (4 * w - 4 <= n < 4 * w) as Hw by (subst w; zlia).
  rewrite length_app, length_replicate. cbn [length]. split; [lia|]. split; [lia|]. split; [lia|].
  unfold string_bytes. fold n. rewrite string_wosize_eq by lia. fold w. f_equal.
  rewrite drop_app_ge by (rewrite length_replicate; lia). rewrite length_replicate.
  assert (u8 (4 * w - 1 - n) = 4 * w - 1 - n) as -> by (unfold u8; apply Z.mod_small; lia).
  assert (Z.of_nat (4 * Z.to_nat w - 1 - length s) = 4 * w - 1 - n) as -> by lia.
  assert (n - (4 * w - 4) = 0 \/ n - (4 * w - 4) = 1 \/ n - (4 * w - 4) = 2 \/ n - (4 * w - 4) = 3) as Hd by lia.
  set (k := (length s - Z.to_nat (4 * (w - 1)))%nat).
  assert (4 * Z.to_nat w - 1 - length s = 3 - k)%nat as -> by lia.
  assert (k = 0 \/ k = 1 \/ k = 2 \/ k = 3)%nat as [-> | [-> | [-> | ->]]] by lia; done.
Qed.

(** The state after a block [blk] has been read under the name [k]. *)
Definition added (k : nat) (blk : block) (nw : list nat) (rest : list Z) (s : istate) : istate :=
  mkInt rest (dest_words s + 1 + size_of (data blk)) (whsize s) (Ptr <$> nw ++ [k]) (num_objects s) (<[k := blk]> (iheap s)).
Lemma read_string_ok str nw rest s :
  Z.of_nat (length str) < 2 ^ 31 -> src s = str ++ rest -> obj_table s = Ptr <$> nw ->
  Z.of_nat (length nw) < num_objects s ->
  let blk := mkBlock String_tag (Bytes (string_bytes str)) in let k := fresh (dom (iheap s)) in
  dest_words s + 1 + size_of (data blk) <= whsize s ->
  read_string (Z.of_nat (length str)) s = Ok (Ptr k, added k blk nw rest s).
Proof.
  intros Hl Hs Ht Hn blk k Hw. destruct (string_bytes_blit str Hl) as (E & H1 & Hle & Hb).
  assert (size_of (data blk) = string_wosize (Z.of_nat (length str))) as Hsz
    by (simpl; rewrite length_string_bytes by done; zlia).
  rewrite Hsz in Hw. unfold read_string. destruct (Z.ltb_spec (string_wosize (Z.of_nat (length str))) 1); [lia|].
  set (l := replicate _ 0 ++ _) in *.
  assert (size_of (Bytes l) = string_wosize (Z.of_nat (length str))) as Hsz' by (simpl; rewrite E; zlia).
  rewrite (new_block_ok _ s nw) by (done || (cbn [data]; lia)). cbn [rbind].
  rewrite (read_ok (readblock _) _ str rest) by (cbn [src]; rewrite Hs; apply readblock_app). cbn [rbind].
  unfold blit_string. cbn [iheap set_src]. fold k. rewrite lookup_insert_eq. cbn [of_ptr rbind data tag].
  destruct (Nat.leb_spec (length str) (length l)); [|lia]. cbn [rbind]. rewrite Hb, insert_insert_eq.
  unfold added, set_iheap. cbn [src dest_words whsize obj_table num_objects]. fold blk. do 3 f_equal.
  cbn [data]. rewrite Hsz'. by rewrite Hsz.
Qed.
Lemma read_double_ok d nw rest s :
  length d = 8%nat -> src s = d ++ rest -> obj_table s = Ptr <$> nw -> Z.of_nat (length nw) < num_objects s ->
  let blk := mkBlock Double_tag (Bytes d) in let k := fresh (dom (iheap s)) in
  dest_words s + 1 + size_of (data blk) <= whsize s ->
  read_double CODE_DOUBLE_LITTLE s = Ok (Ptr k, added k blk nw rest s).
Proof.
  intros Hl Hs Ht Hn blk k Hw. unfold read_double. cbn [data size_of blk] in Hw.
  assert (size_of (Bytes (replicate 8 0)) = size_of (Bytes d)) as Hsz by (simpl; by rewrite Hl).
  rewrite (new_block_ok _ s nw) by (done || (cbn [data]; rewrite Hsz; done)). cbn [rbind].
  rewrite (read_ok (readblock 8) _ d rest)
    by (cbn [src]; rewrite Hs; pose proof (readblock_app d rest) as Hr; rewrite Hl in Hr; exact Hr).
  cbn [rbind]. rewrite Z.eqb_refl. cbn [iheap set_src]. fold k. rewrite insert_insert_eq.
  unfold added. cbn [data]. by rewrite Hsz.
Qed.
Lemma words_snoc vis b blk : h !! b = Some blk -> words (vis ++ [b]) = words vis + 1 + size_of (data blk).
Proof. intros Hb. rewrite (words_app h). simpl. unfold block_words. rewrite Hb. lia. Qed.

(** Strings and doubles: the block has its contents when it is recorded. *)
Lemma post_leaf d b bs t vis nw rest s :
  let blk := mkBlock t (Bytes bs) in let k := fresh (dom (iheap s)) in
  h !! b = Some blk -> length nw = length vis -> valid (iheap s) d ->
  post [d] [Ptr b] [Ptr k] vis (vis ++ [b]) nw [k] rest s (stored d (Ptr k) rest (added k blk nw rest s)).
Proof.
  intros blk k Hb Hl Hd. assert (iheap s !! k = None) as Hk by apply lookup_fresh.
  assert (put1 d (Ptr k) (<[k:=blk]> (iheap s)) !! k = Some blk) as Hnew.
  { pose proof (puts_other [d] [Ptr k] (<[k:=blk]> (iheap s)) k) as E. simpl in E.
    rewrite E, lookup_insert_eq; [done|]. intros i Hi%list_elem_of_singleton.
    by apply (valid_other _ _ _ Hd Hk i). }
  split; try done.
  - rewrite !length_app. simpl. lia.
  - rewrite (words_snoc _ _ blk Hb). simpl. lia.
  - constructor; [|constructor]. exists (length vis), k.
    split; [by rewrite lookup_app_r, Nat.sub_diag by lia|]. by rewrite <-Hl, lookup_app_r, Nat.sub_diag by lia.
  - apply NoDup_singleton.
  - intros c ->%list_elem_of_singleton. split; [done|]. simpl. by rewrite Hnew.
  - intros c Hc%not_elem_of_cons. simpl. apply put1_pointwise. by rewrite lookup_insert_ne by (intros <-; by destruct Hc).
  - intros i b' c Hi Hb' Hc. assert (i = length vis) as ->
      by (apply lookup_lt_Some in Hb'; rewrite length_app in Hb'; simpl in Hb'; lia).
    rewrite lookup_app_r, Nat.sub_diag in Hb' by lia. rewrite <-Hl, lookup_app_r, Nat.sub_diag in Hc by lia.
    injection Hb' as <-. injection Hc as <-. exists blk, blk. by rewrite Hb.
Qed.

(** ** A block with fields *)

Lemma puts_from k t l vs j hp :
  hp !! k = Some (mkBlock t (Fields l)) -> (j + length vs = length l)%nat ->
  puts ((fun i => Slot k (Z.of_nat i)) <$> seq j (length vs)) vs hp !! k = Some (mkBlock t (Fields (take j l ++ vs))).
Proof.
  revert j l hp. induction vs as [|v vs IH]; intros j l hp Hk Hl; cbn [length seq fmap list_fmap puts].
  - rewrite app_nil_r, take_ge by (simpl in Hl; lia). done.
  - rewrite (IH (S j) (<[j:=v]> l)).
    + do 3 f_equal. rewrite (take_S_r _ _ v) by (apply list_lookup_insert_eq; simpl in Hl; lia).
      rewrite take_insert_ge by lia. by rewrite <-app_assoc.
    + unfold put1. rewrite lookup_alter_eq, Hk. simpl. by rewrite Nat2Z.id.
    + rewrite length_insert. simpl in Hl. lia.
Qed.
Lemma put1_none d v hp c : put1 d v hp !! c = None -> hp !! c = None.
Proof. destruct d as [|b i]; [done|]. simpl. apply lookup_alter_None. Qed.

(** The state in which the fields of a block of [size] words are read. *)
Definition opened (d : dest) (t : Z) (size : nat) (nw : list nat) (s : istate) : istate :=
  let k := fresh (dom (iheap s)) in
  let blk := mkBlock t (Fields (replicate size (Int 0))) in
  stored d (Ptr k) (src s) (added k blk nw (src s) s).
Lemma valid_added d k blk s :
  iheap s !! k = None -> valid (iheap s) d -> valid (<[k:=blk]> (iheap s)) d.
Proof.
  intros Hk. apply valid_same. intros b Hb. apply lookup_insert_ne. by intros <-.
Qed.
Lemma opened_lookup d t size nw s :
  valid (iheap s) d ->
  iheap (opened d t size nw s) !! fresh (dom (iheap s)) = Some (mkBlock t (Fields (replicate size (Int 0)))).
Proof.
  intros Hd. set (k := fresh _). simpl. fold k. set (hp := <[k:=_]> _).
  pose proof (puts_other [d] [Ptr k] hp k) as E. simpl in E. rewrite E; [by apply lookup_insert_eq|].
  intros i Hi%list_elem_of_singleton. by apply (valid_other _ _ k Hd (lookup_fresh _) i).
Qed.
Lemma read_block_ok f d t size nw s s' :
  obj_table s = Ptr <$> nw -> Z.of_nat (length nw) < num_objects s -> (0 < size)%nat ->
  dest_words s + 1 + Z.of_nat size <= whsize s -> valid (iheap s) d ->
  let k := fresh (dom (iheap s)) in
  each_dest f (slots k (Z.of_nat size)) (opened d t size nw s) = Ok (None, s') ->
  read_block f d t (Z.of_nat size) s = Ok (Read (Ptr k) s').
Proof.
  intros Ht Hn Hsz Hw Hd k He. unfold read_block. destruct (Z.eqb_spec (Z.of_nat size) 0); [lia|].
  rewrite Nat2Z.id.
  rewrite (new_block_ok _ s nw) by (done || (simpl; rewrite length_replicate; lia)). cbn [rbind].
  unfold put. rewrite put_dest_ok by (cbn [iheap]; apply valid_added; [apply lookup_fresh|done]). cbn [rbind].
  fold k. change (set_iheap _ _) with (opened d t size nw s). by rewrite He.
Qed.
Lemma pre_opened d t fs vis vis1 nw b s :
  h !! b = Some (mkBlock t (Fields fs)) -> pre [d] vis vis1 nw s ->
  pre (slots (fresh (dom (iheap s))) (Z.of_nat (length fs))) (vis ++ [b]) vis1 (nw ++ [fresh (dom (iheap s))])
    (opened d t (length fs) nw s).
Proof.
  intros Hb [Ht Hl Ho Hw Hv]. apply Forall_cons in Hv as [Hv _]. split.
  - done.
  - rewrite !length_app. simpl. lia.
  - done.
  - rewrite (words_snoc _ _ _ Hb). cbn [opened stored added dest_words whsize data size_of].
    rewrite length_replicate. lia.
  - apply Forall_forall. intros e He. unfold slots in He. rewrite Nat2Z.id in He.
    apply list_elem_of_fmap in He as (i & -> & Hi%elem_of_seq). simpl.
    exists t, (replicate (length fs) (Int 0)). rewrite length_replicate. split; [|lia].
    by apply (opened_lookup d t (length fs) nw s).
Qed.
Lemma post_block d t fs vs vis vis1 nw nw1 b rest s s' :
  h !! b = Some (mkBlock t (Fields fs)) -> (exists e, vis1 = (vis ++ [b]) ++ e) -> pre [d] vis vis1 nw s ->
  let k := fresh (dom (iheap s)) in
  post (slots k (Z.of_nat (length fs))) fs vs (vis ++ [b]) vis1 (nw ++ [k]) nw1 rest (opened d t (length fs) nw s) s' ->
  post [d] [Ptr b] [Ptr k] vis vis1 nw (k :: nw1) rest s s'.
Proof.
  intros Hb [e He] [Ht Hl _ Hw [Hd _]%Forall_cons] k [Hs1 Ht1 Hl1 Hw1 [Hz1 Hn1] Hv1 Hnd1 Hf1 Hsm1 Hc1].
  pose proof (opened_lookup d t (length fs) nw s Hd) as Hk. fold k in Hk.
  rewrite <-(app_assoc nw [k] nw1) in *. cbn [app] in *.
  assert (k ∉ nw1) as Hk1 by (intros Hin; apply Hf1 in Hin as [Hin _]; congruence).
  assert (length vs = length fs) as Hlen by (symmetry; by eapply Forall2_length).
  assert (iheap s' !! k = Some (mkBlock t (Fields vs))) as Hfull.
  { rewrite Hsm1 by done. unfold slots. rewrite Nat2Z.id, <-Hlen. rewrite Hlen at 2.
    rewrite (puts_from k t (replicate (length fs) (Int 0)) vs 0) by (rewrite ?length_replicate; done). done. }
  split.
  - done.
  - done.
  - done.
  - rewrite Hw1, (words_snoc _ _ _ Hb). cbn [opened stored added dest_words data size_of]. rewrite length_replicate. lia.
  - done.
  - constructor; [|constructor]. exists (length vis), k. subst vis1. split; [|split; [|done]].
    + by rewrite <-app_assoc, lookup_app_r, Nat.sub_diag by lia.
    + by rewrite <-Hl, lookup_app_r, Nat.sub_diag by lia.
  - by constructor.
  - intros c [->|Hc]%elem_of_cons.
    + split; [apply lookup_fresh|by rewrite Hfull].
    + destruct (Hf1 c Hc) as [Hn Hs']. split; [|done]. apply put1_none in Hn.
      cbn [iheap added] in Hn. by apply lookup_insert_None in Hn as [? _].
  - intros c [Hck Hc]%not_elem_of_cons. rewrite Hsm1 by done.
    rewrite puts_other by (intros i Hi; unfold slots in Hi; apply list_elem_of_fmap in Hi as (? & ? & _); congruence).
    cbn [puts opened stored iheap]. apply put1_pointwise. cbn [iheap added]. by rewrite lookup_insert_ne.
  - intros i b' c Hi Hb' Hc. destruct (decide (i = length vis)) as [->|Hne].
    + subst vis1. rewrite <-app_assoc, lookup_app_r, Nat.sub_diag in Hb' by lia. injection Hb' as <-.
      rewrite <-Hl, lookup_app_r, Nat.sub_diag in Hc by lia. injection Hc as <-.
      eexists _, _. split; [done|]. split; [done|]. by split.
    + apply (Hc1 i); [rewrite length_app; simpl; lia|done|done].
Qed.

(** ** Reading the encoding of a list of values *)

(** Reading succeeds for each destination in turn, with these values. *)
Inductive each_read (f : dest -> istate -> result iresult) : list dest -> istate -> list value -> istate -> Prop :=
  | each_read_nil s : each_read f [] s [] s
  | each_read_cons d ds s v s1 vs s' :
      f d s = Ok (Read v s1) -> each_read f ds s1 vs s' -> each_read f (d :: ds) s (v :: vs) s'.
Lemma each_read_dest f ds s vs s' : each_read f ds s vs s' -> each_dest f ds s = Ok (None, s').
Proof. induction 1 as [|d ds s v s1 vs s' Hd _ IH]; [done|]. simpl. by rewrite Hd. Qed.
Lemma shared_d_bytes n : shared_bytes n <> [].
Proof. unfold shared_bytes. by repeat case_if. Qed.
Lemma int_bytes_nil n : int_bytes n <> [].
Proof. unfold int_bytes. by repeat case_if. Qed.
Lemma block_head_nil t n : block_head t n <> [].
Proof. unfold block_head. by repeat case_if. Qed.
Lemma string_head_nil n : string_head n <> [].
Proof. unfold string_head. by repeat case_if. Qed.
Lemma length_nonnil {A} (l : list A) : l <> [] -> (0 < length l)%nat.
Proof. destruct l; simpl; [done|lia]. Qed.

Definition reads (vis : list nat) (l : list value) (bs : list Z) (vis' : list nat) : Prop :=
  forall fuel ds nw rest s,
  length ds = length l -> pre ds vis vis' nw s -> src s = bs ++ rest -> (length (src s) < fuel)%nat ->
  exists s' vs nw', each_read (intern_rec cks fuel) ds s vs s' /\ post ds l vs vis vis' nw nw' rest s s'.
(** Read one value, then the others. *)
Lemma reads_cons v0 l bs1 bs2 vis vis1 vis' :
  (exists e, vis' = vis1 ++ e) -> bs1 <> [] ->
  (forall fuel d nw rest s, pre [d] vis vis1 nw s -> src s = bs1 ++ rest -> (length (src s) < S fuel)%nat ->
   exists s' v nw', intern_rec cks (S fuel) d s = Ok (Read v s') /\ post [d] [v0] [v] vis vis1 nw nw' rest s s') ->
  reads vis1 l bs2 vis' -> reads vis (v0 :: l) (bs1 ++ bs2) vis'.
Proof.
  intros He Hbs Hone Htail [|fuel] [|d ds] nw rest s [=Hds] Hpre Hs Hfuel; [lia|].
  rewrite <-app_assoc in Hs. assert (pre [d] vis vis1 nw s) as Hpre1.
  { destruct Hpre as [Ht Hl Ho Hw [Hd _]%Forall_cons]. destruct He as [e ->].
    rewrite (words_app h) in Hw. rewrite length_app in Ho. pose proof (words_nonneg h e). split; try done; try lia.
    by apply Forall_singleton. }
  destruct (Hone fuel d nw (bs2 ++ rest) s) as (s1 & v & nw1 & Hrec & P1); [done..|].
  pose proof (pre_tail _ _ _ _ _ _ _ _ _ _ _ _ He Hpre P1) as Hpre2.
  destruct (Htail (S fuel) ds (nw ++ nw1) rest s1) as (s' & vs & nw2 & Hrest & P2); try done.
  { apply (post_src _ _ _ _ _ _ _ _ _ _ P1). }
  { rewrite (post_src _ _ _ _ _ _ _ _ _ _ P1). rewrite Hs, length_app in Hfuel. apply length_nonnil in Hbs. lia. }
  exists s', (v :: vs), (nw1 ++ nw2). split.
  - by econstructor.
  - eapply post_cons; try done; apply Hpre.
Qed.

Lemma reads_imm v0 l bs1 bs2 vis vis' :
  (forall vis nw, vrel vis nw v0 v0) -> (exists e, vis' = vis ++ e) -> bs1 <> [] ->
  (forall fuel d s rest, src s = bs1 ++ rest -> intern_rec cks (S fuel) d s = finish d (Ok (v0, set_src rest s))) ->
  reads vis l bs2 vis' -> reads vis (v0 :: l) (bs1 ++ bs2) vis'.
Proof.
  intros Hv He Hbs Hrec. apply reads_cons; [done..|].
  intros fuel d nw rest s [Ht Hl _ _ [Hd _]%Forall_cons] Hs _. rewrite (Hrec _ _ _ _ Hs).
  rewrite finish_ok by done. eexists _, v0, []. split; [done|]. by apply (post_imm d v0 v0 vis nw rest s).
Qed.
Lemma pre_room d vis b vis' nw s blk :
  pre [d] vis vis' nw s -> (exists e, vis' = (vis ++ [b]) ++ e) -> h !! b = Some blk ->
  Z.of_nat (length nw) < num_objects s /\ dest_words s + 1 + size_of (data blk) <= whsize s.
Proof.
  intros [Ht Hl Ho Hw _] [e ->] Hb. rewrite (words_app h), (words_snoc _ _ _ Hb) in Hw. pose proof (words_nonneg h e).
  rewrite !length_app in Ho. simpl in Ho. lia.
Qed.
Lemma post_any_src x ds l vs vis vis' nw nw' rest s s' :
  post ds l vs vis vis' nw nw' rest (set_src x s) s' -> post ds l vs vis vis' nw nw' rest s s'.
Proof. by intros []. Qed.
Lemma length_slots k n : length (slots k (Z.of_nat n)) = n.
Proof. unfold slots. by rewrite length_fmap, length_seq, Nat2Z.id. Qed.
Lemma plain_tag_range t : plain_tag t -> 0 <= t < 256.
Proof. intros [[? _]| ->]; [lia|]. unfold Closure_tag. lia. Qed.

(** One lemma per way a block is written. *)
Lemma reads_shared vis i b l bs vis' :
  vis !! i = Some b -> Z.of_nat (length vis) < 2 ^ 32 -> (exists e, vis' = vis ++ e) ->
  reads vis l bs vis' -> reads vis (Ptr b :: l) (shared_bytes (Z.of_nat (length vis - i)) ++ bs) vis'.
Proof.
  intros Hi Hlen He. apply (reads_cons _ _ _ _ _ vis); [done|apply shared_d_bytes|].
  intros fuel d nw rest s [Htab Hl _ _ [Hd _]%Forall_cons] Hs _.
  assert (exists c, nw !! i = Some c) as [c Hc] by (apply lookup_lt_is_Some; rewrite Hl; by eapply lookup_lt_Some).
  pose proof (lookup_lt_Some _ _ _ Hi).
  rewrite (rec_shared fuel d s (Z.of_nat (length vis - i)) (Ptr c) rest); [|unfold is_u32; lia|done|].
  - rewrite finish_ok by done. eexists _, _, []. split; [done|].
    apply (post_imm d (Ptr b) (Ptr c) vis nw rest s); [|done..]. by exists i, c.
  - unfold read_shared. cbn [obj_table set_src]. rewrite Htab, length_fmap, Hl.
    assert (Z.of_nat (length vis) - Z.of_nat (length vis - i) = Z.of_nat i) as -> by lia.
    destruct (Z.ltb_spec (Z.of_nat i) 0); [lia|]. by rewrite Nat2Z.id, list_lookup_fmap, Hc.
Qed.
Lemma reads_leaf vis b t content hd l bs vis' :
  h !! b = Some (mkBlock t (Bytes content)) -> (exists e, vis' = (vis ++ [b]) ++ e) -> hd <> [] ->
  (forall fuel d nw rest s, src s = hd ++ rest -> obj_table s = Ptr <$> nw -> Z.of_nat (length nw) < num_objects s ->
   dest_words s + 1 + size_of (Bytes content) <= whsize s ->
   let k := fresh (dom (iheap s)) in
   intern_rec cks (S fuel) d s = finish d (Ok (Ptr k, added k (mkBlock t (Bytes content)) nw rest s))) ->
  reads (vis ++ [b]) l bs vis' -> reads vis (Ptr b :: l) (hd ++ bs) vis'.
Proof.
  intros Hh He Hhd Hrec. apply (reads_cons _ _ _ _ _ (vis ++ [b])); [done..|].
  intros fuel d nw rest s Hpre Hs _.
  destruct (pre_room _ _ b _ _ _ _ Hpre ltac:(by exists []; rewrite app_nil_r) Hh) as [Hn Hw].
  destruct Hpre as [Htab Hl _ _ [Hd _]%Forall_cons].
  rewrite (Hrec fuel d nw rest s) by done.
  rewrite finish_ok by (apply valid_added; [apply lookup_fresh|done]).
  eexists _, _, _. split; [done|]. by apply (post_leaf d b content t vis nw rest s).
Qed.
Lemma reads_block vis b t fs bs1 vis1 l bs2 vis' :
  h !! b = Some (mkBlock t (Fields fs)) -> fs <> [] -> plain_tag t -> Z.of_nat (length fs) <= Max_wosize ->
  (exists e, vis1 = (vis ++ [b]) ++ e) -> (exists e, vis' = vis1 ++ e) ->
  reads (vis ++ [b]) fs bs1 vis1 -> reads vis1 l bs2 vis' ->
  reads vis (Ptr b :: l) (block_head t (Z.of_nat (length fs)) ++ bs1 ++ bs2) vis'.
Proof.
  intros Hh Hfs Ht Hsz He1 He2 IH1 IH2. rewrite app_assoc. apply (reads_cons _ _ _ _ _ vis1); [done| | |done].
  { intros [Hnil _]%app_eq_nil. by apply block_head_nil in Hnil. }
  intros fuel d nw rest s Hpre Hs Hfuel. rewrite <-app_assoc in Hs.
  destruct (pre_room _ _ b _ _ _ _ Hpre He1 Hh) as [Hn Hw].
  set (s2 := set_src (bs1 ++ rest) s). assert (pre [d] vis vis1 nw s2) as Hpre2 by (by destruct Hpre).
  pose proof (pre_opened _ _ _ _ _ _ _ _ Hh Hpre2) as Hpre1.
  rewrite (rec_block fuel d s t (Z.of_nat (length fs)) (bs1 ++ rest)) by (done || by apply plain_tag_range || lia).
  fold s2. destruct (IH1 fuel _ _ rest _ (length_slots _ _) Hpre1) as (s' & vs & nw1 & Heach%each_read_dest & P); [done| |].
  { cbn [opened stored src s2 set_src]. rewrite Hs, length_app in Hfuel.
    pose proof (length_nonnil _ (block_head_nil t (Z.of_nat (length fs)))). lia. }
  rewrite (read_block_ok _ d t (length fs) nw s2 s'); try done; try apply Hpre2.
  - eexists _, _, _. split; [done|]. apply (post_any_src (bs1 ++ rest)). by eapply (post_block d t fs vs vis vis1).
  - by apply length_nonnil.
  - by destruct Hpre as [_ _ _ _ [Hd _]%Forall_cons].
Qed.

Lemma decode vis l bs vis' : length cks = 16%nat -> enc vis l bs vis' -> reads vis l bs vis'.
Proof.
  intros Hcks. induction 1 as [vis|vis n l bs vis' Hn Henc IH|vis t l bs vis' Ht Henc IH|vis p l bs vis' Hp Henc IH
    |vis i b l bs vis' Hi Hlen Henc IH|vis b str l bs vis' Hb Hh Hlen Henc IH|vis b d l bs vis' Hb Hh Hlen Henc IH
    |vis b t fs bs1 vis1 l bs2 vis' Hb Hh Hfs Ht Hsz Henc1 IH1 Henc2 IH2].
  - intros fuel [|d ds] nw rest s [=] [Htab Hl _ _ _] Hs _. exists s, [], []. split; [constructor|]. by apply post_nil.
  - apply reads_imm; [done|by eapply enc_prefix|apply int_bytes_nil| |done].
    intros fuel d s rest Hs. by apply rec_int.
  - apply reads_imm; [done|by eapply enc_prefix|apply block_head_nil| |done].
    intros fuel d s rest Hs. rewrite (rec_block fuel d s t 0 rest) by (done || unfold Max_wosize; lia). done.
  - rewrite app_assoc. apply reads_imm; [done|by eapply enc_prefix|done| |done].
    intros fuel d s rest Hs. rewrite <-app_assoc in Hs. by apply rec_code.
  - apply reads_shared; [done|done|by eapply enc_prefix|done].
  - rewrite app_assoc. apply (reads_leaf _ _ _ _ _ _ _ _ Hh); [by eapply enc_prefix| | |done].
    { intros [Hnil _]%app_eq_nil. by apply string_head_nil in Hnil. }
    intros fuel d nw rest s Hs Htab Hn Hw k. rewrite <-app_assoc in Hs.
    rewrite (rec_string fuel d s (Z.of_nat (length str)) (str ++ rest)) by (done || lia).
    by rewrite (read_string_ok str nw rest).
  - rewrite app_assoc. apply (reads_leaf _ _ _ _ _ _ _ _ Hh); [by eapply enc_prefix|done| |done].
    intros fuel e nw rest s Hs Htab Hn Hw k. rewrite <-app_assoc in Hs.
    rewrite (rec_double fuel e s (d ++ rest)) by done.
    by rewrite (read_double_ok d nw rest).
  - apply (reads_block _ _ _ _ _ vis1); try done; by eapply enc_prefix.
Qed.
End decode.
