(* ===== verification/Marshal.v ===== *)
(** * Marshalling: what [output_value] writes, [input_value] reads back

    The composition of [Encode] and [Decode]: writing a graph of blocks, shared
    or cyclic, and reading the bytes into any heap gives a copy of the graph. *)
From stdpp Require Import gmap list strings.
From S2P Require Import Prelude Mlvalues Intext Format Extern ExternTable Encode Intern Decode.

(** ** Copies *)

(** [v'] in [h'] is a copy of [v] in [h]: the blocks reached from [v] correspond one
    to one to new blocks of [h'], and the rest of [h'] is [h0]. *)
Record copy_of (h : heap_t) (v : value) (h0 h' : heap_t) (v' : value) (vis nw : list nat) : Prop := {
  cp_length : length nw = length vis;
  cp_nodup : NoDup vis /\ NoDup nw;
  cp_value : vrel vis nw v v';
  cp_fresh c : c ∈ nw -> h0 !! c = None;
  cp_rest c : c ∉ nw -> h' !! c = h0 !! c;
  cp_blocks i b c : vis !! i = Some b -> nw !! i = Some c ->
    exists blk blk', h !! b = Some blk /\ h' !! c = Some blk' /\ brel vis nw blk blk' }.

(** The table kept between two calls of [extern_value] holds only entries of past calls. *)
Definition table_ok (s : estate) : Prop :=
  match extern_table s with
  | None => True
  | Some t => Z.of_nat (length t) = INITIAL_EXTERN_TABLE_SIZE /\ 0 < initial_ofs s < INITIAL_OFFSET_MAX /\
      Forall (fun e => ofs e < initial_ofs s) t
  end.

Section marshal.
Variables (addr : nat -> Z) (code_size : Z) (cks : list Z).

(** ** Reading *)

Lemma input_ok h v bs vis s64 h0 rest :
  length cks = 16%nat -> enc h cks [] [v] bs vis -> NoDup vis -> Z.of_nat (length bs) < 2 ^ 28 ->
  words h vis <= Max_wosize + 1 -> Z.of_nat (length vis) <= words h vis ->
  exists v' h' nw,
    input_val cks (be32 Intext_magic_number ++ be32 (Z.of_nat (length bs)) ++ be32 (Z.of_nat (length vis)) ++
                   be32 (words h vis) ++ be32 s64 ++ bs ++ rest) h0 = Ok (inl v', rest, h') /\
    copy_of h v h0 h' v' vis nw.
Proof.
  intros Hcks Henc Hn Hl Hw Hv. unfold Max_wosize in Hw. pose proof (words_nonneg h vis).
  unfold input_val, getword. rewrite read32u_app by (unfold Intext_magic_number, is_u32; lia). rewrite Z.eqb_refl. cbn [negb].
  cbn [getwords]. unfold getword. rewrite !read32u_app by (unfold is_u32; lia).
  change (read32u (be32 s64 ++ bs ++ rest)) with (Ok (u32 (Z.shiftl (u8 (s64 ⋙ 24)) 24 + Z.shiftl (u8 (s64 ⋙ 16)) 16 + Z.shiftl (u8 (s64 ⋙ 8)) 8 + u8 s64), bs ++ rest)).
  cbv iota. rewrite length_app. destruct (Z.ltb_spec (Z.of_nat (length bs + length rest)) (Z.of_nat (length bs))); [lia|].
  rewrite readblock_app. cbn [rbind].
  destruct (decode h cks [] [v] bs vis Hcks Henc (S (length bs)) [Local] [] []
    (mkInt bs 0 (words h vis) [] (Z.of_nat (length vis)) h0)) as (s' & vs & nw & Hread & P).
  { done. }
  { split; try done; [simpl; lia|by repeat constructor]. }
  { simpl. by rewrite app_nil_r. }
  { simpl. lia. }
  inversion Hread as [|d ds s v' s1 vs' s'' Hrec Htail]; subst. inversion Htail; subst.
  assert (intern_alloc (words h vis) (Z.of_nat (length vis)) bs h0 = inl (mkInt bs 0 (words h vis) [] (Z.of_nat (length vis)) h0)) as ->.
  { unfold intern_alloc. destruct (Z.eqb_spec (words h vis) 0) as [Hz|].
    - rewrite Hz. assert (length vis = 0)%nat as -> by lia. done.
    - destruct (Z.gtb_spec (words h vis - 1) Max_wosize) as [Hgt|]; [unfold Max_wosize in Hgt; lia|done]. }
  rewrite Hrec. cbn [rbind]. exists v', (iheap s'), nw. split; [done|].
  destruct P as [_ _ Hlen _ _ Hval Hnd Hfresh Hsame Hcopies]. simpl in *. split.
  - done.
  - done.
  - by inversion Hval.
  - intros c Hc. by apply Hfresh.
  - done.
  - intros i b c Hb Hc. apply (Hcopies i); [lia|done|done].
Qed.

Lemma rep_stale init t : Forall (fun e => ofs e < init) t -> rep addr init t [].
Proof.
  intros Ht. split; [|constructor|by intros ? ? ?%not_elem_of_nil].
  induction Ht as [|e t He _ IH]; [done|]. rewrite filter_cons_False; [done|]. unfold live. lia.
Qed.
Lemma each_block_word h code cl all l : closed h code cl all -> l ⊆ all -> Z.of_nat (length l) <= words h l.
Proof.
  intros Hc. induction l as [|b l IH]; intros Hl; [done|]. simpl length. simpl.
  assert (b ∈ all) as Hb by (apply Hl; by left). destruct (Hc b Hb) as (blk & Hblk & _).
  specialize (IH ltac:(intros x Hx; apply Hl; by right)). unfold block_words. rewrite Hblk.
  pose proof (size_of_nonneg (data blk)). lia.
Qed.

(** ** Writing *)

(** Skipping room in the block. *)
Lemma est_skip init cl vis out w s n :
  est addr init cl vis out w s -> (length out + n <= length (block s))%nat ->
  est addr init cl vis (take (length out + n) (block s)) w (set_ptr (ptr s + Z.of_nat n) s).
Proof.
  intros [Hi Hc Hg Hn Ht Hp Ho Hb Hm Hz] Hl.
  split; cbn [set_ptr initial_ofs closures ignore_sharing obj_counter extern_table extern_table_size ptr block malloced size_32]; try done.
  - rewrite Hp, length_take. lia.
  - by rewrite length_take, Nat.min_l by lia.
  - rewrite length_take. lia.
Qed.
(** Rewriting a word that is in the block. *)
Lemma write32_at x s a y b :
  ptr s = Z.of_nat (length a) -> block s = a ++ y ++ b -> length y = 4%nat ->
  write32 x s = Ok (Done (set_ptr (ptr s + 4) (set_block (a ++ be32 x ++ b) s))).
Proof.
  intros Hp Hb Hy. unfold write32, reserve. rewrite Hp, Hb, !length_app, Hy.
  destruct (Z.gtb_spec (Z.of_nat (length a) + 4) (Z.of_nat (length a + (4 + length b)))); [lia|].
  cbn [ret ebind rbind]. unfold store. rewrite Hp, Hb, Nat2Z.id, !length_app, Hy.
  destruct (Nat.leb_spec (length a + length (be32 x)) (length a + (4 + length b))) as [|Hgt]; [|simpl in Hgt; lia].
  unfold ret. do 4 f_equal. rewrite take_app_length. f_equal. f_equal.
  rewrite drop_app_ge by lia. replace (length a + length (be32 x) - length a)%nat with (length y) by (simpl; lia).
  apply drop_app_length.
Qed.

(** Filling in the header. *)
Lemma fill_ok s magic x1 x2 x3 x4 tail len :
  block s = magic ++ x1 ++ x2 ++ x3 ++ x4 ++ tail ->
  length magic = 4%nat -> length x1 = 4%nat -> length x2 = 4%nat -> length x3 = 4%nat -> length x4 = 4%nat ->
  (let+ s := write32 len (set_ptr 4 s) in
   let+ s := write32 (obj_counter s) s in
   let+ s := write32 (size_32 s) s in
   write32 (size_64 s) s) =
  Ok (Done (set_ptr 20 (set_block (magic ++ be32 len ++ be32 (obj_counter s) ++ be32 (size_32 s) ++ be32 (size_64 s) ++ tail) s))).
Proof.
  intros Hb Hm H1 H2 H3 H4.
  rewrite (write32_at len (set_ptr 4 s) magic x1 (x2 ++ x3 ++ x4 ++ tail)) by (cbn [ptr set_ptr]; rewrite ?Hm; done).
  cbn [ebind rbind].
  rewrite (write32_at _ _ (magic ++ be32 len) x2 (x3 ++ x4 ++ tail));
    [|cbn [ptr set_ptr set_block]; rewrite length_app, Hm; done|cbn [block set_ptr set_block]; by rewrite <-app_assoc|done].
  cbn [ebind rbind].
  rewrite (write32_at _ _ ((magic ++ be32 len) ++ be32 (obj_counter s)) x3 (x4 ++ tail));
    [|cbn [ptr set_ptr set_block]; rewrite !length_app, Hm; done|cbn [block set_ptr set_block obj_counter]; by rewrite <-!app_assoc|done].
  cbn [ebind rbind].
  rewrite (write32_at _ _ (((magic ++ be32 len) ++ be32 (obj_counter s)) ++ be32 (size_32 s)) x4 tail);
    [|cbn [ptr set_ptr set_block]; rewrite !length_app, Hm; done|cbn [block set_ptr set_block size_32]; by rewrite <-!app_assoc|done].
  cbn [set_ptr set_block initial_ofs extern_table extern_table_size obj_counter block ptr malloced size_32 size_64 ignore_sharing closures].
  repeat rewrite <-app_assoc. reflexivity.
Qed.
(** The state in which the traversal starts, without the magic number. *)
Definition started (cl : bool) (s : estate) : estate :=
  let s := set_tsize INITIAL_EXTERN_TABLE_SIZE (set_flags false cl (alloc_extern_block s)) in
  let s := match extern_table s with None => set_init 1 (alloc_extern_table s) | Some _ => s end in
  set_sizes 0 0 (set_counter 0 s).
Lemma started_ok cl s :
  table_ok s -> exists init, 0 < init <= 2 ^ 31 /\ est addr init cl [] [] 0 (started cl s).
Proof.
  unfold table_ok, started, INITIAL_OFFSET_MAX, INITIAL_EXTERN_TABLE_SIZE.
  cbn [set_tsize set_flags alloc_extern_block extern_table]. destruct (extern_table s) as [t|] eqn:Et.
  - intros (Hl & Hi & Ht). exists (initial_ofs s). split; [lia|].
    split; cbn [set_sizes set_counter set_tsize set_flags alloc_extern_block extern_table extern_table_size
      initial_ofs closures ignore_sharing obj_counter ptr block malloced size_32]; try done.
    + exists t. split; [done|]. split; [done|]. split; [by apply rep_stale|]. simpl. lia.
    + rewrite length_replicate. unfold INITIAL_EXTERN_BLOCK_SIZE. simpl. lia.
  - intros _. exists 1. split; [lia|].
    split; cbn [set_sizes set_counter set_init set_tsize set_flags alloc_extern_table set_table alloc_extern_block extern_table extern_table_size
      initial_ofs closures ignore_sharing obj_counter ptr block malloced size_32]; try done.
    + eexists. split; [done|]. rewrite length_replicate. split; [done|]. split; [|simpl; lia].
      apply rep_stale. apply Forall_replicate. simpl. lia.
    + rewrite length_replicate. unfold INITIAL_EXTERN_BLOCK_SIZE. simpl. lia.
Qed.
Lemma started_block cl s :
  exists junk, ptr (started cl s) = 0 /\ block (started cl s) = replicate 4 0 ++ junk /\ Z.of_nat (length junk) = 8188.
Proof.
  exists (replicate (Z.to_nat 8188) 0). unfold started. cbn [set_tsize set_flags alloc_extern_block extern_table].
  assert (Z.to_nat INITIAL_EXTERN_BLOCK_SIZE = 4 + Z.to_nat 8188)%nat as E by done.
  destruct (extern_table s); (split; [done|]);
    cbn [block alloc_extern_table set_table set_init set_sizes set_counter set_tsize set_flags alloc_extern_block];
    rewrite E, length_replicate; (split; [apply replicate_add|lia]).
Qed.
Lemma freed_ok init cl vis out w s :
  est addr init cl vis out w s -> 0 < init <= 2 ^ 31 -> Z.of_nat (length vis) <= 2 ^ 30 ->
  table_ok (free_extern_table (set_init (u32 (initial_ofs s + obj_counter s)) s)).
Proof.
  intros [Hi Hc Hg Hn (t & Ht & Hts & Hrep & _ & Hl) _ _ _ _ _] Hinit Hv. unfold free_extern_table, table_ok.
  rewrite Hi, Hn, u32_small by (unfold is_u32; lia). cbn [set_init extern_table_size initial_ofs]. rewrite Hts.
  destruct (Z.gtb_spec (Z.of_nat (length t)) INITIAL_EXTERN_TABLE_SIZE); [done|].
  destruct (Z.geb_spec (init + Z.of_nat (length vis)) INITIAL_OFFSET_MAX); [done|].
  cbn [orb set_init extern_table initial_ofs]. rewrite Ht. unfold INITIAL_EXTERN_TABLE_SIZE in *.
  split; [lia|]. split; [lia|]. apply Forall_forall. intros e He. apply list_elem_of_lookup in He as [i Hie].
  destruct (decide (init <= ofs e)) as [Hlive|]; [|lia].
  destruct (rep_in _ _ _ _ _ _ Hrep Hie Hlive) as (b & _ & Hb).
  apply elem_of_lookup_imap_1 in Hb as (j & b' & [= _ ->] & Hj). apply lookup_lt_Some in Hj. lia.
Qed.

Section write.
Variables (h : heap_t) (fuel : nat) (v flags : value) (fl : Z) (all : list nat).
Abbreviation cl := (negb (Z.land fl CLOSURES =? 0)).
Hypotheses (Hflags : convert_flag_list fuel h flags extern_flags 0 = Ok fl) (Hsharing : Z.land fl NO_SHARING = 0)
  (Hclosed : closed h code_size cl all) (Hwords : words h all <= Max_wosize + 1) (Hv : good_value code_size cl all v)
  (Hfuel : (length all < fuel)%nat) (Hcode : code_size <= 2 ^ 31) (Hcks : length cks = 16%nat).

(** The body, before the sizes are filled in: the header starts with the magic number. *)
Lemma body_ok s :
  table_ok s -> exists hd bs vis s1,
    (let+ s := write32 Intext_magic_number (started cl s) in
     let s := set_ptr (ptr s + 4 * 4) s in
     let+ s := extern_rec addr code_size cks fuel h v s in
     ret (free_extern_table (set_init (u32 (initial_ofs s + obj_counter s)) s))) = Ok (Done s1) /\
    enc h cks [] [v] bs vis /\ NoDup vis /\ vis ⊆ all /\ length hd = 16%nat /\
    ptr s1 = 20 + Z.of_nat (length bs) /\ obj_counter s1 = Z.of_nat (length vis) /\ size_32 s1 = words h vis /\
    (exists junk, block s1 = be32 Intext_magic_number ++ hd ++ bs ++ junk) /\ table_ok s1 /\
    Z.of_nat (length bs) < 2 ^ 28.
Proof.
  intros Hs. destruct (started_ok cl s Hs) as (init & Hinit & He0). pose proof (each_block_word _ _ _ _ _ Hclosed (reflexivity all)) as Hall.
  destruct (emit_ok addr init cl [] [] 0 (started cl s) (be32 Intext_magic_number) He0) as (s1 & E1 & He1); [done|].
  change (Z.of_nat (length (be32 Intext_magic_number))) with 4 in E1. change (_ = _) with (write32 Intext_magic_number (started cl s) = Ok (Done s1)) in E1.
  rewrite E1. cbn [ebind rbind]. simpl app in He1. set (magic := be32 Intext_magic_number) in *.
  assert (20 <= Z.of_nat (length (block s1))) as Hroom.
  { destruct (started_block cl s) as (junk & Hp0 & Hb0 & Hj).
    rewrite (write32_at _ _ [] (replicate 4 0) junk Hp0 Hb0 eq_refl) in E1. injection E1 as <-.
    cbn [block set_ptr set_block length]. lia. }
  assert (length magic = 4%nat) as Hm by done.
  pose proof (est_skip _ _ _ _ _ s1 16 He1 ltac:(lia)) as He2. rewrite Hm in He2. change (4 + 16)%nat with 20%nat in He2.
  set (pre := take 20 (block s1)) in *. change (Z.of_nat 16) with (4 * 4) in He2.
  assert (length pre = 20%nat) as Hpre by (unfold pre; rewrite length_take; lia).
  destruct (extern_writes addr code_size cks h init cl ltac:(lia) all Hclosed Hwords ltac:(lia) ltac:(lia) Hcode Hcks fuel
    v [] pre _ He2) as (bs & vis & s2 & Henc & [E2 He3 Hn Hsub _ Hb]).
  { constructor. }
  { by intros x ?%not_elem_of_nil. }
  { done. }
  { simpl. lia. }
  { unfold room, budget, Max_wosize in *. simpl words. simpl length. rewrite Hpre. lia. }
  rewrite E2. cbn [ebind rbind ret]. exists (drop 4 pre), bs, vis. eexists. split; [done|].
  destruct (visited_bounds h all vis Hn Hsub) as [Hw Hlen]. unfold Max_wosize in *.
  split; [by specialize (Henc [] [] vis (enc_nil _ _ vis)); rewrite app_nil_r in Henc|].
  split; [done|]. split; [done|]. split; [by rewrite length_drop, Hpre|].
  assert (ptr s2 = 20 + Z.of_nat (length bs)) as Hp2 by (rewrite (es_ptr _ _ _ _ _ _ _ He3), length_app, Hpre; lia).
  assert (exists junk, block s2 = magic ++ drop 4 pre ++ bs ++ junk) as [junk Hjunk].
  { exists (drop (length (pre ++ bs)) (block s2)). rewrite !app_assoc. rewrite <-(take_drop (length (pre ++ bs)) (block s2)) at 1.
    rewrite (es_out _ _ _ _ _ _ _ He3). f_equal. f_equal. rewrite <-(take_drop 4 pre) at 1. f_equal.
    unfold pre. rewrite take_take. apply (es_out _ _ _ _ _ _ _ He1). }
  assert (Z.of_nat (length bs) < 2 ^ 28) by (unfold budget in Hb; simpl words in Hb; lia).
  pose proof (es_counter _ _ _ _ _ _ _ He3). pose proof (es_size _ _ _ _ _ _ _ He3).
  pose proof (freed_ok init cl vis _ _ s2 He3 Hinit ltac:(lia)) as Hfreed.
  unfold free_extern_table in *. destruct (_ || _); cbn [set_table set_init ptr obj_counter size_32 block] in *; eauto 10.
Qed.
(** [output_val] gives the header and the bytes of the format. *)
Lemma output_ok s :
  table_ok s -> exists bs vis s64 s',
    output_val addr code_size cks fuel h v flags s =
      Ok (inl (be32 Intext_magic_number ++ be32 (Z.of_nat (length bs)) ++ be32 (Z.of_nat (length vis)) ++
               be32 (words h vis) ++ be32 s64 ++ bs), s') /\
    enc h cks [] [v] bs vis /\ NoDup vis /\ vis ⊆ all /\ table_ok s' /\ Z.of_nat (length bs) < 2 ^ 28.
Proof.
  intros Hs. destruct (body_ok s Hs) as (hd & bs & vis & s1 & Hbody & Henc & Hn & Hsub & Hhd & Hp & Hcnt & H32 & (junk & Hb) & Hok & Hlen).
  destruct hd as [|a1 [|a2 [|a3 [|a4 [|b1 [|b2 [|b3 [|b4 [|c1 [|c2 [|c3 [|c4 [|d1 [|d2 [|d3 [|d4 [|]]]]]]]]]]]]]]]]]; try discriminate Hhd.
  set (magic := be32 Intext_magic_number) in *. assert (length magic = 4%nat) as Hm by done.
  exists bs, vis, (size_64 s1). eexists. unfold output_val, extern_value. rewrite Hflags. cbn [rbind]. rewrite Hsharing.
  change (negb (0 =? 0)) with false.
  match goal with |- context [rbind ?c _] => change c with
    (let+ s := write32 Intext_magic_number (started cl s) in
     let s := set_ptr (ptr s + 4 * 4) s in
     let+ s := extern_rec addr code_size cks fuel h v s in
     ret (free_extern_table (set_init (u32 (initial_ofs s + obj_counter s)) s))) end.
  rewrite Hbody. cbn [rbind].
  rewrite (fill_ok s1 magic [a1; a2; a3; a4] [b1; b2; b3; b4] [c1; c2; c3; c4] [d1; d2; d3; d4] (bs ++ junk)) by (by rewrite ?Hb).
  cbn [rbind block set_ptr set_block]. rewrite Hp, Hcnt, H32.
  replace (20 + Z.of_nat (length bs) - 5 * 4) with (Z.of_nat (length bs)) by lia.
  rewrite !app_assoc. rewrite <-(app_assoc _ bs junk).
  match goal with |- context [readblock _ (?a ++ bs ++ junk)] => set (hd := a) end.
  assert (length hd = 20%nat) as Hhd20 by (subst hd; rewrite !length_app, Hm; done).
  rewrite app_assoc. replace (20 + Z.of_nat (length bs)) with (Z.of_nat (length (hd ++ bs))) by (rewrite length_app; lia).
  rewrite readblock_app. cbn [rbind]. split; [done|]. split; [done|]. split; [done|]. split; [done|]. split; [|done].
  unfold table_ok in *. done.
Qed.
End write.
End marshal.

(** Writing and reading compose. *)
Lemma output_input_ok (addr : nat -> Z) (code_size : Z) (cks : list Z) (h : heap_t) (fuel : nat) (v flags : value)
    (fl : Z) (all : list nat) (s : estate) (h0 : heap_t) (rest : list Z) :
  convert_flag_list fuel h flags extern_flags 0 = Ok fl -> Z.land fl NO_SHARING = 0 ->
  closed h code_size (negb (Z.land fl CLOSURES =? 0)) all -> words h all <= Max_wosize + 1 ->
  good_value code_size (negb (Z.land fl CLOSURES =? 0)) all v ->
  (length all < fuel)%nat -> code_size <= 2 ^ 31 -> length cks = 16%nat -> table_ok s ->
  exists bs s', output_val addr code_size cks fuel h v flags s = Ok (inl bs, s') /\ table_ok s' /\
  exists v' h' vis nw, input_val cks (bs ++ rest) h0 = Ok (inl v', rest, h') /\ vis ⊆ all /\ copy_of h v h0 h' v' vis nw.
Proof.
  intros Hfl Hsh Hcl Hw Hv Hfuel Hcode Hcks Hs.
  destruct (output_ok addr code_size cks h fuel v flags fl all Hfl Hsh Hcl Hw Hv Hfuel Hcode Hcks s Hs)
    as (bs & vis & s64 & s' & Hout & Henc & Hn & Hsub & Hs' & Hlen).
  eexists _, s'. split; [exact Hout|]. split; [done|].
  destruct (visited_bounds h all vis Hn Hsub) as [Hwv _].
  assert (Z.of_nat (length vis) <= words h vis) as Hv'
    by (eapply each_block_word; [exact Hcl|exact Hsub]).
  destruct (input_ok cks h v bs vis s64 h0 rest Hcks Henc Hn Hlen ltac:(lia) Hv') as (v' & h' & nw & Hin & Hcp).
  exists v', h', vis, nw. split; [|done]. repeat rewrite <-app_assoc. exact Hin.
Qed.

(** C1: what is marshalled is read back.  Let the blocks reached from [v] be strings,
    doubles and blocks of fields (with closures when the flags allow them), at most
    2^22 words in all, shared and cyclic as they may be.  Then [output_val] succeeds
    with some bytes, leaves its table ready for the next call, and [input_val],
    given these bytes and more, in any heap, returns a copy of [v]: its blocks are new,
    in one to one correspondence with those of [v], with the same tags, the
    same bytes and corresponding fields; the rest of the heap is as it was, and exactly
    the bytes written are consumed.  Neither leaves its buffers, tables and blocks. *)
Theorem marshal_roundtrip (addr : nat -> Z) (code_size : Z) (cks : list Z) (h : heap_t) (fuel : nat) (v flags : value)
    (fl : Z) (all : list nat) (s : estate) (h0 : heap_t) (rest : list Z) :
  convert_flag_list fuel h flags extern_flags 0 = Ok fl -> Z.land fl NO_SHARING = 0 ->
  closed h code_size (negb (Z.land fl CLOSURES =? 0)) all -> words h all <= Max_wosize + 1 ->
  good_value code_size (negb (Z.land fl CLOSURES =? 0)) all v ->
  (length all < fuel)%nat -> code_size <= 2 ^ 31 -> length cks = 16%nat -> table_ok s ->
  exists bs s', output_val addr code_size cks fuel h v flags s = Ok (inl bs, s') /\ table_ok s' /\
  exists v' h' vis nw, input_val cks (bs ++ rest) h0 = Ok (inl v', rest, h') /\ vis ⊆ all /\ copy_of h v h0 h' v' vis nw.
Proof. intros. by eapply output_input_ok. Qed.

(** A block that contains a string twice and itself; the heap that reads it back
    holds another block. *)
Definition loop_heap : heap_t :=
  <[0%nat := mkBlock 0 (Fields [Val_long 300; Ptr 1; Ptr 1; Ptr 0])]>
    {[1%nat := mkBlock String_tag (Bytes (string_bytes [104; 105]))]}.
Definition other_heap : heap_t := {[0%nat := mkBlock 5 (Fields [Val_unit])]}.
Definition first_call : estate := mkExt 1 None 0 0 [] 0 false 0 0 false false.
Definition place_of (b : nat) : Z := 0x100000 + 16 * Z.of_nat b.
Lemma marshal_roundtrip_witness :
  exists bs s', output_val place_of 0 (replicate 16 0) 3 loop_heap (Ptr 0) Val_unit first_call = Ok (inl bs, s') /\ table_ok s' /\
  exists v' h' vis nw, input_val (replicate 16 0) (bs ++ [7]) other_heap = Ok (inl v', [7], h') /\ vis ⊆ [0%nat; 1%nat] /\
    copy_of loop_heap (Ptr 0) other_heap h' v' vis nw.
Proof.
  apply (marshal_roundtrip place_of 0 (replicate 16 0) loop_heap 3 (Ptr 0) Val_unit 0 [0%nat; 1%nat] first_call other_heap [7]).
  - reflexivity.
  - reflexivity.
  - intros b [-> |[-> |[]%not_elem_of_nil]%elem_of_cons]%elem_of_cons; eexists; (split; [reflexivity|]).
    + split; [done|]. split; [left; cbn [tag]; unfold Object_tag; lia|]. split; [vm_compute; discriminate|].
      repeat constructor. exists 300. split; [split; discriminate|reflexivity].
    + left. split; [done|]. exists [104; 105]. split; [done|]. split; [repeat constructor; discriminate|done].
  - vm_compute. discriminate.
  - simpl. constructor.
  - simpl. lia.
  - lia.
  - reflexivity.
  - exact I.
Defined.
(** The bytes of the message, after the header. *)
Example loop_bytes : exists s',
  output_val place_of 0 (replicate 16 0) 3 loop_heap (Ptr 0) Val_unit first_call
  = Ok (inl ([0x84; 0x95; 0xA6; 0xBE; 0; 0; 0; 11; 0; 0; 0; 2; 0; 0; 0; 7; 0; 0; 0; 7] ++
             [0xC0; 0x01; 1; 44; 0x22; 104; 105; 4; 1; 4; 2]), s').
Proof. eexists. vm_compute. reflexivity. Qed.

(** A float array is written but cannot be read back: the case of [intern_rec] is compiled for
    native code only. *)
Example float_array_lost :
  let bs := [0x84; 0x95; 0xA6; 0xBE; 0; 0; 0; 10; 0; 0; 0; 1; 0; 0; 0; 3; 0; 0; 0; 2; 0xE; 1; 0; 0; 0; 0; 0; 0; 0; 0] in
  (exists s', output_val place_of 0 (replicate 16 0) 3 {[0%nat := mkBlock Double_array_tag (Bytes (replicate 8 0))]}
    (Ptr 0) Val_unit first_call = Ok (inl bs, s')) /\
  input_val (replicate 16 0) bs ∅ = Ok (inr (Failwith "input_value: cannot read float array"), [], ∅).
Proof. split; [eexists; vm_compute; reflexivity|vm_compute; reflexivity]. Qed.
