(* ===== verification/Compare.v ===== *)
(** * Structural comparison: kernel/Byterun/compare.c

    [compare_val] walks two values in parallel; recursion is on a fuel that bounds the depth of the
    calls, the tail call included.  [address] gives the machine address of a value, which the code
    compares for pointers outside the heap. *)
From stdpp Require Import gmap list strings.
From S2P Require Import Prelude Mlvalues Intext.

(** ** Doubles

    The comparison of the hardware on the bytes of two IEEE doubles, the least significant first. *)

Fixpoint le_bytes (l : list Z) : Z := match l with [] => 0 | b :: l => b + 256 * le_bytes l end.
Definition magnitude (d : list Z) : Z := le_bytes d mod 2 ^ 63.
Definition is_nan (d : list Z) : bool := magnitude d >? 0x7FF0000000000000.
(** The order of the doubles is the order of these integers. *)
Definition double_key (d : list Z) : Z := if le_bytes d >=? 2 ^ 63 then - magnitude d else magnitude d.
Definition double_lt (d1 d2 : list Z) : bool := negb (is_nan d1) && negb (is_nan d2) && (double_key d1 <? double_key d2).
(** [if (d1 < d2) return -1; else if (d1 > d2) return 1; else return 0] *)
Definition compare_double (d1 d2 : list Z) : Z :=
  if double_lt d1 d2 then -1 else if double_lt d2 d1 then 1 else 0.

Section compare.
Variables (address : value -> Z) (h : heap_t).

(** Neither in the heap nor an atom. *)
Definition outside (v : value) : bool := match v with Ptr _ | Atom _ => false | _ => true end.
Definition bytes_of (v : value) : result (list Z) :=
  let* b := get_block h v in match data b with Bytes l => Ok l | Fields _ => Fault end.
(** The loop over the bytes of two strings, [len] of them. *)
Fixpoint compare_bytes (len : nat) (p1 p2 : list Z) : result (option Z) :=
  match len with
  | O => Ok None
  | S len =>
      match p1, p2 with
      | c1 :: p1, c2 :: p2 => if c1 =? c2 then compare_bytes len p1 p2 else Ok (Some (c1 - c2))
      | _, _ => Fault
      end
  end.
Definition compare_strings (v1 v2 : value) : result Z :=
  let* len1 := string_length h v1 in
  let* len2 := string_length h v2 in
  let* p1 := bytes_of v1 in
  let* p2 := bytes_of v2 in
  let len := if len1 <=? len2 then len1 else len2 in
  let* r := compare_bytes (Z.to_nat len) p1 p2 in
  match r with Some r => Ok r | None => Ok (s32 (len1 - len2)) end.
(** [Double_field(v, i)] *)
Definition double_field (l : list Z) (i : nat) : result (list Z) :=
  if (8 * i + 8 <=? length l)%nat then Ok (take 8 (drop (8 * i) l)) else Fault.
Fixpoint compare_doubles (n i : nat) (l1 l2 : list Z) : result Z :=
  match n with
  | O => Ok 0
  | S n =>
      let* d1 := double_field l1 i in
      let* d2 := double_field l2 i in
      let r := compare_double d1 d2 in
      if r =? 0 then compare_doubles n (S i) l1 l2 else Ok r
  end.
(** The fields of two blocks of the same size; the last pair is the tail call. *)
Fixpoint compare_fields (f : value -> value -> result (Z + ml_exn)) (l1 l2 : list value) : result (Z + ml_exn) :=
  match l1, l2 with
  | [v1], [v2] => f v1 v2
  | v1 :: l1, v2 :: l2 =>
      let* r := f v1 v2 in
      match r with
      | inr e => Ok (inr e)
      | inl res => if negb (res =? 0) then Ok (inl res) else compare_fields f l1 l2
      end
  | _, _ => Fault
  end.
Definition Oid_val (v : value) : result Z := let* x := Field h v 1 in Long_val x.
Fixpoint compare_val (fuel : nat) (v1 v2 : value) : result (Z + ml_exn) :=
  match fuel with
  | O => Loop
  | S fuel =>
      if bool_decide (v1 = v2) then Ok (inl 0)
      else if Is_long v1 then
        if Is_long v2 then let* x := Long_val v1 in let* y := Long_val v2 in Ok (inl (s32 (x - y)))
        else Ok (inl (-1))
      else if Is_long v2 then Ok (inl 1)
      else if outside v1 || outside v2 then
        Ok (inl (s32 (Z.shiftr (s32 (address v1)) 1 - Z.shiftr (s32 (address v2)) 1)))
      else
        let* t1 := Tag_val h v1 in
        let* t2 := Tag_val h v2 in
        if negb (t1 =? t2) then Ok (inl (t1 - t2))
        else if t1 =? String_tag then let* r := compare_strings v1 v2 in Ok (inl r)
        else if t1 =? Double_tag then
          let* l1 := bytes_of v1 in
          let* l2 := bytes_of v2 in
          let* d1 := double_field l1 0 in
          let* d2 := double_field l2 0 in
          Ok (inl (compare_double d1 d2))
        else if t1 =? Double_array_tag then
          let* n1 := Wosize_val h v1 in
          let* n2 := Wosize_val h v2 in
          let sz1 := n1 / Double_wosize in
          let sz2 := n2 / Double_wosize in
          if negb (sz1 =? sz2) then Ok (inl (s32 (sz1 - sz2)))
          else if sz1 =? 0 then Ok (inl 0)
          else
            let* l1 := bytes_of v1 in
            let* l2 := bytes_of v2 in
            let* r := compare_doubles (Z.to_nat sz1) 0 l1 l2 in Ok (inl r)
        else if (t1 =? Abstract_tag) || (t1 =? Final_tag) then Ok (inr (Invalid_argument "equal: abstract value"))
        else if (t1 =? Closure_tag) || (t1 =? Infix_tag) then Ok (inr (Invalid_argument "equal: functional value"))
        else if t1 =? Object_tag then
          let* x := Oid_val v1 in let* y := Oid_val v2 in Ok (inl (s32 (x - y)))
        else
          let* b1 := get_block h v1 in
          let* b2 := get_block h v2 in
          let sz1 := size_of (data b1) in
          let sz2 := size_of (data b2) in
          if negb (sz1 =? sz2) then Ok (inl (s32 (sz1 - sz2)))
          else if sz1 =? 0 then Ok (inl 0)
          else
            match data b1, data b2 with
            | Fields l1, Fields l2 => compare_fields (compare_val fuel) l1 l2
            | _, _ => Fault
            end
  end.

(** ** The primitives *)

Definition lift (f : Z -> Z) (r : result (Z + ml_exn)) : result (value + ml_exn) :=
  let* r := r in Ok (match r with inl x => inl (Val_int (f x)) | inr e => inr e end).
Definition compare (fuel : nat) (v1 v2 : value) : result (value + ml_exn) :=
  lift (fun res => if res <? 0 then -1 else if res >? 0 then 1 else 0) (compare_val fuel v1 v2).
Definition equal (fuel : nat) (v1 v2 : value) := lift (fun r => c_bool (r =? 0)) (compare_val fuel v1 v2).
Definition notequal (fuel : nat) (v1 v2 : value) := lift (fun r => c_bool (negb (r =? 0))) (compare_val fuel v1 v2).
Definition lessthan (fuel : nat) (v1 v2 : value) := lift (fun r => c_bool (r <? 0)) (compare_val fuel v1 v2).
Definition lessequal (fuel : nat) (v1 v2 : value) := lift (fun r => c_bool (r <=? 0)) (compare_val fuel v1 v2).
Definition greaterthan (fuel : nat) (v1 v2 : value) := lift (fun r => c_bool (r >? 0)) (compare_val fuel v1 v2).
Definition greaterequal (fuel : nat) (v1 v2 : value) := lift (fun r => c_bool (r >=? 0)) (compare_val fuel v1 v2).
End compare.
