(* ===== verification/Structural.v ===== *)
(** * What structural comparison decides

    Values without cycles, closures and abstract blocks denote trees, whatever their sharing.
    [compare_val] computes [tcmp], a function of the trees alone, which is a
    total order up to the sign of zero when no float is a NaN. *)
From stdpp Require Import gmap list strings.
From S2P Require Import Prelude Mlvalues Intext Compare.

(** ** Trees *)

Inductive tree :=
  | TInt (n : Z)
  | TString (s : list Z)
  | TDouble (d : list Z)
  | TDoubles (ds : list (list Z))
  | TNode (t : Z) (l : list tree).
Section tree_ind.
Variable P : tree -> Prop.
Hypotheses (Hint : forall n, P (TInt n)) (Hstring : forall s, P (TString s)) (Hdouble : forall d, P (TDouble d))
  (Hdoubles : forall ds, P (TDoubles ds)) (Hnode : forall t l, Forall P l -> P (TNode t l)).
Fixpoint tree_ind' (x : tree) : P x :=
  match x with
  | TInt n => Hint n
  | TString s => Hstring s
  | TDouble d => Hdouble d
  | TDoubles ds => Hdoubles ds
  | TNode t l => Hnode t l ((fix go l : Forall P l := match l with [] => Forall_nil_2 P | x :: l => Forall_cons_2 P x l (tree_ind' x) (go l) end) l)
  end.
End tree_ind.

Definition is_double (d : list Z) : Prop := length d = 8%nat /\ Forall is_byte d.
(** The value denotes the tree: an OCaml integer, a block of the heap, or an atom. *)
Inductive denotes (h : heap_t) : tree -> value -> Prop :=
  | denotes_int n : is_long n -> denotes h (TInt n) (Val_long n)
  | denotes_string b s : h !! b = Some (mkBlock String_tag (Bytes (string_bytes s))) ->
      Forall is_byte s -> Z.of_nat (length s) < 2 ^ 24 -> denotes h (TString s) (Ptr b)
  | denotes_double b d : h !! b = Some (mkBlock Double_tag (Bytes d)) -> is_double d -> denotes h (TDouble d) (Ptr b)
  | denotes_doubles b ds : h !! b = Some (mkBlock Double_array_tag (Bytes (mjoin ds))) ->
      Forall is_double ds -> Z.of_nat (length ds) < 2 ^ 22 -> denotes h (TDoubles ds) (Ptr b)
  | denotes_atom t : 0 <= t < Object_tag -> denotes h (TNode t []) (Atom t)
  | denotes_node b t l vs : h !! b = Some (mkBlock t (Fields vs)) -> 0 <= t < Object_tag ->
      Z.of_nat (length l) <= Max_wosize -> Forall2 (denotes h) l vs -> denotes h (TNode t l) (Ptr b).
Fixpoint depth (x : tree) : nat :=
  match x with TNode _ l => S (foldr (fun x n => Nat.max (depth x) n) 0%nat l) | _ => 1%nat end.

(** ** The order on trees *)

Definition tag_of (x : tree) : Z :=
  match x with TInt _ => 0 | TString _ => String_tag | TDouble _ => Double_tag | TDoubles _ => Double_array_tag | TNode t _ => t end.
(** The first difference, or 0. *)
Fixpoint lex {A} (f : A -> A -> Z) (l1 l2 : list A) : Z :=
  match l1, l2 with
  | a :: l1, b :: l2 => let r := f a b in if r =? 0 then lex f l1 l2 else r
  | _, _ => 0
  end.
(** First by size, then by the first difference. *)
Definition by_size {A} (f : A -> A -> Z) (l1 l2 : list A) : Z :=
  let n := Z.of_nat (length l1) - Z.of_nat (length l2) in if n =? 0 then lex f l1 l2 else n.
(** By the first difference, then by length. *)
Definition by_prefix (l1 l2 : list Z) : Z :=
  let r := lex Z.sub l1 l2 in if r =? 0 then Z.of_nat (length l1) - Z.of_nat (length l2) else r.
Fixpoint tcmp (x y : tree) : Z :=
  match x, y with
  | TInt n, TInt m => n - m
  | TInt _, _ => -1
  | _, TInt _ => 1
  | TString s, TString s' => by_prefix s s'
  | TDouble d, TDouble d' => compare_double d d'
  | TDoubles ds, TDoubles ds' => by_size compare_double ds ds'
  | TNode t l, TNode t' l' => if t =? t' then by_size tcmp l l' else t - t'
  | _, _ => tag_of x - tag_of y
  end.

Lemma lex_refl {A} (f : A -> A -> Z) l : Forall (fun a => f a a = 0) l -> lex f l l = 0.
Proof. induction 1 as [|a l Ha _ IH]; simpl; [done|]. by rewrite Ha. Qed.
Lemma by_size_refl {A} (f : A -> A -> Z) l : Forall (fun a => f a a = 0) l -> by_size f l l = 0.
Proof. intros H. unfold by_size. rewrite Z.sub_diag. simpl. by apply lex_refl. Qed.
Lemma compare_double_refl d : compare_double d d = 0.
Proof. unfold compare_double, double_lt. rewrite Z.ltb_irrefl. by rewrite andb_false_r. Qed.
Lemma tcmp_refl x : tcmp x x = 0.
Proof.
  induction x as [n|s|d|ds|t l IH] using tree_ind'; simpl.
  - lia.
  - unfold by_prefix. rewrite lex_refl by (apply Forall_forall; intros; lia). rewrite Z.eqb_refl. lia.
  - apply compare_double_refl.
  - apply by_size_refl, Forall_forall. intros d _. apply compare_double_refl.
  - rewrite Z.eqb_refl. by apply by_size_refl.
Qed.

(** ** The tree of a value *)

Lemma join_inj (ds1 ds2 : list (list Z)) :
  Forall is_double ds1 -> Forall is_double ds2 -> mjoin ds1 = mjoin ds2 -> ds1 = ds2.
Proof.
  intros H1. revert ds2. induction H1 as [|d1 ds1 [Hd1 _] _ IH]; intros ds2 H2 E; destruct H2 as [|d2 ds2 [Hd2 _] H2].
  - done.
  - destruct d2; simpl in *; [lia|done].
  - destruct d1; simpl in *; [lia|done].
  - simpl in E. apply app_inj_1 in E as [-> E]; [|by rewrite Hd1, Hd2]. f_equal. by apply IH.
Qed.
Lemma denotes_fun h x : forall y v, denotes h x v -> denotes h y v -> x = y.
Proof.
  induction x as [n|s|d|ds|t l IH] using tree_ind'; intros y v Hx Hy; inversion Hx; subst; inversion Hy; subst;
    simplify_eq; try congruence; try (unfold Infix_tag in *; lia).
  - f_equal. assert (Val_long n = Val_long n0) as E%Val_long_inj by (unfold Val_long, Val_int; congruence).
    by rewrite !wrap31_small in E.
  - f_equal. apply string_bytes_inj; congruence.
  - f_equal. apply join_inj; congruence.
  - f_equal. clear -IH H5 H8.
    revert l0 vs H5 H8. induction IH as [|x l Hx _ IH]; intros l0 vs H5 H8.
    + apply Forall2_nil_inv_l in H5 as ->. by apply Forall2_nil_inv_r in H8 as ->.
    + apply Forall2_cons_inv_l in H5 as (v & vs' & Hv & Hvs & ->).
      apply Forall2_cons_inv_r in H8 as (y & l' & Hy & Hl & ->). f_equal; [by eapply Hx|by eapply IH].
Qed.

(** ** The comparison computes the order on trees *)

Definition is_int (x : tree) : bool := match x with TInt _ => true | _ => false end.
Lemma get_block_denotes h x v :
  denotes h x v -> (exists n, x = TInt n) \/
  exists c, get_block h v = Ok (mkBlock (tag_of x) c) /\ Is_long v = false /\ outside v = false /\ is_int x = false.
Proof.
  intros H. inversion H; subst; [by left; eexists|..]; right; simpl; eexists; split_and!; try done; by rewrite H0.
Qed.
Lemma compare_bytes_ok n s1 s2 r1 r2 :
  n = Nat.min (length s1) (length s2) ->
  compare_bytes n (s1 ++ r1) (s2 ++ r2) = Ok (if lex Z.sub s1 s2 =? 0 then None else Some (lex Z.sub s1 s2)).
Proof.
  intros ->. revert s2. induction s1 as [|c1 s1 IH]; intros [|c2 s2]; simpl; try done.
  destruct (Z.eqb_spec c1 c2) as [->|Hc]; simpl.
  - rewrite Z.sub_diag. simpl. apply IH.
  - destruct (Z.eqb_spec (c1 - c2) 0); [lia|]. by destruct (Z.eqb_spec (c1 - c2) 0).
Qed.
Lemma compare_strings_ok h b1 b2 s1 s2 :
  h !! b1 = Some (mkBlock String_tag (Bytes (string_bytes s1))) -> Z.of_nat (length s1) < 2 ^ 24 ->
  h !! b2 = Some (mkBlock String_tag (Bytes (string_bytes s2))) -> Z.of_nat (length s2) < 2 ^ 24 ->
  compare_strings h (Ptr b1) (Ptr b2) = Ok (by_prefix s1 s2).
Proof.
  intros Hb1 Hl1 Hb2 Hl2. unfold compare_strings. rewrite (string_length_ok h b1 s1), (string_length_ok h b2 s2) by done.
  unfold bytes_of. simpl. rewrite Hb1, Hb2. simpl. unfold string_bytes.
  rewrite compare_bytes_ok by (destruct (Z.leb_spec (Z.of_nat (length s1)) (Z.of_nat (length s2))); lia).
  unfold by_prefix. simpl. destruct (lex _ _ _ =? 0); [|done]. rewrite s32_small; [done|]. unfold_words. lia.
Qed.
Lemma double_field_ok ds i d :
  Forall is_double ds -> ds !! i = Some d -> double_field (mjoin ds) i = Ok d.
Proof.
  intros H. revert i. induction H as [|d' ds [Hd' _] _ IH]; intros [|i] Hi; simplify_eq/=.
  - unfold double_field. rewrite length_app. change (8 * 0 + 8)%nat with 8%nat.
    destruct (Nat.leb_spec 8 (length d + length (mjoin ds))); [|lia].
    rewrite drop_0. f_equal. by apply take_app_length'.
  - specialize (IH i Hi). unfold double_field in *. rewrite length_app.
    destruct (Nat.leb_spec (8 * i + 8) (length (mjoin ds))); [|done].
    destruct (Nat.leb_spec (8 * S i + 8) (length d' + length (mjoin ds))); [|lia].
    rewrite <-IH. do 2 f_equal. replace (8 * S i)%nat with (length d' + 8 * i)%nat by lia. by rewrite drop_app_add'.
Qed.
Lemma compare_doubles_ok ds1 ds2 n : forall i,
  Forall is_double ds1 -> Forall is_double ds2 -> (i + n)%nat = length ds1 -> length ds1 = length ds2 ->
  compare_doubles n i (mjoin ds1) (mjoin ds2) = Ok (lex compare_double (drop i ds1) (drop i ds2)).
Proof.
  induction n as [|n IH]; intros i H1 H2 Hi Hl; simpl.
  - by rewrite !drop_ge by lia.
  - destruct (lookup_lt_is_Some_2 ds1 i) as [d1 Hd1]; [lia|]. destruct (lookup_lt_is_Some_2 ds2 i) as [d2 Hd2]; [lia|].
    rewrite (double_field_ok ds1 i d1), (double_field_ok ds2 i d2) by done. simpl.
    rewrite (drop_S ds1 d1 i), (drop_S ds2 d2 i) by done. simpl. destruct (_ =? 0); [|done]. apply IH; done || lia.
Qed.
Lemma compare_fields_ok (f : value -> value -> result (Z + ml_exn)) (g : tree -> tree -> Z) h l1 : forall l2 vs1 vs2,
  (forall x y v w, x ∈ l1 -> denotes h x v -> denotes h y w -> f v w = Ok (inl (g x y))) ->
  Forall2 (denotes h) l1 vs1 -> Forall2 (denotes h) l2 vs2 -> length l1 = length l2 -> l1 <> [] ->
  compare_fields f vs1 vs2 = Ok (inl (lex g l1 l2)).
Proof.
  induction l1 as [|x l1 IH]; intros [|y l2] vs1 vs2 Hf H1 H2 Hl Hne; try done.
  apply Forall2_cons_inv_l in H1 as (v & vs1' & Hv & H1 & ->). apply Forall2_cons_inv_l in H2 as (w & vs2' & Hw & H2 & ->).
  pose proof (Forall2_length _ _ _ H1). pose proof (Forall2_length _ _ _ H2). simpl in *.
  assert (f v w = Ok (inl (g x y))) as E by (apply Hf; [set_solver|done..]).
  destruct l1 as [|x' l1].
  - destruct vs1', vs2', l2; simpl in *; try lia. rewrite E. by destruct (Z.eqb_spec (g x y) 0) as [->|].
  - specialize (IH l2 vs1' vs2' ltac:(intros; apply Hf; [set_solver|done..]) H1 H2 ltac:(lia) ltac:(done)).
    destruct vs1' as [|v1' vs1']; [done|]. rewrite E. simpl. destruct (g x y =? 0); [|done]. simpl. apply IH.
Qed.
Lemma depth_node t l x : x ∈ l -> (depth x < depth (TNode t l))%nat.
Proof. induction 1 as [x l|x y l _ IH]; simpl in *; lia. Qed.
Lemma tcmp_tags x y : is_int x = false -> is_int y = false -> tag_of x <> tag_of y -> tcmp x y = tag_of x - tag_of y.
Proof. destruct x, y; simpl; try done. intros _ _ Ht. by destruct (Z.eqb_spec t t0). Qed.
Lemma by_size_small {A} (f : A -> A -> Z) (l1 l2 : list A) :
  Z.of_nat (length l1) <= Max_wosize -> Z.of_nat (length l2) <= Max_wosize -> length l1 <> length l2 ->
  by_size f l1 l2 = s32 (Z.of_nat (length l1) - Z.of_nat (length l2)).
Proof.
  unfold Max_wosize, by_size. intros H1 H2 Hne. rewrite s32_small by (unfold_words; lia).
  by destruct (Z.eqb_spec (Z.of_nat (length l1) - Z.of_nat (length l2)) 0); [lia|].
Qed.
Lemma by_size_eq {A} (f : A -> A -> Z) (l1 l2 : list A) : length l1 = length l2 -> by_size f l1 l2 = lex f l1 l2.
Proof. unfold by_size. intros ->. by rewrite Z.sub_diag. Qed.
Lemma length_join_doubles ds : Forall is_double ds -> length (mjoin ds) = (8 * length ds)%nat.
Proof. induction 1 as [|d ds [Hd _] _ IH]; simpl; [done|]. rewrite length_app, IH. lia. Qed.
Lemma doubles_size (ds : list (list Z)) :
  Forall is_double ds -> Z.of_nat (length (mjoin ds)) / 4 / Double_wosize = Z.of_nat (length ds).
Proof. intros H. rewrite length_join_doubles by done. unfold Double_wosize. zlia. Qed.

Lemma denotes_node_inv h t l v :
  denotes h (TNode t l) v ->
  0 <= t < Object_tag /\ exists vs, get_block h v = Ok (mkBlock t (Fields vs)) /\ Forall2 (denotes h) l vs /\
    Z.of_nat (length l) <= Max_wosize.
Proof.
  intros H. inversion H as [| | | | |b t' l' vs Hb]; subst; (split; [done|]); simpl; [by eexists|].
  exists vs. by rewrite Hb.
Qed.

Section blocks.
Variables (address : value -> Z) (h : heap_t) (fuel : nat).
Implicit Types (x y : tree) (v w : value).
(** Two different blocks of the same tag. *)
Definition compares x y : Prop :=
  forall v w, v <> w -> denotes h x v -> denotes h y w -> compare_val address h (S fuel) v w = Ok (inl (tcmp x y)).

Lemma compares_string s1 s2 : compares (TString s1) (TString s2).
Proof.
  intros v w Hne Hv Hw. inversion Hv as [|b1 ? E1 _ L1| | | |]; inversion Hw as [|b2 ? E2 _ L2| | | |]; subst.
  simpl. rewrite bool_decide_false by done. unfold Tag_val. simpl. rewrite E1, E2. simpl. by rewrite (compare_strings_ok h b1 b2 s1 s2).
Qed.
Lemma compares_double d1 d2 : compares (TDouble d1) (TDouble d2).
Proof.
  intros v w Hne Hv Hw. inversion Hv as [| |b1 ? E1 D1| | |]; inversion Hw as [| |b2 ? E2 D2| | |]; subst.
  simpl. rewrite bool_decide_false by done. unfold Tag_val, bytes_of. simpl. rewrite E1, E2. simpl.
  assert (forall d, is_double d -> double_field d 0 = Ok d) as Hf.
  { intros d Hd. rewrite <-(app_nil_r d) at 1. by apply (double_field_ok [d]); [repeat constructor; apply Hd|]. }
  by rewrite !Hf.
Qed.
Lemma compares_doubles ds1 ds2 : compares (TDoubles ds1) (TDoubles ds2).
Proof.
  intros v w Hne Hv Hw. inversion Hv as [| | |b1 ? E1 D1 L1| |]; inversion Hw as [| | |b2 ? E2 D2 L2| |]; subst.
  simpl. rewrite bool_decide_false by done. unfold Tag_val, bytes_of, Wosize_val. simpl. rewrite E1, E2. simpl.
  rewrite !doubles_size by done.
  destruct (Z.eqb_spec (Z.of_nat (length ds1)) (Z.of_nat (length ds2))) as [E|Hl]; simpl.
  - rewrite by_size_eq by lia. destruct (Z.eqb_spec (Z.of_nat (length ds1)) 0) as [Hz|_].
    + by destruct ds1, ds2; simpl in *.
    + rewrite (compare_doubles_ok ds1 ds2) by (done || lia). done.
  - rewrite by_size_small by (unfold Max_wosize; lia). done.
Qed.
Lemma compares_node t l1 l2 :
  (forall x y v w, x ∈ l1 -> denotes h x v -> denotes h y w -> compare_val address h fuel v w = Ok (inl (tcmp x y))) ->
  compares (TNode t l1) (TNode t l2).
Proof.
  intros IH v w Hne Hv Hw. destruct (get_block_denotes h _ v Hv) as [[? ?]|(? & _ & Hlv & Hov & Hix)]; [done|].
  destruct (get_block_denotes h _ w Hw) as [[? ?]|(? & _ & Hlw & How & Hiy)]; [done|].
  apply denotes_node_inv in Hv as (Ht & vs & Hv & F1 & L1). apply denotes_node_inv in Hw as (_ & ws & Hw & F2 & L2).
  simpl. rewrite bool_decide_false, Hlv, Hlw, Hov, How by done. unfold Tag_val. rewrite Hv, Hw. simpl. rewrite Z.eqb_refl. simpl.
  unfold Object_tag in Ht. assert (forall k, 248 <= k -> (t =? k) = false) as Hk by (intros k ?; apply Z.eqb_neq; lia).
  rewrite !Hk by done. simpl. rewrite <-(Forall2_length _ _ _ F1), <-(Forall2_length _ _ _ F2).
  destruct (Z.eqb_spec (Z.of_nat (length l1)) (Z.of_nat (length l2))) as [E|Hl]; simpl.
  - rewrite by_size_eq by lia. destruct (Z.eqb_spec (Z.of_nat (length l1)) 0) as [Hz|Hz].
    + by destruct l1, l2; simpl in *.
    + eapply compare_fields_ok; [done..|lia|by destruct l1].
  - by rewrite by_size_small by (done || lia).
Qed.
End blocks.

(** With a fuel of the depth of the first tree, the result is the order of the trees. *)
Lemma compare_val_ok address h fuel : forall x y v w,
  (depth x <= fuel)%nat -> denotes h x v -> denotes h y w -> compare_val address h fuel v w = Ok (inl (tcmp x y)).
Proof.
  induction fuel as [|fuel IH]; intros x y v w Hd Hv Hw; [destruct x; simpl in Hd; lia|].
  destruct (decide (v = w)) as [<-|Hne].
  { rewrite (denotes_fun h x y v) by done. simpl. rewrite bool_decide_true by done. by rewrite tcmp_refl. }
  destruct (get_block_denotes h x v Hv) as [[n ->]|(c & Hbv & Hlv & Hov & Hix)],
    (get_block_denotes h y w Hw) as [[m ->]|(c' & Hbw & Hlw & How & Hiy)].
  - inversion Hv as [? Hn| | | | |]; inversion Hw as [? Hm| | | | |]; subst. cbn [compare_val]. rewrite bool_decide_false by done.
    rewrite !Is_long_Val_long, !Long_Val_long, !wrap31_small by done. simpl. do 2 f_equal. apply s32_small.
    unfold is_long, Min_long, Max_long in *. unfold_words. lia.
  - inversion Hv; subst. cbn [compare_val]. rewrite bool_decide_false, Is_long_Val_long, Hlw by done.
    by inversion Hw; subst.
  - inversion Hw; subst. cbn [compare_val]. rewrite bool_decide_false, Is_long_Val_long, Hlv by done.
    by inversion Hv; subst.
  - destruct (decide (tag_of x = tag_of y)) as [Ht|Ht].
    + destruct x as [?|s1|d1|ds1|t l], y as [?|s2|d2|ds2|t' l']; simpl in Ht; try done;
        try (by inversion Hv; subst; rewrite Is_long_Val_long in Hlv); try (by inversion Hw; subst; rewrite Is_long_Val_long in Hlw);
        try (apply denotes_node_inv in Hv as [Ht' _]; subst; vm_compute in Ht'; intuition congruence);
        try (apply denotes_node_inv in Hw as [Ht' _]; subst; vm_compute in Ht'; intuition congruence).
      * by eapply compares_string.
      * by eapply compares_double.
      * by eapply compares_doubles.
      * subst t'. eapply compares_node; try done. intros x y v' w' Hx. apply IH.
        pose proof (depth_node t l x Hx). lia.
    + simpl. rewrite bool_decide_false, Hlv, Hlw, Hov, How by done. unfold Tag_val. rewrite Hbv, Hbw. simpl.
      destruct (Z.eqb_spec (tag_of x) (tag_of y)); [done|]. simpl. by rewrite tcmp_tags.
Qed.

(** ** The order *)

(** [f] at three points is that of a total preorder. *)
Definition trans3 {A} (f : A -> A -> Z) (a b c : A) : Prop :=
  f a b <= 0 -> f b c <= 0 -> f a c <= 0 /\ (f a c = 0 <-> f a b = 0 /\ f b c = 0).
Definition flips {A} (f : A -> A -> Z) (a b : A) : Prop := Z.sgn (f b a) = - Z.sgn (f a b).

Lemma flips_spec {A} (f : A -> A -> Z) a b :
  flips f a b <-> (f a b < 0 <-> 0 < f b a) /\ (f a b = 0 <-> f b a = 0) /\ (0 < f a b <-> f b a < 0).
Proof.
  unfold flips. lia.
Qed.
Lemma lex_flips {A} (f : A -> A -> Z) l1 : Forall (fun a => forall b, flips f a b) l1 -> forall l2, flips (lex f) l1 l2.
Proof.
  induction 1 as [|a l1 Ha _ IH]; intros [|b l2]; try done. specialize (Ha b). apply flips_spec in Ha.
  unfold flips in *. simpl. destruct (Z.eqb_spec (f a b) 0), (Z.eqb_spec (f b a) 0); try lia. apply IH.
Qed.
Lemma by_size_flips {A} (f : A -> A -> Z) l1 : Forall (fun a => forall b, flips f a b) l1 -> forall l2, flips (by_size f) l1 l2.
Proof.
  intros H l2. pose proof (lex_flips f l1 H l2) as Hl. unfold flips, by_size in *.
  destruct (Z.eqb_spec (Z.of_nat (length l1) - Z.of_nat (length l2)) 0), (Z.eqb_spec (Z.of_nat (length l2) - Z.of_nat (length l1)) 0); lia.
Qed.
Lemma compare_double_flips d1 d2 : flips compare_double d1 d2.
Proof.
  unfold flips, compare_double, double_lt. destruct (is_nan d1), (is_nan d2); simpl; try done.
  destruct (Z.ltb_spec (double_key d1) (double_key d2)), (Z.ltb_spec (double_key d2) (double_key d1)); simpl; lia.
Qed.
Lemma by_prefix_flips s1 s2 : flips by_prefix s1 s2.
Proof.
  assert (flips (lex Z.sub) s1 s2) as Hl by (apply lex_flips, Forall_forall; intros a _ b; unfold flips; lia).
  apply flips_spec in Hl. unfold flips, by_prefix. destruct (Z.eqb_spec (lex Z.sub s1 s2) 0), (Z.eqb_spec (lex Z.sub s2 s1) 0); lia.
Qed.
Lemma tcmp_flips x : forall y, flips tcmp x y.
Proof.
  induction x as [n|s|d|ds|t l IH] using tree_ind'; intros [n'|s'|d'|ds'|t' l']; try done; try (unfold flips; simpl; lia).
  - apply by_prefix_flips.
  - apply compare_double_flips.
  - apply by_size_flips, Forall_forall. intros a _ b. apply compare_double_flips.
  - unfold flips. simpl. rewrite (Z.eqb_sym t' t). destruct (Z.eqb_spec t t'); [by apply by_size_flips|lia].
Qed.

(** A tree of OCaml values where no float is a NaN. *)
Inductive ordinary : tree -> Prop :=
  | ordinary_int n : ordinary (TInt n)
  | ordinary_string s : ordinary (TString s)
  | ordinary_double d : is_double d -> is_nan d = false -> ordinary (TDouble d)
  | ordinary_doubles ds : Forall is_double ds -> Forall (fun d => is_nan d = false) ds -> ordinary (TDoubles ds)
  | ordinary_node t l : 0 <= t < Object_tag -> Forall ordinary l -> ordinary (TNode t l).
Lemma lex_trans {A} (f : A -> A -> Z) (P : A -> Prop) l1 :
  Forall (fun a => P a -> forall b c, P b -> P c -> trans3 f a b c) l1 -> Forall P l1 ->
  forall l2 l3, Forall P l2 -> Forall P l3 -> length l1 = length l2 -> length l2 = length l3 -> trans3 (lex f) l1 l2 l3.
Proof.
  induction 1 as [|a l1 Ha _ IH]; intros P1 [|b l2] [|c l3] P2 P3 E1 E2; try done.
  apply Forall_cons in P1 as [Pa P1], P2 as [Pb P2], P3 as [Pc P3]. specialize (Ha Pa b c Pb Pc).
  specialize (IH P1 l2 l3 P2 P3 ltac:(simpl in *; lia) ltac:(simpl in *; lia)). unfold trans3 in *. simpl.
  destruct (Z.eqb_spec (f a b) 0), (Z.eqb_spec (f b c) 0), (Z.eqb_spec (f a c) 0); intros; try lia; try (specialize (Ha ltac:(lia) ltac:(lia)); lia).
Qed.
Lemma by_size_trans {A} (f : A -> A -> Z) (P : A -> Prop) l1 :
  Forall (fun a => P a -> forall b c, P b -> P c -> trans3 f a b c) l1 -> Forall P l1 ->
  forall l2 l3, Forall P l2 -> Forall P l3 -> trans3 (by_size f) l1 l2 l3.
Proof.
  intros H P1 l2 l3 P2 P3. pose proof (lex_trans f P l1 H P1 l2 l3 P2 P3) as Hl. unfold trans3, by_size in *.
  destruct (Z.eqb_spec (Z.of_nat (length l1) - Z.of_nat (length l2)) 0), (Z.eqb_spec (Z.of_nat (length l2) - Z.of_nat (length l3)) 0),
    (Z.eqb_spec (Z.of_nat (length l1) - Z.of_nat (length l3)) 0); intros; try lia.
Qed.
Lemma compare_double_trans d1 d2 d3 :
  is_nan d1 = false -> is_nan d2 = false -> is_nan d3 = false -> trans3 compare_double d1 d2 d3.
Proof.
  unfold trans3, compare_double, double_lt. intros -> -> ->. simpl.
  destruct (Z.ltb_spec (double_key d1) (double_key d2)), (Z.ltb_spec (double_key d2) (double_key d1)),
    (Z.ltb_spec (double_key d2) (double_key d3)), (Z.ltb_spec (double_key d3) (double_key d2)),
    (Z.ltb_spec (double_key d1) (double_key d3)), (Z.ltb_spec (double_key d3) (double_key d1)); lia.
Qed.
Lemma by_prefix_cons a b l1 l2 : by_prefix (a :: l1) (b :: l2) = if a =? b then by_prefix l1 l2 else a - b.
Proof.
  unfold by_prefix. simpl. destruct (Z.eqb_spec (a - b) 0) as [E|E], (Z.eqb_spec a b); try lia.
  - destruct (lex _ _ _ =? 0); lia.
  - by destruct (Z.eqb_spec (a - b) 0).
Qed.
Lemma by_prefix_trans s1 : forall s2 s3, trans3 by_prefix s1 s2 s3.
Proof.
  induction s1 as [|a s1 IH]; intros [|b s2] [|c s3]; unfold trans3; try (unfold by_prefix; simpl; lia).
  rewrite !by_prefix_cons. specialize (IH s2 s3). unfold trans3 in IH.
  destruct (Z.eqb_spec a b), (Z.eqb_spec b c), (Z.eqb_spec a c); lia.
Qed.
(** Integers come first, then blocks by their tags. *)
Definition rank (x : tree) : Z := if is_int x then -1 else tag_of x.
Lemma tcmp_rank x y :
  ordinary x -> ordinary y -> rank x <> rank y -> (tcmp x y < 0 <-> rank x < rank y) /\ (tcmp x y = 0 <-> rank x = rank y).
Proof.
  intros Hx Hy. destruct Hx, Hy; unfold rank, is_int, tag_of, Object_tag, String_tag, Double_tag, Double_array_tag in *;
    simpl; unfold String_tag, Double_tag, Double_array_tag; try lia.
  destruct (Z.eqb_spec t t0); lia.
Qed.
Lemma tcmp_trans x : ordinary x -> forall y z, ordinary y -> ordinary z -> trans3 tcmp x y z.
Proof.
  induction x as [n|s|d|ds|t l IH] using tree_ind'; intros Hx y z Hy Hz.
  all: match goal with |- trans3 _ ?x _ _ => destruct (decide (rank x = rank y /\ rank y = rank z)) as [[E1 E2]|];
    [|pose proof (tcmp_rank x y Hx Hy); pose proof (tcmp_rank y z Hy Hz); pose proof (tcmp_rank x z Hx Hz); unfold trans3; lia] end.
  all: inversion Hx; inversion Hy; inversion Hz; subst; unfold rank, is_int, tag_of in E1, E2; subst;
    try (exfalso; unfold Object_tag, String_tag, Double_tag, Double_array_tag in *; lia).
  - unfold trans3. simpl. lia.
  - apply by_prefix_trans.
  - by apply compare_double_trans.
  - apply (by_size_trans _ (fun d => is_nan d = false)); try done. apply Forall_forall. intros d _ Hd d' d'' Hd' Hd''.
    by apply compare_double_trans.
  - unfold trans3. simpl. rewrite !Z.eqb_refl. by apply (by_size_trans _ ordinary).
Qed.

(** Equality up to the sign of zero. *)
Definition norm_double (d : list Z) : list Z := if magnitude d =? 0 then replicate 8 0 else d.
Fixpoint norm (x : tree) : tree :=
  match x with
  | TDouble d => TDouble (norm_double d)
  | TDoubles ds => TDoubles (map norm_double ds)
  | TNode t l => TNode t (map norm l)
  | x => x
  end.
Lemma le_bytes_inj l1 : forall l2, length l1 = length l2 -> Forall is_byte l1 -> Forall is_byte l2 ->
  le_bytes l1 = le_bytes l2 -> l1 = l2.
Proof.
  induction l1 as [|a l1 IH]; intros [|b l2] Hl H1 H2 E; try done.
  apply Forall_cons in H1 as [Ha H1], H2 as [Hb H2]. unfold is_byte in *. simpl in E.
  assert (a = b) as -> by lia. f_equal. apply IH; [by injection Hl|done..|lia].
Qed.
Lemma le_bytes_range l : Forall is_byte l -> 0 <= le_bytes l < 256 ^ Z.of_nat (length l).
Proof.
  induction 1 as [|a l Ha _ IH]; simpl; [lia|]. unfold is_byte in Ha. rewrite Nat2Z.inj_succ, Z.pow_succ_r by lia. lia.
Qed.
Lemma double_key_zero d1 d2 :
  is_double d1 -> is_double d2 -> double_key d1 = double_key d2 <-> norm_double d1 = norm_double d2.
Proof.
  intros [L1 B1] [L2 B2]. pose proof (le_bytes_range d1 B1) as R1. pose proof (le_bytes_range d2 B2) as R2.
  rewrite L1 in R1. rewrite L2 in R2. change (256 ^ Z.of_nat 8) with (2 ^ 64) in *.
  assert (forall x, magnitude x = 0 -> double_key x = 0) as Hz by (intros x Hx; unfold double_key; rewrite Hx; by destruct (_ >=? _)).
  assert (0 = double_key (replicate 8 0)) as H0 by done.
  split.
  - intros E. unfold norm_double.
    destruct (Z.eqb_spec (magnitude d1) 0) as [M1|M1], (Z.eqb_spec (magnitude d2) 0) as [M2|M2]; [done|..];
      [apply Hz in M1|apply Hz in M2|apply le_bytes_inj; [lia|done..|]];
      unfold double_key, magnitude in *; destruct (Z.geb_spec (le_bytes d1) (2 ^ 63)), (Z.geb_spec (le_bytes d2) (2 ^ 63)); zlia.
  - unfold norm_double. destruct (Z.eqb_spec (magnitude d1) 0) as [M1|M1], (Z.eqb_spec (magnitude d2) 0) as [M2|M2]; intros E.
    + by rewrite !Hz.
    + by subst d2.
    + by subst d1.
    + by subst d2.
Qed.
Lemma compare_double_zero d1 d2 :
  is_double d1 -> is_double d2 -> is_nan d1 = false -> is_nan d2 = false ->
  compare_double d1 d2 = 0 <-> norm_double d1 = norm_double d2.
Proof.
  intros D1 D2 N1 N2. rewrite <-double_key_zero by done. unfold compare_double, double_lt. rewrite N1, N2. simpl.
  destruct (Z.ltb_spec (double_key d1) (double_key d2)), (Z.ltb_spec (double_key d2) (double_key d1)); lia.
Qed.
Lemma lex_zero {A} (f : A -> A -> Z) (g : A -> A) (P : A -> Prop) l1 :
  Forall (fun a => P a -> forall b, P b -> f a b = 0 <-> g a = g b) l1 -> Forall P l1 ->
  forall l2, Forall P l2 -> length l1 = length l2 -> lex f l1 l2 = 0 <-> map g l1 = map g l2.
Proof.
  induction 1 as [|a l1 Ha _ IH]; intros P1 [|b l2] P2 E; try done.
  apply Forall_cons in P1 as [Pa P1], P2 as [Pb P2]. specialize (Ha Pa b Pb).
  specialize (IH P1 l2 P2 ltac:(by injection E)). simpl. destruct (Z.eqb_spec (f a b) 0) as [E0|E0].
  - rewrite IH. apply Ha in E0 as ->. split; [by intros ->|by intros [= ->]].
  - split; [done|]. intros [= Eg _]. by apply Ha in Eg.
Qed.
Lemma by_size_zero {A} (f : A -> A -> Z) (g : A -> A) (P : A -> Prop) l1 l2 :
  Forall (fun a => P a -> forall b, P b -> f a b = 0 <-> g a = g b) l1 -> Forall P l1 -> Forall P l2 ->
  by_size f l1 l2 = 0 <-> map g l1 = map g l2.
Proof.
  intros H P1 P2. unfold by_size. destruct (Z.eqb_spec (Z.of_nat (length l1) - Z.of_nat (length l2)) 0) as [E|E].
  - by apply (lex_zero f g P); [..|lia].
  - split; [lia|]. intros Em. apply (f_equal length) in Em. rewrite !length_map in Em. lia.
Qed.
Lemma by_prefix_zero s1 : forall s2, by_prefix s1 s2 = 0 <-> s1 = s2.
Proof.
  induction s1 as [|a s1 IH]; intros [|b s2]; try done.
  rewrite by_prefix_cons. destruct (Z.eqb_spec a b) as [<-|Hab].
  - rewrite IH. split; [by intros ->|by intros [= ->]].
  - split; [lia|by intros [= ? ?]].
Qed.
Lemma rank_norm x : rank (norm x) = rank x.
Proof. by destruct x. Qed.
Lemma tcmp_zero x : ordinary x -> forall y, ordinary y -> tcmp x y = 0 <-> norm x = norm y.
Proof.
  induction x as [n|s|d|ds|t l IH] using tree_ind'; intros Hx y Hy.
  all: match goal with |- tcmp ?x _ = 0 <-> _ => destruct (decide (rank x = rank y)) as [E|];
    [|pose proof (tcmp_rank x y Hx Hy); split; [lia|intros En%(f_equal rank); rewrite !rank_norm in En; lia]] end.
  all: inversion Hx; inversion Hy; subst; unfold rank, is_int, tag_of in E; subst;
    try (exfalso; unfold Object_tag, String_tag, Double_tag, Double_array_tag in *; lia); simpl.
  - split; [intros; f_equal; lia|intros [= ->]; lia].
  - rewrite by_prefix_zero. split; [by intros ->|by intros [= ->]].
  - rewrite compare_double_zero by done. split; [by intros ->|by intros [= ->]].
  - rewrite (by_size_zero compare_double norm_double (fun d => is_double d /\ is_nan d = false)).
    + split; [by intros ->|by intros [= ->]].
    + apply Forall_forall. intros d _ [? ?] d' [? ?]. by apply compare_double_zero.
    + by apply Forall_and.
    + by apply Forall_and.
  - rewrite Z.eqb_refl, (by_size_zero tcmp norm ordinary) by done. split; [by intros ->|by intros [= ->]].
Qed.

Definition answers (r : result (value + ml_exn)) (b : bool) : Prop := r = Ok (inl (Val_bool b)).
Lemma answers_true b : Ok (inl (Val_int (c_bool b))) = Ok (inl (Val_bool true)) :> result (value + ml_exn) <-> b = true.
Proof. split; [|by intros ->]. by destruct b. Qed.

(** C10: structural comparison is an order.  Of two values that denote trees (no cycle, closure, abstract
    block or NaN inside), with a fuel that is the depth of the trees, every primitive returns: [equal] is
    true exactly when the trees are equal up to the sign of zero, [notequal] is its negation, [lessequal]
    is total, transitive, and antisymmetric for [equal]; [lessthan], [greaterthan] and [greaterequal] are the
    strict and the reversed order, and [compare] is -1, 0 or 1 accordingly. *)
Theorem structural_order address h fuel x y z u v w :
  denotes h x u -> denotes h y v -> denotes h z w -> ordinary x -> ordinary y -> ordinary z ->
  (depth x <= fuel)%nat -> (depth y <= fuel)%nat -> (depth z <= fuel)%nat ->
  let le a b := answers (lessequal address h fuel a b) true in
  exists lt eq : bool,
    (eq = true <-> norm x = norm y) /\ (le u v <-> lt = true \/ eq = true) /\ (le v u <-> lt = false) /\
    (le u v -> le v w -> le u w) /\
    answers (equal address h fuel u v) eq /\ answers (notequal address h fuel u v) (negb eq) /\
    answers (lessequal address h fuel u v) (lt || eq) /\
    answers (lessthan address h fuel u v) lt /\
    answers (greaterequal address h fuel u v) (negb lt) /\
    answers (greaterthan address h fuel u v) (negb (lt || eq)) /\
    compare address h fuel u v = Ok (inl (Val_int (if lt then -1 else if eq then 0 else 1))).
Proof.
  intros Hu Hv Hw Ox Oy Oz Dx Dy Dz. cbv zeta.
  pose proof (tcmp_zero x Ox y Oy) as H0. pose proof (tcmp_flips x y) as Hf. apply flips_spec in Hf.
  pose proof (tcmp_trans x Ox y z Oy Oz) as Ht. unfold trans3 in Ht.
  exists (tcmp x y <? 0), (tcmp x y =? 0). unfold answers, equal, notequal, lessequal, lessthan, greaterequal, greaterthan, compare, lift.
  rewrite (compare_val_ok address h fuel x y u v), (compare_val_ok address h fuel y x v u), (compare_val_ok address h fuel y z v w),
    (compare_val_ok address h fuel x z u w) by done. simpl.
  rewrite !answers_true, Z.ltb_ge, Z.ltb_lt, !Z.leb_le, Z.eqb_eq.
  split_and!; try done; try lia; do 2 f_equal.
  - destruct (Z.eqb_spec (tcmp x y) 0), (Z.leb_spec (tcmp x y) 0), (Z.ltb_spec (tcmp x y) 0); done || lia.
  - rewrite Z.geb_leb, Z.leb_antisym. done.
  - destruct (Z.eqb_spec (tcmp x y) 0), (Z.gtb_spec (tcmp x y) 0), (Z.ltb_spec (tcmp x y) 0); done || lia.
  - f_equal. destruct (Z.eqb_spec (tcmp x y) 0), (Z.gtb_spec (tcmp x y) 0), (Z.ltb_spec (tcmp x y) 0); done || lia.
Qed.
(** The pairs [(1, 0.)], [(1, -0.)] and [(1, 'a')] with a one-byte string. *)
Definition zero_bytes : list Z := replicate 8 0.
Definition minus_zero_bytes : list Z := replicate 7 0 ++ [128].
Definition nan_bytes : list Z := replicate 6 0 ++ [248; 127].
Definition one_bytes : list Z := replicate 6 0 ++ [240; 63].
Definition pairs_heap : heap_t :=
  {[0%nat := mkBlock Double_tag (Bytes zero_bytes); 1%nat := mkBlock Double_tag (Bytes minus_zero_bytes);
    2%nat := mkBlock String_tag (Bytes (string_bytes [97]));
    3%nat := mkBlock 0 (Fields [Val_long 1; Ptr 0]); 4%nat := mkBlock 0 (Fields [Val_long 1; Ptr 1]);
    5%nat := mkBlock 0 (Fields [Val_long 1; Ptr 2])]}.
Definition pair_of (x : tree) : tree := TNode 0 [TInt 1; x].
Lemma structural_order_witness :
  compare (fun _ => 0) pairs_heap 2 (Ptr 3) (Ptr 4) = Ok (inl (Val_int 0)) /\
  exists lt eq : bool, eq = true /\ answers (equal (fun _ => 0) pairs_heap 2 (Ptr 3) (Ptr 4)) eq /\
    answers (lessthan (fun _ => 0) pairs_heap 2 (Ptr 3) (Ptr 4)) lt.
Proof.
  split; [vm_compute; reflexivity|].
  assert (forall b x, pairs_heap !! (3 + b)%nat = Some (mkBlock 0 (Fields [Val_long 1; Ptr b])) ->
    denotes pairs_heap x (Ptr b) -> denotes pairs_heap (pair_of x) (Ptr (3 + b))) as Hp.
  { intros b x Hb Hx. apply (denotes_node _ _ _ _ [Val_long 1; Ptr b] Hb); [done|done|].
    constructor; [apply denotes_int; done|]. constructor; [exact Hx|constructor]. }
  assert (is_double zero_bytes /\ is_double minus_zero_bytes) as [D0 D1].
  { split; (split; [reflexivity|]); repeat constructor; vm_compute; congruence. }
  assert (ordinary (TInt 1)) as O1 by constructor.
  assert (forall x, ordinary x -> ordinary (pair_of x)) as Ho.
  { intros x Ox. constructor; [done|]. constructor; [exact O1|]. constructor; [exact Ox|constructor]. }
  destruct (structural_order (fun _ => 0) pairs_heap 2 (pair_of (TDouble zero_bytes)) (pair_of (TDouble minus_zero_bytes))
    (pair_of (TString [97])) (Ptr 3) (Ptr 4) (Ptr 5)) as (lt & eq & He & _ & _ & _ & Heq & _ & _ & Hlt & _).
  - apply (Hp 0%nat); [reflexivity|]. apply denotes_double; [reflexivity|exact D0].
  - apply (Hp 1%nat); [reflexivity|]. apply denotes_double; [reflexivity|exact D1].
  - apply (Hp 2%nat); [reflexivity|]. apply denotes_string; [reflexivity|repeat constructor; vm_compute; congruence|reflexivity].
  - apply Ho. constructor; [exact D0|reflexivity].
  - apply Ho. constructor; [exact D1|reflexivity].
  - apply Ho. constructor.
  - vm_compute. lia.
  - vm_compute. lia.
  - vm_compute. lia.
  - exists lt, eq. split; [apply He; vm_compute; reflexivity|]. split; [exact Heq|exact Hlt].
Defined.

(** A NaN is equal to every float, so equality is not transitive: 1 = NaN and NaN = 0, but 1 <> 0. *)
Lemma nan_equals_all address h fuel b1 b2 d1 d2 :
  h !! b1 = Some (mkBlock Double_tag (Bytes d1)) -> h !! b2 = Some (mkBlock Double_tag (Bytes d2)) ->
  is_double d1 -> is_double d2 -> is_nan d1 = true \/ is_nan d2 = true ->
  answers (equal address h (S fuel) (Ptr b1) (Ptr b2)) true.
Proof.
  intros H1 H2 D1 D2 Hn. unfold answers, equal, lift.
  rewrite (compare_val_ok address h (S fuel) (TDouble d1) (TDouble d2)) by (solve [simpl; lia] || by constructor).
  simpl. unfold compare_double, double_lt. by destruct Hn as [Hn|Hn], (is_nan d1), (is_nan d2).
Qed.
Example nan_not_transitive :
  let h := {[0%nat := mkBlock Double_tag (Bytes one_bytes); 1%nat := mkBlock Double_tag (Bytes nan_bytes);
    2%nat := mkBlock Double_tag (Bytes zero_bytes)]} in
  let eq a b := equal (fun _ => 0) h 1 (Ptr a) (Ptr b) in
  eq 0%nat 1%nat = Ok (inl Val_true) /\ eq 1%nat 2%nat = Ok (inl Val_true) /\ eq 0%nat 2%nat = Ok (inl Val_false).
Proof. vm_compute. split_and!; reflexivity. Qed.
