(* ===== verification/Hash.v ===== *)
(** * The generic hashing primitive: kernel/Byterun/hash.c

    [hash_aux] visits a value until it has used up its two counters, so that it ends on cyclic
    values too.  The three static variables are the state; [address] gives the
    machine address of a pointer outside the heap. *)
From stdpp Require Import gmap list strings.
From S2P Require Import Prelude Mlvalues Intext Compare Structural.

Record hstate := mkHash { hash_univ_limit : Z; hash_univ_count : Z; hash_accu : Z }.
Definition Alpha : Z := 65599.
Definition Beta : Z := 19.
Definition Combine (new : Z) (s : hstate) : hstate :=
  mkHash (hash_univ_limit s) (hash_univ_count s) (u32 (hash_accu s * Alpha + new)).
Definition Combine_small (new : Z) (s : hstate) : hstate :=
  mkHash (hash_univ_limit s) (hash_univ_count s) (u32 (hash_accu s * Beta + new)).
(** [hash_univ_limit--] and [hash_univ_count--] *)
Definition visit (s : hstate) : hstate := mkHash (s32 (hash_univ_limit s - 1)) (hash_univ_count s) (hash_accu s).
Definition count (s : hstate) : hstate := mkHash (hash_univ_limit s) (s32 (hash_univ_count s - 1)) (hash_accu s).

Section hash.
Variables (address : value -> Z) (h : heap_t).

(** [n] bytes from the [i]th, each combined. *)
Fixpoint hash_bytes (n : nat) (i : Z) (v : value) (s : hstate) : result hstate :=
  match n with
  | O => Ok s
  | S n => let* c := Byte_u h v i in hash_bytes n (i + 1) v (Combine_small c s)
  end.
(** The doubles of an array, from the byte [j] on: at most [n] of them. *)
Fixpoint hash_doubles (n : nat) (j size : Z) (v : value) (s : hstate) : result hstate :=
  match n with
  | O => Ok s
  | S n => if j <? size then let* s := hash_bytes 8 j v s in hash_doubles n (j + 8) size v s else Ok s
  end.
(** The first [i] fields, the last one first. *)
Fixpoint hash_fields (f : value -> hstate -> result hstate) (i : nat) (v : value) (s : hstate) : result hstate :=
  match i with
  | O => Ok s
  | S i => let* x := Field h v (Z.of_nat i) in let* s := f x s in hash_fields f i v s
  end.
(** The switch on the tag; [f] is the recursive call. *)
Definition hash_block (f : value -> hstate -> result hstate) (obj : value) (s : hstate) : result hstate :=
  let* tag := Tag_val h obj in
  if tag =? String_tag then
    let* i := string_length h obj in
    hash_bytes (Z.to_nat i) 0 obj (count s)
  else if tag =? Double_tag then hash_bytes 8 0 obj (count s)
  else if tag =? Double_array_tag then
    let* size := Bosize_val h obj in
    hash_doubles (Z.to_nat size) 0 size obj (count s)
  else if (tag =? Abstract_tag) || (tag =? Final_tag) then Ok s
  else if tag =? Infix_tag then Fault
  else if tag =? Object_tag then let* x := Oid_val h obj in Ok (Combine x (count s))
  else
    let* i := Wosize_val h obj in
    hash_fields f (Z.to_nat i) obj (Combine_small tag (count s)).
Fixpoint hash_aux (fuel : nat) (obj : value) (s : hstate) : result hstate :=
  match fuel with
  | O => Loop
  | S fuel =>
      let s := visit s in
      if (hash_univ_count s <? 0) || (hash_univ_limit s <? 0) then Ok s
      else if Is_long obj then let* x := Long_val obj in Ok (Combine x (count s))
      else if negb (outside obj) then hash_block (hash_aux fuel) obj s
      else Ok (Combine (address obj) s)
  end.
Definition hash_univ_param (fuel : nat) (count limit obj : value) : result value :=
  let* limit := Long_val limit in
  let* count := Long_val count in
  let* s := hash_aux fuel obj (mkHash limit count 0) in
  Ok (Val_long (Z.land (hash_accu s) 0x3FFFFFFF)).
End hash.

(** ** The hash of a tree *)

Definition small_bytes (l : list Z) (s : hstate) : hstate := fold_left (fun s c => Combine_small c s) l s.
Definition spent (s : hstate) : bool := (hash_univ_count s <? 0) || (hash_univ_limit s <? 0).
Fixpoint thash (x : tree) (s : hstate) : hstate :=
  let s := visit s in
  if spent s then s
  else
    match x with
    | TInt n => Combine n (count s)
    | TString l => small_bytes l (count s)
    | TDouble d => small_bytes d (count s)
    | TDoubles ds => small_bytes (mjoin ds) (count s)
    | TNode t l => foldr thash (Combine_small t (count s)) l
    end.

Lemma small_bytes_app l1 l2 s : small_bytes (l1 ++ l2) s = small_bytes l2 (small_bytes l1 s).
Proof. apply fold_left_app. Qed.
Lemma hash_bytes_ok h v t l : forall l1 l2 s,
  get_block h v = Ok (mkBlock t (Bytes (l1 ++ l ++ l2))) ->
  hash_bytes h (length l) (Z.of_nat (length l1)) v s = Ok (small_bytes l s).
Proof.
  induction l as [|c l IH]; intros l1 l2 s Hb; [done|]. cbn [length hash_bytes].
  unfold Byte_u. rewrite Hb. cbn [rbind data]. destruct (Z.ltb_spec (Z.of_nat (length l1)) 0); [lia|].
  rewrite Nat2Z.id, lookup_app_r, Nat.sub_diag by lia. cbn [of_ptr lookup list_lookup rbind app].
  replace (Z.of_nat (length l1) + 1) with (Z.of_nat (length (l1 ++ [c]))) by (rewrite length_app; simpl; lia).
  rewrite (IH _ l2); [done|]. by rewrite <-app_assoc.
Qed.
Lemma hash_doubles_ok h v t ds : forall l1 n s,
  get_block h v = Ok (mkBlock t (Bytes (l1 ++ mjoin ds))) -> Forall is_double ds -> (length ds <= n)%nat ->
  hash_doubles h n (Z.of_nat (length l1)) (Z.of_nat (length l1 + length (mjoin ds))) v s = Ok (small_bytes (mjoin ds) s).
Proof.
  induction ds as [|d ds IH]; intros l1 n s Hb Hd Hn.
  - simpl. rewrite Nat.add_0_r. destruct n; simpl; [done|]. by rewrite Z.ltb_irrefl.
  - apply Forall_cons in Hd as [[Hd Hd'] Hds]. destruct n as [|n]; simpl in Hn; [lia|].
    cbn [hash_doubles]. change (mjoin (d :: ds)) with (d ++ mjoin ds) in *. rewrite length_app.
    destruct (Z.ltb_spec (Z.of_nat (length l1)) (Z.of_nat (length l1 + (length d + length (mjoin ds))))); [|lia].
    pose proof (hash_bytes_ok h v t d l1 (mjoin ds) s Hb) as Hbytes. rewrite Hd in Hbytes. rewrite Hbytes. cbn [rbind].
    replace (Z.of_nat (length l1) + 8) with (Z.of_nat (length (l1 ++ d))) by (rewrite length_app; lia).
    replace (length l1 + (length d + length (mjoin ds)))%nat with (length (l1 ++ d) + length (mjoin ds))%nat by (rewrite length_app; lia).
    rewrite IH; [by rewrite small_bytes_app|by rewrite <-app_assoc|done|lia].
Qed.
Lemma hash_fields_ok h v t f l : forall vs vs' s,
  get_block h v = Ok (mkBlock t (Fields (vs ++ vs'))) ->
  (forall x u s, x ∈ l -> denotes h x u -> f u s = Ok (thash x s)) -> Forall2 (denotes h) l vs ->
  hash_fields h f (length l) v s = Ok (foldr thash s l).
Proof.
  induction l as [|x l IH] using rev_ind; intros vs vs' s Hb Hf F; [done|].
  apply Forall2_app_inv_l in F as (us & us' & F & Fx & ->). apply Forall2_cons_inv_l in Fx as (u & ? & Hu & Fn & ->).
  apply Forall2_nil_inv_l in Fn as ->. rewrite length_app, Nat.add_comm. cbn [length Nat.add hash_fields].
  rewrite <-app_assoc in Hb. unfold Field. rewrite Hb. cbn [rbind data].
  destruct (Z.ltb_spec (Z.of_nat (length l)) 0); [lia|]. rewrite Nat2Z.id, (Forall2_length _ _ _ F).
  cbn [app]. rewrite list_lookup_middle by done. cbn [of_ptr rbind]. rewrite (Hf x u) by (set_solver || done). cbn [rbind].
  rewrite foldr_app, <-(Forall2_length _ _ _ F). cbn [foldr].
  apply (IH us (u :: vs')); [done| |done]. intros x' u' s' Hx. apply Hf. set_solver.
Qed.
Lemma string_prefix_bytes l : exists l', string_bytes l = [] ++ l ++ l'.
Proof. by eexists. Qed.

(** The hash depends on the tree alone. *)
Lemma hash_aux_ok address h fuel : forall x v s,
  (depth x <= fuel)%nat -> denotes h x v -> hash_aux address h fuel v s = Ok (thash x s).
Proof.
  induction fuel as [|fuel IH]; intros x v s Hd Hv; [destruct x; simpl in Hd; lia|].
  cbn [hash_aux]. unfold spent. destruct ((hash_univ_count (visit s) <? 0) || (hash_univ_limit (visit s) <? 0)) eqn:Es.
  { destruct x; simpl thash; unfold spent; by rewrite Es. }
  destruct x as [n|l|d|ds|t l].
  - inversion Hv; subst. rewrite Is_long_Val_long, Long_Val_long, wrap31_small by done. cbn [rbind thash]. unfold spent. by rewrite Es.
  - inversion Hv as [|b ? Hb _ Hl| | | |]; subst. unfold hash_block, Tag_val. simpl. rewrite Hb. cbn [of_ptr rbind tag]. simpl (String_tag =? _).
    rewrite (string_length_ok h b l) by done. cbn [rbind]. rewrite Nat2Z.id. destruct (string_prefix_bytes l) as [l' El].
    unfold spent. rewrite Es. apply (hash_bytes_ok h _ String_tag l [] l'). simpl. rewrite Hb. by rewrite El.
  - inversion Hv as [| |b ? Hb [Hl _]| | |]; subst. unfold hash_block, Tag_val. simpl. rewrite Hb. cbn [of_ptr rbind tag].
    unfold spent. rewrite Es. change (Double_tag =? String_tag) with false. change (Double_tag =? Double_tag) with true. cbv iota.
    pose proof (hash_bytes_ok h (Ptr b) Double_tag d [] [] (count (visit s))) as Hh. rewrite Hl in Hh. apply Hh.
    rewrite app_nil_r. simpl. by rewrite Hb.
  - inversion Hv as [| | |b ? Hb Hds _| |]; subst. unfold hash_block, Tag_val, Bosize_val, Wosize_val. simpl. rewrite Hb. cbn [of_ptr rbind tag data size_of].
    unfold spent. rewrite Es. change (Double_array_tag =? String_tag) with false. change (Double_array_tag =? Double_tag) with false.
    change (Double_array_tag =? Double_array_tag) with true. cbv iota.
    assert (4 * (Z.of_nat (length (mjoin ds)) / 4) = Z.of_nat (length (mjoin ds))) as -> by (rewrite length_join_doubles by done; zlia).
    rewrite Nat2Z.id. apply (hash_doubles_ok h _ Double_array_tag ds []); [simpl; by rewrite Hb|done|].
    rewrite length_join_doubles by done. lia.
  - destruct (get_block_denotes h _ v Hv) as [[? ?]|(_ & _ & -> & -> & _)]; [done|].
    apply denotes_node_inv in Hv as (Ht & vs & Hb & F & _). unfold hash_block, Tag_val, Wosize_val. rewrite Hb. cbn [rbind tag data size_of negb].
    unfold Object_tag in Ht. assert (forall k, 248 <= k -> (t =? k) = false) as Hk by (intros k ?; apply Z.eqb_neq; lia).
    rewrite !Hk by done. cbn [orb]. rewrite Nat2Z.id, <-(Forall2_length _ _ _ F).
    change (thash (TNode t l) s) with (let s := visit s in if spent s then s else foldr thash (Combine_small t (count s)) l).
    cbv zeta. unfold spent. rewrite Es. apply (hash_fields_ok h v t (hash_aux address h fuel) l vs []); [by rewrite app_nil_r| |done].
    intros x u s' Hx. apply IH. pose proof (depth_node t l x Hx). lia.
Qed.
(** No zero of a float is negative. *)
Inductive no_minus_zero : tree -> Prop :=
  | nmz_int n : no_minus_zero (TInt n)
  | nmz_string s : no_minus_zero (TString s)
  | nmz_double d : norm_double d = d -> no_minus_zero (TDouble d)
  | nmz_doubles ds : Forall (fun d => norm_double d = d) ds -> no_minus_zero (TDoubles ds)
  | nmz_node t l : Forall no_minus_zero l -> no_minus_zero (TNode t l).
Lemma norm_id x : no_minus_zero x -> norm x = x.
Proof.
  induction x as [n|s|d|ds|t l IH] using tree_ind'; intros H; inversion H as [| |? Hd|? Hd|? ? Hl]; subst; simpl; f_equal; try done.
  - clear H. induction Hd as [|d ds Hd _ IH]; simpl; [done|]. by rewrite Hd, IH.
  - clear H. induction Hl as [|x l Hx _ IHl]; simpl; [done|]. apply Forall_cons in IH as [IHx IH]. f_equal; [by apply IHx|by apply IHl].
Qed.

(** C31: equal values have equal hashes.  If [equal] holds of two values that denote trees without NaN and
    negative zeros, [hash_univ_param] gives both the same number of 30 bits, whatever
    their sharing and their places in the heap, and whatever its two limits. *)
Theorem hash_equal address h fuel x y v w c l :
  denotes h x v -> denotes h y w -> ordinary x -> ordinary y -> no_minus_zero x -> no_minus_zero y ->
  (depth x <= fuel)%nat -> (depth y <= fuel)%nat -> is_long c -> is_long l ->
  answers (equal address h fuel v w) true ->
  exists n, 0 <= n < 2 ^ 30 /\ hash_univ_param address h fuel (Val_long c) (Val_long l) v = Ok (Val_long n) /\
    hash_univ_param address h fuel (Val_long c) (Val_long l) w = Ok (Val_long n).
Proof.
  intros Hv Hw Ox Oy Zx Zy Dx Dy Hc Hl He. unfold answers, equal, lift in He.
  rewrite (compare_val_ok address h fuel x y) in He by done. cbn [rbind] in He. apply answers_true, Z.eqb_eq in He.
  apply tcmp_zero in He; [|done..]. rewrite !norm_id in He by done. subst y.
  exists (Z.land (hash_accu (thash x (mkHash l c 0))) 0x3FFFFFFF). unfold hash_univ_param.
  rewrite !Long_Val_long, !wrap31_small by done. cbn [rbind]. rewrite !(hash_aux_ok address h fuel x) by done.
  split; [|done]. change 0x3FFFFFFF with (Z.ones 30). rewrite Z.land_ones by lia. apply Z.mod_pos_bound. lia.
Qed.
(** The pair [(1, 'a')] and a copy of it in another place. *)
Definition twins : heap_t :=
  {[0%nat := mkBlock String_tag (Bytes (string_bytes [97])); 1%nat := mkBlock 0 (Fields [Val_long 1; Ptr 0]);
    2%nat := mkBlock String_tag (Bytes (string_bytes [97])); 3%nat := mkBlock 0 (Fields [Val_long 1; Ptr 2])]}.
Lemma hash_equal_witness :
  exists n, 0 <= n < 2 ^ 30 /\ hash_univ_param (fun _ => 0) twins 2 (Val_long 10) (Val_long 100) (Ptr 1) = Ok (Val_long n) /\
    hash_univ_param (fun _ => 0) twins 2 (Val_long 10) (Val_long 100) (Ptr 3) = Ok (Val_long n).
Proof.
  assert (forall b, twins !! S b = Some (mkBlock 0 (Fields [Val_long 1; Ptr b])) ->
    twins !! b = Some (mkBlock String_tag (Bytes (string_bytes [97]))) -> denotes twins (pair_of (TString [97])) (Ptr (S b))) as Hp.
  { intros b H1 H2. apply (denotes_node _ _ _ _ [Val_long 1; Ptr b] H1); [done|done|].
    constructor; [apply denotes_int; done|]. constructor; [|constructor].
    apply denotes_string; [exact H2|repeat constructor; vm_compute; congruence|reflexivity]. }
  assert (ordinary (pair_of (TString [97])) /\ no_minus_zero (pair_of (TString [97]))) as [Ho Hz].
  { split; repeat constructor; vm_compute; congruence. }
  assert (forall x, depth (pair_of (TString x)) <= 2)%nat as Hd by (intros; vm_compute; lia).
  apply (hash_equal (fun _ => 0) twins 2 (pair_of (TString [97])) (pair_of (TString [97]))).
  - apply Hp; reflexivity.
  - apply Hp; reflexivity.
  - exact Ho.
  - exact Ho.
  - exact Hz.
  - exact Hz.
  - apply Hd.
  - apply Hd.
  - split; vm_compute; congruence.
  - split; vm_compute; congruence.
  - vm_compute. reflexivity.
Defined.
(** The two zeros are equal and their hashes differ. *)
Example zeros_hash :
  let h := {[0%nat := mkBlock Double_tag (Bytes zero_bytes); 1%nat := mkBlock Double_tag (Bytes minus_zero_bytes)]} in
  let hash b := hash_univ_param (fun _ => 0) h 2 (Val_long 10) (Val_long 100) (Ptr b) in
  equal (fun _ => 0) h 1 (Ptr 0) (Ptr 1) = Ok (inl Val_true) /\
  hash 0%nat = Ok (Val_long 0) /\ hash 1%nat = Ok (Val_long 128).
Proof. vm_compute. split_and!; reflexivity. Qed.

(** ** The traversal ends *)

Section ends.
Variables (address : value -> Z) (h : heap_t) (M : Z) (reached : nat -> Prop).
(** A value of OCaml whose blocks are among those reached. *)
Definition hashable (v : value) : Prop :=
  match v with Ptr b => reached b | Atom t => 0 <= t < Object_tag | _ => True end.
Definition hashable_block (blk : block) : Prop :=
  match data blk with
  | Fields l => Z.of_nat (length l) <= M /\ Forall hashable l /\
      (0 <= tag blk < Object_tag \/ tag blk = Closure_tag \/ tag blk = Object_tag /\ exists n, l !! 1%nat = Some (Int n))
  | Bytes l =>
      tag blk = String_tag /\ (exists s, l = string_bytes s /\ Z.of_nat (length s) < 2 ^ 24) \/
      tag blk = Double_tag /\ length l = 8%nat \/
      tag blk = Double_array_tag /\ (exists n, length l = 8 * n)%nat \/
      tag blk = Abstract_tag \/ tag blk = Final_tag
  end.
Hypothesis closed : forall b, reached b -> exists blk, h !! b = Some blk /\ hashable_block blk.
Hypothesis M_pos : 0 <= M.

Definition pos (x : Z) : Z := Z.max 0 x.
(** From [s] to [s'] at most [n] calls, and [M] for each unit of the limit. *)
Definition spends (n : Z) (s s' : hstate) : Prop :=
  hash_univ_limit s - n - M * (pos (hash_univ_limit s) - pos (hash_univ_limit s')) <= hash_univ_limit s' <= hash_univ_limit s /\
  -1 <= hash_univ_count s' <= Z.max (-1) (hash_univ_count s).
(** The limit does not pass the least integer. *)
Definition room (n : Z) (s : hstate) : Prop :=
  - 2 ^ 31 <= hash_univ_limit s - n - M * pos (hash_univ_limit s) /\ hash_univ_limit s < 2 ^ 31 /\ -1 <= hash_univ_count s < 2 ^ 31.

Lemma hash_bytes_runs v t l n : forall i s, get_block h v = Ok (mkBlock t (Bytes l)) -> 0 <= i -> (Z.to_nat i + n <= length l)%nat ->
  exists s', hash_bytes h n i v s = Ok s' /\ hash_univ_limit s' = hash_univ_limit s /\ hash_univ_count s' = hash_univ_count s.
Proof.
  induction n as [|n IH]; intros i s Hb Hi Hn; cbn [hash_bytes]; [by eexists|].
  unfold Byte_u. rewrite Hb. cbn [rbind data]. destruct (Z.ltb_spec i 0); [lia|].
  destruct (lookup_lt_is_Some_2 l (Z.to_nat i)) as [c ->]; [lia|]. cbn [of_ptr rbind].
  destruct (IH (i + 1) (Combine_small c s) Hb) as (s' & Hs & El & Ec); [lia..|]. by exists s'.
Qed.
Lemma hash_doubles_runs v t l n k : forall j s, get_block h v = Ok (mkBlock t (Bytes l)) -> (8 * j + 8 * k = length l)%nat -> (k <= n)%nat ->
  exists s', hash_doubles h n (Z.of_nat (8 * j)) (Z.of_nat (length l)) v s = Ok s' /\
    hash_univ_limit s' = hash_univ_limit s /\ hash_univ_count s' = hash_univ_count s.
Proof.
  revert k. induction n as [|n IH]; intros k j s Hb Hl Hk; cbn [hash_doubles]; [by eexists|].
  destruct (Z.ltb_spec (Z.of_nat (8 * j)) (Z.of_nat (length l))); [|by eexists]. destruct k as [|k]; [lia|].
  destruct (hash_bytes_runs v t l 8 (Z.of_nat (8 * j)) s Hb) as (s1 & -> & El & Ec); [lia..|]. cbn [rbind].
  destruct (IH k (S j) s1 Hb) as (s' & Hs & El' & Ec'); [lia..|]. exists s'. split; [|split; congruence].
  rewrite <-Hs. f_equal. lia.
Qed.
Lemma spends_trans n1 n2 s1 s2 s3 : spends n1 s1 s2 -> spends n2 s2 s3 -> spends (n1 + n2) s1 s3.
Proof. unfold spends. lia. Qed.
Lemma room_spends n1 n2 s s' : room (n1 + n2) s -> spends n1 s s' -> 0 <= n2 -> room n2 s'.
Proof. unfold room, spends. intros. lia. Qed.
Lemma hash_fields_runs (f : value -> hstate -> result hstate) v t l i : forall s,
  (forall u s1, hashable u -> hash_univ_limit s1 <= hash_univ_limit s -> room 1 s1 -> exists s2, f u s1 = Ok s2 /\ spends 1 s1 s2) ->
  get_block h v = Ok (mkBlock t (Fields l)) -> Forall hashable l -> (i <= length l)%nat -> room (Z.of_nat i) s ->
  exists s', hash_fields h f i v s = Ok s' /\ spends (Z.of_nat i) s s'.
Proof.
  induction i as [|i IH]; intros s Hf Hb Hl Hi Hr; cbn [hash_fields].
  - exists s. split; [done|]. unfold spends, room in *. lia.
  - unfold Field. rewrite Hb. cbn [rbind data]. destruct (Z.ltb_spec (Z.of_nat i) 0); [lia|]. rewrite Nat2Z.id.
    destruct (lookup_lt_is_Some_2 l i) as [u Hu]; [lia|]. rewrite Hu. cbn [of_ptr rbind].
    destruct (Hf u s) as (s1 & -> & Hs1); [by eapply Forall_lookup_1|lia|unfold room in *; lia|]. cbn [rbind].
    destruct (IH s1) as (s2 & Hs2 & Hsp); [|done|done|lia| |].
    + intros u' s' Hu' Hle. apply Hf; [done|]. unfold spends in Hs1. lia.
    + eapply (room_spends 1); [|exact Hs1|lia]. by replace (1 + Z.of_nat i) with (Z.of_nat (S i)) by lia.
    + exists s2. split; [done|]. replace (Z.of_nat (S i)) with (1 + Z.of_nat i) by lia. by eapply spends_trans.
Qed.
Lemma spends_call s s' :
  hash_univ_limit s' = hash_univ_limit s - 1 -> -1 <= hash_univ_count s' <= Z.max (-1) (hash_univ_count s) -> spends 1 s s'.
Proof.
  intros El Ec. unfold spends. rewrite El.
  assert (0 <= M * (pos (hash_univ_limit s) - pos (hash_univ_limit s - 1))) by (apply Z.mul_nonneg_nonneg; unfold pos; lia). lia.
Qed.
Lemma room_bounds s : room 1 s -> - 2 ^ 31 <= hash_univ_limit s - 1 /\ hash_univ_limit s < 2 ^ 31 /\ -1 <= hash_univ_count s < 2 ^ 31.
Proof.
  unfold room. intros H. assert (0 <= M * pos (hash_univ_limit s)) by (apply Z.mul_nonneg_nonneg; unfold pos; lia). lia.
Qed.

(** What a block of bytes costs, and a block of fields, after the call has been counted. *)
Lemma hash_block_bytes f v t l s :
  get_block h v = Ok (mkBlock t (Bytes l)) -> hashable_block (mkBlock t (Bytes l)) -> 0 <= hash_univ_count s < 2 ^ 31 ->
  exists s', hash_block h f v s = Ok s' /\ hash_univ_limit s' = hash_univ_limit s /\ -1 <= hash_univ_count s' <= hash_univ_count s.
Proof.
  intros Hb Hblk Hc. unfold hash_block, Tag_val. rewrite Hb. cbn [rbind tag].
  assert (hash_univ_count (count s) = hash_univ_count s - 1) as Ec by (simpl; apply s32_small; unfold_words; lia).
  unfold hashable_block in Hblk. cbn [data tag] in Hblk.
  assert (forall r, (exists s', r = Ok s' /\ hash_univ_limit s' = hash_univ_limit (count s) /\ hash_univ_count s' = hash_univ_count (count s)) ->
    exists s', r = Ok s' /\ hash_univ_limit s' = hash_univ_limit s /\ -1 <= hash_univ_count s' <= hash_univ_count s) as Hrun.
  { intros r (s' & -> & E1 & E2). exists s'. split; [done|]. simpl in E1. lia. }
  destruct Hblk as [[-> (str & -> & Hl)]|[[-> Hl]|[[-> [n Hl]]|Hblk]]].
  - change (String_tag =? String_tag) with true. cbv iota. destruct v as [w|b|t|p|d]; try done. simpl in Hb.
    assert (h !! b = Some (mkBlock String_tag (Bytes (string_bytes str)))) as Hb' by (destruct (h !! b); simpl in Hb; congruence).
    rewrite (string_length_ok h b str) by done. cbn [rbind]. rewrite Nat2Z.id. apply Hrun.
    apply (hash_bytes_runs _ String_tag (string_bytes str)); [simpl; by rewrite Hb'|lia|].
    unfold string_bytes. rewrite length_app. lia.
  - apply Hrun. apply (hash_bytes_runs _ Double_tag l); [done|lia|]. rewrite Hl. done.
  - unfold Bosize_val, Wosize_val. rewrite Hb. cbn [rbind data size_of]. apply Hrun.
    replace (4 * (Z.of_nat (length l) / 4)) with (Z.of_nat (length l)) by (rewrite Hl; zlia). rewrite Nat2Z.id.
    apply (hash_doubles_runs _ Double_array_tag l (length l) n 0); [done|lia..].
  - exists s. split; [by destruct Hblk as [-> | ->]|lia].
Qed.
Lemma hash_block_fields f v t l s :
  get_block h v = Ok (mkBlock t (Fields l)) -> hashable_block (mkBlock t (Fields l)) -> 0 <= hash_univ_count s < 2 ^ 31 ->
  room (Z.of_nat (length l)) s ->
  (forall u s1, hashable u -> hash_univ_limit s1 <= hash_univ_limit s -> room 1 s1 -> exists s2, f u s1 = Ok s2 /\ spends 1 s1 s2) ->
  exists s', hash_block h f v s = Ok s' /\ exists n, 0 <= n <= M /\ spends n s s'.
Proof.
  intros Hb (Hl & Hhl & Ht) Hc Hr Hf. unfold hash_block, Tag_val, Wosize_val, Oid_val, Field. rewrite Hb. cbn [rbind tag data size_of].
  assert (hash_univ_count (count s) = hash_univ_count s - 1) as Ec by (simpl; apply s32_small; unfold_words; lia).
  cbn [data tag] in *. rewrite Nat2Z.id.
  assert ((t =? String_tag) = false /\ (t =? Double_tag) = false /\ (t =? Double_array_tag) = false /\ (t =? Abstract_tag) = false /\
    (t =? Final_tag) = false /\ (t =? Infix_tag) = false) as (-> & -> & -> & -> & -> & ->).
  { unfold Object_tag, Closure_tag in Ht. split_and!; apply Z.eqb_neq; 
      unfold String_tag, Double_tag, Double_array_tag, Abstract_tag, Final_tag, Infix_tag; lia. }
  cbn [orb]. destruct (Z.eqb_spec t Object_tag) as [Ho|Ho].
  - destruct Ht as [Ht|[Ht|[_ [n Hn]]]]; [lia|by subst t|].
    change (1 <? 0) with false. cbv iota. change (Z.to_nat 1) with 1%nat. rewrite Hn. cbn [of_ptr rbind Long_val].
    eexists. split; [done|]. exists 0. split; [lia|]. unfold spends. simpl in Ec |- *. lia.
  - destruct (hash_fields_runs f v t l (length l) (Combine_small t (count s))) as (s' & Hs & Hsp); [|done|done|lia| |].
    + intros u s1 Hu Hle. by apply Hf.
    + unfold room in *. simpl hash_univ_limit. simpl hash_univ_count in Ec |- *. lia.
    + exists s'. split; [done|]. exists (Z.of_nat (length l)). split; [lia|].
      unfold spends in *. simpl hash_univ_limit in Hsp. simpl hash_univ_count in Hsp, Ec. lia.
Qed.

Lemma hash_aux_runs fuel : forall v s,
  hashable v -> room 1 s -> hash_univ_limit s < Z.of_nat fuel -> (0 < fuel)%nat ->
  exists s', hash_aux address h fuel v s = Ok s' /\ spends 1 s s'.
Proof.
  induction fuel as [|fuel IH]; intros v s Hv Hr Hfuel Hpos; [lia|]. cbn [hash_aux]. pose proof (room_bounds s Hr) as Hrb.
  assert (hash_univ_limit (visit s) = hash_univ_limit s - 1) as El
    by (simpl; apply s32_small; unfold_words; lia).
  assert (hash_univ_count (visit s) = hash_univ_count s) as Ec by done.
  destruct ((hash_univ_count (visit s) <? 0) || (hash_univ_limit (visit s) <? 0)) eqn:Es.
  { exists (visit s). split; [done|]. apply spends_call; lia. }
  apply orb_false_iff in Es as [Hc Hl]. apply Z.ltb_ge in Hc, Hl.
  assert (forall s', hash_univ_limit s' = hash_univ_limit (visit s) ->
    hash_univ_count s' = hash_univ_count (visit s) \/ hash_univ_count s' = hash_univ_count (visit s) - 1 -> spends 1 s s') as Hsame.
  { intros s' E1 E2. apply spends_call; lia. }
  destruct (Is_long v) eqn:Ev.
  { destruct v; try done. cbn [Long_val rbind]. eexists. split; [done|]. apply Hsame; [done|right].
    simpl. rewrite s32_small; [done|]. simpl in Hc. unfold_words. lia. }
  destruct (outside v) eqn:Eo; cbn [negb].
  { eexists. split; [done|]. apply Hsame; [done|by left]. }
  assert (exists blk, get_block h v = Ok blk /\ hashable_block blk) as (blk & Hb & Hblk).
  { destruct v as [w|b|t|p|d]; try done.
    - destruct (closed b Hv) as (blk & Hb & Hblk). exists blk. simpl. by rewrite Hb.
    - exists (mkBlock t (Fields [])). split; [done|]. split; [done|]. split; [constructor|by left]. }
  destruct blk as [t [l|l]].
  - destruct (hash_block_fields (hash_aux address h fuel) v t l (visit s)) as (s' & Hs & n & Hn & Hsp); [done|done|lia|..].
    + destruct Hblk as [Hlen _]. unfold room in *. rewrite El, Ec. unfold pos in *. cbn [data] in Hlen.
      rewrite Z.max_r in Hr |- * by lia. lia.
    + intros u s1 Hu Hle Hr1. apply IH; [done..|lia|]. unfold room in Hr. lia.
    + exists s'. split; [done|]. unfold spends in *. rewrite El, Ec in Hsp. unfold pos in *.
      rewrite (Z.max_r 0 (hash_univ_limit s - 1)) in Hsp by lia. rewrite (Z.max_r 0 (hash_univ_limit s)) by lia. lia.
  - destruct (hash_block_bytes (hash_aux address h fuel) v t l (visit s)) as (s' & Hs & El' & Ec'); [done|done|lia|].
    exists s'. split; [done|]. apply spends_call; lia.
Qed.

(** hashing ends.  On every value of a heap without ill-formed blocks, cyclic values included, and
    with a limit whose product with the size of the largest block is less than 2^31, [hash_univ_param]
    calls [hash_aux] in a depth of at most the limit plus one, and returns a number of 30 bits. *)
Theorem hash_ends fuel c l v :
  hashable v -> is_long c -> -1 <= c -> is_long l -> (l + 1) * (M + 1) <= 2 ^ 31 -> l < Z.of_nat fuel -> (0 < fuel)%nat ->
  exists n, hash_univ_param address h fuel (Val_long c) (Val_long l) v = Ok (Val_long n) /\ 0 <= n < 2 ^ 30.
Proof.
  intros Hv Hc Hc' Hl Hr Hfuel Hpos. unfold hash_univ_param. rewrite !Long_Val_long, !wrap31_small by done. cbn [rbind].
  destruct (hash_aux_runs fuel v (mkHash l c 0)) as (s' & -> & _); [done| |done|done|].
  { unfold is_long, Min_long, Max_long in *. unfold room, pos. simpl. destruct (Z.max_spec 0 l) as [[? ->]|[? ->]]; lia. }
  cbn [rbind]. eexists. split; [done|]. change 0x3FFFFFFF with (Z.ones 30). rewrite Z.land_ones by lia.
  apply Z.mod_pos_bound. lia.
Qed.
End ends.
(** A block that contains itself. *)
Definition cycle : heap_t := {[0%nat := mkBlock 0 (Fields [Val_long 1; Ptr 0])]}.
Lemma hash_ends_witness :
  hash_univ_param (fun _ => 0) cycle 101 (Val_long 3) (Val_long 100) (Ptr 0) = Ok (Val_long (65599 * 0 + 0)) /\
  exists n, hash_univ_param (fun _ => 0) cycle 101 (Val_long 10) (Val_long 100) (Ptr 0) = Ok (Val_long n) /\ 0 <= n < 2 ^ 30.
Proof.
  split; [vm_compute; reflexivity|].
  apply (hash_ends (fun _ => 0) cycle 2 (fun b => b = 0%nat)).
  - intros b ->. eexists. split; [reflexivity|]. split; [done|]. split; [repeat constructor|]. left. split; [done|reflexivity].
  - lia.
  - reflexivity.
  - split; vm_compute; congruence.
  - lia.
  - split; vm_compute; congruence.
  - lia.
  - lia.
  - lia.
Defined.
