(* ===== verification/Copy.v ===== *)
(** * Copies are equal

    A value that is written by [output_value] and read back by [input_value] denotes
    the tree of the first, so that structural comparison and hashing do not tell
    them apart: the composition of extern.c, intern.c, compare.c and hash.c. *)
From stdpp Require Import gmap list strings.
From S2P Require Import Prelude Mlvalues Intext Format Extern ExternTable Encode Intern Decode Marshal Compare Structural Hash.

(** ** A copy denotes the same tree *)

Lemma denotes_mono h h' x : h ⊆ h' -> forall v, denotes h x v -> denotes h' x v.
Proof.
  intros Hh. assert (forall b blk, h !! b = Some blk -> h' !! b = Some blk) as Hw by (intros; by eapply lookup_weaken).
  induction x as [n|s|d|ds|t l IH] using tree_ind'; intros v Hv; inversion Hv; subst.
  - by constructor.
  - econstructor; eauto.
  - econstructor; eauto.
  - econstructor; eauto.
  - by constructor.
  - eapply denotes_node; eauto. match goal with H : Forall2 _ l vs |- _ => clear -IH H; revert vs H end. induction IH as [|x l Hx _ IH]; intros vs H.
    + by apply Forall2_nil_inv_l in H as ->.
    + apply Forall2_cons_inv_l in H as (v & vs' & Hv & Hvs & ->). constructor; auto.
Qed.
Lemma copy_keeps h v v' h' vis nw : copy_of h v h h' v' vis nw -> h ⊆ h'.
Proof.
  intros [_ _ _ Hf Hr _]. apply map_subseteq_spec. intros b blk Hb. destruct (decide (b ∈ nw)) as [Hin|Hout].
  - specialize (Hf b Hin). congruence.
  - by rewrite Hr.
Qed.
Section copy.
Context (h h0 h' : heap_t) (v0 v0' : value) (vis nw : list nat) (C : copy_of h v0 h0 h' v0' vis nw).
(** The copy of a block. *)
Lemma copy_block b u' blk :
  vrel vis nw (Ptr b) u' -> h !! b = Some blk -> exists c blk', u' = Ptr c /\ h' !! c = Some blk' /\ brel vis nw blk blk'.
Proof.
  intros (i & c & Hi & Hc & ->) Hb. destruct (cp_blocks _ _ _ _ _ _ _ C i b c Hi Hc) as (blk0 & blk' & Hb0 & Hc' & Hr).
  exists c, blk'. split; [done|]. split; [done|]. congruence.
Qed.
Lemma copy_bytes b u' t l :
  vrel vis nw (Ptr b) u' -> h !! b = Some (mkBlock t (Bytes l)) -> exists c, u' = Ptr c /\ h' !! c = Some (mkBlock t (Bytes l)).
Proof.
  intros Hr Hb. destruct (copy_block b u' _ Hr Hb) as (c & [t' [l'|l']] & -> & Hc & Ht & Hl); simpl in *; [done|]. subst. by exists c.
Qed.
Lemma copy_denotes x : forall u u', denotes h x u -> vrel vis nw u u' -> denotes h' x u'.
Proof.
  induction x as [n|s|d|ds|t l IH] using tree_ind'; intros u u' Hu Hr; inversion Hu; subst.
  - simpl in Hr. subst u'. by constructor.
  - destruct (copy_bytes _ _ _ _ Hr H0) as (c & -> & Hc). by constructor.
  - destruct (copy_bytes _ _ _ _ Hr H0) as (c & -> & Hc). by constructor.
  - destruct (copy_bytes _ _ _ _ Hr H0) as (c & -> & Hc). by constructor.
  - simpl in Hr. subst u'. by constructor.
  - destruct (copy_block _ _ _ Hr H1) as (c & [t' [vs'|l']] & -> & Hc & Ht & Hl); simpl in *; [|done]. subst t'.
    eapply denotes_node; [done..|]. clear -IH H5 Hl. revert vs vs' H5 Hl. induction IH as [|x l Hx _ IH]; intros vs vs' Hd Hl.
    + apply Forall2_nil_inv_l in Hd as ->. by apply Forall2_nil_inv_l in Hl as ->.
    + apply Forall2_cons_inv_l in Hd as (w & ws & Hw & Hws & ->). apply Forall2_cons_inv_l in Hl as (w' & ws' & Hw' & Hws' & ->).
      constructor; [by eapply Hx|by eapply IH].
Qed.
End copy.

(** ** Writing, reading, comparing *)

(** A value read back is equal to the value that was written.  Under the hypotheses of the
    round trip, for a value that denotes a tree (shared, but without cycles and closures) and is read
    back into the heap that holds it, [output_val] and [input_val] succeed, the heap keeps its blocks,
    [equal] is true of the value and its copy even when floats inside are NaN, [compare] is 0, and [hash_univ_param]
    is the same for both. *)
Theorem marshal_equal (addr : nat -> Z) (address : value -> Z) (code_size : Z) (cks : list Z) (h : heap_t) (fuel n : nat)
    (v flags : value) (fl : Z) (all : list nat) (s : estate) (rest : list Z) (x : tree) (c l : Z) :
  convert_flag_list fuel h flags extern_flags 0 = Ok fl -> Z.land fl NO_SHARING = 0 ->
  closed h code_size (negb (Z.land fl CLOSURES =? 0)) all -> words h all <= Max_wosize + 1 ->
  good_value code_size (negb (Z.land fl CLOSURES =? 0)) all v ->
  (length all < fuel)%nat -> code_size <= 2 ^ 31 -> length cks = 16%nat -> table_ok s ->
  denotes h x v -> (depth x <= n)%nat -> is_long c -> is_long l ->
  exists bs s' v' h',
    output_val addr code_size cks fuel h v flags s = Ok (inl bs, s') /\
    input_val cks (bs ++ rest) h = Ok (inl v', rest, h') /\ h ⊆ h' /\
    answers (equal address h' n v v') true /\ compare address h' n v v' = Ok (inl (Val_int 0)) /\
    exists k, hash_univ_param address h' n (Val_long c) (Val_long l) v = Ok (Val_long k) /\
      hash_univ_param address h' n (Val_long c) (Val_long l) v' = Ok (Val_long k).
Proof.
  intros Hfl Hsh Hcl Hw Hv Hfuel Hcode Hcks Hs Hx Hn Hc Hl.
  destruct (output_input_ok addr code_size cks h fuel v flags fl all s h rest) as
    (bs & s' & Hout & _ & v' & h' & vis & nw & Hin & _ & C); [done..|].
  pose proof (copy_keeps _ _ _ _ _ _ C) as Hkeep. exists bs, s', v', h'. do 2 (split; [done|]). split; [done|].
  assert (denotes h' x v) as Hxv by (by eapply denotes_mono).
  assert (denotes h' x v') as Hxv' by (eapply copy_denotes; [exact C|done|apply (cp_value _ _ _ _ _ _ _ C)]).
  unfold answers, equal, compare, lift, hash_univ_param. rewrite (compare_val_ok address h' n x x v v') by done.
  rewrite tcmp_refl. do 2 (split; [done|]).
  rewrite !Long_Val_long, !wrap31_small by done. cbn [rbind]. rewrite !(hash_aux_ok address h' n x) by done. by eexists.
Qed.

(** A pair of a NaN and a string. *)
Definition sample : heap_t :=
  {[0%nat := mkBlock 0 (Fields [Ptr 1; Ptr 2]); 1%nat := mkBlock Double_tag (Bytes nan_bytes);
    2%nat := mkBlock String_tag (Bytes (string_bytes [104; 105]))]}.
Lemma marshal_equal_witness : exists bs s' v' h',
  output_val place_of 0 (replicate 16 0) 4 sample (Ptr 0) Val_unit first_call = Ok (inl bs, s') /\
  input_val (replicate 16 0) (bs ++ [7]) sample = Ok (inl v', [7], h') /\ sample ⊆ h' /\
  answers (equal (fun _ => 0) h' 2 (Ptr 0) v') true /\ compare (fun _ => 0) h' 2 (Ptr 0) v' = Ok (inl (Val_int 0)) /\
  exists k, hash_univ_param (fun _ => 0) h' 2 (Val_long 10) (Val_long 100) (Ptr 0) = Ok (Val_long k) /\
    hash_univ_param (fun _ => 0) h' 2 (Val_long 10) (Val_long 100) v' = Ok (Val_long k).
Proof.
  apply (marshal_equal place_of (fun _ => 0) 0 (replicate 16 0) sample 4 2 (Ptr 0) Val_unit 0 [0%nat; 1%nat; 2%nat] first_call [7]
    (TNode 0 [TDouble nan_bytes; TString [104; 105]])).
  - reflexivity.
  - reflexivity.
  - intros b [-> |[-> |[-> |[]%not_elem_of_nil]%elem_of_cons]%elem_of_cons]%elem_of_cons; eexists; (split; [reflexivity|]).
    + split; [done|]. split; [left; cbn [tag]; unfold Object_tag; lia|]. split; [vm_compute; discriminate|].
      repeat constructor.
    + right. split; [done|]. reflexivity.
    + left. split; [done|]. exists [104; 105]. split; [done|]. split; [repeat constructor; discriminate|done].
  - vm_compute. discriminate.
  - simpl. constructor.
  - simpl. lia.
  - lia.
  - reflexivity.
  - exact I.
  - apply (denotes_node _ 0 0 _ [Ptr 1; Ptr 2]); [reflexivity|done|done|]. constructor; [|constructor; [|constructor]].
    + apply denotes_double; [reflexivity|]. split; [reflexivity|]. repeat constructor; discriminate.
    + apply denotes_string; [reflexivity|repeat constructor; discriminate|reflexivity].
  - vm_compute. lia.
  - split; discriminate.
  - split; discriminate.
Defined.
