(* ===== verification/Lexing.v ===== *)
(** * The lexing engine: kernel/Byterun/lexing.c

    [lex_engine] runs the tables of ocamllex over the buffer of a lexer.  A [lexer_buffer] is the
    record that the program passes; its fields are OCaml values.  The theorem: whether a token is
    read in one call or in several, with the buffer refilled in between, the action
    returned is that of the longest match. *)
From stdpp Require Import gmap list strings.
From S2P Require Import Prelude Mlvalues Intext.

Record lexer_buffer := mkLexbuf {
  refill_buff : value; lex_buffer : value; lex_buffer_len : value; lex_abs_pos : value; lex_start_pos : value;
  lex_curr_pos : value; lex_last_pos : value; lex_last_action : value; lex_eof_reached : value }.
Definition set_start x lb := mkLexbuf (refill_buff lb) (lex_buffer lb) (lex_buffer_len lb) (lex_abs_pos lb) x
  (lex_curr_pos lb) (lex_last_pos lb) (lex_last_action lb) (lex_eof_reached lb).
Definition set_curr x lb := mkLexbuf (refill_buff lb) (lex_buffer lb) (lex_buffer_len lb) (lex_abs_pos lb) (lex_start_pos lb)
  x (lex_last_pos lb) (lex_last_action lb) (lex_eof_reached lb).
Definition set_last x y lb := mkLexbuf (refill_buff lb) (lex_buffer lb) (lex_buffer_len lb) (lex_abs_pos lb) (lex_start_pos lb)
  (lex_curr_pos lb) x y (lex_eof_reached lb).
Definition set_eof x lb := mkLexbuf (refill_buff lb) (lex_buffer lb) (lex_buffer_len lb) (lex_abs_pos lb) (lex_start_pos lb)
  (lex_curr_pos lb) (lex_last_pos lb) (lex_last_action lb) x.
Record lexing_table := mkTables {
  lex_base : value; lex_backtrk : value; lex_default : value; lex_trans : value; lex_check : value }.

Section engine.
Variables (h : heap_t) (tbl : lexing_table).

(** The [n]th short of a string, the least significant byte first. *)
Definition Short (t : value) (n : Z) : result Z :=
  let* lo := Byte_u h t (2 * n) in
  let* hi := Byte_u h t (2 * n + 1) in
  Ok (s16 (lo + 2 ^ 8 * hi)).
(** [v >= w] and [v += 2] on the words of two OCaml integers. *)
Definition word_ge (v w : value) : result bool :=
  match v, w with Int a, Int b => Ok (s32 a >=? s32 b) | _, _ => Fault end.
Definition word_next (v : value) : result value := match v with Int a => Ok (Int (u32 (a + 2))) | _ => Fault end.

(** The character that the loop reads: none when the buffer must be filled first. *)
Definition next_char (lb : lexer_buffer) : result (option (Z * lexer_buffer)) :=
  let* full := word_ge (lex_curr_pos lb) (lex_buffer_len lb) in
  if full then
    if bool_decide (lex_eof_reached lb = Val_bool false) then Ok None else Ok (Some (256, lb))
  else
    let* pos := Long_val (lex_curr_pos lb) in
    let* c := Byte_u h (lex_buffer lb) pos in
    let* next := word_next (lex_curr_pos lb) in
    Ok (Some (c, set_curr next lb)).
Definition next_state (state base c : Z) : result Z :=
  let* check := Short (lex_check tbl) (base + c) in
  if check =? state then Short (lex_trans tbl) (base + c) else Short (lex_default tbl) state.
Fixpoint lex_loop (fuel : nat) (state : Z) (lb : lexer_buffer) : result ((value + ml_exn) * lexer_buffer) :=
  match fuel with
  | O => Loop
  | S fuel =>
      let* base := Short (lex_base tbl) state in
      if base <? 0 then Ok (inl (Val_int (- base - 1)), lb)
      else
        let* backtrk := Short (lex_backtrk tbl) state in
        let lb := if backtrk >=? 0 then set_last (lex_curr_pos lb) (Val_int backtrk) lb else lb in
        let* r := next_char lb in
        match r with
        | None => Ok (inl (Val_int (- state - 1)), lb)
        | Some (c, lb) =>
            let* state := next_state state base c in
            if state <? 0 then
              let lb := set_curr (lex_last_pos lb) lb in
              if bool_decide (lex_last_action lb = Val_int (-1)) then Ok (inr (Failwith "lexing: empty token"), lb)
              else Ok (inl (lex_last_action lb), lb)
            else lex_loop fuel state (if c =? 256 then set_eof (Val_bool false) lb else lb)
        end
  end.
Definition lex_engine (fuel : nat) (start_state : value) (lb : lexer_buffer) : result ((value + ml_exn) * lexer_buffer) :=
  let* state := Long_val start_state in
  if state >=? 0 then
    lex_loop fuel state (set_last (lex_curr_pos lb) (Val_int (-1)) (set_start (lex_curr_pos lb) lb))
  else lex_loop fuel (- state - 1) lb.
End engine.

(** ** The automaton of the tables *)

Record automaton := mkAut { abase : list Z; abacktrk : list Z; adefault : list Z; atrans : list Z; acheck : list Z }.
(** A string that holds the shorts [l]. *)
Definition shorts (h : heap_t) (v : value) (l : list Z) : Prop :=
  exists b t bytes, v = Ptr b /\ h !! b = Some (mkBlock t (Bytes bytes)) /\
    forall n x, l !! n = Some x -> - 2 ^ 15 <= x < 2 ^ 15 /\
      bytes !! (2 * n)%nat = Some (u8 x) /\ bytes !! (2 * n + 1)%nat = Some (u8 (Z.shiftr x 8)).
Record tables (h : heap_t) (tbl : lexing_table) (A : automaton) : Prop := {
  t_base : shorts h (lex_base tbl) (abase A);
  t_backtrk : shorts h (lex_backtrk tbl) (abacktrk A);
  t_default : shorts h (lex_default tbl) (adefault A);
  t_trans : shorts h (lex_trans tbl) (atrans A);
  t_check : shorts h (lex_check tbl) (acheck A) }.
Definition get (l : list Z) (n : Z) : Z := l !!! Z.to_nat n.
Definition states (A : automaton) : Z := Z.of_nat (length (abase A)).
(** Every state has its entries and room for 257 characters, and leads to states or nowhere. *)
Record well_formed (A : automaton) : Prop := {
  w_backtrk : length (abacktrk A) = length (abase A);
  w_default : length (adefault A) = length (abase A);
  w_check : length (acheck A) = length (atrans A);
  w_room q : 0 <= q < states A -> get (abase A) q + 256 < Z.of_nat (length (atrans A));
  w_to_trans : Forall (fun q => q < states A) (atrans A);
  w_to_default : Forall (fun q => q < states A) (adefault A) }.

Section automaton.
Variable A : automaton.
Definition delta (q c : Z) : Z :=
  let i := get (abase A) q + c in
  if get (acheck A) i =? q then get (atrans A) i else get (adefault A) q.
(** The state after the characters [w]: none when there is no transition, or after a final state. *)
Fixpoint reach (q : Z) (w : list Z) : option Z :=
  match w with
  | [] => Some q
  | c :: w => if get (abase A) q <? 0 then None else let q := delta q c in if q <? 0 then None else reach q w
  end.
Definition action (q : Z) : option Z :=
  let base := get (abase A) q in
  if base <? 0 then Some (- base - 1)
  else let b := get (abacktrk A) q in if b >=? 0 then Some b else None.
Definition accepted (q0 : Z) (w : list Z) (a : Z) : Prop := exists q, reach q0 w = Some q /\ action q = Some a.
(** The longest prefix of [w] that is a token has [n] characters and the action [a]. *)
Definition longest (q0 : Z) (w : list Z) (n : nat) (a : Z) : Prop :=
  (n <= length w)%nat /\ accepted q0 (take n w) a /\
  forall n' a', (n < n' <= length w)%nat -> ~ accepted q0 (take n' w) a'.
End automaton.

Lemma get_lookup l n : 0 <= n < Z.of_nat (length l) -> l !! Z.to_nat n = Some (get l n).
Proof. intros Hn. apply list_lookup_lookup_total_lt. lia. Qed.
Lemma Short_ok h v l n : shorts h v l -> 0 <= n < Z.of_nat (length l) -> Short h v n = Ok (get l n).
Proof.
  intros (b & t & bytes & -> & Hb & Hs) Hn. destruct (Hs (Z.to_nat n) (get l n)) as (Hr & H0 & H1); [by apply get_lookup|].
  unfold Short, Byte_u. simpl. rewrite Hb. cbn [of_ptr rbind data].
  destruct (Z.ltb_spec (2 * n) 0); [lia|]. destruct (Z.ltb_spec (2 * n + 1) 0); [lia|].
  replace (Z.to_nat (2 * n)) with (2 * Z.to_nat n)%nat by lia. rewrite H0.
  replace (Z.to_nat (2 * n + 1)) with (2 * Z.to_nat n + 1)%nat by lia. rewrite H1. cbn [of_ptr rbind].
  f_equal. unfold s16, u8. rewrite shiftr_div by lia. zlia.
Qed.
Lemma get_bound l n b : Forall (fun q => q < b) l -> 0 <= n < Z.of_nat (length l) -> get l n < b.
Proof. intros Hf Hn. rewrite Forall_lookup in Hf. eapply Hf. by apply get_lookup. Qed.

Section automaton_lemmas.
Variables (A : automaton) (W : well_formed A).
Abbreviation base q := (get (abase A) q).
Abbreviation reach := (reach A).

Lemma delta_bound q c : 0 <= q < states A -> 0 <= base q -> 0 <= c <= 256 -> delta A q c < states A.
Proof.
  intros Hq Hb Hc. pose proof (w_room A W q Hq). unfold delta. destruct (_ =? q).
  - apply get_bound; [apply W|lia].
  - apply get_bound; [apply W|]. rewrite (w_default A W). exact Hq.
Qed.
Lemma reach_app q w1 w2 : reach q (w1 ++ w2) = match reach q w1 with Some q' => reach q' w2 | None => None end.
Proof. revert q. induction w1 as [|c w1 IH]; intros q; simpl; [done|]. destruct (_ <? 0); [done|]. destruct (_ <? 0); [done|]. apply IH. Qed.
Lemma reach_snoc q w q' c :
  reach q w = Some q' -> 0 <= base q' -> 0 <= delta A q' c -> reach q (w ++ [c]) = Some (delta A q' c).
Proof.
  intros Hw Hb Hd. rewrite reach_app, Hw. simpl.
  destruct (Z.ltb_spec (base q') 0); [lia|]. destruct (Z.ltb_spec (delta A q' c) 0); [lia|done].
Qed.
(** No prefix longer than [w] is read. *)
Definition stops (q0 : Z) (w more : list Z) : Prop := forall n, (length w < n)%nat -> (n <= length (w ++ more))%nat -> reach q0 (take n (w ++ more)) = None.
Lemma stops_final q0 w more q : reach q0 w = Some q -> base q < 0 -> stops q0 w more.
Proof.
  intros Hw Hb n Hn Hl. rewrite take_app_ge, reach_app, Hw by lia. rewrite length_app in Hl.
  destruct (take (n - length w) more) as [|c l] eqn:E; [apply (f_equal length) in E; rewrite length_take in E; simpl in E; lia|].
  simpl. by destruct (Z.ltb_spec (base q) 0); [|lia].
Qed.
Lemma stops_stuck q0 w more q c : reach q0 w = Some q -> delta A q c < 0 -> stops q0 w (c :: more).
Proof.
  intros Hw Hb n Hn Hl. rewrite take_app_ge, reach_app, Hw by lia.
  destruct (n - length w)%nat as [|k] eqn:E; [lia|]. simpl. destruct (_ <? 0); [done|].
  by destruct (Z.ltb_spec (delta A q c) 0); [|lia].
Qed.

(** The longest prefix shorter than [k] that is accepted, and its action. *)
Fixpoint best (q0 : Z) (w : list Z) (k : nat) : option (nat * Z) :=
  match k with
  | O => None
  | S k =>
      match reach q0 (take k w) with
      | Some q => match action A q with Some a => Some (k, a) | None => best q0 w k end
      | None => best q0 w k
      end
  end.
Lemma best_some q0 w k n a : best q0 w k = Some (n, a) ->
  (n < k)%nat /\ accepted A q0 (take n w) a /\ forall n' a', (n < n' < k)%nat -> ~ accepted A q0 (take n' w) a'.
Proof.
  induction k as [|k IH]; simpl; [done|]. intros H.
  assert (best q0 w k = Some (n, a) -> (forall a', ~ accepted A q0 (take k w) a') -> (n < S k)%nat /\ accepted A q0 (take n w) a /\
    forall n' a', (n < n' < S k)%nat -> ~ accepted A q0 (take n' w) a') as Hrec.
  { intros E Hno. destruct (IH E) as (Hn & Ha & Hmax). split; [lia|]. split; [done|]. intros n' a' Hn'.
    destruct (decide (n' = k)) as [->|]; [done|]. apply Hmax. lia. }
  destruct (reach q0 (take k w)) as [q|] eqn:Er.
  - destruct (action A q) as [b|] eqn:Ea.
    + injection H as <- <-. split; [lia|]. split; [by exists q|]. intros. lia.
    + apply Hrec; [done|]. intros a' (q' & Hq' & Ha'). congruence.
  - apply Hrec; [done|]. intros a' (q' & Hq' & Ha'). congruence.
Qed.
Lemma best_none q0 w k : best q0 w k = None -> forall n a, (n < k)%nat -> ~ accepted A q0 (take n w) a.
Proof.
  induction k as [|k IH]; simpl; intros H n a Hn; [lia|]. intros (q & Hq & Ha). destruct (decide (n = k)) as [->|Hk].
  - rewrite Hq, Ha in H. done.
  - assert (best q0 w k = None) as E by (destruct (reach q0 (take k w)) as [q'|]; [destruct (action A q')|]; done).
    apply (IH E n a); [lia|]. by exists q.
Qed.
Lemma best_app q0 w c k : (k <= S (length w))%nat -> best q0 (w ++ c) k = best q0 w k.
Proof. induction k as [|k IH]; intros Hk; simpl; [done|]. rewrite take_app_le, IH by lia. done. Qed.
Lemma best_S q0 w q : reach q0 w = Some q ->
  best q0 w (S (length w)) = match action A q with Some a => Some (length w, a) | None => best q0 w (length w) end.
Proof. intros Hw. simpl. by rewrite take_ge, Hw. Qed.
End automaton_lemmas.

(** ** What the engine returns *)

(** The characters of the text: not the pseudo-character 256 of the end of the file. *)
Definition width (w : list Z) : Z := Z.of_nat (length (filter (fun c => c <> 256) w)).
Definition eof_char (eof : bool) : list Z := if eof then [256] else [].

(** The buffer holds the token from [start], read up to [cur], then [text]. *)
Record located (h : heap_t) (lb : lexer_buffer) (start cur : Z) (text : list Z) (eof : bool) : Prop := {
  l_start : lex_start_pos lb = Val_long start;
  l_curr : lex_curr_pos lb = Val_long cur;
  l_len : lex_buffer_len lb = Val_long (cur + Z.of_nat (length text));
  l_range : 0 <= start <= cur /\ cur + Z.of_nat (length text) <= Max_long;
  l_text : exists b t bytes, lex_buffer lb = Ptr b /\ h !! b = Some (mkBlock t (Bytes bytes)) /\
    forall i c, text !! i = Some c -> bytes !! (Z.to_nat cur + i)%nat = Some c;
  l_bytes : Forall is_byte text;
  l_eof : lex_eof_reached lb = Val_bool eof }.
(** The token that the buffer remembers. *)
Definition remembers (lb : lexer_buffer) (start : Z) (w : list Z) (o : option (nat * Z)) : Prop :=
  match o with
  | None => lex_last_action lb = Val_long (-1)
  | Some (n, a) => lex_last_action lb = Val_long a /\ lex_last_pos lb = Val_long (start + width (take n w)) /\ 0 <= a <= 2 ^ 15
  end.
(** In the state [q], after the characters [w] from the initial state [q0]. *)
Record lexing (A : automaton) (h : heap_t) (q0 : Z) (w : list Z) (q : Z) (lb : lexer_buffer) (start : Z) (text : list Z) (eof : bool) : Prop := {
  x_reach : reach A q0 w = Some q;
  x_state : 0 <= q < states A;
  x_located : located h lb start (start + width w) text eof;
  x_remembers : exists k, (length w <= k <= S (length w))%nat /\ remembers lb start w (best A q0 w k) }.
(** Of the characters [w]: a token; no token whatever follows; or more is needed. *)
Inductive outcome (A : automaton) (h : heap_t) (q0 : Z) (w : list Z) (start : Z) : value + ml_exn -> lexer_buffer -> Prop :=
  | token n a lb : (forall more, longest A q0 (w ++ more) n a) -> (n <= length w)%nat -> lex_start_pos lb = Val_long start ->
      lex_curr_pos lb = Val_long (start + width (take n w)) -> 0 <= a <= 2 ^ 15 -> outcome A h q0 w start (inl (Val_long a)) lb
  | empty_token lb : (forall more n a, ~ accepted A q0 (take n (w ++ more)) a) ->
      outcome A h q0 w start (inr (Failwith "lexing: empty token")) lb
  | refill q lb : lexing A h q0 w q lb start [] false -> 0 <= get (abase A) q -> outcome A h q0 w start (inl (Val_long (- q - 1))) lb.

Lemma width_app w1 w2 : width (w1 ++ w2) = width w1 + width w2.
Proof. unfold width. rewrite filter_app, length_app. lia. Qed.
Lemma width_nonneg w : 0 <= width w.
Proof. unfold width. lia. Qed.
Lemma width_le w : width w <= Z.of_nat (length w).
Proof. unfold width. pose proof (length_filter (fun c => c <> 256) w). lia. Qed.
Lemma width_byte c : is_byte c -> width [c] = 1.
Proof. intros Hc. unfold width. rewrite filter_cons_True by (unfold is_byte in Hc; lia). done. Qed.
Lemma word_ge_ok x y : is_long x -> is_long y -> word_ge (Val_long x) (Val_long y) = Ok (x >=? y).
Proof.
  unfold is_long, Min_long, Max_long. intros Hx Hy. rewrite !Val_long_eq. simpl. f_equal. rewrite !s32_u32, !s32_small by (unfold_words; lia).
  destruct (Z.geb_spec (2 * x + 1) (2 * y + 1)), (Z.geb_spec x y); done || lia.
Qed.
Lemma word_next_ok x : word_next (Val_long x) = Ok (Val_long (x + 1)).
Proof. rewrite !Val_long_eq. simpl. do 2 f_equal. unfold u32. zlia. Qed.
Lemma Val_long_neq x y : is_long x -> is_long y -> x <> y -> Val_long x <> Val_long y.
Proof. intros Hx Hy Hne E%Val_long_inj. rewrite !wrap31_small in E by done. done. Qed.

(** Reading a character advances in the text. *)
Lemma next_char_ok h lb start cur text eof :
  located h lb start cur text eof ->
  match text ++ eof_char eof with
  | [] => next_char h lb = Ok None
  | c :: _ => 0 <= c <= 256 /\ exists lb', next_char h lb = Ok (Some (c, lb')) /\ lex_last_pos lb' = lex_last_pos lb /\
      lex_last_action lb' = lex_last_action lb /\ lex_start_pos lb' = lex_start_pos lb /\
      located h (if c =? 256 then set_eof (Val_bool false) lb' else lb') start (cur + width [c]) (tail text)
        (match text with [] => false | _ => eof end)
  end.
Proof.
  intros L. unfold next_char. pose proof (l_range _ _ _ _ _ _ L) as R. rewrite (l_curr _ _ _ _ _ _ L), (l_len _ _ _ _ _ _ L).
  rewrite word_ge_ok by (unfold is_long, Min_long, Max_long in *; lia). cbn [rbind].
  destruct text as [|c text]; cbn [app length].
  - destruct (Z.geb_spec cur (cur + Z.of_nat 0)); [|lia]. rewrite (l_eof _ _ _ _ _ _ L). destruct eof; [|done].
    rewrite bool_decide_false by done. split; [lia|]. exists lb. split; [done|]. do 3 (split; [done|]).
    change (256 =? 256) with true. cbv iota. change (width [256]) with 0. rewrite Z.add_0_r. destruct L. by split.
  - destruct (Z.geb_spec cur (cur + Z.of_nat (S (length text)))); [lia|].
    pose proof (l_bytes _ _ _ _ _ _ L) as B. apply Forall_cons in B as [Hc B].
    destruct (l_text _ _ _ _ _ _ L) as (b & t & bytes & Eb & Hb & Ht).
    rewrite Long_Val_long, wrap31_small by (unfold is_long, Min_long, Max_long in *; lia). cbn [rbind].
    unfold Byte_u. rewrite Eb. simpl get_block. rewrite Hb. cbn [of_ptr rbind data].
    destruct (Z.ltb_spec cur 0); [lia|]. specialize (Ht 0%nat c eq_refl) as Hc0. rewrite Nat.add_0_r in Hc0. rewrite Hc0. cbn [of_ptr rbind].
    rewrite word_next_ok. cbn [rbind]. unfold is_byte in Hc. split; [lia|]. eexists. split; [done|]. do 3 (split; [done|]).
    destruct (Z.eqb_spec c 256); [lia|]. rewrite width_byte by done. destruct L as [Ls Lc Ll _ _ _ Le].
    split; simpl; try done.
    + rewrite Ll. f_equal. simpl. lia.
    + simpl in R. lia.
    + exists b, t, bytes. split; [done|]. split; [done|]. intros i d Hd. specialize (Ht (S i) d Hd).
      by replace (Z.to_nat (cur + 1) + i)%nat with (Z.to_nat cur + S i)%nat by lia.
Qed.
Lemma next_state_ok h tbl A q c :
  tables h tbl A -> well_formed A -> 0 <= q < states A -> 0 <= get (abase A) q -> 0 <= c <= 256 ->
  next_state h tbl q (get (abase A) q) c = Ok (delta A q c).
Proof.
  intros T W Hq Hb Hc. pose proof (w_room A W q Hq). pose proof (w_check A W). unfold next_state, delta.
  rewrite (Short_ok h _ (acheck A)) by (apply T || lia). cbn [rbind]. destruct (_ =? q).
  - by rewrite (Short_ok h _ (atrans A)) by (apply T || lia).
  - rewrite (Short_ok h _ (adefault A)); [done|apply T|]. rewrite (w_default A W). exact Hq.
Qed.

Section engine_lemmas.
Context (h : heap_t) (tbl : lexing_table) (A : automaton) (T : tables h tbl A) (W : well_formed A).
Abbreviation base q := (get (abase A) q).

Lemma get_short v l n : shorts h v l -> 0 <= n < Z.of_nat (length l) -> - 2 ^ 15 <= get l n < 2 ^ 15.
Proof. intros (b & t & bytes & _ & _ & Hs) Hn. eapply Hs. by apply get_lookup. Qed.
Lemma best_length q0 w k n a : best A q0 w k = Some (n, a) -> (n < k)%nat.
Proof. intros H. by apply best_some in H as [? _]. Qed.
Lemma take_prefix {B} (w c : list B) n k : (n < k)%nat -> (k <= S (length w))%nat -> take n (w ++ c) = take n w.
Proof. intros. apply take_app_le. lia. Qed.

(** The check for a backtrack point. *)
Definition recorded (q : Z) (lb : lexer_buffer) : lexer_buffer :=
  if get (abacktrk A) q >=? 0 then set_last (lex_curr_pos lb) (Val_int (get (abacktrk A) q)) lb else lb.
Lemma recorded_ok q0 w q lb start text eof :
  lexing A h q0 w q lb start text eof -> 0 <= base q ->
  located h (recorded q lb) start (start + width w) text eof /\ remembers (recorded q lb) start w (best A q0 w (S (length w))).
Proof.
  intros [Hr Hs L (k & Hk & Hm)] Hb. rewrite (best_S A q0 w q Hr). unfold recorded, action.
  destruct (Z.ltb_spec (base q) 0); [lia|]. destruct (Z.geb_spec (get (abacktrk A) q) 0).
  - split; [destruct L; by split|]. simpl. split; [done|]. split; [rewrite take_ge by done; apply L|].
    pose proof (get_short _ _ q (t_backtrk _ _ _ T)) as Hg. rewrite (w_backtrk A W) in Hg. specialize (Hg Hs). lia.
  - split; [done|]. destruct (decide (k = length w)) as [->|]; [done|]. replace k with (S (length w)) in Hm by lia.
    rewrite (best_S A q0 w q Hr) in Hm. unfold action in Hm. destruct (Z.ltb_spec (base q) 0); [lia|].
    by destruct (Z.geb_spec (get (abacktrk A) q) 0); [lia|].
Qed.
(** No transition: back to the last backtrack point. *)
Lemma no_transition q0 w q lb start c rest :
  reach A q0 w = Some q -> delta A q c < 0 -> remembers lb start w (best A q0 w (S (length w))) -> lex_start_pos lb = Val_long start ->
  exists r lb', (let lb := set_curr (lex_last_pos lb) lb in
      if bool_decide (lex_last_action lb = Val_int (-1)) then Ok (inr (Failwith "lexing: empty token"), lb)
      else Ok (inl (lex_last_action lb), lb)) = Ok (r, lb') /\ outcome A h q0 (w ++ c :: rest) start r lb'.
Proof.
  intros Hr Hd Hm Hst. cbv zeta. simpl lex_last_action.
  assert (forall more n a, (length w < n)%nat -> ~ accepted A q0 (take n (w ++ c :: more)) a) as Hstop.
  { intros more n a Hn (q' & Hq' & _). rewrite take_app_ge, reach_app, Hr in Hq' by lia.
    destruct (n - length w)%nat as [|m] eqn:E; [lia|]. simpl in Hq'. destruct (_ <? 0); [done|].
    by destruct (Z.ltb_spec (delta A q c) 0); [|lia]. }
  destruct (best A q0 w (S (length w))) as [[n a]|] eqn:Eb; simpl in Hm.
  - destruct Hm as (Ha & Hp & Hra). rewrite Ha. rewrite bool_decide_false
      by (apply Val_long_neq; unfold is_long, Min_long, Max_long; lia).
    eexists _, _. split; [done|]. pose proof (best_some _ _ _ _ _ _ Eb) as (Hn & Hacc & Hmax).
    apply token with n; [|rewrite length_app; lia|done|simpl|done].
    + intros more. rewrite <-app_assoc. simpl. split; [rewrite length_app; lia|].
      split; [by rewrite take_app_le by lia|]. intros n' a' Hn'. destruct (decide (n' <= length w)%nat) as [Hle|Hgt].
      * rewrite take_app_le by lia. apply Hmax. lia.
      * apply Hstop. lia.
    + rewrite Hp. by rewrite take_app_le by lia.
  - rewrite Hm, bool_decide_true by done. eexists _, _. split; [done|]. apply empty_token. intros more n a. rewrite <-app_assoc. simpl.
    destruct (decide (n <= length w)%nat) as [Hle|Hgt].
    + rewrite take_app_le by lia. apply (best_none A q0 w _ Eb). lia.
    + apply Hstop. lia.
Qed.
Lemma final_state q0 w q lb start text eof rest :
  lexing A h q0 w q lb start text eof -> base q < 0 -> outcome A h q0 (w ++ rest) start (inl (Val_int (- base q - 1))) lb.
Proof.
  intros [Hr Hs L _] Hb. apply token with (length w).
  - intros more. rewrite <-app_assoc. split; [rewrite length_app; lia|]. split.
    + rewrite take_app_le, take_ge by lia. exists q. split; [done|]. unfold action. by destruct (Z.ltb_spec (base q) 0); [|lia].
    + intros n' a' Hn' (q' & Hq' & _). rewrite (stops_final A q0 w (rest ++ more) q) in Hq' by (done || lia). done.
  - rewrite length_app. lia.
  - apply L.
  - rewrite take_app_le, take_ge by lia. apply L.
  - pose proof (get_short _ _ q (t_base _ _ _ T) Hs). lia.
Qed.
Lemma lex_loop_ok q0 fuel : forall w q lb start text eof,
  lexing A h q0 w q lb start text eof -> (length (text ++ eof_char eof) < fuel)%nat ->
  exists r lb', lex_loop h tbl fuel q lb = Ok (r, lb') /\ outcome A h q0 (w ++ text ++ eof_char eof) start r lb'.
Proof.
  induction fuel as [|fuel IH]; intros w q lb start text eof X Hfuel; [lia|]. pose proof X as [Hr Hs L _]. cbn [lex_loop].
  rewrite (Short_ok h _ (abase A)) by (apply T || done). cbn [rbind].
  destruct (Z.ltb_spec (base q) 0) as [Hb|Hb]; [eexists _, _; split; [done|by eapply final_state]|].
  rewrite (Short_ok h _ (abacktrk A)) by (apply T || rewrite (w_backtrk A W); done). cbn [rbind]. fold (recorded q lb).
  destruct (recorded_ok q0 w q lb start text eof X Hb) as [L1 M1].
  pose proof (next_char_ok _ _ _ _ _ _ L1) as Hnext.
  destruct (text ++ eof_char eof) as [|c rest] eqn:Et.
  { rewrite Hnext. cbn [rbind]. destruct text; [|done]. destruct eof; [done|]. eexists _, _. split; [done|].
    rewrite app_nil_r. apply refill; [|done]. split; [done|done|done|]. exists (S (length w)). split; [lia|done]. }
  destruct Hnext as (Hc & lb2 & -> & Ep & Ea & Est & L2). cbn [rbind]. rewrite (next_state_ok h tbl A) by done. cbn [rbind].
  destruct (Z.ltb_spec (delta A q c) 0) as [Hd|Hd].
  { apply (no_transition q0 w q); [done|done| |rewrite Est; apply L1]. unfold remembers in *. by rewrite Ep, Ea. }
  assert (tail text ++ eof_char (match text with [] => false | _ => eof end) = rest) as <-
    by (destruct text; simpl in *; [by destruct eof; simplify_eq/=|by simplify_eq]).
  destruct (IH (w ++ [c]) (delta A q c) (if c =? 256 then set_eof (Val_bool false) lb2 else lb2) start (tail text)
    (match text with [] => false | _ => eof end)) as (r & lb' & Hl & Ho).
  - split.
    + by apply reach_snoc.
    + split; [done|]. by apply delta_bound.
    + by rewrite width_app, Z.add_assoc.
    + exists (S (length w)). rewrite length_app, best_app by done. cbn [length]. split; [lia|].
      destruct (best A q0 w (S (length w))) as [[n a]|] eqn:Eb; unfold remembers in *.
      * rewrite take_app_le by (apply best_length in Eb; lia). destruct (c =? 256); simpl; by rewrite Ep, Ea.
      * destruct (c =? 256); simpl; by rewrite Ea.
  - simpl in Hfuel. lia.
  - exists r, lb'. split; [done|]. by rewrite <-app_assoc in Ho.
Qed.
End engine_lemmas.

(** C18: the lexing engine finds the longest match.  Let the tables encode a well-formed automaton, and let
    the buffer be at the start of a token with [text] before its end, or be the one that a previous call left
    after the characters [w], refilled with [text]; [eof] is the flag of the end of the file.
    Then [lex_engine] returns.  Of the characters [w], [text] and the end of file, it returns the
    action of the longest prefix that is a token, whatever follows, and moves the position
    behind this prefix; or it fails because no prefix is a token, whatever follows; or all
    characters were used and it returns the code of a state from which the same holds after a refill. *)
Theorem lex_engine_longest h tbl A q0 w q lb start text eof fuel start_state :
  tables h tbl A -> well_formed A -> states A <= 2 ^ 15 ->
  (start_state = Val_long q0 /\ 0 <= q0 < states A /\ w = [] /\
     located h (set_start (Val_long start) lb) start start text eof \/
   start_state = Val_long (- q - 1) /\ lexing A h q0 w q lb start text eof) ->
  (length (text ++ eof_char eof) < fuel)%nat ->
  exists r lb', lex_engine h tbl fuel start_state lb = Ok (r, lb') /\ outcome A h q0 (w ++ text ++ eof_char eof) start r lb'.
Proof.
  intros T W Hst [(-> & Hq & -> & L)|(-> & X)] Hfuel; unfold lex_engine; rewrite Long_Val_long; cbn [rbind].
  - rewrite wrap31_small by (unfold is_long, Min_long, Max_long; lia). destruct (Z.geb_spec q0 0); [|lia].
    pose proof (l_curr _ _ _ _ _ _ L) as Hc. simpl in Hc. rewrite Hc.
    apply lex_loop_ok; [done|done| |done]. split; [done|done| |].
    + change (width []) with 0. rewrite Z.add_0_r. destruct L. by split.
    + exists 0%nat. split; [simpl; lia|done].
  - pose proof (x_state _ _ _ _ _ _ _ _ _ X). rewrite wrap31_small by (unfold is_long, Min_long, Max_long; lia).
    destruct (Z.geb_spec (- q - 1) 0); [lia|]. replace (- (- q - 1) - 1) with q by lia. by apply lex_loop_ok.
Qed.

(** A lexer for one or more letters [a]: its state 0 leads to 1, where the action 0 can be taken. *)
Definition short_bytes (l : list Z) : list Z := l ≫= fun x => [u8 x; u8 (Z.shiftr x 8)].
Lemma short_bytes_ok h b t l :
  h !! b = Some (mkBlock t (Bytes (short_bytes l))) -> Forall (fun x => - 2 ^ 15 <= x < 2 ^ 15) l -> shorts h (Ptr b) l.
Proof.
  intros Hb Hl. exists b, t, (short_bytes l). split; [done|]. split; [done|]. intros n x Hn. split; [exact (Forall_lookup_1 _ _ _ _ Hl Hn)|].
  clear Hb Hl. revert n Hn. induction l as [|y l IH]; intros n Hn; [by rewrite lookup_nil in Hn|]. destruct n as [|n]; [by injection Hn as ->|].
  destruct (IH n Hn) as [H0 H1]. replace (2 * S n)%nat with (S (S (2 * n))) by lia. split; [exact H0|exact H1].
Qed.
Definition letters_a : automaton :=
  mkAut [0; 1] [-1; 0] [-1; -1] (replicate 97 (-1) ++ [1; 1] ++ replicate 159 (-1)) (replicate 97 (-1) ++ [0; 1] ++ replicate 159 (-1)).
Definition letters_heap : heap_t :=
  {[0%nat := mkBlock String_tag (Bytes (short_bytes (abase letters_a))); 1%nat := mkBlock String_tag (Bytes (short_bytes (abacktrk letters_a)));
    2%nat := mkBlock String_tag (Bytes (short_bytes (adefault letters_a))); 3%nat := mkBlock String_tag (Bytes (short_bytes (atrans letters_a)));
    4%nat := mkBlock String_tag (Bytes (short_bytes (acheck letters_a))); 5%nat := mkBlock String_tag (Bytes [97; 97; 98])]}.
Definition letters_tables : lexing_table := mkTables (Ptr 0) (Ptr 1) (Ptr 2) (Ptr 3) (Ptr 4).
Definition letters_buffer : lexer_buffer :=
  mkLexbuf Val_unit (Ptr 5) (Val_long 3) (Val_long 0) (Val_long 0) (Val_long 0) (Val_long 0) (Val_long 0) (Val_bool true).
Lemma lex_engine_longest_witness :
  (exists lb, lex_engine letters_heap letters_tables 6 (Val_long 0) letters_buffer = Ok (inl (Val_long 0), lb) /\ lex_curr_pos lb = Val_long 2) /\
  exists r lb', lex_engine letters_heap letters_tables 6 (Val_long 0) letters_buffer = Ok (r, lb') /\
    outcome letters_a letters_heap 0 ([] ++ [97; 97; 98] ++ eof_char true) 0 r lb'.
Proof.
  split; [eexists; split; vm_compute; reflexivity|].
  apply (lex_engine_longest letters_heap letters_tables letters_a 0 [] 0).
  - split; (eapply short_bytes_ok; [reflexivity|apply (bool_decide_unpack _); vm_compute; exact I]).
  - split; try reflexivity.
    + intros q Hq. assert (q = 0 \/ q = 1) as [-> | ->] by (unfold states in Hq; simpl in Hq; lia); reflexivity.
    + apply (bool_decide_unpack _). vm_compute. exact I.
    + apply (bool_decide_unpack _). vm_compute. exact I.
  - discriminate.
  - left. split; [reflexivity|]. split; [split; [discriminate|reflexivity]|]. split; [reflexivity|].
    split; try reflexivity.
    + split; [lia|]. discriminate.
    + exists 5%nat, String_tag, [97; 97; 98]. split; [reflexivity|]. split; [reflexivity|]. intros i c Hi. exact Hi.
    + repeat constructor; discriminate.
  - simpl. lia.
Defined.
