(* ===== verification/Taslock.v ===== *)
(** * Spin locks: kernel/Port/taslock.c

    One lock, used by processes and by interrupt handlers on any number of processors.  A step executes one access
    to the lock, or to the counters of the processor or process; the points of a
    context are the places of the code where it can be between two steps.  An
    interrupt puts a new context on top of the one it interrupts, and happens
    only where interrupts are enabled. *)
From stdpp Require Import list.
From S2P Require Import Prelude.

Record Lock := mkLock { key : Z; isilock : bool; sr : bool; pc : Z; p : option nat; cpu : option nat }.
(** The stores of the code into the lock. *)
Inductive store := Set_key (x : Z) | Set_isilock (x : bool) | Set_sr (x : bool) | Set_pc (x : Z) | Set_p (x : option nat) | Set_cpu (x : option nat).
Definition put (st : store) (l : Lock) : Lock :=
  match st with
  | Set_key x => mkLock x (isilock l) (sr l) (pc l) (p l) (cpu l)
  | Set_isilock x => mkLock (key l) x (sr l) (pc l) (p l) (cpu l)
  | Set_sr x => mkLock (key l) (isilock l) x (pc l) (p l) (cpu l)
  | Set_pc x => mkLock (key l) (isilock l) (sr l) x (p l) (cpu l)
  | Set_p x => mkLock (key l) (isilock l) (sr l) (pc l) x (cpu l)
  | Set_cpu x => mkLock (key l) (isilock l) (sr l) (pc l) (p l) x
  end.
(** [arch_tas]: the old value; a zero becomes 1. *)
Definition tas (l : Lock) : Z * Lock := (key l, if key l =? 0 then put (Set_key 1) l else l).

(** What [unlock] and [iunlock] print when the caller does not hold the lock as it should. *)
Inductive complaint := Unlock_not_locked | Unlock_of_ilock | Unlock_up_changed | Iunlock_not_locked | Iunlock_of_lock | Iunlock_while_lo.
(** Taken by [lock] or [canlock], or by [ilock], which saved the interrupt level [x]. *)
Inductive mode := Plain | Ilocked (x : bool).
Definition is_ilock (m : mode) : bool := match m with Plain => false | Ilocked _ => true end.
Inductive point :=
  | Idle                                           (* outside of the functions, without the lock *)
  | Held (m : mode)                                (* outside of the functions, with the lock *)
  | Lock_inc (again : bool) | Lock_tas (again : bool) | Lock_dec (again : bool) | Lock_spin
  | Ilock_hi (again : bool) | Ilock_tas (x again : bool) | Ilock_lo (x : bool) | Ilock_spin | Ilock_depth (x : bool)
  | Canlock_inc | Canlock_tas | Canlock_dec
  | Storing (l : list store) (m : mode)            (* the stores that are left after the lock was taken *)
  | Checking (l : list complaint) (m : mode)       (* the checks that are left before it is released *)
  | Releasing (l : list store) (m : mode)          (* the stores that release it *)
  | Unlock_dec | Iunlock_depth (x : bool) | Iunlock_lo (x : bool).
(** [entry]: whether interrupts are enabled when the context is outside of [ilock] and [iunlock]. *)
Record context := mkCtx { at_ : point; caller : Z; entry : bool }.
Record processor := mkProc { up : option nat; lo : bool; ilockdepth : Z; stack : list context }.
Record shared := mkShared { lk : Lock; nlocks : nat -> Z; locks : Z; glare : Z; inglare : Z; printed : list complaint; panicked : bool }.
Record state := mkState { sh : shared; cpus : list processor }.

Definition set_lk x s := mkShared x (nlocks s) (locks s) (glare s) (inglare s) (printed s) (panicked s).
Definition stat_locks s := mkShared (lk s) (nlocks s) (u32 (locks s + 1)) (glare s) (inglare s) (printed s) (panicked s).
(** [lockstats.glare++] after the first try, [lockstats.inglare++] after each. *)
Definition stat_glare (again : bool) s :=
  mkShared (lk s) (nlocks s) (locks s) (if again then glare s else u32 (glare s + 1)) (u32 (inglare s + 1)) (printed s) (panicked s).
Definition print (m : complaint) s := mkShared (lk s) (nlocks s) (locks s) (glare s) (inglare s) (printed s ++ [m]) (panicked s).
Definition add_nlocks (q : nat) (d : Z) s :=
  mkShared (lk s) (fun q' => if decide (q' = q) then nlocks s q' + d else nlocks s q') (locks s) (glare s) (inglare s) (printed s) (panicked s).
Definition panic s := mkShared (lk s) (nlocks s) (locks s) (glare s) (inglare s) (printed s) true.
(** [if(up) inccnt(&up->nlocks)] and [if(up) deccnt(&up->nlocks)] *)
Definition inccnt (u : option nat) (s : shared) : shared := match u with Some q => add_nlocks q 1 s | None => s end.
Definition deccnt (u : option nat) (s : shared) : shared :=
  match u with
  | Some q => let s := add_nlocks q (-1) s in if nlocks s q <? 0 then panic s else s
  | None => s
  end.

(** The stores after [arch_tas] has returned 0: the second path of [lock] does not set [cpu]. *)
Definition lock_stores (again : bool) (caller : Z) (u : option nat) (c : nat) : list store :=
  [Set_pc caller; Set_p u; Set_isilock false] ++ (if again then [] else [Set_cpu (Some c)]).
Definition ilock_stores (x : bool) (caller : Z) (u : option nat) (c : nat) : list store :=
  [Set_sr x; Set_pc caller; Set_p u; Set_isilock true; Set_cpu (Some c)].
Definition canlock_stores (caller : Z) (u : option nat) (c : nat) : list store :=
  [Set_pc caller; Set_p u; Set_cpu (Some c); Set_isilock false].
Definition release_stores : list store := [Set_cpu None; Set_key 0].
Definition checks (m : mode) : list complaint :=
  match m with
  | Plain => [Unlock_not_locked; Unlock_of_ilock; Unlock_up_changed]
  | Ilocked _ => [Iunlock_not_locked; Iunlock_of_lock; Iunlock_while_lo]
  end.
Definition complains (l : Lock) (u : option nat) (lo : bool) (m : complaint) : bool :=
  match m with
  | Unlock_not_locked | Iunlock_not_locked => key l =? 0
  | Unlock_of_ilock => isilock l
  | Unlock_up_changed => negb (bool_decide (p l = u))
  | Iunlock_of_lock => negb (isilock l)
  | Iunlock_while_lo => lo
  end.

(** One step of the running context of the processor [c]: the next point, the level and depth of the processor, and what is shared. *)
Definition advance (c : nat) (u : option nat) (lo : bool) (depth : Z) (x : context) (s : shared) : point * bool * Z * shared :=
  let go pt s := (pt, lo, depth, s) in
  match at_ x with
  | Idle => go Idle s
  | Held m => go (Held m) s
  | Lock_inc again => go (Lock_tas again) (inccnt u s)
  | Lock_tas again =>
      let '(old, l) := tas (lk s) in
      if old =? 0 then go (Storing (lock_stores again (caller x) u c) Plain) (set_lk l s) else go (Lock_dec again) (set_lk l s)
  | Lock_dec again => go Lock_spin (stat_glare again (deccnt u s))
  | Lock_spin => if negb (key (lk s) =? 0) then go Lock_spin s else go (Lock_inc true) s
  | Ilock_hi again => (Ilock_tas lo again, false, depth, s)
  | Ilock_tas y again =>
      let '(old, l) := tas (lk s) in
      if old =? 0 then go (Ilock_depth y) (set_lk l s) else go (Ilock_lo y) (stat_glare again (set_lk l s))
  | Ilock_lo y => (Ilock_spin, y, depth, s)
  | Ilock_spin => if negb (key (lk s) =? 0) then go Ilock_spin s else go (Ilock_hi true) s
  | Ilock_depth y => (Storing (ilock_stores y (caller x) u c) (Ilocked y), lo, depth + 1, s)
  | Canlock_inc => go Canlock_tas (inccnt u s)
  | Canlock_tas =>
      let '(old, l) := tas (lk s) in
      if old =? 0 then go (Storing (canlock_stores (caller x) u c) Plain) (set_lk l s) else go Canlock_dec (set_lk l s)
  | Canlock_dec => go Idle (deccnt u s)
  | Storing [] m => go (Held m) s
  | Storing (st :: l) m => go (match l with [] => Held m | _ => Storing l m end) (set_lk (put st (lk s)) s)
  | Checking (m :: l) md => go (Checking l md) (if complains (lk s) u lo m then print m s else s)
  | Checking [] Plain => go (Releasing release_stores Plain) s
  | Checking [] (Ilocked _) => go (Releasing release_stores (Ilocked (sr (lk s)))) s
  | Releasing [] m => go (match m with Plain => Unlock_dec | Ilocked y => Iunlock_depth y end) s
  | Releasing (st :: l) m =>
      go (match l, m with [], Plain => Unlock_dec | [], Ilocked y => Iunlock_depth y | _, _ => Releasing l m end) (set_lk (put st (lk s)) s)
  | Unlock_dec => go Idle (deccnt u s)
  | Iunlock_depth y => (Iunlock_lo y, lo, depth - 1, s)
  | Iunlock_lo y => (Idle, y, depth, s)
  end.

(** ** Runs *)

Inductive operation := Op_lock | Op_ilock | Op_canlock.
Inductive move :=
  | Call (c : nat) (o : operation) (pc : Z)   (* a context without the lock calls a function that takes it *)
  | Release (c : nat)                         (* the holder calls [unlock] or [iunlock], as it took the lock *)
  | Run (c : nat)                             (* one step of a function *)
  | Interrupt (c : nat)
  | Return (c : nat)                          (* the end of an interrupt handler, which gave the lock back *)
  | Spl (c : nat) (lo : bool).                (* a process sets the interrupt level, outside of critical sections *)
Definition enter (o : operation) : point :=
  match o with Op_lock => Lock_inc false | Op_ilock => Ilock_hi false | Op_canlock => Canlock_inc end.
Definition is_idle (pt : point) : bool := match pt with Idle => true | _ => false end.
Definition with_top (c : nat) (q : processor) (x : context) (l : list context) (s : state) : list processor :=
  <[c := mkProc (up q) (lo q) (ilockdepth q) (x :: l)]> (cpus s).
Definition act (m : move) (s : state) : option state :=
  let c := match m with Call c _ _ | Release c | Run c | Interrupt c | Return c | Spl c _ => c end in
  match cpus s !! c with
  | None => None
  | Some q =>
      match stack q with
      | [] => None
      | x :: l =>
          match m with
          | Call _ o pc =>
              if is_idle (at_ x) then
                Some (mkState (match o with Op_canlock => sh s | _ => stat_locks (sh s) end) (with_top c q (mkCtx (enter o) pc (entry x)) l s))
              else None
          | Release _ =>
              match at_ x with
              | Held md => Some (mkState (sh s) (with_top c q (mkCtx (Checking (checks md) md) (caller x) (entry x)) l s))
              | _ => None
              end
          | Run _ =>
              let '(pt, lo', depth, sh') := advance c (up q) (lo q) (ilockdepth q) x (sh s) in
              Some (mkState sh' (<[c := mkProc (up q) lo' depth (mkCtx pt (caller x) (entry x) :: l)]> (cpus s)))
          | Interrupt _ =>
              if lo q then Some (mkState (sh s) (<[c := mkProc (up q) false (ilockdepth q) (mkCtx Idle 0 false :: x :: l)]> (cpus s))) else None
          | Return _ =>
              match l with
              | _ :: _ => if is_idle (at_ x) then Some (mkState (sh s) (<[c := mkProc (up q) true (ilockdepth q) l]> (cpus s))) else None
              | [] => None
              end
          | Spl _ b =>
              match l with
              | [] => if is_idle (at_ x) then Some (mkState (sh s) (<[c := mkProc (up q) b (ilockdepth q) [mkCtx Idle (caller x) b]]> (cpus s))) else None
              | _ :: _ => None
              end
          end
      end
  end.
(** The lock is free, and each processor runs a process, or none, outside of the functions. *)
Definition initial (s : state) : Prop :=
  sh s = mkShared (mkLock 0 false false 0 None None) (fun _ => 0) 0 0 0 [] false /\
  forall c q, cpus s !! c = Some q -> ilockdepth q = 0 /\ stack q = [mkCtx Idle 0 (lo q)].
Inductive reachable : state -> Prop :=
  | reach_init s : initial s -> reachable s
  | reach_move m s s' : reachable s -> act m s = Some s' -> reachable s'.

(** ** The invariant *)

Definition owns (pt : point) : bool :=
  match pt with Held _ | Ilock_depth _ | Storing _ _ | Checking _ _ | Releasing _ _ => true | _ => false end.
(** The lock counts in [up->nlocks], and in [ilockdepth]. *)
Definition counted (pt : point) : bool :=
  match pt with
  | Lock_tas _ | Lock_dec _ | Canlock_tas | Canlock_dec | Unlock_dec => true
  | Held m | Storing _ m | Checking _ m | Releasing _ m => negb (is_ilock m)
  | _ => false
  end.
Definition deep (pt : point) : bool :=
  match pt with
  | Held m | Storing _ m | Checking _ m | Releasing _ m => is_ilock m
  | Iunlock_depth _ => true
  | _ => false
  end.
(** Interrupts are disabled. *)
Definition masked (pt : point) : bool :=
  match pt with
  | Ilock_tas _ _ | Ilock_lo _ | Ilock_depth _ | Iunlock_depth _ | Iunlock_lo _ => true
  | Held m | Storing _ m | Checking _ m | Releasing _ m => is_ilock m
  | _ => false
  end.
Definition level (x : context) : bool := if masked (at_ x) then false else entry x.
Definition z_of (b : bool) : Z := if b then 1 else 0.
Fixpoint sum {A} (f : A -> Z) (l : list A) : Z := match l with [] => 0 | x :: l => f x + sum f l end.
Definition owners (q : processor) : Z := sum (fun x => z_of (owns (at_ x))) (stack q).
Definition counts (u : nat) (q : processor) : Z :=
  if decide (up q = Some u) then sum (fun x => z_of (counted (at_ x))) (stack q) else 0.

(** The fields of a lock that was taken in the mode [m]. *)
Record taken (l : Lock) (u : option nat) (c : nat) (pcl : Z) (m : mode) : Prop := {
  k_p : p l = u; k_isilock : isilock l = is_ilock m; k_pc : pc l = pcl; k_sr y : m = Ilocked y -> sr l = y;
  k_cpu : cpu l = Some c \/ m = Plain /\ cpu l = None }.
Definition keeps_key (st : store) : Prop := match st with Set_key _ => False | _ => True end.
Definition suits (m : mode) (k : complaint) : Prop := k ∈ checks m.
Definition mode_entry (x : context) (m : mode) : Prop := match m with Ilocked y => y = entry x | Plain => True end.
Definition ctx_ok (l : Lock) (u : option nat) (c : nat) (x : context) : Prop :=
  match at_ x with
  | Ilock_tas y _ | Ilock_lo y | Ilock_depth y | Iunlock_depth y | Iunlock_lo y => y = entry x
  | Held m => mode_entry x m /\ taken l u c (caller x) m
  | Checking k m => mode_entry x m /\ taken l u c (caller x) m /\ Forall (suits m) k
  | Storing k m => mode_entry x m /\ Forall keeps_key k /\ taken (foldl (fun l st => put st l) l k) u c (caller x) m /\ k <> []
  | Releasing k m => mode_entry x m /\ (k = release_stores \/ k = [Set_key 0] /\ cpu l = None)
  | _ => True
  end.
Definition proc_ok (l : Lock) (c : nat) (q : processor) : Prop :=
  match stack q with
  | [] => False
  | x :: r => lo q = level x /\ Forall (fun y => level y = true) r /\ Forall (ctx_ok l (up q) c) (x :: r) /\
      ilockdepth q = sum (fun y => z_of (deep (at_ y))) (x :: r)
  end.
Record shared_ok (s : shared) : Prop := {
  s_key : key (lk s) = 0 \/ key (lk s) = 1;
  s_free : key (lk s) = 0 -> cpu (lk s) = None;
  s_quiet : printed s = [] /\ panicked s = false }.
Record inv (s : state) : Prop := {
  i_shared : shared_ok (sh s);
  i_owner : sum owners (cpus s) = key (lk (sh s));
  i_counts u : nlocks (sh s) u = sum (counts u) (cpus s);
  i_procs c q : cpus s !! c = Some q -> proc_ok (lk (sh s)) c q }.

(** ** One step of a context *)

Lemma inccnt_ok u s : shared_ok s -> shared_ok (inccnt u s) /\ lk (inccnt u s) = lk s /\
  forall q, nlocks (inccnt u s) q = nlocks s q + (if decide (u = Some q) then 1 else 0).
Proof.
  intros H. destruct u as [q|]; simpl; (split; [by destruct H|]); (split; [done|]); intros q'; [|lia].
  destruct (decide (q' = q)), (decide (Some q = Some q')); simplify_eq; lia || done.
Qed.
Lemma deccnt_ok u s : shared_ok s -> (forall q, u = Some q -> 1 <= nlocks s q) ->
  shared_ok (deccnt u s) /\ lk (deccnt u s) = lk s /\
  forall q, nlocks (deccnt u s) q = nlocks s q - (if decide (u = Some q) then 1 else 0).
Proof.
  intros H Hn. destruct u as [q|]; cbn [deccnt].
  - destruct (Z.ltb_spec (nlocks (add_nlocks q (-1) s) q) 0) as [Hlt|_].
    + exfalso. simpl in Hlt. rewrite decide_True in Hlt by done. specialize (Hn q eq_refl). lia.
    + split; [by destruct H|]. split; [done|]. intros q'. simpl.
      destruct (decide (q' = q)), (decide (Some q = Some q')); simplify_eq; lia || done.
  - split; [done|]. split; [done|]. intros q. simpl. lia.
Qed.
Lemma tas_ok s : shared_ok s ->
  (key (lk s) = 0 /\ tas (lk s) = (0, put (Set_key 1) (lk s)) /\ shared_ok (set_lk (put (Set_key 1) (lk s)) s)) \/
  (key (lk s) = 1 /\ tas (lk s) = (1, lk s) /\ shared_ok (set_lk (lk s) s)).
Proof.
  intros [[Hk|Hk] Hf Hq]; [left|right]; (split; [done|]); unfold tas; rewrite Hk; simpl; (split; [done|]); split; simpl; auto; lia.
Qed.

(** What a step of the running context leads to. *)
Record good_step (c : nat) (u : option nat) (x : context) (depth : Z) (s : shared) (pt : point) (lo' : bool) (depth' : Z) (s' : shared) : Prop := {
  g_shared : shared_ok s';
  g_ctx : ctx_ok (lk s') u c (mkCtx pt (caller x) (entry x));
  g_level : lo' = level (mkCtx pt (caller x) (entry x));
  g_key : key (lk s') - key (lk s) = z_of (owns pt) - z_of (owns (at_ x));
  g_same : owns (at_ x) = false -> lk s' = lk s \/ key (lk s) = 0;
  g_nlocks q : nlocks s' q = nlocks s q + (if decide (u = Some q) then z_of (counted pt) - z_of (counted (at_ x)) else 0);
  g_depth : depth' - depth = z_of (deep pt) - z_of (deep (at_ x)) }.
Record can_step (c : nat) (u : option nat) (x : context) (lo : bool) (s : shared) : Prop := {
  a_shared : shared_ok s;
  a_ctx : ctx_ok (lk s) u c x;
  a_level : lo = level x;
  a_key : owns (at_ x) = true -> key (lk s) = 1;
  a_nlocks q : u = Some q -> z_of (counted (at_ x)) <= nlocks s q }.

(** A step that changes nothing shared. *)
Lemma good_local c u x lo depth s pt lo' depth' :
  can_step c u x lo s -> ctx_ok (lk s) u c (mkCtx pt (caller x) (entry x)) -> lo' = level (mkCtx pt (caller x) (entry x)) ->
  owns pt = owns (at_ x) -> counted pt = counted (at_ x) -> depth' - depth = z_of (deep pt) - z_of (deep (at_ x)) ->
  good_step c u x depth s pt lo' depth' s.
Proof.
  intros [Hs _ _ _ _] Hc Hl Ho Hn Hd. split; try done; [rewrite Ho; lia|by left|]. intros q. rewrite Hn. case_decide; lia.
Qed.
(** The counter goes up before the lock is tried, and down after a failure and after a release. *)
Lemma good_inc c u x lo depth s pt :
  can_step c u x lo s -> (forall l, ctx_ok l u c (mkCtx pt (caller x) (entry x))) -> lo = level (mkCtx pt (caller x) (entry x)) ->
  owns pt = owns (at_ x) -> counted (at_ x) = false -> counted pt = true -> deep pt = deep (at_ x) ->
  good_step c u x depth s pt lo depth (inccnt u s).
Proof.
  intros [Hs _ _ _ _] Hc Hl Ho Hx Hp Hd. destruct (inccnt_ok u s Hs) as (Hs' & El & En).
  split; try done; rewrite ?El, ?Ho, ?Hd; try lia; [by left|]. intros q. rewrite En, Hx, Hp. simpl. case_decide; lia.
Qed.
Lemma good_dec c u x lo depth s pt again :
  can_step c u x lo s -> (forall l, ctx_ok l u c (mkCtx pt (caller x) (entry x))) -> lo = level (mkCtx pt (caller x) (entry x)) ->
  owns pt = owns (at_ x) -> counted (at_ x) = true -> counted pt = false -> deep pt = deep (at_ x) ->
  good_step c u x depth s pt lo depth (deccnt u s) /\ good_step c u x depth s pt lo depth (stat_glare again (deccnt u s)).
Proof.
  intros [Hs _ _ _ Hn] Hc Hl Ho Hx Hp Hd. rewrite Hx in Hn. destruct (deccnt_ok u s Hs Hn) as (Hs' & El & En).
  assert (good_step c u x depth s pt lo depth (deccnt u s)) as G.
  { split; try done; rewrite ?El, ?Ho, ?Hd; try lia; [by left|]. intros q. rewrite En, Hx, Hp. simpl. case_decide; lia. }
  split; [done|]. destruct G. split; try done. by destruct g_shared0.
Qed.
(** The lock is tried. *)
Lemma good_tas c u x lo depth s (won lost : point) again :
  can_step c u x lo s -> owns (at_ x) = false -> owns won = true -> owns lost = false ->
  (cpu (lk s) = None -> ctx_ok (put (Set_key 1) (lk s)) u c (mkCtx won (caller x) (entry x))) ->
  ctx_ok (lk s) u c (mkCtx lost (caller x) (entry x)) ->
  lo = level (mkCtx won (caller x) (entry x)) -> lo = level (mkCtx lost (caller x) (entry x)) ->
  counted won = counted (at_ x) -> counted lost = counted (at_ x) -> deep won = deep (at_ x) -> deep lost = deep (at_ x) ->
  let '(old, l) := tas (lk s) in
  if old =? 0 then good_step c u x depth s won lo depth (set_lk l s)
  else good_step c u x depth s lost lo depth (set_lk l s) /\ good_step c u x depth s lost lo depth (stat_glare again (set_lk l s)).
Proof.
  intros [Hs _ _ _ _] Ho Hw Hl Hcw Hcl Hlw Hll Hnw Hnl Hdw Hdl.
  destruct (tas_ok s Hs) as [(Hk & -> & Hs')|(Hk & -> & Hs')]; simpl.
  - split; simpl; rewrite ?Ho, ?Hw, ?Hdw, ?Hnw; try done; try (simpl; lia).
    + apply Hcw. by apply Hs.
    + intros q. case_decide; lia.
  - assert (good_step c u x depth s lost lo depth (set_lk (lk s) s)) as G.
    { split; simpl; rewrite ?Ho, ?Hl, ?Hdl, ?Hnl; try done; try (simpl; lia); [by left|]. intros q. case_decide; lia. }
    split; [done|]. destruct G. split; try done. by destruct g_shared0.
Qed.
(** A store of the holder that keeps it the holder. *)
Lemma good_store c u x lo depth s pt st :
  can_step c u x lo s -> owns (at_ x) = true -> owns pt = true -> keeps_key st ->
  ctx_ok (put st (lk s)) u c (mkCtx pt (caller x) (entry x)) -> lo = level (mkCtx pt (caller x) (entry x)) ->
  counted pt = counted (at_ x) -> deep pt = deep (at_ x) ->
  good_step c u x depth s pt lo depth (set_lk (put st (lk s)) s).
Proof.
  intros [Hs _ _ Hk _] Ho Hp Hst Hc Hl Hn Hd. specialize (Hk Ho).
  assert (key (put st (lk s)) = key (lk s)) as Ek by (by destruct st).
  split; simpl; rewrite ?Ek, ?Ho, ?Hp, ?Hd, ?Hn; try done; try lia.
  - split; simpl; rewrite ?Ek; [by right|lia|apply Hs].
  - intros q. case_decide; lia.
Qed.
(** No check complains about the holder. *)
Lemma complains_not l u c pcl m lo k :
  taken l u c pcl m -> key l = 1 -> suits m k -> (is_ilock m = true -> lo = false) -> complains l u lo k = false.
Proof.
  intros [Hp Hi _ _ _] Hk Hs Hlo. unfold suits in Hs. destruct m as [|y]; simpl in *;
    repeat (apply elem_of_cons in Hs as [-> |Hs]); try (by apply not_elem_of_nil in Hs); simpl; rewrite ?Hk, ?Hi; try done.
  - by rewrite bool_decide_true.
  - by apply Hlo.
Qed.
(** The stores that follow the test leave the fields of a lock that is taken. *)
Lemma lock_stores_ok l u c pcl en again :
  cpu l = None -> ctx_ok (put (Set_key 1) l) u c (mkCtx (Storing (lock_stores again pcl u c) Plain) pcl en).
Proof.
  intros Hf. split; [done|]. unfold lock_stores. destruct again; simpl; (split; [repeat constructor|]); (split; [|done]);
    split; simpl; auto; done.
Qed.
Lemma canlock_stores_ok l u c pcl en :
  ctx_ok (put (Set_key 1) l) u c (mkCtx (Storing (canlock_stores pcl u c) Plain) pcl en).
Proof. split; [done|]. simpl. split; [repeat constructor|]. split; [|done]. split; simpl; auto; done. Qed.
Lemma ilock_stores_ok l u c pcl en :
  ctx_ok l u c (mkCtx (Storing (ilock_stores en pcl u c) (Ilocked en)) pcl en).
Proof. split; [done|]. simpl. split; [repeat constructor|]. split; [|done]. split; simpl; auto. by intros y [= ->]. Qed.

Ltac local_step := match goal with E : (_, _, _, _) = _ |- _ => injection E as <- <- <- <- end; eapply good_local; try done; simpl; lia.
Ltac tas_step C won lost again :=
  let G := fresh "G" in
  match type of C with can_step ?c ?u ?x ?lo ?s => pose proof (fun d => good_tas c u x lo d s won lost again C) as G end;
  match goal with E : context [tas ?l] |- _ => destruct (tas l) as [? ?] end; simpl in *;
  match goal with E : context [if ?b then _ else _] |- _ => destruct b end; match goal with E : (_, _, _, _) = _ |- _ => injection E as <- <- <- <- end; apply G; try done.

(** The points of the three functions that take the lock, before it is taken. *)
Lemma advance_take c u lo depth x s pt lo' depth' s' :
  can_step c u x lo s -> advance c u lo depth x s = (pt, lo', depth', s') -> owns (at_ x) = false ->
  good_step c u x depth s pt lo' depth' s'.
Proof.
  intros C E Ho. pose proof C as [Hs Hc Hl Hk Hn]. destruct x as [pt0 pcl en]. unfold advance in E. unfold ctx_ok, level in Hc, Hl. cbn [at_ caller entry] in *.
  destruct pt0 as [|m|again|again|again| |again|y again|y| |y| | | |l m|l m|l m| |y|y]; try done; cbn [masked is_ilock] in Hl.
  - local_step.
  - injection E as <- <- <- <-. by apply good_inc.
  - tas_step C (Storing (lock_stores again pcl u c) Plain) (Lock_dec again) false; apply lock_stores_ok.
  - injection E as <- <- <- <-. by apply good_dec.
  - destruct (negb (key (lk s) =? 0)); local_step.
  - local_step.
  - tas_step C (Ilock_depth y) (Ilock_lo y) again.
  - local_step.
  - destruct (negb (key (lk s) =? 0)); local_step.
  - injection E as <- <- <- <-. by apply good_inc.
  - tas_step C (Storing (canlock_stores pcl u c) Plain) Canlock_dec false; intros _; apply canlock_stores_ok.
  - injection E as <- <- <- <-. by apply (good_dec _ _ _ _ _ _ _ false).
  - injection E as <- <- <- <-. by apply (good_dec _ _ _ _ _ _ _ false).
  - local_step.
  - local_step.
Qed.
(** The last store of a release. *)
Lemma good_release c u x lo depth s m :
  can_step c u x lo s -> at_ x = Releasing [Set_key 0] m ->
  let pt := match m with Plain => Unlock_dec | Ilocked y => Iunlock_depth y end in
  good_step c u x depth s pt lo depth (set_lk (put (Set_key 0) (lk s)) s).
Proof.
  intros [Hs Hc Hl Hk Hn] E. unfold ctx_ok, level in Hc, Hl. rewrite E in *. destruct Hc as [Hm [?|[_ Hcpu]]]; [done|].
  specialize (Hk eq_refl).
  assert (shared_ok (set_lk (put (Set_key 0) (lk s)) s)) as Hs' by (split; simpl; [by left|done|apply Hs]).
  destruct m as [|y]; (split; [done|..]); rewrite ?E; simpl; rewrite ?Hk; try done; try lia; intros q; case_decide; lia.
Qed.
(** The points of the holder. *)
Lemma advance_hold c u lo depth x s pt lo' depth' s' :
  can_step c u x lo s -> advance c u lo depth x s = (pt, lo', depth', s') -> owns (at_ x) = true ->
  good_step c u x depth s pt lo' depth' s'.
Proof.
  intros C E Ho. pose proof C as [Hs Hc Hl Hk Hn]. specialize (Hk Ho). destruct x as [pt0 pcl en].
  unfold advance in E. unfold ctx_ok, level in Hc, Hl. cbn [at_ caller entry] in *.
  destruct pt0 as [|m|again|again|again| |again|y again|y| |y| | | |l m|l m|l m| |y|y]; try done; cbn [masked is_ilock] in Hl.
  - local_step.
  - subst y. injection E as <- <- <- <-. eapply good_local; try done; [apply ilock_stores_ok|simpl; lia].
  - destruct Hc as (Hm & Hkeep & Ht & Hne). destruct l as [|st l]; [done|]. apply Forall_cons in Hkeep as [Hst Hkeep].
    injection E as <- <- <- <-. destruct l as [|st' l]; apply good_store; try done.
  - destruct Hc as (Hm & Ht & Hsuit). destruct l as [|k l]; [destruct m as [|y]|]; injection E as <- <- <- <-.
    + eapply good_local; try done; [|simpl; lia]. split; [done|by left].
    + rewrite (k_sr _ _ _ _ _ Ht y eq_refl). eapply good_local; try done; [|simpl; lia]. split; [done|by left].
    + apply Forall_cons in Hsuit as [Hk' Hsuit].
      rewrite (complains_not (lk s) u c pcl m lo k) by (done || intros Him; rewrite Him in Hl; done).
      eapply good_local; try done; simpl; lia.
  - destruct Hc as (Hm & [-> |[-> Hf]]).
    + injection E as <- <- <- <-. destruct m; apply (good_store _ _ _ _ _ _ _ (Set_cpu None)); try done; (split; [done|by right]).
    + pose proof (good_release c u (mkCtx (Releasing [Set_key 0] m) pcl en) lo depth s m C eq_refl) as G.
      destruct m; injection E as <- <- <- <-; exact G.
Qed.
Lemma advance_ok c u lo depth x s pt lo' depth' s' :
  can_step c u x lo s -> advance c u lo depth x s = (pt, lo', depth', s') -> good_step c u x depth s pt lo' depth' s'.
Proof. intros C E. destruct (owns (at_ x)) eqn:Ho; [by eapply advance_hold|by eapply advance_take]. Qed.

(** ** All processors *)

Lemma sum_insert {A} (f : A -> Z) l c q q' : l !! c = Some q -> sum f (<[c := q']> l) = sum f l - f q + f q'.
Proof. revert c. induction l as [|x l IH]; intros [|c] H; simplify_eq/=; [lia|]. rewrite (IH c H). lia. Qed.
Lemma sum_nonneg {A} (f : A -> Z) l : (forall x, 0 <= f x) -> 0 <= sum f l.
Proof. intros Hf. induction l as [|x l IH]; simpl; [done|]. specialize (Hf x). lia. Qed.
Lemma sum_le {A} (f : A -> Z) l c q : (forall x, 0 <= f x) -> l !! c = Some q -> f q <= sum f l.
Proof.
  intros Hf. revert c. induction l as [|x l IH]; intros [|c] H; simplify_eq/=.
  - pose proof (sum_nonneg f l Hf). lia.
  - specialize (IH c H). specialize (Hf x). lia.
Qed.
Lemma sum_two {A} (f : A -> Z) l c d q q' :
  (forall x, 0 <= f x) -> c <> d -> l !! c = Some q -> l !! d = Some q' -> f q + f q' <= sum f l.
Proof.
  intros Hf. revert c d. induction l as [|x l IH]; intros [|c] [|d] Hne Hc Hd; simplify_eq/=.
  - pose proof (sum_le f l d q' Hf Hd). lia.
  - pose proof (sum_le f l c q Hf Hc). lia.
  - pose proof (IH c d ltac:(lia) Hc Hd). specialize (Hf x). lia.
Qed.
Lemma z_of_nonneg b : 0 <= z_of b.
Proof. by destruct b. Qed.
Lemma owners_nonneg q : 0 <= owners q.
Proof. apply sum_nonneg. intros. apply z_of_nonneg. Qed.
Lemma counts_nonneg u q : 0 <= counts u q.
Proof. unfold counts. case_decide; [apply sum_nonneg; intros; apply z_of_nonneg|done]. Qed.

(** What does not hold the lock does not care about its fields. *)
Lemma ctx_ok_free l l' u c x : owns (at_ x) = false -> ctx_ok l u c x -> ctx_ok l' u c x.
Proof. unfold ctx_ok. by destruct (at_ x). Qed.
Lemma ctxs_ok_free l l' u c r : sum (fun y => z_of (owns (at_ y))) r = 0 -> Forall (ctx_ok l u c) r -> Forall (ctx_ok l' u c) r.
Proof.
  intros Hs H. induction H as [|y r Hy _ IH]; [constructor|]. simpl in Hs.
  pose proof (sum_nonneg (fun y => z_of (owns (at_ y))) r (fun y => z_of_nonneg _)).
  constructor; [|apply IH]; destruct (owns (at_ y)) eqn:Ho; simpl in Hs; try lia. by apply (ctx_ok_free l).
Qed.
Lemma proc_ok_free l l' c q : owners q = 0 -> proc_ok l c q -> proc_ok l' c q.
Proof.
  unfold proc_ok, owners. destruct (stack q) as [|x r]; [done|]. intros Ho (Hl & Hm & Hc & Hd). split_and!; try done.
  by apply (ctxs_ok_free l).
Qed.
(** Changing one processor. *)
Lemma inv_update s c q q' s' :
  inv s -> cpus s !! c = Some q -> shared_ok s' -> proc_ok (lk s') c q' ->
  owners q' - owners q = key (lk s') - key (lk (sh s)) ->
  (forall u, nlocks s' u - nlocks (sh s) u = counts u q' - counts u q) ->
  lk s' = lk (sh s) \/ (forall d p, d <> c -> cpus s !! d = Some p -> owners p = 0) ->
  inv (mkState s' (<[c := q']> (cpus s))).
Proof.
  intros I Hq Hs Hp Ho Hn Hother. split; simpl; [done|..].
  - rewrite (sum_insert _ _ _ q) by done. rewrite (i_owner s I). lia.
  - intros u. rewrite (sum_insert _ _ _ q), <-(i_counts s I) by done. specialize (Hn u). lia.
  - intros d p Hd. destruct (decide (d = c)) as [->|Hne].
    + rewrite list_lookup_insert_eq in Hd by (by eapply lookup_lt_Some). by injection Hd as <-.
    + rewrite list_lookup_insert_ne in Hd by done. pose proof (i_procs s I d p Hd) as Hpd.
      destruct Hother as [-> |Hother]; [done|]. apply (proc_ok_free (lk (sh s))); [by eapply Hother|done].
Qed.
(** A move that changes the point of the running context among points that count the same. *)
Lemma inv_silent s c q x r pt pcl en s' :
  inv s -> cpus s !! c = Some q -> stack q = x :: r -> shared_ok s' -> lk s' = lk (sh s) -> nlocks s' = nlocks (sh s) ->
  owns pt = owns (at_ x) -> counted pt = counted (at_ x) -> deep pt = deep (at_ x) -> masked pt = masked (at_ x) -> en = entry x ->
  ctx_ok (lk (sh s)) (up q) c (mkCtx pt pcl en) ->
  inv (mkState s' (with_top c q (mkCtx pt pcl en) r s)).
Proof.
  intros I Hq Hst Hs El En Ho Hn Hd Hm -> Hc. pose proof (i_procs s I c q Hq) as Hp. unfold proc_ok in Hp. rewrite Hst in Hp.
  destruct Hp as (Hl & Hsus & Hok & Hdep). apply Forall_cons in Hok as [_ Hok]. apply (inv_update s c q); try done.
  - unfold proc_ok. simpl. rewrite El, Hl, Hdep. unfold level. simpl. rewrite Hm, Hd. split_and!; try done. by constructor.
  - unfold owners. rewrite El, Hst. simpl. rewrite Ho. lia.
  - intros u. unfold counts. rewrite En, Hst. simpl. rewrite Hn. case_decide; lia.
  - by left.
Qed.
Lemma inv_run s c q x r pt lo' depth' s' :
  inv s -> cpus s !! c = Some q -> stack q = x :: r ->
  advance c (up q) (lo q) (ilockdepth q) x (sh s) = (pt, lo', depth', s') ->
  inv (mkState s' (<[c := mkProc (up q) lo' depth' (mkCtx pt (caller x) (entry x) :: r)]> (cpus s))).
Proof.
  intros I Hq Hst E. pose proof (i_procs s I c q Hq) as Hp. unfold proc_ok in Hp. rewrite Hst in Hp.
  destruct Hp as (Hl & Hsus & Hok & Hdep). apply Forall_cons in Hok as [Hx Hok].
  pose proof (i_owner s I) as Hsum. pose proof (i_shared s I) as Hs. pose proof (s_key _ Hs) as Hkey.
  pose proof (sum_le owners (cpus s) c q owners_nonneg Hq) as Hle.
  assert (owners q = z_of (owns (at_ x)) + sum (fun y => z_of (owns (at_ y))) r) as Ho by (unfold owners; by rewrite Hst).
  pose proof (sum_nonneg (fun y => z_of (owns (at_ y))) r (fun y => z_of_nonneg _)) as Hr.
  assert (can_step c (up q) x (lo q) (sh s)) as C.
  { split; try done.
    - intros Hox. rewrite Hox in Ho. simpl in Ho. lia.
    - intros u Hu. rewrite (i_counts s I). pose proof (sum_le (counts u) (cpus s) c q (counts_nonneg u) Hq) as Hcle.
      unfold counts in Hcle at 1. rewrite decide_True in Hcle by done. rewrite Hst in Hcle. simpl in Hcle.
      pose proof (sum_nonneg (fun y => z_of (counted (at_ y))) r (fun y => z_of_nonneg _)). lia. }
  destruct (advance_ok _ _ _ _ _ _ _ _ _ _ C E) as [Gs Gc Gl Gk Gsame Gn Gd].
  assert (lk s' = lk (sh s) \/ owns (at_ x) = true \/ key (lk (sh s)) = 0) as Hfree.
  { destruct (owns (at_ x)); [by right; left|]. destruct (Gsame eq_refl); [by left|by right; right]. }
  apply (inv_update s c q); try done.
  - unfold proc_ok. simpl. rewrite Hdep in Gd. simpl in Gd. split_and!; [done|done| |lia]. constructor; [done|].
    destruct Hfree as [-> |Hfree]; [done|]. apply (ctxs_ok_free (lk (sh s))); [|done].
    destruct Hfree as [Hf|Hf]; [rewrite Hf in Ho; simpl in Ho|]; lia || (pose proof (z_of_nonneg (owns (at_ x))); lia).
  - unfold owners. rewrite Hst. simpl. lia.
  - intros u. rewrite Gn. unfold counts. rewrite Hst. simpl. case_decide; lia.
  - destruct Hfree as [Hf|Hfree]; [by left|right]. intros d p Hne Hd.
    pose proof (sum_two owners (cpus s) c d q p owners_nonneg (not_eq_sym Hne) Hq Hd). pose proof (owners_nonneg p).
    pose proof (z_of_nonneg (owns (at_ x))). destruct Hfree as [Hf|Hf]; [rewrite Hf in Ho; simpl in Ho|]; lia.
Qed.
Lemma is_idle_ok pt : is_idle pt = true -> pt = Idle.
Proof. by destruct pt. Qed.
Lemma inv_act m s s' : inv s -> act m s = Some s' -> inv s'.
Proof.
  intros I. unfold act. set (c := match m with Call c _ _ | Release c | Run c | Interrupt c | Return c | Spl c _ => c end).
  destruct (cpus s !! c) as [q|] eqn:Hq; [|done]. destruct (stack q) as [|x r] eqn:Hst; [done|].
  pose proof (i_procs s I c q Hq) as Hp. unfold proc_ok in Hp. rewrite Hst in Hp. destruct Hp as (Hl & Hsus & Hok & Hdep).
  pose proof (i_shared s I) as Hs. apply Forall_cons in Hok as [Hx Hok].
  destruct m as [c' o pcl|c'|c'|c'|c'|c' b]; simpl in c; subst c.
  - destruct (is_idle (at_ x)) eqn:Hi; [|done]. apply is_idle_ok in Hi. intros [= <-].
    destruct o; apply (inv_silent _ _ _ x); try done; rewrite ?Hi; try done; destruct Hs; by split.
  - destruct (at_ x) as [|md| | | | | | | | | | | | | | | | | |] eqn:Ex; try done. intros [= <-].
    unfold ctx_ok in Hx. rewrite Ex in Hx. apply (inv_silent _ _ _ x); try done; rewrite ?Ex; try done.
    destruct Hx as [Hm Ht]. split; [done|]. split; [done|]. apply Forall_forall. by intros k Hk.
  - destruct (advance c' (up q) (lo q) (ilockdepth q) x (sh s)) as [[[pt lo'] depth] sh'] eqn:E. intros [= <-]. by eapply inv_run.
  - destruct (lo q) eqn:Elo; [|done]. intros [= <-]. apply (inv_update s c' q); try done; [..|by left].
    + unfold proc_ok. simpl. split_and!; [done|by constructor|by repeat constructor|]. simpl in Hdep. lia.
    + unfold owners. rewrite Hst. simpl. lia.
    + intros u. unfold counts. rewrite Hst. simpl. case_decide; lia.
  - destruct r as [|y r]; [done|]. destruct (is_idle (at_ x)) eqn:Hi; [|done]. apply is_idle_ok in Hi. intros [= <-].
    apply Forall_cons in Hsus as [Hy Hsus]. apply (inv_update s c' q); try done; [..|by left].
    + unfold proc_ok. simpl. split_and!; [done|done|done|]. rewrite Hdep. simpl. by rewrite Hi.
    + unfold owners. rewrite Hst. simpl. rewrite Hi. simpl. lia.
    + intros u. unfold counts. rewrite Hst. simpl. rewrite Hi. simpl. case_decide; lia.
  - destruct r as [|y r]; [|done]. destruct (is_idle (at_ x)) eqn:Hi; [|done]. apply is_idle_ok in Hi. intros [= <-].
    apply (inv_update s c' q); try done; [..|by left].
    + unfold proc_ok. simpl. split_and!; [done|done|by repeat constructor|]. rewrite Hdep. simpl. by rewrite Hi.
    + unfold owners. rewrite Hst. simpl. rewrite Hi. simpl. lia.
    + intros u. unfold counts. rewrite Hst. simpl. rewrite Hi. simpl. case_decide; lia.
Qed.
Lemma sum_all_zero {A} (f : A -> Z) l : (forall c q, l !! c = Some q -> f q = 0) -> sum f l = 0.
Proof.
  induction l as [|x l IH]; intros H; simpl; [done|]. rewrite (H 0%nat x) by done. rewrite IH; [done|]. intros c q Hq. by apply (H (S c)).
Qed.
Lemma inv_initial s : initial s -> inv s.
Proof.
  intros [Hs Hc]. split; rewrite ?Hs; simpl.
  - split; simpl; auto.
  - apply sum_all_zero. intros c q Hq. destruct (Hc c q Hq) as [_ Hst]. unfold owners. by rewrite Hst.
  - intros u. symmetry. apply sum_all_zero. intros c q Hq. destruct (Hc c q Hq) as [_ Hst]. unfold counts. rewrite Hst. simpl. by case_decide.
  - intros c q Hq. destruct (Hc c q Hq) as [Hd Hst]. unfold proc_ok. rewrite Hst. split_and!; try done. by repeat constructor.
Qed.
Lemma reachable_inv s : reachable s -> inv s.
Proof. induction 1 as [s Hi|m s s' _ IH Ha]; [by apply inv_initial|by eapply inv_act]. Qed.

(** ** Mutual exclusion *)

(** The [i]th context of the processor [c], the running one first, and those that hold the lock. *)
Definition context_at (s : state) (c i : nat) (q : processor) (x : context) : Prop := cpus s !! c = Some q /\ stack q !! i = Some x.
Definition owner (s : state) (c i : nat) : Prop := exists q x, context_at s c i q x /\ owns (at_ x) = true.

Lemma holder_unique s c i d j : inv s -> owner s c i -> owner s d j -> c = d /\ i = j.
Proof.
  intros I (q & x & [Hq Hx] & Ho) (q' & x' & [Hq' Hx'] & Ho'). pose proof (i_owner s I) as Hsum. pose proof (s_key _ (i_shared s I)).
  assert (forall q i x, stack q !! i = Some x -> owns (at_ x) = true -> 1 <= owners q) as Hone.
  { intros q0 i0 x0 Hx0 Ho0. pose proof (sum_le (fun y => z_of (owns (at_ y))) (stack q0) i0 x0 (fun y => z_of_nonneg _) Hx0) as Hle.
    simpl in Hle. by rewrite Ho0 in Hle. }
  pose proof (Hone q i x Hx Ho). pose proof (Hone q' j x' Hx' Ho').
  destruct (decide (c = d)) as [<-|Hne].
  - assert (q' = q) as -> by congruence. split; [done|]. destruct (decide (i = j)) as [|Hij]; [done|]. exfalso.
    pose proof (sum_two (fun y => z_of (owns (at_ y))) (stack q) i j x x' (fun y => z_of_nonneg _) Hij Hx Hx') as Htwo.
    pose proof (sum_le owners (cpus s) c q owners_nonneg Hq) as Hle. simpl in Htwo. rewrite Ho, Ho' in Htwo. unfold owners in Hle at 1.
    simpl in Htwo. lia.
  - pose proof (sum_two owners (cpus s) c d q q' owners_nonneg Hne Hq Hq'). lia.
Qed.
Lemma sum_pos {A} (f : A -> Z) l : (forall x, 0 <= f x) -> 0 < sum f l -> exists c q, l !! c = Some q /\ 0 < f q.
Proof.
  intros Hf. induction l as [|x l IH]; simpl; intros H; [lia|]. destruct (decide (0 < f x)); [by exists 0%nat, x|].
  destruct IH as (c & q & Hq & Hp); [specialize (Hf x); lia|]. by exists (S c), q.
Qed.
Lemma owner_exists s : inv s -> (exists c i, owner s c i) <-> key (lk (sh s)) <> 0.
Proof.
  intros I. pose proof (i_owner s I) as Hsum. split.
  - intros (c & i & q & x & [Hq Hx] & Ho). pose proof (sum_le owners (cpus s) c q owners_nonneg Hq).
    pose proof (sum_le (fun y => z_of (owns (at_ y))) (stack q) i x (fun y => z_of_nonneg _) Hx) as Hle. simpl in Hle. rewrite Ho in Hle.
    unfold owners in *. simpl in Hle. lia.
  - intros Hk. destruct (s_key _ (i_shared s I)); [done|].
    destruct (sum_pos owners (cpus s) owners_nonneg) as (c & q & Hq & Hp); [lia|].
    destruct (sum_pos _ (stack q) (fun y => z_of_nonneg _) Hp) as (i & x & Hx & Hpx).
    exists c, i, q, x. split; [done|]. by destruct (owns (at_ x)).
Qed.
Lemma masked_top s c i q x :
  inv s -> context_at s c i q x -> masked (at_ x) = true -> i = 0%nat /\ lo q = false /\ ilockdepth q = z_of (deep (at_ x)).
Proof.
  intros I [Hq Hx] Hm. pose proof (i_procs s I c q Hq) as Hp. unfold proc_ok in Hp. destruct (stack q) as [|y r]; [done|].
  destruct Hp as (Hl & Hsus & Hok & Hdep). assert (forall z, level z = true -> masked (at_ z) = false) as Hlev
    by (intros z; unfold level; by destruct (masked (at_ z))).
  destruct i as [|i]; simpl in Hx.
  - injection Hx as ->. split; [done|]. unfold level in Hl. rewrite Hm in Hl. split; [done|]. rewrite Hdep. simpl.
    assert (sum (fun y => z_of (deep (at_ y))) r = 0) as ->; [|lia]. apply sum_all_zero. intros j z Hz.
    pose proof (Hlev z (Forall_lookup_1 _ _ _ _ Hsus Hz)) as Hz'. by destruct (at_ z) as [|[|]| | | | | | | | | | | | |? [|]|? [|]|? [|]| | |].
  - pose proof (Hlev x (Forall_lookup_1 _ _ _ _ Hsus Hx)). congruence.
Qed.

(** C15: the lock excludes.  In every state that processes and interrupt handlers reach on any number of processors,
    at most one context is between the test that took the lock and the store that releases it, and the
    key is set exactly when there is one.  The lock then names the process, the caller and the way it was taken;
    its [cpu] can be unset only after [lock].  A holder after [ilock] runs with interrupts disabled,
    is not interrupted, and the level that [iunlock] will restore is the one of its processor
    before [ilock]; outside of [ilock] and [iunlock] a context has the interrupt level it had.  The counters of locks
    held are never negative; no warning is printed and nothing panics. *)
Theorem lock_excludes s : reachable s ->
  (forall c i d j, owner s c i -> owner s d j -> c = d /\ i = j) /\
  ((exists c i, owner s c i) <-> key (lk (sh s)) <> 0) /\
  (forall c i q x m, context_at s c i q x -> at_ x = Held m ->
     taken (lk (sh s)) (up q) c (caller x) m /\
     forall y, m = Ilocked y -> y = entry x /\ i = 0%nat /\ lo q = false /\ ilockdepth q = 1) /\
  (forall c q x, context_at s c 0 q x -> masked (at_ x) = false -> lo q = entry x) /\
  (forall u, 0 <= nlocks (sh s) u) /\ printed (sh s) = [] /\ panicked (sh s) = false.
Proof.
  intros I%reachable_inv. split_and!.
  - intros c i d j. by apply holder_unique.
  - by apply owner_exists.
  - intros c i q x m [Hq Hx] Hm. pose proof (i_procs s I c q Hq) as Hp. unfold proc_ok in Hp. destruct (stack q) as [|x0 r] eqn:Hst; [done|].
    destruct Hp as (_ & _ & Hok & _). pose proof (Forall_lookup_1 _ _ _ _ Hok Hx) as Hc. unfold ctx_ok in Hc. rewrite Hm in Hc.
    destruct Hc as [He Ht]. split; [done|]. intros y ->. split; [done|].
    assert (context_at s c i q x) as Hat by (split; [done|by rewrite Hst]).
    destruct (masked_top s c i q x I Hat) as (Hi & Hlo & Hd); [by rewrite Hm|]. rewrite Hm in Hd. done.
  - intros c q x [Hq Hx] Hm. pose proof (i_procs s I c q Hq) as Hp. unfold proc_ok in Hp. destruct (stack q) as [|x0 r]; [done|].
    simpl in Hx. injection Hx as ->. destruct Hp as (Hl & _). unfold level in Hl. by rewrite Hm in Hl.
  - intros u. rewrite (i_counts s I). apply sum_nonneg. intros. apply counts_nonneg.
  - apply (i_shared s I).
  - apply (i_shared s I).
Qed.

(** ** Progress *)

Fixpoint run (c n : nat) (s : state) : option state :=
  match n with O => Some s | S n => match act (Run c) s with Some s' => run c n s' | None => None end end.
(** On its way to the lock. *)
Definition waiting (pt : point) : bool :=
  match pt with Lock_inc _ | Lock_tas _ | Lock_dec _ | Lock_spin | Ilock_hi _ | Ilock_tas _ _ | Ilock_lo _ | Ilock_spin => true | _ => false end.
Lemma run_S s c n q x r pt lo' depth' s' :
  cpus s !! c = Some q -> stack q = x :: r -> advance c (up q) (lo q) (ilockdepth q) x (sh s) = (pt, lo', depth', s') ->
  run c (S n) s = run c n (mkState s' (<[c := mkProc (up q) lo' depth' (mkCtx pt (caller x) (entry x) :: r)]> (cpus s))).
Proof. intros Hq Hst E. cbn [run]. unfold act. by rewrite Hq, Hst, E. Qed.
(** A run of one processor, whatever the others are. *)
Definition at_top (c : nat) (u : option nat) (l : bool) (d : Z) (x : context) (r : list context) (s : shared) (ps : list processor) : state :=
  mkState s (<[c := mkProc u l d (x :: r)]> ps).
Lemma at_top_S n c u l d x r s ps pt l' d' s' :
  (c < length ps)%nat -> advance c u l d x s = (pt, l', d', s') ->
  run c (S n) (at_top c u l d x r s ps) = run c n (at_top c u l' d' (mkCtx pt (caller x) (entry x)) r s' ps).
Proof.
  intros Hc E. erewrite run_S; [|by apply list_lookup_insert_eq|done|exact E]. unfold at_top. simpl. by rewrite list_insert_insert_eq.
Qed.
Lemma at_top_self s c q x r : cpus s !! c = Some q -> stack q = x :: r -> s = at_top c (up q) (lo q) (ilockdepth q) x r (sh s) (cpus s).
Proof.
  intros Hq Hst. destruct s as [s ps]. unfold at_top. simpl in *. f_equal. rewrite <-Hst. symmetry. apply list_insert_id. rewrite Hq. by destruct q.
Qed.
Lemma at_top_owner c u l d x r s ps : (c < length ps)%nat -> owns (at_ x) = true -> owner (at_top c u l d x r s ps) c 0.
Proof. intros Hc Ho. eexists _, x. split; [|done]. split; [by apply list_lookup_insert_eq|done]. Qed.

Ltac go_step := erewrite at_top_S; [|done|reflexivity]; cbn [caller entry].
Lemma waiting_acquires c u l d x r s ps :
  (c < length ps)%nat -> waiting (at_ x) = true -> key (lk s) = 0 ->
  exists n s', (n <= 4)%nat /\ run c n (at_top c u l d x r s ps) = Some s' /\ owner s' c 0.
Proof.
  intros Hc Hw Hk. destruct x as [pt pcl en].
  assert (forall again l d s, key (lk s) = 0 -> exists s', run c 1 (at_top c u l d (mkCtx (Lock_tas again) pcl en) r s ps) = Some s' /\ owner s' c 0) as Htas.
  { intros again l0 d0 s0 Hk0. erewrite at_top_S; [|done|unfold advance, tas; cbn [at_]; rewrite Hk0; reflexivity].
    eexists. split; [reflexivity|]. by apply at_top_owner. }
  assert (forall again l d s, key (lk s) = 0 -> exists s', run c 2 (at_top c u l d (mkCtx (Lock_inc again) pcl en) r s ps) = Some s' /\ owner s' c 0) as Hinc.
  { intros again l0 d0 s0 Hk0. go_step. apply Htas. by destruct u. }
  assert (forall l d s, key (lk s) = 0 -> exists s', run c 3 (at_top c u l d (mkCtx Lock_spin pcl en) r s ps) = Some s' /\ owner s' c 0) as Hspin.
  { intros l0 d0 s0 Hk0. erewrite at_top_S; [|done|unfold advance; cbn [at_]; rewrite Hk0; reflexivity]. by apply Hinc. }
  assert (forall y again l d s, key (lk s) = 0 -> exists s', run c 1 (at_top c u l d (mkCtx (Ilock_tas y again) pcl en) r s ps) = Some s' /\ owner s' c 0) as Hitas.
  { intros y again l0 d0 s0 Hk0. erewrite at_top_S; [|done|unfold advance, tas; cbn [at_]; rewrite Hk0; reflexivity].
    eexists. split; [reflexivity|]. by apply at_top_owner. }
  assert (forall again l d s, key (lk s) = 0 -> exists s', run c 2 (at_top c u l d (mkCtx (Ilock_hi again) pcl en) r s ps) = Some s' /\ owner s' c 0) as Hhi.
  { intros again l0 d0 s0 Hk0. go_step. by apply Hitas. }
  assert (forall l d s, key (lk s) = 0 -> exists s', run c 3 (at_top c u l d (mkCtx Ilock_spin pcl en) r s ps) = Some s' /\ owner s' c 0) as Hispin.
  { intros l0 d0 s0 Hk0. erewrite at_top_S; [|done|unfold advance; cbn [at_]; rewrite Hk0; reflexivity]. by apply Hhi. }
  destruct pt as [|m|again|again|again| |again|y again|y| | | | | | | | | | |]; try done.
  - destruct (Hinc again l d s Hk) as (s' & Hr & Ho). exists 2%nat, s'. split_and!; [lia|done|done].
  - destruct (Htas again l d s Hk) as (s' & Hr & Ho). exists 1%nat, s'. split_and!; [lia|done|done].
  - destruct (Hspin l d (stat_glare again (deccnt u s))) as (s' & Hr & Ho).
    { destruct u as [q|]; cbn [deccnt]; [destruct (_ <? 0)|]; done. }
    exists 4%nat, s'. split; [lia|]. split; [|done]. by go_step.
  - destruct (Hspin l d s Hk) as (s' & Hr & Ho). exists 3%nat, s'. split_and!; [lia|done|done].
  - destruct (Hhi again l d s Hk) as (s' & Hr & Ho). exists 2%nat, s'. split_and!; [lia|done|done].
  - destruct (Hitas y again l d s Hk) as (s' & Hr & Ho). exists 1%nat, s'. split_and!; [lia|done|done].
  - destruct (Hispin y d s Hk) as (s' & Hr & Ho). exists 4%nat, s'. split; [lia|]. split; [|done]. by go_step.
  - destruct (Hispin l d s Hk) as (s' & Hr & Ho). exists 3%nat, s'. split_and!; [lia|done|done].
Qed.
Lemma lk_printed (b : bool) k s : lk (if b then print k s else s) = lk s.
Proof. by destruct b. Qed.
Lemma lk_deccnt u s : lk (deccnt u s) = lk s.
Proof. destruct u as [q|]; [|done]. cbn [deccnt]. by destruct (_ <? 0). Qed.
Lemma releases c u l d pcl en r s ps m :
  (c < length ps)%nat ->
  exists n d' s', (n <= 8)%nat /\ key (lk s') = 0 /\
    run c n (at_top c u l d (mkCtx (Checking (checks m) m) pcl en) r s ps) =
    Some (at_top c u (match m with Plain => l | Ilocked _ => sr (lk s) end) d' (mkCtx Idle pcl en) r s' ps).
Proof.
  intros Hc. destruct m as [|y].
  - eexists 7%nat, _, _. split; [lia|]. split; [|do 7 go_step; reflexivity]. by rewrite lk_deccnt.
  - eexists 8%nat, _, _. split; [lia|]. split; [|do 8 go_step; cbn [run set_lk lk]; rewrite !lk_printed; reflexivity]. done.
Qed.

(** C32: nobody waits for ever.  In a reachable state, a context that waits for the lock, runs, and finds
    the key clear takes the lock within four of its steps, whatever its place in [lock] or [ilock].
    A running holder that releases the lock clears the key within eight steps, and has the interrupt level it had before
    it took the lock; a holder after [ilock] is the running context of its processor, so that it can. *)
Theorem lock_progress s c i q x :
  reachable s -> context_at s c i q x ->
  (i = 0%nat -> waiting (at_ x) = true -> key (lk (sh s)) = 0 -> exists n s', (n <= 4)%nat /\ run c n s = Some s' /\ owner s' c 0) /\
  (forall m, at_ x = Held m -> i = 0%nat \/ is_ilock m = true ->
     exists n s1 s2 q2 x2, (n <= 8)%nat /\ act (Release c) s = Some s1 /\ run c n s1 = Some s2 /\ key (lk (sh s2)) = 0 /\
       context_at s2 c 0 q2 x2 /\ at_ x2 = Idle /\ lo q2 = entry x).
Proof.
  intros I%reachable_inv [Hq Hx]. pose proof (lookup_lt_Some _ _ _ Hq) as Hc. split.
  - intros -> Hw Hk. destruct (stack q) as [|x0 r] eqn:Hst; [done|]. simpl in Hx. injection Hx as ->.
    rewrite (at_top_self s c q x r Hq Hst). by apply waiting_acquires.
  - intros m Hm Hi.
    assert (i = 0%nat) as ->.
    { destruct Hi as [|Hi]; [done|]. apply (masked_top s c i q x I); [done|]. by rewrite Hm. }
    pose proof (i_procs s I c q Hq) as Hp. unfold proc_ok in Hp. destruct (stack q) as [|x0 r] eqn:Hst; [done|].
    simpl in Hx. injection Hx as ->. destruct Hp as (Hl & _ & Hok & _). apply Forall_cons in Hok as [Hxok _].
    unfold ctx_ok in Hxok. rewrite Hm in Hxok. destruct Hxok as [He Ht].
    destruct (releases c (up q) (lo q) (ilockdepth q) (caller x) (entry x) r (sh s) (cpus s) m Hc) as (n & d' & s' & Hn & Hk & Hr).
    eexists n, _, _, _, _. split; [done|]. split; [unfold act; rewrite Hq, Hst, Hm; reflexivity|]. split; [exact Hr|]. split; [done|].
    split; [split; [by apply list_lookup_insert_eq|done]|]. split; [done|]. simpl. unfold level in Hl. rewrite Hm in Hl.
    destruct m as [|y]; [done|]. rewrite (k_sr _ _ _ _ _ Ht y eq_refl). exact He.
Qed.

(** ** Two processors *)

Definition idle_cpu (u : nat) : processor := mkProc (Some u) true 0 [mkCtx Idle 0 true].
Definition start : state := mkState (mkShared (mkLock 0 false false 0 None None) (fun _ => 0) 0 0 0 [] false) [idle_cpu 7; idle_cpu 8].
Fixpoint acts (l : list move) (s : state) : option state :=
  match l with [] => Some s | m :: l => match act m s with Some s' => acts l s' | None => None end end.
Lemma acts_reachable l s s' : reachable s -> acts l s = Some s' -> reachable s'.
Proof.
  revert s. induction l as [|m l IH]; intros s Hs; simpl; [by intros [= <-]|].
  destruct (act m s) as [s1|] eqn:E; [|done]. apply IH. by eapply reach_move.
Qed.
Lemma start_reachable : reachable start.
Proof. apply reach_init. split; [done|]. intros [|[|c]] q [= <-]; done. Qed.
(** Processor 0 takes the lock with [ilock] while processor 1 waits in [lock]. *)
Definition contention : list move :=
  [Call 0 Op_ilock 100; Run 0; Call 1 Op_lock 200; Run 0; Run 1; Run 1; Run 0; Run 0; Run 0; Run 0; Run 0; Run 0; Run 1].
Lemma lock_excludes_witness : exists s, acts contention start = Some s /\ owner s 0 0 /\ ~ owner s 1 0.
Proof.
  eexists. split; [vm_compute; reflexivity|]. match goal with |- owner ?s _ _ /\ _ => set (s0 := s) end.
  assert (reachable s0) as Hr by (apply (acts_reachable contention start s0 start_reachable); vm_compute; reflexivity).
  destruct (lock_excludes s0 Hr) as (Hu & _). assert (owner s0 0 0) as Ho.
  { eexists _, _. split; [split; reflexivity|reflexivity]. }
  split; [exact Ho|]. intros H1. destruct (Hu 0%nat 0%nat 1%nat 0%nat Ho H1) as [E _]. discriminate.
Defined.
Lemma lock_progress_witness : exists s, acts contention start = Some s /\
  exists n s1 s2, act (Release 0) s = Some s1 /\ run 0 n s1 = Some s2 /\ key (lk (sh s2)) = 0.
Proof.
  eexists. split; [vm_compute; reflexivity|]. match goal with |- exists n s1 s2, act _ ?s = _ /\ _ => set (s0 := s) end.
  assert (reachable s0) as Hr by (apply (acts_reachable contention start s0 start_reachable); vm_compute; reflexivity).
  destruct (lock_progress s0 0 0 (mkProc (Some 7%nat) false 1 [mkCtx (Held (Ilocked true)) 100 true]) (mkCtx (Held (Ilocked true)) 100 true) Hr)
    as [_ Hrel]; [split; reflexivity|].
  destruct (Hrel (Ilocked true) eq_refl (or_introl eq_refl)) as (n & s1 & s2 & q2 & x2 & _ & H1 & H2 & H3 & _).
  exists n, s1, s2. split; [exact H1|]. split; [exact H2|exact H3].
Defined.
(** After a wait, [lock] leaves [cpu] unset: the first path sets it, the second does not. *)
Example cpu_not_set : exists s,
  acts (contention ++ [Release 0; Run 0; Run 0; Run 0; Run 0; Run 0; Run 0; Run 1; Run 1; Run 1; Run 1; Run 1; Run 1; Run 1]) start = Some s /\
  lk (sh s) = mkLock 1 false true 200 (Some 8%nat) None /\ owner s 1 0.
Proof. eexists. split; [vm_compute; reflexivity|]. split; [reflexivity|]. eexists _, _. split; [split; reflexivity|reflexivity]. Qed.
(** Why interrupt handlers and the processes they interrupt need [ilock]: when a process holds the lock after [lock],
    a handler that calls [lock] on its processor waits for ever. *)
Definition handler_waits : list move :=
  [Call 0 Op_lock 100; Run 0; Run 0; Run 0; Run 0; Run 0; Run 0; Interrupt 0; Call 0 Op_lock 300; Run 0; Run 0; Run 0].
Example handler_deadlock : exists s, acts handler_waits start = Some s /\ forall n, run 0 n s = Some s.
Proof.
  eexists. split; [vm_compute; reflexivity|]. match goal with |- forall n, run 0 n ?s = _ => set (s0 := s) end.
  assert (act (Run 0) s0 = Some s0) as Hs by reflexivity. induction n as [|n IH]; [done|]. cbn [run]. by rewrite Hs.
Qed.
