(* ===== verification/Gcheap.v ===== *)
(** * The heap of the collectors: kernel/Byterun/gc.h, minor_gc.h, major_gc.h, memory.c, memory.h

    Here a block has its header word, its colour and its place: the
    minor heap ([young]) or the major heap.  A pointer is the name of a block and an
    offset in words from its first field, so that a pointer to an infix
    header inside a closure is [Adr b o] with [o > 0].  Every other word,
    pointers to atoms, code and C data included, is [Imm w]: it points into neither heap. A [value *] is
    a [place]: a C variable or a word of the stack ([Cell]), or a field.
    Blocks whose tag is [No_scan_tag] or more keep their data as words [Imm].

    Which free block of the major heap [alloc_shr] takes is left open: the
    new block has an unused name, the words in it are [junk], [room] tells
    whether the free list or a larger heap has place for it, [addr] gives the address that goes with a name, and
    [grows] tells whether [realloc] can enlarge the stack of grey blocks or the [ref_table].

    [gc_ok] is the invariant that the mutator keeps: a field of the major heap that points into the minor heap
    is in [ref_table].  [Modify] and [initialize] keep it. *)
From stdpp Require Import gmap list.
From S2P Require Import Prelude Mlvalues Intext.

(** ** Colours *)

Definition White : Z := Z.shiftl 0 8.
Definition Gray : Z := Z.shiftl 1 8.
Definition Blue : Z := Z.shiftl 2 8.
Definition Black : Z := Z.shiftl 3 8.
Definition Color_hd (hd : Z) : Z := Z.land hd Black.
Definition Is_white_hd (hd : Z) : bool := Color_hd hd =? White.
Definition Is_gray_hd (hd : Z) : bool := Color_hd hd =? Gray.
Definition Is_blue_hd (hd : Z) : bool := Color_hd hd =? Blue.
Definition Is_black_hd (hd : Z) : bool := Color_hd hd =? Black.
Definition Whitehd_hd (hd : Z) : Z := Z.land hd (0xffffffff - Black).
Definition Grayhd_hd (hd : Z) : Z := Z.lor (Z.land hd (0xffffffff - Black)) Gray.
Definition Blackhd_hd (hd : Z) : Z := Z.lor hd Black.
Definition Bluehd_hd (hd : Z) : Z := Z.lor (Z.land hd (0xffffffff - Black)) Blue.
Definition Make_header (wosize tag color : Z) : Z := u32 (Z.shiftl wosize 10 + color + tag).
Definition No_scan_tag : Z := 251.
(** In words, as the offsets of [Adr]. *)
Definition Infix_offset_hd (hd : Z) : Z := Wosize_hd hd.
Definition Whsize_wosize (sz : Z) : Z := sz + 1.

Definition Phase_mark : Z := 0.
Definition Phase_sweep : Z := 1.
Definition Phase_idle : Z := 2.

(** ** Words, blocks, places *)

Inductive word := Imm (w : Z) | Adr (b o : nat).
#[export] Instance word_eq_dec : EqDecision word.
Proof. solve_decision. Defined.
Record gblock := mkG { young : bool; hd : Z; fields : list word }.
Inductive place := Cell (n : nat) | In (b i : nat).
#[export] Instance place_eq_dec : EqDecision place.
Proof. solve_decision. Defined.
Abbreviation gheap := (gmap nat gblock).

(** [nitems] words of each of the [tables] are roots. *)
Record roots_block := mkRoots { nitems : nat; tables : list nat }.

(** [ref_table] is the part of the table in use, the last entry first; the sizes
    are counted in entries from its start.  [gray_vals] is a stack, its top
    first.  The minor heap is [0 .. young_end]. *)
Record gc := mkGc {
  heap : gheap;
  cells : gmap nat word;
  ref_table : list place; ref_table_size : Z; ref_table_reserve : Z; ref_table_limit : Z;
  young_ptr : Z; young_end : Z;
  gc_phase : Z; allocated_words : Z; stat_heap_size : Z;
  gray_vals : list nat; gray_vals_size : Z; heap_is_pure : bool;
  markhp : option Z; gc_sweep_hp : Z;
  force_major_slice : bool;
  global_data : word;
  extern_sp : nat; stack_high : nat;
  local_roots : list roots_block;
  global_roots : list nat;
  hook_roots : list nat }.

Definition set_heap x s := mkGc x (cells s) (ref_table s) (ref_table_size s) (ref_table_reserve s) (ref_table_limit s) (young_ptr s) (young_end s)
  (gc_phase s) (allocated_words s) (stat_heap_size s) (gray_vals s) (gray_vals_size s) (heap_is_pure s) (markhp s) (gc_sweep_hp s) (force_major_slice s)
  (global_data s) (extern_sp s) (stack_high s) (local_roots s) (global_roots s) (hook_roots s).
Definition set_cells x s := mkGc (heap s) x (ref_table s) (ref_table_size s) (ref_table_reserve s) (ref_table_limit s) (young_ptr s) (young_end s)
  (gc_phase s) (allocated_words s) (stat_heap_size s) (gray_vals s) (gray_vals_size s) (heap_is_pure s) (markhp s) (gc_sweep_hp s) (force_major_slice s)
  (global_data s) (extern_sp s) (stack_high s) (local_roots s) (global_roots s) (hook_roots s).
Definition set_refs t sz lim s := mkGc (heap s) (cells s) t sz (ref_table_reserve s) lim (young_ptr s) (young_end s)
  (gc_phase s) (allocated_words s) (stat_heap_size s) (gray_vals s) (gray_vals_size s) (heap_is_pure s) (markhp s) (gc_sweep_hp s) (force_major_slice s)
  (global_data s) (extern_sp s) (stack_high s) (local_roots s) (global_roots s) (hook_roots s).
Definition set_young_ptr x s := mkGc (heap s) (cells s) (ref_table s) (ref_table_size s) (ref_table_reserve s) (ref_table_limit s) x (young_end s)
  (gc_phase s) (allocated_words s) (stat_heap_size s) (gray_vals s) (gray_vals_size s) (heap_is_pure s) (markhp s) (gc_sweep_hp s) (force_major_slice s)
  (global_data s) (extern_sp s) (stack_high s) (local_roots s) (global_roots s) (hook_roots s).
Definition set_allocated x s := mkGc (heap s) (cells s) (ref_table s) (ref_table_size s) (ref_table_reserve s) (ref_table_limit s) (young_ptr s) (young_end s)
  (gc_phase s) x (stat_heap_size s) (gray_vals s) (gray_vals_size s) (heap_is_pure s) (markhp s) (gc_sweep_hp s) (force_major_slice s)
  (global_data s) (extern_sp s) (stack_high s) (local_roots s) (global_roots s) (hook_roots s).
Definition set_gray g sz pure s := mkGc (heap s) (cells s) (ref_table s) (ref_table_size s) (ref_table_reserve s) (ref_table_limit s) (young_ptr s) (young_end s)
  (gc_phase s) (allocated_words s) (stat_heap_size s) g sz pure (markhp s) (gc_sweep_hp s) (force_major_slice s)
  (global_data s) (extern_sp s) (stack_high s) (local_roots s) (global_roots s) (hook_roots s).
Definition urge_major_slice s := mkGc (heap s) (cells s) (ref_table s) (ref_table_size s) (ref_table_reserve s) (ref_table_limit s) (young_ptr s) (young_end s)
  (gc_phase s) (allocated_words s) (stat_heap_size s) (gray_vals s) (gray_vals_size s) (heap_is_pure s) (markhp s) (gc_sweep_hp s) true
  (global_data s) (extern_sp s) (stack_high s) (local_roots s) (global_roots s) (hook_roots s).

(** ** Access *)

Definition ref_table_threshold (s : gc) : Z := ref_table_size s.
Definition ref_table_end (s : gc) : Z := ref_table_size s + ref_table_reserve s.

Definition is_young (h : gheap) (v : word) : bool :=
  match v with Adr b _ => match h !! b with Some blk => young blk | None => false end | Imm _ => false end.
Definition Is_block_word (v : word) : bool := match v with Imm w => negb (Z.odd w) | Adr _ _ => true end.
(** Of a value. *)
Definition Is_in_heap (h : gheap) (v : word) : bool :=
  match v with Adr b _ => match h !! b with Some blk => negb (young blk) | None => false end | Imm _ => false end.
(** Of a [value *]. *)
Definition place_in_heap (h : gheap) (p : place) : bool :=
  match p with In b _ => Is_in_heap h (Adr b 0) | Cell _ => false end.
(** The header in front of the word a value points to. *)
Definition Hd_val (h : gheap) (v : word) : result Z :=
  match v with
  | Adr b o =>
      let* blk := of_ptr (h !! b) in
      match o with
      | O => Ok (hd blk)
      | S o => let* w := of_ptr (fields blk !! o) in match w with Imm x => Ok x | Adr _ _ => Fault end
      end
  | Imm _ => Fault
  end.
Definition set_Hd_val (b : nat) (x : Z) (s : gc) : result gc :=
  let* blk := of_ptr (heap s !! b) in Ok (set_heap (<[b := mkG (young blk) x (fields blk)]> (heap s)) s).
Definition deref (s : gc) (p : place) : result word :=
  match p with
  | Cell n => of_ptr (cells s !! n)
  | In b i => let* blk := of_ptr (heap s !! b) in of_ptr (fields blk !! i)
  end.
(** [*p = w] *)
Definition assign (p : place) (w : word) (s : gc) : result gc :=
  match p with
  | Cell n => let* _ := of_ptr (cells s !! n) in Ok (set_cells (<[n := w]> (cells s)) s)
  | In b i =>
      let* blk := of_ptr (heap s !! b) in
      let* _ := of_ptr (fields blk !! i) in
      Ok (set_heap (<[b := mkG (young blk) (hd blk) (<[i := w]> (fields blk))]> (heap s)) s)
  end.
(** [v - offset] and [v + offset] *)
Definition back (v : word) (offset : Z) : result word :=
  match v with
  | Adr b o => if offset <=? Z.of_nat o then Ok (Adr b (o - Z.to_nat offset)) else Fault
  | Imm _ => Fault
  end.
Definition forth (v : word) (offset : Z) : result word :=
  match v with Adr b o => Ok (Adr b (o + Z.to_nat offset)) | Imm _ => Fault end.

Fixpoint for_each {A} (f : A -> gc -> result gc) (l : list A) (s : gc) : result gc :=
  match l with [] => Ok s | x :: l => let* s := f x s in for_each f l s end.

Section Memory.
Variable junk : nat -> nat -> word.
Variable room : gc -> Z -> bool.
Variable addr : nat -> Z.
Variable grows : gc -> bool.

(** Black in the part of the heap that the current cycle has still to sweep. *)
Definition alloc_color (s : gc) (k : nat) : Z :=
  if (gc_phase s =? Phase_mark) || ((gc_phase s =? Phase_sweep) && (addr k >=? gc_sweep_hp s)) then Black else White.
(** Called by the collector, where running out of memory is a fatal error. *)
Definition alloc_shr (wosize tag : Z) (s : gc) : result (nat * gc) :=
  if room s wosize then
    let k := fresh (dom (heap s)) in
    let s := set_heap (<[k := mkG false (Make_header wosize tag (alloc_color s k)) (junk k <$> seq 0 (Z.to_nat wosize))]> (heap s)) s in
    let s := set_allocated (allocated_words s + Whsize_wosize wosize) s in
    Ok (k, if allocated_words s >? young_end s / 4 then urge_major_slice s else s)
  else Panic.

Definition realloc_gray_vals (s : gc) : gc :=
  if gray_vals_size s <? stat_heap_size s / 128 then
    if grows s then set_gray (gray_vals s) (2 * gray_vals_size s) (heap_is_pure s) s
    else set_gray [] (gray_vals_size s) false s
  else set_gray (drop (length (gray_vals s) - Z.to_nat (gray_vals_size s / 2)) (gray_vals s)) (gray_vals_size s) false s.

Definition darken (v : word) (s : gc) : result gc :=
  if Is_block_word v && Is_in_heap (heap s) v then
    let* h := Hd_val (heap s) v in
    let* v := if Tag_hd h =? Infix_tag then back v (Infix_offset_hd h) else Ok v in
    let* h := Hd_val (heap s) v in
    match v with
    | Adr b O =>
        if Is_white_hd h then
          let* s := set_Hd_val b (Grayhd_hd h) s in
          let s := set_gray (b :: gray_vals s) (gray_vals_size s) (heap_is_pure s) s in
          Ok (if Z.of_nat (length (gray_vals s)) >=? gray_vals_size s then realloc_gray_vals s else s)
        else Ok s
    | _ => Fault
    end
  else Ok s.

Definition realloc_ref_table (s : gc) : result gc :=
  if ref_table_limit s =? ref_table_threshold s then
    Ok (urge_major_slice (set_refs (ref_table s) (ref_table_size s) (ref_table_end s) s))
  else if grows s then
    let size := ref_table_size s * 2 in
    Ok (set_refs (ref_table s) size (size + ref_table_reserve s) s)
  else Panic.

(** [*ref_table_ptr++ = fp], inside the table, and the test after it. *)
Definition add_ref (fp : place) (s : gc) : result gc :=
  if Z.of_nat (length (ref_table s)) <? ref_table_end s then
    let s := set_refs (fp :: ref_table s) (ref_table_size s) (ref_table_limit s) s in
    if Z.of_nat (length (ref_table s)) >=? ref_table_limit s then realloc_ref_table s else Ok s
  else Fault.

Definition initialize (fp : place) (val : word) (s : gc) : result gc :=
  let* s := assign fp val s in
  if place_in_heap (heap s) fp && Is_block_word val && is_young (heap s) val then add_ref fp s else Ok s.

Definition Modify (fp : place) (val : word) (s : gc) : result gc :=
  let* old := deref s fp in
  let* s := assign fp val s in
  if place_in_heap (heap s) fp then
    let* s := if gc_phase s =? Phase_mark then darken old s else Ok s in
    if Is_block_word val && is_young (heap s) val && negb (Is_block_word old && is_young (heap s) old) then add_ref fp s
    else Ok s
  else Ok s.
Definition modify (fp : place) (val : word) (s : gc) : result gc := Modify fp val s.

End Memory.

(** ** Headers *)

Lemma color_bits x : Z.land x 768 = 256 * ((x / 256) mod 4).
Proof.
  replace 768 with (Z.shiftl (Z.ones 2) 8) by done.
  transitivity (Z.shiftl (Z.land (Z.shiftr x 8) (Z.ones 2)) 8).
  - apply Z.bits_inj'. intros i Hi. rewrite Z.land_spec. destruct (Z.lt_ge_cases i 8).
    + rewrite !Z.shiftl_spec_low by done. apply andb_false_r.
    + rewrite !Z.shiftl_spec, Z.land_spec, Z.shiftr_spec by lia. do 2 f_equal. lia.
  - rewrite Z.land_ones, shiftl_mul, shiftr_div by lia. change (2 ^ 2) with 4. change (2 ^ 8) with 256. lia.
Qed.
Lemma ldiff_color x : Z.ldiff x 768 = x - 256 * ((x / 256) mod 4).
Proof.
  rewrite <-color_bits. rewrite Z.sub_nocarry_ldiff.
  - apply Z.bits_inj'. intros i Hi. rewrite !Z.ldiff_spec, Z.land_spec. by destruct (Z.testbit x i), (Z.testbit 768 i).
  - apply Z.bits_inj'. intros i Hi. rewrite Z.ldiff_spec, Z.land_spec, Z.bits_0. by destruct (Z.testbit x i), (Z.testbit 768 i).
Qed.
Lemma clear_color x : is_u32 x -> Z.land x (0xffffffff - Black) = Z.ldiff x 768.
Proof.
  intros Hx. change (0xffffffff - Black) with (Z.land (2 ^ 32 - 1) (Z.lnot 768)).
  rewrite Z.land_assoc, land_mask, Z.mod_small by (lia || exact Hx). by rewrite Z.ldiff_land.
Qed.
Lemma or_disjoint a b : Z.land a b = 0 -> Z.lor a b = a + b.
Proof. intros H. by rewrite Z.add_nocarry_lxor, Z.lxor_lor by done. Qed.
Lemma set_color x c : Z.land c 768 = c -> Z.lor (Z.ldiff x 768) c = Z.ldiff x 768 + c.
Proof.
  intros Hc. apply or_disjoint. rewrite <-Hc. apply Z.bits_inj'. intros i Hi.
  rewrite !Z.land_spec, Z.ldiff_spec, Z.bits_0. by destruct (Z.testbit x i), (Z.testbit 768 i), (Z.testbit c i).
Qed.

Definition a_color (c : Z) : Prop := c = White \/ c = Gray \/ c = Blue \/ c = Black.
Definition header_parts (n t : Z) : Prop := 0 <= n <= Max_wosize /\ 0 <= t < 256.
Lemma color_cases c : a_color c -> c = 0 \/ c = 256 \/ c = 512 \/ c = 768.
Proof. by unfold a_color. Qed.
Lemma Make_header_eq n t c : header_parts n t -> a_color c -> Make_header n t c = 1024 * n + c + t.
Proof.
  unfold header_parts, Max_wosize. intros [Hn Ht] Hc%color_cases. unfold Make_header. rewrite shiftl_mul by lia.
  change (2 ^ 10) with 1024. rewrite u32_small by (unfold is_u32; lia). lia.
Qed.
Lemma Tag_header n t c : header_parts n t -> a_color c -> Tag_hd (Make_header n t c) = t.
Proof.
  intros Hp Hc. rewrite Make_header_eq by done. apply color_cases in Hc. destruct Hp as [? ?]. unfold Tag_hd. change 0xFF with (2 ^ 8 - 1). rewrite land_mask by lia.
  change (2 ^ 8) with 256. zlia.
Qed.
Lemma Wosize_header n t c : header_parts n t -> a_color c -> Wosize_hd (Make_header n t c) = n.
Proof.
  intros Hp Hc. rewrite Make_header_eq by done. apply color_cases in Hc. destruct Hp as [? ?]. unfold Wosize_hd. rewrite shiftr_div by lia.
  change (2 ^ 10) with 1024. zlia.
Qed.
Lemma Color_header n t c : header_parts n t -> a_color c -> Color_hd (Make_header n t c) = c.
Proof.
  intros Hp Hc. rewrite Make_header_eq by done. apply color_cases in Hc. destruct Hp as [? ?]. unfold Color_hd.
  change Black with 768. rewrite color_bits. zlia.
Qed.
Lemma ldiff_header n t c : header_parts n t -> a_color c -> Z.ldiff (Make_header n t c) 768 = 1024 * n + t.
Proof.
  intros Hp Hc. rewrite Make_header_eq by done. apply color_cases in Hc. destruct Hp as [? ?]. rewrite ldiff_color. zlia.
Qed.
Lemma recolor n t c c' : header_parts n t -> a_color c -> a_color c' ->
  Z.lor (Z.land (Make_header n t c) (0xffffffff - Black)) c' = Make_header n t c'.
Proof.
  intros Hp Hc Hc'. rewrite clear_color by apply u32_range. rewrite set_color.
  - rewrite ldiff_header, Make_header_eq by done. lia.
  - apply color_cases in Hc'. by destruct Hc' as [ -> |[ -> |[ -> | -> ]]].
Qed.
Lemma Grayhd_header n t c : header_parts n t -> a_color c -> Grayhd_hd (Make_header n t c) = Make_header n t Gray.
Proof. intros Hp Hc. apply recolor; [done..|]. by right; left. Qed.
Lemma Bluehd_header n t c : header_parts n t -> a_color c -> Bluehd_hd (Make_header n t c) = Make_header n t Blue.
Proof. intros Hp Hc. apply recolor; [done..|]. by right; right; left. Qed.
Lemma Whitehd_header n t c : header_parts n t -> a_color c -> Whitehd_hd (Make_header n t c) = Make_header n t White.
Proof.
  intros Hp Hc. rewrite <-(recolor n t c White) by (done || by left). unfold Whitehd_hd. by rewrite Z.lor_0_r.
Qed.
Lemma Blackhd_header n t c : header_parts n t -> a_color c -> Blackhd_hd (Make_header n t c) = Make_header n t Black.
Proof.
  intros Hp Hc. rewrite <-(recolor n t c Black) by (done || by right; right; right). unfold Blackhd_hd.
  rewrite clear_color by apply u32_range. apply Z.bits_inj'. intros i Hi. rewrite !Z.lor_spec, Z.ldiff_spec.
  change Black with 768. by destruct (Z.testbit (Make_header n t c) i), (Z.testbit 768 i).
Qed.

(** ** The invariant of the mutator *)

Definition btag (blk : gblock) : Z := Tag_hd (hd blk).
Definition header_ok (blk : gblock) : Prop := exists t c,
  hd blk = Make_header (Z.of_nat (length (fields blk))) t c /\ header_parts (Z.of_nat (length (fields blk))) t /\
  a_color c /\ c <> Blue /\ t <> Infix_tag.
(** Word [o] of a closure follows an infix header that gives its offset. *)
Definition infix_at (blk : gblock) (o : nat) : Prop :=
  (2 <= o)%nat /\ btag blk = Closure_tag /\
  exists x, fields blk !! (o - 1)%nat = Some (Imm x) /\ Tag_hd x = Infix_tag /\ Wosize_hd x = Z.of_nat o /\ Is_blue_hd x = false.
Definition word_ok (h : gheap) (w : word) : Prop :=
  match w with Imm _ => True | Adr b o => exists blk, h !! b = Some blk /\ (o = O \/ infix_at blk o) end.
(** The collectors look for pointers in this place. *)
Definition scans (h : gheap) (p : place) : bool :=
  match p with Cell _ => true | In b _ => match h !! b with Some blk => btag blk <? No_scan_tag | None => false end end.
Definition content_ok (h : gheap) (p : place) (w : word) : Prop :=
  if scans h p then word_ok h w else exists x, w = Imm x.

(** The cells that hold roots, in the order of [oldify_local_roots]. *)
Definition stack_roots (s : gc) : list nat := seq (extern_sp s) (stack_high s - extern_sp s).
Definition table_roots (lr : roots_block) : list nat := t ← tables lr; seq t (nitems lr).
Definition root_lists (s : gc) := (stack_roots s, local_roots s, global_roots s, hook_roots s).
Definition roots (s : gc) : list nat :=
  let '(st, lr, gr, hook) := root_lists s in st ++ (lr ≫= table_roots) ++ gr ++ hook.

(** [raw] are the fields of new blocks that the program has not filled yet,
    and cells that are not roots. *)
Definition dead (s : gc) (p : place) : Prop := match p with Cell n => n ∉ roots s | In _ _ => False end.
Record gc_ok (s : gc) (raw : place -> Prop) : Prop := {
  ok_block b blk : heap s !! b = Some blk -> header_ok blk /\ (young blk = true -> fields blk <> []);
  ok_word p w : deref s p = Ok w -> ~ raw p -> content_ok (heap s) p w;
  ok_young p w : deref s p = Ok w -> ~ raw p -> place_in_heap (heap s) p = true -> is_young (heap s) w = true -> p ∈ ref_table s;
  ok_refs p : p ∈ ref_table s -> place_in_heap (heap s) p = true /\ scans (heap s) p = true /\ exists w, deref s p = Ok w;
  ok_roots n : n ∈ roots s -> is_Some (cells s !! n);
  ok_global : word_ok (heap s) (global_data s) /\ is_young (heap s) (global_data s) = false;
  ok_cells n : n ∈ roots s -> ~ raw (Cell n);
  ok_sizes : 0 < ref_table_size s /\ 0 < ref_table_reserve s /\
    (ref_table_limit s = ref_table_threshold s \/ ref_table_limit s = ref_table_end s);
  ok_table : Z.of_nat (length (ref_table s)) < ref_table_limit s;
  ok_gray : Z.of_nat (length (gray_vals s)) < gray_vals_size s /\ 2 <= gray_vals_size s;
  ok_grays b : b ∈ gray_vals s -> Is_in_heap (heap s) (Adr b 0) = true }.

(** ** Heaps of the same shape *)

(** Two heaps that have the same blocks, tags and infix headers. *)
Definition same_block (x y : gblock) : Prop :=
  young x = young y /\ btag x = btag y /\ length (fields x) = length (fields y) /\
  (btag x = Closure_tag -> fields x = fields y) /\ (header_ok x -> header_ok y).
Definition same_shape (h h' : gheap) : Prop := forall b,
  match h !! b, h' !! b with Some x, Some y => same_block x y | None, None => True | _, _ => False end.

Lemma same_block_refl x : same_block x x.
Proof. by repeat split. Qed.
Lemma shape_insert h b blk blk' : h !! b = Some blk -> same_block blk blk' -> same_shape h (<[b := blk']> h).
Proof.
  intros Hb Hs c. destruct (decide (b = c)) as [<-|].
  - rewrite Hb, lookup_insert_eq. done.
  - rewrite lookup_insert_ne by done. destruct (h !! c); [apply same_block_refl|done].
Qed.
Lemma shape_refl h : same_shape h h.
Proof. intros b. destruct (h !! b); [apply same_block_refl|done]. Qed.

Section shape.
Variables (h h' : gheap).
Hypothesis Hs : same_shape h h'.

Lemma shape_young w : is_young h' w = is_young h w.
Proof.
  destruct w as [|b o]; simpl; [done|]. specialize (Hs b). destruct (h !! b), (h' !! b); try done. symmetry. apply Hs.
Qed.
Lemma shape_in_heap w : Is_in_heap h' w = Is_in_heap h w.
Proof.
  destruct w as [|b o]; simpl; [done|]. specialize (Hs b). destruct (h !! b), (h' !! b); try done.
  destruct Hs as (-> & _). done.
Qed.
Lemma shape_place p : place_in_heap h' p = place_in_heap h p.
Proof. destruct p; [done|]. apply shape_in_heap. Qed.
Lemma shape_scans p : scans h' p = scans h p.
Proof.
  destruct p as [|b i]; simpl; [done|]. specialize (Hs b). destruct (h !! b), (h' !! b); try done.
  destruct Hs as (_ & -> & _). done.
Qed.
Lemma shape_word w : word_ok h w -> word_ok h' w.
Proof.
  destruct w as [|b o]; simpl; [done|]. intros (blk & Hb & Ho). specialize (Hs b). rewrite Hb in Hs.
  destruct (h' !! b) as [blk'|]; [|done]. exists blk'. split; [done|]. destruct Ho as [|(? & Ht & Hx)]; [by left|right].
  destruct Hs as (_ & Ht' & _ & Hf & _). split; [done|]. rewrite <-Ht', <-(Hf Ht). by split.
Qed.
Lemma shape_content p w : content_ok h p w -> content_ok h' p w.
Proof. unfold content_ok. rewrite shape_scans. destruct (scans h p); [apply shape_word|done]. Qed.
End shape.

(** Changing the colour of a block. *)
Lemma recolor_block blk c : header_ok blk -> a_color c -> c <> Blue ->
  same_block blk (mkG (young blk) (Make_header (Z.of_nat (length (fields blk))) (btag blk) c) (fields blk)).
Proof.
  intros (t & c0 & Hh & Hp & Hc0 & Hb & Ht) Hc Hn. unfold same_block, btag. simpl. rewrite Hh, !Tag_header by done.
  repeat split. intros _. exists t, c. simpl. by repeat split; try apply Hp.
Qed.
(** Storing into a field of a block that is not a closure. *)
Lemma store_block blk i w : btag blk <> Closure_tag -> same_block blk (mkG (young blk) (hd blk) (<[i := w]> (fields blk))).
Proof.
  intros Ht. unfold same_block, btag, header_ok in *. simpl. rewrite length_insert. by repeat split.
Qed.

(** ** Reading and writing places *)

Lemma for_each_cons {A} (f : A -> gc -> result gc) x l s : for_each f (x :: l) s = let* s := f x s in for_each f l s.
Proof. done. Qed.
Lemma assign_some p v w s : deref s p = Ok v -> exists s', assign p w s = Ok s'.
Proof.
  destruct p as [n|b i]; simpl.
  - destruct (cells s !! n); [by eexists|done].
  - destruct (heap s !! b) as [blk|]; simpl; [|done]. destruct (fields blk !! i); [by eexists|done].
Qed.
Lemma deref_assign p q w s s' : assign p w s = Ok s' -> deref s' q = if decide (q = p) then Ok w else deref s q.
Proof.
  destruct p as [n|b i]; simpl; intros H; inv_ok H; destruct q as [m|c j]; case_decide as Hd; simpl; try congruence.
  - injection Hd as ->. by rewrite lookup_insert_eq.
  - rewrite lookup_insert_ne; [done|]. congruence.
  - injection Hd as -> ->. rewrite lookup_insert_eq. simpl. rewrite list_lookup_insert_eq; [done|].
    by eapply lookup_lt_Some.
  - destruct (decide (b = c)) as [<-|].
    + rewrite lookup_insert_eq. simpl. rewrite list_lookup_insert_ne by congruence.
      by match goal with H : heap s !! b = _ |- _ => rewrite H end.
    + by rewrite lookup_insert_ne.
Qed.
(** What a store leaves alone. *)
Lemma assign_rest p w s s' : assign p w s = Ok s' ->
  ref_table s' = ref_table s /\ ref_table_size s' = ref_table_size s /\ ref_table_reserve s' = ref_table_reserve s /\
  ref_table_limit s' = ref_table_limit s /\ gc_phase s' = gc_phase s /\ gray_vals s' = gray_vals s /\
  gray_vals_size s' = gray_vals_size s /\ root_lists s' = root_lists s /\ (forall n, is_Some (cells s !! n) -> is_Some (cells s' !! n)) /\
  gc_sweep_hp s' = gc_sweep_hp s /\ heap_is_pure s' = heap_is_pure s /\ markhp s' = markhp s /\ global_data s' = global_data s.
Proof.
  destruct p as [n|b i]; simpl; intros H; inv_ok H; repeat split; try done.
  intros m. destruct (decide (n = m)) as [<-|]; simpl; [by rewrite lookup_insert_eq|by rewrite lookup_insert_ne].
Qed.
Definition writable (h : gheap) (p : place) : Prop :=
  scans h p = true /\ match p with Cell _ => True | In b _ => forall blk, h !! b = Some blk -> btag blk <> Closure_tag end.
Lemma assign_shape p w s s' : assign p w s = Ok s' -> writable (heap s) p -> same_shape (heap s) (heap s').
Proof.
  intros H [_ Hw]. destruct p as [n|b i]; simpl in H; inv_ok H; [apply shape_refl|].
  simpl. eapply shape_insert; [done|]. apply store_block. by apply Hw.
Qed.

Lemma get_header h blk b : h !! b = Some blk -> header_ok blk -> Hd_val h (Adr b 0) = Ok (hd blk).
Proof. intros Hb _. simpl. by rewrite Hb. Qed.
(** The header in front of a pointer is the block's own, or one that leads back to the block. *)
Lemma header_at h b o : word_ok h (Adr b o) -> (forall blk, h !! b = Some blk -> header_ok blk) -> exists blk x,
  h !! b = Some blk /\ Hd_val h (Adr b o) = Ok x /\ Is_blue_hd x = false /\
  (o = O /\ x = hd blk /\ Tag_hd x <> Infix_tag \/
   (0 < o)%nat /\ Tag_hd x = Infix_tag /\ back (Adr b o) (Infix_offset_hd x) = Ok (Adr b 0) /\ infix_at blk o /\ Z.of_nat o = Infix_offset_hd x).
Proof.
  intros (blk & Hb & Ho) Hh. specialize (Hh _ Hb). exists blk.
  destruct Ho as [->|(Ho & Ht & x & Hx & Hi & Hs & Hw)].
  - exists (hd blk). simpl. rewrite Hb. destruct Hh as (t & c & Hh & Hp & Hc & Hn & Ht).
    rewrite Hh. unfold Is_blue_hd. rewrite Color_header, Tag_header by done.
    split_and!; [done|by simpl; rewrite Hh|by apply Z.eqb_neq|by left].
  - exists x. destruct o as [|o]; [lia|]. simpl. rewrite Hb. simpl. replace (S o - 1)%nat with o in Hx by lia.
    rewrite Hx. simpl. split_and!; [done|done|done|]. right. unfold Infix_offset_hd. rewrite Hs.
    rewrite (proj2 (Z.leb_le _ _)) by lia. rewrite Nat2Z.id. replace (S o - S o)%nat with O by lia.
    split_and!; [lia|done|done| |done]. split_and!; [done|done|]. exists x. by replace (S o - 1)%nat with o by lia.
Qed.

(** ** The write barrier *)

Definition also (raw : place -> Prop) (p q : place) : Prop := raw q \/ q = p.
Lemma gc_ok_fill s raw p w : gc_ok s (also raw p) -> deref s p = Ok w -> ~ raw p -> content_ok (heap s) p w ->
  (place_in_heap (heap s) p = true -> is_young (heap s) w = true -> p ∈ ref_table s) -> gc_ok s raw.
Proof.
  intros H Hp Hr Hw Hy. destruct H. split; try done.
  - intros q v Hq Hn. destruct (decide (q = p)) as [->|]; [by assert (v = w) as -> by congruence|]. apply ok_word0; [done|]. by intros [?|?].
  - intros q v Hq Hn. destruct (decide (q = p)) as [->|]; [by assert (v = w) as -> by congruence|]. apply ok_young0; [done|]. by intros [?|?].
  - intros n Hn Hr'. eapply ok_cells0; [done|by left].
Qed.
(** A store into a field that [raw] exempts. *)
Lemma assign_keeps s raw b i w s' : gc_ok s raw -> writable (heap s) (In b i) -> assign (In b i) w s = Ok s' -> gc_ok s' (also raw (In b i)).
Proof.
  intros Hok Hw Ha. pose proof (assign_shape _ _ _ _ Ha Hw) as Hs.
  pose proof (fun q => deref_assign _ q _ _ _ Ha) as Hd.
  assert (forall q v, ~ also raw (In b i) q -> deref s' q = Ok v -> deref s q = Ok v) as Hold.
  { intros q v Hq. rewrite Hd. case_decide; [|done]. destruct Hq. by right. }
  destruct (assign_rest _ _ _ _ Ha) as (Hr & Hrs & Hrr & Hrl & Hph & Hg & Hgs & Hro & Hc & _ & _ & _ & Hgl). destruct Hok.
  assert (forall q, ~ also raw (In b i) q -> ~ raw q) as Hraw by (intros q Hq Hr'; apply Hq; by left).
  split.
  - intros c z Hz. simpl in Ha. inv_ok Ha. simpl in Hz. destruct (decide (b = c)) as [<-|].
    + rewrite lookup_insert_eq in Hz. injection Hz as <-. simpl. destruct (ok_block0 b a ltac:(done)) as [Hh Hy].
      split; [|by destruct (fields a), i]. unfold header_ok. simpl. by rewrite length_insert.
    + rewrite lookup_insert_ne in Hz by done. by eapply ok_block0.
  - intros q v Hq Hn. eapply shape_content; [done|]. by eauto.
  - intros q v Hq Hn. rewrite (shape_place _ _ Hs), (shape_young _ _ Hs), Hr. by eauto.
  - intros q. rewrite Hr. intros (? & ? & v & ?)%ok_refs0. rewrite (shape_place _ _ Hs), (shape_scans _ _ Hs), Hd.
    split_and!; try done. case_decide; by eexists.
  - intros n. unfold roots. rewrite Hro. intros ?%ok_roots0. by apply Hc.
  - rewrite Hgl, (shape_young _ _ Hs). destruct ok_global0. split; [by eapply shape_word|done].
  - intros n Hn [Hr'|Hr']; [|done]. unfold roots in Hn. rewrite Hro in Hn. by eapply ok_cells0.
  - unfold ref_table_threshold, ref_table_end. by rewrite Hrs, Hrr, Hrl.
  - by rewrite Hr, Hrl.
  - by rewrite Hg, Hgs.
  - intros c. rewrite Hg, (shape_in_heap _ _ Hs). apply ok_grays0.
Qed.

Section barrier.
Variable grows : gc -> bool.

Lemma recolor_keeps s raw b blk c : gc_ok s raw -> heap s !! b = Some blk -> a_color c -> c <> Blue ->
  let s' := set_heap (<[b := mkG (young blk) (Make_header (Z.of_nat (length (fields blk))) (btag blk) c) (fields blk)]> (heap s)) s in
  gc_ok s' raw /\ (forall q, deref s' q = deref s q) /\ same_shape (heap s) (heap s').
Proof.
  intros Hok Hb Hc Hn s'. destruct Hok. destruct (ok_block0 _ _ Hb) as [Hh Hy].
  pose proof (recolor_block blk c Hh Hc Hn) as Hbl. pose proof (shape_insert _ _ _ _ Hb Hbl) as Hs.
  assert (forall q, deref s' q = deref s q) as Hd.
  { intros [n|d i]; [done|]. simpl. destruct (decide (b = d)) as [<-|]; [by rewrite lookup_insert_eq, Hb|by rewrite lookup_insert_ne]. }
  split_and!; [|done|done]. split; try done.
  - intros d blk'. simpl. destruct (decide (b = d)) as [<-|]; [|rewrite lookup_insert_ne by done; apply ok_block0].
    rewrite lookup_insert_eq. intros [= <-]. split; [|done]. by apply Hbl.
  - intros q v. rewrite Hd. intros Hq Hr. eapply shape_content; [done|]. by eauto.
  - intros q v. rewrite Hd, (shape_place _ _ Hs), (shape_young _ _ Hs). apply ok_young0.
  - intros q Hq. rewrite Hd, (shape_place _ _ Hs), (shape_scans _ _ Hs). by apply ok_refs0.
  - rewrite (shape_young _ _ Hs). destruct ok_global0. split; [by eapply shape_word|done].
  - intros d. rewrite (shape_in_heap _ _ Hs). apply ok_grays0.
Qed.
(** The stack of grey blocks. *)
Lemma push_gray_keeps s raw b : gc_ok s raw -> Is_in_heap (heap s) (Adr b 0) = true ->
  let s1 := set_gray (b :: gray_vals s) (gray_vals_size s) (heap_is_pure s) s in
  let s' := if Z.of_nat (length (gray_vals s1)) >=? gray_vals_size s1 then realloc_gray_vals grows s1 else s1 in
  gc_ok s' raw /\ heap s' = heap s /\ cells s' = cells s /\ ref_table s' = ref_table s.
Proof.
  intros Hok Hb s1 s'. 
  assert (forall g sz pure, Z.of_nat (length g) < sz -> 2 <= sz -> (forall c, c ∈ g -> c ∈ b :: gray_vals s) ->
    gc_ok (set_gray g sz pure s) raw) as Hset.
  { intros g sz pure Hl Hsz Hg. destruct Hok. split; try done.
    simpl. intros c Hc%Hg. apply elem_of_cons in Hc as [->|Hc]; [done|by apply ok_grays0]. }
  destruct Hok. destruct ok_gray0 as [Hl Hsz]. subst s1 s'. simpl.
  rewrite Z.geb_leb. destruct (Z.leb_spec (gray_vals_size s) (Z.of_nat (S (length (gray_vals s))))).
  - unfold realloc_gray_vals. simpl. destruct (_ <? _); [destruct (grows _)|]; split_and!; try done; apply Hset; simpl; try lia; try done.
    + set_solver.
    + rewrite length_drop. simpl. zlia.
    + intros c Hc. apply list_elem_of_lookup in Hc as [i Hc]. rewrite lookup_drop in Hc. by eapply list_elem_of_lookup_2.
  - split_and!; try done. apply Hset; simpl; [lia..|done].
Qed.
Lemma darken_keeps s raw v : gc_ok s raw -> word_ok (heap s) v -> exists s', darken grows v s = Ok s' /\ gc_ok s' raw /\
  (forall q, deref s' q = deref s q) /\ same_shape (heap s) (heap s') /\ ref_table s' = ref_table s.
Proof.
  intros Hok Hv. unfold darken. destruct (Is_block_word v && Is_in_heap (heap s) v) eqn:E;
    [|exists s; split_and!; try done; apply shape_refl].
  apply andb_prop in E as [_ E]. destruct v as [|b o]; [done|]. simpl in E.
  destruct (heap s !! b) as [blk|] eqn:Hb; [|done].
  destruct (ok_block _ _ Hok _ _ Hb) as [Hh _].
  destruct (header_at _ _ _ Hv) as (blk' & x & Hb' & Hx & _ & Hi); [by intros ? ?; simplify_eq|]. simplify_eq.
  rewrite Hx. cbn [rbind]. 
  assert ((if Tag_hd x =? Infix_tag then back (Adr b o) (Infix_offset_hd x) else Ok (Adr b o)) = Ok (Adr b 0)) as ->.
  { destruct Hi as [(-> & _ & Ht)|(_ & -> & -> & _)]; [|done]. by destruct (Z.eqb_spec (Tag_hd x) Infix_tag). }
  cbn [rbind]. rewrite (get_header _ _ _ Hb Hh). cbn [rbind].
  destruct (Is_white_hd (hd blk)) eqn:Hw; [|exists s; split_and!; try done; apply shape_refl].
  unfold set_Hd_val. rewrite Hb. cbn [of_ptr rbind].
  pose proof Hh as (t & c & Hhd & Hp & Hc & Hn & Ht).
  rewrite Hhd, Grayhd_header by done.
  destruct (recolor_keeps s raw b blk Gray Hok Hb) as (Hok1 & Hd1 & Hs1); [by right; left|done|].
  replace (btag blk) with t in * by (unfold btag; by rewrite Hhd, Tag_header).
  edestruct (push_gray_keeps _ raw b Hok1) as (Hok2 & Hh2 & Hc2 & Hr2).
  { rewrite (shape_in_heap _ _ Hs1). simpl. by rewrite Hb. }
  eexists. split; [reflexivity|]. split_and!.
  - exact Hok2.
  - intros q. rewrite <-Hd1. destruct q; simpl in *; [by rewrite Hc2|by rewrite Hh2].
  - rewrite Hh2. exact Hs1.
  - exact Hr2.
Qed.

Lemma add_ref_keeps s raw p w : gc_ok s raw -> place_in_heap (heap s) p = true -> scans (heap s) p = true -> deref s p = Ok w ->
  match add_ref grows p s with
  | Ok s' => gc_ok s' raw /\ heap s' = heap s /\ cells s' = cells s /\ p ∈ ref_table s'
  | Panic => exists t, grows t = false
  | _ => False
  end.
Proof.
  intros Hok Hp Hsc Hw.
  assert (forall sz lim, 0 < sz -> (lim = sz \/ lim = sz + ref_table_reserve s) -> Z.of_nat (length (p :: ref_table s)) < lim ->
    gc_ok (set_refs (p :: ref_table s) sz lim s) raw) as Hset.
  { intros sz lim Hsz Hlim Hl. destruct Hok. split; try done.
    - intros q v Hq Hn Hi Hy. simpl. right. by eapply ok_young0.
    - intros q [->|Hq]%elem_of_cons; [by eauto|by apply ok_refs0].
    - simpl. split_and!; [done|apply ok_sizes0|done]. }
  destruct Hok. destruct ok_sizes0 as (Hz & Hr & Hlim). unfold add_ref, realloc_ref_table, ref_table_end, ref_table_threshold in *.
  simpl. rewrite Z.geb_leb.
  destruct (Z.ltb_spec (Z.of_nat (length (ref_table s))) (ref_table_size s + ref_table_reserve s)); [|lia].
  destruct (Z.leb_spec (ref_table_limit s) (Z.of_nat (S (length (ref_table s))))).
  - destruct (Z.eqb_spec (ref_table_limit s) (ref_table_size s)).
    + split_and!; try done; [|by left].
      assert (forall t, gc_ok t raw -> gc_ok (urge_major_slice t) raw) as Hu by (intros t []; by split).
      apply Hu, Hset; [done|by right|simpl; lia].
    + destruct (grows _) eqn:Hg; [|by eexists]. split_and!; try done; [|by left].
      apply Hset; [lia|right; lia|simpl; lia].
  - split_and!; try done; [|by left]. apply Hset; [done|done|simpl; lia].
Qed.

Lemma assign_cell_keeps s raw n w s' : gc_ok s raw -> word_ok (heap s) w -> assign (Cell n) w s = Ok s' -> gc_ok s' raw.
Proof.
  intros Hok Hw Ha. pose proof (fun q => deref_assign _ q _ _ _ Ha) as Hd.
  simpl in Ha. inv_ok Ha. destruct Hok. split; try done.
  - intros q v. rewrite Hd. simpl. case_decide as Hq; [|by eauto]. subst q. by intros [= <-].
  - intros q v. rewrite Hd. simpl. case_decide as Hq; [by subst q|by eauto].
  - intros q (? & ? & v & ?)%ok_refs0. rewrite Hd. split_and!; try done. case_decide; by eexists.
  - intros m Hm%ok_roots0. simpl. destruct (decide (n = m)) as [<-|]; [by rewrite lookup_insert_eq|by rewrite lookup_insert_ne].
Qed.
(** The end of [Modify] and [initialize]: the entry in [ref_table], where it is wanted. *)
Lemma record_keeps s raw b i w (yes : bool) : gc_ok s (also raw (In b i)) -> deref s (In b i) = Ok w -> ~ raw (In b i) ->
  writable (heap s) (In b i) -> word_ok (heap s) w ->
  (yes = true -> place_in_heap (heap s) (In b i) = true) ->
  (yes = false -> place_in_heap (heap s) (In b i) = true -> is_young (heap s) w = true -> In b i ∈ ref_table s) ->
  match (if yes then add_ref grows (In b i) s else Ok s) with
  | Ok s' => gc_ok s' raw /\ heap s' = heap s /\ cells s' = cells s
  | Panic => exists t, grows t = false
  | _ => False
  end.
Proof.
  intros Hok Hd Hr Hw Hwo Hin Hno. destruct Hw as [Hw _]. destruct yes.
  - pose proof (add_ref_keeps _ _ _ _ Hok (Hin eq_refl) Hw Hd) as Ha.
    destruct (add_ref grows (In b i) s) as [s'| | |]; try done. destruct Ha as (Hok' & Hh & Hc & Hp).
    split_and!; [|done..]. eapply gc_ok_fill; [done| |done| |done].
    + simpl. rewrite Hh. exact Hd.
    + unfold content_ok. by rewrite Hh, Hw.
  - split_and!; [|done..]. eapply gc_ok_fill; [done..| |by apply Hno]. unfold content_ok. by rewrite Hw.
Qed.
Lemma writable_shape h h' p : same_shape h h' -> writable h p -> writable h' p.
Proof.
  intros Hs [H1 H2]. split; [by rewrite (shape_scans _ _ Hs)|]. destruct p as [|b i]; [done|]. intros blk' Hb.
  specialize (Hs b). rewrite Hb in Hs. destruct (h !! b) as [blk|] eqn:E; [|done]. destruct Hs as (_ & <- & _). by apply H2.
Qed.

(** The write barrier keeps the invariant and does the assignment. *)
Lemma Modify_keeps s raw p old val : gc_ok s raw -> writable (heap s) p -> deref s p = Ok old -> ~ raw p -> word_ok (heap s) val ->
  match Modify grows p val s with
  | Ok s' => gc_ok s' raw /\ forall q, deref s' q = if decide (q = p) then Ok val else deref s q
  | Panic => exists t, grows t = false
  | _ => False
  end.
Proof.
  intros Hok Hw Hd Hr Hv. unfold Modify. rewrite Hd. cbn [rbind].
  destruct (assign_some _ _ val _ Hd) as [s1 Ha]. rewrite Ha. cbn [rbind].
  pose proof (fun q => deref_assign _ q _ _ _ Ha) as Hd1. pose proof (assign_shape _ _ _ _ Ha Hw) as Hs1.
  destruct p as [n|b i]; [simpl place_in_heap; split; [by eapply assign_cell_keeps|done]|].
  pose proof (assign_keeps _ _ _ _ _ _ Hok Hw Ha) as Hok1.
  pose proof (ok_word _ _ Hok _ _ Hd Hr) as Hold. unfold content_ok in Hold. rewrite (proj1 Hw) in Hold.
  destruct (place_in_heap (heap s1) (In b i)) eqn:Hin.
  - assert (exists s2, (if gc_phase s1 =? Phase_mark then darken grows old s1 else Ok s1) = Ok s2 /\ gc_ok s2 (also raw (In b i)) /\
      (forall q, deref s2 q = deref s1 q) /\ same_shape (heap s1) (heap s2) /\ ref_table s2 = ref_table s1) as (s2 & -> & Hok2 & Hd2 & Hs2 & Hr2).
    { destruct (_ =? _); [|exists s1; split_and!; try done; apply shape_refl].
      apply darken_keeps; [done|]. by eapply shape_word. }
    cbn [rbind].
    assert (deref s2 (In b i) = Ok val) as Hv2 by (rewrite Hd2, Hd1; by rewrite decide_True).
    set (yes := Is_block_word val && is_young (heap s2) val && negb (Is_block_word old && is_young (heap s2) old)).
    assert (yes = false -> place_in_heap (heap s2) (In b i) = true -> is_young (heap s2) val = true -> In b i ∈ ref_table s2) as Hno.
    { subst yes. rewrite Hr2. destruct (assign_rest _ _ _ _ Ha) as [-> _]. rewrite !(shape_young _ _ Hs2), !(shape_young _ _ Hs1).
      intros E _ Hy. rewrite Hy in E. destruct val; [done|]. simpl in E.
      eapply ok_young; [done..| |by destruct (Is_block_word old), (is_young (heap s) old)]. by rewrite <-(shape_place _ _ Hs1). }
    pose proof (record_keeps s2 raw b i val yes Hok2 Hv2 Hr (writable_shape _ _ _ Hs2 (writable_shape _ _ _ Hs1 Hw))
      (shape_word _ _ Hs2 _ (shape_word _ _ Hs1 _ Hv)) ltac:(intros _; by rewrite (shape_place _ _ Hs2)) Hno) as H.
    destruct (if yes then add_ref grows (In b i) s2 else Ok s2) as [s3| | |]; [|exact H..].
    destruct H as (Hok3 & Hh & Hc). split; [done|]. intros q. rewrite <-Hd1, <-Hd2. destruct q; simpl; [by rewrite Hc|by rewrite Hh].
  - split; [|done]. eapply gc_ok_fill; [done|rewrite Hd1; by rewrite decide_True|done| |by rewrite Hin].
    unfold content_ok. rewrite (proj1 (writable_shape _ _ _ Hs1 Hw)). by eapply shape_word.
Qed.

Lemma gc_ok_weaken s raw raw' : gc_ok s raw -> (forall q, raw q -> raw' q) -> (forall n, n ∈ roots s -> ~ raw' (Cell n)) -> gc_ok s raw'.
Proof. intros [] Hr Hc. split; eauto. Qed.
Definition except (raw : place -> Prop) (p q : place) : Prop := raw q /\ q <> p.
Lemma also_except raw b i q : also raw (In b i) q -> also (except raw (In b i)) (In b i) q.
Proof. intros [H| ->]; [|by right]. destruct (decide (q = In b i)); [by right|left; by split]. Qed.
Lemma initialize_keeps s raw b i old val : gc_ok s raw -> writable (heap s) (In b i) -> deref s (In b i) = Ok old -> word_ok (heap s) val ->
  match initialize grows (In b i) val s with
  | Ok s' => gc_ok s' (except raw (In b i)) /\ forall q, deref s' q = if decide (q = In b i) then Ok val else deref s q
  | Panic => exists t, grows t = false
  | _ => False
  end.
Proof.
  intros Hok Hw Hd Hv. unfold initialize. destruct (assign_some _ _ val _ Hd) as [s1 Ha]. rewrite Ha. cbn [rbind].
  pose proof (fun q => deref_assign _ q _ _ _ Ha) as Hd1. pose proof (assign_shape _ _ _ _ Ha Hw) as Hs1.
  pose proof (gc_ok_weaken _ _ _ (assign_keeps _ _ _ _ _ _ Hok Hw Ha) (also_except raw b i)) as Hok1.
  pose proof (record_keeps s1 (except raw (In b i)) b i val (place_in_heap (heap s1) (In b i) && Is_block_word val && is_young (heap s1) val)) as H.
  destruct (if _ : bool then add_ref grows (In b i) s1 else Ok s1) as [s2| | |].
  all: lapply H; [clear H; intros H|apply Hok1; intros n Hn [[Hr' _]|Hr']; [|done]; destruct (assign_rest _ _ _ _ Ha) as (_ & _ & _ & _ & _ & _ & _ & Hro & _);
    unfold roots in Hn; rewrite Hro in Hn; by eapply ok_cells].
  all: lapply H; [clear H; intros H|rewrite Hd1; by rewrite decide_True].
  all: lapply H; [clear H; intros H|by intros [_ ?]].
  all: lapply H; [clear H; intros H|by eapply writable_shape].
  all: lapply H; [clear H; intros H|by eapply shape_word].
  all: lapply H; [clear H; intros H|by intros [[? _]%andb_prop _]%andb_prop].
  all: lapply H; [clear H; intros H|intros E Hp Hy; rewrite Hp, Hy in E; by destruct val].
  all: try exact H.
  destruct H as (Hok2 & Hh & Hc). split; [done|]. intros q. rewrite <-Hd1. destruct q; simpl; [by rewrite Hc|by rewrite Hh].
Qed.
End barrier.

(** ** A new block of the major heap *)

Lemma fresh_none (h : gheap) : h !! fresh (dom h) = None.
Proof. apply not_elem_of_dom. apply is_fresh. Qed.
Lemma alloc_color_cases addr s k : alloc_color addr s k = Black \/ alloc_color addr s k = White.
Proof. unfold alloc_color. destruct (_ || _); auto. Qed.
Lemma alloc_color_ok addr s k : a_color (alloc_color addr s k) /\ alloc_color addr s k <> Blue.
Proof. destruct (alloc_color_cases addr s k) as [->| ->]; split; try done; [by right; right; right|by left]. Qed.
Lemma alloc_shr_eq junk room addr n t s :
  let k := fresh (dom (heap s)) in
  exists s', alloc_shr junk room addr n t s = (if room s n then Ok (k, s') else Panic) /\
  heap s' = <[k := mkG false (Make_header n t (alloc_color addr s k)) (junk k <$> seq 0 (Z.to_nat n))]> (heap s) /\
  cells s' = cells s /\ ref_table s' = ref_table s /\ root_lists s' = root_lists s /\ gray_vals s' = gray_vals s /\ gray_vals_size s' = gray_vals_size s /\
  ref_table_size s' = ref_table_size s /\ ref_table_reserve s' = ref_table_reserve s /\ ref_table_limit s' = ref_table_limit s /\
  young_end s' = young_end s /\ gc_phase s' = gc_phase s /\ gc_sweep_hp s' = gc_sweep_hp s /\ heap_is_pure s' = heap_is_pure s /\ markhp s' = markhp s /\ global_data s' = global_data s.
Proof.
  intros k. unfold alloc_shr. fold k. cbn zeta. eexists _. split; [destruct (room s n); reflexivity|]. by destruct (_ >? _).
Qed.
