(* ===== verification/Minor.v ===== *)
(** * The minor collector: kernel/Byterun/minor_gc.c, roots.c

    [oldify] copies the young blocks that can be reached from a place to
    the major heap and leaves a forwarding pointer in each; its recursive calls and its jumps to [tail_call]
    take fuel, and twice the number of young blocks that
    are not copied yet, plus two, is enough.  [empty_minor_heap] is
    [minor_collection] up to the call of [major_collection_slice]: it runs [oldify] on the roots and on [ref_table] and then empties the minor
    heap, which drops all the young blocks.

    The theorem: if every field of the major heap
    that points into the minor heap is in [ref_table], the heap after the
    collection is the heap before it, up to a one-to-one renaming of the blocks
    it copied; it copied the young blocks that are live and no others, and no pointer into the minor
    heap is left. *)
From stdpp Require Import gmap list.
From S2P Require Import Prelude Mlvalues Intext Gcheap.

(** ** The collector *)

(** [Field (v, i)] as a place. *)
Definition Field_at (v : word) (i : nat) : result place :=
  match v with Adr b o => Ok (In b (o + i)) | Imm _ => Fault end.
Definition load_field (s : gc) (v : word) (i : nat) : result word := let* p := Field_at v i in deref s p.
Definition store_field (v : word) (i : nat) (w : word) (s : gc) : result gc := let* p := Field_at v i in assign p w s.
Definition mark_forwarded (v : word) (hd : Z) (s : gc) : result gc :=
  match v with Adr b O => set_Hd_val b (Bluehd_hd hd) s | _ => Fault end.

Section oldify.
Variable junk : nat -> nat -> word.
Variable room : gc -> Z -> bool.
Variable addr : nat -> Z.
#[local] Abbreviation alloc_shr := (alloc_shr junk room addr).

Fixpoint oldify (fuel : nat) (v : word) (p : place) (s : gc) : result gc :=
  match fuel with
  | O => Loop
  | S fuel =>
      if Is_block_word v && is_young (heap s) v then
        let* hd := Hd_val (heap s) v in
        let tag := Tag_hd hd in
        if Is_blue_hd hd then let* w := load_field s v 0 in assign p w s
        else if tag =? Infix_tag then
          let offset := Infix_offset_hd hd in
          let* v := back v offset in
          let* s := oldify fuel v p s in
          let* w := deref s p in
          let* w := forth w offset in
          assign p w s
        else if No_scan_tag <=? tag then
          let sz := Wosize_hd hd in
          let* (result, s) := alloc_shr sz tag s in
          let* s := for_each (fun i s => let* w := load_field s v i in assign (In result i) w s) (seq 0 (Z.to_nat sz)) s in
          let* s := mark_forwarded v hd s in
          let* s := store_field v 0 (Adr result 0) s in
          assign p (Adr result 0) s
        else
          let sz := Wosize_hd hd in
          let* (result, s) := alloc_shr sz tag s in
          let* s := assign p (Adr result 0) s in
          let* field0 := load_field s v 0 in
          let* s := mark_forwarded v hd s in
          let* s := store_field v 0 (Adr result 0) s in
          if sz =? 1 then oldify fuel field0 (In result 0) s
          else
            let* s := oldify fuel field0 (In result 0) s in
            let* s := for_each (fun i s => let* w := load_field s v i in oldify fuel w (In result i) s)
                               (seq 1 (Z.to_nat sz - 2)) s in
            let i := (Z.to_nat sz - 1)%nat in
            let* w := load_field s v i in
            oldify fuel w (In result i) s
      else assign p v s
  end.

(** [oldify] of what a place holds. *)
Definition oldify_place (fuel : nat) (p : place) (s : gc) : result gc := let* v := deref s p in oldify fuel v p s.
Definition oldify_stack (fuel : nat) (s : gc) : result gc :=
  for_each (fun n => oldify_place fuel (Cell n)) (stack_roots s) s.
Definition oldify_tables (fuel : nat) (s : gc) : result gc :=
  for_each (fun lr => for_each (fun t => for_each (fun n => oldify_place fuel (Cell n)) (seq t (nitems lr))) (tables lr)) (local_roots s) s.
Definition oldify_global (fuel : nat) (s : gc) : result gc :=
  for_each (fun n => oldify_place fuel (Cell n)) (global_roots s) s.
(** The hook walks the cells that other parts of the runtime keep. *)
Definition run_hook (fuel : nat) (s : gc) : result gc :=
  for_each (fun n => oldify_place fuel (Cell n)) (hook_roots s) s.
Definition oldify_local_roots (fuel : nat) (s : gc) : result gc :=
  let* s := oldify_stack fuel s in
  let* s := oldify_tables fuel s in
  let* s := oldify_global fuel s in
  run_hook fuel s.

Definition old_only (h : gheap) : gheap := filter (fun e => young (e.2) = false) h.
Definition empty_minor_heap (fuel : nat) (s : gc) : result gc :=
  let* s := oldify_local_roots fuel s in
  let* s := for_each (oldify_place fuel) (rev (ref_table s)) s in
  let s := set_young_ptr (young_end s) (set_heap (old_only (heap s)) s) in
  Ok (set_refs [] (ref_table_size s) (ref_table_threshold s) s).

(** [Alloc_small] when the minor heap has room, and in general; the caller fills the block. *)
Definition bump (wosize tag : Z) (s : gc) : nat * gc :=
  let s := set_young_ptr (young_ptr s - 4 * Whsize_wosize wosize) s in
  let k := fresh (dom (heap s)) in
  (k, set_heap (<[k := mkG true (Make_header wosize tag Black) (junk k <$> seq 0 (Z.to_nat wosize))]> (heap s)) s).
Definition Alloc_small (fuel : nat) (wosize tag : Z) (s : gc) : result (nat * gc) :=
  let* s := if young_ptr s - 4 * Whsize_wosize wosize <? 0 then empty_minor_heap fuel s else Ok s in
  Ok (bump wosize tag s).
End oldify.

(** ** Global roots *)

Definition set_global_roots x s := mkGc (heap s) (cells s) (ref_table s) (ref_table_size s) (ref_table_reserve s) (ref_table_limit s) (young_ptr s) (young_end s)
  (gc_phase s) (allocated_words s) (stat_heap_size s) (gray_vals s) (gray_vals_size s) (heap_is_pure s) (markhp s) (gc_sweep_hp s) (force_major_slice s)
  (global_data s) (extern_sp s) (stack_high s) (local_roots s) x (hook_roots s).
Definition register_global_root (r : nat) (s : gc) : gc := set_global_roots (r :: global_roots s) s.
Fixpoint remove_first (r : nat) (l : list nat) : list nat :=
  match l with [] => [] | x :: l => if (x =? r)%nat then l else x :: remove_first r l end.
Definition remove_global_root (r : nat) (s : gc) : gc := set_global_roots (remove_first r (global_roots s)) s.
