(* ===== verification/MinorCorrect.v ===== *)
(** * The minor collector preserves the heap

    [inv s fw todo spare]: the state [s] of a collection that started in [s0] and has copied
    each block [b] with [fw !! b = Some c] to [c].  Every place holds what it
    held in [s0], renamed by [fw], but for the places of [todo], which have not been visited
    yet; [spare] is a block that [alloc_shr] has just returned. *)
From stdpp Require Import gmap list.
From S2P Require Import Prelude Mlvalues Intext Gcheap Minor.

(** The places that are left out: the cells that are no roots, and fields of the major heap that are not in [ref_table]. *)
Record raw_apart (s : gc) (raw : place -> Prop) : Prop := {
  ra_dec q : raw q \/ ~ raw q;
  ra_cell n : n ∉ roots s -> raw (Cell n);
  ra_old b i : raw (In b i) -> Is_in_heap (heap s) (Adr b 0) = true /\ In b i ∉ ref_table s }.

(** The renaming of a word by the forwarding pointers. *)
Definition ren (fw : gmap nat nat) (w : word) : word :=
  match w with Adr b o => match fw !! b with Some c => Adr c o | None => w end | Imm _ => w end.
(** A young block the word points to has been copied. *)
Definition closed (h : gheap) (fw : gmap nat nat) (w : word) : Prop :=
  match w with Adr b _ => forall blk, h !! b = Some blk -> young blk = true -> is_Some (fw !! b) | Imm _ => True end.
(** Where a block is after the collection. *)
Definition moved (h : gheap) (fw : gmap nat nat) (b c : nat) : Prop :=
  exists blk, h !! b = Some blk /\ if young blk then fw !! b = Some c else c = b.
(** The word that a place of the new heap has to receive. *)
Definition origin (s : gc) (fw : gmap nat nat) (q : place) (w : word) : Prop :=
  match q with
  | Cell n => cells s !! n = Some w
  | In c i => exists b blk, heap s !! b = Some blk /\ moved (heap s) fw b c /\ fields blk !! i = Some w
  end.
(** The header after the collection: the same size and tag, and the same colour in the major heap. *)
Definition moved_header (addr : nat -> Z) (s : gc) (blk : gblock) (c : nat) (hd' : Z) : Prop :=
  hd' = if young blk then Make_header (Z.of_nat (length (fields blk))) (btag blk) (alloc_color addr s c) else hd blk.

Lemma first_middle_last n : (2 <= n)%nat -> ([O] ++ seq 1 (n - 2)) ++ [(n - 1)%nat] = seq 0 n.
Proof.
  intros Hn. destruct n as [|[|m]]; [lia..|]. change (seq 0 (S (S m))) with (O :: seq 1 (S m)). rewrite seq_S.
  by replace (S (S m) - 2)%nat with m by lia.
Qed.

Lemma for_each_app {A} (f : A -> gc -> result gc) l1 l2 : forall s,
  for_each f (l1 ++ l2) s = let* s := for_each f l1 s in for_each f l2 s.
Proof. induction l1 as [|x l1 IH]; intros s; [done|]. simpl. destruct (f x s); simpl; [apply IH|done..]. Qed.
Lemma for_each_fmap {A B} (f : B -> gc -> result gc) (g : A -> B) l : forall s, for_each f (g <$> l) s = for_each (fun x => f (g x)) l s.
Proof. induction l as [|x l IH]; intros s; [done|]. simpl. destruct (f (g x) s); simpl; [apply IH|done..]. Qed.
Lemma for_each_bind {A B} (f : B -> gc -> result gc) (g : A -> list B) l : forall s,
  for_each f (l ≫= g) s = for_each (fun x => for_each f (g x)) l s.
Proof.
  induction l as [|x l IH]; intros s; [done|]. rewrite bind_cons, for_each_app, for_each_cons.
  destruct (for_each f (g x) s); simpl; [apply IH|done..].
Qed.
Lemma for_each_ext {A} (f g : A -> gc -> result gc) l : (forall x s, f x s = g x s) -> forall s, for_each f l s = for_each g l s.
Proof. intros H. induction l as [|x l IH]; intros s; [done|]. simpl. rewrite H. destruct (g x s); simpl; [apply IH|done..]. Qed.
Lemma for_each_tables (f : nat -> gc -> result gc) (lr : list roots_block) s :
  for_each (fun lr => for_each (fun t => for_each f (seq t (nitems lr))) (tables lr)) lr s = for_each f (lr ≫= table_roots) s.
Proof. rewrite for_each_bind. apply for_each_ext. intros x t. unfold table_roots. by rewrite for_each_bind. Qed.

Section collect.
Variable addr : nat -> Z.
Variable s0 : gc.
#[local] Abbreviation h0 := (heap s0).

Definition start (p : place) : Prop := match p with Cell n => n ∈ roots s0 | In _ _ => p ∈ ref_table s0 end.
(** The young blocks that the program can reach, or that a block of the major heap points to. *)
Inductive live : nat -> Prop :=
  | live_start p b o : start p -> deref s0 p = Ok (Adr b o) -> live b
  | live_field a blk i b o : live a -> h0 !! a = Some blk -> young blk = true -> btag blk < No_scan_tag ->
      fields blk !! i = Some (Adr b o) -> live b.
Definition live_word (w : word) : Prop := match w with Adr b _ => live b | Imm _ => True end.

Record inv (s : gc) (fw : gmap nat nat) (todo : place -> Prop) (spare : option nat) : Prop := {
  i_fw b c : fw !! b = Some c -> (exists blk, h0 !! b = Some blk /\ young blk = true) /\ h0 !! c = None /\ live b;
  i_inj b b' c : fw !! b = Some c -> fw !! b' = Some c -> b = b';
  i_left b blk : h0 !! b = Some blk -> young blk = true ->
    heap s !! b = Some match fw !! b with
                       | None => blk
                       | Some c => mkG true (Bluehd_hd (hd blk)) (<[O := Adr c 0]> (fields blk))
                       end;
  i_moved b c blk : h0 !! b = Some blk -> moved h0 fw b c ->
    exists blk', heap s !! c = Some blk' /\ young blk' = false /\ moved_header addr s0 blk c (hd blk') /\ length (fields blk') = length (fields blk);
  i_done q w : origin s0 fw q w -> todo q \/ (deref s q = Ok (ren fw w) /\ closed h0 fw w);
  i_dom c : is_Some (heap s !! c) -> is_Some (h0 !! c) \/ (exists b, fw !! b = Some c) \/ spare = Some c;
  i_spare k : spare = Some k -> h0 !! k = None /\ (forall b, fw !! b <> Some k) /\ exists blk, heap s !! k = Some blk /\ young blk = false;
  i_cells n : is_Some (cells s !! n) <-> is_Some (cells s0 !! n);
  i_refs : ref_table s = ref_table s0 /\ root_lists s = root_lists s0 /\ gray_vals s = gray_vals s0 /\ gray_vals_size s = gray_vals_size s0 /\
    ref_table_size s = ref_table_size s0 /\ ref_table_reserve s = ref_table_reserve s0 /\ ref_table_limit s = ref_table_limit s0 /\
    young_end s = young_end s0 /\ gc_phase s = gc_phase s0 /\ gc_sweep_hp s = gc_sweep_hp s0 /\ heap_is_pure s = heap_is_pure s0 /\ markhp s = markhp s0 /\ global_data s = global_data s0 }.

Variable raw : place -> Prop.
Hypothesis Hok : gc_ok s0 raw.
Hypothesis Hraw : raw_apart s0 raw.

Lemma moved_none s fw todo spare b c : inv s fw todo spare -> fw !! b = Some c -> moved h0 fw b c.
Proof. intros I Hb. destruct (i_fw _ _ _ _ I _ _ Hb) as ((blk & Hblk & Hy) & _). exists blk. by rewrite Hy. Qed.
Lemma moved_inj s fw todo spare b b' c : inv s fw todo spare -> moved h0 fw b c -> moved h0 fw b' c -> b = b'.
Proof.
  intros I (blk & Hb & Hm) (blk' & Hb' & Hm'). destruct (young blk) eqn:Hy, (young blk') eqn:Hy'; subst.
  - by eapply i_inj.
  - apply (i_fw _ _ _ _ I) in Hm as (_ & Hm & _). congruence.
  - apply (i_fw _ _ _ _ I) in Hm' as (_ & Hm & _). congruence.
  - done.
Qed.
(** Blocks that are not moved are where they were, and renaming leaves them alone. *)
Lemma fw_old s fw todo spare b blk : inv s fw todo spare -> h0 !! b = Some blk -> young blk = false -> fw !! b = None.
Proof.
  intros I Hb Hy. destruct (fw !! b) as [c|] eqn:E; [|done].
  destruct (i_fw _ _ _ _ I _ _ E) as ((blk' & Hb' & Hy') & _). congruence.
Qed.
Lemma inv_young s fw todo spare b blk : inv s fw todo spare -> h0 !! b = Some blk ->
  exists blk', heap s !! b = Some blk' /\ young blk' = young blk.
Proof.
  intros I Hb. destruct (young blk) eqn:Hy.
  - eexists. split; [by eapply i_left|]. by destruct (fw !! b).
  - destruct (i_moved _ _ _ _ I b b blk Hb) as (blk' & Hb' & Hy' & _); [|by exists blk'].
    exists blk. by rewrite Hy.
Qed.
Lemma inv_is_young s fw todo spare w : inv s fw todo spare -> word_ok h0 w -> is_young (heap s) w = is_young h0 w.
Proof.
  intros I. destruct w as [|b o]; [done|]. intros (blk & Hb & _). simpl. rewrite Hb.
  by destruct (inv_young _ _ _ _ _ _ I Hb) as (blk' & -> & ->).
Qed.
Lemma ren_mono s fw todo spare s' fw' todo' spare' w : inv s fw todo spare -> inv s' fw' todo' spare' -> fw ⊆ fw' ->
  closed h0 fw w -> ren fw' w = ren fw w /\ closed h0 fw' w.
Proof.
  intros I I' Hs. destruct w as [|b o]; [done|]. simpl. intros Hc. split.
  - destruct (fw !! b) as [c|] eqn:E; [by rewrite (lookup_weaken _ _ _ _ E Hs)|].
    destruct (fw' !! b) as [c|] eqn:E'; [|done].
    destruct (i_fw _ _ _ _ I' _ _ E') as ((blk & Hb & Hy) & _). destruct (Hc _ Hb Hy). congruence.
  - intros blk Hb Hy. destruct (Hc _ Hb Hy) as [c E]. exists c. by eapply lookup_weaken.
Qed.
Lemma inv_less s fw todo todo' spare : inv s fw todo spare ->
  (forall q w, origin s0 fw q w -> todo q -> todo' q \/ (deref s q = Ok (ren fw w) /\ closed h0 fw w)) -> inv s fw todo' spare.
Proof. intros [] Ht. split; try done. intros q w Hq. destruct (i_done0 q w Hq); eauto. Qed.

(** ** Storing into a place that is not done *)

Definition free (todo : place -> Prop) (spare : option nat) (p : place) : Prop :=
  todo p \/ exists k i, spare = Some k /\ p = In k i.
Definition old_place (s : gc) (p : place) : Prop :=
  match p with Cell _ => True | In c _ => exists blk, heap s !! c = Some blk /\ young blk = false end.
Lemma assign_block p w s s' : assign p w s = Ok s' -> forall b,
  match heap s !! b, heap s' !! b with
  | Some x, Some y => young y = young x /\ hd y = hd x /\ length (fields y) = length (fields x) /\
      ((forall i, p <> In b i) -> y = x)
  | None, None => True
  | _, _ => False
  end.
Proof.
  intros Ha b. destruct p as [n|c i]; simpl in Ha; inv_ok Ha.
  - simpl. by destruct (heap s !! b).
  - simpl. destruct (decide (c = b)) as [<-|].
    + rewrite lookup_insert_eq. match goal with H : heap s !! c = Some _ |- _ => rewrite H end. simpl. rewrite length_insert.
      split_and!; try done. intros Hn. by destruct (Hn i).
    + rewrite lookup_insert_ne by done. by destruct (heap s !! b).
Qed.
Lemma inv_assign s fw todo spare p w s' : inv s fw todo spare -> free todo spare p -> old_place s p -> assign p w s = Ok s' ->
  inv s' fw todo spare.
Proof.
  intros I Hf Hp Ha. pose proof (assign_block _ _ _ _ Ha) as Hb. pose proof (fun q => deref_assign _ q _ _ _ Ha) as Hd.
  destruct (assign_rest _ _ _ _ Ha) as (? & ? & ? & ? & ? & ? & ? & ? & Hc & ? & ? & ? & ?). split.
  - apply (i_fw _ _ _ _ I).
  - apply (i_inj _ _ _ _ I).
  - intros b blk Hblk Hy. rewrite <-(i_left _ _ _ _ I _ _ Hblk Hy).
    pose proof (inv_young _ _ _ _ _ _ I Hblk) as (blk' & Hblk' & Hy'). specialize (Hb b). rewrite Hblk' in Hb |- *.
    destruct (heap s' !! b) as [y|]; [|done]. destruct Hb as (_ & _ & _ & ->); [done|]. intros i ->.
    destruct Hp as (z & Hz & Hyz). congruence.
  - intros b c blk Hblk Hm. destruct (i_moved _ _ _ _ I _ _ _ Hblk Hm) as (x & Hx & Hyx & Hhx & Hlx).
    specialize (Hb c). rewrite Hx in Hb. destruct (heap s' !! c) as [y|]; [|done]. destruct Hb as (Hy & Hh & Hl & _).
    exists y. by rewrite Hy, Hh, Hl.
  - intros q v Hq. destruct (i_done _ _ _ _ I _ _ Hq) as [|[Hv Hcl]]; [by left|]. rewrite Hd.
    case_decide as Hqp; [|by right]. subst q. destruct Hf as [Hf|(k & i & Hk & ->)]; [by left|].
    exfalso. destruct (i_spare _ _ _ _ I _ Hk) as (Hn & Hfw & _). destruct Hq as (b & blk & Hblk & (blk' & Hblk' & Hm) & _).
    destruct (young blk'); [by eapply Hfw|congruence].
  - intros c Hs. apply (i_dom _ _ _ _ I). specialize (Hb c). destruct (heap s !! c); [done|].
    destruct (heap s' !! c); [done|]. by destruct Hs.
  - intros k Hk. destruct (i_spare _ _ _ _ I _ Hk) as (? & ? & x & Hx & Hyx). split_and!; try done.
    specialize (Hb k). rewrite Hx in Hb. destruct (heap s' !! k) as [y|]; [|done]. exists y. by destruct Hb as (-> & _).
  - intros n. rewrite <-(i_cells _ _ _ _ I). split; [intros Hs|apply Hc]. destruct p as [m|c i]; simpl in Ha; inv_ok Ha; [|done].
    simpl in Hs. destruct (decide (m = n)) as [<-|]; [by eexists|by rewrite lookup_insert_ne in Hs].
  - pose proof (i_refs _ _ _ _ I). assert (young_end s' = young_end s) by (destruct p; simpl in Ha; by inv_ok Ha).
    intuition congruence.
Qed.
Lemma old_place_assign s p w s' q : assign p w s = Ok s' -> old_place s q -> old_place s' q.
Proof.
  intros Ha. destruct q as [n|c i]; [done|]. simpl. intros (x & Hx & Hy). pose proof (assign_block _ _ _ _ Ha c) as Hb.
  rewrite Hx in Hb. destruct (heap s' !! c) as [y|]; [|done]. exists y. by destruct Hb as (-> & _).
Qed.

(** ** Copying a block: a new block, and the forwarding pointer *)

Section allocation.
Variable junk : nat -> nat -> word.
Variable room : gc -> Z -> bool.

Lemma inv_alloc s fw todo n t : inv s fw todo None -> alloc_shr junk room addr n t s = Panic /\ room s n = false \/
  exists k s', alloc_shr junk room addr n t s = Ok (k, s') /\ inv s' fw todo (Some k) /\ heap s !! k = None /\ h0 !! k = None /\
    heap s' = <[k := mkG false (Make_header n t (alloc_color addr s0 k)) (junk k <$> seq 0 (Z.to_nat n))]> (heap s) /\ cells s' = cells s.
Proof.
  intros I. destruct (alloc_shr_eq junk room addr n t s) as (s' & Heq & Hh & Hcl & Hrest).
  set (k := fresh (dom (heap s))) in *. assert (alloc_color addr s k = alloc_color addr s0 k) as Hcol.
  { unfold alloc_color. destruct (i_refs _ _ _ _ I) as (_ & _ & _ & _ & _ & _ & _ & _ & -> & -> & _). done. }
  rewrite Hcol in Hh. pose proof (fresh_none (heap s)) as Hk. fold k in Hk.
  destruct (room s n); [|by left]. right. exists k, s'.
  assert (h0 !! k = None) as Hk0.
  { destruct (h0 !! k) as [blk|] eqn:E; [|done]. destruct (inv_young _ _ _ _ _ _ I E) as (x & Hx & _). congruence. }
  assert (forall b, fw !! b <> Some k) as Hkf.
  { intros b Hb. pose proof (moved_none _ _ _ _ _ _ I Hb) as Hm. pose proof Hm as (blk & Hblk & _).
    destruct (i_moved _ _ _ _ I _ _ _ Hblk Hm) as (x & Hx & _). congruence. }
  split_and!; try done. 
  assert (forall b x, heap s !! b = Some x -> heap s' !! b = Some x) as Hw.
  { intros b x Hb. rewrite Hh, lookup_insert_ne; [done|]. congruence. }
  assert (forall q w, deref s q = Ok w -> deref s' q = Ok w) as Hd.
  { intros [m|b i] w; simpl; [by rewrite Hcl|]. destruct (heap s !! b) as [x|] eqn:E; [|done]. by rewrite (Hw _ _ E). }
  split.
  - apply (i_fw _ _ _ _ I).
  - apply (i_inj _ _ _ _ I).
  - intros b blk Hb Hy. apply Hw. by eapply i_left.
  - intros b d blk Hb Hm. destruct (i_moved _ _ _ _ I _ _ _ Hb Hm) as (x & ? & Hx). exists x. split; [by apply Hw|done].
  - intros q w Hq. destruct (i_done _ _ _ _ I _ _ Hq) as [|[? ?]]; [by left|right]. split; [by apply Hd|done].
  - intros d [x Hx]. rewrite Hh in Hx. destruct (decide (k = d)) as [<-|]; [by do 2 right|].
    rewrite lookup_insert_ne in Hx by done. destruct (i_dom _ _ _ _ I d); [by eexists|by left|]. right. left. by destruct H as [|].
  - intros d [= <-]. split_and!; try done. eexists. rewrite Hh, lookup_insert_eq. done.
  - intros m. rewrite Hcl. apply (i_cells _ _ _ _ I).
  - pose proof (i_refs _ _ _ _ I). intuition congruence.
Qed.
End allocation.

Lemma ren_insert fw b blk k w : h0 !! b = Some blk -> young blk = true -> fw !! b = None -> closed h0 fw w ->
  ren (<[b := k]> fw) w = ren fw w /\ closed h0 (<[b := k]> fw) w.
Proof.
  intros Hb Hy Hf. destruct w as [|c o]; [done|]. intros Hc. destruct (decide (b = c)) as [<-|].
  - destruct (Hc _ Hb Hy). congruence.
  - simpl. rewrite lookup_insert_ne by done. split; [done|]. intros z Hz Hyz. destruct (Hc _ Hz Hyz) as [d Hd]. by exists d.
Qed.
Lemma inv_forward s fw todo b k blk x : inv s fw todo (Some k) -> h0 !! b = Some blk -> young blk = true -> fw !! b = None -> live b ->
  heap s !! k = Some x -> moved_header addr s0 blk k (hd x) -> length (fields x) = length (fields blk) ->
  inv (set_heap (<[b := mkG true (Bluehd_hd (hd blk)) (<[O := Adr k 0]> (fields blk))]> (heap s)) s)
      (<[b := k]> fw) (fun q => todo q \/ exists i, q = In k i) None.
Proof.
  intros I Hb Hy Hf Hl Hx Hhx Hlx. destruct (i_spare _ _ _ _ I _ eq_refl) as (Hk & Hkf & x' & Hx' & Hyx). simplify_eq.
  assert (b <> k) as Hbk by congruence.
  assert (forall c d, fw !! c = Some d -> d <> b) as Hfb.
  { intros c d Hc ->. apply (i_fw _ _ _ _ I) in Hc as (_ & Hc & _). congruence. }
  assert (forall c d, moved h0 fw c d -> d <> b) as Hmb.
  { intros c d (z & Hz & Hm) ->. destruct (young z) eqn:E; [by eapply Hfb|]. congruence. }
  assert (forall c d, moved h0 (<[b := k]> fw) c d -> moved h0 fw c d \/ (c = b /\ d = k)) as Hmv.
  { intros c d (z & Hz & Hm). destruct (decide (b = c)) as [<-|].
    - rewrite lookup_insert_eq in Hm. right. replace z with blk in Hm by congruence. rewrite Hy in Hm. by injection Hm as <-.
    - left. exists z. split; [done|]. by rewrite lookup_insert_ne in Hm. }
  split.
  - intros c d. destruct (decide (b = c)) as [<-|].
    + rewrite lookup_insert_eq. intros [= <-]. split_and!; try done. by exists blk.
    + rewrite lookup_insert_ne by done. apply (i_fw _ _ _ _ I).
  - intros c c' d. destruct (decide (b = c)) as [<-|], (decide (b = c')) as [<-|]; rewrite ?lookup_insert_eq, ?lookup_insert_ne by done.
    + done.
    + intros [= <-] H. by destruct (Hkf c').
    + intros H [= <-]. by destruct (Hkf c).
    + apply (i_inj _ _ _ _ I).
  - intros c z Hc Hyc. simpl. destruct (decide (b = c)) as [<-|].
    + rewrite !lookup_insert_eq. by replace z with blk by congruence.
    + rewrite !lookup_insert_ne by done. by eapply i_left.
  - intros c d z Hc [Hm|[-> ->]]%Hmv; simpl.
    + rewrite lookup_insert_ne by (intros ->; by eapply Hmb). by eapply i_moved.
    + rewrite lookup_insert_ne by done. replace z with blk by congruence. by exists x.
  - intros q w Hq. destruct q as [n|d i].
    + destruct (i_done _ _ _ _ I (Cell n) w Hq) as [|[Hd Hc]]; [by do 2 left|right].
      destruct (ren_insert _ _ _ k _ Hb Hy Hf Hc) as [-> ?]. done.
    + destruct Hq as (c & z & Hc & [Hm|[-> ->]]%Hmv & Hz); [|left; right; by exists i].
      destruct (i_done _ _ _ _ I (In d i) w) as [|[Hd Hcl]]; [by exists c, z|by do 2 left|right].
      destruct (ren_insert _ _ _ k _ Hb Hy Hf Hcl) as [-> ?]. simpl. rewrite lookup_insert_ne by (intros ->; by eapply Hmb). done.
  - intros d Hd. simpl in Hd. destruct (decide (b = d)) as [<-|]; [left; by rewrite Hb|].
    rewrite lookup_insert_ne in Hd by done. destruct (i_dom _ _ _ _ I d Hd) as [|[[c Hc]|[= <-]]]; [by left|..]; right; left.
    + exists c. rewrite lookup_insert_ne; [done|]. congruence.
    + exists b. by rewrite lookup_insert_eq.
  - done.
  - apply (i_cells _ _ _ _ I).
  - apply (i_refs _ _ _ _ I).
Qed.

Lemma forward_steps s b blk x w : heap s !! b = Some blk -> fields blk <> [] ->
  (let* s := mark_forwarded (Adr b 0) x s in store_field (Adr b 0) 0 w s) =
  Ok (set_heap (<[b := mkG (young blk) (Bluehd_hd x) (<[O := w]> (fields blk))]> (heap s)) s).
Proof.
  intros Hb Hf. unfold mark_forwarded, set_Hd_val, store_field. rewrite Hb. simpl. rewrite lookup_insert_eq. simpl.
  destruct (fields blk); [done|]. simpl. by rewrite insert_insert_eq.
Qed.
Lemma copy_fields k b blk l : h0 !! b = Some blk -> young blk = true -> forall s fw todo x,
  inv s fw todo (Some k) -> heap s !! b = Some blk -> heap s !! k = Some x ->
  length (fields x) = length (fields blk) -> Forall (fun i => (i < length (fields blk))%nat) l ->
  exists s' x', for_each (fun i s => let* w := load_field s (Adr b 0) i in assign (In k i) w s) l s = Ok s' /\
    inv s' fw todo (Some k) /\ heap s' !! b = Some blk /\ heap s' !! k = Some x' /\ hd x' = hd x /\ length (fields x') = length (fields blk) /\
    (forall i, i ∈ l -> fields x' !! i = fields blk !! i) /\
    (forall q, (forall i, i ∈ l -> q <> In k i) -> deref s' q = deref s q).
Proof.
  intros Hb0 Hy. induction l as [|i l IH]; intros s fw todo x I Hb Hx Hlx Hl.
  - exists s, x. split_and!; try done. intros i Hi. by apply elem_of_nil in Hi.
  - apply Forall_cons in Hl as [Hi Hl]. destruct (lookup_lt_is_Some_2 _ _ Hi) as [w Hw].
    destruct (i_spare _ _ _ _ I _ eq_refl) as (Hk0 & _ & x0 & Hx0 & Hyx). assert (x0 = x) as -> by congruence.
    assert (b <> k) as Hbk by congruence.
    assert (i < length (fields x))%nat as Hix by lia. destruct (lookup_lt_is_Some_2 _ _ Hix) as [v Hv].
    destruct (assign_some (In k i) v w s) as [s1 Ha]; [simpl; rewrite Hx; simpl; by rewrite Hv|].
    assert (heap s1 = <[k := mkG (young x) (hd x) (<[i := w]> (fields x))]> (heap s)) as Hh1.
    { simpl in Ha. rewrite Hx in Ha. simpl in Ha. rewrite Hv in Ha. by injection Ha as <-. }
    rewrite for_each_cons. assert (load_field s (Adr b 0) i = Ok w) as -> by (unfold load_field; simpl; rewrite Hb; simpl; by rewrite Hw).
    cbn [rbind]. rewrite Ha. cbn [rbind].
    destruct (IH s1 fw todo (mkG (young x) (hd x) (<[i := w]> (fields x)))) as (s' & x' & -> & I' & Hb' & Hx' & Hhx & Hlx' & Hfl & Hfr).
    + apply (inv_assign s _ _ _ (In k i) w); [done| |by exists x|done]. right. by exists k, i.
    + by rewrite Hh1, lookup_insert_ne.
    + by rewrite Hh1, lookup_insert_eq.
    + simpl. by rewrite length_insert.
    + done.
    + exists s', x'. split_and!; try done.
      * intros j Hj. destruct (decide (j ∈ l)) as [|Hjl]; [by apply Hfl|]. apply elem_of_cons in Hj as [->|]; [|done].
        assert (deref s' (In k i) = deref s1 (In k i)) as Hd by (apply Hfr; by intros ? ? [= ->]).
        rewrite (deref_assign _ _ _ _ _ Ha), decide_True in Hd by done. simpl in Hd. rewrite Hx' in Hd. simpl in Hd.
        apply of_ptr_Ok in Hd. congruence.
      * intros q Hq. rewrite Hfr by (intros ? ?; apply Hq; by right). rewrite (deref_assign _ _ _ _ _ Ha).
        rewrite decide_False; [done|]. apply Hq. by left.
Qed.

(** ** The specification of [oldify] *)

Definition young_blocks : gset nat := dom (filter (fun e => young (e.2) = true) h0).
(** The young blocks that are not copied yet. *)
Definition left_over (fw : gmap nat nat) : nat := size (young_blocks ∖ dom fw).
Lemma left_mono fw fw' : fw ⊆ fw' -> (left_over fw' <= left_over fw)%nat.
Proof. intros Hs%(subseteq_dom (D := gset nat)). unfold left_over. apply subseteq_size. set_solver. Qed.
Lemma left_insert fw b k blk : h0 !! b = Some blk -> young blk = true -> fw !! b = None ->
  (left_over (<[b := k]> fw) < left_over fw)%nat.
Proof.
  intros Hb Hy Hf. unfold left_over. apply subset_size. assert (b ∈ young_blocks) as Hyb.
  { apply elem_of_dom. exists blk. apply map_lookup_filter_Some. by split. }
  apply (not_elem_of_dom (D := gset nat)) in Hf. rewrite dom_insert. split; [set_solver|]. intros Hs.
  assert (b ∈ young_blocks ∖ dom fw) as Hi by set_solver. apply Hs in Hi. set_solver.
Qed.
Lemma old_place_mono s fw todo s' fw' todo' p : inv s fw todo None -> inv s' fw' todo' None -> fw ⊆ fw' -> old_place s p -> old_place s' p.
Proof.
  intros I I' Hs. destruct p as [n|c i]; [done|]. intros (x & Hx & Hy).
  destruct (i_dom _ _ _ _ I c) as [[blk Hc]|[[b Hb]|]]; [by eexists|..|done].
  - destruct (inv_young _ _ _ _ _ _ I Hc) as (? & ? & ?). destruct (inv_young _ _ _ _ _ _ I' Hc) as (y & ? & ?). exists y. split; congruence.
  - pose proof (lookup_weaken _ _ _ _ Hb Hs) as Hb'. pose proof (moved_none _ _ _ _ _ _ I' Hb') as Hm. pose proof Hm as (blk & Hblk & _).
    destruct (i_moved _ _ _ _ I' _ _ _ Hblk Hm) as (y & ? & ? & _). by exists y.
Qed.

(** A young block, while and after it is copied. *)
Lemma young_nonempty b blk : h0 !! b = Some blk -> young blk = true -> fields blk <> [].
Proof. intros Hb. by apply (ok_block _ _ Hok _ _ Hb). Qed.
Lemma young_not_raw b blk i : h0 !! b = Some blk -> young blk = true -> ~ raw (In b i).
Proof. intros Hb Hy Hr. apply (ra_old _ _ Hraw) in Hr as [Hr _]. simpl in Hr. rewrite Hb, Hy in Hr. done. Qed.
Lemma field_word b blk i w : h0 !! b = Some blk -> ~ raw (In b i) -> fields blk !! i = Some w ->
  if btag blk <? No_scan_tag then word_ok h0 w else exists x, w = Imm x.
Proof.
  intros Hb Hr Hw. pose proof (ok_word _ _ Hok (In b i) w) as H. unfold content_ok in H. simpl in H. rewrite Hb in H.
  apply H; [|done]. simpl. by rewrite Hw.
Qed.
Lemma header_of_block blk : header_ok blk -> exists t,
  hd blk = Make_header (Z.of_nat (length (fields blk))) t (Color_hd (hd blk)) /\
  Tag_hd (hd blk) = t /\ Wosize_hd (hd blk) = Z.of_nat (length (fields blk)).
Proof.
  intros (t & c & Hh & Hp & Hc & _). exists t. rewrite Hh, Color_header, Tag_header, Wosize_header by done. by split_and!.
Qed.
Lemma new_header blk c : header_ok blk -> young blk = true ->
  moved_header addr s0 blk c (Make_header (Wosize_hd (hd blk)) (Tag_hd (hd blk)) (alloc_color addr s0 c)).
Proof.
  intros Hh Hy. destruct (header_of_block _ Hh) as (t & _ & _ & Hs). unfold moved_header. by rewrite Hy, Hs.
Qed.

Section spec.
Variable junk : nat -> nat -> word.
Variable room : gc -> Z -> bool.
#[local] Abbreviation oldify := (oldify junk room addr).

(** The places of [todo] other than those of [P] are as before. *)
Definition frame (s s' : gc) (todo P : place -> Prop) : Prop :=
  forall q x, todo q -> ~ P q -> old_place s q -> deref s q = Ok x -> deref s' q = Ok x.
Definition no_room : Prop := exists t n, room t n = false.
Definition turns (fw : gmap nat nat) (v : word) : nat :=
  (2 * left_over fw + match v with Adr _ (S _) => 1 | _ => 0 end)%nat.
(** What [oldify (v, p)] promises of its result. *)
Definition copied (s : gc) (fw : gmap nat nat) (todo : place -> Prop) (p : place) (v : word) (r : result gc) : Prop :=
  match r with
  | Ok s' => exists fw', fw ⊆ fw' /\ inv s' fw' todo None /\ deref s' p = Ok (ren fw' v) /\ closed h0 fw' v /\ frame s s' todo (eq p)
  | Panic => no_room
  | _ => False
  end.
(** The place may be written, and the value is one that the program can reach. *)
Definition ready (s : gc) (fw : gmap nat nat) (todo : place -> Prop) (p : place) (v : word) : Prop :=
  inv s fw todo None /\ todo p /\ old_place s p /\ (exists x, deref s p = Ok x) /\ word_ok h0 v /\ live_word v.
Definition copies (fuel : nat) : Prop := forall v p s fw todo, ready s fw todo p v -> (turns fw v < fuel)%nat ->
  copied s fw todo p v (oldify fuel v p s).

(** ** The fields of a copied block *)
Section fields.
Variable fuel : nat.
Hypothesis IH : copies fuel.
Variables (b k : nat) (blk : gblock) (todo : place -> Prop).
Hypothesis Hb : h0 !! b = Some blk.
Hypothesis Hy : young blk = true.
Hypothesis Hscan : btag blk < No_scan_tag.
Hypothesis Hlive : live b.
Hypothesis Htodo : forall i, todo (In k i).

Definition filled (s : gc) (fw : gmap nat nat) (done : list nat) : Prop := forall i w, i ∈ done -> fields blk !! i = Some w ->
  deref s (In k i) = Ok (ren fw w) /\ closed h0 fw w.
Definition fields_of (q : place) : Prop := exists i, q = In k i.
(** What copying some of the fields does. *)
Definition fills (s : gc) (fw : gmap nat nat) (done : list nat) (r : result gc) : Prop :=
  match r with
  | Ok s' => exists fw', fw ⊆ fw' /\ inv s' fw' todo None /\ filled s' fw' done /\ frame s s' todo fields_of
  | Panic => no_room
  | _ => False
  end.
Definition at_work (s : gc) (fw : gmap nat nat) (done : list nat) : Prop :=
  inv s fw todo None /\ fw !! b = Some k /\ filled s fw done /\ (2 * left_over fw + 1 < fuel)%nat.

Lemma field_place s fw done i w : at_work s fw done -> fields blk !! i = Some w -> old_place s (In k i) /\ exists x, deref s (In k i) = Ok x.
Proof.
  intros (I & Hf & _) Hw. destruct (i_moved _ _ _ _ I b k blk Hb) as (x & Hx & Hyx & _ & Hl); [exists blk; by rewrite Hy|].
  split; [by exists x|]. simpl. rewrite Hx. simpl. destruct (lookup_lt_is_Some_2 (fields x) i) as [z Hz].
  { rewrite Hl. by eapply lookup_lt_Some. } exists z. by rewrite Hz.
Qed.
Lemma one_field s fw done i w : at_work s fw done -> fields blk !! i = Some w -> i ∉ done ->
  fills s fw (done ++ [i]) (oldify fuel w (In k i) s).
Proof.
  intros Hw Hi Hn. destruct (field_place _ _ _ _ _ Hw Hi) as [Ho [x Hx]]. destruct Hw as (I & Hf & Hfl & Hfu).
  pose proof (field_word _ _ _ _ Hb (young_not_raw _ _ _ Hb Hy) Hi) as Hwo. destruct (Z.ltb_spec (btag blk) No_scan_tag); [|lia].
  assert (live_word w) as Hl by (destruct w; [done|]; by eapply live_field).
  assert (ready s fw todo (In k i) w) as H1 by (split_and!; try done; by exists x). apply (IH _ _ _ _ _) in H1.
  2: { unfold turns; destruct w as [|? []]; lia. }
  destruct (oldify fuel w (In k i) s) as [s'| | |]; try done.
  destruct H1 as (fw' & Hs & I' & Hd & Hc & Hfr). exists fw'. split_and!; try done.
  - intros j v [Hj|Hj]%elem_of_app Hv.
    + destruct (Hfl j v Hj Hv) as [Hdj Hcj]. destruct (ren_mono _ _ _ _ _ _ _ _ _ I I' Hs Hcj) as [Hr ?].
      rewrite Hr. split; [|done]. destruct (field_place s fw done j v) as [? _]; [by split_and!|done|].
      apply Hfr; [done| |done..]. intros [= ->]. done.
    + apply list_elem_of_singleton in Hj as ->. by assert (v = w) as -> by congruence.
  - intros q z Hq Hnq Hoq Hz. apply Hfr; [done| |done..]. intros <-. apply Hnq. by exists i.
Qed.
Lemma at_work_next s fw done done' s' fw' : at_work s fw done -> fw ⊆ fw' -> inv s' fw' todo None -> filled s' fw' done' -> at_work s' fw' done'.
Proof.
  intros (I & Hf & _ & Hfu) Hs I' Hfl. split_and!; try done; [by eapply lookup_weaken|].
  pose proof (left_mono _ _ Hs). lia.
Qed.
Lemma fills_trans s fw done' done s1 fw1 r : inv s fw todo None -> inv s1 fw1 todo None -> frame s s1 todo fields_of -> fw ⊆ fw1 ->
  fills s1 fw1 done' r -> (forall i, i ∈ done -> i ∈ done') -> fills s fw done r.
Proof.
  intros I I1 Hf Hs H Hd. destruct r as [s'| | |]; try done. destruct H as (fw' & Hs' & I' & Hfl & Hf'). exists fw'. split_and!; try done.
  - by transitivity fw1.
  - intros i w Hi. by apply Hfl, Hd.
  - intros q x Hq Hn Ho Hx. apply Hf'; [done..| |by apply Hf]. by apply (old_place_mono s fw todo s1 fw1 todo).
Qed.
(** [load_field (v, i)] for [i > 0] reads the field of the block that was copied. *)
Lemma later_field s fw done i w : at_work s fw done -> (0 < i)%nat -> fields blk !! i = Some w -> load_field s (Adr b 0) i = Ok w.
Proof.
  intros (I & Hf & _) Hi Hw. unfold load_field. simpl. rewrite (i_left _ _ _ _ I _ _ Hb Hy), Hf. simpl.
  rewrite list_lookup_insert_ne by lia. by rewrite Hw.
Qed.
Lemma fields_loop l : forall s fw done, at_work s fw done -> NoDup l ->
  (forall i, i ∈ l -> (0 < i)%nat /\ is_Some (fields blk !! i) /\ i ∉ done) ->
  fills s fw (done ++ l) (for_each (fun i s => let* w := load_field s (Adr b 0) i in oldify fuel w (In k i) s) l s).
Proof.
  induction l as [|i l IHl]; intros s fw done Hw Hnd Hl.
  - rewrite app_nil_r. exists fw. destruct Hw as (? & ? & ? & ?). split_and!; try done. by intros ? ? ? ? ? ?.
  - apply NoDup_cons in Hnd as [Hil Hnd]. destruct (Hl i) as (Hi & [w Hfi] & Hid); [by left|].
    rewrite for_each_cons, (later_field _ _ _ _ _ Hw Hi Hfi). cbn [rbind].
    pose proof (one_field _ _ _ _ _ Hw Hfi Hid) as H1. destruct (oldify fuel w (In k i) s) as [s1| | |]; try done.
    destruct H1 as (fw1 & Hs1 & I1 & Hf1 & Hfr1). cbn [rbind].
    eapply (fills_trans _ _ ((done ++ [i]) ++ l)); [apply Hw|done|done|done| |].
    + apply IHl; [by eapply at_work_next|done|]. intros j Hj. destruct (Hl j) as (? & ? & Hjd); [by right|]. split_and!; try done.
      intros [|Hji]%elem_of_app; [done|]. apply list_elem_of_singleton in Hji as ->. done.
    + intros j. rewrite !elem_of_app, elem_of_cons, list_elem_of_singleton. tauto.
Qed.
Lemma all_fields s fw w0 (sz := Z.of_nat (length (fields blk))) : at_work s fw [] -> fields blk !! O = Some w0 ->
  fills s fw (seq 0 (length (fields blk)))
    (if sz =? 1 then oldify fuel w0 (In k 0) s
     else
       let* s := oldify fuel w0 (In k 0) s in
       let* s := for_each (fun i s => let* w := load_field s (Adr b 0) i in oldify fuel w (In k i) s) (seq 1 (Z.to_nat sz - 2)) s in
       let i := (Z.to_nat sz - 1)%nat in let* w := load_field s (Adr b 0) i in oldify fuel w (In k i) s).
Proof.
  intros Hw Hw0. pose proof (one_field _ _ _ _ _ Hw Hw0 (not_elem_of_nil _)) as H0. pose proof (lookup_lt_Some _ _ _ Hw0) as Hlen.
  subst sz. destruct (Z.eqb_spec (Z.of_nat (length (fields blk))) 1) as [E|E].
  { by replace (length (fields blk)) with 1%nat by lia. }
  rewrite Nat2Z.id. destruct (oldify fuel w0 (In k 0) s) as [s1| | |]; try done. cbn [rbind].
  destruct H0 as (fw1 & Hs1 & I1 & Hf1 & Hfr1). assert (at_work s1 fw1 [O]) as Hw1 by (by eapply at_work_next).
  eapply (fills_trans s fw (seq 0 (length (fields blk)))); [apply Hw|exact I1|done|done| |done].
  pose proof (fields_loop (seq 1 (length (fields blk) - 2)) s1 fw1 [O] Hw1 (NoDup_seq _ _)) as H1.
  assert (forall i, i ∈ seq 1 (length (fields blk) - 2) -> (0 < i)%nat /\ is_Some (fields blk !! i) /\ i ∉ [O]) as Hin.
  { intros i Hi%elem_of_seq. split_and!; [lia|apply lookup_lt_is_Some; lia|]. rewrite list_elem_of_singleton. lia. }
  specialize (H1 Hin). destruct (for_each _ _ s1) as [s2| | |]; try done. cbn [rbind].
  destruct H1 as (fw2 & Hs2 & I2 & Hf2 & Hfr2). assert (at_work s2 fw2 ([O] ++ seq 1 (length (fields blk) - 2))) as Hw2 by (by eapply at_work_next).
  eapply (fills_trans s1 fw1 (seq 0 (length (fields blk)))); [done..| |done].
  destruct (lookup_lt_is_Some_2 (fields blk) (length (fields blk) - 1)) as [w Hlast]; [lia|].
  rewrite (later_field _ _ _ _ _ Hw2 (ltac:(lia) : (0 < length (fields blk) - 1)%nat) Hlast). cbn [rbind].
  pose proof (one_field _ _ _ _ _ Hw2 Hlast) as H2.
  replace (seq 0 (length (fields blk))) with (([O] ++ seq 1 (length (fields blk) - 2)) ++ [(length (fields blk) - 1)%nat]).
  - apply H2. rewrite elem_of_app, list_elem_of_singleton, elem_of_seq. lia.
  - apply first_middle_last. lia.
Qed.
End fields.

(** ** The cases of [oldify] *)

Lemma assign_copied s fw todo p v w : ready s fw todo p v -> closed h0 fw v -> w = ren fw v -> copied s fw todo p v (assign p w s).
Proof.
  intros (I & Hp & Ho & [x Hx] & _) Hc ->. destruct (assign_some _ _ (ren fw v) _ Hx) as [s' Ha]. rewrite Ha.
  exists fw. split_and!; try done.
  - eapply inv_assign; [done|by left|done|done].
  - rewrite (deref_assign _ _ _ _ _ Ha). by rewrite decide_True.
  - intros q z Hq Hn _ Hz. rewrite (deref_assign _ _ _ _ _ Ha). by rewrite decide_False.
Qed.
Lemma infix_header s fw todo b blk o x : inv s fw todo None -> h0 !! b = Some blk -> young blk = true ->
  infix_at blk o -> Hd_val h0 (Adr b o) = Ok x -> Hd_val (heap s) (Adr b o) = Ok x.
Proof.
  intros I Hb Hy (Ho & _) Hx. destruct o as [|o]; [lia|]. simpl in *. rewrite Hb in Hx. rewrite (i_left _ _ _ _ I _ _ Hb Hy).
  destruct (fw !! b); [|done]. simpl. by rewrite list_lookup_insert_ne by lia.
Qed.
Lemma infix_copied fuel s fw todo p b o x : copies fuel -> ready s fw todo p (Adr b o) -> (turns fw (Adr b o) < S fuel)%nat ->
  (0 < o)%nat -> back (Adr b o) (Infix_offset_hd x) = Ok (Adr b 0) -> Z.of_nat o = Infix_offset_hd x ->
  copied s fw todo p (Adr b o) (let* v := back (Adr b o) (Infix_offset_hd x) in
    let* s := oldify fuel v p s in let* w := deref s p in let* w := forth w (Infix_offset_hd x) in assign p w s).
Proof.
  intros IH (I & Hp & Ho & Hx & (blk & Hb & _) & Hl) Ht Hlt Hback Hoff. rewrite Hback. cbn [rbind].
  assert (copied s fw todo p (Adr b 0) (oldify fuel (Adr b 0) p s)) as H.
  { apply IH; [|unfold turns in *; destruct o; lia]. split_and!; try done. exists blk. split; [done|by left]. }
  destruct (oldify fuel (Adr b 0) p s) as [s1| | |]; try done. destruct H as (fw1 & Hs & I1 & Hd & Hc & Hf).
  cbn [rbind]. rewrite Hd. cbn [rbind]. 
  assert (forth (ren fw1 (Adr b 0)) (Infix_offset_hd x) = Ok (ren fw1 (Adr b o))) as ->.
  { rewrite <-Hoff. simpl. destruct (fw1 !! b); simpl; by rewrite Nat2Z.id. }
  cbn [rbind]. destruct (assign_some _ _ (ren fw1 (Adr b o)) _ Hd) as [s2 Ha]. rewrite Ha. exists fw1. split_and!; try done.
  - eapply inv_assign; [done|by left| |done]. by apply (old_place_mono s fw todo s1 fw1 todo).
  - rewrite (deref_assign _ _ _ _ _ Ha). by rewrite decide_True.
  - intros q z Hq Hn Hoq Hz. rewrite (deref_assign _ _ _ _ _ Ha). rewrite decide_False by done. by apply Hf.
Qed.

(** A block without pointers is copied word by word. *)
Lemma noscan_copied s fw todo p b blk : ready s fw todo p (Adr b 0) -> h0 !! b = Some blk -> young blk = true -> fw !! b = None ->
  No_scan_tag <= btag blk ->
  copied s fw todo p (Adr b 0) (
    let* (result, s) := alloc_shr junk room addr (Wosize_hd (hd blk)) (Tag_hd (hd blk)) s in
    let* s := for_each (fun i s => let* w := load_field s (Adr b 0) i in assign (In result i) w s) (seq 0 (Z.to_nat (Wosize_hd (hd blk)))) s in
    let* s := mark_forwarded (Adr b 0) (hd blk) s in
    let* s := store_field (Adr b 0) 0 (Adr result 0) s in
    assign p (Adr result 0) s).
Proof.
  intros (I & Hp & Ho & [x Hx] & _ & Hl) Hb Hy Hf Ht.
  destruct (ok_block _ _ Hok _ _ Hb) as [Hh _]. destruct (header_of_block _ Hh) as (t & _ & _ & Hsz).
  destruct (inv_alloc junk room s fw todo (Wosize_hd (hd blk)) (Tag_hd (hd blk)) I) as [[-> Hr]|(k & s1 & -> & I1 & Hk & Hk0 & Hh1 & Hc1)].
  { by eexists _, _. }
  cbn [rbind]. pose proof (i_left _ _ _ _ I _ _ Hb Hy) as Hlb. rewrite Hf in Hlb.
  assert (b <> k) as Hbk by congruence.
  destruct (copy_fields k b blk (seq 0 (Z.to_nat (Wosize_hd (hd blk)))) Hb Hy s1 fw todo
    (mkG false (Make_header (Wosize_hd (hd blk)) (Tag_hd (hd blk)) (alloc_color addr s0 k)) (junk k <$> seq 0 (Z.to_nat (Wosize_hd (hd blk))))) I1)
    as (s2 & y & -> & I2 & Hb2 & Hk2 & Hhy & Hly & Hfl & Hfr).
  { by rewrite Hh1, lookup_insert_ne. }
  { by rewrite Hh1, lookup_insert_eq. }
  { simpl. rewrite length_fmap, length_seq, Hsz. lia. }
  { apply Forall_forall. intros i Hi%elem_of_seq. lia. }
  cbn [rbind]. pose proof (forward_steps s2 b blk (hd blk) (Adr k 0) Hb2 (young_nonempty _ _ Hb Hy)) as Hfw. rewrite Hy in Hfw.
  destruct (mark_forwarded (Adr b 0) (hd blk) s2) as [s3| | |]; try done. cbn [rbind] in Hfw |- *. rewrite Hfw. cbn [rbind].
  pose proof (inv_forward s2 fw todo b k blk y I2 Hb Hy Hf Hl Hk2) as I3.
  rewrite Hhy in I3. specialize (I3 (new_header _ _ Hh Hy) Hly).
  set (s4 := set_heap _ s2) in *.
  assert (forall q, old_place s q -> deref s4 q = deref s q) as Hq.
  { intros [n|d i]; [intros _; transitivity (deref s2 (Cell n)); [done|]; rewrite Hfr by done; by simpl; rewrite Hc1|].
    intros (z & Hz & Hyz). simpl. rewrite lookup_insert_ne by congruence. change (deref s2 (In d i) = deref s (In d i)).
    rewrite Hfr by (intros ? _ [= ->]; congruence). simpl. rewrite Hh1, lookup_insert_ne by congruence. done. }
  apply (inv_less _ _ _ todo) in I3.
  2: { intros q w Hor [|[i ->]]; [by left|right]. destruct Hor as (a & z & Ha & Hm & Hw).
    assert (moved h0 (<[b := k]> fw) b k) as Hmb by (exists blk; rewrite Hy; by rewrite lookup_insert_eq).
    rewrite (moved_inj _ _ _ _ _ _ _ I3 Hm Hmb) in Ha. assert (z = blk) as -> by congruence.
    pose proof (field_word _ _ _ _ Hb (young_not_raw _ _ _ Hb Hy) Hw) as Hwi. destruct (Z.ltb_spec (btag blk) No_scan_tag); [lia|]. destruct Hwi as [u ->].
    split; [|done]. simpl. rewrite lookup_insert_ne, Hk2 by done. simpl. rewrite Hfl, Hw; [done|]. apply elem_of_seq.
    apply lookup_lt_Some in Hw. lia. }
  destruct (assign_some p x (Adr k 0) s4) as [s5 Ha]; [by rewrite Hq|]. rewrite Ha. exists (<[b := k]> fw). split_and!.
  - by apply insert_subseteq.
  - eapply (inv_assign s4); [done|by left| |done]. by apply (old_place_mono s fw todo s4 (<[b := k]> fw) todo); [done..|apply insert_subseteq|].
  - rewrite (deref_assign _ _ _ _ _ Ha), decide_True by done. simpl. by rewrite lookup_insert_eq.
  - simpl. intros z Hz _. rewrite lookup_insert_eq. by eexists.
  - intros q z Hq' Hn Hoq Hz. rewrite (deref_assign _ _ _ _ _ Ha), decide_False by done. by rewrite Hq.
Qed.

(** A block with pointers is forwarded, then its fields are copied. *)
Lemma scan_copied fuel s fw todo p b blk : copies fuel -> ready s fw todo p (Adr b 0) -> (turns fw (Adr b 0) < S fuel)%nat ->
  h0 !! b = Some blk -> young blk = true -> fw !! b = None -> btag blk < No_scan_tag ->
  copied s fw todo p (Adr b 0) (
    let sz := Wosize_hd (hd blk) in
    let* (result, s) := alloc_shr junk room addr sz (Tag_hd (hd blk)) s in
    let* s := assign p (Adr result 0) s in
    let* field0 := load_field s (Adr b 0) 0 in
    let* s := mark_forwarded (Adr b 0) (hd blk) s in
    let* s := store_field (Adr b 0) 0 (Adr result 0) s in
    if sz =? 1 then oldify fuel field0 (In result 0) s
    else
      let* s := oldify fuel field0 (In result 0) s in
      let* s := for_each (fun i s => let* w := load_field s (Adr b 0) i in oldify fuel w (In result i) s) (seq 1 (Z.to_nat sz - 2)) s in
      let i := (Z.to_nat sz - 1)%nat in
      let* w := load_field s (Adr b 0) i in
      oldify fuel w (In result i) s).
Proof.
  intros IH (I & Hp & Ho & [x Hx] & _ & Hl) Hfu Hb Hy Hf Ht. cbn zeta.
  destruct (ok_block _ _ Hok _ _ Hb) as [Hh _]. destruct (header_of_block _ Hh) as (t & _ & _ & Hsz).
  destruct (inv_alloc junk room s fw todo (Wosize_hd (hd blk)) (Tag_hd (hd blk)) I) as [[-> Hr]|(k & s1 & -> & I1 & Hk & Hk0 & Hh1 & Hc1)].
  { by eexists _, _. }
  cbn [rbind]. assert (b <> k) as Hbk by congruence.
  assert (forall q, old_place s q -> deref s1 q = deref s q /\ old_place s1 q /\ forall i, q <> In k i) as Hq1.
  { intros [n|d i]; simpl; [by rewrite Hc1|]. intros (z & Hz & Hyz). assert (k <> d) by congruence. rewrite Hh1, lookup_insert_ne by done.
    split_and!; [done|by exists z|congruence]. }
  destruct (Hq1 _ Ho) as (Hd1 & Ho1 & Hpk). destruct (assign_some p x (Adr k 0) s1) as [s2 Ha]; [by rewrite Hd1|]. rewrite Ha. cbn [rbind].
  pose proof (inv_assign s1 fw todo (Some k) p _ _ I1 (or_introl Hp) Ho1 Ha) as I2.
  pose proof (i_left _ _ _ _ I2 _ _ Hb Hy) as Hb2. rewrite Hf in Hb2. pose proof (young_nonempty _ _ Hb Hy) as Hne.
  destruct (fields blk !! O) as [w0|] eqn:Hw0; [|by destruct (fields blk)].
  assert (load_field s2 (Adr b 0) 0 = Ok w0) as -> by (unfold load_field; simpl; rewrite Hb2; simpl; by rewrite Hw0). cbn [rbind].
  pose proof (forward_steps s2 b blk (hd blk) (Adr k 0) Hb2 Hne) as Hfw. rewrite Hy in Hfw.
  destruct (mark_forwarded (Adr b 0) (hd blk) s2) as [s3| | |]; try done. cbn [rbind] in Hfw |- *. rewrite Hfw. cbn [rbind].
  pose proof (assign_block _ _ _ _ Ha k) as Hkb. rewrite Hh1, lookup_insert_eq in Hkb.
  destruct (heap s2 !! k) as [y|] eqn:Hk2; [|done]. simpl in Hkb. destruct Hkb as (_ & Hhy & Hly & _).
  rewrite length_fmap, length_seq, Hsz, Nat2Z.id in Hly.
  pose proof (inv_forward s2 fw todo b k blk y I2 Hb Hy Hf Hl Hk2) as I4. rewrite Hhy in I4.
  specialize (I4 (new_header _ _ Hh Hy) Hly). set (s4 := set_heap _ s2) in *.
  set (fw1 := <[b := k]> fw) in *. set (todo1 := fun q => todo q \/ exists i, q = In k i) in *.
  assert (forall i, todo1 (In k i)) as Htk by (intros i; right; by exists i).
  assert (fw ⊆ fw1) as Hs1 by (by apply insert_subseteq).
  assert (fw1 !! b = Some k) as Hfb by apply lookup_insert_eq.
  assert (at_work fuel b k blk todo1 s4 fw1 []) as Hwork.
  { split_and!; [done|done|by intros ? ? ?%elem_of_nil|]. pose proof (left_insert fw b k blk Hb Hy Hf). unfold turns in Hfu. subst fw1. lia. }
  pose proof (all_fields fuel IH b k blk todo1 Hb Hy Ht Hl Htk s4 fw1 w0 Hwork Hw0) as Hall. cbn zeta in Hall. rewrite <-Hsz in Hall.
  assert (forall q, old_place s q -> q <> p -> deref s4 q = deref s q) as Hq4.
  { intros q Hq Hn. transitivity (deref s2 q).
    - destruct q as [n|d i]; [done|]. simpl. destruct Hq as (z & Hz & Hyz). rewrite lookup_insert_ne; [done|]. intros <-.
      rewrite (i_left _ _ _ _ I _ _ Hb Hy), Hf in Hz. congruence.
    - rewrite (deref_assign _ _ _ _ _ Ha), decide_False by done. by apply Hq1. }
  assert (old_place s4 p) as Ho4 by (by apply (old_place_mono s fw todo s4 fw1 todo1)).
  assert (deref s4 p = Ok (Adr k 0)) as Hp4.
  { transitivity (deref s2 p); [|by rewrite (deref_assign _ _ _ _ _ Ha), decide_True]. destruct p as [n|d i]; [done|].
    simpl. destruct Ho as (z & Hz & Hyz). rewrite lookup_insert_ne; [done|]. intros <-. rewrite (i_left _ _ _ _ I _ _ Hb Hy), Hf in Hz. congruence. }
  destruct (if Wosize_hd (hd blk) =? 1 then _ else _) as [s5| | |]; try done.
  destruct Hall as (fw5 & Hs5 & I5 & Hf5 & Hfr5). exists fw5.
  assert (fw5 !! b = Some k) as Hfb5 by (by eapply lookup_weaken). split_and!.
  - by transitivity fw1.
  - apply (inv_less _ _ todo1); [done|]. intros q w Hor [|[i ->]]; [by left|right].
    destruct Hor as (a & z & Haz & Hm & Hw). assert (moved h0 fw5 b k) as Hmb by (exists blk; by rewrite Hy).
    rewrite (moved_inj _ _ _ _ _ _ _ I5 Hm Hmb) in Haz. assert (z = blk) as -> by congruence.
    apply Hf5; [|done]. apply elem_of_seq. apply lookup_lt_Some in Hw. lia.
  - rewrite (Hfr5 p (Adr k 0)); [|by left|by intros [i ->]; eapply Hpk|done..]. simpl. by rewrite Hfb5.
  - simpl. intros _ _ _. by rewrite Hfb5.
  - intros q z Hq Hn Hoq Hz. apply Hfr5; [by left| | |].
    + intros [i ->]. destruct (Hq1 _ Hoq) as (_ & _ & Hki). by destruct (Hki i).
    + by apply (old_place_mono s fw todo s4 fw1 todo1).
    + rewrite Hq4; [done..|by intros ->].
Qed.

Theorem oldify_copies fuel : copies fuel.
Proof.
  induction fuel as [|fuel IH]; intros v p s fw todo Hr Ht; [lia|]. pose proof Hr as (I & Hp & Ho & _ & Hv & Hl). cbn [Minor.oldify].
  rewrite (inv_is_young _ _ _ _ _ I Hv).
  destruct v as [w|b o]; [rewrite andb_false_r; by apply assign_copied|].
  pose proof Hv as (blk & Hb & _). simpl (is_young _ _). rewrite Hb. destruct (young blk) eqn:Hy; simpl (_ && _); cbv iota.
  2: { apply assign_copied; [done| |].
    - intros z Hz Hyz. congruence.
    - simpl. by rewrite (fw_old _ _ _ _ _ _ I Hb Hy). }
  destruct (header_at _ _ _ Hv) as (blk' & x & Hb' & Hx & Hnb & Hcase).
  { intros z Hz. by apply (ok_block _ _ Hok _ _ Hz). }
  assert (blk' = blk) as -> by congruence. pose proof (i_left _ _ _ _ I _ _ Hb Hy) as Hlb.
  destruct Hcase as [(-> & -> & Hti)|(Ho0 & Hti & Hback & Hinf & Hoff)].
  - destruct (fw !! b) as [c|] eqn:Hf.
    + destruct (ok_block _ _ Hok _ _ Hb) as [Hh Hne]. specialize (Hne Hy).
      assert (Hd_val (heap s) (Adr b 0) = Ok (Bluehd_hd (hd blk))) as -> by (simpl; by rewrite Hlb). cbn [rbind].
      destruct Hh as (t & cl & Hh & Hpa & Hcl & _). rewrite Hh, Bluehd_header by done. unfold Is_blue_hd.
      rewrite Color_header by (done || by right; right; left). simpl (Blue =? Blue). cbv iota.
      assert (load_field s (Adr b 0) 0 = Ok (Adr c 0)) as ->.
      { unfold load_field. simpl. rewrite Hlb. simpl. by destruct (fields blk). }
      cbn [rbind]. apply assign_copied; [done| |simpl; by rewrite Hf]. simpl. intros _ _ _. by rewrite Hf.
    + assert (Hd_val (heap s) (Adr b 0) = Ok (hd blk)) as -> by (simpl; by rewrite Hlb). cbn [rbind]. rewrite Hnb.
      destruct (Z.eqb_spec (Tag_hd (hd blk)) Infix_tag); [done|].
      destruct (Z.leb_spec No_scan_tag (Tag_hd (hd blk))); [by apply noscan_copied|by apply scan_copied].
  - rewrite (infix_header _ _ _ _ _ _ _ I Hb Hy Hinf Hx). cbn [rbind]. rewrite Hnb, Hti. simpl (Infix_tag =? Infix_tag). cbv iota.
    by eapply infix_copied.
Qed.

(** ** The roots *)

(** The places that the collection visits, and the cells that it leaves alone. *)
Definition waiting (done : list place) (q : place) : Prop := (start q \/ raw q) /\ q ∉ done.
Definition progress (s : gc) (fw : gmap nat nat) (done : list place) : Prop :=
  inv s fw (waiting done) None /\ forall q w, waiting done q -> deref s0 q = Ok w -> deref s q = Ok w.
Lemma assign_same s p w : deref s p = Ok w -> assign p w s = Ok s.
Proof.
  destruct p as [n|b i]; simpl; intros H.
  - apply of_ptr_Ok in H. rewrite H. simpl. rewrite insert_id by done. by destruct s.
  - destruct (heap s !! b) as [blk|] eqn:Hb; simpl in *; [|done]. apply of_ptr_Ok in H. rewrite H. simpl.
    rewrite list_insert_id by done. replace (mkG (young blk) (hd blk) (fields blk)) with blk by (by destruct blk).
    rewrite insert_id by done. by destruct s.
Qed.
Lemma start_place p : start p -> exists w, deref s0 p = Ok w /\ word_ok h0 w /\ old_place s0 p /\
  forall s fw todo, inv s fw todo None -> origin s0 fw p w /\ (forall v, origin s0 fw p v -> v = w) /\ old_place s p.
Proof.
  destruct p as [n|b i]; intros Hs.
  - destruct (ok_roots _ _ Hok _ Hs) as [w Hw]. exists w. assert (deref s0 (Cell n) = Ok w) as Hd by (simpl; by rewrite Hw).
    pose proof (ok_word _ _ Hok _ _ Hd (ok_cells _ _ Hok _ Hs)) as Hc. split_and!; [done|exact Hc|done|].
    + intros s fw todo I. split_and!; [done| |done]. intros v Hv. simpl in Hv. congruence.
  - destruct (ok_refs _ _ Hok _ Hs) as (Hin & Hsc & w & Hw). exists w.
    assert (exists blk, h0 !! b = Some blk /\ young blk = false) as (blk & Hb & Hy).
    { simpl in Hin. destruct (h0 !! b) as [blk|]; [|done]. exists blk. by destruct (young blk). }
    pose proof (ok_word _ _ Hok _ _ Hw (fun f => proj2 (ra_old _ _ Hraw _ _ f) Hs)) as Hc. unfold content_ok in Hc. rewrite Hsc in Hc.
    split_and!; [done..|by exists blk|]. intros s fw todo I.
    assert (moved h0 fw b b) as Hm by (exists blk; by rewrite Hy). simpl in Hw. rewrite Hb in Hw. simpl in Hw. apply of_ptr_Ok in Hw.
    split_and!.
    + by exists b, blk.
    + intros v (a & z & Ha & Hma & Hv). rewrite (moved_inj _ _ _ _ _ _ _ I Hma Hm) in Ha. congruence.
    + destruct (i_moved _ _ _ _ I _ _ _ Hb Hm) as (x & Hx & Hyx & _). by exists x.
Qed.
Lemma raw_old q s fw todo spare : raw q -> inv s fw todo spare -> old_place s q.
Proof.
  destruct q as [n|b i]; [done|]. intros [Hr _]%(ra_old _ _ Hraw) I. simpl in Hr. destruct (h0 !! b) as [blk|] eqn:Hb; [|done].
  destruct (inv_young _ _ _ _ _ _ I Hb) as (x & Hx & Hyx). exists x. split; [done|]. by destruct (young blk).
Qed.
Lemma oldify_place_progress fuel s fw done p : progress s fw done -> start p -> (2 * size young_blocks + 2 <= fuel)%nat ->
  match oldify_place junk room addr fuel p s with
  | Ok s' => exists fw', progress s' fw' (done ++ [p])
  | Panic => no_room
  | _ => False
  end.
Proof.
  intros [I Hun] Hp Hfu. destruct (start_place p Hp) as (w & Hw & Hwo & Ho0 & Hpl). destruct (Hpl _ _ _ I) as (Hor & Hu & Ho).
  unfold oldify_place. destruct (decide (p ∈ done)) as [Hd|Hd].
  - destruct (i_done _ _ _ _ I _ _ Hor) as [[_ ?]|[Hv Hc]]; [done|]. rewrite Hv. cbn [rbind].
    assert (is_young (heap s) (ren fw w) = false) as Hny.
    { destruct w as [u|b o]; [done|]. destruct Hwo as (blk & Hb & _). simpl. destruct (young blk) eqn:Hy.
      - destruct (Hc _ Hb Hy) as [c Hf]. rewrite Hf. simpl. destruct (i_moved _ _ _ _ I b c blk Hb) as (x & -> & -> & _); [|done].
        exists blk. by rewrite Hy.
      - rewrite (fw_old _ _ _ _ _ _ I Hb Hy). simpl. destruct (inv_young _ _ _ _ _ _ I Hb) as (x & -> & ->). done. }
    destruct fuel as [|fuel]; [lia|]. cbn [Minor.oldify]. rewrite Hny, andb_false_r, (assign_same _ _ _ Hv). exists fw. split.
    + apply (inv_less _ _ (waiting done)); [done|]. intros q v _ [? Hq]. left. split; [done|].
      rewrite elem_of_app, list_elem_of_singleton. intros [| ->]; done.
    + intros q v [Hq Hn]. apply Hun. split; [done|]. intros ?. apply Hn. apply elem_of_app. by left.
  - rewrite (Hun _ _ (conj (or_introl Hp) Hd) Hw). cbn [rbind].
    pose proof (oldify_copies fuel w p s fw (waiting done)) as H.
    assert (ready s fw (waiting done) p w) as Hr.
    { split_and!; [done|split; [by left|done]|done|exists w; apply Hun; [split; [by left|done]|done]|done|].
      destruct w as [|b o]; [done|]. by eapply live_start. }
    specialize (H Hr). unfold turns in H. assert (left_over fw <= size young_blocks)%nat as Hlo
      by (unfold left_over; apply subseteq_size; set_solver).
    specialize (H ltac:(destruct w as [|? []]; lia)).
    destruct (oldify fuel w p s) as [s'| | |]; try done. destruct H as (fw' & Hs & I' & Hv & Hc & Hf). exists fw'.
    destruct (Hpl _ _ _ I') as (_ & Hu' & _). split.
    + apply (inv_less _ _ (waiting done)); [done|]. intros q v Hq [Hq1 Hq2]. destruct (decide (q = p)) as [->|Hqp].
      * right. by rewrite (Hu' _ Hq).
      * left. split; [done|]. rewrite elem_of_app, list_elem_of_singleton. by intros [|].
    + intros q v [Hq Hn] Hv0. rewrite elem_of_app, list_elem_of_singleton in Hn. apply Hf; [split; [done|tauto]|intros <-; tauto| |].
      * destruct Hq as [Hq|Hq]; [|by eapply raw_old]. destruct (start_place q Hq) as (u & _ & _ & _ & Hpq). by apply (Hpq _ _ _ I).
      * apply Hun; [|done]. split; [done|tauto].
Qed.
Lemma places_progress fuel l : forall s fw done, progress s fw done -> (forall p, p ∈ l -> start p) -> (2 * size young_blocks + 2 <= fuel)%nat ->
  match for_each (oldify_place junk room addr fuel) l s with
  | Ok s' => exists fw', progress s' fw' (done ++ l)
  | Panic => no_room
  | _ => False
  end.
Proof.
  induction l as [|p l IH]; intros s fw done Hpr Hl Hfu; [exists fw; by rewrite app_nil_r|].
  rewrite for_each_cons. pose proof (oldify_place_progress fuel s fw done p Hpr (Hl p ltac:(by left)) Hfu) as H.
  destruct (oldify_place _ _ _ fuel p s) as [s1| | |]; try done. destruct H as [fw1 H]. cbn [rbind].
  specialize (IH s1 fw1 (done ++ [p]) H). rewrite <-app_assoc in IH. apply IH; [|done]. intros q Hq. apply Hl. by right.
Qed.

Lemma progress_start : progress s0 ∅ [].
Proof.
  assert (forall q w, origin s0 ∅ q w -> deref s0 q = Ok w) as Hor.
  { intros [n|c i] w; simpl; [by intros ->|]. intros (b & blk & Hb & (z & Hz & Hm) & Hw). assert (z = blk) as -> by congruence.
    destruct (young blk); [done|]. subst c. rewrite Hb. simpl. by rewrite Hw. }
  split; [|done]. split; try done.
  - intros b c blk Hb (z & Hz & Hm). assert (z = blk) as -> by congruence. unfold moved_header.
    destruct (young blk) eqn:Hy; [done|]. subst c. by exists blk.
  - intros q w Hq. pose proof (Hor _ _ Hq) as Hd. destruct q as [n|c i].
    + left. split; [|apply not_elem_of_nil]. simpl. destruct (decide (n ∈ roots s0)); [by left|right; by apply (ra_cell _ _ Hraw)].
    + destruct (decide (In c i ∈ ref_table s0)) as [Hr|Hr]; [left; split; [by left|apply not_elem_of_nil]|].
      destruct (ra_dec _ _ Hraw (In c i)) as [Hc|Hnr]; [left; split; [by right|apply not_elem_of_nil]|right].
      split; [rewrite Hd; f_equal; by destruct w|]. destruct w as [u|b o]; [done|]. intros z Hz Hy.
      destruct Hr. eapply (ok_young _ _ Hok); [exact Hd|done| |simpl; by rewrite Hz].
      destruct Hq as (a & blk & Ha & (z' & Hz' & Hm) & _). assert (z' = blk) as -> by congruence. simpl.
      destruct (young blk) eqn:Hyb; [done|]. subst c. by rewrite Ha, Hyb.
  - intros c Hc. by left.
Qed.
Lemma root_start n : n ∈ roots s0 -> start (Cell n).
Proof. done. Qed.
Lemma local_roots_progress fuel : (2 * size young_blocks + 2 <= fuel)%nat ->
  match oldify_local_roots junk room addr fuel s0 with
  | Ok s' => exists fw', progress s' fw' (Cell <$> roots s0)
  | Panic => no_room
  | _ => False
  end.
Proof.
  intros Hfu. unfold oldify_local_roots, oldify_stack, oldify_tables, oldify_global, run_hook.
  assert (forall l s fw done, l ⊆ roots s0 -> progress s fw done ->
    match for_each (fun n => oldify_place junk room addr fuel (Cell n)) l s with
    | Ok s' => root_lists s' = root_lists s0 /\ exists fw', progress s' fw' (done ++ (Cell <$> l))
    | Panic => no_room | _ => False end) as Hcells.
  { intros l s fw done Hl Hpr. rewrite <-(for_each_fmap _ Cell l s).
    pose proof (places_progress fuel (Cell <$> l) s fw done Hpr) as H. 
    destruct (for_each _ _ s) as [s'| | |]; [|apply H; [intros p [n [-> Hn]]%list_elem_of_fmap; by apply Hl|done]..].
    destruct H as [fw' H]; [intros p [n [-> Hn]]%list_elem_of_fmap; by apply Hl|done|]. split; [|by exists fw'].
    apply (i_refs _ _ _ _ (proj1 H)). }
  unfold roots in Hcells |- *. destruct (root_lists s0) as [[[st lr] gr] hook] eqn:Hrl. unfold root_lists in Hrl. injection Hrl as Hst Hlr Hgr Hhk.
  rewrite Hst. pose proof (Hcells st s0 ∅ [] ltac:(set_solver) progress_start) as H.
  destruct (for_each _ st s0) as [s1| | |]; try done. destruct H as (Hr1 & fw1 & H1). cbn [rbind]. injection Hr1 as _ -> _ _.
  rewrite for_each_tables. pose proof (Hcells (lr ≫= table_roots) s1 fw1 _ ltac:(set_solver) H1) as H.
  destruct (for_each _ _ s1) as [s2| | |]; try done. destruct H as (Hr2 & fw2 & H2). cbn [rbind]. injection Hr2 as _ _ -> _.
  pose proof (Hcells gr s2 fw2 _ ltac:(set_solver) H2) as H.
  destruct (for_each _ _ s2) as [s3| | |]; try done. destruct H as (Hr3 & fw3 & H3). cbn [rbind]. injection Hr3 as _ _ _ ->.
  pose proof (Hcells hook s3 fw3 _ ltac:(set_solver) H3) as H.
  destruct (for_each _ _ s3) as [s4| | |]; try done. destruct H as (_ & fw4 & H4). exists fw4.
  rewrite !fmap_app, !app_assoc. done.
Qed.
Lemma collect_progress fuel : (2 * size young_blocks + 2 <= fuel)%nat ->
  match empty_minor_heap junk room addr fuel s0 with
  | Ok s' => exists s1 fw, inv s1 fw raw None /\ (forall q w, raw q -> deref s0 q = Ok w -> deref s1 q = Ok w) /\
      s' = set_refs [] (ref_table_size s1) (ref_table_threshold s1) (set_young_ptr (young_end s1) (set_heap (old_only (heap s1)) s1))
  | Panic => no_room
  | _ => False
  end.
Proof.
  intros Hfu. unfold empty_minor_heap. pose proof (local_roots_progress fuel Hfu) as H.
  destruct (oldify_local_roots _ _ _ fuel s0) as [s1| | |]; try done. destruct H as (fw1 & H1). cbn [rbind].
  destruct (i_refs _ _ _ _ (proj1 H1)) as (-> & _).
  pose proof (places_progress fuel (rev (ref_table s0)) s1 fw1 _ H1) as H.
  assert (forall p, p ∈ rev (ref_table s0) -> start p) as Hst.
  { intros p Hp. rewrite list_elem_of_In, <-in_rev, <-list_elem_of_In in Hp. destruct p as [n|b i]; [|done].
    by destruct (ok_refs _ _ Hok _ Hp). }
  specialize (H Hst Hfu). destruct (for_each _ _ s1) as [s2| | |]; try done. destruct H as (fw2 & I2 & Hun). cbn [rbind].
  exists s2, fw2. split_and!; [|intros q w Hq; apply Hun; split; [by right|]|done].
  - apply (inv_less _ _ _ _ _ I2). intros q w _ [[Hq|Hq] Hn]; [|by left]. destruct Hn. apply elem_of_app. destruct q as [n|b i].
    + left. apply list_elem_of_fmap. by exists n.
    + right. by rewrite list_elem_of_In, <-in_rev, <-list_elem_of_In.
  - destruct q as [n|b i]; rewrite elem_of_app; intros [(m & [= Hm] & Hm')%list_elem_of_fmap|Hr].
    + subst m. by eapply (ok_cells _ _ Hok).
    + rewrite list_elem_of_In, <-in_rev, <-list_elem_of_In in Hr. by destruct (ok_refs _ _ Hok _ Hr).
    + rewrite list_elem_of_In, <-in_rev, <-list_elem_of_In in Hr. by destruct (ra_old _ _ Hraw _ _ Hq).
Qed.
End spec.
End collect.

(** ** The theorem *)

(** [s'] is [s] with its live young blocks in the major heap, under the names that [fw]
    gives, and nothing else changed. *)
Record collected (addr : nat -> Z) (raw : place -> Prop) (s s' : gc) (fw : gmap nat nat) : Prop := {
  co_live b : is_Some (fw !! b) <-> live s b /\ exists blk, heap s !! b = Some blk /\ young blk = true;
  co_fresh b c : fw !! b = Some c -> heap s !! c = None;
  co_inj b b' c : fw !! b = Some c -> fw !! b' = Some c -> b = b';
  co_names c : is_Some (heap s' !! c) <-> exists b, moved (heap s) fw b c;
  co_block b c blk : heap s !! b = Some blk -> moved (heap s) fw b c -> exists blk', heap s' !! c = Some blk' /\
    young blk' = false /\ moved_header addr s blk c (hd blk') /\ length (fields blk') = length (fields blk) /\
    forall i w, fields blk !! i = Some w -> fields blk' !! i = Some (ren fw w) /\ ~ raw (In c i) \/ fields blk' !! i = Some w /\ raw (In c i);
  co_roots n : n ∈ roots s -> cells s' !! n = ren fw <$> cells s !! n;
  co_cells n : n ∉ roots s -> cells s' !! n = cells s !! n;
  co_same : root_lists s' = root_lists s /\ gc_phase s' = gc_phase s /\ gc_sweep_hp s' = gc_sweep_hp s /\
    gray_vals s' = gray_vals s /\ heap_is_pure s' = heap_is_pure s /\ markhp s' = markhp s /\ global_data s' = global_data s;
  co_empty : ref_table s' = [] /\ young_ptr s' = young_end s' }.

Section result.
Variable addr : nat -> Z.
Variables (s0 s1 : gc) (fw : gmap nat nat) (raw : place -> Prop).
#[local] Abbreviation h0 := (heap s0).
Hypothesis Hok : gc_ok s0 raw.
Hypothesis Hraw : raw_apart s0 raw.
Hypothesis I : inv addr s0 s1 fw raw None.
Hypothesis Hkept : forall q w, raw q -> deref s0 q = Ok w -> deref s1 q = Ok w.

Lemma final_fields b c blk : h0 !! b = Some blk -> moved h0 fw b c -> exists blk', old_only (heap s1) !! c = Some blk' /\ young blk' = false /\
  moved_header addr s0 blk c (hd blk') /\ length (fields blk') = length (fields blk) /\ forall i w, fields blk !! i = Some w ->
    (fields blk' !! i = Some (ren fw w) /\ closed h0 fw w /\ ~ raw (In c i)) \/ (fields blk' !! i = Some w /\ raw (In c i) /\ b = c).
Proof.
  intros Hb Hm. destruct (i_moved _ _ _ _ _ _ I _ _ _ Hb Hm) as (blk' & Hc & Hy & Hh & Hl). exists blk'.
  split_and!; [by apply map_lookup_filter_Some; split|done..|]. intros i w Hi.
  destruct (ra_dec _ _ Hraw (In c i)) as [Hr|Hr].
  - right. pose proof (ra_old _ _ Hraw _ _ Hr) as [Hin _]. simpl in Hin. destruct (h0 !! c) as [z|] eqn:Hz; [|done].
    assert (b = c) as ->.
    { destruct Hm as (z' & Hz' & Hm). destruct (young z'); [|done]. apply (i_fw _ _ _ _ _ _ I) in Hm as (_ & Hn & _). congruence. }
    assert (z = blk) as -> by congruence. split_and!; [|done..]. pose proof (Hkept (In c i) w Hr) as Hd. simpl in Hd.
    rewrite Hb, Hc in Hd. simpl in Hd. rewrite Hi in Hd. by apply of_ptr_Ok, Hd.
  - left. destruct (i_done _ _ _ _ _ _ I (In c i) w) as [Hd|[Hd Hcl]]; [by exists b, blk|done|].
    split_and!; [|done..]. simpl in Hd. rewrite Hc in Hd. by apply of_ptr_Ok in Hd.
Qed.
Lemma final_block c blk' : old_only (heap s1) !! c = Some blk' -> exists b blk, h0 !! b = Some blk /\ moved h0 fw b c.
Proof.
  intros [Hc Hy]%map_lookup_filter_Some. simpl in Hy. destruct (i_dom _ _ _ _ _ _ I c) as [[blk Hb]|[[b Hb]|]]; [by eexists|..|done].
  - destruct (inv_young _ _ _ _ _ _ _ _ I Hb) as (x & Hx & Hyx). exists c, blk. split; [done|]. exists blk. split; [done|].
    replace (young blk) with false by congruence. done.
  - pose proof (moved_none _ _ _ _ _ _ _ _ I Hb) as Hm. pose proof Hm as (blk & Hblk & _). by exists b, blk.
Qed.
Lemma live_copied b : live s0 b -> forall blk, h0 !! b = Some blk -> young blk = true -> is_Some (fw !! b).
Proof.
  induction 1 as [p b o Hp Hd|a ab i b o Ha IH Hab Hy Ht Hf].
  - destruct (start_place addr s0 raw Hok Hraw p Hp) as (w & Hw & _ & _ & Hpl). assert (w = Adr b o) as -> by congruence.
    destruct (Hpl _ _ _ I) as (Hor & _). destruct (i_done _ _ _ _ _ _ I _ _ Hor) as [Hr|[_ Hc]]; [|exact Hc].
    destruct p as [n|c i]; [by eapply (ok_cells _ _ Hok) in Hr|by apply (ra_old _ _ Hraw) in Hr as [_ []]].
  - destruct (IH _ Hab Hy) as [c Hc]. intros blk. destruct (final_fields a c ab Hab) as (x & _ & _ & _ & _ & Hcl).
    + exists ab. by rewrite Hy.
    + destruct (Hcl _ _ Hf) as [(_ & Hcl' & _)|(_ & _ & ->)]; [exact (Hcl' blk)|].
      apply (i_fw _ _ _ _ _ _ I) in Hc as (_ & Hc & _). congruence.
Qed.

Let s' := set_refs [] (ref_table_size s1) (ref_table_threshold s1) (set_young_ptr (young_end s1) (set_heap (old_only (heap s1)) s1)).
Lemma final_collected : collected addr raw s0 s' fw.
Proof.
  split.
  - intros b. split.
    + intros [c Hc]. destruct (i_fw _ _ _ _ _ _ I _ _ Hc) as (Hy & _ & Hl). done.
    + intros [Hl (blk & Hb & Hy)]. by eapply live_copied.
  - intros b c Hc. apply (i_fw _ _ _ _ _ _ I _ _ Hc).
  - apply (i_inj _ _ _ _ _ _ I).
  - intros c. split.
    + intros [blk' Hc]. destruct (final_block _ _ Hc) as (b & blk & Hb & Hm). by exists b.
    + intros (b & Hm). pose proof Hm as (blk & Hb & _). destruct (final_fields _ _ _ Hb Hm) as (x & Hx & _). by exists x.
  - intros b c blk Hb Hm. destruct (final_fields _ _ _ Hb Hm) as (x & Hx & Hy & Hh & Hl & Hf). exists x. split_and!; [done..|].
    intros i w Hi. destruct (Hf i w Hi) as [(? & _ & ?)|(? & ? & _)]; [by left|by right].
  - intros n Hn. destruct (ok_roots _ _ Hok _ Hn) as [w Hw]. rewrite Hw. simpl.
    destruct (i_done _ _ _ _ _ _ I (Cell n) w Hw) as [Hd|[Hd _]]; [by eapply (ok_cells _ _ Hok) in Hd|]. by apply of_ptr_Ok in Hd.
  - intros n Hn%(ra_cell _ _ Hraw). simpl. destruct (cells s0 !! n) as [w|] eqn:Hw.
    + specialize (Hkept (Cell n) w Hn). simpl in Hkept. rewrite Hw in Hkept. by apply of_ptr_Ok, Hkept.
    + destruct (cells s1 !! n) eqn:E; [|done]. assert (is_Some (cells s1 !! n)) as Hs by (by eexists).
      apply (i_cells _ _ _ _ _ _ I) in Hs as [? ?]. congruence.
  - pose proof (i_refs _ _ _ _ _ _ I) as H. simpl. intuition.
  - done.
Qed.

Lemma moved_tag blk c blk' : header_ok blk -> moved_header addr s0 blk c (hd blk') -> length (fields blk') = length (fields blk) ->
  btag blk' = btag blk /\ header_ok blk'.
Proof.
  intros (t & cl & Hh & Hp & Hc & Hn & Ht) Hm Hl. unfold moved_header in Hm. unfold header_ok. rewrite Hl. unfold btag in *.
  rewrite Hm. rewrite Hh, Tag_header by done. destruct (young blk).
  - destruct (alloc_color_ok addr s0 c) as [? ?]. rewrite Tag_header by done. split; [done|]. by exists t, (alloc_color addr s0 c).
  - rewrite Tag_header by done. split; [done|]. by exists t, cl.
Qed.
Lemma final_word w : word_ok h0 w -> closed h0 fw w -> word_ok (old_only (heap s1)) (ren fw w).
Proof.
  destruct w as [u|b o]; [done|]. intros (blk & Hb & Ho) Hc.
  assert (exists c, ren fw (Adr b o) = Adr c o /\ moved h0 fw b c) as (c & -> & Hm).
  { simpl. destruct (young blk) eqn:Hy.
    - destruct (Hc _ Hb Hy) as [c Hf]. exists c. rewrite Hf. split; [done|]. exists blk. by rewrite Hy.
    - exists b. rewrite (fw_old _ _ _ _ _ _ _ _ I Hb Hy). split; [done|]. exists blk. by rewrite Hy. }
  destruct (final_fields _ _ _ Hb Hm) as (x & Hx & Hy & Hh & Hl & Hf). exists x. split; [done|].
  destruct Ho as [->|(Ho & Ht & u & Hu & Hrest)]; [by left|right].
  destruct (moved_tag _ _ _ (proj1 (ok_block _ _ Hok _ _ Hb)) Hh Hl) as [Htag _].
  split_and!; [done|by rewrite Htag|]. exists u. split; [|done]. by destruct (Hf _ _ Hu) as [[-> _]|[-> _]].
Qed.
Lemma final_content c i w : deref s' (In c i) = Ok w -> ~ raw (In c i) -> content_ok (heap s') (In c i) w.
Proof.
  intros Hw Hn. simpl in Hw. destruct (old_only (heap s1) !! c) as [blk'|] eqn:Hc; [|done]. apply of_ptr_Ok in Hw.
  destruct (final_block _ _ Hc) as (b & blk & Hb & Hm). destruct (final_fields _ _ _ Hb Hm) as (x & Hx & Hy & Hh & Hl & Hf).
  assert (x = blk') as -> by congruence.
  destruct (lookup_lt_is_Some_2 (fields blk) i) as [v Hv]; [rewrite <-Hl; by eapply lookup_lt_Some|].
  destruct (Hf _ _ Hv) as [(Hv' & Hcl & _)|(_ & Hr & _)]; [|done]. assert (w = ren fw v) as -> by congruence.
  assert (~ raw (In b i)) as Hnb.
  { destruct Hm as (z & Hz & Hm). assert (z = blk) as -> by congruence. destruct (young blk) eqn:Hyb; [by eapply young_not_raw|by subst c]. }
  pose proof (field_word _ _ Hok _ _ _ _ Hb Hnb Hv) as Hwd. unfold content_ok. simpl. rewrite Hc.
  destruct (moved_tag _ _ _ (proj1 (ok_block _ _ Hok _ _ Hb)) Hh Hl) as [-> _].
  destruct (_ <? _); [by apply final_word|by destruct Hwd as [u ->]; exists u].
Qed.
Lemma final_ok : gc_ok s' raw.
Proof.
  destruct (i_refs _ _ _ _ _ _ I) as (Hr & Hro & Hg & Hgs & Hsz & Hrs & Hlim & Hye & _ & _ & _ & _ & Hgl).
  assert (roots s' = roots s0) as Hroots by (unfold roots; by rewrite <-Hro).
  assert (forall w, is_young (heap s') w = false) as Hny.
  { intros [u|b o]; [done|]. simpl. destruct (old_only (heap s1) !! b) as [x|] eqn:E; [|done].
    by apply map_lookup_filter_Some in E as [_ E]. }
  assert (forall b blk, h0 !! b = Some blk -> young blk = false -> Is_in_heap (heap s') (Adr b 0) = true) as Hold.
  { intros b blk Hb Hy. destruct (final_fields b b blk Hb) as (x & Hx & Hyx & _); [exists blk; by rewrite Hy|]. simpl. by rewrite Hx, Hyx. }
  split.
  - intros c blk' Hc. destruct (final_block _ _ Hc) as (b & blk & Hb & Hm). destruct (final_fields _ _ _ Hb Hm) as (x & Hx & Hy & Hh & Hl & Hf).
    assert (x = blk') as -> by (simpl in Hc; congruence). split; [|congruence].
    eapply moved_tag; [apply (ok_block _ _ Hok _ _ Hb)|done|done].
  - intros [n|c i] w Hw Hn; [|by apply final_content]. simpl in Hw. destruct (cells s0 !! n) as [v|] eqn:Hv.
    + destruct (i_done _ _ _ _ _ _ I (Cell n) v Hv) as [Hd|[Hd Hcl]]; [done|]. assert (w = ren fw v) as -> by (simpl in Hd; congruence).
      apply final_word; [|done]. apply (ok_word _ _ Hok (Cell n) v); [by simpl; rewrite Hv|done].
    + apply of_ptr_Ok in Hw. assert (is_Some (cells s1 !! n)) as Hs by (by eexists).
      apply (i_cells _ _ _ _ _ _ I) in Hs as [? ?]. congruence.
  - intros q w _ _ _ Hy. by rewrite Hny in Hy.
  - intros q Hq. by apply elem_of_nil in Hq.
  - intros n. rewrite Hroots. intros Hn%(ok_roots _ _ Hok). by apply (i_cells _ _ _ _ _ _ I).
  - simpl. rewrite Hgl. destruct (ok_global _ _ Hok) as [Hw Hy]. split; [|apply Hny].
    assert (closed h0 fw (global_data s0)) as Hcl by (destruct (global_data s0); [done|]; intros blk Hb Hyb; simpl in Hy; by rewrite Hb, Hyb in Hy).
    pose proof (final_word _ Hw Hcl) as Hf. replace (ren fw (global_data s0)) with (global_data s0) in Hf; [done|].
    destruct (global_data s0) as [u|b o]; [done|]. destruct Hw as (blk & Hb & _). simpl in Hy |- *. rewrite Hb in Hy.
    by rewrite (fw_old _ _ _ _ _ _ _ _ I Hb Hy).
  - intros n. rewrite Hroots. apply (ok_cells _ _ Hok).
  - simpl. unfold ref_table_threshold, ref_table_end. rewrite Hsz, Hrs. simpl. rewrite Hsz. destruct (ok_sizes _ _ Hok) as (? & ? & _). by split_and!; try left.
  - simpl. unfold ref_table_threshold. rewrite Hsz. apply (ok_sizes _ _ Hok).
  - simpl. rewrite Hg, Hgs. apply (ok_gray _ _ Hok).
  - simpl. intros b. rewrite Hg. intros Hb%(ok_grays _ _ Hok). simpl in Hb. destruct (h0 !! b) as [blk|] eqn:E; [|done].
    apply (Hold b blk E). by destruct (young blk).
Qed.
End result.

(** The collection, when some places of the major heap are not to be looked at. *)
Lemma minor_copies junk room addr fuel s raw : gc_ok s raw -> raw_apart s raw -> (2 * size (young_blocks s) + 2 <= fuel)%nat ->
  match empty_minor_heap junk room addr fuel s with
  | Ok s' => exists fw, collected addr raw s s' fw /\ gc_ok s' raw
  | Panic => exists t n, room t n = false
  | _ => False
  end.
Proof.
  intros Hok Hraw Hfu. pose proof (collect_progress addr s raw Hok Hraw junk room fuel Hfu) as H.
  destruct (empty_minor_heap junk room addr fuel s) as [s'| | |]; try done. destruct H as (s1 & fw & I & Hd & ->).
  exists fw. split; [by apply final_collected|]. by apply (final_ok addr s s1 fw raw).
Qed.
Lemma dead_apart s : raw_apart s (dead s).
Proof. split; [|done..]. intros [n|b i]; simpl; [destruct (decide (n ∈ roots s)); tauto|tauto]. Qed.

(** C3: [empty_minor_heap] (the minor collection) ends, and unless memory runs out the heap it leaves is
    the heap before it with the live young blocks, and no others, under new
    names in the major heap: every block keeps its size, its tag and its fields, up to a
    one-to-one renaming that all the fields and roots follow; no pointer into the
    minor heap is left, and the invariant holds again. *)
Theorem minor_collection_copies (junk : nat -> nat -> word) (room : gc -> Z -> bool) (addr : nat -> Z) (fuel : nat) (s : gc) :
  gc_ok s (dead s) -> (2 * size (young_blocks s) + 2 <= fuel)%nat ->
  match empty_minor_heap junk room addr fuel s with
  | Ok s' => exists fw, collected addr (dead s) s s' fw /\ gc_ok s' (dead s)
  | Panic => exists t n, room t n = false
  | _ => False
  end.
Proof. intros Hok Hfu. apply minor_copies; [done|apply dead_apart|done]. Qed.

(** A block of the major heap that points to a pair; the pair holds a string and
    an infix pointer into a closure; another young block is garbage. *)
Definition sample_heap : gheap :=
  <[0%nat := mkG false (Make_header 1 0 White) [Adr 1 0]]> (
  <[1%nat := mkG true (Make_header 2 0 Black) [Adr 2 0; Adr 3 2]]> (
  <[2%nat := mkG true (Make_header 1 252 Black) [Imm 0x6968]]> (
  <[3%nat := mkG true (Make_header 3 250 Black) [Imm 0x8000; Imm (Make_header 2 249 White); Imm 0x8004]]> (
  <[4%nat := mkG true (Make_header 1 0 Black) [Adr 0 0]]> ∅)))).
Definition sample : gc := mkGc sample_heap (<[0%nat := Adr 3 0]> (<[7%nat := Adr 4 0]> ∅)) [In 0 0] 1024 256 1024 64 4096
  Phase_idle 0 61440 [] 2048 true None 0 false (Adr 0 0) 0 1 [] [] [].
Ltac cases_of H := repeat (apply lookup_insert_Some in H as [[<- <-]|[_ H]]; [|]); [..|by rewrite lookup_empty in H].
Lemma sample_block b blk : sample_heap !! b = Some blk -> header_ok blk /\ (young blk = true -> fields blk <> []).
Proof.
  intros H. unfold sample_heap in H. cases_of H; (split; [|done]); unfold header_ok, header_parts, Max_wosize, a_color.
  - exists 0, White. split_and!; auto || done.
  - exists 0, Black. split_and!; auto || done.
  - exists 252, Black. split_and!; auto || done.
  - exists 250, Black. split_and!; auto || done.
  - exists 0, Black. split_and!; auto || done.
Qed.
Lemma sample_field b i blk w : sample_heap !! b = Some blk -> fields blk !! i = Some w ->
  content_ok sample_heap (In b i) w /\ (young blk = false -> is_young sample_heap w = true -> In b i = In 0 0).
Proof.
  intros H Hw. unfold sample_heap in H. unfold content_ok.
  cases_of H; repeat (destruct i as [|i]; [injection Hw as <-|]); try (by destruct i); (split; [|done]); simpl; try done.
  all: try (by eexists). 
  all: eexists; (split; [reflexivity|]); try (by left). right. split_and!; [lia|done|]. by eexists.
Qed.
Lemma sample_ok : gc_ok sample (dead sample).
Proof.
  assert (roots sample = [O]) as Hroots by done. split; try done.
  - apply sample_block.
  - intros [n|b i] w Hw Hn; simpl in Hw.
    + destruct (decide (n ∈ roots sample)) as [Hin|]; [|done]. rewrite Hroots in Hin. apply list_elem_of_singleton in Hin as ->.
      injection Hw as <-. eexists. split; [reflexivity|by left].
    + change (heap sample) with sample_heap in Hw |- *.
      destruct (sample_heap !! b) as [blk|] eqn:Hb; [|done]. apply of_ptr_Ok in Hw. by apply (sample_field b i blk).
  - intros [n|b i] w Hw _ Hp Hy; [done|]. simpl in Hw, Hp.
    change (heap sample) with sample_heap in *.
    destruct (sample_heap !! b) as [blk|] eqn:Hb; [|done]. apply of_ptr_Ok in Hw.
    destruct (sample_field b i blk w Hb Hw) as [_ H]. rewrite H; [by left|by destruct (young blk)|done].
  - intros p [->|H]%elem_of_cons; [|by apply elem_of_nil in H]. split_and!; [done..|]. by eexists.
  - intros n. rewrite Hroots. intros ->%list_elem_of_singleton. by eexists.
  - split; [|done]. eexists. split; [reflexivity|by left].
  - intros n Hn Hd. by apply Hd.
  - split_and!; [done..|by left].
  - intros b Hb. by apply elem_of_nil in Hb.
Qed.
Lemma minor_collection_copies_witness :
  match empty_minor_heap (fun _ _ => Imm 0) (fun _ _ => true) (fun b => 16 * Z.of_nat b) 12 sample with
  | Ok s' => exists fw, collected (fun b => 16 * Z.of_nat b) (dead sample) sample s' fw /\ gc_ok s' (dead sample)
  | Panic => exists (t : gc) (n : Z), true = false
  | _ => False
  end.
Proof.
  apply (minor_collection_copies (fun _ _ => Imm 0) (fun _ _ => true) (fun b => 16 * Z.of_nat b) 12 sample).
  - exact sample_ok.
  - vm_compute. lia.
Defined.
