(* ===== verification/Major.v ===== *)
(** * The major collector: kernel/Byterun/major_gc.c, roots.c

    Marking and sweeping are cut into slices; between two slices the
    program runs.  [mark_step] and [sweep_step] are one turn of the loops of [mark_slice] and [sweep_slice], which
    count the words they visit.  Both loops walk through the blocks of the
    chunks in the order of their addresses: [block_at] is the first block at or after a position, and
    after a block [b] the position is [addr b + 1].  The free blocks between them, which neither loop changes, are
    invisible here: the work counted for them is left out, and a block
    that [fl_merge_block] returns to the free list is gone from the heap.  The finalisation functions of abstract
    blocks and the weak arrays ([update_weak_pointers]) are not modelled; nor is the compaction that [major_collection_slice] may end
    with. *)
From stdpp Require Import gmap list.
From S2P Require Import Prelude Mlvalues Intext Gcheap Minor.

Definition set_position mk sw ph s := mkGc (heap s) (cells s) (ref_table s) (ref_table_size s) (ref_table_reserve s) (ref_table_limit s) (young_ptr s) (young_end s)
  ph (allocated_words s) (stat_heap_size s) (gray_vals s) (gray_vals_size s) (heap_is_pure s) mk sw (force_major_slice s)
  (global_data s) (extern_sp s) (stack_high s) (local_roots s) (global_roots s) (hook_roots s).
Definition set_markhp x s := set_position x (gc_sweep_hp s) (gc_phase s) s.

(** ** Roots *)

(** [f] on what a root holds. *)
Definition on_cell (f : word -> gc -> result gc) (n : nat) (s : gc) : result gc := let* v := deref s (Cell n) in f v s.
Definition do_local_roots (f : word -> gc -> result gc) (stack : list nat) (lr : list roots_block) (s : gc) : result gc :=
  let* s := for_each (on_cell f) stack s in
  for_each (fun lr => for_each (fun t => for_each (on_cell f) (seq t (nitems lr))) (tables lr)) lr s.
Definition do_roots (f : word -> gc -> result gc) (s : gc) : result gc :=
  let* s := f (global_data s) s in
  let* s := do_local_roots f (stack_roots s) (local_roots s) s in
  let* s := for_each (on_cell f) (global_roots s) s in
  for_each (on_cell f) (hook_roots s) s.

Section major.
Variable addr : nat -> Z.
Variable heap_start : Z.
Variable grows : gc -> bool.

(** ** The blocks in the order of their addresses *)

Fixpoint lowest (l : list nat) : option nat :=
  match l with
  | [] => None
  | b :: l => match lowest l with Some c => if addr b <=? addr c then Some b else Some c | None => Some b end
  end.
Definition old_blocks (h : gheap) : list nat := (filter (fun e => young (e.2) = false) (map_to_list h)).*1.
Definition block_at (h : gheap) (hp : Z) : option nat := lowest (filter (fun b => hp <= addr b) (old_blocks h)).

(** ** Marking *)

Definition darken_all_roots (s : gc) : result gc := do_roots (darken grows) s.
Definition start_cycle (s : gc) : result gc :=
  let* s := darken_all_roots s in
  Ok (set_position None (gc_sweep_hp s) Phase_mark s).

(** The body of the loop on the fields of a block. *)
Definition mark_child (child : word) (s : gc) : result gc :=
  if Is_block_word child && Is_in_heap (heap s) child then
    let* hd := Hd_val (heap s) child in
    let* (child, hd) :=
      if Tag_hd hd =? Infix_tag then
        let* child := back child (Infix_offset_hd hd) in
        let* hd := Hd_val (heap s) child in Ok (child, hd)
      else Ok (child, hd) in
    if Is_white_hd hd then
      match child with
      | Adr c O =>
          let* s := set_Hd_val c (Grayhd_hd hd) s in
          let s := set_gray (c :: gray_vals s) (gray_vals_size s) (heap_is_pure s) s in
          Ok (if Z.of_nat (length (gray_vals s)) >=? gray_vals_size s then realloc_gray_vals grows s else s)
      | _ => Fault
      end
    else Ok s
  else Ok s.
(** A grey block, popped: it turns black and its white children grey. *)
Definition mark_block (v : nat) (s : gc) : result (Z * gc) :=
  let* hd := Hd_val (heap s) (Adr v 0) in
  let* s := set_Hd_val v (Blackhd_hd hd) s in
  let size := Wosize_hd hd in
  let* s := if Tag_hd hd <? No_scan_tag then
              for_each (fun i s => let* child := load_field s (Adr v 0) i in mark_child child s) (seq 0 (Z.to_nat size)) s
            else Ok s in
  Ok (size, s).
(** The work it took, or [None] when marking is done. *)
Definition mark_step (s : gc) : result (option Z * gc) :=
  match gray_vals s with
  | v :: rest =>
      let* (size, s) := mark_block v (set_gray rest (gray_vals_size s) (heap_is_pure s) s) in
      Ok (Some (Whsize_wosize size), s)
  | [] =>
      match markhp s with
      | Some hp =>
          match block_at (heap s) hp with
          | None => Ok (Some 0, set_markhp None s)
          | Some b =>
              let* hd := Hd_val (heap s) (Adr b 0) in
              let s := if Is_gray_hd hd then set_gray [b] (gray_vals_size s) (heap_is_pure s) s else s in
              Ok (Some 0, set_markhp (Some (addr b + 1)) s)
          end
      | None =>
          if negb (heap_is_pure s) then
            Ok (Some 0, set_markhp (Some heap_start) (set_gray [] (gray_vals_size s) true s))
          else Ok (None, set_position None heap_start Phase_sweep s)
      end
  end.
Fixpoint mark_slice (fuel : nat) (work : Z) (s : gc) : result gc :=
  if work >? 0 then
    match fuel with
    | O => Loop
    | S fuel =>
        let* (w, s) := mark_step s in
        mark_slice fuel (match w with Some n => work - n | None => 0 end) s
    end
  else Ok s.

(** ** Sweeping *)

Definition sweep_step (s : gc) : result (option Z * gc) :=
  match block_at (heap s) (gc_sweep_hp s) with
  | Some b =>
      let* hd := Hd_val (heap s) (Adr b 0) in
      let s := set_position (markhp s) (addr b + 1) (gc_phase s) s in
      let* s := if Is_white_hd hd then Ok (set_heap (delete b (heap s)) s)
                else if Is_blue_hd hd then Ok s
                else set_Hd_val b (Whitehd_hd hd) s in
      Ok (Some (Whsize_wosize (Wosize_hd hd)), s)
  | None => Ok (None, set_position (markhp s) (gc_sweep_hp s) Phase_idle s)
  end.
Fixpoint sweep_slice (fuel : nat) (work : Z) (s : gc) : result gc :=
  if work >? 0 then
    match fuel with
    | O => Loop
    | S fuel =>
        let* (w, s) := sweep_step s in
        sweep_slice fuel (match w with Some n => work - n | None => 0 end) s
    end
  else Ok s.

(** ** Slices *)

Definition Margin : Z := 100.
(** The parameters are words of 32 bits. *)
Definition mark_work (allocated extra percent_free : Z) : Z :=
  s32 (300 * (allocated / percent_free + 1) + 200 * (extra / (100 + percent_free) + 1) + Margin).
Definition sweep_work (allocated extra percent_free : Z) : Z :=
  s32 (3 * (100 + percent_free) * (allocated / percent_free + 1) + 2 * extra + Margin).
(** [major_collection_slice] up to the call of [compact_heap_maybe]. *)
Definition collection_slice (fuel : nat) (extra percent_free : Z) (s : gc) : result gc :=
  let* s := if gc_phase s =? Phase_idle then start_cycle s else Ok s in
  if gc_phase s =? Phase_mark then mark_slice fuel (mark_work (allocated_words s) extra percent_free) s
  else sweep_slice fuel (sweep_work (allocated_words s) extra percent_free) s.
Definition LONG_MAX : Z := 2 ^ 31 - 1.
Definition finish_major_cycle (fuel : nat) (s : gc) : result gc :=
  let* s := if gc_phase s =? Phase_idle then start_cycle s else Ok s in
  let* s := if gc_phase s =? Phase_mark then mark_slice fuel LONG_MAX s else Ok s in
  let* s := sweep_slice fuel LONG_MAX s in
  Ok (set_allocated 0 s).
End major.
