(* ===== verification/Marking.v ===== *)
(** * Marking: what it changes, and what it never loses

    [guarded s b]: block [b] of the major heap is grey or black, or there is a path to it from a
    grey block through white ones.  A guarded block is not white
    when marking ends ([guarded_end]), and neither the steps of the collector nor those of the program take a guard away:
    [darker] describes what darkening a word changes, [darker_guarded] and [mark_block_guarded] are the two ways of marking. *)
From stdpp Require Import gmap list.
From S2P Require Import Prelude Mlvalues Intext Gcheap Minor MinorCorrect Major.

(** ** Colours of blocks *)

Definition old_block (h : gheap) (b : nat) (blk : gblock) : Prop := h !! b = Some blk /\ young blk = false.
Definition colored (h : gheap) (b : nat) (c : Z) : Prop := exists blk, old_block h b blk /\ Color_hd (hd blk) = c.
Definition dark (h : gheap) (b : nat) : Prop := colored h b Gray \/ colored h b Black.
Inductive guarded (h : gheap) : nat -> Prop :=
  | guarded_dark b : dark h b -> guarded h b
  | guarded_step a b o i blk blk' : guarded h a -> old_block h a blk -> Color_hd (hd blk) <> Black -> btag blk < No_scan_tag ->
      fields blk !! i = Some (Adr b o) -> old_block h b blk' -> guarded h b.
(** The marker will still visit the grey block [b]. *)
Definition tracked (s : gc) (b : nat) : Prop := b ∈ gray_vals s \/ heap_is_pure s = false.

Lemma colored_det h b c c' : colored h b c -> colored h b c' -> c = c'.
Proof. intros (x & [Hx _] & <-) (y & [Hy _] & <-). congruence. Qed.
Lemma old_color s raw b blk : gc_ok s raw -> old_block (heap s) b blk ->
  Color_hd (hd blk) = White \/ Color_hd (hd blk) = Gray \/ Color_hd (hd blk) = Black.
Proof.
  intros Hok [Hb _]. destruct (ok_block _ _ Hok _ _ Hb) as [(t & c & -> & Hp & Hc & Hn & _) _].
  rewrite Color_header by done. by destruct Hc as [|[|[|]]]; auto.
Qed.
Lemma white_not_dark h b : colored h b White -> ~ dark h b.
Proof. intros Hw [H|H]; by pose proof (colored_det _ _ _ _ Hw H). Qed.

(** ** Darkening *)

(** [s'] is [s] with some white blocks of the major heap turned grey. *)
Definition darker_block (x y : gblock) : Prop :=
  young y = young x /\ fields y = fields x /\ btag y = btag x /\
  (hd y = hd x \/ young x = false /\ Color_hd (hd x) = White /\ Color_hd (hd y) = Gray).
Record darker (s s' : gc) : Prop := {
  dk_block b : match heap s !! b, heap s' !! b with Some x, Some y => darker_block x y | None, None => True | _, _ => False end;
  dk_same : cells s' = cells s /\ ref_table s' = ref_table s /\ root_lists s' = root_lists s /\ gc_phase s' = gc_phase s /\
    markhp s' = markhp s /\ gc_sweep_hp s' = gc_sweep_hp s /\ global_data s' = global_data s;
  dk_gray b : colored (heap s') b Gray -> colored (heap s) b Gray \/ tracked s' b;
  dk_tracked b : tracked s b -> tracked s' b;
  dk_stack b : b ∈ gray_vals s' -> b ∈ gray_vals s \/ (colored (heap s') b Gray /\ colored (heap s) b White);
  dk_nodup : NoDup (gray_vals s) -> (forall b, b ∈ gray_vals s -> colored (heap s) b Gray) -> NoDup (gray_vals s') }.

Lemma darker_block_refl x : darker_block x x.
Proof. split_and!; try done. by left. Qed.
Lemma darker_refl s : darker s s.
Proof.
  split; try done; try by left. intros b. destruct (heap s !! b); [apply darker_block_refl|done].
Qed.
Lemma darker_at s s' b x : darker s s' -> heap s !! b = Some x -> exists y, heap s' !! b = Some y /\ darker_block x y.
Proof. intros H Hb. pose proof (dk_block _ _ H b) as Hd. rewrite Hb in Hd. destruct (heap s' !! b) as [y|]; [by exists y|done]. Qed.
Lemma darker_from s s' b y : darker s s' -> heap s' !! b = Some y -> exists x, heap s !! b = Some x /\ darker_block x y.
Proof. intros H Hb. pose proof (dk_block _ _ H b) as Hd. rewrite Hb in Hd. destruct (heap s !! b) as [x|]; [by exists x|done]. Qed.
Lemma darker_gray s s' b : darker s s' -> colored (heap s) b Gray -> colored (heap s') b Gray.
Proof.
  intros H (x & [Hx Hy] & Hc). destruct (darker_at _ _ _ _ H Hx) as (y & Hb & Hyx & _ & _ & [Hh|(_ & Hw & _)]).
  - exists y. split; [split; [done|congruence]|congruence].
  - rewrite Hw in Hc. done.
Qed.
Lemma darker_black s s' b : darker s s' -> colored (heap s) b Black <-> colored (heap s') b Black.
Proof.
  intros H. split.
  - intros (x & [Hx Hy] & Hc). destruct (darker_at _ _ _ _ H Hx) as (y & Hb & Hyx & _ & _ & [Hh|(_ & Hw & _)]); [|rewrite Hw in Hc; done].
    exists y. split; [split; [done|congruence]|congruence].
  - intros (y & [Hy Hyy] & Hc). destruct (darker_from _ _ _ _ H Hy) as (x & Hb & Hyx & _ & _ & [Hh|(_ & _ & Hw)]); [|rewrite Hw in Hc; done].
    exists x. split; [split; [done|congruence]|congruence].
Qed.
Lemma darker_dark s s' b : darker s s' -> dark (heap s) b -> dark (heap s') b.
Proof. intros H [Hd|Hd]; [left; by eapply darker_gray|right; by apply (darker_black _ _ _ H)]. Qed.
Lemma darker_trans s1 s2 s3 : darker s1 s2 -> darker s2 s3 -> darker s1 s3.
Proof.
  intros H1 H2. split.
  - intros b. destruct (heap s1 !! b) as [x|] eqn:Hx.
    + destruct (darker_at _ _ _ _ H1 Hx) as (y & Hy & Hy1 & Hf1 & Ht1 & Hh1). destruct (darker_at _ _ _ _ H2 Hy) as (z & -> & Hy2 & Hf2 & Ht2 & Hh2).
      split_and!; try congruence. destruct Hh1 as [Hh1|(? & ? & ?)], Hh2 as [Hh2|(? & ? & ?)].
      * left. congruence.
      * right. split_and!; congruence.
      * right. split_and!; congruence.
      * assert (Gray = White) by congruence. done.
    + destruct (heap s3 !! b) as [z|] eqn:Hz; [|done]. destruct (darker_from _ _ _ _ H2 Hz) as (y & Hy & _).
      destruct (darker_from _ _ _ _ H1 Hy) as (x & Hx' & _). congruence.
  - pose proof (dk_same _ _ H1). pose proof (dk_same _ _ H2). intuition congruence.
  - intros b Hb. destruct (dk_gray _ _ H2 _ Hb) as [Hg|]; [|by right].
    destruct (dk_gray _ _ H1 _ Hg) as [|Ht]; [by left|right]. by apply (dk_tracked _ _ H2).
  - intros b Hb. by apply (dk_tracked _ _ H2), (dk_tracked _ _ H1).
  - intros b Hb. destruct (dk_stack _ _ H2 _ Hb) as [Hs|[Hg Hw]].
    + destruct (dk_stack _ _ H1 _ Hs) as [|[Hg Hw]]; [by left|right]. split; [by eapply darker_gray|done].
    + right. split; [done|]. destruct Hw as (y & [Hy Hyy] & Hc). destruct (darker_from _ _ _ _ H1 Hy) as (x & Hx & Hyx & _ & _ & [Hh|(_ & ? & Hh)]).
      * exists x. split; [split; [done|congruence]|congruence].
      * rewrite Hh in Hc. done.
  - intros Hn Hg. apply (dk_nodup _ _ H2); [by apply (dk_nodup _ _ H1)|]. intros b Hb.
    destruct (dk_stack _ _ H1 _ Hb) as [Hs|[? _]]; [|done]. eapply darker_gray; [done|by apply Hg].
Qed.
(** Darkening takes no guard away. *)
Lemma darker_guarded s s' b : darker s s' -> guarded (heap s) b -> guarded (heap s') b.
Proof.
  intros H. induction 1 as [b Hd|a b o i blk blk' Ha IH [Hb Hy] Hc Ht Hf [Hb' Hy']].
  - apply guarded_dark. by eapply darker_dark.
  - destruct (darker_at _ _ _ _ H Hb) as (y & Hb2 & Hyy & Hff & Htt & Hh). destruct (darker_at _ _ _ _ H Hb') as (z & Hz & Hyz & _).
    eapply (guarded_step _ a b o i y z); try done; try congruence.
    + split; congruence.
    + destruct Hh as [->|(_ & _ & ->)]; done.
    + split; congruence.
Qed.

Section darken.
Variable grows : gc -> bool.

Definition gray_block (blk : gblock) : gblock := mkG (young blk) (Grayhd_hd (hd blk)) (fields blk).
(** A white block turned grey and pushed. *)
Definition grayed (b : nat) (blk : gblock) (s : gc) : gc :=
  let s := set_heap (<[b := gray_block blk]> (heap s)) s in
  let s := set_gray (b :: gray_vals s) (gray_vals_size s) (heap_is_pure s) s in
  if Z.of_nat (length (gray_vals s)) >=? gray_vals_size s then realloc_gray_vals grows s else s.

Lemma grayed_stack b blk s : let s' := grayed b blk s in
  heap s' = <[b := gray_block blk]> (heap s) /\ cells s' = cells s /\ ref_table s' = ref_table s /\ root_lists s' = root_lists s /\
  gc_phase s' = gc_phase s /\ markhp s' = markhp s /\ gc_sweep_hp s' = gc_sweep_hp s /\ global_data s' = global_data s /\
  (heap_is_pure s' = heap_is_pure s /\ gray_vals s' = b :: gray_vals s \/
   heap_is_pure s' = false /\ exists n, gray_vals s' = drop n (b :: gray_vals s)).
Proof.
  unfold grayed, realloc_gray_vals. cbn zeta. simpl. rewrite Z.geb_leb.
  destruct (_ <=? _); [|split_and!; try done; by left].
  destruct (_ <? _); [destruct (grows _)|]; split_and!; try done; [by left|right..]; split; try done.
  - exists (length (b :: gray_vals s)). by rewrite drop_all.
  - by eexists.
Qed.
Lemma grayed_darker b blk s raw : gc_ok s raw -> old_block (heap s) b blk -> Color_hd (hd blk) = White ->
  darker s (grayed b blk s) /\ dark (heap (grayed b blk s)) b.
Proof.
  intros Hok [Hb Hy] Hw. destruct (grayed_stack b blk s) as (Hh & Hc & Hr & Hro & Hp & Hm & Hs & Hgd & Hst).
  set (s' := grayed b blk s) in *. destruct (ok_block _ _ Hok _ _ Hb) as [(t & c & Hhd & Hpa & Hco & Hnb & Hti) _].
  assert (darker_block blk (gray_block blk) /\ Color_hd (hd (gray_block blk)) = Gray) as [Hdb Hcg].
  { assert (a_color Gray) as Hg by (by right; left). unfold darker_block, btag, gray_block. simpl.
    rewrite Hhd, Grayhd_header, !Tag_header, !Color_header by done. split; [|done]. split_and!; try done. right.
    rewrite Hhd, Color_header in Hw by done. done. }
  assert (colored (heap s') b Gray) as Hbg.
  { exists (gray_block blk). split; [|done]. split; [by rewrite Hh, lookup_insert_eq|done]. }
  assert (tracked s' b) as Htb by (unfold tracked; destruct Hst as [[_ ->]|[? _]]; [left; by left|by right]).
  assert (forall d, d ∈ gray_vals s' -> d ∈ b :: gray_vals s) as Hsub.
  { intros d. destruct Hst as [[_ ->]|[_ [n ->]]]; [done|]. intros Hd. rewrite <-(take_drop n (b :: gray_vals s)). apply elem_of_app. by right. }
  split; [|by left]. split.
  - intros d. rewrite Hh. destruct (decide (b = d)) as [<-|].
    + by rewrite Hb, lookup_insert_eq.
    + rewrite lookup_insert_ne by done. destruct (heap s !! d); [apply darker_block_refl|done].
  - by split_and!.
  - intros d (x & [Hx Hyx] & Hcx). destruct (decide (b = d)) as [<-|Hn]; [by right|left].
    rewrite Hh, lookup_insert_ne in Hx by done. by exists x.
  - intros d. unfold tracked. destruct Hst as [[-> ->]|[-> _]]; [|by right]. intros [Hd|]; [left; by right|by right].
  - intros d [->|Hd]%Hsub%elem_of_cons; [right|by left]. split; [done|]. by exists blk.
  - intros Hnd Hg. assert (NoDup (b :: gray_vals s)) as Hnd'.
    { apply NoDup_cons. split; [|done]. intros Hin%Hg. assert (colored (heap s) b White) as Hbw by (by exists blk).
      by pose proof (colored_det _ _ _ _ Hin Hbw). }
    destruct Hst as [[_ ->]|[_ [n ->]]]; [done|]. rewrite <-(take_drop n (b :: gray_vals s)) in Hnd'. by apply NoDup_app in Hnd' as (_ & _ & ?).
Qed.

(** [darken] and the loop of [mark_slice] do the same to a word. *)
Lemma darken_eq s raw v : gc_ok s raw -> word_ok (heap s) v -> darken grows v s = mark_child grows v s /\
  (darken grows v s = Ok s /\ (forall b o blk, v = Adr b o -> old_block (heap s) b blk -> dark (heap s) b) \/
   exists b o blk, v = Adr b o /\ old_block (heap s) b blk /\ Color_hd (hd blk) = White /\ darken grows v s = Ok (grayed b blk s)).
Proof.
  intros Hok Hv. unfold darken, mark_child. destruct v as [w|b o]; [rewrite andb_false_r; split; [done|by left]|].
  destruct Hv as (blk & Hb & Ho) eqn:E. clear E. simpl (Is_in_heap _ _). rewrite Hb. simpl (Is_block_word _). cbn [andb].
  destruct (young blk) eqn:Hy; cbn [negb].
  { split; [done|left]. split; [done|]. intros b' o' blk' [= <- <-] [Hb' Hy']. congruence. }
  destruct (ok_block _ _ Hok _ _ Hb) as [Hh _].
  destruct (header_at _ _ _ Hv) as (blk' & x & Hb' & Hx & _ & Hi); [by intros ? ?; simplify_eq|]. simplify_eq.
  rewrite Hx. cbn [rbind]. pose proof (get_header _ _ _ Hb Hh) as Hg.
  assert ((if Tag_hd x =? Infix_tag then back (Adr b o) (Infix_offset_hd x) else Ok (Adr b o)) = Ok (Adr b 0) /\
    (if Tag_hd x =? Infix_tag then let* child := back (Adr b o) (Infix_offset_hd x) in let* hd := Hd_val (heap s) child in Ok (child, hd)
     else Ok (Adr b o, x)) = Ok (Adr b 0, hd blk)) as [-> ->].
  { destruct Hi as [(-> & -> & Ht)|(_ & -> & -> & _)]; [by destruct (Z.eqb_spec (Tag_hd (hd blk)) Infix_tag)|].
    rewrite Z.eqb_refl. cbn [rbind]. by rewrite Hg. }
  cbn [rbind]. rewrite Hg. cbn [rbind]. split; [by destruct (Is_white_hd _)|].
  destruct (Is_white_hd (hd blk)) eqn:Hw.
  - right. exists b, o, blk. apply Z.eqb_eq in Hw. split_and!; try done. unfold set_Hd_val. rewrite Hb. done.
  - left. split; [done|]. intros b' o' blk' [= <- <-] [Hb'' Hy'']. assert (blk' = blk) as -> by congruence.
    apply Z.eqb_neq in Hw. destruct (old_color _ _ _ _ Hok (conj Hb Hy)) as [|[|]]; [done|left|right]; by exists blk.
Qed.
Lemma darken_effect s raw v : gc_ok s raw -> word_ok (heap s) v -> exists s', darken grows v s = Ok s' /\ mark_child grows v s = Ok s' /\
  gc_ok s' raw /\ darker s s' /\ (forall b o blk, v = Adr b o -> old_block (heap s) b blk -> dark (heap s') b).
Proof.
  intros Hok Hv. destruct (darken_keeps grows s raw v Hok Hv) as (s' & Hd & Hok' & _).
  destruct (darken_eq s raw v Hok Hv) as [He Hc]. exists s'. rewrite <-He. split_and!; [done..| |].
  - destruct Hc as [[Hc _]|(b & o & blk & _ & Hb & Hw & Hc)]; rewrite Hc in Hd; injection Hd as <-; [apply darker_refl|by eapply grayed_darker].
  - intros b o blk -> Hb. destruct Hc as [[Hc Hdk]|(b' & o' & blk' & [= <- <-] & Hb' & Hw & Hc)]; rewrite Hc in Hd; injection Hd as <-.
    + by eapply Hdk.
    + by eapply grayed_darker.
Qed.
End darken.

(** ** Marking a grey block *)

Section mark.
Variable grows : gc -> bool.

Lemma mark_children v blk raw l : (forall i, ~ raw (In v i)) -> btag blk < No_scan_tag -> forall s x, gc_ok s raw ->
  old_block (heap s) v x -> fields x = fields blk -> btag x = btag blk -> Forall (fun i => (i < length (fields blk))%nat) l ->
  exists s', for_each (fun i s => let* child := load_field s (Adr v 0) i in mark_child grows child s) l s = Ok s' /\
    gc_ok s' raw /\ darker s s' /\ forall i b o y, i ∈ l -> fields blk !! i = Some (Adr b o) -> old_block (heap s) b y -> dark (heap s') b.
Proof.
  intros Hraw Ht. induction l as [|i l IH]; intros s x Hok [Hv Hy] Hf Hx Hl.
  - exists s. split_and!; [done..|apply darker_refl|]. intros i b o y Hi. by apply elem_of_nil in Hi.
  - apply Forall_cons in Hl as [Hi Hl]. destruct (lookup_lt_is_Some_2 _ _ Hi) as [w Hw]. rewrite for_each_cons.
    assert (deref s (In v i) = Ok w) as Hd by (simpl; rewrite Hv; simpl; by rewrite Hf, Hw).
    assert (load_field s (Adr v 0) i = Ok w) as -> by done. cbn [rbind].
    pose proof (ok_word _ _ Hok _ _ Hd (Hraw i)) as Hwo. unfold content_ok in Hwo. simpl in Hwo. rewrite Hv, Hx in Hwo.
    destruct (Z.ltb_spec (btag blk) No_scan_tag); [|lia].
    destruct (darken_effect grows s raw w Hok Hwo) as (s1 & _ & -> & Hok1 & Hdk1 & Hd1). cbn [rbind].
    destruct (darker_at _ _ _ _ Hdk1 Hv) as (x1 & Hv1 & Hy1 & Hf1 & Ht1 & _).
    destruct (IH s1 x1 Hok1) as (s' & -> & Hok' & Hdk' & Hch); [split; congruence|congruence|congruence|done|].
    exists s'. split_and!; [done..|by eapply darker_trans|].
    intros j b o y Hj Hfj Hb. apply elem_of_cons in Hj as [->|Hj].
    + eapply darker_dark; [done|]. eapply (Hd1 b o y); [|done]. congruence.
    + destruct Hb as [Hb Hyb]. destruct (darker_at _ _ _ _ Hdk1 Hb) as (z & Hz & Hyz & _). eapply (Hch j b o z); [done..|]. split; congruence.
Qed.

(** What marking the block [v] does, after [v] has been popped from the stack of [s]. *)
Record marked (v : nat) (s s' : gc) : Prop := {
  mk_block b x : heap s !! b = Some x -> exists y, heap s' !! b = Some y /\ young y = young x /\ fields y = fields x /\ btag y = btag x /\
    (young x = true -> hd y = hd x);
  mk_dom b : is_Some (heap s' !! b) -> is_Some (heap s !! b);
  mk_black b : colored (heap s') b Black <-> colored (heap s) b Black \/ b = v;
  mk_gray b : colored (heap s') b Gray -> b <> v /\ (colored (heap s) b Gray \/ tracked s' b);
  mk_stack b : b ∈ gray_vals s' -> colored (heap s') b Gray;
  mk_nodup : NoDup (gray_vals s');
  mk_tracked b : tracked s b -> tracked s' b;
  mk_guarded b : guarded (heap s) b -> guarded (heap s') b;
  mk_children blk i b o y : old_block (heap s) v blk -> btag blk < No_scan_tag -> fields blk !! i = Some (Adr b o) ->
    old_block (heap s) b y -> dark (heap s') b;
  mk_same : cells s' = cells s /\ ref_table s' = ref_table s /\ root_lists s' = root_lists s /\ gc_phase s' = gc_phase s /\
    markhp s' = markhp s /\ gc_sweep_hp s' = gc_sweep_hp s /\ global_data s' = global_data s }.

Lemma blackened v blk s raw : gc_ok s raw -> old_block (heap s) v blk ->
  exists s2, set_Hd_val v (Blackhd_hd (hd blk)) s = Ok s2 /\ gc_ok s2 raw /\
    s2 = set_heap (<[v := mkG false (Blackhd_hd (hd blk)) (fields blk)]> (heap s)) s /\ Color_hd (Blackhd_hd (hd blk)) = Black /\
    Tag_hd (Blackhd_hd (hd blk)) = btag blk.
Proof.
  intros Hok [Hv Hy]. destruct (ok_block _ _ Hok _ _ Hv) as [(t & c & Hh & Hp & Hc & Hn & Ht) _].
  assert (a_color Black) as Hb by (by right; right; right).
  destruct (recolor_keeps s raw v blk Black Hok Hv Hb ltac:(done)) as (Hok2 & _).
  assert (btag blk = t) as Hbt by (unfold btag; by rewrite Hh, Tag_header). rewrite Hbt in Hok2.
  unfold set_Hd_val. rewrite Hv. cbn [of_ptr rbind]. eexists. rewrite Hh, Blackhd_header by done. rewrite <-Hy.
  split_and!; [done|exact Hok2|done|by rewrite Color_header|]. by rewrite Hbt, Tag_header.
Qed.
Lemma mark_block_effect v blk s raw : gc_ok s raw -> old_block (heap s) v blk -> Color_hd (hd blk) = Gray -> (forall i, ~ raw (In v i)) ->
  v ∉ gray_vals s -> NoDup (gray_vals s) -> (forall b, b ∈ gray_vals s -> colored (heap s) b Gray) ->
  exists s', mark_block grows v s = Ok (Z.of_nat (length (fields blk)), s') /\ gc_ok s' raw /\ marked v s s'.
Proof.
  intros Hok Hv Hg Hraw Hnv Hnd Hst. destruct (ok_block _ _ Hok _ _ (proj1 Hv)) as [Hh _]. destruct (header_of_block _ Hh) as (t & _ & Htag & Hsz).
  unfold mark_block. rewrite (get_header _ _ _ (proj1 Hv) Hh). cbn [rbind].
  destruct (blackened v blk s raw Hok Hv) as (s2 & -> & Hok2 & Hs2 & Hcb & Htb). cbn [rbind]. rewrite Hsz.
  set (x := mkG false (Blackhd_hd (hd blk)) (fields blk)) in *.
  assert (heap s2 = <[v := x]> (heap s)) as Hh2 by (by rewrite Hs2).
  assert (old_block (heap s2) v x) as Hvx by (split; [by rewrite Hh2, lookup_insert_eq|done]).
  assert (forall b, b <> v -> heap s2 !! b = heap s !! b) as Hne by (intros b Hb; by rewrite Hh2, lookup_insert_ne).
  assert (exists s3, (if Tag_hd (hd blk) <? No_scan_tag then
      for_each (fun i s => let* child := load_field s (Adr v 0) i in mark_child grows child s) (seq 0 (Z.to_nat (Z.of_nat (length (fields blk))))) s2
      else Ok s2) = Ok s3 /\ gc_ok s3 raw /\ darker s2 s3 /\
      forall i b o y, btag blk < No_scan_tag -> fields blk !! i = Some (Adr b o) -> old_block (heap s2) b y -> dark (heap s3) b)
    as (s3 & -> & Hok3 & Hdk & Hch).
  { destruct (Z.ltb_spec (Tag_hd (hd blk)) No_scan_tag) as [Hlt|Hge].
    - destruct (mark_children v blk raw (seq 0 (Z.to_nat (Z.of_nat (length (fields blk))))) Hraw Hlt s2 x Hok2 Hvx eq_refl Htb) as (s3 & He & Hok3 & Hdk & Hch).
      { apply Forall_forall. intros i Hi%elem_of_seq. lia. }
      exists s3. split_and!; [done..|]. intros i b o y _ Hi Hb. eapply (Hch i); [|done..]. apply elem_of_seq. apply lookup_lt_Some in Hi. lia.
    - exists s2. split_and!; [done..|apply darker_refl|]. unfold btag. lia. }
  cbn [rbind]. exists s3. split_and!; [done..|].
  assert (forall b c, b <> v -> colored (heap s2) b c <-> colored (heap s) b c) as Hcol.
  { intros b c Hb. unfold colored, old_block. by rewrite Hne. }
  assert (colored (heap s2) v Black) as Hvb by (by exists x).
  assert (forall b y, old_block (heap s) b y -> exists z, old_block (heap s2) b z) as Hold.
  { intros b y [Hb Hy]. destruct (decide (b = v)) as [->|]; [by exists x|exists y]. split; [by rewrite Hne|done]. }
  assert (forall b, dark (heap s) b -> dark (heap s3) b) as Hdark.
  { intros b Hd. eapply darker_dark; [done|]. destruct (decide (b = v)) as [->|]; [by right|]. destruct Hd; [left|right]; by apply Hcol. }
  assert (s2 = set_heap (heap s2) s) as Hs2' by (by rewrite Hh2, Hs2).
  split.
  - intros b y Hb. destruct (decide (b = v)) as [->|Hn].
    + assert (y = blk) as -> by (destruct Hv; congruence). destruct (darker_at _ _ _ _ Hdk (proj1 Hvx)) as (z & ? & ? & ? & ? & _). 
      destruct Hv as [_ Hy]. destruct Hvx as [_ Hyx]. exists z. split_and!; [done|congruence|done|by rewrite <-Htb|congruence].
    + rewrite <-Hne in Hb by done. destruct (darker_at _ _ _ _ Hdk Hb) as (z & ? & ? & ? & ? & Hhd). exists z. split_and!; [done..|].
      destruct Hhd as [|(? & _)]; congruence.
  - intros b [z Hz]. destruct (darker_from _ _ _ _ Hdk Hz) as (y & Hy & _). destruct (decide (b = v)) as [->|]; [exists blk; apply Hv|].
    exists y. by rewrite <-Hne.
  - intros b. rewrite <-(darker_black _ _ _ Hdk). destruct (decide (b = v)) as [->|Hn]; [by split; [right|]|]. rewrite Hcol by done. tauto.
  - intros b Hb. assert (b <> v) as Hn. { intros ->. by pose proof (colored_det _ _ _ _ Hb (proj1 (darker_black _ _ _ Hdk) Hvb)). }
    split; [done|]. destruct (dk_gray _ _ Hdk _ Hb) as [Hb'|]; [left; by apply Hcol|by right].
  - intros b Hb. destruct (dk_stack _ _ Hdk _ Hb) as [Hs|[? _]]; [|done]. eapply darker_gray; [done|]. rewrite Hs2 in Hs.
    apply Hcol; [by intros ->|by apply Hst].
  - apply (dk_nodup _ _ Hdk); [by rewrite Hs2|]. intros b Hb. rewrite Hs2 in Hb. apply Hcol; [by intros ->|by apply Hst].
  - intros b Hb. apply (dk_tracked _ _ Hdk). unfold tracked. by rewrite Hs2.
  - induction 1 as [b Hd|a b o i y y' Ha IH [Hb Hy] Hc Htg Hf Hb'].
    + by apply guarded_dark, Hdark.
    + destruct (Hold _ _ Hb') as [z' Hz']. destruct (decide (a = v)) as [->|Hn].
      * apply guarded_dark. assert (y = blk) as -> by (destruct Hv; congruence). by eapply Hch.
      * rewrite <-Hne in Hb by done. destruct (darker_at _ _ _ _ Hdk Hb) as (z & Hz & Hyz & Hfz & Htz & _).
        destruct (darker_at _ _ _ _ Hdk (proj1 Hz')) as (u & Hu & Hyu & _).
        eapply (guarded_step _ a b o i z u IH); [split; congruence| |congruence|congruence|split; [done|destruct Hz'; congruence]].
        intros Hzb. assert (colored (heap s2) a Black) as (w & [Hw _] & Hcw); [|congruence].
        apply (darker_black _ _ _ Hdk). exists z. split; [split; congruence|done].
  - intros blk' i b o y Hv' Ht Hi Hb. destruct (Hold _ _ Hb) as [z Hz]. assert (blk' = blk) as -> by (destruct Hv, Hv'; congruence). by eapply Hch.
  - pose proof (dk_same _ _ Hdk) as H. rewrite Hs2 in H. exact H.
Qed.
End mark.

(** When no block is grey, the guarded ones are black. *)
Lemma guarded_end h b : (forall c, ~ colored h c Gray) -> guarded h b -> colored h b Black.
Proof.
  intros Hn. induction 1 as [b [Hd|Hd]|a b o i blk blk' Ha IH [Hb Hy] Hc]; [by destruct (Hn b)|done|].
  destruct IH as (x & [Hx _] & Hcx). congruence.
Qed.
