(* ===== verification/Collector.v ===== *)
(** * The program and the collectors, interleaved

    [step] is one step of the program (read a field, store into a field through
    [Modify], allocate), a minor collection, the start of a major cycle, or one
    turn of the loops that mark and sweep.  The major collector runs only after a minor
    collection, when the minor heap is empty.  [inv] is the invariant of all the states that such steps reach; it says that
    sweeping frees only blocks to which no pointer is left that the program or the
    collectors can follow. *)
From stdpp Require Import gmap list.
From S2P Require Import Prelude Mlvalues Intext Gcheap Minor MinorCorrect Major Marking.

(** The program has a pointer to [b] in a root. *)
Definition holds (s : gc) (b : nat) : Prop :=
  (exists n o, n ∈ roots s /\ cells s !! n = Some (Adr b o)) \/ exists o, global_data s = Adr b o.
(** The program can make the word [w]. *)
Definition at_hand (s : gc) (w : word) : Prop :=
  match w with Imm _ => True | Adr b o => holds s b /\ word_ok (heap s) w end.
Definition quiet (s : gc) : Prop := ref_table s = [] /\ forall b blk, heap s !! b = Some blk -> young blk = false.
(** The words of a new block. *)
Definition data_ok (s : gc) (tag : Z) (ws : list word) : Prop :=
  header_parts (Z.of_nat (length ws)) tag /\ tag <> Infix_tag /\ tag <> Closure_tag /\ ws <> [] /\
  Forall (fun w => if tag <? No_scan_tag then at_hand s w else exists x, w = Imm x) ws.

Section system.
Variable junk : nat -> nat -> word.
Variable room : gc -> Z -> bool.
Variable addr : nat -> Z.
Variable heap_start : Z.
Hypothesis addr_inj : forall b c, addr b = addr c -> b = c.
Hypothesis addr_start : forall b, heap_start <= addr b.
Variable grows : gc -> bool.

(** A block of the minor heap, filled. *)
Definition new_young (tag : Z) (ws : list word) (s : gc) : result (nat * gc) :=
  let '(k, s) := bump junk (Z.of_nat (length ws)) tag s in
  let* s := for_each (fun e => assign (In k (e.1)) (e.2)) (zip (seq 0 (length ws)) ws) s in Ok (k, s).
(** A block of the major heap with pointers, filled. *)
Definition new_old (tag : Z) (ws : list word) (s : gc) : result (nat * gc) :=
  let* (k, s) := alloc_shr junk room addr (Z.of_nat (length ws)) tag s in
  let* s := for_each (fun e => initialize grows (In k (e.1)) (e.2)) (zip (seq 0 (length ws)) ws) s in Ok (k, s).

Inductive step (s : gc) : gc -> Prop :=
  | step_read n b i w s' : n ∈ roots s -> holds s b -> deref s (In b i) = Ok w -> assign (Cell n) w s = Ok s' -> step s s'
  | step_move n w s' : n ∈ roots s -> at_hand s w -> assign (Cell n) w s = Ok s' -> step s s'
  | step_modify b i old w s' : holds s b -> writable (heap s) (In b i) -> deref s (In b i) = Ok old -> at_hand s w ->
      Modify grows (In b i) w s = Ok s' -> step s s'
  | step_young n tag ws k s1 s' : n ∈ roots s -> data_ok s tag ws -> 4 * Whsize_wosize (Z.of_nat (length ws)) <= young_ptr s ->
      new_young tag ws s = Ok (k, s1) -> assign (Cell n) (Adr k 0) s1 = Ok s' -> step s s'
  | step_old n tag ws k s1 s' : n ∈ roots s -> data_ok s tag ws -> tag < No_scan_tag ->
      new_old tag ws s = Ok (k, s1) -> assign (Cell n) (Adr k 0) s1 = Ok s' -> step s s'
  | step_minor fuel s' : (2 * size (young_blocks s) + 2 <= fuel)%nat -> empty_minor_heap junk room addr fuel s = Ok s' -> step s s'
  | step_start s' : gc_phase s = Phase_idle -> quiet s -> start_cycle grows s = Ok s' -> step s s'
  | step_mark w s' : gc_phase s = Phase_mark -> quiet s -> mark_step addr heap_start grows s = Ok (w, s') -> step s s'
  | step_sweep w s' : gc_phase s = Phase_sweep -> quiet s -> sweep_step addr s = Ok (w, s') -> step s s'.

(** ** The invariant *)

(** The sweeper will free [b]. *)
Definition doomed (s : gc) (b : nat) : Prop := gc_phase s = Phase_sweep /\ colored (heap s) b White /\ gc_sweep_hp s <= addr b.
Definition raw_of (s : gc) (p : place) : Prop := match p with Cell n => n ∉ roots s | In b _ => doomed s b end.
Definition good (s : gc) (w : word) : Prop :=
  match w with
  | Imm _ => True
  | Adr b _ => ~ doomed s b /\ (gc_phase s = Phase_mark -> forall x, old_block (heap s) b x -> guarded (heap s) b)
  end.
(** The places whose words have to be good. *)
Definition firm (s : gc) (p : place) : Prop :=
  match p with
  | Cell n => n ∈ roots s
  | In b _ => exists x, heap s !! b = Some x /\ (young x = true \/ ~ doomed s b /\ (gc_phase s = Phase_mark -> Color_hd (hd x) = Black))
  end.
Definition mark_ok (s : gc) : Prop :=
  (forall b, colored (heap s) b Gray -> tracked s b \/ exists hp, markhp s = Some hp /\ hp <= addr b) /\
  NoDup (gray_vals s) /\ forall b, b ∈ gray_vals s -> colored (heap s) b Gray.
Definition phase_ok (s : gc) : Prop :=
  gc_phase s = Phase_idle /\ gray_vals s = [] /\ (forall b x, old_block (heap s) b x -> Color_hd (hd x) = White) \/
  gc_phase s = Phase_mark /\ mark_ok s \/
  gc_phase s = Phase_sweep /\ gray_vals s = [] /\
    (forall b x, old_block (heap s) b x -> Color_hd (hd x) = White \/ Color_hd (hd x) = Black /\ gc_sweep_hp s <= addr b).
Record inv (s : gc) : Prop := {
  iv_ok : gc_ok s (raw_of s);
  iv_words p w : firm s p -> deref s p = Ok w -> good s w;
  iv_global : good s (global_data s);
  iv_refs p : p ∈ ref_table s -> ~ raw_of s p;
  iv_phase : phase_ok s }.

(** ** What a step of the program keeps *)

Record keeps (s s' : gc) : Prop := {
  kp_old b x : old_block (heap s) b x -> exists y, old_block (heap s') b y /\
    (Color_hd (hd y) = Color_hd (hd x) \/ gc_phase s = Phase_mark /\ Color_hd (hd x) = White /\ Color_hd (hd y) = Gray);
  kp_new b y : old_block (heap s') b y -> (exists x, old_block (heap s) b x) \/ Color_hd (hd y) = alloc_color addr s b;
  kp_same : gc_phase s' = gc_phase s /\ gc_sweep_hp s' = gc_sweep_hp s /\ markhp s' = markhp s /\ root_lists s' = root_lists s /\
    global_data s' = global_data s;
  kp_guarded b : gc_phase s = Phase_mark -> guarded (heap s) b -> guarded (heap s') b;
  kp_gray b : colored (heap s') b Gray -> colored (heap s) b Gray \/ tracked s' b;
  kp_tracked b : tracked s b -> tracked s' b;
  kp_stack b : b ∈ gray_vals s' -> b ∈ gray_vals s \/ (gc_phase s = Phase_mark /\ colored (heap s') b Gray);
  kp_nodup : NoDup (gray_vals s) -> (forall b, b ∈ gray_vals s -> colored (heap s) b Gray) -> NoDup (gray_vals s') }.

Section keeps.
Variables s s' : gc.
Hypothesis K : keeps s s'.

Lemma keeps_roots : roots s' = roots s.
Proof. unfold roots. by destruct (kp_same _ _ K) as (_ & _ & _ & -> & _). Qed.
Lemma alloc_not_doomed b : colored (heap s') b White -> alloc_color addr s b = White -> ~ doomed s' b.
Proof.
  intros _ Ha (Hp & _ & Hhp). destruct (kp_same _ _ K) as (Hp' & Hs & _). unfold alloc_color in Ha. rewrite <-Hp', <-Hs, Hp in Ha.
  simpl in Ha. rewrite Z.geb_leb in Ha. destruct (Z.leb_spec (gc_sweep_hp s') (addr b)); [done|lia].
Qed.
Lemma keeps_doomed b : doomed s' b <-> doomed s b.
Proof.
  destruct (kp_same _ _ K) as (Hp & Hs & _). split.
  - intros Hd. pose proof Hd as (Hp' & Hw & Hhp). pose proof Hw as (y & Hy & Hc). destruct (kp_new _ _ K _ _ Hy) as [[x Hx]|Ha].
    + destruct (kp_old _ _ K _ _ Hx) as (z & Hz & Hcz). assert (z = y) as -> by (destruct Hy, Hz; congruence).
      split_and!; [congruence| |congruence]. exists x. split; [done|]. destruct Hcz as [|(Hm & _)]; [congruence|].
      rewrite Hm in Hp. rewrite Hp in Hp'. done.
    + by destruct (alloc_not_doomed b Hw ltac:(congruence)).
  - intros (Hp' & (x & Hx & Hc) & Hhp). destruct (kp_old _ _ K _ _ Hx) as (z & Hz & Hcz). split_and!; [congruence| |congruence].
    exists z. split; [done|]. destruct Hcz as [|(Hm & _)]; [congruence|]. rewrite Hm in Hp'. done.
Qed.
Lemma keeps_raw p : raw_of s' p <-> raw_of s p.
Proof. destruct p as [n|b i]; simpl; [by rewrite keeps_roots|apply keeps_doomed]. Qed.
Lemma keeps_good w : good s w -> good s' w.
Proof.
  destruct w as [|b o]; [done|]. intros [Hd Hg]. split; [by rewrite keeps_doomed|]. destruct (kp_same _ _ K) as (Hp & _).
  rewrite Hp. intros Hm y Hy. destruct (kp_new _ _ K _ _ Hy) as [[x Hx]|Ha].
  - apply (kp_guarded _ _ K); [done|]. by eapply Hg.
  - apply guarded_dark. right. exists y. split; [done|]. rewrite Ha. unfold alloc_color. by rewrite Hm.
Qed.
Lemma keeps_firm b i x : old_block (heap s) b x -> firm s' (In b i) -> firm s (In b i).
Proof.
  intros Hx (y & Hy & Hf). destruct (kp_old _ _ K _ _ Hx) as (z & [Hz Hyz] & Hcz). assert (z = y) as -> by congruence.
  exists x. split; [apply Hx|]. right. destruct Hf as [|[Hd Hm]]; [congruence|]. split; [by rewrite <-keeps_doomed|]. intros Hp.
  destruct (kp_same _ _ K) as (Hp' & _). rewrite Hp' in Hm. specialize (Hm Hp). destruct Hcz as [|(_ & _ & Hgr)]; [congruence|].
  rewrite Hgr in Hm. done.
Qed.
Lemma keeps_phase : phase_ok s -> phase_ok s'.
Proof.
  destruct (kp_same _ _ K) as (Hp & Hs & Hm & _).
  intros [(Hi & Hg & Hc)|[(Hi & Ht & Hn & Hg)|(Hi & Hg & Hc)]].
  - left. assert (gray_vals s' = []) as Hg'.
    { destruct (gray_vals s') as [|b l] eqn:E; [done|]. destruct (kp_stack _ _ K b) as [H|[H _]]; [rewrite E; by left|rewrite Hg in H; by apply elem_of_nil in H|].
      rewrite H in Hi. done. }
    split_and!; [congruence|done|]. intros b y Hy. destruct (kp_new _ _ K _ _ Hy) as [[x Hx]|Ha].
    + destruct (kp_old _ _ K _ _ Hx) as (z & Hz & Hcz). assert (z = y) as -> by (destruct Hy, Hz; congruence).
      destruct Hcz as [->|(Hm' & _)]; [by eapply Hc|]. rewrite Hm' in Hi. done.
    + rewrite Ha. unfold alloc_color. by rewrite Hi.
  - right; left. split; [congruence|]. split_and!; [|by apply (kp_nodup _ _ K)|].
    + intros b Hb. destruct (kp_gray _ _ K _ Hb) as [Hb'|]; [|by left]. destruct (Ht _ Hb') as [H|H]; [left; by apply (kp_tracked _ _ K)|right].
      by rewrite Hm.
    + intros b Hb. destruct (kp_stack _ _ K _ Hb) as [Hb'|[_ ?]]; [|done]. destruct (Hg _ Hb') as (x & Hx & Hcx).
      destruct (kp_old _ _ K _ _ Hx) as (z & Hz & Hcz). exists z. split; [done|]. destruct Hcz as [|(_ & Hw & _)]; [congruence|].
      rewrite Hw in Hcx. done.
  - do 2 right. assert (gray_vals s' = []) as Hg'.
    { destruct (gray_vals s') as [|b l] eqn:E; [done|]. destruct (kp_stack _ _ K b) as [H|[H _]]; [rewrite E; by left|rewrite Hg in H; by apply elem_of_nil in H|].
      rewrite H in Hi. done. }
    split_and!; [congruence|done|]. rewrite Hs. intros b y Hy. destruct (kp_new _ _ K _ _ Hy) as [[x Hx]|Ha].
    + destruct (kp_old _ _ K _ _ Hx) as (z & Hz & Hcz). assert (z = y) as -> by (destruct Hy, Hz; congruence).
      destruct Hcz as [->|(Hm' & _)]; [by eapply Hc|]. rewrite Hm' in Hi. done.
    + rewrite Ha. unfold alloc_color. rewrite Hi. simpl. rewrite Z.geb_leb. destruct (Z.leb_spec (gc_sweep_hp s) (addr b)); [right|left]; done.
Qed.
End keeps.

Lemma gc_ok_raw s s' : keeps s s' -> gc_ok s' (raw_of s) -> gc_ok s' (raw_of s').
Proof.
  intros K Hok. eapply gc_ok_weaken; [done|intros q; by apply keeps_raw|]. intros n Hn Hr. by apply Hr.
Qed.
Lemma refs_raw s s' p : keeps s s' -> ~ raw_of s p -> ~ raw_of s' p.
Proof. intros K. by rewrite (keeps_raw s s' K). Qed.

(** ** Roots *)

Lemma holds_good s b : inv s -> holds s b -> forall o, good s (Adr b o).
Proof.
  intros Hi [(n & o & Hn & Hc)|[o Hg]] o'.
  - apply (iv_words _ Hi (Cell n) (Adr b o)); [done|]. simpl. by rewrite Hc.
  - pose proof (iv_global _ Hi) as H. by rewrite Hg in H.
Qed.
Lemma at_hand_ok s w : inv s -> at_hand s w -> word_ok (heap s) w /\ good s w.
Proof. intros Hi. destruct w as [u|b o]; [done|]. intros [Hh Hw]. split; [done|]. by apply holds_good. Qed.
Lemma holds_block s b : inv s -> holds s b -> exists blk, heap s !! b = Some blk.
Proof.
  intros Hi [(n & o & Hn & Hc)|[o Hg]].
  - assert (deref s (Cell n) = Ok (Adr b o)) as Hd by (simpl; by rewrite Hc).
    destruct (ok_word _ _ (iv_ok _ Hi) _ _ Hd) as (blk & Hb & _); [intros Hr; by apply Hr|by exists blk].
  - destruct (ok_global _ _ (iv_ok _ Hi)) as [Hw _]. rewrite Hg in Hw. destruct Hw as (blk & Hb & _). by exists blk.
Qed.
Lemma cell_keeps s n w s' : assign (Cell n) w s = Ok s' -> keeps s s'.
Proof.
  simpl. intros H. inv_ok H. split; try done; try by left.
  - intros b x Hx. exists x. split; [done|by left].
  - intros b y Hy. left. by exists y.
Qed.
Lemma set_cell_inv s n w s' : inv s -> n ∈ roots s -> word_ok (heap s) w -> good s w -> assign (Cell n) w s = Ok s' -> inv s'.
Proof.
  intros Hi Hn Hw Hg Ha. pose proof (cell_keeps _ _ _ _ Ha) as K.
  destruct (assign_rest _ _ _ _ Ha) as (Hr & _). split.
  - apply (gc_ok_raw s); [done|]. by eapply assign_cell_keeps; [apply iv_ok| |].
  - intros p v Hf Hd. apply (keeps_good s s' K). rewrite (deref_assign _ _ _ _ _ Ha) in Hd. case_decide; [by injection Hd as <-|].
    apply (iv_words _ Hi p v); [|done]. destruct p as [m|b i]; [simpl in Hf |- *; by rewrite <-(keeps_roots s s' K)|].
    simpl in Ha. inv_ok Ha. done.
  - apply (keeps_good s s' K). destruct (kp_same _ _ K) as (_ & _ & _ & _ & ->). apply (iv_global _ Hi).
  - intros p. rewrite Hr. intros Hp. apply (refs_raw s); [done|]. by apply (iv_refs _ Hi).
  - apply (keeps_phase s); [done|]. apply (iv_phase _ Hi).
Qed.

(** ** The steps of the program *)

(** What a field of a block within reach holds is within reach. *)
Lemma field_good s b o i w : inv s -> good s (Adr b o) -> deref s (In b i) = Ok w -> word_ok (heap s) w /\ good s w.
Proof.
  intros Hi [Hnd Hgd] Hd. pose proof Hd as Hd'. simpl in Hd'. destruct (heap s !! b) as [blk|] eqn:Hb; [|done]. apply of_ptr_Ok in Hd'.
  pose proof (ok_word _ _ (iv_ok _ Hi) _ _ Hd Hnd) as Hc. unfold content_ok in Hc. simpl in Hc. rewrite Hb in Hc.
  destruct (Z.ltb_spec (btag blk) No_scan_tag); [|by destruct Hc as [x ->]]. split; [done|]. destruct (young blk) eqn:Hy.
  { eapply (iv_words _ Hi (In b i)); [|done]. exists blk. split; [done|by left]. }
  destruct (decide (gc_phase s = Phase_mark -> Color_hd (hd blk) = Black)) as [Hbl|Hbl].
  { eapply (iv_words _ Hi (In b i)); [|done]. exists blk. split; [done|by right]. }
  destruct w as [|c o']; [done|]. destruct (decide (gc_phase s = Phase_mark)) as [Hm|]; [|by destruct Hbl]. split.
  - intros (Hp & _). rewrite Hm in Hp. done.
  - intros _ x Hx. apply (guarded_step _ b c o' i blk x); [by apply (Hgd Hm blk)|done| |done..]. intros Hcb. by destruct Hbl.
Qed.
Lemma read_inv s n b i w s' : inv s -> n ∈ roots s -> holds s b -> deref s (In b i) = Ok w -> assign (Cell n) w s = Ok s' -> inv s'.
Proof.
  intros Hi Hn Hh Hd Ha. destruct (field_good s b O i w Hi (holds_good _ _ Hi Hh O) Hd). by eapply set_cell_inv.
Qed.

Lemma add_ref_rest p s s' : add_ref grows p s = Ok s' -> heap s' = heap s /\ cells s' = cells s /\ root_lists s' = root_lists s /\
  gray_vals s' = gray_vals s /\ heap_is_pure s' = heap_is_pure s /\ gc_phase s' = gc_phase s /\ markhp s' = markhp s /\
  gc_sweep_hp s' = gc_sweep_hp s /\ global_data s' = global_data s /\ ref_table s' = p :: ref_table s.
Proof. unfold add_ref, realloc_ref_table. intros H. inv_ok H; done. Qed.

(** A store into a field of a block. *)
Lemma assign_old_block s b i w s1 c x : assign (In b i) w s = Ok s1 -> old_block (heap s) c x -> exists y, old_block (heap s1) c y /\
  hd y = hd x /\ forall j v, fields x !! j = Some v -> fields y !! j = if decide (In c j = In b i) then Some w else Some v.
Proof.
  intros Ha [Hc Hy]. pose proof (assign_block _ _ _ _ Ha c) as Hb. rewrite Hc in Hb. destruct (heap s1 !! c) as [y|] eqn:E; [|done].
  destruct Hb as (Hyy & Hh & _). exists y. split_and!; [split; congruence|done|]. intros j v Hv.
  pose proof (deref_assign _ (In c j) _ _ _ Ha) as Hd. simpl in Hd. rewrite E, Hc in Hd. simpl in Hd. rewrite Hv in Hd.
  by destruct (decide (In c j = In b i)); apply of_ptr_Ok in Hd.
Qed.
Lemma assign_dom s p w s1 : assign p w s = Ok s1 -> forall c y, old_block (heap s1) c y -> exists x, old_block (heap s) c x /\ hd y = hd x.
Proof.
  intros Ha c y [Hy Hyy]. pose proof (assign_block _ _ _ _ Ha c) as Hb. rewrite Hy in Hb. destruct (heap s !! c) as [x|] eqn:E; [|done].
  destruct Hb as (Hyx & Hh & _). exists x. split; [split; congruence|done].
Qed.
Lemma store_colors s p w s1 c k : assign p w s = Ok s1 -> colored (heap s1) c k <-> colored (heap s) c k.
Proof.
  intros Ha. split.
  - intros (y & Hy & Hc). destruct (assign_dom _ _ _ _ Ha _ _ Hy) as (x & Hx & Hh). exists x. split; [done|congruence].
  - intros (x & [Hx Hyx] & Hc). pose proof (assign_block _ _ _ _ Ha c) as Hb. rewrite Hx in Hb. destruct (heap s1 !! c) as [y|] eqn:E; [|done].
    destruct Hb as (Hy & Hh & _). exists y. split; [split; congruence|congruence].
Qed.
(** Overwriting a field keeps the guards, once the word it held is dark. *)
Lemma store_guarded s b i old w s1 s2 : assign (In b i) w s = Ok s1 -> deref s (In b i) = Ok old -> darker s1 s2 ->
  (forall x c o y, old_block (heap s) b x -> old = Adr c o -> old_block (heap s1) c y -> dark (heap s2) c) ->
  forall c, guarded (heap s) c -> guarded (heap s2) c.
Proof.
  intros Ha Hd Hdk Hold. induction 1 as [c Hc|a c o j x x' Hg IH Hx Hc Htg Hf Hx'].
  - apply guarded_dark. eapply darker_dark; [done|]. destruct Hc; [left|right]; by apply (store_colors _ _ _ _ _ _ Ha).
  - destruct (assign_old_block _ _ _ _ _ _ _ Ha Hx) as (y & Hy & Hhy & Hfy). destruct (assign_old_block _ _ _ _ _ _ _ Ha Hx') as (y' & Hy' & _).
    specialize (Hfy _ _ Hf). case_decide as Hin.
    + injection Hin as -> ->. apply guarded_dark. apply (Hold x c o y'); [done| |done]. destruct Hx as [Hx _]. simpl in Hd. rewrite Hx in Hd.
      simpl in Hd. rewrite Hf in Hd. by injection Hd.
    + destruct (darker_at _ _ _ _ Hdk (proj1 Hy)) as (z & Hz & Hyz & Hfz & Htz & Hhz).
      destruct (darker_at _ _ _ _ Hdk (proj1 Hy')) as (z' & Hz' & Hyz' & _).
      eapply (guarded_step _ a c o j z z' IH).
      * split; [done|destruct Hy; congruence].
      * destruct Hhz as [Hh|(_ & _ & Hh)]; [congruence|rewrite Hh; done].
      * rewrite Htz. unfold btag. rewrite Hhy. exact Htg.
      * congruence.
      * split; [done|destruct Hy'; congruence].
Qed.

(** All but [ref_table] and the request of a slice. *)
Definition same_but_refs (s s' : gc) : Prop := heap s' = heap s /\ cells s' = cells s /\ root_lists s' = root_lists s /\
  gray_vals s' = gray_vals s /\ heap_is_pure s' = heap_is_pure s /\ gc_phase s' = gc_phase s /\ markhp s' = markhp s /\
  gc_sweep_hp s' = gc_sweep_hp s /\ global_data s' = global_data s.
Lemma store_keeps s b i old w s1 s2 s' : inv s -> assign (In b i) w s = Ok s1 -> deref s (In b i) = Ok old -> darker s1 s2 ->
  gc_phase s = Phase_mark \/ s2 = s1 ->
  (gc_phase s = Phase_mark -> forall x c o y, old_block (heap s) b x -> old = Adr c o -> old_block (heap s1) c y -> dark (heap s2) c) ->
  same_but_refs s2 s' -> keeps s s'.
Proof.
  intros Hi Ha Hd Hdk Hph Hold (Hh & Hc & Hro & Hg & Hpu & Hp & Hm & Hsw & Hgd).
  destruct (assign_rest _ _ _ _ Ha) as (_ & _ & _ & _ & Hp1 & Hg1 & _ & Hro1 & _ & Hsw1 & Hpu1 & Hm1 & Hgd1).
  destruct (dk_same _ _ Hdk) as (_ & _ & Hro2 & Hp2 & Hm2 & Hsw2 & Hgd2).
  assert (forall d, tracked s d <-> tracked s1 d) as Ht1 by (intros d; unfold tracked; by rewrite Hg1, Hpu1).
  assert (forall d, tracked s' d <-> tracked s2 d) as Ht2 by (intros d; unfold tracked; by rewrite Hg, Hpu).
  split.
  - intros c x Hx. destruct (assign_old_block _ _ _ _ _ _ _ Ha Hx) as (y & Hy & Hhy & _).
    destruct (darker_at _ _ _ _ Hdk (proj1 Hy)) as (z & Hz & Hyz & _ & _ & Hhz). exists z. rewrite Hh.
    split; [split; [done|destruct Hy; congruence]|]. destruct Hhz as [->|(_ & Hw & Hgr)]; [left; congruence|]. right.
    split_and!; [|congruence|done]. destruct Hph as [| ->]; [done|]. destruct Hy as [Hy _]. assert (z = y) as -> by congruence. rewrite Hw in Hgr. done.
  - intros c y [Hy Hyy]. left. rewrite Hh in Hy. destruct (darker_from _ _ _ _ Hdk Hy) as (x & Hx & Hyx & _).
    destruct (assign_dom _ _ _ _ Ha c x) as (z & Hz & _); [split; congruence|by exists z].
  - split_and!; congruence.
  - intros c Hmk. rewrite Hh. apply (store_guarded s b i old w s1); try done. by apply Hold.
  - intros c. rewrite Hh, Ht2. intros Hc'. destruct (dk_gray _ _ Hdk _ Hc') as [|]; [left|by right]. by apply (store_colors _ _ _ _ _ _ Ha).
  - intros c. rewrite Ht1, Ht2. apply (dk_tracked _ _ Hdk).
  - intros c. rewrite Hg, Hh. intros Hc'. destruct (dk_stack _ _ Hdk _ Hc') as [|[? Hw]]; [left; congruence|].
    destruct Hph as [| ->]; [by right|left; by rewrite Hg1 in Hc'].
  - intros Hn Hgr. rewrite Hg. apply (dk_nodup _ _ Hdk); rewrite Hg1; [done|]. intros c Hc'. by apply (store_colors _ _ _ _ _ _ Ha), Hgr.
Qed.
Lemma Modify_shape s b i old w s' : inv s -> writable (heap s) (In b i) -> deref s (In b i) = Ok old -> ~ doomed s b -> word_ok (heap s) w ->
  Modify grows (In b i) w s = Ok s' -> keeps s s' /\ (ref_table s' = ref_table s \/ ref_table s' = In b i :: ref_table s).
Proof.
  intros Hi Hw Hd Hnd Hwo HM. unfold Modify in HM. rewrite Hd in HM. cbn [rbind] in HM.
  destruct (assign_some _ _ w _ Hd) as [s1 Ha]. rewrite Ha in HM. cbn [rbind] in HM.
  destruct (assign_rest _ _ _ _ Ha) as (Hr1 & _ & _ & _ & Hp1 & _).
  pose proof (ok_word _ _ (iv_ok _ Hi) _ _ Hd Hnd) as Hold. unfold content_ok in Hold. rewrite (proj1 Hw) in Hold.
  pose proof (assign_shape _ _ _ _ Ha Hw) as Hs1.
  destruct (place_in_heap (heap s1) (In b i)) eqn:Hin.
  2: { injection HM as <-. split; [|by left]. apply (store_keeps s b i old w s1 s1); try done; [apply darker_refl|by right|].
    intros _ x c o y [Hx Hy]. rewrite (shape_place _ _ Hs1) in Hin. simpl in Hin. by rewrite Hx, Hy in Hin. }
  rewrite Hp1 in HM.
  assert (exists s2, (if gc_phase s =? Phase_mark then darken grows old s1 else Ok s1) = Ok s2 /\ darker s1 s2 /\
    (gc_phase s = Phase_mark \/ s2 = s1) /\ (gc_phase s = Phase_mark -> forall c o y, old = Adr c o -> old_block (heap s1) c y -> dark (heap s2) c))
    as (s2 & Hs2 & Hdk & Hph & Hdark).
  { destruct (Z.eqb_spec (gc_phase s) Phase_mark).
    - pose proof (assign_keeps _ _ _ _ _ _ (iv_ok _ Hi) Hw Ha) as Hok1.
      destruct (darken_effect grows s1 _ old Hok1) as (s2 & -> & _ & _ & Hdk & Hdd); [by eapply shape_word|].
      exists s2. split_and!; [done..|by left|]. intros _. apply Hdd.
    - exists s1. split_and!; [done|apply darker_refl|by right|done]. }
  rewrite Hs2 in HM. cbn [rbind] in HM. destruct (dk_same _ _ Hdk) as (_ & Hr2 & _).
  destruct (Is_block_word w && is_young (heap s2) w && negb (Is_block_word old && is_young (heap s2) old)).
  - destruct (add_ref_rest _ _ _ HM) as (H1 & H2 & H3 & H4 & H5 & H6 & H7 & H8 & H9 & H10). split; [|right; congruence].
    apply (store_keeps s b i old w s1 s2); try done. intros Hm x c o y _. by apply Hdark.
  - injection HM as <-. split; [|left; congruence]. apply (store_keeps s b i old w s1 s2); try done. intros Hm x c o y _. by apply Hdark.
Qed.
Lemma modify_inv s b i old w s' : inv s -> holds s b -> writable (heap s) (In b i) -> deref s (In b i) = Ok old -> at_hand s w ->
  Modify grows (In b i) w s = Ok s' -> inv s'.
Proof.
  intros Hi Hh Hw Hd Hah HM. destruct (at_hand_ok _ _ Hi Hah) as [Hwo Hg]. destruct (holds_good _ _ Hi Hh O) as [Hnd _].
  destruct (Modify_shape _ _ _ _ _ _ Hi Hw Hd Hnd Hwo HM) as [K Hr].
  pose proof (Modify_keeps grows s (raw_of s) (In b i) old w (iv_ok _ Hi) Hw Hd Hnd Hwo) as H. rewrite HM in H. destruct H as [Hok Hdr]. split.
  - by apply (gc_ok_raw s).
  - intros p v Hf Hv. apply (keeps_good s s' K). rewrite Hdr in Hv. case_decide; [by injection Hv as <-|].
    apply (iv_words _ Hi p v); [|done]. destruct p as [m|c j]; [simpl in Hf |- *; by rewrite <-(keeps_roots s s' K)|].
    pose proof Hv as Hv0. simpl in Hv0. destruct (heap s !! c) as [x|] eqn:Hx; [|done]. destruct (young x) eqn:Hy; [exists x; split; [done|by left]|].
    by eapply (keeps_firm s s' K c j x).
  - apply (keeps_good s s' K). destruct (kp_same _ _ K) as (_ & _ & _ & _ & ->). apply (iv_global _ Hi).
  - intros p Hp. apply (refs_raw s); [done|]. destruct Hr as [Hr|Hr]; [rewrite Hr in Hp; by apply (iv_refs _ Hi)|].
    rewrite Hr in Hp. apply elem_of_cons in Hp as [->|Hp]; [done|by apply (iv_refs _ Hi)].
  - apply (keeps_phase s); [done|]. apply (iv_phase _ Hi).
Qed.

(** ** New blocks *)

Lemma new_block_keeps s s' k blk : heap s !! k = None -> heap s' = <[k := blk]> (heap s) ->
  young blk = true \/ Color_hd (hd blk) = alloc_color addr s k ->
  gray_vals s' = gray_vals s -> heap_is_pure s' = heap_is_pure s -> gc_phase s' = gc_phase s -> gc_sweep_hp s' = gc_sweep_hp s ->
  markhp s' = markhp s -> root_lists s' = root_lists s -> global_data s' = global_data s -> keeps s s'.
Proof.
  intros Hk Hh Hc Hg Hpu Hp Hsw Hm Hro Hgd.
  assert (forall b x, old_block (heap s) b x -> old_block (heap s') b x) as Hold.
  { intros b x [Hb Hy]. split; [|done]. rewrite Hh, lookup_insert_ne; congruence. }
  assert (forall b y, old_block (heap s') b y -> old_block (heap s) b y \/ (b = k /\ y = blk)) as Hnew.
  { intros b y [Hb Hy]. rewrite Hh in Hb. apply lookup_insert_Some in Hb as [[<- <-]|[? Hb]]; [by right|by left]. }
  assert (young blk = false -> Color_hd (hd blk) = Black \/ Color_hd (hd blk) = White) as Hbw.
  { intros Hy. destruct Hc as [| ->]; [congruence|]. apply alloc_color_cases. }
  split; try done.
  - intros b x Hb. exists x. split; [by apply Hold|by left].
  - intros b y Hb. destruct (Hnew _ _ Hb) as [|[-> ->]]; [left; by exists y|right]. destruct Hc as [Hc|]; [|done]. destruct Hb. congruence.
  - intros b _. induction 1 as [b Hd|a b o i x x' Ha IH Hx Hcx Ht Hf Hx'].
    + apply guarded_dark. destruct Hd as [(x & Hx & Hcx)|(x & Hx & Hcx)]; [left|right]; exists x; split; try done; by apply Hold.
    + eapply (guarded_step _ a b o i x x'); try done; by apply Hold.
  - intros b (y & Hy & Hcy). destruct (Hnew _ _ Hy) as [Hb|[-> ->]]; [left; by exists y|].
    destruct Hy as [_ Hy]. destruct (Hbw Hy) as [H|H]; rewrite H in Hcy; done.
  - intros b. unfold tracked. by rewrite Hg, Hpu.
  - intros b. rewrite Hg. by left.
  - intros Hn _. by rewrite Hg.
Qed.
Lemma word_insert h k blk w : h !! k = None -> word_ok h w -> word_ok (<[k := blk]> h) w.
Proof.
  intros Hk. destruct w as [|b o]; [done|]. intros (x & Hb & Ho). exists x. split; [|done]. rewrite lookup_insert_ne; congruence.
Qed.
Lemma young_insert h k blk w : h !! k = None -> word_ok h w -> is_young (<[k := blk]> h) w = is_young h w.
Proof.
  intros Hk. destruct w as [|b o]; [done|]. intros (x & Hb & Ho). simpl. rewrite lookup_insert_ne; congruence.
Qed.
Lemma content_insert h k blk p w : h !! k = None -> (forall i, p <> In k i) -> content_ok h p w -> content_ok (<[k := blk]> h) p w.
Proof.
  intros Hk Hp. unfold content_ok. assert (scans (<[k := blk]> h) p = scans h p) as ->.
  { destruct p as [|b i]; [done|]. simpl. rewrite lookup_insert_ne; [done|]. intros ->. by destruct (Hp i). }
  destruct (scans h p); [by apply word_insert|done].
Qed.
Lemma deref_insert s s' k blk : heap s !! k = None -> heap s' = <[k := blk]> (heap s) -> cells s' = cells s ->
  forall p w, deref s' p = Ok w -> deref s p = Ok w \/ exists i, p = In k i /\ fields blk !! i = Some w.
Proof.
  intros Hk Hh Hc [n|b i] w; simpl; [rewrite Hc; by left|]. rewrite Hh. destruct (decide (k = b)) as [<-|].
  - rewrite lookup_insert_eq. simpl. intros Hw%of_ptr_Ok. right. by exists i.
  - rewrite lookup_insert_ne by done. by left.
Qed.
Lemma deref_apart s k : heap s !! k = None -> forall p w, deref s p = Ok w -> forall i, p <> In k i.
Proof. intros Hk p w Hd i ->. simpl in Hd. by rewrite Hk in Hd. Qed.

(** Filling a block, from the field after [pre]. *)
Lemma fill_young k y h ws : forall pre suf s, heap s !! k = Some (mkG y h (pre ++ suf)) -> length suf = length ws ->
  for_each (fun e => assign (In k (e.1)) (e.2)) (zip (seq (length pre) (length ws)) ws) s =
  Ok (set_heap (<[k := mkG y h (pre ++ ws)]> (heap s)) s).
Proof.
  induction ws as [|w ws IH]; intros pre [|x suf] s Hk Hl; try done.
  - simpl. rewrite insert_id by done. by destruct s.
  - simpl zip. rewrite for_each_cons. cbn [fst snd]. simpl assign. rewrite Hk. simpl. rewrite list_lookup_middle by done. cbn [rbind of_ptr].
    replace (<[length pre := w]> (pre ++ x :: suf)) with ((pre ++ [w]) ++ suf)
      by (rewrite insert_app_r_alt by lia; rewrite Nat.sub_diag, <-app_assoc; done).
    replace (S (length pre)) with (length (pre ++ [w])) by (rewrite length_app; simpl; lia).
    rewrite (IH (pre ++ [w]) suf).
    + simpl. rewrite insert_insert_eq, <-app_assoc. done.
    + simpl. by rewrite lookup_insert_eq.
    + simpl in Hl. lia.
Qed.
Lemma new_young_eq tag ws s : let k := fresh (dom (heap s)) in
  new_young tag ws s = Ok (k, set_heap (<[k := mkG true (Make_header (Z.of_nat (length ws)) tag Black) ws]> (heap s))
    (set_young_ptr (young_ptr s - 4 * Whsize_wosize (Z.of_nat (length ws))) s)).
Proof.
  intros k. unfold new_young, bump. simpl (heap (set_young_ptr _ _)). fold k. cbn zeta.
  set (s1 := set_heap _ _).
  pose proof (fill_young k true (Make_header (Z.of_nat (length ws)) tag Black) ws [] (junk k <$> seq 0 (Z.to_nat (Z.of_nat (length ws)))) s1) as H.
  cbn [length app] in H. rewrite H.
  - cbn [rbind]. subst s1. simpl. by rewrite insert_insert_eq.
  - subst s1. simpl. by rewrite lookup_insert_eq.
  - rewrite length_fmap, length_seq. lia.
Qed.
Lemma data_words s tag ws i w : inv s -> data_ok s tag ws -> ws !! i = Some w ->
  good s w /\ word_ok (heap s) w /\ (tag <? No_scan_tag = false -> exists x, w = Imm x).
Proof.
  intros Hi (_ & _ & _ & _ & Hws) Hw. eapply Forall_lookup_1 in Hws; [|done]. cbn beta in Hws.
  destruct (tag <? No_scan_tag); [|destruct Hws as [x ->]; split_and!; [done..|by exists x]].
  destruct (at_hand_ok _ _ Hi Hws). done.
Qed.

(** A state with one more block. *)
Definition with_block (s : gc) (k : nat) (blk : gblock) (s' : gc) : Prop :=
  heap s !! k = None /\ heap s' = <[k := blk]> (heap s) /\ cells s' = cells s /\ ref_table s' = ref_table s /\
  gray_vals s' = gray_vals s /\ gray_vals_size s' = gray_vals_size s /\ heap_is_pure s' = heap_is_pure s /\ gc_phase s' = gc_phase s /\
  gc_sweep_hp s' = gc_sweep_hp s /\ markhp s' = markhp s /\ root_lists s' = root_lists s /\ global_data s' = global_data s /\
  ref_table_size s' = ref_table_size s /\ ref_table_reserve s' = ref_table_reserve s /\ ref_table_limit s' = ref_table_limit s.
Lemma with_block_ok s k blk s' raw raw' : gc_ok s raw -> with_block s k blk s' -> header_ok blk -> (young blk = true -> fields blk <> []) ->
  (forall q, raw q -> raw' q) -> (forall q, (forall i, q <> In k i) -> raw' q -> raw q) ->
  (forall i w, fields blk !! i = Some w -> raw' (In k i) \/
     young blk = true /\ if btag blk <? No_scan_tag then word_ok (heap s) w else exists x, w = Imm x) -> gc_ok s' raw'.
Proof.
  intros Hok (Hk & Hh & Hc & Hr & Hg & Hgs & Hpu & Hp & Hsw & Hm & Hro & Hgd & Hz & Hre & Hli) Hhd Hne Hrr Hrr' Hf.
  assert (roots s' = roots s) as Hroots by (unfold roots; by rewrite Hro).
  assert (forall b, b <> k -> heap s' !! b = heap s !! b) as Hb by (intros b Hb; by rewrite Hh, lookup_insert_ne).
  assert (forall p w, deref s p = Ok w -> deref s' p = Ok w /\ place_in_heap (heap s') p = place_in_heap (heap s) p /\ scans (heap s') p = scans (heap s) p) as Hold.
  { intros [n|b i] w Hd; [simpl in *; by rewrite Hc|]. assert (b <> k) by (intros ->; by eapply (deref_apart s k Hk (In k i) w Hd i)).
    simpl in *. by rewrite Hb. }
  split.
  - intros b x. rewrite Hh. intros [[<- <-]|[? Hx]]%lookup_insert_Some; [done|by apply (ok_block _ _ Hok b x)].
  - intros p w Hd Hn. destruct (deref_insert s s' k blk Hk Hh Hc p w Hd) as [Hd'|(i & -> & Hi)].
    + rewrite Hh. apply content_insert; [done|by eapply deref_apart|]. apply (ok_word _ _ Hok); [done|by intros ?%Hrr].
    + destruct (Hf _ _ Hi) as [|[_ Hw]]; [done|]. unfold content_ok. simpl. rewrite Hh, lookup_insert_eq.
      destruct (_ <? _); [by apply word_insert|done].
  - intros p w Hd Hn Hin Hy. rewrite Hr. destruct (deref_insert s s' k blk Hk Hh Hc p w Hd) as [Hd'|(i & -> & Hi)].
    + destruct (Hold _ _ Hd') as (_ & Hp1 & _). rewrite Hp1 in Hin. assert (~ raw p) as Hnr by (by intros ?%Hrr).
      apply (ok_young _ _ Hok p w Hd' Hnr Hin). pose proof (ok_word _ _ Hok _ _ Hd' Hnr) as Hw. unfold content_ok in Hw.
      destruct (scans (heap s) p); [|by destruct Hw as [x ->]]. by rewrite Hh, young_insert in Hy.
    + destruct (Hf _ _ Hi) as [|[Hyb _]]; [done|]. simpl in Hin. rewrite Hh, lookup_insert_eq in Hin. by rewrite Hyb in Hin.
  - intros p. rewrite Hr. intros (Hi & Hsc & w & Hd)%(ok_refs _ _ Hok). destruct (Hold _ _ Hd) as (Hd' & -> & ->). split_and!; [done..|by exists w].
  - intros n. rewrite Hroots, Hc. apply (ok_roots _ _ Hok).
  - rewrite Hgd, Hh. destruct (ok_global _ _ Hok) as [Hw Hy]. split; [by apply word_insert|by rewrite young_insert].
  - intros n. rewrite Hroots. intros Hn Hrn. by apply (ok_cells _ _ Hok n Hn), Hrr'.
  - unfold ref_table_threshold, ref_table_end. rewrite Hz, Hre, Hli. apply (ok_sizes _ _ Hok).
  - rewrite Hr, Hli. apply (ok_table _ _ Hok).
  - rewrite Hg, Hgs. apply (ok_gray _ _ Hok).
  - intros b. rewrite Hg. intros Hbg%(ok_grays _ _ Hok). simpl in *. rewrite Hb; [done|]. intros ->. by rewrite Hk in Hbg.
Qed.
Lemma data_header tag (ws : list word) c : a_color c -> c <> Blue -> header_parts (Z.of_nat (length ws)) tag -> tag <> Infix_tag ->
  forall y (fs : list word), length fs = length ws -> let blk := mkG y (Make_header (Z.of_nat (length ws)) tag c) fs in
  header_ok blk /\ btag blk = tag /\ Color_hd (hd blk) = c.
Proof.
  intros Hc Hn Hp Ht y fs Hl blk. unfold header_ok, btag. simpl. rewrite Hl, Tag_header, Color_header by done. split; [|done]. by exists tag, c.
Qed.
Lemma new_cell_good s k blk o : heap s !! k = Some blk -> young blk = true \/ ~ doomed s k /\ (gc_phase s = Phase_mark -> Color_hd (hd blk) = Black) ->
  good s (Adr k o).
Proof.
  intros Hk Hc. split.
  - intros Hd. destruct Hc as [Hy|[Hc _]]; [|done]. destruct Hd as (_ & (x & [Hx Hyx] & _) & _). congruence.
  - intros Hm x [Hx Hyx]. destruct Hc as [Hy|[_ Hc]]; [congruence|]. apply guarded_dark. right. exists blk. split; [split; [done|congruence]|by apply Hc].
Qed.
Lemma new_young_inv s tag ws k s1 : inv s -> data_ok s tag ws -> new_young tag ws s = Ok (k, s1) ->
  inv s1 /\ word_ok (heap s1) (Adr k 0) /\ good s1 (Adr k 0) /\ roots s1 = roots s.
Proof.
  intros Hi Hdata Hnew. pose proof Hdata as (Hp & Hti & _ & Hne & _). rewrite new_young_eq in Hnew. injection Hnew as Hk Hs1.
  pose proof (fresh_none (heap s)) as Hnone. rewrite Hk in Hs1, Hnone. set (blk := mkG true (Make_header (Z.of_nat (length ws)) tag Black) ws) in *.
  assert (a_color Black) as Hb by (by right; right; right).
  destruct (data_header tag ws Black Hb ltac:(done) Hp Hti true ws eq_refl) as (Hh & Ht & _). fold blk in Hh, Ht.
  assert (with_block s k blk s1) as Hwb by (by rewrite <-Hs1).
  assert (keeps s s1) as K by (rewrite <-Hs1; apply (new_block_keeps s _ k blk); try done; by left).
  assert (heap s1 !! k = Some blk) as Hk1 by (rewrite <-Hs1; simpl; by rewrite lookup_insert_eq).
  split_and!; [|exists blk; split; [done|by left]|by apply (new_cell_good s1 k blk); [|left]|by apply (keeps_roots s s1)]. split.
  - apply (gc_ok_raw s); [done|]. apply (with_block_ok s k blk s1 (raw_of s)); try done; [apply (iv_ok _ Hi)|].
    intros i w Hw. right. split; [done|]. rewrite Ht. destruct (data_words _ _ _ _ _ Hi Hdata Hw) as (_ & Hwo & Himm).
    destruct (tag <? No_scan_tag); [done|by apply Himm].
  - intros p w Hf Hd. apply (keeps_good s s1 K). destruct (deref_insert s s1 k blk Hnone) with (p := p) (w := w) as [Hd'|(i & -> & Hw)]; try done; [by rewrite <-Hs1..| |].
    + apply (iv_words _ Hi p w); [|done]. destruct p as [m|c j]; [simpl in Hf |- *; by rewrite <-(keeps_roots s s1 K)|].
      simpl in Hd'. destruct (heap s !! c) as [x|] eqn:Hx; [|done]. destruct (young x) eqn:Hy; [exists x; split; [done|by left]|].
      by eapply (keeps_firm s s1 K c j x).
    + by destruct (data_words _ _ _ _ _ Hi Hdata Hw).
  - apply (keeps_good s s1 K). rewrite <-Hs1. apply (iv_global _ Hi).
  - intros p Hp'. apply (refs_raw s); [done|]. rewrite <-Hs1 in Hp'. by apply (iv_refs _ Hi).
  - apply (keeps_phase s); [done|]. apply (iv_phase _ Hi).
Qed.

(** What [initialize] leaves alone. *)
Definition filled_in (k : nat) (s s' : gc) : Prop := cells s' = cells s /\ root_lists s' = root_lists s /\
  gray_vals s' = gray_vals s /\ heap_is_pure s' = heap_is_pure s /\ gc_phase s' = gc_phase s /\ markhp s' = markhp s /\
  gc_sweep_hp s' = gc_sweep_hp s /\ global_data s' = global_data s /\ forall p, p ∈ ref_table s' -> p ∈ ref_table s \/ exists i, p = In k i.
Lemma initialize_shape k i w s s' : initialize grows (In k i) w s = Ok s' -> exists s1, assign (In k i) w s = Ok s1 /\ heap s' = heap s1 /\ filled_in k s s'.
Proof.
  unfold initialize. destruct (assign (In k i) w s) as [s1| | |] eqn:Ha; try done. cbn [rbind]. intros H. exists s1. split; [done|].
  destruct (assign_rest _ _ _ _ Ha) as (Hr & _ & _ & _ & Hp & Hg & _ & Hro & _ & Hsw & Hpu & Hm & Hgd).
  assert (cells s1 = cells s) as Hc by (simpl in Ha; by inv_ok Ha).
  destruct (_ && _).
  - destruct (add_ref_rest _ _ _ H) as (H1 & H2 & H3 & H4 & H5 & H6 & H7 & H8 & H9 & H10). split; [done|]. split_and!; try congruence.
    intros p. rewrite H10, Hr. intros [->|]%elem_of_cons; [right; by exists i|by left].
  - injection H as <-. split; [done|]. split_and!; try congruence. intros p. rewrite Hr. by left.
Qed.
Definition unfilled (raw : place -> Prop) (k a n : nat) (q : place) : Prop := raw q \/ exists j, (a <= j < a + n)%nat /\ q = In k j.
Lemma fill_old k h raw ws : (forall i, ~ raw (In k i)) -> Tag_hd h <> Closure_tag -> Tag_hd h < No_scan_tag -> forall pre suf s,
  gc_ok s (unfilled raw k (length pre) (length ws)) -> heap s !! k = Some (mkG false h (pre ++ suf)) -> length suf = length ws ->
  Forall (word_ok (heap s)) ws -> forall s',
  for_each (fun e => initialize grows (In k (e.1)) (e.2)) (zip (seq (length pre) (length ws)) ws) s = Ok s' ->
  gc_ok s' raw /\ heap s' = <[k := mkG false h (pre ++ ws)]> (heap s) /\ filled_in k s s'.
Proof.
  intros Hraw Hcl Hns. induction ws as [|w ws IH]; intros pre [|x suf] s Hok Hk Hl Hws s' Hs'; try done.
  - simpl in Hs'. injection Hs' as <-. rewrite insert_id by done. split_and!; [|done|split_and!; try done; by left].
    eapply gc_ok_weaken; [done| |].
    + intros q [|(j & ? & _)]; [done|simpl in *; lia].
    + intros n Hn Hr. eapply (ok_cells _ _ Hok n Hn). by left.
  - apply Forall_cons in Hws as [Hw Hws]. simpl zip in Hs'. rewrite for_each_cons in Hs'. cbn [fst snd] in Hs'.
    destruct (initialize grows (In k (length pre)) w s) as [s1| | |] eqn:Hin; try done. cbn [rbind] in Hs'.
    assert (writable (heap s) (In k (length pre))) as Hwr.
    { split; [simpl; rewrite Hk; by apply Z.ltb_lt|]. intros blk Hb. assert (blk = mkG false h (pre ++ x :: suf)) as -> by congruence. exact Hcl. }
    assert (deref s (In k (length pre)) = Ok x) as Hd by (simpl; rewrite Hk; simpl; by rewrite list_lookup_middle).
    pose proof (initialize_keeps grows s _ k (length pre) x w Hok Hwr Hd Hw) as Hi. rewrite Hin in Hi. destruct Hi as [Hok1 _].
    destruct (initialize_shape _ _ _ _ _ Hin) as (s2 & Ha & Hh & Hf). pose proof (assign_shape _ _ _ _ Ha Hwr) as Hsh.
    assert (heap s1 = <[k := mkG false h ((pre ++ [w]) ++ suf)]> (heap s)) as Hh1.
    { rewrite Hh. simpl in Ha. rewrite Hk in Ha. simpl in Ha. rewrite list_lookup_middle in Ha by done. injection Ha as <-. simpl.
      rewrite insert_app_r_alt by lia. by rewrite Nat.sub_diag, <-app_assoc. }
    replace (S (length pre)) with (length (pre ++ [w])) in Hs' by (rewrite length_app; simpl; lia).
    destruct (IH (pre ++ [w]) suf s1) with (s' := s') as (Hok' & Hh' & Hf'); try done.
    + eapply gc_ok_weaken; [exact Hok1| |].
      * intros q [[Hq|(j & Hj & ->)] Hn]; [by left|right]. exists j. split; [|done]. rewrite length_app. simpl in *.
        assert (j <> length pre) by congruence. lia.
      * intros n Hn [Hr|(j & _ & ?)]; [|done]. assert (n ∈ roots s) as Hn'.
        { unfold roots in *. destruct Hf as (_ & <- & _). done. } eapply (ok_cells _ _ Hok n Hn'). by left.
    + by rewrite Hh1, lookup_insert_eq.
    + simpl in Hl. lia.
    + rewrite Hh. eapply Forall_impl; [exact Hws|]. intros v. by apply shape_word.
    + split_and!; [done|rewrite Hh', Hh1, insert_insert_eq, <-app_assoc; done|].
      destruct Hf as (? & ? & ? & ? & ? & ? & ? & ? & Hr), Hf' as (? & ? & ? & ? & ? & ? & ? & ? & Hr').
      split_and!; try congruence. intros p [Hp|]%Hr'; [by apply Hr|by right].
Qed.
Lemma new_old_inv s tag ws k s1 : inv s -> data_ok s tag ws -> tag < No_scan_tag -> new_old tag ws s = Ok (k, s1) ->
  inv s1 /\ word_ok (heap s1) (Adr k 0) /\ good s1 (Adr k 0) /\ roots s1 = roots s.
Proof.
  intros Hi Hdata Hns Hnew. pose proof Hdata as (Hp & Hti & Hcl & Hne & _). unfold new_old in Hnew.
  destruct (alloc_shr_eq junk room addr (Z.of_nat (length ws)) tag s)
    as (s2 & Heq & Hh2 & Hc2 & Hr2 & Hro2 & Hg2 & Hgs2 & Hz2 & Hre2 & Hl2 & _ & Hph2 & Hsw2 & Hpu2 & Hm2 & Hgd2).
  rewrite Heq in Hnew. destruct (room s (Z.of_nat (length ws))); [|done]. cbn [rbind] in Hnew.
  pose proof (fresh_none (heap s)) as Hnone. set (k0 := fresh (dom (heap s))) in *.
  set (c := alloc_color addr s k0) in *. destruct (alloc_color_ok addr s k0) as [Hco Hnb]. fold c in Hco, Hnb.
  rewrite Nat2Z.id in Hh2. set (jk := junk k0 <$> seq 0 (length ws)) in *. assert (length jk = length ws) as Hjk by (subst jk; by rewrite length_fmap, length_seq).
  destruct (data_header tag ws c Hco Hnb Hp Hti false jk Hjk) as (Hhd2 & _ & _).
  destruct (data_header tag ws c Hco Hnb Hp Hti false ws eq_refl) as (_ & Ht & Hcc).
  assert (gc_ok s2 (unfilled (raw_of s) k0 0 (length ws))) as Hok2.
  { eapply (with_block_ok s k0 _ s2 (raw_of s)); [apply (iv_ok _ Hi)|by split_and!|exact Hhd2|done|by left| |].
    - intros q Hq [|(j & _ & ->)]; [done|by destruct (Hq j)].
    - intros i w Hw. left. right. exists i. split; [|done]. simpl in Hw. apply lookup_lt_Some in Hw. lia. }
  destruct (for_each _ _ s2) as [s3| | |] eqn:Hfill; try done. cbn [rbind] in Hnew. injection Hnew as <- <-.
  assert (forall i, ~ raw_of s (In k0 i)) as Hnr. { intros i (_ & (x & [Hx _] & _) & _). congruence. }
  assert (Tag_hd (Make_header (Z.of_nat (length ws)) tag c) = tag) as Htag by exact Ht.
  destruct (fill_old k0 (Make_header (Z.of_nat (length ws)) tag c) (raw_of s) ws Hnr ltac:(by rewrite Htag) ltac:(by rewrite Htag) [] jk s2 Hok2)
    with (s' := s3) as (Hok3 & Hh3 & Hf3); [by rewrite Hh2, lookup_insert_eq|done| |done|].
  { apply Forall_lookup_2. intros i w Hw. rewrite Hh2. apply word_insert; [done|]. by destruct (data_words _ _ _ _ _ Hi Hdata Hw) as (_ & ? & _). }
  rewrite Hh2, insert_insert_eq in Hh3. cbn [app] in Hh3.
  destruct Hf3 as (Hc3 & Hro3 & Hg3 & Hpu3 & Hph3 & Hm3 & Hsw3 & Hgd3 & Hr3).
  assert (keeps s s3) as K by (eapply (new_block_keeps s s3 k0); [done|exact Hh3|by right|congruence..]).
  assert (heap s3 !! k0 = Some (mkG false (Make_header (Z.of_nat (length ws)) tag c) ws)) as Hk3 by (by rewrite Hh3, lookup_insert_eq).
  assert (~ doomed s3 k0 /\ (gc_phase s3 = Phase_mark -> c = Black)) as Hkd.
  { split; [rewrite (keeps_doomed s s3 K); apply (Hnr O)|]. rewrite Hph3, Hph2. intros Hm. subst c. unfold alloc_color. by rewrite Hm. }
  assert (good s3 (Adr k0 0)) as Hgk. { eapply new_cell_good; [exact Hk3|right]. split; [apply Hkd|]. intros Hm. rewrite <-(proj2 Hkd Hm). exact Hcc. }
  split_and!; [|eexists; split; [exact Hk3|by left]|done|by apply (keeps_roots s s3)]. split.
  - by apply (gc_ok_raw s).
  - intros p w Hf Hd. apply (keeps_good s s3 K). destruct (deref_insert s s3 k0 _ Hnone Hh3 ltac:(congruence) p w Hd) as [Hd'|(i & -> & Hw)].
    + apply (iv_words _ Hi p w); [|done]. destruct p as [m|d j]; [simpl in Hf |- *; by rewrite <-(keeps_roots s s3 K)|].
      simpl in Hd'. destruct (heap s !! d) as [x|] eqn:Hx; [|done]. destruct (young x) eqn:Hy; [exists x; split; [done|by left]|].
      by eapply (keeps_firm s s3 K d j x).
    + by destruct (data_words _ _ _ _ _ Hi Hdata Hw).
  - apply (keeps_good s s3 K). rewrite Hgd3, Hgd2. apply (iv_global _ Hi).
  - intros p Hp'. apply (refs_raw s); [done|]. apply Hr3 in Hp' as [Hp'|[i ->]]; [|apply Hnr]. rewrite Hr2 in Hp'. by apply (iv_refs _ Hi).
  - apply (keeps_phase s); [done|]. apply (iv_phase _ Hi).
Qed.

(** ** A minor collection *)

Lemma raw_of_apart s : inv s -> raw_apart s (raw_of s).
Proof.
  intros Hi. split.
  - intros [n|b i]; simpl; [destruct (decide (n ∈ roots s)); tauto|]. unfold doomed, colored, old_block.
    destruct (decide (gc_phase s = Phase_sweep)); [|tauto]. destruct (decide (gc_sweep_hp s <= addr b)); [|tauto].
    destruct (heap s !! b) as [x|]; [|right; intros (_ & (x & [? _] & _) & _); done].
    destruct (young x) eqn:Hy; [right; intros (_ & (z & [[= <-] ?] & _) & _); congruence|].
    destruct (decide (Color_hd (hd x) = White)); [left; split_and!; [done| |done]; by exists x|right].
    intros (_ & (z & [[= <-] _] & ?) & _). done.
  - done.
  - intros b i Hd. split.
    + destruct Hd as (_ & (x & [Hx Hy] & _) & _). simpl. by rewrite Hx, Hy.
    + intros Hr. by apply (iv_refs _ Hi _ Hr).
Qed.
Lemma good_new s s' c o : keeps s s' -> heap s !! c = None -> good s' (Adr c o).
Proof.
  intros K Hc. split.
  - rewrite (keeps_doomed s s' K). intros (_ & (x & [Hx _] & _) & _). congruence.
  - destruct (kp_same _ _ K) as (Hp & _). rewrite Hp. intros Hm x Hx. apply guarded_dark. right. exists x. split; [done|].
    destruct (kp_new _ _ K _ _ Hx) as [[y [Hy _]]|Ha]; [congruence|]. rewrite Ha. unfold alloc_color. by rewrite Hm.
Qed.
Lemma fw_of_old raw s s' fw b x : collected addr raw s s' fw -> old_block (heap s) b x -> fw !! b = None.
Proof.
  intros C [Hb Hy]. destruct (fw !! b) as [c|] eqn:E; [|done]. destruct (proj1 (co_live _ _ _ _ _ C b) ltac:(by rewrite E)) as [_ (z & Hz & Hyz)]. congruence.
Qed.
Lemma minor_keeps s s' fw : inv s -> collected addr (raw_of s) s s' fw -> keeps s s'.
Proof.
  intros Hi C. destruct (co_same _ _ _ _ _ C) as (Hro & Hp & Hsw & Hg & Hpu & Hm & Hgd).
  assert (forall b x, old_block (heap s) b x -> exists y, old_block (heap s') b y /\ hd y = hd x /\ btag y = btag x /\
    forall i c o, fields x !! i = Some (Adr c o) -> fw !! c = None -> fields y !! i = Some (Adr c o)) as Hold.
  { intros b x [Hb Hy]. destruct (co_block _ _ _ _ _ C b b x Hb) as (y & Hy1 & Hyy & Hh & Hl & Hf); [exists x; by rewrite Hy|].
    unfold moved_header in Hh. rewrite Hy in Hh. exists y. split_and!; [done|done|by unfold btag; rewrite Hh|].
    intros i c o Hi' Hc. destruct (Hf _ _ Hi') as [[-> _]|[-> _]]; [simpl; by rewrite Hc|done]. }
  assert (forall b y, old_block (heap s') b y -> (exists x, old_block (heap s) b x /\ hd y = hd x) \/ Color_hd (hd y) = alloc_color addr s b) as Hnew.
  { intros c y [Hc Hyy]. destruct (proj1 (co_names _ _ _ _ _ C c) ltac:(by rewrite Hc)) as [b Hmv]. pose proof Hmv as (x & Hb & Hmb).
    destruct (co_block _ _ _ _ _ C b c x Hb Hmv) as (z & Hz & _ & Hh & _). assert (z = y) as -> by congruence. unfold moved_header in Hh.
    destruct (young x) eqn:Hyx; [right|left; subst c; by exists x].
    destruct (ok_block _ _ (iv_ok _ Hi) _ _ Hb) as [(t & cl & Hhd & Hpa & Hcl & _) _]. destruct (alloc_color_ok addr s c).
    rewrite Hh, Color_header; [done| |done]. unfold btag. by rewrite Hhd, Tag_header. }
  split.
  - intros b x Hx. destruct (Hold _ _ Hx) as (y & Hy & Hh & _). exists y. split; [done|left; by rewrite Hh].
  - intros b y Hy. destruct (Hnew _ _ Hy) as [(x & Hx & _)|]; [left; by exists x|by right].
  - by split_and!.
  - intros b Hmk. induction 1 as [b Hd|a b o i x x' Ha IH Hx Hcx Ht Hf Hx'].
    + apply guarded_dark. destruct Hd as [(x & Hx & Hcx)|(x & Hx & Hcx)]; [left|right]; destruct (Hold _ _ Hx) as (y & Hy & Hh & _); exists y; split; congruence.
    + destruct (Hold _ _ Hx) as (y & Hy & Hh & Hty & Hfy). destruct (Hold _ _ Hx') as (y' & Hy' & _).
      eapply (guarded_step _ a b o i y y' IH Hy); [congruence|congruence| |done]. apply Hfy; [done|by eapply fw_of_old].
  - intros b (y & Hy & Hc). left. destruct (Hnew _ _ Hy) as [(x & Hx & Hh)|Ha]; [exists x; split; congruence|].
    destruct (alloc_color_cases addr s b) as [E|E]; rewrite Ha, E in Hc; done.
  - intros b. unfold tracked. by rewrite Hg, Hpu.
  - intros b. rewrite Hg. by left.
  - intros Hn _. by rewrite Hg.
Qed.
Lemma minor_inv s fuel s' : inv s -> (2 * size (young_blocks s) + 2 <= fuel)%nat -> empty_minor_heap junk room addr fuel s = Ok s' -> inv s' /\ quiet s'.
Proof.
  intros Hi Hfu Hm. pose proof (minor_copies junk room addr fuel s (raw_of s) (iv_ok _ Hi) (raw_of_apart _ Hi) Hfu) as H.
  rewrite Hm in H. destruct H as (fw & C & Hok). pose proof (minor_keeps _ _ _ Hi C) as K. destruct (co_empty _ _ _ _ _ C) as [Href _].
  assert (forall w, good s w -> good s' (ren fw w)) as Hren.
  { intros [u|b o] Hg; [done|]. simpl. destruct (fw !! b) as [c|] eqn:E; [|by apply (keeps_good s s' K)].
    eapply good_new; [done|]. by apply (co_fresh _ _ _ _ _ C b c). }
  assert (quiet s') as Hq.
  { split; [done|]. intros c y Hy. destruct (proj1 (co_names _ _ _ _ _ C c) ltac:(by rewrite Hy)) as [b Hmv]. pose proof Hmv as (x & Hb & _).
    destruct (co_block _ _ _ _ _ C b c x Hb Hmv) as (z & Hz & Hyz & _). congruence. }
  split; [|done]. split.
  - by apply (gc_ok_raw s).
  - intros [n|c i] w Hf Hd.
    + simpl in Hf. rewrite (keeps_roots s s' K) in Hf. simpl in Hd. rewrite (co_roots _ _ _ _ _ C n Hf) in Hd.
      destruct (cells s !! n) as [v|] eqn:Hv; [|done]. injection Hd as <-. apply Hren. apply (iv_words _ Hi (Cell n)); [done|]. simpl. by rewrite Hv.
    + simpl in Hd. destruct (heap s' !! c) as [y|] eqn:Hy; [|done]. apply of_ptr_Ok in Hd.
      destruct (proj1 (co_names _ _ _ _ _ C c) ltac:(by rewrite Hy)) as [b Hmv]. pose proof Hmv as (x & Hb & Hmb).
      destruct (co_block _ _ _ _ _ C b c x Hb Hmv) as (z & Hz & Hyz & _ & Hl & Hfx). assert (z = y) as -> by congruence.
      destruct (lookup_lt_is_Some_2 (fields x) i) as [v Hv]; [rewrite <-Hl; by eapply lookup_lt_Some|].
      assert (deref s (In b i) = Ok v) as Hdv by (simpl; rewrite Hb; simpl; by rewrite Hv).
      assert (good s v) as Hgv.
      { apply (iv_words _ Hi (In b i) v); [|done]. destruct (young x) eqn:Hyx; [exists x; split; [done|by left]|]. subst c.
        by eapply (keeps_firm s s' K b i x). }
      destruct (Hfx _ _ Hv) as [[Hw _]|[Hw _]]; rewrite Hw in Hd; injection Hd as <-; [by apply Hren|by apply (keeps_good s s' K)].
  - apply (keeps_good s s' K). destruct (kp_same _ _ K) as (_ & _ & _ & _ & ->). apply (iv_global _ Hi).
  - intros p. rewrite Href. intros Hp. by apply elem_of_nil in Hp.
  - apply (keeps_phase s); [done|]. apply (iv_phase _ Hi).
Qed.

(** ** The start of a major cycle *)

Definition darkened (s s' : gc) (w : word) : Prop := forall b o x, w = Adr b o -> old_block (heap s) b x -> dark (heap s') b.
Lemma darkened_later s s1 s2 w : darker s1 s2 -> darkened s s1 w -> darkened s s2 w.
Proof. intros Hd H b o x Hw Hx. eapply darker_dark; [done|]. by eapply H. Qed.
Lemma darker_old s s' b x : darker s s' -> old_block (heap s) b x -> exists y, old_block (heap s') b y.
Proof. intros H [Hb Hy]. destruct (darker_at _ _ _ _ H Hb) as (y & Hy1 & Hyy & _). exists y. split; [done|congruence]. Qed.
Lemma darken_cells raw l : forall s, gc_ok s raw -> (forall n, n ∈ l -> n ∈ roots s) -> exists s',
  for_each (on_cell (darken grows)) l s = Ok s' /\ gc_ok s' raw /\ darker s s' /\
  forall n w, n ∈ l -> cells s !! n = Some w -> darkened s s' w.
Proof.
  induction l as [|n l IH]; intros s Hok Hl.
  - exists s. split_and!; [done..|apply darker_refl|]. intros n w Hn. by apply elem_of_nil in Hn.
  - assert (n ∈ roots s) as Hn by (apply Hl; by left). destruct (ok_roots _ _ Hok _ Hn) as [w Hw].
    assert (deref s (Cell n) = Ok w) as Hd by (simpl; by rewrite Hw).
    pose proof (ok_word _ _ Hok _ _ Hd (ok_cells _ _ Hok _ Hn)) as Hwo. 
    destruct (darken_effect grows s raw w Hok Hwo) as (s1 & Hs1 & _ & Hok1 & Hdk1 & Hdd).
    destruct (dk_same _ _ Hdk1) as (Hc1 & _ & Hro1 & _).
    destruct (IH s1 Hok1) as (s' & Hs' & Hok' & Hdk' & Hall).
    { intros m Hm. unfold roots. rewrite Hro1. apply Hl. by right. }
    exists s'. split_and!; [|done|by eapply darker_trans|].
    + rewrite for_each_cons. unfold on_cell at 1. rewrite Hd. cbn [rbind]. by rewrite Hs1.
    + intros m v Hm Hv. apply elem_of_cons in Hm as [->|Hm].
      * assert (v = w) as -> by congruence. eapply darkened_later; [exact Hdk'|]. intros b o x Hx. by eapply Hdd.
      * intros b o x Hx Hox. destruct (darker_old _ _ _ _ Hdk1 Hox) as [y Hy]. eapply (Hall m v); [done|by rewrite Hc1|done..].
Qed.
Lemma darken_roots raw s : gc_ok s raw -> exists s', darken_all_roots grows s = Ok s' /\ gc_ok s' raw /\ darker s s' /\
  (forall n w, n ∈ roots s -> cells s !! n = Some w -> darkened s s' w) /\ darkened s s' (global_data s).
Proof.
  intros Hok. unfold darken_all_roots, do_roots, do_local_roots. destruct (ok_global _ _ Hok) as [Hgw _].
  destruct (darken_effect grows s raw _ Hok Hgw) as (s0 & -> & _ & Hok0 & Hdk0 & Hg0). cbn [rbind].
  assert (darkened s s0 (global_data s)) as Hgd by (intros b o x Hw; by eapply Hg0).
  pose proof (dk_same _ _ Hdk0) as (_ & _ & Hro & _).
  destruct (root_lists s) as [[[st lr] gr] hook] eqn:Hrl. unfold root_lists in Hro. injection Hro as -> -> Hgr0 Hhk0.
  assert (roots s = st ++ (lr ≫= table_roots) ++ gr ++ hook) as Hroots by (unfold roots; by rewrite Hrl).
  assert (forall l s1, l ⊆ roots s -> gc_ok s1 raw -> darker s s1 -> exists s2, for_each (on_cell (darken grows)) l s1 = Ok s2 /\ gc_ok s2 raw /\
    darker s1 s2 /\ darker s s2 /\ root_lists s2 = root_lists s /\ forall n w, n ∈ l -> cells s !! n = Some w -> darkened s s2 w) as Hstage.
  { intros l s1 Hl Hok1 Hdk1. pose proof (dk_same _ _ Hdk1) as (Hc1 & _ & Hro1 & _).
    destruct (darken_cells raw l s1 Hok1) as (s2 & Hs2 & Hok2 & Hdk2 & Hall); [intros n Hn; unfold roots; rewrite Hro1; by apply Hl|].
    pose proof (darker_trans _ _ _ Hdk1 Hdk2) as Hdk. exists s2. split_and!; [done..|apply (dk_same _ _ Hdk)|].
    intros n w Hn Hw b o x Hx Hox. destruct (darker_old _ _ _ _ Hdk1 Hox) as [y Hy]. eapply (Hall n w); [done|by rewrite Hc1|done..]. }
  rewrite Hroots in Hstage.
  destruct (Hstage st s0 ltac:(set_solver) Hok0 Hdk0) as (s1 & -> & Hok1 & Hd01 & Hdk1 & Hr1 & H1). cbn [rbind].
  rewrite for_each_tables. destruct (Hstage (lr ≫= table_roots) s1 ltac:(set_solver) Hok1 Hdk1) as (s2 & -> & Hok2 & Hd12 & Hdk2 & Hr2 & H2). cbn [rbind].
  rewrite Hrl in Hr2. injection Hr2 as _ _ -> _.
  destruct (Hstage gr s2 ltac:(set_solver) Hok2 Hdk2) as (s3 & -> & Hok3 & Hd23 & Hdk3 & Hr3 & H3). cbn [rbind].
  rewrite Hrl in Hr3. injection Hr3 as _ _ _ ->.
  destruct (Hstage hook s3 ltac:(set_solver) Hok3 Hdk3) as (s4 & -> & Hok4 & Hd34 & Hdk4 & Hr4 & H4).
  exists s4. rewrite Hroots. split_and!; [done..| |].
  - intros n w Hn Hw. rewrite !elem_of_app in Hn. pose proof (darker_trans _ _ _ Hd23 Hd34) as Hd24.
    destruct Hn as [Hn|[Hn|[Hn|Hn]]].
    + eapply darkened_later; [exact (darker_trans _ _ _ Hd12 Hd24)|by eapply H1].
    + eapply darkened_later; [exact Hd24|by eapply H2].
    + eapply darkened_later; [exact Hd34|by eapply H3].
    + by eapply H4.
  - eapply darkened_later; [|exact Hgd]. eapply darker_trans; [exact Hd01|]. eapply darker_trans; [exact Hd12|]. by eapply darker_trans.
Qed.
Lemma idle_dead s : gc_phase s = Phase_idle -> forall b, ~ doomed s b.
Proof. intros H b (Hp & _). rewrite H in Hp. done. Qed.
Lemma mark_dead s : gc_phase s = Phase_mark -> forall b, ~ doomed s b.
Proof. intros H b (Hp & _). rewrite H in Hp. done. Qed.
Lemma phase_is s ph : phase_ok s -> gc_phase s = ph ->
  (ph = Phase_idle -> gray_vals s = [] /\ forall b x, old_block (heap s) b x -> Color_hd (hd x) = White) /\
  (ph = Phase_mark -> mark_ok s) /\
  (ph = Phase_sweep -> gray_vals s = [] /\
    forall b x, old_block (heap s) b x -> Color_hd (hd x) = White \/ Color_hd (hd x) = Black /\ gc_sweep_hp s <= addr b).
Proof.
  intros H <-. destruct H as [(Hp & ? & ?)|[(Hp & ?)|(Hp & ? & ?)]]; rewrite Hp; split_and!; try done; intros; by split_and!.
Qed.
(** [gc_ok] does not depend on the position of the collector, and little on the grey stack. *)
Lemma gc_ok_position s raw mk sw ph : gc_ok s raw -> gc_ok (set_position mk sw ph s) raw.
Proof. intros []. by split. Qed.
Lemma gc_ok_gray s raw g pure : gc_ok s raw -> Z.of_nat (length g) < gray_vals_size s -> (forall b, b ∈ g -> Is_in_heap (heap s) (Adr b 0) = true) ->
  gc_ok (set_gray g (gray_vals_size s) pure s) raw.
Proof. intros Hok Hl Hg. destruct Hok. split; try done. split; [done|apply ok_gray]. Qed.

Lemma start_inv s : inv s -> gc_phase s = Phase_idle -> quiet s -> exists s', start_cycle grows s = Ok s' /\ inv s'.
Proof.
  intros Hi Hp [Hq1 Hq2]. destruct (darken_roots (raw_of s) s (iv_ok _ Hi)) as (s1 & Hs1 & Hok1 & Hdk & Hroots & Hglobal).
  unfold start_cycle. rewrite Hs1. cbn [rbind]. eexists. split; [done|]. set (s' := set_position None (gc_sweep_hp s1) Phase_mark s1).
  destruct (proj1 (phase_is s _ (iv_phase _ Hi) Hp) eq_refl) as [Hg Hwhite]. destruct (dk_same _ _ Hdk) as (Hc & Hr & Hro & _ & _ & _ & Hgd).
  assert (roots s' = roots s) as Hrs by (unfold roots; by rewrite <-Hro).
  assert (forall w, darkened s s1 w -> good s' w) as Hgood.
  { intros [u|b o] Hd; [done|]. split; [by apply mark_dead|]. intros _ y [Hy Hyy]. apply guarded_dark.
    destruct (darker_from _ _ _ _ Hdk Hy) as (x & Hx & Hyx & _). eapply Hd; [done|]. split; [exact Hx|congruence]. }
  assert (forall b, ~ colored (heap s) b Gray /\ ~ colored (heap s) b Black) as Hnone.
  { intros b. split; intros (x & Hx & Hcx); rewrite (Hwhite _ _ Hx) in Hcx; done. }
  split.
  - apply gc_ok_position. eapply gc_ok_weaken; [exact Hok1| |].
    + intros [n|b i] H; [simpl in *; by rewrite Hrs|]. by apply (idle_dead s Hp) in H.
    + intros n Hn H. by apply H.
  - intros [n|b i] w Hf Hd.
    + apply Hgood. simpl in Hf. rewrite Hrs in Hf. simpl in Hd. rewrite Hc in Hd. apply of_ptr_Ok in Hd. by eapply Hroots.
    + destruct Hf as (y & Hy & Hf). simpl in Hy. destruct (darker_from _ _ _ _ Hdk Hy) as (x & Hx & Hyx & _). specialize (Hq2 _ _ Hx).
      destruct Hf as [|[_ Hb]]; [congruence|]. destruct (proj2 (Hnone b)). apply (darker_black _ _ _ Hdk). exists y.
      split; [split; [done|congruence]|by apply Hb].
  - apply Hgood. simpl. by rewrite Hgd.
  - intros p. simpl. rewrite Hr, Hq1. intros H. by apply elem_of_nil in H.
  - right; left. split; [done|]. split_and!.
    + intros b Hb. destruct (dk_gray _ _ Hdk _ Hb) as [H|]; [by apply Hnone in H|by left].
    + apply (dk_nodup _ _ Hdk); rewrite Hg; [by apply NoDup_nil|]. intros b H. by apply elem_of_nil in H.
    + intros b Hb. destruct (dk_stack _ _ Hdk _ Hb) as [H|[? _]]; [|done]. rewrite Hg in H. by apply elem_of_nil in H.
Qed.

(** ** Marking *)

Lemma lowest_spec l : match lowest addr l with Some b => b ∈ l /\ forall c, c ∈ l -> addr b <= addr c | None => l = [] end.
Proof.
  induction l as [|b l IH]; [done|]. simpl. destruct (lowest addr l) as [c|]; [|subst l; split; [by left|intros d ->%list_elem_of_singleton; lia]].
  destruct IH as [Hc IH]. destruct (Z.leb_spec (addr b) (addr c)).
  - split; [by left|]. intros d [->|Hd]%elem_of_cons; [lia|]. specialize (IH _ Hd). lia.
  - split; [by right|]. intros d [->|Hd]%elem_of_cons; [lia|by apply IH].
Qed.
Lemma elem_of_old_blocks h b : b ∈ old_blocks h <-> exists x, old_block h b x.
Proof.
  unfold old_blocks. rewrite list_elem_of_fmap. split.
  - intros ([c x] & -> & [Hy Hx]%list_elem_of_filter). apply elem_of_map_to_list in Hx. by exists x.
  - intros (x & Hx & Hy). exists (b, x). split; [done|]. apply list_elem_of_filter. split; [done|]. by apply elem_of_map_to_list.
Qed.
Lemma block_at_spec h hp : match block_at addr h hp with
  | Some b => (exists x, old_block h b x) /\ hp <= addr b /\ forall c x, old_block h c x -> hp <= addr c -> c <> b -> addr b + 1 <= addr c
  | None => forall c x, old_block h c x -> addr c < hp
  end.
Proof.
  unfold block_at. pose proof (lowest_spec (filter (fun b => hp <= addr b) (old_blocks h))) as H. destruct (lowest addr _) as [b|].
  - destruct H as [[Hhp Hb]%list_elem_of_filter Hl]. split_and!; [by apply elem_of_old_blocks|done|]. intros c x Hc Hhc Hn.
    assert (c ∈ filter (fun b => hp <= addr b) (old_blocks h)) as Hin by (apply list_elem_of_filter; split; [done|apply elem_of_old_blocks; by exists x]).
    specialize (Hl _ Hin). destruct (decide (addr b = addr c)) as [E|]; [by apply addr_inj in E|lia].
  - intros c x Hc. destruct (Z.lt_ge_cases (addr c) hp) as [|Hge]; [done|].
    assert (c ∈ filter (fun b => hp <= addr b) (old_blocks h)) as Hin by (apply list_elem_of_filter; split; [done|apply elem_of_old_blocks; by exists x]).
    rewrite H in Hin. by apply elem_of_nil in Hin.
Qed.

Lemma pop_inv s v rest : inv s -> gc_phase s = Phase_mark -> quiet s -> gray_vals s = v :: rest -> exists w s',
  mark_step addr heap_start grows s = Ok (w, s') /\ inv s'.
Proof.
  intros Hi Hp [Hq1 Hq2] Hg. destruct (proj1 (proj2 (phase_is s _ (iv_phase _ Hi) Hp)) eq_refl) as (Htr & Hnd & Hst).
  unfold mark_step. rewrite Hg. set (s1 := set_gray rest (gray_vals_size s) (heap_is_pure s) s).
  assert (colored (heap s) v Gray) as (x & Hx & Hcx) by (apply Hst; rewrite Hg; by left).
  assert (gc_ok s1 (raw_of s)) as Hok1.
  { destruct (ok_gray _ _ (iv_ok _ Hi)) as [Hl _]. rewrite Hg in Hl. apply gc_ok_gray; [apply (iv_ok _ Hi)|simpl in Hl; lia|].
    intros b Hb. apply (ok_grays _ _ (iv_ok _ Hi)). rewrite Hg. by right. }
  rewrite Hg in Hnd. apply NoDup_cons in Hnd as [Hv Hnd].
  destruct (mark_block_effect grows v x s1 (raw_of s) Hok1 Hx Hcx) as (s2 & -> & Hok2 & M); [by intros i H; apply (mark_dead s Hp) in H|done|done|..].
  { intros b Hb. apply Hst. rewrite Hg. by right. }
  cbn [rbind]. eexists _, s2. split; [done|].
  destruct (mk_same _ _ _ M) as (Hc & Hr & Hro & Hph & Hmk & Hsw & Hgd). simpl in Hc, Hr, Hph, Hmk, Hsw, Hgd.
  assert (gc_phase s2 = Phase_mark) as Hp2 by congruence.
  assert (roots s2 = roots s) as Hroots by (unfold roots; by rewrite Hro).
  assert (forall w, good s w -> good s2 w) as Hgood.
  { intros [u|b o]; [done|]. intros [_ H]. split; [by apply mark_dead|]. intros _ y [Hy Hyy].
    destruct (mk_dom _ _ _ M b) as [z Hz]; [by exists y|]. destruct (mk_block _ _ _ M _ _ Hz) as (y' & Hy' & Hyz & _).
    apply (mk_guarded _ _ _ M). eapply (H Hp z). split; [done|congruence]. }
  split.
  - eapply gc_ok_weaken; [exact Hok2| |].
    + intros [n|b i] H; [simpl in *; by rewrite Hroots|]. by apply (mark_dead s Hp) in H.
    + intros n Hn H. by apply H.
  - intros [n|b i] w Hf Hd.
    + apply Hgood. simpl in Hf. rewrite Hroots in Hf. apply (iv_words _ Hi (Cell n)); [done|]. simpl in *. by rewrite <-Hc.
    + destruct Hf as (y & Hy & Hf). destruct (mk_dom _ _ _ M b) as [z Hz]; [by exists y|]. simpl in Hz.
      destruct (mk_block _ _ _ M _ _ Hz) as (y' & Hy' & Hyz & Hfz & Htz & _). assert (y' = y) as -> by congruence.
      assert (young z = false) as Hyz' by (by eapply Hq2). destruct Hf as [|[_ Hb]]; [congruence|]. specialize (Hb Hp2).
      simpl in Hd. rewrite Hy in Hd. simpl in Hd. rewrite Hfz in Hd. apply of_ptr_Ok in Hd.
      assert (colored (heap s2) b Black) as Hbb by (exists y; split; [split; congruence|done]).
      apply (mk_black _ _ _ M) in Hbb as [(z' & [Hz' _] & Hcz)| ->].
      * simpl in Hz'. assert (z' = z) as -> by congruence. apply Hgood. apply (iv_words _ Hi (In b i)).
        -- exists z. split; [done|right]. split; [by apply mark_dead|done].
        -- simpl. rewrite Hz. simpl. by rewrite Hd.
      * destruct w as [u|c o]; [done|]. split; [by apply mark_dead|]. intros _ y2 [Hy2 Hyy2]. apply guarded_dark.
        destruct (mk_dom _ _ _ M c) as [z2 Hz2]; [by exists y2|]. destruct (mk_block _ _ _ M _ _ Hz2) as (y3 & Hy3 & Hyz3 & _).
        assert (z = x) as -> by (destruct Hx; congruence).
        assert (deref s (In v i) = Ok (Adr c o)) as Hdv by (simpl; rewrite Hz; simpl; by rewrite Hd).
        pose proof (ok_word _ _ (iv_ok _ Hi) _ _ Hdv) as Hwv. unfold content_ok in Hwv. simpl in Hwv. rewrite Hz in Hwv.
        destruct (Z.ltb_spec (btag x) No_scan_tag); [|by destruct Hwv as [? ?]; [by apply mark_dead|]].
        eapply (mk_children _ _ _ M x i c o z2); [done..|]. split; [done|congruence].
  - rewrite Hgd. apply Hgood, (iv_global _ Hi).
  - intros p. rewrite Hr, Hq1. intros H. by apply elem_of_nil in H.
  - right; left. split; [done|]. split_and!; [|apply (mk_nodup _ _ _ M)|apply (mk_stack _ _ _ M)].
    intros b Hb. destruct (mk_gray _ _ _ M _ Hb) as [Hn [Hb'|]]; [|by left]. destruct (Htr _ Hb') as [[Ht|Ht]|(hp & Ht & Hle)].
    + rewrite Hg in Ht. apply elem_of_cons in Ht as [->|Ht]; [done|]. left. apply (mk_tracked _ _ _ M). by left.
    + left. apply (mk_tracked _ _ _ M). by right.
    + right. exists hp. by rewrite Hmk.
Qed.

(** The walk through the heap, for the grey blocks that the stack has lost. *)
Lemma scan_inv s : inv s -> gc_phase s = Phase_mark -> quiet s -> gray_vals s = [] -> forall hp, markhp s = Some hp -> exists w s',
  mark_step addr heap_start grows s = Ok (w, s') /\ inv s'.
Proof.
  intros Hi Hp Hq Hg hp Hmk. destruct (proj1 (proj2 (phase_is s _ (iv_phase _ Hi) Hp)) eq_refl) as (Htr & _ & _).
  unfold mark_step. rewrite Hg, Hmk. pose proof (block_at_spec (heap s) hp) as Hat. destruct (block_at addr (heap s) hp) as [b|].
  - destruct Hat as ((x & Hx) & Hhp & Hnext). pose proof (ok_block _ _ (iv_ok _ Hi) _ _ (proj1 Hx)) as [Hh _].
    rewrite (get_header _ _ _ (proj1 Hx) Hh). cbn [rbind]. eexists _, _. split; [done|].
    assert (forall g, (g = [] \/ g = [b] /\ colored (heap s) b Gray) -> (forall c, colored (heap s) c Gray -> c = b -> c ∈ g) ->
      inv (set_markhp (Some (addr b + 1)) (set_gray g (gray_vals_size s) (heap_is_pure s) s))) as H.
    { intros g Hgb Hin. split; try apply Hi.
      - apply gc_ok_position, gc_ok_gray; [apply (iv_ok _ Hi)|destruct (ok_gray _ _ (iv_ok _ Hi)); destruct Hgb as [->|[-> _]]; simpl; lia|].
        intros c Hc. destruct Hgb as [->|[-> _]]; [by apply elem_of_nil in Hc|]. apply list_elem_of_singleton in Hc as ->.
        destruct Hx as [Hx Hy]. simpl. by rewrite Hx, Hy.
      - right; left. split; [done|]. split_and!.
        + intros c Hc. destruct (decide (c = b)) as [->|Hn]; [left; left; by apply Hin|].
          destruct (Htr _ Hc) as [[Ht|Ht]|(hp' & Ht & Hle)]; [rewrite Hg in Ht; by apply elem_of_nil in Ht|left; by right|right].
          exists (addr b + 1). split; [done|]. rewrite Hmk in Ht. injection Ht as <-. destruct Hc as (y & Hy & _). by eapply Hnext.
        + destruct Hgb as [->|[-> _]]; [apply NoDup_nil_2|apply NoDup_singleton].
        + intros c Hc. simpl in Hc. destruct Hgb as [->|[-> Hcg]]; [by apply elem_of_nil in Hc|]. by apply list_elem_of_singleton in Hc as ->. }
    destruct (Is_gray_hd (hd x)) eqn:Hgr.
    + apply Z.eqb_eq in Hgr. assert (colored (heap s) b Gray) as Hcg by (by exists x). apply H; [by right|intros c _ ->; by left].
    + apply Z.eqb_neq in Hgr. specialize (H [] (or_introl eq_refl)). replace s with (set_gray [] (gray_vals_size s) (heap_is_pure s) s) at 1
        by (destruct s; simpl in *; by subst). apply H. intros c (y & [Hy _] & Hcy) ->. destruct Hx as [Hx _]. congruence.
  - eexists _, _. split; [done|]. split; try apply Hi; [apply gc_ok_position, (iv_ok _ Hi)|]. right; left. split; [done|]. split_and!.
    + intros c Hc. destruct (Htr _ Hc) as [Ht|(hp' & Ht & Hle)]; [by left|]. rewrite Hmk in Ht. injection Ht as <-.
      destruct Hc as (y & Hy & _). specialize (Hat _ _ Hy). lia.
    + simpl. rewrite Hg. apply NoDup_nil_2.
    + intros c. simpl. rewrite Hg. intros Hc. by apply elem_of_nil in Hc.
Qed.
(** The end of marking: what is white is out of reach. *)
Lemma end_inv s : inv s -> gc_phase s = Phase_mark -> quiet s -> gray_vals s = [] -> markhp s = None -> heap_is_pure s = true ->
  inv (set_position None heap_start Phase_sweep s).
Proof.
  intros Hi Hp [Hq1 Hq2] Hg Hmk Hpu. destruct (proj1 (proj2 (phase_is s _ (iv_phase _ Hi) Hp)) eq_refl) as (Htr & _ & _).
  set (s' := set_position None heap_start Phase_sweep s).
  assert (forall b, ~ colored (heap s) b Gray) as Hng.
  { intros b Hb. destruct (Htr _ Hb) as [[Ht|Ht]|(hp & Ht & _)]; [rewrite Hg in Ht; by apply elem_of_nil in Ht|congruence..]. }
  assert (forall w, good s w -> good s' w) as Hgood.
  { intros [u|b o]; [done|]. intros [_ H]. split; [|done]. intros (_ & Hw & _). pose proof Hw as (x & Hx & _).
    by pose proof (colored_det _ _ _ _ Hw (guarded_end _ _ Hng (H Hp x Hx))). }
  split.
  - apply gc_ok_position. eapply gc_ok_weaken; [apply (iv_ok _ Hi)| |].
    + intros [n|b i] H; [exact H|]. by apply (mark_dead s Hp) in H.
    + intros n Hn H. by apply H.
  - intros p w Hf Hd. apply Hgood. apply (iv_words _ Hi p w); [|done]. destruct p as [n|b i]; [done|]. destruct Hf as (x & Hx & Hf).
    exists x. split; [done|]. right. split; [by apply mark_dead|]. intros _. pose proof (Hq2 _ _ Hx) as Hy. destruct Hf as [|[Hnd _]]; [congruence|].
    destruct (old_color _ _ b x (iv_ok _ Hi)) as [Hc|[Hc|Hc]]; [done| | |done].
    + destruct Hnd. split_and!; [done|by exists x|apply addr_start].
    + destruct (Hng b). by exists x.
  - apply Hgood, (iv_global _ Hi).
  - intros p. simpl. rewrite Hq1. intros H. by apply elem_of_nil in H.
  - do 2 right. split_and!; [done|done|]. intros b x Hx. simpl. destruct (old_color _ _ _ _ (iv_ok _ Hi) Hx) as [Hc|[Hc|Hc]]; [by left| |].
    + destruct (Hng b). by exists x.
    + right. split; [done|apply addr_start].
Qed.
Lemma mark_inv s : inv s -> gc_phase s = Phase_mark -> quiet s -> exists w s', mark_step addr heap_start grows s = Ok (w, s') /\ inv s'.
Proof.
  intros Hi Hp Hq. destruct (gray_vals s) as [|v rest] eqn:Hg; [|by eapply pop_inv].
  destruct (markhp s) as [hp|] eqn:Hmk; [by eapply scan_inv|]. unfold mark_step. rewrite Hg, Hmk.
  destruct (heap_is_pure s) eqn:Hpu; cbn [negb].
  - eexists _, _. split; [done|]. by apply end_inv.
  - eexists _, _. split; [done|]. split; try apply Hi.
    + apply gc_ok_position, gc_ok_gray; [apply (iv_ok _ Hi)|destruct (ok_gray _ _ (iv_ok _ Hi)); simpl; lia|]. intros c Hc. by apply elem_of_nil in Hc.
    + right; left. split; [done|]. split_and!; [|apply NoDup_nil_2|intros c Hc; by apply elem_of_nil in Hc].
      intros c _. right. exists heap_start. split; [done|apply addr_start].
Qed.

(** ** Sweeping *)

Section sweeping.
Variable s : gc.
Hypothesis Hi : inv s.
Hypothesis Hp : gc_phase s = Phase_sweep.
Hypothesis Hq : quiet s.

Lemma sweep_colors : gray_vals s = [] /\
  forall b x, old_block (heap s) b x -> Color_hd (hd x) = White \/ Color_hd (hd x) = Black /\ gc_sweep_hp s <= addr b.
Proof. exact (proj2 (proj2 (phase_is s _ (iv_phase _ Hi) Hp)) eq_refl). Qed.
Lemma not_doomed_good c x i w : heap s !! c = Some x -> ~ doomed s c -> deref s (In c i) = Ok w -> good s w.
Proof.
  intros Hx Hd Hw. apply (iv_words _ Hi (In c i) w); [|done]. exists x. split; [done|right]. split; [done|]. intros Hm. rewrite Hm in Hp. done.
Qed.

(** A white block is freed. *)
Lemma free_inv b x : old_block (heap s) b x -> Color_hd (hd x) = White -> gc_sweep_hp s <= addr b ->
  (forall c y, old_block (heap s) c y -> gc_sweep_hp s <= addr c -> c <> b -> addr b + 1 <= addr c) ->
  inv (set_heap (delete b (heap s)) (set_position (markhp s) (addr b + 1) (gc_phase s) s)).
Proof.
  intros Hx Hc Hhp Hnext. destruct sweep_colors as [Hg Hcol]. destruct Hq as [Hq1 Hq2]. set (s' := set_heap _ _).
  assert (doomed s b) as Hb by (split_and!; [done|by exists x|done]).
  assert (forall c y, heap s' !! c = Some y <-> heap s !! c = Some y /\ c <> b) as Hh.
  { intros c y. simpl. rewrite lookup_delete_Some. split; intros [? ?]; split; congruence. }
  assert (forall c, doomed s' c <-> doomed s c /\ c <> b) as Hd.
  { intros c. unfold doomed, colored, old_block. simpl. split.
    - intros (_ & (y & [[Hy Hn]%Hh Hyy] & Hcy) & Hle). split; [|done]. split_and!; [done|by exists y|lia].
    - intros [(_ & (y & [Hy Hyy] & Hcy) & Hle) Hn]. split_and!; [done| |by eapply Hnext]. exists y. split; [|done]. split; [by apply Hh|done]. }
  assert (forall p w, deref s' p = Ok w -> deref s p = Ok w /\ forall i, p <> In b i) as Hdr.
  { intros [n|c i] w; simpl; [by intros ->|]. destruct (heap s' !! c) as [y|] eqn:Hy; [|by simpl in Hy; rewrite Hy].
    simpl in Hy. rewrite Hy. apply lookup_delete_Some in Hy as [Hn Hy]. rewrite Hy. intros Hw. split; [done|]. congruence. }
  assert (forall w, good s w -> good s' w /\ (word_ok (heap s) w -> word_ok (heap s') w)) as Hgood.
  { intros [u|c o]; [done|]. intros [Hnd _]. assert (c <> b) by congruence. split.
    - split; [by rewrite Hd; intros [? _]|]. simpl. intros Hm. rewrite Hm in Hp. done.
    - intros (y & Hy & Ho). exists y. split; [by apply Hh|done]. }
  assert (forall p w, deref s' p = Ok w -> ~ raw_of s' p -> good s w /\ ~ raw_of s p) as Hfirm.
  { intros p w [Hw Hn]%Hdr Hr. destruct p as [n|c i].
    - split; [|exact Hr]. apply (iv_words _ Hi (Cell n)); [|done]. destruct (decide (n ∈ roots s)); [done|by destruct Hr].
    - assert (~ doomed s c) as Hnd. { intros H. apply Hr. simpl. rewrite Hd. split; [done|]. intros ->. by destruct (Hn i). }
      split; [|done]. pose proof Hw as Hw'. simpl in Hw'. destruct (heap s !! c) as [y|] eqn:Hy; [|done]. by eapply not_doomed_good. }
  assert (forall w, is_young (heap s') w = false) as Hny.
  { intros [u|c o]; [done|]. simpl. destruct (delete b (heap s) !! c) as [y|] eqn:Hy; [|done]. apply lookup_delete_Some in Hy as [_ Hy]. by eapply Hq2. }
  split.
  - split; try done.
    + intros c y [Hy _]%Hh. by apply (ok_block _ _ (iv_ok _ Hi) c y).
    + intros p w Hw Hr. destruct (Hfirm _ _ Hw Hr) as [Hgw Hnr]. destruct (Hdr _ _ Hw) as [Hw' Hn].
      pose proof (ok_word _ _ (iv_ok _ Hi) _ _ Hw' Hnr) as Hcw. unfold content_ok in *.
      assert (scans (heap s') p = scans (heap s) p) as ->.
      { destruct p as [n|c i]; [done|]. simpl. rewrite lookup_delete_ne; [done|]. intros <-. by destruct (Hn i). }
      destruct (scans (heap s) p); [by apply Hgood|done].
    + intros p w _ _ _ Hy. by rewrite Hny in Hy.
    + intros p. simpl. rewrite Hq1. intros H. by apply elem_of_nil in H.
    + apply (ok_roots _ _ (iv_ok _ Hi)).
    + split; [|apply Hny]. destruct (ok_global _ _ (iv_ok _ Hi)). apply Hgood; [apply (iv_global _ Hi)|done].
    + intros n Hn H. by apply H.
    + apply (ok_sizes _ _ (iv_ok _ Hi)).
    + apply (ok_table _ _ (iv_ok _ Hi)).
    + apply (ok_gray _ _ (iv_ok _ Hi)).
    + intros c. simpl. rewrite Hg. intros H. by apply elem_of_nil in H.
  - intros p w Hf Hw. destruct (Hfirm p w Hw) as [Hgw _]; [|by apply Hgood]. destruct p as [n|c i]; [simpl in *; tauto|].
    destruct Hf as (y & Hy & [Hyy|[Hnd _]]); [|exact Hnd]. apply Hh in Hy as [Hy _]. specialize (Hq2 _ _ Hy). congruence.
  - apply Hgood, (iv_global _ Hi).
  - intros p. simpl. rewrite Hq1. intros H. by apply elem_of_nil in H.
  - do 2 right. split_and!; [done|done|]. intros c y [[Hy Hn]%Hh Hyy]. destruct (Hcol c y) as [|[Hcy Hle]]; [done|by left|right].
    split; [done|]. by eapply Hnext.
Qed.
(** A black block turns white. *)
Lemma whiten_inv b x : old_block (heap s) b x -> Color_hd (hd x) = Black -> gc_sweep_hp s <= addr b ->
  (forall c y, old_block (heap s) c y -> gc_sweep_hp s <= addr c -> c <> b -> addr b + 1 <= addr c) ->
  inv (set_heap (<[b := mkG (young x) (Whitehd_hd (hd x)) (fields x)]> (heap s)) (set_position (markhp s) (addr b + 1) (gc_phase s) s)).
Proof.
  intros Hx Hc Hhp Hnext. destruct sweep_colors as [Hg Hcol]. destruct Hq as [Hq1 Hq2].
  pose proof (ok_block _ _ (iv_ok _ Hi) _ _ (proj1 Hx)) as [(t & c & Hh & Hpa & Hco & Hnb & Ht) _].
  assert (a_color White) as Hw by (by left).
  assert (btag x = t) as Hbt by (unfold btag; by rewrite Hh, Tag_header).
  destruct (recolor_keeps s (raw_of s) b x White (iv_ok _ Hi) (proj1 Hx) Hw ltac:(done)) as (Hok1 & Hd1 & Hs1). rewrite Hbt in *.
  rewrite Hh, Whitehd_header by done. set (x' := mkG (young x) _ (fields x)) in *. set (s1 := set_heap _ s) in *. set (s' := set_heap _ _).
  assert (Color_hd (hd x') = White) as Hcx by (simpl; by rewrite Color_header).
  assert (forall d, doomed s' d <-> doomed s d) as Hd.
  { intros d. unfold doomed, colored, old_block. simpl. split.
    - intros (_ & (y & [Hy Hyy] & Hcy) & Hle). apply lookup_insert_Some in Hy as [[<- <-]|[Hn Hy]]; [lia|].
      split_and!; [done|by exists y|lia].
    - intros (_ & (y & [Hy Hyy] & Hcy) & Hle). assert (b <> d) as Hn. { intros <-. destruct Hx as [Hx _]. assert (y = x) as -> by congruence. rewrite Hc in Hcy. done. }
      split_and!; [done| |by eapply Hnext]. exists y. split; [|done]. by rewrite lookup_insert_ne. }
  assert (forall w, good s w -> good s' w) as Hgood.
  { intros [u|d o]; [done|]. intros [Hnd _]. split; [by rewrite Hd|]. simpl. intros Hm. rewrite Hm in Hp. done. }
  split.
  - eapply gc_ok_weaken; [exact (gc_ok_position s1 _ (markhp s) (addr b + 1) (gc_phase s) Hok1)| |].
    + intros [n|d i] H; [exact H|]. by apply Hd.
    + intros n Hn H. by apply H.
  - intros p w Hf Hwd. apply Hgood. assert (deref s p = Ok w) as Hw' by (rewrite <-Hd1; exact Hwd).
    apply (iv_words _ Hi p w); [|done]. destruct p as [n|d i]; [done|]. destruct Hf as (y & Hy & Hf). simpl in Hy.
    assert (exists z, heap s !! d = Some z /\ young z = young y) as (z & Hz & Hyz).
    { apply lookup_insert_Some in Hy as [[<- <-]|[Hn Hy]]; [exists x; split; [apply Hx|done]|by exists y]. }
    exists z. split; [done|]. rewrite Hyz. destruct Hf as [|[Hnd _]]; [by left|right]. rewrite <-Hd. split; [done|]. intros Hm. rewrite Hm in Hp. done.
  - apply Hgood, (iv_global _ Hi).
  - intros p. simpl. rewrite Hq1. intros H. by apply elem_of_nil in H.
  - do 2 right. split_and!; [done|done|]. intros d y [Hy Hyy]. simpl in Hy. apply lookup_insert_Some in Hy as [[<- <-]|[Hn Hy]]; [by left|].
    destruct (Hcol d y) as [|[Hcy Hle]]; [done|by left|right]. split; [done|]. by eapply Hnext.
Qed.
(** The end of the sweep. *)
Lemma idle_inv : (forall c x, old_block (heap s) c x -> addr c < gc_sweep_hp s) ->
  inv (set_position (markhp s) (gc_sweep_hp s) Phase_idle s).
Proof.
  intros Hlt. destruct sweep_colors as [Hg Hcol]. set (s' := set_position _ _ _ _).
  assert (forall b, ~ doomed s b) as Hnd. { intros b (_ & (x & Hx & _) & Hle). specialize (Hlt _ _ Hx). lia. }
  assert (forall w, good s' w) as Hgood. { intros [u|b o]; [done|]. split; [by apply idle_dead|done]. }
  split.
  - apply gc_ok_position. eapply gc_ok_weaken; [apply (iv_ok _ Hi)| |].
    + intros [n|b i] H; [exact H|]. by apply Hnd in H.
    + intros n Hn H. by apply H.
  - intros p w _ _. apply Hgood.
  - apply Hgood.
  - intros p Hp' Hr. destruct Hq as [Hq1 _]. simpl in Hp'. rewrite Hq1 in Hp'. by apply elem_of_nil in Hp'.
  - left. split_and!; [done|done|]. intros b x Hx. destruct (Hcol b x Hx) as [|[_ Hle]]; [done|]. specialize (Hlt _ _ Hx). lia.
Qed.
Lemma sweep_inv : exists w s', sweep_step addr s = Ok (w, s') /\ inv s'.
Proof.
  destruct sweep_colors as [Hg Hcol].
  unfold sweep_step. pose proof (block_at_spec (heap s) (gc_sweep_hp s)) as Hat. destruct (block_at addr (heap s) (gc_sweep_hp s)) as [b|].
  - destruct Hat as ((x & Hx) & Hhp & Hnext). pose proof (ok_block _ _ (iv_ok _ Hi) _ _ (proj1 Hx)) as [Hh _].
    rewrite (get_header _ _ _ (proj1 Hx) Hh). cbn [rbind].
    destruct (Hcol _ _ Hx) as [Hc|[Hc _]]; unfold Is_white_hd, Is_blue_hd; rewrite Hc.
    + eexists _, _. split; [done|]. by eapply free_inv.
    + change (Black =? White) with false. change (Black =? Blue) with false. cbv iota. unfold set_Hd_val.
      change (heap (set_position _ _ _ s)) with (heap s). rewrite (proj1 Hx). cbn [of_ptr rbind]. eexists _, _. split; [done|]. by apply whiten_inv.
  - eexists _, _. split; [done|]. by apply idle_inv.
Qed.
End sweeping.

(** ** All the steps *)

Lemma step_inv s s' : inv s -> step s s' -> inv s'.
Proof.
  intros Hi Hs. destruct Hs as [n b i w s' Hn Hh Hd Ha|n w s' Hn Hah Ha|b i old w s' Hh Hw Hd Hah HM|n tag ws k s1 s' Hn Hda _ Hnew Ha|
    n tag ws k s1 s' Hn Hda Ht Hnew Ha|fuel s' Hf Hm|s' Hp Hq Hst|w s' Hp Hq Hst|w s' Hp Hq Hst].
  - by eapply read_inv.
  - destruct (at_hand_ok _ _ Hi Hah). by eapply set_cell_inv.
  - by eapply modify_inv.
  - destruct (new_young_inv _ _ _ _ _ Hi Hda Hnew) as (Hi1 & Hw & Hg & Hr). by eapply (set_cell_inv s1); [done|rewrite Hr| | |].
  - destruct (new_old_inv _ _ _ _ _ Hi Hda Ht Hnew) as (Hi1 & Hw & Hg & Hr). by eapply (set_cell_inv s1); [done|rewrite Hr| | |].
  - by eapply minor_inv.
  - destruct (start_inv s Hi Hp Hq) as (s2 & Hs2 & Hi2). congruence.
  - destruct (mark_inv s Hi Hp Hq) as (w2 & s2 & Hs2 & Hi2). congruence.
  - destruct (sweep_inv s Hi Hp Hq) as (w2 & s2 & Hs2 & Hi2). congruence.
Qed.

(** The start of the program: empty heaps. *)
Record starts (s : gc) : Prop := {
  st_heap : heap s = ∅;
  st_roots n : n ∈ roots s -> exists x, cells s !! n = Some (Imm x);
  st_global : exists x, global_data s = Imm x;
  st_refs : ref_table s = [] /\ 0 < ref_table_size s /\ 0 < ref_table_reserve s /\ ref_table_limit s = ref_table_threshold s;
  st_idle : gc_phase s = Phase_idle /\ gray_vals s = [] /\ 2 <= gray_vals_size s }.
Lemma starts_inv s : starts s -> inv s.
Proof.
  intros [Hh Hr [x Hg] (Ht & Hz & Hre & Hl) (Hp & Hgr & Hgs)].
  assert (forall b i w, deref s (In b i) = Ok w -> False) as Hno by (intros b i w; simpl; by rewrite Hh, lookup_empty).
  assert (forall n w, n ∈ roots s -> deref s (Cell n) = Ok w -> exists x, w = Imm x) as Hcell.
  { intros n w Hn Hd. destruct (Hr n Hn) as [y Hy]. simpl in Hd. rewrite Hy in Hd. injection Hd as <-. by exists y. }
  split.
  - split.
    + intros b blk. by rewrite Hh, lookup_empty.
    + intros [n|b i] w Hd Hn; [|by destruct (Hno b i w)]. destruct (decide (n ∈ roots s)) as [Hin|]; [|done]. by destruct (Hcell n w Hin Hd) as [y ->].
    + intros [n|b i] w Hd; [done|by destruct (Hno b i w)].
    + intros p. rewrite Ht. intros H. by apply elem_of_nil in H.
    + intros n Hn. destruct (Hr n Hn) as [y Hy]. by exists (Imm y).
    + by rewrite Hg.
    + intros n Hn H. by apply H.
    + split_and!; [done..|by left].
    + rewrite Ht, Hl. exact Hz.
    + rewrite Hgr. split; [simpl; lia|done].
    + intros b. rewrite Hgr. intros H. by apply elem_of_nil in H.
  - intros [n|b i] w Hf Hd; [|by destruct (Hno b i w)]. by destruct (Hcell n w Hf Hd) as [y ->].
  - by rewrite Hg.
  - intros p. rewrite Ht. intros H. by apply elem_of_nil in H.
  - left. split_and!; [done..|]. intros b y [Hb _]. rewrite Hh in Hb. done.
Qed.

(** The words that the program can get at, through any number of fields. *)
Inductive follows (s : gc) : word -> Prop :=
  | follows_root n w : n ∈ roots s -> cells s !! n = Some w -> follows s w
  | follows_global : follows s (global_data s)
  | follows_field b o i w : follows s (Adr b o) -> deref s (In b i) = Ok w -> follows s w.
Lemma follows_good s w : inv s -> follows s w -> word_ok (heap s) w /\ good s w.
Proof.
  intros Hi. induction 1 as [n w Hn Hw| |b o i w Hf [_ IH] Hd].
  - assert (deref s (Cell n) = Ok w) as Hd by (simpl; by rewrite Hw). split; [|by apply (iv_words _ Hi (Cell n))].
    apply (ok_word _ _ (iv_ok _ Hi) _ _ Hd). by apply (ok_cells _ _ (iv_ok _ Hi)).
  - split; [apply (ok_global _ _ (iv_ok _ Hi))|apply (iv_global _ Hi)].
  - by eapply field_good.
Qed.

(** C2: however the steps of the program, minor collections, marking and sweeping are interleaved, every pointer
    that the program can get at leads to a block of the heap (or to an infix header inside one):
    no block within reach is ever freed or left behind in the minor heap; and no step of the collectors
    goes wrong. *)
Theorem collector_safe (s0 s : gc) : starts s0 -> rtc step s0 s ->
  (forall w, follows s w -> word_ok (heap s) w) /\
  (forall fuel, (2 * size (young_blocks s) + 2 <= fuel)%nat ->
     match empty_minor_heap junk room addr fuel s with Ok s' => quiet s' | Panic => exists t n, room t n = false | _ => False end) /\
  (quiet s -> gc_phase s = Phase_idle /\ (exists s', start_cycle grows s = Ok s') \/
     gc_phase s = Phase_mark /\ (exists w s', mark_step addr heap_start grows s = Ok (w, s')) \/
     gc_phase s = Phase_sweep /\ (exists w s', sweep_step addr s = Ok (w, s'))).
Proof.
  intros Hst Hrun. assert (inv s) as Hi.
  { apply starts_inv in Hst. induction Hrun as [|s1 s2 s3 H12 _ IH]; [done|]. apply IH. by eapply step_inv. }
  split_and!.
  - intros w Hw. by apply follows_good.
  - intros fuel Hf. pose proof (minor_copies junk room addr fuel s (raw_of s) (iv_ok _ Hi) (raw_of_apart _ Hi) Hf) as H.
    destruct (empty_minor_heap junk room addr fuel s) as [s'| | |] eqn:E; try done. by eapply minor_inv.
  - intros Hq. destruct (iv_phase _ Hi) as [[Hp _]|[[Hp _]|[Hp _]]]; [left|right; left|do 2 right]; (split; [done|]).
    + destruct (start_inv s Hi Hp Hq) as (s' & Hs' & _). by exists s'.
    + destruct (mark_inv s Hi Hp Hq) as (w & s' & Hs' & _). by exists w, s'.
    + destruct (sweep_inv s Hi Hp Hq) as (w & s' & Hs' & _). by exists w, s'.
Qed.
End system.

(** ** A run *)

Definition demo_addr (b : nat) : Z := 16 * Z.of_nat b.
Abbreviation demo_junk := (fun _ _ : nat => Imm 0).
Abbreviation demo_room := (fun (_ : gc) (_ : Z) => true).
Abbreviation demo_grows := (fun _ : gc => true).
Abbreviation demo_step := (step demo_junk demo_room demo_addr 0 demo_grows).
(** The root [0] holds the integer 1; the heap is empty. *)
Definition demo : gc := mkGc ∅ {[0%nat := Imm 3]} [] 1024 256 1024 4096 4096
  Phase_idle 0 131072 [] 64 true None 0 false (Imm 1) 0 1 [] [] [].
Lemma demo_starts : starts demo.
Proof.
  split; try done.
  - intros n Hn. change (roots demo) with [O] in Hn. apply list_elem_of_singleton in Hn as ->. by exists 3.
  - by exists 1.
Qed.
Lemma quiet_of s : ref_table s = [] -> bool_decide (map_Forall (fun _ blk => young blk = false) (heap s)) = true -> quiet s.
Proof. intros Hr Hb%bool_decide_eq_true. split; [done|]. exact Hb. Qed.
(** A young block, copied by a minor collection; a cycle begins, marks it and sweeps once. *)
Lemma demo_run : exists s, rtc demo_step demo s /\ gc_phase s = Phase_sweep /\ quiet s /\ exists b, cells s !! 0%nat = Some (Adr b 0).
Proof.
  eexists. split.
  - eapply rtc_l; [eapply (step_young _ _ _ _ _ demo 0 0 [Imm 7])|].
    + apply list_elem_of_singleton. done.
    + split; [split; unfold Max_wosize; simpl; lia|]. split_and!; [done..|]. apply Forall_singleton. done.
    + done.
    + vm_compute. reflexivity.
    + vm_compute. reflexivity.
    + eapply rtc_l; [eapply (step_minor _ _ _ _ _ _ 12); [vm_compute; lia|vm_compute; reflexivity]|].
      eapply rtc_l; [eapply step_start; [done|by apply quiet_of|vm_compute; reflexivity]|].
      do 2 (eapply rtc_l; [eapply step_mark; [done|by apply quiet_of|vm_compute; reflexivity]|]).
      eapply rtc_l; [eapply step_sweep; [done|by apply quiet_of|vm_compute; reflexivity]|].
      apply rtc_refl.
  - split_and!; [done|by apply quiet_of|]. by eexists.
Qed.
Lemma collector_safe_witness : exists s, gc_phase s = Phase_sweep /\ (exists b, cells s !! 0%nat = Some (Adr b 0)) /\
  (forall w, follows s w -> word_ok (heap s) w) /\
  (forall fuel, (2 * size (young_blocks s) + 2 <= fuel)%nat ->
     match empty_minor_heap demo_junk demo_room demo_addr fuel s with Ok s' => quiet s' | Panic => exists t n, demo_room t n = false | _ => False end) /\
  (quiet s -> gc_phase s = Phase_idle /\ (exists s', start_cycle demo_grows s = Ok s') \/
     gc_phase s = Phase_mark /\ (exists w s', mark_step demo_addr 0 demo_grows s = Ok (w, s')) \/
     gc_phase s = Phase_sweep /\ (exists w s', sweep_step demo_addr s = Ok (w, s'))).
Proof.
  destruct demo_run as (s & Hrun & Hp & _ & Hc). exists s. split; [exact Hp|]. split; [exact Hc|].
  apply (collector_safe demo_junk demo_room demo_addr 0) with (s0 := demo).
  - unfold demo_addr. lia.
  - unfold demo_addr. lia.
  - exact demo_starts.
  - exact Hrun.
Defined.
