(* ===== verification/Primitives.v ===== *)
(** * Primitives on strings, arrays, integers and objects: kernel/Byterun/str.c, array.c, ints.c, obj.c, alloc.c

    The C functions that OCaml programs call as externals, over the heap of
    [Mlvalues].  A primitive returns a value and the heap, or raises an exception and leaves the heap
    as it is; the bucket of the exception is not represented.  The functions that the OCaml library
    calls after its own checks of the bounds ([blit_string], [fill_string], [bitvect_test]) fault
    outside the block.

    [has_type] gives OCaml types to values; [primitives_typed] is type soundness of the primitives
    that check their arguments. *)
From stdpp Require Import gmap list strings.
From S2P Require Import Prelude Mlvalues Intext Numbers.

Definition outcome : Type := value * heap_t + ml_exn.
Definition returns (v : value) (h : heap_t) : result outcome := Ok (inl (v, h)).
Definition raises (e : ml_exn) : result outcome := Ok (inr e).
Definition Int_val := Long_val.

(** ** Strings *)

Definition ml_string_length (h : heap_t) (s : value) : result value :=
  let* n := Bosize_val h s in
  let temp := u32 (n - 1) in
  let* pad := Byte_u h s temp in
  Ok (Val_long (temp - s8 pad)).
Definition create_string (len : value) (h : heap_t) : result outcome :=
  let* n := Long_val len in
  let size := u32 n in
  if size >? 4 * Max_wosize - 1 then raises (Invalid_argument "String.create")
  else let* (v, h) := alloc_string size h in returns v h.
(** The test of both accessors: [idx] is compared as an unsigned word once it is known not to be negative. *)
Definition out_of_string (h : heap_t) (str : value) (idx : Z) : result bool :=
  if idx <? 0 then Ok true else let* n := string_length h str in Ok (u32 idx >=? n).
Definition string_get (str index : value) (h : heap_t) : result outcome :=
  let* idx := Long_val index in
  let* out := out_of_string h str idx in
  if out : bool then raises (Invalid_argument "String.get")
  else let* c := Byte_u h str idx in returns (Val_int c) h.
Definition string_set (str index newval : value) (h : heap_t) : result outcome :=
  let* idx := Long_val index in
  let* out := out_of_string h str idx in
  if out : bool then raises (Invalid_argument "String.set")
  else
    let* c := Int_val newval in
    let* h := set_Byte_u h str idx c in
    returns Val_unit h.

(** A word of a block of bytes; the machine is little-endian. *)
Definition word_at (h : heap_t) (v : value) (i : Z) : result Z :=
  let* b0 := Byte_u h v (4 * i) in
  let* b1 := Byte_u h v (4 * i + 1) in
  let* b2 := Byte_u h v (4 * i + 2) in
  let* b3 := Byte_u h v (4 * i + 3) in
  Ok (b0 + 256 * (b1 + 256 * (b2 + 256 * b3))).
Fixpoint string_equal_loop (n : nat) (i : Z) (s1 s2 : value) (h : heap_t) : result value :=
  match n with
  | O => Ok Val_true
  | S n =>
      let* x := word_at h s1 i in
      let* y := word_at h s2 i in
      if negb (x =? y) then Ok Val_false else string_equal_loop n (i + 1) s1 s2 h
  end.
Definition string_equal (s1 s2 : value) (h : heap_t) : result value :=
  let* sz1 := Wosize_val h s1 in
  let* sz2 := Wosize_val h s2 in
  if negb (sz1 =? sz2) then Ok Val_false
  else string_equal_loop (Z.to_nat sz1) 0 s1 s2 h.
Definition string_notequal (s1 s2 : value) (h : heap_t) : result value :=
  let* v := string_equal s1 s2 h in Val_not v.

(** [n] bytes, read and written one by one; [memmove] behaves as if it read all of them first. *)
Fixpoint read_bytes (n : nat) (h : heap_t) (v : value) (i : Z) : result (list Z) :=
  match n with
  | O => Ok []
  | S n => let* c := Byte_u h v i in let* l := read_bytes n h v (i + 1) in Ok (c :: l)
  end.
Fixpoint write_bytes (l : list Z) (v : value) (i : Z) (h : heap_t) : result heap_t :=
  match l with
  | [] => Ok h
  | c :: l => let* h := set_Byte_u h v i c in write_bytes l v (i + 1) h
  end.
Definition blit_string (s1 ofs1 s2 ofs2 n : value) (h : heap_t) : result outcome :=
  let* o1 := Long_val ofs1 in
  let* o2 := Long_val ofs2 in
  let* n := Int_val n in
  let* l := read_bytes (Z.to_nat (u32 n)) h s1 o1 in
  let* h := write_bytes l s2 o2 h in
  returns Val_unit h.
Definition fill_string (s offset len init : value) (h : heap_t) : result outcome :=
  let* c := Long_val init in
  let* o := Long_val offset in
  let* n := Long_val len in
  let* h := write_bytes (replicate (Z.to_nat (u32 n)) c) s o h in
  returns Val_unit h.

Definition printable_chars_ascii : list Z :=
  [0; 0; 0; 0; 255; 255; 255; 255; 255; 255; 255; 255; 255; 255; 255; 127;
   0; 0; 0; 0; 0; 0; 0; 0; 0; 0; 0; 0; 0; 0; 0; 0].
Definition printable_chars_iso : list Z :=
  [0; 0; 0; 0; 255; 255; 255; 255; 255; 255; 255; 255; 255; 255; 255; 127;
   0; 0; 0; 0; 254; 255; 255; 255; 255; 255; 255; 255; 255; 255; 255; 255].
(** [lc_ctype] is nil. *)
Definition iso_charset : bool := false.
Definition is_printable (chr : value) : result value :=
  let printable_chars := if iso_charset then printable_chars_iso else printable_chars_ascii in
  let* c := Int_val chr in
  if c <? 0 then Fault
  else
    let* b := of_ptr (printable_chars !! Z.to_nat (Z.shiftr c 3)) in
    Ok (Val_bool (negb (Z.land b (Z.shiftl 1 (Z.land c 7)) =? 0))).
Definition bitvect_test (bv n : value) (h : heap_t) : result value :=
  let* pos := Int_val n in
  let* b := Byte_u h bv (Z.shiftr pos 3) in
  Ok (Val_int (Z.land b (Z.shiftl 1 (Z.land pos 7)))).

(** ** Arrays *)

Definition out_of_array (h : heap_t) (array : value) (idx : Z) : result bool :=
  if idx <? 0 then Ok true else let* n := Wosize_val h array in Ok (u32 idx >=? n).
Definition array_get (array index : value) (h : heap_t) : result outcome :=
  let* idx := Long_val index in
  let* out := out_of_array h array idx in
  if out : bool then raises (Invalid_argument "Array.get")
  else let* v := Field h array idx in returns v h.
Definition array_set (array index newval : value) (h : heap_t) : result outcome :=
  let* idx := Long_val index in
  let* out := out_of_array h array idx in
  if out : bool then raises (Invalid_argument "Array.set")
  else let* h := set_Field h array idx newval in returns Val_unit h.
(** The three branches that allocate differ in the heap they take the block from. *)
Definition make_vect (len init : value) (h : heap_t) : result outcome :=
  let* n := Long_val len in
  let size := u32 n in
  if size >? Max_wosize then raises (Invalid_argument "Array.make")
  else if size =? 0 then returns (Atom 0) h
  else let '(res, h) := alloc (mkBlock 0 (Fields (replicate (Z.to_nat size) init))) h in returns res h.

(** ** Objects *)

Definition obj_is_block (arg : value) : value := Val_bool (Is_block arg).
Definition obj_tag (arg : value) (h : heap_t) : result value := let* t := Tag_val h arg in Ok (Val_int t).
(** The header has eight bits for the tag and twenty-two for the size. *)
Definition obj_block (tag size : value) (h : heap_t) : result outcome :=
  let* n := Long_val size in
  let* t := Long_val tag in
  let sz := u32 n in
  let tg := u32 t in
  if tg >? 255 then Fault
  else if sz =? 0 then returns (Atom tg) h
  else if sz >? Max_wosize then Fault
  else
    let words := if tg <? Abstract_tag then Fields (replicate (Z.to_nat sz) (Val_long 0))
                 else Bytes (concat (replicate (Z.to_nat sz) [1; 0; 0; 0])) in
    let '(res, h) := alloc (mkBlock tg words) h in returns res h.

(** ** Integers *)

(** The value of a digit of one of the loops, which stop at any other character. *)
Definition digit_of (c : Z) : option Z :=
  if (c >=? 48) && (c <=? 57) then Some (c - 48)
  else if (c >=? 65) && (c <=? 70) then Some (c - 65 + 10)
  else if (c >=? 97) && (c <=? 102) then Some (c - 97 + 10)
  else None.
Fixpoint int_digits (fuel : nat) (h : heap_t) (s : value) (base p res : Z) : result (Z * Z) :=
  match fuel with
  | O => Loop
  | S fuel =>
      let* c := Byte_u h s p in
      match digit_of (s8 c) with
      | Some d => if d >=? base then Ok (p, res) else int_digits fuel h s base (p + 1) (s32 (base * res + d))
      | None => Ok (p, res)
      end
  end.
(** What follows the sign. *)
Definition int_number (s : value) (sign p : Z) (h : heap_t) : result (value + ml_exn) :=
  let* c := Byte_u h s p in
  let* (base, p) :=
    if c =? 48 then
      let* x := Byte_u h s (p + 1) in
      Ok (if (x =? 120) || (x =? 88) then (16, p + 2)
          else if (x =? 111) || (x =? 79) then (8, p + 2)
          else if (x =? 98) || (x =? 66) then (2, p + 2)
          else (10, p))
    else Ok (10, p) in
  let* n := Bosize_val h s in
  let* (p, res) := int_digits (S (Z.to_nat n)) h s base p 0 in
  let* c := Byte_u h s p in
  if negb (c =? 0) then Ok (inr (Failwith "int_of_string"))
  else Ok (inl (Val_long (if sign <? 0 then s32 (- res) else res))).
Definition int_of_string (s : value) (h : heap_t) : result (value + ml_exn) :=
  let* c := Byte_u h s 0 in
  if c =? 0 then Ok (inr (Failwith "int_of_string"))
  else if c =? 45 then int_number s (-1) 1 h
  else int_number s 1 0 h.

(** ** Strings and arrays in the heap *)

Definition string_block (s : list Z) : block := mkBlock String_tag (Bytes (string_bytes s)).
Definition string_fits (s : list Z) : Prop := Forall is_byte s /\ Z.of_nat (length s) <= 4 * Max_wosize - 1.
Definition string_at (h : heap_t) (b : nat) (s : list Z) : Prop := h !! b = Some (string_block s) /\ string_fits s.
Definition array_at (h : heap_t) (a : value) (l : list value) : Prop :=
  Z.of_nat (length l) <= Max_wosize /\
  match a with Atom t => t = 0 /\ l = [] | Ptr b => h !! b = Some (mkBlock 0 (Fields l)) | _ => False end.
Definition at_index {A} (l : list A) (i : Z) : option A := if i <? 0 then None else l !! Z.to_nat i.

Lemma at_index_out {A} (l : list A) i : at_index l i = None <-> i < 0 \/ Z.of_nat (length l) <= i.
Proof. unfold at_index. destruct (Z.ltb_spec i 0); [by split; [left|]|]. rewrite lookup_ge_None. lia. Qed.
Lemma at_index_in {A} (l : list A) i x : at_index l i = Some x -> 0 <= i < Z.of_nat (length l) /\ l !! Z.to_nat i = Some x.
Proof. unfold at_index. destruct (Z.ltb_spec i 0); [done|]. intros Hx. split; [|done]. apply lookup_lt_Some in Hx. lia. Qed.

Lemma string_bytes_lookup s i : (i < length s)%nat -> string_bytes s !! i = s !! i.
Proof. intros Hi. unfold string_bytes. by rewrite lookup_app_l. Qed.
Lemma string_bytes_insert s i c : (i < length s)%nat -> <[i := c]> (string_bytes s) = string_bytes (<[i := c]> s).
Proof. intros Hi. unfold string_bytes. rewrite length_insert. by rewrite insert_app_l. Qed.
Lemma string_bytes_long s : Z.of_nat (length s) < 2 ^ 31 -> (length s < length (string_bytes s))%nat.
Proof.
  intros Hl. pose proof (length_string_bytes s Hl) as H. rewrite string_wosize_eq in H by lia. zlia.
Qed.
Lemma Long_val_is_long i : is_long i -> Long_val (Val_long i) = Ok i.
Proof. intros Hi. by rewrite Long_Val_long, wrap31_small. Qed.
Lemma string_length_at h b s : string_at h b s -> string_length h (Ptr b) = Ok (Z.of_nat (length s)).
Proof. intros [Hb [_ Hs]]. apply string_length_ok; [exact Hb|]. unfold Max_wosize in Hs. lia. Qed.
Lemma Byte_u_at h b s i c : string_at h b s -> at_index s i = Some c -> Byte_u h (Ptr b) i = Ok c.
Proof.
  intros [Hb _] [Hi Hc]%at_index_in. unfold Byte_u. simpl. rewrite Hb. simpl. destruct (Z.ltb_spec i 0); [lia|].
  rewrite string_bytes_lookup by lia. by rewrite Hc.
Qed.
Lemma set_Byte_u_at h b s i c : string_at h b s -> 0 <= i < Z.of_nat (length s) ->
  set_Byte_u h (Ptr b) i c = Ok (<[b := string_block (<[Z.to_nat i := u8 c]> s)]> h).
Proof.
  intros [Hb [_ Hs]] Hi. unfold set_Byte_u. rewrite Hb. cbn [of_ptr rbind string_block data tag].
  pose proof (string_bytes_long s) as Hl. unfold Max_wosize in Hs.
  assert ((0 <=? i) && (i <? Z.of_nat (length (string_bytes s))) = true) as -> by lia.
  by rewrite string_bytes_insert by lia.
Qed.
Lemma insert_fits s i c : string_fits s -> string_fits (<[i := u8 c]> s).
Proof. intros [Hf Hl]. split; [|by rewrite length_insert]. apply Forall_insert; [done|]. apply u8_range. Qed.
Lemma out_of_string_at h b s i : string_at h b s -> is_long i ->
  out_of_string h (Ptr b) i = Ok (match at_index s i with Some _ => false | None => true end).
Proof.
  intros Hb Hi. unfold out_of_string. rewrite (string_length_at _ _ _ Hb). unfold is_long, Min_long, Max_long in Hi.
  destruct (at_index s i) eqn:E.
  - apply at_index_in in E as [? _]. destruct (Z.ltb_spec i 0); [lia|]. simpl. rewrite u32_small by (unfold is_u32; lia). f_equal. lia.
  - apply at_index_out in E. destruct (Z.ltb_spec i 0); [done|]. simpl. rewrite u32_small by (unfold is_u32; lia). f_equal. lia.
Qed.
Lemma Wosize_array h a l : array_at h a l -> Wosize_val h a = Ok (Z.of_nat (length l)).
Proof.
  intros [_ H]. destruct a; try done; unfold Wosize_val; simpl; [by rewrite H|]. by destruct H as [_ ->].
Qed.
Lemma out_of_array_at h a l i : array_at h a l -> is_long i -> out_of_array h a i = Ok (match at_index l i with Some _ => false | None => true end).
Proof.
  intros Ha Hi. unfold out_of_array. rewrite (Wosize_array _ _ _ Ha). unfold is_long, Min_long, Max_long in Hi.
  destruct (at_index l i) eqn:E.
  - apply at_index_in in E as [? _]. destruct (Z.ltb_spec i 0); [lia|]. simpl. rewrite u32_small by (unfold is_u32; lia). f_equal. lia.
  - apply at_index_out in E. destruct (Z.ltb_spec i 0); [done|]. simpl. rewrite u32_small by (unfold is_u32; lia). f_equal. lia.
Qed.
Lemma Field_array h a l i v : array_at h a l -> at_index l i = Some v -> Field h a i = Ok v.
Proof.
  intros [_ H] [Hi Hv]%at_index_in. destruct a; try done; unfold Field; simpl; [|by destruct H as [_ ->]].
  rewrite H. simpl. destruct (Z.ltb_spec i 0); [lia|]. by rewrite Hv.
Qed.
Lemma alloc_string_eq n h : 0 <= n <= 4 * Max_wosize - 1 ->
  alloc_string n h = Ok (alloc (string_block (replicate (Z.to_nat n) 0)) h).
Proof.
  intros Hn. unfold Max_wosize in Hn. unfold alloc_string, string_block, string_bytes. rewrite length_replicate, Z2Nat.id by lia.
  rewrite string_wosize_eq by lia. destruct (Z.ltb_spec ((n + 4) / 4) 1); [zlia|]. do 4 f_equal. rewrite app_assoc, <-replicate_add.
  change [0; 0; 0; u8 (4 * ((n + 4) / 4) - 1 - n)] with (replicate 3 0 ++ [u8 (4 * ((n + 4) / 4) - 1 - n)]).
  rewrite app_assoc, <-replicate_add. f_equal; [f_equal; zlia|]. f_equal. unfold u8. rewrite Z.mod_small by zlia. zlia.
Qed.

(** ** Comparing strings *)

Definition bytes_at (h : heap_t) (v : value) (l : list Z) : Prop :=
  Forall is_byte l /\ match v with Ptr b => exists t, h !! b = Some (mkBlock t (Bytes l)) | _ => False end.
Lemma Byte_u_bytes h v l i c : bytes_at h v l -> l !! i = Some c -> Byte_u h v (Z.of_nat i) = Ok c.
Proof.
  intros [_ Hb] Hc. destruct v; try done. destruct Hb as [t Hb]. unfold Byte_u. simpl. rewrite Hb. simpl.
  destruct (Z.ltb_spec (Z.of_nat i) 0); [lia|]. by rewrite Nat2Z.id, Hc.
Qed.
Lemma word_at_bytes h v l i b0 b1 b2 b3 r : bytes_at h v l -> drop (4 * i) l = b0 :: b1 :: b2 :: b3 :: r ->
  word_at h v (Z.of_nat i) = Ok (b0 + 256 * (b1 + 256 * (b2 + 256 * b3))).
Proof.
  intros Hl Hd. assert (forall k, l !! (4 * i + k)%nat = (b0 :: b1 :: b2 :: b3 :: r) !! k) as Hk by (intros k; by rewrite <-Hd, lookup_drop).
  unfold word_at. replace (4 * Z.of_nat i) with (Z.of_nat (4 * i)) by lia.
  rewrite (Byte_u_bytes _ _ _ _ b0 Hl) by (rewrite <-(Nat.add_0_r (4 * i)); apply (Hk 0%nat)).
  change (Z.of_nat (4 * i) + 1) with (Z.of_nat (4 * i) + Z.of_nat 1). change (Z.of_nat (4 * i) + 2) with (Z.of_nat (4 * i) + Z.of_nat 2).
  change (Z.of_nat (4 * i) + 3) with (Z.of_nat (4 * i) + Z.of_nat 3). rewrite <-!Nat2Z.inj_add.
  by rewrite (Byte_u_bytes _ _ _ _ b1 Hl (Hk 1%nat)), (Byte_u_bytes _ _ _ _ b2 Hl (Hk 2%nat)), (Byte_u_bytes _ _ _ _ b3 Hl (Hk 3%nat)).
Qed.
Lemma four_of {A} (l : list A) n : length l = (4 * S n)%nat -> exists a b c d r, l = a :: b :: c :: d :: r /\ length r = (4 * n)%nat.
Proof. intros H. do 4 (destruct l; [simpl in H; lia|]). do 5 eexists. split; [done|]. simpl in H. lia. Qed.
Lemma string_equal_loop_ok h v1 v2 l1 l2 : bytes_at h v1 l1 -> bytes_at h v2 l2 -> forall n i,
  length (drop (4 * i) l1) = (4 * n)%nat -> length (drop (4 * i) l2) = (4 * n)%nat ->
  string_equal_loop n (Z.of_nat i) v1 v2 h = Ok (Val_bool (bool_decide (drop (4 * i) l1 = drop (4 * i) l2))).
Proof.
  intros H1 H2. induction n as [|n IH]; intros i Hn1 Hn2.
  { destruct (drop (4 * i) l1); [|done]. destruct (drop (4 * i) l2); done. }
  destruct (four_of _ n Hn1) as (a0 & a1 & a2 & a3 & r & Ha & Hr). destruct (four_of _ n Hn2) as (c0 & c1 & c2 & c3 & r' & Hc & Hr').
  cbn [string_equal_loop]. rewrite (word_at_bytes _ _ _ _ _ _ _ _ _ H1 Ha), (word_at_bytes _ _ _ _ _ _ _ _ _ H2 Hc). cbn [rbind].
  pose proof (Forall_drop _ (4 * i) _ (proj1 H1)) as F1. pose proof (Forall_drop _ (4 * i) _ (proj1 H2)) as F2.
  rewrite Ha in F1. rewrite Hc in F2. apply Forall_cons in F1 as [? F1]. apply Forall_cons in F1 as [? F1]. apply Forall_cons in F1 as [? F1]. apply Forall_cons in F1 as [? _].
  apply Forall_cons in F2 as [? F2]. apply Forall_cons in F2 as [? F2]. apply Forall_cons in F2 as [? F2]. apply Forall_cons in F2 as [? _]. unfold is_byte in *.
  assert (drop (4 * S i) l1 = r) as Hd1 by (replace (4 * S i)%nat with (4 * i + 4)%nat by lia; by rewrite <-skipn_skipn, Ha || rewrite <-drop_drop, Ha).
  assert (drop (4 * S i) l2 = r') as Hd2 by (replace (4 * S i)%nat with (4 * i + 4)%nat by lia; by rewrite <-skipn_skipn, Hc || rewrite <-drop_drop, Hc).
  rewrite Ha, Hc. destruct (Z.eqb_spec (a0 + 256 * (a1 + 256 * (a2 + 256 * a3))) (c0 + 256 * (c1 + 256 * (c2 + 256 * c3)))) as [He|He]; simpl negb; cbn iota.
  - replace (Z.of_nat i + 1) with (Z.of_nat (S i)) by lia. rewrite IH by (rewrite ?Hd1, ?Hd2; done). rewrite Hd1, Hd2.
    assert (a0 = c0 /\ a1 = c1 /\ a2 = c2 /\ a3 = c3) as (-> & -> & -> & ->) by lia. do 2 f_equal. apply bool_decide_ext. split; [by intros ->|by intros [= ->]].
  - rewrite bool_decide_false; [done|]. intros [= -> -> -> -> _]. by apply He.
Qed.
Lemma string_bytes_at h b s : string_at h b s -> bytes_at h (Ptr b) (string_bytes s).
Proof.
  intros [Hb [Hf Hl]]. split; [|by exists String_tag]. unfold string_bytes, Max_wosize in *. rewrite string_wosize_eq by lia.
  apply Forall_app. split; [done|]. apply Forall_app. split; [apply Forall_replicate; by unfold is_byte|]. apply Forall_singleton. unfold is_byte. zlia.
Qed.
Lemma string_equal_at h a b s t : string_at h a s -> string_at h b t -> string_equal (Ptr a) (Ptr b) h = Ok (Val_bool (bool_decide (s = t))).
Proof.
  intros Hs Ht. pose proof (string_bytes_at _ _ _ Hs) as Bs. pose proof (string_bytes_at _ _ _ Ht) as Bt.
  destruct Hs as [Ha [_ Hls]], Ht as [Hb [_ Hlt]]. unfold string_equal, Wosize_val. simpl. rewrite Ha, Hb. cbn [of_ptr rbind string_block data size_of]. unfold Max_wosize in *.
  pose proof (length_string_bytes s ltac:(lia)) as Ls. pose proof (length_string_bytes t ltac:(lia)) as Lt. rewrite Ls, Lt.
  rewrite !(Z.mul_comm 4), !Z.div_mul by done. destruct (Z.eqb_spec (string_wosize (Z.of_nat (length s))) (string_wosize (Z.of_nat (length t)))) as [He|He]; simpl negb; cbn iota.
  - assert (0 < string_wosize (Z.of_nat (length s))) as Hw by (rewrite string_wosize_eq by lia; zlia). rewrite <-He in Lt.
    change 0 with (Z.of_nat 0). pose proof (string_equal_loop_ok _ _ _ _ _ Bs Bt (Z.to_nat (string_wosize (Z.of_nat (length s)))) 0) as ->; rewrite ?Nat.mul_0_r, ?drop_0; [|lia..].
    do 2 f_equal. apply bool_decide_ext. split; [|by intros ->]. apply string_bytes_inj; lia.
  - rewrite bool_decide_false; [done|]. by intros ->.
Qed.

(** ** Reading numbers *)

(** The characters up to the first NUL. *)
Definition c_text (s : list Z) : list Z := take_while (fun c => negb (c =? 0)) s.
(** A base and digits; there may be none. *)
Definition unsigned_literal (u : list Z) : option Z :=
  let '(base, ds) :=
    match u with
    | c :: x :: u' =>
        if negb (c =? 48) then (10, u)
        else if (x =? 120) || (x =? 88) then (16, u')
        else if (x =? 111) || (x =? 79) then (8, u')
        else if (x =? 98) || (x =? 66) then (2, u')
        else (10, u)
    | _ => (10, u)
    end in
  if forallb (is_digit base) ds then Some (digits_value base ds) else None.
(** The documented syntax of integers: a sign, a prefix that gives the base, and at least one digit of that base. *)
Definition minus_of (t : list Z) : bool * list Z := match t with c :: u => if c =? 45 then (true, u) else (false, t) | [] => (false, []) end.
Definition prefix_of (u : list Z) : Z * list Z :=
  match u with
  | c :: x :: u' =>
      if negb (c =? 48) then (10, u)
      else if (x =? 120) || (x =? 88) then (16, u')
      else if (x =? 111) || (x =? 79) then (8, u')
      else if (x =? 98) || (x =? 66) then (2, u')
      else (10, u)
  | _ => (10, u)
  end.
Definition numeral (t : list Z) : option Z :=
  let '(neg, u) := minus_of t in
  let '(base, ds) := prefix_of u in
  if negb (length ds =? 0)%nat && forallb (is_digit base) ds
  then Some (if neg : bool then - digits_value base ds else digits_value base ds) else None.
(** A sign or a prefix without digits. *)
Definition no_digits (t : list Z) : bool := negb (length t =? 0)%nat && (length (prefix_of (minus_of t).2).2 =? 0)%nat.
(** What [int_of_string] makes of a text: a sign, a base, digits. *)
Definition literal (t : list Z) : option Z :=
  match t with
  | [] => None
  | c :: u => if c =? 45 then Z.opp <$> unsigned_literal u else unsigned_literal t
  end.

(** The text [u] is at byte [p] of the block. *)
Definition text_at (h : heap_t) (v : value) (p : Z) (u : list Z) : Prop :=
  Forall (fun c => 0 < c < 256) u /\ forall j, (j <= length u)%nat -> Byte_u h v (p + Z.of_nat j) = Ok (nth j u 0).
Lemma text_here h v p u : text_at h v p u -> Byte_u h v p = Ok (nth 0 u 0).
Proof. intros [_ H]. rewrite <-(H 0%nat) by lia. f_equal. lia. Qed.
Lemma text_next h v p c u : text_at h v p (c :: u) -> text_at h v (p + 1) u.
Proof.
  intros [Hf H]. split; [by apply Forall_cons in Hf as [_ ?]|]. intros j Hj. specialize (H (S j) ltac:(simpl; lia)).
  simpl nth in H. rewrite <-H. f_equal. lia.
Qed.
Lemma text_app h v p u1 u2 : text_at h v p (u1 ++ u2) -> text_at h v (p + Z.of_nat (length u1)) u2.
Proof.
  revert p. induction u1 as [|c u1 IH]; intros p H; simpl in *; [by rewrite Z.add_0_r|].
  apply text_next, IH in H. by replace (p + Z.of_nat (S (length u1))) with (p + 1 + Z.of_nat (length u1)) by lia.
Qed.
Lemma drop_while_zero s x r : drop_while (fun c => negb (c =? 0)) s = x :: r -> x = 0.
Proof.
  induction s as [|y s IH]; [done|]. rewrite drop_while_head. destruct (Z.eqb_spec y 0); simpl; [by intros [= <- _]|done].
Qed.
Lemma c_text_at h b s : string_at h b s -> text_at h (Ptr b) 0 (c_text s) /\ (length (c_text s) <= length s)%nat.
Proof.
  intros Hs. pose proof (string_bytes_at _ _ _ Hs) as [_ Hb]. destruct Hs as [Ha [Hf Hl]].
  assert (forall i, (i <= length s)%nat -> Byte_u h (Ptr b) (Z.of_nat i) = Ok (nth i s 0)) as Hread.
  { intros i Hi. apply (Byte_u_bytes _ _ (string_bytes s)); [by apply string_bytes_at|]. destruct (decide (i = length s)) as [->|].
    - rewrite nth_overflow by lia. unfold string_bytes, Max_wosize in *. rewrite string_wosize_eq by lia.
      rewrite lookup_app_r, Nat.sub_diag by lia. set (k := (_ - 1 - length s)%nat).
      destruct k as [|k0] eqn:E; [done|by rewrite lookup_app_l by (rewrite length_replicate; lia)].
    - rewrite string_bytes_lookup by lia. destruct (lookup_lt_is_Some_2 s i ltac:(lia)) as [c Hc]. rewrite Hc. f_equal. symmetry. by apply nth_lookup_Some. }
  pose proof (take_while_app (fun c => negb (c =? 0)) s) as Happ. fold (c_text s) in Happ.
  assert (length (c_text s) <= length s)%nat as Hle by (rewrite <-Happ at 2; rewrite length_app; lia).
  split; [|done]. split.
  - pose proof (take_while_all (fun c => negb (c =? 0)) s) as Hall. fold (c_text s) in Hall. rewrite <-Happ in Hf.
    apply Forall_app in Hf as [Hf _]. apply Forall_forall. intros c Hc. rewrite Forall_forall in Hall, Hf. specialize (Hall c Hc). specialize (Hf c Hc).
    unfold is_byte in Hf. lia.
  - intros j Hj. rewrite Z.add_0_l, Hread by lia. f_equal. destruct (decide (j = length (c_text s))) as [->|].
    + rewrite (nth_overflow (c_text s)) by lia. rewrite <-Happ at 2. rewrite app_nth2, Nat.sub_diag by lia.
      destruct (drop_while _ s) as [|x r] eqn:E; [done|]. simpl. apply (drop_while_zero s x r E).
    + rewrite <-Happ at 1. by rewrite app_nth1 by lia.
Qed.

Lemma digit_of_eq base c : 2 <= base <= 16 -> 0 <= c < 256 ->
  match digit_of (s8 c) with
  | Some d => d = digit_value base c /\ (d >=? base) = negb (is_digit base c)
  | None => is_digit base c = false
  end.
Proof.
  intros Hb Hc. unfold digit_of, is_digit, digit_value, between.
  assert (s8 c = if c <? 128 then c else c - 256) as -> by (case_tests; unfold s8; zlia).
  destruct (Z.ltb_spec c 128).
  - case_ifs; first [split; lia | lia].
  - assert ((c - 256 >=? 48) && (c - 256 <=? 57) = false) as -> by lia. assert ((c - 256 >=? 65) && (c - 256 <=? 70) = false) as -> by lia.
    assert ((c - 256 >=? 97) && (c - 256 <=? 102) = false) as -> by lia. case_ifs; lia.
Qed.
Lemma s32_step base n d : s32 (base * s32 n + d) = s32 (base * n + d).
Proof.
  rewrite <-s32_u32, <-(s32_u32 (base * n + d)). f_equal. unfold u32. rewrite <-Zplus_mod_idemp_l, <-Zmult_mod_idemp_r.
  fold (u32 (s32 n)). rewrite u32_s32. unfold u32. by rewrite Zmult_mod_idemp_r, Zplus_mod_idemp_l.
Qed.
Definition digits_from (base : Z) (ds : list Z) (n : Z) : Z := fold_left (fun n c => n * base + digit_value base c) ds n.
Lemma int_digits_ok h v base : 2 <= base <= 16 -> forall fuel p u n, text_at h v p u -> (length u < fuel)%nat ->
  int_digits fuel h v base p (s32 n) =
  Ok (p + Z.of_nat (length (take_while (is_digit base) u)), s32 (digits_from base (take_while (is_digit base) u) n)).
Proof.
  intros Hb. induction fuel as [|fuel IH]; intros p u n Hu Hf; [lia|]. cbn [int_digits]. rewrite (text_here _ _ _ _ Hu). cbn [rbind].
  destruct u as [|c u]; [simpl; by rewrite Z.add_0_r|]. cbn [nth take_while].
  pose proof Hu as [Hc%Forall_inv _]. pose proof (digit_of_eq base c Hb ltac:(lia)) as Hd.
  destruct (digit_of (s8 c)) as [d|]; [destruct Hd as [-> ->]|rewrite Hd; simpl; by rewrite Z.add_0_r].
  destruct (is_digit base c); simpl negb; cbn iota; [|simpl; by rewrite Z.add_0_r]. simpl in Hf.
  replace (s32 (base * s32 n + digit_value base c)) with (s32 (n * base + digit_value base c)).
  - rewrite (IH _ _ _ (text_next _ _ _ _ _ Hu)) by lia. unfold digits_from. cbn [length fold_left]. do 2 f_equal. lia.
  - rewrite s32_step. f_equal. lia.
Qed.

Lemma int_digits_end h v base u p : 2 <= base <= 16 -> text_at h v p u ->
  Byte_u h v (p + Z.of_nat (length (take_while (is_digit base) u))) = Ok (nth 0 (drop_while (is_digit base) u) 0) /\
  (nth 0 (drop_while (is_digit base) u) 0 =? 0) = forallb (is_digit base) u.
Proof.
  intros Hb Hu. pose proof (take_while_app (is_digit base) u) as Happ. split.
  - apply text_here. apply text_app. by rewrite Happ.
  - destruct Hu as [Hf _]. clear Happ. induction u as [|c u IH]; [done|]. apply Forall_cons in Hf as [Hc Hf].
    rewrite drop_while_head. cbn [forallb]. destruct (is_digit base c) eqn:E; [by apply IH|]. simpl. lia.
Qed.
Lemma Val_long_s32 x : Val_long (s32 x) = Val_long x.
Proof. rewrite !Val_long_eq. f_equal. rewrite <-(Z.add_0_r (2 * x)), <-u32_s32, Z.add_0_r. unfold u32, s32. zlia. Qed.
(** The rest of [int_of_string], from the first digit on. *)
Lemma int_tail_ok h v base u p fuel (sign : Z) : 2 <= base <= 16 -> text_at h v p u -> (length u < fuel)%nat ->
  (let* (p, res) := int_digits fuel h v base p 0 in
   let* c := Byte_u h v p in
   if negb (c =? 0) then Ok (inr (Failwith "int_of_string")) else Ok (inl (Val_long (if sign <? 0 then s32 (- res) else res)))) =
  Ok (if forallb (is_digit base) u then inl (Val_long (if sign <? 0 then - digits_value base u else digits_value base u))
      else inr (Failwith "int_of_string")).
Proof.
  intros Hb Hu Hf. change 0 with (s32 0) at 1. rewrite (int_digits_ok _ _ _ Hb _ _ _ _ Hu Hf). cbn [rbind].
  destruct (int_digits_end _ _ _ _ _ Hb Hu) as [-> Hz]. cbn [rbind]. rewrite Hz.
  destruct (forallb (is_digit base) u) eqn:E; simpl; [|done].
  assert (take_while (is_digit base) u = u) as ->.
  { clear -E. induction u as [|c u IH]; [done|]. simpl in *. apply andb_prop in E as [-> E]. by rewrite IH. }
  change (digits_from base u 0) with (digits_value base u). do 2 f_equal. destruct (sign <? 0); [|apply Val_long_s32].
  rewrite Val_long_s32. replace (- s32 (digits_value base u)) with (-1 * s32 (digits_value base u) + 0) by lia.
  rewrite <-Val_long_s32, s32_step, Val_long_s32. f_equal. lia.
Qed.

Lemma Bosize_at h b s : string_at h b s -> exists N, Bosize_val h (Ptr b) = Ok N /\ Z.of_nat (length s) < N.
Proof.
  intros [Hb [_ Hs]]. unfold Bosize_val, Wosize_val. simpl. rewrite Hb. cbn [of_ptr rbind string_block data size_of]. unfold Max_wosize in Hs.
  pose proof (length_string_bytes s ltac:(lia)) as L. pose proof (string_bytes_long s ltac:(lia)). eexists. split; [done|].
  rewrite L, (Z.mul_comm 4 (string_wosize _)), Z.div_mul by done. lia.
Qed.
Definition int_result (sign : Z) (n : option Z) : value + ml_exn :=
  match n with Some n => inl (Val_long (if sign <? 0 then - n else n)) | None => inr (Failwith "int_of_string") end.
Lemma int_number_ok h b s sign p u : string_at h b s -> text_at h (Ptr b) p u -> (length u <= length s)%nat ->
  int_number (Ptr b) sign p h = Ok (int_result sign (unsigned_literal u)).
Proof.
  intros Hs Hu Hl. destruct (Bosize_at _ _ _ Hs) as (N & HN & HlN). unfold int_number. rewrite (text_here _ _ _ _ Hu), HN. cbn [rbind].
  assert (forall base p' u', 2 <= base <= 16 -> text_at h (Ptr b) p' u' -> (length u' <= length s)%nat ->
    (let* (p, res) := int_digits (S (Z.to_nat N)) h (Ptr b) base p' 0 in
     let* c := Byte_u h (Ptr b) p in
     if negb (c =? 0) then Ok (inr (Failwith "int_of_string")) else Ok (inl (Val_long (if sign <? 0 then s32 (- res) else res)))) =
    Ok (int_result sign (if forallb (is_digit base) u' then Some (digits_value base u') else None))) as Htail.
  { intros base p' u' Hb Hu' Hl'. rewrite (int_tail_ok _ _ _ u') by (done || lia). by destruct (forallb _ _). }
  destruct u as [|c u]; [by apply (Htail 10 p [])|]. pose proof (text_next _ _ _ _ _ Hu) as Hu1. cbn [nth unsigned_literal].
  destruct (Z.eqb_spec c 48) as [->|]; simpl negb; cbn iota.
  - rewrite (text_here _ _ _ _ Hu1). cbn [rbind]. destruct u as [|x u]; [by apply (Htail 10 p [48])|]. cbn [nth].
    apply text_next in Hu1. replace (p + 1 + 1) with (p + 2) in Hu1 by lia. cbn [length] in Hl. unfold unsigned_literal. cbn [negb Z.eqb Pos.eqb].
    destruct ((x =? 120) || (x =? 88)); [by apply Htail; [done| |lia]|]. destruct ((x =? 111) || (x =? 79)); [by apply Htail; [done| |lia]|].
    destruct ((x =? 98) || (x =? 66)); [by apply Htail; [done| |lia]|]. by apply Htail.
  - cbn [rbind]. rewrite (Htail 10 p (c :: u)) by done. unfold unsigned_literal. destruct u; [done|]. by assert (c =? 48 = false) as -> by lia.
Qed.
Lemma int_of_string_at h b s : string_at h b s ->
  int_of_string (Ptr b) h =
  Ok (match literal (c_text s) with Some n => inl (Val_long n) | None => inr (Failwith "int_of_string") end).
Proof.
  intros Hs. destruct (c_text_at _ _ _ Hs) as [Ht Hl]. unfold int_of_string. rewrite (text_here _ _ _ _ Ht). cbn [rbind].
  destruct (c_text s) as [|c t]; [done|]. cbn [nth literal]. pose proof Ht as [Hc%Forall_inv _]. destruct (Z.eqb_spec c 0); [lia|].
  destruct (Z.eqb_spec c 45).
  - simpl in Hl. rewrite (int_number_ok h b s (-1) 1 t Hs); [by destruct (unsigned_literal t)|by apply (text_next _ _ 0 c)|lia].
  - by rewrite (int_number_ok h b s 1 0 (c :: t) Hs).
Qed.
Lemma literal_numeral t : literal t = if no_digits t then Some 0 else numeral t.
Proof.
  destruct t as [|c t]; [done|]. unfold literal, numeral, no_digits, minus_of. destruct (Z.eqb_spec c 45) as [->|Hc]; cbn [snd].
  - change (unsigned_literal t) with (let '(base, ds) := prefix_of t in if forallb (is_digit base) ds then Some (digits_value base ds) else None).
    destruct (prefix_of t) as [base ds]. cbn [snd]. destruct ds as [|d ds]; [done|]. cbn [length Nat.eqb negb andb]. by destruct (forallb _ _).
  - change (unsigned_literal (c :: t)) with (let '(base, ds) := prefix_of (c :: t) in if forallb (is_digit base) ds then Some (digits_value base ds) else None).
    destruct (prefix_of (c :: t)) as [base ds]. cbn [snd]. destruct ds as [|d ds]; [done|]. cbn [length Nat.eqb negb andb]. by destruct (forallb _ _).
Qed.
(** The result for a text without NUL. *)
Definition int_of_text (t : list Z) : value + ml_exn :=
  if no_digits t then inl (Val_long 0)
  else match numeral t with Some n => inl (Val_long n) | None => inr (Failwith "int_of_string") end.
Lemma int_of_text_at h b s : string_at h b s -> int_of_string (Ptr b) h = Ok (int_of_text (c_text s)).
Proof. intros Hs. rewrite (int_of_string_at h b s Hs), literal_numeral. unfold int_of_text. by destruct (no_digits _). Qed.
Lemma c_text_whole s : 0 ∉ s -> c_text s = s.
Proof.
  induction s as [|c s IH]; intros Hs; [done|]. apply not_elem_of_cons in Hs as [Hc Hs]. unfold c_text in *. cbn [take_while].
  destruct (Z.eqb_spec c 0); [by subst|]. cbn [negb]. by rewrite IH.
Qed.
Lemma c_text_cut t u : 0 ∉ t -> c_text (t ++ 0 :: u) = t.
Proof.
  induction t as [|c t IH]; intros Ht; [done|]. apply not_elem_of_cons in Ht as [Hc Ht]. unfold c_text in *. cbn [app take_while].
  destruct (Z.eqb_spec c 0); [by subst|]. cbn [negb]. by rewrite IH.
Qed.
Lemma numeral_no_nul t n : numeral t = Some n -> 0 ∉ t /\ no_digits t = false.
Proof.
  unfold numeral, no_digits. intros Hn. destruct (minus_of t) as [neg u] eqn:Es. destruct (prefix_of u) as [base ds] eqn:Eb. cbn [snd]. rewrite Eb. cbn [snd].
  destruct (length ds =? 0)%nat eqn:El; [done|]. cbn [negb andb] in Hn. split; [|by rewrite andb_false_r].
  destruct (forallb (is_digit base) ds) eqn:Ed; [|done]. intros H0. assert (0 ∉ ds) as Hds.
  { intros Hin. rewrite forallb_forall in Ed. specialize (Ed 0 (proj1 (list_elem_of_In _ _) Hin)). unfold is_digit in Ed. change (digit_value base 0) with base in Ed. lia. }
  assert (0 ∈ u -> False) as Hu.
  { intros Hin. unfold prefix_of in Eb. destruct u as [|c [|x u]]; [by apply elem_of_nil in Hin|injection Eb as <- <-; done|].
    destruct (Z.eqb_spec c 48) as [->|]; cbn [negb] in Eb; [|injection Eb as <- <-; done].
    repeat case_match; injection Eb as <- <-; try done;
      (apply elem_of_cons in Hin as [?|Hin]; [done|]; apply elem_of_cons in Hin as [<-|Hin]; [done|done]). }
  unfold minus_of in Es. destruct t as [|c t]; [by apply elem_of_nil in H0|]. destruct (Z.eqb_spec c 45) as [->|]; injection Es as <- <-; [|done].
  apply elem_of_cons in H0 as [?|H0]; [done|by apply Hu].
Qed.
(** C35: [int_of_string] and its documentation (an optional minus sign, an optional prefix 0x, 0o or 0b, at least one digit of
    that base; [Failure] for any other string).  It returns what is documented, the number modulo 2^31, for every valid
    string; it raises [Failure] for every other string, except in the two cases where it deviates: a sign or a
    prefix without digits gives 0, and a string that holds a NUL is read as if it ended there. *)
Theorem int_of_string_parses h b s : string_at h b s ->
  (forall n, numeral s = Some n -> int_of_string (Ptr b) h = Ok (inl (Val_long n))) /\
  (numeral s = None -> no_digits s = false -> 0 ∉ s -> int_of_string (Ptr b) h = Ok (inr (Failwith "int_of_string"))) /\
  (no_digits s = true -> 0 ∉ s -> int_of_string (Ptr b) h = Ok (inl (Val_long 0))) /\
  (forall t u, s = t ++ 0 :: u -> 0 ∉ t -> int_of_string (Ptr b) h = Ok (int_of_text t)).
Proof.
  intros Hs. rewrite (int_of_text_at h b s Hs). unfold int_of_text. split_and!.
  - intros n Hn. destruct (numeral_no_nul s n Hn) as [H0 Hd]. by rewrite c_text_whole, Hd, Hn.
  - intros Hn Hd H0. by rewrite c_text_whole, Hd, Hn.
  - intros Hd H0. by rewrite c_text_whole, Hd.
  - intros t u -> H0. by rewrite c_text_cut.
Qed.
Lemma int_of_string_parses_witness :
  int_of_string (Ptr 0) {[0%nat := string_block [45; 48; 120; 49; 70]]} = Ok (inl (Val_long (-31))) /\
  int_of_string (Ptr 0) {[0%nat := string_block [49; 50; 97]]} = Ok (inr (Failwith "int_of_string")) /\
  int_of_string (Ptr 0) {[0%nat := string_block [45]]} = Ok (inl (Val_long 0)) /\
  int_of_string (Ptr 0) {[0%nat := string_block [55; 0; 120]]} = Ok (inl (Val_long 7)).
Proof.
  assert (forall s, Forall is_byte s -> Z.of_nat (length s) <= 4 * Max_wosize - 1 -> string_at {[0%nat := string_block s]} 0 s) as H by (intros s H1 H2; split; [done|by split]).
  split; [|split; [|split]].
  - apply (int_of_string_parses _ 0 [45; 48; 120; 49; 70]); [apply H; [repeat constructor; done|done]|reflexivity].
  - apply (int_of_string_parses _ 0 [49; 50; 97]); [apply H; [repeat constructor; done|done]|reflexivity|reflexivity|set_solver].
  - apply (int_of_string_parses _ 0 [45]); [apply H; [repeat constructor; done|done]|reflexivity|set_solver].
  - rewrite (proj2 (proj2 (proj2 (int_of_string_parses _ 0 [55; 0; 120] (H [55; 0; 120] ltac:(repeat constructor; done) ltac:(done))))) [55] [120] eq_refl ltac:(set_solver)).
    reflexivity.
Defined.

(** C34: an access to a string or an array reads or changes exactly the element that the index names; an index
    out of range, negative ones included, raises [Invalid_argument] with the name of the function and
    leaves the heap as it is; [create_string] and [make_vect] give a block of the size asked for, filled, or raise it for a size that
    no block can have. *)
Theorem accesses_checked h b s a l i n c v : string_at h b s -> array_at h a l -> is_long i -> is_long n -> is_long c ->
  string_get (Ptr b) (Val_long i) h =
    match at_index s i with Some x => returns (Val_long x) h | None => raises (Invalid_argument "String.get") end /\
  string_set (Ptr b) (Val_long i) (Val_long c) h =
    match at_index s i with
    | Some _ => returns Val_unit (<[b := string_block (<[Z.to_nat i := u8 c]> s)]> h)
    | None => raises (Invalid_argument "String.set")
    end /\
  array_get a (Val_long i) h =
    match at_index l i with Some x => returns x h | None => raises (Invalid_argument "Array.get") end /\
  array_set a (Val_long i) v h =
    match at_index l i, a with
    | Some _, Ptr k => returns Val_unit (<[k := mkBlock 0 (Fields (<[Z.to_nat i := v]> l))]> h)
    | _, _ => raises (Invalid_argument "Array.set")
    end /\
  create_string (Val_long n) h =
    (if (0 <=? n) && (n <=? 4 * Max_wosize - 1)
     then returns (Ptr (fresh (dom h))) (<[fresh (dom h) := string_block (replicate (Z.to_nat n) 0)]> h)
     else raises (Invalid_argument "String.create")) /\
  make_vect (Val_long n) v h =
    (if (0 <=? n) && (n <=? Max_wosize)
     then if n =? 0 then returns (Atom 0) h
          else returns (Ptr (fresh (dom h))) (<[fresh (dom h) := mkBlock 0 (Fields (replicate (Z.to_nat n) v))]> h)
     else raises (Invalid_argument "Array.make")).
Proof.
  intros Hs Ha Hi Hn Hc.
  assert (forall m, 0 <= m -> m < 2 ^ 30 -> (u32 n >? m) = negb ((0 <=? n) && (n <=? m))) as Hsize.
  { intros m Hm Hm'. unfold is_long, Min_long, Max_long in Hn. destruct (Z.leb_spec 0 n); simpl.
    - rewrite u32_small by (unfold is_u32; lia). lia.
    - assert (u32 n = n + 2 ^ 32) as -> by solve_word. lia. }
  split_and!.
  - unfold string_get. rewrite Long_val_is_long by done. simpl. rewrite (out_of_string_at _ _ _ _ Hs Hi). simpl.
    destruct (at_index s i) eqn:E; [|done]. by rewrite (Byte_u_at _ _ _ _ _ Hs E).
  - unfold string_set, Int_val. rewrite !Long_val_is_long by done. cbn [rbind]. rewrite (out_of_string_at _ _ _ _ Hs Hi). cbn [rbind].
    destruct (at_index s i) eqn:E; [|done]. apply at_index_in in E as [? _].
    by rewrite (set_Byte_u_at h b s i c Hs).
  - unfold array_get. rewrite Long_val_is_long by done. simpl. rewrite (out_of_array_at _ _ _ _ Ha Hi). simpl.
    destruct (at_index l i) eqn:E; [|done]. by rewrite (Field_array _ _ _ _ _ Ha E).
  - unfold array_set. rewrite Long_val_is_long by done. simpl. rewrite (out_of_array_at _ _ _ _ Ha Hi). simpl.
    destruct (at_index l i) eqn:E; [|done]. apply at_index_in in E as [Hin _]. destruct Ha as [_ Ha].
    destruct a; try done; [|destruct Ha as [_ ->]; simpl in Hin; lia]. simpl. rewrite Ha. simpl.
    by assert ((0 <=? i) && (i <? Z.of_nat (length l)) = true) as -> by lia.
  - unfold create_string. rewrite Long_val_is_long by done. cbn [rbind]. rewrite Hsize by done.
    destruct ((0 <=? n) && _) eqn:E; simpl; [|done]. rewrite u32_small by (unfold is_u32, Max_wosize in *; lia).
    by rewrite alloc_string_eq by lia.
  - unfold make_vect. rewrite Long_val_is_long by done. cbn [rbind]. rewrite Hsize by done.
    destruct ((0 <=? n) && _) eqn:E; simpl; [|done]. rewrite u32_small by (unfold is_u32, Max_wosize in *; lia).
    by destruct (n =? 0).
Qed.
Lemma accesses_checked_witness : let h := {[0%nat := string_block [104; 105]; 1%nat := mkBlock 0 (Fields [Val_long 5])]} in
  string_get (Ptr 0) (Val_long 1) h = returns (Val_long 105) h /\
  string_get (Ptr 0) (Val_long 2) h = raises (Invalid_argument "String.get") /\
  array_get (Ptr 1) (Val_long (-1)) h = raises (Invalid_argument "Array.get").
Proof.
  intros h. assert (string_at h 0 [104; 105]) as Hs.
  { split; [done|]. split; [repeat constructor; done|done]. }
  assert (array_at h (Ptr 1) [Val_long 5]) as Ha by done.
  split; [|split].
  - apply (accesses_checked h 0 _ (Ptr 1) _ 1 0 0 (Val_long 0) Hs Ha); by split.
  - apply (accesses_checked h 0 _ (Ptr 1) _ 2 0 0 (Val_long 0) Hs Ha); by split.
  - apply (accesses_checked h 0 _ (Ptr 1) _ (-1) 0 0 (Val_long 0) Hs Ha); by split.
Defined.

(** ** Copying and filling *)

(** [l] in place of the elements of [t] from [o] on. *)
Definition splice (o : nat) (l t : list Z) : list Z := take o t ++ l ++ drop (o + length l) t.
Lemma length_splice o l t : (o + length l <= length t)%nat -> length (splice o l t) = length t.
Proof. intros H. unfold splice. rewrite !length_app, length_take, length_drop. lia. Qed.
Lemma read_bytes_ok h b s n : forall o, string_at h b s -> (o + n <= length s)%nat ->
  read_bytes n h (Ptr b) (Z.of_nat o) = Ok (take n (drop o s)).
Proof.
  induction n as [|n IH]; intros o Hs Hl; [done|]. destruct (lookup_lt_is_Some_2 s o ltac:(lia)) as [c Hc].
  cbn [read_bytes]. rewrite (Byte_u_at h b s _ c Hs) by (unfold at_index; destruct (Z.ltb_spec (Z.of_nat o) 0); [lia|by rewrite Nat2Z.id]).
  cbn [rbind]. replace (Z.of_nat o + 1) with (Z.of_nat (S o)) by lia. rewrite IH by (done || lia).
  by rewrite (drop_S _ _ _ Hc).
Qed.
Lemma write_bytes_ok l : forall h b t o, string_at h b t -> (o + length l <= length t)%nat ->
  write_bytes l (Ptr b) (Z.of_nat o) h = Ok (<[b := string_block (splice o (u8 <$> l) t)]> h) /\ string_fits (splice o (u8 <$> l) t).
Proof.
  induction l as [|c l IH]; intros h b t o [Hb Ht] Hl.
  - unfold splice. simpl. rewrite Nat.add_0_r, take_drop. split; [|done]. by rewrite insert_id.
  - cbn [write_bytes]. simpl in Hl. rewrite (set_Byte_u_at h b t) by (done || lia). cbn [rbind]. rewrite Nat2Z.id.
    replace (Z.of_nat o + 1) with (Z.of_nat (S o)) by lia.
    destruct (IH (<[b := string_block (<[o := u8 c]> t)]> h) b (<[o := u8 c]> t) (S o)) as [-> Hf].
    + split; [apply lookup_insert_eq|by apply insert_fits].
    + rewrite length_insert. lia.
    + rewrite insert_insert_eq.
      assert (splice (S o) (u8 <$> l) (<[o := u8 c]> t) = splice o (u8 <$> c :: l) t) as E.
      { unfold splice. rewrite fmap_cons. cbn [length]. rewrite !length_fmap. rewrite (take_S_r _ _ (u8 c)) by (apply list_lookup_insert_eq; lia).
        rewrite take_insert_ge by lia. rewrite drop_insert_lt by lia. rewrite <-app_assoc. simpl. by rewrite Nat.add_succ_r. }
      by rewrite E in *.
Qed.
Lemma bytes_u8 l : Forall is_byte l -> u8 <$> l = l.
Proof. induction 1 as [|c l Hc _ IH]; [done|]. rewrite fmap_cons, IH. f_equal. by apply Z.mod_small. Qed.

(** Two strings are equal for [string_equal] exactly when they have the same bytes; [blit_string]
    replaces bytes of a string by bytes of another one, or of the same one even when the two ranges overlap,
    and [fill_string] by one byte; the rest of the string stays. *)
Theorem strings_compared_and_moved h a b s t (o1 o2 n : nat) c : string_at h a s -> string_at h b t ->
  (o1 + n <= length s)%nat -> (o2 + n <= length t)%nat -> is_long c ->
  string_equal (Ptr a) (Ptr b) h = Ok (Val_bool (bool_decide (s = t))) /\
  string_notequal (Ptr a) (Ptr b) h = Ok (Val_bool (bool_decide (s <> t))) /\
  blit_string (Ptr a) (Val_long (Z.of_nat o1)) (Ptr b) (Val_long (Z.of_nat o2)) (Val_long (Z.of_nat n)) h =
    returns Val_unit (<[b := string_block (splice o2 (take n (drop o1 s)) t)]> h) /\
  fill_string (Ptr b) (Val_long (Z.of_nat o2)) (Val_long (Z.of_nat n)) (Val_long c) h =
    returns Val_unit (<[b := string_block (splice o2 (replicate n (u8 c)) t)]> h).
Proof.
  intros Hs Ht H1 H2 Hc.
  assert (forall k s', string_fits s' -> (k <= length s')%nat -> is_long (Z.of_nat k)) as Hlong.
  { intros k s' [_ Hl] Hk. unfold is_long, Min_long, Max_long, Max_wosize in *. lia. }
  pose proof (Hlong o1 s (proj2 Hs) ltac:(lia)) as L1. pose proof (Hlong o2 t (proj2 Ht) ltac:(lia)) as L2.
  pose proof (Hlong n s (proj2 Hs) ltac:(lia)) as Ln.
  assert (u32 (Z.of_nat n) = Z.of_nat n) as Hn by (apply u32_small; unfold is_u32, is_long, Max_long in *; lia).
  split_and!.
  - by apply string_equal_at.
  - unfold string_notequal. rewrite (string_equal_at _ _ _ _ _ Hs Ht). case_bool_decide as E1; case_bool_decide as E2; done.
  - unfold blit_string, Int_val. rewrite !Long_val_is_long by done. cbn [rbind]. rewrite Hn, Nat2Z.id, (read_bytes_ok _ _ _ _ _ Hs H1). cbn [rbind].
    assert (length (take n (drop o1 s)) = n) as Hlen by (rewrite length_take, length_drop; lia).
    destruct (write_bytes_ok (take n (drop o1 s)) h b t o2 Ht) as [-> _]; [lia|]. rewrite bytes_u8; [done|].
    apply Forall_take, Forall_drop. apply Hs.
  - unfold fill_string. rewrite !Long_val_is_long by done. cbn [rbind]. rewrite Hn, Nat2Z.id.
    destruct (write_bytes_ok (replicate n c) h b t o2 Ht) as [-> _]; [by rewrite length_replicate|]. by rewrite fmap_replicate.
Qed.
Lemma strings_compared_and_moved_witness : let h := {[0%nat := string_block [104; 101; 108; 108; 111]]} in
  blit_string (Ptr 0) (Val_long 0) (Ptr 0) (Val_long 1) (Val_long 4) h = returns Val_unit (<[0%nat := string_block [104; 104; 101; 108; 108]]> h).
Proof.
  intros h. assert (string_at h 0 [104; 101; 108; 108; 111]) as Hs by (split; [done|]; split; [repeat constructor; done|done]).
  apply (strings_compared_and_moved h 0 0 _ _ 0 1 4 0 Hs Hs); [simpl; lia..|by split].
Defined.
