(* ===== verification/PrimTypes.v ===== *)
(** * Type soundness of the primitives of str.c, array.c, ints.c and obj.c

    OCaml types for the values that the primitives take and return, as a typing of the
    heap: [Σ] gives a type to the name of every block the program can see.  A block may be
    changed, but keeps its type; a new block has a new name. *)
From stdpp Require Import gmap list strings.
From S2P Require Import Prelude Mlvalues Intext Primitives.

(** ** Types *)

Inductive ty := TInt | TUnit | TBool | TChar | TString | TArray (t : ty).
#[export] Instance ty_eq_dec : EqDecision ty.
Proof. solve_decision. Defined.
Abbreviation heap_ty := (gmap nat ty).

Definition has_type (Σ : heap_ty) (t : ty) (v : value) : Prop :=
  match t with
  | TInt => exists n, is_long n /\ v = Val_long n
  | TUnit => v = Val_unit
  | TBool => exists b, v = Val_bool b
  | TChar => exists c, is_byte c /\ v = Val_long c
  | TString => exists b, v = Ptr b /\ Σ !! b = Some TString
  | TArray t => v = Atom 0 \/ exists b, v = Ptr b /\ Σ !! b = Some (TArray t)
  end.
Definition block_ok (Σ : heap_ty) (t : ty) (blk : block) : Prop :=
  match t with
  | TString => exists s, blk = string_block s /\ string_fits s
  | TArray t => exists l, blk = mkBlock 0 (Fields l) /\ Z.of_nat (length l) <= Max_wosize /\ Forall (has_type Σ t) l
  | _ => False
  end.
Definition heap_ok (Σ : heap_ty) (h : heap_t) : Prop := forall b t, Σ !! b = Some t -> exists blk, h !! b = Some blk /\ block_ok Σ t blk.

(** ** The primitives and their types *)

Inductive prim :=
  | P_string_length | P_create_string | P_string_get | P_string_set | P_string_equal | P_string_notequal | P_is_printable
  | P_array_get | P_array_set | P_make_vect | P_obj_is_block | P_int_of_string.
Definition pure (r : result value) (h : heap_t) : result outcome := let* v := r in returns v h.
Definition call (p : prim) (args : list value) (h : heap_t) : result outcome :=
  match p, args with
  | P_string_length, [s] => pure (ml_string_length h s) h
  | P_create_string, [n] => create_string n h
  | P_string_get, [s; i] => string_get s i h
  | P_string_set, [s; i; c] => string_set s i c h
  | P_string_equal, [s; t] => pure (string_equal s t h) h
  | P_string_notequal, [s; t] => pure (string_notequal s t h) h
  | P_is_printable, [c] => pure (is_printable c) h
  | P_array_get, [a; i] => array_get a i h
  | P_array_set, [a; i; v] => array_set a i v h
  | P_make_vect, [n; v] => make_vect n v h
  | P_obj_is_block, [v] => returns (obj_is_block v) h
  | P_int_of_string, [s] => let* r := int_of_string s h in match r with inl v => returns v h | inr e => raises e end
  | _, _ => Fault
  end.
Inductive signature : prim -> list ty -> ty -> Prop :=
  | s_string_length : signature P_string_length [TString] TInt
  | s_create_string : signature P_create_string [TInt] TString
  | s_string_get : signature P_string_get [TString; TInt] TChar
  | s_string_set : signature P_string_set [TString; TInt; TChar] TUnit
  | s_string_equal : signature P_string_equal [TString; TString] TBool
  | s_string_notequal : signature P_string_notequal [TString; TString] TBool
  | s_is_printable : signature P_is_printable [TChar] TBool
  | s_array_get t : signature P_array_get [TArray t; TInt] t
  | s_array_set t : signature P_array_set [TArray t; TInt; t] TUnit
  | s_make_vect t : signature P_make_vect [TInt; t] (TArray t)
  | s_obj_is_block t : signature P_obj_is_block [t] TBool
  | s_int_of_string : signature P_int_of_string [TString] TInt.

(** Calls one after the other; each names its arguments by their place among the values computed so far. *)
Fixpoint calls (prog : list (prim * list nat)) (env : list value) (h : heap_t) : result (list value * heap_t + ml_exn) :=
  match prog with
  | [] => Ok (inl (env, h))
  | (p, js) :: prog =>
      let* args := of_ptr (mapM (fun i => env !! i) js) in
      let* r := call p args h in
      match r with inl (v, h) => calls prog (env ++ [v]) h | inr e => Ok (inr e) end
  end.
Inductive well_typed : list ty -> list (prim * list nat) -> list ty -> Prop :=
  | wt_nil G : well_typed G [] G
  | wt_cons G p js ts t prog G' : mapM (fun i => G !! i) js = Some ts -> signature p ts t ->
      well_typed (G ++ [t]) prog G' -> well_typed G ((p, js) :: prog) G'.

(** ** Lemmas *)

Lemma has_type_mono Σ Σ' t v : Σ ⊆ Σ' -> has_type Σ t v -> has_type Σ' t v.
Proof.
  intros H. destruct t; simpl; try done.
  - intros (b & -> & Hb). exists b. split; [done|]. by eapply lookup_weaken.
  - intros [->|(b & -> & Hb)]; [by left|right]. exists b. split; [done|]. by eapply lookup_weaken.
Qed.
Lemma block_ok_mono Σ Σ' t blk : Σ ⊆ Σ' -> block_ok Σ t blk -> block_ok Σ' t blk.
Proof.
  intros H. destruct t; simpl; try done. intros (l & -> & Hl & Hf). exists l. split_and!; [done..|].
  eapply Forall_impl; [exact Hf|]. intros v. by apply has_type_mono.
Qed.
Lemma heap_ok_alloc Σ h t blk : heap_ok Σ h -> block_ok Σ t blk ->
  let k := fresh (dom h) in Σ ⊆ <[k := t]> Σ /\ heap_ok (<[k := t]> Σ) (<[k := blk]> h).
Proof.
  intros Hh Hb k.
  assert (Σ !! k = None) as Hk.
  { destruct (Σ !! k) as [t'|] eqn:E; [|done]. destruct (Hh _ _ E) as (blk' & Hk & _). pose proof (lookup_fresh h) as Hf. fold k in Hf. congruence. }
  assert (Σ ⊆ <[k := t]> Σ) as Hs by (by apply insert_subseteq). split; [done|].
  intros b t' Hbt. apply lookup_insert_Some in Hbt as [[<- <-]|[Hne Hbt]].
  - exists blk. split; [apply lookup_insert_eq|by eapply block_ok_mono].
  - destruct (Hh _ _ Hbt) as (blk' & Hb' & Hok). exists blk'. split; [by rewrite lookup_insert_ne|by eapply block_ok_mono].
Qed.
Lemma heap_ok_update Σ h b t blk : heap_ok Σ h -> Σ !! b = Some t -> block_ok Σ t blk -> heap_ok Σ (<[b := blk]> h).
Proof.
  intros Hh Hb Hok c t' Hc. destruct (decide (b = c)) as [<-|].
  - rewrite Hb in Hc. injection Hc as <-. exists blk. by rewrite lookup_insert_eq.
  - destruct (Hh _ _ Hc) as (blk' & Hc' & ?). exists blk'. by rewrite lookup_insert_ne.
Qed.
Lemma typed_string Σ h v : heap_ok Σ h -> has_type Σ TString v -> exists b s, v = Ptr b /\ Σ !! b = Some TString /\ string_at h b s.
Proof. intros Hh (b & -> & Hb). destruct (Hh _ _ Hb) as (blk & Hb' & s & -> & Hs). by exists b, s. Qed.
Lemma typed_array Σ h t v : heap_ok Σ h -> has_type Σ (TArray t) v ->
  exists l, array_at h v l /\ Forall (has_type Σ t) l /\ forall b, v = Ptr b -> Σ !! b = Some (TArray t).
Proof.
  intros Hh [->|(b & -> & Hb)].
  - exists []. split_and!; [by split|done|by intros b].
  - destruct (Hh _ _ Hb) as (blk & Hb' & l & -> & Hl & Hf). exists l. split_and!; [by split|done|]. by intros c [= <-].
Qed.
Lemma byte_long c : is_byte c -> is_long c.
Proof. unfold is_byte, is_long, Min_long, Max_long. lia. Qed.
Lemma string_length_prim h b s : string_at h b s -> ml_string_length h (Ptr b) = Ok (Val_long (Z.of_nat (length s))).
Proof.
  intros Hs. pose proof (string_length_at _ _ _ Hs) as Hl. unfold string_length, ml_string_length in *. inv_ok Hl.
  rewrite Hstep. cbn [rbind]. rewrite Hstep0. cbn [rbind]. rewrite Val_long_eq, (Val_long_eq (Z.of_nat (length s))). do 2 f_equal.
  rewrite <-H. unfold u32. rewrite Zplus_mod, Zmult_mod. rewrite (Zplus_mod (2 * _)), (Zmult_mod 2 (_ mod _)), Zmod_mod. done.
Qed.
#[local] Instance result_eq_dec : EqDecision (result value).
Proof. solve_decision. Defined.
Lemma is_printable_eq c : is_byte c -> is_printable (Val_long c) = Ok (Val_bool ((0x20 <=? c) && (c <=? 0x7E))).
Proof.
  intros Hc.
  assert (forallb (fun c => bool_decide (is_printable (Val_long c) = Ok (Val_bool ((0x20 <=? c) && (c <=? 0x7E))))) (seqZ 0 256) = true) as H by (vm_compute; reflexivity).
  rewrite forallb_forall in H. specialize (H c). eapply bool_decide_eq_true_1, H. apply list_elem_of_In, elem_of_seqZ. unfold is_byte in Hc. lia.
Qed.

(** ** Soundness *)

(** What a call may do: return a value of its type in a well-typed heap, or raise; never fault. *)
Definition sound (Σ : heap_ty) (t : ty) (r : result outcome) : Prop :=
  match r with
  | Ok (inl (v, h')) => exists Σ', Σ ⊆ Σ' /\ heap_ok Σ' h' /\ has_type Σ' t v
  | Ok (inr e) => exists m, e = Failwith m \/ e = Invalid_argument m
  | _ => False
  end.
Lemma sound_returns Σ h t v : heap_ok Σ h -> has_type Σ t v -> sound Σ t (returns v h).
Proof. intros Hh Hv. by exists Σ. Qed.
Lemma sound_raises Σ t m : sound Σ t (raises (Invalid_argument m)).
Proof. exists m. by right. Qed.
Lemma sound_alloc Σ h t t' blk v : heap_ok Σ h -> block_ok Σ t blk -> v = Ptr (fresh (dom h)) ->
  (forall Σ', Σ' !! fresh (dom h) = Some t -> has_type Σ' t' v) -> sound Σ t' (returns v (<[fresh (dom h) := blk]> h)).
Proof.
  intros Hh Hb -> Hv. destruct (heap_ok_alloc _ _ _ _ Hh Hb) as [Hs Hh']. eexists. split_and!; [exact Hs|exact Hh'|].
  apply Hv. apply lookup_insert_eq.
Qed.

Section calls.
Context (Σ : heap_ty) (h : heap_t) (Hh : heap_ok Σ h).

Lemma create_string_sound n : is_long n -> sound Σ TString (create_string (Val_long n) h).
Proof.
  intros Hn. unfold create_string. rewrite Long_val_is_long by done. cbn [rbind]. destruct (u32 n >? 4 * Max_wosize - 1) eqn:E; [apply sound_raises|].
  assert (0 <= n <= 4 * Max_wosize - 1) as Hr by (unfold is_long, Min_long, Max_long, Max_wosize in *; unfold_words; zlia).
  rewrite u32_small by (unfold is_u32, Max_wosize in *; lia). rewrite alloc_string_eq by done. cbn [rbind alloc].
  eapply sound_alloc; [done| |done|by intros ? ?; eexists].
  eexists. split; [done|]. split; [apply Forall_replicate; by unfold is_byte|]. rewrite length_replicate. lia.
Qed.
Lemma string_get_sound b s i : string_at h b s -> is_long i -> sound Σ TChar (string_get (Ptr b) (Val_long i) h).
Proof.
  intros Hs Hi. unfold string_get. rewrite Long_val_is_long by done. cbn [rbind]. rewrite (out_of_string_at _ _ _ _ Hs Hi). cbn [rbind].
  destruct (at_index s i) as [c|] eqn:E; [|apply sound_raises]. rewrite (Byte_u_at _ _ _ _ _ Hs E). cbn [rbind].
  apply sound_returns; [done|]. exists c. split; [|done]. apply at_index_in in E as [_ E]. destruct Hs as [_ [Hf _]].
  by eapply Forall_lookup_1.
Qed.
Lemma string_set_sound b s i c : Σ !! b = Some TString -> string_at h b s -> is_long i -> is_long c ->
  sound Σ TUnit (string_set (Ptr b) (Val_long i) (Val_long c) h).
Proof.
  intros Hb Hs Hi Hc. unfold string_set, Int_val. rewrite !Long_val_is_long by done. cbn [rbind]. rewrite (out_of_string_at _ _ _ _ Hs Hi). cbn [rbind].
  destruct (at_index s i) as [x|] eqn:E; [|apply sound_raises]. apply at_index_in in E as [E _]. rewrite (set_Byte_u_at _ _ _ _ _ Hs E). cbn [rbind].
  apply sound_returns; [|done]. eapply heap_ok_update; [done..|]. eexists. split; [done|]. apply insert_fits, Hs.
Qed.
Lemma array_get_sound t a l i : array_at h a l -> Forall (has_type Σ t) l -> is_long i -> sound Σ t (array_get a (Val_long i) h).
Proof.
  intros Ha Hf Hi. unfold array_get. rewrite Long_val_is_long by done. cbn [rbind]. rewrite (out_of_array_at _ _ _ _ Ha Hi). cbn [rbind].
  destruct (at_index l i) as [v|] eqn:E; [|apply sound_raises]. rewrite (Field_array _ _ _ _ _ Ha E). cbn [rbind].
  apply sound_returns; [done|]. apply at_index_in in E as [_ E]. by eapply Forall_lookup_1.
Qed.
Lemma array_set_sound t a l i v : array_at h a l -> Forall (has_type Σ t) l -> (forall b, a = Ptr b -> Σ !! b = Some (TArray t)) ->
  is_long i -> has_type Σ t v -> sound Σ TUnit (array_set a (Val_long i) v h).
Proof.
  intros Ha Hf Hb Hi Hv. unfold array_set. rewrite Long_val_is_long by done. cbn [rbind]. rewrite (out_of_array_at _ _ _ _ Ha Hi). cbn [rbind].
  destruct (at_index l i) as [x|] eqn:E; [|apply sound_raises]. apply at_index_in in E as [E _]. destruct Ha as [Hl Ha].
  destruct a as [|b|t'| |]; try done; [|by destruct Ha as [_ ->]; simpl in E; lia]. simpl. rewrite Ha. simpl.
  assert ((0 <=? i) && (i <? Z.of_nat (length l)) = true) as -> by lia. cbn [rbind].
  apply sound_returns; [|done]. eapply heap_ok_update; [done|by apply Hb|]. eexists. split; [done|].
  rewrite length_insert. split; [done|]. by apply Forall_insert.
Qed.
Lemma make_vect_sound t n v : is_long n -> has_type Σ t v -> sound Σ (TArray t) (make_vect (Val_long n) v h).
Proof.
  intros Hn Hv. unfold make_vect. rewrite Long_val_is_long by done. cbn [rbind]. destruct (u32 n >? Max_wosize) eqn:E; [apply sound_raises|].
  destruct (u32 n =? 0); [apply sound_returns; [done|by left]|]. cbn [alloc].
  eapply sound_alloc; [done| |done|intros ? ?; right; by eexists]. eexists. split; [done|].
  rewrite length_replicate. split; [pose proof (u32_range n); unfold is_u32 in *; lia|]. by apply Forall_replicate.
Qed.
Lemma int_of_string_sound b s : string_at h b s ->
  sound Σ TInt (let* r := int_of_string (Ptr b) h in match r with inl v => returns v h | inr e => raises e end).
Proof.
  intros Hs. rewrite (int_of_string_at _ _ _ Hs). destruct (literal (c_text s)) as [n|]; cbn [rbind]; [|eexists; by left].
  apply sound_returns; [done|]. exists (wrap31 n). split; [apply wrap31_range|]. by rewrite Val_long_wrap.
Qed.
Lemma call_sound p ts t args : signature p ts t -> Forall2 (has_type Σ) ts args -> sound Σ t (call p args h).
Proof.
  intros Hp Ha. destruct Hp; repeat (apply Forall2_cons_inv_l in Ha as (? & ? & ? & Ha & ->)); apply Forall2_nil_inv_l in Ha as ->;
    repeat match goal with
    | H : has_type Σ TString ?v |- _ => destruct (typed_string _ _ _ Hh H) as (? & ? & -> & ? & ?); clear H
    | H : has_type Σ (TArray _) ?v |- _ => destruct (typed_array _ _ _ _ Hh H) as (? & ? & ? & ?); clear H
    | H : has_type Σ TInt ?v |- _ => destruct H as (? & ? & ->)
    | H : has_type Σ TChar ?v |- _ => destruct H as (? & ? & ->)
    end; cbn [call].
  - erewrite string_length_prim by done. apply sound_returns; [done|]. eexists. split; [|done].
    match goal with H : string_at _ _ _ |- _ => destruct H as [_ [_ ?]] end. unfold is_long, Min_long, Max_long, Max_wosize in *. lia.
  - by apply create_string_sound.
  - by eapply string_get_sound.
  - eapply string_set_sound; try done. by apply byte_long.
  - erewrite string_equal_at by done. apply sound_returns; [done|by eexists].
  - unfold string_notequal. erewrite string_equal_at by done. cbn [rbind]. case_bool_decide; (apply sound_returns; [done|]); [by exists false|by exists true].
  - rewrite is_printable_eq by done. apply sound_returns; [done|by eexists].
  - by eapply array_get_sound.
  - by eapply array_set_sound.
  - by apply make_vect_sound.
  - apply sound_returns; [done|]. by eexists.
  - by eapply int_of_string_sound.
Qed.
End calls.

(** C33: the primitives keep their OCaml types: a program that calls them with arguments of the types of their signatures,
    in a heap whose blocks have the types they were allocated with, never faults; it ends with values of
    the types it computes in such a heap, where blocks keep their types, or raises [Invalid_argument] or [Failure]. *)
Theorem primitives_typed prog : forall Σ h G G' env, heap_ok Σ h -> well_typed G prog G' -> Forall2 (has_type Σ) G env ->
  match calls prog env h with
  | Ok (inl (env', h')) => exists Σ', Σ ⊆ Σ' /\ heap_ok Σ' h' /\ Forall2 (has_type Σ') G' env'
  | Ok (inr e) => exists m, e = Failwith m \/ e = Invalid_argument m
  | _ => False
  end.
Proof.
  induction prog as [|[p js] prog IH]; intros Σ h G G' env Hh Hp Henv; inversion Hp as [|? ? ? ? ? ? ? Hjs Hsig Hrest]; subst; cbn [calls]; [by exists Σ|].
  assert (exists args, mapM (fun i => env !! i) js = Some args /\ Forall2 (has_type Σ) ts args) as (args & -> & Hargs).
  { clear -Hjs Henv. revert ts Hjs. induction js as [|i js IH]; intros ts H; simpl in H |- *; [injection H as <-; by exists []|].
    destruct (G !! i) as [t|] eqn:Hi; [|done]. simpl in H. destruct (mapM (fun i => G !! i) js) as [ts'|]; [|done]. injection H as <-.
    destruct (IH ts' eq_refl) as (args & -> & Ha). destruct (Forall2_lookup_l _ _ _ _ _ Henv Hi) as (v & -> & Hv).
    exists (v :: args). split; [done|]. by constructor. }
  cbn [of_ptr rbind]. pose proof (call_sound Σ h Hh _ _ _ _ Hsig Hargs) as Hs. unfold sound in Hs.
  destruct (call p args h) as [[[v h']|e]| | |]; try done. destruct Hs as (Σ' & Hsub & Hh' & Hv). cbn [rbind].
  assert (Forall2 (has_type Σ') (G ++ [t]) (env ++ [v])) as Henv'.
  { apply Forall2_app; [|by constructor]. eapply Forall2_impl; [exact Henv|]. intros. by eapply has_type_mono. }
  specialize (IH Σ' h' _ _ _ Hh' Hrest Henv'). destruct (calls prog (env ++ [v]) h') as [[[env' h'']|e]| | |]; try done.
  destruct IH as (Σ'' & ? & ? & ?). exists Σ''. split_and!; [by etrans|done..].
Qed.
(** An array of three strings; one of them is read back and changed. *)
Lemma primitives_typed_witness :
  match calls [(P_create_string, [0%nat]); (P_make_vect, [0%nat; 1%nat]); (P_array_get, [2%nat; 0%nat])] [Val_long 3] ∅ with
  | Ok (inl (env', h')) => exists Σ', (∅ : heap_ty) ⊆ Σ' /\ heap_ok Σ' h' /\ Forall2 (has_type Σ') [TInt; TString; TArray TString; TString] env'
  | Ok (inr e) => exists m, e = Failwith m \/ e = Invalid_argument m
  | _ => False
  end.
Proof.
  apply (primitives_typed _ ∅ ∅ [TInt]).
  - intros b t H. by rewrite lookup_empty in H.
  - eapply wt_cons; [reflexivity|constructor|]. eapply wt_cons; [reflexivity|constructor|]. eapply wt_cons; [reflexivity|constructor|]. constructor.
  - constructor; [|constructor]. exists 3. split; [by split|done].
Defined.
