(* ===== verification/Fmt.v ===== *)
(** * Formatted output: kernel/Libc/fmt/

    dofmt.c, fmt.c, fmtquote.c, fmtfd.c, vfprint.c, vsnprint.c, vseprint.c, sprint.c, snprint.c, fprint.c,
    fmtvprint.c, fmtprint.c.  A [Fmt] and the memory it works on are one state [st]; the arguments are the words of the [va_list].
    The only flush function of the library is [_fmtFdFlush]; [flush] tells whether the [Fmt] has it.
    [wrote] is the bytes that were handed to [write], one call after the other; what [write] does with them is not part of the model,
    and its result only matters by the test [write(...) != n]: [write_ok] says whether a call with some bytes returns their number
    after others were handed over.  [user] is what conversions installed by other code do, [doquote] the predicate that programs may set.
    Output buffers of runes ([f->runes]), which nothing in this kernel makes, are left out.

    A macro or a loop that may run out of room returns [None] when the flush failed; the caller then
    returns -1. *)
From stdpp Require Import gmap.
From S2P Require Import Prelude Memory Rune Cstring.

(** ** State *)

Definition FmtWidth : Z := 1.
Definition FmtLeft : Z := Z.shiftl FmtWidth 1.
Definition FmtPrec : Z := Z.shiftl FmtLeft 1.
Definition FmtSharp : Z := Z.shiftl FmtPrec 1.
Definition FmtSpace : Z := Z.shiftl FmtSharp 1.
Definition FmtSign : Z := Z.shiftl FmtSpace 1.
Definition FmtZero : Z := Z.shiftl FmtSign 1.
Definition FmtUnsigned : Z := Z.shiftl FmtZero 1.
Definition FmtShort : Z := Z.shiftl FmtUnsigned 1.
Definition FmtLong : Z := Z.shiftl FmtShort 1.
Definition FmtVLong : Z := Z.shiftl FmtLong 1.
Definition FmtComma : Z := Z.shiftl FmtVLong 1.
Definition FmtByte : Z := Z.shiftl FmtComma 1.
Definition has (fl f : Z) : bool := negb (Z.land fl f =? 0).

(** The functions of the table of conversions. *)
Inductive Fmts := F_flag | F_percent | F_rune | F_efg | F_runes | F_int | F_char | F_count | F_err | F_str | F_bad | F_quotestr | F_quoterune | F_user (k : nat).
Inductive arg := A32 (w : Z) | A64 (w : Z).
Record st := mkSt { to : Z; stop : Z; start : Z; nfmt : Z; flush : bool; args : list arg;
  fr : Z; width : Z; prec : Z; flags : Z; smem : mem; wrote : list Z; table : list (Z * Fmts) }.
Definition set_to x s := mkSt x (stop s) (start s) (nfmt s) (flush s) (args s) (fr s) (width s) (prec s) (flags s) (smem s) (wrote s) (table s).
Definition set_stop x s := mkSt (to s) x (start s) (nfmt s) (flush s) (args s) (fr s) (width s) (prec s) (flags s) (smem s) (wrote s) (table s).
Definition set_nfmt x s := mkSt (to s) (stop s) (start s) x (flush s) (args s) (fr s) (width s) (prec s) (flags s) (smem s) (wrote s) (table s).
Definition set_args x s := mkSt (to s) (stop s) (start s) (nfmt s) (flush s) x (fr s) (width s) (prec s) (flags s) (smem s) (wrote s) (table s).
Definition set_spec r w p fl s := mkSt (to s) (stop s) (start s) (nfmt s) (flush s) (args s) r w p fl (smem s) (wrote s) (table s).
Definition set_mem x s := mkSt (to s) (stop s) (start s) (nfmt s) (flush s) (args s) (fr s) (width s) (prec s) (flags s) x (wrote s) (table s).
Definition set_wrote x s := mkSt (to s) (stop s) (start s) (nfmt s) (flush s) (args s) (fr s) (width s) (prec s) (flags s) (smem s) x (table s).
Definition set_table x s := mkSt (to s) (stop s) (start s) (nfmt s) (flush s) (args s) (fr s) (width s) (prec s) (flags s) (smem s) (wrote s) x.
Definition set_prec p s := set_spec (fr s) (width s) p (flags s) s.
Definition set_flags fl s := set_spec (fr s) (width s) (prec s) fl s.

Definition va_arg32 (s : st) : result (Z * st) :=
  match args s with A32 w :: l => Ok (w, set_args l s) | _ => Fault end.
Definition va_arg64 (s : st) : result (Z * st) :=
  match args s with A64 w :: l => Ok (w, set_args l s) | _ => Fault end.

(** A [Rune] in memory, and one stored as bytes. *)
Definition get_rune (m : mem) (p : Z) : result Z :=
  let* b0 := get m p in let* b1 := get m (p + 1) in let* b2 := get m (p + 2) in let* b3 := get m (p + 3) in
  Ok (b0 + 256 * (b1 + 256 * (b2 + 256 * b3))).
Fixpoint put_all (m : mem) (p : Z) (l : list Z) : result mem :=
  match l with [] => Ok m | b :: l => let* m := put m p b in put_all m (p + 1) l end.

Section fmt.
Variable write_ok : list Z -> list Z -> bool.
Variable user : nat -> st -> result (Z * st).
Variable doquote : Z -> bool.

(** ** The buffer *)

Definition _fmtFdFlush (f : st) : result (bool * st) :=
  let n := to f - start f in
  if n =? 0 then Ok (true, set_to (start f) f)
  else
    let* l := load (smem f) (start f) n in
    let f' := set_wrote (wrote f ++ l) f in
    if write_ok (wrote f) l then Ok (true, set_to (start f) f') else Ok (false, f').
Definition _fmtflush (f : st) (t len : Z) : result (option Z * st) :=
  let f := set_to t (set_nfmt (nfmt f + (t - to f)) f) in
  if flush f then
    let* (b, f) := _fmtFdFlush f in
    if negb b || (to f + len >? stop f) then Ok (None, set_stop (to f) f) else Ok (Some (to f), f)
  else Ok (None, set_stop (to f) f).
(** The test of the macros; [t] and [s] are local copies of [f->to] and [f->stop]. *)
Definition room (full : bool) (f : st) (t s len : Z) : result (option (Z * Z) * st) :=
  if full then
    let* (o, f) := _fmtflush f t len in
    Ok (match o with Some t => Some (t, stop f) | None => None end, f)
  else Ok (Some (t, s), f).
Definition store (l : list Z) (r : option (Z * Z) * st) : result (option (Z * Z) * st) :=
  match r with
  | (Some (t, s), f) => let* m := put_all (smem f) t l in Ok (Some (t + Z.of_nat (length l), s), set_mem m f)
  | (None, f) => Ok (None, f)
  end.
Definition FMTCHAR (f : st) (t s c : Z) : result (option (Z * Z) * st) :=
  let* r := room (t + 1 >? s) f t s 1 in store [u8 c] r.
Definition FMTRUNE (f : st) (t s r : Z) : result (option (Z * Z) * st) :=
  let len := Z.of_nat (runelen r) in
  let* o := room ((t + Z.of_nat UTFmax >? s) && (t + len >? s)) f t s len in
  store (if r <? Runeself then [u8 r] else runetochar r) o.
(** The end of a function that used [t]. *)
Definition commit (t : Z) (f : st) : st := set_to t (set_nfmt (nfmt f + (t - to f)) f).
Definition returning (r : option (Z * Z) * st) (k : st -> result (Z * st)) : result (Z * st) :=
  match r with (Some (t, _), f) => k (commit t f) | (None, f) => Ok (-1, f) end.

Fixpoint pad_loop (n : nat) (f : st) (t s : Z) : result (option (Z * Z) * st) :=
  match n with
  | O => Ok (Some (t, s), f)
  | S n =>
      let* (o, f) := FMTCHAR f t s 32 in
      match o with Some (t, s) => pad_loop n f t s | None => Ok (None, f) end
  end.
Definition _fmtpad (f : st) (n : Z) : result (Z * st) :=
  let* r := pad_loop (Z.to_nat n) f (to f) (stop f) in returning r (fun f => Ok (0, f)).

(** [m] holds the bytes from [m] to [me]. *)
Fixpoint cpy_loop (nc : nat) (m : list Z) (f : st) (t s : Z) : result (option (Z * Z) * st) :=
  match nc with
  | O => Ok (Some (t, s), f)
  | S nc =>
      let* c := of_ptr (m !! 0%nat) in
      if c <? Runeself then
        let* (o, f) := FMTRUNE f t s c in
        match o with Some (t, s) => cpy_loop nc (drop 1 m) f t s | None => Ok (None, f) end
      else
        let* full := if (UTFmax <=? length m)%nat then Ok true else fullrune m (Z.of_nat (length m)) in
        if full : bool then
          let* (r, k) := chartorune m in
          let* (o, f) := FMTRUNE f t s r in
          match o with Some (t, s) => cpy_loop nc (drop k m) f t s | None => Ok (None, f) end
        else Ok (Some (t, s), f)
  end.
(** The field: padding on the left, what [body] prints, padding on the right. *)
Definition justified (n : Z) (body : st -> Z -> Z -> result (option (Z * Z) * st)) (f : st) : result (Z * st) :=
  let w := width f in
  let fl := flags f in
  let* (e, f) := if negb (has fl FmtLeft) then _fmtpad f (s32 (w - n)) else Ok (0, f) in
  if e <? 0 then Ok (-1, f)
  else
    let* r := body f (to f) (stop f) in
    returning r (fun f =>
      let* (e, f) := if has fl FmtLeft then _fmtpad f (s32 (w - n)) else Ok (0, f) in
      Ok (if e <? 0 then -1 else 0, f)).
Definition clipped (f : st) (n : Z) : Z := if has (flags f) FmtPrec && (n >? prec f) then prec f else n.
Definition _fmtcpy (f : st) (vm : list Z) (n : Z) : result (Z * st) :=
  let n := clipped f n in justified n (cpy_loop (Z.to_nat n) vm) f.
Fixpoint rcpy_loop (n : nat) (m : list Z) (f : st) (t s : Z) : result (option (Z * Z) * st) :=
  match n with
  | O => Ok (Some (t, s), f)
  | S n =>
      match m with
      | [] => Fault
      | r :: m =>
          let* (o, f) := FMTRUNE f t s r in
          match o with Some (t, s) => rcpy_loop n m f t s | None => Ok (None, f) end
      end
  end.
Definition _fmtrcpy (f : st) (vm : list Z) (n : Z) : result (Z * st) :=
  let n := clipped f n in justified n (rcpy_loop (Z.to_nat n) vm) f.

(** ** Conversions *)

Definition nil_text : list Z := [60; 110; 105; 108; 62].
Definition _charfmt (f : st) : result (Z * st) :=
  let* (c, f) := va_arg32 f in _fmtcpy (set_prec 1 f) [u8 c] 1.
Definition _runefmt (f : st) : result (Z * st) :=
  let* (r, f) := va_arg32 f in _fmtrcpy f [r] 1.
(** The bytes of the first [p] runes of a string, and how many runes there are. *)
Fixpoint prec_loop (fuel : nat) (m : mem) (s p i j : Z) : result (Z * Z) :=
  match fuel with
  | O => Loop
  | S fuel =>
      if j <? p then
        let* c := get m (s + i) in
        if c =? 0 then Ok (i, j)
        else let* (_, k) := chartorune_at m (s + i) in prec_loop fuel m s p (i + Z.of_nat k) (j + 1)
      else Ok (i, j)
  end.
Definition fmtstrcpy (f : st) (s : Z) : result (Z * st) :=
  if s =? 0 then _fmtcpy f nil_text 5
  else if has (flags f) FmtPrec then
    let* (i, j) := prec_loop (turns (smem f)) (smem f) s (prec f) 0 0 in
    let* l := load (smem f) s i in
    _fmtcpy f l j
  else
    let* n := utflen (smem f) s in
    let* sz := strlen (smem f) s in
    let* l := load (smem f) s sz in
    _fmtcpy f l n.
Definition _strfmt (f : st) : result (Z * st) := let* (s, f) := va_arg32 f in fmtstrcpy f s.
(** The runes before the zero, at most [p] of them when there is a precision. *)
Fixpoint runes_loop (fuel : nat) (m : mem) (s : Z) (p : option Z) (n : Z) : result (list Z) :=
  match fuel with
  | O => Loop
  | S fuel =>
      if match p with Some p => n >=? p | None => false end then Ok []
      else
        let* r := get_rune m (s + 4 * n) in
        if r =? 0 then Ok [] else let* l := runes_loop fuel m s p (n + 1) in Ok (r :: l)
  end.
Definition fmtrunestrcpy (f : st) (s : Z) : result (Z * st) :=
  if s =? 0 then _fmtcpy f nil_text 5
  else
    let* l := runes_loop (turns (smem f)) (smem f) s (if has (flags f) FmtPrec then Some (prec f) else None) 0 in
    _fmtrcpy f l (Z.of_nat (length l)).
Definition _runesfmt (f : st) : result (Z * st) := let* (s, f) := va_arg32 f in fmtrunestrcpy f s.
Definition _percentfmt (f : st) : result (Z * st) := _fmtrcpy (set_prec 1 f) [fr f] 1.
Definition _badfmt (f : st) : result (Z * st) :=
  let* (_, f) := _fmtrcpy (set_prec 3 f) [37; fr f; 37] 3 in Ok (0, f).
(** Port/print.c *)
Definition _efgfmt (f : st) : result (Z * st) := Ok (-1, f).
(** [rerrstr] of fakes.c panics. *)
Definition errfmt (f : st) : result (Z * st) := Panic.

Definition Maxintwidth : Z := 1 + 2 + 64 + 64 / 3.
(** [*p-- = c]; the list holds the bytes after [p], to the end of the buffer. *)
Definition push (c : Z) (l : list Z) : result (list Z) :=
  if Z.of_nat (length l) <? Maxintwidth + 1 then Ok (c :: l) else Fault.
(** The argument, as a word of 64 bits ([isv]) or 32. *)
Definition int_arg (f : st) (fl : Z) : result (bool * Z * st) :=
  let uns := has fl FmtUnsigned in
  if has fl FmtVLong then let* (w, f) := va_arg64 f in Ok (true, w, f)
  else
    let* (w, f) := va_arg32 f in
    Ok (false,
        if has fl FmtLong then w
        else if has fl FmtByte then if uns then u8 w else u32 (s8 w)
        else if has fl FmtShort then if uns then u16 w else u32 (s16 w)
        else w, f).
Definition conv_lower : list Z := [48; 49; 50; 51; 52; 53; 54; 55; 56; 57; 97; 98; 99; 100; 101; 102].
Definition conv_upper : list Z := [48; 49; 50; 51; 52; 53; 54; 55; 56; 57; 65; 66; 67; 68; 69; 70].
Definition int_base (r : Z) : option (Z * list Z) :=
  if r =? 100 then Some (10, conv_lower)
  else if r =? 120 then Some (16, conv_lower)
  else if r =? 88 then Some (16, conv_upper)
  else if r =? 98 then Some (2, conv_lower)
  else if r =? 111 then Some (8, conv_lower)
  else None.
Fixpoint digits_loop (fuel : nat) (u base : Z) (conv : list Z) (comma : bool) (n : Z) (l : list Z) : result (Z * list Z) :=
  if u =? 0 then Ok (n, l)
  else
    match fuel with
    | O => Loop
    | S fuel =>
        let* (n, l) := if comma && (n mod 4 =? 3) then let* l := push 44 l in Ok (n + 1, l) else Ok (n, l) in
        let* c := of_ptr (conv !! Z.to_nat (u mod base)) in
        let* l := push c l in
        digits_loop fuel (u / base) base conv comma (n + 1) l
    end.
(** [for(; n < w && p > buf+3; n++)] *)
Fixpoint zeros_loop (fuel : nat) (w n : Z) (l : list Z) : result (Z * list Z) :=
  if (n <? w) && (Maxintwidth - Z.of_nat (length l) >? 3) then
    match fuel with
    | O => Loop
    | S fuel => let* l := push 48 l in zeros_loop fuel w (n + 1) l
    end
  else Ok (n, l).
Definition clear (fl f : Z) : Z := Z.land fl (0xffffffff - f).
(** From the magnitude to the bytes that are printed; the flags are [fl], with [FmtSharp] cleared where the number already begins with a zero. *)
Definition int_bytes (neg : bool) (u base r : Z) (conv : list Z) (fl prec width : Z) : result (Z * list Z) :=
  let* (n, l) := digits_loop 64 u base conv (has fl FmtComma) 0 [] in
  let* (n, l) := if n =? 0 then let* l := push 48 l in Ok (1, l) else Ok (n, l) in
  let* (n, l) := zeros_loop 89 prec n l in
  let n := if neg || has fl (Z.lor FmtSign FmtSpace) then n + 1 else n in
  let* (n, fl) :=
    if has fl FmtSharp then
      if base =? 16 then Ok (n + 2, fl)
      else if base =? 8 then
        let* c := of_ptr (l !! 0%nat) in
        Ok (if c =? 48 then (n, clear fl FmtSharp) else (n + 1, fl))
      else Ok (n, fl)
    else Ok (n, fl) in
  let* (n, l) :=
    if has fl FmtZero && negb (has fl (Z.lor FmtLeft FmtPrec)) then zeros_loop 89 width n l else Ok (n, l) in
  let* l :=
    if has fl FmtSharp then
      let* l := if base =? 16 then push r l else Ok l in
      if (base =? 16) || (base =? 8) then push 48 l else Ok l
    else Ok l in
  let* l := if neg then push 45 l else if has fl FmtSign then push 43 l else if has fl FmtSpace then push 32 l else Ok l in
  Ok (n, l).
(** From the argument on. *)
Definition int_convert (isv : bool) (u fl : Z) (f : st) : result (Z * st) :=
  match int_base (fr f) with
  | None => Ok (-1, f)
  | Some (base, conv) =>
      let signed := if isv then s64 u else s32 u in
      let neg := negb (has fl FmtUnsigned) && (signed <? 0) in
      let u := if neg then if isv then u64 (- signed) else u32 (- signed) else u in
      let* (n, l) := int_bytes neg u base (fr f) conv fl (prec f) (width f) in
      let f := if has fl FmtZero && negb (has fl (Z.lor FmtLeft FmtPrec)) then set_spec (fr f) 0 (prec f) (flags f) f else f in
      let f := set_flags (clear (flags f) FmtPrec) f in
      if Z.of_nat (length l) <? n then Fault else _fmtcpy f (take (Z.to_nat n) l) n
  end.
Definition _ifmt (f : st) : result (Z * st) :=
  if fr f =? 112 then
    let* (w, f) := va_arg32 f in
    int_convert false w (Z.lor (flags f) FmtUnsigned) (set_spec 120 (width f) (prec f) (flags f) f)
  else
    let* (isv, u, f) := int_arg f (flags f) in int_convert isv u (flags f) f.

(** The bytes of a word, the least significant first. *)
Fixpoint le_word (n : nat) (x : Z) : list Z :=
  match n with O => [] | S n => u8 x :: le_word n (x / 256) end.
Definition _countfmt (f : st) : result (Z * st) :=
  let fl := flags f in
  let* (p, f) := va_arg32 f in
  let n := if has fl FmtVLong then 8%nat else if has fl FmtLong then 4%nat else if has fl FmtByte then 1%nat
           else if has fl FmtShort then 2%nat else 4%nat in
  let* m := put_all (smem f) p (le_word n (nfmt f)) in
  Ok (0, set_mem m f).
Definition flag_of (r fl : Z) : Z :=
  if r =? 44 then Z.lor fl FmtComma
  else if r =? 45 then Z.lor fl FmtLeft
  else if r =? 43 then Z.lor fl FmtSign
  else if r =? 35 then Z.lor fl FmtSharp
  else if r =? 32 then Z.lor fl FmtSpace
  else if r =? 117 then Z.lor fl FmtUnsigned
  else if r =? 104 then Z.lor (if has fl FmtShort then Z.lor fl FmtByte else fl) FmtShort
  else if r =? 108 then Z.lor (if has fl FmtLong then Z.lor fl FmtVLong else fl) FmtLong
  else fl.
Definition _flagfmt (f : st) : result (Z * st) := Ok (1, set_flags (flag_of (fr f) (flags f)) f).

(** ** Quoting *)

Record Quoteinfo := mkQuote { quoted : bool; nrunesin : Z; nbytesin : Z; nrunesout : Z; nbytesout : Z }.
(** A string of bytes, or of runes. *)
Inductive source := Chars (p : Z) | Runes (p : Z).
Definition source_next (m : mem) (src : source) : result (Z * Z) :=
  match src with
  | Chars s => let* (c, w) := chartorune_at m s in Ok (c, Z.of_nat w)
  | Runes r => let* c := get_rune m r in Ok (c, Z.of_nat (runelen c))
  end.
Definition source_advance (src : source) (w : Z) : source :=
  match src with Chars s => Chars (s + w) | Runes r => Runes (r + 4) end.
Definition needs_quote (c : Z) : bool := (c <=? 32) || (c =? 39) || doquote c.
(** The loop of [_quotesetup], for output to bytes. *)
Fixpoint quote_loop (fuel : nat) (m : mem) (src : source) (nin nout : Z) (q : Quoteinfo) : result Quoteinfo :=
  match fuel with
  | O => Loop
  | S fuel =>
      if nin =? 0 then Ok q
      else
        let* (c, w) := source_next m src in
        if c =? 0 then Ok q
        else if nbytesout q + w >? nout then Ok q
        else
          let accept q :=
            quote_loop fuel m (source_advance src w) (nin - 1) nout
              (mkQuote (quoted q) (nrunesin q + 1) (nbytesin q + w) (nrunesout q + 1) (nbytesout q + w)) in
          if needs_quote c then
            if negb (quoted q) && (1 + nbytesout q + w + 1 >? nout) then Ok q
            else
              let q := if quoted q then q else mkQuote true (nrunesin q) (nbytesin q) (nrunesout q + 2) (nbytesout q + 2) in
              if c =? 39 then
                if 1 + nbytesout q + w >? nout then Ok q
                else accept (mkQuote (quoted q) (nrunesin q) (nbytesin q) (nrunesout q + 1) (nbytesout q + 1))
              else accept q
          else accept q
  end.
Definition _quotesetup (m : mem) (src : source) (nin nout : Z) (sharp : bool) : result Quoteinfo :=
  let* c0 := match src with Chars s => get m s | Runes r => get_rune m r end in
  if sharp || (nin =? 0) || (c0 =? 0) then
    if nout <? 2 then Ok (mkQuote false 0 0 0 0) else quote_loop (turns m) m src nin nout (mkQuote true 0 0 2 2)
  else quote_loop (turns m) m src nin nout (mkQuote false 0 0 0 0).
(** A rune that is printed, twice if it is a quote. *)
Definition put_quoted (r : Z) (f : st) (t s : Z) : result (option (Z * Z) * st) :=
  let* (o, f) := FMTRUNE f t s r in
  match o with
  | Some (t, s) => if r =? 39 then FMTRUNE f t s r else Ok (Some (t, s), f)
  | None => Ok (None, f)
  end.
(** The bytes of a string of bytes; of a string of runes, the low byte of each. *)
Fixpoint quoted_chars (nc : nat) (m : list Z) (f : st) (t s : Z) : result (option (Z * Z) * st) :=
  match nc with
  | O => Ok (Some (t, s), f)
  | S nc =>
      let* c := of_ptr (m !! 0%nat) in
      let* full := if c <? Runeself then Ok true
                   else if (UTFmax <=? length m)%nat then Ok true else fullrune m (Z.of_nat (length m)) in
      if full : bool then
        let* (r, k) := if c <? Runeself then Ok (c, 1%nat) else chartorune m in
        let* (o, f) := put_quoted r f t s in
        match o with Some (t, s) => quoted_chars nc (drop k m) f t s | None => Ok (None, f) end
      else Ok (Some (t, s), f)
  end.
Fixpoint quoted_runes (nc : nat) (p : Z) (f : st) (t s : Z) : result (option (Z * Z) * st) :=
  match nc with
  | O => Ok (Some (t, s), f)
  | S nc =>
      let* r := get (smem f) p in
      let* (o, f) := put_quoted r f t s in
      match o with Some (t, s) => quoted_runes nc (p + 4) f t s | None => Ok (None, f) end
  end.
Definition qstr_body (src : source) (l : list Z) (q : Quoteinfo) (f : st) (t s : Z) : result (option (Z * Z) * st) :=
  let* (o, f) := FMTRUNE f t s 39 in
  match o with
  | None => Ok (None, f)
  | Some (t, s) =>
      let* (o, f) := match src with
                     | Chars _ => quoted_chars (Z.to_nat (nrunesin q)) l f t s
                     | Runes p => quoted_runes (Z.to_nat (nrunesin q)) p f t s
                     end in
      match o with Some (t, s) => FMTRUNE f t s 39 | None => Ok (None, f) end
  end.
Definition qstrfmt (src : source) (l : list Z) (q : Quoteinfo) (f : st) : result (Z * st) :=
  justified (nbytesout q) (qstr_body src l q) f.
(** The runes of a string of runes. *)
Fixpoint load_runes (n : nat) (m : mem) (p : Z) : result (list Z) :=
  match n with O => Ok [] | S n => let* r := get_rune m p in let* l := load_runes n m (p + 4) in Ok (r :: l) end.
Definition _quotestrfmt (runesin : bool) (f : st) : result (Z * st) :=
  let nin := if has (flags f) FmtPrec then prec f else -1 in
  let* (p, f) := va_arg32 f in
  if p =? 0 then _fmtcpy f nil_text 5
  else
    let outlen := if flush f then 0x7FFFFFFF else stop f - to f in
    let src := if runesin then Runes p else Chars p in
    let* q := _quotesetup (smem f) src nin outlen (has (flags f) FmtSharp) in
    if runesin then
      if negb (quoted q) then let* l := load_runes (Z.to_nat (nrunesin q)) (smem f) p in _fmtrcpy f l (nrunesin q)
      else qstrfmt src [] q f
    else
      let* l := load (smem f) p (nbytesin q) in
      if negb (quoted q) then _fmtcpy f l (nrunesin q) else qstrfmt src l q f.
Definition quotestrfmt (f : st) : result (Z * st) := _quotestrfmt false f.
Definition quoterunestrfmt (f : st) : result (Z * st) := _quotestrfmt true f.
Definition _needsquotes (m : mem) (s : Z) : result (bool * Z) :=
  let* q := _quotesetup m (Chars s) (-1) 0x7FFFFFFF false in Ok (quoted q, nbytesout q).
Definition _runeneedsquotes (m : mem) (r : Z) : result (bool * Z) :=
  let* q := _quotesetup m (Runes r) (-1) 0x7FFFFFFF false in Ok (quoted q, nrunesout q).

(** ** The table of conversions *)

Definition Maxfmt : nat := 64.
Definition knownfmt : list (Z * Fmts) :=
  [(32, F_flag); (35, F_flag); (37, F_percent); (43, F_flag); (44, F_flag); (45, F_flag); (67, F_rune); (69, F_efg); (71, F_efg);
   (83, F_runes); (88, F_int); (98, F_int); (99, F_char); (100, F_int); (101, F_efg); (102, F_efg); (103, F_efg); (104, F_flag);
   (108, F_flag); (110, F_count); (111, F_int); (112, F_int); (114, F_err); (115, F_str); (117, F_flag); (120, F_int)].
Fixpoint find_fmt (c : Z) (l : list (Z * Fmts)) : option Fmts :=
  match l with [] => None | (c', g) :: l => if c' =? c then Some g else find_fmt c l end.
(** The entry for [c] overwritten, or [None] when there is none. *)
Fixpoint replace_fmt (c : Z) (g : Fmts) (l : list (Z * Fmts)) : option (list (Z * Fmts)) :=
  match l with
  | [] => None
  | (c', g') :: l => if c' =? c then Some ((c', g) :: l) else match replace_fmt c g l with Some l => Some ((c', g') :: l) | None => None end
  end.
(** [None] for [g] is nil. *)
Definition _fmtinstall (c : Z) (g : option Fmts) (l : list (Z * Fmts)) : Z * list (Z * Fmts) :=
  if (c <=? 0) || (c >=? 65536) then (-1, l)
  else
    let g := match g with Some g => g | None => F_bad end in
    match replace_fmt c g l with
    | Some l => (0, l)
    | None => if (length l =? Maxfmt)%nat then (-1, l) else (0, l ++ [(c, g)])
    end.
Definition fmtinstall (c : Z) (g : option Fmts) (l : list (Z * Fmts)) : Z * list (Z * Fmts) := _fmtinstall c g l.
Definition quotefmtinstall (l : list (Z * Fmts)) : list (Z * Fmts) :=
  (fmtinstall 81 (Some F_quoterune) (fmtinstall 113 (Some F_quotestr) l).2).2.
Definition fmtfmt (c : Z) (l : list (Z * Fmts)) : Fmts * list (Z * Fmts) :=
  match find_fmt c l with
  | Some g => (g, l)
  | None =>
      match find_fmt c knownfmt with
      | Some g => (g, (_fmtinstall c (Some g) l).2)
      | None => (F_bad, l)
      end
  end.
Definition apply_fmt (g : Fmts) (f : st) : result (Z * st) :=
  match g with
  | F_flag => _flagfmt f | F_percent => _percentfmt f | F_rune => _runefmt f | F_efg => _efgfmt f | F_runes => _runesfmt f
  | F_int => _ifmt f | F_char => _charfmt f | F_count => _countfmt f | F_err => errfmt f | F_str => _strfmt f | F_bad => _badfmt f
  | F_quotestr => quotestrfmt f | F_quoterune => quoterunestrfmt f | F_user k => user k f
  end.

(** ** [_fmtdispatch] and [dofmt] *)

(** The digits of a number, from the one in [r]; the result is the address of the first character after them. *)
Fixpoint number_loop (fuel : nat) (m : mem) (p r i : Z) : result (Z * Z) :=
  if (48 <=? r) && (r <=? 57) then
    match fuel with
    | O => Loop
    | S fuel => let* c := get m p in number_loop fuel m (p + 1) (u32 (s8 c)) (s32 (i * 10 + r - 48))
    end
  else Ok (i, p - 1).
Definition numflag (i : Z) (f : st) : st :=
  if has (flags f) FmtWidth then set_spec (fr f) (width f) i (Z.lor (flags f) FmtPrec) f
  else set_spec (fr f) i (prec f) (Z.lor (flags f) FmtWidth) f.
Fixpoint dispatch_loop (fuel : nat) (f : st) (fmt : Z) : result (option Z * st) :=
  match fuel with
  | O => Loop
  | S fuel =>
      let* (r, k) := chartorune_at (smem f) fmt in
      let fmt := fmt + Z.of_nat k in
      let f := set_spec r (width f) (prec f) (flags f) f in
      if r =? 0 then Ok (None, f)
      else if r =? 46 then dispatch_loop fuel (set_flags (Z.lor (flags f) (Z.lor FmtWidth FmtPrec)) f) fmt
      else if (r =? 48) && negb (has (flags f) FmtWidth) then dispatch_loop fuel (set_flags (Z.lor (flags f) FmtZero) f) fmt
      else if (48 <=? r) && (r <=? 57) then
        let* (i, fmt) := number_loop (turns (smem f)) (smem f) fmt r 0 in
        dispatch_loop fuel (numflag i f) fmt
      else if r =? 42 then
        let* (w, f) := va_arg32 f in
        let i := s32 w in
        if i <? 0 then
          if has (flags f) FmtPrec then dispatch_loop fuel (set_spec (fr f) (width f) 0 (clear (flags f) FmtPrec) f) fmt
          else dispatch_loop fuel (numflag (s32 (- i)) (set_flags (Z.lor (flags f) FmtLeft) f)) fmt
        else dispatch_loop fuel (numflag i f) fmt
      else
        let '(g, l) := fmtfmt r (table f) in
        let* (n, f) := apply_fmt g (set_table l f) in
        if n <? 0 then Ok (None, f) else if n =? 0 then Ok (Some fmt, f) else dispatch_loop fuel f fmt
  end.
Definition _fmtdispatch (f : st) (fmt : Z) : result (option Z * st) :=
  let w := width f in
  let p := prec f in
  let fl := flags f in
  let* (ret, f) := dispatch_loop (turns (smem f)) (set_spec (fr f) 0 0 0 f) fmt in
  Ok (ret, set_spec (fr f) w p fl f).

(** [while(n--) *t++ = *fmt++] *)
Fixpoint copy_bytes (n : nat) (m : mem) (t p : Z) : result mem :=
  match n with O => Ok m | S n => let* c := get m p in let* m := put m t c in copy_bytes n m (t + 1) (p + 1) end.
(** The text up to the next '%' or the end: where it stops, and at which character. *)
Fixpoint text_loop (fuel : nat) (f : st) (t s fmt : Z) : result (option (Z * Z * Z * Z) * st) :=
  match fuel with
  | O => Loop
  | S fuel =>
      let* r := get (smem f) fmt in
      if (r =? 0) || (r =? 37) then Ok (Some (t, s, fmt, r), f)
      else if r <? Runeself then
        let* (o, f) := FMTCHAR f t s r in
        match o with Some (t, s) => text_loop fuel f t s (fmt + 1) | None => Ok (None, f) end
      else
        let* (_, n) := chartorune_at (smem f) fmt in
        let* (o, f) := room (t + Z.of_nat n >? s) f t s (Z.of_nat n) in
        match o with
        | None => Ok (None, f)
        | Some (t, s) =>
            let* m := copy_bytes n (smem f) t fmt in
            text_loop fuel (set_mem m f) (t + Z.of_nat n) s (fmt + Z.of_nat n)
        end
  end.
Fixpoint dofmt_loop (fuel : nat) (f : st) (fmt nfmt0 : Z) : result (Z * st) :=
  match fuel with
  | O => Loop
  | S fuel =>
      let* (o, f) := text_loop (turns (smem f)) f (to f) (stop f) fmt in
      match o with
      | None => Ok (-1, f)
      | Some (t, s, fmt, r) =>
          let f := commit t f in
          if r =? 0 then Ok (nfmt f - nfmt0, f)
          else
            let* (fmt, f) := _fmtdispatch (set_stop s f) (fmt + 1) in
            match fmt with None => Ok (-1, f) | Some fmt => dofmt_loop fuel f fmt nfmt0 end
      end
  end.
Definition dofmt (f : st) (fmt : Z) : result (Z * st) := dofmt_loop (turns (smem f)) f fmt (nfmt f).
Definition fmtvprint (f : st) (fmt : Z) (va : list arg) : result (Z * st) :=
  let saved := args f in
  let* (n, f) := dofmt (set_args va f) fmt in
  Ok (if n >=? 0 then 0 else n, set_args saved f).

Definition fmtprint := fmtvprint.

(** ** Printing into a buffer and to a file *)

(** The fields that the callers leave unset hold some values. *)
Definition buffer_fmt (buf e : Z) (va : list arg) (junk : Z * Z * Z * Z) (m : mem) (tab : list (Z * Fmts)) (out : list Z) : st :=
  let '(r, w, p, fl) := junk in mkSt buf (e - 1) buf 0 false va r w p fl m out tab.
Definition vsnprint (buf len fmt : Z) (va : list arg) junk (m : mem) tab out : result (Z * st) :=
  let f := buffer_fmt buf (buf + len) va junk m tab out in
  if len <=? 0 then Ok (-1, f)
  else
    let* (_, f) := dofmt f fmt in
    let* m := put (smem f) (to f) 0 in
    Ok (to f - buf, set_mem m f).
Definition vseprint (buf e fmt : Z) (va : list arg) junk (m : mem) tab out : result (Z * st) :=
  let f := buffer_fmt buf e va junk m tab out in
  if e <=? buf then Ok (0, f)
  else
    let* (_, f) := dofmt f fmt in
    let* m := put (smem f) (to f) 0 in
    Ok (to f, set_mem m f).
Definition snprint := vsnprint.
Definition sprint (buf fmt : Z) (va : list arg) junk m tab out : result (Z * st) := vsnprint buf 65536 fmt va junk m tab out.
Definition fmtfdinit (buf size : Z) (va : list arg) (junk : Z * Z * Z * Z) (m : mem) (tab : list (Z * Fmts)) (out : list Z) : st :=
  let '(r, w, p, fl) := junk in mkSt buf (buf + size) buf 0 true va r w p fl m out tab.
Definition fmtfdflush (f : st) : result (Z * st) :=
  let* (b, f) := _fmtFdFlush f in Ok (if negb b then -1 else nfmt f, f).
(** [buf] is the address of the local array. *)
Definition vfprint (buf fmt : Z) (va : list arg) junk (m : mem) tab out : result (Z * st) :=
  let f := fmtfdinit buf 256 va junk m tab out in
  let* (n, f) := dofmt f fmt in
  if n >? 0 then let* (b, f) := _fmtFdFlush f in Ok (if negb b then -1 else n, f) else Ok (n, f).
Definition fprint := vfprint.
End fmt.
