(* ===== verification/FmtSpec.v ===== *)
(** * What formatted output prints

    The text that a format and its arguments stand for, as a list of units: characters of one to four bytes
    that are printed whole or not at all.  No buffer and no memory are in sight here: [FmtSink] relates
    this text to what the functions of [Fmt] do with a buffer, and [FmtPrint] to the functions that print. *)
From stdpp Require Import gmap list.
From S2P Require Import Prelude Memory Rune Cstring Numbers Fmt.

Abbreviation unit_t := (list Z).
(** The bytes of a rune, as [FMTRUNE] stores them. *)
Definition unit_of (r : Z) : unit_t := if r <? Runeself then [u8 r] else runetochar r.

(** ** Fields *)

Definition pads (n : Z) : list unit_t := replicate (Z.to_nat n) [32].
Definition field (fl w n : Z) (body : list unit_t) : list unit_t :=
  if has fl FmtLeft then body ++ pads (s32 (w - n)) else pads (s32 (w - n)) ++ body.
Definition clip (fl p n : Z) : Z := if has fl FmtPrec && (n >? p) then p else n.
(** A list of runes, [n] of them, in a field. *)
Definition runes_field (fl w p : Z) (rs : list Z) : list unit_t :=
  let n := clip fl p (Z.of_nat (length rs)) in field fl w n (take (Z.to_nat n) (map unit_of rs)).

(** [n] runes from the bytes [m]; a sequence that the bytes leave incomplete at their end is dropped. *)
Fixpoint cpy_units (n : nat) (m : list Z) : list unit_t :=
  match n, m with
  | S n, c :: _ =>
      if (need c <=? length m)%nat then match chartorune m with Ok (r, k) => unit_of r :: cpy_units n (drop k m) | _ => [] end else []
  | _, _ => []
  end.
(** A string in a field; a precision takes so many of its runes. *)
Definition str_field (fl w p : Z) (s : list Z) : list unit_t :=
  let rs := if has fl FmtPrec then take (Z.to_nat p) (runes s) else runes s in
  let n := clip fl p (Z.of_nat (length rs)) in
  field fl w n (cpy_units (Z.to_nat n) (concat rs.*2)).

Definition nil_field (fl w p : Z) : list unit_t := let n := clip fl p 5 in field fl w n (cpy_units (Z.to_nat n) nil_text).

(** ** Integers *)

(** The digits of [u], the last one first; [k] of them were printed before. *)
Fixpoint rev_digits (fuel : nat) (base u : Z) : list Z :=
  match fuel with O => [] | S fuel => if u =? 0 then [] else u mod base :: rev_digits fuel base (u / base) end.
(** A comma before every third digit from the right. *)
Fixpoint commas (k : nat) (ds : list Z) : list Z :=
  match ds with
  | [] => []
  | d :: ds => if ((0 <? k) && (k mod 3 =? 0))%nat then commas (S k) ds ++ [d; 44] else commas (S k) ds ++ [d]
  end.
Definition number (base u : Z) (conv : list Z) (comma : bool) : list Z :=
  if u =? 0 then [48]
  else let ds := map (fun d => nth (Z.to_nat d) conv 0) (rev_digits 64 base u) in if comma then commas 0 ds else rev ds.
(** At least [w] characters, [n] of them counted already, but no more than the buffer of the function takes. *)
Definition zeros (w n : Z) (l : list Z) : list Z := replicate (Z.to_nat (Z.min (w - n) (Maxintwidth - 3 - Z.of_nat (length l)))) 48 ++ l.
Definition int_text (neg : bool) (u base r : Z) (conv : list Z) (fl p w : Z) : list Z :=
  let l := number base u conv (has fl FmtComma) in
  let l := zeros p (Z.of_nat (length l)) l in
  let sign := if neg then [45] else if has fl FmtSign then [43] else if has fl FmtSpace then [32] else [] in
  let prefix := if has fl FmtSharp then if base =? 16 then [48; r] else if (base =? 8) && negb (nth 0 l 0 =? 48) then [48] else [] else [] in
  let l := if has fl FmtZero && negb (has fl (Z.lor FmtLeft FmtPrec))
           then zeros w (Z.of_nat (length l + length sign + length prefix)) l else l in
  sign ++ prefix ++ l.

(** ** Conversions *)

(** The arguments: words, long words, strings and strings of runes; [None] is nil. *)
Inductive value_arg := VInt (w : Z) | VLong (w : Z) | VStr (s : option (list Z)) | VRunes (s : option (list Z)).
(** What a conversion does: change the flags, print, or stop the output. *)
Inductive effect := Flag (fl : Z) | Prints (us : list unit_t) (va : list value_arg) | Stops (va : list value_arg).

(** A string of runes in memory, and the arguments of a call: what they point at lies in the addresses [out]. *)
Fixpoint runes_at (m : mem) (p : Z) (rs : list Z) : Prop :=
  match rs with
  | [] => get_rune m p = Ok 0
  | r :: rs => get_rune m p = Ok r /\ 0 < r < 2 ^ 32 /\ runes_at m (p + 4) rs
  end.
Definition arg_at (m : mem) (out : Z -> Prop) (a : arg) (v : value_arg) : Prop :=
  match v with
  | VInt w => a = A32 w /\ is_u32 w
  | VLong w => a = A64 w /\ is_u64 w
  | VStr None => a = A32 0
  | VStr (Some s) => exists p, a = A32 p /\ p <> 0 /\ cstr m p s /\ forall q, p <= q < p + Z.of_nat (length s) + 1 -> out q
  | VRunes None => a = A32 0
  | VRunes (Some rs) => exists p, a = A32 p /\ p <> 0 /\ runes_at m p rs /\ forall q, p <= q < p + 4 * Z.of_nat (length rs) + 4 -> out q
  end.

Definition int_word (fl : Z) (va : list value_arg) : option (bool * Z * list value_arg) :=
  let uns := has fl FmtUnsigned in
  if has fl FmtVLong then match va with VLong w :: va => Some (true, w, va) | _ => None end
  else
    match va with
    | VInt w :: va =>
        Some (false,
          if has fl FmtLong then w
          else if has fl FmtByte then if uns then u8 w else u32 (s8 w)
          else if has fl FmtShort then if uns then u16 w else u32 (s16 w)
          else w, va)
    | _ => None
    end.
(** The field of an integer; [r] is the verb, [fl] with [FmtUnsigned] for a pointer. *)
Definition int_units (isv : bool) (u r fl p w fl0 : Z) : option (list unit_t) :=
  match int_base r with
  | None => None
  | Some (base, conv) =>
      let signed := if isv then s64 u else s32 u in
      let neg := negb (has fl FmtUnsigned) && (signed <? 0) in
      let u := if neg then if isv then u64 (- signed) else u32 (- signed) else u in
      let l := int_text neg u base r conv fl p w in
      let w := if has fl FmtZero && negb (has fl (Z.lor FmtLeft FmtPrec)) then 0 else w in
      Some (field (clear fl0 FmtPrec) w (Z.of_nat (length l)) (map (fun c => [c]) l))
  end.
Definition conv_effect (g : Fmts) (r w p fl : Z) (va : list value_arg) : option effect :=
  match g with
  | F_flag => Some (Flag (flag_of r fl))
  | F_percent => Some (Prints (runes_field fl w 1 [r]) va)
  | F_bad => Some (Prints (runes_field fl w 3 [37; r; 37]) va)
  | F_efg => Some (Stops va)
  | F_rune => match va with VInt x :: va => Some (Prints (runes_field fl w p [x]) va) | _ => None end
  | F_char =>
      match va with
      | VInt x :: va => Some (Prints (field fl w 1 (cpy_units 1 [u8 x])) va)
      | _ => None
      end
  | F_str =>
      match va with
      | VStr s :: va => Some (Prints (match s with Some s => str_field fl w p s | None => nil_field fl w p end) va)
      | _ => None
      end
  | F_runes =>
      match va with
      | VRunes s :: va => Some (Prints (match s with Some s => runes_field fl w p (if has fl FmtPrec then take (Z.to_nat p) s else s) | None => nil_field fl w p end) va)
      | _ => None
      end
  | F_int =>
      if r =? 112 then
        match va with
        | VInt x :: va => match int_units false x 120 (Z.lor fl FmtUnsigned) p w fl with Some us => Some (Prints us va) | None => None end
        | _ => None
        end
      else
        match int_word fl va with
        | Some (isv, u, va) => match int_units isv u r fl p w fl with Some us => Some (Prints us va) | None => Some (Stops va) end
        | None => None
        end
  | F_count | F_err | F_quotestr | F_quoterune | F_user _ => None
  end.

(** ** Formats *)

Definition is_num (c : Z) : bool := (48 <=? c) && (c <=? 57).
Fixpoint number_text (i : Z) (s : list Z) : Z * list Z :=
  match s with
  | c :: s' => if is_num c then number_text (s32 (i * 10 + c - 48)) s' else (i, s)
  | [] => (i, [])
  end.
(** Width, precision and flags after a number. *)
Definition numbered (i w p fl : Z) : Z * Z * Z :=
  if has fl FmtWidth then (w, i, Z.lor fl FmtPrec) else (i, p, Z.lor fl FmtWidth).
Definition conv_of (l : list (Z * Fmts)) (c : Z) : Fmts :=
  match find_fmt c l with Some g => g | None => match find_fmt c knownfmt with Some g => g | None => F_bad end end.

Section text.
Variable tab : list (Z * Fmts).
(** What one conversion prints, and the rest of the format, [None] when the output stops. *)
Fixpoint conv_text (fuel : nat) (s : list Z) (w p fl : Z) (va : list value_arg) : option (list unit_t * option (list Z) * list value_arg) :=
  match fuel with
  | O => None
  | S fuel =>
      match s with
      | [] => Some ([], None, va)
      | _ =>
          match chartorune (s ++ [0]) with
          | Ok (r, k) =>
              let s' := drop k s in
              if r =? 46 then conv_text fuel s' w p (Z.lor fl (Z.lor FmtWidth FmtPrec)) va
              else if (r =? 48) && negb (has fl FmtWidth) then conv_text fuel s' w p (Z.lor fl FmtZero) va
              else if is_num r then
                let '(i, s') := number_text (s32 (r - 48)) s' in
                let '(w, p, fl) := numbered i w p fl in conv_text fuel s' w p fl va
              else if r =? 42 then
                match va with
                | VInt x :: va =>
                    let i := s32 x in
                    if i <? 0 then
                      if has fl FmtPrec then conv_text fuel s' w 0 (clear fl FmtPrec) va
                      else let '(w, p, fl) := numbered (s32 (- i)) w p (Z.lor fl FmtLeft) in conv_text fuel s' w p fl va
                    else let '(w, p, fl) := numbered i w p fl in conv_text fuel s' w p fl va
                | _ => None
                end
              else
                match conv_effect (conv_of tab r) r w p fl va with
                | Some (Flag fl) => conv_text fuel s' w p fl va
                | Some (Prints us va) => Some (us, Some s', va)
                | Some (Stops va) => Some ([], None, va)
                | None => None
                end
          | _ => None
          end
      end
  end.
(** The units of the characters before the first '%', and what follows. *)
Fixpoint plain_text (fuel : nat) (s : list Z) : list unit_t * list Z :=
  match fuel with
  | O => ([], s)
  | S fuel =>
      match s with
      | [] => ([], [])
      | c :: s' =>
          if c =? 37 then ([], s)
          else
            match chartorune (s ++ [0]) with
            | Ok (_, k) => let '(us, rest) := plain_text fuel (drop k s) in (take k s :: us, rest)
            | _ => ([], s)
            end
      end
  end.
(** All that a format prints; the flag tells whether it came to its end. *)
Fixpoint format_text (fuel : nat) (s : list Z) (va : list value_arg) : option (list unit_t * bool) :=
  match fuel with
  | O => None
  | S fuel =>
      let '(us, rest) := plain_text (length s) s in
      match rest with
      | [] => Some (us, true)
      | _ :: rest =>
          match conv_text (S (length rest)) rest 0 0 0 va with
          | Some (us1, Some rest, va) =>
              match format_text fuel rest va with Some (us2, e) => Some (us ++ us1 ++ us2, e) | None => None end
          | Some (us1, None, va) => Some (us ++ us1, false)
          | None => None
          end
      end
  end.
Definition printed (s : list Z) (va : list value_arg) : option (list unit_t * bool) := format_text (S (length s)) s va.
End text.

(** What fits: as many whole units as the room takes. *)
Fixpoint fit (room : Z) (us : list unit_t) : list Z :=
  match us with
  | [] => []
  | u :: us => if Z.of_nat (length u) <=? room then u ++ fit (room - Z.of_nat (length u)) us else []
  end.
