(* ===== verification/FmtInt.v ===== *)
(** * Integers in formats: the buffer of [_ifmt]

    [int_bytes] fills a buffer of eighty-nine bytes from its end. It never goes past the beginning,
    and what it leaves is [int_text], whose digits stand for the number. *)
From stdpp Require Import gmap list.
From S2P Require Import Prelude Memory Rune Cstring Numbers Fmt FmtSpec.

(** ** Digits *)

Definition digit_base (base : Z) (conv : list Z) : Prop := exists r, int_base r = Some (base, conv).
Lemma digit_base_cases base conv : digit_base base conv -> (base = 2 \/ base = 8 \/ base = 10 \/ base = 16) /\ (conv = conv_lower \/ conv = conv_upper /\ base = 16).
Proof. intros [r H]. unfold int_base in H. do 5 (destruct (_ =? _); [injection H as <- <-; split; auto|]). done. Qed.
Lemma digit_base_range base conv : digit_base base conv -> 2 <= base <= 16.
Proof. intros [H _]%digit_base_cases. lia. Qed.
Lemma conv_length base conv : digit_base base conv -> length conv = 16%nat.
Proof. by intros [_ [->|[-> _]]]%digit_base_cases. Qed.

Definition char_of (conv : list Z) (d : Z) : Z := nth (Z.to_nat d) conv 0.
Lemma char_of_lookup base conv u : digit_base base conv -> 0 <= u -> conv !! Z.to_nat (u mod base) = Some (char_of conv (u mod base)).
Proof.
  intros Hb Hu. pose proof (conv_length _ _ Hb) as Hl. pose proof (digit_base_range _ _ Hb).
  assert (0 <= u mod base < base) by (apply Z.mod_pos_bound; lia).
  destruct (lookup_lt_is_Some_2 conv (Z.to_nat (u mod base))) as [c Hc]; [lia|]. rewrite Hc. f_equal. symmetry. by apply nth_lookup_Some.
Qed.
Lemma div_pow base u k : 2 <= base -> 0 <= u < base ^ Z.of_nat (S k) -> 0 <= u / base < base ^ Z.of_nat k.
Proof.
  intros Hb Hu. rewrite Nat2Z.inj_succ, Z.pow_succ_r in Hu by lia. split; [apply Z.div_pos; lia|]. apply Z.div_lt_upper_bound; lia.
Qed.
Lemma rev_digits_length fuel base u : (length (rev_digits fuel base u) <= fuel)%nat.
Proof. revert u. induction fuel as [|fuel IH]; intros u; simpl; [lia|]. destruct (u =? 0); simpl; [lia|]. specialize (IH (u / base)). lia. Qed.
Lemma rev_digits_range fuel base u : 0 < base -> Forall (fun d => 0 <= d < base) (rev_digits fuel base u).
Proof.
  intros Hb. revert u. induction fuel as [|fuel IH]; intros u; simpl; [constructor|]. destruct (u =? 0); constructor; [by apply Z.mod_pos_bound|apply IH].
Qed.

(** What the loop of the digits has counted when it has printed [k] of them. *)
Definition counted (comma : bool) (k : nat) : Z := if comma then Z.of_nat k + (Z.of_nat k + 2) / 3 - c_bool (negb (k =? 0)%nat) else Z.of_nat k.
Definition grouped (comma : bool) (k : nat) (cs : list Z) : list Z := if comma then commas k cs else rev cs.
Lemma commas_cons k d ds : commas k (d :: ds) = commas (S k) ds ++ (if ((0 <? k) && (k mod 3 =? 0))%nat then [d; 44] else [d]).
Proof. cbn [commas]. by destruct (_ && _). Qed.
Lemma commas_length k cs : Z.of_nat (length (commas k cs)) = counted true (k + length cs) - counted true k.
Proof.
  revert k. induction cs as [|c cs IH]; intros k; cbn [commas length].
  - rewrite Nat.add_0_r. lia.
  - rewrite Nat.add_succ_r. destruct ((0 <? k)%nat && (k mod 3 =? 0)%nat) eqn:E; rewrite length_app; cbn [length]; rewrite Nat2Z.inj_add, IH; simpl Nat.add.
    + apply andb_prop in E as [E1%Nat.ltb_lt E2%Nat.eqb_eq]. unfold counted.
      assert (k = (3 * (k / 3))%nat) as Hk by (pose proof (Nat.div_mod_eq k 3); lia). destruct (Nat.eqb_spec (S k) 0); [lia|]. destruct (Nat.eqb_spec k 0); [lia|]. simpl c_bool.
      assert ((Z.of_nat (S k) + 2) / 3 = (Z.of_nat k + 2) / 3 + 1) by (rewrite Hk; zlia). lia.
    + unfold counted. destruct (Nat.eqb_spec (S k) 0); [lia|]. destruct (Nat.eqb_spec k 0) as [->|Hk0]; [cbn [c_bool negb]; change (Z.of_nat 1) with 1; change (Z.of_nat 0) with 0; change ((1 + 2) / 3) with 1; change ((0 + 2) / 3) with 0; lia|]. simpl c_bool.
      assert ((k mod 3 =? 0)%nat = false) as Hm by (destruct (Nat.ltb_spec 0 k); [done|lia]). apply Nat.eqb_neq in Hm.
      assert ((Z.of_nat (S k) + 2) / 3 = (Z.of_nat k + 2) / 3); [|lia]. pose proof (Nat.div_mod_eq k 3). pose proof (Nat.mod_upper_bound k 3). zlia.
Qed.
Lemma grouped_length comma k cs : Z.of_nat (length (grouped comma k cs)) = counted comma (k + length cs) - counted comma k.
Proof. destruct comma; [apply commas_length|]. simpl. rewrite length_rev. lia. Qed.
Lemma counted_comma k : (counted true k mod 4 =? 3) = ((0 <? k) && (k mod 3 =? 0))%nat.
Proof.
  unfold counted. destruct (Nat.ltb_spec 0 k); destruct (Nat.eqb_spec k 0); try lia; cbn [c_bool negb andb]; [|by subst].
  pose proof (Nat.div_mod_eq k 3). pose proof (Nat.mod_upper_bound k 3). set (q := (k / 3)%nat) in *.
  assert (k mod 3 = 0 \/ k mod 3 = 1 \/ k mod 3 = 2)%nat as [E|[E|E]] by lia; rewrite E in *; cbn [Nat.eqb].
  - assert ((Z.of_nat k + 2) / 3 = Z.of_nat q) as -> by zlia. apply Z.eqb_eq. zlia.
  - assert ((Z.of_nat k + 2) / 3 = Z.of_nat q + 1) as -> by zlia. apply Z.eqb_neq. zlia.
  - assert ((Z.of_nat k + 2) / 3 = Z.of_nat q + 1) as -> by zlia. apply Z.eqb_neq. zlia.
Qed.
Lemma push_ok c l : Z.of_nat (length l) < 89 -> push c l = Ok (c :: l).
Proof. change 89 with (Maxintwidth + 1). intros H. unfold push. by destruct (Z.ltb_spec (Z.of_nat (length l)) (Maxintwidth + 1)); [|lia]. Qed.
Lemma digits_loop_ok base conv comma : digit_base base conv -> forall fuel u k l, 0 <= u < base ^ Z.of_nat fuel -> (k + fuel <= 64)%nat ->
  Z.of_nat (length l) = counted comma k ->
  let ds := map (char_of conv) (rev_digits fuel base u) in
  digits_loop fuel u base conv comma (counted comma k) l = Ok (counted comma (k + length ds), grouped comma k ds ++ l).
Proof.
  intros Hb. pose proof (digit_base_range _ _ Hb) as Hr. induction fuel as [|fuel IH]; intros u k l Hu Hk Hl ds.
  - assert (u = 0) as -> by (simpl in Hu; lia). simpl. rewrite Nat.add_0_r. by destruct comma.
  - subst ds. cbn [digits_loop rev_digits]. destruct (Z.eqb_spec u 0) as [->|Hu0]; [simpl; rewrite Nat.add_0_r; by destruct comma|].
    rewrite (char_of_lookup _ _ _ Hb) by lia. pose proof (div_pow base u fuel ltac:(lia) Hu) as Hu'.
    assert (0 <= counted comma k <= 85) as Hck.
    { unfold counted. destruct comma; [|lia]. destruct (Nat.eqb_spec k 0) as [->|]; simpl c_bool; [vm_compute; split; discriminate|]. zlia. }
    assert (counted comma (S k) = counted comma k + 1 + (if comma && (counted comma k mod 4 =? 3) then 1 else 0)) as Hnext.
    { destruct comma; [|simpl; lia]. pose proof (commas_length k [0]) as H. rewrite counted_comma. simpl andb. cbn [commas length] in H.
      replace (k + 1)%nat with (S k) in H by lia. destruct ((0 <? k)%nat && _); cbn [app length] in H; lia. }
    cbn [of_ptr]. destruct (comma && (counted comma k mod 4 =? 3)) eqn:Ec.
    + rewrite push_ok by lia. cbn [rbind]. rewrite push_ok by (cbn [length]; lia). cbn [rbind].
      replace (counted comma k + 1 + 1) with (counted comma (S k)) by lia. rewrite IH by (try lia; cbn [length]; lia). f_equal. cbn [map length].
      rewrite Nat.add_succ_comm. f_equal. apply andb_prop in Ec as [-> Ec]. rewrite counted_comma in Ec. cbn [grouped map]. rewrite commas_cons, Ec. by rewrite <-app_assoc.
    + cbn [rbind]. rewrite push_ok by lia. cbn [rbind]. replace (counted comma k + 1) with (counted comma (S k)) by lia.
      rewrite IH by (try lia; cbn [length]; lia). f_equal. cbn [map length]. rewrite Nat.add_succ_comm. f_equal.
      destruct comma; cbn [grouped map]; [|simpl; by rewrite <-app_assoc]. cbn [andb] in Ec. rewrite counted_comma in Ec. rewrite commas_cons, Ec. by rewrite <-app_assoc.
Qed.

(** ** The whole number *)

Lemma pow_64 base : 2 <= base -> 2 ^ 64 <= base ^ Z.of_nat 64.
Proof. intros Hb. apply Z.pow_le_mono_l. lia. Qed.
Lemma number_ok base conv comma u : digit_base base conv -> 0 <= u < 2 ^ 64 ->
  (let* (n, l) := digits_loop 64 u base conv comma 0 [] in if n =? 0 then let* l := push 48 l in Ok (1, l) else Ok (n, l)) =
  Ok (Z.of_nat (length (number base u conv comma)), number base u conv comma) /\ 1 <= Z.of_nat (length (number base u conv comma)) <= 85.
Proof.
  intros Hb Hu. pose proof (digit_base_range _ _ Hb) as Hr. pose proof (pow_64 base ltac:(lia)).
  assert (counted comma 0 = 0) as H0 by (by destruct comma).
  pose proof (digits_loop_ok base conv comma Hb 64 u 0 [] ltac:(lia) ltac:(lia) ltac:(by rewrite H0)) as Hd. cbn zeta in Hd. rewrite H0 in Hd. rewrite Hd. cbn [rbind].
  pose proof (grouped_length comma 0 (map (char_of conv) (rev_digits 64 base u))) as Hl. rewrite H0, Z.sub_0_r in Hl. cbn [Nat.add] in Hl |- *. rewrite app_nil_r, <-Hl.
  pose proof (rev_digits_length 64 base u) as Hdl. unfold number. destruct (Z.eqb_spec u 0) as [->|Hu0].
  - cbn [rev_digits Z.eqb map]. destruct comma; cbn [grouped commas rev length]; done.
  - assert (grouped comma 0 (map (char_of conv) (rev_digits 64 base u)) =
      (if comma then commas 0 (map (fun d => nth (Z.to_nat d) conv 0) (rev_digits 64 base u)) else rev (map (fun d => nth (Z.to_nat d) conv 0) (rev_digits 64 base u)))) as <- by done.
    set (l := grouped _ _ _) in *. rewrite length_map in Hl.
    assert (0 < length (rev_digits 64 base u))%nat by (cbn [rev_digits]; destruct (Z.eqb_spec u 0); cbn [length]; lia).
    assert (1 <= Z.of_nat (length l) <= 85).
    { rewrite Hl. unfold counted. destruct comma; [|lia]. destruct (Nat.eqb_spec (length (rev_digits 64 base u)) 0); [lia|]. cbn [negb c_bool]. zlia. }
    split; [|done]. by destruct (Z.eqb_spec (Z.of_nat (length l)) 0); [lia|].
Qed.
Lemma zeros_length w n l : length (FmtSpec.zeros w n l) = (Z.to_nat (Z.min (w - n) (85 - Z.of_nat (length l))) + length l)%nat.
Proof. unfold FmtSpec.zeros. change (Maxintwidth - 3) with 85. by rewrite length_app, length_replicate. Qed.
Lemma zeros_loop_ok w : forall fuel n l, Z.min (w - n) (85 - Z.of_nat (length l)) <= Z.of_nat fuel -> Z.of_nat (length l) <= 85 ->
  zeros_loop fuel w n l = Ok (n + Z.of_nat (length (FmtSpec.zeros w n l)) - Z.of_nat (length l), FmtSpec.zeros w n l).
Proof.
  assert (forall n l, Z.min (w - n) (85 - Z.of_nat (length l)) <= 0 -> FmtSpec.zeros w n l = l) as Hnil.
  { intros n l H. unfold FmtSpec.zeros. change (Maxintwidth - 3) with 85. by rewrite Z2Nat.nonpos by done. }
  assert (forall n (l : list Z), (n <? w) && (Maxintwidth - Z.of_nat (length l) >? 3) = (0 <? Z.min (w - n) (85 - Z.of_nat (length l)))) as Htest.
  { intros n l. change Maxintwidth with 88. lia. }
  induction fuel as [|fuel IH]; intros n l Hf Hl; cbn [zeros_loop]; rewrite Htest.
  - destruct (Z.ltb_spec 0 (Z.min (w - n) (85 - Z.of_nat (length l)))); [lia|]. rewrite Hnil by done. do 2 f_equal. lia.
  - destruct (Z.ltb_spec 0 (Z.min (w - n) (85 - Z.of_nat (length l)))); [|rewrite Hnil by done; do 2 f_equal; lia].
    rewrite push_ok by lia. cbn [rbind]. rewrite IH by (cbn [length]; lia).
    assert (FmtSpec.zeros w (n + 1) (48 :: l) = FmtSpec.zeros w n l) as ->.
    { unfold FmtSpec.zeros. change (Maxintwidth - 3) with 85. cbn [length].
      replace (Z.to_nat (Z.min (w - n) (85 - Z.of_nat (length l)))) with (S (Z.to_nat (Z.min (w - (n + 1)) (85 - Z.of_nat (S (length l)))))) by lia.
      change (48 :: l) with ([48] ++ l). by rewrite app_assoc, <-replicate_S_end. }
    do 2 f_equal. cbn [length]. lia.
Qed.
Lemma zeros_range w n l : Z.of_nat (length l) <= 85 -> Z.of_nat (length l) <= Z.of_nat (length (FmtSpec.zeros w n l)) <= 85.
Proof. intros H. rewrite zeros_length. lia. Qed.
Lemma has_lor fl a b : has fl (Z.lor a b) = has fl a || has fl b.
Proof.
  unfold has. rewrite Z.land_lor_distr_r. destruct (Z.eqb_spec (Z.lor (Z.land fl a) (Z.land fl b)) 0) as [E|E].
  - apply Z.lor_eq_0_iff in E as [-> ->]. done.
  - destruct (Z.eqb_spec (Z.land fl a) 0) as [Ha|]; [|done]. destruct (Z.eqb_spec (Z.land fl b) 0) as [Hb|]; [|done]. by rewrite Ha, Hb in E.
Qed.
Lemma has_clear fl a b : Z.land (0xffffffff - a) b = b -> has (clear fl a) b = has fl b.
Proof. intros H. unfold has, clear. by rewrite <-Z.land_assoc, H. Qed.
Lemma has_cleared fl a b : Z.land (0xffffffff - a) b = 0 -> has (clear fl a) b = false.
Proof. intros H. unfold has, clear. by rewrite <-Z.land_assoc, H, Z.land_0_r. Qed.
(** The buffer of [_ifmt] is large enough, and what it holds in the end is the text of the number. *)
Lemma int_bytes_ok neg u base r conv fl p w : digit_base base conv -> 0 <= u < 2 ^ 64 ->
  let l := int_text neg u base r conv fl p w in int_bytes neg u base r conv fl p w = Ok (Z.of_nat (length l), l) /\ 1 <= Z.of_nat (length l) <= 88.
Proof.
  intros Hb Hu l. unfold int_bytes. destruct (number_ok base conv (has fl FmtComma) u Hb Hu) as [Hn Hl0].
  apply rbind_Ok in Hn as ([n0 l00] & -> & Hn). cbn [rbind]. rewrite Hn. cbn [rbind]. clear Hn n0 l00.
  subst l. unfold int_text. set (l0 := number base u conv (has fl FmtComma)) in *.
  rewrite zeros_loop_ok by lia. cbn [rbind]. pose proof (zeros_range p (Z.of_nat (length l0)) l0 ltac:(lia)) as Hl1.
  set (l1 := FmtSpec.zeros p (Z.of_nat (length l0)) l0) in *.
  replace (Z.of_nat (length l0) + Z.of_nat (length l1) - Z.of_nat (length l0)) with (Z.of_nat (length l1)) by lia.
  set (sign := if neg then [45] else if has fl FmtSign then [43] else if has fl FmtSpace then [32] else []).
  set (prefix := if has fl FmtSharp then if base =? 16 then [48; r] else if (base =? 8) && negb (nth 0 l1 0 =? 48) then [48] else [] else []).
  assert ((if neg || has fl (Z.lor FmtSign FmtSpace) then Z.of_nat (length l1) + 1 else Z.of_nat (length l1)) = Z.of_nat (length l1) + Z.of_nat (length sign)) as ->.
  { subst sign. rewrite has_lor. destruct neg, (has fl FmtSign), (has fl FmtSpace); cbn [orb length]; lia. }
  set (n := Z.of_nat (length l1) + Z.of_nat (length sign)).
  assert (exists fl1, (if has fl FmtSharp then
      if base =? 16 then Ok (n + 2, fl)
      else if base =? 8 then let* c := of_ptr (l1 !! 0%nat) in Ok (if c =? 48 then (n, clear fl FmtSharp) else (n + 1, fl))
      else Ok (n, fl) else Ok (n, fl)) = Ok (n + Z.of_nat (length prefix), fl1) /\
      (forall b, Z.land (0xffffffff - FmtSharp) b = b -> has fl1 b = has fl b) /\
      forall l, Z.of_nat (length l) <= 85 -> (if has fl1 FmtSharp then let* l := if base =? 16 then push r l else Ok l in
        if (base =? 16) || (base =? 8) then push 48 l else Ok l else Ok l) = Ok (prefix ++ l)) as (fl1 & -> & Hfl1 & Hpre).
  { destruct (digit_base_cases _ _ Hb) as [Hbase _]. subst prefix. destruct (has fl FmtSharp) eqn:Hsh; [|exists fl; rewrite Hsh; split_and!; [by rewrite Z.add_0_r|done..]].
    destruct (Z.eqb_spec base 16); [exists fl; rewrite Hsh; split_and!; [done..|]; intros l Hl; rewrite push_ok by lia; cbn [rbind orb]; by rewrite push_ok by (cbn [length]; lia)|].
    destruct (Z.eqb_spec base 8); [|exists fl; rewrite Hsh; split_and!; [by rewrite Z.add_0_r|done..]]. destruct l1 as [|c l1']; [cbn [length] in Hl1; lia|]. cbn [lookup list_lookup of_ptr rbind nth].
    destruct (Z.eqb_spec c 48); cbn [andb negb length].
    - exists (clear fl FmtSharp). split_and!; [by rewrite Z.add_0_r|intros b; apply has_clear|by rewrite has_cleared].
    - exists fl. rewrite Hsh. split_and!; [done..|]. intros l Hl. cbn [rbind orb]. by rewrite push_ok by lia. }
  cbn [rbind]. rewrite !Hfl1 by done.
  assert (length sign <= 1)%nat as Hsl by (subst sign; destruct neg, (has fl FmtSign), (has fl FmtSpace); simpl; lia).
  assert (length prefix <= 2)%nat as Hpl by (subst prefix; destruct (has fl FmtSharp), (base =? 16), (base =? 8), (negb (nth 0 l1 0 =? 48)); simpl; lia).
  set (l2 := if has fl FmtZero && negb (has fl (Z.lor FmtLeft FmtPrec)) then FmtSpec.zeros w (Z.of_nat (length l1 + length sign + length prefix)) l1 else l1).
  assert (Z.of_nat (length l1) <= Z.of_nat (length l2) <= 85) as Hl2 by (subst l2; destruct (has fl FmtZero && _); [apply zeros_range; lia|lia]).
  assert ((if has fl FmtZero && negb (has fl (Z.lor FmtLeft FmtPrec)) then zeros_loop 89 w (n + Z.of_nat (length prefix)) l1 else Ok (n + Z.of_nat (length prefix), l1)) =
    Ok (Z.of_nat (length (sign ++ prefix ++ l2)), l2)) as ->.
  { subst l2 n. rewrite !length_app. destruct (has fl FmtZero && _); [|do 2 f_equal; lia]. rewrite zeros_loop_ok by lia.
    replace (Z.of_nat (length l1) + Z.of_nat (length sign) + Z.of_nat (length prefix)) with (Z.of_nat (length l1 + length sign + length prefix)) by lia.
    do 2 f_equal. lia. }
  cbn [rbind]. rewrite Hpre by lia. cbn [rbind]. assert (Z.of_nat (length (prefix ++ l2)) <= 87) by (rewrite length_app; lia).
  split; [|rewrite !length_app in *; lia]. subst sign. rewrite !push_ok, !Hfl1 by (done || lia). by destruct neg, (has fl FmtSign), (has fl FmtSpace).
Qed.

(** ** The value of the digits *)

Lemma digit_value_char base conv d : digit_base base conv -> 0 <= d < base -> digit_value base (char_of conv d) = d.
Proof.
  intros Hb Hd. destruct (digit_base_cases _ _ Hb) as [Hc Hconv].
  assert (forallb (fun e => (digit_value base (char_of conv e) =? e) || (base <=? e)) (seqZ 0 16) = true) as H.
  { destruct Hconv as [->|[-> ->]]; [|done]. by destruct Hc as [->|[->|[->| ->]]]. }
  rewrite forallb_forall in H. assert (In d (seqZ 0 16)) as Hin by (apply list_elem_of_In, elem_of_seqZ; lia). specialize (H d Hin). lia.
Qed.
Lemma digits_value_app base l1 l2 : digits_value base (l1 ++ l2) = fold_left (fun n c => n * base + digit_value base c) l2 (digits_value base l1).
Proof. apply fold_left_app. Qed.
Lemma rev_digits_value base conv fuel u : digit_base base conv -> 0 <= u < base ^ Z.of_nat fuel ->
  digits_value base (rev (map (char_of conv) (rev_digits fuel base u))) = u.
Proof.
  intros Hb. pose proof (digit_base_range _ _ Hb). revert u. induction fuel as [|fuel IH]; intros u Hu; cbn [rev_digits].
  - simpl in Hu. assert (u = 0) as -> by lia. done.
  - destruct (Z.eqb_spec u 0) as [->|]; [done|]. cbn [map rev]. rewrite digits_value_app, IH by (by apply div_pow; [lia|]). cbn [fold_left].
    rewrite (digit_value_char _ _ _ Hb) by (apply Z.mod_pos_bound; lia). pose proof (Z.div_mod u base). lia.
Qed.
(** Without commas, the digits read in the base give the number back. *)
Lemma number_value base conv u : digit_base base conv -> 0 <= u < 2 ^ 64 -> digits_value base (number base u conv false) = u.
Proof.
  intros Hb Hu. unfold number. destruct (Z.eqb_spec u 0) as [->|].
  - destruct (digit_base_cases _ _ Hb) as [Hc _]. by destruct Hc as [->|[->|[->| ->]]].
  - apply rev_digits_value; [done|]. pose proof (digit_base_range _ _ Hb). pose proof (pow_64 base ltac:(lia)). lia.
Qed.
Lemma number_digits base conv u : digit_base base conv -> Forall (fun c => is_digit base c = true) (number base u conv false).
Proof.
  intros Hb. unfold number. pose proof (digit_base_range _ _ Hb). destruct (u =? 0).
  - repeat constructor. destruct (digit_base_cases _ _ Hb) as [Hc _]. by destruct Hc as [->|[->|[->| ->]]].
  - apply Forall_rev, Forall_map. eapply Forall_impl; [apply rev_digits_range; lia|]. intros d Hd. cbv beta in Hd. unfold is_digit.
    change (nth (Z.to_nat d) conv 0) with (char_of conv d). rewrite (digit_value_char _ _ _ Hb) by done. lia.
Qed.

(** ** The characters of a number *)

Definition ascii (c : Z) : Prop := 0 <= c < 128.
Lemma conv_ascii base conv d : digit_base base conv -> ascii (char_of conv d).
Proof.
  intros Hb. destruct (digit_base_cases _ _ Hb) as [_ Hc]. unfold char_of. destruct (conv !! Z.to_nat d) as [c|] eqn:E.
  - rewrite (nth_lookup_Some _ _ _ _ E). assert (Forall ascii conv) as Hf.
    { destruct Hc as [->|[-> _]]; repeat first [apply Forall_nil_2|apply Forall_cons_2; [by unfold ascii|]]. }
    by eapply Forall_lookup_1.
  - rewrite nth_overflow; [by unfold ascii|]. by apply lookup_ge_None.
Qed.
Lemma commas_forall (P : Z -> Prop) k cs : P 44 -> Forall P cs -> Forall P (commas k cs).
Proof.
  intros H44 H. revert k. induction H as [|c cs Hc _ IH]; intros k; [constructor|]. rewrite commas_cons. apply Forall_app. split; [apply IH|].
  destruct (_ && _); repeat first [apply Forall_nil_2|apply Forall_cons_2; [done|]].
Qed.
Lemma zeros_forall (P : Z -> Prop) w n l : P 48 -> Forall P l -> Forall P (FmtSpec.zeros w n l).
Proof. intros H48 H. apply Forall_app. split; [by apply Forall_replicate|done]. Qed.
Lemma number_ascii base conv u comma : digit_base base conv -> Forall ascii (number base u conv comma).
Proof.
  intros Hb. unfold number. destruct (u =? 0); [by apply Forall_singleton|].
  assert (Forall ascii (map (fun d => nth (Z.to_nat d) conv 0) (rev_digits 64 base u))) as H.
  { apply Forall_map. eapply Forall_impl; [apply (rev_digits_range 64 base u); pose proof (digit_base_range _ _ Hb); lia|]. intros d _. by eapply conv_ascii. }
  destruct comma; [by apply commas_forall|by apply Forall_rev].
Qed.
Lemma int_text_ascii neg u base r conv fl p w : int_base r = Some (base, conv) -> Forall ascii (int_text neg u base r conv fl p w).
Proof.
  intros Hr. assert (digit_base base conv) as Hb by (by exists r). unfold int_text.
  assert (ascii r) as Hra by (unfold int_base in Hr; unfold ascii; case_tests_in Hr; try done; lia).
  apply Forall_app. split; [destruct neg, (has fl FmtSign), (has fl FmtSpace); repeat first [apply Forall_nil_2|apply Forall_cons_2; [by unfold ascii|]]|].
  apply Forall_app. split.
  - destruct (has fl FmtSharp), (base =? 16); cbn [andb]; try destruct (_ && _); repeat first [apply Forall_nil_2|apply Forall_cons_2; [by unfold ascii|]].
  - destruct (has fl FmtZero && _); repeat (apply zeros_forall; [by unfold ascii|]); by apply number_ascii.
Qed.
