(* ===== verification/FmtSink.v ===== *)
(** * Where formatted output goes

    A [sink] states what the buffer of a [Fmt] and its flush function do to a text: [rep f t o b] says that the
    state [f], with the local copy [t] of [f->to], holds the output [o], and that output has stopped when [b].
    The laws hold for output whose length is in [bound].
    The functions of dofmt.c are proved against the laws of a sink; a buffer without flush function, which takes a prefix of the
    text, and a file descriptor, which takes it all in pieces, are instances. *)
From stdpp Require Import gmap list.
From S2P Require Import Prelude Memory Rune Cstring Numbers Fmt FmtSpec.

(** The part of the state that output leaves alone, and the part that it works on. *)
Definition ctl (f : st) := (args f, fr f, width f, prec f, flags f, table f).
Definition io (f : st) := (to f, stop f, start f, nfmt f, flush f, smem f, wrote f).
Definition is_unit (u : unit_t) : Prop := (1 <= length u <= 4)%nat /\ Forall is_byte u.

Section sinks.
Variable write_ok : list Z -> list Z -> bool.
Abbreviation room := (room write_ok).

Record sink := mkSink {
  rep : st -> Z -> list Z -> bool -> Prop;
  accept : list Z -> unit_t -> bool;
  outside : Z -> Prop;
  memory : mem;
  bound : Z -> Prop;
  bound_le : forall n n', n' <= n -> bound n -> bound n';
  rep_io : forall f f' t o b, io f' = io f -> rep f t o b -> rep f' t o b;
  rep_bytes : forall f t o b, rep f t o b -> bytes (smem f);
  rep_outside : forall f t o b q, rep f t o b -> outside q -> smem f !! q = memory !! q;
  rep_size : forall f t o b, rep f t o b -> dom (smem f) = dom memory;
  rep_nfmt : forall f t o b, rep f t o b -> nfmt f + (t - to f) = Z.of_nat (length o);
  rep_commit : forall f t o b, rep f t o b -> rep (commit t f) t o b;
  rep_put : forall f t o b u, rep f t o b -> is_unit u -> bound (Z.of_nat (length o) + Z.of_nat (length u)) ->
    let len := Z.of_nat (length u) in
    if negb b && accept o u then
      exists f1 t1, room (t + len >? stop f) f t (stop f) len = Ok (Some (t1, stop f1), f1) /\ ctl f1 = ctl f /\
        rep f1 t1 o false /\ (forall q, t1 <= q < t1 + len -> ~ outside q) /\
        exists m, put_all (smem f1) t1 u = Ok m /\ rep (set_mem m f1) (t1 + len) (o ++ u) false
    else exists f1, room (t + len >? stop f) f t (stop f) len = Ok (None, f1) /\ ctl f1 = ctl f /\ rep f1 (to f1) o true }.
Arguments rep : clear implicits. Arguments accept : clear implicits. Arguments outside : clear implicits. Arguments memory : clear implicits. Arguments bound : clear implicits.

Section sink.
Variable K : sink.
Abbreviation rep := (rep K).
Abbreviation accept := (accept K).

(** The output after more units, and whether it has stopped. *)
Fixpoint emit (us : list unit_t) (o : list Z) (b : bool) : list Z * bool :=
  match us with
  | [] => (o, b)
  | u :: us => if negb b && accept o u then emit us (o ++ u) false else (o, true)
  end.
Lemma emit_stopped us o : emit us o true = (o, true).
Proof. by destruct us. Qed.
Lemma emit_app us1 us2 o b : emit (us1 ++ us2) o b = let '(o, b) := emit us1 o b in emit us2 o b.
Proof.
  revert o b. induction us1 as [|u us1 IH]; intros o b; [done|]. cbn [app emit]. destruct (negb b && accept o u); [apply IH|].
  by rewrite emit_stopped.
Qed.

(** [o] and then [us] stay in the bound. *)
Definition within (us : list unit_t) (o : list Z) : Prop := bound K (Z.of_nat (length o) + Z.of_nat (length (concat us))).
Lemma emit_length us o b : Z.of_nat (length (emit us o b).1) <= Z.of_nat (length o) + Z.of_nat (length (concat us)).
Proof.
  revert o b. induction us as [|u us IH]; intros o b; cbn [emit concat]; [simpl; lia|]. rewrite length_app. destruct (negb b && accept o u); [|simpl; lia].
  specialize (IH (o ++ u) false). rewrite length_app in IH. lia.
Qed.
Lemma within_app us1 us2 o b : within (us1 ++ us2) o -> within us1 o /\ within us2 (emit us1 o b).1.
Proof.
  unfold within. rewrite concat_app, length_app. pose proof (emit_length us1 o b). intros H1. split; (eapply (bound_le K); [|exact H1]; lia).
Qed.

(** [k] prints [us]: with a result when all of them went out, or none were asked for. *)
Definition body_prints (us : list unit_t) (k : st -> Z -> Z -> result (option (Z * Z) * st)) (f : st) (t : Z) : Prop :=
  forall o b, rep f t o b -> within us o ->
    exists r f', k f t (stop f) = Ok (r, f') /\ ctl f' = ctl f /\
      let '(o', b') := emit us o b in
      match r with Some (t', s') => s' = stop f' /\ rep f' t' o' b' /\ b' = b | None => rep f' (to f') o' true /\ b' = true end.
(** [g] prints [us] and returns 0, or -1 when output stopped. *)
Definition prints (us : list unit_t) (g : st -> result (Z * st)) (f : st) : Prop :=
  forall o b, rep f (to f) o b -> within us o ->
    exists e f', g f = Ok (e, f') /\ ctl f' = ctl f /\ rep f' (to f') (emit us o b).1 (emit us o b).2 /\
      (e = 0 \/ e = -1 /\ (emit us o b).2 = true) /\ ((emit us o b).2 = false -> e = 0).

(** ** One unit *)

Lemma put_prints u f t : is_unit u -> body_prints [u] (fun f t s => let* r := room (t + Z.of_nat (length u) >? s) f t s (Z.of_nat (length u)) in store u r) f t.
Proof.
  intros Hu o b Hr Hw. unfold within in Hw. cbn [concat] in Hw. rewrite app_nil_r in Hw. pose proof (rep_put K f t o b u Hr Hu Hw) as H. cbn zeta in H. cbn [emit]. destruct (negb b && accept o u) eqn:E.
  - destruct H as (f1 & t1 & -> & Hc & _ & _ & m & Hm & Hrep). cbn [rbind store]. rewrite Hm. cbn [rbind]. do 2 eexists. split; [done|]. split; [exact Hc|].
    split_and!; [done|done|]. by destruct b.
  - destruct H as (f1 & -> & Hc & Hrep). cbn [rbind store]. exists None, f1. done.
Qed.
Lemma FMTCHAR_prints c f t : is_byte c -> body_prints [[c]] (fun f t s => FMTCHAR write_ok f t s c) f t.
Proof.
  intros Hc. assert (u8 c = c) as Hu by (apply Z.mod_small; exact Hc). pose proof (put_prints [c] f t) as H. unfold FMTCHAR. rewrite Hu. apply H.
  split; [simpl; lia|by apply Forall_singleton].
Qed.
Lemma runelen_unit r : is_u32 r -> runelen r = length (unit_of r).
Proof.
  intros Hr. unfold runelen, unit_of. rewrite u32_small by done. change Runeself with 0x80. unfold is_u32 in Hr.
  destruct (Z.ltb_spec r 0x80); [|done]. by rewrite runetochar_short by lia.
Qed.
Lemma unit_is_unit r : is_u32 r -> is_unit (unit_of r).
Proof.
  intros Hr. unfold unit_of. change Runeself with 0x80. unfold is_u32 in Hr. destruct (Z.ltb_spec r 0x80).
  - split; [simpl; lia|]. apply Forall_singleton, u8_range.
  - rewrite runetochar_long by lia. set (c := if _ : bool then Runeerror else r).
    assert (scalar c) as Hc.
    { subst c. unfold scalar, Runeerror, Runemax, SurrogateMin, SurrogateMax in *. case_if; [lia|]. lia. }
    split; [|by apply utf8_bytes]. unfold utf8. case_ifs; simpl; lia.
Qed.
Lemma FMTRUNE_prints r f t : is_u32 r -> body_prints [unit_of r] (fun f t s => FMTRUNE write_ok f t s r) f t.
Proof.
  intros Hr. pose proof (unit_is_unit r Hr) as Hu. pose proof (put_prints _ f t Hu) as H. intros o b Hrep Hw. destruct (H o b Hrep Hw) as (x & f' & Hx & Hrest).
  exists x, f'. split; [|exact Hrest]. rewrite <-Hx. unfold FMTRUNE. rewrite runelen_unit by done. destruct Hu as [Hl _].
  assert ((t + Z.of_nat UTFmax >? stop f) && (t + Z.of_nat (length (unit_of r)) >? stop f) = (t + Z.of_nat (length (unit_of r)) >? stop f)) as -> by (change (Z.of_nat UTFmax) with 4; lia). done.
Qed.

(** ** Sequences *)

Lemma body_nil f t : body_prints [] (fun f t s => Ok (Some (t, s), f)) f t.
Proof. intros o b Hr _. do 2 eexists. split; [done|]. split; [done|]. by cbn. Qed.
Lemma body_seq us1 us2 k1 k2 f t : body_prints us1 k1 f t -> (forall f' t', ctl f' = ctl f -> body_prints us2 k2 f' t') ->
  body_prints (us1 ++ us2) (fun f t s => let* (o, f) := k1 f t s in match o with Some (t, s) => k2 f t s | None => Ok (None, f) end) f t.
Proof.
  intros H1 H2 o b Hr Hw. destruct (within_app us1 us2 o b Hw) as [Hw1 Hw2]. rewrite emit_app. destruct (H1 o b Hr Hw1) as (r & f1 & -> & Hc & H). cbn [rbind].
  destruct (emit us1 o b) as [o1 b1]. destruct r as [[t1 s1]|].
  - destruct H as (-> & Hr1 & ->). destruct (H2 f1 t1 Hc o1 b Hr1 Hw2) as (r2 & f2 & -> & Hc2 & H'). exists r2, f2. split; [done|]. split; [congruence|]. exact H'.
  - destruct H as [Hr1 ->]. exists None, f1. split; [done|]. split; [done|]. by rewrite emit_stopped.
Qed.
Lemma body_ext us k k' f t : body_prints us k f t -> (forall f t s, k' f t s = k f t s) -> body_prints us k' f t.
Proof. intros H E o b Hr Hw. rewrite E. by apply H. Qed.
(** A body between its local copies and the fields of [f]. *)
Lemma body_returning us k us2 g f : body_prints us k f (to f) -> (forall f', ctl f' = ctl f -> prints us2 g f') ->
  prints (us ++ us2) (fun f => let* r := k f (to f) (stop f) in returning r g) f.
Proof.
  intros Hk Hg o b Hr Hw. destruct (within_app us us2 o b Hw) as [Hw1 Hw2]. rewrite emit_app. destruct (Hk o b Hr Hw1) as (r & f1 & -> & Hc & H). cbn [rbind]. destruct (emit us o b) as [o1 b1].
  destruct r as [[t1 s1]|]; cbn [returning].
  - destruct H as (-> & Hr1 & _). pose proof (rep_commit K _ _ _ _ Hr1) as Hr2. destruct (Hg (commit t1 f1) Hc o1 b1 Hr2 Hw2) as (e & f2 & -> & Hc2 & H).
    exists e, f2. split; [done|]. split; [exact (eq_trans Hc2 Hc)|done].
  - destruct H as [Hr1 ->]. rewrite emit_stopped. exists (-1), f1. split_and!; [done..|by right|done].
Qed.
Lemma prints_done f : prints [] (fun f => Ok (0, f)) f.
Proof. intros o b Hr _. exists 0, f. cbn. split_and!; [done..|by left|done]. Qed.
Lemma pad_prints n : forall f t, body_prints (replicate n [32]) (pad_loop write_ok n) f t.
Proof.
  induction n as [|n IH]; intros f t; [apply body_nil|].
  apply (body_seq [[32]] (replicate n [32]) (fun f t s => FMTCHAR write_ok f t s 32) (pad_loop write_ok n) f t); [apply FMTCHAR_prints; by unfold is_byte|].
  intros f' t' _. apply IH.
Qed.
Lemma fmtpad_prints n f : prints (pads n) (fun f => _fmtpad write_ok f n) f.
Proof.
  unfold pads. rewrite <-(app_nil_r (replicate _ _)). apply (body_returning _ (pad_loop write_ok (Z.to_nat n))).
  - apply pad_prints.
  - intros. apply prints_done.
Qed.
(** One thing after another, the second only when the first returned 0. *)
Lemma prints_then us1 g1 us2 g2 f : prints us1 g1 f -> (forall f', ctl f' = ctl f -> prints us2 g2 f') ->
  prints (us1 ++ us2) (fun f => let* (e, f) := g1 f in if e <? 0 then Ok (-1, f) else g2 f) f.
Proof.
  intros H1 H2 o b Hr Hw. destruct (within_app us1 us2 o b Hw) as [Hw1 Hw2]. rewrite emit_app. destruct (H1 o b Hr Hw1) as (e & f1 & -> & Hc & Hr1 & He & _). cbn [rbind].
  destruct (emit us1 o b) as [o1 b1]. cbn [fst snd] in *. destruct He as [->|[-> ->]]; cbn [Z.ltb Z.compare].
  - destruct (H2 f1 Hc o1 b1 Hr1 Hw2) as (e2 & f2 & -> & Hc2 & H). exists e2, f2. split; [done|]. split; [congruence|done].
  - rewrite emit_stopped. exists (-1), f1. split_and!; [done..|by right|done].
Qed.
Lemma prints_if (c : bool) us g f : prints us g f -> prints (if c then us else []) (fun f => if c then g f else Ok (0, f)) f.
Proof. intros H. destruct c; [exact H|apply prints_done]. Qed.
Lemma justified_prints n us k f : (forall f' t, ctl f' = ctl f -> body_prints us k f' t) ->
  prints (field (flags f) (width f) n us) (fun f => justified write_ok n k f) f.
Proof.
  intros Hk. set (w := width f). set (fl := flags f).
  set (L := if negb (has fl FmtLeft) then pads (s32 (w - n)) else []). set (R := if has fl FmtLeft then pads (s32 (w - n)) else []).
  assert (field fl w n us = L ++ us ++ R) as -> by (subst L R; unfold field; destruct (has fl FmtLeft); [done|by rewrite app_nil_r]).
  set (g1 := fun f : st => if negb (has fl FmtLeft) then _fmtpad write_ok f (s32 (w - n)) else Ok (0, f)).
  set (g3 := fun f : st => let* (e, f) := if has fl FmtLeft then _fmtpad write_ok f (s32 (w - n)) else Ok (0, f) in Ok (if e <? 0 then -1 else 0, f)).
  assert (prints (L ++ us ++ R) (fun f => let* (e, f) := g1 f in if e <? 0 then Ok (-1, f) else let* r := k f (to f) (stop f) in returning r g3) f) as H; [|exact H].
  apply prints_then; [apply prints_if, fmtpad_prints|]. intros f1 Hc1. apply body_returning; [by apply Hk|]. intros f2 _.
  intros o b Hr Hw. destruct (prints_if (has fl FmtLeft) _ _ f2 (fmtpad_prints (s32 (w - n)) f2) o b Hr Hw) as (e & f3 & He & Hc3 & Hr3 & He3 & He0).
  exists (if e <? 0 then -1 else 0), f3. unfold g3. rewrite He. split_and!; [done..| |].
  - destruct He3 as [->|[-> Hb]]; [by left|by right].
  - intros H. by rewrite (He0 H).
Qed.
End sink.
End sinks.
