(* ===== verification/FmtConv.v ===== *)
(** * The conversions of dofmt.c

    Each conversion function prints, into any sink, the units that [conv_effect] gives for it. *)
From stdpp Require Import gmap list.
From S2P Require Import Prelude Memory Rune Cstring Numbers Fmt FmtSpec FmtInt FmtSink.

(** ** Runes in a list of bytes *)

Lemma need_byte c : (1 <= need c <= 4)%nat.
Proof. unfold need. case_ifs; lia. Qed.
Lemma chartorune_prefix c l rest : l !! 0%nat = Some c -> (need c <= length l)%nat -> Forall is_byte (l ++ rest) -> chartorune l = chartorune (l ++ rest).
Proof.
  intros Hc Hn Hb. rewrite (chartorune_decode _ Hb). apply Forall_app in Hb as [Hb _]. rewrite (chartorune_decode _ Hb).
  apply (decode_local c); [done|]. by rewrite take_app_le.
Qed.
Lemma rune_range l r k : Forall is_byte l -> chartorune l = Ok (r, k) -> is_u32 r.
Proof.
  intros Hb Hc. rewrite (chartorune_decode _ Hb) in Hc. destruct (decode_sound _ _ _ Hb Hc) as [(H & _)|(H & _)].
  - destruct H as [H _]. unfold is_u32, Runemax in *. lia.
  - rewrite H. done.
Qed.
(** The bytes [m] hold at least [n] runes, an incomplete one at the end counted. *)
Fixpoint enough (n : nat) (m : list Z) : Prop :=
  match n with
  | O => True
  | S n =>
      match m with
      | [] => False
      | c :: _ => (need c <= length m)%nat -> exists r k, chartorune m = Ok (r, k) /\ enough n (drop k m)
      end
  end.
Lemma enough_less n n' m : (n' <= n)%nat -> enough n m -> enough n' m.
Proof.
  revert n' m. induction n as [|n IH]; intros n' m Hn; (destruct n' as [|n']; [done|]); [lia|]. simpl. destruct m as [|c m]; [done|]. intros H Hc.
  destruct (H Hc) as (r & k & Hr & He). exists r, k. split; [done|]. apply IH; [lia|done].
Qed.
Lemma enough_runes s j : Forall in_string s -> (j <= length (runes s))%nat -> enough j (concat (take j (runes s)).*2).
Proof.
  intros Hs. revert s Hs j. apply (runes_ind (fun s => forall j, (j <= length (runes s))%nat -> enough j (concat (take j (runes s)).*2))).
  - intros j Hj. simpl in Hj. by assert (j = 0%nat) as -> by lia.
  - intros s r k Hs Hne Hc Hk _ IH j Hj. rewrite (runes_step s r k Hs Hne Hc) in Hj |- *. destruct j as [|j]; [done|]. simpl in Hj.
    cbn [take fmap list_fmap concat snd enough]. destruct s as [|b s]; [done|]. destruct k as [|k]; [lia|]. cbn [take app]. intros Hneed.
    set (tl := concat (take j (runes (drop (S k) (b :: s)))).*2) in *.
    assert (chartorune ((b :: take k s) ++ tl) = Ok (r, S k)) as Hch.
    { rewrite <-Hc. pose proof (runes_concat (drop (S k) (b :: s)) (Forall_drop _ _ _ Hs)) as Hcat.
      rewrite <-(take_drop j (runes (drop (S k) (b :: s)))), fmap_app, concat_app in Hcat. fold tl in Hcat.
      set (tl2 := concat (drop j (runes (drop (S k) (b :: s)))).*2) in *.
      assert ((b :: s) ++ [0] = ((b :: take k s) ++ tl) ++ (tl2 ++ [0])) as E.
      { rewrite <-(take_drop (S k) (b :: s)) at 1. rewrite <-Hcat. cbn [take]. by rewrite <-!app_assoc. }
      rewrite E. apply (chartorune_prefix b); [done|done|]. rewrite <-E. apply Forall_app. split; [by apply in_string_bytes|apply Forall_singleton; unfold is_byte; lia]. }
    exists r, (S k). split; [exact Hch|].
    assert (length (b :: take k s) = S k) as Hlen by (simpl in *; rewrite length_take; lia).
    rewrite app_comm_cons, <-Hlen at 1. rewrite drop_app_length. subst tl. apply IH. lia.
Qed.

Section conv.
Variable write_ok : list Z -> list Z -> bool.
Variable user : nat -> st -> result (Z * st).
Variable doquote : Z -> bool.
Variable K : sink write_ok.
Abbreviation rep := (rep write_ok K).
Abbreviation prints := (prints write_ok K).
Abbreviation body_prints := (body_prints write_ok K).
Abbreviation within := (within write_ok K).

Lemma cpy_prints n : forall m f t, Forall is_byte m -> enough n m -> body_prints (cpy_units n m) (cpy_loop write_ok n m) f t.
Proof.
  induction n as [|n IH]; intros m f t Hb He; [destruct m; apply body_nil|]. destruct m as [|c m]; [done|]. cbn [enough] in He.
  assert (is_byte c) as Hc by (by apply Forall_cons in Hb as [? _]). unfold is_byte in Hc.
  cbn [cpy_units cpy_loop lookup list_lookup of_ptr rbind]. change Runeself with 0x80.
  destruct (Z.ltb_spec c 0x80) as [Hlt|Hge].
  - assert (need c = 1%nat) as Hneed by (unfold need; by assert (c <? 0x80 = true) as -> by lia). rewrite Hneed in *.
    destruct (He ltac:(simpl; lia)) as (r & k & Hr & He'). rewrite (chartorune_ascii c m) in Hr |- * by done. injection Hr as <- <-. cbn [length Nat.leb].
    assert (body_prints ([unit_of c] ++ cpy_units n (drop 1 (c :: m))) (fun f t s => let* (o, f) := FMTRUNE write_ok f t s c in match o with Some (t, s) => cpy_loop write_ok n (drop 1 (c :: m)) f t s | None => Ok (None, f) end) f t) as H; [|exact H].
    apply body_seq; [apply FMTRUNE_prints; unfold is_u32; lia|]. intros. apply IH; [by apply Forall_drop|done].
  - assert ((if (UTFmax <=? length (c :: m))%nat then Ok true else fullrune (c :: m) (Z.of_nat (length (c :: m)))) = Ok (need c <=? length (c :: m))%nat) as E.
    { pose proof (need_byte c). destruct (Nat.leb_spec UTFmax (length (c :: m))) as [H4|].
      - unfold UTFmax in H4. by destruct (Nat.leb_spec (need c) (length (c :: m))); [|lia].
      - rewrite (fullrune_need _ _ c) by (done || simpl; lia). f_equal. destruct (Nat.leb_spec (need c) (length (c :: m))), (Z.leb_spec (Z.of_nat (need c)) (Z.of_nat (length (c :: m)))); done || lia. }
    intros o b Hr Hw. rewrite E. cbn [rbind]. revert o b Hr Hw. change (body_prints (if (need c <=? length (c :: m))%nat then match chartorune (c :: m) with Ok (r, k) => unit_of r :: cpy_units n (drop k (c :: m)) | _ => [] end else [])
      (fun f t s => if (need c <=? length (c :: m))%nat then let* (r, k) := chartorune (c :: m) in let* (o, f0) := FMTRUNE write_ok f t s r in match o with Some (t0, s0) => cpy_loop write_ok n (drop k (c :: m)) f0 t0 s0 | None => Ok (None, f0) end else Ok (Some (t, s), f)) f t).
    destruct (Nat.leb_spec (need c) (length (c :: m))) as [Hn|]; [|apply body_nil].
    destruct (He Hn) as (r & k & Hr & He'). rewrite Hr. cbn [rbind].
    apply (body_seq write_ok K [unit_of r] (cpy_units n (drop k (c :: m))) (fun f t s => FMTRUNE write_ok f t s r)).
    + apply FMTRUNE_prints. by eapply rune_range.
    + intros. apply IH; [by apply Forall_drop|done].
Qed.
Lemma rcpy_prints n : forall m f t, Forall is_u32 m -> (n <= length m)%nat -> body_prints (take n (map unit_of m)) (rcpy_loop write_ok n m) f t.
Proof.
  induction n as [|n IH]; intros m f t Hm Hn; [apply body_nil|]. destruct m as [|r m]; [simpl in Hn; lia|]. apply Forall_cons in Hm as [Hr Hm]. simpl in Hn.
  apply (body_seq write_ok K [unit_of r] (take n (map unit_of m)) (fun f t s => FMTRUNE write_ok f t s r)); [by apply FMTRUNE_prints|].
  intros. apply IH; [done|lia].
Qed.
Lemma fmtcpy_prints f m n : Forall is_byte m -> enough (Z.to_nat n) m ->
  prints (let n := clip (flags f) (prec f) n in field (flags f) (width f) n (cpy_units (Z.to_nat n) m)) (fun f => _fmtcpy write_ok f m n) f.
Proof.
  intros Hb He. assert (clip (flags f) (prec f) n = clipped f n) as E by done. cbn zeta. rewrite E.
  apply justified_prints. intros f' t _. apply cpy_prints; [done|]. eapply enough_less; [|exact He]. unfold clipped. destruct (has (flags f) FmtPrec); [|simpl; lia]. case_tests; lia.
Qed.
Lemma fmtrcpy_prints f m : Forall is_u32 m -> prints (runes_field (flags f) (width f) (prec f) m) (fun f => _fmtrcpy write_ok f m (Z.of_nat (length m))) f.
Proof.
  intros Hm. unfold runes_field. assert (clip (flags f) (prec f) (Z.of_nat (length m)) = clipped f (Z.of_nat (length m))) as E by done. cbn zeta. rewrite E.
  apply justified_prints. intros f' t _. apply rcpy_prints; [done|]. unfold clipped. destruct (has (flags f) FmtPrec); [|simpl; lia]. case_tests; lia.
Qed.

(** ** Arguments *)

Definition region_out (lo hi : Z) : Prop := forall q, lo <= q < hi -> outside write_ok K q.
Definition arg_is (a : arg) (v : value_arg) : Prop := arg_at (memory write_ok K) (outside write_ok K) a v.

Lemma rep_same f t o b lo hi : rep f t o b -> region_out lo hi -> same_between (memory write_ok K) (smem f) lo hi.
Proof. intros Hr Ho q Hq. by apply (rep_outside write_ok K _ _ _ _ _ Hr), Ho. Qed.
Lemma rep_cstr f t o b p s : rep f t o b -> cstr (memory write_ok K) p s -> region_out p (p + Z.of_nat (length s) + 1) -> cstr (smem f) p s.
Proof. intros Hr Hs Ho. eapply cstr_frame; [done|]. by eapply rep_same. Qed.
Lemma get_rune_frame m m' p : same_between m m' p (p + 4) -> get_rune m' p = get_rune m p.
Proof. intros H. unfold get_rune, get. by rewrite !H by lia. Qed.
Lemma runes_at_frame m m' p rs : runes_at m p rs -> same_between m m' p (p + 4 * Z.of_nat (length rs) + 4) -> runes_at m' p rs.
Proof.
  revert p. induction rs as [|r rs IH]; intros p; cbn [runes_at length]; intros H Hs.
  - rewrite <-H. apply get_rune_frame. intros q Hq. apply Hs. lia.
  - destruct H as (H1 & H2 & H3). split_and!; [|lia..|].
    + rewrite <-H1. apply get_rune_frame. intros q Hq. apply Hs. lia.
    + apply IH; [done|]. intros q Hq. apply Hs. lia.
Qed.
Lemma rep_runes f t o b p rs : rep f t o b -> runes_at (memory write_ok K) p rs -> region_out p (p + 4 * Z.of_nat (length rs) + 4) -> runes_at (smem f) p rs.
Proof. intros Hr Hs Ho. eapply runes_at_frame; [done|]. by eapply rep_same. Qed.
Lemma runes_loop_ok m n rs : forall fuel p i, runes_at m (p + 4 * i) rs -> (length rs < fuel)%nat ->
  runes_loop fuel m p None i = Ok rs /\ runes_loop fuel m p (Some n) i = Ok (take (Z.to_nat (n - i)) rs).
Proof.
  induction rs as [|r rs IH]; intros fuel p i H Hf; (destruct fuel as [|fuel]; [simpl in Hf; lia|]); cbn [runes_loop]; cbn [runes_at] in H.
  - rewrite H. cbn [rbind Z.eqb]. rewrite take_nil. by destruct (i >=? n).
  - destruct H as (Hr & Hr0 & H). rewrite Hr. cbn [rbind]. destruct (Z.eqb_spec r 0); [lia|].
    destruct (IH fuel p (i + 1)) as [H1 H2]; [by replace (p + 4 * (i + 1)) with (p + 4 * i + 4) by lia|simpl in Hf; lia|].
    rewrite H1, H2. split; [done|]. rewrite Z.geb_leb. destruct (Z.leb_spec n i); [by rewrite Z2Nat.nonpos by lia|].
    cbn [rbind]. replace (Z.to_nat (n - i)) with (S (Z.to_nat (n - (i + 1)))) by lia. done.
Qed.
Lemma runes_at_size m p rs : runes_at m p rs -> (length rs < turns m)%nat.
Proof.
  intros H. assert (forall t, 0 <= t < 4 * Z.of_nat (length rs) + 4 -> is_Some (m !! (p + t))) as Hm.
  { assert (forall q r, get_rune m q = Ok r -> forall t, 0 <= t < 4 -> is_Some (m !! (q + t))) as Hg.
    { intros q r Hr t Ht. unfold get_rune, get in Hr. inv_ok Hr. assert (t = 0 \/ t = 1 \/ t = 2 \/ t = 3) as [->|[->|[->| ->]]] by lia; rewrite ?Z.add_0_r; eauto. }
    revert p H. induction rs as [|r rs IH]; intros p H t Ht; cbn [runes_at length] in *; [eapply Hg; [done|lia]|].
    destruct H as (Hr & _ & H). destruct (Z.lt_ge_cases t 4); [eapply Hg; [done|lia]|].
    replace (p + t) with (p + 4 + (t - 4)) by lia. apply IH; [done|lia]. }
  pose proof (mapped_size _ _ _ Hm). unfold turns. lia.
Qed.
Lemma load_bytes m p l : bytes_at m p l -> load m p (Z.of_nat (length l)) = Ok l.
Proof.
  intros H. unfold load. assert (mapM (fun t => m !! (p + t)) (seqZ 0 (Z.of_nat (length l))) = Some l) as ->; [|done].
  apply mapM_Some. apply Forall2_same_length_lookup. split; [rewrite length_seqZ; lia|]. intros i x y Hx Hy.
  apply lookup_seqZ in Hx as [-> _]. by apply (bytes_at_lookup _ _ _ _ _ H).
Qed.
Lemma load_cstr m p s1 s2 : cstr m p (s1 ++ s2) -> load m p (Z.of_nat (length s1)) = Ok s1.
Proof. intros H%cstr_bytes_at. rewrite <-app_assoc in H. apply bytes_at_app in H as [H _]. by apply load_bytes. Qed.
(** The bytes of the first [n] runes of a string, and the others. *)
Lemma runes_split s n : Forall in_string s -> s = concat (take n (runes s)).*2 ++ concat (drop n (runes s)).*2.
Proof. intros Hs. rewrite <-(runes_concat s Hs) at 1. by rewrite <-(take_drop n (runes s)) at 1; rewrite fmap_app, concat_app. Qed.
Lemma prec_loop_ok m S n : bytes m -> forall fuel s i j, cstr m (S + i) s -> (length s < fuel)%nat ->
  let rs := take (Z.to_nat (n - j)) (runes s) in
  prec_loop fuel m S n i j = Ok (i + Z.of_nat (length (concat rs.*2)), j + Z.of_nat (length rs)).
Proof.
  intros Hm. induction fuel as [|fuel IH]; intros s i j Hs Hf rs; [lia|]. cbn [prec_loop]. subst rs. destruct (Z.ltb_spec j n).
  - destruct s as [|c s]; [rewrite (cstr_get_end _ _ Hs); cbn; rewrite firstn_nil; cbn; do 2 f_equal; lia|].
    rewrite (cstr_get _ _ _ _ Hs). cbn [rbind]. pose proof (cstr_in_string _ _ _ Hs) as Hin. pose proof (Forall_inv Hin) as Hc. unfold in_string in Hc.
    destruct (Z.eqb_spec c 0); [lia|]. destruct (chartorune_next m _ _ Hm Hs) as (r & k & -> & Hck & Hk & _ & Hs'); [done|]. cbn [rbind].
    rewrite (runes_step (c :: s) r k Hin) by done. rewrite (IH (drop k (c :: s))).
    + replace (Z.to_nat (n - j)) with (Datatypes.S (Z.to_nat (n - (j + 1)))) by lia. cbn [take fmap list_fmap concat snd]. rewrite length_app.
      assert (length (take k (c :: s)) = k) as -> by (rewrite length_take; lia). cbn [length]. do 2 f_equal; lia.
    + by replace (S + (i + Z.of_nat k)) with (S + i + Z.of_nat k) by lia.
    + rewrite length_drop. simpl in *. lia.
  - rewrite Z2Nat.nonpos by lia. cbn [take fmap list_fmap concat length]. change (Z.of_nat 0) with 0. by rewrite !Z.add_0_r.
Qed.
Lemma take_runes_length s n : Forall in_string s -> (Z.to_nat (Z.of_nat (length (take n (runes s)))) <= length (runes s))%nat.
Proof. intros _. rewrite length_take. lia. Qed.
Lemma fmtstrcpy_prints f p s : p <> 0 -> cstr (memory write_ok K) p s -> region_out p (p + Z.of_nat (length s) + 1) ->
  prints (str_field (flags f) (width f) (prec f) s) (fun f => fmtstrcpy write_ok f p) f.
Proof.
  intros Hp Hs Ho o b Hr Hw. pose proof (rep_cstr _ _ _ _ _ _ Hr Hs Ho) as Hs'. pose proof (rep_bytes write_ok K _ _ _ _ Hr) as Hb.
  pose proof (cstr_in_string _ _ _ Hs') as Hin. pose proof (cstr_turns _ _ _ Hs') as Ht.
  unfold str_field in Hw. unfold fmtstrcpy, str_field. destruct (Z.eqb_spec p 0); [done|].
  assert (forall n, is_u32 0 -> let rs := take n (runes s) in Forall is_byte (concat rs.*2) /\ enough (Z.to_nat (Z.of_nat (length rs))) (concat rs.*2) /\
    load (smem f) p (Z.of_nat (length (concat rs.*2))) = Ok (concat rs.*2)) as Hcut.
  { intros k _ rs. pose proof (runes_split s k Hin) as Hsp. fold rs in Hsp. split_and!.
    - pose proof (in_string_bytes _ Hin) as H. rewrite Hsp in H. by apply Forall_app in H as [? _].
    - rewrite Nat2Z.id. subst rs. rewrite length_take. pose proof (enough_runes s (Nat.min k (length (runes s))) Hin ltac:(lia)) as H.
      by replace (take (Nat.min k (length (runes s))) (runes s)) with (take k (runes s)) in H by (rewrite <-take_take, (take_ge (runes s) (length _)) by done; done).
    - rewrite Hsp in Hs'. by eapply load_cstr. }
  revert Hw. destruct (has (flags f) FmtPrec); intros Hw.
  - rewrite (prec_loop_ok (smem f) p (prec f) Hb _ s 0 0) by (rewrite ?Z.add_0_r; done). cbn zeta. rewrite Z.sub_0_r. cbn [rbind]. rewrite !Z.add_0_l.
    destruct (Hcut (Z.to_nat (prec f)) ltac:(done)) as (H1 & H2 & ->). cbn [rbind]. by apply fmtcpy_prints.
  - rewrite (utflen_loop_ok _ _ _ s 0 Hb Hs' Ht : utflen (smem f) p = _). cbn [rbind]. unfold strlen. rewrite (strchr_ok _ _ _ 0 Hs'). cbn [rbind Z.eqb].
    replace (p + Z.of_nat (length s) - p) with (Z.of_nat (length s)) by lia. rewrite Z.add_0_l.
    destruct (Hcut (length (runes s)) ltac:(done)) as (H1 & H2 & H3). rewrite (take_ge (runes s)) in H1, H2, H3 by done. rewrite (runes_concat s Hin) in H1, H2, H3, Hw |- *.
    rewrite H3. cbn [rbind]. by apply fmtcpy_prints.
Qed.
Lemma fmtrunestrcpy_prints f p rs : p <> 0 -> runes_at (memory write_ok K) p rs -> region_out p (p + 4 * Z.of_nat (length rs) + 4) ->
  prints (runes_field (flags f) (width f) (prec f) (if has (flags f) FmtPrec then take (Z.to_nat (prec f)) rs else rs)) (fun f => fmtrunestrcpy write_ok f p) f.
Proof.
  intros Hp Hs Ho o b Hr Hw. pose proof (rep_runes _ _ _ _ _ _ Hr Hs Ho) as Hs'. pose proof (runes_at_size _ _ _ Hs') as Hsz.
  unfold fmtrunestrcpy. destruct (Z.eqb_spec p 0); [done|].
  destruct (runes_loop_ok (smem f) (prec f) rs (turns (smem f)) p 0) as [H1 H2]; [by rewrite Z.mul_0_r, Z.add_0_r|done|]. rewrite Z.sub_0_r in H2.
  assert (Forall is_u32 rs) as Hu.
  { clear -Hs'. revert p Hs'. induction rs as [|r rs IH]; intros p H; [constructor|]. destruct H as (_ & Hr & H). constructor; [unfold is_u32; lia|by eapply IH]. }
  revert Hw. destruct (has (flags f) FmtPrec) eqn:E; intros Hw; [rewrite H2|rewrite H1]; cbn [rbind]; [|by apply fmtrcpy_prints].
  apply fmtrcpy_prints; [by apply Forall_take|done|done].
Qed.

(** ** The functions of the table *)

Definition args_are (f : st) (va : list value_arg) : Prop := Forall2 arg_is (args f) va.
(** A conversion prints [us] and leaves the arguments [va]. *)
Definition does (us : list unit_t) (va : list value_arg) (g : st -> result (Z * st)) (f : st) : Prop :=
  forall o b, rep f (to f) o b -> within us o ->
    exists e f', g f = Ok (e, f') /\ rep f' (to f') (emit write_ok K us o b).1 (emit write_ok K us o b).2 /\ args_are f' va /\ table f' = table f /\
      (e = 0 \/ e = -1 /\ (emit write_ok K us o b).2 = true) /\ ((emit write_ok K us o b).2 = false -> e = 0).
Lemma prints_does us va g f : prints us g f -> args_are f va -> does us va g f.
Proof.
  intros Hp Ha o b Hr Hw. destruct (Hp o b Hr Hw) as (e & f' & He & Hc & H1 & H2 & H3). exists e, f'. unfold ctl in Hc.
  assert (args f' = args f) as Hargs by congruence. assert (table f' = table f) as Htab by congruence. split_and!; try done. unfold args_are. by rewrite Hargs.
Qed.
(** A function that changes the arguments or the flags and goes on with [g]. *)
Lemma does_from us va g f1 g' f : g' f = g f1 -> does us va g f1 -> io f1 = io f -> table f1 = table f -> does us va g' f.
Proof.
  intros E Hd Hio Ht o b Hr Hw. rewrite E. destruct (Hd o b) as (e & f' & H1 & H2 & H3 & H4 & H5); [|done|exists e, f'; split_and!; try done; [congruence|apply H5..]].
  apply (rep_io write_ok K f); [done|]. assert (to f1 = to f) as -> by (unfold io in Hio; congruence). done.
Qed.
Lemma nil_prints f : prints (nil_field (flags f) (width f) (prec f)) (fun f => _fmtcpy write_ok f nil_text 5) f.
Proof. apply fmtcpy_prints; [by repeat first [apply Forall_nil_2|apply Forall_cons_2; [by unfold is_byte|]]|]. cbn. repeat (intros _; do 2 eexists; split; [done|]; cbn). done. Qed.
Lemma ascii_units l : Forall ascii l -> cpy_units (length l) l = map (fun c => [c]) l /\ enough (length l) l /\ Forall is_byte l.
Proof.
  induction 1 as [|c l Hc _ (IH1 & IH2 & IH3)]; [done|]. unfold ascii in Hc.
  assert (need c = 1%nat) as Hn by (unfold need; by assert (c <? 0x80 = true) as -> by lia).
  cbn [length cpy_units enough map]. rewrite Hn, (chartorune_ascii c l) by lia. cbn [Nat.leb skipn]. split_and!.
  - rewrite drop_0, IH1. unfold unit_of. change Runeself with 0x80. assert (c <? 0x80 = true) as -> by lia. do 2 f_equal. apply Z.mod_small. lia.
  - intros _. by exists c, 1%nat.
  - constructor; [unfold is_byte; lia|done].
Qed.
Lemma int_convert_does isv u fl f va us : int_units isv u (fr f) fl (prec f) (width f) (flags f) = Some us ->
  (if isv then is_u64 u else is_u32 u) -> args_are f va -> does us va (int_convert write_ok isv u fl) f.
Proof.
  intros Hus Hu Hva. unfold int_units in Hus. unfold does, int_convert. destruct (int_base (fr f)) as [[base conv]|] eqn:Hbase; [|done]. injection Hus as Hus. cbn zeta in Hus |- *.
  set (neg := negb _ && _) in *. set (u' := if neg then _ else u) in *.
  assert (0 <= u' < 2 ^ 64) as Hu'.
  { subst u'. unfold is_u64, is_u32 in Hu. pose proof (u32_range (- s32 u)). pose proof (u64_range (- s64 u)). unfold is_u32, is_u64 in *. destruct neg, isv; lia. }
  assert (digit_base base conv) as Hb by (by exists (fr f)).
  destruct (int_bytes_ok neg u' base (fr f) conv fl (prec f) (width f) Hb Hu') as [-> _]. set (l := int_text _ _ _ _ _ _ _ _) in *.
  destruct (ascii_units l (int_text_ascii _ _ _ _ _ _ _ _ Hbase)) as (Hcpy & Hen & Hby).
  cbn [rbind]. rewrite Z.ltb_irrefl, Nat2Z.id, take_ge by done.
  set (f1 := set_flags _ _).
  assert (does us va (fun f => _fmtcpy write_ok f l (Z.of_nat (length l))) f1) as Hd.
  { apply prints_does; [|subst f1; by destruct (has fl FmtZero && _)].
    assert (us = (let n := clip (flags f1) (prec f1) (Z.of_nat (length l)) in field (flags f1) (width f1) n (cpy_units (Z.to_nat n) l))) as ->.
    { assert (flags f1 = clear (flags f) FmtPrec) as E1 by (subst f1; by destruct (has fl FmtZero && _)). rewrite E1.
      unfold clip. rewrite has_cleared by done. cbn [andb]. cbn zeta. rewrite Nat2Z.id, Hcpy, <-Hus. f_equal. subst f1. by destruct (has fl FmtZero && _). }
    apply fmtcpy_prints; [done|by rewrite Nat2Z.id]. }
  intros o b Hr Hw. destruct (Hd o b) as (e & f' & H1 & H2 & H3 & H4 & H5).
  - apply (rep_io write_ok K f); [subst f1; by destruct (has fl FmtZero && _)|]. assert (to f1 = to f) as -> by (subst f1; by destruct (has fl FmtZero && _)). done.
  - done.
  - exists e, f'. split_and!; try done; [|apply H5..]. rewrite H4. subst f1. by destruct (has fl FmtZero && _).
Qed.

(** What a function of the table does, by [conv_effect]. *)
Definition has_effect (eff : option effect) (g : st -> result (Z * st)) (f : st) : Prop :=
  match eff with
  | Some (Flag fl) => g f = Ok (1, set_flags fl f)
  | Some (Prints us va) => does us va g f
  | Some (Stops va) => forall o b, rep f (to f) o b -> exists f', g f = Ok (-1, f') /\ rep f' (to f') o b
  | None => True
  end.
Lemma args_int f x va : args_are f (VInt x :: va) -> exists l, args f = A32 x :: l /\ Forall2 arg_is l va /\ is_u32 x.
Proof. intros H. destruct (Forall2_cons_inv_r _ _ _ _ H) as (a & l & [Ha Hx] & Hl & ->). exists l. by rewrite Ha. Qed.
Lemma set_args_io l f : io (set_args l f) = io f.
Proof. done. Qed.
Lemma int_arg_ok f va isv u va' : args_are f va -> int_word (flags f) va = Some (isv, u, va') ->
  exists l, int_arg f (flags f) = Ok (isv, u, set_args l f) /\ Forall2 arg_is l va' /\ (if isv then is_u64 u else is_u32 u).
Proof.
  intros Hva Hw. unfold int_word in Hw. unfold int_arg. destruct (has (flags f) FmtVLong).
  - destruct va as [|[|w| |] va]; try done. injection Hw as <- <- <-. destruct (Forall2_cons_inv_r _ _ _ _ Hva) as (a & l & [-> Hu] & Hl & Hargs).
    exists l. unfold va_arg64. rewrite Hargs. done.
  - destruct va as [|[w| | |] va]; try done. injection Hw as <- <- <-. destruct (args_int _ _ _ Hva) as (l & Hl & Hlv & Hx).
    exists l. unfold va_arg32. rewrite Hl. split_and!; [done..|]. destruct (has (flags f) FmtLong); [done|].
    pose proof (u8_range w). pose proof (u16_range w). unfold is_u32 in *.
    destruct (has (flags f) FmtByte), (has (flags f) FmtShort), (has (flags f) FmtUnsigned); try apply u32_range; try done; lia.
Qed.
Lemma conv_has_effect g f va : args_are f va -> is_u32 (fr f) ->
  has_effect (conv_effect g (fr f) (width f) (prec f) (flags f) va) (apply_fmt write_ok user doquote g) f.
Proof.
  intros Hva Hfr. unfold has_effect, conv_effect. destruct g; try done.
  - (* percent *)
    apply (does_from _ _ (fun f => _fmtrcpy write_ok f [fr f] 1) (set_prec 1 f)); [done| |done..].
    apply prints_does; [|done]. apply (fmtrcpy_prints (set_prec 1 f) [fr f]). by apply Forall_singleton.
  - (* rune *)
    destruct va as [|[x| | |] va]; try done. destruct (args_int _ _ _ Hva) as (l & Hl & Hlv & Hx).
    apply (does_from _ _ (fun f => _fmtrcpy write_ok f [x] 1) (set_args l f)); [unfold apply_fmt, _runefmt, va_arg32; by rewrite Hl| |done..].
    apply prints_does; [|done]. apply (fmtrcpy_prints (set_args l f) [x]). by apply Forall_singleton.
  - (* efg *)
    intros o b Hr. by exists f.
  - (* runes *)
    destruct va as [|[| | |[rs|]] va]; try done; destruct (Forall2_cons_inv_r _ _ _ _ Hva) as (a & l & Ha & Hl & Hargs).
    + destruct Ha as (p & -> & Hp & Hrs & Ho).
      apply (does_from _ _ (fun f => fmtrunestrcpy write_ok f p) (set_args l f)); [unfold apply_fmt, _runesfmt, va_arg32; by rewrite Hargs| |done..].
      apply prints_does; [|done]. by apply (fmtrunestrcpy_prints (set_args l f)).
    + apply (does_from _ _ (fun f => _fmtcpy write_ok f nil_text 5) (set_args l f)); [unfold apply_fmt, _runesfmt, va_arg32; rewrite Hargs; simpl in Ha; by rewrite Ha| |done..].
      apply prints_does; [|done]. apply (nil_prints (set_args l f)).
  - (* int *)
    destruct (Z.eqb_spec (fr f) 112) as [Hp|Hp].
    + destruct va as [|[x| | |] va]; try done. destruct (args_int _ _ _ Hva) as (l & Hl & Hlv & Hx).
      destruct (int_units false x 120 (Z.lor (flags f) FmtUnsigned) (prec f) (width f) (flags f)) as [us|] eqn:E; [|done].
      apply (does_from _ _ (int_convert write_ok false x (Z.lor (flags f) FmtUnsigned)) (set_spec 120 (width f) (prec f) (flags f) (set_args l f)));
        [unfold apply_fmt, _ifmt, va_arg32; by rewrite Hp, Hl| |done..]. by apply int_convert_does.
    + destruct (int_word (flags f) va) as [[[isv u] va']|] eqn:Ew; [|done].
      destruct (int_arg_ok f va isv u va' Hva Ew) as (l & Harg & Hlv & Hu).
      assert (forall f', apply_fmt write_ok user doquote F_int f' = _ifmt write_ok f') as Hif by done.
      assert (_ifmt write_ok f = int_convert write_ok isv u (flags f) (set_args l f)) as Hi.
      { unfold _ifmt. destruct (Z.eqb_spec (fr f) 112); [done|]. by rewrite Harg. }
      destruct (int_units isv u (fr f) (flags f) (prec f) (width f) (flags f)) as [us|] eqn:E.
      * apply (does_from _ _ (int_convert write_ok isv u (flags f)) (set_args l f)); [by rewrite Hif, Hi| |done..]. by apply int_convert_does.
      * intros o b Hr. exists (set_args l f). rewrite Hif, Hi. unfold int_units in E. unfold int_convert. cbn [fr set_args].
        destruct (int_base (fr f)) as [[base conv]|]; [done|]. split; [done|]. by apply (rep_io write_ok K f).
  - (* char *)
    destruct va as [|[x| | |] va]; try done. destruct (args_int _ _ _ Hva) as (l & Hl & Hlv & Hx).
    apply (does_from _ _ (fun f => _fmtcpy write_ok f [u8 x] 1) (set_prec 1 (set_args l f))); [unfold apply_fmt, _charfmt, va_arg32; by rewrite Hl| |done..].
    apply prints_does; [|done].
    assert (field (flags f) (width f) 1 (cpy_units 1 [u8 x]) = (let n := clip (flags f) 1 1 in field (flags f) (width f) n (cpy_units (Z.to_nat n) [u8 x]))) as ->.
    { unfold clip. by destruct (has (flags f) FmtPrec). }
    apply (fmtcpy_prints (set_prec 1 (set_args l f)) [u8 x] 1); [apply Forall_singleton, u8_range|]. intros Hn. cbn [length] in Hn.
    exists (u8 x), 1%nat. split; [|done]. apply chartorune_ascii. revert Hn. unfold need. case_ifs; lia.
  - (* string *)
    destruct va as [|[| |[s|]|] va]; try done; destruct (Forall2_cons_inv_r _ _ _ _ Hva) as (a & l & Ha & Hl & Hargs).
    + destruct Ha as (p & -> & Hp & Hs & Ho).
      apply (does_from _ _ (fun f => fmtstrcpy write_ok f p) (set_args l f)); [unfold apply_fmt, _strfmt, va_arg32; by rewrite Hargs| |done..].
      apply prints_does; [|done]. by apply (fmtstrcpy_prints (set_args l f)).
    + apply (does_from _ _ (fun f => _fmtcpy write_ok f nil_text 5) (set_args l f)); [unfold apply_fmt, _strfmt, va_arg32; rewrite Hargs; simpl in Ha; by rewrite Ha| |done..].
      apply prints_does; [|done]. apply (nil_prints (set_args l f)).
  - (* bad *)
    intros o b Hr Hw. destruct (fmtrcpy_prints (set_prec 3 f) [37; fr f; 37]) with (o := o) (b := b) as (e & f' & He & Hc & Hr' & _).
    + repeat first [apply Forall_nil_2|apply Forall_cons_2; [done|]].
    + by apply (rep_io write_ok K f).
    + done.
    + exists 0, f'. cbn [apply_fmt]. unfold _badfmt. change 3 with (Z.of_nat (length [37; fr f; 37])) at 2. rewrite He. cbn [rbind]. unfold ctl in Hc.
      split_and!; try done; [|by injection Hc|by left]. unfold args_are. assert (args f' = args f) as -> by (by injection Hc). done.
Qed.
End conv.
