(* ===== verification/FmtPrint.v ===== *)
(** * The functions that print

    [_fmtdispatch] and [dofmt] print into any sink the text that [FmtSpec] gives for the format.  A buffer keeps the
    units that fit in it; a file gets all of them, whatever the buffer in between.  From this follow the
    properties of [vsnprint], [vseprint] and [vfprint]. *)
From stdpp Require Import gmap list.
From S2P Require Import Prelude Memory Rune Cstring Numbers Fmt FmtSpec FmtInt FmtSink FmtConv.

(** ** The table of conversions *)

(** Tables that give every character the same function. *)
Definition same_convs (l l' : list (Z * Fmts)) : Prop := forall c, conv_of l c = conv_of l' c.
Lemma find_fmt_app c l1 l2 : find_fmt c (l1 ++ l2) = match find_fmt c l1 with Some g => Some g | None => find_fmt c l2 end.
Proof. induction l1 as [|[c' g] l1 IH]; [done|]. cbn [app find_fmt]. by destruct (c' =? c). Qed.
Lemma replace_none c g l : find_fmt c l = None -> replace_fmt c g l = None.
Proof. induction l as [|[c' g'] l IH]; [done|]. cbn [find_fmt replace_fmt]. destruct (c' =? c); [done|]. intros H. by rewrite IH. Qed.
Lemma replace_find c g l l' : replace_fmt c g l = Some l' ->
  length l' = length l /\ forall c', find_fmt c' l' = if c' =? c then Some g else find_fmt c' l.
Proof.
  revert l'. induction l as [|[c0 g0] l IH]; intros l'; [done|]. cbn [replace_fmt]. destruct (Z.eqb_spec c0 c) as [->|Hne].
  - intros [= <-]. split; [done|]. intros c'. cbn [find_fmt]. rewrite (Z.eqb_sym c'). by destruct (c =? c').
  - destruct (replace_fmt c g l) as [l1|]; [|done]. intros [= <-]. destruct (IH l1 eq_refl) as [Hl Hf]. split; [cbn [length]; lia|].
    intros c'. cbn [find_fmt]. rewrite Hf. destruct (Z.eqb_spec c0 c') as [->|]; [|done]. by destruct (Z.eqb_spec c' c).
Qed.
Lemma replace_some c g l : find_fmt c l <> None -> exists l', replace_fmt c g l = Some l'.
Proof.
  induction l as [|[c' g'] l IH]; [done|]. cbn [find_fmt replace_fmt]. destruct (c' =? c); [eauto|]. intros H. destruct (IH H) as [l' ->]. eauto.
Qed.
Lemma fmtfmt_conv c l : (fmtfmt c l).1 = conv_of l c /\ same_convs (fmtfmt c l).2 l.
Proof.
  unfold fmtfmt, conv_of, same_convs. destruct (find_fmt c l) eqn:E; [done|]. destruct (find_fmt c knownfmt) as [g|] eqn:Ek; [|done].
  split; [done|]. intros c'. unfold _fmtinstall. cbn [snd]. destruct ((c <=? 0) || (c >=? 65536)); [done|]. rewrite (replace_none _ _ _ E).
  destruct (length l =? Maxfmt)%nat; [done|]. cbn [snd]. unfold conv_of. rewrite find_fmt_app. cbn [find_fmt].
  destruct (find_fmt c' l) eqn:E'; [done|]. destruct (Z.eqb_spec c c') as [->|]; [by rewrite Ek|done].
Qed.

(** ** Numbers in a format *)

Lemma number_char c : is_byte c -> is_num (u32 (s8 c)) = is_num c /\ (is_num c = true -> u32 (s8 c) = c).
Proof. intros Hc. unfold is_byte in Hc. unfold is_num, u32, s8. split; [|intros H]; zlia. Qed.
Lemma number_loop_ok m : forall fuel s p r i, cstr m p s -> bytes m -> is_num r = true -> (length s < fuel)%nat ->
  exists s1 s2 i', s = s1 ++ s2 /\ number_text (s32 (i * 10 + r - 48)) s = (i', s2) /\ number_loop fuel m p r i = Ok (i', p + Z.of_nat (length s1)).
Proof.
  assert (forall r fuel m p i, is_num r = false -> number_loop fuel m p r i = Ok (i, p - 1)) as Hstop.
  { intros r fuel m' p i H. unfold is_num in H. destruct fuel; cbn [number_loop]; by rewrite H. }
  induction fuel as [|fuel IH]; intros s p r i Hs Hb Hr Hf; [lia|]. cbn [number_loop]. unfold is_num in Hr. rewrite Hr.
  destruct s as [|c s].
  - rewrite (cstr_get_end _ _ Hs). cbn [rbind]. exists [], [], (s32 (i * 10 + r - 48)). split_and!; [done..|].
    rewrite Hstop by done. cbn [length]. do 2 f_equal. lia.
  - rewrite (cstr_get _ _ _ _ Hs). cbn [rbind]. pose proof (Forall_inv (cstr_in_string _ _ _ Hs)) as Hc. unfold in_string in Hc.
    destruct (number_char c ltac:(unfold is_byte; lia)) as [H1 H2]. cbn [number_text]. destruct (is_num c) eqn:Ec.
    + rewrite (H2 eq_refl). pose proof (cstr_suffix m p [c] s Hs) as Hs'. cbn [length] in Hs', Hf.
      destruct (IH s (p + 1) c (s32 (i * 10 + r - 48)) Hs' Hb Ec ltac:(lia)) as (s1 & s2 & i' & -> & H & ->).
      exists (c :: s1), s2, i'. split_and!; [done..|]. cbn [length]. do 2 f_equal. lia.
    + rewrite Hstop by done. exists [], (c :: s), (s32 (i * 10 + r - 48)). split_and!; [done..|]. cbn [length]. do 2 f_equal. lia.
Qed.

Lemma number_text_length s : forall i, (length (number_text i s).2 <= length s)%nat.
Proof. induction s as [|c s IH]; intros i; cbn [number_text]; [done|]. destruct (is_num c); [|done]. specialize (IH (s32 (i * 10 + c - 48))). simpl in *. lia. Qed.
Lemma conv_text_length tab n : forall s w p fl va us s' va', conv_text tab n s w p fl va = Some (us, Some s', va') -> (length s' <= length s)%nat.
Proof.
  induction n as [|n IH]; intros s w p fl va us s' va'; [done|]. cbn [conv_text]. destruct s as [|c s]; [done|].
  destruct (chartorune _) as [[r k]| | |]; try done. set (s1 := drop k (c :: s)). assert (length s1 <= length (c :: s))%nat as Hl by (subst s1; rewrite length_drop; lia).
  assert (forall w p fl va s2, (length s2 <= length s1)%nat -> conv_text tab n s2 w p fl va = Some (us, Some s', va') -> (length s' <= length (c :: s))%nat) as Hgo.
  { intros w1 p1 fl1 va1 s2 H2 H. apply IH in H. lia. }
  destruct (r =? 46); [by apply Hgo|]. destruct (_ && _); [by apply Hgo|].
  destruct (is_num r).
  { pose proof (number_text_length s1 (s32 (r - 48))) as Hn. destruct (number_text _ s1) as [i s2]. destruct (numbered i w p fl) as [[w1 p1] fl1]. by apply Hgo. }
  destruct (r =? 42).
  { destruct va as [|[x| | |] va]; try done. destruct (_ <? 0); [destruct (has fl FmtPrec); [by apply Hgo|]|].
    - destruct (numbered (s32 (- s32 x)) w p (Z.lor fl FmtLeft)) as [[w1 p1] fl1]. by apply Hgo.
    - destruct (numbered (s32 x) w p fl) as [[w1 p1] fl1]. by apply Hgo. }
  destruct (conv_effect _ _ _ _ _ _) as [[fl1|us1 va1|va1]|]; try done; [by apply Hgo|]. by intros [= _ <- _].
Qed.

Section print.
Variable write_ok : list Z -> list Z -> bool.
Variable user : nat -> st -> result (Z * st).
Variable doquote : Z -> bool.
Variable tab : list (Z * Fmts).
Variable K : sink write_ok.
Abbreviation rep := (rep write_ok K).
Abbreviation emit := (emit write_ok K).
Abbreviation within := (within write_ok K).
Abbreviation args_are := (args_are write_ok K).
Abbreviation dispatch_loop := (dispatch_loop write_ok user doquote).

(** [s] is what is left of the format, at [p]. *)
Definition at_fmt (p : Z) (s : list Z) : Prop := cstr (memory write_ok K) p s /\ region_out write_ok K p (p + Z.of_nat (length s) + 1).
Lemma at_fmt_suffix p s1 s2 : at_fmt p (s1 ++ s2) -> at_fmt (p + Z.of_nat (length s1)) s2.
Proof. intros [Hs Ho]. split; [by apply cstr_suffix|]. intros q Hq. apply Ho. rewrite length_app. lia. Qed.
Lemma at_fmt_drop p s k : (k <= length s)%nat -> at_fmt p s -> at_fmt (p + Z.of_nat k) (drop k s).
Proof. intros Hk H. rewrite <-(take_drop k s) in H. apply at_fmt_suffix in H. by rewrite length_take_le in H. Qed.
Lemma at_fmt_cstr f t o b p s : rep f t o b -> at_fmt p s -> cstr (smem f) p s.
Proof. intros Hr [Hs Ho]. by eapply rep_cstr. Qed.

(** ** One conversion *)

(** The state inside a conversion: what it prints goes after [o], its arguments are [va]. *)
Definition ready (f : st) (va : list value_arg) (o : list Z) (b : bool) : Prop :=
  rep f (to f) o b /\ args_are f va /\ same_convs (table f) tab.
Lemma ready_spec r w p fl f va o b : ready f va o b -> ready (set_spec r w p fl f) va o b.
Proof. intros (H1 & H2 & H3). split_and!; [by apply (rep_io write_ok K f)|done..]. Qed.
Lemma ready_args f x va o b : ready f (VInt x :: va) o b -> exists f1, va_arg32 f = Ok (x, f1) /\ ready f1 va o b /\ width f1 = width f /\ prec f1 = prec f /\ flags f1 = flags f.
Proof.
  intros (H1 & H2 & H3). destruct (args_int _ _ _ _ _ H2) as (l & Hl & Hlv & _). exists (set_args l f). unfold va_arg32. rewrite Hl.
  split_and!; [done| |done..]. split_and!; [by apply (rep_io write_ok K f)|done..].
Qed.
(** What [_fmtdispatch] leaves: the rest of the format, unless output stopped or the conversion ended it. *)
Definition dispatched (us : list unit_t) (rest : option (list Z)) (va : list value_arg) (o : list Z) (b : bool) (r : result (option Z * st)) : Prop :=
  exists ret f', r = Ok (ret, f') /\ rep f' (to f') (emit us o b).1 (emit us o b).2 /\
    match rest with
    | None => ret = None
    | Some s => (ret = None /\ (emit us o b).2 = true) \/ exists p, ret = Some p /\ at_fmt p s /\ ready f' va (emit us o b).1 (emit us o b).2
    end.
Lemma numflag_numbered i f w p fl : numbered i (width f) (prec f) (flags f) = (w, p, fl) -> numflag i f = set_spec (fr f) w p fl f.
Proof. unfold numbered, numflag. by destruct (has (flags f) FmtWidth); intros [= <- <- <-]. Qed.

Lemma dispatch_ok n : forall s fuel p f us rest va va' o b,
  conv_text tab n s (width f) (prec f) (flags f) va = Some (us, rest, va') -> at_fmt p s -> ready f va o b -> (length s < fuel)%nat -> within us o ->
  dispatched us rest va' o b (dispatch_loop fuel f p).
Proof.
  induction n as [|n IH]; intros s fuel p f us rest va va' o b Ht Hp Hf Hl Hwi; [done|]. destruct fuel as [|fuel]; [lia|].
  pose proof Hf as (Hr & Hva & Htab). pose proof (at_fmt_cstr _ _ _ _ _ _ Hr Hp) as Hs. pose proof (rep_bytes write_ok K _ _ _ _ Hr) as Hb.
  cbn [conv_text] in Ht. cbn [Fmt.dispatch_loop]. destruct s as [|c s].
  - injection Ht as <- <- <-. rewrite (chartorune_at_end _ _ Hb Hs). cbn [rbind Z.eqb]. do 2 eexists. split; [done|]. split; [|done].
    by apply (rep_io write_ok K f).
  - destruct (chartorune_next _ _ _ Hb Hs) as (r & k & -> & Hck & Hk & Hr0 & _); [done|]. rewrite Hck in Ht. cbn [rbind].
    assert (is_u32 r) as Hru.
    { apply (rune_range (c :: s ++ [0]) r k); [|done]. apply (Forall_app is_byte (c :: s) [0]). split; [eapply in_string_bytes, cstr_in_string, Hs|by apply Forall_singleton]. }
    destruct (Z.eqb_spec r 0); [done|]. pose proof (at_fmt_drop p (c :: s) k ltac:(lia) Hp) as Hp'.
    assert (length (drop k (c :: s)) < fuel)%nat as Hl' by (rewrite length_drop; simpl in *; lia). set (s' := drop k (c :: s)) in *. set (p' := p + Z.of_nat k) in *.
    set (f1 := set_spec r (width f) (prec f) (flags f) f). assert (ready f1 va o b) as Hf1 by (by apply ready_spec).
    (* going on after a number *)
    assert (forall f2 i va2 s2 p2, (let '(w, p, fl) := numbered i (width f2) (prec f2) (flags f2) in conv_text tab n s2 w p fl va2) = Some (us, rest, va') ->
      at_fmt p2 s2 -> ready f2 va2 o b -> (length s2 < fuel)%nat -> dispatched us rest va' o b (dispatch_loop fuel (numflag i f2) p2)) as Hnum.
    { intros f2 i va2 s2 p2 H1 H2 H3 H4. destruct (numbered i (width f2) (prec f2) (flags f2)) as [[w1 p1] fl1] eqn:E. rewrite (numflag_numbered _ _ _ _ _ E).
      apply (IH s2 fuel p2 _ us rest va2); [done|done|by apply ready_spec|done|done]. }
    destruct (r =? 46); [by apply (IH s' fuel p' _ us rest va); [| |apply ready_spec| |]|].
    change (flags f1) with (flags f). destruct ((r =? 48) && negb (has (flags f) FmtWidth)); [by apply (IH s' fuel p' _ us rest va); [| |apply ready_spec| |]|].
    change ((48 <=? r) && (r <=? 57)) with (is_num r). destruct (is_num r) eqn:En.
    { pose proof (at_fmt_cstr _ _ _ _ _ _ Hr Hp') as Hs'. change (smem f1) with (smem f).
      destruct (number_loop_ok (smem f) (turns (smem f)) s' p' r 0 Hs' Hb En (cstr_turns _ _ _ Hs')) as (s1 & s2 & i & Es & Hi & ->). cbn [rbind].
      replace (0 * 10 + r - 48) with (r - 48) in Hi by lia. rewrite Hi in Ht. rewrite Es in Hp', Hl'. apply at_fmt_suffix in Hp'.
      apply (Hnum f1 i va s2); [done..|]. rewrite length_app in Hl'. lia. }
    destruct (r =? 42).
    { destruct va as [|[x| | |] va]; try done. destruct (ready_args f1 x va o b Hf1) as (f2 & -> & Hf2 & Ew & Epr & Efl). cbn [rbind].
      change (width f1) with (width f) in Ew. change (prec f1) with (prec f) in Epr. change (flags f1) with (flags f) in Efl.
      rewrite Efl. destruct (s32 x <? 0).
      - destruct (has (flags f) FmtPrec); [rewrite Ew; by apply (IH s' fuel p' _ us rest va); [| |apply ready_spec| |]|].
        apply (Hnum _ _ va s'); [|done|by apply ready_spec|done]. cbn [set_flags set_spec width prec flags]. by rewrite Ew, Epr.
      - apply (Hnum f2 _ va s'); [|done..]. by rewrite Ew, Epr, Efl. }
    destruct (fmtfmt_conv r (table f)) as [Eg Hsame]. change (table f1) with (table f). destruct (fmtfmt r (table f)) as [g l]. cbn [fst snd] in Eg, Hsame.
    assert (same_convs l tab) as Hl2 by (intros c'; by rewrite Hsame). rewrite (Htab r) in Eg. rewrite <-Eg in Ht.
    pose proof (conv_has_effect write_ok user doquote K g (set_table l f1) va Hva Hru) as He.
    change (fr (set_table l f1)) with r in He. change (width (set_table l f1)) with (width f) in He. change (prec (set_table l f1)) with (prec f) in He. change (flags (set_table l f1)) with (flags f) in He.
    destruct (conv_effect g r (width f) (prec f) (flags f) va) as [[fl|us1 va1|va1]|]; cbn [has_effect] in He; [| | |done].
    + rewrite He. cbn [rbind Z.ltb Z.compare Z.eqb]. apply (IH s' fuel p' _ us rest va); [done|done| |done|done]. apply ready_spec. split_and!; [by apply (rep_io write_ok K f)|done..].
    + injection Ht as <- <- <-. destruct (He o b) as (e & f2 & -> & Hr2 & Ha2 & Ht2 & Hcase & Hgo); [by apply (rep_io write_ok K f)|done|]. cbn [rbind].
      destruct Hcase as [->|[-> Hst]]; cbn [Z.ltb Z.compare Z.eqb].
      * exists (Some p'), f2. split; [done|]. split; [done|]. right. exists p'. split_and!; [done..|]. split_and!; [done..|]. by rewrite Ht2.
      * exists None, f2. split; [done|]. split; [done|]. by left.
    + injection Ht as <- <- <-. destruct (He o b) as (f2 & -> & Hr2); [by apply (rep_io write_ok K f)|]. cbn [rbind Z.ltb Z.compare]. by exists None, f2.
Qed.
Lemma fmtdispatch_ok n s p f us rest va va' o b :
  conv_text tab n s 0 0 0 va = Some (us, rest, va') -> at_fmt p s -> ready f va o b -> within us o ->
  dispatched us rest va' o b (_fmtdispatch write_ok user doquote f p).
Proof.
  intros Ht Hp Hf Hwi. pose proof Hf as (Hr & _). pose proof (cstr_turns _ _ _ (at_fmt_cstr _ _ _ _ _ _ Hr Hp)) as Hl. unfold _fmtdispatch.
  destruct (dispatch_ok n s (turns (smem f)) p (set_spec (fr f) 0 0 0 f) us rest va va' o b Ht Hp (ready_spec _ _ _ _ _ _ _ _ Hf) Hl Hwi) as (ret & f' & -> & Hr' & Hm).
  cbn [rbind]. do 2 eexists. split; [done|]. split; [by apply (rep_io write_ok K f')|]. destruct rest as [s'|]; [|done].
  destruct Hm as [?|(p' & -> & Hp' & Hf')]; [by left|]. right. exists p'. split_and!; [done..|]. by apply ready_spec.
Qed.

(** ** The text between conversions *)

Lemma copy_put_all n : forall m t p l, bytes_at m p l -> length l = n -> (forall q, t <= q < t + Z.of_nat n -> ~ p <= q < p + Z.of_nat n) ->
  copy_bytes n m t p = put_all m t l.
Proof.
  induction n as [|n IH]; intros m t p l Hl Hn Hd; (destruct l as [|c l]; simpl in Hn; try lia); [done|]. destruct Hl as [Hc Hl].
  cbn [copy_bytes put_all]. rewrite (get_some _ _ _ Hc). cbn [rbind]. unfold put. destruct (get m t); cbn [rbind]; [|done..].
  apply IH; [|lia|].
  - apply (bytes_at_frame m); [done|]. apply insert_same_between. specialize (Hd t). lia.
  - intros q Hq. specialize (Hd q). lia.
Qed.
(** What the loop of the text leaves. *)
Definition text_done (us : list unit_t) (rest : list Z) (f : st) (o : list Z) (b : bool) (x : result (option (Z * Z * Z * Z) * st)) : Prop :=
  exists r f', x = Ok (r, f') /\ ctl f' = ctl f /\
    match r with
    | Some (t', s', p', c) => s' = stop f' /\ rep f' t' (emit us o b).1 (emit us o b).2 /\ at_fmt p' rest /\ c = hd 0 rest
    | None => rep f' (to f') (emit us o b).1 true /\ (emit us o b).2 = true
    end.
(** The bytes of a character, copied from the format. *)
Definition copy_unit (k : nat) (p : Z) (f : st) (t s : Z) : result (option (Z * Z) * st) :=
  let* (o, f) := room write_ok (t + Z.of_nat k >? s) f t s (Z.of_nat k) in
  match o with
  | None => Ok (None, f)
  | Some (t, s) => let* m := copy_bytes k (smem f) t p in Ok (Some (t + Z.of_nat k, s), set_mem m f)
  end.
Lemma copy_prints k p s f t : at_fmt p s -> (k <= length s)%nat -> is_unit (take k s) -> body_prints write_ok K [take k s] (copy_unit k p) f t.
Proof.
  intros Hp Hk Hu o b Hr Hw. unfold FmtSink.within in Hw. cbn [concat] in Hw. rewrite app_nil_r in Hw. pose proof (rep_put write_ok K f t o b _ Hr Hu Hw) as H. cbn zeta in H. cbn [FmtSink.emit].
  rewrite (length_take_le _ _ Hk) in H. unfold copy_unit. destruct (negb b && accept write_ok K o (take k s)) eqn:E.
  - destruct H as (f1 & t1 & -> & Hc & Hr1 & Hout & m & Hm & Hrep). cbn [rbind].
    rewrite (copy_put_all k (smem f1) t1 p (take k s)).
    + rewrite Hm. cbn [rbind]. do 2 eexists. split; [done|]. split; [exact Hc|]. split_and!; [done|done|by destruct b].
    + pose proof (cstr_bytes_at _ _ _ (at_fmt_cstr _ _ _ _ _ _ Hr1 Hp)) as Hb. rewrite <-(take_drop k s), <-app_assoc in Hb. by apply bytes_at_app in Hb as [? _].
    + by rewrite length_take_le.
    + intros q Hq Hin. apply (Hout q Hq). apply Hp. lia.
  - destruct H as (f1 & -> & Hc & Hrep). exists None, f1. done.
Qed.
Lemma raw_unit s r k : Forall in_string s -> chartorune (s ++ [0]) = Ok (r, k) -> (1 <= k <= length s)%nat -> is_unit (take k s).
Proof.
  intros Hin Hck Hk. split; [|by apply Forall_take, in_string_bytes]. rewrite length_take_le by lia. split; [lia|].
  assert (Forall is_byte (s ++ [0])) as Hby by (apply Forall_app; split; [by apply in_string_bytes|by apply Forall_singleton]).
  rewrite (chartorune_decode _ Hby) in Hck. destruct (decode_sound _ _ _ Hby Hck) as [(_ & _ & ->)|(_ & -> & _)]; [|lia].
  unfold utf8. case_ifs; simpl; lia.
Qed.
(** A unit and what follows it. *)
Lemma text_step u us rest f t o b (k : st -> Z -> Z -> result (option (Z * Z) * st)) g :
  body_prints write_ok K [u] k f t -> rep f t o b -> within (u :: us) o ->
  (forall f1 t1 o1, ctl f1 = ctl f -> rep f1 t1 o1 b -> within us o1 -> text_done us rest f1 o1 b (g f1 t1 (stop f1))) ->
  text_done (u :: us) rest f o b (let* (x, f) := k f t (stop f) in match x with None => Ok (None, f) | Some (t, s) => g f t s end).
Proof.
  intros Hk Hr Hw Hg. destruct (within_app write_ok K [u] us o b Hw) as [Hw1 Hw2]. destruct (Hk o b Hr Hw1) as (r & f1 & -> & Hc & H). cbn [rbind]. unfold text_done. change (u :: us) with ([u] ++ us).
  rewrite emit_app. destruct (emit [u] o b) as [o1 b1]. cbn [fst] in Hw2. destruct r as [[t1 s1]|].
  - destruct H as (-> & Hr1 & ->). destruct (Hg f1 t1 o1 Hc Hr1 Hw2) as (r2 & f2 & -> & Hc2 & H2). exists r2, f2. split; [done|]. split; [congruence|done].
  - destruct H as [Hr1 ->]. rewrite emit_stopped. exists None, f1. done.
Qed.
Lemma text_ok n : forall s fuel p f t o b us rest, plain_text n s = (us, rest) -> (length s <= n)%nat -> at_fmt p s -> rep f t o b -> (length s < fuel)%nat -> within us o ->
  text_done us rest f o b (text_loop write_ok fuel f t (stop f) p) /\ (rest = [] \/ exists rest', rest = 37 :: rest' /\ (length rest' < length s)%nat).
Proof.
  assert (forall s f t o b fuel p c, at_fmt p s -> rep f t o b -> get (smem f) p = Ok c -> (c = 0 \/ c = 37) -> c = hd 0 s ->
    text_done [] s f o b (text_loop write_ok (S fuel) f t (stop f) p)) as Hend.
  { intros s f t o b fuel p c Hp Hr Hg Hc Hh. cbn [text_loop]. rewrite Hg. cbn [rbind]. assert ((c =? 0) || (c =? 37) = true) as -> by lia.
    exists (Some (t, stop f, p, c)), f. done. }
  induction n as [|n IH]; intros s fuel p f t o b us rest Hpt Hn Hp Hr Hl Hw; (destruct fuel as [|fuel]; [lia|]);
    pose proof (at_fmt_cstr _ _ _ _ _ _ Hr Hp) as Hs; pose proof (rep_bytes write_ok K _ _ _ _ Hr) as Hb.
  - destruct s as [|c s]; [|simpl in Hn; lia]. injection Hpt as <- <-. split; [|by left]. apply (Hend [] f t o b fuel p 0 Hp Hr (cstr_get_end _ _ Hs)); [by left|done].
  - cbn [plain_text] in Hpt. destruct s as [|c s].
    + injection Hpt as <- <-. split; [|by left]. apply (Hend [] f t o b fuel p 0 Hp Hr (cstr_get_end _ _ Hs)); [by left|done].
    + pose proof (cstr_get _ _ _ _ Hs) as Hget. destruct (Z.eqb_spec c 37) as [->|Hc37].
      { injection Hpt as <- <-. split; [apply (Hend _ f t o b fuel p 37 Hp Hr Hget); [by right|done]|]. right. exists s. split; [done|simpl; lia]. }
      destruct (chartorune_next _ _ _ Hb Hs) as (r & k & Hat & Hck & Hk & Hr0 & _); [done|]. rewrite Hck in Hpt.
      destruct (plain_text n (drop k (c :: s))) as [us' rest'] eqn:Ept. injection Hpt as <- <-.
      pose proof (at_fmt_drop p (c :: s) k ltac:(lia) Hp) as Hp'. pose proof (cstr_in_string _ _ _ Hs) as Hin. pose proof (Forall_inv Hin) as Hc. unfold in_string in Hc.
      assert (forall f1 t1 o1, rep f1 t1 o1 b -> within us' o1 -> text_done us' rest' f1 o1 b (text_loop write_ok fuel f1 t1 (stop f1) (p + Z.of_nat k)) /\
        (rest' = [] \/ exists rest1, rest' = 37 :: rest1 /\ (length rest1 < length (c :: s))%nat)) as Hgo.
      { intros f1 t1 o1 Hr1 Hw1. destruct (IH (drop k (c :: s)) fuel (p + Z.of_nat k) f1 t1 o1 b us' rest' Ept) as [H1 H2];
          [rewrite length_drop; simpl in *; lia|done|done|rewrite length_drop; simpl in *; lia|done|].
        split; [done|]. destruct H2 as [?|(x & -> & Hx)]; [by left|]. right. exists x. split; [done|]. rewrite length_drop in Hx. lia. }
      split; [|apply (Hgo f t o Hr), (bound_le write_ok K (Z.of_nat (length o) + Z.of_nat (length (concat (take k (c :: s) :: us'))))); [cbn [concat]; rewrite length_app; lia|done]].
      cbn [text_loop]. rewrite Hget. cbn [rbind]. assert ((c =? 0) || (c =? 37) = false) as -> by lia. change Runeself with 0x80.
      destruct (Z.ltb_spec c 0x80).
      * assert (k = 1%nat) as -> by (pose proof (chartorune_ascii c (s ++ [0]) ltac:(done)) as E; cbn [app] in Hck; rewrite E in Hck; by injection Hck).
        apply (text_step [c] us' rest' f t o b (fun f t s => FMTCHAR write_ok f t s c) (fun f t s => text_loop write_ok fuel f t s (p + 1)));
          [apply FMTCHAR_prints; unfold is_byte; lia|done|done|]. intros f1 t1 o1 _ Hr1 Hw1. by apply Hgo.
      * rewrite Hat. cbn [rbind].
        assert (forall g : st -> Z -> Z -> result (option (Z * Z * Z * Z) * st),
          (let* (o, f) := room write_ok (t + Z.of_nat k >? stop f) f t (stop f) (Z.of_nat k) in
           match o with None => Ok (None, f) | Some (t, s) => let* m := copy_bytes k (smem f) t p in g (set_mem m f) (t + Z.of_nat k) s end) =
          let* (x, f) := copy_unit k p f t (stop f) in match x with None => Ok (None, f) | Some (t, s) => g f t s end) as Hassoc.
        { intros g. unfold copy_unit. destruct (room _ _ _ _ _ _) as [[[[t1 s1]|] f1]| | |]; cbn [rbind]; try done. by destruct (copy_bytes _ _ _ _). }
        rewrite (Hassoc (fun f t s => text_loop write_ok fuel f t s (p + Z.of_nat k))).
        apply (text_step _ us' rest' f t o b (copy_unit k p) (fun f t s => text_loop write_ok fuel f t s (p + Z.of_nat k))); [|done|done|].
        -- apply (copy_prints k p (c :: s)); [done|lia|by eapply raw_unit].
        -- intros f1 t1 o1 _ Hr1 Hw1. by apply Hgo.
Qed.

(** ** The whole format *)

Lemma dofmt_loop_ok n0 n : forall s fuel p f va us e o b, format_text tab n s va = Some (us, e) -> at_fmt p s -> ready f va o b -> (length s < fuel)%nat -> within us o ->
  exists m f', dofmt_loop write_ok user doquote fuel f p n0 = Ok (m, f') /\ rep f' (to f') (emit us o b).1 (emit us o b).2 /\
    (m = -1 /\ (e = false \/ (emit us o b).2 = true) \/ m = Z.of_nat (length (emit us o b).1) - n0 /\ e = true).
Proof.
  induction n as [|n IH]; intros s fuel p f va us e o b Ht Hp Hf Hl Hwi; [done|]. destruct fuel as [|fuel]; [lia|]. cbn [format_text] in Ht.
  destruct (plain_text (length s) s) as [us1 rest] eqn:Ept. destruct Hf as (Hr & Hva & Htab).
  assert (exists us2, us = us1 ++ us2) as (us2 & Eus).
  { destruct rest as [|c0 rest]; [injection Ht as <- _; exists []; by rewrite app_nil_r|].
    destruct (conv_text _ _ _ _ _ _ _) as [[[us2 [rest2|]] va2]|]; [|injection Ht as <- _; eauto|done]. destruct (format_text tab n rest2 va2) as [[us3 e3]|]; [injection Ht as <- _; eauto|done]. }
  rewrite Eus in Hwi. destruct (within_app write_ok K us1 us2 o b Hwi) as [Hw1 Hw2].
  destruct (text_ok (length s) s (turns (smem f)) p f (to f) o b us1 rest Ept ltac:(done) Hp Hr (cstr_turns _ _ _ (at_fmt_cstr _ _ _ _ _ _ Hr Hp)) Hw1) as [(r & f1 & Hx & Hc & Hcase) Hrest].
  cbn [dofmt_loop]. rewrite Hx. cbn [rbind]. clear Hx.
  destruct r as [[[[t s'] p'] c]|]; [|destruct Hcase as [Hr1 Hb1]; exists (-1), f1; split; [done|];
    rewrite Eus, emit_app; destruct (emit us1 o b) as [o1 b1]; cbn [fst snd] in *; rewrite Hb1, emit_stopped; split; [done|]; by left; split; [|right]].
  destruct Hcase as (-> & Hr1 & Hp1 & ->). destruct (emit us1 o b) as [o1 b1] eqn:E1. cbn [fst snd] in Hr1, Hw2.
  pose proof (rep_commit write_ok K _ _ _ _ Hr1) as Hr2. assert (ready (commit t f1) va o1 b1) as Hf2.
  { split_and!; [exact Hr2| |]; unfold ctl in Hc; [unfold FmtConv.args_are|]; cbn [commit set_to set_nfmt args table]; [by injection Hc as -> |].
    assert (table f1 = table f) as -> by (by injection Hc). done. }
  destruct Hrest as [->|(rest1 & -> & Hl1)]; cbn [hd Z.eqb].
  - injection Ht as <- <-. rewrite E1. do 2 eexists. split; [done|]. split; [done|]. right. split; [|done]. cbn [fst].
    pose proof (rep_nfmt write_ok K _ _ _ _ Hr2) as H. cbn [commit set_to to] in H. cbn [commit set_to nfmt] in H |- *. lia.
  - apply (at_fmt_suffix p' [37] rest1) in Hp1. change (Z.of_nat (length [37])) with 1 in Hp1.
    destruct (conv_text tab (S (length rest1)) rest1 0 0 0 va) as [[[us3 ret] va3]|] eqn:Econv; [|done].
    assert (ready (set_stop (stop f1) (commit t f1)) va o1 b1) as Hf3 by (destruct Hf2 as (H1 & H2 & H3); split_and!; [by apply (rep_io write_ok K (commit t f1))|done..]).
    destruct ret as [rest2|].
    + destruct (format_text tab n rest2 va3) as [[us4 e4]|] eqn:Ef; [|done]. injection Ht as Hus <-. rewrite Eus in Hus |- *. apply app_inv_head in Hus as <-.
      destruct (within_app write_ok K us3 us4 o1 b1 Hw2) as [Hw3 Hw4].
      destruct (fmtdispatch_ok _ _ _ _ _ _ _ _ _ _ Econv Hp1 Hf3 Hw3) as (x & f4 & -> & Hr4 & Hm). cbn [rbind]. rewrite emit_app, E1, emit_app.
      destruct (emit us3 o1 b1) as [o3 b3]. cbn [fst snd] in Hr4, Hm, Hw4. destruct Hm as [[-> ->]|(p4 & -> & Hp4 & Hf4)].
      * rewrite emit_stopped. exists (-1), f4. split; [done|]. split; [done|]. left. split; [done|by right].
      * apply conv_text_length in Econv. apply (IH rest2 fuel p4 f4 va3); [done..|lia|done].
    + injection Ht as Hus <-. rewrite Eus in Hus |- *. apply app_inv_head in Hus as <-.
      destruct (fmtdispatch_ok _ _ _ _ _ _ _ _ _ _ Econv Hp1 Hf3 Hw2) as (x & f4 & -> & Hr4 & ->). cbn [rbind].
      rewrite emit_app, E1. exists (-1), f4. split; [done|]. split; [done|]. left. split; [done|by left].
Qed.
Lemma dofmt_ok s p f va us e o b : printed tab s va = Some (us, e) -> at_fmt p s -> ready f va o b -> within us o ->
  exists m f', dofmt write_ok user doquote f p = Ok (m, f') /\ rep f' (to f') (emit us o b).1 (emit us o b).2 /\
    (m = -1 /\ (e = false \/ (emit us o b).2 = true) \/ m = Z.of_nat (length (emit us o b).1) - nfmt f /\ e = true).
Proof.
  intros Ht Hp Hf Hw. pose proof Hf as (Hr & _). apply (dofmt_loop_ok _ _ _ _ _ _ _ _ _ _ _ Ht Hp Hf); [|done]. by eapply cstr_turns, at_fmt_cstr.
Qed.
End print.
