(* ===== verification/FmtOut.v ===== *)
(** * Printing into a buffer and to a file

    The two sinks of [FmtSink], and what [vsnprint], [vseprint] and [vfprint] do.  A buffer keeps the longest prefix of
    whole characters that fits in it; a file gets the whole text, in pieces of at most 256 bytes. *)
From stdpp Require Import gmap list.
From S2P Require Import Prelude Memory Rune Cstring Numbers Fmt FmtSpec FmtInt FmtSink FmtConv FmtPrint.

(** ** Storing bytes *)

Lemma put_all_ok l : forall m p, mapped m p (Z.of_nat (length l)) -> Forall is_byte l -> bytes m ->
  exists m', put_all m p l = Ok m' /\ written m m' p l /\ bytes m' /\ dom m' = dom m.
Proof.
  induction l as [|b l IH]; intros m p Hm Hl Hb; [by exists m|]. apply Forall_cons in Hl as [Hbb Hl]. cbn [length put_all] in *.
  destruct (put_mapped m p b _ Hm ltac:(lia)) as [-> Hm']. cbn [rbind]. replace (Z.of_nat (S (length l)) - 1) with (Z.of_nat (length l)) in Hm' by lia.
  destruct (IH (<[p := b]> m) (p + 1) Hm' Hl ltac:(by apply bytes_insert)) as (m' & -> & Hw & Hb' & Hd). exists m'. split; [done|].
  split; [by apply written_cons|]. split; [done|]. rewrite Hd, dom_insert_L. apply subseteq_union_1_L, singleton_subseteq_l, elem_of_dom.
  specialize (Hm 0 ltac:(lia)). by rewrite Z.add_0_r in Hm.
Qed.
Lemma mapped_dom (m m' : mem) p n : dom m' = dom m -> mapped m p n -> mapped m' p n.
Proof. intros Hd Hm t Ht. apply elem_of_dom. rewrite Hd. apply elem_of_dom. by apply Hm. Qed.
Lemma mapped_sub m p n p' n' : mapped m p n -> p <= p' -> p' + n' <= p + n -> mapped m p' n'.
Proof. intros Hm H1 H2 t Ht. replace (p' + t) with (p + (p' - p + t)) by lia. apply Hm. lia. Qed.

(** ** A buffer *)

Section buffer.
Variable write_ok : list Z -> list Z -> bool.
(** The [Fmt] allows for [cap] bytes; [size] bytes are there. *)
Variables (m : mem) (lo cap size : Z) (out : list Z).
Hypothesis Hmap : mapped m lo size.

Definition buffer_rep (f : st) (t : Z) (o : list Z) (b : bool) : Prop :=
  flush f = false /\ wrote f = out /\ t = lo + Z.of_nat (length o) /\ Z.of_nat (length o) <= cap /\ stop f = (if b then t else lo + cap) /\
  nfmt f + (t - to f) = Z.of_nat (length o) /\ written m (smem f) lo o /\ bytes (smem f) /\ dom (smem f) = dom m /\ Z.of_nat (length o) < size.
Lemma buffer_io f f' t o b : io f' = io f -> buffer_rep f t o b -> buffer_rep f' t o b.
Proof. unfold buffer_rep. by intros [= -> -> _ -> -> -> ->]. Qed.
Lemma buffer_put f t o b u : buffer_rep f t o b -> is_unit u -> (cap < size \/ Z.of_nat (length o) + Z.of_nat (length u) < size) ->
  let len := Z.of_nat (length u) in
  if negb b && (Z.of_nat (length o) + Z.of_nat (length u) <=? cap) then
    exists f1 t1, room write_ok (t + len >? stop f) f t (stop f) len = Ok (Some (t1, stop f1), f1) /\ ctl f1 = ctl f /\
      buffer_rep f1 t1 o false /\ (forall q, t1 <= q < t1 + len -> ~ ~ lo <= q < lo + size) /\
      exists m1, put_all (smem f1) t1 u = Ok m1 /\ buffer_rep (set_mem m1 f1) (t1 + len) (o ++ u) false
  else exists f1, room write_ok (t + len >? stop f) f t (stop f) len = Ok (None, f1) /\ ctl f1 = ctl f /\ buffer_rep f1 (to f1) o true.
Proof.
  intros (Hf & Hw & Ht & Ho & Hs & Hn & Hat & Hb & Hd & Hsz) [Hu1 Hu2] Hbound len. rewrite Hs.
  assert (t + len >? (if b then t else lo + cap) = negb (negb b && (Z.of_nat (length o) + Z.of_nat (length u) <=? cap))) as -> by (subst len; destruct b; cbn [negb andb]; case_tests; lia).
  destruct (negb b && (Z.of_nat (length o) + Z.of_nat (length u) <=? cap)) eqn:E; cbn [negb room].
  - apply andb_prop in E as [E1 E2%Z.leb_le]. destruct b; [done|]. exists f, t. rewrite Hs. split; [done|]. split; [done|]. split; [by split_and!|]. split; [intros q Hq; subst len; lia|].
    destruct (put_all_ok u (smem f) t) as (m1 & -> & [Hw1 Hw2] & Hb1 & Hd1); [|done..|].
    { apply (mapped_dom m); [done|]. eapply mapped_sub; [exact Hmap|lia..]. }
    exists m1. split; [done|]. unfold buffer_rep. cbn [set_mem flush wrote stop nfmt to smem]. rewrite length_app. split_and!; try done; try (subst len; lia).
    + destruct Hat as [Hat Hout]. split.
      * apply bytes_at_app. rewrite <-Ht. split; [|done]. apply (bytes_at_frame (smem f)); [done|]. intros q Hq. apply Hw2. lia.
      * rewrite length_app. intros q Hq. rewrite Hw2 by lia. apply Hout. lia.
    + congruence.
  - unfold _fmtflush. cbn [set_to set_nfmt flush]. rewrite Hf. eexists. split; [done|]. split; [done|]. unfold buffer_rep. cbn [set_stop set_to set_nfmt flush wrote stop nfmt to smem].
    split_and!; try done. lia.
Qed.
Definition buffer_sink : sink write_ok.
Proof.
  refine (mkSink write_ok buffer_rep (fun o u => Z.of_nat (length o) + Z.of_nat (length u) <=? cap) (fun q => ~ lo <= q < lo + size) m
    (fun n => cap < size \/ n < size) _ buffer_io _ _ _ _ _ buffer_put).
  - intros n n' Hn [?|?]; [by left|right; lia].
  - by intros f t o b (_ & _ & _ & _ & _ & _ & _ & H & _).
  - intros f t o b q (_ & _ & _ & _ & _ & _ & [_ H] & _ & _ & Hsz) Hq. apply H. lia.
  - by intros f t o b (_ & _ & _ & _ & _ & _ & _ & _ & H & _).
  - by intros f t o b (_ & _ & _ & _ & _ & H & _).
  - intros f t o b (Hf & Hw & Ht & Ho & Hs & Hn & H). unfold buffer_rep. cbn [commit set_to set_nfmt flush wrote stop nfmt to smem]. split_and!; try done; [lia|apply H..].
Defined.
Lemma emit_fit us : forall o, (emit write_ok buffer_sink us o false).1 = o ++ fit (cap - Z.of_nat (length o)) us.
Proof.
  induction us as [|u us IH]; intros o; cbn [emit fit]; [by rewrite app_nil_r|]. cbn [negb andb accept buffer_sink].
  destruct (Z.leb_spec (Z.of_nat (length o) + Z.of_nat (length u)) cap), (Z.leb_spec (Z.of_nat (length u)) (cap - Z.of_nat (length o))); try lia; [|by rewrite app_nil_r].
  rewrite IH, length_app, <-app_assoc. do 3 f_equal. lia.
Qed.
End buffer.
Lemma fit_length room us : Z.of_nat (length (fit room us)) <= Z.max 0 room.
Proof. revert room. induction us as [|u us IH]; intros room; cbn [fit]; [simpl; lia|]. case_if; [|simpl; lia]. rewrite length_app. specialize (IH (room - Z.of_nat (length u))). lia. Qed.
Lemma fit_all room us : Z.of_nat (length (concat us)) <= room -> fit room us = concat us.
Proof.
  revert room. induction us as [|u us IH]; intros room; cbn [fit concat]; [done|]. rewrite length_app. intros H. assert (Z.of_nat (length u) <=? room = true) as -> by lia.
  f_equal. apply IH. lia.
Qed.
Lemma fit_prefix room us : exists k, fit room us = concat (take k us) /\ (k = length us \/ exists u, us !! k = Some u /\ room < Z.of_nat (length (fit room us)) + Z.of_nat (length u)).
Proof.
  revert room. induction us as [|u us IH]; intros room; cbn [fit]; [by exists 0%nat; split; [|left]|]. destruct (Z.leb_spec (Z.of_nat (length u)) room).
  - destruct (IH (room - Z.of_nat (length u))) as (k & -> & Hk). exists (S k). split; [done|]. destruct Hk as [->|(u' & Hu & Hr)]; [by left|right]. exists u'. split; [done|].
    cbn [concat take] in *. rewrite length_app. lia.
  - exists 0%nat. split; [done|]. right. exists u. split; [done|]. simpl. lia.
Qed.

(** ** A file *)

Section file.
Variable write_ok : list Z -> list Z -> bool.
Variables (m : mem) (lo size : Z) (out : list Z).
Hypothesis Hmap : mapped m lo size.
Hypothesis Hsize : 4 <= size.
Hypothesis Hok : forall w l, write_ok w l = true.

End file.

(** ** Decimal numbers *)

Lemma rev_digits_short base u fuel : forall k, 2 <= base -> 0 <= u < base ^ Z.of_nat k -> (length (rev_digits fuel base u) <= k)%nat.
Proof.
  revert u. induction fuel as [|fuel IH]; intros u k Hb Hu; cbn [rev_digits]; [simpl; lia|]. destruct (Z.eqb_spec u 0); [simpl; lia|].
  destruct k as [|k]; [simpl in Hu; lia|]. cbn [length]. specialize (IH (u / base) k Hb (div_pow base u k Hb Hu)). lia.
Qed.
(** The last digit found is the first one of the number, and it is not zero. *)
Lemma rev_digits_last base u fuel : 2 <= base -> 0 < u < base ^ Z.of_nat fuel -> exists l d, rev_digits fuel base u = l ++ [d] /\ 0 < d < base.
Proof.
  intros Hb. revert u. induction fuel as [|fuel IH]; intros u Hu; [simpl in Hu; lia|]. cbn [rev_digits]. destruct (Z.eqb_spec u 0); [lia|].
  pose proof (div_pow base u fuel Hb ltac:(lia)) as Hd. destruct (Z.eq_dec (u / base) 0) as [E|E].
  - exists [], (u mod base). rewrite E. split; [by destruct fuel|]. pose proof (Z.div_mod u base). pose proof (Z.mod_pos_bound u base). lia.
  - destruct (IH (u / base) ltac:(lia)) as (l & d & -> & Hd2). by exists (u mod base :: l), d.
Qed.
Lemma decimal_char d : 0 <= d < 10 -> char_of conv_lower d = 48 + d.
Proof. intros H. assert (d = 0 \/ d = 1 \/ d = 2 \/ d = 3 \/ d = 4 \/ d = 5 \/ d = 6 \/ d = 7 \/ d = 8 \/ d = 9) as E by lia. by repeat destruct E as [->|E]; [..|subst]. Qed.
Lemma decimal_base : digit_base 10 conv_lower.
Proof. by exists 100. Qed.
(** A decimal number is ["0"] or begins with another digit. *)
Lemma decimal_shape u : 0 <= u < 2 ^ 32 ->
  let l := number 10 u conv_lower false in Forall (fun c => between 48 c 57 = true) l /\ (1 <= length l <= 10)%nat /\ (l = [48] \/ exists c l', l = c :: l' /\ 49 <= c <= 57).
Proof.
  intros Hu. unfold number. destruct (Z.eqb_spec u 0); [split; [by apply Forall_singleton|split; [simpl; lia|by left]]|]. cbn zeta.
  change (map (fun d => nth (Z.to_nat d) conv_lower 0) (rev_digits 64 10 u)) with (map (char_of conv_lower) (rev_digits 64 10 u)).
  pose proof (rev_digits_range 64 10 u ltac:(lia)) as Hr. pose proof (rev_digits_short 10 u 64 10 ltac:(lia) ltac:(change (10 ^ Z.of_nat 10) with 10000000000; lia)) as Hs.
  destruct (rev_digits_last 10 u 64 ltac:(lia)) as (l & d & E & Hd); [pose proof (pow_64 10 ltac:(lia)); lia|]. rewrite E in *.
  split_and!.
  - apply Forall_rev, Forall_map. eapply Forall_impl; [exact Hr|]. intros x Hx. cbv beta in Hx |- *. rewrite decimal_char by done. unfold between. lia.
  - rewrite length_rev, length_map, length_app. simpl. lia.
  - rewrite length_rev, length_map. done.
  - right. rewrite map_app, rev_app_distr. cbn [map rev app]. do 2 eexists. split; [done|]. rewrite decimal_char by lia. lia.
Qed.
Lemma take_while_whole P l : Forall (fun c => P c = true) l -> take_while P l = l.
Proof. induction 1 as [|c l Hc _ IH]; [done|]. cbn [take_while]. by rewrite Hc, IH. Qed.
Lemma drop_while_none P c l : P c = false -> drop_while P (c :: l) = c :: l.
Proof. intros H. unfold drop_while. cbn [take_while]. by rewrite H. Qed.
Lemma parse_decimal neg u : 0 <= u < 2 ^ 32 -> parse_atol ((if neg : bool then [45] else []) ++ number 10 u conv_lower false) = (neg, u).
Proof.
  intros Hu. destruct (decimal_shape u Hu) as (Hd & _ & Hs). pose proof (number_value 10 conv_lower u decimal_base ltac:(lia)) as Hv. set (l := number 10 u conv_lower false) in *.
  pose proof (take_while_whole (fun c => between 48 c 57) l Hd) as Htw.
  assert (exists c l', l = c :: l' /\ is_blank c = false /\ (c =? 45) || (c =? 43) = false /\
    match l with 48 :: x :: s' => if is_x x then digits_value 16 (take_while is_hex s') else digits_value 8 (take_while (fun c => between 48 c 55) l) | _ => digits_value 10 (take_while (fun c => between 48 c 57) l) end = u) as (c & l' & El & Hb & Hc & Hm).
  { rewrite Htw, Hv. clearbody l. destruct Hs as [->|(c & l' & -> & Hc)]; [by exists 48, []|].
    exists c, l'. assert (c = 49 \/ c = 50 \/ c = 51 \/ c = 52 \/ c = 53 \/ c = 54 \/ c = 55 \/ c = 56 \/ c = 57) as E by lia. by repeat destruct E as [->|E]; [..|subst]. }
  assert (drop_while is_blank l = l) as Hdw by (rewrite El; by apply drop_while_none). clearbody l. subst l. unfold parse_atol. destruct neg; cbn [app].
  - rewrite (drop_while_none is_blank 45 (c :: l')) by done. cbn [Z.eqb orb Pos.eqb]. by rewrite Hdw, Hm.
  - by rewrite Hdw, Hc, Hm.
Qed.
Definition decimal (w : Z) : list Z := (if s32 w <? 0 then [45] else []) ++ number 10 (Z.abs (s32 w)) conv_lower false.
Lemma decimal_length w : (1 <= length (decimal w) <= 11)%nat.
Proof.
  pose proof (s32_range w) as Hs. unfold is_s32 in Hs. destruct (decimal_shape (Z.abs (s32 w)) ltac:(lia)) as (_ & Hl & _).
  unfold decimal. rewrite length_app. destruct (s32 w <? 0); simpl; lia.
Qed.
Lemma decimal_in_string w : Forall in_string (decimal w).
Proof.
  pose proof (s32_range w) as Hs. unfold is_s32 in Hs. destruct (decimal_shape (Z.abs (s32 w)) ltac:(lia)) as (Hd & _ & _).
  apply Forall_app. split; [destruct (s32 w <? 0); [by apply Forall_singleton|done]|]. eapply Forall_impl; [exact Hd|]. intros c Hc. unfold between in Hc. unfold in_string. lia.
Qed.
Lemma decimal_effect fl w : fl = 0 \/ fl = FmtLong -> is_u32 w ->
  conv_effect F_int 100 0 0 fl [VInt w] = Some (Prints (map (fun c => [c]) (decimal w)) []).
Proof.
  intros Hfl Hw. unfold conv_effect. cbn [Z.eqb Pos.eqb].
  assert (int_word fl [VInt w] = Some (false, w, [])) as -> by (by destruct Hfl as [->| ->]). cbn iota beta. unfold int_units. change (int_base 100) with (Some (10, conv_lower)). cbn iota beta zeta.
  assert (has fl FmtUnsigned = false) as -> by (by destruct Hfl as [->| ->]). assert (has fl FmtZero = false) as -> by (by destruct Hfl as [->| ->]). cbn [negb andb].
  assert ((if s32 w <? 0 then u32 (- s32 w) else w) = Z.abs (s32 w)) as ->.
  { pose proof (s32_range w). unfold is_s32, is_u32 in *. destruct (Z.ltb_spec (s32 w) 0); [rewrite u32_small by (unfold is_u32; lia); lia|]. rewrite Z.abs_eq by done. unfold s32 in *. zlia. }
  assert (int_text (s32 w <? 0) (Z.abs (s32 w)) 10 100 conv_lower fl 0 0 = decimal w) as ->.
  { unfold int_text. assert (has fl FmtComma = false /\ has fl FmtSign = false /\ has fl FmtSpace = false /\ has fl FmtSharp = false /\ has fl FmtZero = false) as (-> & -> & -> & -> & ->) by (by destruct Hfl as [->| ->]).
    cbn [andb app]. unfold FmtSpec.zeros. rewrite Z2Nat.nonpos by lia. done. }
  unfold field. assert (has (clear fl FmtPrec) FmtLeft = false) as -> by (by destruct Hfl as [->| ->]).
  assert (pads (s32 (0 - Z.of_nat (length (decimal w)))) = []) as ->; [|done].
  unfold pads. rewrite Z2Nat.nonpos; [done|]. pose proof (decimal_length w). rewrite s32_small; [lia|]. unfold is_s32. lia.
Qed.
(** One conversion and nothing else. *)
Lemma conversion_printed tab s va us va' : conv_text tab (S (length s)) s 0 0 0 va = Some (us, Some [], va') -> printed tab (37 :: s) va = Some (us, true).
Proof.
  intros Ht. unfold printed. change (format_text tab (S (length (37 :: s))) (37 :: s) va) with
    (match conv_text tab (S (length s)) s 0 0 0 va with
     | Some (us1, Some rest, va) => match format_text tab (S (length s)) rest va with Some (us2, e) => Some (us1 ++ us2, e) | None => None end
     | Some (us1, None, va) => Some (us1, false)
     | None => None
     end). rewrite Ht. cbn. by rewrite app_nil_r.
Qed.
Lemma decimal_printed tab w : conv_of tab 100 = F_int -> is_u32 w -> printed tab [37; 100] [VInt w] = Some (map (fun c => [c]) (decimal w), true).
Proof.
  intros Hc Hw. apply (conversion_printed tab [100] [VInt w] _ []). cbn [length conv_text]. change (chartorune ([100] ++ [0])) with (Ok (100, 1%nat)).
  cbn [Z.eqb Pos.eqb andb is_num Z.leb Z.compare Pos.compare Pos.compare_cont skipn]. rewrite Hc, decimal_effect; [done|by left|done].
Qed.
(** The same with the flag for a [long]. *)
Lemma long_decimal_printed tab w : conv_of tab 108 = F_flag -> conv_of tab 100 = F_int -> is_u32 w -> printed tab [37; 108; 100] [VInt w] = Some (map (fun c => [c]) (decimal w), true).
Proof.
  intros Hl Hc Hw. apply (conversion_printed tab [108; 100] [VInt w] _ []). cbn [length conv_text]. change (chartorune ([108; 100] ++ [0])) with (Ok (108, 1%nat)).
  cbn [Z.eqb Pos.eqb andb is_num Z.leb Z.compare Pos.compare Pos.compare_cont skipn]. rewrite Hl. change (conv_effect F_flag 108 0 0 0 [VInt w]) with (Some (Flag FmtLong)). cbn iota.
  change (chartorune ([100] ++ [0])) with (Ok (100, 1%nat)). cbn [Z.eqb Pos.eqb andb is_num Z.leb Z.compare Pos.compare Pos.compare_cont skipn]. rewrite Hc, decimal_effect; [done|by right|done].
Qed.
Lemma concat_units l : concat (map (fun c : Z => [c]) l) = l.
Proof. induction l as [|c l IH]; [done|]. cbn [map concat app]. by rewrite IH. Qed.

(** ** The functions that print *)

(** The format and the arguments of a call that prints to the [size] bytes at [buf]. *)
Definition call_ok (m : mem) (buf size fmt : Z) (s : list Z) (va : list arg) (vals : list value_arg) : Prop :=
  bytes m /\ mapped m buf size /\ cstr m fmt s /\ (forall q, fmt <= q < fmt + Z.of_nat (length s) + 1 -> ~ buf <= q < buf + size) /\
  Forall2 (arg_at m (fun q => ~ buf <= q < buf + size)) va vals.
Lemma buffer_dofmt write_ok user doquote tab m buf len size fmt s va vals junk out us e :
  0 < len -> 0 < size -> len <= size \/ Z.of_nat (length (concat us)) < size -> call_ok m buf size fmt s va vals -> printed tab s vals = Some (us, e) ->
  exists n f, dofmt write_ok user doquote (buffer_fmt buf (buf + len) va junk m tab out) fmt = Ok (n, f) /\
    to f = buf + Z.of_nat (length (fit (len - 1) us)) /\ wrote f = out /\
    exists m', put (smem f) (to f) 0 = Ok m' /\ written m m' buf (fit (len - 1) us ++ [0]) /\ bytes m'.
Proof.
  intros Hlen Hsize Hfits (Hb & Hm & Hs & Hout & Hargs) Ht. destruct junk as [[[r w] p] fl].
  destruct (dofmt_ok write_ok user doquote tab (buffer_sink write_ok m buf (len - 1) size out Hm) s fmt (buffer_fmt buf (buf + len) va (r, w, p, fl) m tab out) vals us e [] false Ht) as (n & f & Hf & Hr & _).
  - split; [done|]. intros q Hq. exact (Hout q Hq).
  - split_and!; [|exact Hargs|done]. cbn. split_and!; try done; cbn; lia.
  - unfold within. cbn. lia.
  - rewrite emit_fit in Hr. cbn [app length] in Hr. change (Z.of_nat 0) with 0 in Hr. rewrite Z.sub_0_r in Hr.
    destruct Hr as (_ & Hw & Hto & Hfit & _ & _ & [Hat Ho] & Hb' & Hd & Hsz). exists n, f. split; [exact Hf|]. split; [done|]. split; [done|].
    destruct (put_mapped (smem f) (to f) 0 1) as [-> _]; [|lia|].
    { apply (mapped_dom m); [done|]. eapply mapped_sub; [exact Hm|lia..]. }
    eexists. split; [done|]. split; [split|].
    + apply bytes_at_app. rewrite <-Hto. split; [|split; [apply lookup_insert_eq|done]]. eapply bytes_at_frame; [exact Hat|]. apply insert_same_between. lia.
    + rewrite length_app. cbn [length]. intros q Hq. rewrite lookup_insert_ne by lia. apply Ho. lia.
    + by apply bytes_insert.
Qed.
Lemma vsnprint_ok write_ok user doquote tab m buf len size fmt s va vals junk out us e :
  0 < len -> 0 < size -> len <= size \/ Z.of_nat (length (concat us)) < size -> call_ok m buf size fmt s va vals -> printed tab s vals = Some (us, e) ->
  exists f, vsnprint write_ok user doquote buf len fmt va junk m tab out = Ok (Z.of_nat (length (fit (len - 1) us)), f) /\
    written m (smem f) buf (fit (len - 1) us ++ [0]) /\ bytes (smem f) /\ wrote f = out.
Proof.
  intros Hlen Hsize Hfits Hc Ht. destruct (buffer_dofmt write_ok user doquote tab m buf len size fmt s va vals junk out us e Hlen Hsize Hfits Hc Ht) as (n & f & Hf & Hto & Hw & m' & Hp & Hin).
  unfold vsnprint. assert (len <=? 0 = false) as -> by lia. rewrite Hf. cbn [rbind]. rewrite Hp. cbn [rbind]. eexists. split; [do 2 f_equal; lia|]. split_and!; [apply Hin..|done].
Qed.
(** [sprint] is given no size: what it prints must fit. *)
Lemma sprint_ok write_ok user doquote tab m buf size fmt s va vals junk out us e :
  Z.of_nat (length (concat us)) < Z.min size 65536 -> call_ok m buf size fmt s va vals -> printed tab s vals = Some (us, e) ->
  exists f, sprint write_ok user doquote buf fmt va junk m tab out = Ok (Z.of_nat (length (concat us)), f) /\
    written m (smem f) buf (concat us ++ [0]) /\ bytes (smem f) /\ wrote f = out.
Proof.
  intros Hl Hc Ht. destruct (vsnprint_ok write_ok user doquote tab m buf 65536 size fmt s va vals junk out us e ltac:(lia) ltac:(lia) ltac:(right; lia) Hc Ht) as (f & H).
  rewrite fit_all in H by lia. by exists f.
Qed.

(** C9: formatted output to a buffer prints the text that the format stands for.  [printed] interprets a format string and its
    arguments, flags, widths, precisions and conversions, without any buffer: [vsnprint] stores the longest prefix of
    whole characters of that text that leaves room for the terminating NUL, never a part of a UTF-8 sequence, returns its
    length, and changes no other byte; [vseprint] does the same and returns the address of the NUL.  An empty
    buffer is left alone.  [sprint], which claims 65536 bytes whatever there is, is right when the text fits in what there is. *)
Theorem vsnprint_prints write_ok user doquote tab m buf len fmt s va vals junk out us e :
  0 < len -> call_ok m buf len fmt s va vals -> printed tab s vals = Some (us, e) ->
  let l := fit (len - 1) us in
  (Z.of_nat (length (concat us)) < len -> l = concat us) /\ Z.of_nat (length l) < len /\
  (exists f, vsnprint write_ok user doquote buf len fmt va junk m tab out = Ok (Z.of_nat (length l), f) /\ written m (smem f) buf (l ++ [0]) /\ wrote f = out) /\
  (exists f, vseprint write_ok user doquote buf (buf + len) fmt va junk m tab out = Ok (buf + Z.of_nat (length l), f) /\ written m (smem f) buf (l ++ [0]) /\ wrote f = out) /\
  (forall n, n <= 0 -> exists f, vsnprint write_ok user doquote buf n fmt va junk m tab out = Ok (-1, f) /\ smem f = m /\ wrote f = out) /\
  (Z.of_nat (length (concat us)) < Z.min len 65536 ->
   exists f, sprint write_ok user doquote buf fmt va junk m tab out = Ok (Z.of_nat (length l), f) /\ written m (smem f) buf (l ++ [0]) /\ wrote f = out).
Proof.
  intros Hlen Hc Ht l. split; [intros; apply fit_all; lia|]. split; [subst l; pose proof (fit_length (len - 1) us); lia|]. split; [|split; [|split]].
  - destruct (vsnprint_ok write_ok user doquote tab m buf len len fmt s va vals junk out us e Hlen Hlen ltac:(by left) Hc Ht) as (f & H1 & H2 & _ & H3). by exists f.
  - destruct (buffer_dofmt write_ok user doquote tab m buf len len fmt s va vals junk out us e Hlen Hlen ltac:(by left) Hc Ht) as (n & f & Hf & Hto & Hw & m' & Hp & Hin & _).
    unfold vseprint. assert (buf + len <=? buf = false) as -> by lia. rewrite Hf. cbn [rbind]. rewrite Hp. cbn [rbind]. eexists. split; [by rewrite Hto|]. done.
  - intros n Hn. unfold vsnprint. assert (n <=? 0 = true) as -> by lia. eexists. split; [done|]. by destruct junk as [[[r w] p] fl].
  - intros Hl. destruct (sprint_ok write_ok user doquote tab m buf len fmt s va vals junk out us e Hl Hc Ht) as (f & H1 & H2 & _ & H3). subst l. rewrite fit_all by lia. by exists f.
Qed.


(** numbers survive printing and reading: [vsnprint] with the format ["%d"] writes the decimal numeral of a 32-bit word,
    with a minus sign when it is negative, and [atol] reads back from the buffer the integer that was printed, the
    most negative one included. *)
Theorem decimal_roundtrip write_ok user doquote tab m buf len fmt w junk out :
  conv_of tab 100 = F_int -> 12 <= len -> call_ok m buf len fmt [37; 100] [A32 w] [VInt w] ->
  exists f l, vsnprint write_ok user doquote buf len fmt [A32 w] junk m tab out = Ok (Z.of_nat (length l), f) /\
    cstr (smem f) buf l /\ l = decimal w /\ atol (smem f) buf = Ok (s32 w).
Proof.
  intros Hc Hlen Hcall. assert (is_u32 w) as Hw by (destruct Hcall as (_ & _ & _ & _ & H); by apply Forall2_cons_1 in H as [[_ H] _]).
  pose proof (decimal_printed tab w Hc Hw) as Ht.
  assert (fit (len - 1) (map (fun c => [c]) (decimal w)) = decimal w) as Hfit by (pose proof (decimal_length w); rewrite fit_all; rewrite concat_units; [done|lia]).
  destruct (vsnprint_ok write_ok user doquote tab m buf len len fmt _ _ _ junk out _ _ ltac:(lia) ltac:(lia) ltac:(by left) Hcall Ht) as (f & Hf & [Hat _] & _). rewrite Hfit in Hf, Hat.
  exists f, (decimal w). split; [done|]. assert (cstr (smem f) buf (decimal w)) as Hcs by (apply bytes_at_cstr; [apply decimal_in_string|done]).
  split; [done|]. split; [done|]. pose proof (atol_parses (smem f) buf (decimal w) Hcs) as Ha. pose proof (s32_range w) as Hs. unfold is_s32 in Hs. unfold decimal in Ha. rewrite parse_decimal in Ha by lia. destruct Ha as (-> & _). f_equal.
  destruct (Z.ltb_spec (s32 w) 0); rewrite s32_small by (unfold is_s32; lia); lia.
Qed.

(** [fmtinstall] gives a character its function and leaves those of all others, whether it had an entry or not; it fails, and changes
    nothing, only for a character that is not positive or not below 65536, or when all sixty-four entries are
    taken by others.  Neither it nor the lookup of a conversion, which enters the known ones on first use, ever exceeds the table,
    and no lookup changes what a character stands for. *)
Theorem fmtinstall_installs c g l :
  (length l <= Maxfmt)%nat ->
  let '(r, l') := fmtinstall c (Some g) l in
  (length l' <= Maxfmt)%nat /\
  (if (0 <? c) && (c <? 65536) && (bool_decide (find_fmt c l <> None) || (length l <? Maxfmt)%nat) then
     r = 0 /\ conv_of l' c = g /\ forall c', c' <> c -> conv_of l' c' = conv_of l c'
   else r = -1 /\ l' = l) /\
  let '(h, l2) := fmtfmt c l in h = conv_of l c /\ (length l2 <= Maxfmt)%nat /\ forall c', conv_of l2 c' = conv_of l c'.
Proof.
  intros Hl.
  assert (forall g, let '(r, l') := fmtinstall c (Some g) l in (length l' <= Maxfmt)%nat /\
    if (0 <? c) && (c <? 65536) && (bool_decide (find_fmt c l <> None) || (length l <? Maxfmt)%nat) then
      r = 0 /\ conv_of l' c = g /\ forall c', c' <> c -> conv_of l' c' = conv_of l c'
    else r = -1 /\ l' = l) as Hinst.
  { intros g0. unfold fmtinstall, _fmtinstall. rewrite Z.geb_leb.
    assert ((0 <? c) && (c <? 65536) = negb ((c <=? 0) || (65536 <=? c))) as -> by lia. destruct ((c <=? 0) || (65536 <=? c)); cbn [negb andb]; [done|].
    destruct (bool_decide_reflect (find_fmt c l <> None)) as [Hf|Hf]; cbn [orb].
    - destruct (replace_some c g0 l Hf) as [l' E]. rewrite E. destruct (replace_find _ _ _ _ E) as [Hlen Hfind]. split; [lia|]. split; [done|]. unfold conv_of.
      split; [by rewrite Hfind, Z.eqb_refl|]. intros c' Hc'. rewrite Hfind. by destruct (Z.eqb_spec c' c).
    - assert (find_fmt c l = None) as E by (destruct (find_fmt c l); [by destruct Hf|done]). rewrite (replace_none _ _ _ E).
      destruct (Nat.ltb_spec (length l) Maxfmt); destruct (Nat.eqb_spec (length l) Maxfmt); try lia; [|done].
      split; [rewrite length_app; simpl; lia|]. split; [done|]. unfold conv_of. split; [rewrite find_fmt_app, E; cbn [find_fmt]; by rewrite Z.eqb_refl|].
      intros c' Hc'. rewrite find_fmt_app. cbn [find_fmt]. destruct (find_fmt c' l); [done|]. by destruct (Z.eqb_spec c c'); [subst|]. }
  pose proof (Hinst g) as H. destruct (fmtinstall c (Some g) l) as [r l']. destruct H as [H1 H2]. split; [done|]. split; [done|].
  pose proof (fmtfmt_conv c l) as [H3 H4]. assert (length (fmtfmt c l).2 <= Maxfmt)%nat as H5.
  { unfold fmtfmt. destruct (find_fmt c l); [done|]. destruct (find_fmt c knownfmt) as [g1|]; [|done]. pose proof (Hinst g1) as H6. unfold fmtinstall in H6. by destruct (_fmtinstall c (Some g1) l) as [r1 l1]; destruct H6. }
  destruct (fmtfmt c l) as [h l2]. done.
Qed.

(** *** Formats at 10 and 30, a string at 40, 300 bytes from 1000 on *)
Definition print_example : mem :=
  list_to_map ([(10, 37); (11, 51); (12, 100); (13, 195); (14, 169); (15, 37); (16, 46); (17, 50); (18, 115); (19, 0);
    (30, 37); (31, 100); (32, 0); (35, 37); (36, 51); (37, 48); (38, 48); (39, 100); (40, 0); (50, 97); (51, 98); (52, 99); (53, 0)] ++ map (fun q => (q, 170)) (seqZ 1000 300)).
Lemma print_example_bytes : bytes print_example.
Proof. apply (bool_decide_unpack (map_Forall (fun _ b => 0 <= b < 256) print_example)). vm_compute. exact I. Qed.
Lemma mapped_bool (m : mem) p n : forallb (fun t => bool_decide (is_Some (m !! (p + t)))) (seqZ 0 n) = true -> mapped m p n.
Proof. rewrite forallb_forall. intros H t Ht. apply (bool_decide_unpack _). rewrite H; [exact I|]. apply list_elem_of_In, elem_of_seqZ. lia. Qed.
Lemma print_example_room n : n <= 300 -> mapped print_example 1000 n.
Proof. intros Hn t Ht. apply (mapped_bool print_example 1000 300); [by vm_compute|lia]. Qed.
Lemma print_example_call n fmt s va vals : n <= 300 -> cstr print_example fmt s -> 0 <= fmt -> fmt + Z.of_nat (length s) < 1000 ->
  Forall2 (arg_at print_example (fun q => ~ 1000 <= q < 1000 + n)) va vals -> call_ok print_example 1000 n fmt s va vals.
Proof. intros Hn Hs H0 H1 Ha. split_and!; [exact print_example_bytes|by apply print_example_room|done|intros q Hq; lia|done]. Qed.

(** The format "%3dé%.2s" and a buffer of 7 bytes: the last character does not fit. *)
Lemma vsnprint_prints_witness :
  let l := [32; 45; 53; 195; 169; 97] in
  (Z.of_nat 7 < 7 -> l = [32; 45; 53; 195; 169; 97; 98]) /\ Z.of_nat (length l) < 7 /\
  (exists f, vsnprint (fun _ _ => true) (fun _ _ => Fault) (fun _ => false) 1000 7 10 [A32 0xfffffffb; A32 50] (0, 0, 0, 0) print_example [] [] = Ok (Z.of_nat (length l), f) /\
     written print_example (smem f) 1000 (l ++ [0]) /\ wrote f = []) /\
  (exists f, vseprint (fun _ _ => true) (fun _ _ => Fault) (fun _ => false) 1000 (1000 + 7) 10 [A32 0xfffffffb; A32 50] (0, 0, 0, 0) print_example [] [] = Ok (1000 + Z.of_nat (length l), f) /\
     written print_example (smem f) 1000 (l ++ [0]) /\ wrote f = []) /\
  (forall n, n <= 0 -> exists f, vsnprint (fun _ _ => true) (fun _ _ => Fault) (fun _ => false) 1000 n 10 [A32 0xfffffffb; A32 50] (0, 0, 0, 0) print_example [] [] = Ok (-1, f) /\
     smem f = print_example /\ wrote f = []) /\
  (Z.of_nat 7 < Z.min 7 65536 ->
   exists f, sprint (fun _ _ => true) (fun _ _ => Fault) (fun _ => false) 1000 10 [A32 0xfffffffb; A32 50] (0, 0, 0, 0) print_example [] [] = Ok (Z.of_nat (length l), f) /\
     written print_example (smem f) 1000 (l ++ [0]) /\ wrote f = []).
Proof.
  apply (vsnprint_prints (fun _ _ => true) (fun _ _ => Fault) (fun _ => false) [] print_example 1000 7 10 [37; 51; 100; 195; 169; 37; 46; 50; 115]
    [A32 0xfffffffb; A32 50] [VInt 0xfffffffb; VStr (Some [97; 98; 99])] (0, 0, 0, 0) [] [[32]; [45]; [53]; [195; 169]; [97]; [98]] true).
  - lia.
  - apply print_example_call; [lia|vm_compute; auto 40|lia|simpl; lia|]. constructor; [by split|constructor; [|constructor]].
    exists 50. split; [reflexivity|]. split; [lia|]. split; [vm_compute; auto 20|]. simpl. intros q Hq. lia.
  - vm_compute. reflexivity.
Defined.
Lemma decimal_roundtrip_witness : exists f l,
  vsnprint (fun _ _ => true) (fun _ _ => Fault) (fun _ => false) 1000 12 30 [A32 0x80000000] (0, 0, 0, 0) print_example [] [] = Ok (Z.of_nat (length l), f) /\
  cstr (smem f) 1000 l /\ l = decimal 0x80000000 /\ atol (smem f) 1000 = Ok (s32 0x80000000).
Proof.
  apply (decimal_roundtrip (fun _ _ => true) (fun _ _ => Fault) (fun _ => false) [] print_example 1000 12 30 0x80000000 (0, 0, 0, 0) []).
  - reflexivity.
  - lia.
  - apply print_example_call; [lia|vm_compute; auto 40|lia|simpl; lia|]. constructor; [by split|constructor].
Defined.
Lemma fmtinstall_installs_witness :
  let '(r, l') := fmtinstall 113 (Some F_quotestr) [] in
  (length l' <= Maxfmt)%nat /\
  (if (0 <? 113) && (113 <? 65536) && (bool_decide (find_fmt 113 [] <> None) || (length (@nil (Z * Fmts)) <? Maxfmt)%nat) then
     r = 0 /\ conv_of l' 113 = F_quotestr /\ forall c', c' <> 113 -> conv_of l' c' = conv_of [] c'
   else r = -1 /\ l' = []) /\
  let '(h, l2) := fmtfmt 113 [] in h = conv_of [] 113 /\ (length l2 <= Maxfmt)%nat /\ forall c', conv_of l2 c' = conv_of [] c'.
Proof. apply (fmtinstall_installs 113 F_quotestr []). unfold Maxfmt. simpl. lia. Defined.
