(* ===== verification/FormatInt.v ===== *)
(** * Printing OCaml integers: [format_int] of kernel/Byterun/ints.c

    The external behind [string_of_int] and the conversions %d, %o, %x, %X and %u of Printf.  It copies its format to a local
    buffer, puts an 'l' before the last character, prints with [sprint] into a local buffer of 32 bytes or one from [malloc], and
    copies the result to a new OCaml string ([copy_string], alloc.c).

    OCaml blocks live in the heap of [Mlvalues], what C reads and writes through pointers in a [mem]; [sv] is the address at which C sees the
    bytes of the format.  [frame] gives the addresses of the two local arrays; [malloc] is the allocator of the C library. *)
From stdpp Require Import gmap list strings.
From S2P Require Import Prelude Mlvalues Intext Memory Rune Cstring Numbers Primitives Fmt FmtSpec FmtInt FmtSink FmtConv FmtPrint FmtOut.

(** ** The function *)

Definition copy_string (m : mem) (s : Z) (h : heap_t) : result (value * heap_t) :=
  let* len := strlen m s in
  let* (res, h) := alloc_string len h in
  let* l := load m s len in
  let* h := Intext.blit_string res l h in
  Ok (res, h).

Record frame := mkFrame { format_string : Z; format_buffer : Z }.
Inductive format_result := Formatted (res : value) (h : heap_t) (f : st) | Raised (msg : string) | Out_of_memory.

(** The first number in the format gives the size of the buffer. *)
Fixpoint format_prec (fuel : nat) (m : mem) (p : Z) : result Z :=
  match fuel with
  | O => Loop
  | S fuel =>
      let* c := get m p in
      if c =? 0 then Ok 32
      else if (s8 c >=? 48) && (s8 c <=? 57) then let* n := atoi m p in Ok (s32 (n + 5))
      else format_prec fuel m (p + 1)
  end.
Section format.
Variable write_ok : list Z -> list Z -> bool.
Variable user : nat -> st -> result (Z * st).
Variable doquote : Z -> bool.
Variable malloc : Z -> option Z.

Definition format_int (fmt arg : value) (sv : Z) (fr : frame) junk (h : heap_t) (m : mem) tab out : result format_result :=
  let* prec := format_prec (turns m) m sv in
  match if u32 prec <=? 32 then Some (format_buffer fr) else malloc (u32 prec) with
  | None => Ok Out_of_memory
  | Some dest =>
      let* len := string_length h fmt in
      if len >=? 31 then Ok (Raised "format_int: format too long")
      else
        let fs := format_string fr in
        let* l := load m sv len in
        let* m := put_all m fs l in
        let* m := put m (fs + len + 1) 0 in
        let* c := get m (fs + len - 1) in
        let* m := put m (fs + len) c in
        let* m := put m (fs + len - 1) 108 in
        let* n := Long_val arg in
        let* (_, f) := sprint write_ok user doquote dest fs [A32 (u32 n)] junk m tab out in
        let* (res, h) := copy_string (smem f) dest h in
        Ok (Formatted res h f)
  end.
End format.

(** ** Strings in memory *)

Lemma copy_string_ok m s h l : Cstring.bytes m -> Memory.bytes_at m s (l ++ [0]) -> Z.of_nat (length l) <= 4 * Max_wosize - 1 ->
  copy_string m s h = Ok (alloc (string_block (c_text l)) h) /\ string_fits (c_text l).
Proof.
  intros Hb Hl Hsz.
  assert (Forall Rune.is_byte l) as Hby.
  { apply Forall_forall. intros c Hc. apply list_elem_of_lookup in Hc as [i Hi]. apply (Hb (s + Z.of_nat i) c). apply Memory.bytes_at_app in Hl as [Hl _]. by apply (bytes_at_lookup _ _ _ _ _ Hl). }
  pose proof (Numbers.take_while_app (fun c => negb (c =? 0)) l) as Happ. fold (c_text l) in Happ.
  assert (Forall in_string (c_text l)) as Hin.
  { pose proof (Numbers.take_while_all (fun c => negb (c =? 0)) l) as Hall. fold (c_text l) in Hall. rewrite <-Happ in Hby. apply Forall_app in Hby as [Hby _].
    rewrite Forall_forall in Hall, Hby. apply Forall_forall. intros c Hc. specialize (Hall c Hc). specialize (Hby c Hc). cbv beta in Hall. unfold Rune.is_byte in Hby. unfold in_string. lia. }
  assert (Z.of_nat (length (c_text l)) <= 4 * Max_wosize - 1) as Hlen by (rewrite <-Happ, length_app in Hsz; lia).
  assert (cstr m s (c_text l)) as Hc.
  { apply bytes_at_cstr; [done|]. destruct (drop_while (fun c => negb (c =? 0)) l) as [|x r] eqn:E.
    - rewrite app_nil_r in Happ. by rewrite Happ.
    - pose proof (drop_while_zero _ _ _ E) as ->. rewrite <-Happ, <-app_assoc in Hl. cbn [app] in Hl.
      apply (Memory.bytes_at_app m s (c_text l ++ [0]) (r ++ [0])). by rewrite <-app_assoc. }
  assert (string_fits (c_text l)) as Hfits by (split; [by eapply Forall_impl; [exact Hin|]; intros c Hcc; unfold in_string in Hcc; unfold Intext.is_byte; lia|done]).
  split; [|done]. unfold copy_string, strlen. rewrite (strchr_ok _ _ _ 0 Hc). cbn [rbind Z.eqb].
  replace (s + Z.of_nat (length (c_text l)) - s) with (Z.of_nat (length (c_text l))) by lia.
  rewrite alloc_string_eq by lia. cbn [rbind alloc]. pose proof (cstr_bytes_at _ _ _ Hc) as Hat. apply Memory.bytes_at_app in Hat as [Hat _]. rewrite (load_bytes _ _ _ Hat). cbn [rbind].
  unfold Intext.blit_string. rewrite lookup_insert_eq. cbn [of_ptr rbind string_block data tag]. rewrite Nat2Z.id.
  assert (drop (length (c_text l)) (string_bytes (replicate (length (c_text l)) 0)) = drop (length (c_text l)) (string_bytes (c_text l))) as Hd.
  { unfold string_bytes. rewrite length_replicate. rewrite drop_app_length. by rewrite (drop_app_length' (replicate _ _)) by (by rewrite length_replicate). }
  assert (length (c_text l) <= length (string_bytes (replicate (length (c_text l)) 0%Z)))%nat as Hle by (unfold string_bytes; rewrite length_app, !length_replicate; lia).
  destruct (Nat.leb_spec (length (c_text l)) (length (string_bytes (replicate (length (c_text l)) 0%Z)))) as [_|]; [|lia]. cbn [rbind]. rewrite insert_insert_eq, Hd.
  unfold alloc, string_block. do 5 f_equal. unfold string_bytes. by rewrite drop_app_length.
Qed.

(** ** The room for the result *)

(** The first number in a format, as [atoi] reads it, and the bytes that there are for the result. *)
Fixpoint first_number (s : list Z) : option Z :=
  match s with
  | [] => None
  | c :: s' => if between 48 c 57 then Some (parse_atol s).2 else first_number s'
  end.
Definition format_prec_of (s : list Z) : Z := match first_number s with None => 32 | Some n => s32 (s32 n + 5) end.
Definition format_room (s : list Z) : Z := Z.max 32 (u32 (format_prec_of s)).

Lemma format_prec_ok m : forall fuel s p, cstr m p s -> (length s < fuel)%nat -> format_prec fuel m p = Ok (format_prec_of s).
Proof.
  induction fuel as [|fuel IH]; intros s p Hs Hf; [lia|]. cbn [format_prec]. destruct s as [|c s].
  - by rewrite (cstr_get_end _ _ Hs).
  - rewrite (cstr_get _ _ _ _ Hs). cbn [rbind]. pose proof (Forall_inv (cstr_in_string _ _ _ Hs)) as Hc. unfold in_string in Hc.
    destruct (Z.eqb_spec c 0); [lia|]. unfold format_prec_of. cbn [first_number].
    assert ((s8 c >=? 48) && (s8 c <=? 57) = between 48 c 57) as -> by (unfold between, s8; zlia).
    destruct (between 48 c 57) eqn:E; [|apply IH; [by apply (cstr_suffix m p [c])|simpl in Hf; lia]].
    pose proof (atol_parses m p (c :: s) Hs) as Ha. unfold between in E.
    assert ((parse_atol (c :: s)).1 = false) as Hneg.
    { unfold parse_atol. rewrite FmtOut.drop_while_none by (unfold is_blank; lia). assert ((c =? 45) || (c =? 43) = false) as -> by lia. done. }
    destruct (parse_atol (c :: s)) as [neg v]. cbn [fst snd] in *. subst neg. destruct Ha as (Ha & Hat & _). rewrite Hat, Ha. done.
Qed.
Lemma string_bytes_cstr m p s : Forall in_string s -> Z.of_nat (length s) < 2 ^ 31 -> Memory.bytes_at m p (string_bytes s) -> cstr m p s.
Proof.
  intros Hs Hl Hb. apply bytes_at_cstr; [done|]. unfold string_bytes in Hb. rewrite string_wosize_eq in Hb by lia. set (k := (_ - 1 - length s)%nat) in Hb.
  assert (exists r, replicate k 0 ++ [Z.of_nat k] = 0 :: r) as [r E] by (destruct k; eexists; done). rewrite E in Hb.
  change (0 :: r) with ([0] ++ r) in Hb. rewrite app_assoc in Hb. by apply Memory.bytes_at_app in Hb as [Hb _].
Qed.

(** ** What it prints *)

(** The memory of a call: the bytes of the format, the two local arrays, and the room for the result at [dest]. *)
Definition frame_ok (m : mem) (sv : Z) (s : list Z) (fr : frame) (malloc : Z -> option Z) (dest : Z) : Prop :=
  Cstring.bytes m /\ Memory.bytes_at m sv (string_bytes s) /\ mapped m (format_string fr) 32 /\ mapped m dest (format_room s) /\
  (format_string fr + 32 <= dest \/ dest + format_room s <= format_string fr) /\
  (if u32 (format_prec_of s) <=? 32 then Some (format_buffer fr) else malloc (u32 (format_prec_of s))) = Some dest.

(** The format with an 'l' before its last character, in the local array. *)
Lemma widened_ok m fs s0 c : Cstring.bytes m -> mapped m fs 32 -> Forall in_string (s0 ++ [c]) -> (length (s0 ++ [c]) < 31)%nat ->
  exists m', (let* m := put_all m fs (s0 ++ [c]) in let len := Z.of_nat (length (s0 ++ [c])) in
    let* m := put m (fs + len + 1) 0 in let* c := get m (fs + len - 1) in let* m := put m (fs + len) c in put m (fs + len - 1) 108) = Ok m' /\
    cstr m' fs (s0 ++ [108; c]) /\ Cstring.bytes m' /\ dom m' = dom m /\ forall q, ~ fs <= q < fs + 32 -> m' !! q = m !! q.
Proof.
  intros Hb Hm Hs Hl. pose proof (in_string_bytes _ Hs) as Hby.
  destruct (put_all_ok (s0 ++ [c]) m fs) as (m1 & -> & [Hw Ho] & Hb1 & Hd1); [eapply mapped_sub; [exact Hm|lia..]|done..|]. cbn [rbind]. cbn zeta.
  rewrite length_app in *. cbn [length] in *. set (n := Z.of_nat (length s0)) in *. replace (Z.of_nat (length s0 + 1)) with (n + 1) in * by lia.
  assert (forall q, fs <= q < fs + 32 -> is_Some (m1 !! q)) as Hin.
  { intros q Hq. replace q with (fs + (q - fs)) by lia. apply (mapped_dom m m1 fs 32 Hd1 Hm). lia. }
  apply Memory.bytes_at_app in Hw as [Hw0 [Hc _]]. fold n in Hc.
  rewrite (put_some m1) by (apply Hin; lia). cbn [rbind]. replace (fs + (n + 1) - 1) with (fs + n) by lia.
  rewrite (get_some _ _ c) by (by rewrite lookup_insert_ne by lia). cbn [rbind]. rewrite put_some by (apply insert_some, Hin; lia). cbn [rbind].
  rewrite put_some by (apply insert_some, insert_some, Hin; lia). eexists. split; [done|]. apply Forall_app in Hs as [Hs0 Hsc]. pose proof (Forall_inv Hsc) as Hcc. unfold in_string in Hcc.
  assert (forall m1 : mem, forall q x, dom m1 = dom m -> fs <= q < fs + 32 -> dom (<[q := x]> m1) = dom m) as Hdi.
  { intros m2 q x E Hq. rewrite dom_insert_L, E. apply subseteq_union_1_L, singleton_subseteq_l. rewrite <-Hd1. apply elem_of_dom. by apply Hin. }
  split_and!.
  - apply bytes_at_cstr.
    + apply Forall_app. split; [exact Hs0|]. apply Forall_cons_2; [lia|]. apply Forall_cons_2; [exact Hcc|apply Forall_nil_2].
    + rewrite <-app_assoc. apply Memory.bytes_at_app. split.
      * apply (Memory.bytes_at_frame m1); [done|]. fold n. intros q Hq. by rewrite !lookup_insert_ne by lia.
      * cbn [app Memory.bytes_at]. fold n. replace (fs + n + 1) with (fs + (n + 1)) by lia. replace (fs + (n + 1) + 1) with (fs + n + 2) by lia.
        split_and!; [by rewrite lookup_insert_eq|rewrite lookup_insert_ne by lia; by rewrite lookup_insert_eq| |done]. rewrite !lookup_insert_ne by lia. by rewrite lookup_insert_eq.
  - repeat apply Cstring.bytes_insert; try done; unfold Rune.is_byte; lia.
  - repeat (apply Hdi; [|lia]). done.
  - intros q Hq. rewrite !lookup_insert_ne by lia. apply Ho. lia.
Qed.
Lemma format_int_ok write_ok user doquote malloc b s0 c n sv fr junk h m tab out dest us e :
  let s := s0 ++ [c] in
  string_at h b s -> Forall in_string s -> (length s < 31)%nat -> is_long n -> frame_ok m sv s fr malloc dest ->
  printed tab (s0 ++ [108; c]) [VInt (u32 n)] = Some (us, e) -> Z.of_nat (length (concat us)) < Z.min (format_room s) 65536 ->
  exists f, format_int write_ok user doquote malloc (Ptr b) (Val_long n) sv fr junk h m tab out =
      Ok (Formatted (Ptr (fresh (dom h))) (<[fresh (dom h) := string_block (c_text (concat us))]> h) f) /\ string_fits (c_text (concat us)) /\
    forall q, ~ format_string fr <= q < format_string fr + 32 -> ~ dest <= q < dest + Z.of_nat (length (concat us)) + 1 -> smem f !! q = m !! q.
Proof.
  intros s Hat Hs Hl Hn (Hb & Hsv & Hfs & Hd & Hdis & Hdest) Ht Hfit. pose proof (string_bytes_cstr m sv s Hs ltac:(lia) Hsv) as Hcs.
  unfold format_int. rewrite (format_prec_ok m _ s sv Hcs (cstr_turns _ _ _ Hcs)). cbn [rbind]. rewrite Hdest.
  rewrite (string_length_at h b s Hat). cbn [rbind]. assert (Z.of_nat (length s) >=? 31 = false) as -> by lia.
  rewrite (load_cstr m sv s []) by (by rewrite app_nil_r). cbn [rbind].
  destruct (widened_ok m (format_string fr) s0 c Hb Hfs Hs Hl) as (m' & Hw & Hc' & Hb' & Hd' & Ho').
  apply rbind_Ok in Hw as (m1 & H1 & Hw). cbn zeta in Hw. fold s in H1, Hw. apply rbind_Ok in Hw as (m2 & H2 & Hw). apply rbind_Ok in Hw as (x & Hx & Hw). apply rbind_Ok in Hw as (m3 & H3 & Hw).
  rewrite H1. cbn [rbind]. rewrite H2. cbn [rbind]. rewrite Hx. cbn [rbind]. rewrite H3. cbn [rbind]. rewrite Hw. cbn [rbind]. rewrite (Long_val_is_long n Hn). cbn [rbind].
  destruct (sprint_ok write_ok user doquote tab m' dest (format_room s) (format_string fr) (s0 ++ [108; c]) [A32 (u32 n)] [VInt (u32 n)] junk out us e) as (f & -> & [Hl1 Ho1] & Hb1 & _); [done| |done|].
  { split_and!; [done|by apply (mapped_dom m)|done| |constructor; [split; [done|apply u32_range]|constructor]].
    rewrite length_app. unfold s in Hl. rewrite length_app in Hl. cbn [length] in *. intros q Hq. lia. }
  cbn [rbind]. destruct (copy_string_ok (smem f) dest h (concat us) Hb1 Hl1) as [Hcopy Hfits]; [unfold Max_wosize; lia|]. rewrite Hcopy. cbn [rbind alloc].
  exists f. split; [done|]. split; [done|]. intros q Hq1 Hq2. rewrite Ho1; [by apply Ho'|]. rewrite length_app. cbn [length]. lia.
Qed.

(** ** Decimal numbers *)

Lemma literal_decimal neg u : 0 <= u < 2 ^ 32 -> literal ((if neg : bool then [45] else []) ++ number 10 u conv_lower false) = Some (if neg then - u else u).
Proof.
  intros Hu. destruct (decimal_shape u Hu) as (_ & _ & Hs). pose proof (number_value 10 conv_lower u decimal_base ltac:(lia)) as Hv.
  pose proof (number_digits 10 conv_lower u decimal_base) as Hdig. set (l := number 10 u conv_lower false) in *. clearbody l.
  assert (unsigned_literal l = Some u) as Hlit.
  { unfold unsigned_literal. assert (match l with
      | c :: x :: u' => if negb (c =? 48) then (10, l) else if (x =? 120) || (x =? 88) then (16, u') else if (x =? 111) || (x =? 79) then (8, u')
          else if (x =? 98) || (x =? 66) then (2, u') else (10, l)
      | _ => (10, l)
      end = (10, l)) as E.
    { destruct Hs as [->|(c & l' & -> & Hc)]; [done|]. destruct l'; [done|]. by destruct (Z.eqb_spec c 48); [lia|]. }
    rewrite E. assert (forallb (is_digit 10) l = true) as -> by (apply forallb_forall; intros x Hx; rewrite Forall_forall in Hdig; apply Hdig; by apply list_elem_of_In). by rewrite Hv. }
  assert (exists c l', l = c :: l' /\ c <> 45) as (c & l' & -> & Hc) by (destruct Hs as [->|(c & l' & -> & Hc)]; eexists _, _; (split; [done|lia])).
  destruct neg; cbn [app literal]; [cbn [Z.eqb Pos.eqb]; by rewrite Hlit|]. destruct (Z.eqb_spec c 45); [done|exact Hlit].
Qed.
Lemma c_text_string l : Forall in_string l -> c_text l = l.
Proof.
  intros H. apply (FmtOut.take_while_whole). eapply Forall_impl; [exact H|]. intros c Hc. unfold in_string in Hc. lia.
Qed.

(** ** Properties *)

(** [format_int] prints an OCaml integer: for a format of fewer than 31 characters without NUL, the new string holds, up to a NUL
    in it, the text that the C format with an 'l' before its last character stands for, provided that text is shorter than the
    room that the function computed from the first number of the format; no block of the heap changes, and of the memory only the
    array of the format and the bytes of the result.  A longer format raises [Invalid_argument]. *)
Theorem format_int_prints write_ok user doquote malloc b s0 c n sv fr junk h m tab out dest :
  let s := s0 ++ [c] in
  string_at h b s -> Forall in_string s -> is_long n -> frame_ok m sv s fr malloc dest ->
  ((31 <= length s)%nat -> format_int write_ok user doquote malloc (Ptr b) (Val_long n) sv fr junk h m tab out = Ok (Raised "format_int: format too long")) /\
  (forall us e, (length s < 31)%nat -> printed tab (s0 ++ [108; c]) [VInt (u32 n)] = Some (us, e) -> Z.of_nat (length (concat us)) < Z.min (format_room s) 65536 ->
   let k := fresh (dom h) in let h' := <[k := string_block (c_text (concat us))]> h in
   exists f, format_int write_ok user doquote malloc (Ptr b) (Val_long n) sv fr junk h m tab out = Ok (Formatted (Ptr k) h' f) /\
     string_at h' k (c_text (concat us)) /\ (forall b', b' <> k -> h' !! b' = h !! b') /\ h !! k = None /\
     forall q, ~ format_string fr <= q < format_string fr + 32 -> ~ dest <= q < dest + Z.of_nat (length (concat us)) + 1 -> smem f !! q = m !! q).
Proof.
  intros s Hat Hs Hn Hframe. split.
  - intros Hl. pose proof Hframe as (Hb & Hsv & _ & _ & _ & Hdest). pose proof Hat as [_ [_ Hlen]]. unfold Max_wosize in Hlen.
    pose proof (string_bytes_cstr m sv s Hs ltac:(lia) Hsv) as Hcs. unfold format_int. rewrite (format_prec_ok m _ s sv Hcs (cstr_turns _ _ _ Hcs)). cbn [rbind]. rewrite Hdest.
    rewrite (string_length_at h b s Hat). cbn [rbind]. by assert (Z.of_nat (length s) >=? 31 = true) as -> by lia.
  - intros us e Hl Ht Hfit k h'. destruct (format_int_ok write_ok user doquote malloc b s0 c n sv fr junk h m tab out dest us e Hat Hs Hl Hn Hframe Ht Hfit) as (f & Hf & Hfits & Ho).
    exists f. split; [exact Hf|]. split; [split; [apply lookup_insert_eq|done]|]. split; [intros b' Hb'; by apply lookup_insert_ne|]. split; [apply not_elem_of_dom, is_fresh|exact Ho].
Qed.
(** C36: [int_of_string] is a left inverse of [string_of_int]: the string that [format_int] makes of an OCaml integer with the format ["%d"] is its decimal
    numeral, and [int_of_string] reads the same integer back, for all of the 2^31 of them; 32 bytes are always enough. *)
Theorem string_of_int_roundtrip write_ok user doquote malloc b n sv fr junk h m tab out :
  conv_of tab 108 = F_flag -> conv_of tab 100 = F_int ->
  string_at h b [37; 100] -> is_long n -> frame_ok m sv [37; 100] fr malloc (format_buffer fr) ->
  exists k h' f, format_int write_ok user doquote malloc (Ptr b) (Val_long n) sv fr junk h m tab out = Ok (Formatted (Ptr k) h' f) /\
    string_at h' k ((if n <? 0 then [45] else []) ++ number 10 (Z.abs n) conv_lower false) /\ (forall b', b' <> k -> h' !! b' = h !! b') /\
    int_of_string (Ptr k) h' = Ok (inl (Val_long n)).
Proof.
  intros Hl Hd Hat Hn Hframe. pose proof (long_decimal_printed tab (u32 n) Hl Hd (u32_range n)) as Ht.
  assert (s32 (u32 n) = n) as En by (unfold is_long, Min_long, Max_long in Hn; rewrite s32_u32; apply s32_small; unfold is_s32; lia).
  pose proof (decimal_length (u32 n)) as Hlen. pose proof (decimal_in_string (u32 n)) as Hin.
  destruct (format_int_ok write_ok user doquote malloc b [37] 100 n sv fr junk h m tab out (format_buffer fr)
    (map (fun c => [c]) (decimal (u32 n))) true Hat) as (f & Hf & Hfits & _); try done.
  - repeat first [apply Forall_nil_2|apply Forall_cons_2; [by unfold in_string|]].
  - simpl. lia.
  - rewrite concat_units. change (format_room ([37] ++ [100])) with 32. lia.
  - rewrite concat_units, (c_text_string _ Hin) in Hf, Hfits. do 3 eexists. split; [exact Hf|]. unfold decimal in *. rewrite En in *.
    split; [split; [apply lookup_insert_eq|exact Hfits]|]. split; [intros b' Hb'; by apply lookup_insert_ne|].
    rewrite (int_of_string_at _ _ _ (conj (lookup_insert_eq _ _ _) Hfits)). unfold is_long, Min_long, Max_long in Hn.
    rewrite (c_text_string _ Hin), literal_decimal by lia. do 3 f_equal. destruct (Z.ltb_spec n 0); lia.
Qed.

(** *** The format "%d" at 100, the arrays at 200 and 300, "%033d" at 400 and "%u" at 420 *)
Definition format_example : mem :=
  list_to_map ([(100, 37); (101, 100); (102, 0); (103, 1); (400, 37); (401, 48); (402, 51); (403, 51); (404, 100); (405, 0); (406, 0); (407, 2);
    (420, 37); (421, 117); (422, 0); (423, 1)] ++ map (fun q => (q, 85)) (seqZ 200 32 ++ seqZ 300 32)).
Lemma format_example_frame : frame_ok format_example 100 [37; 100] (mkFrame 200 300) (fun _ => None) 300.
Proof.
  split_and!; [|by vm_compute|by apply mapped_bool; vm_compute|by apply mapped_bool; vm_compute|by vm_compute; left|done].
  apply (bool_decide_unpack (map_Forall (fun _ b => 0 <= b < 256) format_example)). vm_compute. exact I.
Qed.
Lemma format_example_string : string_at {[0%nat := string_block [37; 100]]} 0 [37; 100].
Proof. split; [done|]. split; [by repeat first [apply Forall_nil_2|apply Forall_cons_2; [by unfold Intext.is_byte|]]|done]. Qed.
Lemma format_int_prints_witness :
  let h := {[0%nat := string_block [37; 100]]} : heap_t in let k := fresh (dom h) in let h' := <[k := string_block [45; 49; 50]]> h in
  exists f, format_int (fun _ _ => true) (fun _ _ => Fault) (fun _ => false) (fun _ => None) (Ptr 0) (Val_long (-12)) 100 (mkFrame 200 300) (0, 0, 0, 0) h format_example [] [] =
    Ok (Formatted (Ptr k) h' f) /\ string_at h' k [45; 49; 50] /\ (forall b', b' <> k -> h' !! b' = h !! b') /\ h !! k = None /\
    forall q, ~ 200 <= q < 200 + 32 -> ~ 300 <= q < 300 + 3 + 1 -> smem f !! q = format_example !! q.
Proof.
  apply (proj2 (format_int_prints (fun _ _ => true) (fun _ _ => Fault) (fun _ => false) (fun _ => None) 0 [37] 100 (-12) 100 (mkFrame 200 300) (0, 0, 0, 0)
    {[0%nat := string_block [37; 100]]} format_example [] [] 300 format_example_string
    ltac:(repeat first [apply Forall_nil_2|apply Forall_cons_2; [by unfold in_string|]]) ltac:(done) format_example_frame) [[45]; [49]; [50]] true).
  - simpl. lia.
  - vm_compute. reflexivity.
  - reflexivity.
Defined.
Lemma string_of_int_roundtrip_witness :
  exists k h' f, format_int (fun _ _ => true) (fun _ _ => Fault) (fun _ => false) (fun _ => None) (Ptr 0) (Val_long (-1073741824)) 100 (mkFrame 200 300) (0, 0, 0, 0)
      {[0%nat := string_block [37; 100]]} format_example [] [] = Ok (Formatted (Ptr k) h' f) /\
    string_at h' k ((if -1073741824 <? 0 then [45] else []) ++ number 10 (Z.abs (-1073741824)) conv_lower false) /\
    (forall b', b' <> k -> h' !! b' = ({[0%nat := string_block [37; 100]]} : heap_t) !! b') /\ int_of_string (Ptr k) h' = Ok (inl (Val_long (-1073741824))).
Proof.
  apply (string_of_int_roundtrip (fun _ _ => true) (fun _ _ => Fault) (fun _ => false) (fun _ => None) 0 (-1073741824) 100 (mkFrame 200 300) (0, 0, 0, 0)).
  - reflexivity.
  - reflexivity.
  - exact format_example_string.
  - done.
  - exact format_example_frame.
Defined.
(** The room is not always enough: [atoi] takes the zero flag of "%033d" for the prefix of an octal number, and the 33 characters go
    past the local array of 32 bytes. *)
Example format_int_overruns :
  format_int (fun _ _ => true) (fun _ _ => Fault) (fun _ => false) (fun _ => None) (Ptr 0) (Val_long 7) 400 (mkFrame 200 300) (0, 0, 0, 0)
    {[0%nat := string_block [37; 48; 51; 51; 100]]} format_example [] [] = Fault.
Proof. vm_compute. reflexivity. Qed.
(** For [sprint] 'u' is a flag, so "%u" is an unfinished conversion and prints nothing. *)
Example format_int_unsigned : printed [] [37; 108; 117] [VInt 7] = Some ([], false).
Proof. vm_compute. reflexivity. Qed.
