(* ===== verification/Pool.v ===== *)
(** * The memory pools: kernel/Libc/port/pool.c

    The allocator behind malloc: arenas from a coarser allocator are divided into blocks with a header and a tail; the free blocks are
    also nodes of a binary tree by size, whose nodes are rings of the blocks of one size.

    Memory is a map from the addresses of words to words; a byte is a part of a word.  [palloc], [pmerge] and [pmove] are the functions
    [p->alloc], [p->merge] and [p->move] of the pool, the first two with a state of their own; the main pool has no [p->move], the image
    pool has none until the drawing library starts.  A failed [assert] and a call of [p->panic] are [Panic].  The
    debugging flags (ANTAGONISM, PARANOIA, VERBOSITY, DEBUGGING, LOGGING), which neither pool sets, and the messages are left out. *)
From stdpp Require Import gmap.
From S2P Require Import Prelude Memory.

(** ** Memory *)

(** The keys are the addresses of words, multiples of 4. *)
Abbreviation words := mem.
Abbreviation getw := get.
Abbreviation putw := put.
(** The machine is little-endian. *)
Definition byte_of (w k : Z) : Z := u8 (Z.shiftr w (8 * k)).
Definition with_byte (w k v : Z) : Z := w + (v - byte_of w k) * 2 ^ (8 * k).
Definition getb (m : words) (a : Z) : result Z := let* w := getw m (a - a mod 4) in Ok (byte_of w (a mod 4)).
Definition putb (m : words) (a v : Z) : result words := let* w := getw m (a - a mod 4) in putw m (a - a mod 4) (with_byte w (a mod 4) (u8 v)).
Fixpoint loadb (n : nat) (m : words) (a : Z) : result (list Z) :=
  match n with O => Ok [] | S n => let* b := getb m a in let* l := loadb n m (a + 1) in Ok (b :: l) end.
Fixpoint storeb (l : list Z) (m : words) (a : Z) : result words :=
  match l with [] => Ok m | b :: l => let* m := putb m a b in storeb l m (a + 1) end.
Definition memmove (m : words) (dst src n : Z) : result words :=
  let* l := loadb (Z.to_nat n) m src in storeb l m dst.
Definition check (b : bool) : result unit := if b then Ok () else Panic.

(** ** Blocks *)

Definition NOT_MAGIC : Z := 0xdeadfa11.
Definition DEAD_MAGIC : Z := 0xdeaddead.
Definition TAIL_MAGIC0 : Z := 0xBE.
Definition TAIL_MAGIC1 : Z := 0xEF.
Definition FREE_MAGIC : Z := 0xBA5EBA11.
Definition ALLOC_MAGIC : Z := 0x0A110C09.
Definition UNALLOC_MAGIC : Z := 0xCAB00D1E + 1.
Definition ARENA_MAGIC : Z := 0xC0A1E5CE + 1.
Definition ARENATAIL_MAGIC : Z := 0xEC5E1A0C + 1.
Definition ALIGN_MAGIC : Z := 0xA1F1D1C1.
Definition datamagic : list Z := [0xFE; 0xF1; 0xF0; 0xFA].
Definition FLOATING_MAGIC : Z := 0xCBCBCBCB.
Definition Poison : Z := 0xCafeBabe.
(** The sizes and the fields of the structures. *)
Definition sizeof_Bhdr : Z := 8.
Definition sizeof_Btail : Z := 8.
Definition sizeof_Free : Z := 24.
Definition sizeof_Arena : Z := 24.
Definition MINBLOCKSIZE : Z := sizeof_Free + sizeof_Btail.
Definition magic (b : Z) : Z := b.
Definition bsize (b : Z) : Z := b + 4.
Definition left (b : Z) : Z := b + 8.
Definition right (b : Z) : Z := b + 12.
Definition next (b : Z) : Z := b + 16.
Definition prev (b : Z) : Z := b + 20.
Definition aup (a : Z) : Z := a + 8.
Definition down (a : Z) : Z := a + 12.
Definition asize (a : Z) : Z := a + 16.
Definition magic0 (t : Z) : Z := t.
Definition datasize (t : Z) : Z := t + 1.
Definition magic1 (t : Z) : Z := t + 3.
Definition tsize (t : Z) : Z := t + 4.
Definition B2NB (m : words) (b : Z) : result Z := let* n := getw m (bsize b) in Ok (b + n).
Definition B2T (m : words) (b : Z) : result Z := let* n := getw m (bsize b) in Ok (b + n - sizeof_Btail).
Definition B2PT (b : Z) : Z := b - sizeof_Btail.
Definition T2HDR (m : words) (t : Z) : result Z := let* n := getw m (tsize t) in Ok (t + sizeof_Btail - n).
Definition A2TB (m : words) (a : Z) : result Z := let* n := getw m (asize a) in Ok (a + n - sizeof_Bhdr).
Definition _B2D (b : Z) : Z := b + sizeof_Bhdr.
Definition _D2B (v : Z) : Z := v - sizeof_Bhdr.
Definition SHORT (m : words) (x : Z) : result Z := let* h := getb m x in let* l := getb m (x + 1) in Ok (Z.lor (Z.shiftl h 8) l).
Definition PSHORT (m : words) (p x : Z) : result words :=
  let* m := putb m p (Z.land (Z.shiftr x 8) 0xFF) in putb m (p + 1) (Z.land x 0xFF).

(** ** The tree *)

(** A pointer to a pointer to a node: a variable, whose value is [r], or a field in memory. *)
Inductive loc := Root | At (a : Z).
Definition read_loc (r : Z) (m : words) (l : loc) : result Z := match l with Root => Ok r | At a => getw m a end.
Definition write_loc (r : Z) (m : words) (l : loc) (v : Z) : result (Z * words) :=
  match l with Root => Ok (v, m) | At a => let* m := putw m a v in Ok (r, m) end.

Fixpoint ltreewalk (fuel : nat) (r : Z) (m : words) (t : loc) (size : Z) : result loc :=
  match fuel with
  | O => Loop
  | S fuel =>
      let* n := read_loc r m t in
      if n =? 0 then Ok t
      else
        let* mg := getw m (magic n) in
        let* _ := check (mg =? FREE_MAGIC) in
        let* sz := getw m (bsize n) in
        if size =? sz then Ok t
        else ltreewalk fuel r m (At (if size <? sz then left n else right n)) size
  end.
Definition treelookup (t : Z) (m : words) (size : Z) : result Z :=
  let* l := ltreewalk (turns m) t m Root size in read_loc t m l.
Definition treeinsert (tree node : Z) (m : words) : result (Z * words) :=
  let* size := getw m (bsize node) in
  let* l := ltreewalk (turns m) tree m Root size in
  let* repl := read_loc tree m l in
  let* m :=
    if repl =? 0 then let* m := putw m (left node) 0 in putw m (right node) 0
    else
      let* x := getw m (left repl) in
      let* m := putw m (left node) x in
      let* x := getw m (right repl) in
      putw m (right node) x in
  write_loc tree m l node.
(** The loop of [treedelete]: the field that points to the leftmost node. *)
Fixpoint leftmost (fuel : nat) (m : words) (lsucc : Z) : result Z :=
  match fuel with
  | O => Loop
  | S fuel =>
      let* n := getw m lsucc in
      let* l := getw m (left n) in
      if l =? 0 then Ok lsucc else leftmost fuel m (left n)
  end.
Definition treedelete (tree node : Z) (m : words) : result (Z * words) :=
  let* size := getw m (bsize node) in
  let* l := ltreewalk (turns m) tree m Root size in
  let* x := read_loc tree m l in
  let* _ := check (x =? node) in
  let* nl := getw m (left node) in
  let* nr := getw m (right node) in
  let* (tree, m) :=
    if nl =? 0 then write_loc tree m l nr
    else if nr =? 0 then write_loc tree m l nl
    else
      let* lsucc := leftmost (turns m) m (right node) in
      let* succ := getw m lsucc in
      let* x := getw m (right succ) in
      let* m := putw m lsucc x in
      let* x := getw m (left node) in
      let* m := putw m (left succ) x in
      let* x := getw m (right node) in
      let* m := putw m (right succ) x in
      write_loc tree m l succ in
  let* m := putw m (right node) Poison in
  let* m := putw m (left node) Poison in
  Ok (tree, m).
Fixpoint treelookupgt (fuel : nat) (m : words) (t size lastgood : Z) : result Z :=
  match fuel with
  | O => Loop
  | S fuel =>
      if t =? 0 then Ok lastgood
      else
        let* sz := getw m (bsize t) in
        if size =? sz then Ok t
        else if size <? sz then let* x := getw m (left t) in treelookupgt fuel m x size t
        else let* x := getw m (right t) in treelookupgt fuel m x size lastgood
  end.

(** ** The rings *)

Definition listadd (list node : Z) (m : words) : result (Z * words) :=
  if list =? 0 then
    let* m := putw m (next node) node in
    let* m := putw m (prev node) node in
    Ok (node, m)
  else
    let* x := getw m (prev list) in
    let* m := putw m (prev node) x in
    let* m := putw m (next node) list in
    let* x := getw m (prev node) in
    let* m := putw m (next x) node in
    let* x := getw m (next node) in
    let* m := putw m (prev x) node in
    Ok (list, m).
Definition poison_links (node : Z) (m : words) : result words :=
  let* m := putw m (next node) Poison in putw m (prev node) Poison.
Definition listdelete (list node : Z) (m : words) : result (Z * words) :=
  let* nx := getw m (next node) in
  if nx =? node then let* m := poison_links node m in Ok (0, m)
  else
    let* pv := getw m (prev node) in
    let* _ := check (negb (nx =? 0)) in
    let* _ := check (negb (pv =? 0)) in
    let* m := putw m (prev nx) pv in
    let* x := getw m (prev node) in
    let* y := getw m (next node) in
    let* m := putw m (next x) y in
    let* list := if list =? node then getw m (next node) else Ok list in
    let* m := poison_links node m in
    Ok (list, m).

(** ** The pool *)

Record pool := mkPool { maxsize : Z; cursize : Z; curfree : Z; curalloc : Z; minarena : Z; quantum : Z; minblock : Z;
  freeroot : Z; arenalist : Z; tolerance : bool; noreuse : bool; nfree : Z; lastcompact : Z }.
Definition set_freeroot x p := mkPool (maxsize p) (cursize p) (curfree p) (curalloc p) (minarena p) (quantum p) (minblock p) x (arenalist p) (tolerance p) (noreuse p) (nfree p) (lastcompact p).
Definition set_curfree x p := mkPool (maxsize p) (cursize p) x (curalloc p) (minarena p) (quantum p) (minblock p) (freeroot p) (arenalist p) (tolerance p) (noreuse p) (nfree p) (lastcompact p).
Definition set_curalloc x p := mkPool (maxsize p) (cursize p) (curfree p) x (minarena p) (quantum p) (minblock p) (freeroot p) (arenalist p) (tolerance p) (noreuse p) (nfree p) (lastcompact p).
Definition set_cursize x p := mkPool (maxsize p) x (curfree p) (curalloc p) (minarena p) (quantum p) (minblock p) (freeroot p) (arenalist p) (tolerance p) (noreuse p) (nfree p) (lastcompact p).
Definition set_arenalist x p := mkPool (maxsize p) (cursize p) (curfree p) (curalloc p) (minarena p) (quantum p) (minblock p) (freeroot p) x (tolerance p) (noreuse p) (nfree p) (lastcompact p).
Definition set_lastcompact x p := mkPool (maxsize p) (cursize p) (curfree p) (curalloc p) (minarena p) (quantum p) (minblock p) (freeroot p) (arenalist p) (tolerance p) (noreuse p) (nfree p) x.
Definition set_nfree x p := mkPool (maxsize p) (cursize p) (curfree p) (curalloc p) (minarena p) (quantum p) (minblock p) (freeroot p) (arenalist p) (tolerance p) (noreuse p) x (lastcompact p).

Definition pooladd (p : pool) (m : words) (node : Z) : result (pool * words) :=
  let* m := putw m (magic node) FREE_MAGIC in
  let* size := getw m (bsize node) in
  let* parent := ltreewalk (turns m) (freeroot p) m Root size in
  let* olst := read_loc (freeroot p) m parent in
  let* (lst, m) := listadd olst node m in
  let* (root, m) :=
    if negb (olst =? lst) then
      let* x := read_loc (freeroot p) m parent in
      let* (x, m) := treeinsert x lst m in
      write_loc (freeroot p) m parent x
    else Ok (freeroot p, m) in
  let* size := getw m (bsize node) in
  Ok (set_curfree (curfree p ⊞ size) (set_freeroot root p), m).
Definition pooldel (p : pool) (m : words) (node : Z) : result (pool * words) :=
  let* size := getw m (bsize node) in
  let* parent := ltreewalk (turns m) (freeroot p) m Root size in
  let* olst := read_loc (freeroot p) m parent in
  let* _ := check (negb (olst =? 0)) in
  let* (lst, m) := listdelete olst node m in
  let* (root, m) :=
    if lst =? 0 then
      let* x := read_loc (freeroot p) m parent in
      let* (x, m) := treedelete x olst m in
      write_loc (freeroot p) m parent x
    else if negb (lst =? olst) then
      let* x := read_loc (freeroot p) m parent in
      let* (x, m) := treeinsert x lst m in
      write_loc (freeroot p) m parent x
    else Ok (freeroot p, m) in
  let* m := putw m (right node) Poison in
  let* m := putw m (left node) Poison in
  let* size := getw m (bsize node) in
  let* m := putw m (magic node) UNALLOC_MAGIC in
  Ok (set_curfree (curfree p ⊟ size) (set_freeroot root p), m).

(** ** Blocks *)

(** [x&~(q-1)], for a [q] that is a power of two. *)
Definition round_down (x q : Z) : Z := Z.land x (0xffffffff - (q - 1)).
Definition dsize2bsize (p : pool) (sz : Z) : Z :=
  let sz := sz ⊞ (sizeof_Bhdr + sizeof_Btail) in
  let sz := if sz <? minblock p then minblock p else sz in
  let sz := if sz <? MINBLOCKSIZE then MINBLOCKSIZE else sz in
  round_down (sz ⊞ quantum p ⊟ 1) (quantum p).
Definition bsize2asize (p : pool) (sz : Z) : Z :=
  let sz := sz ⊞ (sizeof_Arena + sizeof_Btail) in
  let sz := if sz <? minarena p then minarena p else sz in
  round_down (sz ⊞ quantum p) (quantum p).
Definition blockmerge (p : pool) (m : words) (a b : Z) : result (pool * words * Z) :=
  let* nb := B2NB m a in
  let* _ := check (nb =? b) in
  let* mg := getw m (magic a) in
  let* (p, m) := if mg =? FREE_MAGIC then pooldel p m a else Ok (p, m) in
  let* mg := getw m (magic b) in
  let* (p, m) := if mg =? FREE_MAGIC then pooldel p m b else Ok (p, m) in
  let* t := B2T m a in
  let* m := putw m (tsize t) Poison in
  let* m := putb m (magic0 t) NOT_MAGIC in
  let* m := putb m (magic1 t) NOT_MAGIC in
  let* m := PSHORT m (datasize t) NOT_MAGIC in
  let* sa := getw m (bsize a) in
  let* sb := getw m (bsize b) in
  let* m := putw m (bsize a) (sa ⊞ sb) in
  let* t := B2T m a in
  let* sa := getw m (bsize a) in
  let* m := putw m (tsize t) sa in
  let* m := PSHORT m (datasize t) 0xFFFF in
  let* m := putw m (bsize b) NOT_MAGIC in
  let* m := putw m (magic b) NOT_MAGIC in
  let* m := putw m (magic a) UNALLOC_MAGIC in
  Ok (p, m, a).
Definition blocksetsize (m : words) (b size : Z) : result words :=
  let* mg := getw m (magic b) in
  let* _ := check (negb (mg =? FREE_MAGIC)) in
  let* m := putw m (bsize b) size in
  let* t := B2T m b in
  let* size := getw m (bsize b) in
  let* m := putw m (tsize t) size in
  let* m := putb m (magic0 t) TAIL_MAGIC0 in
  putb m (magic1 t) TAIL_MAGIC1.
Definition getdsize (m : words) (b : Z) : result Z :=
  let* t := B2T m b in
  let* size := getw m (bsize b) in
  let* d := SHORT m (datasize t) in
  Ok (size ⊟ d).
(** The bytes from [q] to [eq] that mark the end of the data. *)
Definition guard_byte (q : Z) : Z := nth (Z.to_nat (q mod 4)) datamagic 0.
Definition guard_end (q t : Z) : Z := if q + 4 <? t then q + 4 else t.
Fixpoint set_guard (n : nat) (m : words) (q : Z) : result words :=
  match n with O => Ok m | S n => let* m := putb m q (guard_byte q) in set_guard n m (q + 1) end.
Definition blocksetdsize (p : pool) (m : words) (b dsize : Z) : result words :=
  let* size := getw m (bsize b) in
  let* _ := check (dsize2bsize p dsize <=? size) in
  let* _ := check (size ⊟ dsize <? 0x10000) in
  let* t := B2T m b in
  let* m := PSHORT m (datasize t) (size ⊟ dsize) in
  let q := _B2D b + dsize in
  set_guard (Z.to_nat (guard_end q t - q)) m q.
Definition trim (p : pool) (m : words) (b dsize : Z) : result (pool * words * Z) :=
  let bs := dsize2bsize p dsize in
  let* size := getw m (bsize b) in
  let extra := size ⊟ bs in
  let* (p, m) :=
    if (0x10000 <=? size ⊟ dsize) || ((Z.shiftr bs 2 <=? extra) && (MINBLOCKSIZE <=? extra) && (minblock p <=? extra)) then
      let* m := blocksetsize m b bs in
      let* frag := B2NB m b in
      let* m := putw m (magic frag) UNALLOC_MAGIC in
      let* m := blocksetsize m frag extra in
      pooladd p m frag
    else Ok (p, m) in
  let* m := putw m (magic b) ALLOC_MAGIC in
  let* m := blocksetdsize p m b dsize in
  Ok (p, m, b).
Definition freefromfront (p : pool) (m : words) (b skip : Z) : result (pool * words * Z) :=
  let skip := round_down skip (quantum p) in
  let* size := getw m (bsize b) in
  if (0x1000 <=? skip) || ((Z.shiftr size 2 <=? skip) && (MINBLOCKSIZE <=? skip) && (minblock p <=? skip)) then
    let bb := b + skip in
    let* m := blocksetsize m bb (size ⊟ skip) in
    let* m := putw m (magic bb) UNALLOC_MAGIC in
    let* m := blocksetsize m b skip in
    let* m := putw m (magic b) UNALLOC_MAGIC in
    let* (p, m) := pooladd p m b in
    Ok (p, m, bb)
  else Ok (p, m, b).

(** ** Checks *)

(** The size and the magic numbers of a tail. *)
Definition tail_check (m : words) (t : Z) : result unit :=
  let* m0 := getb m (magic0 t) in
  let* m1 := getb m (magic1 t) in
  check (negb (negb (m0 =? TAIL_MAGIC0) || negb (m1 =? TAIL_MAGIC1))).
Definition ptr_check (m : words) (t b : Z) : result unit := let* h := T2HDR m t in check (h =? b).
Fixpoint dead_check (n : nat) (m : words) (q : Z) : result unit :=
  match n with O => Ok () | S n => let* v := getb m q in let* _ := check (v =? 0xDA) in dead_check n m (q + 1) end.
(** [tolerant]: the pool only complains about a NUL in the byte at [bq]. *)
Fixpoint guard_check (n : nat) (tolerant : bool) (m : words) (q bq : Z) : result unit :=
  match n with
  | O => Ok ()
  | S n =>
      let* v := getb m q in
      let* _ := check ((v =? guard_byte q) || ((q =? bq) && (v =? 0) && tolerant)) in
      guard_check n tolerant m (q + 1) bq
  end.
Definition blockcheck (p : pool) (m : words) (b : Z) : result unit :=
  let* mg := getw m (magic b) in
  if (mg =? FREE_MAGIC) || (mg =? UNALLOC_MAGIC) then
    let* t := B2T m b in
    let* _ := tail_check m t in
    ptr_check m t b
  else if mg =? DEAD_MAGIC then
    let* t := B2T m b in
    let* _ := tail_check m t in
    let* _ := ptr_check m t b in
    let* n := getdsize m b in
    dead_check (Z.to_nat (s32 n - 8)) m (_B2D b + 8)
  else if mg =? ARENA_MAGIC then
    let* b := A2TB m b in
    let* mg := getw m (magic b) in
    let* _ := check (mg =? ARENATAIL_MAGIC) in
    let* size := getw m (bsize b) in
    check (size =? 0)
  else if mg =? ARENATAIL_MAGIC then
    let* size := getw m (bsize b) in
    check (size =? 0)
  else if mg =? ALLOC_MAGIC then
    let* t := B2T m b in
    let* d := getdsize m b in
    let bq := _B2D b + d in
    let* m0 := getb m (magic0 t) in
    let* _ := check ((m0 =? TAIL_MAGIC0) || (tolerance p && (bq =? t) && (m0 =? 0))) in
    let* m1 := getb m (magic1 t) in
    let* _ := check (m1 =? TAIL_MAGIC1) in
    let* _ := ptr_check m t b in
    let* size := getw m (bsize b) in
    let* _ := check (dsize2bsize p d <=? size) in
    guard_check (Z.to_nat (guard_end bq t - bq)) (tolerance p) m bq bq
  else Panic.

(** ** Arenas *)

Fixpoint walk_blocks (fuel : nat) (p : pool) (m : words) (b atail : Z) : result Z :=
  match fuel with
  | O => Loop
  | S fuel =>
      let* mg := getw m (magic b) in
      if negb (mg =? ARENATAIL_MAGIC) && (b <? atail) then
        let* _ := blockcheck p m b in
        let* x := B2NB m b in
        walk_blocks fuel p m x atail
      else Ok b
  end.
Definition poolcheckarena (p : pool) (m : words) (a : Z) : result unit :=
  let* atail := A2TB m a in
  let* b := walk_blocks (turns m) p m a atail in
  let* _ := blockcheck p m b in
  check (b =? atail).

Section arenas.
Context {A : Type} (palloc : A -> words -> Z -> result (A * words * Z)) (pmerge : A -> words -> Z -> Z -> result (A * words * bool)) (pmove : option (words -> Z -> Z -> result words)).

Definition arenasetsize (m : words) (a size : Z) : result words :=
  let* m := putw m (asize a) size in
  let* atail := A2TB m a in
  let* m := putw m (magic atail) ARENATAIL_MAGIC in
  putw m (bsize atail) 0.
Definition blockgrow (p : pool) (m : words) (b nsize : Z) : result (pool * words) :=
  let* mg := getw m (magic b) in
  if mg =? FREE_MAGIC then
    let* (p, m) := pooldel p m b in
    let* _ := blockcheck p m b in
    let* m := blocksetsize m b nsize in
    let* _ := blockcheck p m b in
    let* bnxt := B2NB m b in
    let* mg := getw m (magic bnxt) in
    let* (p, m, a) := if mg =? FREE_MAGIC then blockmerge p m b bnxt else Ok (p, m, b) in
    let* _ := blockcheck p m a in
    pooladd p m a
  else
    let* dsize := getdsize m b in
    let* m := blocksetsize m b nsize in
    let* (p, m, _) := trim p m b dsize in
    Ok (p, m).
Definition arenamerge (p : pool) (s : A) (m : words) (bot top : Z) : result (pool * A * words) :=
  let* _ := blockcheck p m bot in
  let* _ := blockcheck p m top in
  let* up := getw m (aup bot) in
  let* _ := check ((up =? top) && (bot <? top)) in
  let* (s, m, merged) := pmerge s m bot top in
  if negb merged then Ok (p, s, m)
  else
    let* up := getw m (aup top) in
    let* m := putw m (aup bot) up in
    let* (p, m) :=
      if negb (up =? 0) then let* m := putw m (down up) bot in Ok (p, m)
      else Ok (set_arenalist bot p, m) in
    let* tail := A2TB m bot in
    let* bbot := T2HDR m (B2PT tail) in
    let* btop := B2NB m top in
    let* _ := blockcheck p m bbot in
    let* _ := blockcheck p m btop in
    let* tsz := getw m (asize top) in
    let* m := arenasetsize m bot (tsz ⊞ (top - bot)) in
    let* (p, m) := blockgrow p m bbot (btop - bbot) in
    let* _ := blockcheck p m bbot in
    Ok (p, s, m).
(** The loop of [arenacompact]: the place of the next block that stays, and whether a block moved. *)
Fixpoint compact_blocks (fuel : nat) (move : words -> Z -> Z -> result words) (p : pool) (m : words) (b wb eb : Z) (compacted : bool) : result (pool * words * Z * bool) :=
  match fuel with
  | O => Loop
  | S fuel =>
      if negb (b =? 0) && (b <? eb) then
        let* nxt := B2NB m b in
        let* mg := getw m (magic b) in
        if mg =? FREE_MAGIC then
          let* (p, m) := pooldel p m b in
          let* m := putw m (magic b) FLOATING_MAGIC in
          compact_blocks fuel move p m nxt wb eb compacted
        else if mg =? ALLOC_MAGIC then
          let* (m, compacted) :=
            if negb (wb =? b) then
              let* size := getw m (bsize b) in
              let* m := memmove m wb b size in
              let* m := move m (_B2D b) (_B2D wb) in
              Ok (m, true)
            else Ok (m, compacted) in
          let* wb := B2NB m wb in
          compact_blocks fuel move p m nxt wb eb compacted
        else compact_blocks fuel move p m nxt wb eb compacted
      else Ok (p, m, wb, compacted)
  end.
Definition arenacompact (p : pool) (m : words) (a : Z) : result (pool * words * bool) :=
  match pmove with
  | None => Panic
  | Some move =>
      let* _ := poolcheckarena p m a in
      let* eb := A2TB m a in
      let* b := B2NB m a in
      let* (p, m, wb, compacted) := compact_blocks (turns m) move p m b b eb false in
      if wb <? eb then
        let* m := putw m (magic wb) UNALLOC_MAGIC in
        let* m := blocksetsize m wb (eb - wb) in
        let* (p, m) := pooladd p m wb in
        Ok (p, m, compacted)
      else Ok (p, m, compacted)
  end.
Fixpoint compact_arenas (fuel : nat) (p : pool) (m : words) (a : Z) (compacted : bool) : result (pool * words * bool) :=
  match fuel with
  | O => Loop
  | S fuel =>
      if a =? 0 then Ok (p, m, compacted)
      else
        let* (p, m, c) := arenacompact p m a in
        let* x := getw m (down a) in
        compact_arenas fuel p m x (compacted || c)
  end.
Definition poolcompactl (p : pool) (m : words) : result (pool * words * bool) :=
  if match pmove with None => true | Some _ => false end || (lastcompact p =? nfree p) then Ok (p, m, false)
  else compact_arenas (turns m) (set_lastcompact (nfree p) p) m (arenalist p) false.
(** The place in the list, which is sorted by descending addresses. *)
Fixpoint arena_place (fuel : nat) (m : words) (a lastap ap : Z) : result (Z * Z) :=
  match fuel with
  | O => Loop
  | S fuel => if a <? ap then let* x := getw m (down ap) in arena_place fuel m a ap x else Ok (lastap, ap)
  end.
Definition poolnewarena (p : pool) (s : A) (m : words) (size : Z) : result (pool * A * words) :=
  if maxsize p <? cursize p ⊞ size then
    let* (p, m, _) := poolcompactl p m in Ok (p, s, m)
  else
    let* (s, m, a) := palloc s m size in
    if a =? 0 then Ok (p, s, m)
    else
      let p := set_cursize (cursize p ⊞ size) p in
      let* m := putw m (magic a) ARENA_MAGIC in
      let* m := blocksetsize m a sizeof_Arena in
      let* m := arenasetsize m a size in
      let* _ := blockcheck p m a in
      let* b := B2NB m a in
      let* m := putw m (magic b) UNALLOC_MAGIC in
      let* tail := A2TB m a in
      let* m := blocksetsize m b (tail - b) in
      let* _ := blockcheck p m b in
      let* (p, m) := pooladd p m b in
      let* _ := blockcheck p m b in
      let* (lastap, ap) := arena_place (turns m) m a 0 (arenalist p) in
      let* m := putw m (down a) ap in
      let* m := if negb (ap =? 0) then putw m (aup ap) a else Ok m in
      let* m := putw m (aup a) lastap in
      let* (p, m) :=
        if negb (lastap =? 0) then let* m := putw m (down lastap) a in Ok (p, m)
        else Ok (set_arenalist a p, m) in
      let* up := getw m (aup a) in
      let* (p, s, m) := if negb (up =? 0) then arenamerge p s m a up else Ok (p, s, m) in
      let* dn := getw m (down a) in
      if negb (dn =? 0) then arenamerge p s m dn a else Ok (p, s, m).

(** ** Allocation *)

Definition B2D (m : words) (a : Z) : result Z :=
  let* mg := getw m (magic a) in
  let* _ := check (mg =? ALLOC_MAGIC) in
  Ok (_B2D a).
Fixpoint skip_align (fuel : nat) (m : words) (u : Z) : result Z :=
  match fuel with
  | O => Loop
  | S fuel => let* x := getw m (u - 4) in if x =? ALIGN_MAGIC then skip_align fuel m (u - 4) else Ok u
  end.
Definition D2B (m : words) (v : Z) : result Z :=
  let v := v - v mod 4 in
  let* u := skip_align (turns m) m v in
  let a := _D2B u in
  let* mg := getw m (magic a) in
  let* _ := check (mg =? ALLOC_MAGIC) in
  Ok a.
(** The address 0 is [nil]. *)
Definition poolallocl (p : pool) (s : A) (m : words) (dsize : Z) : result (pool * A * words * Z) :=
  if 0x80000000 <=? dsize then Ok (p, s, m, 0)
  else
    let bs := dsize2bsize p dsize in
    let* fb := treelookupgt (turns m) m (freeroot p) bs 0 in
    let* (p, s, m, fb) :=
      if fb =? 0 then
        let* (p, s, m) := poolnewarena p s m (bsize2asize p bs) in
        let* fb := treelookupgt (turns m) m (freeroot p) bs 0 in
        Ok (p, s, m, fb)
      else Ok (p, s, m, fb) in
    if fb =? 0 then Ok (p, s, m, 0)
    else
      let* (p, m) := pooldel p m fb in
      let* (p, m, ab) := trim p m fb dsize in
      let* size := getw m (bsize ab) in
      let p := set_curalloc (curalloc p ⊞ size) p in
      let* v := B2D m ab in
      Ok (p, s, m, v).
Definition memset (m : words) (a v n : Z) : result words := storeb (repeat v (Z.to_nat n)) m a.
Definition poolfreel (p : pool) (m : words) (v : Z) : result (pool * words) :=
  if v =? 0 then Ok (p, m)
  else
    let* ab := D2B m v in
    let* _ := blockcheck p m ab in
    if noreuse p then
      let* m := putw m (magic ab) DEAD_MAGIC in
      let* n := getdsize m ab in
      let* m := memset m (v + 8) 0xDA (s32 n - 8) in
      Ok (p, m)
    else
      let p := set_nfree (nfree p ⊞ 1) p in
      let* size := getw m (bsize ab) in
      let p := set_curalloc (curalloc p ⊟ size) p in
      let* back := T2HDR m (B2PT ab) in
      let* mg := getw m (magic back) in
      let* (p, m, ab) := if mg =? FREE_MAGIC then blockmerge p m back ab else Ok (p, m, ab) in
      let* fwd := B2NB m ab in
      let* mg := getw m (magic fwd) in
      let* (p, m, ab) := if mg =? FREE_MAGIC then blockmerge p m ab fwd else Ok (p, m, ab) in
      pooladd p m ab.
(** The label [Returnblock]. *)
Definition return_block (p : pool) (s : A) (m : words) (v a odsize obsize ndsize : Z) : result (pool * A * words * Z) :=
  let* m := if negb (v =? _B2D a) then memmove m (_B2D a) v odsize else Ok m in
  let* (p, m, a) := trim p m a ndsize in
  let* size := getw m (bsize a) in
  let p := set_curalloc (curalloc p ⊟ obsize ⊞ size) p in
  let* v := B2D m a in
  Ok (p, s, m, v).
Definition poolreallocl (p : pool) (s : A) (m : words) (v ndsize : Z) : result (pool * A * words * Z) :=
  if v =? 0 then poolallocl p s m ndsize
  else if ndsize =? 0 then let* (p, m) := poolfreel p m v in Ok (p, s, m, 0)
  else
    let* a := D2B m v in
    let* _ := blockcheck p m a in
    let* odsize := getdsize m a in
    let* obsize := getw m (bsize a) in
    let nbsize := dsize2bsize p ndsize in
    let* asz := getw m (bsize a) in
    if nbsize <=? asz then return_block p s m v a odsize obsize ndsize
    else
      let* rt := B2NB m a in
      let* rmg := getw m (magic rt) in
      let* rsz := getw m (bsize rt) in
      if (rmg =? FREE_MAGIC) && (nbsize <=? asz ⊞ rsz) then
        let* (p, m, a) := blockmerge p m a rt in
        return_block p s m v a odsize obsize ndsize
      else
        let* lt := T2HDR m (B2PT a) in
        let* lmg := getw m (magic lt) in
        let* lsz := getw m (bsize lt) in
        if (lmg =? FREE_MAGIC) && (nbsize <=? lsz ⊞ asz) then
          let* (p, m, a) := blockmerge p m lt a in
          return_block p s m v a odsize obsize ndsize
        else if (lmg =? FREE_MAGIC) && (rmg =? FREE_MAGIC) && (nbsize <=? lsz ⊞ asz ⊞ rsz) then
          let* (p, m, a) := blockmerge p m lt a in
          let* (p, m, a) := blockmerge p m a rt in
          return_block p s m v a odsize obsize ndsize
        else
          let* (p, s, m, nv) := poolallocl p s m ndsize in
          if nv =? 0 then Ok (p, s, m, 0)
          else
            let* lt := T2HDR m (B2PT a) in
            let* rt := B2NB m a in
            let* newb := D2B m nv in
            if (lt =? newb) || (rt =? newb) then
              let* lmg := getw m (magic lt) in
              let* (p, m, a) := if (lt =? newb) || (lmg =? FREE_MAGIC) then blockmerge p m lt a else Ok (p, m, a) in
              let* rmg := getw m (magic rt) in
              let* (p, m, a) := if (rt =? newb) || (rmg =? FREE_MAGIC) then blockmerge p m a rt else Ok (p, m, a) in
              let* asz := getw m (bsize a) in
              let* _ := check (nbsize <=? asz) in
              return_block p s m v a odsize obsize ndsize
            else
              let* m := memmove m nv v odsize in
              let* (p, m) := poolfreel p m v in
              Ok (p, s, m, nv).
Definition alignptr (v align offset : Z) : Z :=
  if align =? 0 then v
  else
    let off := v mod align in
    if off =? offset then v
    else
      let c := v ⊞ (offset - off) in
      if offset <? off then c ⊞ align else c.
Fixpoint mark_align (n : nat) (m : words) (u : Z) : result words :=
  match n with O => Ok m | S n => let* m := putw m u ALIGN_MAGIC in mark_align n m (u + 4) end.
(** [offset] is a [long]; the sums with it are those of [ulong]s. *)
Definition poolallocalignl (p : pool) (s : A) (m : words) (dsize align offset span : Z) : result (pool * A * words * Z) :=
  let offset :=
    if align =? 0 then offset
    else if offset <? 0 then align ⊟ u32 (- offset) mod align
    else offset mod align in
  let size := dsize ⊞ align in
  let* (p, s, m, v) := poolallocl p s m size in
  if v =? 0 then Ok (p, s, m, 0)
  else
    let* (p, s, m, v) :=
      if negb (span =? 0) && negb (v / span =? (v ⊞ size) / span) then
        let* (p, m) := poolfreel p m v in
        poolallocl p s m (2 ⊠ size)
      else Ok (p, s, m, v) in
    if v =? 0 then Ok (p, s, m, 0)
    else
      let c := alignptr v align offset in
      let crosses c := negb (span =? 0) && negb (c / span =? (c ⊞ dsize ⊟ 1) / span) in
      let c := if crosses c then alignptr (c ⊞ (span - c mod span)) align offset else c in
      if crosses c then
        let* (p, m) := poolfreel p m v in
        Ok (p, s, m, 0)
      else
        let b := _D2B v in
        let* (p, m, b) := freefromfront p m b (c - v) in
        let v := _B2D b in
        let skip := c - v in
        let* m := mark_align (Z.to_nat (skip / 4)) m v in
        let* (p, m, _) := trim p m b (skip ⊞ dsize) in
        let* b' := D2B m c in
        let* _ := check (b' =? b) in
        Ok (p, s, m, c).
Definition poolmsize (p : pool) (m : words) (v : Z) : result (words * Z) :=
  if v =? 0 then Ok (m, 0)
  else
    let* b := D2B m v in
    let* size := getw m (bsize b) in
    let dsize := round_down size (quantum p) ⊟ sizeof_Bhdr ⊟ sizeof_Btail in
    let* d := getdsize m b in
    let* _ := check (d <=? dsize) in
    let* m := blocksetdsize p m b dsize in
    Ok (m, dsize).

(** ** The check of the whole pool *)

Definition links_check (m : words) (q : Z) : result unit :=
  let* nx := getw m (next q) in
  let* _ := if nx =? 0 then Ok () else let* x := getw m (prev nx) in check (x =? q) in
  let* pv := getw m (prev q) in
  if pv =? 0 then Ok () else let* x := getw m (next pv) in check (x =? q).
Fixpoint checklist (fuel : nat) (m : words) (t q : Z) : result unit :=
  match fuel with
  | O => Loop
  | S fuel =>
      if q =? t then Ok ()
      else
        let* sz := getw m (bsize q) in
        let* size := getw m (bsize t) in
        let* _ := check (sz =? size) in
        let* _ := links_check m q in
        let* mg := getw m (magic q) in
        let* _ := check (mg =? FREE_MAGIC) in
        let* x := getw m (next q) in
        checklist fuel m t x
  end.
(** The bounds are [int]s, which are compared with sizes as words. *)
Fixpoint checktree (fuel : nat) (m : words) (t a b : Z) : result unit :=
  match fuel with
  | O => Loop
  | S fuel =>
      let* mg := getw m (magic t) in
      let* _ := check (mg =? FREE_MAGIC) in
      let* size := getw m (bsize t) in
      let* _ := check ((u32 a <? size) && (size <? u32 b)) in
      let* _ := links_check m t in
      let* x := getw m (next t) in
      let* _ := checklist (turns m) m t x in
      let* l := getw m (left t) in
      let* _ := if l =? 0 then Ok () else checktree fuel m l a size in
      let* r := getw m (right t) in
      if r =? 0 then Ok () else checktree fuel m r size b
  end.
Fixpoint check_arenas (fuel : nat) (p : pool) (m : words) (a : Z) : result unit :=
  match fuel with
  | O => Loop
  | S fuel =>
      if a =? 0 then Ok ()
      else
        let* _ := poolcheckarena p m a in
        let* x := getw m (down a) in
        check_arenas fuel p m x
  end.
Definition poolcheckl (p : pool) (m : words) : result unit :=
  let* _ := check_arenas (turns m) p m (arenalist p) in
  if freeroot p =? 0 then Ok () else checktree (turns m) m (freeroot p) 0 (2 ^ 30).

End arenas.
