(* ===== verification/PoolWords.v ===== *)
(** * Bytes in words

    The functions of pool.c that read and write the bytes of the words of memory: the bytes of a word are independent, and a store of
    bytes leaves every other byte alone. *)
From stdpp Require Import gmap list.
From S2P Require Import Prelude Memory Pool.

Definition byte_at (m : words) (a : Z) : option Z := (fun w => byte_of w (a mod 4)) <$> m !! (a - a mod 4).

Ltac pows := change (2 ^ (8 * 0)) with 1 in *; change (2 ^ (8 * 1)) with 256 in *; change (2 ^ (8 * 2)) with 65536 in *; change (2 ^ (8 * 3)) with 16777216 in *; change (2 ^ 8) with 256 in *.
Lemma byte_of_with w k v : 0 <= k < 4 -> byte_of (with_byte w k v) k = u8 v.
Proof.
  intros Hk. unfold with_byte, byte_of, u8. rewrite !Z.shiftr_div_pow2, Z.div_add by lia. generalize (w / 2 ^ (8 * k)). intros x. pows. zlia.
Qed.
Lemma byte_of_other w k j v : 0 <= k < 4 -> 0 <= j < 4 -> k <> j -> 0 <= v < 256 -> byte_of (with_byte w k v) j = byte_of w j.
Proof.
  intros Hk Hj Hne Hv. assert (k = 0 \/ k = 1 \/ k = 2 \/ k = 3) as [->|[->|[->| ->]]] by lia; assert (j = 0 \/ j = 1 \/ j = 2 \/ j = 3) as [->|[->|[->| ->]]] by lia; try lia;
  unfold with_byte, byte_of, u8; rewrite !Z.shiftr_div_pow2 by lia; pows; zlia.
Qed.
Lemma getb_at m a b : byte_at m a = Some b -> getb m a = Ok b.
Proof. unfold byte_at, getb. intros H. destruct (m !! (a - a mod 4)) as [w|] eqn:E; [|done]. injection H as <-. by rewrite (get_some _ _ _ E). Qed.
(** What changes in memory when only the byte at [a] is stored. *)
Definition bytes_same (m m' : words) (P : Z -> Prop) : Prop := forall b, P b -> byte_at m' b = byte_at m b.
Lemma word_eq a b : a - a mod 4 = b - b mod 4 -> a mod 4 = b mod 4 -> a = b.
Proof. zlia. Qed.
Lemma putb_at m a v : is_Some (m !! (a - a mod 4)) -> exists m', putb m a v = Ok m' /\ byte_at m' a = Some (u8 v) /\ dom m' = dom m /\
  (forall q, q <> a - a mod 4 -> m' !! q = m !! q) /\ bytes_same m m' (fun b => b <> a).
Proof.
  intros [w Hw]. unfold putb. rewrite (get_some _ _ _ Hw). cbn [rbind]. rewrite put_some by (by eexists). eexists. split; [done|].
  pose proof (Z.mod_pos_bound a 4 ltac:(lia)). split_and!.
  - unfold byte_at. rewrite lookup_insert_eq. cbn. f_equal. rewrite byte_of_with by lia. unfold u8. by rewrite Zmod_mod.
  - apply dom_insert_lookup_L. by eexists.
  - intros q Hq. by apply lookup_insert_ne.
  - intros b Hb. unfold byte_at. destruct (Z.eq_dec (b - b mod 4) (a - a mod 4)) as [E|E].
    + rewrite E, lookup_insert_eq, Hw. cbn. f_equal. apply byte_of_other; [lia|pose proof (Z.mod_pos_bound b 4 ltac:(lia)); lia|by intros ?; apply Hb; symmetry; apply word_eq|unfold u8; zlia].
    + by rewrite lookup_insert_ne.
Qed.
(** A store of a word. *)
Lemma put_bytes m a v : a mod 4 = 0 -> bytes_same m (<[a := v]> m) (fun b => b < a \/ a + 4 <= b).
Proof. intros Ha b Hb. unfold byte_at. rewrite lookup_insert_ne; [done|]. zlia. Qed.
Lemma bytes_same_trans m m' m'' P : bytes_same m m' P -> bytes_same m' m'' P -> bytes_same m m'' P.
Proof. intros H1 H2 b Hb. by rewrite (H2 b Hb), (H1 b Hb). Qed.
Lemma bytes_same_weaken m m' (P Q : Z -> Prop) : (forall b, Q b -> P b) -> bytes_same m m' P -> bytes_same m m' Q.
Proof. intros H1 H2 b Hb. auto. Qed.
Lemma same_bytes (m m' : words) (a n : Z) : a mod 4 = 0 -> n mod 4 = 0 -> (forall q, a <= q < a + n -> m' !! q = m !! q) -> bytes_same m m' (fun b => a <= b < a + n).
Proof. intros H1 H2 H b Hb. unfold byte_at. rewrite H; [done|]. zlia. Qed.

(** ** Shorts *)

Definition short_at (m : words) (p x : Z) : Prop := byte_at m p = Some (u8 (x / 256)) /\ byte_at m (p + 1) = Some (u8 x).
Lemma PSHORT_ok m p x : is_Some (m !! (p - p mod 4)) -> is_Some (m !! (p + 1 - (p + 1) mod 4)) -> exists m', PSHORT m p x = Ok m' /\ short_at m' p x /\ dom m' = dom m /\
  (forall q, q <> p - p mod 4 -> q <> p + 1 - (p + 1) mod 4 -> m' !! q = m !! q) /\ bytes_same m m' (fun b => b <> p /\ b <> p + 1).
Proof.
  intros H1 H2. unfold PSHORT. destruct (putb_at m p (Z.land (Z.shiftr x 8) 255) H1) as (m1 & -> & B1 & D1 & F1 & S1). cbn [rbind].
  destruct (putb_at m1 (p + 1) (Z.land x 255)) as (m2 & -> & B2 & D2 & F2 & S2); [by rewrite <-elem_of_dom, D1, elem_of_dom|].
  assert (forall y, u8 (Z.land y 255) = u8 y) as E by (intros y; change 255 with (Z.ones 8); rewrite Z.land_ones by lia; unfold u8; by rewrite Zmod_mod).
  exists m2. split; [done|]. split_and!; [split| | |].
  - rewrite S2 by lia. by rewrite B1, E, Z.shiftr_div_pow2.
  - by rewrite B2, E.
  - congruence.
  - intros q Q1 Q2. by rewrite F2, F1.
  - intros b [Hb1 Hb2]. by rewrite S2, S1.
Qed.
Lemma SHORT_ok m p x : short_at m p x -> SHORT m p = Ok (x mod 65536).
Proof.
  intros [H1 H2]. unfold SHORT. rewrite (getb_at _ _ _ H1). cbn [rbind]. rewrite (getb_at _ _ _ H2). cbn [rbind]. f_equal.
  rewrite Z.shiftl_mul_pow2, lor_add by (try lia; unfold u8; zlia). unfold u8. pows. zlia.
Qed.

(** ** Guards *)

Definition guard_at (m : words) (q e : Z) : Prop := forall b, q <= b < e -> byte_at m b = Some (guard_byte b).
Lemma guard_byte_range q : u8 (guard_byte q) = guard_byte q.
Proof. unfold guard_byte. pose proof (Z.mod_pos_bound q 4 ltac:(lia)). assert (Z.to_nat (q mod 4) < 4)%nat as Hlt by lia. destruct (Z.to_nat (q mod 4)) as [|[|[|[|k]]]]; [done..|lia]. Qed.
Lemma set_guard_ok n : forall m q, (forall b, q <= b < q + Z.of_nat n -> is_Some (m !! (b - b mod 4))) ->
  exists m', set_guard n m q = Ok m' /\ guard_at m' q (q + Z.of_nat n) /\ dom m' = dom m /\
    (forall w, (w + 4 <= q \/ q + Z.of_nat n <= w) -> m' !! w = m !! w) /\ bytes_same m m' (fun b => b < q \/ q + Z.of_nat n <= b).
Proof.
  induction n as [|n IH]; intros m q Hm.
  - exists m. split_and!; try done. intros b Hb. lia.
  - cbn [set_guard]. destruct (putb_at m q (guard_byte q)) as (m1 & -> & B1 & D1 & F1 & S1); [apply Hm; lia|]. cbn [rbind].
    destruct (IH m1 (q + 1)) as (m2 & -> & G2 & D2 & F2 & S2); [intros b Hb; rewrite <-elem_of_dom, D1, elem_of_dom; apply Hm; lia|].
    exists m2. split_and!; [done| |congruence| |].
    + intros b Hb. destruct (Z.eq_dec b q) as [->|]; [|apply G2; lia]. rewrite S2 by lia. by rewrite B1, guard_byte_range.
    + intros w Hw. rewrite F2, F1; [done|zlia|zlia].
    + intros b Hb. rewrite S2, S1; [done|lia|lia].
Qed.
Lemma guard_check_ok n tol m bq : forall q, guard_at m q (q + Z.of_nat n) -> guard_check n tol m q bq = Ok ().
Proof.
  induction n as [|n IH]; intros q H; [done|]. cbn [guard_check]. rewrite (getb_at _ _ _ (H q ltac:(lia))). cbn [rbind]. rewrite Z.eqb_refl. cbn [orb check rbind].
  apply IH. intros b Hb. apply H. lia.
Qed.
