(* ===== verification/PoolTree.v ===== *)
(** * The tree of free blocks

    What the functions of pool.c do to the tree and its rings, as functions on trees: [tree_at] relates the words of memory to a
    tree, whose nodes carry the rings of blocks of one size; [focus] is the walk of [ltreewalk], which leaves a context and a subtree. *)
From stdpp Require Import gmap list sorting.
From S2P Require Import Prelude Memory Pool.

Ltac fields := unfold left, right, next, prev, magic, bsize, aup, down, asize in *.
(** A word after a store to another or to the same address. *)
Ltac look := cbn [fst snd]; repeat first [rewrite lookup_insert_eq | rewrite lookup_insert_ne by lia].

(** A word is there. *)
Ltac there := look; first [done | by eexists; eassumption | by eexists].

(** ** Rings *)

(** Neighbours in a list point to each other. *)
Fixpoint chain (m : words) (l : list Z) : Prop :=
  match l with
  | x :: (y :: _) as l' => m !! next x = Some y /\ m !! prev y = Some x /\ chain m l'
  | _ => True
  end.
Definition ring_at (m : words) (l : list Z) : Prop := match l with [] => False | h :: _ => chain m (l ++ [h]) end.
(** The structures at these addresses do not overlap. *)
Definition spaced (l : list Z) : Prop := NoDup l /\ forall a b, a ∈ l -> b ∈ l -> a <> b -> a + sizeof_Free <= b \/ b + sizeof_Free <= a.

Lemma chain_cons m x y l : chain m (x :: y :: l) <-> m !! next x = Some y /\ m !! prev y = Some x /\ chain m (y :: l).
Proof. done. Qed.
Lemma chain_app m l1 x l2 : chain m (l1 ++ x :: l2) <-> chain m (l1 ++ [x]) /\ chain m (x :: l2).
Proof.
  induction l1 as [|a l1 IH]; [simpl; tauto|]. destruct l1 as [|b l1].
  - cbn [app]. rewrite (chain_cons m a x l2), (chain_cons m a x []). simpl. tauto.
  - cbn [app] in *. rewrite !chain_cons. tauto.
Qed.
Lemma chain_snoc m l x y : chain m (l ++ [x; y]) <-> chain m (l ++ [x]) /\ m !! next x = Some y /\ m !! prev y = Some x.
Proof. rewrite (chain_app m l x [y]), chain_cons. simpl. tauto. Qed.
Lemma chain_frame m m' l : (forall x, x ∈ l -> Some x <> last l -> m' !! next x = m !! next x) ->
  (forall x, x ∈ l -> Some x <> head l -> m' !! prev x = m !! prev x) -> NoDup l -> chain m l -> chain m' l.
Proof.
  induction l as [|x l IH]; [done|]. destruct l as [|y l]; [done|]. intros Hn Hp Hnd (H1 & H2 & H3). apply NoDup_cons in Hnd as [Hx Hnd].
  assert (x <> y) as Hxy by (intros ->; apply Hx; left). cbn [chain]. split; [|split].
  - rewrite Hn; [done|left|]. intros E. apply Hx. apply last_Some_elem_of. by rewrite E.
  - rewrite Hp; [done|right; left|]. simpl. congruence.
  - apply IH; [| |done|done].
    + intros z Hz Hl. apply Hn; [by right|]. done.
    + intros z Hz Hh. apply Hp; [by right|]. simpl. intros [= ->]. done.
Qed.
Lemma spaced_perm l l' : l ≡ₚ l' -> spaced l -> spaced l'.
Proof. intros E [H1 H2]. split; [by rewrite <-E|]. intros a b. rewrite <-E. apply H2. Qed.
Lemma spaced_app_l l l' : spaced (l ++ l') -> spaced l.
Proof. intros [H1 H2]. split; [by apply NoDup_app in H1 as [? _]|]. intros a b Ha Hb. apply H2; apply elem_of_app; by left. Qed.
Lemma spaced_app_r l l' : spaced (l ++ l') -> spaced l'.
Proof. intros [H1 H2]. split; [by apply NoDup_app in H1 as (_ & _ & ?)|]. intros a b Ha Hb. apply H2; apply elem_of_app; by right. Qed.
Lemma spaced_apart l l' a b : spaced (l ++ l') -> a ∈ l -> b ∈ l' -> a + sizeof_Free <= b \/ b + sizeof_Free <= a.
Proof.
  intros [H1 H2] Ha Hb. apply H2; [apply elem_of_app; by left|apply elem_of_app; by right|].
  intros ->. apply NoDup_app in H1 as (_ & H & _). by apply (H b Ha).
Qed.
(** A ring read from another of its elements. *)
Lemma chain_rotate m l1 x l2 y : chain m (y :: l1 ++ x :: l2 ++ [y]) <-> chain m (x :: l2 ++ y :: l1 ++ [x]).
Proof.
  change (y :: l1 ++ x :: l2 ++ [y]) with ((y :: l1) ++ x :: l2 ++ [y]). change (x :: l2 ++ y :: l1 ++ [x]) with ((x :: l2) ++ y :: l1 ++ [x]).
  rewrite (chain_app m (y :: l1) x), (chain_app m (x :: l2) y). simpl. tauto.
Qed.

Lemma listadd_ring m h rest node : let l := h :: rest in
  ring_at m l -> spaced (node :: l) -> 0 < h -> is_Some (m !! next node) -> is_Some (m !! prev node) ->
  exists m', listadd h node m = Ok (h, m') /\ ring_at m' (h :: rest ++ [node]) /\ dom m' = dom m /\
    forall q, (forall a, a ∈ node :: l -> q <> next a /\ q <> prev a) -> m' !! q = m !! q.
Proof.
  intros l Hr Hs Hh Hn Hp. destruct (exists_last (l := l)) as (l0 & z & E); [done|]. unfold ring_at, l in Hr. fold l in Hr. rewrite E, <-app_assoc in Hr. cbn [app] in Hr.
  apply chain_snoc in Hr as (Hc & Hz & Hhp). destruct Hs as [Hnd Hsp]. apply NoDup_cons in Hnd as [Hnl Hnd].
  assert (z ∈ l) as Hzl by (rewrite E; apply elem_of_app; right; left). assert (h ∈ l) as Hhl by left.
  assert (forall a, a ∈ l -> node + 24 <= a \/ a + 24 <= node) as Hna by (intros a Ha; apply Hsp; [left|by right|intros ->; done]).
  assert (forall a b, a ∈ l -> b ∈ l -> a = b \/ a + 24 <= b \/ b + 24 <= a) as Hll.
  { intros a b Ha Hb. destruct (Z.eq_dec a b); [by left|right]. by apply Hsp; [right|right|]. }
  pose proof (Hna z Hzl). pose proof (Hna h Hhl). pose proof (Hll z h Hzl Hhl). unfold listadd. destruct (Z.eqb_spec h 0); [lia|]. fields.
  rewrite (get_some m (h + 20) z Hhp). cbn [rbind]. rewrite put_some by done. cbn [rbind].
  rewrite put_some by (by apply insert_some). cbn [rbind]. rewrite (get_some _ (node + 20) z) by (look; done). cbn [rbind].
  rewrite put_some by there. cbn [rbind]. rewrite (get_some _ (node + 16) h) by (look; done). cbn [rbind]. rewrite put_some by there. cbn [rbind].
  eexists. split; [done|]. split; [|split].
  - unfold ring_at. change (h :: rest ++ [node]) with (l ++ [node]). rewrite E, <-!app_assoc. cbn [app]. rewrite (chain_app _ l0 z [node; h]). split.
    + revert Hc. apply chain_frame; [| |by rewrite <-E].
      * intros x Hx Hlast. rewrite <-E in Hx. rewrite last_snoc in Hlast. fields. pose proof (Hna x Hx).
        assert (x <> z) by congruence. pose proof (Hll x z Hx Hzl). pose proof (Hll x h Hx Hhl). look. done.
      * intros x Hx Hhead. rewrite <-E in Hx, Hhead. simpl in Hhead. fields. pose proof (Hna x Hx).
        assert (x <> h) by congruence. pose proof (Hll x z Hx Hzl). pose proof (Hll x h Hx Hhl). look. done.
    + cbn [chain]. fields. split_and!; look; done.
  - rewrite !dom_insert_lookup_L; [done|..]; there.
  - intros q Hq. pose proof (Hq node ltac:(left)) as [? ?]. pose proof (Hq z ltac:(by right)) as [? ?]. pose proof (Hq h ltac:(by right)) as [? ?]. fields. look. done.
Qed.
(** The element after the ones before it is taken out of the ring. *)
Lemma listdelete_front m list node y q : chain m (node :: y :: q ++ [node]) -> spaced (node :: y :: q) -> 0 < y -> 0 < node ->
  (forall a, a ∈ y :: q -> 0 < a) ->
  exists m', listdelete list node m = Ok (if list =? node then y else list, m') /\ chain m' (y :: q ++ [y]) /\ dom m' = dom m /\
    forall a, (forall x, x ∈ node :: y :: q -> a <> next x /\ a <> prev x) -> m' !! a = m !! a.
Proof.
  intros Hc [Hnd Hsp] Hy0 Hn0 Hpos. set (l := y :: q) in *. destruct (exists_last (l := l)) as (l0 & z & E); [done|].
  apply NoDup_cons in Hnd as [Hnl Hnd]. assert (z ∈ l) as Hzl by (rewrite E; apply elem_of_app; right; left). assert (y ∈ l) as Hyl by left.
  assert (forall a, a ∈ l -> node + 24 <= a \/ a + 24 <= node) as Hna by (intros a Ha; apply Hsp; [left|by right|intros ->; done]).
  assert (forall a b, a ∈ l -> b ∈ l -> a = b \/ a + 24 <= b \/ b + 24 <= a) as Hll.
  { intros a b Ha Hb. destruct (Z.eq_dec a b); [by left|right]. by apply Hsp; [right|right|]. }
  pose proof (Hna z Hzl). pose proof (Hna y Hyl). pose proof (Hll z y Hzl Hyl). pose proof (Hpos z Hzl).
  destruct Hc as (G1 & G2 & Hc). change (y :: q ++ [node]) with (l ++ [node]) in Hc. rewrite E, <-app_assoc in Hc. cbn [app] in Hc. apply chain_snoc in Hc as (Hc & G3 & G4).
  unfold listdelete. fields. rewrite (get_some _ _ _ G1). cbn [rbind]. destruct (Z.eqb_spec y node); [lia|].
  rewrite (get_some _ _ _ G4). cbn [rbind]. destruct (Z.eqb_spec y 0); [lia|]. destruct (Z.eqb_spec z 0); [lia|]. cbn [negb check rbind].
  rewrite put_some by there. cbn [rbind]. rewrite (get_some _ (node + 20) z) by (look; done). cbn [rbind]. rewrite (get_some _ (node + 16) y) by (look; done). cbn [rbind].
  rewrite put_some by there. cbn [rbind].
  assert ((if list =? node then getw (<[z + 16:=y]> (<[y + 20:=z]> m)) (node + 16) else Ok list) = Ok (if list =? node then y else list)) as ->.
  { destruct (list =? node); [|done]. apply get_some. look. done. }
  cbn [rbind]. unfold poison_links. fields. rewrite put_some by there. cbn [rbind]. rewrite put_some by there. cbn [rbind].
  eexists. split; [done|]. split; [|split].
  - change (y :: q ++ [y]) with (l ++ [y]). rewrite E, <-app_assoc. cbn [app]. apply chain_snoc. fields. split; [|split; look; done].
    revert Hc. apply chain_frame; [| |by rewrite <-E].
    + intros x Hx Hlast. rewrite <-E in Hx. rewrite last_snoc in Hlast. fields. pose proof (Hna x Hx).
      assert (x <> z) by congruence. pose proof (Hll x z Hx Hzl). pose proof (Hll x y Hx Hyl). look. done.
    + intros x Hx Hhead. rewrite <-E in Hx, Hhead. simpl in Hhead. fields. pose proof (Hna x Hx).
      assert (x <> y) by congruence. pose proof (Hll x z Hx Hzl). pose proof (Hll x y Hx Hyl). look. done.
  - rewrite !dom_insert_lookup_L; [done|..]; there.
  - intros a Ha. pose proof (Ha node ltac:(left)) as [? ?]. pose proof (Ha z ltac:(by right)) as [? ?]. pose proof (Ha y ltac:(by right)) as [? ?]. fields. look. done.
Qed.
Lemma listdelete_ring m list node l1 l2 : let l := l1 ++ node :: l2 in
  ring_at m l -> spaced l -> (forall a, a ∈ l -> 0 < a) -> head l = Some list -> l1 ++ l2 <> [] ->
  exists list' m', listdelete list node m = Ok (list', m') /\ head (l1 ++ l2) = Some list' /\ (node <> list -> list' = list) /\ ring_at m' (l1 ++ l2) /\ dom m' = dom m /\
    forall a, (forall x, x ∈ l -> a <> next x /\ a <> prev x) -> m' !! a = m !! a.
Proof.
  intros l Hr Hs Hpos Hhd Hne.
  assert (exists y q, l2 ++ l1 = y :: q /\ chain m (node :: y :: q ++ [node])) as (y & q & Eq & Hc).
  { destruct l1 as [|h l1].
    - destruct l2 as [|y l2]; [done|]. exists y, l2. rewrite app_nil_r. done.
    - unfold ring_at, l in Hr. cbn [app] in Hr. rewrite <-app_assoc in Hr. cbn [app] in Hr. apply chain_rotate in Hr.
      destruct l2 as [|y l2]; [by exists h, l1|]. exists y, (l2 ++ h :: l1). split; [done|]. cbn [app] in *. by rewrite <-app_assoc. }
  assert (l ≡ₚ node :: y :: q) as Hperm by (unfold l; rewrite <-Eq, <-Permutation_middle; by rewrite (Permutation_app_comm l1)).
  assert (forall a, a ∈ y :: q -> 0 < a) as Hpos' by (intros a Ha; apply Hpos; rewrite Hperm; by right).
  destruct (listdelete_front m list node y q Hc) as (m' & Hd & Hc' & Hdom & Hf).
  { by apply (spaced_perm l). } { apply Hpos'. left. } { apply Hpos. rewrite Hperm. left. } { done. }
  assert (forall x, x ∈ node :: y :: q <-> x ∈ l) as Hin by (intros x; by rewrite Hperm).
  assert (forall a, (forall x, x ∈ l -> a <> next x /\ a <> prev x) -> m' !! a = m !! a) as Hf' by (intros a Ha; apply Hf; intros x Hx; apply Ha; by apply Hin).
  destruct l1 as [|h l1]; cbn [app] in *.
  - unfold l in Hhd. simpl in Hhd. injection Hhd as <-. rewrite app_nil_r in Eq. subst l2. exists y, m'. rewrite Z.eqb_refl in Hd. split_and!; [done..|].
    done.
  - unfold l in Hhd. simpl in Hhd. injection Hhd as <-.
    assert (h <> node) as Hhn.
    { intros ->. destruct Hs as [Hnd _]. unfold l in Hnd. cbn [app] in Hnd. apply NoDup_cons in Hnd as [Hn _]. apply Hn. apply elem_of_app. right. left. }
    destruct (Z.eqb_spec h node); [done|]. exists h, m'. split_and!; [done..| |done|done].
    unfold ring_at. destruct l2 as [|y' l2]; cbn [app] in Eq; injection Eq as <- <-; [by rewrite app_nil_r|].
    cbn [app]. rewrite <-app_assoc. cbn [app]. apply chain_rotate. by rewrite <-app_assoc in Hc'.
Qed.

(** ** Trees *)

(** A node: its subtrees, the size of its blocks, the ring of them from the block that is in the tree. *)
Inductive tree := Leaf | Node (l : tree) (sz h : Z) (rest : list Z) (r : tree).
Definition root (t : tree) : Z := match t with Leaf => 0 | Node _ _ h _ _ => h end.
Fixpoint elems (t : tree) : list Z := match t with Leaf => [] | Node l _ h rest r => elems l ++ (h :: rest) ++ elems r end.
Fixpoint sizes (t : tree) : list Z := match t with Leaf => [] | Node l sz _ _ r => sizes l ++ sz :: sizes r end.
(** The blocks with their sizes. *)
Fixpoint blocks (t : tree) : list (Z * Z) :=
  match t with Leaf => [] | Node l sz h rest r => blocks l ++ map (fun a => (a, sz)) (h :: rest) ++ blocks r end.
Definition bst (t : tree) : Prop := StronglySorted Z.lt (sizes t).
Fixpoint height (t : tree) : nat := match t with Leaf => 0 | Node l _ _ _ r => S (Nat.max (height l) (height r)) end.

Definition free_block (m : words) (sz a : Z) : Prop :=
  0 < a /\ m !! magic a = Some FREE_MAGIC /\ m !! bsize a = Some sz /\ is_Some (m !! left a) /\ is_Some (m !! right a).
Definition node_at (m : words) (h sz : Z) (rest : list Z) (lv rv : Z) : Prop :=
  m !! left h = Some lv /\ m !! right h = Some rv /\ ring_at m (h :: rest) /\ Forall (free_block m sz) (h :: rest).
Fixpoint tree_at (m : words) (t : tree) : Prop :=
  match t with
  | Leaf => True
  | Node l sz h rest r => node_at m h sz rest (root l) (root r) /\ tree_at m l /\ tree_at m r
  end.

(** The way from the root to a subtree, from below. *)
Inductive turn := WentLeft (sz h : Z) (rest : list Z) (r : tree) | WentRight (l : tree) (sz h : Z) (rest : list Z).
Definition turn_head (s : turn) : Z := match s with WentLeft _ h _ _ => h | WentRight _ _ h _ => h end.
Definition plug1 (s : turn) (t : tree) : tree := match s with WentLeft sz h rest r => Node t sz h rest r | WentRight l sz h rest => Node l sz h rest t end.
Fixpoint plug (c : list turn) (t : tree) : tree := match c with [] => t | s :: c => plug c (plug1 s t) end.
Definition loc_of (c : list turn) : loc := match c with [] => Root | WentLeft _ h _ _ :: _ => At (left h) | WentRight _ _ h _ :: _ => At (right h) end.
Fixpoint root_of (c : list turn) (v : Z) : Z := match c with [] => v | s :: c => root_of c (turn_head s) end.
(** The words of the context, around a link to [v]. *)
Fixpoint ctx_at (m : words) (c : list turn) (v : Z) : Prop :=
  match c with
  | [] => True
  | WentLeft sz h rest r :: c => node_at m h sz rest v (root r) /\ tree_at m r /\ ctx_at m c h
  | WentRight l sz h rest :: c => node_at m h sz rest (root l) v /\ tree_at m l /\ ctx_at m c h
  end.
Fixpoint ctx_elems (c : list turn) : list Z :=
  match c with
  | [] => []
  | WentLeft _ h rest r :: c => (h :: rest) ++ elems r ++ ctx_elems c
  | WentRight l _ h rest :: c => elems l ++ (h :: rest) ++ ctx_elems c
  end.
Fixpoint ctx_blocks (c : list turn) : list (Z * Z) :=
  match c with
  | [] => []
  | WentLeft sz h rest r :: c => map (fun a => (a, sz)) (h :: rest) ++ blocks r ++ ctx_blocks c
  | WentRight l sz h rest :: c => blocks l ++ map (fun a => (a, sz)) (h :: rest) ++ ctx_blocks c
  end.
(** The sizes to the left and to the right of the subtree. *)
Fixpoint ctx_less (c : list turn) : list Z :=
  match c with [] => [] | WentLeft _ _ _ _ :: c => ctx_less c | WentRight l sz _ _ :: c => ctx_less c ++ sizes l ++ [sz] end.
Fixpoint ctx_more (c : list turn) : list Z :=
  match c with [] => [] | WentLeft sz _ _ r :: c => sz :: sizes r ++ ctx_more c | WentRight _ _ _ _ :: c => ctx_more c end.
(** The walk to the place of a size. *)
Fixpoint focus (t : tree) (size : Z) (c : list turn) : list turn * tree :=
  match t with
  | Leaf => (c, Leaf)
  | Node l sz h rest r =>
      if size =? sz then (c, t) else if size <? sz then focus l size (WentLeft sz h rest r :: c) else focus r size (WentRight l sz h rest :: c)
  end.

Lemma root_plug c t : root (plug c t) = root_of c (root t).
Proof. revert t. induction c as [|s c IH]; intros t; [done|]. cbn [plug root_of]. rewrite IH. by destruct s. Qed.
Lemma tree_plug m c t : tree_at m (plug c t) <-> ctx_at m c (root t) /\ tree_at m t.
Proof. revert t. induction c as [|s c IH]; intros t; [simpl; tauto|]. cbn [plug]. rewrite IH. destruct s; cbn [plug1 tree_at root ctx_at]; tauto. Qed.
Lemma elems_plug c t : elems (plug c t) ≡ₚ ctx_elems c ++ elems t.
Proof. revert t. induction c as [|s c IH]; intros t; [done|]. cbn [plug]. rewrite IH. destruct s; cbn [plug1 elems ctx_elems]; solve_Permutation. Qed.
Lemma blocks_plug c t : blocks (plug c t) ≡ₚ ctx_blocks c ++ blocks t.
Proof. revert t. induction c as [|s c IH]; intros t; [done|]. cbn [plug]. rewrite IH. destruct s; cbn [plug1 blocks ctx_blocks]; solve_Permutation. Qed.
Lemma sizes_plug c t : sizes (plug c t) = ctx_less c ++ sizes t ++ ctx_more c.
Proof.
  revert t. induction c as [|s c IH]; intros t; [simpl; by rewrite app_nil_r|]. cbn [plug]. rewrite IH. destruct s; cbn [plug1 sizes ctx_less ctx_more]; by rewrite <-!app_assoc.
Qed.
Lemma focus_plug t size : forall c, plug (focus t size c).1 (focus t size c).2 = plug c t.
Proof. induction t as [|l IHl sz h rest r IHr]; intros c; [done|]. cbn [focus]. destruct (size =? sz); [done|]. destruct (size <? sz); [by rewrite IHl|by rewrite IHr]. Qed.
(** The walk ends at a node of the size or where a leaf for it belongs. *)
Lemma focus_found t size : forall c, match (focus t size c).2 with Leaf => True | Node _ sz _ _ _ => sz = size end.
Proof.
  induction t as [|l IHl sz h rest r IHr]; intros c; [done|]. cbn [focus]. destruct (Z.eqb_spec size sz) as [->|]; [done|]. destruct (size <? sz); [apply IHl|apply IHr].
Qed.
Lemma focus_place t size : bst t -> forall c, Forall (fun s => s < size) (ctx_less c) -> Forall (fun s => size < s) (ctx_more c) ->
  Forall (fun s => s < size) (ctx_less (focus t size c).1) /\ Forall (fun s => size < s) (ctx_more (focus t size c).1).
Proof.
  induction t as [|l IHl sz h rest r IHr]; intros Hb c H1 H2; [done|]. cbn [focus]. unfold bst in Hb. cbn [sizes] in Hb.
  apply StronglySorted_app in Hb as (Hlr & Hl & Hr). apply StronglySorted_cons in Hr as [Hsz Hr]. rewrite Forall_forall in Hsz.
  destruct (Z.eqb_spec size sz); [done|]. destruct (Z.ltb_spec size sz).
  - apply IHl; [done|done|]. cbn [ctx_more]. apply Forall_cons. split; [lia|]. apply Forall_app. split; [|done]. apply Forall_forall. intros x Hx. specialize (Hsz x Hx). lia.
  - apply IHr; [done| |done]. cbn [ctx_less]. apply Forall_app. split; [done|]. apply Forall_app. split; [|apply Forall_singleton; lia]. apply Forall_forall. intros x Hx. specialize (Hlr x sz Hx ltac:(left)). lia.
Qed.

(** ** Walking and writing in memory *)

Definition same_at (m m' : words) (l : list Z) : Prop := forall a, a ∈ l -> forall q, a <= q < a + sizeof_Free -> m' !! q = m !! q.
Lemma same_at_app m m' l1 l2 : same_at m m' (l1 ++ l2) <-> same_at m m' l1 /\ same_at m m' l2.
Proof. unfold same_at. setoid_rewrite elem_of_app. naive_solver. Qed.
Lemma free_block_frame m m' sz a : (forall q, a <= q < a + sizeof_Free -> m' !! q = m !! q) -> free_block m sz a -> free_block m' sz a.
Proof. unfold free_block. fields. unfold sizeof_Free. intros H (H1 & H2 & H3 & H4 & H5). by rewrite !H by lia. Qed.
Lemma ring_frame m m' l : same_at m m' l -> spaced l -> ring_at m l -> ring_at m' l.
Proof.
  destruct l as [|h l]; [done|]. unfold ring_at. intros Hs [Hnd _]. destruct (exists_last (l := h :: l)) as (l0 & z & E); [done|]. rewrite E, <-!app_assoc. cbn [app]. rewrite !chain_snoc. fields. unfold same_at, sizeof_Free in Hs.
  assert (z ∈ h :: l) as Hz by (rewrite E; apply elem_of_app; right; left).
  pose proof (Hs h ltac:(left) (h + 20) ltac:(lia)) as ->. pose proof (Hs z Hz (z + 16) ltac:(lia)) as ->. intros (Hc & H). split; [|done]. revert Hc. apply chain_frame; [| |by rewrite <-E].
  - intros x Hx _. fields. rewrite <-E in Hx. apply (Hs x Hx). lia.
  - intros x Hx _. fields. rewrite <-E in Hx. apply (Hs x Hx). lia.
Qed.
Lemma node_frame m m' h sz rest lv rv : same_at m m' (h :: rest) -> spaced (h :: rest) -> node_at m h sz rest lv rv -> node_at m' h sz rest lv rv.
Proof.
  intros Hs Hsp (H1 & H2 & H3 & H4). assert (forall q, h <= q < h + 24 -> m' !! q = m !! q) as Hh by (intros q Hq; apply (Hs h); [left|done]).
  split_and!; [fields; by rewrite Hh by lia|fields; by rewrite Hh by lia|by eapply ring_frame|].
  rewrite Forall_forall in H4 |- *. intros a Ha. eapply free_block_frame; [|by apply H4]. by apply Hs.
Qed.
Lemma tree_frame m m' t : same_at m m' (elems t) -> spaced (elems t) -> tree_at m t -> tree_at m' t.
Proof.
  induction t as [|l IHl sz h rest r IHr]; [done|]. cbn [elems tree_at]. rewrite !same_at_app. intros (Hs1 & Hs2 & Hs3) Hsp (H1 & H2 & H3).
  pose proof (spaced_app_r _ _ Hsp) as Hsp'. split_and!; [eapply node_frame; [done| |done]|apply IHl; [done| |done]|apply IHr; [done| |done]];
    [by apply spaced_app_l in Hsp'|by apply spaced_app_l in Hsp|by apply spaced_app_r in Hsp'].
Qed.
Lemma ctx_frame m m' c v : same_at m m' (ctx_elems c) -> spaced (ctx_elems c) -> ctx_at m c v -> ctx_at m' c v.
Proof.
  revert v. induction c as [|s c IH]; intros v; [done|]. destruct s as [sz h rest r|l sz h rest]; cbn [ctx_elems ctx_at]; rewrite !same_at_app; intros (Hs1 & Hs2 & Hs3) Hsp (H1 & H2 & H3);
    pose proof (spaced_app_r _ _ Hsp) as Hsp'; split_and!.
  - eapply node_frame; [done|by apply spaced_app_l in Hsp|done].
  - eapply tree_frame; [done|by apply spaced_app_l in Hsp'|done].
  - apply IH; [done|by apply spaced_app_r in Hsp'|done].
  - eapply node_frame; [done|by apply spaced_app_l in Hsp'|done].
  - eapply tree_frame; [done|by apply spaced_app_l in Hsp|done].
  - apply IH; [done|by apply spaced_app_r in Hsp'|done].
Qed.
Lemma read_ctx m c v : ctx_at m c v -> read_loc (root_of c v) m (loc_of c) = Ok v.
Proof.
  destruct c as [|s c]; [done|]. destruct s as [sz h rest r|l sz h rest]; cbn [ctx_at loc_of read_loc]; intros ((H1 & H2 & _) & _); by apply get_some.
Qed.
Lemma node_head m h sz rest lv rv : node_at m h sz rest lv rv -> free_block m sz h.
Proof. intros (_ & _ & _ & H). by apply Forall_inv in H. Qed.
Lemma walk_ok m t size : forall fuel c, tree_at m (plug c t) -> (height t < fuel)%nat ->
  ltreewalk fuel (root (plug c t)) m (loc_of c) size = Ok (loc_of (focus t size c).1).
Proof.
  induction t as [|l IHl sz h rest r IHr]; intros fuel c Ht Hf; (destruct fuel as [|fuel]; [simpl in Hf; lia|]); cbn [ltreewalk]; rewrite root_plug.
  - apply tree_plug in Ht as [Hc _]. by rewrite (read_ctx _ _ _ Hc).
  - pose proof (proj1 (tree_plug _ _ _) Ht) as [Hc (Hn & _)]. rewrite (read_ctx _ _ _ Hc). cbn [root rbind].
    destruct (node_head _ _ _ _ _ _ Hn) as (H0 & Hm & Hs & _). destruct (Z.eqb_spec h 0); [lia|]. rewrite (get_some _ _ _ Hm). cbn [rbind Z.eqb Pos.eqb check].
    change (FREE_MAGIC =? FREE_MAGIC) with true. cbn [check rbind]. rewrite (get_some _ _ _ Hs). cbn [rbind focus]. destruct (size =? sz); [done|].
    cbn [height] in Hf. destruct (size <? sz).
    + specialize (IHl fuel (WentLeft sz h rest r :: c) Ht ltac:(lia)). cbn [plug plug1] in IHl. by rewrite root_plug in IHl.
    + specialize (IHr fuel (WentRight l sz h rest :: c) Ht ltac:(lia)). cbn [plug plug1] in IHr. by rewrite root_plug in IHr.
Qed.
(** Storing a link to another subtree. *)
Lemma write_ok m c v v' : ctx_at m c v -> spaced (ctx_elems c) ->
  exists m', write_loc (root_of c v) m (loc_of c) v' = Ok (root_of c v', m') /\ ctx_at m' c v' /\ dom m' = dom m /\
    forall q, (forall a, a ∈ ctx_elems c -> q <> left a /\ q <> right a) -> m' !! q = m !! q.
Proof.
  intros Hc Hsp. destruct c as [|s c]; [by exists m|].
  assert (forall h rest a0 l, (a0 = left h \/ a0 = right h) -> spaced (h :: rest) -> ring_at m (h :: rest) -> Forall (free_block m l) (h :: rest) ->
    ring_at (<[a0 := v']> m) (h :: rest) /\ Forall (free_block (<[a0 := v']> m) l) (h :: rest)) as Hnode.
  { intros h rest a0 l Ha [Hnd Hs] Hr Hb. unfold sizeof_Free in Hs. assert (forall a, a ∈ h :: rest -> a = h \/ h + 24 <= a \/ a + 24 <= h) as Hin.
    { intros a Hin. destruct (Z.eq_dec a h); [by left|right]. destruct (Hs h a); [left|done|done|by left|by right]. }
    fields. split.
    - unfold ring_at in *. destruct (exists_last (l := h :: rest)) as (l0 & z & E); [done|]. rewrite E, <-app_assoc in Hr |- *. cbn [app] in *. apply chain_snoc in Hr as (Hr & Hz & Hp). apply chain_snoc. fields.
      pose proof (Hin z ltac:(rewrite E; apply elem_of_app; right; left)). split; [|by split; look].
      revert Hr. apply chain_frame; [| |by rewrite <-E]; intros x Hx _; rewrite <-E in Hx; fields; pose proof (Hin x Hx); look; done.
    - rewrite Forall_forall in Hb |- *. intros a Hain. destruct (Hb a Hain) as (B1 & B2 & B3 & B4 & B5). pose proof (Hin a Hain). unfold free_block. fields.
      split_and!; [done|by look|by look|by apply insert_some|by apply insert_some]. }
  assert (forall h a0, h ∈ ctx_elems (s :: c) -> (a0 = left h \/ a0 = right h) -> forall l, (forall a, a ∈ l -> a ∈ ctx_elems (s :: c)) -> h ∉ l -> same_at m (<[a0 := v']> m) l) as Hother.
  { intros h a0 Hh Ha l Hl Hhl a Hin q Hq. destruct Hsp as [_ Hs]. unfold sizeof_Free in *. destruct (Hs h a Hh (Hl a Hin)) as [?|?]; [congruence|..]; fields; by look. }
  destruct s as [sz h rest r|l sz h rest]; cbn [ctx_at root_of turn_head loc_of write_loc] in *; destruct Hc as ((H1 & H2 & H3 & H4) & Ht & Hc).
  - assert (h ∈ ctx_elems (WentLeft sz h rest r :: c)) as Hh by (cbn [ctx_elems]; left). rewrite put_some by (by eexists). cbn [rbind]. eexists. split; [done|].
    cbn [ctx_elems] in Hsp. pose proof (spaced_app_r _ _ Hsp) as Hsp2. pose proof (spaced_app_l _ _ Hsp) as Hsp1.
    destruct (Hnode h rest (left h) sz ltac:(by left) Hsp1 H3 H4) as [Hr' Hb'].
    assert (h ∉ elems r ++ ctx_elems c) as Hnot by (intros Hin; destruct Hsp as [Hnd _]; apply NoDup_app in Hnd as (_ & Hnd & _); apply (Hnd h); [left|done]).
    unfold node_at. split_and!; try done.
    + fields. by look.
    + fields. by look.
    + eapply tree_frame; [|by apply spaced_app_l in Hsp2|done]. apply (Hother h); [done|by left| |]; [intros a Ha; cbn [ctx_elems]; apply elem_of_app; right; apply elem_of_app; by left|].
      intros Ha. apply Hnot, elem_of_app. by left.
    + eapply ctx_frame; [|by apply spaced_app_r in Hsp2|done]. apply (Hother h); [done|by left| |]; [intros a Ha; cbn [ctx_elems]; apply elem_of_app; right; apply elem_of_app; by right|].
      intros Ha. apply Hnot, elem_of_app. by right.
    + rewrite dom_insert_lookup_L; [done|by eexists].
    + intros q Hq. destruct (Hq h Hh). by look.
  - assert (h ∈ ctx_elems (WentRight l sz h rest :: c)) as Hh by (cbn [ctx_elems]; apply elem_of_app; right; left). rewrite put_some by (by eexists). cbn [rbind]. eexists. split; [done|].
    cbn [ctx_elems] in Hsp. pose proof (spaced_app_r _ _ Hsp) as Hsp2. pose proof (spaced_app_l _ _ Hsp) as Hsp0. pose proof (spaced_app_l _ _ Hsp2) as Hsp1.
    destruct (Hnode h rest (right h) sz ltac:(by right) Hsp1 H3 H4) as [Hr' Hb'].
    assert (h ∉ elems l /\ h ∉ ctx_elems c) as [Hnot1 Hnot2].
    { split; intros Hin; destruct Hsp as [Hnd _]; apply NoDup_app in Hnd as (_ & Hnd & Hnd2); [apply (Hnd h Hin); left|]. apply NoDup_app in Hnd2 as (_ & Hnd2 & _). apply (Hnd2 h); [left|done]. }
    unfold node_at. split_and!; try done.
    + fields. by look.
    + fields. by look.
    + eapply tree_frame; [|done|done]. apply (Hother h); [done|by right| |done]. intros a Ha; cbn [ctx_elems]; apply elem_of_app; by left.
    + eapply ctx_frame; [|by apply spaced_app_r in Hsp2|done]. apply (Hother h); [done|by right| |done]. intros a Ha; cbn [ctx_elems]; apply elem_of_app; right; apply elem_of_app; by right.
    + rewrite dom_insert_lookup_L; [done|by eexists].
    + intros q Hq. destruct (Hq h Hh). by look.
Qed.

(** A store in another structure. *)
Lemma same_at_put m h l q v : spaced (h :: l) -> h <= q < h + sizeof_Free -> same_at m (<[q := v]> m) l.
Proof.
  intros [Hnd Hs] Hq a Ha q' Hq'. apply lookup_insert_ne. apply NoDup_cons in Hnd as [Hh _].
  destruct (Hs h a ltac:(left) ltac:(by right)) as [?|?]; [by intros ->|lia|lia].
Qed.
Lemma same_at_sub m m' l l' : (forall a, a ∈ l -> a ∈ l') -> same_at m m' l' -> same_at m m' l.
Proof. intros H Hs a Ha. apply Hs. by apply H. Qed.
Lemma same_at_trans m m' m'' l : same_at m m' l -> same_at m' m'' l -> same_at m m'' l.
Proof. intros H1 H2 a Ha q Hq. by rewrite (H2 a Ha q Hq), (H1 a Ha q Hq). Qed.
Lemma spaced_sub k l l' : l' ≡ₚ l ++ k -> spaced l' -> spaced l.
Proof. intros H Hs. apply (spaced_app_l l k). by apply (spaced_perm l'). Qed.
(** Blocks that are elsewhere keep their words. *)
Lemma same_at_apart m m' l l' : spaced (l ++ l') ->
  (forall q, (forall a, a ∈ l -> q < a \/ a + sizeof_Free <= q) -> m' !! q = m !! q) -> same_at m m' l'.
Proof. intros Hs Hf a Ha q Hq. apply Hf. intros b Hb. destruct (spaced_apart _ _ b a Hs Hb Ha); lia. Qed.

Lemma tree_block m t a : tree_at m t -> a ∈ elems t -> exists sz, (a, sz) ∈ blocks t /\ free_block m sz a.
Proof.
  induction t as [|l IHl sz h rest r IHr]; cbn [tree_at elems blocks]; [by intros _ ?%not_elem_of_nil|]. intros ((_ & _ & _ & Hf) & Hl & Hr) Ha. rewrite !elem_of_app in Ha. setoid_rewrite elem_of_app.
  setoid_rewrite elem_of_app. destruct Ha as [Ha|[Ha|Ha]].
  - destruct (IHl Hl Ha) as (s & ? & ?). exists s. tauto.
  - exists sz. split; [right; left; apply list_elem_of_fmap; by exists a|]. rewrite Forall_forall in Hf. by apply Hf.
  - destruct (IHr Hr Ha) as (s & ? & ?). exists s. tauto.
Qed.
Lemma tree_in m t a sz : tree_at m t -> (a, sz) ∈ blocks t -> free_block m sz a.
Proof.
  induction t as [|l IHl s h rest r IHr]; [by intros _ ?%not_elem_of_nil|]. cbn [blocks tree_at]. intros ((_ & _ & _ & Hf) & Hl & Hr) Hin. rewrite !elem_of_app in Hin.
  destruct Hin as [?|[(x & [= -> ->] & Hx)%list_elem_of_fmap|?]]; [by apply IHl| |by apply IHr]. rewrite Forall_forall in Hf. by apply Hf.
Qed.
Lemma height_elems t : (height t <= length (elems t))%nat.
Proof. induction t as [|l IHl sz h rest r IHr]; [simpl; lia|]. cbn [height elems]. rewrite !length_app. cbn [length]. lia. Qed.
(** The tree is not deeper than memory has words. *)
Lemma height_turns m t : tree_at m t -> NoDup (elems t) -> (height t < turns m)%nat.
Proof.
  intros Ht Hnd. pose proof (height_elems t). unfold turns. enough (length (elems t) <= size m)%nat by lia.
  rewrite <-size_dom, <-(size_list_to_set (C := gset Z)) by done. apply subseteq_size. intros a Ha%elem_of_list_to_set.
  destruct (tree_block m t a Ht Ha) as (sz & _ & _ & Hm & _). apply elem_of_dom. by eexists.
Qed.

(** The leftmost node of a tree. *)
Fixpoint spine (t : tree) (c : list turn) : list turn * tree :=
  match t with
  | Leaf => (c, Leaf)
  | Node l sz h rest r => match l with Leaf => (c, t) | Node _ _ _ _ _ => spine l (WentLeft sz h rest r :: c) end
  end.
Definition addr_of (base : Z) (c : list turn) : Z := match loc_of c with Root => base | At a => a end.
Lemma spine_plug t : forall c, plug (spine t c).1 (spine t c).2 = plug c t.
Proof. induction t as [|l IHl sz h rest r IHr]; intros c; [done|]. cbn [spine]. destruct l; [done|]. by rewrite IHl. Qed.
Lemma spine_less t : forall c, ctx_less (spine t c).1 = ctx_less c.
Proof. induction t as [|l IHl sz h rest r IHr]; intros c; [done|]. cbn [spine]. destruct l; [done|]. by rewrite IHl. Qed.
Lemma spine_end t : t <> Leaf -> forall c, exists sz h rest r, (spine t c).2 = Node Leaf sz h rest r.
Proof. induction t as [|l IHl sz h rest r IHr]; intros Ht c; [done|]. cbn [spine]. destruct l; [by eexists _, _, _, _|]. by apply IHl. Qed.
Lemma addr_read m base c v : ctx_at m c v -> m !! base = Some (root_of c v) -> m !! addr_of base c = Some v.
Proof. destruct c as [|s c]; [done|]. destruct s; unfold addr_of; cbn [ctx_at loc_of]; intros ((H1 & H2 & _) & _) _; done. Qed.
Lemma leftmost_ok m base t : forall fuel c, tree_at m (plug c t) -> m !! base = Some (root (plug c t)) -> t <> Leaf -> (height t < fuel)%nat ->
  leftmost fuel m (addr_of base c) = Ok (addr_of base (spine t c).1).
Proof.
  induction t as [|l IHl sz h rest r IHr]; intros fuel c Ht Hb Hne Hf; [done|]. destruct fuel as [|fuel]; [simpl in Hf; lia|]. cbn [leftmost spine].
  pose proof (proj1 (tree_plug _ _ _) Ht) as [Hc (Hn & Hl & _)]. rewrite root_plug in Hb. rewrite (get_some _ _ _ (addr_read _ _ _ _ Hc Hb)). cbn [rbind root].
  pose proof Hn as (H1 & _). rewrite (get_some _ _ _ H1). cbn [rbind]. destruct l as [|l1 sz1 h1 rest1 r1] eqn:E; [done|]. rewrite <-E in *.
  assert (0 < root l) as H0 by (subst l; destruct Hl as (Hn1 & _); by apply node_head in Hn1 as [? _]). destruct (Z.eqb_spec (root l) 0); [lia|].
  cbn [height] in Hf. apply (IHl fuel (WentLeft sz h rest r :: c) Ht); [by rewrite root_plug|by subst|lia].
Qed.

(** New links in a node. *)
Lemma node_links m m' h sz rest lv rv lv' rv' : node_at m h sz rest lv rv -> spaced (h :: rest) ->
  (forall a q, a ∈ h :: rest -> a <= q < a + sizeof_Free -> q <> left h -> q <> right h -> m' !! q = m !! q) ->
  m' !! left h = Some lv' -> m' !! right h = Some rv' -> node_at m' h sz rest lv' rv'.
Proof.
  intros (H1 & H2 & H3 & H4) [Hnd Hs] Hf Hl Hr. unfold sizeof_Free in *. assert (forall a, a ∈ h :: rest -> a = h \/ h + 24 <= a \/ a + 24 <= h) as Hin.
  { intros a Hin. destruct (Z.eq_dec a h); [by left|right]. destruct (Hs h a); [left|done|done|by left|by right]. }
  assert (forall a k, a ∈ h :: rest -> (0 <= k < 8 \/ 16 <= k < 24) -> m' !! (a + k) = m !! (a + k)) as Hk.
  { intros a k Ha Hk. pose proof (Hin a Ha). apply (Hf a (a + k) Ha); fields; lia. }
  unfold node_at. split_and!; [done..| |].
  - unfold ring_at in *. destruct (exists_last (l := h :: rest)) as (l0 & z & E); [done|]. rewrite E, <-app_assoc in H3 |- *. cbn [app] in *.
    apply chain_snoc in H3 as (Hc & Hz & Hp). apply chain_snoc. fields. assert (z ∈ h :: rest) as Hzin by (rewrite E; apply elem_of_app; right; left).
    rewrite (Hk z 16 Hzin) by lia. rewrite (Hk h 20 ltac:(left)) by lia. split; [|done]. revert Hc.
    apply chain_frame; [| |by rewrite <-E]; intros x Hx _; rewrite <-E in Hx; fields; apply (Hk x); [done|lia|done|lia].
  - rewrite Forall_forall in H4 |- *. intros a Ha. destruct (H4 a Ha) as (B1 & B2 & B3 & B4 & B5). pose proof (Hin a Ha) as Hah. unfold free_block in *. fields.
    pose proof (Hk a 0 Ha ltac:(lia)) as E0. rewrite Z.add_0_r in E0. rewrite E0, (Hk a 4 Ha) by lia. split_and!; [done..| |].
    + destruct Hah as [->|Hah]; [by eexists|]. rewrite (Hf a) by (done || fields; lia). done.
    + destruct Hah as [->|Hah]; [by eexists|]. rewrite (Hf a) by (done || fields; lia). done.
Qed.
(** A store of a link in a tree that hangs on the word at [base] of another structure. *)
Lemma write_from m c v v' base node k : ctx_at m c v -> m !! base = Some (root_of c v) -> spaced (node :: ctx_elems c ++ k) -> node <= base < node + sizeof_Free ->
  exists m', putw m (addr_of base c) v' = Ok m' /\ m' !! base = Some (root_of c v') /\ ctx_at m' c v' /\ same_at m m' k /\ dom m' = dom m /\
    forall q, q <> base -> (forall a, a ∈ ctx_elems c -> q <> left a /\ q <> right a) -> m' !! q = m !! q.
Proof.
  intros Hc Hb Hs Hn. destruct c as [|s c].
  - exists (<[base := v']> m). unfold addr_of. cbn [loc_of root_of ctx_at ctx_elems app] in *. rewrite put_some by (by eexists). split_and!; [done|by rewrite lookup_insert_eq|done| |rewrite dom_insert_lookup_L; [done|by eexists]|].
    + by apply (same_at_put _ node).
    + intros q Hq _. by rewrite lookup_insert_ne.
  - assert (spaced (ctx_elems (s :: c))) as Hsc by (eapply (spaced_sub (node :: k)); [|exact Hs]; solve_Permutation).
    destruct (write_ok m (s :: c) v v' Hc Hsc) as (m' & E & Hc' & Hd & Hf). exists m'.
    assert (forall q, (forall a, a ∈ ctx_elems (s :: c) -> q < a \/ a + sizeof_Free <= q) -> m' !! q = m !! q) as Hf'.
    { intros q Hq. apply Hf. intros a Ha. pose proof (Hq a Ha). unfold sizeof_Free in *. fields. lia. }
    split_and!; [| |done| |done|by intros q _; apply Hf].
    + unfold write_loc, addr_of in *. cbn [loc_of] in *. destruct s; cbn [loc_of] in *.
      * destruct (putw m (left h) v'); cbn [rbind] in E; congruence.
      * destruct (putw m (right h) v'); cbn [rbind] in E; congruence.
    + rewrite Hf'; [done|]. intros a Ha. destruct (spaced_apart [node] (ctx_elems (s :: c)) node a) as [?|?]; [|left|done|lia|lia].
      eapply (spaced_sub k); [|exact Hs]. solve_Permutation.
    + apply (same_at_apart _ _ (ctx_elems (s :: c)) k); [|done]. eapply (spaced_sub [node]); [|exact Hs]. solve_Permutation.
Qed.

Lemma root_zero m t : tree_at m t -> (root t =? 0) = match t with Leaf => true | Node _ _ _ _ _ => false end.
Proof. destruct t as [|l sz h rest r]; [done|]. intros (Hn & _). apply node_head in Hn as [H _]. simpl. lia. Qed.
(** [treedelete] of the node at the top of a tree, whose ring is already taken apart. *)
Lemma treedelete_ok m node sz l r : free_block m sz node -> m !! left node = Some (root l) -> m !! right node = Some (root r) ->
  tree_at m l -> tree_at m r -> spaced (node :: elems l ++ elems r) ->
  exists m' t, treedelete node node m = Ok (root t, m') /\ tree_at m' t /\ sizes t = sizes l ++ sizes r /\ blocks t ≡ₚ blocks l ++ blocks r /\ elems t ≡ₚ elems l ++ elems r /\
    dom m' = dom m /\ forall q, (forall a, a ∈ node :: elems l ++ elems r -> q <> Pool.left a /\ q <> Pool.right a) -> m' !! q = m !! q.
Proof.
  intros (H0 & Hm & Hs & _ & _) Hl Hr Tl Tr Hsp. unfold treedelete. rewrite (get_some _ _ _ Hs). cbn [rbind]. unfold turns at 1. cbn [ltreewalk read_loc rbind].
  destruct (Z.eqb_spec node 0); [lia|]. rewrite (get_some _ _ _ Hm). cbn [rbind]. change (FREE_MAGIC =? FREE_MAGIC) with true. cbn [check rbind]. rewrite (get_some _ _ _ Hs). cbn [rbind].
  rewrite Z.eqb_refl. cbn [rbind read_loc]. rewrite Z.eqb_refl. cbn [check rbind]. rewrite (get_some _ _ _ Hl), (get_some _ _ _ Hr). cbn [rbind]. rewrite (root_zero m l Tl).
  assert (forall m1 t, tree_at m1 t -> spaced (node :: elems t) -> dom m1 = dom m ->
    exists m', (let* m2 := putw m1 (Pool.right node) Poison in let* m3 := putw m2 (Pool.left node) Poison in Ok (root t, m3)) = Ok (root t, m') /\ tree_at m' t /\ dom m' = dom m /\
      forall q, q <> Pool.left node -> q <> Pool.right node -> m' !! q = m1 !! q) as Hend.
  { intros m1 t Ht Hst Hd. assert (forall k v, m !! k = Some v -> is_Some (m1 !! k)) as Hin by (intros k v Hk; apply elem_of_dom; rewrite Hd; apply elem_of_dom; by eexists).
    rewrite put_some by (by eapply Hin). cbn [rbind]. rewrite put_some by (apply insert_some; by eapply Hin). cbn [rbind]. eexists. split; [done|]. split_and!.
    - eapply tree_frame; [|by apply (spaced_app_r [node])|done]. eapply same_at_trans; apply (same_at_put _ node); try done; unfold sizeof_Free; fields; lia.
    - rewrite !dom_insert_lookup_L; [done|by eapply Hin|apply insert_some; by eapply Hin].
    - intros q Hq1 Hq2. by rewrite !lookup_insert_ne by congruence. }
  destruct l as [|ll lsz lh lrest lr] eqn:El.
  { cbn [write_loc rbind]. destruct (Hend m r Tr Hsp eq_refl) as (m' & E & T & D & F). exists m', r. split_and!; [done..|]. intros q Hq. destruct (Hq node ltac:(left)). by apply F. }
  rewrite <-El in *. assert (l <> Leaf) as Hlne by (by subst). clear El. rewrite (root_zero m r Tr). destruct r as [|rl rsz rh rrest rr] eqn:Er.
  { cbn [write_loc rbind]. destruct (Hend m l Tl) as (m' & E & T & D & F); [by rewrite app_nil_r in Hsp|done|]. exists m', l. rewrite !app_nil_r in *. split_and!; [done..|]. intros q Hq. destruct (Hq node ltac:(left)). by apply F. }
  rewrite <-Er in *. assert (r <> Leaf) as Hrne by (by subst). clear Er.
  destruct (spine_end r Hrne []) as (ss & s & srest & sr & Es). pose proof (spine_plug r []) as Ep. pose proof (spine_less r []) as Eless. cbn [plug ctx_less] in Ep, Eless. rewrite Es in Ep.
  assert (leftmost (turns m) m (Pool.right node) = Ok (addr_of (Pool.right node) (spine r []).1)) as ->.
  { apply (leftmost_ok m (Pool.right node) r (turns m) []); [done..|]. apply height_turns; [done|]. apply (spaced_app_r [node]), spaced_app_r in Hsp. apply Hsp. }
  set (c := (spine r []).1) in *. clearbody c. clear Es. cbn [rbind]. rewrite <-Ep in Tr. apply tree_plug in Tr as [Tc (Tn & _ & Tsr)]. cbn [root] in *.
  pose proof (elems_plug c (Node Leaf ss s srest sr)) as Ee. rewrite Ep in Ee. cbn [elems app] in Ee.
  assert (m !! Pool.right node = Some (root_of c s)) as Hr' by (rewrite Hr, <-Ep, root_plug; done).
  rewrite (get_some _ _ _ (addr_read _ _ _ _ Tc Hr')). cbn [rbind]. pose proof Tn as (Hsl & Hsr & _). rewrite (get_some _ _ _ Hsr). cbn [rbind].
  assert (node :: elems l ++ elems r ≡ₚ node :: ctx_elems c ++ (s :: srest) ++ elems l ++ elems sr) as Eall by (rewrite Ee; solve_Permutation).
  pose proof (spaced_perm _ _ Eall Hsp) as Hsp'.
  destruct (write_from m c s (root sr) (Pool.right node) node ((s :: srest) ++ elems l ++ elems sr) Tc Hr' Hsp') as (m1 & -> & Hb1 & Tc1 & Hs1 & Hd1 & Hf1); [unfold sizeof_Free; fields; lia|]. cbn [rbind].
  assert (forall q, node <= q < node + sizeof_Free -> q <> Pool.right node -> m1 !! q = m !! q) as Hn1.
  { intros q Hq Hqn. apply Hf1; [done|]. intros a Ha. destruct (spaced_apart [node] (ctx_elems c) node a) as [?|?]; [|left|done|unfold sizeof_Free in *; fields; lia..].
    eapply (spaced_sub ((s :: srest) ++ elems l ++ elems sr)); [|exact Hsp']. solve_Permutation. }
  assert (node + sizeof_Free <= s \/ s + sizeof_Free <= node) as Hsn.
  { destruct Hsp' as [Hnd H]. apply NoDup_cons in Hnd as [Hnd _]. assert (s ∈ ctx_elems c ++ (s :: srest) ++ elems l ++ elems sr) as Hsin by (apply elem_of_app; right; left).
    apply H; [left|by right|congruence]. }
  apply same_at_app in Hs1 as [Hs1 Hs2]. apply same_at_app in Hs2 as [Hs2 Hs3].
  assert (spaced (s :: srest)) as Hss by (eapply (spaced_sub (node :: ctx_elems c ++ elems l ++ elems sr)); [|exact Hsp']; solve_Permutation).
  pose proof (node_frame m m1 _ _ _ _ _ Hs1 Hss Tn) as Tn1. pose proof (node_head _ _ _ _ _ _ Tn1) as (_ & _ & _ & Hsl1 & Hsr1). unfold sizeof_Free in Hsn.
  rewrite (get_some m1 (Pool.left node) (root l)) by (rewrite Hn1; [done|unfold sizeof_Free; fields; lia..]). cbn [rbind]. rewrite put_some by done. cbn [rbind].
  rewrite (get_some _ (Pool.right node) (root_of c (root sr))) by (fields; by look). cbn [rbind]. rewrite put_some by (by apply insert_some). cbn [rbind write_loc].
  set (m3 := <[Pool.right s := _]> _).
  assert (forall k, spaced (s :: k) -> same_at m1 m3 k) as Hput by (intros k Hk; eapply same_at_trans; apply (same_at_put _ s); try done; unfold sizeof_Free; fields; lia).
  assert (spaced (elems l)) as Hspl by (eapply (spaced_sub (node :: elems r)); [|exact Hsp]; solve_Permutation).
  assert (spaced (elems sr)) as Hspsr by (eapply (spaced_sub (node :: ctx_elems c ++ (s :: srest) ++ elems l)); [|exact Hsp']; solve_Permutation).
  assert (spaced (ctx_elems c)) as Hspc by (eapply (spaced_sub (node :: (s :: srest) ++ elems l ++ elems sr)); [|exact Hsp']; solve_Permutation).
  assert (tree_at m3 (Node l ss s srest (plug c sr))) as T3.
  { cbn [tree_at]. split_and!.
    - eapply node_links; [exact Tn1|done| | |].
      + intros a q _ _ Hq1 Hq2. subst m3. by rewrite !lookup_insert_ne by congruence.
      + subst m3. fields. by look.
      + subst m3. rewrite root_plug. fields. by look.
    - eapply tree_frame; [|done|exact Tl]. eapply same_at_trans; [exact Hs2|]. apply Hput. eapply (spaced_sub (node :: ctx_elems c ++ srest ++ elems sr)); [|exact Hsp']. solve_Permutation.
    - apply tree_plug. split.
      + eapply ctx_frame; [|done|exact Tc1]. apply Hput. eapply (spaced_sub (node :: srest ++ elems l ++ elems sr)); [|exact Hsp']. solve_Permutation.
      + eapply tree_frame; [|done|exact Tsr]. eapply same_at_trans; [exact Hs3|]. apply Hput. eapply (spaced_sub (node :: ctx_elems c ++ srest ++ elems l)); [|exact Hsp']. solve_Permutation. }
  assert (elems (Node l ss s srest (plug c sr)) ≡ₚ elems l ++ elems r) as Eel by (cbn [elems]; rewrite elems_plug, Ee; solve_Permutation).
  destruct (Hend m3 _ T3) as (m' & E & T & D & F).
  { eapply spaced_perm; [|exact Hsp]. by rewrite Eel. }
  { subst m3. rewrite !dom_insert_lookup_L; [done|done|by apply insert_some]. }
  exists m', (Node l ss s srest (plug c sr)). split_and!; [exact E|done| | |done|done|].
  - cbn [sizes]. rewrite <-Ep, !sizes_plug, Eless. done.
  - cbn [blocks]. rewrite <-Ep, !blocks_plug. cbn [blocks app]. solve_Permutation.
  - intros q Hq. destruct (Hq node ltac:(left)) as [Q1 Q2]. assert (s ∈ node :: elems l ++ elems r) as Hsin by (rewrite Eall; right; apply elem_of_app; right; left).
    destruct (Hq s Hsin) as [Q3 Q4]. rewrite F by done. subst m3. rewrite !lookup_insert_ne by congruence. apply Hf1; [done|].
    intros a Ha. apply Hq. rewrite Eall. right. apply elem_of_app. by left.
Qed.
