(* ===== verification/PoolFree.v ===== *)
(** * The free blocks of a pool

    [pooladd], [pooldel] and [treelookupgt] against the multiset of the free blocks: [free_tree] says that the words of memory hold a
    search tree with rings, and [blocks] are the addresses and sizes in it. *)
From stdpp Require Import gmap list sorting.
From S2P Require Import Prelude Memory Pool PoolTree.

(** The tree of the pool, in memory. *)
Definition free_tree (p : pool) (m : words) (t : tree) : Prop := freeroot p = root t /\ tree_at m t /\ bst t /\ spaced (elems t).
(** The words of a [Free] are there. *)
Definition room (m : words) (a : Z) : Prop := Forall (fun k => is_Some (m !! (a + k))) [0; 4; 8; 12; 16; 20].
(** Words outside of the given structures are as before. *)
Definition others_same (m m' : words) (l : list Z) : Prop :=
  dom m' = dom m /\ forall q, (forall a, a ∈ l -> q < a \/ a + sizeof_Free <= q) -> m' !! q = m !! q.

Lemma room_word m a k : room m a -> k ∈ [0; 4; 8; 12; 16; 20] -> is_Some (m !! (a + k)).
Proof. unfold room. rewrite Forall_forall. intros H Hk. by apply H. Qed.
Ltac words H := (apply (room_word _ _ _ H); rewrite !elem_of_cons; tauto).
Lemma elems_blocks t : elems t = (blocks t).*1.
Proof.
  induction t as [|l IHl sz h rest r IHr]; [done|]. cbn [elems blocks]. rewrite !fmap_app, IHl, IHr. f_equal. f_equal.
  rewrite <-(list_fmap_compose (fun a => (a, sz)) fst). symmetry. apply list_fmap_id.
Qed.
Lemma blocks_sizes t a s : (a, s) ∈ blocks t -> s ∈ sizes t.
Proof.
  induction t as [|l IHl sz h rest r IHr]; cbn [blocks sizes]; [by intros ?%not_elem_of_nil|]. rewrite !elem_of_app, elem_of_cons. intros [?|[(x & [= -> ->] & _)%list_elem_of_fmap|?]]; tauto.
Qed.
(** The parts of the order. *)
Lemma bst_node l sz h rest r : bst (Node l sz h rest r) -> bst l /\ bst r /\ (forall s, s ∈ sizes l -> s < sz) /\ (forall s, s ∈ sizes r -> sz < s).
Proof.
  unfold bst. cbn [sizes]. intros (Hlr & Hl & Hr)%StronglySorted_app. apply StronglySorted_cons in Hr as [Hsz Hr]. rewrite Forall_forall in Hsz.
  split_and!; [done..| |done]. intros s Hs. by apply (Hlr s sz Hs ltac:(left)).
Qed.
Lemma sorted_insert l1 x l2 : StronglySorted Z.lt (l1 ++ l2) -> Forall (fun s => s < x) l1 -> Forall (fun s => x < s) l2 -> StronglySorted Z.lt (l1 ++ x :: l2).
Proof.
  intros (H & Hl & Hr)%StronglySorted_app H1 H2. rewrite Forall_forall in H1. apply StronglySorted_app. split_and!; [|done|by constructor].
  intros y z Hy Hz. apply elem_of_cons in Hz as [->|Hz]; [by apply H1|by apply H].
Qed.

(** *** Best fit *)

Lemma lookupgt_ok m t size : forall fuel g, tree_at m t -> bst t -> (height t < fuel)%nat ->
  exists v, treelookupgt fuel m (root t) size g = Ok v /\
    ((v = g /\ forall s, s ∈ sizes t -> s < size) \/
     (exists s, (v, s) ∈ blocks t /\ size <= s /\ forall s', s' ∈ sizes t -> size <= s' -> s <= s')).
Proof.
  induction t as [|l IHl sz h rest r IHr]; intros [|fuel] g Ht Hb Hf; cbn [height] in Hf; try lia.
  - exists g. split; [done|]. left. split; [done|]. by intros s ?%not_elem_of_nil.
  - destruct Ht as (Hn & Tl & Tr). apply bst_node in Hb as (Bl & Br & Hll & Hrr). destruct (node_head _ _ _ _ _ _ Hn) as (H0 & _ & Hs & _). destruct Hn as (N1 & N2 & _).
    assert ((h, sz) ∈ blocks (Node l sz h rest r)) as Hin by (cbn [blocks map]; rewrite !elem_of_app, elem_of_cons; tauto).
    cbn [treelookupgt root]. destruct (Z.eqb_spec h 0); [lia|]. rewrite (get_some _ _ _ Hs). cbn [rbind]. cbn [sizes].
    setoid_rewrite (elem_of_app (sizes l)). setoid_rewrite elem_of_cons.
    destruct (Z.eqb_spec size sz) as [->|]; [|destruct (Z.ltb_spec size sz)].
    + exists h. split; [done|]. right. exists sz. split_and!; [done|lia|]. intros s [?%Hll|[?|?%Hrr]] ?; lia.
    + rewrite (get_some _ _ _ N1). cbn [rbind]. destruct (IHl fuel h Tl Bl ltac:(lia)) as (v & E & D). exists v. split; [done|]. right. destruct D as [[-> D]|(s & D1 & D2 & D3)].
      * exists sz. split_and!; [done|lia|]. intros s [?%D|[->|?%Hrr]] ?; lia.
      * exists s. split_and!; [cbn [blocks]; rewrite elem_of_app; tauto|done|]. pose proof (Hll s (blocks_sizes _ _ _ D1)). intros s' [?|[->|?%Hrr]] ?; [by apply D3|lia|lia].
    + rewrite (get_some _ _ _ N2). cbn [rbind]. destruct (IHr fuel g Tr Br ltac:(lia)) as (v & E & D). exists v. split; [done|]. destruct D as [[-> D]|(s & D1 & D2 & D3)].
      * left. split; [done|]. intros s [?%Hll|[->|?%D]]; lia.
      * right. exists s. split_and!; [cbn [blocks]; rewrite !elem_of_app; tauto|done|]. intros s' [?%Hll|[->|?]] ?; [lia|lia|by apply D3].
Qed.

(** *** Where a block is *)

Lemma focus_block t a s : bst t -> (a, s) ∈ blocks t -> forall c, exists l h rest r, (focus t s c).2 = Node l s h rest r /\ a ∈ h :: rest.
Proof.
  induction t as [|l IHl sz h rest r IHr]; intros Hb Ha c; [by apply not_elem_of_nil in Ha|]. apply bst_node in Hb as (Bl & Br & Hll & Hrr). cbn [blocks focus] in *.
  rewrite !elem_of_app in Ha. destruct Ha as [Ha|[(x & [= -> ->] & Hx)%list_elem_of_fmap|Ha]].
  - pose proof (Hll _ (blocks_sizes _ _ _ Ha)). destruct (Z.eqb_spec s sz); [lia|]. destruct (Z.ltb_spec s sz); [|lia]. by apply IHl.
  - rewrite Z.eqb_refl. by exists l, h, rest, r.
  - pose proof (Hrr _ (blocks_sizes _ _ _ Ha)). destruct (Z.eqb_spec s sz); [lia|]. destruct (Z.ltb_spec s sz); [lia|]. by apply IHr.
Qed.

(** *** Adding and taking out a block *)

Lemma others_trans m m' m'' l : others_same m m' l -> others_same m' m'' l -> others_same m m'' l.
Proof. intros [D1 F1] [D2 F2]. split; [congruence|]. intros q Hq. by rewrite F2, F1. Qed.
Lemma others_put m a l q v : a ∈ l -> a <= q < a + sizeof_Free -> is_Some (m !! q) -> others_same m (<[q := v]> m) l.
Proof. intros Ha Hq Hs. split; [by apply dom_insert_lookup_L|]. intros r Hr. apply lookup_insert_ne. pose proof (Hr a Ha). lia. Qed.
Lemma others_weaken m m' l l' : (forall a, a ∈ l -> a ∈ l') -> others_same m m' l -> others_same m m' l'.
Proof. intros H [D F]. split; [done|]. intros q Hq. apply F. auto. Qed.
Lemma others_links (m m' : words) l : dom m' = dom m -> (forall q, (forall a, a ∈ l -> q <> left a /\ q <> right a) -> m' !! q = m !! q) -> others_same m m' l.
Proof. intros D F. split; [done|]. intros q Hq. apply F. intros a Ha. pose proof (Hq a Ha). unfold sizeof_Free in *. fields. lia. Qed.
Lemma others_ring (m m' : words) l : dom m' = dom m -> (forall q, (forall a, a ∈ l -> q <> next a /\ q <> prev a) -> m' !! q = m !! q) -> others_same m m' l.
Proof. intros D F. split; [done|]. intros q Hq. apply F. intros a Ha. pose proof (Hq a Ha). unfold sizeof_Free in *. fields. lia. Qed.
Lemma others_apart m m' l l' : others_same m m' l -> spaced (l ++ l') -> same_at m m' l'.
Proof. intros [_ F] Hs. by eapply same_at_apart. Qed.
Lemma room_frame m m' a l : others_same m m' l -> room m a -> room m' a.
Proof. intros [D _] H0. eapply Forall_impl; [exact H0|]. intros k [v H]. apply elem_of_dom. rewrite D. apply elem_of_dom. by eexists. Qed.
Lemma bsize_ring (m m' : words) l a : (forall q, (forall a, a ∈ l -> q <> next a /\ q <> prev a) -> m' !! q = m !! q) -> spaced l -> a ∈ l ->
  forall k, k ∈ [0; 4; 8; 12] -> m' !! (a + k) = m !! (a + k).
Proof.
  intros F [_ Hs] Ha k Hk. apply F. intros b Hb. unfold sizeof_Free in Hs. fields. rewrite !elem_of_cons in Hk. destruct (Z.eq_dec a b) as [->|Hne]; [|pose proof (Hs a b Ha Hb Hne)];
    destruct Hk as [->|[->|[->|[->|?%not_elem_of_nil]]]]; lia.
Qed.
(** A leaf grows into a node for the block. *)
Lemma add_leaf m c node sz : ctx_at m c 0 -> spaced (node :: ctx_elems c) -> 0 < node -> room m node -> m !! magic node = Some FREE_MAGIC -> m !! bsize node = Some sz ->
  exists m' m'' root, listadd 0 node m = Ok (node, m') /\ read_loc (root_of c 0) m' (loc_of c) = Ok 0 /\
    (let* (x, m') := treeinsert 0 node m' in write_loc (root_of c 0) m' (loc_of c) x) = Ok (root, m'') /\
    root = root_of c node /\ tree_at m'' (plug c (Node Leaf sz node [] Leaf)) /\ others_same m m'' (node :: ctx_elems c).
Proof.
  intros Hc Hsp H0 Hroom Hm Hb. pose proof (spaced_app_r [node] _ Hsp) as Hsc.
  assert (forall k, k ∈ [0; 4; 8; 12; 16; 20] -> is_Some (m !! (node + k))) as Hw by (intros k Hk; by apply room_word).
  unfold listadd. change (0 =? 0) with true. cbn match. fields. rewrite put_some by (apply Hw; rewrite !elem_of_cons; tauto). cbn [rbind].
  rewrite put_some by (apply insert_some, Hw; rewrite !elem_of_cons; tauto). cbn [rbind]. set (m1 := <[node + 20 := node]> _).
  assert (others_same m m1 [node]) as O1.
  { eapply others_trans; apply (others_put _ node); try by left. all: try (unfold sizeof_Free; lia). all: try apply insert_some. all: apply Hw; rewrite !elem_of_cons; tauto. }
  assert (ctx_at m1 c 0) as Hc1 by (eapply ctx_frame; [by eapply others_apart|done|done]).
  exists m1. unfold treeinsert. fields. assert (m1 !! (node + 4) = Some sz) as Hb1 by (subst m1; by look).
  rewrite (get_some _ _ _ Hb1). cbn [rbind]. unfold turns. cbn [ltreewalk read_loc rbind]. change (0 =? 0) with true. cbn match. cbn [rbind read_loc]. change (0 =? 0) with true. cbn match.
  pose proof (room_frame _ _ _ _ O1 Hroom) as R1. fields. rewrite put_some by words R1. cbn [rbind]. rewrite put_some by (apply insert_some; words R1). cbn [rbind write_loc].
  set (m2 := <[node + 12 := 0]> _). assert (others_same m1 m2 [node]) as O2.
  { eapply others_trans; apply (others_put _ node); try by left. all: try (unfold sizeof_Free; lia). all: first [words R1 | apply insert_some; words R1]. }
  assert (ctx_at m2 c 0) as Hc2 by (eapply ctx_frame; [by eapply others_apart|done|done]).
  destruct (write_ok m2 c 0 node Hc2 Hsc) as (m3 & E & Hc3 & D3 & F3). pose proof (others_links _ _ _ D3 F3) as O3. exists m3, (root_of c node).
  split; [done|]. split; [by apply read_ctx|]. split; [done|]. split; [done|]. split.
  - apply tree_plug. cbn [root tree_at]. split; [done|]. split; [|done]. eapply (node_frame m2); [| |].
    + eapply (others_apart _ _ (ctx_elems c)); [done|]. eapply spaced_perm; [|exact Hsp]. by rewrite (Permutation_app_comm (ctx_elems c)).
    + by apply (spaced_app_l [node]) in Hsp.
    + subst m2 m1. unfold node_at, ring_at, free_block. cbn [app chain root]. fields. split_and!; try (by look). apply Forall_singleton. split_and!; try by look. all: look; by eexists.
  - eapply others_trans; [|eapply others_trans]; (eapply others_weaken; [|eassumption]); set_solver.
Qed.
(** The block joins the ring of a node. *)
Lemma add_node m c l sz h rest r node : ctx_at m c h -> tree_at m (Node l sz h rest r) -> spaced (node :: ctx_elems c ++ elems (Node l sz h rest r)) ->
  0 < node -> room m node -> m !! magic node = Some FREE_MAGIC -> m !! bsize node = Some sz ->
  exists m', listadd h node m = Ok (h, m') /\ tree_at m' (plug c (Node l sz h (rest ++ [node]) r)) /\ others_same m m' (node :: h :: rest).
Proof.
  intros Hc (Hn & Tl & Tr) Hsp H0 Hroom Hm Hb. cbn [elems] in Hsp. pose proof (node_head _ _ _ _ _ _ Hn) as (Hh & _). destruct Hn as (N1 & N2 & N3 & N4).
  assert (spaced (node :: h :: rest)) as Hsr by (eapply (spaced_sub (ctx_elems c ++ elems l ++ elems r)); [|exact Hsp]; solve_Permutation).
  destruct (listadd_ring m h rest node N3 Hsr Hh) as (m' & E & R & D & F); [words Hroom|words Hroom|]. exists m'. split; [done|].
  pose proof (others_ring _ _ _ D F) as O. pose proof (bsize_ring m m' _ h F Hsr ltac:(right; left)) as Kh.
  assert (forall a, a ∈ node :: h :: rest -> forall k, k ∈ [0; 4; 8; 12] -> m' !! (a + k) = m !! (a + k)) as K by (intros a Ha; by eapply bsize_ring).
  split; [|done]. apply tree_plug. cbn [root tree_at]. split_and!.
  - eapply ctx_frame; [eapply others_apart; [done|]| |done]; [eapply (spaced_sub (elems l ++ elems r))|eapply (spaced_sub (node :: (h :: rest) ++ elems l ++ elems r))]; try exact Hsp; solve_Permutation.
  - fields. unfold node_at. fields. rewrite !Kh by (rewrite !elem_of_cons; tauto). split_and!; [done..|].
    rewrite Forall_forall in N4 |- *. intros a Ha. assert (a ∈ node :: h :: rest) as Hin by (rewrite app_comm_cons, elem_of_app, list_elem_of_singleton in Ha; rewrite elem_of_cons; tauto).
    unfold free_block. fields. rewrite <-(Z.add_0_r a) at 2. rewrite !(K a Hin) by (rewrite !elem_of_cons; tauto). rewrite Z.add_0_r.
    apply elem_of_cons in Hin as [->|Hin]; [split_and!; [done..|words Hroom|words Hroom]|]. destruct (N4 a Hin) as (? & ? & ? & ? & ?). fields. done.
  - eapply tree_frame; [eapply others_apart; [done|]| |done]; [eapply (spaced_sub (ctx_elems c ++ elems r))|eapply (spaced_sub (node :: ctx_elems c ++ (h :: rest) ++ elems r))]; try exact Hsp; solve_Permutation.
  - eapply tree_frame; [eapply others_apart; [done|]| |done]; [eapply (spaced_sub (ctx_elems c ++ elems l))|eapply (spaced_sub (node :: ctx_elems c ++ (h :: rest) ++ elems l))]; try exact Hsp; solve_Permutation.
Qed.
Lemma pooladd_ok p m t node sz : free_tree p m t -> spaced (node :: elems t) -> 0 < node -> room m node -> m !! bsize node = Some sz ->
  exists m' t', pooladd p m node = Ok (set_curfree (curfree p ⊞ sz) (set_freeroot (root t') p), m') /\ tree_at m' t' /\ bst t' /\
    blocks t' ≡ₚ (node, sz) :: blocks t /\ others_same m m' (node :: elems t).
Proof.
  intros (Hroot & Ht & Hb & Hst) Hsp H0 Hroom Hsz. unfold pooladd. unfold magic at 1. rewrite put_some by (rewrite <-(Z.add_0_r node); words Hroom). cbn [rbind].
  set (m0 := <[node := _]> m). assert (others_same m m0 [node]) as O0.
  { apply (others_put _ node); [left|unfold sizeof_Free; lia|rewrite <-(Z.add_0_r node); words Hroom]. }
  assert (tree_at m0 t) as Ht0 by (eapply tree_frame; [by eapply others_apart|done|done]). pose proof (room_frame _ _ _ _ O0 Hroom) as R0.
  assert (m0 !! magic node = Some FREE_MAGIC) as Hm0 by (subst m0; apply lookup_insert_eq). assert (m0 !! bsize node = Some sz) as Hsz0 by (subst m0; fields; by look).
  clearbody m0. rewrite (get_some _ _ _ Hsz0). cbn [rbind]. rewrite Hroot.
  pose proof (walk_ok m0 t sz (turns m0) [] Ht0 (height_turns m0 t Ht0 (proj1 Hst))) as Ew. pose proof (focus_plug t sz []) as Ep. pose proof (focus_found t sz []) as Ef.
  destruct (focus_place t sz Hb [] (Forall_nil_2 _) (Forall_nil_2 _)) as [Hless Hmore]. cbn [plug loc_of] in Ew, Ep. rewrite Ew. cbn [rbind].
  destruct (focus t sz []) as [c tt] eqn:E. cbn [fst snd] in *. clear E Ew. subst t. apply tree_plug in Ht0 as [Hc Htt]. rewrite root_plug, (read_ctx _ _ _ Hc). cbn [rbind].
  assert (spaced (node :: ctx_elems c ++ elems tt)) as Hsp' by (eapply spaced_perm; [|exact Hsp]; by rewrite elems_plug).
  unfold bst in Hb. rewrite sizes_plug in Hb. destruct tt as [|l s h rest r].
  - cbn [elems root] in *. rewrite app_nil_r in Hsp'. destruct (add_leaf m0 c node sz Hc Hsp' H0 R0 Hm0 Hsz0) as (m1 & m2 & rt & El & Er & Ei & -> & T & O). rewrite El. cbn [rbind].
    destruct (Z.eqb_spec 0 node); [lia|]. cbn [negb]. rewrite Er. cbn [rbind]. rewrite Ei. cbn [rbind].
    exists m2, (plug c (Node Leaf sz node [] Leaf)). pose proof T as [_ (Tn & _)]%tree_plug. apply node_head in Tn as (_ & _ & Tn & _). rewrite (get_some _ _ _ Tn). cbn [rbind].
    split; [by rewrite root_plug|]. split; [done|]. split; [unfold bst; rewrite sizes_plug; by apply sorted_insert|].
    split; [rewrite !blocks_plug; cbn [blocks map app]; solve_Permutation|]. eapply others_trans; (eapply others_weaken; [|eassumption]); intros a; rewrite !elem_of_cons, elems_plug, elem_of_app; rewrite ?elem_of_nil; tauto.
  - subst s. cbn [root]. pose proof Htt as (Tn & _). apply node_head in Tn as (Hh & _). destruct (add_node m0 c l sz h rest r node Hc Htt Hsp' H0 R0 Hm0 Hsz0) as (m1 & El & T & O). rewrite El. cbn [rbind].
    rewrite Z.eqb_refl. cbn [negb rbind]. exists m1, (plug c (Node l sz h (rest ++ [node]) r)). pose proof T as [_ (Tn & _)]%tree_plug. destruct Tn as (_ & _ & _ & Tn). rewrite Forall_forall in Tn.
    destruct (Tn node ltac:(right; apply elem_of_app; right; left)) as (_ & _ & Tn' & _). rewrite (get_some _ _ _ Tn'). cbn [rbind].
    split; [by rewrite root_plug|]. split; [done|]. split; [unfold bst; by rewrite sizes_plug|].
    split; [rewrite !blocks_plug; cbn [blocks map app]; rewrite map_app; cbn [map]; solve_Permutation|].
    eapply others_trans; (eapply others_weaken; [|eassumption]); intros a; rewrite !elem_of_cons, elems_plug, elem_of_app; cbn [elems]; rewrite ?elem_of_app, ?elem_of_cons; rewrite ?elem_of_nil; tauto.
Qed.

(** The middle of [pooldel]: the block leaves its ring, and the tree follows. *)
Definition unlink (rt : Z) (parent : loc) (olst node : Z) (m : words) : result (Z * words) :=
  let* (lst, m) := listdelete olst node m in
  if lst =? 0 then
    let* x := read_loc rt m parent in
    let* (x, m) := treedelete x olst m in
    write_loc rt m parent x
  else if negb (lst =? olst) then
    let* x := read_loc rt m parent in
    let* (x, m) := treeinsert x lst m in
    write_loc rt m parent x
  else Ok (rt, m).
Lemma sorted_remove l1 x l2 : StronglySorted Z.lt (l1 ++ x :: l2) -> StronglySorted Z.lt (l1 ++ l2).
Proof.
  intros (H & Hl & Hr)%StronglySorted_app. apply StronglySorted_cons in Hr as [_ Hr]. apply StronglySorted_app. split_and!; [|done..].
  intros y z Hy Hz. apply H; [done|by right].
Qed.
(** The last block of a size. *)
Lemma unlink_last m c l sz node r : ctx_at m c node -> tree_at m (Node l sz node [] r) -> spaced (ctx_elems c ++ elems (Node l sz node [] r)) ->
  exists m' t, unlink (root_of c node) (loc_of c) node node m = Ok (root_of c (root t), m') /\ tree_at m' (plug c t) /\ sizes t = sizes l ++ sizes r /\
    blocks t ≡ₚ blocks l ++ blocks r /\ elems t ≡ₚ elems l ++ elems r /\ others_same m m' (ctx_elems c ++ elems (Node l sz node [] r)) /\ m' !! bsize node = Some sz.
Proof.
  intros Hc (Hn & Tl & Tr) Hsp. cbn [elems] in Hsp. pose proof (node_head _ _ _ _ _ _ Hn) as (H0 & G1 & G2 & G3 & G4). destruct Hn as (N1 & N2 & (N3 & N4 & _) & _).
  unfold unlink, listdelete. rewrite (get_some _ _ _ N3). cbn [rbind]. rewrite Z.eqb_refl. unfold poison_links. rewrite put_some by (by eexists). cbn [rbind]. rewrite put_some by (apply insert_some; by eexists). cbn [rbind].
  change (0 =? 0) with true. cbn match. set (m1 := <[prev node := _]> _).
  assert (others_same m m1 [node]) as O1.
  { eapply others_trans; apply (others_put _ node); try by left. all: try (unfold sizeof_Free; fields; lia). all: try apply insert_some. all: by eexists. }
  assert (spaced (node :: ctx_elems c ++ elems l ++ elems r)) as Hsp1 by (eapply spaced_perm; [|exact Hsp]; solve_Permutation).
  assert (same_at m m1 (ctx_elems c ++ elems l ++ elems r)) as S1 by (by eapply others_apart). apply same_at_app in S1 as [S1 S2]. apply same_at_app in S2 as [S2 S3].
  assert (spaced (ctx_elems c)) as Hspc by (by eapply spaced_app_l). assert (spaced (elems l ++ elems r)) as Hsplr by (apply (spaced_app_r [node]) in Hsp1; by apply spaced_app_r in Hsp1).
  assert (spaced (elems l)) as Hspl by (by eapply spaced_app_l). assert (spaced (elems r)) as Hspr by (by eapply spaced_app_r).
  assert (ctx_at m1 c node) as Hc1 by (by eapply ctx_frame). rewrite (read_ctx _ _ _ Hc1). cbn [rbind].
  destruct (treedelete_ok m1 node sz l r) as (m2 & t & E & T & Sz & Bl & El & D & F).
  { subst m1. unfold free_block. fields. split_and!; [done|by look..| |]; look; done. }
  { subst m1. fields. by look. } { subst m1. fields. by look. }
  { by eapply tree_frame. } { by eapply tree_frame. }
  { eapply (spaced_sub (ctx_elems c)); [|exact Hsp1]. solve_Permutation. }
  rewrite E. cbn [rbind]. pose proof (others_links _ _ _ D F) as O2.
  assert (ctx_at m2 c node) as Hc2 by (eapply ctx_frame; [eapply others_apart; [exact O2|]|done|done]; eapply spaced_perm; [|exact Hsp1]; solve_Permutation).
  destruct (write_ok m2 c node (root t) Hc2 Hspc) as (m3 & E3 & Hc3 & D3 & F3). pose proof (others_links _ _ _ D3 F3) as O3. exists m3, t. split_and!; [done| |done..| |].
  - apply tree_plug. split; [done|]. eapply tree_frame; [eapply others_apart; [exact O3|]| |exact T].
    + eapply (spaced_sub [node]); [|exact Hsp1]. rewrite El. solve_Permutation.
    + eapply spaced_perm; [|exact Hsplr]. done.
  - cbn [elems app]. eapply others_trans; [|eapply others_trans]; (eapply others_weaken; [|eassumption]); intros a; rewrite ?elem_of_app, ?elem_of_cons, ?elem_of_app, ?elem_of_nil; tauto.
  - assert (forall a, a ∈ elems l ++ elems r -> a + 24 <= node \/ node + 24 <= a) as Hap.
    { intros a Ha. destruct (spaced_apart [node] (elems l ++ elems r) node a) as [?|?]; [eapply (spaced_sub (ctx_elems c)); [|exact Hsp1]; solve_Permutation|left|done|unfold sizeof_Free in *; lia..]. }
    rewrite F3, F; [subst m1; fields; by look| |].
    + intros a [->|Ha]%elem_of_cons; [|pose proof (Hap a Ha)]; fields; lia.
    + intros a Ha. destruct (spaced_apart [node] (ctx_elems c) node a) as [?|?]; [eapply (spaced_sub (elems l ++ elems r)); [|exact Hsp1]; solve_Permutation|left|done|unfold sizeof_Free in *; fields; lia..].
Qed.
(** [treeinsert] of a block in place of the node of its size. *)
Lemma treeinsert_replace m h y sz lv rv : free_block m sz h -> free_block m sz y -> h + sizeof_Free <= y \/ y + sizeof_Free <= h -> m !! left h = Some lv -> m !! right h = Some rv ->
  treeinsert h y m = Ok (y, <[right y := rv]> (<[left y := lv]> m)).
Proof.
  intros (H0 & H1 & H2 & _) (Y0 & Y1 & Y2 & Y3 & Y4) Hap Hl Hr. unfold treeinsert. rewrite (get_some _ _ _ Y2). cbn [rbind]. unfold turns. cbn [ltreewalk read_loc rbind].
  destruct (Z.eqb_spec h 0); [lia|]. rewrite (get_some _ _ _ H1). cbn [rbind]. change (FREE_MAGIC =? FREE_MAGIC) with true. cbn [check rbind]. rewrite (get_some _ _ _ H2). cbn [rbind].
  rewrite Z.eqb_refl. cbn [rbind read_loc]. destruct (Z.eqb_spec h 0); [lia|]. rewrite (get_some _ _ _ Hl). cbn [rbind]. rewrite put_some by done. cbn [rbind].
  unfold sizeof_Free in *. rewrite (get_some _ (right h) rv) by (fields; by look). cbn [rbind]. rewrite put_some by (by apply insert_some). done.
Qed.
Lemma unlink_ring m c l sz h rest r node l1 l2 : ctx_at m c h -> tree_at m (Node l sz h rest r) -> spaced (ctx_elems c ++ elems (Node l sz h rest r)) ->
  h :: rest = l1 ++ node :: l2 -> l1 ++ l2 <> [] ->
  exists m' y rest', unlink (root_of c h) (loc_of c) h node m = Ok (root_of c y, m') /\ y :: rest' = l1 ++ l2 /\ tree_at m' (plug c (Node l sz y rest' r)) /\
    others_same m m' (ctx_elems c ++ elems (Node l sz h rest r)) /\ m' !! bsize node = Some sz.
Proof.
  intros Hc (Hn & Tl & Tr) Hsp E Hne. cbn [elems] in Hsp. pose proof (node_head _ _ _ _ _ _ Hn) as Fh. destruct Hn as (N1 & N2 & N3 & N4).
  assert (spaced (h :: rest)) as Hsr by (eapply (spaced_sub (ctx_elems c ++ elems l ++ elems r)); [|exact Hsp]; solve_Permutation).
  rewrite Forall_forall in N4. assert (forall a, a ∈ h :: rest -> 0 < a) as Hpos by (intros a Ha; by destruct (N4 a Ha)).
  assert (head (l1 ++ node :: l2) = Some h) as Hhd by (by rewrite <-E). pose proof N3 as N3'. pose proof Hsr as Hsr'. rewrite E in N3', Hsr'.
  destruct (listdelete_ring m h node l1 l2 N3' Hsr') as (y & m1 & Ed & Ey & Ekeep & R1 & D1 & F1); [by rewrite <-E|done|done|]. rewrite <-E in F1.
  assert (others_same m m1 (h :: rest)) as O1 by (by apply others_ring).
  assert (forall a, a ∈ h :: rest -> forall k, k ∈ [0; 4; 8; 12] -> m1 !! (a + k) = m !! (a + k)) as K by (intros a Ha; by eapply bsize_ring).
  assert (exists rest', l1 ++ l2 = y :: rest') as [rest' Er] by (destruct (l1 ++ l2) as [|y' rest']; [done|]; injection Ey as <-; by exists rest').
  assert (forall a, a ∈ l1 ++ l2 -> a ∈ h :: rest) as Hin by (intros a; rewrite E, !elem_of_app, elem_of_cons; tauto).
  assert (forall a, a ∈ h :: rest -> free_block m1 sz a) as Fb.
  { intros a Ha. destruct (N4 a Ha) as (B0 & B1 & B2 & B3 & B4). unfold free_block. fields. rewrite <-(Z.add_0_r a) at 2. rewrite !(K a Ha) by (rewrite !elem_of_cons; tauto). by rewrite Z.add_0_r. }
  assert (spaced ((h :: rest) ++ ctx_elems c ++ elems l ++ elems r)) as Hsp1 by (eapply spaced_perm; [|exact Hsp]; solve_Permutation).
  pose proof (others_apart _ _ _ _ O1 Hsp1) as S1. apply same_at_app in S1 as [S1 S2]. apply same_at_app in S2 as [S2 S3].
  assert (spaced (ctx_elems c)) as Hspc by (by eapply spaced_app_l). assert (spaced (elems l ++ elems r)) as Hsplr by (apply spaced_app_r in Hsp1; by apply spaced_app_r in Hsp1).
  assert (spaced (elems l)) as Hspl by (by eapply spaced_app_l). assert (spaced (elems r)) as Hspr by (by eapply spaced_app_r).
  assert (ctx_at m1 c h) as Hc1 by (by eapply ctx_frame). pose proof (tree_frame _ _ _ S2 Hspl Tl) as Tl1. pose proof (tree_frame _ _ _ S3 Hspr Tr) as Tr1.
  assert (Forall (free_block m1 sz) (y :: rest')) as Fy by (rewrite <-Er; apply Forall_forall; intros a Ha; by apply Fb, Hin).
  assert (y ∈ h :: rest) as Hyin by (apply Hin; rewrite Er; left). assert (node ∈ h :: rest) as Hnin by (rewrite E; apply elem_of_app; right; left).
  assert (m1 !! left h = Some (root l) /\ m1 !! right h = Some (root r)) as [L1 L2] by (fields; rewrite !(K h) by (left || rewrite !elem_of_cons; tauto); done).
  unfold unlink. rewrite Ed. cbn [rbind]. pose proof (Hpos y Hyin). destruct (Z.eqb_spec y 0); [lia|]. rewrite Er in R1.
  destruct (Z.eqb_spec y h) as [->|Hyh]; cbn [negb].
  - exists m1, h, rest'. split_and!; [done|done| | |].
    + apply tree_plug. cbn [root tree_at]. done.
    + eapply others_weaken; [|done]. intros a. cbn [elems]. rewrite !elem_of_app. tauto.
    + by destruct (Fb node Hnin) as (_ & _ & ? & _).
  - rewrite (read_ctx _ _ _ Hc1). cbn [rbind]. assert (h + sizeof_Free <= y \/ y + sizeof_Free <= h) as Hap by (apply Hsr; [left|done|congruence]).
    rewrite (treeinsert_replace m1 h y sz (root l) (root r)) by (done || by apply Fb; [left] || by apply Fb; done). cbn [rbind]. set (m2 := <[right y := _]> _).
    pose proof (Fb y Hyin) as (_ & _ & _ & Y3 & Y4).
    assert (others_same m1 m2 [y]) as O2.
    { eapply others_trans; apply (others_put _ y); try by left. all: try (unfold sizeof_Free; fields; lia). all: first [done|by apply insert_some]. }
    assert (spaced (y :: ctx_elems c ++ elems l ++ elems r)) as Hsp2 by (apply list_elem_of_split in Hyin as (k1 & k2 & Ek); rewrite Ek in Hsp1; eapply (spaced_sub (k1 ++ k2)); [|exact Hsp1]; solve_Permutation).
    pose proof (others_apart _ _ _ _ O2 Hsp2) as S4. apply same_at_app in S4 as [S4 S5]. apply same_at_app in S5 as [S5 S6].
    assert (ctx_at m2 c h) as Hc2 by (by eapply ctx_frame). destruct (write_ok m2 c h y Hc2 Hspc) as (m3 & E3 & Hc3 & D3 & F3). pose proof (others_links _ _ _ D3 F3) as O3.
    assert (spaced (ctx_elems c ++ (h :: rest) ++ elems l ++ elems r)) as Hsp3 by (eapply spaced_perm; [|exact Hsp]; solve_Permutation).
    pose proof (others_apart _ _ _ _ O3 Hsp3) as S7. apply same_at_app in S7 as [S7 S8]. apply same_at_app in S8 as [S8 S9].
    exists m3, y, rest'. split_and!; [done|done| | |].
    + apply tree_plug. cbn [root tree_at]. split; [done|]. split_and!; [|by eapply tree_frame, tree_frame|by eapply tree_frame, tree_frame].
      assert (same_at m2 m3 (y :: rest')) as S10 by (eapply same_at_sub; [|exact S7]; rewrite <-Er; done).
      assert (spaced (y :: rest')) as Hsy by (rewrite <-Er; eapply (spaced_sub [node]); [|exact Hsr']; solve_Permutation).
      eapply (node_frame m2); [done|done|]. eapply (node_links m1 m2 y sz rest' (match m1 !! left y with Some v => v | None => 0 end) (match m1 !! right y with Some v => v | None => 0 end)); [|done| | |].
      * destruct Y3 as [v3 Y3], Y4 as [v4 Y4]. unfold node_at. rewrite Y3, Y4. done.
      * intros a q _ _ Q1 Q2. subst m2. by rewrite !lookup_insert_ne by congruence.
      * subst m2. fields. by look.
      * subst m2. fields. by look.
    + eapply others_trans; [|eapply others_trans]; (eapply others_weaken; [|eassumption]); intros a; cbn [elems]; rewrite ?elem_of_app; try tauto. intros ->%list_elem_of_singleton. tauto.
    + rewrite (S7 node Hnin) by (unfold sizeof_Free; fields; lia). subst m2. destruct (Fb node Hnin) as (_ & _ & Hbn & _). fields. destruct (Z.eq_dec node y) as [->|Hny]; [by look|].
      destruct Hsr as [_ Hs]. destruct (Hs node y Hnin Hyin Hny); unfold sizeof_Free in *; by look.
Qed.
Lemma pooldel_ok p m t node sz : free_tree p m t -> (node, sz) ∈ blocks t ->
  exists m' t', pooldel p m node = Ok (set_curfree (curfree p ⊟ sz) (set_freeroot (root t') p), m') /\ tree_at m' t' /\ bst t' /\
    blocks t ≡ₚ (node, sz) :: blocks t' /\ others_same m m' (elems t) /\ m' !! magic node = Some UNALLOC_MAGIC /\ m' !! bsize node = Some sz.
Proof.
  intros (Hroot & Ht & Hb & Hst) Hin. assert (node ∈ elems t) as Hne by (rewrite elems_blocks; apply list_elem_of_fmap; by exists (node, sz)).
  unfold pooldel. destruct (focus_block t node sz Hb Hin []) as (l & h & rest & r & Ef & Hhr).
  pose proof (walk_ok m t sz (turns m) [] Ht (height_turns m t Ht (proj1 Hst))) as Ew. pose proof (focus_plug t sz []) as Ep. cbn [plug loc_of] in Ew, Ep.
  destruct (focus t sz []) as [c tt]. cbn [fst snd] in *. subst tt t. pose proof (proj1 (tree_plug _ _ _) Ht) as [Hc Htt].
  assert (spaced (ctx_elems c ++ elems (Node l sz h rest r))) as Hsp by (eapply spaced_perm; [|exact Hst]; by rewrite elems_plug).
  assert (free_block m sz node) as (N0 & _ & N2 & _) by (destruct Htt as ((_ & _ & _ & Hf) & _); rewrite Forall_forall in Hf; by apply Hf).
  rewrite (get_some _ _ _ N2). cbn [rbind]. rewrite Hroot, Ew. cbn [rbind]. rewrite root_plug. cbn [root] in *. rewrite (read_ctx _ _ _ Hc). cbn [rbind].
  assert (0 < h) as Hh by (destruct Htt as (Hn & _); by apply node_head in Hn as [? _]). destruct (Z.eqb_spec h 0); [lia|]. cbn [negb check rbind].
  assert (exists m1 t', unlink (root_of c h) (loc_of c) h node m = Ok (root t', m1) /\ tree_at m1 t' /\ bst t' /\ blocks (plug c (Node l sz h rest r)) ≡ₚ (node, sz) :: blocks t' /\
    others_same m m1 (elems (plug c (Node l sz h rest r))) /\ m1 !! bsize node = Some sz) as (m1 & t' & Eu & T1 & B1 & P1 & O1 & S1).
  { pose proof Hhr as (l1 & l2 & E)%list_elem_of_split. unfold bst in Hb. rewrite sizes_plug in Hb. cbn [sizes] in Hb. destruct (l1 ++ l2) as [|x q] eqn:El.
    - apply app_eq_nil in El as [-> ->]. cbn [app] in E. injection E as -> ->. destruct (unlink_last m c l sz node r Hc Htt Hsp) as (m1 & t & Eu & T & Sz & Bl & El & O & S). exists m1, (plug c t).
      split_and!; [by rewrite root_plug|done| | | |done].
      + unfold bst. rewrite sizes_plug, Sz. rewrite <-app_assoc in Hb |- *. cbn [app] in Hb. rewrite app_assoc in Hb |- *. by apply sorted_remove in Hb.
      + rewrite !blocks_plug, Bl. cbn [blocks map app]. solve_Permutation.
      + eapply others_weaken; [|exact O]. intros a. by rewrite elems_plug.
    - destruct (unlink_ring m c l sz h rest r node l1 l2 Hc Htt Hsp E ltac:(by rewrite El)) as (m1 & y & rest' & Eu & Er & T & O & S). exists m1, (plug c (Node l sz y rest' r)).
      split_and!; [by rewrite root_plug|done| | | |done].
      + unfold bst. by rewrite sizes_plug.
      + rewrite !blocks_plug. cbn [blocks]. rewrite E, Er, !map_app. cbn [map]. solve_Permutation.
      + eapply others_weaken; [|exact O]. intros a. by rewrite elems_plug. }
  unfold unlink in Eu. destruct (listdelete h node m) as [[lst m0]| | |]; cbn [rbind] in *; try done. rewrite Eu. cbn [rbind]. clear Eu.
  set (t := plug c (Node l sz h rest r)) in *. assert (elems t ≡ₚ node :: elems t') as Pe by (by rewrite !elems_blocks, P1). pose proof (spaced_perm _ _ Pe Hst) as Hsp'.
  assert (free_block m sz node) as (_ & N1 & _ & N3 & N4) by (destruct Htt as ((_ & _ & _ & Hf) & _); rewrite Forall_forall in Hf; by apply Hf).
  assert (forall q, is_Some (m !! q) -> is_Some (m1 !! q)) as Hd by (intros q; rewrite <-!elem_of_dom, (proj1 O1); done).
  assert (is_Some (m !! magic node)) as N1' by (by eexists). unfold sizeof_Free in *.
  rewrite put_some by auto. cbn [rbind]. rewrite put_some by (apply insert_some; auto). cbn [rbind].
  rewrite (get_some _ (bsize node) sz) by (fields; by look). cbn [rbind]. rewrite put_some by (apply insert_some, insert_some; auto). cbn [rbind]. set (m2 := <[magic node := _]> _).
  assert (others_same m1 m2 [node]) as O2.
  { eapply others_trans; [eapply others_trans|]; apply (others_put _ node); try by left. all: try (unfold sizeof_Free; fields; lia). all: first [by auto|apply insert_some; by auto|apply insert_some, insert_some; by auto]. }
  exists m2, t'. split_and!; [done|eapply tree_frame; [by eapply others_apart|by apply (spaced_app_r [node])|done]|done..| | |].
  - eapply others_trans; [exact O1|]. eapply others_weaken; [|exact O2]. intros a ->%list_elem_of_singleton. done.
  - subst m2. fields. by look.
  - subst m2. fields. by look.
Qed.
