(* ===== verification/PoolBlocks.v ===== *)
(** * The blocks of the arenas

    What the words of an arena hold: [seg_at] describes one block with its header and its tail, or the header or the tail of the arena;
    a heap is a list of such segments that do not overlap, together with the tree of the free ones.  The lemmas say what each
    function of pool.c on blocks does to the heap. *)
From stdpp Require Import gmap list sorting.
From S2P Require Import Prelude Memory Pool PoolWords PoolTree PoolFree.

(** ** Headers and tails *)

Definition owned (m : words) (a n : Z) : Prop := forall q, a <= q < a + n -> q mod 4 = 0 -> is_Some (m !! q).
Definition tail_at (m : words) (t n : Z) : Prop :=
  m !! tsize t = Some n /\ byte_at m (magic0 t) = Some TAIL_MAGIC0 /\ byte_at m (magic1 t) = Some TAIL_MAGIC1.
Definition block_at (m : words) (mg b n : Z) : Prop := m !! magic b = Some mg /\ m !! bsize b = Some n /\ tail_at m (b + n - 8) n.
(** The size of the data is in the tail, and the bytes after the data are marked. *)
Definition data_at (m : words) (b n d : Z) : Prop :=
  short_at m (datasize (b + n - 8)) (n - d) /\ guard_at m (b + 8 + d) (guard_end (b + 8 + d) (b + n - 8)).

Lemma owned_byte m a n b : owned m a n -> a mod 4 = 0 -> n mod 4 = 0 -> a <= b < a + n -> is_Some (m !! (b - b mod 4)).
Proof. intros H Ha Hn Hb. apply H; zlia. Qed.
Lemma owned_dom m m' a n : dom m' = dom m -> owned m a n -> owned m' a n.
Proof. intros D H q Hq Hq'. rewrite <-elem_of_dom, D, elem_of_dom. by apply H. Qed.
Lemma owned_sub m a n b k : owned m a n -> a <= b -> b + k <= a + n -> owned m b k.
Proof. intros H H1 H2 q Hq. apply H. lia. Qed.
Lemma owned_app m a n k : owned m a n -> owned m (a + n) k -> owned m a (n + k).
Proof. intros H1 H2 q Hq Hq'. destruct (Z.lt_ge_cases q (a + n)); [apply H1|apply H2]; (done || lia). Qed.

Lemma blocksetsize_ok m b n mg : b mod 4 = 0 -> n mod 4 = 0 -> 16 <= n -> owned m b n -> m !! magic b = Some mg -> mg <> FREE_MAGIC ->
  exists m', blocksetsize m b n = Ok m' /\ block_at m' mg b n /\ dom m' = dom m /\
    (forall q, q <> b + 4 -> q <> b + n - 8 -> q <> b + n - 4 -> m' !! q = m !! q).
Proof.
  intros Hb Hn Hn16 Ho Hm Hf. unfold blocksetsize. rewrite (get_some _ _ _ Hm). cbn [rbind]. destruct (Z.eqb_spec mg FREE_MAGIC); [done|]. cbn [negb check rbind]. unfold B2T. fields.
  rewrite put_some by (apply Ho; zlia). cbn [rbind]. rewrite !(get_some _ (b + 4) n) by apply lookup_insert_eq. cbn [rbind].
  unfold sizeof_Btail, tsize. rewrite put_some by (apply insert_some, Ho; zlia). cbn [rbind]. set (m1 := <[b + n - 8 + 4 := n]> _).
  assert (owned m1 b n) as Ho1 by (intros q Hq Hq'; by apply insert_some, insert_some, Ho). set (t := b + n - 8) in *.
  destruct (putb_at m1 (magic0 t) TAIL_MAGIC0) as (m2 & -> & B2 & D2 & F2 & S2); [eapply owned_byte; [exact Ho1|zlia|zlia|unfold magic0; lia]|]. cbn [rbind].
  destruct (putb_at m2 (magic1 t) TAIL_MAGIC1) as (m3 & -> & B3 & D3 & F3 & S3); [rewrite <-elem_of_dom, D2, elem_of_dom; eapply owned_byte; [exact Ho1|zlia|zlia|unfold magic1; lia]|].
  assert (magic0 t - magic0 t mod 4 = t /\ magic1 t - magic1 t mod 4 = t) as [E0 E1] by (unfold magic0, magic1; zlia). rewrite E0 in F2. rewrite E1 in F3.
  exists m3. split; [done|]. unfold block_at, tail_at. fields. fold t. split_and!.
  - rewrite F3, F2 by lia. subst m1. by look.
  - rewrite F3, F2 by lia. subst m1. by look.
  - unfold tsize. rewrite F3, F2 by lia. subst m1. by look.
  - rewrite S3 by (unfold magic0, magic1; lia). by rewrite B2.
  - by rewrite B3.
  - rewrite D3, D2. subst m1. rewrite !dom_insert_lookup_L; [done|apply Ho; zlia|apply insert_some, Ho; zlia].
  - intros q Q1 Q2 Q3. rewrite F3, F2 by done. subst m1. by rewrite !lookup_insert_ne by lia.
Qed.
Lemma blocksetdsize_ok p m b n d : b mod 4 = 0 -> n mod 4 = 0 -> n < 2 ^ 32 -> owned m b n -> m !! bsize b = Some n ->
  0 <= d -> d + 16 <= n -> dsize2bsize p d <= n -> n - d < 65536 ->
  exists m', blocksetdsize p m b d = Ok m' /\ data_at m' b n d /\ dom m' = dom m /\
    (forall q, (q + 4 <= b + 8 + d \/ b + n - 4 <= q) -> m' !! q = m !! q) /\
    bytes_same m m' (fun x => x < b + 8 + d \/ x = magic0 (b + n - 8) \/ magic1 (b + n - 8) <= x).
Proof.
  intros Hb Hn Hn32 Ho Hs Hd Hdn Hfit Hsh. unfold blocksetdsize. rewrite (get_some _ _ _ Hs). cbn [rbind]. destruct (Z.leb_spec (dsize2bsize p d) n); [|lia]. cbn [check rbind].
  rewrite (u32_small (n - d)) by (unfold_words; lia). destruct (Z.ltb_spec (n - d) 65536); [|lia]. cbn [check rbind]. unfold B2T. rewrite (get_some _ _ _ Hs). cbn [rbind]. unfold sizeof_Btail. set (t := b + n - 8).
  assert (is_Some (m !! t)) as Ht by (apply Ho; subst t; zlia). assert (datasize t - datasize t mod 4 = t /\ datasize t + 1 - (datasize t + 1) mod 4 = t) as [E1 E2] by (unfold datasize; subst t; zlia).
  destruct (PSHORT_ok m (datasize t) (n - d)) as (m1 & -> & B1 & D1 & F1 & S1); [by rewrite E1|by rewrite E2|]. rewrite E1, E2 in F1. cbn [rbind].
  unfold _B2D, sizeof_Bhdr. set (q := b + 8 + d). assert (q <= guard_end q t <= t) as Hg by (unfold guard_end; subst t q; destruct (Z.ltb_spec (b + 8 + d + 4) (b + n - 8)); lia).
  destruct (set_guard_ok (Z.to_nat (guard_end q t - q)) m1 q) as (m2 & -> & G2 & D2 & F2 & S2).
  { intros x Hx. rewrite <-elem_of_dom, D1, elem_of_dom. eapply owned_byte; [exact Ho|done..|subst t q; lia]. }
  replace (q + Z.of_nat (Z.to_nat (guard_end q t - q))) with (guard_end q t) in * by lia. exists m2. split; [done|]. split_and!.
  - split; [|exact G2]. destruct B1 as [B1 B2]. fold t. unfold datasize in *. split; (rewrite S2; [done|lia]).
  - congruence.
  - intros w Hw. fold q in Hw. rewrite F2, F1; [done|subst t q; lia..].
  - intros x Hx. fold q t in Hx. unfold magic0, magic1, datasize in *. rewrite S2, S1; [done|lia|lia].
Qed.
Lemma getdsize_ok m b n d : m !! bsize b = Some n -> data_at m b n d -> 0 <= n - d < 65536 -> 0 <= d < 2 ^ 32 -> getdsize m b = Ok d.
Proof.
  intros Hs [Hd _] Hn Hd32. unfold getdsize, B2T. rewrite (get_some _ _ _ Hs). cbn [rbind]. unfold sizeof_Btail. rewrite (SHORT_ok _ _ _ Hd). cbn [rbind]. f_equal.
  rewrite Z.mod_small by lia. rewrite u32_small; [lia|unfold_words; lia].
Qed.
Lemma tail_check_ok m t n : tail_at m t n -> tail_check m t = Ok ().
Proof. intros (_ & H0 & H1). unfold tail_check. rewrite (getb_at _ _ _ H0), (getb_at _ _ _ H1). done. Qed.
Lemma T2HDR_ok m b n : tail_at m (b - 8) n -> T2HDR m (B2PT b) = Ok (b - n).
Proof. intros (H & _ & _). unfold T2HDR, B2PT, sizeof_Btail. rewrite (get_some _ _ _ H). cbn [rbind]. f_equal. lia. Qed.
Lemma ptr_check_ok m b n : tail_at m (b + n - 8) n -> ptr_check m (b + n - 8) b = Ok ().
Proof. intros (H & _ & _). unfold ptr_check, T2HDR. rewrite (get_some _ _ _ H). cbn [rbind]. unfold sizeof_Btail. replace (b + n - 8 + 8 - n) with b by lia. by rewrite Z.eqb_refl. Qed.
(** The blocks pass the check. *)
Lemma blockcheck_free p m mg b n : mg = FREE_MAGIC \/ mg = UNALLOC_MAGIC -> block_at m mg b n -> blockcheck p m b = Ok ().
Proof.
  intros Hmg (H1 & H2 & H3). unfold blockcheck. rewrite (get_some _ _ _ H1). cbn [rbind]. replace ((mg =? FREE_MAGIC) || (mg =? UNALLOC_MAGIC)) with true by (destruct Hmg as [-> | ->]; done).
  unfold B2T. rewrite (get_some _ _ _ H2). cbn [rbind]. unfold sizeof_Btail. rewrite (tail_check_ok _ _ _ H3). cbn [rbind]. by rewrite ptr_check_ok.
Qed.
Lemma blockcheck_alloc p m b n d : block_at m ALLOC_MAGIC b n -> data_at m b n d -> 0 <= d -> d + 16 <= n -> n - d < 65536 -> n < 2 ^ 32 -> dsize2bsize p d <= n -> blockcheck p m b = Ok ().
Proof.
  intros (H1 & H2 & H3) Hd Hd0 Hdn Hsh Hn Hfit. unfold blockcheck. rewrite (get_some _ _ _ H1). cbn [rbind]. cbn -[B2T getdsize getb ptr_check dsize2bsize guard_check Z.mul Z.add Z.sub]. unfold B2T. rewrite (get_some _ _ _ H2). cbn [rbind]. unfold sizeof_Btail.
  rewrite (getdsize_ok m b n d) by (done || lia). cbn [rbind]. destruct H3 as (T1 & T2 & T3). rewrite (getb_at _ _ _ T2). cbn [rbind]. rewrite Z.eqb_refl. cbn [orb check rbind]. rewrite (getb_at _ _ _ T3). cbn [rbind].
  rewrite Z.eqb_refl. cbn [check rbind]. rewrite ptr_check_ok by done. cbn [rbind]. destruct (Z.leb_spec (dsize2bsize p d) n); [|lia]. cbn [check rbind].
  apply guard_check_ok. destruct Hd as [_ Hg]. unfold _B2D, sizeof_Bhdr. assert (b + 8 + d <= guard_end (b + 8 + d) (b + n - 8)) by (unfold guard_end; destruct (Z.ltb_spec (b + 8 + d + 4) (b + n - 8)); lia).
  by replace (b + 8 + d + Z.of_nat (Z.to_nat (guard_end (b + 8 + d) (b + n - 8) - (b + 8 + d)))) with (guard_end (b + 8 + d) (b + n - 8)) by lia.
Qed.

(** ** Segments *)

Inductive kind := KArena | KTail | KFree | KRaw (mg : Z) | KAlloc (d : Z).
(** A block on its way, which [pooldel] and [blockmerge] leave. *)
Abbreviation KUnalloc := (KRaw UNALLOC_MAGIC).
#[export] Instance kind_eq : EqDecision kind.
Proof. solve_decision. Defined.
Record seg := mkSeg { addr : Z; sz : Z; kd : kind }.
Definition seg_at (p : pool) (m : words) (s : seg) : Prop :=
  let (a, n, k) := s in
  (a mod 4 = 0 /\ n mod 4 = 0 /\ 0 < a /\ 0 < n /\ a + n <= 2 ^ 32) /\ owned m a n /\
  match k with
  | KArena => n = sizeof_Arena /\ m !! magic a = Some ARENA_MAGIC /\ m !! bsize a = Some sizeof_Arena /\ m !! (a + n - 4) = Some n
  | KTail => n = sizeof_Bhdr /\ m !! magic a = Some ARENATAIL_MAGIC /\ m !! bsize a = Some 0
  | KFree => MINBLOCKSIZE <= n /\ block_at m FREE_MAGIC a n
  | KRaw mg => MINBLOCKSIZE <= n /\ block_at m mg a n /\ mg <> FREE_MAGIC
  | KAlloc d => MINBLOCKSIZE <= n /\ block_at m ALLOC_MAGIC a n /\ data_at m a n d /\ 0 <= d < 2 ^ 31 /\ d + 16 <= n /\ n - d < 65536 /\ dsize2bsize p d <= n
  end.
Definition seg_apart (s1 s2 : seg) : Prop := addr s1 + sz s1 <= addr s2 \/ addr s2 + sz s2 <= addr s1.
Fixpoint apart (l : list seg) : Prop := match l with [] => True | s :: l => Forall (seg_apart s) l /\ apart l end.
Definition free_of (l : list seg) : list (Z * Z) := omap (fun s => match kd s with KFree => Some (addr s, sz s) | _ => None end) l.
(** The sum of the sizes. *)
Definition total (l : list (Z * Z)) : Z := foldr (fun x s => snd x + s) 0 l.
(** The segments, the tree of the free ones and the count of their bytes. *)
Record heap (p : pool) (m : words) (t : tree) (l : list seg) : Prop := mkHeap {
  hp_root : freeroot p = root t;
  hp_tree : tree_at m t;
  hp_bst : bst t;
  hp_segs : Forall (seg_at p m) l;
  hp_apart : apart l;
  hp_free : blocks t ≡ₚ free_of l;
  hp_curfree : curfree p = u32 (total (free_of l)) }.
(** Pools that differ in the tree and the count of free bytes only. *)
Definition like (p p' : pool) : Prop := p' = set_curfree (curfree p') (set_freeroot (freeroot p') p).
(** What a change elsewhere leaves of the segments: all of them but the links of the free blocks. *)
Definition keeps (m m' : words) (l : list seg) : Prop :=
  dom m' = dom m /\ forall s, s ∈ l -> forall q, addr s <= q < addr s + sz s -> (kd s = KFree -> addr s + sizeof_Free <= q) -> m' !! q = m !! q.

Lemma keeps_both m m' m'' l : keeps m m' l -> keeps m' m'' l -> keeps m m'' l.
Proof. intros [D1 K1] [D2 K2]. split; [congruence|]. intros s Hs q Hq Hk. by rewrite (K2 s Hs q Hq Hk), (K1 s Hs q Hq Hk). Qed.
Lemma keeps_sub m m' l l' : (forall s, s ∈ l -> s ∈ l') -> keeps m m' l' -> keeps m m' l.
Proof. intros H [D K]. split; [done|]. intros s Hs. apply K. by apply H. Qed.
Lemma seg_apart_sym s1 s2 : seg_apart s1 s2 -> seg_apart s2 s1.
Proof. unfold seg_apart. tauto. Qed.
Lemma apart_perm l l' : l ≡ₚ l' -> apart l -> apart l'.
Proof.
  induction 1 as [|s l l' E IH|s1 s2 l|l1 l2 l3 _ IH1 _ IH2]; cbn [apart]; [done| | |tauto].
  - intros [H1 H2]. split; [by rewrite <-E|by apply IH].
  - rewrite !Forall_cons. intros ((H1 & H2) & H3 & H4). split_and!; [by apply seg_apart_sym|done..].
Qed.
Lemma apart_in l s1 s2 : apart l -> s1 ∈ l -> s2 ∈ l -> s1 = s2 \/ seg_apart s1 s2.
Proof.
  induction l as [|s l IH]; cbn [apart]; [by intros _ ?%not_elem_of_nil|]. rewrite Forall_forall. intros [H1 H2] [->|Hs1]%elem_of_cons [->|Hs2]%elem_of_cons;
    [by left|right; by apply H1|right; apply seg_apart_sym; by apply H1|by apply IH].
Qed.
Lemma apart_app l1 l2 : apart (l1 ++ l2) <-> apart l1 /\ apart l2 /\ Forall (fun s => Forall (seg_apart s) l2) l1.
Proof. induction l1 as [|s l1 IH]; cbn [apart app]; [intuition|]. rewrite Forall_app, Forall_cons, IH. tauto. Qed.
#[export] Instance free_of_perm : Proper ((≡ₚ) ==> (≡ₚ)) free_of.
Proof. intros l l' H. by apply omap_Permutation. Qed.
Lemma total_perm l l' : l ≡ₚ l' -> total l = total l'.
Proof. induction 1; simpl; lia. Qed.
Lemma like_trans p p' p'' : like p p' -> like p' p'' -> like p p''.
Proof. unfold like. intros -> ->. done. Qed.
Lemma heap_perm p m t l l' : l ≡ₚ l' -> heap p m t l -> heap p m t l'.
Proof. intros E [H1 H2 H3 H4 H5 H6 H7]. constructor; [done..|by rewrite <-E|by eapply apart_perm|by rewrite <-E|]. by rewrite H7, (total_perm _ _ (free_of_perm _ _ E)). Qed.
Lemma elem_free l a n : (a, n) ∈ free_of l <-> mkSeg a n KFree ∈ l.
Proof.
  unfold free_of. rewrite list_elem_of_omap. split.
  - intros ([a' n' []] & Hs & E); simpl in E; congruence.
  - intros H. by exists (mkSeg a n KFree).
Qed.
Lemma free_app l1 l2 : free_of (l1 ++ l2) = free_of l1 ++ free_of l2.
Proof. apply omap_app. Qed.
Lemma seg_min p m a n : seg_at p m (mkSeg a n KFree) -> MINBLOCKSIZE <= n.
Proof. intros (_ & _ & ? & _). done. Qed.
(** The free blocks do not overlap. *)
Lemma free_spaced l : apart l -> (forall a n, mkSeg a n KFree ∈ l -> MINBLOCKSIZE <= n) -> spaced (free_of l).*1.
Proof.
  intros Ha Hn. unfold MINBLOCKSIZE, sizeof_Free, sizeof_Btail in *. split.
  - induction l as [|s l IH]; [constructor|]. cbn [apart] in Ha. destruct Ha as [H1 H2]. assert (NoDup (free_of l).*1) as Hnd by (apply IH; [done|]; intros a n Hin; apply (Hn a); by right).
    unfold free_of. cbn [omap list_omap]. destruct s as [a n []]; cbn [kd]; try done. cbn [fmap list_fmap]. apply NoDup_cons. split; [|done].
    intros (x & Ex & Hx)%list_elem_of_fmap. destruct x as [a' n']. simpl in Ex. subst a'. apply elem_free in Hx. rewrite Forall_forall in H1. pose proof (Hn a n ltac:(left)). pose proof (Hn a n' ltac:(by right)).
    destruct (H1 _ Hx); simpl in *; lia.
  - intros a b ((? & na) & -> & Ha1%elem_free)%list_elem_of_fmap ((? & nb) & -> & Hb1%elem_free)%list_elem_of_fmap Hne. simpl in *. pose proof (Hn _ _ Ha1). pose proof (Hn _ _ Hb1). unfold sizeof_Free.
    destruct (apart_in _ _ _ Ha Ha1 Hb1) as [E|[?|?]]; simpl in *; [congruence|lia|lia].
Qed.
Lemma heap_elems p m t l : heap p m t l -> elems t ≡ₚ (free_of l).*1.
Proof. intros H. by rewrite elems_blocks, (hp_free _ _ _ _ H). Qed.
Lemma heap_seg p m t l s : heap p m t l -> s ∈ l -> seg_at p m s.
Proof. intros H Hs. pose proof (hp_segs _ _ _ _ H) as Hf. rewrite Forall_forall in Hf. by apply Hf. Qed.
Lemma heap_spaced p m t l : heap p m t l -> spaced (elems t).
Proof. intros H. eapply spaced_perm; [symmetry; by eapply heap_elems|]. apply free_spaced; [apply H|]. intros a n Hs. by eapply seg_min, heap_seg. Qed.
Lemma heap_free_tree p m t l : heap p m t l -> free_tree p m t.
Proof. intros H. split_and!; [apply H|apply H|apply H|by eapply heap_spaced]. Qed.

(** ** Changes to the heap *)

Lemma bytes_same_in (m m' : words) a n b : a mod 4 = 0 -> n mod 4 = 0 -> (forall q, a <= q < a + n -> m' !! q = m !! q) -> a <= b < a + n -> byte_at m' b = byte_at m b.
Proof. intros Ha Hn H Hb. unfold byte_at. rewrite H; [done|zlia]. Qed.
Lemma tail_frame m m' t n : t mod 4 = 0 -> (forall q, t <= q < t + 8 -> m' !! q = m !! q) -> tail_at m t n -> tail_at m' t n.
Proof.
  intros Ht H (H1 & H2 & H3). unfold tail_at, tsize, magic0, magic1 in *. split_and!; [rewrite H; [done|lia]|..]; rewrite (bytes_same_in m m' t 8) by (done || lia); done.
Qed.
Lemma block_frame m m' mg b n : b mod 4 = 0 -> n mod 4 = 0 -> (forall q, b <= q < b + 8 \/ b + n - 8 <= q < b + n -> m' !! q = m !! q) -> block_at m mg b n -> block_at m' mg b n.
Proof.
  intros Hb Hn H (H1 & H2 & H3). unfold block_at. fields. split_and!; [rewrite H; [done|lia]..|]. eapply tail_frame; [zlia| |done]. intros q Hq. apply H. lia.
Qed.
Lemma data_frame m m' b n d : b mod 4 = 0 -> n mod 4 = 0 -> 0 <= d -> d + 16 <= n -> (forall q, b + 8 <= q < b + n -> m' !! q = m !! q) -> data_at m b n d -> data_at m' b n d.
Proof.
  intros Hb Hn Hd Hdn H [[S1 S2] G]. assert (forall x, b + 8 <= x < b + n -> byte_at m' x = byte_at m x) as Hx by (intros x ?; apply (bytes_same_in m m' (b + 8) (n - 8)); [zlia|zlia|intros q ?; apply H; lia|lia]).
  unfold data_at, short_at, datasize in *. split; [by rewrite !Hx by lia|]. intros x Hxr. rewrite Hx; [by apply G|]. unfold guard_end in Hxr. destruct (Z.ltb_spec (b + 8 + d + 4) (b + n - 8)); lia.
Qed.
Lemma seg_frame p m m' s : seg_at p m s -> kd s <> KFree -> dom m' = dom m -> (forall q, addr s <= q < addr s + sz s -> m' !! q = m !! q) -> seg_at p m' s.
Proof.
  destruct s as [a n k]. intros ((Ha & Hn & H1 & H2 & H3) & Ho & Hk) Hne D F. cbn [addr sz kd] in *. split; [done|]. split; [by eapply owned_dom|].
  destruct k; [| |done| |].
  - destruct Hk as (-> & G1 & G2 & G3). unfold sizeof_Arena in *. fields. rewrite !F by lia. done.
  - destruct Hk as (-> & G1 & G2). unfold sizeof_Bhdr in *. fields. rewrite !F by lia. done.
  - destruct Hk as (G1 & G2 & G3). unfold MINBLOCKSIZE, sizeof_Free, sizeof_Btail in *. split; [done|]. split; [|done]. eapply block_frame; [done|done| |done]. intros q Hq. apply F. lia.
  - destruct Hk as (G1 & G2 & G3 & G4 & G5 & G6 & G7). unfold MINBLOCKSIZE, sizeof_Free, sizeof_Btail in *. split_and!; try (done || lia).
    + eapply block_frame; [done|done| |done]. intros q Hq. apply F. lia.
    + eapply data_frame; [done|done|lia|done| |done]. intros q Hq. apply F. lia.
Qed.
Lemma seg_frame_free p m m' a n : seg_at p m (mkSeg a n KFree) -> dom m' = dom m -> m' !! magic a = Some FREE_MAGIC -> m' !! bsize a = Some n ->
  (forall q, a + sizeof_Free <= q < a + n -> m' !! q = m !! q) -> seg_at p m' (mkSeg a n KFree).
Proof.
  intros ((Ha & Hn & H1 & H2 & H3) & Ho & G1 & _ & _ & G2) D M1 M2 F. unfold MINBLOCKSIZE, sizeof_Free, sizeof_Btail in *. split; [done|]. split; [by eapply owned_dom|]. split; [done|].
  split_and!; [done|done|]. eapply tail_frame; [zlia| |done]. intros q Hq. apply F. lia.
Qed.
(** Changes confined to the links of free blocks and to another block. *)
Lemma others_keeps m m' L l : others_same m m' L -> apart l -> (forall a, a ∈ L -> exists s, s ∈ l /\ addr s = a /\ sizeof_Free <= sz s) ->
  forall s, s ∈ l -> forall q, addr s <= q < addr s + sz s -> (addr s ∈ L -> addr s + sizeof_Free <= q) -> m' !! q = m !! q.
Proof.
  intros [_ F] Ha HL s Hs q Hq Hk. apply F. intros a Hin. destruct (HL a Hin) as (s' & Hs' & <- & Hn). destruct (apart_in _ _ _ Ha Hs Hs') as [<-|[?|?]]; [right; by apply Hk|lia|lia].
Qed.
(** The rest of the heap, when the tree has changed. *)
Lemma heap_rest p p' m m' t' l : Forall (seg_at p m) l -> (forall d, dsize2bsize p' d = dsize2bsize p d) -> dom m' = dom m -> keeps m m' l -> tree_at m' t' -> free_of l ⊆ blocks t' ->
  Forall (seg_at p' m') l.
Proof.
  intros Hl Hp D [_ K] Ht Hf. rewrite Forall_forall in Hl |- *. intros s Hs. pose proof (Hl s Hs) as Hat.
  assert (seg_at p m' s) as Hat'.
  { destruct (decide (kd s = KFree)) as [E|E].
    - destruct s as [a n k]. simpl in E. subst k. assert ((a, n) ∈ blocks t') as Hin by (apply Hf; by apply elem_free).
      destruct (tree_in _ _ _ _ Ht Hin) as (_ & F1 & F2 & _).
      eapply seg_frame_free; [done|done|done|done|]. intros q Hq. apply (K _ Hs); simpl; unfold sizeof_Free in *; [lia|intros _; lia].
    - eapply seg_frame; [done|done|done|]. intros q Hq. apply (K _ Hs); done. }
  destruct s as [a n k]. destruct Hat' as (G1 & G2 & G3). split; [done|]. split; [done|]. destruct k; try done. by rewrite Hp.
Qed.
Definition same_words (m m' : words) (a n : Z) : Prop := forall q, a <= q < a + n -> m' !! q = m !! q.
Lemma pooldel_heap p m t b n l : heap p m t (mkSeg b n KFree :: l) ->
  exists m' t', let p' := set_curfree (curfree p ⊟ n) (set_freeroot (root t') p) in
    pooldel p m b = Ok (p', m') /\ heap p' m' t' (mkSeg b n KUnalloc :: l) /\ keeps m m' l /\ same_words m m' (b + 24) (n - 24).
Proof.
  intros H. pose proof (heap_free_tree _ _ _ _ H) as Hft. pose proof (heap_elems _ _ _ _ H) as He. destruct H as [Hr Ht Hb Hs Ha Hf Hcf].
  assert ((b, n) ∈ blocks t) as Hin by (rewrite Hf; apply elem_free; left). destruct (pooldel_ok p m t b n Hft Hin) as (m' & t' & E & T & B & P & O & M1 & M2).
  assert (blocks t' ≡ₚ free_of l) as Hf' by (apply (Permutation_cons_inv (a := (b, n))); by rewrite <-P, Hf).
  assert (forall s, s ∈ mkSeg b n KFree :: l -> forall q, addr s <= q < addr s + sz s -> (kd s = KFree -> addr s + sizeof_Free <= q) -> m' !! q = m !! q) as K.
  { intros s Hs1 q Hq Hk. rewrite Forall_forall in Hs. eapply (others_keeps _ _ _ _ O Ha); [|exact Hs1|done|].
    - intros a ((? & k) & -> & Hk1%elem_free)%(proj1 (elem_of_Permutation_proper _ _ _ He))%list_elem_of_fmap. eexists. split; [exact Hk1|]. split; [done|]. pose proof (seg_min _ _ _ _ (Hs _ Hk1)). unfold MINBLOCKSIZE, sizeof_Btail in *. simpl. lia.
    - intros ((a & k) & Ea & Hk1%elem_free)%(proj1 (elem_of_Permutation_proper _ _ _ He))%list_elem_of_fmap. destruct (apart_in _ _ _ Ha Hs1 Hk1) as [->|Hap]; [by apply Hk|]. simpl in Ea. pose proof (seg_min _ _ _ _ (Hs _ Hk1)).
      unfold MINBLOCKSIZE, sizeof_Free, sizeof_Btail, seg_apart in *. simpl in *. lia. }
  assert (dom m' = dom m) as D by apply O. exists m', t'. cbn zeta. split; [done|]. split; [|split].
  - constructor; [done..| |done|done|]; [|cbn [curfree set_curfree]; rewrite Hcf; cbn; unfold u32; zlia]. apply Forall_cons in Hs as [(G1 & G2 & G3 & G4 & _ & G5) Hs]. apply Forall_cons. split.
    + split; [done|]. split; [by eapply owned_dom|]. split; [done|]. split; [|done]. split; [done|]. split; [done|]. unfold MINBLOCKSIZE, sizeof_Free, sizeof_Btail in *. eapply tail_frame; [zlia| |done]. intros q Hq. apply (K (mkSeg b n KFree)); [left|simpl; lia|simpl; unfold sizeof_Free; lia].
    + eapply heap_rest; [exact Hs|done|done| |done|by rewrite Hf']. split; [done|]. intros s Hin'. apply K. by right.
  - split; [done|]. intros s Hin'. apply K. by right.
  - intros q Hq. apply (K (mkSeg b n KFree)); [left|simpl; lia|simpl; unfold sizeof_Free; lia].
Qed.
Lemma pooladd_heap p m t b n mg l : heap p m t (mkSeg b n (KRaw mg) :: l) ->
  exists m' t', let p' := set_curfree (curfree p ⊞ n) (set_freeroot (root t') p) in
    pooladd p m b = Ok (p', m') /\ heap p' m' t' (mkSeg b n KFree :: l) /\ keeps m m' l /\ same_words m m' (b + 24) (n - 24).
Proof.
  intros H. pose proof (heap_free_tree _ _ _ _ H) as Hft. pose proof (heap_elems _ _ _ _ H) as He. destruct H as [Hr Ht Hb Hs Ha Hf Hcf].
  pose proof Hs as ((G1 & G2 & G3 & (G4 & G5 & G6) & _) & Hsl)%Forall_cons. unfold MINBLOCKSIZE, sizeof_Free, sizeof_Btail in G3.
  assert (apart (mkSeg b n KFree :: l)) as Ha' by done. assert (free_of (mkSeg b n KFree :: l) = (b, n) :: free_of l) as Efree by done.
  assert (forall a k, mkSeg a k KFree ∈ mkSeg b n KFree :: l -> MINBLOCKSIZE <= k) as Hmin.
  { intros a k [[= -> ->]|Hin]%elem_of_cons; [unfold MINBLOCKSIZE, sizeof_Free, sizeof_Btail; lia|]. rewrite Forall_forall in Hsl. by eapply seg_min, Hsl. }
  assert (spaced (b :: elems t)) as Hsp by (eapply spaced_perm; [|by apply (free_spaced _ Ha' Hmin)]; by rewrite Efree, He).
  assert (room m b) as Hroom by (unfold room; rewrite !Forall_cons; split_and!; try apply G2; try done; zlia).
  destruct (pooladd_ok p m t b n Hft Hsp) as (m' & t' & E & T & B & P & O); [lia|done|done|].
  assert (forall s, s ∈ mkSeg b n KFree :: l -> forall q, addr s <= q < addr s + sz s -> (kd s = KFree -> addr s + sizeof_Free <= q) -> m' !! q = m !! q) as K.
  { assert (b :: elems t ≡ₚ (free_of (mkSeg b n KFree :: l)).*1) as He' by (by rewrite Efree, He).
    assert (forall s, s ∈ mkSeg b n KFree :: l -> 0 < sz s) as Hpos.
    { intros s [->|Hin]%elem_of_cons; [simpl; lia|]. rewrite Forall_forall in Hsl. pose proof (Hsl s Hin) as Hat. destruct s. destruct Hat as (? & _). simpl. lia. }
    intros s Hs1 q Hq Hk. eapply (others_keeps _ _ _ _ O Ha'); [|exact Hs1|done|].
    - intros a ((? & k) & -> & Hk1%elem_free)%(proj1 (elem_of_Permutation_proper _ _ _ He'))%list_elem_of_fmap. eexists. split; [exact Hk1|]. split; [done|]. pose proof (Hmin _ _ Hk1). unfold MINBLOCKSIZE, sizeof_Btail in *. simpl. lia.
    - intros ((a & k) & Ea & Hk1%elem_free)%(proj1 (elem_of_Permutation_proper _ _ _ He'))%list_elem_of_fmap. destruct (apart_in _ _ _ Ha' Hs1 Hk1) as [->|Hap]; [by apply Hk|]. simpl in Ea. pose proof (Hmin _ _ Hk1).
      unfold MINBLOCKSIZE, sizeof_Free, sizeof_Btail, seg_apart in *. simpl in *. lia. }
  assert (dom m' = dom m) as D by apply O. assert (blocks t' ≡ₚ free_of (mkSeg b n KFree :: l)) as Hf' by (by rewrite P, Hf). exists m', t'. cbn zeta. split; [done|]. split; [|split].
  - constructor; [done..| |done|done|]; [|cbn [curfree set_curfree]; rewrite Hcf; cbn; unfold u32; zlia]. assert ((b, n) ∈ blocks t') as Hbin by (rewrite P; left). destruct (tree_in _ _ _ _ T Hbin) as (_ & F1 & F2 & _). apply Forall_cons. split.
    + split; [done|]. split; [by eapply owned_dom|]. split; [unfold MINBLOCKSIZE, sizeof_Free, sizeof_Btail; lia|]. split; [done|]. split; [done|]. eapply tail_frame; [zlia| |apply G6]. intros q Hq. apply (K (mkSeg b n KFree)); [left|simpl; lia|simpl; unfold sizeof_Free; lia].
    + eapply heap_rest; [exact Hsl|done|done| |done|rewrite Hf'; set_solver]. split; [done|]. intros s Hin'. apply K. by right.
  - split; [done|]. intros s Hin'. apply K. by right.
  - intros q Hq. apply (K (mkSeg b n KFree)); [left|simpl; lia|simpl; unfold sizeof_Free; lia].
Qed.

(** ** Blocks of the heap *)

Definition is_block (k : kind) : Prop := match k with KArena | KTail => False | _ => True end.
Definition magic_of (k : kind) : Z :=
  match k with KArena => ARENA_MAGIC | KTail => ARENATAIL_MAGIC | KFree => FREE_MAGIC | KRaw mg => mg | KAlloc _ => ALLOC_MAGIC end.
Lemma seg_magic p m a n k : seg_at p m (mkSeg a n k) -> m !! magic a = Some (magic_of k).
Proof. intros (_ & _ & Hk). destruct k; apply Hk. Qed.
Lemma seg_block p m a n k : seg_at p m (mkSeg a n k) -> is_block k -> MINBLOCKSIZE <= n /\ block_at m (magic_of k) a n.
Proof. intros (_ & _ & Hk) Hb. destruct k; try done; (split; apply Hk). Qed.
Lemma magic_free p m a n k : seg_at p m (mkSeg a n k) -> (magic_of k =? FREE_MAGIC) = bool_decide (k = KFree).
Proof. intros (_ & _ & Hk). destruct k as [| | |mg|]; [done..| |done]. destruct Hk as (_ & _ & Hk). by apply Z.eqb_neq. Qed.
(** The first step of the functions that take a block: it leaves the tree if it was free. *)
Lemma release_ok p m t a n k l : is_block k -> heap p m t (mkSeg a n k :: l) ->
  exists p' m' t' k', (if magic_of k =? FREE_MAGIC then pooldel p m a else Ok (p, m)) = Ok (p', m') /\ heap p' m' t' (mkSeg a n k' :: l) /\
    is_block k' /\ k' <> KFree /\ like p p' /\ keeps m m' l /\ same_words m m' (a + 24) (n - 24) /\ (k <> KFree -> k' = k /\ m' = m).
Proof.
  intros Hb H. rewrite (magic_free _ _ _ _ _ (heap_seg _ _ _ _ _ H ltac:(left))). destruct (bool_decide_reflect (k = KFree)) as [->|Hk].
  - destruct (pooldel_heap _ _ _ _ _ _ H) as (m' & t' & E & H' & K & S). eexists _, m', t', KUnalloc. by split_and!.
  - exists p, m, t, k. by destruct p; split_and!.
Qed.
(** The words that change when two blocks are glued. *)
Definition seam (a na b nb : Z) : list Z := [a; a + 4; b - 8; b - 4; b; b + 4; b + nb - 8; b + nb - 4].
Lemma glue_ok (p : pool) m a na b nb mga mgb : owned m a (na + nb) -> a mod 4 = 0 -> na mod 4 = 0 -> nb mod 4 = 0 -> b = a + na -> MINBLOCKSIZE <= na -> MINBLOCKSIZE <= nb -> a + na + nb <= 2 ^ 32 -> 0 < a ->
  block_at m mga a na -> block_at m mgb b nb ->
  exists m', (let* t := B2T m a in
  let* m := putw m (tsize t) Poison in
  let* m := putb m (magic0 t) NOT_MAGIC in
  let* m := putb m (magic1 t) NOT_MAGIC in
  let* m := PSHORT m (datasize t) NOT_MAGIC in
  let* sa := getw m (bsize a) in
  let* sb := getw m (bsize b) in
  let* m := putw m (bsize a) (sa ⊞ sb) in
  let* t := B2T m a in
  let* sa := getw m (bsize a) in
  let* m := putw m (tsize t) sa in
  let* m := PSHORT m (datasize t) 0xFFFF in
  let* m := putw m (bsize b) NOT_MAGIC in
  let* m := putw m (magic b) NOT_MAGIC in
  let* m := putw m (magic a) UNALLOC_MAGIC in
  Ok (p, m, a)) = Ok (p, m', a) /\ dom m' = dom m /\ block_at m' UNALLOC_MAGIC a (na + nb) /\ forall q, q ∉ seam a na b nb -> m' !! q = m !! q.
Proof.
  intros Ho Ha Hna Hnb -> Hma Hmb Hlim H0 (A1 & A2 & A3) (B1 & B2 & B3). unfold MINBLOCKSIZE, sizeof_Free, sizeof_Btail in *. set (b := a + na) in *. set (t := b - 8). set (e := b + nb - 8).
  assert (forall q, a <= q < a + na + nb -> q mod 4 = 0 -> is_Some (m !! q)) as Hw by (intros q Hq; apply Ho; lia).
  unfold B2T at 1. rewrite (get_some _ _ _ A2). cbn [rbind]. unfold sizeof_Btail. replace (a + na - 8) with t by (subst t b; lia). unfold tsize at 1.
  rewrite put_some by (apply Hw; subst t b; zlia). cbn [rbind]. set (m1 := <[_ := Poison]> m).
  assert (dom m1 = dom m) as D1 by (apply dom_insert_lookup_L, Hw; subst t b; zlia).
  assert (forall (m0 : words) q, dom m0 = dom m -> a <= q < a + na + nb -> q mod 4 = 0 -> is_Some (m0 !! q)) as Hw' by (intros m0 q D ? ?; rewrite <-elem_of_dom, D, elem_of_dom; by apply Hw).
  assert (magic0 t - magic0 t mod 4 = t /\ magic1 t - magic1 t mod 4 = t /\ datasize t - datasize t mod 4 = t /\ datasize t + 1 - (datasize t + 1) mod 4 = t) as (E0 & E1 & E2 & E3) by (unfold magic0, magic1, datasize; subst t b; zlia).
  assert (is_Some (m1 !! t)) as Ht1 by (apply Hw'; subst t b; zlia || done).
  destruct (putb_at m1 (magic0 t) NOT_MAGIC) as (m2 & -> & _ & D2 & F2 & _); [by rewrite E0|]. cbn [rbind]. rewrite E0 in F2.
  destruct (putb_at m2 (magic1 t) NOT_MAGIC) as (m3 & -> & _ & D3 & F3 & _); [by rewrite E1, <-elem_of_dom, D2, elem_of_dom|]. cbn [rbind]. rewrite E1 in F3.
  assert (is_Some (m3 !! t)) as Ht3 by (by rewrite <-elem_of_dom, D3, D2, elem_of_dom).
  destruct (PSHORT_ok m3 (datasize t) NOT_MAGIC) as (m4 & -> & _ & D4 & F4 & _); [by rewrite E2|by rewrite E3|]. cbn [rbind]. rewrite E2, E3 in F4.
  assert (forall q, q <> t -> q <> t + 4 -> m4 !! q = m !! q) as F by (intros q Q1 Q2; rewrite F4, F3, F2 by done; subst m1; by rewrite lookup_insert_ne by done).
  assert (dom m4 = dom m) as D by congruence. clear E0 E1 E2 E3 F2 F3 F4 D2 D3 D4 Ht3 Ht1 m2 m3. clearbody m1. clear D1 m1. fields.
  rewrite (get_some m4 (a + 4) na) by (rewrite F; [done|subst t b; lia..]). cbn [rbind]. rewrite (get_some m4 (b + 4) nb) by (rewrite F; [done|subst t b; lia..]). cbn [rbind].
  rewrite put_some by (apply Hw'; [done|lia|zlia]). cbn [rbind]. unfold B2T. fields. rewrite u32_small by (unfold_words; lia). set (m5 := <[_ := na + nb]> m4).
  assert (m5 !! (a + 4) = Some (na + nb)) as G5 by apply lookup_insert_eq. assert (dom m5 = dom m) as D5 by (rewrite <-D; apply dom_insert_lookup_L; apply Hw'; [done|lia|zlia]).
  rewrite !(get_some _ _ _ G5). cbn [rbind]. unfold sizeof_Btail. replace (a + (na + nb) - 8) with e by (subst e b; lia). unfold tsize.
  rewrite put_some by (apply Hw'; [done|subst e b; lia|subst e b; zlia]). cbn [rbind]. set (m6 := <[e + 4 := _]> m5).
  assert (dom m6 = dom m) as D6 by (rewrite <-D5; apply dom_insert_lookup_L; apply Hw'; [done|subst e b; lia|subst e b; zlia]).
  assert (datasize e - datasize e mod 4 = e /\ datasize e + 1 - (datasize e + 1) mod 4 = e) as (E2 & E3) by (unfold datasize; subst e b; zlia).
  assert (is_Some (m6 !! e)) as He6 by (apply Hw'; subst e b; zlia || done).
  destruct (PSHORT_ok m6 (datasize e) 0xFFFF) as (m7 & -> & _ & D7 & F7 & S7); [by rewrite E2|by rewrite E3|]. cbn [rbind]. rewrite E2, E3 in F7.
  assert (dom m7 = dom m) as D7' by congruence.
  rewrite put_some by (apply Hw'; [done|subst b; lia|subst b; zlia]). cbn [rbind]. rewrite put_some by (apply insert_some, Hw'; [done|subst b; lia|subst b; zlia]). cbn [rbind].
  rewrite put_some by (apply insert_some, insert_some, Hw'; [done|lia|zlia]). cbn [rbind]. set (m8 := <[a := _]> _). exists m8. split; [done|].
  assert (forall q, q <> a -> q <> b -> q <> b + 4 -> m8 !! q = m7 !! q) as F8 by (intros q Q1 Q2 Q3; subst m8; by rewrite !lookup_insert_ne by congruence).
  split; [|split].
  - subst m8. rewrite !dom_insert_lookup_L; [done|apply Hw'; [done|subst b; lia|subst b; zlia]|apply insert_some, Hw'; [done|subst b; lia|subst b; zlia]|apply insert_some, insert_some, Hw'; [done|lia|zlia]].
  - assert (forall x, e <= x < e + 4 -> x <> datasize e -> x <> datasize e + 1 -> byte_at m8 x = byte_at m x) as Hbytes.
    { intros x Hx Q1 Q2. rewrite (bytes_same_in m7 m8 e 4 x) by (first [zlia|subst e b; zlia|intros q Hq; apply F8; subst e b; lia]). rewrite S7 by done.
      apply (bytes_same_in m m6 e 4 x); [subst e b; zlia|done| |done]. intros q Hq. subst m6 m5. rewrite !lookup_insert_ne by (subst e b; lia). apply F; subst t e b; lia. }
    unfold block_at, tail_at. fields. replace (a + (na + nb) - 8) with e by (subst e b; lia). destruct B3 as (B3 & B4 & B5). fold e in B3, B4, B5. split_and!.
    + subst m8. apply lookup_insert_eq.
    + rewrite F8, F7 by (subst e b; lia). subst m6. rewrite lookup_insert_ne by (subst e b; lia). done.
    + unfold tsize. rewrite F8, F7 by (subst e b; lia). subst m6. apply lookup_insert_eq.
    + rewrite Hbytes; [done|unfold magic0, datasize; lia..].
    + rewrite Hbytes; [done|unfold magic1, datasize; lia..].
  - intros q Hq. unfold seam in Hq. rewrite !not_elem_of_cons in Hq. rewrite F8, F7 by (subst e; tauto). subst m6 m5. rewrite !lookup_insert_ne by (subst e; lia || tauto). apply F; subst t; [tauto|]. intros ->. apply Hq. lia.
Qed.
(** Changes of the segments in use, which leave the others alone. *)
Lemma heap_change p m m' t L L' l : heap p m t (L ++ l) -> free_of L = [] -> free_of L' = [] -> dom m' = dom m ->
  (forall s q, s ∈ l -> addr s <= q < addr s + sz s -> m' !! q = m !! q) -> Forall (seg_at p m') L' -> apart (L' ++ l) -> heap p m' t (L' ++ l).
Proof.
  intros H HL HL' D F Hs Ha. pose proof (heap_spaced _ _ _ _ H) as Hsp. pose proof (heap_elems _ _ _ _ H) as He. destruct H as [H1 H2 H3 H4 H5 H6 H7].
  rewrite free_app, HL in *. cbn [app] in *. apply Forall_app in H4 as [_ H4]. rewrite Forall_forall in H4.
  assert (tree_at m' t) as T.
  { eapply tree_frame; [|exact Hsp|exact H2]. intros a Hain q Hq. rewrite He in Hain. apply list_elem_of_fmap in Hain as ((? & n) & -> & Hin%elem_free). pose proof (seg_min _ _ _ _ (H4 _ Hin)). unfold MINBLOCKSIZE, sizeof_Btail, sizeof_Free in *.
    apply (F _ _ Hin). simpl in *. lia. }
  constructor; [done|done|done| |done| |]; [|by rewrite free_app, HL'|by rewrite free_app, HL']. apply Forall_app. split; [done|]. eapply heap_rest; [|done|done| |exact T|by rewrite H6].
  - by apply Forall_forall.
  - split; [done|]. intros s Hin q Hq _. by eapply F.
Qed.
Lemma apart_merge a na ka b nb kb n k l : apart (mkSeg a na ka :: mkSeg b nb kb :: l) -> n = na + nb -> b = a + na -> 0 < na -> 0 < nb -> (forall s, s ∈ l -> 0 < sz s) -> apart (mkSeg a n k :: l).
Proof.
  cbn [apart]. rewrite Forall_cons, !Forall_forall. intros ((_ & H1) & H2 & H3) -> -> Hna Hnb Hpos. split; [|done]. intros s Hs. pose proof (H1 s Hs). pose proof (H2 s Hs). pose proof (Hpos s Hs). unfold seg_apart in *. simpl in *. lia.
Qed.
Lemma heap_pos p m t l s : heap p m t l -> s ∈ l -> 0 < sz s.
Proof. intros H Hs. pose proof (heap_seg _ _ _ _ _ H Hs) as Hat. destruct s. destruct Hat as (? & _). simpl. lia. Qed.
(** The data area of a block in use. *)
Definition inner_same (m m' : words) (s : seg) : Prop := kd s <> KFree -> same_words m m' (addr s + 8) (sz s - 16).
Lemma inner_trans m m' m'' s : inner_same m m' s -> inner_same m' m'' s -> inner_same m m'' s.
Proof. intros H1 H2 Hk q Hq. by rewrite (H2 Hk q Hq), (H1 Hk q Hq). Qed.
Lemma keeps_inner m m' s l : keeps m m' l -> s ∈ l -> inner_same m m' s.
Proof. intros [_ K] Hs Hk q Hq. apply (K s Hs); [lia|done]. Qed.
Lemma free_of_used s l : kd s <> KFree -> free_of (s :: l) = free_of l.
Proof. destruct s as [a n []]; done. Qed.
Lemma blockmerge_heap p m t a na ka b nb kb l : is_block ka -> is_block kb -> b = a + na -> heap p m t (mkSeg a na ka :: mkSeg b nb kb :: l) ->
  exists p' m' t', blockmerge p m a b = Ok (p', m', a) /\ heap p' m' t' (mkSeg a (na + nb) KUnalloc :: l) /\ like p p' /\ keeps m m' l /\
    inner_same m m' (mkSeg a na ka) /\ inner_same m m' (mkSeg b nb kb).
Proof.
  intros Ba Bb -> H. unfold blockmerge. pose proof (heap_seg _ _ _ _ _ H ltac:(left)) as Hat. destruct (seg_block _ _ _ _ _ Hat Ba) as (_ & _ & S1 & _).
  unfold B2NB. rewrite (get_some _ _ _ S1). cbn [rbind]. rewrite Z.eqb_refl. cbn [check rbind]. rewrite (get_some _ _ _ (seg_magic _ _ _ _ _ Hat)). cbn [rbind]. clear Hat S1.
  destruct (release_ok _ _ _ _ _ _ _ Ba H) as (p1 & m1 & t1 & ka' & -> & H1 & Ba' & Fa & L1 & K1 & _ & U1). cbn [rbind]. clear H.
  rewrite (get_some _ _ _ (seg_magic _ _ _ _ _ (heap_seg _ _ _ _ _ H1 ltac:(right; left)))). cbn [rbind].
  assert (heap p1 m1 t1 (mkSeg (a + na) nb kb :: mkSeg a na ka' :: l)) as H1' by (eapply heap_perm; [|exact H1]; solve_Permutation).
  destruct (release_ok _ _ _ _ _ _ _ Bb H1') as (p2 & m2 & t2 & kb' & -> & H2' & Bb' & Fb & L2 & K2 & _ & U2). cbn [rbind]. clear H1 H1'.
  assert (heap p2 m2 t2 ([mkSeg a na ka'; mkSeg (a + na) nb kb'] ++ l)) as H2 by (eapply heap_perm; [|exact H2']; solve_Permutation). clear H2'.
  pose proof (heap_seg _ _ _ _ _ H2 ltac:(left)) as Sa. pose proof (heap_seg _ _ _ _ _ H2 ltac:(right; left)) as Sb. destruct (seg_block _ _ _ _ _ Sa Ba') as (Ma & Ga). destruct (seg_block _ _ _ _ _ Sb Bb') as (Mb & Gb).
  destruct Sa as ((Qa1 & Qa2 & Qa3 & Qa4 & Qa5) & Oa & _). destruct Sb as ((Qb1 & Qb2 & Qb3 & Qb4 & Qb5) & Ob & _). pose proof (owned_app _ _ _ _ Oa Ob) as Oab.
  destruct (glue_ok p2 m2 a na (a + na) nb (magic_of ka') (magic_of kb') Oab Qa1 Qa2 Qb2 eq_refl Ma Mb) as (m3 & -> & D3 & G3 & F3); [lia|done|exact Ga|exact Gb|].
  assert (forall q, q ∈ seam a na (a + na) nb -> a <= q < a + 8 \/ a + na - 8 <= q < a + na + 8 \/ a + na + nb - 8 <= q < a + na + nb) as Hseam.
  { intros q. unfold seam. rewrite !elem_of_cons. intros Hq. repeat destruct Hq as [->|Hq]; try lia. by apply not_elem_of_nil in Hq. }
  unfold MINBLOCKSIZE, sizeof_Free, sizeof_Btail in Ma, Mb.
  assert (forall s q, s ∈ l -> addr s <= q < addr s + sz s -> m3 !! q = m2 !! q) as F3'.
  { intros s q Hs Hq. apply F3. intros Hin%Hseam. pose proof (hp_apart _ _ _ _ H2) as Hap. cbn [apart app] in Hap. rewrite Forall_cons, !Forall_forall in Hap. destruct Hap as ((_ & A1) & A2 & _).
    pose proof (A1 s Hs). pose proof (A2 s Hs). unfold seg_apart in *. simpl in *. lia. }
  assert (apart (mkSeg a (na + nb) KUnalloc :: l)) as Hap'.
  { eapply apart_merge; [apply (hp_apart _ _ _ _ H2)|done|done|done|done|]. intros s Hs. apply (heap_pos _ _ _ _ _ H2). by do 2 right. }
  exists p2, m3, t2. split; [done|]. split; [|split; [|split; [|split]]].
  - apply (heap_change _ _ _ _ _ [_] _ H2); [by rewrite !free_of_used|done|done|exact F3'| |exact Hap']. apply Forall_singleton. split; [split_and!; zlia|]. split; [by eapply owned_dom|]. split; [unfold MINBLOCKSIZE, sizeof_Free, sizeof_Btail; lia|]. by split.
  - by eapply like_trans.
  - eapply keeps_both; [eapply keeps_sub; [|exact K1]; intros; by right|]. eapply keeps_both; [eapply keeps_sub; [|exact K2]; intros; by right|]. split; [done|]. intros s Hs q Hq _. by eapply F3'.
  - intros Hk. cbn [kd] in Hk. destruct (U1 Hk) as [-> ->]. intros q Hq. cbn [addr sz] in Hq. rewrite F3 by (intros Hin%Hseam; lia). apply (proj2 K2 (mkSeg a na ka)); [left|simpl; lia|done].
  - intros Hk. cbn [kd] in Hk. destruct (U2 Hk) as [-> ->]. intros q Hq. cbn [addr sz] in Hq. rewrite F3 by (intros Hin%Hseam; lia). apply (proj2 K1 (mkSeg (a + na) nb kb)); [left|simpl; lia|done].
Qed.
