(* ===== verification/PoolAlloc.v ===== *)
(** * Allocating from the heap of a pool

    [trim], [poolallocl] and [poolfreel] on the heap: how they split and glue its blocks. *)
From stdpp Require Import gmap list sorting.
From S2P Require Import Prelude Memory Pool PoolWords PoolTree PoolFree PoolBlocks.

(** The quantum is a power of two, and the smallest sizes are reasonable. *)
Definition pool_ok (p : pool) : Prop := (exists k, 2 <= k <= 12 /\ quantum p = 2 ^ k) /\ 0 <= minblock p <= 2 ^ 12 /\ 0 <= minarena p < 2 ^ 31.

Lemma pow2_quantum k : 2 <= k -> exists j, 2 ^ k = 4 * j /\ 0 < j.
Proof. intros Hk. exists (2 ^ (k - 2)). split; [|by apply Z.pow_pos_nonneg; lia]. change 4 with (2 ^ 2). rewrite <-Z.pow_add_r by lia. f_equal. lia. Qed.
Lemma bsize_spec p d : pool_ok p -> 0 <= d < 2 ^ 31 ->
  let n := dsize2bsize p d in n mod 4 = 0 /\ n mod quantum p = 0 /\ d + 16 <= n /\ MINBLOCKSIZE <= n /\ n - d < 2 ^ 14 /\ minblock p <= n.
Proof.
  intros [(k & Hk & Eq) Hm] Hd. unfold dsize2bsize, sizeof_Bhdr, sizeof_Btail, MINBLOCKSIZE, sizeof_Free. change (24 + sizeof_Btail) with 32. cbn zeta.
  rewrite (u32_small (d + (8 + 8))) by (unfold_words; lia). set (x := if _ <? 32 then _ else _). assert (d + 16 <= x /\ 32 <= x /\ x <= d + 4112 /\ minblock p <= x) as Hx.
  { subst x. destruct (Z.ltb_spec (d + (8 + 8)) (minblock p)); [destruct (Z.ltb_spec (minblock p) 32)|destruct (Z.ltb_spec (d + (8 + 8)) 32)]; lia. }
  clearbody x. destruct (pow2_quantum k (proj1 Hk)) as (j & Ej & Hj). assert (2 ^ k <= 2 ^ 12) as Hq by (apply Z.pow_le_mono_r; lia). rewrite Eq. unfold round_down.
  rewrite (u32_small (x + 2 ^ k)) by (unfold_words; lia). rewrite u32_small by (unfold_words; lia). rewrite land_clear_word by (unfold_words; lia).
  set (q := 2 ^ k) in *. clearbody q. pose proof (Z.mod_pos_bound (x + q - 1) q ltac:(lia)) as Hmod. pose proof (Z.div_mod (x + q - 1) q ltac:(lia)) as Hdiv.
  set (r := (x + q - 1) mod q) in *. set (c := (x + q - 1) / q) in *. clearbody r c. assert (x + q - 1 - r = q * c) as E by lia. rewrite E. split_and!; try lia.
  - rewrite Ej, <-Z.mul_assoc, Z.mul_comm. apply Z_mod_mult.
  - rewrite Z.mul_comm. apply Z_mod_mult.
Qed.
(** The end of [trim]: the block is given out for [d] bytes. *)
Lemma finish_trim p m t b n k d l : pool_ok p -> 0 <= d < 2 ^ 31 -> is_block k -> k <> KFree -> dsize2bsize p d <= n -> n - d < 65536 -> heap p m t (mkSeg b n k :: l) ->
  exists m', (let* m := putw m (magic b) ALLOC_MAGIC in blocksetdsize p m b d) = Ok m' /\ heap p m' t (mkSeg b n (KAlloc d) :: l) /\ keeps m m' l /\
    bytes_same m m' (fun x => b + 8 <= x < b + 8 + d).
Proof.
  intros Hp Hd Hb Hk Hfit Hsh H. pose proof (bsize_spec p d Hp Hd) as (B1 & _ & B3 & B4 & _). unfold MINBLOCKSIZE, sizeof_Free, sizeof_Btail in B4.
  pose proof (heap_seg _ _ _ _ _ H ltac:(left)) as Hs. destruct (seg_block _ _ _ _ _ Hs Hb) as (_ & G1 & G2 & G3). destruct Hs as ((Q1 & Q2 & Q3 & Q4 & Q5) & Ho & _).
  rewrite put_some by (by eexists). cbn [rbind]. set (m1 := <[magic b := ALLOC_MAGIC]> m). assert (dom m1 = dom m) as D1 by (apply dom_insert_lookup_L; by eexists).
  assert (m1 !! bsize b = Some n) as G2' by (subst m1; fields; by look). destruct (blocksetdsize_ok p m1 b n d) as (m2 & E & D & D2 & F2 & S2); [done|done|lia|by eapply owned_dom|done|lia|lia|done|done|].
  exists m2. split; [done|]. assert (dom m2 = dom m) as D3 by congruence. assert (forall q, q < b \/ b + n <= q -> m2 !! q = m !! q) as F by (intros q Hq; rewrite F2 by lia; subst m1; fields; by look).
  assert (forall s q, s ∈ l -> addr s <= q < addr s + sz s -> m2 !! q = m !! q) as Fl.
  { intros s q Hs Hq. apply F. pose proof (hp_apart _ _ _ _ H) as [Ha _]. rewrite Forall_forall in Ha. pose proof (Ha s Hs). unfold seg_apart in *. simpl in *. lia. }
  split; [|split].
  - apply (heap_change p m m2 t [mkSeg b n k] [_] l H); [by rewrite free_of_used|done|done|done| |apply (hp_apart _ _ _ _ H)]. apply Forall_singleton. split; [done|]. split; [by eapply owned_dom|].
    split; [unfold MINBLOCKSIZE, sizeof_Free, sizeof_Btail; lia|]. split; [|split; [done|lia]]. destruct G3 as (T1 & T2 & T3).
    assert (forall x, x = magic0 (b + n - 8) \/ x = magic1 (b + n - 8) -> byte_at m2 x = byte_at m x) as Hx.
    { intros x Hx. rewrite S2; [|unfold magic0, magic1 in *; lia]. subst m1. apply put_bytes; fields; unfold magic0, magic1 in *; lia. }
    split; [|split; [|split; [|split]]].
    + fields. rewrite F2 by lia. apply lookup_insert_eq.
    + fields. rewrite F2 by lia. done.
    + unfold tsize in *. rewrite F2 by lia. subst m1. fields. by look.
    + rewrite Hx; auto.
    + rewrite Hx; auto.
  - split; [done|]. intros s Hs q Hq _. by eapply Fl.
  - apply (bytes_same_trans m m1 m2).
    + eapply bytes_same_weaken; cycle 1; [by apply put_bytes|]. intros x Hx. simpl in *. fields. lia.
    + eapply bytes_same_weaken; cycle 1; [exact S2|]. intros x Hx. simpl in *. lia.
Qed.
(** The block is cut in two. *)
Lemma apart_split a n k n1 k1 k2 l : apart (mkSeg a n k :: l) -> 0 < n1 < n -> apart (mkSeg a n1 k1 :: mkSeg (a + n1) (n - n1) k2 :: l).
Proof.
  cbn [apart]. rewrite Forall_cons, !Forall_forall. intros [H1 H2] Hn. split_and!; [unfold seg_apart; simpl; lia|..|done]; intros s Hs; pose proof (H1 s Hs); unfold seg_apart in *; simpl in *; lia.
Qed.
Lemma cut_ok p m t b n k n1 l : is_block k -> k <> KFree -> n1 mod 4 = 0 -> MINBLOCKSIZE <= n1 -> MINBLOCKSIZE <= n - n1 -> heap p m t (mkSeg b n k :: l) ->
  exists m' , (let* m := blocksetsize m b n1 in let* frag := B2NB m b in let* m := putw m (magic frag) UNALLOC_MAGIC in let* m := blocksetsize m frag (n - n1) in pooladd p m frag) =
      pooladd p m' (b + n1) /\ heap p m' t (mkSeg (b + n1) (n - n1) KUnalloc :: mkSeg b n1 (KRaw (magic_of k)) :: l) /\ keeps m m' l /\ same_words m m' (b + 8) (n1 - 16).
Proof.
  intros Hb Hk Hn1 Hm1 Hm2 H. unfold MINBLOCKSIZE, sizeof_Free, sizeof_Btail in *. pose proof (heap_seg _ _ _ _ _ H ltac:(left)) as Hs.
  pose proof (magic_free _ _ _ _ _ Hs) as Hmg. rewrite bool_decide_eq_false_2, Z.eqb_neq in Hmg by done. destruct (seg_block _ _ _ _ _ Hs Hb) as (_ & G1 & G2 & G3). destruct Hs as ((Q1 & Q2 & Q3 & Q4 & Q5) & Ho & _).
  assert (owned m b n1) as Hob by (eapply owned_sub; [exact Ho|lia|lia]).
  destruct (blocksetsize_ok m b n1 _ Q1 Hn1 ltac:(lia) Hob G1 Hmg) as (m1 & -> & B1 & D1 & F1). cbn [rbind]. unfold B2NB.
  destruct B1 as (B1 & B2 & B3). rewrite (get_some _ _ _ B2). cbn [rbind]. set (f := b + n1). assert (owned m1 f (n - n1)) as Ho1 by (eapply owned_dom; [done|]; eapply owned_sub; [exact Ho|subst f; lia..]).
  assert (is_Some (m1 !! magic f)) as Hf by (apply Ho1; unfold magic; subst f; zlia). rewrite put_some by done. cbn [rbind]. set (m2 := <[magic f := _]> m1). assert (dom m2 = dom m1) as D2 by (by apply dom_insert_lookup_L).
  destruct (blocksetsize_ok m2 f (n - n1) UNALLOC_MAGIC) as (m3 & -> & B4 & D3 & F3); [subst f; zlia|zlia|lia|by eapply owned_dom|apply lookup_insert_eq|done|]. cbn [rbind].
  assert (dom m3 = dom m) as D by congruence. assert (forall q, f <= q -> f + (n - n1) = b + n) as E by (intros; subst f; lia).
  assert (forall q, q < f \/ b + n <= q -> m3 !! q = m1 !! q) as F3' by (intros q Hq; rewrite F3 by (subst f; lia); subst m2; apply lookup_insert_ne; unfold magic; subst f; lia).
  assert (forall q, q < b \/ b + n <= q -> m3 !! q = m !! q) as F by (intros q Hq; rewrite F3', F1 by (subst f; lia); done).
  assert (forall s q, s ∈ l -> addr s <= q < addr s + sz s -> m3 !! q = m !! q) as Fl.
  { intros s q Hs Hq. apply F. pose proof (hp_apart _ _ _ _ H) as [Ha _]. rewrite Forall_forall in Ha. pose proof (Ha s Hs). unfold seg_apart in *. simpl in *. lia. }
  exists m3. split; [done|]. split; [|split].
  - eapply heap_perm; [apply Permutation_swap|]. apply (heap_change p m m3 t [mkSeg b n k] [_; _] l H); [by rewrite free_of_used|by rewrite !free_of_used|done|done| |].
    + rewrite !Forall_cons. split_and!; [| |done].
      * split; [lia|]. split; [eapply owned_dom; [exact D|]; eapply owned_sub; [exact Ho|lia..]|]. split; [done|]. split; [|done].
        eapply block_frame; [exact Q1|exact Hn1| |by split_and!]. intros q Hq. apply F3'. subst f; lia.
      * split; [subst f; zlia|]. split; [eapply owned_dom; [exact D|]; eapply owned_sub; [exact Ho|subst f; lia..]|]. by split_and!.
    + cbn [app]. eapply apart_split; [exact (hp_apart _ _ _ _ H)|lia].
  - split; [done|]. intros s Hs q Hq _. by eapply Fl.
  - intros q Hq. rewrite F3', F1 by (subst f; lia). done.
Qed.
(** What is left of the block after the first part. *)
Definition leftover (b n n' : Z) : list seg := if n' =? n then [] else [mkSeg (b + n') (n - n') KFree].
Lemma trim_heap p m t b n k d l : pool_ok p -> 0 <= d < 2 ^ 31 -> is_block k -> k <> KFree -> dsize2bsize p d <= n -> heap p m t (mkSeg b n k :: l) ->
  exists p' m' t' n', trim p m b d = Ok (p', m', b) /\ heap p' m' t' (mkSeg b n' (KAlloc d) :: leftover b n n' ++ l) /\ like p p' /\ keeps m m' l /\
    dsize2bsize p d <= n' <= n /\ bytes_same m m' (fun x => b + 8 <= x < b + 8 + d).
Proof.
  intros Hp Hd Hb Hk Hfit H. pose proof (bsize_spec p d Hp Hd) as (B1 & _ & B3 & B4 & B5 & _). pose proof (heap_seg _ _ _ _ _ H ltac:(left)) as Hs. destruct (seg_block _ _ _ _ _ Hs Hb) as (_ & _ & G2 & _).
  destruct Hs as ((Q1 & Q2 & Q3 & Q4 & Q5) & _). unfold trim. rewrite (get_some _ _ _ G2). cbn [rbind]. set (bs := dsize2bsize p d) in *. rewrite (u32_small (n - bs)), (u32_small (n - d)) by (unfold_words; unfold MINBLOCKSIZE, sizeof_Free, sizeof_Btail in *; lia).
  destruct (_ || _) eqn:Ec.
  - assert (MINBLOCKSIZE <= n - bs) as Hex.
    { apply orb_true_iff in Ec as [Ec|Ec]; [unfold MINBLOCKSIZE, sizeof_Free, sizeof_Btail in *; lia|]. rewrite !andb_true_iff in Ec. lia. }
    destruct (cut_ok p m t b n k bs l Hb Hk B1 B4 Hex H) as (m1 & -> & H1 & K1 & S1). destruct (pooladd_heap _ _ _ _ _ _ _ H1) as (m2 & t2 & E2 & H2 & K2 & _). cbn zeta in *. rewrite E2. cbn [rbind].
    set (p2 := set_curfree _ _) in *. assert (pool_ok p2) as Hp2 by done.
    assert (heap p2 m2 t2 (mkSeg b bs (KRaw (magic_of k)) :: leftover b n bs ++ l)) as H2'.
    { unfold leftover. destruct (Z.eqb_spec bs n); [unfold MINBLOCKSIZE, sizeof_Free, sizeof_Btail in *; lia|]. eapply heap_perm; [|exact H2]. solve_Permutation. }
    destruct (finish_trim p2 m2 t2 b bs (KRaw (magic_of k)) d _ Hp2 Hd ltac:(done) ltac:(done) ltac:(done) ltac:(lia) H2') as (m3 & E3 & H3 & K3 & S3).
    change (dsize2bsize p2 d) with bs in *. destruct (putw m2 (magic b) ALLOC_MAGIC) as [m2'| | |] eqn:Ep; try done. cbn [rbind] in *. rewrite E3. cbn [rbind].
    exists p2, m3, t2, bs. split; [done|]. split; [done|]. split; [done|]. split; [|split; [lia|]].
    + eapply keeps_both; [exact K1|]. eapply keeps_both; (eapply keeps_sub; [|eassumption]); intros s Hs; [by right|]. apply elem_of_app. by right.
    + unfold MINBLOCKSIZE, sizeof_Free, sizeof_Btail in *. apply (bytes_same_trans m m2 m3); [|exact S3]. intros x Hx. simpl in Hx.
      assert (m2 !! (x - x mod 4) = m1 !! (x - x mod 4)) as E.
      { apply (proj2 K2 (mkSeg b bs (KRaw (magic_of k)))); [left|simpl; zlia|done]. }
      unfold byte_at. rewrite E, (S1 (x - x mod 4)) by zlia. done.
  - apply orb_false_iff in Ec as [Ec _]. destruct (finish_trim p m t b n k d l Hp Hd Hb Hk Hfit ltac:(lia) H) as (m3 & E3 & H3 & K3 & S3).
    cbn [rbind]. destruct (putw m (magic b) ALLOC_MAGIC) as [m2'| | |] eqn:Ep; try done. cbn [rbind] in *. rewrite E3. cbn [rbind].
    exists p, m3, t, n. split; [done|]. unfold leftover. rewrite Z.eqb_refl. split; [done|]. split; [by destruct p|]. split; [done|]. split; [lia|done].
Qed.

(** ** Neighbours *)

(** The segments follow each other from [x] to [e]. *)
Fixpoint contig (x : Z) (l : list seg) (e : Z) : Prop := match l with [] => x = e | s :: l => addr s = x /\ contig (x + sz s) l e end.
Lemma contig_app x l1 l2 e : contig x (l1 ++ l2) e <-> exists y, contig x l1 y /\ contig y l2 e.
Proof.
  revert x. induction l1 as [|s l1 IH]; intros x; cbn [app contig].
  - split; [intros H; by exists x|by intros (y & -> & H)].
  - rewrite IH. split; [intros (H & y & H1 & H2); by exists y|by intros (y & (H & H1) & H2); split; [|exists y]].
Qed.
(** Only the end of an arena has no tail of its own. *)
Lemma seg_tail p m a n k : seg_at p m (mkSeg a n k) -> k <> KTail -> m !! (a + n - 4) = Some n.
Proof.
  intros (_ & _ & Hk) Ht. destruct k; try done; [apply Hk|..]; (assert (tail_at m (a + n - 8) n) as (H & _) by apply Hk; unfold tsize in H; by replace (a + n - 4) with (a + n - 8 + 4) by lia).
Qed.
Lemma seg_size p m a n k : seg_at p m (mkSeg a n k) -> k <> KTail -> m !! bsize a = Some n.
Proof. intros (_ & _ & Hk) Ht. destruct k; try done; [destruct Hk as (-> & ? & ? & ?); done|..]; (assert (m !! bsize a = Some n) as H by apply Hk; done). Qed.
Lemma heap_raw p m t a n k l : is_block k -> k <> KFree -> heap p m t (mkSeg a n k :: l) -> heap p m t (mkSeg a n (KRaw (magic_of k)) :: l).
Proof.
  intros Hb Hk H. pose proof (heap_seg _ _ _ _ _ H ltac:(left)) as Hs. pose proof (magic_free _ _ _ _ _ Hs) as Hmg. rewrite bool_decide_eq_false_2, Z.eqb_neq in Hmg by done.
  destruct (seg_block _ _ _ _ _ Hs Hb) as (Hm & Hbl). apply (heap_change p m m t [mkSeg a n k] [_] l H); [by rewrite free_of_used|done|done|done| |exact (hp_apart _ _ _ _ H)].
  apply Forall_singleton. destruct Hs as (? & ? & _). split; [done|]. split; [done|]. by split.
Qed.
Definition all_free (l : list seg) : Prop := Forall (fun s => kd s = KFree) l.
(** A free block of the first list is in the second, or a larger one. *)
Definition covers (l l' : list seg) : Prop := forall b n, mkSeg b n KFree ∈ l -> exists b' n', mkSeg b' n' KFree ∈ l' /\ n <= n'.
(** The block beside another, if there is one, is not free. *)
Definition used (o : option seg) : Prop := match o with Some s => kd s <> KFree | None => True end.
(** The test and the merge with the block after it. *)
Lemma merge_next p m t l1 a na ka l2 l x e : is_block ka -> ka <> KFree -> l2 <> [] -> contig x (l1 ++ mkSeg a na ka :: l2) e -> heap p m t (l1 ++ mkSeg a na ka :: l2 ++ l) ->
  exists p' m' t' f2 l2' n' k', (let* fwd := B2NB m a in let* mg := getw m (magic fwd) in if mg =? FREE_MAGIC then blockmerge p m a fwd else Ok (p, m, a)) = Ok (p', m', a) /\
    l2 = f2 ++ l2' /\ all_free f2 /\ (length f2 <= 1)%nat /\ heap p' m' t' (l1 ++ mkSeg a n' k' :: l2' ++ l) /\ contig x (l1 ++ mkSeg a n' k' :: l2') e /\ is_block k' /\ k' <> KFree /\ (k' = KUnalloc \/ k' = ka) /\ na <= n' /\
    like p p' /\ keeps m m' (l1 ++ l2' ++ l) /\ inner_same m m' (mkSeg a na ka) /\ (f2 = [] -> used (head l2')).
Proof.
  intros Hb Hk Hne Hc H. destruct l2 as [|[b nb kb] l2]; [done|]. pose proof Hc as (y & C1 & <- & C2 & C3)%contig_app. cbn [addr sz contig] in C2, C3.
  assert (heap p m t (mkSeg a na ka :: mkSeg b nb kb :: l1 ++ l2 ++ l)) as H1 by (eapply heap_perm; [|exact H]; solve_Permutation).
  pose proof (heap_seg _ _ _ _ _ H1 ltac:(left)) as Sa. pose proof (heap_seg _ _ _ _ _ H1 ltac:(right; left)) as Sb.
  unfold B2NB. rewrite (get_some _ _ _ (seg_size _ _ _ _ _ Sa ltac:(by destruct ka))). cbn [rbind]. rewrite <-C2, (get_some _ _ _ (seg_magic _ _ _ _ _ Sb)). cbn [rbind]. rewrite (magic_free _ _ _ _ _ Sb).
  destruct (bool_decide_reflect (kb = KFree)) as [->|Hkb].
  - destruct (blockmerge_heap _ _ _ _ _ _ _ _ _ _ Hb (I : is_block KFree) C2 H1) as (p' & m' & t' & E & H' & L & K & I1 & _). exists p', m', t', [mkSeg b nb KFree], l2, (na + nb), KUnalloc.
    split; [done|]. split; [done|]. split; [by apply Forall_singleton|]. split; [simpl; lia|]. split; [eapply heap_perm; [|exact H']; solve_Permutation|].
    split; [apply contig_app; exists a; split; [done|]; cbn [contig addr sz]; by rewrite Z.add_assoc|]. split; [done|]. split; [done|]. split; [by left|]. split; [destruct Sb as (? & _); lia|]. split; [done|]. split; [|done].
    eapply keeps_sub; [|exact K]. done.
  - exists p, m, t, [], (mkSeg b nb kb :: l2), na, ka. split; [done|]. split; [done|]. split; [by apply Forall_nil|]. split; [simpl; lia|]. split; [done|]. split; [done|]. split; [done|]. split; [done|]. split; [by right|]. split; [lia|]. split; [by destruct p|].
    split; [done|]. by split.
Qed.
(** The test and the merge with the block before it. *)
Lemma merge_prev p m t l1 a na ka l2 l x e : is_block ka -> ka <> KFree -> l1 <> [] -> Forall (fun s => kd s <> KTail) l1 -> contig x (l1 ++ mkSeg a na ka :: l2) e -> heap p m t (l1 ++ mkSeg a na ka :: l2 ++ l) ->
  exists p' m' t' f1 l1' a' n' k', (let* back := T2HDR m (B2PT a) in let* mg := getw m (magic back) in if mg =? FREE_MAGIC then blockmerge p m back a else Ok (p, m, a)) = Ok (p', m', a') /\
    l1 = l1' ++ f1 /\ all_free f1 /\ (length f1 <= 1)%nat /\ heap p' m' t' (l1' ++ mkSeg a' n' k' :: l2 ++ l) /\ contig x (l1' ++ mkSeg a' n' k' :: l2) e /\ is_block k' /\ k' <> KFree /\ na <= n' /\
    like p p' /\ keeps m m' (l1' ++ l2 ++ l) /\ inner_same m m' (mkSeg a na ka) /\ (f1 = [] -> used (last l1')).
Proof.
  intros Hb Hk Hne Ht Hc H. destruct (exists_last Hne) as (l0 & [b nb kb] & ->). rewrite <-app_assoc in Hc, H. cbn [app] in Hc, H. pose proof Hc as (y & C1 & <- & C2 & C3)%contig_app. cbn [addr sz contig] in C2, C3.
  assert (heap p m t (mkSeg b nb kb :: mkSeg a na ka :: l0 ++ l2 ++ l)) as H1 by (eapply heap_perm; [|exact H]; solve_Permutation).
  pose proof (heap_seg _ _ _ _ _ H1 ltac:(left)) as Sb. pose proof (heap_seg _ _ _ _ _ H1 ltac:(right; left)) as Sa.
  assert (kb <> KTail) as Hbt by (rewrite Forall_app, Forall_singleton in Ht; by destruct Ht). pose proof (seg_tail _ _ _ _ _ Sb Hbt) as Tb.
  unfold T2HDR, B2PT, sizeof_Btail, tsize. rewrite (get_some m (a - 8 + 4) nb) by (rewrite <-Tb; f_equal; lia). cbn [rbind]. replace (a - 8 + 8 - nb) with b by lia.
  rewrite (get_some _ _ _ (seg_magic _ _ _ _ _ Sb)). cbn [rbind]. rewrite (magic_free _ _ _ _ _ Sb). destruct (bool_decide_reflect (kb = KFree)) as [->|Hkb].
  - destruct (blockmerge_heap _ _ _ _ _ _ _ _ _ _ (I : is_block KFree) Hb C2 H1) as (p' & m' & t' & E & H' & L & K & _ & I2). exists p', m', t', [mkSeg b nb KFree], l0, b, (nb + na), KUnalloc.
    split; [done|]. split; [done|]. split; [by apply Forall_singleton|]. split; [simpl; lia|]. split; [eapply heap_perm; [|exact H']; solve_Permutation|].
    split; [apply contig_app; exists b; split; [done|]; cbn [contig addr sz]; by rewrite Z.add_assoc|]. split; [done|]. split; [done|]. split; [destruct Sb as (? & _); lia|]. split; [done|]. split; [|done].
    eapply keeps_sub; [|exact K]. done.
  - exists p, m, t, [], (l0 ++ [mkSeg b nb kb]), a, na, ka. split; [done|]. split; [by rewrite app_nil_r|]. split; [by apply Forall_nil|]. split; [simpl; lia|]. rewrite <-!app_assoc. split; [done|]. split; [done|]. split; [done|]. split; [done|]. split; [lia|]. split; [by destruct p|].
    split; [done|]. split; [done|]. intros _. by rewrite last_snoc.
Qed.

(** ** Arenas *)

(** An arena: its address, its size, the blocks between its header and its tail. *)
Record arena := mkArena { base : Z; extent : Z; body : list seg }.
Definition layout (a : arena) : list seg := mkSeg (base a) sizeof_Arena KArena :: body a ++ [mkSeg (base a + extent a - 8) sizeof_Bhdr KTail].
Definition flat (l : list arena) : list seg := concat (map layout l).
Definition settled (s : seg) : Prop := match kd s with KFree | KAlloc _ => True | _ => False end.
Definition arena_at (m : words) (a : arena) : Prop :=
  contig (base a) (layout a) (base a + extent a) /\ body a <> [] /\ Forall settled (body a) /\ m !! asize (base a) = Some (extent a).
(** The address of the first arena of a list, which [d] continues. *)
Definition first (l : list arena) (d : Z) : Z := match l with [] => d | a :: _ => base a end.
(** The list of the arenas, by descending addresses, from [up] to [d]. *)
Fixpoint arena_list (m : words) (up : Z) (l : list arena) (d : Z) : Prop :=
  match l with
  | [] => True
  | a :: l => m !! aup (base a) = Some up /\ m !! down (base a) = Some (first l d) /\ first l d < base a /\ arena_list m (base a) l d
  end.
Record pool_at (p : pool) (m : words) (t : tree) (ars : list arena) : Prop := mkPoolAt {
  pa_ok : pool_ok p;
  pa_heap : heap p m t (flat ars);
  pa_arenas : Forall (arena_at m) ars;
  pa_first : arenalist p = first ars 0;
  pa_list : arena_list m 0 ars 0 }.
(** The data areas that callers have: address and size. *)
Definition allocs (ars : list arena) : list (Z * Z) := omap (fun s => match kd s with KAlloc d => Some (addr s + 8, d) | _ => None end) (flat ars).

Lemma flat_app l1 l2 : flat (l1 ++ l2) = flat l1 ++ flat l2.
Proof. unfold flat. by rewrite map_app, concat_app. Qed.
Lemma flat_cons a l : flat (a :: l) = layout a ++ flat l.
Proof. done. Qed.
Lemma flat_in l s : s ∈ flat l -> exists l1 a l2, l = l1 ++ a :: l2 /\ s ∈ layout a.
Proof.
  induction l as [|a l IH]; [by intros ?%not_elem_of_nil|]. rewrite flat_cons. intros [Hs|Hs]%elem_of_app; [by exists [], a, l|].
  destruct (IH Hs) as (l1 & a' & l2 & -> & H). by exists (a :: l1), a', l2.
Qed.
Lemma header_in l a : a ∈ l -> mkSeg (base a) sizeof_Arena KArena ∈ flat l.
Proof. intros (l1 & l2 & ->)%list_elem_of_split. rewrite flat_app, flat_cons. apply elem_of_app. right. left. Qed.
(** The list and the sizes are in the headers. *)
Definition headers_same (m m' : words) (l : list arena) : Prop := forall a, a ∈ l -> same_words m m' (base a) sizeof_Arena.
Lemma arena_list_frame m m' l l' d : map base l' = map base l -> (forall a, a ∈ l -> same_words m m' (base a + 8) 8) -> forall up, arena_list m up l d -> arena_list m' up l' d.
Proof.
  revert l'. induction l as [|a l IH]; intros [|a' l'] E H up; [done..|]. injection E as E1 E2. intros (H1 & H2 & H3 & H4). unfold same_words in H. fields.
  assert (first l' d = first l d) as Ef by (destruct l, l'; cbn in E2 |- *; congruence). cbn [arena_list]. rewrite Ef, E1. fields. rewrite !(H a) by (left || lia). split_and!; [done..|].
  apply IH; [done| |done]. intros x Hx q Hq. apply (H x); [by right|done].
Qed.
Lemma contig_body x l1 s1 s2 l2 e : addr s1 = addr s2 -> sz s1 = sz s2 -> contig x (l1 ++ s1 :: l2) e -> contig x (l1 ++ s2 :: l2) e.
Proof. rewrite !contig_app. intros E1 E2 (y & H1 & H2). exists y. split; [done|]. cbn [contig] in *. by rewrite <-E1, <-E2. Qed.
Lemma D2B_ok p m b n d : seg_at p m (mkSeg b n (KAlloc d)) -> D2B m (b + 8) = Ok b.
Proof.
  intros ((Q1 & Q2 & Q3 & _) & _ & _ & (H1 & H2 & _) & _). unfold D2B. replace (b + 8 - (b + 8) mod 4) with (b + 8) by zlia. unfold turns. cbn [skip_align]. fields.
  replace (b + 8 - 4) with (b + 4) by lia. rewrite (get_some _ _ _ H2). cbn [rbind]. unfold ALIGN_MAGIC. destruct (Z.eqb_spec n 0xA1F1D1C1) as [->|]; [zlia|]. cbn [rbind].
  unfold _D2B, sizeof_Bhdr. replace (b + 8 - 8) with b by lia. rewrite (get_some _ _ _ H1). done.
Qed.
Lemma seg_blockcheck p m b n d : seg_at p m (mkSeg b n (KAlloc d)) -> blockcheck p m b = Ok ().
Proof. intros ((Q1 & Q2 & Q3 & Q4 & Q5) & _ & G1 & G2 & G3 & G4 & G5 & G6 & G7). apply (blockcheck_alloc p m b n d); (done || lia). Qed.

(** ** Freeing *)

Fixpoint span (l : list seg) : Z := match l with [] => 0 | s :: l => sz s + span l end.
Lemma span_app l1 l2 : span (l1 ++ l2) = span l1 + span l2.
Proof. induction l1 as [|s l1 IH]; cbn [app span]; lia. Qed.
Lemma contig_span x l e : contig x l e -> e = x + span l.
Proof. revert x. induction l as [|s l IH]; intros x; cbn [contig span]; [lia|]. intros [_ H%IH]. lia. Qed.
Lemma joined_span x h l1 f1 s f2 l2 tl s' e : contig x ((h :: l1 ++ f1) ++ s :: (f2 ++ l2) ++ tl) e -> contig x ((h :: l1) ++ s' :: l2 ++ tl) e -> sz s' = span (f1 ++ s :: f2).
Proof. intros E1%contig_span E2%contig_span. rewrite !span_app in *. cbn [span] in *. rewrite !span_app in *. lia. Qed.
Lemma used_last h l : used (last (h :: l)) -> used (last l).
Proof. by destruct l. Qed.
(** The arena after some of its blocks have been replaced. *)
Definition with_body (a : arena) (l : list seg) : arena := mkArena (base a) (extent a) l.
(** The block at [b] has become free: it and the free blocks [f1] before it and [f2] after it, if there are some, are one block, which has no free block beside it
    unless that was beside one of those. *)
Definition freed (ars : list arena) (b n d : Z) (ars' : list arena) : Prop :=
  exists A1 a A2 l1 f1 f2 l2 b' n', ars = A1 ++ a :: A2 /\ body a = l1 ++ f1 ++ mkSeg b n (KAlloc d) :: f2 ++ l2 /\ ars' = A1 ++ with_body a (l1 ++ mkSeg b' n' KFree :: l2) :: A2 /\
    all_free f1 /\ all_free f2 /\ (length f1 <= 1)%nat /\ (length f2 <= 1)%nat /\ n' = span (f1 ++ mkSeg b n (KAlloc d) :: f2) /\
    (f1 = [] -> used (last l1)) /\ (f2 = [] -> used (head l2)).
(** No two free blocks are beside each other. *)
Definition joined_blocks (l : list seg) : Prop := forall l1 s1 s2 l2, l = l1 ++ s1 :: s2 :: l2 -> kd s1 = KFree -> kd s2 <> KFree.
Definition joined (ars : list arena) : Prop := Forall (fun a => joined_blocks (body a)) ars.
(** The same, by recursion. *)
Fixpoint parted (l : list seg) : Prop := match l with [] => True | s :: l => (kd s = KFree -> used (head l)) /\ parted l end.
Lemma parted_joined l : parted l <-> joined_blocks l.
Proof.
  split.
  - intros H l1. revert l H. induction l1 as [|s l1 IH]; intros l H s1 s2 l2 ->; [exact (proj1 H)|]. exact (IH _ (proj2 H) _ _ _ eq_refl).
  - induction l as [|s l IH]; intros H; [done|]. split; [|apply IH; intros l1 s1 s2 l2 ->; exact (H (s :: l1) s1 s2 l2 eq_refl)]. intros Hs. destruct l as [|s2 l]; [done|]. exact (H [] s s2 l eq_refl Hs).
Qed.
Lemma parted_app l1 l2 : parted (l1 ++ l2) <-> parted l1 /\ parted l2 /\ (used (last l1) \/ used (head l2)).
Proof.
  induction l1 as [|s l1 IH]; cbn [app parted last head used]; [tauto|]. rewrite IH. destruct l1 as [|s' l1]; cbn [app head].
  - cbn [parted last head used]. destruct (decide (kd s = KFree)); tauto.
  - change (last (s :: s' :: l1)) with (last (s' :: l1)). tauto.
Qed.
Lemma freed_joined ars b n d ars' : freed ars b n d ars' -> joined ars -> joined ars'.
Proof.
  intros (A1 & a & A2 & l1 & f1 & f2 & l2 & b' & n' & -> & Eb & -> & F1 & F2 & L1 & L2 & _ & U1 & U2). unfold joined. rewrite !Forall_app, !Forall_cons. intros (H1 & H & H2). split; [done|]. split; [|done].
  cbn [with_body body]. apply parted_joined. apply parted_joined in H. rewrite Eb in H. apply parted_app in H. destruct H as (P1 & H & J1). apply parted_app, proj2, proj1, proj2, parted_app in H. destruct H as (_ & P2 & J2).
  assert (used (last l1)) as V1 by (destruct f1 as [|s [|]]; [by apply U1| |simpl in L1; lia]; apply Forall_inv in F1; destruct J1 as [J1|J1]; [done|by destruct J1]).
  assert (used (head l2)) as V2 by (destruct f2 as [|s [|]]; [by apply U2| |simpl in L2; lia]; apply Forall_inv in F2; destruct J2 as [J2|J2]; [by destruct J2|done]).
  apply parted_app. split; [done|]. split; [|by left]. by split.
Qed.

Lemma heap_like p p' m t l : freeroot p' = freeroot p -> curfree p' = curfree p -> quantum p' = quantum p -> minblock p' = minblock p -> heap p m t l -> heap p' m t l.
Proof.
  intros E1 E2 E3 E4 [H1 H2 H3 H4 H5 H6 H7]. constructor; [congruence|done|done| |done|done|congruence]. eapply Forall_impl; [exact H4|]. intros [a n k] (Q1 & Q2 & Q3).
  split; [done|]. split; [done|]. destruct k; try done. unfold dsize2bsize. by rewrite E3, E4.
Qed.
Definition alloc_of (s : seg) : option (Z * Z) := match kd s with KAlloc d => Some (addr s + 8, d) | _ => None end.
Lemma allocs_free l : all_free l -> omap alloc_of l = [].
Proof. induction 1 as [|s l Hs _ IH]; [done|]. cbn. unfold alloc_of at 1. by rewrite Hs, IH. Qed.
Lemma alloc_in ars v d : (v, d) ∈ allocs ars <-> exists n, mkSeg (v - 8) n (KAlloc d) ∈ flat ars.
Proof.
  unfold allocs. rewrite list_elem_of_omap. split.
  - intros ([a n []] & Hs & E); simpl in E; try done. injection E as <- <-. exists n. by replace (a + 8 - 8) with a by lia.
  - intros (n & H). exists (mkSeg (v - 8) n (KAlloc d)). split; [done|]. simpl. do 2 f_equal. lia.
Qed.
Lemma keeps_data p m m' l b n d : keeps m m' l -> mkSeg b n (KAlloc d) ∈ l -> seg_at p m (mkSeg b n (KAlloc d)) -> bytes_same m m' (fun x => b + 8 <= x < b + 8 + d).
Proof.
  intros [_ K] Hin ((Q1 & Q2 & _) & _ & _ & _ & _ & G1 & G2 & _) x Hx. apply (bytes_same_in m m' b n); [done|done| |lia]. intros q Hq. apply (K _ Hin); [done|done].
Qed.
Lemma all_free_prefix s l f r : s :: l = r ++ f -> all_free f -> kd s <> KFree -> exists r', r = s :: r' /\ l = r' ++ f.
Proof.
  intros E Hf Hs. destruct r as [|s' r]; cbn [app] in E.
  - subst f. apply Forall_cons in Hf as [? _]. done.
  - injection E as <- ->. by exists r.
Qed.
Lemma all_free_suffix s l f r : l ++ [s] = f ++ r -> all_free f -> kd s <> KFree -> exists r', r = r' ++ [s] /\ l = f ++ r'.
Proof.
  intros E Hf Hs. destruct (exists_last (l := r)) as (r' & s' & ->).
  - intros ->. rewrite app_nil_r in E. subst f. apply Forall_app in Hf as [_ Hf]. apply Forall_inv in Hf. done.
  - rewrite app_assoc in E. apply app_inj_tail in E as [-> ->]. by exists r'.
Qed.
Lemma replace_arena p p' m m' t t' A1 a b A2 : pool_at p m t (A1 ++ a :: A2) -> heap p' m' t' (flat (A1 ++ with_body a b :: A2)) ->
  quantum p' = quantum p -> minblock p' = minblock p -> minarena p' = minarena p -> arenalist p' = arenalist p -> headers_same m m' (A1 ++ a :: A2) ->
  contig (base a) (layout (with_body a b)) (base a + extent a) -> b <> [] -> Forall settled b -> pool_at p' m' t' (A1 ++ with_body a b :: A2).
Proof.
  intros [P1 P2 P3 P4 P5] H Eq Em Emi Ea Hh Hc Hb Hs.
  assert (forall x, x ∈ A1 ++ a :: A2 -> m' !! asize (base x) = m !! asize (base x)) as Has by (intros x Hx; apply (Hh x Hx); unfold sizeof_Arena; fields; lia).
  constructor; [|done| | |].
  - destruct P1 as [(k & Hk & E) Hm]. split; [exists k; split; [done|congruence]|by rewrite Em, Emi].
  - apply Forall_app in P3 as [F1 F2]. apply Forall_cons in F2 as [F2 F3]. apply Forall_app. split; [|apply Forall_cons; split].
    + rewrite Forall_forall in F1 |- *. intros x Hx. destruct (F1 x Hx) as (? & ? & ? & ?). split_and!; try done. by rewrite Has by (apply elem_of_app; by left).
    + split_and!; [done..|]. cbn [base extent with_body]. rewrite (Has a) by (apply elem_of_app; right; left). apply F2.
    + rewrite Forall_forall in F3 |- *. intros x Hx. destruct (F3 x Hx) as (? & ? & ? & ?). split_and!; try done. by rewrite Has by (apply elem_of_app; right; by right).
  - rewrite Ea, P4. by destruct A1.
  - eapply arena_list_frame; [|intros x Hx q Hq; apply (Hh x Hx); unfold sizeof_Arena; lia|exact P5]. by rewrite !map_app.
Qed.
(** The heart of [poolfreel]: the block joins its free neighbours and goes to the tree. *)
Lemma free_core p m t l1 b n k l2 l x e : is_block k -> k <> KFree -> l1 <> [] -> l2 <> [] -> Forall (fun s => kd s <> KTail) l1 -> contig x (l1 ++ mkSeg b n k :: l2) e -> heap p m t (l1 ++ mkSeg b n k :: l2 ++ l) ->
  exists p' m' t' f1 l1' b' n' l2' f2, (let* back := T2HDR m (B2PT b) in
      let* mg := getw m (magic back) in
      let* (p, m, ab) := if mg =? FREE_MAGIC then blockmerge p m back b else Ok (p, m, b) in
      let* fwd := B2NB m ab in
      let* mg := getw m (magic fwd) in
      let* (p, m, ab) := if mg =? FREE_MAGIC then blockmerge p m ab fwd else Ok (p, m, ab) in
      pooladd p m ab) = Ok (p', m') /\
    l1 = l1' ++ f1 /\ all_free f1 /\ l2 = f2 ++ l2' /\ all_free f2 /\ (length f1 <= 1 /\ length f2 <= 1)%nat /\ heap p' m' t' (l1' ++ mkSeg b' n' KFree :: l2' ++ l) /\ contig x (l1' ++ mkSeg b' n' KFree :: l2') e /\
    like p p' /\ keeps m m' (l1' ++ l2' ++ l) /\ n <= n' /\ (f1 = [] -> used (last l1')) /\ (f2 = [] -> used (head l2')).
Proof.
  intros Hb Hk N1 N2 Ht Hc H. destruct (merge_prev p m t l1 b n k l2 l x e Hb Hk N1 Ht Hc H) as (p1 & m1 & t1 & f1 & l1' & b' & n1 & k1 & E1 & -> & Ef1 & Lf1 & H1 & C1 & B1 & K1 & G1 & L1 & P1 & _ & U1).
  destruct (T2HDR m (B2PT b)) as [back| | |]; cbn [rbind] in *; try done. destruct (getw m (magic back)) as [mg| | |]; cbn [rbind] in *; try done. rewrite E1. cbn [rbind]. clear E1.
  destruct (merge_next p1 m1 t1 l1' b' n1 k1 l2 l x e B1 K1 N2 C1 H1) as (p2 & m2 & t2 & f2 & l2' & n2 & k2 & E2 & -> & Ef2 & Lf2 & H2 & C2 & B2 & K2 & _ & G2 & L2 & P2 & _ & U2).
  destruct (B2NB m1 b') as [fwd| | |]; cbn [rbind] in *; try done. destruct (getw m1 (magic fwd)) as [mg2| | |]; cbn [rbind] in *; try done. rewrite E2. cbn [rbind]. clear E2.
  assert (heap p2 m2 t2 (mkSeg b' n2 k2 :: l1' ++ l2' ++ l)) as H3 by (eapply heap_perm; [|exact H2]; solve_Permutation). apply (heap_raw _ _ _ _ _ _ _ B2 K2) in H3.
  destruct (pooladd_heap _ _ _ _ _ _ _ H3) as (m3 & t3 & E3 & H4 & P3 & _). cbn zeta in *. eexists _, m3, t3, f1, l1', b', n2, l2', f2. split; [exact E3|]. split; [done|]. split; [done|]. split; [done|]. split; [done|]. split; [done|].
  split; [eapply heap_perm; [|exact H4]; solve_Permutation|]. split; [by eapply contig_body; [| |exact C2]|]. split; [by eapply like_trans, like_trans|]. split; [|split; [lia|by split]].
  eapply keeps_both; [|eapply keeps_both; [exact P2|exact P3]]. eapply keeps_sub; [|exact P1]. intros s. rewrite !elem_of_app. tauto.
Qed.
Lemma block_split ars b n d : mkSeg b n (KAlloc d) ∈ flat ars -> exists A1 a A2 b1 b2, ars = A1 ++ a :: A2 /\ body a = b1 ++ mkSeg b n (KAlloc d) :: b2.
Proof.
  intros (A1 & a & A2 & -> & Hs)%flat_in. unfold layout in Hs. apply elem_of_cons in Hs as [?|Hs]; [done|]. apply elem_of_app in Hs as [Hs|?%list_elem_of_singleton]; [|done].
  apply list_elem_of_split in Hs as (b1 & b2 & E). by exists A1, a, A2, b1, b2.
Qed.
Lemma flat_around A1 a A2 b1 s b2 : body a = b1 ++ s :: b2 ->
  flat (A1 ++ a :: A2) ≡ₚ (mkSeg (base a) sizeof_Arena KArena :: b1) ++ s :: (b2 ++ [mkSeg (base a + extent a - 8) sizeof_Bhdr KTail]) ++ flat A1 ++ flat A2.
Proof. intros E. rewrite flat_app, flat_cons. unfold layout. rewrite E. solve_Permutation. Qed.
Lemma layout_around a b1 s b2 : body a = b1 ++ s :: b2 ->
  layout a = (mkSeg (base a) sizeof_Arena KArena :: b1) ++ s :: (b2 ++ [mkSeg (base a + extent a - 8) sizeof_Bhdr KTail]).
Proof. intros E. unfold layout. rewrite E. cbn [app]. by rewrite <-!app_assoc. Qed.
Lemma keeps_headers m m' l ars : keeps m m' l -> (forall a, a ∈ ars -> mkSeg (base a) sizeof_Arena KArena ∈ l) -> headers_same m m' ars.
Proof. intros [_ K] H a Ha q Hq. by apply (K _ (H a Ha)). Qed.
Lemma settled_tail l : Forall settled l -> Forall (fun s => kd s <> KTail) l.
Proof. intros H. eapply Forall_impl; [exact H|]. intros [a n []]; done. Qed.
Lemma poolfreel_at p m t ars b n d v : pool_at p m t ars -> noreuse p = false -> mkSeg b n (KAlloc d) ∈ flat ars -> v <> 0 -> D2B m v = Ok b ->
  exists p' m' t' ars', poolfreel p m v = Ok (p', m') /\ pool_at p' m' t' ars' /\ allocs ars ≡ₚ (b + 8, d) :: allocs ars' /\
    like (set_curalloc (curalloc p ⊟ n) (set_nfree (nfree p ⊞ 1) p)) p' /\
    (forall v' d', (v', d') ∈ allocs ars' -> bytes_same m m' (fun x => v' <= x < v' + d')) /\ freed ars b n d ars'.
Proof.
  intros Hpa Hnr Hin Hv HD. pose proof (block_split _ _ _ _ Hin) as (A1 & a & A2 & b1 & b2 & -> & Eb). pose proof (flat_around A1 a A2 _ _ _ Eb) as Ef.
  pose proof Hpa as [P1 P2 P3 P4 P5]. pose proof (heap_seg _ _ _ _ _ P2 Hin) as Sb. pose proof (proj1 (Forall_app _ _ _) P3) as [_ [(Ca & Na & Sa & _) _]%Forall_cons].
  rewrite (layout_around _ _ _ _ Eb) in Ca. rewrite Eb in Sa. set (l1 := _ :: b1) in *. set (l2 := b2 ++ _) in *.
  unfold poolfreel. destruct (Z.eqb_spec v 0); [done|]. rewrite HD. cbn [rbind]. rewrite (seg_blockcheck _ _ _ _ _ Sb). cbn [rbind]. rewrite Hnr. rewrite (get_some _ _ _ (seg_size _ _ _ _ _ Sb ltac:(done))). cbn [rbind].
  set (p1 := set_curalloc _ _). assert (heap p1 m t (l1 ++ mkSeg b n (KAlloc d) :: l2 ++ flat A1 ++ flat A2)) as H1.
  { apply (heap_like p); [done..|]. eapply heap_perm; [exact Ef|exact P2]. }
  apply Forall_app in Sa as [Sb1 (_ & Sb2)%Forall_cons].
  destruct (free_core p1 m t l1 b n (KAlloc d) l2 (flat A1 ++ flat A2) (base a) (base a + extent a)) as (p' & m' & t' & f1 & l1' & b' & n' & l2' & f2 & E & E1 & F1 & E2 & F2 & (Lf1 & Lf2) & H2 & C2 & L2 & K2 & _ & U1 & U2); try done.
  { by destruct b2. }
  { constructor; [intros [=]|by apply settled_tail]. }
  destruct (all_free_prefix _ _ _ _ E1 F1 ltac:(done)) as (b1' & -> & ->). destruct (all_free_suffix _ _ _ _ E2 F2 ltac:(done)) as (b2' & -> & ->).
  set (body' := b1' ++ mkSeg b' n' KFree :: b2'). exists p', m', t', (A1 ++ with_body a body' :: A2). split; [exact E|].
  pose proof (flat_around A1 (with_body a body') A2 b1' (mkSeg b' n' KFree) b2' eq_refl) as Ef'. cbn [with_body base extent] in Ef'.
  assert (heap p' m' t' (flat (A1 ++ with_body a body' :: A2))) as H3 by (eapply heap_perm; [symmetry; exact Ef'|]; eapply heap_perm; [|exact H2]; solve_Permutation).
  apply Forall_app in Sb1 as [Sb1 _]. apply Forall_app in Sb2 as [_ Sb2].
  assert (headers_same m m' (A1 ++ a :: A2)) as Hh.
  { eapply keeps_headers; [exact K2|]. intros x Hx. apply elem_of_app in Hx as [Hx|Hx%elem_of_cons].
    - rewrite !elem_of_app. right. right. left. by apply header_in.
    - destruct Hx as [->|Hx]; [left|]. rewrite !elem_of_app. right. right. right. by apply header_in. }
  split; [|split; [|split; [|split]]].
  - eapply replace_arena; [exact Hpa|exact H3|by rewrite L2..|exact Hh| | |].
    + rewrite (layout_around (with_body a body') b1' (mkSeg b' n' KFree) b2' eq_refl). exact C2.
    + by destruct b1'.
    + apply Forall_app. split; [done|]. by apply Forall_cons.
  - unfold allocs. change (fun s => _) with alloc_of. rewrite Ef, Ef'. subst l1 l2. rewrite !omap_app. cbn [omap list_omap alloc_of kd addr]. rewrite !omap_app, (allocs_free _ F1), (allocs_free _ F2). cbn [app alloc_of kd omap list_omap]. solve_Permutation.
  - exact L2.
  - intros v' d' (nv & Hin')%alloc_in. pose proof (heap_seg _ _ _ _ _ H3 Hin') as Sv. rewrite Ef' in Hin'.
    assert (mkSeg (v' - 8) nv (KAlloc d') ∈ (mkSeg (base a) sizeof_Arena KArena :: b1') ++ (b2' ++ [mkSeg (base a + extent a - 8) sizeof_Bhdr KTail]) ++ flat A1 ++ flat A2) as Hk.
    { rewrite ?elem_of_app, ?elem_of_cons, ?elem_of_app, ?elem_of_cons in *. destruct Hin' as [?|[[=]|?]]; tauto. }
    assert (seg_at p m (mkSeg (v' - 8) nv (KAlloc d'))) as Sv'.
    { apply (heap_seg _ _ _ _ _ P2). rewrite Ef. subst l1 l2. rewrite ?elem_of_app, ?elem_of_cons, ?elem_of_app, ?elem_of_cons in *. tauto. }
    eapply bytes_same_weaken; [|eapply keeps_data; [exact K2|exact Hk|exact Sv']]. intros x Hx. simpl in *. lia.
  - exists A1, a, A2, b1', f1, f2, b2', b', n'. split; [done|]. split; [by rewrite Eb, <-!app_assoc|]. split; [done|]. split; [done|]. split; [done|]. split; [done|]. split; [done|].
    split; [|split].
    + exact (joined_span _ _ _ _ _ _ _ _ _ _ Ca C2).
    + intros Hf%U1%used_last. done.
    + intros Hf%U2. by destruct b2'.
Qed.

(** ** Taking a free block *)

Lemma block_free_split ars b n : mkSeg b n KFree ∈ flat ars -> exists A1 a A2 b1 b2, ars = A1 ++ a :: A2 /\ body a = b1 ++ mkSeg b n KFree :: b2.
Proof.
  intros (A1 & a & A2 & -> & Hs)%flat_in. unfold layout in Hs. apply elem_of_cons in Hs as [?|Hs]; [done|]. apply elem_of_app in Hs as [Hs|?%list_elem_of_singleton]; [|done].
  apply list_elem_of_split in Hs as (b1 & b2 & E). by exists A1, a, A2, b1, b2.
Qed.
Lemma contig_cut x l1 b n k n' k' l2 e : contig x (l1 ++ mkSeg b n k :: l2) e -> contig x (l1 ++ mkSeg b n' k' :: leftover b n n' ++ l2) e.
Proof.
  rewrite !contig_app. intros (y & H1 & <- & H2). cbn [addr sz] in *. exists b. split; [done|]. cbn [contig addr sz]. split; [done|]. unfold leftover. destruct (Z.eqb_spec n' n) as [->|Hn]; cbn [app contig addr sz]; [done|].
  split; [done|]. by replace (b + n' + (n - n')) with (b + n) by lia.
Qed.
(** What the other callers see. *)
Definition data_kept (m m' : words) (l : list (Z * Z)) : Prop := forall v d, (v, d) ∈ l -> bytes_same m m' (fun x => v <= x < v + d).
Lemma take_block p m t ars b n d : pool_at p m t ars -> (b, n) ∈ blocks t -> 0 <= d < 2 ^ 31 -> dsize2bsize p d <= n ->
  exists p1 m1 p' m' t' ars' n', pooldel p m b = Ok (p1, m1) /\ trim p1 m1 b d = Ok (p', m', b) /\ pool_at p' m' t' ars' /\ like p p' /\ seg_at p' m' (mkSeg b n' (KAlloc d)) /\
    dsize2bsize p d <= n' <= n /\ allocs ars' ≡ₚ (b + 8, d) :: allocs ars /\ data_kept m m' (allocs ars).
Proof.
  intros Hpa Hin Hd Hfit. pose proof Hpa as [P1 P2 P3 P4 P5]. assert (mkSeg b n KFree ∈ flat ars) as Hin' by (apply elem_free; by rewrite <-(hp_free _ _ _ _ P2)).
  pose proof (block_free_split _ _ _ Hin') as (A1 & a & A2 & b1 & b2 & -> & Eb). pose proof (flat_around A1 a A2 _ _ _ Eb) as Ef.
  assert (flat (A1 ++ a :: A2) ≡ₚ mkSeg b n KFree :: mkSeg (base a) sizeof_Arena KArena :: b1 ++ (b2 ++ [mkSeg (base a + extent a - 8) sizeof_Bhdr KTail]) ++ flat A1 ++ flat A2) as Ef1 by (rewrite Ef; solve_Permutation).
  pose proof (heap_perm _ _ _ _ _ Ef1 P2) as H1. set (l := mkSeg (base a) sizeof_Arena KArena :: b1 ++ (b2 ++ [mkSeg (base a + extent a - 8) sizeof_Bhdr KTail]) ++ flat A1 ++ flat A2) in *. destruct (pooldel_heap _ _ _ _ _ _ H1) as (m1 & t1 & E1 & H2 & K1 & _). cbn zeta in *.
  set (p1 := set_curfree _ _) in *. destruct (trim_heap p1 m1 t1 b n KUnalloc d l P1 Hd ltac:(done) ltac:(done) Hfit H2) as (p' & m' & t' & n' & E2 & H3 & L & K2 & Hn & _).
  set (body' := b1 ++ mkSeg b n' (KAlloc d) :: leftover b n n' ++ b2). exists p1, m1, p', m', t', (A1 ++ with_body a body' :: A2), n'. split; [done|]. split; [done|].
  pose proof (flat_around A1 (with_body a body') A2 b1 (mkSeg b n' (KAlloc d)) (leftover b n n' ++ b2) eq_refl) as Ef'. cbn [with_body base extent] in Ef'.
  assert (heap p' m' t' (flat (A1 ++ with_body a body' :: A2))) as H4 by (eapply heap_perm; [symmetry; exact Ef'|]; eapply heap_perm; [|exact H3]; subst l; solve_Permutation).
  assert (keeps m m' l) as K by (by eapply keeps_both). pose proof (proj1 (Forall_app _ _ _) P3) as [_ [(Ca & Na & Sa & _) _]%Forall_cons]. rewrite Eb in Sa. apply Forall_app in Sa as [Sb1 (_ & Sb2)%Forall_cons].
  assert (like p p') as Lp by (apply (like_trans p p1 p'); [done|exact L]).
  assert (headers_same m m' (A1 ++ a :: A2)) as Hh.
  { eapply keeps_headers; [exact K|]. intros x Hx. apply elem_of_app in Hx as [Hx|[->|Hx]%elem_of_cons]; [|left|]; subst l; right; rewrite !elem_of_app; [right; right; left|right; right; right]; by apply header_in. }
  split; [|split; [done|split; [|split; [done|split]]]].
  - eapply replace_arena; [exact Hpa|exact H4|by rewrite Lp..|exact Hh| |by destruct b1|].
    + rewrite (layout_around (with_body a body') b1 _ _ eq_refl). rewrite (layout_around _ _ _ _ Eb) in Ca. rewrite <-app_assoc. by eapply contig_cut.
    + apply Forall_app. split; [done|]. apply Forall_cons. split; [done|]. apply Forall_app. split; [|done]. unfold leftover. destruct (n' =? n); [by apply Forall_nil|by apply Forall_singleton].
  - apply (heap_seg _ _ _ _ _ H3). left.
  - unfold allocs. change (fun s => _) with alloc_of. rewrite Ef', Ef. rewrite !omap_app. cbn [omap list_omap alloc_of kd addr app]. rewrite !omap_app. assert (omap alloc_of (leftover b n n') = []) as -> by (unfold leftover; by destruct (n' =? n)).
    cbn [app]. solve_Permutation.
  - intros v' d' (nv & Hv)%alloc_in. pose proof (heap_seg _ _ _ _ _ P2 Hv) as Sv. rewrite Ef1 in Hv. apply elem_of_cons in Hv as [?|Hv]; [done|].
    eapply bytes_same_weaken; [|eapply keeps_data; [exact K|exact Hv|exact Sv]]. intros x Hx. simpl in *. lia.
Qed.
