(* ===== verification/PoolArena.v ===== *)
(** * New arenas

    [poolnewarena] and [arenamerge]: what the coarser allocator gives becomes an arena with one free block, which takes its place in the
    list and is glued to the arenas around it; and [poolallocl], which asks for a new arena when no free block is large enough. *)
From stdpp Require Import gmap list sorting.
From S2P Require Import Prelude Memory Pool PoolWords PoolTree PoolFree PoolBlocks PoolAlloc.

(** ** More memory *)

Section extend.
Context (m m' : words) (Hm : m ⊆ m').
Lemma ext q v : m !! q = Some v -> m' !! q = Some v.
Proof. intros H. by eapply lookup_weaken. Qed.
Lemma ext_some q : is_Some (m !! q) -> is_Some (m' !! q).
Proof. intros [v H]. exists v. by apply ext. Qed.
Lemma ext_byte a b : byte_at m a = Some b -> byte_at m' a = Some b.
Proof. unfold byte_at. destruct (m !! (a - a mod 4)) as [w|] eqn:E; [|done]. by rewrite (ext _ _ E). Qed.
Lemma ext_chain l : chain m l -> chain m' l.
Proof. induction l as [|x l IH]; [done|]. destruct l as [|y l]; [done|]. intros (H1 & H2 & H3). cbn [chain]. split_and!; [by apply ext..|by apply IH]. Qed.
Lemma ext_free sz a : free_block m sz a -> free_block m' sz a.
Proof. intros (H0 & H1 & H2 & H3 & H4). split_and!; [done|by apply ext..|by apply ext_some|by apply ext_some]. Qed.
Lemma ext_tree t : tree_at m t -> tree_at m' t.
Proof.
  induction t as [|l IHl sz h rest r IHr]; [done|]. intros ((H1 & H2 & H3 & H4) & Hl & Hr). cbn [tree_at]. split_and!; [split_and!|by apply IHl|by apply IHr]; [by apply ext..|by apply ext_chain|].
  eapply Forall_impl; [exact H4|]. intros a. apply ext_free.
Qed.
Lemma ext_tail t n : tail_at m t n -> tail_at m' t n.
Proof. intros (H1 & H2 & H3). split_and!; [by apply ext|by apply ext_byte..]. Qed.
Lemma ext_block mg b n : block_at m mg b n -> block_at m' mg b n.
Proof. intros (H1 & H2 & H3). split_and!; [by apply ext..|by apply ext_tail]. Qed.
Lemma ext_seg p s : seg_at p m s -> seg_at p m' s.
Proof.
  destruct s as [a n k]. intros (H1 & H2 & H3). split; [done|]. split; [intros q Hq Hq4; apply ext_some; by apply H2|].
  destruct k; [destruct H3 as (-> & G1 & G2 & G3)|destruct H3 as (-> & G1 & G2)|destruct H3 as (G1 & G2)|destruct H3 as (G1 & G2 & G3)|destruct H3 as (G1 & G2 & [[G3 G4] G5] & G6)].
  - split_and!; [done|by apply ext..].
  - split_and!; [done|by apply ext..].
  - split; [done|]. by apply ext_block.
  - split; [done|]. split; [by apply ext_block|done].
  - split; [done|]. split; [by apply ext_block|]. split; [|done]. split; [split; by apply ext_byte|]. intros b Hb. apply ext_byte. by apply G5.
Qed.
Lemma ext_heap p t l : heap p m t l -> heap p m' t l.
Proof. intros [H1 H2 H3 H4 H5 H6 H7]. constructor; [done|by apply ext_tree|done| |done|done|done]. eapply Forall_impl; [exact H4|]. intros s. apply ext_seg. Qed.
Lemma ext_list l d : forall up, arena_list m up l d -> arena_list m' up l d.
Proof. induction l as [|a l IH]; [done|]. intros up (H1 & H2 & H3 & H4). cbn [arena_list]. split_and!; [by apply ext..|done|by apply IH]. Qed.
Lemma ext_pool p t ars : pool_at p m t ars -> pool_at p m' t ars.
Proof.
  intros [H1 H2 H3 H4 H5]. constructor; [done|by apply ext_heap| |done|by apply ext_list]. eapply Forall_impl; [exact H3|]. intros a (G1 & G2 & G3 & G4). split_and!; [done..|by apply ext].
Qed.
End extend.

(** What the coarser allocator gives: words that were not there. *)
Definition fresh_region (m m' : words) (a n : Z) : Prop :=
  a mod 4 = 0 /\ 0 < a /\ a + n <= 2 ^ 32 /\ (forall q, a <= q < a + n -> q mod 4 = 0 -> m !! q = None) /\ owned m' a n /\ m ⊆ m'.
Class Coarse {A : Type} (palloc : A -> words -> Z -> result (A * words * Z)) (pmerge : A -> words -> Z -> Z -> result (A * words * bool)) : Prop := {
  palloc_ok : forall s m n, 0 < n < 2 ^ 32 -> exists s' m' a, palloc s m n = Ok (s', m', a) /\ (a = 0 /\ m' = m \/ a <> 0 /\ fresh_region m m' a n);
  pmerge_ok : forall s m a b n, m !! asize a = Some n -> a + n <= b -> exists s' m' r, pmerge s m a b = Ok (s', m', r) /\ (r = false /\ m' = m \/ r = true /\ fresh_region m m' (a + n) (b - (a + n))) }.

(** The region does not overlap what the heap has. *)
Lemma fresh_apart p m m' t l a n k : heap p m t l -> fresh_region m m' a n -> 0 < n -> Forall (seg_apart (mkSeg a n k)) l.
Proof.
  intros H (F1 & F2 & F3 & F4 & F5 & F6) Hn. apply Forall_forall. intros [b nb kb] Hs. pose proof (heap_seg _ _ _ _ _ H Hs) as ((Q1 & Q2 & Q3 & Q4 & Q5) & Ho & _). unfold seg_apart. cbn [addr sz].
  destruct (Z.le_gt_cases (a + n) b) as [?|G1]; [by left|]. destruct (Z.le_gt_cases (b + nb) a) as [?|G2]; [by right|]. exfalso.
  destruct (Z.le_gt_cases a b) as [G3|G3].
  - destruct (Ho b ltac:(lia) Q1) as [v Hv]. rewrite F4 in Hv by (done || lia). done.
  - destruct (Ho a ltac:(lia) F1) as [v Hv]. rewrite F4 in Hv by (done || lia). done.
Qed.

(** ** The new arena *)

Lemma arenasetsize_ok m a n w : a mod 4 = 0 -> n mod 4 = 0 -> 64 <= n -> owned m a n -> m !! (a + 20) = Some w ->
  exists m', arenasetsize m a n = Ok m' /\ dom m' = dom m /\ m' !! asize a = Some n /\ m' !! magic (a + n - 8) = Some ARENATAIL_MAGIC /\ m' !! bsize (a + n - 8) = Some 0 /\
    forall q, q <> a + 16 -> q <> a + n - 8 -> q <> a + n - 4 -> m' !! q = m !! q.
Proof.
  intros Ha Hn Hn64 Ho Hw. unfold arenasetsize, A2TB. fields. rewrite put_some by (apply Ho; zlia). cbn [rbind]. rewrite (get_some _ (a + 16) n) by apply lookup_insert_eq. cbn [rbind]. unfold sizeof_Bhdr.
  rewrite put_some by (apply insert_some, Ho; zlia). cbn [rbind]. rewrite put_some by (apply insert_some, insert_some, Ho; zlia). eexists. split; [done|]. split_and!.
  - rewrite !dom_insert_lookup_L; [done|apply Ho; zlia|apply insert_some, Ho; zlia|apply insert_some, insert_some, Ho; zlia].
  - by look.
  - by look.
  - by look.
  - intros q Q1 Q2 Q3. rewrite !lookup_insert_ne by lia. done.
Qed.
Lemma A2TB_ok m a n : m !! asize a = Some n -> A2TB m a = Ok (a + n - 8).
Proof. intros H. unfold A2TB. by rewrite (get_some _ _ _ H). Qed.
Lemma blockcheck_arena p m a n : m !! magic a = Some ARENA_MAGIC -> m !! asize a = Some n -> m !! magic (a + n - 8) = Some ARENATAIL_MAGIC -> m !! bsize (a + n - 8) = Some 0 -> blockcheck p m a = Ok ().
Proof.
  intros H1 H2 H3 H4. unfold blockcheck. rewrite (get_some _ _ _ H1). cbn [rbind]. change (ARENA_MAGIC =? FREE_MAGIC) with false. change (ARENA_MAGIC =? UNALLOC_MAGIC) with false. change (ARENA_MAGIC =? DEAD_MAGIC) with false. change (ARENA_MAGIC =? ARENA_MAGIC) with true.
  cbn [orb]. rewrite (A2TB_ok _ _ _ H2). cbn [rbind]. rewrite (get_some _ _ _ H3). cbn [rbind]. rewrite Z.eqb_refl. cbn [check rbind]. rewrite (get_some _ _ _ H4). done.
Qed.
(** The segments of a new arena. *)
Definition new_segs (a n : Z) (k : kind) : list seg := [mkSeg (a + 24) (n - 32) k; mkSeg a sizeof_Arena KArena; mkSeg (a + n - 8) sizeof_Bhdr KTail].
Lemma new_apart p m m0 t l a n k : heap p m t l -> fresh_region m m0 a n -> 64 <= n -> apart (new_segs a n k ++ l).
Proof.
  intros H Hf Hn. pose proof (fresh_apart p m m0 t l a n k H Hf ltac:(lia)) as Hfa. unfold new_segs, sizeof_Arena, sizeof_Bhdr. apply apart_app. split; [|split; [apply H|]].
  - cbn [apart]. rewrite !Forall_cons, !Forall_nil. unfold seg_apart. cbn [addr sz]. lia.
  - rewrite !Forall_cons, Forall_nil. split_and!; [..|done]; (eapply Forall_impl; [exact Hfa|]; intros s; unfold seg_apart; cbn [addr sz]; lia).
Qed.
(** Segments that are added to the heap, in words that it does not have. *)
Lemma heap_join p m0 m1 t L l : heap p m0 t l -> dom m1 = dom m0 -> (forall s q, s ∈ l -> addr s <= q < addr s + sz s -> m1 !! q = m0 !! q) -> free_of L = [] -> Forall (seg_at p m1) L -> apart (L ++ l) -> heap p m1 t (L ++ l).
Proof. intros H D F HL Hs Ha. by apply (heap_change p m0 m1 t [] L l). Qed.
Lemma init_arena p m m0 t l a n : heap p m t l -> fresh_region m m0 a n -> 64 <= n -> n mod 4 = 0 ->
  exists m1, (forall B (k : Z -> words -> result B),
      (let* m := putw m0 (magic a) ARENA_MAGIC in
      let* m := blocksetsize m a sizeof_Arena in
      let* m := arenasetsize m a n in
      let* _ := blockcheck p m a in
      let* b := B2NB m a in
      let* m := putw m (magic b) UNALLOC_MAGIC in
      let* tail := A2TB m a in
      let* m := blocksetsize m b (tail - b) in
      let* _ := blockcheck p m b in k b m) = k (a + 24) m1) /\
    heap p m1 t (new_segs a n KUnalloc ++ l) /\ m1 !! asize a = Some n /\ dom m1 = dom m0 /\ forall q, q < a \/ a + n <= q -> m1 !! q = m0 !! q.
Proof.
  intros H Hf Hn Hn4. pose proof (new_apart _ _ _ _ _ _ _ KUnalloc H Hf Hn) as Hap. pose proof (fresh_apart p m m0 t l a n KUnalloc H Hf ltac:(lia)) as Hfa. destruct Hf as (F1 & F2 & F3 & F4 & F5 & F6). apply (ext_heap m m0 F6) in H.
  destruct (F5 a ltac:(lia) F1) as [w Hw]. set (ma := <[magic a := ARENA_MAGIC]> m0). assert (dom ma = dom m0) as Da by (apply dom_insert_lookup_L; by eexists).
  destruct (blocksetsize_ok ma a 24 ARENA_MAGIC) as (mb & Eb & (B1 & B2 & B3 & _) & Db & Fb); [done|done|lia|eapply owned_dom; [exact Da|]; eapply owned_sub; [exact F5|lia..]|apply lookup_insert_eq|done|].
  assert (dom mb = dom m0) as Db' by congruence. unfold tsize in B3. replace (a + 24 - 8 + 4) with (a + 20) in B3 by lia.
  destruct (arenasetsize_ok mb a n 24 F1 Hn4 Hn (owned_dom _ _ _ _ Db' F5) B3) as (mc & Ec & Dc & C1 & C2 & C3 & Fc). assert (dom mc = dom m0) as Dc' by congruence.
  assert (mc !! magic a = Some ARENA_MAGIC /\ mc !! bsize a = Some 24 /\ mc !! (a + 20) = Some 24) as (C4 & C5 & C6) by (fields; rewrite !Fc by lia; done).
  set (md := <[magic (a + 24) := UNALLOC_MAGIC]> mc). assert (is_Some (mc !! magic (a + 24))) as Hmd by (apply (owned_dom _ _ _ _ Dc' F5); unfold magic; zlia).
  assert (dom md = dom m0) as Dd by (rewrite <-Dc'; by apply dom_insert_lookup_L).
  destruct (blocksetsize_ok md (a + 24) (n - 32) UNALLOC_MAGIC) as (me & Ee & Be & De & Fe); [zlia|zlia|lia|eapply owned_dom; [exact Dd|]; eapply owned_sub; [exact F5|lia..]|apply lookup_insert_eq|done|].
  assert (dom me = dom m0) as De' by congruence. assert (forall q, q < a + 24 \/ a + n - 8 <= q -> me !! q = mc !! q) as Fe' by (intros q Hq; rewrite Fe by lia; subst md; apply lookup_insert_ne; unfold magic; lia).
  assert (forall q, q < a \/ a + n <= q -> me !! q = m0 !! q) as Fall by (intros q Hq; rewrite Fe', Fc, Fb by lia; subst ma; apply lookup_insert_ne; unfold magic; lia).
  exists me. split; [|split; [|split; [|split; [done|done]]]].
  - intros B k. rewrite put_some by (by eexists). cbn [rbind]. fold ma. unfold sizeof_Arena. rewrite Eb. cbn [rbind]. rewrite Ec. cbn [rbind]. rewrite (blockcheck_arena p mc a n) by done. cbn [rbind].
    unfold B2NB. rewrite (get_some _ _ _ C5). cbn [rbind]. rewrite put_some by done. cbn [rbind]. fold md. rewrite (A2TB_ok md a n) by (subst md; fields; by look). cbn [rbind].
    replace (a + n - 8 - (a + 24)) with (n - 32) by lia. rewrite Ee. cbn [rbind]. by rewrite (blockcheck_free p me UNALLOC_MAGIC (a + 24) (n - 32)) by (by right || done).
  - apply (heap_join p m0); [done|done| |done| |done].
    + intros s q Hs Hq. apply Fall. rewrite Forall_forall in Hfa. pose proof (Hfa s Hs). unfold seg_apart in *. simpl in *. lia.
    + assert (owned me a n) as Ho by (by eapply owned_dom). unfold new_segs. rewrite !Forall_cons. split_and!; [..|done].
      * split; [zlia|]. split; [eapply owned_sub; [exact Ho|lia..]|]. split; [unfold MINBLOCKSIZE, sizeof_Free, sizeof_Btail; lia|]. split; [done|done].
      * unfold sizeof_Arena. split; [zlia|]. split; [eapply owned_sub; [exact Ho|lia..]|]. replace (a + 24 - 4) with (a + 20) by lia. fields. rewrite (Fe' a), (Fe' (a + 4)), (Fe' (a + 20)) by lia. done.
      * unfold sizeof_Bhdr. split; [zlia|]. split; [eapply owned_sub; [exact Ho|lia..]|]. fields. rewrite (Fe' (a + n - 8)), (Fe' (a + n - 8 + 4)) by lia. done.
  - fields. rewrite Fe' by lia. done.
Qed.

(** ** Gluing arenas *)

Lemma seg_check p m a n k : seg_at p m (mkSeg a n k) -> match k with KFree | KAlloc _ => True | KRaw mg => mg = UNALLOC_MAGIC | _ => False end -> blockcheck p m a = Ok ().
Proof.
  intros H Hk. destruct k; try done.
  - destruct H as (_ & _ & _ & G). apply (blockcheck_free p m FREE_MAGIC a n); [by left|done].
  - subst mg. destruct H as (_ & _ & _ & G & _). apply (blockcheck_free p m UNALLOC_MAGIC a n); [by right|done].
  - by eapply seg_blockcheck.
Qed.
(** The block grows over the segments that follow it. *)
Lemma absorb p m t x nx k X l n : heap p m t (mkSeg x nx k :: X ++ l) -> free_of X = [] -> is_block k -> k <> KFree -> owned m x n -> n mod 4 = 0 -> nx <= n -> x + n <= 2 ^ 32 -> Forall (seg_apart (mkSeg x n k)) l ->
  exists m', blocksetsize m x n = Ok m' /\ heap p m' t (mkSeg x n (KRaw (magic_of k)) :: l) /\ keeps m m' l /\ same_words m m' (x + 8) (nx - 16).
Proof.
  intros H HX Hb Hk Ho Hn Hnx Hlim Ha. pose proof (heap_seg _ _ _ _ _ H ltac:(left)) as Hs. pose proof (magic_free _ _ _ _ _ Hs) as Hmg. rewrite bool_decide_eq_false_2, Z.eqb_neq in Hmg by done.
  destruct (seg_block _ _ _ _ _ Hs Hb) as (Hm & Hbl). pose proof Hs as ((Q1 & Q2 & Q3 & Q4 & Q5) & _). unfold MINBLOCKSIZE, sizeof_Free, sizeof_Btail in Hm.
  destruct (blocksetsize_ok m x n (magic_of k)) as (m' & E & B & D & F); [done|done|lia|done|apply Hbl|done|]. exists m'. split; [done|].
  assert (forall s q, s ∈ l -> addr s <= q < addr s + sz s -> m' !! q = m !! q) as Fl.
  { intros s q Hs1 Hq. rewrite Forall_forall in Ha. pose proof (Ha s Hs1). unfold seg_apart in *. simpl in *. apply F; lia. }
  split; [|split].
  - apply (heap_change p m m' t (mkSeg x nx k :: X) [_] l H); [by rewrite free_of_used|done|done|done| |].
    + apply Forall_singleton. split; [lia|]. split; [by eapply owned_dom|]. split; [unfold MINBLOCKSIZE, sizeof_Free, sizeof_Btail; lia|]. done.
    + cbn [apart app]. split; [exact Ha|]. pose proof (hp_apart _ _ _ _ H) as Hap. cbn [apart] in Hap. destruct Hap as [_ Hap]. by apply apart_app in Hap as (_ & ? & _).
  - split; [done|]. intros s Hs1 q Hq _. by eapply Fl.
  - intros q Hq. apply F; lia.
Qed.
Definition opt_seg (b : bool) (s : seg) : list seg := if b then [s] else [].
(** [blockgrow] of a block over [X], up to the block [y]. *)
Lemma blockgrow_heap p m t x nx k X y l n : pool_ok p -> heap p m t (mkSeg x nx k :: X ++ y :: l) -> free_of X = [] -> settled (mkSeg x nx k) -> settled y -> addr y = x + n ->
  owned m x n -> n mod 4 = 0 -> nx <= n -> Forall (seg_apart (mkSeg x n k)) (y :: l) ->
  exists p' m' t' mid keep, blockgrow p m x n = Ok (p', m') /\ heap p' m' t' (mid ++ opt_seg keep y ++ l) /\ like p p' /\ contig x (mid ++ opt_seg keep y) (x + n + sz y) /\
    Forall settled mid /\ (exists n' k', head mid = Some (mkSeg x n' k')) /\ omap alloc_of mid = omap alloc_of [mkSeg x nx k] /\ (keep = false -> kd y = KFree) /\ keeps m m' (opt_seg keep y ++ l) /\
    (forall d, k = KAlloc d -> bytes_same m m' (fun z => x + 8 <= z < x + 8 + d)) /\ covers [mkSeg x nx k; y] (mid ++ opt_seg keep y).
Proof.
  intros Hp H HX Sx Sy Ey Ho Hn Hnx Ha. pose proof (heap_seg _ _ _ _ _ H ltac:(left)) as Hs. unfold blockgrow. rewrite (get_some _ _ _ (seg_magic _ _ _ _ _ Hs)). cbn [rbind].
  assert (y ∈ mkSeg x nx k :: X ++ y :: l) as Hyin by (right; apply elem_of_app; right; left). assert (x + n <= 2 ^ 32) as Hlim by (pose proof (heap_seg _ _ _ _ _ H Hyin) as Hy; destruct y as [b nb kb]; destruct Hy as (? & _); simpl in *; lia).
  destruct k as [| | |mg|d]; try done.
  - change (magic_of KFree =? FREE_MAGIC) with true. cbn match. destruct (pooldel_heap _ _ _ _ _ _ H) as (m1 & t1 & E1 & H1 & K1 & _). cbn zeta in *. rewrite E1. cbn [rbind]. set (p1 := set_curfree _ _) in *.
    rewrite (seg_check _ _ _ _ _ (heap_seg _ _ _ _ _ H1 ltac:(left)) eq_refl). cbn [rbind].
    destruct (absorb p1 m1 t1 x nx KUnalloc X (y :: l) n H1 HX I ltac:(done) (owned_dom _ _ _ _ (proj1 K1) Ho) Hn Hnx Hlim Ha) as (m2 & E2 & H2 & K2 & _). rewrite E2. cbn [rbind].
    rewrite (seg_check _ _ _ _ _ (heap_seg _ _ _ _ _ H2 ltac:(left)) eq_refl). cbn [rbind].
    assert (contig x ([] ++ mkSeg x n (KRaw (magic_of KUnalloc)) :: [y]) (x + n + sz y)) as Hc by (cbn [app contig addr sz]; done).
    destruct (merge_next p1 m2 t1 [] x n (KRaw (magic_of KUnalloc)) [y] l x (x + n + sz y) I ltac:(done) ltac:(done) Hc H2) as (p3 & m3 & t3 & f2 & l2' & n3 & k3 & E3 & Ef & F3 & _ & H3 & C3 & _ & _ & Ek & Gn & L3 & K3 & _).
    assert (k3 = KUnalloc) as -> by (by destruct Ek). cbn [app] in *.
    destruct (B2NB m2 x) as [nb| | |]; cbn [rbind] in *; try done. destruct (getw m2 (magic nb)) as [mg| | |]; cbn [rbind] in *; try done. rewrite E3. cbn [rbind].
    rewrite (seg_check _ _ _ _ _ (heap_seg _ _ _ _ _ H3 ltac:(left)) eq_refl). cbn [rbind]. destruct (pooladd_heap _ _ _ _ _ _ _ H3) as (m4 & t4 & E4 & H4 & K4 & _). cbn zeta in *. rewrite E4.
    assert (exists keep, l2' = opt_seg keep y /\ (keep = false -> kd y = KFree)) as (keep & -> & Hkeep).
    { destruct f2 as [|f f2]; [exists true; by split|]. injection Ef as <- Ef. symmetry in Ef. apply app_eq_nil in Ef as [-> ->]. exists false. split; [done|]. intros _. by apply Forall_inv in F3. }
    eexists _, m4, t4, [mkSeg x n3 KFree], keep. split; [done|]. split; [exact H4|]. split; [apply (like_trans p p1); [done|]; by eapply like_trans|]. split; [exact C3|].
    split; [by apply Forall_singleton|]. split; [by eexists _, _|]. split; [done|]. split; [done|].
    assert (forall s, s ∈ opt_seg keep y ++ l -> s ∈ y :: l) as Hsub by (intros s; destruct keep; cbn [opt_seg app]; [done|by right]).
    split; [|split; [done|]].
    2: { intros b n0 [[= -> ->]|Hb%list_elem_of_singleton]%elem_of_cons; [exists x, n3; split; [left|lia]|]. subst y. destruct keep; [exists b, n0; split; [right; left|lia]|].
      exists x, n3. split; [left|]. cbn [opt_seg contig addr sz app] in C3. pose proof Hs as (? & _). lia. }
    eapply keeps_both; [eapply keeps_sub; [|exact K1]; intros s Hs1; apply elem_of_app; right; by apply Hsub|]. eapply keeps_both; [eapply keeps_sub; [exact Hsub|exact K2]|]. by eapply keeps_both.
  - change (magic_of (KAlloc d) =? FREE_MAGIC) with false. cbn match. pose proof Hs as ((Q1 & Q2 & Q3 & Q4 & Q5) & _ & G1 & G2 & G3 & G4 & G5 & G6 & G7).
    rewrite (getdsize_ok m x nx d) by (first [apply G2|done|lia]). cbn [rbind].
    destruct (absorb p m t x nx (KAlloc d) X (y :: l) n H HX I ltac:(done) Ho Hn Hnx Hlim Ha) as (m2 & E2 & H2 & K2 & S2). rewrite E2. cbn [rbind].
    destruct (trim_heap p m2 t x n (KRaw (magic_of (KAlloc d))) d (y :: l) Hp G4 I ltac:(done) ltac:(lia) H2) as (p' & m' & t' & n' & E3 & H3 & L & K3 & Hn' & S3). rewrite E3. cbn [rbind].
    exists p', m', t', (mkSeg x n' (KAlloc d) :: leftover x n n'), true. split; [done|]. split; [exact H3|]. split; [done|].
    assert (contig x (mkSeg x n' (KAlloc d) :: leftover x n n') (x + n)) as Hc by (pose proof (contig_cut x [] x n (KAlloc d) n' (KAlloc d) [] (x + n) ltac:(done)) as Hc; by rewrite app_nil_r in Hc).
    split; [apply contig_app; exists (x + n); split; [exact Hc|]; cbn [opt_seg contig]; done|].
    split; [apply Forall_cons; split; [done|]; unfold leftover; destruct (n' =? n); [by apply Forall_nil|by apply Forall_singleton]|].
    split; [by eexists _, _|]. split; [cbn; unfold leftover; by destruct (n' =? n)|]. split; [done|]. split; [by eapply keeps_both|].
    split; [|intros b n0 [?|Hb%list_elem_of_singleton]%elem_of_cons; [done|]; subst y; exists b, n0; split; [apply elem_of_app; right; left|lia]].
    intros d' [= <-]. eapply bytes_same_trans; [|exact S3]. intros z Hz. apply (bytes_same_in m m2 (x + 8) (nx - 16)); [zlia|zlia|exact S2|lia].
Qed.

(** *** The list of the arenas *)

Fixpoint lastb (up : Z) (l : list arena) : Z := match l with [] => up | a :: l => lastb (base a) l end.
Lemma arena_list_app m l1 l2 d : forall up, arena_list m up (l1 ++ l2) d <-> arena_list m up l1 (first l2 d) /\ arena_list m (lastb up l1) l2 d.
Proof.
  induction l1 as [|a l1 IH]; intros up; cbn [app arena_list lastb]; [tauto|]. rewrite IH. assert (first (l1 ++ l2) d = first l1 (first l2 d)) as -> by (by destruct l1). tauto.
Qed.
Lemma lastb_snoc up l a : lastb up (l ++ [a]) = base a.
Proof. revert up. induction l as [|b l IH]; intros up; [done|]. apply IH. Qed.
Lemma arena_list_desc m l d : forall up, arena_list m up l d -> forall a, a ∈ l -> d < base a.
Proof.
  induction l as [|b l IH]; intros up; [by intros _ a ?%not_elem_of_nil|]. intros (_ & _ & Hd & Hl) a Ha. destruct l as [|c l]; [by apply list_elem_of_singleton in Ha as ->|].
  apply elem_of_cons in Ha as [->|Ha]; [|by apply (IH _ Hl)]. simpl in Hd. pose proof (IH _ Hl c ltac:(left)). lia.
Qed.
Lemma arena_list_first m l d up b : arena_list m up (b :: l) d -> forall a, a ∈ l -> base a < base b.
Proof.
  revert up b. induction l as [|c l IH]; intros up b; [by intros _ a ?%not_elem_of_nil|]. intros (_ & _ & Hd & Hl) a [->|Ha]%elem_of_cons; [done|]. simpl in Hd. pose proof (IH _ _ Hl a Ha). lia.
Qed.
Lemma arena_list_nodup m l d : forall up, arena_list m up l d -> NoDup (map base l).
Proof.
  induction l as [|b l IH]; intros up H; [constructor|]. pose proof (arena_list_first _ _ _ _ _ H) as Hf. destruct H as (_ & _ & _ & H). cbn [map]. apply NoDup_cons. split; [|by eapply IH].
  intros (a & E & Ha)%list_elem_of_fmap. pose proof (Hf a Ha). lia.
Qed.
Lemma base_inj l b c : NoDup (map base l) -> b ∈ l -> c ∈ l -> base b = base c -> b = c.
Proof.
  induction l as [|x l IH]; [by intros _ ?%not_elem_of_nil|]. cbn [map]. intros [Hx Hnd]%NoDup_cons [->|Hb]%elem_of_cons [->|Hc]%elem_of_cons E; [done|..|by apply IH].
  - exfalso. apply Hx. rewrite E. apply list_elem_of_fmap. by exists c.
  - exfalso. apply Hx. rewrite <-E. apply list_elem_of_fmap. by exists b.
Qed.
Lemma arena_list_last m l d b : forall up, arena_list m up l d -> last l = Some b -> m !! down (base b) = Some d.
Proof.
  induction l as [|c l IH]; intros up; [done|]. intros (H1 & H2 & H3 & H4) Hl. destruct l as [|e l]; [injection Hl as <-; done|]. by apply (IH _ H4).
Qed.
(** Other ends. *)
Lemma arena_list_change m m' l : forall up up' d d', arena_list m up l d ->
  (forall a, a ∈ l -> Some a <> head l -> m' !! aup (base a) = m !! aup (base a)) -> (forall a, head l = Some a -> m' !! aup (base a) = Some up') ->
  (forall a, a ∈ l -> Some a <> last l -> m' !! down (base a) = m !! down (base a)) -> (forall a, last l = Some a -> m' !! down (base a) = Some d' /\ d' < base a) -> arena_list m' up' l d'.
Proof.
  induction l as [|b l IH]; intros up up' d d' H U1 U2 D1 D2; [done|]. pose proof (arena_list_nodup _ _ _ _ H) as Hnd. cbn [map] in Hnd. apply NoDup_cons in Hnd as [Hb Hnd].
  assert (forall a, a ∈ l -> a <> b) as Hne by (intros a Ha ->; apply Hb; apply list_elem_of_fmap; by exists b).
  destruct H as (H1 & H2 & H3 & H4). cbn [arena_list]. split; [by apply U2|]. destruct l as [|c l].
  - destruct (D2 b eq_refl) as [? ?]. done.
  - cbn [first]. rewrite D1; [|left|]. 2: { intros E. apply (Hne b); [|done]. apply last_Some_elem_of. exact (eq_sym E). }
    split; [done|]. split; [done|]. eapply (IH (base b) (base b) d d'); [done| | | |].
    + intros a Ha _. apply U1; [by right|]. intros [= ->]. by apply (Hne b).
    + intros a [= <-]. rewrite U1; [apply H4|right; left|]. intros [= ->]. by apply (Hne b); [left|].
    + intros a Ha Hl. apply D1; [by right|done].
    + intros a Hl. by apply D2.
Qed.

(** Changes in the links of the headers, and, when [w] is 20, in the sizes of the arenas. *)
Definition header (a : Z) : seg := mkSeg a sizeof_Arena KArena.
Definition links_change (w : Z) (m m' : words) (l : list seg) : Prop :=
  dom m' = dom m /\ forall q, (forall x, header x ∈ l -> q < x + 8 \/ x + w <= q) -> m' !! q = m !! q.
Lemma links_trans w m m' m'' l : links_change w m m' l -> links_change w m' m'' l -> links_change w m m'' l.
Proof. intros [D1 F1] [D2 F2]. split; [congruence|]. intros q Hq. by rewrite F2, F1. Qed.
Lemma links_put p m x l q v : header x ∈ l -> seg_at p m (header x) -> q = aup x \/ q = down x -> putw m q v = Ok (<[q := v]> m) /\ links_change 16 m (<[q := v]> m) l.
Proof.
  intros Hx ((Q1 & _) & Ho & _) Hq. unfold sizeof_Arena in *. fields. assert (is_Some (m !! q)) as Hs by (apply Ho; [lia|zlia]). split; [by apply put_some|]. split; [by apply dom_insert_lookup_L|].
  intros r Hr. pose proof (Hr x Hx). apply lookup_insert_ne. lia.
Qed.
Lemma links_seg w p m m' t l s q : 0 <= w <= 20 -> heap p m t l -> links_change w m m' l -> s ∈ l -> addr s <= q < addr s + sz s -> (kd s = KArena -> q < addr s + 8 \/ addr s + w <= q) -> m' !! q = m !! q.
Proof.
  intros Hw H [_ F] Hs Hq Hk. apply F. intros x Hx. destruct (apart_in _ _ _ (hp_apart _ _ _ _ H) Hs Hx) as [->|Ha]; [by apply Hk|]. unfold seg_apart, header, sizeof_Arena in *. simpl in *. lia.
Qed.
Lemma links_header w p m m' t l x : 0 <= w <= 20 -> heap p m t l -> links_change w m m' l -> header x ∈ l -> seg_at p m' (header x).
Proof.
  intros Hw H Hl Hx. pose proof (heap_seg _ _ _ _ _ H Hx) as (G1 & G2 & G3 & G4 & G5 & G6). split; [done|]. split; [eapply owned_dom; [apply Hl|done]|].
  assert (forall q, x <= q < x + 8 \/ x + w <= q < x + 24 -> m' !! q = m !! q) as F by (intros q Hq; apply (links_seg w _ _ _ _ _ _ _ Hw H Hl Hx); unfold header, sizeof_Arena; cbn [addr sz]; lia).
  unfold sizeof_Arena in *. fields. rewrite !F by lia. done.
Qed.
Lemma links_heap w p m m' t l : 0 <= w <= 20 -> heap p m t l -> links_change w m m' l -> heap p m' t l.
Proof.
  intros Hw H Hl. pose proof (heap_spaced _ _ _ _ H) as Hsp. pose proof (heap_elems _ _ _ _ H) as He. pose proof Hl as [D _].
  assert (tree_at m' t) as T.
  { eapply tree_frame; [|exact Hsp|apply H]. intros a Ha q Hq. rewrite He in Ha. apply list_elem_of_fmap in Ha as ((? & n) & -> & Hin%elem_free). pose proof (seg_min _ _ _ _ (heap_seg _ _ _ _ _ H Hin)) as Hn.
    unfold MINBLOCKSIZE, sizeof_Btail in *. apply (links_seg w _ _ _ _ _ _ _ Hw H Hl Hin); [simpl in *; lia|done]. }
  constructor; [apply H|done|apply H| |apply H|apply H|apply H]. apply Forall_forall. intros s Hs. pose proof (heap_seg _ _ _ _ _ H Hs) as Hat. destruct s as [a n k].
  assert (k <> KArena -> forall q, a <= q < a + n -> m' !! q = m !! q) as F by (intros Hk q Hq; apply (links_seg w _ _ _ _ _ _ _ Hw H Hl Hs); [done|done]).
  destruct k; [destruct Hat as (G1 & G2 & -> & G3); by apply (links_header w p m m' t l a)| |pose proof Hat as (_ & _ & Hmin & G1 & G2 & _)| |].
  2: { unfold MINBLOCKSIZE, sizeof_Free, sizeof_Btail in Hmin. eapply seg_frame_free; [exact Hat|done|rewrite F; fields; done || lia..|]. intros q Hq. unfold sizeof_Free in *. apply F; [done|lia]. }
  all: eapply seg_frame; [exact Hat|done|done|]; cbn [addr sz]; by apply F.
Qed.
Lemma links_asize p m m' t l x : heap p m t l -> links_change 16 m m' l -> header x ∈ l -> m' !! asize x = m !! asize x.
Proof. intros H Hl Hx. apply (links_seg 16 _ _ _ _ _ _ _ ltac:(lia) H Hl Hx); unfold header, sizeof_Arena; fields; cbn [addr sz]; lia. Qed.
Lemma links_data w p m m' t l b n d : 0 <= w <= 20 -> heap p m t l -> links_change w m m' l -> mkSeg b n (KAlloc d) ∈ l -> bytes_same m m' (fun x => b + 8 <= x < b + 8 + d).
Proof.
  intros Hw H Hl Hs. pose proof (heap_seg _ _ _ _ _ H Hs) as ((Q1 & Q2 & _) & _ & _ & _ & _ & G1 & G2 & _). intros x Hx. apply (bytes_same_in m m' b n); [done|done| |lia].
  intros q Hq. by apply (links_seg w _ _ _ _ _ _ _ Hw H Hl Hs).
Qed.
Lemma links_keeps w p m m' t l l' : 0 <= w <= 20 -> heap p m t l -> links_change w m m' l -> (forall s, s ∈ l' -> s ∈ l /\ kd s <> KArena) -> keeps m m' l'.
Proof. intros Hw H Hl Hs. split; [apply Hl|]. intros s Hin q Hq _. destruct (Hs s Hin) as [Hin' Hk]. by apply (links_seg w _ _ _ _ _ _ _ Hw H Hl Hin'). Qed.
Lemma arena_place_ok m a : 0 < a -> forall l up fuel lastap, arena_list m up l 0 -> (forall b, b ∈ l -> base b <> a) -> (length l < fuel)%nat ->
  exists l1 l2, l = l1 ++ l2 /\ arena_place fuel m a lastap (first l 0) = Ok (lastb lastap l1, first l2 0) /\ (forall b, b ∈ l1 -> a < base b) /\ first l2 0 < a.
Proof.
  intros Ha. induction l as [|b l IH]; intros up [|fuel] lastap H Hne Hf; simpl in Hf; try lia.
  - exists [], []. cbn. destruct (Z.ltb_spec a 0); [lia|]. split_and!; [done|done| |done]. by intros b ?%not_elem_of_nil.
  - cbn [first arena_place]. pose proof (Hne b ltac:(left)). destruct (Z.ltb_spec a (base b)).
    + destruct H as (K1 & K2 & K3 & K4). rewrite (get_some _ _ _ K2). cbn [rbind]. destruct (IH (base b) fuel (base b) K4) as (l1 & l2 & -> & E & G1 & G2); [intros c Hc; apply Hne; by right|lia|].
      exists (b :: l1), l2. split_and!; [done|done| |done]. intros c [->|Hc]%elem_of_cons; [done|by apply G1].
    + exists [], (b :: l). split_and!; [done|done| |simpl; lia]. by intros c ?%not_elem_of_nil.
Qed.
Lemma headers_turns p m t l ars : heap p m t l -> arena_list m 0 ars 0 -> (forall b, b ∈ ars -> header (base b) ∈ l) -> (length ars < turns m)%nat.
Proof.
  intros H Hl Hh. pose proof (arena_list_nodup _ _ _ _ Hl) as Hnd. unfold turns. enough (length ars <= size m)%nat by lia.
  rewrite <-(length_map base), <-size_dom, <-(size_list_to_set (C := gset Z)) by done. apply subseteq_size. intros a Ha%elem_of_list_to_set. apply list_elem_of_fmap in Ha as (b & -> & Hb).
  pose proof (seg_magic _ _ _ _ _ (heap_seg _ _ _ _ _ H (Hh b Hb))). apply elem_of_dom. by eexists.
Qed.
Lemma set_same p : set_arenalist (arenalist p) p = p.
Proof. by destruct p. Qed.
(** The new arena takes its place. *)
Lemma insert_arena p m t l ars new : heap p m t l -> arena_list m 0 ars 0 -> arenalist p = first ars 0 -> (forall b, b ∈ ars -> header (base b) ∈ l /\ base b <> base new) -> header (base new) ∈ l ->
  exists l1 l2 m', ars = l1 ++ l2 /\ links_change 16 m m' l /\ arena_list m' 0 (l1 ++ new :: l2) 0 /\
    forall B (k : pool -> words -> result B), (let a := base new in let* (lastap, ap) := arena_place (turns m) m a 0 (arenalist p) in
      let* m := putw m (down a) ap in
      let* m := if negb (ap =? 0) then putw m (aup ap) a else Ok m in
      let* m := putw m (aup a) lastap in
      let* (p, m) := if negb (lastap =? 0) then let* m := putw m (down lastap) a in Ok (p, m) else Ok (set_arenalist a p, m) in k p m) = k (set_arenalist (first (l1 ++ [new]) 0) p) m'.
Proof.
  intros H Hl Hfst Hars Hnew. set (a := base new) in *. assert (forall b, b ∈ ars -> header (base b) ∈ l) as Hh by (intros b Hb; by apply Hars).
  assert (0 < a) as Ha0 by (destruct (heap_seg _ _ _ _ _ H Hnew) as (? & _); lia).
  destruct (arena_place_ok m a Ha0 ars 0 (turns m) 0 Hl) as (l1 & l2 & -> & Ep & G1 & G2); [intros b Hb; by apply Hars|by eapply headers_turns|].
  assert (forall b, b ∈ l1 ++ l2 -> a + 24 <= base b \/ base b + 24 <= a) as Hap.
  { intros b Hb. destruct (Hars b Hb) as [Hb1 Hb2]. destruct (apart_in _ _ _ (hp_apart _ _ _ _ H) Hb1 Hnew) as [E|E]; [by injection E|]. unfold seg_apart, header, sizeof_Arena in E. cbn [addr sz] in E. lia. }
  assert (forall b c, b ∈ l1 ++ l2 -> c ∈ l1 ++ l2 -> base b <> base c -> base b + 24 <= base c \/ base c + 24 <= base b) as Hap2.
  { intros b c Hb Hc Hne. destruct (apart_in _ _ _ (hp_apart _ _ _ _ H) (Hh b Hb) (Hh c Hc)) as [E|E]; [by injection E|]. unfold seg_apart, header, sizeof_Arena in E. cbn [addr sz] in E. lia. }
  pose proof (arena_list_nodup _ _ _ _ Hl) as Hnd. rewrite map_app in Hnd. apply NoDup_app in Hnd as (Hnd1 & Hnd12 & Hnd2).
  assert (forall b c, b ∈ l1 -> c ∈ l2 -> base b <> base c) as Hne12 by (intros b c Hb Hc E; apply (Hnd12 (base b)); [apply list_elem_of_fmap; by exists b|apply list_elem_of_fmap; by exists c]).
  pose proof (heap_seg _ _ _ _ _ H Hnew) as Sa.
  destruct (links_put p m a l (down a) (first l2 0) Hnew Sa ltac:(by right)) as [P1 L1]. set (m1 := <[down a := _]> m) in *.
  assert (exists m2, (if negb (first l2 0 =? 0) then putw m1 (aup (first l2 0)) a else Ok m1) = Ok m2 /\ links_change 16 m m2 l /\ (forall q, match l2 with [] => True | b :: _ => q <> aup (base b) end -> m2 !! q = m1 !! q) /\ (forall b, head l2 = Some b -> m2 !! aup (base b) = Some a)) as (m2 & P2 & L2 & F2 & U2).
  { destruct l2 as [|b l2]; [exists m1; split_and!; [done..|intros b [=]]|]. cbn [first]. assert (b ∈ l1 ++ b :: l2) as Hb by (apply elem_of_app; right; left). pose proof (links_header 16 _ _ _ _ _ _ ltac:(lia) H L1 (Hh b Hb)) as Sb. destruct (Z.eqb_spec (base b) 0) as [E|_]; [destruct Sb as (? & _); lia|]. cbn [negb].
    destruct (links_put p m1 (base b) l (aup (base b)) a (Hh b Hb) Sb ltac:(by left)) as [-> L2]. eexists. split; [done|]. split; [by eapply links_trans|]. split; [intros q Hq; by rewrite lookup_insert_ne|intros c [= <-]; by rewrite lookup_insert_eq]. }
  pose proof (links_header 16 _ _ _ _ _ _ ltac:(lia) H L2 Hnew) as Sa2. destruct (links_put p m2 a l (aup a) (lastb 0 l1) Hnew Sa2 ltac:(by left)) as [P3 L3]. set (m3 := <[aup a := _]> m2) in *. pose proof (links_trans _ _ _ _ _ L2 L3) as L3'.
  assert (exists m4, (if negb (lastb 0 l1 =? 0) then let* m := putw m3 (down (lastb 0 l1)) a in Ok (p, m) else Ok (set_arenalist a p, m3)) = Ok (set_arenalist (first (l1 ++ [new]) 0) p, m4) /\ links_change 16 m m4 l /\
    (forall q, (forall b, last l1 = Some b -> q <> down (base b)) -> m4 !! q = m3 !! q) /\ (forall b, last l1 = Some b -> m4 !! down (base b) = Some a)) as (m4 & P4 & L4 & F4 & D4).
  { destruct (decide (l1 = [])) as [->|Hne]; [exists m3; split_and!; [done..|intros b [=]]|]. destruct (exists_last Hne) as (l1' & b & ->). rewrite lastb_snoc, last_snoc. assert (b ∈ (l1' ++ [b]) ++ l2) as Hb by (rewrite !elem_of_app; left; right; left).
    pose proof (links_header 16 _ _ _ _ _ _ ltac:(lia) H L3' (Hh b Hb)) as Sb. destruct (Z.eqb_spec (base b) 0) as [E|_]; [destruct Sb as (? & _); lia|]. cbn [negb].
    destruct (links_put p m3 (base b) l (down (base b)) a (Hh b Hb) Sb ltac:(by right)) as [-> L4]. cbn [rbind]. eexists. split; [|split; [by eapply links_trans|]].
    - assert (set_arenalist (first ((l1' ++ [b]) ++ [new]) 0) p = p) as -> by (rewrite <-(set_same p) at 2; f_equal; rewrite Hfst; by destruct l1'). done.
    - split; [intros q Hq; rewrite lookup_insert_ne; [done|]; intros <-; by apply (Hq b)|intros c [= <-]; by rewrite lookup_insert_eq]. }
  exists l1, l2, m4. split; [done|]. split; [done|]. split.
  - apply arena_list_app in Hl as [Hl1 Hl2]. apply arena_list_app. cbn [first arena_list]. fold a.
    assert (m4 !! aup a = Some (lastb 0 l1) /\ m4 !! down a = Some (first l2 0)) as [Ga Gd].
    { assert (forall b, last l1 = Some b -> a + 24 <= base b \/ base b + 24 <= a) as Hlast by (intros b Hb; apply Hap; apply elem_of_app; left; by apply last_Some_elem_of).
      rewrite !F4 by (intros b Hb; pose proof (Hlast b Hb); fields; lia). subst m3. rewrite lookup_insert_eq, lookup_insert_ne by (fields; lia). split; [done|]. rewrite F2; [subst m1; by rewrite lookup_insert_eq|].
      destruct l2 as [|b l2]; [done|]. pose proof (Hap b ltac:(apply elem_of_app; right; left)). fields; lia. }
    assert (forall b, b ∈ l1 ++ l2 -> (forall c, head l2 = Some c -> base c <> base b) -> m4 !! aup (base b) = m !! aup (base b)) as Fup.
    { intros b Hb Hc. pose proof (Hap b Hb). rewrite F4.
      - subst m3. rewrite lookup_insert_ne by (fields; lia). rewrite F2; [subst m1; by rewrite lookup_insert_ne by (fields; lia)|]. destruct l2 as [|c l2]; [done|]. pose proof (Hc c eq_refl). fields; lia.
      - intros c Hc1%last_Some_elem_of. destruct (Z.eq_dec (base b) (base c)) as [->|Hbc]; [fields; lia|]. pose proof (Hap2 b c Hb ltac:(apply elem_of_app; by left) Hbc). fields; lia. }
    assert (forall b, b ∈ l1 ++ l2 -> (forall c, last l1 = Some c -> base c <> base b) -> m4 !! down (base b) = m !! down (base b)) as Fdn.
    { intros b Hb Hc. pose proof (Hap b Hb). rewrite F4 by (intros c Hc1; pose proof (Hc c Hc1); fields; lia). subst m3. rewrite lookup_insert_ne by (fields; lia). rewrite F2; [subst m1; by rewrite lookup_insert_ne by (fields; lia)|].
      destruct l2 as [|c l2]; [done|]. destruct (Z.eq_dec (base b) (base c)) as [->|Hbc]; [fields; lia|]. pose proof (Hap2 b c Hb ltac:(apply elem_of_app; right; left) Hbc). fields; lia. }
    assert (forall b, head l2 = Some b -> m4 !! aup (base b) = Some a) as Uup.
    { intros b Hb. destruct l2 as [|c l2]; [done|]. injection Hb as <-. pose proof (Hap c ltac:(apply elem_of_app; right; left)). rewrite F4.
      - subst m3. rewrite lookup_insert_ne by (fields; lia). by apply U2.
      - intros d Hd%last_Some_elem_of. pose proof (Hne12 d c Hd ltac:(left)) as Hdc. pose proof (Hap2 d c ltac:(apply elem_of_app; by left) ltac:(apply elem_of_app; right; left) Hdc). fields; lia. }
    split; [|split; [done|split; [done|split; [done|]]]].
    + eapply arena_list_change; [exact Hl1| | | |].
      * intros b Hb _. apply Fup; [apply elem_of_app; by left|]. intros c Hc E. apply (Hne12 b c Hb); [by apply head_Some_elem_of|done].
      * intros b Hb. rewrite Fup; [|apply elem_of_app; left; by apply head_Some_elem_of|].
        -- destruct l1 as [|b' l1]; [done|]. injection Hb as ->. apply Hl1.
        -- intros c Hc E. apply (Hne12 b c); [by apply head_Some_elem_of|by apply head_Some_elem_of|done].
      * intros b Hb Hl. apply Fdn; [apply elem_of_app; by left|]. intros c Hc E. apply Hl. rewrite Hc. f_equal. apply (base_inj l1); [done|done|by apply last_Some_elem_of|done].
      * intros b Hb. split; [by apply D4|]. apply G1. by apply last_Some_elem_of.
    + eapply arena_list_change; [exact Hl2| |exact Uup| |].
      * intros b Hb Hh2. apply Fup; [apply elem_of_app; by right|]. intros c Hc E. apply Hh2. rewrite Hc. f_equal. apply (base_inj l2); [done|done|by apply head_Some_elem_of|done].
      * intros b Hb _. apply Fdn; [apply elem_of_app; by right|]. intros c Hc%last_Some_elem_of E. by apply (Hne12 c b Hc Hb).
      * intros b Hb. pose proof (last_Some_elem_of _ _ Hb) as Hbin. rewrite Fdn; [|apply elem_of_app; by right|intros c Hc%last_Some_elem_of E; by apply (Hne12 c b Hc Hbin)].
        split; [by eapply arena_list_last|by eapply arena_list_desc].
  - intros B k. cbn zeta. rewrite Hfst, Ep. cbn [rbind]. rewrite P1. cbn [rbind]. rewrite P2. cbn [rbind]. rewrite P3. cbn [rbind]. by rewrite P4.
Qed.
(** The upper of two arenas leaves the list. *)
Lemma remove_top p m t l A1 top bot A2 : heap p m t l -> arena_list m 0 (A1 ++ top :: bot :: A2) 0 -> arenalist p = first (A1 ++ top :: bot :: A2) 0 -> (forall b, b ∈ A1 ++ top :: bot :: A2 -> header (base b) ∈ l) ->
  exists m', links_change 16 m m' l /\ arena_list m' 0 (A1 ++ bot :: A2) 0 /\
    forall B (k : pool -> words -> result B), (let* up := getw m (aup (base top)) in
      let* m := putw m (aup (base bot)) up in
      let* (p, m) := if negb (up =? 0) then let* m := putw m (down up) (base bot) in Ok (p, m) else Ok (set_arenalist (base bot) p, m) in k p m) = k (set_arenalist (first (A1 ++ [bot]) 0) p) m'.
Proof.
  intros H Hl Hfst Hh. assert (bot ∈ A1 ++ top :: bot :: A2) as Hbot by (apply elem_of_app; right; right; left).
  assert (forall b c, b ∈ A1 ++ top :: bot :: A2 -> c ∈ A1 ++ top :: bot :: A2 -> base b <> base c -> base b + 24 <= base c \/ base c + 24 <= base b) as Hap.
  { intros b c Hb Hc Hne. destruct (apart_in _ _ _ (hp_apart _ _ _ _ H) (Hh b Hb) (Hh c Hc)) as [E|E]; [by injection E|]. unfold seg_apart, header, sizeof_Arena in E. cbn [addr sz] in E. lia. }
  pose proof (arena_list_nodup _ _ _ _ Hl) as Hnd. pose proof (base_inj _ top bot Hnd) as Hinj. rewrite map_app in Hnd. cbn [map] in Hnd. apply NoDup_app in Hnd as (Hnd1 & Hnd12 & Hnd2). apply NoDup_cons in Hnd2 as [Hnt Hnd2]. apply NoDup_cons in Hnd2 as [Hnb Hnd2].
  assert (forall b c, b ∈ A1 -> c ∈ top :: bot :: A2 -> base b <> base c) as Hne1 by (intros b c Hb Hc E; apply (Hnd12 (base b)); [apply list_elem_of_fmap; by exists b|rewrite E; apply (list_elem_of_fmap_2 base (top :: bot :: A2) c Hc)]).
  assert (forall c, c ∈ A2 -> base bot <> base c) as Hne2 by (intros c Hc E; apply Hnb; rewrite E; by apply list_elem_of_fmap_2).
  assert (forall b, b ∈ A1 ++ top :: bot :: A2 -> b ∈ A1 \/ b = top \/ b = bot \/ b ∈ A2) as Hcases by (intros b; rewrite elem_of_app, !elem_of_cons; tauto).
  apply arena_list_app in Hl as [Hl1 (T1 & T2 & T3 & Hl2)]. cbn [first] in *. destruct Hl2 as (B1 & B2 & B3 & Hl2).
  destruct (links_put p m (base bot) l (aup (base bot)) (lastb 0 A1) (Hh bot Hbot) (heap_seg _ _ _ _ _ H (Hh bot Hbot)) ltac:(by left)) as [P1 L1]. set (m1 := <[aup (base bot) := _]> m) in *.
  assert (exists m2, (if negb (lastb 0 A1 =? 0) then let* m := putw m1 (down (lastb 0 A1)) (base bot) in Ok (p, m) else Ok (set_arenalist (base bot) p, m1)) = Ok (set_arenalist (first (A1 ++ [bot]) 0) p, m2) /\ links_change 16 m m2 l /\
    (forall q, (forall b, last A1 = Some b -> q <> down (base b)) -> m2 !! q = m1 !! q) /\ (forall b, last A1 = Some b -> m2 !! down (base b) = Some (base bot))) as (m2 & P2 & L2 & F2 & D2).
  { destruct (decide (A1 = [])) as [->|Hne]; [exists m1; split_and!; [done..|intros b [=]]|]. destruct (exists_last Hne) as (A1' & b & ->). rewrite lastb_snoc, last_snoc. assert (b ∈ (A1' ++ [b]) ++ top :: bot :: A2) as Hb by (rewrite !elem_of_app; left; right; left).
    pose proof (links_header 16 _ _ _ _ _ _ ltac:(lia) H L1 (Hh b Hb)) as Sb. destruct (Z.eqb_spec (base b) 0) as [E|_]; [destruct Sb as (? & _); lia|]. cbn [negb].
    destruct (links_put p m1 (base b) l (down (base b)) (base bot) (Hh b Hb) Sb ltac:(by right)) as [-> L4]. cbn [rbind]. eexists. split; [|split; [by eapply links_trans|]].
    - assert (set_arenalist (first ((A1' ++ [b]) ++ [bot]) 0) p = p) as -> by (rewrite <-(set_same p) at 2; f_equal; rewrite Hfst; by destruct A1'). done.
    - split; [intros q Hq; rewrite lookup_insert_ne; [done|]; intros <-; by apply (Hq b)|intros c [= <-]; by rewrite lookup_insert_eq]. }
  assert (forall b, b ∈ A1 ++ top :: bot :: A2 -> base b <> base bot -> m2 !! aup (base b) = m !! aup (base b)) as Fup.
  { intros b Hb Hc. rewrite F2.
    - subst m1. rewrite lookup_insert_ne; [done|]. pose proof (Hap b bot Hb Hbot Hc). fields; lia.
    - intros c Hc1%last_Some_elem_of. destruct (Z.eq_dec (base b) (base c)) as [->|Hbc]; [fields; lia|]. pose proof (Hap b c Hb ltac:(apply elem_of_app; by left) Hbc). fields; lia. }
  assert (forall b, b ∈ A1 ++ top :: bot :: A2 -> (forall c, last A1 = Some c -> base c <> base b) -> m2 !! down (base b) = m !! down (base b)) as Fdn.
  { intros b Hb Hc. rewrite F2 by (intros c Hc1; pose proof (Hc c Hc1); fields; lia). subst m1. rewrite lookup_insert_ne; [done|].
    destruct (Z.eq_dec (base b) (base bot)) as [->|Hbc]; [fields; lia|]. pose proof (Hap b bot Hb Hbot Hbc). fields; lia. }
  exists m2. split; [done|]. split.
  - apply arena_list_app. cbn [first arena_list]. split; [|split; [|split; [|split]]].
    + eapply arena_list_change; [exact Hl1| | | |].
      * intros b Hb _. apply Fup; [apply elem_of_app; by left|]. apply Hne1; [done|right; left].
      * intros b Hb. pose proof (head_Some_elem_of _ _ Hb) as Hbin. rewrite Fup; [|apply elem_of_app; by left|apply Hne1; [done|right; left]]. destruct A1 as [|b' A1]; [done|]. injection Hb as ->. apply Hl1.
      * intros b Hb Hla. apply Fdn; [apply elem_of_app; by left|]. intros c Hc E. apply Hla. rewrite Hc. f_equal. apply (base_inj A1); [done|done|by apply last_Some_elem_of|done].
      * intros b Hb. split; [by apply D2|]. pose proof (last_Some_elem_of _ _ Hb) as Hbin. pose proof (arena_list_desc _ _ _ _ Hl1 b Hbin). lia.
    + rewrite F2; [subst m1; by rewrite lookup_insert_eq|]. intros c Hc1%last_Some_elem_of. pose proof (Hne1 c bot Hc1 ltac:(right; left)) as Hcb. pose proof (Hap c bot ltac:(apply elem_of_app; by left) Hbot Hcb). fields; lia.
    + rewrite Fdn; [done|done|]. intros c Hc%last_Some_elem_of. apply Hne1; [done|right; left].
    + done.
    + eapply arena_list_change; [exact Hl2| | | |].
      * intros b Hb _. apply Fup; [apply elem_of_app; right; by right; right|]. intros E. by apply (Hne2 b Hb).
      * intros b Hb. pose proof (head_Some_elem_of _ _ Hb) as Hbin. rewrite Fup; [|apply elem_of_app; right; by right; right|intros E; by apply (Hne2 b Hbin)]. destruct A2 as [|b' A2]; [done|]. injection Hb as ->. apply Hl2.
      * intros b Hb _. apply Fdn; [apply elem_of_app; right; by right; right|]. intros c Hc%last_Some_elem_of. apply Hne1; [done|by right; right].
      * intros b Hb. pose proof (last_Some_elem_of _ _ Hb) as Hbin. rewrite Fdn; [|apply elem_of_app; right; by right; right|intros c Hc%last_Some_elem_of; apply Hne1; [done|by right; right]].
        split; [by eapply arena_list_last|by eapply arena_list_desc].
  - intros B k. rewrite (get_some _ _ _ T1). cbn [rbind]. rewrite P1. cbn [rbind]. by rewrite P2.
Qed.
