(* ===== verification/PoolMerge.v ===== *)
(** * Merging arenas and allocating

    [arenamerge] of two arenas, [poolnewarena] and [poolallocl], against the promise of the coarser allocator. *)
From stdpp Require Import gmap list sorting.
From S2P Require Import Prelude Memory Pool PoolWords PoolTree PoolFree PoolBlocks PoolAlloc PoolArena.

Lemma contig_owned p m l : forall x e, Forall (seg_at p m) l -> contig x l e -> owned m x (e - x) /\ x <= e.
Proof.
  induction l as [|[a n k] l IH]; intros x e Hs Hc; cbn [contig addr sz] in Hc.
  - subst e. split; [|lia]. intros q Hq. lia.
  - apply Forall_cons in Hs as [(G1 & G2 & _) Hs]. destruct Hc as [-> Hc]. destruct (IH _ _ Hs Hc) as [I1 I2]. split; [|lia].
    replace (e - x) with (n + (e - (x + n))) by lia. by apply owned_app.
Qed.
Lemma arena_ends p m t ars a : pool_at p m t ars -> a ∈ ars -> m !! magic (base a) = Some ARENA_MAGIC /\ m !! asize (base a) = Some (extent a) /\
  m !! magic (base a + extent a - 8) = Some ARENATAIL_MAGIC /\ m !! bsize (base a + extent a - 8) = Some 0 /\ 24 < extent a /\ base a + extent a <= 2 ^ 32 /\ 0 < base a /\ base a mod 4 = 0 /\ extent a mod 4 = 0.
Proof.
  intros [P1 P2 P3 P4 P5] Ha. rewrite Forall_forall in P3. destruct (P3 a Ha) as (C & Hb & _ & As). assert (forall s, s ∈ layout a -> seg_at p m s) as Hs.
  { intros s Hs. apply (heap_seg _ _ _ _ _ P2). apply list_elem_of_split in Ha as (l1 & l2 & ->). rewrite flat_app, flat_cons. apply elem_of_app. right. apply elem_of_app. by left. }
  assert (mkSeg (base a + extent a - 8) sizeof_Bhdr KTail ∈ layout a) as Ht by (unfold layout; right; apply elem_of_app; right; left). pose proof (Hs _ Ht) as ((T1 & T2 & T3 & T4 & T5) & _ & _ & T6 & T7). unfold sizeof_Bhdr in *.
  pose proof (Hs (mkSeg (base a) sizeof_Arena KArena) ltac:(left)) as ((H1 & _ & H3 & _) & _ & _ & H4 & _).
  assert (base a + 24 <= base a + extent a - 8) as Hlen.
  { unfold layout in C. cbn [contig addr sz] in C. destruct C as [_ C]. apply contig_app in C as (y & C1 & C2). cbn [contig addr sz] in C2. destruct C2 as [<- _].
    destruct (contig_owned p m (body a) (base a + sizeof_Arena) _ ltac:(apply Forall_forall; intros s ?; apply Hs; right; apply elem_of_app; by left) C1) as [_ ?]. unfold sizeof_Arena in *. lia. }
  split_and!; try done; try lia. zlia.
Qed.
Lemma arena_check p m t ars a : pool_at p m t ars -> a ∈ ars -> blockcheck p m (base a) = Ok ().
Proof. intros H Ha. destruct (arena_ends _ _ _ _ _ H Ha) as (H1 & H2 & H3 & H4 & _). by eapply blockcheck_arena. Qed.
(** A segment outside of adjacent ones is outside of what they cover. *)
Lemma span_apart x n1 g n2 s k1 k2 k3 k : 0 < sz s -> 0 <= g -> seg_apart (mkSeg x n1 k1) s -> (0 < g -> seg_apart (mkSeg (x + n1) g k2) s) -> seg_apart (mkSeg (x + n1 + g) n2 k3) s -> 0 < n1 -> 0 < n2 -> seg_apart (mkSeg x (n1 + g + n2) k) s.
Proof. unfold seg_apart. cbn [addr sz]. destruct (decide (0 < g)); [intuition lia|]. intros Hs Hg. assert (g = 0) as -> by lia. lia. Qed.
(** The size of the joined arena; its tail is already there. *)
Lemma extend_size m a n w : is_Some (m !! asize a) -> m !! magic (a + n - 8) = Some ARENATAIL_MAGIC -> m !! bsize (a + n - 8) = Some 0 -> a + 24 <= a + n - 8 ->
  (w = n) -> arenasetsize m a w = Ok (<[asize a := n]> m).
Proof.
  intros Hs Ht Hb Hn ->. unfold arenasetsize. rewrite put_some by done. cbn [rbind]. rewrite (A2TB_ok _ _ n) by apply lookup_insert_eq. cbn [rbind]. fields.
  rewrite put_some by (apply insert_some; by eexists). cbn [rbind]. rewrite put_some by (apply insert_some, insert_some; by eexists). f_equal.
  apply map_eq. intros q. destruct (Z.eq_dec q (a + 16)) as [->|]; [by look|]. destruct (Z.eq_dec q (a + n - 8)) as [->|]; [by look|]. destruct (Z.eq_dec q (a + n - 8 + 4)) as [->|]; [by look|].
  by rewrite !lookup_insert_ne by lia.
Qed.
(** The blocks of the two arenas, after the growth of the last one of the lower arena. *)
Lemma flat_two A1 top bot A2 b0 x nx kx y yt : body bot = b0 ++ [mkSeg x nx kx] -> body top = y :: yt ->
  flat (A1 ++ top :: bot :: A2) ≡ₚ mkSeg x nx kx :: [mkSeg (base bot + extent bot - 8) sizeof_Bhdr KTail; mkSeg (base top) sizeof_Arena KArena] ++ y ::
    flat A1 ++ flat A2 ++ mkSeg (base bot) sizeof_Arena KArena :: b0 ++ yt ++ [mkSeg (base top + extent top - 8) sizeof_Bhdr KTail].
Proof. intros E1 E2. rewrite flat_app, !flat_cons. unfold layout. rewrite E1, E2. solve_Permutation. Qed.
Lemma alloc_seg (s : seg) v : alloc_of s = Some v -> exists b n d, s = mkSeg b n (KAlloc d) /\ v = (b + 8, d).
Proof. destruct s as [b n []]; try done. intros [= <-]. by eexists _, _, _. Qed.
Lemma merge_blocks p m t A1 top bot A2 b0 x nx kx y yt g : pool_ok p -> heap p m t (flat (A1 ++ top :: bot :: A2)) ->
  (forall a, a ∈ [top; bot] -> contig (base a) (layout a) (base a + extent a) /\ Forall settled (body a)) -> body bot = b0 ++ [mkSeg x nx kx] -> body top = y :: yt ->
  base bot + extent bot + g = base top -> 0 <= g -> owned m (base bot + extent bot) g -> (0 < g -> Forall (seg_apart (mkSeg (base bot + extent bot) g KArena)) (flat (A1 ++ top :: bot :: A2))) ->
  exists p' m' t' bd, let merged := mkArena (base bot) (base top + extent top - base bot) bd in
    blockgrow p m x (base top + 24 - x) = Ok (p', m') /\ heap p' m' t' (flat (A1 ++ merged :: A2)) /\ blockcheck p' m' x = Ok () /\
    contig (base bot) (layout merged) (base top + extent top) /\ Forall settled bd /\ bd <> [] /\ allocs (A1 ++ merged :: A2) ≡ₚ allocs (A1 ++ top :: bot :: A2) /\
    data_kept m m' (allocs (A1 ++ top :: bot :: A2)) /\ like p p' /\ headers_same m m' (A1 ++ bot :: A2) /\ covers (flat (A1 ++ top :: bot :: A2)) (flat (A1 ++ merged :: A2)).
Proof.
  intros Hp H Har Eb Et Eg Hg Og Fg. pose proof (flat_two A1 top bot A2 _ _ _ _ _ _ Eb Et) as Ef. pose proof (heap_perm _ _ _ _ _ Ef H) as H1. set (rest := flat A1 ++ _) in *. set (X := [mkSeg (base bot + extent bot - 8) sizeof_Bhdr KTail; mkSeg (base top) sizeof_Arena KArena]) in *.
  destruct (Har top ltac:(left)) as [Ct St]. destruct (Har bot ltac:(right; left)) as [Cb Sb]. rewrite Eb in Sb. rewrite Et in St. apply Forall_app in Sb as [Sb0 Sx%Forall_inv]. apply Forall_cons in St as [Sy Syt].
  unfold layout in Ct, Cb. rewrite Eb in Cb. rewrite Et in Ct. cbn [contig addr sz app] in Ct, Cb. destruct Ct as (_ & Ey & Ct). destruct Cb as (_ & Cb). rewrite <-app_assoc in Cb. apply contig_app in Cb as (x' & Cb0 & Cb). cbn [contig addr sz app] in Cb. destruct Cb as (<- & Cx & _).
  pose proof (heap_seg _ _ _ _ _ H1 ltac:(left)) as ((Qx1 & Qx2 & Qx3 & Qx4 & Qx5) & Ox & _). assert (mkSeg (base bot + extent bot - 8) sizeof_Bhdr KTail ∈ mkSeg x nx kx :: X ++ y :: rest) as Htl by (right; left). assert (mkSeg (base top) sizeof_Arena KArena ∈ mkSeg x nx kx :: X ++ y :: rest) as Hhd by (right; right; left).
  pose proof (heap_seg _ _ _ _ _ H1 Htl) as ((Qt1 & _) & Otl & _). pose proof (heap_seg _ _ _ _ _ H1 Hhd) as ((Qh1 & _) & Ohd & _). unfold sizeof_Bhdr, sizeof_Arena in *.
  set (n := base top + 24 - x). assert (n = nx + 8 + g + 24) as En by (subst n; lia).
  assert (owned m x n) as Hown.
  { rewrite En. apply owned_app; [apply owned_app; [apply owned_app|]|]; [exact Ox|by replace (x + nx) with (base bot + extent bot - 8) by lia|by replace (x + (nx + 8)) with (base bot + extent bot) by lia|by replace (x + (nx + 8 + g)) with (base top) by lia]. }
  assert (Forall (seg_apart (mkSeg x n kx)) (y :: rest)) as Hap.
  { apply Forall_forall. intros s Hs. assert (s ∈ mkSeg x nx kx :: X ++ y :: rest) as Hs' by (right; apply elem_of_app; by right). pose proof (heap_pos _ _ _ _ _ H1 Hs') as Hpos.
    pose proof (hp_apart _ _ _ _ H1) as Ha. subst X. cbn [apart app] in Ha. destruct Ha as (Ha1 & Ha2 & Ha3 & _). rewrite !Forall_cons in Ha1. rewrite Forall_cons in Ha2. destruct Ha1 as (_ & _ & Ha1). destruct Ha2 as (_ & Ha2). change (y :: rest) with ([y] ++ rest) in *.
    assert (forall P : seg -> Prop, Forall P (y :: rest) -> P s) as HF by (intros P HP; rewrite Forall_forall in HP; by apply HP).
    pose proof (HF _ ltac:(by apply Forall_cons)) as A1'. pose proof (HF _ Ha2) as A2'. pose proof (HF _ Ha3) as A3'.
    assert (0 < g -> seg_apart (mkSeg (base bot + extent bot) g KArena) s) as A4'. { intros Hg0. specialize (Fg Hg0). rewrite Ef, Forall_forall in Fg. by apply Fg. }
    clear -A1' A2' A3' A4' Hpos Cx Eg En Qx4 Hg. unfold seg_apart in *. cbn [addr sz] in *. destruct (decide (0 < g)) as [Hg0|Hg0]; [specialize (A4' Hg0)|]; lia. }
  assert (addr y = x + n) as Eyn by (rewrite Ey; subst n; lia).
  destruct (blockgrow_heap p m t x nx kx X y rest n Hp H1 eq_refl Sx Sy Eyn Hown) as (p' & m' & t' & mid & keep & E & H2 & L & C2 & S2 & (n' & k' & Hd) & Al & Hk & K2 & D2 & Cv); [rewrite En; zlia|lia|exact Hap|].
  set (bd := b0 ++ mid ++ opt_seg keep y ++ yt). exists p', m', t', bd. cbn zeta. set (merged := mkArena _ _ bd). split; [exact E|].
  assert (flat (A1 ++ merged :: A2) ≡ₚ mid ++ opt_seg keep y ++ rest) as Ef'.
  { rewrite flat_app, flat_cons. unfold layout, merged, rest, sizeof_Bhdr, sizeof_Arena. cbn [base extent body]. subst bd. replace (base bot + (base top + extent top - base bot) - 8) with (base top + extent top - 8) by lia. solve_Permutation. }
  assert (heap p' m' t' (flat (A1 ++ merged :: A2))) as H3 by (by eapply heap_perm).
  assert (omap alloc_of (opt_seg keep y) = omap alloc_of [y]) as Ealy by (destruct keep; [done|]; cbn; unfold alloc_of; by rewrite (Hk eq_refl)).
  split; [done|]. split; [|split; [|split; [|split; [|split; [|split; [|split; [done|split]]]]]]].
  - destruct mid as [|s mid]; [done|]. injection Hd as ->. apply Forall_cons in S2 as [S2 _]. eapply seg_check; [eapply (heap_seg _ _ _ _ _ H2); left|]. by destruct k'.
  - unfold layout, merged. cbn [base extent body contig addr sz]. split; [done|]. subst bd. rewrite <-!app_assoc. apply contig_app. exists x. split; [exact Cb0|]. rewrite app_assoc. apply contig_app. exists (x + n + sz y). split; [exact C2|].
    replace (x + n + sz y) with (base top + 24 + sz y) by lia. unfold sizeof_Bhdr. replace (base bot + (base top + extent top - base bot) - 8) with (base top + extent top - 8) by lia. exact Ct.
  - subst bd. rewrite !Forall_app. split_and!; [done|done| |done]. destruct keep; [by apply Forall_singleton|by apply Forall_nil].
  - subst bd. destruct mid; [done|]. by destruct b0.
  - unfold allocs. change (fun s => _) with alloc_of. rewrite Ef, Ef'. change (mkSeg x nx kx :: X ++ y :: rest) with ([mkSeg x nx kx] ++ X ++ [y] ++ rest).
    rewrite !omap_app, Al, Ealy. by change (omap alloc_of X) with (@nil (Z * Z)).
  - intros v d (nv & Hv)%alloc_in. pose proof (heap_seg _ _ _ _ _ H Hv) as Sv. rewrite Ef in Hv. apply elem_of_cons in Hv as [Ev|Hv].
    + injection Ev as Ev _ <-. eapply bytes_same_weaken; [|by apply (D2 d)]. intros z Hz. simpl in *. lia.
    + eapply bytes_same_weaken; [|eapply keeps_data; [exact K2| |exact Sv]]; [intros z Hz; simpl in *; lia|].
      subst X. rewrite elem_of_app, !elem_of_cons in Hv. destruct Hv as [[?|[?|?%not_elem_of_nil]]|[<-|Hv]]; [done..| |apply elem_of_app; by right].
      apply elem_of_app. left. destruct keep; [left|]. by specialize (Hk eq_refl).
  - eapply keeps_headers; [exact K2|]. intros a Ha. apply elem_of_app. right. unfold rest. rewrite !elem_of_app, elem_of_cons. apply elem_of_app in Ha as [Ha|[->|Ha]%elem_of_cons]; [left; by apply header_in|by right; right; left|right; left; by apply header_in].
  - intros b n0 Hin. rewrite Ef in Hin. change (mkSeg x nx kx :: X ++ y :: rest) with ([mkSeg x nx kx] ++ X ++ [y] ++ rest) in Hin. rewrite !elem_of_app in Hin.
    assert (mkSeg b n0 KFree ∈ [mkSeg x nx kx; y] \/ mkSeg b n0 KFree ∈ rest) as [Hin'|Hin'].
    { subst X. rewrite !elem_of_cons, elem_of_nil in *. destruct Hin as [[?|[]]|[[?|[?|[]]]|[[?|[]]|?]]]; [left; tauto|done|done|left; tauto|by right]. }
    + destruct (Cv b n0 Hin') as (b' & n1 & Hb' & Hle). exists b', n1. split; [|done]. rewrite Ef'. rewrite app_assoc. apply elem_of_app. by left.
    + exists b, n0. split; [|lia]. rewrite Ef'. rewrite !elem_of_app. by right; right.
Qed.

Section coarse.
Context {A : Type} (palloc : A -> words -> Z -> result (A * words * Z)) (pmerge : A -> words -> Z -> Z -> result (A * words * bool)) `{!Coarse palloc pmerge}.

Lemma fresh_some m m' a n : fresh_region m m' a n -> m ⊆ m'.
Proof. intros (_ & _ & _ & _ & _ & H). done. Qed.
Lemma ext_bytes (m m' : words) a n : m ⊆ m' -> owned m a n -> a mod 4 = 0 -> n mod 4 = 0 -> bytes_same m m' (fun x => a <= x < a + n).
Proof. intros H Ho Ha Hn x Hx. unfold byte_at. destruct (Ho (x - x mod 4) ltac:(zlia) ltac:(zlia)) as [w Hw]. by rewrite Hw, (lookup_weaken _ _ _ _ Hw H). Qed.
Lemma ext_data p m m' t ars : m ⊆ m' -> heap p m t (flat ars) -> data_kept m m' (allocs ars).
Proof.
  intros H Hh v d (n & Hv)%alloc_in. pose proof (heap_seg _ _ _ _ _ Hh Hv) as ((Q1 & Q2 & _) & Ho & _ & _ & _ & G1 & G2 & _). eapply bytes_same_weaken; [|exact (ext_bytes _ _ _ _ H Ho Q1 Q2)]. intros x Hx. simpl in *. lia.
Qed.
Lemma last_block a : body a <> [] -> exists b0 x nx kx, body a = b0 ++ [mkSeg x nx kx].
Proof. intros H. destruct (exists_last H) as (b0 & [x nx kx] & E). by exists b0, x, nx, kx. Qed.
Lemma arena_gap p m t A1 top bot A2 : pool_at p m t (A1 ++ top :: bot :: A2) -> base bot + extent bot <= base top.
Proof.
  intros H. pose proof H as [P1 P2 P3 P4 P5]. assert (bot ∈ A1 ++ top :: bot :: A2) as Hb by (apply elem_of_app; right; right; left). assert (top ∈ A1 ++ top :: bot :: A2) as Ht by (apply elem_of_app; right; left).
  apply arena_list_app in P5 as [_ (_ & _ & Hlt & _)]. cbn [first] in Hlt. destruct (arena_ends _ _ _ _ _ H Hb) as (_ & _ & _ & _ & Hlen & _). destruct (Z.le_gt_cases (base bot + extent bot) (base top)) as [?|Hgt]; [done|exfalso].
  assert (header (base top) ∈ flat (A1 ++ top :: bot :: A2)) as Hh by (by apply header_in). rewrite Forall_forall in P3. destruct (P3 bot Hb) as (C & _ & _ & _).
  assert (forall s, s ∈ layout bot -> seg_apart (header (base top)) s /\ 0 < sz s) as Hap.
  { intros s Hs. assert (s ∈ flat (A1 ++ top :: bot :: A2)) as Hs' by (rewrite flat_app, !flat_cons, !elem_of_app; tauto). split; [|by eapply heap_pos].
    destruct (apart_in _ _ _ (hp_apart _ _ _ _ P2) Hh Hs') as [<-|?]; [|done]. exfalso. pose proof (hp_apart _ _ _ _ P2) as Ha. rewrite flat_app, !flat_cons in Ha. apply apart_app in Ha as (_ & Ha & _). apply apart_app in Ha as (_ & _ & Ha).
    rewrite Forall_forall in Ha. specialize (Ha (header (base top)) ltac:(left)). rewrite Forall_forall in Ha. specialize (Ha _ ltac:(apply elem_of_app; by left)). unfold seg_apart, header, sizeof_Arena in Ha. simpl in Ha. lia. }
  assert (forall l x e, contig x l e -> (forall s, s ∈ l -> seg_apart (header (base top)) s /\ 0 < sz s) -> x <= base top < e -> False) as Hno.
  { clear. induction l as [|s l IH]; intros x e Hc Hs Hx; cbn [contig] in Hc; [lia|]. destruct Hc as [<- Hc]. destruct (Hs s ltac:(left)) as [Ha Hpos]. unfold seg_apart, header, sizeof_Arena in Ha. simpl in Ha.
    destruct (Z.lt_ge_cases (base top) (addr s + sz s)); [lia|]. eapply IH; [exact Hc| |lia]. intros s' Hs'. apply Hs. by right. }
  apply (Hno _ _ _ C Hap). lia.
Qed.
Lemma arenamerge_at p s m t A1 top bot A2 : pool_at p m t (A1 ++ top :: bot :: A2) ->
  exists p' s' m' t' ars', arenamerge pmerge p s m (base bot) (base top) = Ok (p', s', m') /\ pool_at p' m' t' ars' /\ like (set_arenalist (arenalist p') p) p' /\
    allocs ars' ≡ₚ allocs (A1 ++ top :: bot :: A2) /\ data_kept m m' (allocs (A1 ++ top :: bot :: A2)) /\ (ars' = A1 ++ top :: bot :: A2 \/ exists bot', ars' = A1 ++ bot' :: A2 /\ base bot' = base bot) /\ covers (flat (A1 ++ top :: bot :: A2)) (flat ars').
Proof.
  intros H. pose proof H as [P1 P2 P3 P4 P5]. assert (bot ∈ A1 ++ top :: bot :: A2) as Hb by (apply elem_of_app; right; right; left). assert (top ∈ A1 ++ top :: bot :: A2) as Ht by (apply elem_of_app; right; left).
  unfold arenamerge. rewrite (arena_check _ _ _ _ _ H Hb). cbn [rbind]. rewrite (arena_check _ _ _ _ _ H Ht). cbn [rbind]. pose proof (arena_gap _ _ _ _ _ _ _ H) as Hgap.
  pose proof P5 as [_ (_ & _ & Hlt & Hup & _)]%arena_list_app. cbn [first] in Hlt. rewrite (get_some _ _ _ Hup). cbn [rbind]. rewrite Z.eqb_refl. destruct (Z.ltb_spec (base bot) (base top)); [|lia]. cbn [andb check rbind].
  destruct (arena_ends _ _ _ _ _ H Hb) as (_ & Hsb & _ & _ & Hlb & Hlimb & H0b & H4b & H4nb). destruct (arena_ends _ _ _ _ _ H Ht) as (_ & Hst & Hmt & Hbt & Hlt' & Hlimt & H0t & H4t & H4nt).
  destruct (pmerge_ok s m (base bot) (base top) (extent bot) Hsb Hgap) as (s' & m0 & r & -> & Hr). cbn [rbind]. destruct Hr as [[-> ->]|[-> Hf]]; cbn [negb].
  { exists p, s', m, t, (A1 ++ top :: bot :: A2). split; [done|]. split; [done|]. split; [by destruct p|]. split; [done|]. split; [by intros v d _ x _|split; [by left|intros b n Hb'; by exists b, n]]. }
  pose proof (fresh_some _ _ _ _ Hf) as Hm. pose proof (ext_pool _ _ Hm _ _ _ H) as Hm0. pose proof Hm0 as [_ P2' _ _ P5'].
  destruct (remove_top p m0 t (flat (A1 ++ top :: bot :: A2)) A1 top bot A2 P2' P5' P4) as (m1 & L1 & Al1 & Ek); [intros b; by apply header_in|]. rewrite Ek. clear Ek. set (p1 := set_arenalist _ p).
  pose proof (links_heap 16 _ _ _ _ _ ltac:(lia) P2' L1) as Hm1. assert (heap p1 m1 t (flat (A1 ++ top :: bot :: A2))) as H1' by (by apply (heap_like p p1)).
  assert (forall a, a ∈ A1 ++ top :: bot :: A2 -> m1 !! asize (base a) = Some (extent a)) as Has.
  { intros a Ha. rewrite (links_asize _ _ _ _ _ _ P2' L1) by (by apply header_in). destruct (arena_ends _ _ _ _ _ Hm0 Ha) as (_ & ? & _). done. }
  rewrite (A2TB_ok _ _ _ (Has _ Hb)). cbn [rbind]. rewrite Forall_forall in P3. destruct (P3 bot Hb) as (Cb & Nb & Sb & _). destruct (P3 top Ht) as (Ct & Nt & St & _).
  destruct (last_block bot Nb) as (b0 & x & nx & kx & Eb). destruct (body top) as [|y yt] eqn:Et; [done|]. pose proof (flat_two A1 top bot A2 _ _ _ _ _ _ Eb Et) as Ef.
  assert (mkSeg x nx kx ∈ flat (A1 ++ top :: bot :: A2) /\ y ∈ flat (A1 ++ top :: bot :: A2)) as [Hxin Hyin] by (rewrite Ef; split; [left|right; apply elem_of_app; right; left]).
  assert (settled (mkSeg x nx kx) /\ settled y) as [Sx Sy] by (rewrite Eb in Sb; apply Forall_app in Sb as [_ Sb%Forall_inv]; apply Forall_inv in St; done).
  assert (base bot + extent bot - 8 = x + nx /\ addr y = base top + 24) as [Cx Ey].
  { unfold layout in Cb, Ct. rewrite Eb in Cb. rewrite Et in Ct. cbn [contig app addr sz] in Cb, Ct. destruct Cb as (_ & Cb). rewrite <-app_assoc in Cb. apply contig_app in Cb as (z & _ & Cb). cbn [contig addr sz app] in Cb. destruct Ct as (_ & -> & _). unfold sizeof_Arena. split; [|done]. lia. }
  pose proof (heap_seg _ _ _ _ _ H1' Hxin) as Sgx. assert (T2HDR m1 (B2PT (base bot + extent bot - 8)) = Ok x) as ->.
  { unfold T2HDR, B2PT, sizeof_Btail, tsize. rewrite (get_some _ _ nx); [cbn [rbind]; f_equal; lia|]. rewrite <-(seg_tail _ _ _ _ _ Sgx) by (by destruct kx). f_equal. lia. }
  cbn [rbind]. assert (B2NB m1 (base top) = Ok (base top + 24)) as ->.
  { unfold B2NB. rewrite (get_some _ _ sizeof_Arena); [done|]. apply (heap_seg _ _ _ _ _ H1' (header_in _ _ Ht)). }
  cbn [rbind]. rewrite (seg_check _ _ _ _ _ Sgx) by (by destruct kx). cbn [rbind]. assert (blockcheck p1 m1 (base top + 24) = Ok ()) as ->.
  { rewrite <-Ey. pose proof (heap_seg _ _ _ _ _ H1' Hyin) as Sgy. destruct y as [yb yn yk]. eapply seg_check; [exact Sgy|]. by destruct yk. }
  cbn [rbind]. rewrite (get_some _ _ _ (Has _ Ht)). cbn [rbind].
  set (E := base top + extent top - base bot). assert (extent top ⊞ (base top - base bot) = E) as -> by (subst E; rewrite u32_small; [lia|unfold_words; lia]).
  assert (base bot + E - 8 = base top + extent top - 8) as Etail by (subst E; lia).
  assert (mkSeg (base top + extent top - 8) sizeof_Bhdr KTail ∈ flat (A1 ++ top :: bot :: A2)) as Htl by (rewrite flat_app, !flat_cons; unfold layout; rewrite !elem_of_app, !elem_of_cons, !elem_of_app, list_elem_of_singleton; tauto).
  pose proof (heap_seg _ _ _ _ _ H1' Htl) as (_ & _ & _ & Tm & Ts).
  rewrite (extend_size m1 (base bot) E E) by (first [by eexists; apply Has|by rewrite Etail|subst E; lia]). cbn [rbind]. set (m2 := <[asize (base bot) := E]> m1).
  assert (links_change 20 m1 m2 (flat (A1 ++ top :: bot :: A2))) as L2.
  { split; [apply dom_insert_lookup_L; eexists; by apply Has|]. intros q Hq. apply lookup_insert_ne. pose proof (Hq (base bot) (header_in _ _ Hb)). fields; lia. }
  pose proof (links_heap 20 _ _ _ _ _ ltac:(lia) H1' L2) as H2. set (g := base top - (base bot + extent bot)). replace (base top + 24 - x) with (base top + 24 - x) by lia.
  assert (forall q, is_Some (m0 !! q) -> is_Some (m2 !! q)) as Hd by (intros q; rewrite <-!elem_of_dom, (proj1 L2), (proj1 L1); done).
  assert (owned m2 (base bot + extent bot) g) as Og by (intros q Hq Hq4; apply Hd; by apply Hf).
  assert (0 < g -> Forall (seg_apart (mkSeg (base bot + extent bot) g KArena)) (flat (A1 ++ top :: bot :: A2))) as Fg by (intros Hg0; by apply (fresh_apart p m m0 t)).
  destruct (merge_blocks p1 m2 t A1 top bot A2 b0 x nx kx y yt g P1 H2) as (p' & m' & t' & bd & Eg & H3 & Ec & C3 & S3 & N3 & Al3 & D3 & Lk & Hh3 & Cv3); [|done|done|subst g; lia|subst g; lia|exact Og|exact Fg|].
  { intros a Ha. apply elem_of_cons in Ha as [-> | ->%list_elem_of_singleton]; [split; [done|by rewrite Et]|done]. }
  cbn zeta in *. set (bot' := mkArena (base bot) E bd) in *. rewrite Eg. cbn [rbind]. rewrite Ec. cbn [rbind].
  assert (forall a, a ∈ A1 ++ bot :: A2 -> a ∈ A1 ++ top :: bot :: A2) as Hsub by (intros a; rewrite !elem_of_app, !elem_of_cons; tauto).
  assert (forall a, a ∈ A1 ++ A2 -> m' !! asize (base a) = Some (extent a)) as Has3.
  { intros a Ha. assert (a ∈ A1 ++ bot :: A2) as Ha' by (apply elem_of_app; apply elem_of_app in Ha as [Ha|Ha]; [by left|right; by right]). rewrite (Hh3 a Ha') by (unfold sizeof_Arena; fields; lia). subst m2. rewrite lookup_insert_ne; [by apply Has, Hsub|].
    pose proof (arena_list_nodup _ _ _ _ Al1) as Hnd. rewrite map_app in Hnd. cbn [map] in Hnd. apply NoDup_app in Hnd as (_ & Hnd1 & Hnd2). apply NoDup_cons in Hnd2 as [Hnd2 _]. fields. intros Eab. assert (base bot = base a) as Eba by lia. apply elem_of_app in Ha as [Ha|Ha].
    - apply (Hnd1 (base a)); [by apply list_elem_of_fmap_2|]. rewrite Eba. left.
    - apply Hnd2. rewrite Eba. by apply list_elem_of_fmap_2. }
  exists p', s', m', t', (A1 ++ bot' :: A2). split; [done|]. split; [constructor|split; [|split; [done|split; [|split]]]].
  - destruct P1 as [(k & Hk & Eqk) Hmb]. split; [exists k; split; [done|]; by rewrite Lk|by rewrite Lk].
  - exact H3.
  - rewrite <-Forall_forall in P3. apply Forall_app in P3 as [F1 F2]. apply Forall_cons in F2 as [_ F2]. apply Forall_cons in F2 as [_ F2]. apply Forall_app. split; [|apply Forall_cons; split].
    + rewrite Forall_forall in F1 |- *. intros a Ha. destruct (F1 a Ha) as (? & ? & ? & _). split_and!; try done. apply Has3. apply elem_of_app. by left.
    + split_and!; [|done|done|].
      * cbn [base extent bot']. by replace (base bot + E) with (base top + extent top) by (subst E; lia).
      * cbn [base extent bot']. rewrite (Hh3 bot) by (first [apply elem_of_app; right; left|unfold sizeof_Arena; fields; lia]). subst m2. apply lookup_insert_eq.
    + rewrite Forall_forall in F2 |- *. intros a Ha. destruct (F2 a Ha) as (? & ? & ? & _). split_and!; try done. apply Has3. apply elem_of_app. by right.
  - rewrite Lk. cbn [arenalist set_curfree set_freeroot p1 set_arenalist]. by destruct A1.
  - eapply (arena_list_frame m1); [| |exact Al1]; [by rewrite !map_app|]. intros a Ha q Hq. rewrite (Hh3 a Ha) by (unfold sizeof_Arena; lia). subst m2. rewrite lookup_insert_ne; [done|].
    destruct (apart_in _ _ _ (hp_apart _ _ _ _ H1') (header_in _ _ (Hsub a Ha)) (header_in _ _ Hb)) as [Eab|Hap]; [injection Eab as Eab; fields; lia|]. unfold seg_apart, sizeof_Arena in Hap. cbn [addr sz] in Hap. fields; lia.
  - unfold like in *. rewrite Lk. done.
  - intros v d Hv. eapply bytes_same_trans; [eapply ext_data; [exact Hm|exact P2|exact Hv]|]. eapply bytes_same_trans; [|by apply (D3 v d)]. pose proof Hv as (nv & Hv')%alloc_in.
    eapply bytes_same_trans; [eapply bytes_same_weaken; [|eapply (links_data 16); [lia|exact P2'|exact L1|exact Hv']]|eapply bytes_same_weaken; [|eapply (links_data 20); [lia|exact H1'|exact L2|exact Hv']]]; intros z Hz; simpl in *; lia.
  - right. by exists bot'.
  - exact Cv3.
Qed.

(** *** [poolnewarena] *)

Lemma asize_spec p n : pool_ok p -> MINBLOCKSIZE <= n < 2 ^ 31 + 2 ^ 14 -> n mod 4 = 0 -> let a := bsize2asize p n in n + 32 <= a < 2 ^ 32 /\ a mod 4 = 0.
Proof.
  intros [(k & Hk & Eq) Hm] Hn Hn4. unfold bsize2asize, MINBLOCKSIZE, sizeof_Arena, sizeof_Free, sizeof_Btail in *. cbn zeta. rewrite (u32_small (n + (24 + 8))) by (unfold_words; lia).
  set (x := if _ <? minarena p then _ else _). assert (n + 32 <= x <= 2 ^ 31 + 2 ^ 14 + 32) as Hx by (subst x; destruct (Z.ltb_spec (n + (24 + 8)) (minarena p)); lia). clearbody x.
  destruct (pow2_quantum k (proj1 Hk)) as (j & Ej & Hj). assert (2 ^ k <= 2 ^ 12) as Hq by (apply Z.pow_le_mono_r; lia). rewrite Eq. unfold round_down. rewrite u32_small by (unfold_words; lia). rewrite land_clear_word by (unfold_words; lia).
  set (q := 2 ^ k) in *. clearbody q. pose proof (Z.mod_pos_bound (x + q) q ltac:(lia)) as Hmod. pose proof (Z.div_mod (x + q) q ltac:(lia)) as Hdiv.
  set (r := (x + q) mod q) in *. set (c := (x + q) / q) in *. clearbody r c. assert (x + q - r = q * c) as -> by lia. split; [lia|]. rewrite Ej, <-Z.mul_assoc, Z.mul_comm. apply Z_mod_mult.
Qed.
(** The pools before and after differ in the sizes, the tree and the list only. *)
Definition like_arena (p p' : pool) : Prop := p' = set_arenalist (arenalist p') (set_curfree (curfree p') (set_freeroot (freeroot p') (set_cursize (cursize p') p))).
Lemma like_arena_like p p' p'' : like_arena p p' -> like (set_arenalist (arenalist p'') p') p'' -> like_arena p p'' /\ cursize p'' = cursize p'.
Proof. unfold like_arena, like. intros E1 E2. rewrite E2. cbn [arenalist curfree freeroot cursize set_curfree set_freeroot set_arenalist]. split; [|done]. rewrite E1. done. Qed.
Lemma data_perm m m' l l' : l ≡ₚ l' -> data_kept m m' l -> data_kept m m' l'.
Proof. intros E H v d Hv. apply H. by rewrite E. Qed.
Lemma data_trans m m' m'' l : data_kept m m' l -> data_kept m' m'' l -> data_kept m m'' l.
Proof. intros H1 H2 v d Hv. eapply bytes_same_trans; [by apply H1|by apply H2]. Qed.
(** A new arena of one free block, in the list. *)
Lemma add_arena p m m0 t ars a n : pool_at p m t ars -> a <> 0 -> fresh_region m m0 a n -> 64 <= n -> n mod 4 = 0 ->
  exists p' m' t' l1 l2, let new := mkArena a n [mkSeg (a + 24) (n - 32) KFree] in ars = l1 ++ l2 /\ pool_at p' m' t' (l1 ++ new :: l2) /\ like_arena p p' /\ cursize p' = cursize p /\ data_kept m m' (allocs ars) /\
    forall B (k : pool -> words -> result B), (let* m := putw m0 (magic a) ARENA_MAGIC in
      let* m := blocksetsize m a sizeof_Arena in
      let* m := arenasetsize m a n in
      let* _ := blockcheck p m a in
      let* b := B2NB m a in
      let* m := putw m (magic b) UNALLOC_MAGIC in
      let* tail := A2TB m a in
      let* m := blocksetsize m b (tail - b) in
      let* _ := blockcheck p m b in
      let* (p, m) := pooladd p m b in
      let* _ := blockcheck p m b in
      let* (lastap, ap) := arena_place (turns m) m a 0 (arenalist p) in
      let* m := putw m (down a) ap in
      let* m := if negb (ap =? 0) then putw m (aup ap) a else Ok m in
      let* m := putw m (aup a) lastap in
      let* (p, m) := if negb (lastap =? 0) then let* m := putw m (down lastap) a in Ok (p, m) else Ok (set_arenalist a p, m) in k p m) = k p' m'.
Proof.
  intros H Ha Hf Hn Hn4. pose proof H as [P1 P2 P3 P4 P5]. pose proof (fresh_some _ _ _ _ Hf) as Hm. destruct (init_arena p m m0 t (flat ars) a n P2 Hf Hn Hn4) as (m1 & E1 & H1 & A1 & D1 & F1).
  change (new_segs a n KUnalloc ++ flat ars) with (mkSeg (a + 24) (n - 32) KUnalloc :: [mkSeg a sizeof_Arena KArena; mkSeg (a + n - 8) sizeof_Bhdr KTail] ++ flat ars) in H1.
  destruct (pooladd_heap _ _ _ _ _ _ _ H1) as (m2 & t2 & E2 & H2 & K2 & _). cbn zeta in *. set (p2 := set_curfree _ _) in *. set (l := mkSeg (a + 24) (n - 32) KFree :: _) in *. set (new := mkArena a n [mkSeg (a + 24) (n - 32) KFree]).
  pose proof (fresh_apart p m m0 t (flat ars) a n KFree P2 Hf ltac:(lia)) as Hfa. rewrite Forall_forall in Hfa.
  assert (forall b, b ∈ ars -> header (base b) ∈ l /\ header (base b) ∈ flat ars) as Hh by (intros b Hb; pose proof (header_in _ _ Hb); split; [right; right; by right|done]).
  assert (forall s q, s ∈ flat ars -> addr s <= q < addr s + sz s -> m1 !! q = m0 !! q) as F1' by (intros s q Hs Hq; apply F1; pose proof (Hfa s Hs); unfold seg_apart in *; simpl in *; lia).
  assert (forall b q, b ∈ ars -> base b <= q < base b + 24 -> m2 !! q = m0 !! q) as Fh.
  { intros b q Hb Hq. destruct (Hh b Hb) as [_ Hb']. rewrite (proj2 K2 (header (base b))); [|right; by right|done|done]. by apply (F1' _ _ Hb'). }
  assert (arena_list m2 0 ars 0) as Al2 by (eapply (arena_list_frame m0); [done|intros b Hb q Hq; apply (Fh b q Hb); lia|by eapply ext_list]).
  destruct (insert_arena p2 m2 t2 l ars new H2 Al2 P4) as (l1 & l2 & m3 & -> & L3 & Al3 & Ek); [|right; by left|].
  { intros b Hb. split; [by apply Hh|]. intros E. pose proof (Hfa _ (proj2 (Hh b Hb))) as Hx. unfold seg_apart, header, sizeof_Arena in Hx. simpl in Hx, E. lia. }
  pose proof (links_heap 16 _ _ _ _ _ ltac:(lia) H2 L3) as H3. assert (flat (l1 ++ new :: l2) ≡ₚ l) as Ef by (subst l; rewrite !flat_app, flat_cons; unfold layout, new; cbn [base extent body]; solve_Permutation).
  exists (set_arenalist (first (l1 ++ [new]) 0) p2), m3, t2, l1, l2. cbn zeta. split; [done|]. split; [constructor|split; [|split; [done|split]]].
  - done.
  - eapply heap_perm; [symmetry; exact Ef|]. by apply (heap_like p2).
  - assert (forall b, b ∈ l1 ++ l2 -> arena_at m3 b) as Hb.
    { intros b Hb. rewrite Forall_forall in P3. destruct (P3 b Hb) as (G1 & G2 & G3 & G4). split_and!; try done. rewrite (links_asize _ _ _ _ _ _ H2 L3) by (by apply Hh). rewrite (Fh b) by (done || fields; lia). by eapply lookup_weaken. }
    apply Forall_app. split; [apply Forall_forall; intros b ?; apply Hb, elem_of_app; by left|]. apply Forall_cons. split; [|apply Forall_forall; intros b ?; apply Hb, elem_of_app; by right].
    split_and!; [|done|by apply Forall_singleton|].
    + unfold layout, new, sizeof_Arena, sizeof_Bhdr. cbn [base extent body contig app addr sz]. lia.
    + cbn [new base extent]. rewrite (links_asize _ _ _ _ _ a H2 L3) by (right; by left). rewrite <-A1. apply (proj2 K2 (header a)); [left|unfold header, sizeof_Arena; fields; cbn [addr sz]; lia|done].
  - cbn [arenalist set_arenalist]. by destruct l1.
  - done.
  - done.
  - eapply data_trans; [by eapply ext_data|]. intros v d (nv & Hv)%alloc_in. pose proof (heap_seg _ _ _ _ _ P2 Hv) as Sv.
    assert (mkSeg (v - 8) nv (KAlloc d) ∈ l) as Hvl by (right; right; by right). pose proof Sv as ((Q1 & Q2 & _) & _ & _ & _ & _ & G1 & G2 & _).
    apply (bytes_same_trans m0 m1); [|apply (bytes_same_trans m1 m2)].
    + intros x Hx. simpl in Hx. apply (bytes_same_in m0 m1 (v - 8) nv); [done|done| |lia]. intros q Hq. by apply (F1' _ _ Hv).
    + eapply bytes_same_weaken; [|eapply keeps_data; [exact K2|right; right; exact Hv|eapply (heap_seg _ _ _ _ _ H1); right; right; right; exact Hv]]. intros x Hx. simpl in *. lia.
    + eapply bytes_same_weaken; [|eapply (links_data 16); [lia|exact H2|exact L3|exact Hvl]]. intros x Hx. simpl in *. lia.
  - intros B k. rewrite E1, E2. cbn [rbind]. rewrite (seg_check _ _ _ _ _ (heap_seg _ _ _ _ _ H2 ltac:(left)) I). cbn [rbind]. exact (Ek B k).
Qed.

(** The pool would grow over its limit, or the coarser allocator has no memory. *)
Definition refused (p : pool) (s : A) (m : words) (n : Z) : Prop := maxsize p < cursize p ⊞ n \/ exists s', palloc s m n = Ok (s', m, 0).
(** What [poolnewarena] does to a pool. *)
Definition grown (p : pool) (s : A) (m : words) (ars : list arena) (n : Z) (p' : pool) (m' : words) (t' : tree) (ars' : list arena) : Prop :=
  pool_at p' m' t' ars' /\ like_arena p p' /\ allocs ars' ≡ₚ allocs ars /\ data_kept m m' (allocs ars) /\
  ((p' = p /\ m' = m /\ ars' = ars /\ refused p s m n) \/ (cursize p' = cursize p ⊞ n /\ cursize p' <= maxsize p /\ exists b k, mkSeg b k KFree ∈ flat ars' /\ n - 32 <= k)).
Lemma like_arena_refl p : like_arena p p.
Proof. by destruct p. Qed.
Lemma poolnewarena_at p s m t ars n : pool_at p m t ars -> 64 <= n < 2 ^ 32 -> n mod 4 = 0 ->
  exists p' s' m' t' ars', poolnewarena palloc pmerge None p s m n = Ok (p', s', m') /\ grown p s m ars n p' m' t' ars'.
Proof.
  intros H Hn Hn4. unfold poolnewarena. assert (refused p s m n -> forall s' : A, exists p' s'' m' t' ars', Ok (p, s', m) = Ok (p', s'', m') /\ grown p s m ars n p' m' t' ars') as Hsame.
  { intros Hr s'. exists p, s', m, t, ars. split; [done|]. split; [done|]. split; [apply like_arena_refl|]. split; [done|]. split; [by intros v d _ x _|by left]. }
  destruct (Z.ltb_spec (maxsize p) (cursize p ⊞ n)) as [?|Hmax]; [apply Hsame; by left|]. destruct (palloc_ok s m n ltac:(lia)) as (s1 & m0 & a & Ep & Ha). rewrite Ep. cbn [rbind]. destruct Ha as [[-> ->]|[Ha Hf]]; [apply Hsame; right; by exists s1|].
  destruct (Z.eqb_spec a 0); [done|]. set (p1 := set_cursize _ p). assert (pool_at p1 m t ars) as H1 by (destruct H as [G1 G2 G3 G4 G5]; constructor; [done|by apply (heap_like p)|done|done|done]).
  destruct (add_arena p1 m m0 t ars a n H1 Ha Hf ltac:(lia) Hn4) as (p2 & m2 & t2 & l1 & l2 & -> & H2 & L2 & C2 & D2 & Ek). cbn zeta in *. rewrite Ek. clear Ek. set (new := mkArena a n _) in *.
  assert (allocs (l1 ++ new :: l2) ≡ₚ allocs (l1 ++ l2)) as Ea by (unfold allocs; change (fun s => _) with alloc_of; by rewrite !flat_app, flat_cons, !omap_app).
  assert (exists b k, mkSeg b k KFree ∈ flat (l1 ++ new :: l2) /\ n - 32 <= k) as Hfree by (exists (a + 24), (n - 32); split; [rewrite flat_app, flat_cons; apply elem_of_app; right; right; left|lia]).
  pose proof (pa_list _ _ _ _ H2) as [_ (Hup & _)]%arena_list_app. cbn [new base] in Hup. rewrite (get_some _ _ _ Hup). cbn [rbind].
  assert (exists p3 s3 m3 t3 L1 x, (if negb (lastb 0 l1 =? 0) then arenamerge pmerge p2 s1 m2 a (lastb 0 l1) else Ok (p2, s1, m2)) = Ok (p3, s3, m3) /\ pool_at p3 m3 t3 (L1 ++ x :: l2) /\ base x = a /\
    like_arena p1 p3 /\ cursize p3 = cursize p1 /\ allocs (L1 ++ x :: l2) ≡ₚ allocs (l1 ++ l2) /\ data_kept m m3 (allocs (l1 ++ l2)) /\ exists b k, mkSeg b k KFree ∈ flat (L1 ++ x :: l2) /\ n - 32 <= k) as (p3 & s3 & m3 & t3 & L1 & x & -> & H3 & Ex & L3 & C3 & A3 & D3 & F3).
  { destruct (decide (l1 = [])) as [->|Hne]; [by exists p2, s1, m2, t2, [], new|]. destruct (exists_last Hne) as (l1' & u & ->). rewrite lastb_snoc. assert (u ∈ (l1' ++ [u]) ++ new :: l2) as Hu by (rewrite !elem_of_app; left; right; left).
    destruct (arena_ends _ _ _ _ _ H2 Hu) as (_ & _ & _ & _ & _ & _ & H0u & _). destruct (Z.eqb_spec (base u) 0); [lia|]. cbn [negb]. rewrite <-app_assoc in H2, Hfree, Ea, D2, Ea. cbn [app] in H2, Hfree, Ea, D2.
    destruct (arenamerge_at p2 s1 m2 t2 l1' u new l2 H2) as (p3 & s3 & m3 & t3 & ars3 & E3 & H3 & L3 & A3 & D3 & S3 & V3). cbn [new base] in E3. destruct Hfree as (b & k & Hb & Hk). destruct (V3 b k Hb) as (b' & k' & Hb' & Hk').
    destruct (like_arena_like _ _ _ L2 L3) as [L3' C3]. assert (exists L1 x, ars3 = L1 ++ x :: l2 /\ base x = a) as (L1 & x & -> & Ex).
    { destruct S3 as [->|(bt' & -> & Eb)]; [by exists (l1' ++ [u]), new; rewrite <-app_assoc|by exists l1', bt']. }
    exists p3, s3, m3, t3, L1, x. rewrite <-app_assoc in *. cbn [app] in *. split; [done|]. split; [done|]. split; [done|]. split; [done|]. split; [congruence|]. split; [by rewrite A3|].
    split; [|exists b', k'; split; [done|lia]]. eapply data_trans; [exact D2|]. eapply data_perm; [exact Ea|exact D3]. }
  cbn [rbind]. pose proof (pa_list _ _ _ _ H3) as [_ (_ & Hdn & _)]%arena_list_app. rewrite Ex in Hdn. rewrite (get_some _ _ _ Hdn). cbn [rbind].
  assert (forall p4, like_arena p1 p4 -> like_arena p p4) as Hlike by (unfold like_arena; intros p4 ->; done).
  assert (cursize p1 = cursize p ⊞ n) as C1 by done. destruct l2 as [|d l2].
  - exists p3, s3, m3, t3, (L1 ++ [x]). split; [done|]. split; [done|]. split; [by apply Hlike|]. split; [done|]. split; [done|]. right. split; [congruence|]. split; [rewrite C3, C1; lia|done].
  - cbn [first]. assert (d ∈ L1 ++ x :: d :: l2) as Hd by (rewrite !elem_of_app; right; right; left). destruct (arena_ends _ _ _ _ _ H3 Hd) as (_ & _ & _ & _ & _ & _ & H0d & _). destruct (Z.eqb_spec (base d) 0); [lia|]. cbn [negb].
    destruct (arenamerge_at p3 s3 m3 t3 L1 x d l2 H3) as (p4 & s4 & m4 & t4 & ars4 & E4 & H4 & L4 & A4 & D4 & _ & V4). rewrite Ex in E4. destruct (like_arena_like _ _ _ L3 L4) as [L4' C4].
    destruct F3 as (b & k & Hb & Hk). destruct (V4 b k Hb) as (b' & k' & Hb' & Hk'). exists p4, s4, m4, t4, ars4. split; [done|]. split; [done|]. split; [by apply Hlike|]. split; [by rewrite A4|].
    split; [eapply data_trans; [exact D3|]; eapply data_perm; [exact A3|exact D4]|]. right. split; [congruence|]. split; [rewrite C4, C3, C1; lia|]. exists b', k'. split; [done|lia].
Qed.

(** *** [poolallocl] *)

(** The search of the tree. *)
Lemma lookup_pool p m t ars size : pool_at p m t ars -> exists v, treelookupgt (turns m) m (freeroot p) size 0 = Ok v /\
  ((v = 0 /\ forall b k, mkSeg b k KFree ∈ flat ars -> k < size) \/ (v <> 0 /\ exists k, (v, k) ∈ blocks t /\ size <= k /\ forall b k', mkSeg b k' KFree ∈ flat ars -> size <= k' -> k <= k')).
Proof.
  intros [_ H _ _ _]. rewrite (hp_root _ _ _ _ H). destruct (lookupgt_ok m t size (turns m) 0 (hp_tree _ _ _ _ H) (hp_bst _ _ _ _ H)) as (v & E & D).
  { apply height_turns; [apply H|apply (heap_spaced _ _ _ _ H)]. }
  assert (forall b k, mkSeg b k KFree ∈ flat ars -> k ∈ sizes t) as Hs by (intros b k Hb; apply (blocks_sizes t b); rewrite (hp_free _ _ _ _ H); by apply elem_free).
  exists v. split; [done|]. destruct D as [[-> D]|(k & D1 & D2 & D3)]; [left|right].
  - split; [done|]. intros b k Hb. by apply D, (Hs b).
  - split; [destruct (tree_in _ _ _ _ (hp_tree _ _ _ _ H) D1) as [? _]; lia|]. exists k. split; [done|]. split; [done|]. intros b k' Hb. by apply D3, (Hs b).
Qed.
(** The smallest free block that is large enough. *)
Definition best_fit (ars : list arena) (b k size : Z) : Prop := mkSeg b k KFree ∈ flat ars /\ size <= k /\ forall b' k', mkSeg b' k' KFree ∈ flat ars -> size <= k' -> k <= k'.
(** What [poolallocl] does: a new block of the callers, or nothing. *)
Definition allocated (p : pool) (s : A) (m : words) (ars : list arena) (d : Z) (p' : pool) (m' : words) (ars' : list arena) (v : Z) : Prop :=
  data_kept m m' (allocs ars) /\
  (v = 0 /\ p' = p /\ m' = m /\ ars' = ars /\ (2 ^ 31 <= d \/ (forall b k, mkSeg b k KFree ∈ flat ars -> k < dsize2bsize p d) /\ refused p s m (bsize2asize p (dsize2bsize p d))) \/
   v <> 0 /\ d < 2 ^ 31 /\ allocs ars' ≡ₚ (v, d) :: allocs ars /\ exists n, mkSeg (v - 8) n (KAlloc d) ∈ flat ars' /\ dsize2bsize p d <= n /\ curalloc p' = curalloc p ⊞ n /\
     ((exists k, best_fit ars (v - 8) k (dsize2bsize p d)) \/ forall b k, mkSeg b k KFree ∈ flat ars -> k < dsize2bsize p d)).
Definition same_limits (p p' : pool) : Prop := quantum p' = quantum p /\ minblock p' = minblock p /\ minarena p' = minarena p /\ maxsize p' = maxsize p /\ noreuse p' = noreuse p /\ tolerance p' = tolerance p.
(** A free block found, the rest. *)
Lemma take_found p (s : A) m t ars d fb k : pool_at p m t ars -> (fb, k) ∈ blocks t -> 0 <= d < 2 ^ 31 -> dsize2bsize p d <= k ->
  exists p' m' t' ars' n, (let* (p, m) := pooldel p m fb in
      let* (p, m, ab) := trim p m fb d in
      let* size := getw m (bsize ab) in
      let* v := B2D m ab in
      Ok (set_curalloc (curalloc p ⊞ size) p, s, m, v)) = Ok (p', s, m', fb + 8) /\ pool_at p' m' t' ars' /\ mkSeg fb n (KAlloc d) ∈ flat ars' /\ dsize2bsize p d <= n /\ allocs ars' ≡ₚ (fb + 8, d) :: allocs ars /\ data_kept m m' (allocs ars) /\
    like (set_curalloc (curalloc p ⊞ n) p) p' /\ 0 < fb.
Proof.
  intros H Hin Hd Hfit. destruct (take_block p m t ars fb k d H Hin Hd Hfit) as (p1 & m1 & p' & m' & t' & ars' & n & E1 & E2 & H2 & L & Sg & Hn & Al & D). rewrite E1. cbn [rbind]. rewrite E2. cbn [rbind].
  rewrite (get_some _ _ _ (seg_size _ _ _ _ _ Sg ltac:(done))). cbn [rbind]. unfold B2D. rewrite (get_some _ _ _ (seg_magic _ _ _ _ _ Sg)). cbn [rbind magic_of]. change (ALLOC_MAGIC =? ALLOC_MAGIC) with true. cbn [check rbind].
  assert ((fb + 8, d) ∈ allocs ars') as Hal by (rewrite Al; left). apply alloc_in in Hal as (n' & Hal). replace (fb + 8 - 8) with fb in Hal by lia.
  assert (n' = n) as ->. { pose proof (seg_size _ _ _ _ _ (heap_seg _ _ _ _ _ (pa_heap _ _ _ _ H2) Hal) ltac:(done)) as E. rewrite (seg_size _ _ _ _ _ Sg ltac:(done)) in E. by injection E. }
  exists (set_curalloc (curalloc p' ⊞ n) p'), m', t', ars', n. split; [done|]. split; [destruct H2 as [G1 G2 G3 G4 G5]; constructor; [done|by apply (heap_like p')|done|done|done]|].
  split; [done|]. split; [lia|]. split; [done|]. split; [done|]. split; [|destruct Sg as (? & _); lia]. unfold like in *. rewrite L. done.
Qed.
Lemma poolallocl_at p s m t ars d : pool_at p m t ars -> 0 <= d ->
  exists p' s' m' t' ars' v, poolallocl palloc pmerge None p s m d = Ok (p', s', m', v) /\ pool_at p' m' t' ars' /\ same_limits p p' /\ allocated p s m ars d p' m' ars' v.
Proof.
  intros H Hd. unfold poolallocl. destruct (Z.leb_spec 0x80000000 d) as [Hbig|Hd'].
  { exists p, s, m, t, ars, 0. split; [done|]. split; [done|]. split; [by split_and!|]. split; [by intros v' d' _ x _|]. left. split_and!; [done..|]. left. lia. }
  assert (0 <= d < 2 ^ 31) as Hd2 by lia. pose proof (bsize_spec p d (pa_ok _ _ _ _ H) Hd2) as (B1 & _ & B3 & B4 & B5 & _). set (bs := dsize2bsize p d) in *.
  destruct (lookup_pool p m t ars bs H) as (fb & -> & D). cbn [rbind]. destruct D as [[-> Hnone]|(Hfb & k & Hk1 & Hk2 & Hk3)].
  - cbn [Z.eqb]. destruct (asize_spec p bs (pa_ok _ _ _ _ H) ltac:(lia) B1) as [Ha1 Ha2]. unfold MINBLOCKSIZE, sizeof_Free, sizeof_Btail in B4.
    destruct (poolnewarena_at p s m t ars (bsize2asize p bs) H ltac:(lia) Ha2) as (p1 & s1 & m1 & t1 & ars1 & -> & H1 & L1 & A1 & D1 & G1). cbn [rbind].
    destruct (lookup_pool p1 m1 t1 ars1 bs H1) as (fb & -> & D). cbn [rbind]. destruct D as [[-> Hnone1]|(Hfb & k & Hk1 & Hk2 & _)].
    + cbn [Z.eqb]. destruct G1 as [(-> & -> & -> & Hr)|(_ & _ & b & k & Hb & Hk)].
      * exists p, s1, m, t1, ars, 0. split; [done|]. split; [done|]. split; [by split_and!|]. split; [done|]. left. split_and!; [done..|]. right. by split.
      * specialize (Hnone1 b k Hb). lia.
    + destruct (Z.eqb_spec fb 0); [done|]. assert (dsize2bsize p1 d = bs) as Ebs by (rewrite L1; done).
      destruct (take_found p1 s1 m1 t1 ars1 d fb k H1 Hk1 Hd2 ltac:(lia)) as (p' & m' & t' & ars' & nn & E & H' & Hin & Hn & Al & Dk & Lk & H0). rewrite E. rewrite Ebs in Hn.
      exists p', s1, m', t', ars', (fb + 8). split; [done|]. split; [done|]. split; [rewrite Lk, L1; by split_and!|]. split; [eapply data_trans; [exact D1|]; eapply data_perm; [exact A1|exact Dk]|].
      right. split; [lia|]. split; [lia|]. split; [by rewrite Al, A1|]. exists nn. replace (fb + 8 - 8) with fb by lia. split; [done|]. split; [done|]. rewrite Lk. cbn [curalloc set_curalloc set_curfree set_freeroot]. split; [by rewrite L1|by right].
  - destruct (Z.eqb_spec fb 0); [done|]. cbn [rbind]. destruct (Z.eqb_spec fb 0); [done|].
    destruct (take_found p s m t ars d fb k H Hk1 Hd2 ltac:(lia)) as (p' & m' & t' & ars' & n' & E & H' & Hin & Hn & Al & Dk & Lk & H0). rewrite E.
    exists p', s, m', t', ars', (fb + 8). split; [done|]. split; [done|]. split; [rewrite Lk; by split_and!|]. split; [done|].
    right. split; [lia|]. split; [lia|]. split; [done|]. exists n'. replace (fb + 8 - 8) with fb by lia. split; [done|]. split; [done|]. split; [by rewrite Lk|]. left. exists k. split; [|by split].
    apply elem_free. by rewrite <-(hp_free _ _ _ _ (pa_heap _ _ _ _ H)).
Qed.
End coarse.
