(* ===== verification/PoolSafe.v ===== *)
(** * Runs of a pool

    A pool and its callers: they allocate, free what they have and write into what they have, in any order.  The theorems say that no
    call fails an assertion or leaves the memory of the pool, that the areas the callers have do not overlap, and that what they wrote stays. *)
From stdpp Require Import gmap list sorting.
From S2P Require Import Prelude Memory Pool PoolWords PoolTree PoolFree PoolBlocks PoolAlloc PoolArena PoolMerge.

(** ** The callers' bytes *)

Lemma allocs_perm_in ars v d : (v, d) ∈ allocs ars -> exists b n, v = b + 8 /\ mkSeg b n (KAlloc d) ∈ flat ars.
Proof. intros (n & H)%alloc_in. exists (v - 8), n. split; [lia|done]. Qed.
(** A caller writes a byte of its own. *)
Lemma user_write p m t ars v d a x : pool_at p m t ars -> (v, d) ∈ allocs ars -> v <= a < v + d ->
  exists m', putb m a x = Ok m' /\ pool_at p m' t ars /\ byte_at m' a = Some (u8 x) /\ bytes_same m m' (fun b => b <> a).
Proof.
  intros H (b & n & -> & Hin)%allocs_perm_in Ha. pose proof H as [P1 P2 P3 P4 P5]. pose proof (heap_seg _ _ _ _ _ P2 Hin) as Sg. pose proof Sg as ((Q1 & Q2 & Q3 & Q4 & Q5) & Ho & G1 & (G2 & G3 & G4 & G5 & G6) & [G7 G8] & G9 & G10 & G11 & G12).
  destruct (putb_at m a x) as (m' & E & B & D & F & S); [eapply owned_byte; [exact Ho|done|done|lia]|]. exists m'. split; [done|]. split; [|done].
  assert (forall q, q < b + 8 \/ b + n - 8 <= q -> q mod 4 = 0 -> m' !! q = m !! q) as F' by (intros q Hq Hq4; apply F; zlia).
  assert (forall q, q < b \/ b + n <= q -> m' !! q = m !! q) as F2 by (intros q Hq; apply F; zlia).
  pose proof Hin as (l1 & l2 & El)%list_elem_of_split. assert (flat ars ≡ₚ [mkSeg b n (KAlloc d)] ++ l1 ++ l2) as Ep by (rewrite El; solve_Permutation). pose proof (heap_perm _ _ _ _ _ Ep P2) as Hh.
  assert (forall s q, s ∈ l1 ++ l2 -> addr s <= q < addr s + sz s -> m' !! q = m !! q) as Fl.
  { intros s q Hs Hq. apply F2. pose proof (hp_apart _ _ _ _ Hh) as [Hap _]. rewrite Forall_forall in Hap. pose proof (Hap s Hs). unfold seg_apart in *. simpl in *. lia. }
  assert (heap p m' t ([mkSeg b n (KAlloc d)] ++ l1 ++ l2)) as Hh'.
  { apply (heap_change p m m' t _ _ _ Hh); [done|done|done|done| |apply Hh]. apply Forall_singleton. split; [done|]. split; [by eapply owned_dom|]. split; [done|]. unfold MINBLOCKSIZE, sizeof_Free, sizeof_Btail, block_at, tail_at in *. fields. unfold tsize, magic0, magic1, datasize, short_at in *.
    split; [|split; [|done]].
    - split; [rewrite F' by (done || lia); done|]. split; [rewrite F' by (zlia || lia); done|]. split; [rewrite F' by (zlia || lia); done|]. rewrite !S by lia. done.
    - split; [unfold short_at, datasize; rewrite !S by lia; done|]. intros z Hz. rewrite S by lia. by apply G8. }
  pose proof (heap_perm _ _ _ _ _ (symmetry Ep) Hh') as Hh2.
  assert (forall y q, y ∈ ars -> base y <= q < base y + 24 -> m' !! q = m !! q) as Fh.
  { intros y q Hy Hq. pose proof (header_in _ _ Hy) as Hyin. rewrite Ep in Hyin. apply elem_of_cons in Hyin as [?|Hyin]; [done|]. by apply (Fl _ _ Hyin). }
  constructor; [done|done| |done|].
  - rewrite Forall_forall in P3 |- *. intros y Hy. destruct (P3 y Hy) as (? & ? & ? & ?). split_and!; try done. rewrite (Fh y) by (done || fields; lia). done.
  - eapply (arena_list_frame m); [done| |done]. intros y Hy q Hq. apply (Fh y); [done|lia].
Qed.
(** The areas do not overlap. *)
Definition areas_apart (l : list (Z * Z)) : Prop := forall v d v' d', (v, d) ∈ l -> (v', d') ∈ l -> v <> v' -> v + d <= v' \/ v' + d' <= v.
Lemma pool_areas p m t ars : pool_at p m t ars -> areas_apart (allocs ars) /\ NoDup (allocs ars).*1.
Proof.
  intros [_ H _ _ _]. split.
  - intros v d v' d' (b & n & -> & H1)%allocs_perm_in (b' & n' & -> & H2)%allocs_perm_in Hne. pose proof (heap_seg _ _ _ _ _ H H1) as ((_ & _) & _ & _ & _ & _ & G1 & G2 & _). pose proof (heap_seg _ _ _ _ _ H H2) as ((_ & _) & _ & _ & _ & _ & G1' & G2' & _).
    destruct (apart_in _ _ _ (hp_apart _ _ _ _ H) H1 H2) as [E|E]; [injection E; lia|]. unfold seg_apart in E. simpl in E. lia.
  - unfold allocs. change (fun s => _) with alloc_of. pose proof (hp_apart _ _ _ _ H) as Ha. assert (forall s, s ∈ flat ars -> 0 < sz s) as Hpos by (intros s Hs; by eapply heap_pos). clear H.
    induction (flat ars) as [|s l IH]; [constructor|]. destruct Ha as [H1 H2]. assert (NoDup (omap alloc_of l).*1) as Hnd by (apply IH; [done|]; intros s' ?; apply Hpos; by right).
    cbn [omap list_omap]. destruct (alloc_of s) as [[v d]|] eqn:E; [|done]. apply alloc_seg in E as (b & n & d' & -> & [= -> ->]). apply NoDup_cons. split; [|done].
    intros ([v d] & Ev & Hv)%list_elem_of_fmap. simpl in Ev. subst v. apply list_elem_of_omap in Hv as (s' & Hs' & E). apply alloc_seg in E as (b' & n' & d2 & -> & [= Eb ->]). rewrite Forall_forall in H1. pose proof (H1 _ Hs') as Hx. unfold seg_apart in Hx. simpl in Hx.
    pose proof (Hpos _ ltac:(left)). pose proof (Hpos (mkSeg b' n' (KAlloc d2)) ltac:(by right)). simpl in *. lia.
Qed.

(** ** Runs *)

Section runs.
Context {A : Type} (palloc : A -> words -> Z -> result (A * words * Z)) (pmerge : A -> words -> Z -> Z -> result (A * words * bool)) `{!Coarse palloc pmerge}.

(** The pool, the coarser allocator, memory, the areas that the callers have. *)
Record system := mkSystem { sy_pool : pool; sy_coarse : A; sy_mem : words; sy_live : list (Z * Z) }.
Inductive op := Alloc (d : Z) | Free (v : Z) | Write (a x : Z).
Inductive step : op -> system -> system -> Prop :=
  | StepAlloc p s m l d p' s' m' v : 0 <= d -> poolallocl palloc pmerge None p s m d = Ok (p', s', m', v) ->
      step (Alloc d) (mkSystem p s m l) (mkSystem p' s' m' (if v =? 0 then l else (v, d) :: l))
  | StepFree p s m l1 v d l2 p' m' : poolfreel p m v = Ok (p', m') -> step (Free v) (mkSystem p s m (l1 ++ (v, d) :: l2)) (mkSystem p' s m' (l1 ++ l2))
  | StepWrite p s m l v d a x m' : (v, d) ∈ l -> v <= a < v + d -> putb m a x = Ok m' -> step (Write a x) (mkSystem p s m l) (mkSystem p s m' l).
Definition move (y y' : system) : Prop := exists o, step o y y'.
(** What a step may change of the callers' bytes. *)
Definition contents_kept (o : op) (y y' : system) : Prop :=
  match o with
  | Write a x => byte_at (sy_mem y') a = Some (u8 x) /\ bytes_same (sy_mem y) (sy_mem y') (fun b => b <> a)
  | _ => forall v d, (v, d) ∈ sy_live y -> (v, d) ∈ sy_live y' -> bytes_same (sy_mem y) (sy_mem y') (fun x => v <= x < v + d)
  end.
(** A pool without arenas; no memory is its own yet. *)
Definition empty_pool (p : pool) : Prop := pool_ok p /\ freeroot p = 0 /\ arenalist p = 0 /\ curfree p = 0 /\ noreuse p = false.
Definition sound (y : system) : Prop :=
  noreuse (sy_pool y) = false /\ exists t ars, pool_at (sy_pool y) (sy_mem y) t ars /\ allocs ars ≡ₚ sy_live y.

Lemma empty_at p : empty_pool p -> pool_at p ∅ Leaf [].
Proof.
  intros (H1 & H2 & H3 & H4 & _). constructor; [done| |by apply Forall_nil|done|done]. constructor; [done|done|constructor|by apply Forall_nil|done|done|by rewrite H4].
Qed.
Lemma free_sound p m t ars l1 v d l2 : pool_at p m t ars -> noreuse p = false -> allocs ars ≡ₚ l1 ++ (v, d) :: l2 ->
  exists p' m' t' ars', poolfreel p m v = Ok (p', m') /\ pool_at p' m' t' ars' /\ allocs ars' ≡ₚ l1 ++ l2 /\ noreuse p' = false /\ data_kept m m' (l1 ++ l2).
Proof.
  intros H Hn Hl. assert ((v, d) ∈ allocs ars) as Hin by (rewrite Hl; apply elem_of_app; right; left). apply allocs_perm_in in Hin as (b & n & -> & Hin).
  pose proof (heap_seg _ _ _ _ _ (pa_heap _ _ _ _ H) Hin) as Sg. assert (b + 8 <> 0) as Hne by (destruct Sg as (? & _); lia).
  destruct (poolfreel_at p m t ars b n d (b + 8) H Hn Hin Hne (D2B_ok _ _ _ _ _ Sg)) as (p' & m' & t' & ars' & E & H' & Al & L & D & _). exists p', m', t', ars'. split; [done|]. split; [done|].
  assert (allocs ars' ≡ₚ l1 ++ l2) as Al' by (apply (Permutation_cons_inv (a := (b + 8, d))); rewrite <-Al, Hl; solve_Permutation). split; [done|]. split; [by rewrite L|]. eapply data_perm; [exact Al'|]. exact D.
Qed.
Lemma step_sound o y y' : step o y y' -> sound y -> sound y' /\ contents_kept o y y'.
Proof.
  intros Hs (Hn & t & ars & H & Hl). destruct Hs as [p s m l d p' s' m' v Hd E|p s m l1 v d l2 p' m' E|p s m l v d a x m' Hin Ha E]; unfold sound, contents_kept; cbn [sy_pool sy_mem sy_live] in *.
  - destruct (poolallocl_at palloc pmerge p s m t ars d H Hd) as (p2 & s2 & m2 & t2 & ars2 & v2 & E2 & H2 & L2 & D2 & C2). rewrite E in E2. injection E2 as <- <- <- <-.
    split; [|intros v' d' Hv _; apply D2; by rewrite Hl]. split; [destruct L2 as (_ & _ & _ & _ & -> & _); done|]. exists t2, ars2. split; [done|].
    destruct C2 as [(-> & -> & -> & -> & _)|(Hv & _ & Al & _)]; [done|]. destruct (Z.eqb_spec v 0); [done|]. by rewrite Al, Hl.
  - destruct (free_sound p m t ars l1 v d l2 H Hn Hl) as (p2 & m2 & t2 & ars2 & E2 & H2 & Al & N2 & D2). rewrite E in E2. injection E2 as <- <-. split; [split; [done|by exists t2, ars2]|]. intros v' d' _ Hv. by apply D2.
  - rewrite <-Hl in Hin. destruct (user_write p m t ars v d a x H Hin Ha) as (m2 & E2 & H2 & B2 & S2). rewrite E in E2. injection E2 as <-. split; [split; [done|by exists t, ars]|]. done.
Qed.
Lemma run_sound p s y : empty_pool p -> rtc move (mkSystem p s ∅ []) y -> sound y.
Proof.
  intros Hp Hr. assert (sound (mkSystem p s ∅ [])) as H0 by (split; [apply Hp|]; exists Leaf, []; split; [by apply empty_at|done]).
  induction Hr as [y|y1 y2 y3 [o H1] _ IH]; [done|]. apply IH. by destruct (step_sound _ _ _ H1 H0).
Qed.
(** No call goes wrong: each returns, without a failed assertion and inside of the memory. *)
Definition calls_return (y : system) : Prop :=
  (forall d, 0 <= d -> exists r, poolallocl palloc pmerge None (sy_pool y) (sy_coarse y) (sy_mem y) d = Ok r) /\
  (forall v d, (v, d) ∈ sy_live y -> exists r, poolfreel (sy_pool y) (sy_mem y) v = Ok r) /\
  (forall v d a x, (v, d) ∈ sy_live y -> v <= a < v + d -> exists m', putb (sy_mem y) a x = Ok m').
Lemma sound_calls y : sound y -> calls_return y.
Proof.
  intros (Hn & t & ars & H & Hl). split_and!.
  - intros d Hd. destruct (poolallocl_at palloc pmerge _ (sy_coarse y) _ t ars d H Hd) as (p2 & s2 & m2 & t2 & ars2 & v2 & E2 & _). by eexists.
  - intros v d Hv. apply list_elem_of_split in Hv as (l1 & l2 & E). rewrite E in Hl. destruct (free_sound _ _ t ars l1 v d l2 H Hn Hl) as (p2 & m2 & t2 & ars2 & E2 & _). by eexists.
  - intros v d a x Hv Ha. rewrite <-Hl in Hv. destruct (user_write _ _ t ars v d a x H Hv Ha) as (m2 & E2 & _). by eexists.
Qed.

(** C11: whatever callers do with a pool of the kernel that starts empty, allocating, freeing what they have and writing into it: every call
    returns without a failed assertion; the areas that they have do not overlap; and a step changes none of their bytes but the one that it writes. *)
Theorem pool_runs p s y : empty_pool p -> rtc move (mkSystem p s ∅ []) y ->
  calls_return y /\ areas_apart (sy_live y) /\ NoDup (sy_live y).*1 /\ forall o y', step o y y' -> contents_kept o y y'.
Proof.
  intros Hp Hr. pose proof (run_sound p s y Hp Hr) as Hy. split; [by apply sound_calls|]. pose proof Hy as (_ & t & ars & H & Hl). destruct (pool_areas _ _ _ _ H) as [Ha Hnd].
  split; [intros v d v' d' H1 H2; apply Ha; by rewrite Hl|]. split; [by rewrite <-Hl|]. intros o y' Hs. by destruct (step_sound o y y' Hs Hy).
Qed.
End runs.
