(* ===== verification/PoolCheck.v ===== *)
(** * The check of a pool, and the pools of the kernel

    [poolcheckl] walks every arena and the whole tree and panics at the first inconsistency: it accepts every pool that the other
    operations leave.  The promise of a coarser allocator is kept by a simple one, and runs of it are examples of what the code does. *)
From stdpp Require Import gmap list sorting.
From S2P Require Import Prelude Memory Pool PoolWords PoolTree PoolFree PoolBlocks PoolAlloc PoolArena PoolMerge PoolSafe.

(** ** The tree passes *)

Lemma ring_from m l q : ring_at m l -> q ∈ l -> exists k, chain m (q :: k ++ [q]) /\ q :: k ≡ₚ l.
Proof.
  intros Hr (l1 & l2 & ->)%list_elem_of_split. destruct l1 as [|h l1]; cbn [app ring_at] in Hr; [by exists l2|].
  exists (l2 ++ h :: l1). rewrite <-!app_assoc in *. cbn [app] in *. split; [by apply chain_rotate in Hr|]. solve_Permutation.
Qed.
Lemma links_check_ok m l q sz : ring_at m l -> Forall (free_block m sz) l -> q ∈ l -> links_check m q = Ok ().
Proof.
  intros Hr Hf Hq. rewrite Forall_forall in Hf. destruct (ring_from m l q Hr Hq) as (k & Hc & Hp). assert (forall x, x ∈ q :: k -> 0 < x) as Hpos by (intros x Hx; rewrite Hp in Hx; by destruct (Hf x Hx)).
  assert (exists x, m !! next q = Some x /\ m !! prev x = Some q /\ 0 < x) as (x & X1 & X2 & X3).
  { destruct k as [|x k]; destruct Hc as (? & ? & _); [exists q|exists x]; split_and!; try done; apply Hpos; [left|right; left]. }
  assert (exists y, m !! prev q = Some y /\ m !! next y = Some q /\ 0 < y) as (y & Y1 & Y2 & Y3).
  { destruct (exists_last (l := q :: k)) as (k0 & y & E); [done|]. change (q :: k ++ [q]) with ((q :: k) ++ [q]) in Hc. rewrite E, <-app_assoc in Hc. cbn [app] in Hc. apply chain_snoc in Hc as (_ & ? & ?).
    exists y. split_and!; [done|done|]. apply Hpos. rewrite E. apply elem_of_app. right. left. }
  unfold links_check. rewrite (get_some _ _ _ X1). cbn [rbind]. destruct (Z.eqb_spec x 0); [lia|]. rewrite (get_some _ _ _ X2). cbn [rbind]. rewrite Z.eqb_refl. cbn [check rbind].
  rewrite (get_some _ _ _ Y1). cbn [rbind]. destruct (Z.eqb_spec y 0); [lia|]. rewrite (get_some _ _ _ Y2). cbn [rbind]. by rewrite Z.eqb_refl.
Qed.
Lemma checklist_ok m h sz l : ring_at m (h :: l) -> Forall (free_block m sz) (h :: l) -> NoDup (h :: l) -> forall k fuel q, (exists k0, h :: l = k0 ++ k) -> head (k ++ [h]) = Some q -> h ∉ k -> (length k < fuel)%nat -> checklist fuel m h q = Ok ().
Proof.
  intros Hr Hf Hnd. pose proof Hf as Hf'. rewrite Forall_forall in Hf'. induction k as [|x k IH]; intros [|fuel] q [k0 Ek] Hq Hh Hlen; simpl in Hlen; try lia; cbn [checklist].
  - injection Hq as <-. by rewrite Z.eqb_refl.
  - injection Hq as <-. apply not_elem_of_cons in Hh as [Hhx Hh]. destruct (Z.eqb_spec x h); [done|]. assert (x ∈ h :: l) as Hx by (rewrite Ek; apply elem_of_app; right; left).
    destruct (Hf' x Hx) as (_ & X1 & X2 & _). destruct (Hf' h ltac:(left)) as (_ & _ & H2 & _). rewrite (get_some _ _ _ X2). cbn [rbind]. rewrite (get_some _ _ _ H2). cbn [rbind]. rewrite Z.eqb_refl. cbn [check rbind].
    rewrite (links_check_ok m _ x sz Hr Hf Hx). cbn [rbind]. rewrite (get_some _ _ _ X1). cbn [rbind]. rewrite Z.eqb_refl. cbn [check rbind].
    assert (exists y, m !! next x = Some y /\ head (k ++ [h]) = Some y) as (y & Y1 & Y2).
    { unfold ring_at in Hr. change (h :: l ++ [h]) with ((h :: l) ++ [h]) in Hr. rewrite Ek, <-app_assoc in Hr. cbn [app] in Hr. apply chain_app in Hr as [_ Hr]. destruct k as [|y k]; destruct Hr as (? & _); [by exists h|by exists y]. }
    rewrite (get_some _ _ _ Y1). cbn [rbind]. apply IH; [|done|done|lia]. exists (k0 ++ [x]). by rewrite <-app_assoc.
Qed.
Lemma checktree_ok m t : forall fuel a b, tree_at m t -> t <> Leaf -> bst t -> NoDup (elems t) -> (height t < fuel)%nat -> 0 <= a < 2 ^ 32 -> 0 <= b < 2 ^ 32 -> (forall s, s ∈ sizes t -> a < s < b) -> checktree fuel m (root t) a b = Ok ().
Proof.
  induction t as [|l IHl sz h rest r IHr]; intros [|fuel] a b Ht Hne Hb Hnd Hf Ha Hbb Hs; try done; cbn [height] in Hf; [lia|]. pose proof Ht as (Hn & Tl & Tr). destruct (node_head _ _ _ _ _ _ Hn) as (H0 & H1 & H2 & _).
  pose proof Hn as (N1 & N2 & N3 & N4). apply bst_node in Hb as (Bl & Br & Hll & Hrr). cbn [elems] in Hnd. apply NoDup_app in Hnd as (Ndl & Hnd & Ndr). apply NoDup_app in Ndr as (Ndh & _ & Ndr).
  assert (sz ∈ sizes (Node l sz h rest r)) as Hsz by (cbn [sizes]; apply elem_of_app; right; left). pose proof (Hs sz Hsz). cbn [checktree root]. rewrite (get_some _ _ _ H1). cbn [rbind]. rewrite Z.eqb_refl. cbn [check rbind].
  rewrite (get_some _ _ _ H2). cbn [rbind]. rewrite !u32_small by (unfold_words; lia). destruct (Z.ltb_spec a sz), (Z.ltb_spec sz b); try lia. cbn [andb check rbind].
  rewrite (links_check_ok m (h :: rest) h sz N3 N4) by left. cbn [rbind].
  assert (exists x, m !! next h = Some x /\ head (rest ++ [h]) = Some x) as (x & X1 & X2) by (unfold ring_at in N3; destruct rest as [|x rest]; destruct N3 as (? & _); [by exists h|by exists x]).
  rewrite (get_some _ _ _ X1). cbn [rbind]. rewrite (checklist_ok m h sz rest N3 N4 Ndh rest (turns m) x); [|by exists [h]|done|by apply NoDup_cons in Ndh as [? _]|].
  2: { assert (length rest <= size m)%nat; [|unfold turns; lia]. apply NoDup_cons in Ndh as [_ Ndh]. rewrite <-size_dom, <-(size_list_to_set (C := gset Z)) by done. apply subseteq_size. intros y Hy%elem_of_list_to_set. rewrite Forall_forall in N4.
       destruct (N4 y ltac:(by right)) as (_ & Hy1 & _). apply elem_of_dom. by eexists. }
  cbn [rbind]. rewrite (get_some _ _ _ N1). cbn [rbind]. rewrite (root_zero m l Tl).
  assert (match l with Leaf => True | _ => checktree fuel m (root l) a sz = Ok () end) as Cl.
  { destruct l eqn:El; [done|]. rewrite <-El in *. apply IHl; try done; try lia; [by subst|]. intros s Hsl. split; [apply Hs; cbn [sizes]; apply elem_of_app; by left|by apply Hll]. }
  replace (if match l with Leaf => true | Node _ _ _ _ _ => false end then Ok () else checktree fuel m (root l) a sz) with (@Ok unit ()) by (by destruct l). cbn [rbind]. rewrite (get_some _ _ _ N2). cbn [rbind]. rewrite (root_zero m r Tr).
  destruct r eqn:Er; [done|]. rewrite <-Er in *. apply IHr; try done; try lia; [by subst|]. intros s Hsr. split; [by apply Hrr|apply Hs; cbn [sizes]; apply elem_of_app; right; by right].
Qed.

(** ** The arenas pass *)

Lemma addrs_nodup l : apart l -> (forall s, s ∈ l -> 0 < sz s) -> NoDup (map addr l).
Proof.
  induction l as [|s l IH]; [constructor|]. intros [H1 H2] Hp. cbn [map]. apply NoDup_cons. split; [|apply IH; [done|intros s' ?; apply Hp; by right]].
  intros (s' & E & Hs')%list_elem_of_fmap. rewrite Forall_forall in H1. pose proof (H1 s' Hs'). pose proof (Hp s ltac:(left)). pose proof (Hp s' ltac:(by right)). unfold seg_apart in *. lia.
Qed.
Lemma segs_turns p m t l : heap p m t l -> (length l < turns m)%nat.
Proof.
  intros H. pose proof (addrs_nodup l (hp_apart _ _ _ _ H) (fun s => heap_pos _ _ _ _ s H)) as Hnd. unfold turns. enough (length l <= size m)%nat by lia.
  rewrite <-(length_map addr), <-size_dom, <-(size_list_to_set (C := gset Z)) by done. apply subseteq_size. intros a Ha%elem_of_list_to_set. apply list_elem_of_fmap in Ha as ([b n k] & -> & Hs).
  apply elem_of_dom. pose proof (seg_magic _ _ _ _ _ (heap_seg _ _ _ _ _ H Hs)). by eexists.
Qed.
Lemma walk_blocks_ok p m tl n l : seg_at p m (mkSeg tl n KTail) -> forall x fuel, Forall (seg_at p m) l -> Forall (fun s => kd s <> KTail /\ blockcheck p m (addr s) = Ok () /\ magic_of (kd s) <> ARENATAIL_MAGIC) l -> contig x l tl -> (length l < fuel)%nat ->
  walk_blocks fuel p m x tl = Ok tl.
Proof.
  intros Ht. induction l as [|[a k kk] l IH]; intros x [|fuel] Hs Hk Hc Hf; simpl in Hf; try lia; cbn [walk_blocks contig addr sz] in *.
  - subst x. rewrite (get_some _ _ _ (seg_magic _ _ _ _ _ Ht)). done.
  - destruct Hc as [<- Hc]. apply Forall_cons in Hs as [Sa Hs]. apply Forall_cons in Hk as [(K1 & K2 & K3) Hk]. cbn [kd addr] in *. rewrite (get_some _ _ _ (seg_magic _ _ _ _ _ Sa)). cbn [rbind].
    destruct (Z.eqb_spec (magic_of kk) ARENATAIL_MAGIC); [done|]. destruct (contig_owned p m l _ _ Hs Hc) as [_ Hle]. pose proof Sa as ((_ & _ & _ & Ha & _) & _). destruct (Z.ltb_spec a tl); [|lia]. cbn [negb andb]. rewrite K2. cbn [rbind].
    unfold B2NB. rewrite (get_some _ _ _ (seg_size _ _ _ _ _ Sa K1)). cbn [rbind]. apply IH; (done || lia).
Qed.

Lemma sizes_blocks t s : s ∈ sizes t -> exists a, (a, s) ∈ blocks t.
Proof.
  induction t as [|l IHl z h rest r IHr]; cbn [sizes blocks]; [by intros ?%not_elem_of_nil|]. rewrite elem_of_app, elem_of_cons. intros [Hs|[->|Hs]].
  - destruct (IHl Hs) as [a Ha]. exists a. rewrite elem_of_app. by left.
  - exists h. rewrite !elem_of_app, list_elem_of_fmap. right. left. exists h. split; [done|left].
  - destruct (IHr Hs) as [a Ha]. exists a. rewrite !elem_of_app. tauto.
Qed.
Lemma layout_in ars a s : a ∈ ars -> s ∈ layout a -> s ∈ flat ars.
Proof. intros (l1 & l2 & ->)%list_elem_of_split Hs. rewrite flat_app, flat_cons, !elem_of_app. right. by left. Qed.
Lemma poolcheckarena_ok p m t ars a : pool_at p m t ars -> a ∈ ars -> poolcheckarena p m (base a) = Ok ().
Proof.
  intros H Ha. destruct (arena_ends _ _ _ _ _ H Ha) as (H1 & H2 & H3 & H4 & _). pose proof (arena_check _ _ _ _ _ H Ha) as Hc. pose proof (pa_arenas _ _ _ _ H) as Hall. rewrite Forall_forall in Hall. destruct (Hall a Ha) as (C & _ & Hs & _).
  assert (forall s, s ∈ layout a -> seg_at p m s) as Hseg by (intros s Hin; apply (heap_seg p m t (flat ars)); [apply H|by apply (layout_in _ a)]).
  assert (length (layout a) < turns m)%nat as Hlen.
  { eapply Nat.le_lt_trans; [|apply (segs_turns p m t (flat ars)), H]. apply list_elem_of_split in Ha as (l1 & l2 & ->). rewrite flat_app, flat_cons, !length_app. lia. }
  unfold poolcheckarena. rewrite (A2TB_ok _ _ _ H2). cbn [rbind]. unfold layout in *. rewrite app_comm_cons in *. apply contig_app in C as (y & C & [<- _]). cbn [addr] in *.
  rewrite (walk_blocks_ok p m (base a + extent a - 8) sizeof_Bhdr (mkSeg (base a) sizeof_Arena KArena :: body a)).
  - cbn [rbind]. assert (blockcheck p m (base a + extent a - 8) = Ok ()) as -> by (unfold blockcheck; rewrite (get_some _ _ _ H3); cbn -[getw]; by rewrite (get_some _ _ _ H4)).
    cbn [rbind]. by rewrite Z.eqb_refl.
  - apply Hseg, elem_of_app. right. left.
  - apply Forall_forall. intros s Hin. apply Hseg, elem_of_app. by left.
  - apply Forall_cons. split; [by split_and!|]. rewrite Forall_forall in Hs |- *. intros [b n k] Hin. pose proof (Hs _ Hin) as Hk. assert (seg_at p m (mkSeg b n k)) as Sb by (apply Hseg, elem_of_app; left; by right).
    unfold settled in Hk. cbn [kd addr] in *. split; [by intros ->|]. split; [apply (seg_check _ _ _ n k Sb); by destruct k|]. by destruct k.
  - done.
  - rewrite length_app in Hlen. simpl in *. lia.
Qed.
Lemma check_arenas_ok p m t ars : pool_at p m t ars -> forall l up fuel, (forall a, a ∈ l -> a ∈ ars) -> arena_list m up l 0 -> (length l < fuel)%nat -> check_arenas fuel p m (first l 0) = Ok ().
Proof.
  intros H. induction l as [|a l IH]; intros up [|fuel] Hl Hal Hf; simpl in Hf; try lia; [done|]. cbn [check_arenas first]. destruct (arena_ends _ _ _ _ _ H (Hl a ltac:(left))) as (_ & _ & _ & _ & _ & _ & H0 & _). destruct (Z.eqb_spec (base a) 0); [lia|].
  rewrite (poolcheckarena_ok _ _ _ _ _ H (Hl a ltac:(left))). cbn [rbind]. destruct Hal as (_ & A2 & _ & A4). rewrite (get_some _ _ _ A2). cbn [rbind]. eapply IH; [|exact A4|lia]. intros b Hb. apply Hl. by right.
Qed.
Lemma poolcheckl_ok p m t ars : pool_at p m t ars -> (forall b n, mkSeg b n KFree ∈ flat ars -> n < 2 ^ 30) -> poolcheckl p m = Ok ().
Proof.
  intros H Hn. pose proof H as [P1 P2 P3 P4 P5]. unfold poolcheckl. rewrite P4. rewrite (check_arenas_ok p m t ars H ars 0); [|done|done|].
  2: { eapply headers_turns; [exact P2|exact P5|]. intros b Hb. by apply header_in. }
  cbn [rbind]. rewrite (hp_root _ _ _ _ P2). rewrite (root_zero m t (hp_tree _ _ _ _ P2)). assert (t = Leaf \/ t <> Leaf) as [->|Hne] by (destruct t; auto); [done|].
  destruct (match t with Leaf => true | _ => false end) eqn:Em; [by destruct t|].
  pose proof (heap_spaced _ _ _ _ P2) as Hsp. apply checktree_ok; [apply P2|done|apply P2|apply Hsp|apply height_turns; [apply P2|apply Hsp]|lia|lia|].
  intros s Hs. apply sizes_blocks in Hs as [a Hs]. rewrite (hp_free _ _ _ _ P2) in Hs. apply elem_free in Hs. pose proof (Hn _ _ Hs). pose proof (seg_min _ _ _ _ (heap_seg _ _ _ _ _ P2 Hs)). unfold MINBLOCKSIZE, sizeof_Free, sizeof_Btail in *. lia.
Qed.
Lemma seg_positive p m s : seg_at p m s -> 0 < sz s.
Proof. destruct s as [a n k]. intros ((? & ? & ?) & _). cbn [sz]. lia. Qed.
(** A free block, with the header of its arena before it, is within the words of the memory. *)
Lemma free_extent p m t ars b n : pool_at p m t ars -> mkSeg b n KFree ∈ flat ars ->
  exists x, x + sizeof_Arena <= b /\ 0 <= n /\ is_Some (m !! x) /\ is_Some (m !! (b + n - 4)).
Proof.
  intros H Hin. pose proof (heap_seg _ _ _ _ _ (pa_heap _ _ _ _ H) Hin) as Sb. destruct (block_free_split _ _ _ Hin) as (A1 & a & A2 & b1 & b2 & -> & Eb).
  pose proof (proj1 (Forall_app _ _ _) (pa_arenas _ _ _ _ H)) as [_ [(Ca & _) _]%Forall_cons]. rewrite (layout_around _ _ _ _ Eb) in Ca. cbn [app contig addr sz] in Ca. apply proj2, contig_app in Ca as (y & C1%contig_span & <- & _). cbn [addr] in C1.
  assert (forall l, (forall s, s ∈ l -> 0 < sz s) -> 0 <= span l) as Hsp by (induction l as [|s l IH]; intros Hl; cbn [span]; [lia|]; pose proof (Hl s ltac:(left)); specialize (IH (fun s Hs => Hl s ltac:(by right))); lia).
  assert (0 <= span b1) by (apply Hsp; intros [a' n' k'] Hs; apply (seg_positive p m), (heap_seg p m t (flat (A1 ++ a :: A2)) _ (pa_heap _ _ _ _ H)); rewrite (flat_around _ _ _ _ _ _ Eb); apply elem_of_app; left; by right).
  exists (base a). split; [lia|]. split; [destruct Sb as (? & _); lia|]. split; [|exists n; by apply (seg_tail _ _ _ _ _ Sb)].
  eexists. apply (seg_magic p m _ _ _ (heap_seg _ _ _ _ _ (pa_heap _ _ _ _ H) (header_in _ a ltac:(apply elem_of_app; right; left)))).
Qed.
