(* ===== verification/PoolLaws.v ===== *)
(** * The contracts of the pools

    What pool.c promises about the free blocks, [poolallocl], [poolfreel] and [poolcheckl]; a simple coarser allocator, and runs of a
    pool on it, which also show what the code does where it is less careful. *)
From stdpp Require Import gmap list sorting.
From S2P Require Import Prelude Memory Pool PoolWords PoolTree PoolFree PoolBlocks PoolAlloc PoolArena PoolMerge PoolSafe PoolCheck.

(** ** A coarser allocator *)

Fixpoint zero_words (n : nat) (a : Z) (m : words) : words := match n with O => m | S n => zero_words n (a + 4) (<[a := 0]> m) end.
Fixpoint absent (n : nat) (a : Z) (m : words) : bool := match n with O => true | S n => negb (bool_decide (is_Some (m !! a))) && absent n (a + 4) m end.
Definition words_of (n : Z) : nat := Z.to_nat ((n + 3) / 4).
Definition usable (m : words) (a n : Z) : bool := (a mod 4 =? 0) && (0 <? a) && (a + n <=? 2 ^ 32) && absent (words_of n) a m.
(** The next addresses, as the state; a gap between arenas is given when nobody has it. *)
Definition brk (s : Z) (m : words) (n : Z) : result (Z * words * Z) :=
  if usable m s n then Ok (s + 4 * Z.of_nat (words_of n), zero_words (words_of n) s m, s) else Ok (s, m, 0).
Definition brk_merge (s : Z) (m : words) (a b : Z) : result (Z * words * bool) :=
  let* n := getw m (asize a) in
  let g := b - (a + n) in
  if usable m (a + n) g then Ok (s, zero_words (words_of g) (a + n) m, true) else Ok (s, m, false).

Lemma zero_words_at n : forall a m q, zero_words n a m !! q = if decide (a <= q < a + 4 * Z.of_nat n /\ (q - a) mod 4 = 0) then Some 0 else m !! q.
Proof.
  induction n as [|n IH]; intros a m q; cbn [zero_words]; [destruct (decide _); [lia|done]|]. rewrite IH. destruct (decide (q = a)) as [->|Hne].
  - rewrite decide_False by lia. rewrite lookup_insert_eq, decide_True; [done|]. rewrite Z.sub_diag. split; [lia|done].
  - rewrite lookup_insert_ne by done. destruct (decide _) as [E|E], (decide _) as [E'|E']; try done; exfalso; [apply E'|apply E]; zlia.
Qed.
Lemma absent_ok n : forall a m, absent n a m = true -> forall q, a <= q < a + 4 * Z.of_nat n -> (q - a) mod 4 = 0 -> m !! q = None.
Proof.
  induction n as [|n IH]; intros a m H q Hq Hq4; [lia|]. cbn [absent] in H. apply andb_true_iff in H as [H1 H2]. rewrite negb_true_iff, bool_decide_eq_false, eq_None_not_Some in *.
  destruct (decide (q = a)) as [->|]; [done|]. apply eq_None_not_Some. apply (IH (a + 4)); [done|zlia|zlia].
Qed.
Lemma usable_fresh m a n : usable m a n = true -> 0 <= n -> fresh_region m (zero_words (words_of n) a m) a n.
Proof.
  unfold usable. rewrite !andb_true_iff. intros (((H1 & H2) & H3) & H4) Hn. assert (forall q, a <= q < a + n -> q mod 4 = 0 -> a <= q < a + 4 * Z.of_nat (words_of n) /\ (q - a) mod 4 = 0) as Hq by (unfold words_of; intros q; zlia).
  split_and!; [lia|lia|lia|..].
  - intros q Hq1 Hq2. destruct (Hq q Hq1 Hq2). by eapply absent_ok.
  - intros q Hq1 Hq2. rewrite zero_words_at. rewrite decide_True by auto. by eexists.
  - apply map_subseteq_spec. intros q x Hx. rewrite zero_words_at. destruct (decide _) as [[D1 D2]|]; [|done]. by rewrite (absent_ok _ _ _ H4 q D1 D2) in Hx.
Qed.
#[export] Instance brk_coarse : Coarse brk brk_merge.
Proof.
  split.
  - intros s m n Hn. unfold brk. destruct (usable m s n) eqn:E; [|exists s, m, 0; split; [done|by left]]. eexists _, _, s. split; [done|]. right. pose proof (usable_fresh _ _ _ E ltac:(lia)) as F. split; [destruct F; lia|done].
  - intros s m a b n Hn Hab. unfold brk_merge. rewrite (get_some _ _ _ Hn). cbn [rbind]. destruct (usable m (a + n) (b - (a + n))) eqn:E; [|exists s, m, false; split; [done|by left]].
    eexists _, _, true. split; [done|]. right. split; [done|]. apply usable_fresh; [done|lia].
Qed.

(** ** The contracts *)

Section contracts.
Context {A : Type} (palloc : A -> words -> Z -> result (A * words * Z)) (pmerge : A -> words -> Z -> Z -> result (A * words * bool)) `{!Coarse palloc pmerge}.

(** C12: the tree of the free blocks implements a multiset of blocks: [pooladd] adds a block, [pooldel] takes out any of them, both keep the
    tree a search tree of rings, and [treelookupgt] finds a smallest block that is large enough, if there is one. *)
Theorem tree_refines p m t : free_tree p m t ->
  (forall b n, spaced (b :: elems t) -> 0 < b -> room m b -> m !! bsize b = Some n -> exists p' m' t', pooladd p m b = Ok (p', m') /\ free_tree p' m' t' /\
    blocks t' ≡ₚ (b, n) :: blocks t /\ curfree p' = curfree p ⊞ n /\ like p p' /\ others_same m m' (b :: elems t)) /\
  (forall b n, (b, n) ∈ blocks t -> exists p' m' t', pooldel p m b = Ok (p', m') /\ free_tree p' m' t' /\
    blocks t ≡ₚ (b, n) :: blocks t' /\ curfree p' = curfree p ⊟ n /\ like p p' /\ others_same m m' (elems t)) /\
  forall n, exists v, treelookupgt (turns m) m (freeroot p) n 0 = Ok v /\
    ((v = 0 /\ forall b k, (b, k) ∈ blocks t -> k < n) \/ exists k, (v, k) ∈ blocks t /\ n <= k /\ forall b k', (b, k') ∈ blocks t -> n <= k' -> k <= k').
Proof.
  intros Hf. pose proof Hf as (Hr & Ht & Hb & Hs). split_and!.
  - intros b n Hsp Hb0 Hro Hn. destruct (pooladd_ok p m t b n Hf Hsp Hb0 Hro Hn) as (m' & t' & E & T & B & P & O). eexists _, m', t'. split; [exact E|]. split; [|split; [done|split; [done|split; [done|done]]]].
    split_and!; [done..|]. eapply spaced_perm; [|exact Hsp]. by rewrite !elems_blocks, P.
  - intros b n Hin. destruct (pooldel_ok p m t b n Hf Hin) as (m' & t' & E & T & B & P & O & _). eexists _, m', t'. split; [exact E|]. split; [|split; [done|split; [done|split; [done|done]]]].
    split_and!; [done..|]. apply (spaced_sub [b] _ (elems t)); [|done]. rewrite !elems_blocks, P. cbn [fmap list_fmap fst]. solve_Permutation.
  - intros n. rewrite Hr. destruct (lookupgt_ok m t n (turns m) 0 Ht Hb) as (v & E & D); [apply height_turns; [done|apply Hs]|]. exists v. split; [done|]. destruct D as [[-> D]|(k & D1 & D2 & D3)].
    + left. split; [done|]. intros b k Hk. by eapply D, blocks_sizes.
    + right. exists k. split_and!; [done..|]. intros b k' Hk. by eapply D3, blocks_sizes.
Qed.
(** C13: [poolallocl] of any size returns.  It gives a new area that no caller has, in a block that is large enough, the smallest
    free block that fits or one of a new arena; it gives nil, and leaves the pool, only for a size of 2^31 or more or when no free block fits and
    the pool is at its limit or the coarser allocator has no memory.  The data of the others stays. *)
Theorem poolallocl_allocates p s m t ars d : pool_at p m t ars -> 0 <= d ->
  exists p' s' m' t' ars' v, poolallocl palloc pmerge None p s m d = Ok (p', s', m', v) /\ pool_at p' m' t' ars' /\ same_limits p p' /\ allocated palloc p s m ars d p' m' ars' v.
Proof. intros H Hd. exact (poolallocl_at palloc pmerge p s m t ars d H Hd). Qed.
(** C37: [poolcheckl] accepts every pool that the calls of [poolallocl] and [poolfreel] and the writes of the callers lead to, when all of the memory that
    the coarser allocator has given is within 2^30 bytes: [poolcheckl] calls [checktree] with 2^30 as the bound of the sizes. *)
Theorem poolcheckl_accepts p s y lo : empty_pool p -> rtc (move palloc pmerge) (mkSystem p s ∅ []) y -> (forall q, is_Some (sy_mem y !! q) -> lo <= q < lo + 2 ^ 30) ->
  poolcheckl (sy_pool y) (sy_mem y) = Ok ().
Proof.
  intros Hp Hr Hlo. destruct (run_sound palloc pmerge p s y Hp Hr) as (_ & t & ars & H & _). apply (poolcheckl_ok _ _ t ars H). intros b n Hin.
  destruct (free_extent _ _ _ _ b n H Hin) as (x & Hx & Hb & S1 & S2). apply Hlo in S1, S2. unfold sizeof_Arena in *. lia.
Qed.
End contracts.

(** ** Runs *)

Fixpoint without (v : Z) (l : list (Z * Z)) : option (list (Z * Z)) :=
  match l with [] => None | (a, d) :: l => if a =? v then Some l else l' ← without v l; Some ((a, d) :: l') end.
Definition perform (o : op) (y : system) : option (system (A := Z)) :=
  let (p, s, m, l) := y in
  match o with
  | Alloc d =>
      if 0 <=? d then match poolallocl brk brk_merge None p s m d with Ok (p, s, m, v) => Some (mkSystem p s m (if v =? 0 then l else (v, d) :: l)) | _ => None end
      else None
  | Free v => match without v l, poolfreel p m v with Some l, Ok (p, m) => Some (mkSystem p s m l) | _, _ => None end
  | Write a x =>
      if existsb (fun '(v, d) => (v <=? a) && (a <? v + d)) l then match putb m a x with Ok m => Some (mkSystem p s m l) | _ => None end
      else None
  end.
Fixpoint perform_all (os : list op) (y : system) : option system := match os with [] => Some y | o :: os => y ← perform o y; perform_all os y end.
Lemma without_split v l l' : without v l = Some l' -> exists l1 d l2, l = l1 ++ (v, d) :: l2 /\ l' = l1 ++ l2.
Proof.
  revert l'. induction l as [|[a d] l IH]; intros l' H; [done|]. cbn [without] in H. destruct (Z.eqb_spec a v) as [->|]; [injection H as <-; by exists [], d, l|].
  destruct (without v l) as [l0|]; [|done]. injection H as <-. destruct (IH l0 eq_refl) as (l1 & d' & l2 & -> & ->). by exists ((a, d) :: l1), d', l2.
Qed.
Lemma perform_step o y y' : perform o y = Some y' -> step brk brk_merge o y y'.
Proof.
  destruct y as [p s m l]. destruct o as [d|v|a x]; cbn [perform].
  - destruct (Z.leb_spec 0 d); [|done]. destruct (poolallocl _ _ _ _ _ _ _) as [[[[p' s'] m'] v]| | |] eqn:E; intros [= <-]. by constructor.
  - destruct (without v l) as [l'|] eqn:Ew; [|done]. destruct (poolfreel _ _ _) as [[p' m']| | |] eqn:E; intros [= <-]. apply without_split in Ew as (l1 & d & l2 & -> & ->). by constructor.
  - destruct (existsb _ _) eqn:Ee; [|done]. destruct (putb _ _ _) as [m'| | |] eqn:E; intros [= <-]. apply existsb_exists in Ee as ([v d] & Hin%list_elem_of_In & Ha). eapply StepWrite; [exact Hin|lia|done].
Qed.
Lemma perform_rtc os : forall y y', perform_all os y = Some y' -> rtc (move brk brk_merge) y y'.
Proof.
  induction os as [|o os IH]; intros y y' H; [injection H as ->; constructor|]. cbn [perform_all] in H. destruct (perform o y) as [y1|] eqn:E; [|done]. eapply rtc_l; [exists o; by apply perform_step|by apply IH].
Qed.
(** A small pool, some calls on it, and a system that they lead to. *)
Definition p0 : pool := mkPool 100000 0 0 0 1024 32 0 0 0 true false 0 0.
Definition y0 : system (A := Z) := mkSystem p0 4096 ∅ [].
Definition run (os : list op) : system := default y0 (perform_all os y0).
Definition busy : list op := [Alloc 100; Alloc 50; Write 4130 77; Alloc 2000; Alloc 200; Free 4256; Write 4400 7].
Lemma empty_p0 : empty_pool p0.
Proof. split; [split; [exists 5; split; [lia|done]|split; cbn; lia]|done]. Qed.
Lemma run_busy : rtc (move brk brk_merge) y0 (run busy).
Proof. apply (perform_rtc busy). unfold run. destruct (perform_all busy y0) eqn:E; [done|]. vm_compute in E. discriminate. Qed.
Lemma live_busy : sy_live (run busy) = [(6368, 200); (4352, 2000); (4128, 100)].
Proof. vm_compute. reflexivity. Qed.

Lemma span_busy q : is_Some (sy_mem (run busy) !! q) -> 4096 <= q < 4096 + 2 ^ 30.
Proof.
  intros [x Hx%elem_of_map_to_list]. revert q x Hx. assert (forallb (fun '(q, _) => (4096 <=? q) && (q <? 4096 + 2 ^ 30)) (map_to_list (sy_mem (run busy))) = true) as H by (vm_compute; reflexivity).
  intros q x Hx. rewrite forallb_forall in H. specialize (H _ (proj1 (list_elem_of_In _ _) Hx)). cbn beta iota in H. lia.
Qed.

Lemma pool_runs_witness : empty_pool p0 /\ rtc (move brk brk_merge) y0 (run busy) /\ sy_live (run busy) = [(6368, 200); (4352, 2000); (4128, 100)] /\
  calls_return brk brk_merge (run busy) /\ areas_apart (sy_live (run busy)) /\ NoDup (sy_live (run busy)).*1 /\ forall o y', step brk brk_merge o (run busy) y' -> contents_kept o (run busy) y'.
Proof. split; [exact empty_p0|]. split; [exact run_busy|]. split; [exact live_busy|]. exact (pool_runs brk brk_merge p0 4096 (run busy) empty_p0 run_busy). Defined.
Lemma poolcheckl_accepts_witness : empty_pool p0 /\ rtc (move brk brk_merge) y0 (run busy) /\ (forall q, is_Some (sy_mem (run busy) !! q) -> 4096 <= q < 4096 + 2 ^ 30) /\
  poolcheckl (sy_pool (run busy)) (sy_mem (run busy)) = Ok ().
Proof.
  split; [exact empty_p0|]. split; [exact run_busy|]. split; [exact span_busy|]. exact (poolcheckl_accepts brk brk_merge p0 4096 (run busy) 4096 empty_p0 run_busy span_busy).
Defined.
Lemma poolallocl_allocates_witness : pool_at p0 ∅ Leaf [] /\ 0 <= 100 /\
  exists p' s' m' t' ars' v, poolallocl brk brk_merge None p0 4096 ∅ 100 = Ok (p', s', m', v) /\ pool_at p' m' t' ars' /\ same_limits p0 p' /\ allocated brk p0 4096 ∅ [] 100 p' m' ars' v.
Proof. split; [apply empty_at, empty_p0|]. split; [lia|]. exact (poolallocl_allocates brk brk_merge p0 4096 ∅ Leaf [] 100 (empty_at p0 empty_p0) ltac:(lia)). Defined.
(** Two free blocks of one size, and one that is not in the tree yet. *)
Definition m_two : words :=
  fold_right (fun x m => <[fst x := snd x]> m) (zero_words 6 4608 ∅) [(4096, FREE_MAGIC); (4100, 48); (4104, 0); (4108, 0); (4112, 4352); (4116, 4352); (4352, FREE_MAGIC); (4356, 48); (4360, 0); (4364, 0); (4368, 4096); (4372, 4096); (4612, 32)].
Definition t_two : tree := Node Leaf 48 4096 [4352] Leaf.
Lemma free_two : free_tree (set_freeroot 4096 p0) m_two t_two.
Proof.
  split; [done|]. split; [|split; [by repeat constructor|]].
  - cbn [tree_at t_two]. split; [|done]. split; [done|]. split; [done|]. split; [by split_and!|]. repeat (apply Forall_cons; split); [..|done]; (split_and!; try done; by eexists).
  - split; [by apply (bool_decide_eq_true_1 (NoDup (elems t_two)))|]. intros a b Ha Hb Hne. unfold sizeof_Free. cbn [elems t_two app] in Ha, Hb. rewrite !elem_of_cons in Ha, Hb. destruct Ha as [-> | [-> | ?%not_elem_of_nil]], Hb as [-> | [-> | ?%not_elem_of_nil]]; (done || lia).
Qed.
Lemma tree_refines_witness : let p := set_freeroot 4096 p0 in free_tree p m_two t_two /\ m_two !! bsize 4608 = Some 32 /\
  (forall b n, spaced (b :: elems t_two) -> 0 < b -> room m_two b -> m_two !! bsize b = Some n -> exists p' m' t', pooladd p m_two b = Ok (p', m') /\ free_tree p' m' t' /\
    blocks t' ≡ₚ (b, n) :: blocks t_two /\ curfree p' = curfree p ⊞ n /\ like p p' /\ others_same m_two m' (b :: elems t_two)) /\
  (forall b n, (b, n) ∈ blocks t_two -> exists p' m' t', pooldel p m_two b = Ok (p', m') /\ free_tree p' m' t' /\
    blocks t_two ≡ₚ (b, n) :: blocks t' /\ curfree p' = curfree p ⊟ n /\ like p p' /\ others_same m_two m' (elems t_two)) /\
  forall n, exists v, treelookupgt (turns m_two) m_two (freeroot p) n 0 = Ok v /\
    ((v = 0 /\ forall b k, (b, k) ∈ blocks t_two -> k < n) \/ exists k, (v, k) ∈ blocks t_two /\ n <= k /\ forall b k', (b, k') ∈ blocks t_two -> n <= k' -> k <= k').
Proof. split; [exact free_two|]. split; [reflexivity|]. exact (tree_refines (set_freeroot 4096 p0) m_two t_two free_two). Defined.

(** ** What the code does where it is less careful *)

(** [poolreallocl] with the new block next to the old one: the count of allocated bytes has the new block twice, and is not 0 when all is free. *)
Definition count_after_realloc (n k : Z) : result (Z * Z * Z) :=
  let* (p, s, m, a) := poolallocl brk brk_merge None p0 4096 ∅ n in
  let* (p, s, m, b) := poolreallocl brk brk_merge None p s m a k in
  let* size := getw m (bsize (b - 8)) in
  let* (p', m') := poolfreel p m b in
  Ok (curalloc p, size, curalloc p').
Lemma realloc_counts_twice : count_after_realloc 900 2000 = Ok (4064, 2016, 2048).
Proof. vm_compute. reflexivity. Qed.
(** [poolallocalignl] gives the front of its block back, but counts it as allocated. *)
Definition count_after_align : result (Z * Z) :=
  let* (p, s, m, v) := poolallocalignl brk brk_merge None p0 4096 ∅ 100 256 4 0 in
  let* (p', m') := poolfreel p m v in
  Ok (curalloc p, curalloc p').
Lemma align_counts_front : count_after_align = Ok (384, 256).
Proof. vm_compute. reflexivity. Qed.
(** [poolreallocl] to a size near 2^32: the size of the block wraps, and the block of 100 bytes serves for 4294967288. *)
Lemma realloc_wraps : (let* (p, s, m, a) := poolallocl brk brk_merge None p0 4096 ∅ 100 in
  let* (p, s, m, b) := poolreallocl brk brk_merge None p s m a 0xFFFFFFF8 in
  Ok (a, b, curalloc p)) = Ok (4128, 4128, 32).
Proof. vm_compute. reflexivity. Qed.
