(* ===== verification/Md5.v ===== *)
(** * Message digests: kernel/Byterun/md5.c

    The context, [MD5Transform] with its 64 steps, the buffering of [MD5Update], the padding of [MD5Final] and the primitive
    [md5_string], against MD5 as RFC 1321 defines it on a whole message. *)
From stdpp Require Import gmap list strings.
From S2P Require Import Prelude Mlvalues Intext Numbers Primitives.

(** ** The code *)

Definition regs : Type := Z * Z * Z * Z.
(** [inb] is the field [in], 64 bytes. *)
Record MD5Context := mkCtx { buf : regs; bits0 : Z; bits1 : Z; inb : list Z }.
Definition set_buf x c := mkCtx x (bits0 c) (bits1 c) (inb c).
Definition set_in x c := mkCtx (buf c) (bits0 c) (bits1 c) x.
(** The complement of a [uint32]. *)
Definition not32 (x : Z) : Z := Z.lxor x 0xffffffff.
Definition F1 (x y z : Z) : Z := Z.lxor z (Z.land x (Z.lxor y z)).
Definition F2 (x y z : Z) : Z := F1 z x y.
Definition F3 (x y z : Z) : Z := Z.lxor (Z.lxor x y) z.
Definition F4 (x y z : Z) : Z := Z.lxor y (Z.lor x (not32 z)).
Definition MD5STEP (f : Z -> Z -> Z -> Z) (w x y z data s : Z) : Z :=
  let w := w ⊞ (f x y z + data) in
  let w := Z.lor (w ⋘ s) (w ⋙ (32 - s)) in
  w ⊞ x.
(** The steps as the code lists them: the index into [in], the constant and the shift.  Every step updates the next register
    from the right: [a], [d], [c], [b]. *)
Definition steps1 : list (nat * Z * Z) := [(0%nat, 0xd76aa478, 7); (1%nat, 0xe8c7b756, 12); (2%nat, 0x242070db, 17); (3%nat, 0xc1bdceee, 22);
  (4%nat, 0xf57c0faf, 7); (5%nat, 0x4787c62a, 12); (6%nat, 0xa8304613, 17); (7%nat, 0xfd469501, 22); (8%nat, 0x698098d8, 7); (9%nat, 0x8b44f7af, 12); (10%nat, 0xffff5bb1, 17); (11%nat, 0x895cd7be, 22);
  (12%nat, 0x6b901122, 7); (13%nat, 0xfd987193, 12); (14%nat, 0xa679438e, 17); (15%nat, 0x49b40821, 22)].
Definition steps2 : list (nat * Z * Z) := [(1%nat, 0xf61e2562, 5); (6%nat, 0xc040b340, 9); (11%nat, 0x265e5a51, 14); (0%nat, 0xe9b6c7aa, 20);
  (5%nat, 0xd62f105d, 5); (10%nat, 0x02441453, 9); (15%nat, 0xd8a1e681, 14); (4%nat, 0xe7d3fbc8, 20); (9%nat, 0x21e1cde6, 5); (14%nat, 0xc33707d6, 9); (3%nat, 0xf4d50d87, 14); (8%nat, 0x455a14ed, 20);
  (13%nat, 0xa9e3e905, 5); (2%nat, 0xfcefa3f8, 9); (7%nat, 0x676f02d9, 14); (12%nat, 0x8d2a4c8a, 20)].
Definition steps3 : list (nat * Z * Z) := [(5%nat, 0xfffa3942, 4); (8%nat, 0x8771f681, 11); (11%nat, 0x6d9d6122, 16); (14%nat, 0xfde5380c, 23);
  (1%nat, 0xa4beea44, 4); (4%nat, 0x4bdecfa9, 11); (7%nat, 0xf6bb4b60, 16); (10%nat, 0xbebfbc70, 23); (13%nat, 0x289b7ec6, 4); (0%nat, 0xeaa127fa, 11); (3%nat, 0xd4ef3085, 16); (6%nat, 0x04881d05, 23);
  (9%nat, 0xd9d4d039, 4); (12%nat, 0xe6db99e5, 11); (15%nat, 0x1fa27cf8, 16); (2%nat, 0xc4ac5665, 23)].
Definition steps4 : list (nat * Z * Z) := [(0%nat, 0xf4292244, 6); (7%nat, 0x432aff97, 10); (14%nat, 0xab9423a7, 15); (5%nat, 0xfc93a039, 21);
  (12%nat, 0x655b59c3, 6); (3%nat, 0x8f0ccc92, 10); (10%nat, 0xffeff47d, 15); (1%nat, 0x85845dd1, 21); (8%nat, 0x6fa87e4f, 6); (15%nat, 0xfe2ce6e0, 10); (6%nat, 0xa3014314, 15); (13%nat, 0x4e0811a1, 21);
  (4%nat, 0xf7537e82, 6); (11%nat, 0xbd3af235, 10); (2%nat, 0x2ad7d2bb, 15); (9%nat, 0xeb86d391, 21)].
Definition md5_step (f : Z -> Z -> Z -> Z) (i : list Z) (r : regs) (st : nat * Z * Z) : regs :=
  let '(a, b, c, d) := r in
  let '(k, t, s) := st in
  (d, MD5STEP f a b c d (nth k i 0 ⊞ t) s, b, c).
Definition MD5Transform (r i : _) : regs :=
  let x := fold_left (md5_step F1 i) steps1 r in
  let x := fold_left (md5_step F2 i) steps2 x in
  let x := fold_left (md5_step F3 i) steps3 x in
  let x := fold_left (md5_step F4 i) steps4 x in
  let '(a, b, c, d) := x in
  let '(a0, b0, c0, d0) := r in
  (a0 ⊞ a, b0 ⊞ b, c0 ⊞ c, d0 ⊞ d).
(** The bytes of [in] as words; the machine is little-endian. *)
Fixpoint words_le (l : list Z) : list Z :=
  match l with a :: b :: c :: d :: l => a + 256 * (b + 256 * (c + 256 * d)) :: words_le l | _ => [] end.
Definition word_bytes (w : Z) : list Z := [u8 w; u8 (w ⋙ 8); u8 (w ⋙ 16); u8 (w ⋙ 24)].
(** [MD5Transform(ctx->buf, (uint32 * ) ctx->in)] *)
Definition transform_in (c : MD5Context) : MD5Context := set_buf (MD5Transform (buf c) (words_le (inb c))) c.

Definition MD5Init (c : MD5Context) : MD5Context := mkCtx (0x67452301, 0xefcdab89, 0x98badcfe, 0x10325476) 0 0 (inb c).
(** The loop over blocks of 64 bytes, and the copy of the rest. *)
Fixpoint update_blocks (fuel : nat) (c : MD5Context) (b : list Z) : result MD5Context :=
  match fuel with
  | O => Loop
  | S fuel =>
      if 64 <=? Z.of_nat (length b) then update_blocks fuel (transform_in (set_in (splice 0 (take 64 b) (inb c)) c)) (drop 64 b)
      else Ok (set_in (splice 0 b (inb c)) c)
  end.
(** The length of [b] is the argument [len]. *)
Definition MD5Update (c : MD5Context) (b : list Z) : result MD5Context :=
  let len := Z.of_nat (length b) in
  let t := bits0 c in
  let lo := t ⊞ (len ⋘ 3) in
  let hi := if lo <? t then bits1 c ⊞ 1 else bits1 c in
  let c := mkCtx (buf c) lo (hi ⊞ (len ⋙ 29)) (inb c) in
  let t := Z.land (t ⋙ 3) 0x3f in
  if negb (t =? 0) then
    let k := 64 - t in
    if len <? k then Ok (set_in (splice (Z.to_nat t) b (inb c)) c)
    else
      let c := transform_in (set_in (splice (Z.to_nat t) (take (Z.to_nat k) b) (inb c)) c) in
      update_blocks (S (length b)) c (drop (Z.to_nat k) b)
  else update_blocks (S (length b)) c b.
(** The digest; the context is cleared. *)
Definition MD5Final (c : MD5Context) : list Z :=
  let count := Z.land (bits0 c ⋙ 3) 0x3F in
  let c := set_in (splice (Z.to_nat count) [0x80] (inb c)) c in
  let p := S (Z.to_nat count) in
  let count := 64 - 1 - count in
  let c :=
    if count <? 8 then
      let c := transform_in (set_in (splice p (replicate (Z.to_nat count) 0) (inb c)) c) in
      set_in (splice 0 (replicate 56 0) (inb c)) c
    else set_in (splice p (replicate (Z.to_nat (count - 8)) 0) (inb c)) c in
  let c := set_in (splice 56 (word_bytes (bits0 c) ++ word_bytes (bits1 c)) (inb c)) c in
  let '(x, y, z, w) := buf (transform_in c) in
  word_bytes x ++ word_bytes y ++ word_bytes z ++ word_bytes w.
(** [stack] is what the stack holds where [ctx] is. *)
Definition md5_string (stack : MD5Context) (str ofs len : value) (h : heap_t) : result outcome :=
  let* o := Long_val ofs in
  let* n := Long_val len in
  let* b := read_bytes (Z.to_nat (u32 n)) h str o in
  let* ctx := MD5Update (MD5Init stack) b in
  let* (res, h) := alloc_string 16 h in
  let* h := write_bytes (MD5Final ctx) res 0 h in
  returns res h.

(** ** MD5 of RFC 1321 *)

Definition rfc_F (x y z : Z) : Z := Z.lor (Z.land x y) (Z.land (not32 x) z).
Definition rfc_G (x y z : Z) : Z := Z.lor (Z.land x z) (Z.land y (not32 z)).
Definition rfc_H (x y z : Z) : Z := Z.lxor x (Z.lxor y z).
Definition rfc_I (x y z : Z) : Z := Z.lxor y (Z.lor x (not32 z)).
Definition rotl (w s : Z) : Z := w mod 2 ^ (32 - s) * 2 ^ s + w / 2 ^ (32 - s).
(** The table of the sines: [T[i]] is the integer part of 2^32 |sin i|, for [i] from 1 to 64.  [sine] adds the terms of the
    series of the sine, in units of 2^-192; the [k]-th one is x^(2k+1)/(2k+1)!, with alternating signs.  For x up to 64 the terms are
    below 2^92 and there are 150 of them before they vanish, so that the rounding of each to a unit changes nothing above 2^-32
    (the unit of the table). *)
Fixpoint sine_terms (n : nat) (k x t : Z) : Z :=
  match n with O => 0 | S n => t + sine_terms n (k + 1) x (- (t * (x * x) / ((2 * k + 2) * (2 * k + 3)))) end.
Definition sine (x : Z) : Z := sine_terms 150 0 x (x * 2 ^ 192).
Definition rfc_sines : list Z := Eval vm_compute in map (fun i => Z.abs (sine (Z.of_nat i)) / 2 ^ 160) (seq 1 64).
Definition rfc_T (i : nat) : Z := nth i rfc_sines 0.
(** Words and bytes, the low byte first. *)
Definition rfc_word (l : list Z) (i : nat) : Z := nth (4 * i) l 0 + 2 ^ 8 * nth (4 * i + 1) l 0 + 2 ^ 16 * nth (4 * i + 2) l 0 + 2 ^ 24 * nth (4 * i + 3) l 0.
Definition rfc_words (block : list Z) : list Z := map (rfc_word block) (seq 0 16).
Definition rfc_bytes (w : Z) : list Z := map (fun k => w / 2 ^ (8 * k) mod 2 ^ 8) [0; 1; 2; 3].
Definition rfc_index (i : nat) : nat :=
  match (i / 16)%nat with 0%nat => i | 1%nat => ((1 + 5 * i) mod 16)%nat | 2%nat => ((5 + 3 * i) mod 16)%nat | _ => ((7 * i) mod 16)%nat end.
Definition rfc_shift (i : nat) : Z := nth (i mod 4) (nth (i / 16) [[7; 12; 17; 22]; [5; 9; 14; 20]; [4; 11; 16; 23]; [6; 10; 15; 21]] []) 0.
Definition rfc_fun (i : nat) : Z -> Z -> Z -> Z := match (i / 16)%nat with 0%nat => rfc_F | 1%nat => rfc_G | 2%nat => rfc_H | _ => rfc_I end.
Definition rfc_step (X : list Z) (r : regs) (i : nat) : regs :=
  let '(a, b, c, d) := r in (d, u32 (b + rotl (u32 (a + rfc_fun i b c d + nth (rfc_index i) X 0 + rfc_T i)) (rfc_shift i)), b, c).
Definition rfc_block (r : regs) (block : list Z) : regs :=
  let '(a, b, c, d) := fold_left (rfc_step (rfc_words block)) (seq 0 64) r in
  let '(a0, b0, c0, d0) := r in (u32 (a0 + a), u32 (b0 + b), u32 (c0 + c), u32 (d0 + d)).
(** The first [n] blocks of 64 bytes. *)
Fixpoint blocks_of (n : nat) (l : list Z) : list (list Z) := match n with O => [] | S n => take 64 l :: blocks_of n (drop 64 l) end.
Definition rfc_init : regs := (0x67452301, 0xefcdab89, 0x98badcfe, 0x10325476).
Definition absorbed (l : list Z) : regs := fold_left rfc_block (blocks_of (length l / 64) l) rfc_init.
(** A byte 0x80, zeros up to 56 modulo 64, and the number of bits modulo 2^64. *)
Definition bit_count (l : list Z) : Z := (8 * Z.of_nat (length l)) mod 2 ^ 64.
Definition padded (l : list Z) : list Z :=
  l ++ [0x80] ++ replicate (Z.to_nat ((55 - Z.of_nat (length l)) mod 64)) 0 ++ rfc_bytes (bit_count l mod 2 ^ 32) ++ rfc_bytes (bit_count l / 2 ^ 32).
Definition rfc_md5 (l : list Z) : list Z :=
  let '(a, b, c, d) := absorbed (padded l) in rfc_bytes a ++ rfc_bytes b ++ rfc_bytes c ++ rfc_bytes d.

Definition ascii_codes (s : string) : list Z := map (fun c => Z.of_N (Ascii.N_of_ascii c)) (String.list_ascii_of_string s).
(** The test suite of RFC 1321, the first ones. *)
Example rfc_md5_abc : words_le (rfc_md5 (ascii_codes "abc")) = [0x98500190; 0xb04fd23c; 0x7d3f96d6; 0x727fe128].
Proof. vm_compute. reflexivity. Qed.
Example rfc_md5_empty : words_le (rfc_md5 []) = [0xd98c1dd4; 0x04b2008f; 0x980980e9; 0x7e42f8ec].
Proof. vm_compute. reflexivity. Qed.

(** ** One block *)

Definition regs_ok (r : regs) : Prop := let '(a, b, c, d) := r in is_u32 a /\ is_u32 b /\ is_u32 c /\ is_u32 d.
Lemma ones_bit n : 0 <= n -> Z.testbit 0xffffffff n = (n <? 32).
Proof. intros Hn. change 0xffffffff with (Z.ones 32). destruct (Z.ltb_spec n 32); [by apply Z.ones_spec_low|by apply Z.ones_spec_high]. Qed.
Ltac bits32 := apply Z.bits_inj'; intros n Hn; rewrite ?Z.lxor_spec, ?Z.lor_spec, ?Z.land_spec, ?Z.lxor_spec, ?ones_bit by done; destruct (Z.ltb_spec n 32).
Lemma F1_rfc x y z : is_u32 z -> F1 x y z = rfc_F x y z.
Proof.
  intros Hz. unfold F1, rfc_F, not32. bits32; [by destruct (Z.testbit x n), (Z.testbit y n), (Z.testbit z n)|].
  rewrite (testbit_small z 32 n) by (unfold is_u32 in *; lia). by destruct (Z.testbit x n), (Z.testbit y n).
Qed.
Lemma F2_rfc x y z : is_u32 y -> F2 x y z = rfc_G x y z.
Proof.
  intros Hy. unfold F2, F1, rfc_G, not32. bits32; [by destruct (Z.testbit x n), (Z.testbit y n), (Z.testbit z n)|].
  rewrite (testbit_small y 32 n) by (unfold is_u32 in *; lia). by destruct (Z.testbit x n), (Z.testbit z n).
Qed.
Lemma rotate_rfc w s : is_u32 w -> 0 <= s <= 32 -> Z.lor (w ⋘ s) (w ⋙ (32 - s)) = rotl w s.
Proof.
  intros Hw Hs. unfold rotl. rewrite shiftl_mul, shiftr_div by lia. assert (2 ^ 32 = 2 ^ (32 - s) * 2 ^ s) as E by (rewrite <-Z.pow_add_r by lia; f_equal; lia).
  assert (0 < 2 ^ s /\ 0 < 2 ^ (32 - s)) as [P1 P2] by (split; apply Z.pow_pos_nonneg; lia). assert (u32 (w * 2 ^ s) = w mod 2 ^ (32 - s) * 2 ^ s) as ->.
  { unfold u32. rewrite E. by rewrite Z.mul_mod_distr_r by lia. }
  apply lor_add; [lia|]. split; [apply Z.div_pos; unfold is_u32 in *; lia|]. apply Z.div_lt_upper_bound; [lia|]. unfold is_u32 in Hw. lia.
Qed.
Lemma step_rfc f X r i : regs_ok r -> (forall x y z, is_u32 x -> is_u32 y -> is_u32 z -> f x y z = rfc_fun i x y z) -> 0 <= rfc_shift i <= 32 ->
  md5_step f X r (rfc_index i, rfc_T i, rfc_shift i) = rfc_step X r i /\ regs_ok (rfc_step X r i).
Proof.
  destruct r as [[[a b] c] d]. intros (Ha & Hb & Hc & Hd) Hf Hs. unfold md5_step, rfc_step, MD5STEP. rewrite Hf by done. rewrite rotate_rfc by (done || apply u32_range).
  assert (a ⊞ (rfc_fun i b c d + (nth (rfc_index i) X 0 ⊞ rfc_T i)) = u32 (a + rfc_fun i b c d + nth (rfc_index i) X 0 + rfc_T i)) as ->.
  { unfold u32. rewrite !Z.add_assoc. rewrite Z.add_mod_idemp_r by done. f_equal. lia. }
  split; [|split_and!; (done || apply u32_range)]. f_equal. f_equal. f_equal. by rewrite Z.add_comm.
Qed.
Definition rfc_entry (i : nat) : nat * Z * Z := (rfc_index i, rfc_T i, rfc_shift i).
(** One round of 16 steps. *)
Lemma round_rfc f X n k : (forall i, (k <= i < k + n)%nat -> forall x y z, is_u32 x -> is_u32 y -> is_u32 z -> f x y z = rfc_fun i x y z) -> (forall i, (k <= i < k + n)%nat -> 0 <= rfc_shift i <= 32) ->
  forall r, regs_ok r -> fold_left (md5_step f X) (map rfc_entry (seq k n)) r = fold_left (rfc_step X) (seq k n) r /\ regs_ok (fold_left (rfc_step X) (seq k n) r).
Proof.
  revert k. induction n as [|n IH]; intros k Hf Hs r Hr; [done|]. cbn [seq map fold_left]. change (rfc_entry k) with (rfc_index k, rfc_T k, rfc_shift k). destruct (step_rfc f X r k Hr) as [-> Hr']; [apply Hf; lia|apply Hs; lia|].
  apply IH; [intros i Hi; apply Hf; lia|intros i Hi; apply Hs; lia|done].
Qed.
Lemma shifts_ok i : (i < 64)%nat -> 0 <= rfc_shift i <= 32.
Proof.
  intros Hi. assert (forallb (fun i => (0 <=? rfc_shift i) && (rfc_shift i <=? 32)) (seq 0 64) = true) as H by (vm_compute; reflexivity).
  rewrite forallb_forall in H. specialize (H i ltac:(apply in_seq; lia)). lia.
Qed.
Lemma fun_case j i f : (16 * j <= i < 16 * j + 16)%nat -> (match j with 0%nat => rfc_F | 1%nat => rfc_G | 2%nat => rfc_H | _ => rfc_I end) = f -> rfc_fun i = f.
Proof. intros Hi <-. unfold rfc_fun. by replace (i / 16)%nat with j by (apply Nat.div_unique with (i - 16 * j)%nat; lia). Qed.
Lemma words_rfc n l : length l = (4 * n)%nat -> words_le l = map (rfc_word l) (seq 0 n).
Proof.
  revert l. induction n as [|n IH]; intros l Hl; [by apply nil_length_inv in Hl as ->|].
  destruct l as [|a [|b [|c [|d l]]]]; simpl in Hl; try lia. cbn [words_le seq map]. f_equal.
  - unfold rfc_word. simpl. lia.
  - rewrite (IH l) by lia. rewrite <-seq_shift, map_map. apply map_ext. intros i. unfold rfc_word.
    replace (4 * S i)%nat with (4 + 4 * i)%nat by lia. done.
Qed.
Lemma bytes_rfc w : word_bytes w = rfc_bytes w.
Proof. unfold word_bytes, rfc_bytes, u8. rewrite !shiftr_div by done. cbn [map]. by rewrite Z.div_1_r. Qed.
(** The table of the code is the one of the sines. *)
Lemma steps_rfc : steps1 = map rfc_entry (seq 0 16) /\ steps2 = map rfc_entry (seq 16 16) /\
  steps3 = map rfc_entry (seq 32 16) /\ steps4 = map rfc_entry (seq 48 16).
Proof. vm_compute. done. Qed.
Lemma transform_rfc r l : length l = 64%nat -> regs_ok r -> MD5Transform r (words_le l) = rfc_block r l /\ regs_ok (rfc_block r l).
Proof.
  intros Hl Hr. unfold MD5Transform, rfc_block, rfc_words. rewrite (words_rfc 16 l Hl). set (X := map (rfc_word l) _).
  destruct steps_rfc as (-> & -> & -> & ->).
  change (seq 0 64) with (seq 0 16 ++ seq 16 16 ++ seq 32 16 ++ seq 48 16). rewrite !fold_left_app.
  destruct (round_rfc F1 X 16 0 ltac:(intros i Hi x y z ? ? ?; rewrite (fun_case 0 i rfc_F) by (done || lia); by apply F1_rfc) ltac:(intros; apply shifts_ok; lia) r Hr) as [-> R1].
  destruct (round_rfc F2 X 16 16 ltac:(intros i Hi x y z ? ? ?; rewrite (fun_case 1 i rfc_G) by (done || lia); by apply F2_rfc) ltac:(intros; apply shifts_ok; lia) _ R1) as [-> R2].
  destruct (round_rfc F3 X 16 32 ltac:(intros i Hi x y z ? ? ?; rewrite (fun_case 2 i rfc_H) by (done || lia); apply Z.lxor_assoc) ltac:(intros; apply shifts_ok; lia) _ R2) as [-> R3].
  destruct (round_rfc F4 X 16 48 ltac:(intros i Hi x y z ? ? ?; by rewrite (fun_case 3 i rfc_I) by (done || lia)) ltac:(intros; apply shifts_ok; lia) _ R3) as [-> R4].
  clear R1 R2 R3 R4 Hr. destruct (fold_left _ _ _) as [[[a b] c] d]. destruct r as [[[a0 b0] c0] d0]. cbn [regs_ok]. split; [reflexivity|]. split; [apply u32_range|]. split; [apply u32_range|]. split; apply u32_range.
Qed.

(** ** The buffer *)

Lemma blocks_app n l l' : (64 * n <= length l)%nat -> blocks_of n (l ++ l') = blocks_of n l.
Proof. revert l. induction n as [|n IH]; intros l Hl; [done|]. cbn [blocks_of]. rewrite take_app_le, drop_app_le by lia. f_equal. apply IH. rewrite length_drop. lia. Qed.
Lemma blocks_add n k l : blocks_of (n + k) l = blocks_of n l ++ blocks_of k (drop (64 * n) l).
Proof.
  revert l. induction n as [|n IH]; intros l; [done|]. cbn [blocks_of Nat.add app]. rewrite IH, drop_drop. replace (64 * S n)%nat with (64 + 64 * n)%nat by lia. done.
Qed.
(** One more block. *)
Lemma absorbed_block l b : (length l mod 64 + length b = 64)%nat -> absorbed (l ++ b) = rfc_block (absorbed l) (drop (64 * (length l / 64)) l ++ b).
Proof.
  intros Hb. unfold absorbed. pose proof (Nat.div_mod_eq (length l) 64) as D. assert (length (l ++ b) / 64 = length l / 64 + 1)%nat as -> by (rewrite length_app; symmetry; apply Nat.div_unique with 0%nat; lia).
  rewrite blocks_add, fold_left_app, blocks_app by lia. cbn [blocks_of fold_left]. f_equal. rewrite drop_app_le by lia. rewrite take_ge; [done|]. rewrite length_app, length_drop. lia.
Qed.
Lemma absorbed_rest l b : (length l mod 64 + length b < 64)%nat -> absorbed (l ++ b) = absorbed l.
Proof.
  intros Hb. unfold absorbed. pose proof (Nat.div_mod_eq (length l) 64) as D. assert (length (l ++ b) / 64 = length l / 64)%nat as -> by (rewrite length_app; symmetry; apply Nat.div_unique with (length l mod 64 + length b)%nat; lia).
  by rewrite blocks_app by lia.
Qed.
Definition tail_of (l : list Z) : list Z := drop (64 * (length l / 64)) l.
Lemma length_tail l : length (tail_of l) = (length l mod 64)%nat.
Proof. unfold tail_of. rewrite length_drop. pose proof (Nat.div_mod_eq (length l) 64). lia. Qed.
(** The context after the bytes [l]. *)
Record after (l : list Z) (c : MD5Context) : Prop := mkAfter {
  af_buf : buf c = absorbed l;
  af_regs : regs_ok (buf c);
  af_in : length (inb c) = 64%nat /\ take (length l mod 64) (inb c) = tail_of l }.
Definition counted (l : list Z) (c : MD5Context) : Prop := bits0 c = bit_count l mod 2 ^ 32 /\ bits1 c = bit_count l / 2 ^ 32.
Lemma tail_app l b : (length l mod 64 + length b < 64)%nat -> tail_of (l ++ b) = tail_of l ++ b.
Proof.
  intros Hb. unfold tail_of. pose proof (Nat.div_mod_eq (length l) 64). assert (length (l ++ b) / 64 = length l / 64)%nat as -> by (rewrite length_app; symmetry; apply Nat.div_unique with (length l mod 64 + length b)%nat; lia).
  by rewrite drop_app_le by lia.
Qed.
Lemma take_splice o b t : (o <= length t)%nat -> take (o + length b) (splice o b t) = take o t ++ b.
Proof. intros Ho. unfold splice. rewrite app_assoc, take_app_length'; [done|]. rewrite length_app, length_take. lia. Qed.
(** The bytes fit before the end of the block. *)
Lemma put_rest l c b : after l c -> (length l mod 64 + length b < 64)%nat -> after (l ++ b) (set_in (splice (length l mod 64) b (inb c)) c).
Proof.
  intros [H1 H2 [H3 H4]] Hb. constructor; cbn [buf set_in inb]; [by rewrite absorbed_rest|done|]. split; [rewrite length_splice by lia; done|].
  assert (length (l ++ b) mod 64 = length l mod 64 + length b)%nat as -> by (rewrite length_app; symmetry; apply Nat.mod_unique with (length l / 64)%nat; pose proof (Nat.div_mod_eq (length l) 64); lia).
  rewrite take_splice by lia. by rewrite H4, tail_app.
Qed.
(** The bytes fill the block. *)
Lemma fill_block l c b : after l c -> (length l mod 64 + length b = 64)%nat -> after (l ++ b) (transform_in (set_in (splice (length l mod 64) b (inb c)) c)).
Proof.
  intros [H1 H2 [H3 H4]] Hb. pose proof (Nat.div_mod_eq (length l) 64). assert (splice (length l mod 64) b (inb c) = tail_of l ++ b) as E.
  { transitivity (take (length l mod 64 + length b) (splice (length l mod 64) b (inb c))); [rewrite take_ge; [done|]; rewrite length_splice; lia|]. by rewrite take_splice, H4 by lia. }
  unfold transform_in. cbn [buf set_in inb]. destruct (transform_rfc (buf c) (splice (length l mod 64) b (inb c)) ltac:(rewrite length_splice; lia) H2) as [T1 T2]. rewrite E in *. constructor; cbn [buf set_buf set_in inb].
  - by rewrite T1, absorbed_block, H1.
  - by rewrite T1.
  - split; [rewrite length_app, length_tail; lia|]. assert (length (l ++ b) mod 64 = 0)%nat as Em by (rewrite length_app; symmetry; apply Nat.mod_unique with (length l / 64 + 1)%nat; lia).
    rewrite Em. cbn [take]. symmetry. apply nil_length_inv. by rewrite length_tail.
Qed.
Lemma update_blocks_ok fuel : forall l c b, after l c -> (length l mod 64 = 0)%nat -> (length b < fuel)%nat ->
  exists c', update_blocks fuel c b = Ok c' /\ after (l ++ b) c' /\ bits0 c' = bits0 c /\ bits1 c' = bits1 c.
Proof.
  induction fuel as [|fuel IH]; intros l c b H Hl Hf; [lia|]. cbn [update_blocks]. destruct (Z.leb_spec 64 (Z.of_nat (length b))).
  - pose proof (fill_block l c (take 64 b) H) as H1. rewrite length_take, Hl in H1. specialize (H1 ltac:(lia)). destruct (IH (l ++ take 64 b) _ (drop 64 b) H1) as (c' & E & H' & B0 & B1).
    + rewrite length_app, length_take. rewrite Nat.Div0.add_mod. rewrite Hl. replace (64 `min` length b)%nat with 64%nat by lia. done.
    + rewrite length_drop. lia.
    + exists c'. split; [done|]. rewrite <-app_assoc, take_drop in H'. by split_and!.
  - pose proof (put_rest l c b H) as H1. rewrite Hl in H1. eexists. split; [done|]. split; [apply H1; lia|]. done.
Qed.
Lemma bits_position l c : counted l c -> Z.land (bits0 c ⋙ 3) 0x3f = Z.of_nat (length l mod 64).
Proof.
  intros [-> _]. change 0x3f with (2 ^ 6 - 1). rewrite land_mask, shiftr_div by lia. unfold bit_count. rewrite Nat2Z.inj_mod. change (Z.of_nat 64) with 64. zlia.
Qed.
(** The 64-bit count in two words, with the carry. *)
Lemma count_bits l b c : counted l c -> Z.of_nat (length b) < 2 ^ 32 -> let len := Z.of_nat (length b) in let lo := bits0 c ⊞ (len ⋘ 3) in
  lo = bit_count (l ++ b) mod 2 ^ 32 /\ (if lo <? bits0 c then bits1 c ⊞ 1 else bits1 c) ⊞ (len ⋙ 29) = bit_count (l ++ b) / 2 ^ 32.
Proof.
  intros [-> ->] Hb. cbn zeta. rewrite shiftl_mul, shiftr_div by lia. unfold bit_count, u32. rewrite length_app, Nat2Z.inj_add. set (n := Z.of_nat (length l)). set (k := Z.of_nat (length b)) in *.
  assert (0 <= n /\ 0 <= k) as [Hn Hk] by lia. clearbody n k. change (2 ^ 3) with 8. split; [zlia|]. destruct (Z.ltb_spec ((8 * n mod 2 ^ 64 mod 2 ^ 32 + k * 8 mod 2 ^ 32) mod 2 ^ 32) (8 * n mod 2 ^ 64 mod 2 ^ 32)); zlia.
Qed.
Lemma MD5Update_ok l c b : after l c -> counted l c -> Z.of_nat (length b) < 2 ^ 32 -> exists c', MD5Update c b = Ok c' /\ after (l ++ b) c' /\ counted (l ++ b) c'.
Proof.
  intros H Hc Hb. pose proof (bits_position l c Hc) as Hp. destruct (count_bits l b c Hc Hb) as [C1 C2]. unfold MD5Update. rewrite Hp. cbn zeta in *.
  set (c1 := mkCtx (buf c) _ _ (inb c)). assert (after l c1) as H1 by (by destruct H; constructor). assert (forall c', bits0 c' = bits0 c1 -> bits1 c' = bits1 c1 -> counted (l ++ b) c') as Hcc by (intros c' E1 E2; split; rewrite ?E1, ?E2; done).
  clearbody c1. destruct (Z.eqb_spec (Z.of_nat (length l mod 64)) 0) as [E0|E0]; cbn [negb].
  - destruct (update_blocks_ok (S (length b)) l c1 b H1 ltac:(lia) ltac:(lia)) as (c' & E & H' & B0 & B1). exists c'. split; [done|]. split; [done|]. by apply Hcc.
  - pose proof (Nat.mod_upper_bound (length l) 64 ltac:(done)) as Hub. destruct (Z.ltb_spec (Z.of_nat (length b)) (64 - Z.of_nat (length l mod 64))) as [Hs|Hs]; rewrite Nat2Z.id.
    + eexists. split; [done|]. split; [|by apply Hcc]. apply put_rest; [done|lia].
    + set (k := Z.to_nat (64 - Z.of_nat (length l mod 64))). assert (k <= length b)%nat as Hk by lia. pose proof (fill_block l c1 (take k b) H1) as H2. rewrite length_take in H2. specialize (H2 ltac:(lia)).
      destruct (update_blocks_ok (S (length b)) _ _ (drop k b) H2) as (c' & E & H' & B0 & B1).
      * rewrite length_app, length_take. symmetry. apply Nat.mod_unique with (length l / 64 + 1)%nat; [lia|]. pose proof (Nat.div_mod_eq (length l) 64). lia.
      * rewrite length_drop. lia.
      * exists c'. split; [done|]. rewrite <-app_assoc, take_drop in H'. split; [done|]. by apply Hcc.
Qed.
Lemma splice_twice o a b t : (o + length a + length b <= length t)%nat -> splice (o + length a) b (splice o a t) = splice o (a ++ b) t.
Proof.
  intros H. unfold splice. rewrite length_app. rewrite !app_assoc, take_app_length' by (rewrite length_app, length_take; lia). rewrite <-!app_assoc. do 3 f_equal.
  rewrite app_assoc, drop_app_ge by (rewrite length_app, length_take; lia). rewrite drop_drop, length_app, length_take. f_equal. lia.
Qed.
Lemma after_init stack : length (inb stack) = 64%nat -> after [] (MD5Init stack) /\ counted [] (MD5Init stack).
Proof. intros H. split; [|done]. by constructor; [|split_and!|split; [|rewrite take_0]]. Qed.
(** The rest of a block up to the count, then the count. *)
Lemma finish_block l c b : after l c -> (length l mod 64 + length b = 56)%nat -> forall x y,
  after (l ++ b ++ word_bytes x ++ word_bytes y) (transform_in (set_in (splice 56 (word_bytes x ++ word_bytes y) (splice (length l mod 64) b (inb c))) c)).
Proof.
  intros H Hb x y. pose proof (put_rest l c b H ltac:(lia)) as H1. assert (length (l ++ b) mod 64 = 56)%nat as Hl by (rewrite length_app; symmetry; apply Nat.mod_unique with (length l / 64)%nat; pose proof (Nat.div_mod_eq (length l) 64); lia).
  pose proof (fill_block _ _ (word_bytes x ++ word_bytes y) H1) as H2. rewrite Hl in H2. rewrite <-app_assoc in H2. cbn [inb set_in] in H2. by apply H2.
Qed.
Lemma splice_next o x b t : (S o + length b <= length t)%nat -> splice (S o) b (splice o [x] t) = splice o (x :: b) t.
Proof. intros H. replace (S o) with (o + length [x])%nat by (simpl; lia). rewrite splice_twice; [done|]. simpl. lia. Qed.
Definition digest (r : regs) : list Z := let '(x, y, z, w) := r in word_bytes x ++ word_bytes y ++ word_bytes z ++ word_bytes w.
Lemma MD5Final_ok l c : after l c -> counted l c -> MD5Final c = rfc_md5 l.
Proof.
  intros H Hc. pose proof (bits_position l c Hc) as Hp. destruct Hc as [C0 C1]. set (t := (length l mod 64)%nat) in *. pose proof (Nat.mod_upper_bound (length l) 64 ltac:(done)) as Ht. fold t in Ht.
  pose proof H as [_ _ [Hin _]]. pose proof (Nat.div_mod_eq (length l) 64) as D. fold t in D.
  enough (exists c', MD5Final c = digest (buf c') /\ after (padded l) c') as (c' & -> & H')
    by (unfold rfc_md5; rewrite <-(af_buf _ _ H'); destruct (buf c') as [[[? ?] ?] ?]; cbn [digest]; by rewrite !bytes_rfc).
  unfold MD5Final. rewrite Hp, Nat2Z.id. cbn zeta. destruct (Z.ltb_spec (64 - 1 - Z.of_nat t) 8) as [Hlt|Hge]; cbn [inb set_in]; eexists; (split; [reflexivity|]).
  - rewrite splice_next by (rewrite length_replicate; lia). set (b := 0x80 :: replicate _ 0). assert (t + length b = 64)%nat as Hb by (subst b; cbn [length]; rewrite length_replicate; lia).
    pose proof (fill_block l c b H Hb) as H1. assert (length (l ++ b) mod 64 = 0)%nat as Em by (rewrite length_app; symmetry; apply Nat.mod_unique with (length l / 64 + 1)%nat; lia).
    pose proof (finish_block _ _ (replicate 56 0) H1) as H2. rewrite Em, length_replicate in H2. specialize (H2 eq_refl (bits0 c) (bits1 c)). rewrite <-app_assoc in H2. 
    replace (padded l) with (l ++ b ++ replicate 56 0 ++ word_bytes (bits0 c) ++ word_bytes (bits1 c)); [exact H2|]. unfold padded. subst b. rewrite <-C0, <-C1, <-!bytes_rfc, <-?app_assoc. cbn [app]. do 2 f_equal. rewrite app_assoc, <-replicate_add. do 2 f_equal. zlia.
  - rewrite splice_next by (rewrite length_replicate; lia). set (b := 0x80 :: replicate _ 0). assert (t + length b = 56)%nat as Hb by (subst b; cbn [length]; rewrite length_replicate; lia).
    replace (padded l) with (l ++ b ++ word_bytes (bits0 c) ++ word_bytes (bits1 c)); [exact (finish_block l c b H Hb (bits0 c) (bits1 c))|]. unfold padded. subst b. rewrite <-C0, <-C1, <-!bytes_rfc, <-?app_assoc. cbn [app]. do 4 f_equal. zlia.
Qed.

(** ** The functions *)

(** One call of [MD5Update] after the other. *)
Fixpoint updates (c : MD5Context) (chunks : list (list Z)) : result MD5Context :=
  match chunks with [] => Ok c | b :: chunks => let* c := MD5Update c b in updates c chunks end.
Lemma updates_ok chunks : Forall (fun b => Z.of_nat (length b) < 2 ^ 32) chunks -> forall l c, after l c -> counted l c -> exists c', updates c chunks = Ok c' /\ after (l ++ concat chunks) c' /\ counted (l ++ concat chunks) c'.
Proof.
  induction 1 as [|b chunks Hb _ IH]; intros l c H Hc; cbn [updates concat]; [rewrite app_nil_r; by exists c|].
  destruct (MD5Update_ok l c b H Hc Hb) as (c1 & -> & H1 & C1). cbn [rbind]. destruct (IH _ _ H1 C1) as (c' & E & H' & C'). rewrite <-app_assoc in *. by exists c'.
Qed.
(** C38: however a message is cut into pieces for [MD5Update], and whatever the stack held, the context computes the digest that RFC
    1321 defines for the whole message, of any length. *)
Theorem md5_streams stack chunks : length (inb stack) = 64%nat -> Forall (fun b => Z.of_nat (length b) < 2 ^ 32) chunks ->
  exists c, updates (MD5Init stack) chunks = Ok c /\ MD5Final c = rfc_md5 (concat chunks).
Proof.
  intros Hs Hc. destruct (after_init stack Hs) as [H0 C0]. destruct (updates_ok chunks Hc [] _ H0 C0) as (c & E & H & C). exists c. split; [done|]. by apply MD5Final_ok.
Qed.
Lemma digest_bytes l : length (rfc_md5 l) = 16%nat /\ Forall is_byte (rfc_md5 l).
Proof.
  unfold rfc_md5. destruct (absorbed (padded l)) as [[[a b] c] d]. split; [done|]. rewrite <-!bytes_rfc. unfold word_bytes. repeat (apply Forall_cons; split); (apply Forall_nil; done) || (unfold is_byte, u8; zlia).
Qed.
(** [md5_string] makes a new string, the digest of the substring. *)
Lemma md5_string_digests stack h b s (o n : nat) : length (inb stack) = 64%nat -> string_at h b s -> (o + n <= length s)%nat ->
  md5_string stack (Ptr b) (Val_long (Z.of_nat o)) (Val_long (Z.of_nat n)) h = let (v, h') := alloc (string_block (rfc_md5 (take n (drop o s)))) h in returns v h'.
Proof.
  intros Hst Hs Hn. pose proof Hs as [_ [_ Hl]]. unfold Max_wosize in Hl. unfold md5_string. rewrite !Long_val_is_long by (unfold is_long, Min_long, Max_long; lia). cbn [rbind].
  rewrite u32_small, Nat2Z.id by (unfold is_u32; lia). rewrite (read_bytes_ok h b s) by done. cbn [rbind]. destruct (after_init stack Hst) as [H0 C0].
  destruct (MD5Update_ok [] _ (take n (drop o s)) H0 C0) as (c & E & H & C); [rewrite length_take; lia|]. rewrite E. cbn [rbind]. rewrite alloc_string_eq by (unfold Max_wosize; lia). rewrite (MD5Final_ok _ _ H C). cbn [rbind alloc app].
  set (d := rfc_md5 _). destruct (digest_bytes (take n (drop o s))) as [D1 D2]. fold d in D1, D2. change 0 with (Z.of_nat 0).
  destruct (write_bytes_ok d (<[fresh (dom h) := string_block (replicate (Z.to_nat 16) (Z.of_nat 0))]> h) (fresh (dom h)) (replicate 16 0) 0) as [Ew _].
  - split; [apply lookup_insert_eq|]. split; [|done]. apply Forall_replicate. done.
  - rewrite D1. done.
  - rewrite Ew. cbn [rbind]. rewrite insert_insert_eq, bytes_u8 by done. unfold splice. by rewrite drop_ge, app_nil_r by (rewrite length_replicate; lia).
Qed.
Definition old_stack : MD5Context := mkCtx (1, 2, 3, 4) 5 6 (replicate 64 7).
Lemma md5_streams_witness : length (inb old_stack) = 64%nat /\ Forall (fun b => Z.of_nat (length b) < 2 ^ 32) [ascii_codes "a"; []; replicate 70 98; ascii_codes "c"] /\
  exists c, updates (MD5Init old_stack) [ascii_codes "a"; []; replicate 70 98; ascii_codes "c"] = Ok c /\ MD5Final c = rfc_md5 (concat [ascii_codes "a"; []; replicate 70 98; ascii_codes "c"]).
Proof.
  assert (Forall (fun b => Z.of_nat (length b) < 2 ^ 32) [ascii_codes "a"; []; replicate 70 98; ascii_codes "c"]) as H by (repeat (apply Forall_cons; split; [vm_compute; reflexivity|]); by apply Forall_nil).
  split; [reflexivity|]. split; [exact H|]. exact (md5_streams old_stack _ eq_refl H).
Defined.
Example md5_string_abc : (let* r := md5_string old_stack (Ptr 0) (Val_long 1) (Val_long 3) {[0%nat := string_block (ascii_codes "xabcy")]} in
  match r with inl (v, h) => read_bytes 16 h v 0 | inr _ => Fault end) = Ok (rfc_md5 (ascii_codes "abc")).
Proof. vm_compute. reflexivity. Qed.
