(* ===== verification/FreeList.v ===== *)
(** * The free list of the major heap: kernel/Byterun/freelist.c

    The list of free blocks by increasing addresses that [alloc_shr] takes blocks from and the sweeper returns them to.  Memory is a
    map from the addresses of words to words; [Fl_head] is the address of the field [first_bp] of the sentinel, which the linker chooses.
    The [Assert]s are compiled only with DEBUG. *)
From stdpp Require Import gmap list.
From S2P Require Import Prelude Memory Intext Gcheap.

(** ** The code *)

Definition Hd_bp (m : mem) (bp : Z) : result Z := get m (bp ⊟ 4).
Definition set_Hd_bp (m : mem) (bp hd : Z) : result mem := put m (bp ⊟ 4) hd.
Definition Hp_bp (bp : Z) : Z := bp ⊟ 4.
Definition Next (m : mem) (bp : Z) : result Z := get m bp.
Definition set_Next (m : mem) (bp v : Z) : result mem := put m bp v.
Definition Bosize_hd (hd : Z) : Z := 4 * Wosize_hd hd.
Definition Whsize_hd (hd : Z) : Z := Wosize_hd hd + 1.

(** Memory and the variables of the file. *)
Record fl := mkFl { fmem : mem; fl_prev : Z; fl_last : Z; fl_merge : Z; fl_cur_size : Z; last_fragment : Z }.
Definition set_fmem x s := mkFl x (fl_prev s) (fl_last s) (fl_merge s) (fl_cur_size s) (last_fragment s).
Definition set_fl_prev x s := mkFl (fmem s) x (fl_last s) (fl_merge s) (fl_cur_size s) (last_fragment s).
Definition set_fl_last x s := mkFl (fmem s) (fl_prev s) x (fl_merge s) (fl_cur_size s) (last_fragment s).
Definition set_fl_merge x s := mkFl (fmem s) (fl_prev s) (fl_last s) x (fl_cur_size s) (last_fragment s).
Definition set_fl_cur_size x s := mkFl (fmem s) (fl_prev s) (fl_last s) (fl_merge s) x (last_fragment s).
Definition set_last_fragment x s := mkFl (fmem s) (fl_prev s) (fl_last s) (fl_merge s) (fl_cur_size s) x.
Definition write_Next (bp v : Z) (s : fl) : result fl := let* m := set_Next (fmem s) bp v in Ok (set_fmem m s).
Definition write_Hd (bp hd : Z) (s : fl) : result fl := let* m := set_Hd_bp (fmem s) bp hd in Ok (set_fmem m s).

Section freelist.
Context (Fl_head : Z).

Definition allocate_block (wh_sz prev cur : Z) (s : fl) : result (fl * Z) :=
  let* h := Hd_bp (fmem s) cur in
  let* s :=
    if Wosize_hd h <? wh_sz + 1 then
      let* nx := Next (fmem s) cur in
      let* s := write_Next prev nx s in
      let s := if fl_merge s =? cur then set_fl_merge prev s else s in
      write_Hd cur (Make_header 0 0 White) s
    else write_Hd cur (Make_header (Wosize_hd h - wh_sz) 0 Blue) s in
  Ok (set_fl_prev prev s, cur + Bosize_hd h - 4 * wh_sz).
(** The first loop of [fl_allocate], to the end of the list; it leaves [prev]. *)
Fixpoint search_end (fuel : nat) (wo_sz prev : Z) (s : fl) : result (fl * Z + Z) :=
  match fuel with
  | O => Loop
  | S fuel =>
      let* cur := Next (fmem s) prev in
      if cur =? 0 then Ok (inr prev)
      else
        let* h := Hd_bp (fmem s) cur in
        if wo_sz <=? Wosize_hd h then let* r := allocate_block (Whsize_wosize wo_sz) prev cur s in Ok (inl r)
        else search_end fuel wo_sz cur s
  end.
(** The second one, from the start of the list to [fl_prev]; 0 is NULL. *)
Fixpoint search_start (fuel : nat) (wo_sz prev : Z) (s : fl) : result (fl * Z) :=
  match fuel with
  | O => Loop
  | S fuel =>
      if prev =? fl_prev s then Ok (s, 0)
      else
        let* cur := Next (fmem s) prev in
        let* h := Hd_bp (fmem s) cur in
        if wo_sz <=? Wosize_hd h then allocate_block (Whsize_wosize wo_sz) prev cur s
        else search_start fuel wo_sz cur s
  end.
Definition fl_allocate (wo_sz : Z) (s : fl) : result (fl * Z) :=
  let* r := search_end (turns (fmem s)) wo_sz (fl_prev s) s in
  match r with
  | inl r => Ok r
  | inr prev => search_start (turns (fmem s)) wo_sz Fl_head (set_fl_last prev s)
  end.
Definition fl_init_merge (s : fl) : fl := set_fl_cur_size 0 (set_fl_merge Fl_head (set_last_fragment 0 s)).
Definition fl_reset (s : fl) : result fl :=
  let* s := write_Next Fl_head 0 s in
  Ok (fl_init_merge (set_fl_prev Fl_head s)).
Definition fl_merge_block (bp : Z) (s : fl) : result (fl * Z) :=
  let* hd := Hd_bp (fmem s) bp in
  let s := set_fl_cur_size (fl_cur_size s ⊞ Whsize_hd hd) s in
  let prev := fl_merge s in
  let* cur := Next (fmem s) prev in
  let* (s, hd, bp) :=
    if last_fragment s =? Hp_bp bp then
      let hd := Make_header (Whsize_hd hd) 0 White in
      let bp := last_fragment s in
      let* s := write_Hd bp hd s in
      Ok (set_fl_cur_size (fl_cur_size s ⊞ Whsize_wosize 0) s, hd, bp)
    else Ok (s, hd, bp) in
  let adj := bp + Bosize_hd hd in
  let* (s, hd, adj, cur) :=
    if adj =? Hp_bp cur then
      let* next_cur := Next (fmem s) cur in
      let* hc := Hd_bp (fmem s) cur in
      let* s := write_Next prev next_cur s in
      let s := if fl_prev s =? cur then set_fl_prev prev s else s in
      let hd := Make_header (Wosize_hd hd + Whsize_hd hc) 0 Blue in
      let* s := write_Hd bp hd s in
      Ok (s, hd, bp + Bosize_hd hd, next_cur)
    else Ok (s, hd, adj, cur) in
  let* hp := Hd_bp (fmem s) prev in
  if prev + Bosize_hd hp =? Hp_bp bp then
    let* s := write_Hd prev (Make_header (Wosize_hd hp + Whsize_hd hd) 0 Blue) s in
    Ok (s, adj)
  else if negb (Wosize_hd hd =? 0) then
    let* s := write_Hd bp (Bluehd_hd hd) s in
    let* s := write_Next bp cur s in
    let* s := write_Next prev bp s in
    Ok (set_fl_merge bp s, adj)
  else Ok (set_last_fragment bp s, adj).
(** The loop of [fl_add_block]: the place of [bp]. *)
Fixpoint add_place (fuel : nat) (m : mem) (bp prev cur : Z) : result (Z * Z) :=
  match fuel with
  | O => Loop
  | S fuel => if negb (cur =? 0) && (cur <? bp) then let* x := Next m cur in add_place fuel m bp cur x else Ok (prev, cur)
  end.
Definition fl_add_block (gc_sweep_hp bp : Z) (s : fl) : result fl :=
  if fl_last s <? bp then
    let* s := write_Next (fl_last s) bp s in
    write_Next bp 0 s
  else
    let* cur := Next (fmem s) Fl_head in
    let* (prev, cur) := add_place (turns (fmem s)) (fmem s) bp Fl_head cur in
    let* s := write_Next bp cur s in
    let* s := write_Next prev bp s in
    Ok (if (prev =? fl_merge s) && (bp <=? gc_sweep_hp) then set_fl_merge bp s else s).

End freelist.
