(* ===== verification/FreeListSpec.v ===== *)
(** * The free list as a list of blocks

    What memory holds for a list of free blocks, given by address and size in words, and what the operations of [FreeList] do to it:
    [fl_allocate] is next fit, [fl_merge_block] joins a block with its neighbours, [fl_add_block] inserts a new chunk. *)
From stdpp Require Import gmap list sorting.
From S2P Require Import Prelude Memory Mlvalues Intext Gcheap FreeList.

(** ** Chains *)

(** From the link at [p] through the blocks [l] to [e]. *)
Fixpoint chain (m : mem) (p : Z) (l : list Z) (e : Z) : Prop :=
  match l with [] => m !! p = Some e | b :: l => m !! p = Some b /\ chain m b l e end.
Definition end_of (p : Z) (l : list Z) : Z := List.last l p.
Lemma end_snoc p l b : end_of p (l ++ [b]) = b.
Proof. apply List.last_last. Qed.
Lemma end_cons p b l : end_of p (b :: l) = end_of b l.
Proof. unfold end_of. destruct l as [|c l]; [done|]. cbn [List.last]. revert c. induction l as [|d l IH]; intros c; [done|]. cbn [List.last] in *. apply IH. Qed.
Lemma end_in p l : end_of p l ∈ p :: l.
Proof. revert p. induction l as [|b l IH]; intros p; [left|]. rewrite end_cons. right. apply IH. Qed.
Lemma end_app p l1 l2 : end_of p (l1 ++ l2) = end_of (end_of p l1) l2.
Proof. revert p. induction l1 as [|b l1 IH]; intros p; [done|]. cbn [app]. by rewrite !end_cons. Qed.
Lemma fchain_app m p l1 b l2 e : chain m p (l1 ++ b :: l2) e <-> chain m p l1 b /\ chain m b l2 e.
Proof. revert p. induction l1 as [|c l1 IH]; intros p; cbn [app chain]; [done|]. rewrite IH. tauto. Qed.
Lemma chain_end m p l e : chain m p l e -> m !! end_of p l = Some e.
Proof. revert p. induction l as [|b l IH]; intros p; [done|]. intros [_ H]. rewrite end_cons. by apply IH. Qed.
Lemma chain_split m p l1 l2 e : chain m p (l1 ++ l2) e -> exists x, chain m p l1 x /\ chain m (end_of p l1) l2 e /\ m !! end_of p l1 = Some x.
Proof.
  revert p. induction l1 as [|b l1 IH]; intros p; cbn [app chain].
  - intros H. exists (match l2 with [] => e | c :: _ => c end). destruct l2 as [|c l2]; [done|]. destruct H as [H1 H2]. done.
  - intros [H1 H2]. destruct (IH b H2) as (x & H3 & H4 & H5). exists x. by rewrite end_cons.
Qed.
Lemma fchain_frame m m' l e : forall p, (forall q, q ∈ p :: l -> m' !! q = m !! q) -> chain m p l e -> chain m' p l e.
Proof.
  induction l as [|b l IH]; intros p H; cbn [chain]; [by rewrite H by left|]. intros [H1 H2]. split; [by rewrite H by left|]. apply IH; [|done]. intros q Hq. apply H. by right.
Qed.
(** The last link is set. *)
Lemma chain_set m l e e' : forall p, NoDup (p :: l) -> chain m p l e -> chain (<[end_of p l := e']> m) p l e'.
Proof.
  induction l as [|b l IH]; intros p Hn H; cbn [chain] in *; [apply lookup_insert_eq|]. destruct H as [H1 H2]. apply NoDup_cons in Hn as [Hp Hn]. rewrite end_cons. split; [|by apply IH].
  rewrite lookup_insert_ne; [done|]. intros E. apply Hp. rewrite <-E. apply end_in.
Qed.

(** ** Blocks *)

Abbreviation fblock := (Z * Z)%type.
(** The header of a free block keeps the tag that the block had. *)
Definition hd_word (n : Z) : Z := Make_header n 0 Blue.
Definition free_hd (n hd : Z) : Prop := exists t, header_parts n t /\ hd = Make_header n t Blue.
(** The last word of the address space is no header: NULL is not a block. *)
Definition block_ok (m : mem) (x : fblock) : Prop :=
  let (b, n) := x in b mod 4 = 0 /\ 8 <= b /\ 1 <= n < 2 ^ 22 /\ b + 4 * n < 2 ^ 32 - 4 /\ (exists hd, m !! (b - 4) = Some hd /\ free_hd n hd) /\ (forall q, b <= q < b + 4 * n -> q mod 4 = 0 -> is_Some (m !! q)).
(** The first one ends before the header of the second. *)
Definition before (x y : fblock) : Prop := x.1 + 4 * x.2 <= y.1 - 4.

Lemma free_size n hd : free_hd n hd -> Wosize_hd hd = n.
Proof. intros (t & H & ->). apply Wosize_header; [done|]. by right; right; left. Qed.
Lemma free_word n : 0 <= n < 2 ^ 22 -> free_hd n (hd_word n).
Proof. intros H. exists 0. split; [|done]. split; [unfold Max_wosize; lia|done]. Qed.

Section spec.
Context (Fl_head : Z).
(** The sentinel and its fillers are elsewhere. *)
Definition apart_head (x : fblock) : Prop := x.1 + 4 * x.2 <= Fl_head - 8 \/ Fl_head + 8 <= x.1 - 4.
Definition head_ok (m : mem) : Prop := Fl_head mod 4 = 0 /\ 8 <= Fl_head /\ Fl_head + 8 <= 2 ^ 32 /\ m !! (Fl_head - 4) = Some (hd_word 0).
(** The list in memory, and the pointers into it. *)
Record list_at (m : mem) (l : list fblock) : Prop := mkListAt {
  la_chain : chain m Fl_head l.*1 0;
  la_blocks : Forall (block_ok m) l;
  la_sorted : StronglySorted before l;
  la_head : head_ok m;
  la_apart : Forall apart_head l }.
Definition fl_at (s : fl) (l : list fblock) : Prop := list_at (fmem s) l /\ fl_prev s ∈ Fl_head :: l.*1 /\ fl_merge s ∈ Fl_head :: l.*1.
Definition first_of (l : list fblock) : Z := match l with [] => 0 | x :: _ => x.1 end.
Definition last_of (l : list fblock) : Z := end_of Fl_head l.*1.

Lemma sorted_mid (l1 l2 : list fblock) x : StronglySorted before (l1 ++ x :: l2) <-> StronglySorted before (l1 ++ l2) /\ (forall y, y ∈ l1 -> before y x) /\ (forall y, y ∈ l2 -> before x y).
Proof.
  rewrite !StronglySorted_app. split.
  - intros (H1 & H2 & H3). apply StronglySorted_inv in H3 as [H3 H4]. rewrite Forall_forall in H4. split_and!; [|done|done| |done].
    + intros a b Ha Hb. apply H1; [done|by right].
    + intros y Hy. apply H1; [done|left].
  - intros ((H1 & H2 & H3) & H4 & H5). split_and!; [|done|]; [|constructor; [done|by apply Forall_forall]]. intros a b Ha [->|Hb]%elem_of_cons; [by apply H4|by apply H1].
Qed.
(** Regions do not meet. *)
Lemma blocks_apart m l1 x l2 y : Forall (block_ok m) (l1 ++ x :: l2) -> StronglySorted before (l1 ++ x :: l2) -> y ∈ l1 ++ l2 -> y.1 + 4 * y.2 <= x.1 - 4 \/ x.1 + 4 * x.2 <= y.1 - 4.
Proof. intros _ (_ & H1 & H2)%sorted_mid [Hy|Hy]%elem_of_app; [left; by apply H1|right; by apply H2]. Qed.
Lemma starts_nodup m l : Forall (block_ok m) l -> StronglySorted before l -> Forall apart_head l -> NoDup (Fl_head :: l.*1).
Proof.
  intros Hb Hs Ha. apply NoDup_cons. split.
  - intros ([b n] & E & Hin)%list_elem_of_fmap. cbn in E. subst b. rewrite Forall_forall in Ha, Hb. pose proof (Ha _ Hin). pose proof (Hb _ Hin) as (_ & _ & ? & _). unfold apart_head in *. cbn in *. lia.
  - clear Ha. induction l as [|[b n] l IH]; [constructor|]. apply Forall_cons in Hb as [Hb Hl]. apply StronglySorted_inv in Hs as [Hs Hx]. cbn [fmap list_fmap fst]. apply NoDup_cons. split; [|by apply IH].
    intros ([b' n'] & E & Hin)%list_elem_of_fmap. cbn in E. subst b'. rewrite Forall_forall in Hx. pose proof (Hx _ Hin). destruct Hb as (_ & _ & ? & _). unfold before in *. cbn in *. lia.
Qed.
Lemma list_nodup m l : list_at m l -> NoDup (Fl_head :: l.*1).
Proof. intros H. eapply starts_nodup; apply H. Qed.
Lemma block_word m b n q : block_ok m (b, n) -> b - 4 <= q < b + 4 * n -> q mod 4 = 0 -> is_Some (m !! q).
Proof.
  intros (H1 & H2 & H3 & H4 & H5 & H6) Hq Hq4. destruct (decide (q = b - 4)) as [->|]; [destruct H5 as (? & ? & _); by eexists|]. apply H6; [zlia|done].
Qed.
(** The words in memory limit the number of blocks. *)
Lemma blocks_turns m l : list_at m l -> (length l < turns m)%nat.
Proof.
  intros H. unfold turns. enough (length l <= size m)%nat by lia. pose proof (list_nodup m l H) as [_ Hn]%NoDup_cons. rewrite <-(length_fmap fst l), <-size_dom, <-(size_list_to_set (C := gset Z)) by done.
  apply subseteq_size. intros a Ha%elem_of_list_to_set. apply list_elem_of_fmap in Ha as ([b n] & -> & Hs). apply elem_of_dom. pose proof (la_blocks _ _ H) as Hb. rewrite Forall_forall in Hb. pose proof (Hb _ Hs) as Hbn.
  eapply block_word; [exact Hbn|..]; destruct Hbn as (? & ? & ? & _); simpl; [lia|done].
Qed.
(** Words of other regions are as before. *)
Lemma fblock_frame m m' x : (forall q, x.1 - 4 <= q < x.1 + 4 * x.2 -> m' !! q = m !! q) -> block_ok m x -> block_ok m' x.
Proof. destruct x as [b n]. cbn [fst snd]. intros F (H1 & H2 & H3 & H4 & H5 & H6). split_and!; try done; try lia. - rewrite F by lia. done. - intros q Hq Hq4. rewrite F by lia. by apply H6. Qed.

(** *** Changes to the list *)

(** A word that is neither in a block nor of the sentinel. *)
Definition elsewhere (q : Z) (l : list fblock) : Prop := (forall x, x ∈ l -> q < x.1 - 4 \/ x.1 + 4 * x.2 <= q) /\ (q < Fl_head - 4 \/ Fl_head < q).
Lemma link_place m l p : list_at m l -> p ∈ Fl_head :: l.*1 -> p mod 4 = 0 /\ is_Some (m !! p) /\ forall x, x ∈ l -> p < x.1 - 4 \/ x.1 + 4 * x.2 <= p \/ p = x.1.
Proof.
  intros H Hp. apply elem_of_cons in Hp as [->|([b n] & -> & Hin)%list_elem_of_fmap].
  - destruct (la_head _ _ H) as (? & ? & ? & _). split; [done|]. split.
    + pose proof (la_chain _ _ H) as Hc. destruct l as [|[b n] l]; cbn in Hc; [by eexists|]. destruct Hc as [? _]. by eexists.
    + intros x Hx. pose proof (la_apart _ _ H) as Ha. rewrite Forall_forall in Ha. pose proof (Ha x Hx). unfold apart_head in *. lia.
  - cbn [fst]. pose proof (la_blocks _ _ H) as Hb. rewrite Forall_forall in Hb. pose proof (Hb _ Hin) as Hbn. split; [by destruct Hbn|]. split; [eapply block_word; [exact Hbn|destruct Hbn as (? & ? & ? & _); lia|by destruct Hbn]|].
    intros x Hx. apply list_elem_of_split in Hin as (l1 & l2 & ->). destruct Hbn as (? & ? & ? & _). apply elem_of_app in Hx as [Hx|[->|Hx]%elem_of_cons]; [|by right; right|].
    + pose proof (blocks_apart m l1 (b, n) l2 x (la_blocks _ _ H) (la_sorted _ _ H) ltac:(apply elem_of_app; by left)) as D. cbn in D. lia.
    + pose proof (blocks_apart m l1 (b, n) l2 x (la_blocks _ _ H) (la_sorted _ _ H) ltac:(apply elem_of_app; by right)) as D. cbn in D. lia.
Qed.
(** Writing a link. *)
Lemma block_link m l p v x : list_at m l -> p ∈ Fl_head :: l.*1 -> x ∈ l -> block_ok m x -> block_ok (<[p := v]> m) x.
Proof.
  intros H Hp Hx Hb. destruct (link_place m l p H Hp) as (_ & _ & D). pose proof (D x Hx) as Dx. destruct x as [b n]. cbn [fst snd] in *. destruct Hb as (H1 & H2 & H3 & H4 & H5 & H6).
  split_and!; try done; try lia. - rewrite lookup_insert_ne by lia. done. - intros q Hq Hq4. apply insert_some. by apply H6.
Qed.
Lemma head_link m l p v : list_at m l -> p ∈ Fl_head :: l.*1 -> head_ok (<[p := v]> m).
Proof.
  intros H Hp. pose proof (la_head _ _ H) as (H1 & H2 & H3 & H4). split_and!; try done. rewrite lookup_insert_ne; [done|]. apply elem_of_cons in Hp as [->|([b n] & -> & Hin)%list_elem_of_fmap]; [lia|].
  pose proof (la_apart _ _ H) as Ha. rewrite Forall_forall in Ha. pose proof (Ha _ Hin) as D. pose proof (la_blocks _ _ H) as Hb. rewrite Forall_forall in Hb. destruct (Hb _ Hin) as (_ & _ & ? & _). unfold apart_head in D. cbn in *. lia.
Qed.
Lemma put_elsewhere m l q v : list_at m l -> elsewhere q l -> list_at (<[q := v]> m) l.
Proof.
  intros H [Hq1 Hq2]. pose proof H as [H1 H2 H3 H4 H5]. constructor; [|..]; try done.
  - eapply fchain_frame; [|exact H1]. intros p Hp. apply lookup_insert_ne. intros ->. apply elem_of_cons in Hp as [->|([b n] & -> & Hin)%list_elem_of_fmap]; [lia|]. pose proof (Hq1 _ Hin).
    rewrite Forall_forall in H2. destruct (H2 _ Hin) as (_ & _ & ? & _). cbn in *. lia.
  - rewrite Forall_forall in H2 |- *. intros x Hx. apply (fblock_frame m); [|by apply H2]. intros p Hp. apply lookup_insert_ne. pose proof (Hq1 x Hx). lia.
  - destruct H4 as (? & ? & ? & ?). split_and!; try done. rewrite lookup_insert_ne by lia. done.
Qed.
Lemma unlink m x b n y : list_at m (x ++ (b, n) :: y) -> m !! b = Some (first_of y) /\ list_at (<[last_of x := first_of y]> m) (x ++ y).
Proof.
  intros H. pose proof H as [H1 H2 H3 H4 H5]. pose proof (list_nodup _ _ H) as Hn. rewrite fmap_app, fmap_cons in H1, Hn. cbn [fst] in *. pose proof H1 as [Hx Hy]%fchain_app. assert (m !! b = Some (first_of y)) as Hb by (destruct y as [|[c k] y]; cbn in Hy; [done|by destruct Hy]).
  split; [done|]. assert (last_of x ∈ Fl_head :: (x ++ (b, n) :: y).*1) as Hp.
  { rewrite fmap_app, app_comm_cons. apply elem_of_app. left. apply end_in. }
  apply sorted_mid in H3 as (H3 & _ & _). apply Forall_app in H2 as [H2x (_ & H2y)%Forall_cons]. apply Forall_app in H5 as [H5x (_ & H5y)%Forall_cons]. constructor; [| |done|by eapply head_link|by apply Forall_app].
  - rewrite fmap_app. rewrite app_comm_cons in Hn. apply NoDup_app in Hn as (Hnx & Hxy & Hny). assert (chain (<[last_of x := first_of y]> m) Fl_head x.*1 (first_of y)) as Cx by (eapply chain_set; [done|exact Hx]).
    destruct y as [|[c k] y]; cbn [fmap list_fmap] in *; [by rewrite app_nil_r|]. apply fchain_app. split; [exact Cx|]. destruct Hy as [_ Hy]. cbn [fst] in Hy. eapply fchain_frame; [|exact Hy].
    intros q Hq. apply lookup_insert_ne. intros <-. apply (Hxy (last_of x)); [apply end_in|by right].
  - apply Forall_forall. intros z Hz. assert (z ∈ x ++ (b, n) :: y) as Hin by (apply elem_of_app in Hz as [Hz|Hz]; apply elem_of_app; [by left|right; by right]).
    eapply block_link; [exact H|exact Hp|done|]. pose proof (la_blocks _ _ H) as Hall. rewrite Forall_forall in Hall. by apply Hall.
Qed.
Lemma link m x b n y : list_at m (x ++ y) -> block_ok m (b, n) -> apart_head (b, n) -> (forall z, z ∈ x -> before z (b, n)) -> (forall z, z ∈ y -> before (b, n) z) ->
  list_at (<[last_of x := b]> (<[b := first_of y]> m)) (x ++ (b, n) :: y).
Proof.
  intros H Hb Ha Hx Hy. pose proof Hb as (B1 & B2 & B3 & B4 & B5 & B6). assert (elsewhere b (x ++ y)) as He.
  { split; [|unfold apart_head in Ha; cbn in Ha; lia]. intros z [Hz|Hz]%elem_of_app; [pose proof (Hx z Hz) as D|pose proof (Hy z Hz) as D]; unfold before in D; cbn in D; lia. }
  set (m1 := <[b := first_of y]> m). pose proof (put_elsewhere m _ b (first_of y) H He) as H1. fold m1 in H1. assert (block_ok m1 (b, n)) as Hb1.
  { split_and!; try done; try lia. - subst m1. rewrite lookup_insert_ne by lia. done. - intros q Hq Hq4. by apply insert_some, B6. }
  assert (last_of x ∈ Fl_head :: (x ++ y).*1) as Hp by (rewrite fmap_app, app_comm_cons; apply elem_of_app; left; apply end_in).
  assert (last_of x <> b) as Hne. { intros E. pose proof (end_in Fl_head x.*1) as Hin. fold (last_of x) in Hin.
    apply elem_of_cons in Hin as [E'|([c k] & E' & Hin)%list_elem_of_fmap]; [destruct He as [_ He]; lia|]. cbn in E'. pose proof (Hx _ Hin) as D. pose proof (la_blocks _ _ H) as Hall. rewrite Forall_forall in Hall.
    destruct (Hall (c, k) ltac:(apply elem_of_app; by left)) as (_ & _ & ? & _). unfold before in D. cbn in D. lia. }
  pose proof H1 as [C1 C2 C3 C4 C5]. constructor.
  - rewrite fmap_app, fmap_cons in *. cbn [fst]. pose proof (list_nodup _ _ H) as Hn. rewrite fmap_app, app_comm_cons in Hn. apply NoDup_app in Hn as (Hnx & Hxy & Hny). apply chain_split in C1 as (e & Cx & Cy & Ce). apply fchain_app.
    split; [by eapply chain_set|]. destruct y as [|[c k] y]; cbn [fmap list_fmap chain fst] in *.
    + rewrite lookup_insert_ne by done. apply lookup_insert_eq.
    + destruct Cy as [_ Cy]. split; [rewrite lookup_insert_ne by done; apply lookup_insert_eq|]. eapply fchain_frame; [|exact Cy]. intros q Hq. apply lookup_insert_ne. intros <-. apply (Hxy (last_of x)); [apply end_in|done].
  - assert (forall z, z ∈ x ++ y -> block_ok (<[last_of x := b]> m1) z) as Hz by (intros z Hz; rewrite Forall_forall in C2; eapply block_link; [exact H1|exact Hp|done|by apply C2]).
    apply Forall_app. split; [apply Forall_forall; intros z Hin; apply Hz, elem_of_app; by left|]. apply Forall_cons. split; [|apply Forall_forall; intros z Hin; apply Hz, elem_of_app; by right].
    destruct (link_place _ _ _ H1 Hp) as (P1 & _ & P2). destruct Hb1 as (K1 & K2 & K3 & K4 & K5 & K6). split_and!; try done; try lia; [|intros q Hq Hq4; by apply insert_some, K6]. rewrite lookup_insert_ne; [done|].
    pose proof (end_in Fl_head x.*1) as Hin. fold (last_of x) in Hin. apply elem_of_cons in Hin as [->|([c k] & E' & Hin)%list_elem_of_fmap].
    + unfold apart_head in Ha. cbn in Ha. lia.
    + cbn in E'. pose proof (Hx _ Hin) as D. rewrite Forall_forall in C2. destruct (C2 (c, k) ltac:(apply elem_of_app; by left)) as (_ & _ & ? & _). unfold before in D. cbn in D. lia.
  - apply sorted_mid. split_and!; [done|exact Hx|exact Hy].
  - by eapply head_link.
  - apply Forall_app in C5 as [? ?]. apply Forall_app. split; [done|]. by apply Forall_cons.
Qed.
Lemma resize m x b n y n' : list_at m (x ++ (b, n) :: y) -> 1 <= n' < 2 ^ 22 -> b + 4 * n' < 2 ^ 32 - 4 -> (forall q, b + 4 * n <= q < b + 4 * n' -> q mod 4 = 0 -> is_Some (m !! q)) -> apart_head (b, n') ->
  (forall z, z ∈ y -> before (b, n') z) -> list_at (<[b - 4 := hd_word n']> m) (x ++ (b, n') :: y).
Proof.
  intros [H1 H2 H3 H4 H5] Hn Hmax Hw Ha Hy. pose proof H3 as (S1 & S2 & S3)%sorted_mid. pose proof (proj1 (Forall_app _ _ _) H2) as [B1 (B2 & B3)%Forall_cons]. pose proof B2 as (K1 & K2 & K3 & K4 & K5 & K6). constructor.
  - rewrite fmap_app, fmap_cons in *. cbn [fst] in *. eapply fchain_frame; [|exact H1]. intros q Hq. apply lookup_insert_ne. intros <-. apply elem_of_cons in Hq as [E|[([c k] & E & Hin)%list_elem_of_fmap|[E|([c k] & E & Hin)%list_elem_of_fmap]%elem_of_cons]%elem_of_app].
    + unfold apart_head in Ha. cbn in Ha. lia.
    + pose proof (S2 _ Hin) as D. rewrite Forall_forall in B1. destruct (B1 _ Hin) as (_ & _ & ? & _). unfold before in D. cbn in *. lia.
    + lia.
    + pose proof (S3 _ Hin) as D. unfold before in D. cbn in *. lia.
  - rewrite Forall_forall in B1, B3. apply Forall_app. split; [|apply Forall_cons; split].
    + apply Forall_forall. intros z Hz. apply (fblock_frame m); [|by apply B1]. intros q Hq. apply lookup_insert_ne. pose proof (S2 _ Hz) as D. unfold before in D. cbn in *. lia.
    + split_and!; try done; try lia; [exists (hd_word n'); split; [apply lookup_insert_eq|apply free_word; lia]|]. intros q Hq Hq4. apply insert_some. destruct (Z.lt_ge_cases q (b + 4 * n)); [apply K6|apply Hw]; (done || lia).
    + apply Forall_forall. intros z Hz. apply (fblock_frame m); [|by apply B3]. intros q Hq. apply lookup_insert_ne. pose proof (S3 _ Hz) as D. unfold before in D. cbn in *. lia.
  - apply sorted_mid. split_and!; [done| |done]. intros z Hz. pose proof (S2 _ Hz) as D. unfold before in *. cbn in *. lia.
  - destruct H4 as (? & ? & ? & ?). split_and!; try done. rewrite lookup_insert_ne; [done|]. unfold apart_head in Ha. cbn in Ha. lia.
  - apply Forall_app in H5 as [? (_ & ?)%Forall_cons]. apply Forall_app. split; [done|]. by apply Forall_cons.
Qed.

(** ** [fl_allocate] *)

Lemma wosize_word n : 0 <= n < 2 ^ 22 -> Wosize_hd (hd_word n) = n.
Proof. intros Hn. unfold Wosize_hd, hd_word, Make_header, Blue. rewrite !shiftl_mul, shiftr_div, u32_small by (unfold is_u32; lia). zlia. Qed.
Lemma back4 b : 4 <= b <= 2 ^ 32 -> b ⊟ 4 = b - 4.
Proof. intros H. apply u32_small. unfold is_u32. lia. Qed.
Lemma list_hd m x b n y : list_at m (x ++ (b, n) :: y) -> exists hd, Hd_bp m b = Ok hd /\ m !! (b - 4) = Some hd /\ Wosize_hd hd = n /\ 8 <= b < 2 ^ 32 /\ block_ok m (b, n).
Proof.
  intros H. pose proof (la_blocks _ _ H) as [_ (Hb & _)%Forall_cons]%Forall_app. pose proof Hb as (H1 & H2 & H3 & H4 & (hd & H5 & H5') & H6). exists hd. split; [|split; [done|split; [by apply free_size|split; [lia|done]]]].
  unfold Hd_bp. rewrite back4 by lia. by apply get_some.
Qed.
Lemma last_link m x y : list_at m (x ++ y) -> m !! last_of x = Some (first_of y) /\ is_Some (m !! last_of x).
Proof.
  intros H. pose proof (la_chain _ _ H) as C. rewrite fmap_app in C. apply chain_split in C as (e & _ & C & E). fold (last_of x) in *. assert (m !! last_of x = Some (first_of y)) as Hl by (destruct y as [|[c k] y]; cbn in C; [done|by destruct C]). by rewrite Hl.
Qed.
(** What the list becomes when a block of [wh] words is taken from [(b, n)], and where the block is. *)
Definition remainder (b n wh : Z) : list fblock := if n <? wh + 1 then [] else [(b, n - wh)].
Definition taken (b n wh : Z) : Z := b + 4 * n - 4 * wh.
Definition same_outside (m m' : mem) (l : list fblock) (b n : Z) : Prop := dom m' = dom m /\ forall q, ~ (b - 4 <= q < b + 4 * n) -> q ∉ Fl_head :: l.*1 -> m' !! q = m !! q.
Lemma allocate_block_ok s x b n y wo : fl_at s (x ++ (b, n) :: y) -> 1 <= wo <= n ->
  exists s', allocate_block (Whsize_wosize wo) (last_of x) b s = Ok (s', taken b n (wo + 1)) /\ fl_at s' (x ++ remainder b n (wo + 1) ++ y) /\ fl_prev s' = last_of x /\
    (n = wo + 1 -> fmem s' !! (b - 4) = Some (Make_header 0 0 White)) /\ same_outside (fmem s) (fmem s') (x ++ (b, n) :: y) b n /\
    fl_last s' = fl_last s /\ fl_cur_size s' = fl_cur_size s /\ last_fragment s' = last_fragment s.
Proof.
  intros (H & Hp & Hm) Hwo. destruct (list_hd _ _ _ _ _ H) as (hd & Eh & K5 & Ew & Hb & Bk). pose proof Bk as (K1 & K2 & K3 & K4 & _ & K6). unfold allocate_block, Whsize_wosize, Bosize_hd. rewrite Eh. cbn [rbind]. rewrite Ew. unfold remainder, taken.
  assert (last_of x ∈ Fl_head :: (x ++ (b, n) :: y).*1) as Hl by (rewrite fmap_app, app_comm_cons; apply elem_of_app; left; apply end_in). assert (last_of x ∈ Fl_head :: x.*1) as Hlx by apply end_in.
  pose proof H as [_ _ (_ & S2 & S3)%sorted_mid _ [_ (Ap & _)%Forall_cons]%Forall_app]. unfold apart_head in Ap. cbn [fst snd] in Ap.
  assert (elsewhere (b - 4) (x ++ y)) as Hel by (split; [|lia]; intros z [Hz|Hz]%elem_of_app; [pose proof (S2 z Hz) as D|pose proof (S3 z Hz) as D]; unfold before in D; cbn in D; lia).
  destruct (Z.ltb_spec n (wo + 1 + 1)).
  - destruct (unlink _ _ _ _ _ H) as [Nb H1]. unfold Next, write_Next, set_Next. rewrite (get_some _ _ _ Nb). cbn [rbind]. rewrite put_some by (by eapply last_link). cbn [rbind]. set (s1 := set_fmem _ s) in *.
    set (s2 := if fl_merge s1 =? b then _ else s1). assert (fmem s2 = fmem s1) as E2 by (subst s2; by destruct (fl_merge s1 =? b)). unfold write_Hd, set_Hd_bp. rewrite back4 by lia.
    rewrite put_some by (rewrite E2; apply insert_some; by eexists). cbn [rbind]. rewrite E2. subst s1. cbn [fmem set_fmem] in *. eexists. split; [reflexivity|]. assert (fl_merge s2 ∈ Fl_head :: (x ++ y).*1) as Hm2.
    { subst s2. cbn [fl_merge set_fmem]. rewrite fmap_app, app_comm_cons. destruct (Z.eqb_spec (fl_merge s) b) as [|Hne]; [apply elem_of_app; by left|]. rewrite fmap_app, fmap_cons, app_comm_cons in Hm. cbn [fst] in Hm. rewrite !elem_of_app, !elem_of_cons in *. tauto. }
    split; [split; [by apply put_elsewhere|split; [rewrite fmap_app, app_comm_cons; apply elem_of_app; by left|done]]|]. split; [done|]. split; [intros _; apply lookup_insert_eq|]. split; [|subst s2; by destruct (_ =? b)].
    split; [cbn [fmem set_fmem set_fl_prev]; rewrite !dom_insert_lookup_L; [done|by eapply last_link|apply insert_some; by eexists]|]. intros q Hq Hql. cbn [fmem set_fmem set_fl_prev]. rewrite !lookup_insert_ne; [done|intros <-; done|lia].
  - unfold write_Hd, set_Hd_bp. rewrite back4 by lia. rewrite put_some by (by eexists). cbn [rbind]. eexists. split; [reflexivity|]. cbn [fmem set_fmem set_fl_prev fl_prev fl_merge]. 
    assert (forall k, (x ++ [(b, k)] ++ y).*1 = (x ++ (b, n) :: y).*1) as Ef by (intros k; by rewrite !fmap_app). split; [split; [|rewrite Ef; by split]|].
    + apply (resize _ _ _ n); [done|lia|lia|intros q Hq; lia|unfold apart_head; cbn; lia|]. intros z Hz. pose proof (S3 z Hz) as D. unfold before in *. cbn in *. lia.
    + split; [done|]. split; [lia|]. split; [|done]. split; [by apply dom_insert_lookup_L; eexists|]. intros q Hq Hql. rewrite lookup_insert_ne by lia. done.
Qed.
Definition too_small (wo : Z) (z : fblock) : Prop := z.2 < wo.
Lemma next_link m x b n y : list_at m (x ++ (b, n) :: y) -> Next m (last_of x) = Ok b.
Proof. intros H. apply last_link in H as [H _]. by apply get_some. Qed.
Lemma last_snoc x z : last_of (x ++ [z]) = z.1.
Proof. unfold last_of. rewrite fmap_app. apply end_snoc. Qed.
(** One step of both searches. *)
Lemma search_head m wo x b n y : list_at m (x ++ (b, n) :: y) -> Next m (last_of x) = Ok b /\ (b =? 0) = false /\ exists hd, Hd_bp m b = Ok hd /\ (wo <=? Wosize_hd hd) = (wo <=? n).
Proof. intros H. destruct (list_hd _ _ _ _ _ H) as (hd & E & _ & W & B & _). split; [by eapply next_link|]. split; [lia|]. exists hd. split; [done|]. by rewrite W. Qed.
Lemma search_end_ok s wo y : forall x fuel, list_at (fmem s) (x ++ y) -> (length y < fuel)%nat ->
  (Forall (too_small wo) y -> search_end fuel wo (last_of x) s = Ok (inr (last_of (x ++ y)))) /\
  (forall a b n c, y = a ++ (b, n) :: c -> Forall (too_small wo) a -> wo <= n -> search_end fuel wo (last_of x) s = let* r := allocate_block (Whsize_wosize wo) (last_of (x ++ a)) b s in Ok (inl r)).
Proof.
  induction y as [|[b n] y IH]; intros x [|fuel] H Hf; simpl in Hf; try lia; cbn [search_end].
  - apply last_link in H as [E _]. unfold Next. rewrite (get_some _ _ _ E). cbn [rbind first_of]. split; [intros _; by rewrite app_nil_r|]. intros [|? ?] ? ? ?; done.
  - destruct (search_head _ wo _ _ _ _ H) as (E1 & E2 & hd & E3 & E4). rewrite E1. cbn [rbind]. rewrite E2, E3. cbn [rbind]. rewrite E4. assert (list_at (fmem s) ((x ++ [(b, n)]) ++ y)) as H' by (by rewrite <-app_assoc).
    destruct (IH (x ++ [(b, n)]) fuel H' ltac:(lia)) as [I1 I2]. rewrite last_snoc in I1, I2. cbn [fst] in I1, I2. split.
    + intros [Hb Hy]%Forall_cons. unfold too_small in Hb. cbn in Hb. destruct (Z.leb_spec wo n); [lia|]. rewrite <-app_assoc in I1. by apply I1.
    + intros [|[b' n'] a] b1 n1 c Ey Ha Hn; cbn [app] in Ey; injection Ey as -> -> ->.
      * destruct (Z.leb_spec wo n1); [|lia]. by rewrite app_nil_r.
      * apply Forall_cons in Ha as [Hb Ha]. unfold too_small in Hb. cbn in Hb. destruct (Z.leb_spec wo n'); [lia|]. rewrite (I2 a b1 n1 c) by done. by rewrite <-app_assoc.
Qed.
Lemma search_start_ok s wo z y : forall x fuel, list_at (fmem s) (x ++ y ++ z) -> fl_prev s = last_of (x ++ y) -> (length y < fuel)%nat ->
  (Forall (too_small wo) y -> search_start fuel wo (last_of x) s = Ok (s, 0)) /\
  (forall a b n c, y = a ++ (b, n) :: c -> Forall (too_small wo) a -> wo <= n -> search_start fuel wo (last_of x) s = allocate_block (Whsize_wosize wo) (last_of (x ++ a)) b s).
Proof.
  induction y as [|[b n] y IH]; intros x [|fuel] H Hp Hf; simpl in Hf; try lia; cbn [search_start].
  - rewrite app_nil_r in Hp. rewrite Hp, Z.eqb_refl. split; [done|]. intros [|? ?] ? ? ?; done.
  - assert (last_of x <> fl_prev s) as Hne.
    { rewrite Hp. pose proof (list_nodup _ _ H) as Hn. rewrite fmap_app, app_comm_cons in Hn. apply NoDup_app in Hn as (_ & Hn & _). specialize (Hn (last_of x) (end_in _ _)). intros E. apply Hn. rewrite E. rewrite fmap_app. apply elem_of_app. left.
      unfold last_of. rewrite fmap_app, end_app, fmap_cons, end_cons. apply end_in. }
    destruct (Z.eqb_spec (last_of x) (fl_prev s)); [done|]. cbn [app] in H. destruct (search_head _ wo _ _ _ _ H) as (E1 & E2 & hd & E3 & E4). rewrite E1. cbn [rbind]. rewrite E3. cbn [rbind]. rewrite E4.
    assert (list_at (fmem s) ((x ++ [(b, n)]) ++ y ++ z)) as H' by (by rewrite <-app_assoc). assert (fl_prev s = last_of ((x ++ [(b, n)]) ++ y)) as Hp' by (by rewrite <-app_assoc).
    destruct (IH (x ++ [(b, n)]) fuel H' Hp' ltac:(lia)) as [I1 I2]. rewrite last_snoc in I1, I2. cbn [fst] in I1, I2. split.
    + intros [Hb Hy]%Forall_cons. unfold too_small in Hb. cbn in Hb. destruct (Z.leb_spec wo n); [lia|]. by apply I1.
    + intros [|[b' n'] a] b1 n1 c Ey Ha Hn; cbn [app] in Ey; injection Ey as -> -> ->.
      * destruct (Z.leb_spec wo n1); [|lia]. by rewrite app_nil_r.
      * apply Forall_cons in Ha as [Hb Ha]. unfold too_small in Hb. cbn in Hb. destruct (Z.leb_spec wo n'); [lia|]. rewrite (I2 a b1 n1 c) by done. by rewrite <-app_assoc.
Qed.
(** A list has a first element that is large enough, or none. *)
Lemma first_fit wo l : Forall (too_small wo) l \/ exists a b n c, l = a ++ (b, n) :: c /\ Forall (too_small wo) a /\ wo <= n.
Proof.
  induction l as [|[b n] l IH]; [left; by apply Forall_nil|]. destruct (Z.le_gt_cases wo n); [right; exists [], b, n, l; split; [done|]; split; [by apply Forall_nil|done]|].
  destruct IH as [Hl|(a & b' & n' & c & -> & Ha & Hn)]; [left; by apply Forall_cons|]. right. exists ((b, n) :: a), b', n', c. split; [done|]. split; [by apply Forall_cons|done].
Qed.
(** The first block that is large enough, from the place of the last allocation on and round to it. *)
Definition next_fit (wo : Z) (l1 l2 x : list fblock) (b n : Z) (y : list fblock) : Prop :=
  l1 ++ l2 = x ++ (b, n) :: y /\ wo <= n /\
  ((exists a, x = l1 ++ a /\ Forall (too_small wo) a) \/ Forall (too_small wo) l2 /\ Forall (too_small wo) x /\ (length x < length l1)%nat).
Lemma in_split p l : p ∈ Fl_head :: l.*1 -> exists l1 l2, l = l1 ++ l2 /\ p = last_of l1.
Proof.
  intros [->|([b n] & -> & (l1 & l2 & ->)%list_elem_of_split)%list_elem_of_fmap]%elem_of_cons; [by exists [], l|]. exists (l1 ++ [(b, n)]), l2. rewrite <-app_assoc, last_snoc. done.
Qed.
Lemma fl_allocate_ok s l1 l2 wo : fl_at s (l1 ++ l2) -> fl_prev s = last_of l1 -> 1 <= wo ->
  exists s' hp, fl_allocate Fl_head wo s = Ok (s', hp) /\
    (hp = 0 /\ Forall (too_small wo) (l1 ++ l2) /\ s' = set_fl_last (last_of (l1 ++ l2)) s \/
     exists x b n y, next_fit wo l1 l2 x b n y /\ hp = taken b n (wo + 1) /\ hp <> 0 /\ fl_at s' (x ++ remainder b n (wo + 1) ++ y) /\ fl_prev s' = last_of x /\
       (n = wo + 1 -> fmem s' !! (b - 4) = Some (Make_header 0 0 White)) /\ same_outside (fmem s) (fmem s') (l1 ++ l2) b n).
Proof.
  intros H Hp Hwo. pose proof H as (Hl & _ & _). pose proof (blocks_turns _ _ Hl) as Ht. rewrite length_app in Ht. unfold fl_allocate. rewrite Hp.
  destruct (search_end_ok s wo l2 l1 (turns (fmem s)) Hl ltac:(lia)) as [E1 E2]. destruct (first_fit wo l2) as [H2|(a & b & n & c & -> & Ha & Hn)].
  - rewrite (E1 H2). cbn [rbind]. set (s1 := set_fl_last _ s). destruct (search_start_ok s1 wo l2 l1 [] (turns (fmem s)) Hl Hp ltac:(lia)) as [S1 S2]. change (last_of []) with Fl_head in S1, S2. cbn [app] in S2.
    destruct (first_fit wo l1) as [H1|(a & b & n & c & -> & Ha & Hn)].
    + rewrite (S1 H1). exists s1, 0. split; [done|]. left. split; [done|]. split; [by apply Forall_app|done].
    + rewrite (S2 a b n c eq_refl Ha Hn). rewrite <-app_assoc in H, Hl. cbn [app] in H, Hl. destruct (allocate_block_ok s1 a b n (c ++ l2) wo H ltac:(lia)) as (s' & E & H' & P & F & O & _). eexists s', _. split; [exact E|]. right.
      exists a, b, n, (c ++ l2). rewrite <-app_assoc in *. cbn [app]. split; [|split; [done|split; [|done]]].
      * split; [by rewrite <-app_assoc|]. split; [done|]. right. split; [done|]. split; [done|]. rewrite length_app. simpl. lia.
      * destruct (list_hd _ _ _ _ _ Hl) as (_ & _ & _ & _ & _ & (_ & ? & _)). unfold taken. lia.
  - rewrite (E2 a b n c eq_refl Ha Hn). rewrite app_assoc in H, Hl. destruct (allocate_block_ok s (l1 ++ a) b n c wo H ltac:(lia)) as (s' & E & H' & P & F & O & _). rewrite E. cbn [rbind]. eexists s', _. split; [reflexivity|]. right.
    exists (l1 ++ a), b, n, c. split; [|split; [done|split; [|split; [done|split; [done|split; [done|by rewrite app_assoc]]]]]].
    + split; [by rewrite <-app_assoc|]. split; [done|]. left. by exists a.
    + destruct (list_hd _ _ _ _ _ Hl) as (_ & _ & _ & _ & _ & (_ & ? & _)). unfold taken. lia.
Qed.

(** ** [fl_merge_block] *)

(** A block with the header [hd], between the free blocks [x] and [y]. *)
Record loose (m : mem) (x y : list fblock) (b n hd : Z) : Prop := mkLoose {
  lo_align : b mod 4 = 0 /\ 8 <= b /\ 0 <= n /\ b + 4 * n < 2 ^ 32 - 4;
  lo_hd : m !! (b - 4) = Some hd /\ exists t c, header_parts n t /\ a_color c /\ hd = Make_header n t c;
  lo_words : forall q, b <= q < b + 4 * n -> q mod 4 = 0 -> is_Some (m !! q);
  lo_head : apart_head (b, n);
  lo_after : forall z, z ∈ x -> before z (b, n);
  lo_before : forall z, z ∈ y -> before (b, n) z }.
Definition size_first (y : list fblock) : Z := match y with [] => 0 | z :: _ => z.2 + 1 end.
Definition size_last (x : list fblock) : Z := match List.rev x with [] => 0 | z :: _ => z.2 + 1 end.
(** With the block that follows, if it is free. *)
Definition join_next (b n : Z) (y : list fblock) : Z * list fblock := match y with (c, k) :: y' => if b + 4 * n =? c - 4 then (n + k + 1, y') else (n, y) | [] => (n, y) end.
Definition as_block (b n : Z) : list fblock := if n =? 0 then [] else [(b, n)].
(** With the block before it, if that ends where the header of [b] is. *)
Definition join_prev (x : list fblock) (b n : Z) : list fblock :=
  match List.rev x with (p, j) :: x' => if p + 4 * j =? b - 4 then List.rev x' ++ [(p, j + n + 1)] else x ++ as_block b n | [] => as_block b n end.
Lemma last_case {A} (x : list A) : x = [] \/ exists x' z, x = x' ++ [z].
Proof. destruct (decide (x = [])) as [->|H]; [by left|]. right. destruct (exists_last H) as (x' & z & ->). by exists x', z. Qed.
Lemma size_last_snoc x z : size_last (x ++ [z]) = z.2 + 1.
Proof. unfold size_last. by rewrite rev_unit. Qed.
Lemma join_prev_snoc x p j b n : join_prev (x ++ [(p, j)]) b n = if p + 4 * j =? b - 4 then x ++ [(p, j + n + 1)] else (x ++ [(p, j)]) ++ as_block b n.
Proof. unfold join_prev. by rewrite rev_unit, rev_involutive. Qed.
Lemma loose_elsewhere m x y b n hd : loose m x y b n hd -> elsewhere (b - 4) (x ++ y).
Proof.
  intros [H1 _ _ H4 H5 H6]. split; [|unfold apart_head in H4; cbn in H4; lia]. intros z [Hz|Hz]%elem_of_app; [pose proof (H5 z Hz) as D|pose proof (H6 z Hz) as D]; unfold before in D; cbn in D; lia.
Qed.
Lemma loose_Hd m x y b n hd : loose m x y b n hd -> Hd_bp m b = Ok hd /\ Wosize_hd hd = n /\ Hp_bp b = b - 4 /\ is_Some (m !! (b - 4)).
Proof. intros [H1 [H2 (t & c & H3 & H4 & H5)] _ _ _ _]. unfold Hd_bp, Hp_bp. rewrite back4 by lia. rewrite (get_some _ _ _ H2). split; [done|]. split; [subst hd; by apply Wosize_header|]. split; [done|]. by eexists. Qed.
(** The header is written. *)
Lemma loose_write m x y b n hd n' : loose m x y b n hd -> list_at m (x ++ y) -> 0 <= n' < 2 ^ 22 -> (forall q, b <= q < b + 4 * n' -> q mod 4 = 0 -> is_Some (m !! q)) -> apart_head (b, n') -> b + 4 * n' < 2 ^ 32 - 4 -> (forall z, z ∈ y -> before (b, n') z) -> forall col, col = White \/ col = Blue ->
  put m (b ⊟ 4) (Make_header n' 0 col) = Ok (<[b - 4 := Make_header n' 0 col]> m) /\ list_at (<[b - 4 := Make_header n' 0 col]> m) (x ++ y) /\ loose (<[b - 4 := Make_header n' 0 col]> m) x y b n' (Make_header n' 0 col).
Proof.
  intros L H Hn Hw Ha Hm Hy col Hcol. destruct (loose_Hd _ _ _ _ _ _ L) as (_ & _ & _ & Hs). pose proof L as [(L1 & L2 & L3 & L4) _ _ _ L5 _]. rewrite back4 by lia. split; [by apply put_some|].
  split; [apply put_elsewhere; [done|by eapply loose_elsewhere]|]. constructor; [lia| |by intros q Hq Hq4; apply insert_some, Hw|done|done|done].
  split; [apply lookup_insert_eq|]. exists 0, col. split; [split; [unfold Max_wosize; lia|done]|]. split; [destruct Hcol as [-> | ->]; [by left|by right; right; left]|done].
Qed.
(** The second step: the block that follows is taken out of the list. *)
Lemma merge_following s x y b n hd : list_at (fmem s) (x ++ y) -> fl_prev s ∈ Fl_head :: (x ++ y).*1 -> fl_merge s = last_of x -> loose (fmem s) x y b n hd -> n + size_first y < 2 ^ 22 ->
  exists s' hd', (if b + Bosize_hd hd =? Hp_bp (first_of y) then
      let* next_cur := Next (fmem s) (first_of y) in
      let* hc := Hd_bp (fmem s) (first_of y) in
      let* s := write_Next (last_of x) next_cur s in
      let s := if fl_prev s =? first_of y then set_fl_prev (last_of x) s else s in
      let hd := Make_header (Wosize_hd hd + Whsize_hd hc) 0 Blue in
      let* s := write_Hd b hd s in
      Ok (s, hd, b + Bosize_hd hd, next_cur)
    else Ok (s, hd, b + Bosize_hd hd, first_of y)) = Ok (s', hd', b + 4 * (join_next b n y).1, first_of (join_next b n y).2) /\
    list_at (fmem s') (x ++ (join_next b n y).2) /\ fl_prev s' ∈ Fl_head :: (x ++ (join_next b n y).2).*1 /\ fl_merge s' = last_of x /\ loose (fmem s') x (join_next b n y).2 b (join_next b n y).1 hd' /\
    fl_cur_size s' = fl_cur_size s /\ last_fragment s' = last_fragment s /\ fl_last s' = fl_last s.
Proof.
  intros H Hp Hm L Hsz. destruct (loose_Hd _ _ _ _ _ _ L) as (Eh & Ew & Eb & Hs). pose proof L as [(L1 & L2 & L3 & L4) L5 L6 L7 L8 L9]. unfold Bosize_hd, join_next. rewrite Ew. destruct y as [|[c k] y]; cbn [first_of fst].
  - unfold Hp_bp. change (0 ⊟ 4) with (2 ^ 32 - 4). destruct (Z.eqb_spec (b + 4 * n) (2 ^ 32 - 4)); [lia|]. exists s, hd. split; [done|]. done.
  - destruct (list_hd _ _ _ _ _ H) as (hdc & Ec & _ & Wc & Bc & Kc). unfold Hp_bp. rewrite back4 by lia. destruct (Z.eqb_spec (b + 4 * n) (c - 4)) as [E|E].
    + destruct (unlink _ _ _ _ _ H) as [Nc H1]. unfold Next, write_Next, set_Next. rewrite (get_some _ _ _ Nc). cbn [rbind]. rewrite Ec. cbn [rbind]. rewrite put_some by (by eapply last_link). cbn [rbind]. set (s1 := set_fmem _ s).
      set (s2 := if _ : bool then _ else s1). assert (fmem s2 = fmem s1 /\ fl_merge s2 = fl_merge s /\ fl_cur_size s2 = fl_cur_size s /\ last_fragment s2 = last_fragment s /\ fl_last s2 = fl_last s) as (M1 & M2 & M3 & M4 & M5) by (subst s2; by destruct (_ =? c)).
      assert (fl_prev s2 ∈ Fl_head :: (x ++ y).*1) as Hp2.
      { subst s2. cbn [fl_prev set_fmem s1]. rewrite fmap_app, app_comm_cons. destruct (Z.eqb_spec (fl_prev s) c) as [|Hne]; [apply elem_of_app; left; apply end_in|]. rewrite fmap_app, fmap_cons, app_comm_cons in Hp. cbn [fst] in Hp. rewrite !elem_of_app, !elem_of_cons in *. tauto. }
      unfold Whsize_hd. rewrite Wc. cbn [size_first snd] in Hsz. pose proof Kc as Kc0. destruct Kc as (Kc1 & Kc2 & Kc3 & Kc4 & Kc5 & Kc6). cbn [fst snd]. replace (n + (k + 1)) with (n + k + 1) by lia.
      assert (last_of x ∈ Fl_head :: (x ++ (c, k) :: y).*1) as Hlx by (rewrite fmap_app, app_comm_cons; apply elem_of_app; left; apply end_in). assert (elsewhere (b - 4) (x ++ (c, k) :: y)) as He by (by eapply loose_elsewhere).
      assert (last_of x <> b - 4) as Hne.
      { intros El. destruct He as [He1 He2]. pose proof (end_in Fl_head x.*1) as Hin. fold (last_of x) in Hin. rewrite El in Hin. apply elem_of_cons in Hin as [?|([d j] & E' & Hin)%list_elem_of_fmap]; [lia|]. cbn in E'. pose proof (He1 (d, j) ltac:(apply elem_of_app; by left)) as D.
        pose proof (la_blocks _ _ H) as Hall. rewrite Forall_forall in Hall. destruct (Hall (d, j) ltac:(apply elem_of_app; by left)) as (_ & _ & ? & _). cbn in D. lia. }
      assert (loose (fmem s1) x y b n hd) as L1'.
      { constructor; [done|split; [|by destruct L5]|intros q Hq Hq4; by apply insert_some, L6|done|done|intros z Hz; apply L9; by right]. subst s1. cbn [fmem set_fmem]. rewrite lookup_insert_ne by done. by destruct L5. }
      pose proof H as [_ _ S _ A]. apply sorted_mid in S as (_ & _ & S). apply Forall_app in A as [_ (Ap & _)%Forall_cons].
      destruct (loose_write (fmem s1) x y b n hd (n + k + 1) L1' H1) with (col := Blue) as (Ew2 & H2 & L2'); [lia| | |lia| |by right|].
      * intros q Hq Hq4. apply insert_some. destruct (Z.lt_ge_cases q (b + 4 * n)); [apply L6; [lia|done]|]. apply (block_word _ c k); [exact Kc0|zlia|done].
      * unfold apart_head in *. cbn [fst snd] in *. lia.
      * intros z Hz. pose proof (S z Hz) as D. unfold before in *. cbn in *. lia.
      * unfold write_Hd, set_Hd_bp. rewrite M1, Ew2. cbn [rbind]. eexists _, _. split; [f_equal; f_equal; f_equal; f_equal; destruct (loose_Hd _ _ _ _ _ _ L2') as (_ & -> & _); reflexivity|]. cbn [fmem set_fmem fl_prev fl_merge fl_cur_size last_fragment fl_last].
        split; [done|]. split; [done|]. split; [congruence|]. split; [done|]. done.
    + exists s, hd. split; [done|]. done.
Qed.
(** The last step: the block before, or the list. *)
Lemma insert_block s x y b n hd : list_at (fmem s) (x ++ y) -> loose (fmem s) x y b n hd -> 1 <= n < 2 ^ 22 -> fl_prev s ∈ Fl_head :: (x ++ y).*1 ->
  exists s', (let* s := write_Hd b (Bluehd_hd hd) s in let* s := write_Next b (first_of y) s in let* s := write_Next (last_of x) b s in Ok (set_fl_merge b s, b + 4 * n)) = Ok (s', b + 4 * n) /\
    fl_at s' ((x ++ [(b, n)]) ++ y) /\ fl_merge s' = b /\ fl_cur_size s' = fl_cur_size s /\ last_fragment s' = last_fragment s.
Proof.
  intros H L Hn Hp. destruct (loose_Hd _ _ _ _ _ _ L) as (_ & _ & _ & Hs). pose proof (loose_elsewhere _ _ _ _ _ _ L) as He. destruct L as [(L1 & L2 & L3 & L4) (_ & t & c & L5 & L6 & ->) L7 L8 L9 L10].
  unfold write_Hd, set_Hd_bp. rewrite back4 by lia. rewrite put_some by done. cbn [rbind]. rewrite Bluehd_header by done. set (m1 := <[b - 4 := _]> (fmem s)). pose proof (put_elsewhere _ _ _ (Make_header n t Blue) H He) as H1. fold m1 in H1.
  assert (block_ok m1 (b, n)) as Hb.
  { split_and!; [done|lia|lia|lia|lia| |intros q Hq Hq4; by apply insert_some, L7]. exists (Make_header n t Blue). split; [apply lookup_insert_eq|]. by exists t. }
  unfold write_Next, set_Next. cbn [fmem set_fmem]. rewrite put_some by (apply insert_some, L7; [lia|done]). cbn [rbind fmem set_fmem]. fold m1.
  rewrite put_some by (apply insert_some; by eapply last_link). cbn [rbind]. eexists. split; [reflexivity|]. split; [|done]. rewrite <-app_assoc. cbn [app]. split; [|split].
  - cbn [fmem set_fmem set_fl_merge]. by apply link.
  - cbn [fl_prev set_fmem set_fl_merge]. rewrite fmap_app, app_comm_cons in *. rewrite fmap_cons. cbn [fst]. rewrite !elem_of_app, !elem_of_cons in *. tauto.
  - cbn [fl_merge set_fl_merge]. rewrite fmap_app. right. apply elem_of_app. right. left.
Qed.
Lemma merge_preceding s x y b n hd : list_at (fmem s) (x ++ y) -> fl_merge s = last_of x -> fl_prev s ∈ Fl_head :: (x ++ y).*1 -> loose (fmem s) x y b n hd -> n + size_last x < 2 ^ 22 ->
  exists s', (let* hp := Hd_bp (fmem s) (last_of x) in
    if last_of x + Bosize_hd hp =? Hp_bp b then
      let* s := write_Hd (last_of x) (Make_header (Wosize_hd hp + Whsize_hd hd) 0 Blue) s in
      Ok (s, b + 4 * n)
    else if negb (Wosize_hd hd =? 0) then
      let* s := write_Hd b (Bluehd_hd hd) s in
      let* s := write_Next b (first_of y) s in
      let* s := write_Next (last_of x) b s in
      Ok (set_fl_merge b s, b + 4 * n)
    else Ok (set_last_fragment b s, b + 4 * n)) = Ok (s', b + 4 * n) /\
    fl_at s' (join_prev x b n ++ y) /\ fl_merge s' = last_of (join_prev x b n) /\ fl_cur_size s' = fl_cur_size s.
Proof.
  intros H Hm Hp L Hsz. destruct (loose_Hd _ _ _ _ _ _ L) as (Eh & Ew & Eb & Hs). pose proof L as [(L1 & L2 & L3 & L4) L5 L6 L7 L8 L9]. unfold Bosize_hd, Whsize_hd. rewrite Eb, Ew.
  destruct (last_case x) as [->|(x' & [p j] & ->)].
  - change (last_of []) with Fl_head. pose proof (la_head _ _ H) as (P1 & P2 & P3 & P4). unfold Hd_bp at 1. rewrite back4 by lia. rewrite (get_some _ _ _ P4). cbn [rbind]. rewrite wosize_word by lia.
    unfold apart_head in L7. cbn [fst snd] in L7. destruct (Z.eqb_spec (Fl_head + 4 * 0) (b - 4)); [lia|]. unfold join_prev, as_block. cbn [List.rev]. destruct (Z.eqb_spec n 0) as [->|Hn]; cbn [negb].
    + eexists. split; [reflexivity|]. split; [|done]. split; [done|]. split; [done|]. cbn [fl_merge set_last_fragment]. rewrite Hm. left.
    + destruct (insert_block s [] y b n hd H L) as (s' & E & H' & M' & C' & _); [unfold size_last in Hsz; cbn in Hsz; lia|done|]. exists s'. split; [exact E|]. split; [done|]. split; [done|done].
  - rewrite last_snoc. cbn [fst]. rewrite size_last_snoc in Hsz. cbn [snd] in Hsz. rewrite join_prev_snoc. rewrite <-app_assoc in H. cbn [app] in H. destruct (list_hd _ _ _ _ _ H) as (hdp & Ep & Kh & Wp & Bp & Kp). rewrite Ep. cbn [rbind]. rewrite Wp.
    destruct (Z.eqb_spec (p + 4 * j) (b - 4)) as [E|E].
    + unfold write_Hd, set_Hd_bp. pose proof Kp as (K1 & K2 & K3 & K4 & _ & K6). rewrite back4 by lia. rewrite put_some by (by eexists). cbn [rbind]. eexists. split; [reflexivity|].
      replace (j + (n + 1)) with (j + n + 1) by lia. pose proof H as [_ _ _ _ [_ (Ap & _)%Forall_cons]%Forall_app]. assert (forall k l1 l2, ((l1 ++ [(p, k)]) ++ l2).*1 = (l1 ++ [(p, j)] ++ l2).*1) as Ef by (intros; rewrite !fmap_app; cbn; by rewrite <-app_assoc).
      split; [split; [|split]|].
      * rewrite <-app_assoc. apply (resize _ _ _ j); [exact H|lia|lia| | |].
        -- intros q Hq Hq4. destruct (decide (q = b - 4)) as [->|]; [done|]. apply L6; [zlia|done].
        -- unfold apart_head in *. cbn [fst snd] in *. lia.
        -- intros z Hz. pose proof (L9 z Hz) as D. unfold before in *. cbn in *. lia.
      * rewrite Ef. cbn [fl_prev set_fmem]. by rewrite <-app_assoc in Hp.
      * rewrite Ef. cbn [fl_merge set_fmem]. rewrite Hm, last_snoc. cbn [fst]. rewrite fmap_app. right. apply elem_of_app. right. left.
      * split; [|done]. cbn [fl_merge set_fmem]. by rewrite Hm, !last_snoc.
    + rewrite <-app_assoc in Hp. unfold as_block. destruct (Z.eqb_spec n 0) as [->|Hn]; cbn [negb].
      * eexists. split; [reflexivity|]. rewrite app_nil_r, <-app_assoc. split; [|split; [|done]].
        -- split; [done|]. split; [done|]. cbn [fl_merge set_last_fragment]. rewrite Hm, last_snoc. cbn [fst app]. rewrite fmap_app. right. apply elem_of_app. right. left.
        -- done.
      * assert (list_at (fmem s) ((x' ++ [(p, j)]) ++ y)) as H0 by (by rewrite <-app_assoc). pose proof (last_snoc x' (p, j)) as El. cbn [fst] in El. destruct (insert_block s (x' ++ [(p, j)]) y b n hd H0 L) as (s' & E' & H' & M' & C' & _); [destruct Kp as (_ & _ & ? & _); lia|by rewrite <-app_assoc|]. rewrite El in E'.
        exists s'. split; [exact E'|]. split; [done|]. split; [by rewrite last_snoc|done].
Qed.
(** With the empty block [f] just before the header. *)
Definition join_fragment (f b n : Z) : Z * Z := if f =? b - 4 then (f, n + 1) else (b, n).
Lemma fl_merge_block_ok s x y bp n hd : fl_at s (x ++ y) -> fl_merge s = last_of x -> loose (fmem s) x y bp n hd ->
  (last_fragment s = bp - 4 -> exists hf, loose (fmem s) x y (bp - 4) 0 hf) -> 1 + n + size_first y + size_last x < 2 ^ 22 ->
  let (b, k) := join_fragment (last_fragment s) bp n in let (k', y') := join_next b k y in
  exists s', fl_merge_block bp s = Ok (s', b + 4 * k') /\ fl_at s' (join_prev x b k' ++ y') /\ fl_merge s' = last_of (join_prev x b k') /\
    fl_cur_size s' = (if last_fragment s =? bp - 4 then (fl_cur_size s ⊞ (n + 1)) ⊞ 1 else fl_cur_size s ⊞ (n + 1)).
Proof.
  intros (H & Hp & _) Hm L Hf Hsz. assert (0 <= size_first y /\ 0 <= size_last x) as [Hsy Hsx].
  { pose proof (la_blocks _ _ H) as [Bx By]%Forall_app. split; [destruct y as [|[c k] y]; cbn; [lia|apply Forall_cons in By as [(_ & _ & ? & _) _]; lia]|].
    destruct (last_case x) as [->|(x' & [c k] & ->)]; [unfold size_last; cbn; lia|]. rewrite size_last_snoc. apply Forall_app in Bx as [_ ((_ & _ & ? & _) & _)%Forall_cons]. cbn. lia. }
  destruct (loose_Hd _ _ _ _ _ _ L) as (Eh & Ew & Eb & Hs). unfold fl_merge_block. rewrite Eh. cbn [rbind]. assert (Whsize_hd hd = n + 1) as Ewh by (unfold Whsize_hd; by rewrite Ew). rewrite !Ewh. set (s0 := set_fl_cur_size _ s).
  assert (fmem s0 = fmem s /\ fl_merge s0 = last_of x /\ fl_prev s0 = fl_prev s /\ last_fragment s0 = last_fragment s /\ fl_cur_size s0 = fl_cur_size s ⊞ (n + 1)) as (M1 & M2 & M3 & M4 & M5) by done. clearbody s0.
  pose proof (last_link _ _ _ H) as [El _]. unfold Next at 1. rewrite M1, M2, M4, (get_some _ _ _ El), Eb. cbn [rbind]. unfold join_fragment.
  assert (exists s1 hd1 b k, (if last_fragment s =? bp - 4 then
      let* s1 := write_Hd (last_fragment s) (Make_header (n + 1) 0 White) s0 in Ok (set_fl_cur_size (fl_cur_size s1 ⊞ Whsize_wosize 0) s1, Make_header (n + 1) 0 White, last_fragment s)
    else Ok (s0, hd, bp)) = Ok (s1, hd1, b) /\ (if last_fragment s =? bp - 4 then (last_fragment s, n + 1) else (bp, n)) = (b, k) /\ list_at (fmem s1) (x ++ y) /\ loose (fmem s1) x y b k hd1 /\ fl_merge s1 = last_of x /\ fl_prev s1 = fl_prev s /\
    fl_cur_size s1 = (if last_fragment s =? bp - 4 then (fl_cur_size s ⊞ (n + 1)) ⊞ 1 else fl_cur_size s ⊞ (n + 1)) /\ k <= n + 1) as (s1 & hd1 & b & k & -> & -> & H1 & L1 & Hm1 & Hp1 & Hc1 & Hk).
  { destruct (Z.eqb_spec (last_fragment s) (bp - 4)) as [Ef|Ef].
    - rewrite Ef in *. destruct (Hf eq_refl) as [hf Lf]. pose proof L as [(A1 & A2 & A3 & A4) _ A5 A6 A7 A8].
      destruct (loose_write _ _ _ _ _ _ (n + 1) Lf H) with (col := White) as (Ew1 & H1 & L1); [lia| | |lia| |by left|].
      + intros q Hq Hq4. destruct (decide (q = bp - 4)) as [->|]; [done|]. apply A5; [zlia|done].
      + destruct Lf as [_ _ _ A9 _ _]. unfold apart_head in *. cbn [fst snd] in *. lia.
      + intros z Hz. pose proof (A8 z Hz) as D. unfold before in *. cbn in *. lia.
      + unfold write_Hd, set_Hd_bp. rewrite M1, Ew1. cbn [rbind]. eexists _, _, _, _. split; [reflexivity|]. split; [reflexivity|]. cbn [fmem set_fmem set_fl_cur_size fl_merge fl_prev fl_cur_size]. rewrite M2, M3, M5. split_and!; (done || lia).
    - eexists _, _, _, _. split; [reflexivity|]. split; [reflexivity|]. rewrite M1, M2, M3, M5. split_and!; (done || lia). }
  cbn [rbind]. destruct (merge_following s1 x y b k hd1 H1 ltac:(by rewrite Hp1) Hm1 L1 ltac:(lia)) as (s2 & hd2 & E2 & H2 & Hp2 & Hm2 & L2 & C2 & _). cbn zeta in E2. rewrite E2. cbn [rbind]. clear E2. destruct (join_next b k y) as [k' y'] eqn:Ej. cbn [fst snd] in *.
  destruct (merge_preceding s2 x y' b k' hd2 H2 Hm2 Hp2 L2) as (s' & E & H' & M' & C').
  { unfold join_next in Ej. destruct y as [|[c j] y]; [injection Ej as <- <-; lia|]. cbn [size_first snd] in Hsz, Hsy. destruct (b + 4 * k =? c - 4); injection Ej as <- <-; lia. }
  exists s'. split; [exact E|]. split; [done|]. split; [done|]. by rewrite C', C2, Hc1.
Qed.

(** No two blocks of the list are next to each other. *)
Definition gap (u v : fblock) : Prop := u.1 + 4 * u.2 < v.1 - 4.
Definition separated (l : list fblock) : Prop := StronglySorted gap l.
Lemma separated_mid x b n y : separated (x ++ y) -> (forall z, z ∈ x -> gap z (b, n)) -> (forall z, z ∈ y -> gap (b, n) z) -> separated (x ++ (b, n) :: y).
Proof.
  unfold separated. rewrite !StronglySorted_app. intros (H1 & H2 & H3) Hx Hy. split_and!; [|done|constructor; [done|by apply Forall_forall]]. intros u v Hu [->|Hv]%elem_of_cons; [by apply Hx|by apply H1].
Qed.
Lemma separated_drop x u y : separated (x ++ u :: y) -> separated (x ++ y) /\ (forall z, z ∈ x -> gap z u) /\ (forall z, z ∈ y -> gap u z).
Proof.
  unfold separated. rewrite !StronglySorted_app. intros (H1 & H2 & H3). apply StronglySorted_inv in H3 as [H3 H4]. rewrite Forall_forall in H4. split_and!; [|done|done| |done].
  - intros a b Ha Hb. apply H1; [done|by right].
  - intros z Hz. apply H1; [done|left].
Qed.
Lemma join_next_gap x y b n : (forall z, z ∈ y -> 1 <= z.2 /\ before (b, n) z) -> separated (x ++ y) ->
  separated (x ++ (join_next b n y).2) /\ (forall z, z ∈ (join_next b n y).2 -> gap (b, (join_next b n y).1) z) /\ (n = (join_next b n y).1 \/ n < (join_next b n y).1).
Proof.
  intros Hy Hs. unfold join_next. destruct y as [|[c j] y]; [split_and!; [done| |by left]; by intros ? ?%not_elem_of_nil|]. destruct (Hy (c, j) ltac:(left)) as [Hj Hc]. unfold before, gap in *. cbn [fst snd] in *. pose proof (separated_drop _ _ _ Hs) as (Hs' & _ & Hz). unfold gap in Hz. cbn [fst snd] in Hz.
  destruct (Z.eqb_spec (b + 4 * n) (c - 4)) as [E|E]; cbn [fst snd].
  - split; [done|]. split; [|right; lia]. intros z Hin. pose proof (Hz z Hin). lia.
  - split; [done|]. split; [|by left]. intros z [->|Hin]%elem_of_cons; cbn [fst snd]; [lia|]. pose proof (Hz z Hin). lia.
Qed.
Lemma join_separated x y b n : (forall z, z ∈ x -> 1 <= z.2 /\ before z (b, n)) -> (forall z, z ∈ y -> 1 <= z.2 /\ before (b, n) z) -> 0 <= n -> separated (x ++ y) -> separated (join_prev x b (join_next b n y).1 ++ (join_next b n y).2).
Proof.
  intros Hx Hy Hn Hs. destruct (join_next_gap x y b n Hy Hs) as (Hs' & Hg & Hk). destruct (join_next b n y) as [k y']. cbn [fst snd] in *. assert (0 <= k) as Hk0 by lia. clear Hy Hs Hk. unfold as_block.
  assert (forall x0, separated (x0 ++ y') -> (forall z, z ∈ x0 -> gap z (b, k)) -> separated ((x0 ++ as_block b k) ++ y')) as Hins.
  { intros x0 H0 Hg0. unfold as_block. destruct (k =? 0); [by rewrite app_nil_r|]. rewrite <-app_assoc. by apply separated_mid. }
  destruct (last_case x) as [->|(x' & [p j] & ->)]; [apply (Hins []); [done|by intros ? ?%not_elem_of_nil]|]. rewrite join_prev_snoc. destruct (Hx (p, j) ltac:(apply elem_of_app; right; left)) as [Hj Hp]. unfold before in Hp. cbn [fst snd] in Hp, Hj.
  pose proof Hs' as Hs2. rewrite <-app_assoc in Hs2. cbn [app] in Hs2. apply separated_drop in Hs2 as (S1 & S2 & S3). destruct (Z.eqb_spec (p + 4 * j) (b - 4)) as [E|E].
  - rewrite <-app_assoc. cbn [app]. apply separated_mid; [done|intros z Hz; by apply (S2 z)|]. intros z Hz. pose proof (Hg z Hz) as G. unfold gap in *. cbn [fst snd] in *. lia.
  - apply Hins; [done|]. intros z [Hz| ->%list_elem_of_singleton]%elem_of_app; unfold gap; cbn [fst snd]; [|lia]. pose proof (S2 z Hz) as G. unfold gap in G. cbn [fst snd] in G. lia.
Qed.

(** ** [fl_add_block] *)

Lemma add_place_ok m bp y2 y1 : forall x fuel, list_at m (x ++ y1 ++ y2) -> (forall z, z ∈ y1 -> z.1 < bp) -> (forall z, z ∈ y2 -> bp < z.1) -> (length y1 < fuel)%nat ->
  add_place fuel m bp (last_of x) (first_of (y1 ++ y2)) = Ok (last_of (x ++ y1), first_of y2).
Proof.
  induction y1 as [|[c k] y1 IH]; intros x [|fuel] H H1 H2 Hf; simpl in Hf; try lia; cbn [add_place].
  - rewrite app_nil_r. cbn [app]. destruct y2 as [|[d j] y2]; [done|]. cbn [first_of fst]. pose proof (H2 (d, j) ltac:(left)) as D. cbn in D. destruct (Z.ltb_spec d bp); [lia|]. by rewrite andb_false_r.
  - cbn [app first_of fst]. cbn [app] in H. destruct (list_hd _ _ _ _ _ H) as (_ & _ & _ & _ & Bc & _). pose proof (H1 (c, k) ltac:(left)) as D. cbn in D. destruct (Z.eqb_spec c 0); [lia|]. destruct (Z.ltb_spec c bp); [|lia]. cbn [negb andb].
    destruct (unlink _ _ _ _ _ H) as [Nc _]. unfold Next. rewrite (get_some _ _ _ Nc). cbn [rbind]. assert (list_at m ((x ++ [(c, k)]) ++ y1 ++ y2)) as H' by (by rewrite <-app_assoc).
    pose proof (IH (x ++ [(c, k)]) fuel H' ltac:(intros z Hz; apply H1; by right) H2 ltac:(lia)) as E. rewrite last_snoc in E. cbn [fst] in E. rewrite E. by rewrite <-app_assoc.
Qed.
Lemma fl_add_block_ok sweep s x y b n : fl_at s (x ++ y) -> fl_last s = last_of (x ++ y) -> block_ok (fmem s) (b, n) -> apart_head (b, n) -> (forall z, z ∈ x -> before z (b, n)) -> (forall z, z ∈ y -> before (b, n) z) ->
  exists s', fl_add_block Fl_head sweep b s = Ok s' /\ fl_at s' (x ++ (b, n) :: y) /\ fl_prev s' = fl_prev s /\
    fl_merge s' = if negb (fl_last s <? b) && (last_of x =? fl_merge s) && (b <=? sweep) then b else fl_merge s.
Proof.
  intros (H & Hp & Hm) Hl Hb Ha Hx Hy. pose proof (link _ _ _ _ _ H Hb Ha Hx Hy) as HL. unfold fl_add_block. pose proof (last_link _ _ _ H) as [El Sl]. pose proof Hb as (B1 & B2 & B3 & B4 & _ & B6).
  assert (is_Some (fmem s !! b)) as Sb by (apply B6; [lia|done]). pose proof (la_blocks _ _ H) as Hall. rewrite Forall_forall in Hall.
  assert (forall z, z ∈ x -> z.1 < b) as Hx1 by (intros [c k] Hz; destruct (Hall (c, k) ltac:(apply elem_of_app; by left)) as (_ & _ & ? & _); pose proof (Hx _ Hz) as D; unfold before in D; cbn in *; lia).
  assert (forall z, z ∈ y -> b < z.1) as Hy1 by (intros [c k] Hz; pose proof (Hy _ Hz) as D; unfold before in D; cbn in *; lia).
  assert (forall v, v ∈ Fl_head :: (x ++ y).*1 -> v ∈ Fl_head :: (x ++ (b, n) :: y).*1) as Hin by (intros v; rewrite !fmap_app, fmap_cons, !elem_of_cons, !elem_of_app, elem_of_cons; tauto).
  destruct (Z.ltb_spec (fl_last s) b) as [Hlt|Hge]; cbn [negb andb].
  - assert (y = []) as ->.
    { destruct (last_case y) as [->|(y' & [c k] & ->)]; [done|]. rewrite Hl, app_assoc, last_snoc in Hlt. pose proof (Hy1 (c, k) ltac:(apply elem_of_app; right; left)) as D. cbn in *. lia. }
    rewrite app_nil_r in *. rewrite Hl in *. unfold write_Next, set_Next. rewrite put_some by done. cbn [rbind fmem set_fmem]. rewrite put_some by (by apply insert_some). cbn [rbind]. eexists. split; [reflexivity|]. split; [|done].
    split; [|split; by apply Hin]. cbn [fmem set_fmem]. rewrite insert_insert_ne by lia. exact HL.
  - unfold Next at 1. pose proof (last_link _ [] _ H) as [E0 _]. change (last_of []) with Fl_head in E0. rewrite (get_some _ _ _ E0). cbn [rbind]. pose proof (blocks_turns _ _ H) as Ht. rewrite length_app in Ht. pose proof (add_place_ok (fmem s) b y x [] (turns (fmem s)) H Hx1 Hy1 ltac:(lia)) as Ep. change (last_of []) with Fl_head in Ep. cbn [app] in Ep.
    rewrite Ep. cbn [rbind]. unfold write_Next, set_Next. rewrite put_some by done. cbn [rbind fmem set_fmem]. rewrite put_some by (by apply insert_some). cbn [rbind fl_merge set_fmem]. eexists. split; [reflexivity|].
    destruct ((last_of x =? fl_merge s) && (b <=? sweep)); (split; [|done]); (split; [exact HL|split; [by apply Hin|]]); [|by apply Hin]. cbn [fl_merge set_fl_merge]. rewrite fmap_app. right. apply elem_of_app. right. left.
Qed.
End spec.
