(* ===== verification/FreeListLaws.v ===== *)
(** * What the free list promises, and where it does not

    The theorems of [FreeListSpec] together, an example of a heap, and runs on it that show what the code does with fragments,
    with blocks that are too large together, and with a chunk that comes between the end of the list and the sweeper. *)
From stdpp Require Import gmap list sorting.
From S2P Require Import Prelude Memory Mlvalues Intext Gcheap FreeList FreeListSpec.

(** C39: [fl_allocate] is next fit.  The list is searched from the block of the last allocation on and round to it; the first block of at least [wo]
    words gives its last words with place for a header, keeps the rest or leaves the list, or becomes an empty white block when one word is left;
    the list stays one of sorted free blocks.  If no block has [wo] words the result is NULL and only [fl_last] changes. *)
Theorem fl_allocate_next_fit Fl_head s l wo : fl_at Fl_head s l -> 1 <= wo ->
  exists l1 l2, l = l1 ++ l2 /\ fl_prev s = last_of Fl_head l1 /\ exists s' hp, fl_allocate Fl_head wo s = Ok (s', hp) /\
    (hp = 0 /\ Forall (too_small wo) l /\ s' = set_fl_last (last_of Fl_head l) s \/
     exists x b n y, next_fit wo l1 l2 x b n y /\ hp = taken b n (wo + 1) /\ hp <> 0 /\ fl_at Fl_head s' (x ++ remainder b n (wo + 1) ++ y) /\ fl_prev s' = last_of Fl_head x /\
       (n = wo + 1 -> fmem s' !! (b - 4) = Some (Make_header 0 0 White)) /\ same_outside Fl_head (fmem s) (fmem s') l b n).
Proof.
  intros H Hwo. pose proof H as (_ & Hp & _). apply in_split in Hp as (l1 & l2 & -> & Hp). exists l1, l2. split; [done|]. split; [done|]. by apply fl_allocate_ok.
Qed.
(** C40: [fl_merge_block] returns a swept block to the list: with the fragment just before it, the free block after it and the free block
    before it when they are adjacent; the list stays sorted, no two of its blocks are adjacent, the insertion pointer is at the new
    block, and the result is the header that follows. *)
Theorem fl_merge_block_joins Fl_head s x y bp n hd : fl_at Fl_head s (x ++ y) -> separated (x ++ y) -> fl_merge s = last_of Fl_head x -> loose Fl_head (fmem s) x y bp n hd ->
  (last_fragment s = bp - 4 -> exists hf, loose Fl_head (fmem s) x y (bp - 4) 0 hf) -> 1 + n + size_first y + size_last x < 2 ^ 22 ->
  let (b, k) := join_fragment (last_fragment s) bp n in let (k', y') := join_next b k y in
  exists s', fl_merge_block bp s = Ok (s', b + 4 * k') /\ fl_at Fl_head s' (join_prev x b k' ++ y') /\ fl_merge s' = last_of Fl_head (join_prev x b k') /\ separated (join_prev x b k' ++ y').
Proof.
  intros H Hs Hm L Hf Hsz. pose proof (fl_merge_block_ok _ s x y bp n hd H Hm L Hf Hsz) as M. destruct H as (H & _ & _). pose proof (la_blocks _ _ _ H) as Hb. rewrite Forall_forall in Hb.
  assert (forall z, z ∈ x ++ y -> 1 <= z.2) as Hz by (intros [c j] Hz; destruct (Hb _ Hz) as (_ & _ & ? & _); cbn; lia). pose proof L as [(L1 & L2 & L3 & L4) _ _ _ L5 L6].
  assert (separated (join_prev x (join_fragment (last_fragment s) bp n).1 (join_next (join_fragment (last_fragment s) bp n).1 (join_fragment (last_fragment s) bp n).2 y).1 ++ (join_next (join_fragment (last_fragment s) bp n).1 (join_fragment (last_fragment s) bp n).2 y).2)) as Hsep.
  { unfold join_fragment. destruct (Z.eqb_spec (last_fragment s) (bp - 4)) as [Ef|Ef]; cbn [fst snd]; (apply join_separated; [| |lia|done]); intros z Hin; (split; [apply Hz, elem_of_app; tauto|]).
    - rewrite Ef in *. destruct (Hf eq_refl) as [hf [_ _ _ _ F5 _]]. by apply F5.
    - rewrite Ef. pose proof (L6 z Hin) as D. unfold before in *. cbn [fst snd] in *. lia.
    - by apply L5.
    - by apply L6. }
  destruct (join_fragment _ _ _) as [b k]. cbn [fst snd] in Hsep. destruct (join_next b k y) as [k' y']. cbn [fst snd] in Hsep. destruct M as (s' & E & H' & M' & _). by exists s'.
Qed.

(** ** A heap *)

Fixpoint words_from (n : nat) (a : Z) (m : mem) : mem := match n with O => m | S n => words_from n (a + 4) (<[a := 0]> m) end.
Fixpoint present (n : nat) (a : Z) (m : mem) : bool := match n with O => true | S n => bool_decide (is_Some (m !! a)) && present n (a + 4) m end.
Lemma present_ok n : forall a m, present n a m = true -> a mod 4 = 0 -> forall q, a <= q < a + 4 * Z.of_nat n -> q mod 4 = 0 -> is_Some (m !! q).
Proof.
  induction n as [|n IH]; intros a m H Ha q Hq Hq4; [lia|]. cbn [present] in H. apply andb_true_iff in H as [H1 H2]. apply bool_decide_eq_true in H1. destruct (decide (q = a)) as [->|]; [done|]. apply (IH (a + 4)); [done|zlia|zlia|done].
Qed.
(** The sentinel is at 1024.  The heap from 4096 on: a free block of 3 words, an allocated one of 2, a free one of 5, an empty one, one of 4 that is dead, a free one of 6. *)
Definition heap_words : mem :=
  fold_right (fun x m => <[fst x := snd x]> m) (words_from 26 4096 (words_from 4 1016 ∅))
    [(1020, Make_header 0 0 Blue); (1024, 4100); (4096, Make_header 3 0 Blue); (4100, 4128); (4112, Make_header 2 7 White); (4124, Make_header 5 0 Blue); (4128, 4176); (4148, Make_header 0 0 White); (4152, Make_header 4 1 White); (4172, Make_header 6 3 Blue); (4176, 0)].
Definition heap_state (prev merge : Z) : fl := mkFl heap_words prev 0 merge 1 4152.
Lemma heap_list : list_at 1024 heap_words [(4100, 3); (4128, 5); (4176, 6)].
Proof.
  assert (forall b n t, (b, n, t) ∈ [(4100, 3, 0); (4128, 5, 0); (4176, 6, 3)] -> block_ok heap_words (b, n)) as Hb.
  { intros b n t H. rewrite !elem_of_cons in H. destruct H as [[= -> -> ->]|[[= -> -> ->]|[[= -> -> ->]|[]%not_elem_of_nil]]]; (split_and!; [done|lia|lia|lia|lia| |]);
      [by exists (Make_header 3 0 Blue); split; [|exists 0]|by apply (present_ok 3)|by exists (Make_header 5 0 Blue); split; [|exists 0]|by apply (present_ok 5)|by exists (Make_header 6 3 Blue); split; [|exists 3]|by apply (present_ok 6)]. }
  constructor; [by split_and!| | |by split_and!|].
  - repeat (apply Forall_cons; split; [eapply Hb; rewrite !elem_of_cons; tauto|]). by apply Forall_nil.
  - repeat (constructor; [|repeat (apply Forall_cons; split; [unfold before; cbn; lia|]); by apply Forall_nil]). constructor.
  - repeat (apply Forall_cons; split; [right; cbn; lia|]). by apply Forall_nil.
Qed.
Lemma heap_fl prev merge : prev ∈ [1024; 4100; 4128; 4176] -> merge ∈ [1024; 4100; 4128; 4176] -> fl_at 1024 (heap_state prev merge) [(4100, 3); (4128, 5); (4176, 6)].
Proof. intros H1 H2. split; [exact heap_list|]. by split. Qed.
Lemma fl_allocate_next_fit_witness : fl_at 1024 (heap_state 4128 4128) [(4100, 3); (4128, 5); (4176, 6)] /\ 1 <= 4 /\
  exists l1 l2, [(4100, 3); (4128, 5); (4176, 6)] = l1 ++ l2 /\ fl_prev (heap_state 4128 4128) = last_of 1024 l1 /\ exists s' hp, fl_allocate 1024 4 (heap_state 4128 4128) = Ok (s', hp) /\
    (hp = 0 /\ Forall (too_small 4) [(4100, 3); (4128, 5); (4176, 6)] /\ s' = set_fl_last (last_of 1024 [(4100, 3); (4128, 5); (4176, 6)]) (heap_state 4128 4128) \/
     exists x b n y, next_fit 4 l1 l2 x b n y /\ hp = taken b n (4 + 1) /\ hp <> 0 /\ fl_at 1024 s' (x ++ remainder b n (4 + 1) ++ y) /\ fl_prev s' = last_of 1024 x /\
       (n = 4 + 1 -> fmem s' !! (b - 4) = Some (Make_header 0 0 White)) /\ same_outside 1024 (fmem (heap_state 4128 4128)) (fmem s') [(4100, 3); (4128, 5); (4176, 6)] b n).
Proof.
  assert (fl_at 1024 (heap_state 4128 4128) [(4100, 3); (4128, 5); (4176, 6)]) as H by (apply heap_fl; rewrite !elem_of_cons; tauto). split; [exact H|]. split; [lia|].
  exact (fl_allocate_next_fit 1024 (heap_state 4128 4128) [(4100, 3); (4128, 5); (4176, 6)] 4 H ltac:(lia)).
Defined.
Lemma heap_loose b n t : (b, n, t) ∈ [(4156, 4, 1); (4152, 0, 0)] -> loose 1024 heap_words [(4100, 3); (4128, 5)] [(4176, 6)] b n (Make_header n t White).
Proof.
  intros H. assert ((b = 4156 /\ n = 4 /\ t = 1) \/ (b = 4152 /\ n = 0 /\ t = 0)) as Hc by (rewrite !elem_of_cons, elem_of_nil in H; intuition congruence). clear H.
  assert (forall z, z ∈ [(4100, 3); (4128, 5)] -> before z (b, n)) as H1 by (intros z; rewrite !elem_of_cons, elem_of_nil; intros [-> | [-> | []]]; unfold before; cbn; lia).
  assert (forall z, z ∈ [(4176, 6)] -> before (b, n) z) as H2 by (intros z; rewrite !elem_of_cons, elem_of_nil; intros [-> | []]; unfold before; cbn; lia).
  destruct Hc as [(-> & -> & ->)|(-> & -> & ->)]; (constructor; [split_and!; (done || lia)| | |right; cbn; lia|done|done]).
  - split; [done|]. exists 1, White. split; [done|]. split; [by left|done].
  - by apply (present_ok 4).
  - split; [done|]. exists 0, White. split; [done|]. split; [by left|done].
  - intros q Hq. lia.
Qed.
Lemma fl_merge_block_joins_witness : let x := [(4100, 3); (4128, 5)] in let y := [(4176, 6)] in
  fl_at 1024 (heap_state 4176 4128) (x ++ y) /\ separated (x ++ y) /\ fl_merge (heap_state 4176 4128) = last_of 1024 x /\ loose 1024 heap_words x y 4156 4 (Make_header 4 1 White) /\
  exists s', fl_merge_block 4156 (heap_state 4176 4128) = Ok (s', 4152 + 4 * 12) /\ fl_at 1024 s' ([(4100, 3); (4128, 18)] ++ []) /\ fl_merge s' = 4128 /\ separated ([(4100, 3); (4128, 18)] ++ []).
Proof.
  assert (fl_at 1024 (heap_state 4176 4128) [(4100, 3); (4128, 5); (4176, 6)]) as H by (apply heap_fl; rewrite !elem_of_cons; tauto).
  assert (separated [(4100, 3); (4128, 5); (4176, 6)]) as Hs by (repeat (constructor; [|repeat (apply Forall_cons; split; [unfold gap; cbn; lia|]); by apply Forall_nil]); constructor).
  assert (loose 1024 heap_words [(4100, 3); (4128, 5)] [(4176, 6)] 4156 4 (Make_header 4 1 White)) as L by (apply heap_loose; rewrite !elem_of_cons; tauto).
  split; [exact H|]. split; [exact Hs|]. split; [done|]. split; [exact L|].
  exact (fl_merge_block_joins 1024 (heap_state 4176 4128) [(4100, 3); (4128, 5)] [(4176, 6)] 4156 4 (Make_header 4 1 White) H Hs eq_refl L
    (fun _ => ex_intro _ (Make_header 0 0 White) (heap_loose 4152 0 0 ltac:(rewrite !elem_of_cons; tauto))) eq_refl).
Defined.

(** ** Where it does not *)

(** The addresses of the list. *)
Fixpoint addresses (fuel : nat) (m : mem) (p : Z) : list Z := match fuel, m !! p with S fuel, Some b => if b =? 0 then [] else b :: addresses fuel m b | _, _ => [] end.
(** A chunk at 4216 is added while the list ends at 4176 and the sweeper is at 8192: [fl_merge] stays behind it, and the block at 8196 that is swept next is put before it. *)
Definition chunk_words : mem := <[8192 := Make_header 2 0 White]> (<[4212 := Make_header 2 0 Blue]> (words_from 3 8192 (words_from 3 4212 heap_words))).
Lemma add_block_unsorted : (let* s := fl_add_block 1024 8192 4216 (mkFl chunk_words 1024 4176 4176 0 0) in let* (s, adj) := fl_merge_block 8196 s in Ok (addresses 10 (fmem s) 1024)) =
  Ok [4100; 4128; 4176; 8196; 4216].
Proof. vm_compute. reflexivity. Qed.
(** An empty block and the block of 4 words after it, 6 words with the headers, count as 7. *)
Lemma fragment_counts_twice : (let* (s, _) := fl_merge_block 4152 (mkFl (<[4124 := Make_header 4 0 Blue]> heap_words) 1024 0 4128 0 0) in let* (s, _) := fl_merge_block 4156 s in Ok (fl_cur_size s)) = Ok 7.
Proof. vm_compute. reflexivity. Qed.
(** Two adjacent free blocks of 3 million words: the header of the joined block says 1805697 words, for 6000001. *)
Definition large_words : mem := <[12004100 := Make_header 3000000 0 Blue]> (<[4096 := Make_header 3000000 0 White]> (words_from 1 12004104 (words_from 2 4096 (<[1020 := Make_header 0 0 Blue]> (<[1024 := 12004104]> ∅))))).
Lemma merge_overflows : (let* (s, adj) := fl_merge_block 4100 (mkFl large_words 1024 0 1024 0 0) in let* hd := Hd_bp (fmem s) 4100 in Ok (adj, Wosize_hd hd)) = Ok (4100 + 4 * 1805697, 1805697).
Proof. vm_compute. reflexivity. Qed.
