(* ===== verification/Parsing.v ===== *)
(** * The parsing engine: kernel/Byterun/parsing.c

    [parse_engine] runs the tables of ocamlyacc over the stacks of a parser.  It returns to the
    program when it needs a token, larger stacks, a semantic action or the error function, and is called again
    with the answer.  The labels of the code are the constructors of [label]; [code_at] is the code behind a label,
    up to the next [goto] or [return].

    A [parser_env] is the record of the program: its integer fields are the OCaml integers, which the code
    reads with [Int_val]; storing with [Val_int] keeps 31 bits.  The stacks are arrays. *)
From stdpp Require Import gmap list.
From S2P Require Import Prelude Mlvalues Lexing.

Definition ERRCODE : Z := 256.
Record parser_tables := mkParserTables {
  transl_const : value; transl_block : value; lhs : value; len : value; defred : value; dgoto : value;
  sindex : value; rindex : value; gindex : value; tablesize : Z; table : value; check : value }.
Record parser_env := mkEnv {
  s_stack : list Z; v_stack : list value; symb_start_stack : list Z; symb_end_stack : list Z;
  stacksize : Z; stackbase : Z; curr_char : Z; lval : value; symb_start : Z; symb_end : Z;
  e_asp : Z; rule_len : Z; rule_number : Z; e_sp : Z; e_state : Z; e_errflag : Z }.

(** The input and output codes: constant constructors, the integers 0 to 5. *)
Inductive parser_input :=
  | START | TOKEN_READ | STACKS_GROWN_1 | STACKS_GROWN_2 | SEMANTIC_ACTION_COMPUTED | ERROR_DETECTED.
Inductive parser_output :=
  | READ_TOKEN | RAISE_PARSE_ERROR | GROW_STACKS_1 | GROW_STACKS_2 | COMPUTE_SEMANTIC_ACTION | CALL_ERROR_FUNCTION.

(** ** Assignments to the fields of [env] *)

Definition set_stacks s v st en (e : parser_env) : parser_env :=
  mkEnv s v st en (stacksize e) (stackbase e) (curr_char e) (lval e) (symb_start e) (symb_end e)
    (e_asp e) (rule_len e) (rule_number e) (e_sp e) (e_state e) (e_errflag e).
Definition set_char c (e : parser_env) : parser_env :=
  mkEnv (s_stack e) (v_stack e) (symb_start_stack e) (symb_end_stack e) (stacksize e) (stackbase e) c (lval e)
    (symb_start e) (symb_end e) (e_asp e) (rule_len e) (rule_number e) (e_sp e) (e_state e) (e_errflag e).
Definition set_lval v (e : parser_env) : parser_env :=
  mkEnv (s_stack e) (v_stack e) (symb_start_stack e) (symb_end_stack e) (stacksize e) (stackbase e) (curr_char e) v
    (symb_start e) (symb_end e) (e_asp e) (rule_len e) (rule_number e) (e_sp e) (e_state e) (e_errflag e).
Definition set_rule asp n m (e : parser_env) : parser_env :=
  mkEnv (s_stack e) (v_stack e) (symb_start_stack e) (symb_end_stack e) (stacksize e) (stackbase e) (curr_char e) (lval e)
    (symb_start e) (symb_end e) (wrap31 asp) (wrap31 m) (wrap31 n) (e_sp e) (e_state e) (e_errflag e).

(** The local variables that [SAVE] stores and [RESTORE] reads; [sp] is unsigned. *)
Record regs := mkRegs { state : Z; sp : Z; errflag : Z }.
Definition SAVE (r : regs) (e : parser_env) : parser_env :=
  mkEnv (s_stack e) (v_stack e) (symb_start_stack e) (symb_end_stack e) (stacksize e) (stackbase e) (curr_char e) (lval e)
    (symb_start e) (symb_end e) (e_asp e) (rule_len e) (rule_number e) (wrap31 (sp r)) (wrap31 (state r)) (wrap31 (errflag r)).
Definition RESTORE (e : parser_env) : regs := mkRegs (e_state e) (u32 (e_sp e)) (e_errflag e).

(** [Field] on an array of the record, as a value and in an assignment; [i] is unsigned. *)
Definition slot {A} (l : list A) (i : Z) : result A := of_ptr (l !! Z.to_nat i).
Definition set_slot {A} (l : list A) (i : Z) (x : A) : result (list A) :=
  if i <? Z.of_nat (length l) then Ok (<[Z.to_nat i := x]> l) else Fault.

(** ** The automaton *)

Inductive label :=
  | loop | testshift | recover | shift (n2 : Z) | shift_recover (n2 : Z) | push | reduce (n : Z) | semantic_action.
Inductive next := Goto (l : label) (r : regs) (e : parser_env) | Return (o : parser_output) (e : parser_env).

Section engine.
Variables (h : heap_t) (tbl : parser_tables).

(** The test [n1 != 0 && n2 >= 0 && n2 <= tablesize && check[n2] == c], where [n2] is [n1 + c]. *)
Definition entry_ok (n1 c : Z) : result bool :=
  let n2 := s32 (n1 + c) in
  if negb (n1 =? 0) && (n2 >=? 0) && (n2 <=? tablesize tbl) then let* k := Short h (check tbl) n2 in Ok (k =? c)
  else Ok false.
(** The stores of [TOKEN_READ]. *)
Definition read_token (arg : value) (e : parser_env) : result parser_env :=
  if Is_block arg then
    let* t := Tag_val h arg in
    let* c := Field h (transl_block tbl) t in
    let* c := Long_val c in
    let* v := Field h arg 0 in
    Ok (set_lval v (set_char c e))
  else
    let* i := Long_val arg in
    let* c := Field h (transl_const tbl) i in
    let* c := Long_val c in
    Ok (set_lval (Val_long 0) (set_char c e)).
(** The loop that discards states: it leaves with the entry to shift, or falls off the bottom. *)
Fixpoint discard_states (fuel : nat) (sp0 : Z) (e : parser_env) : result (option (Z * Z)) :=
  match fuel with
  | O => Loop
  | S fuel =>
      let* state1 := slot (s_stack e) sp0 in
      let* n1 := Short h (sindex tbl) state1 in
      let* ok := entry_ok n1 ERRCODE in
      if ok then Ok (Some (sp0, s32 (n1 + ERRCODE)))
      else if sp0 <=? u32 (stackbase e) then Ok None
      else discard_states fuel (sp0 ⊟ 1) e
  end.
Definition at_loop (r : regs) (e : parser_env) : result next :=
  let* n := Short h (defred tbl) (state r) in
  if negb (n =? 0) then Ok (Goto (reduce n) r e)
  else if curr_char e >=? 0 then Ok (Goto testshift r e)
  else Ok (Return READ_TOKEN (SAVE r e)).
Definition at_testshift (r : regs) (e : parser_env) : result next :=
  let* n1 := Short h (sindex tbl) (state r) in
  let* ok := entry_ok n1 (curr_char e) in
  if ok then Ok (Goto (shift (s32 (n1 + curr_char e))) r e)
  else
    let* n1 := Short h (rindex tbl) (state r) in
    let* ok := entry_ok n1 (curr_char e) in
    if ok then let* n := Short h (table tbl) (s32 (n1 + curr_char e)) in Ok (Goto (reduce n) r e)
    else if errflag r >? 0 then Ok (Goto recover r e)
    else Ok (Return CALL_ERROR_FUNCTION (SAVE r e)).
Definition at_recover (r : regs) (e : parser_env) : result next :=
  if errflag r <? 3 then
    let* o := discard_states (S (Z.to_nat (sp r))) (sp r) e in
    match o with
    | Some (sp', n2) => Ok (Goto (shift_recover n2) (mkRegs (state r) sp' 3) e)
    | None => Ok (Return RAISE_PARSE_ERROR e)
    end
  else if curr_char e =? 0 then Ok (Return RAISE_PARSE_ERROR e)
  else Ok (Goto loop r (set_char (-1) e)).
Definition at_shift_recover (n2 : Z) (r : regs) (e : parser_env) : result next :=
  let* q := Short h (table tbl) n2 in
  let r := mkRegs q (sp r ⊞ 1) (errflag r) in
  if sp r <? u32 (stacksize e) then Ok (Goto push r e) else Ok (Return GROW_STACKS_1 (SAVE r e)).
Definition at_push (r : regs) (e : parser_env) : result next :=
  let* s := set_slot (s_stack e) (sp r) (wrap31 (state r)) in
  let* v := set_slot (v_stack e) (sp r) (lval e) in
  let* st := set_slot (symb_start_stack e) (sp r) (symb_start e) in
  let* en := set_slot (symb_end_stack e) (sp r) (symb_end e) in
  Ok (Goto loop r (set_stacks s v st en e)).
Definition at_reduce (n : Z) (r : regs) (e : parser_env) : result next :=
  let* m := Short h (len tbl) n in
  let e := set_rule (sp r) n m e in
  let sp := sp r ⊟ m ⊞ 1 in
  let* m := Short h (lhs tbl) n in
  let* state1 := slot (s_stack e) (sp ⊟ 1) in
  let* n1 := Short h (gindex tbl) m in
  let* ok := entry_ok n1 state1 in
  let* q := if ok then Short h (table tbl) (s32 (n1 + state1)) else Short h (dgoto tbl) m in
  let r := mkRegs q sp (errflag r) in
  if sp <? u32 (stacksize e) then Ok (Goto semantic_action r e) else Ok (Return GROW_STACKS_2 (SAVE r e)).
(** The code of [SEMANTIC_ACTION_COMPUTED] before it goes to [loop]. *)
Definition store_result (arg : value) (r : regs) (e : parser_env) : result parser_env :=
  let* s := set_slot (s_stack e) (sp r) (wrap31 (state r)) in
  let* v := set_slot (v_stack e) (sp r) arg in
  let asp := u32 (e_asp e) in
  let* x := slot (symb_end_stack e) asp in
  let* en := set_slot (symb_end_stack e) (sp r) x in
  if sp r >? asp then
    let* x := slot en asp in
    let* st := set_slot (symb_start_stack e) (sp r) x in
    Ok (set_stacks s v st en e)
  else Ok (set_stacks s v (symb_start_stack e) en e).

Definition code_at (l : label) (r : regs) (e : parser_env) : result next :=
  match l with
  | loop => at_loop r e
  | testshift => at_testshift r e
  | recover => at_recover r e
  | shift n2 => Ok (Goto (shift_recover n2) (mkRegs (state r) (sp r) (if errflag r >? 0 then errflag r - 1 else errflag r)) (set_char (-1) e))
  | shift_recover n2 => at_shift_recover n2 r e
  | push => at_push r e
  | reduce n => at_reduce n r e
  | semantic_action => Ok (Return COMPUTE_SEMANTIC_ACTION (SAVE r e))
  end.
Fixpoint run_blocks (fuel : nat) (l : label) (r : regs) (e : parser_env) : result (parser_output * parser_env) :=
  match fuel with
  | O => Loop
  | S fuel =>
      let* x := code_at l r e in
      match x with Goto l r e => run_blocks fuel l r e | Return o e => Ok (o, e) end
  end.
(** The label, the variables and the environment at which a call starts. *)
Definition entry_point (cmd : parser_input) (arg : value) (e : parser_env) : result (label * regs * parser_env) :=
  match cmd with
  | START => Ok (loop, mkRegs 0 (u32 (e_sp e)) 0, e)
  | TOKEN_READ => let* e' := read_token arg e in Ok (testshift, RESTORE e, e')
  | ERROR_DETECTED => Ok (recover, RESTORE e, e)
  | STACKS_GROWN_1 => Ok (push, RESTORE e, e)
  | STACKS_GROWN_2 => Ok (semantic_action, RESTORE e, e)
  | SEMANTIC_ACTION_COMPUTED => let* e' := store_result arg (RESTORE e) e in Ok (loop, RESTORE e, e')
  end.
(** A call goes through few labels before it returns: 16 are enough. *)
Definition parse_engine (cmd : parser_input) (arg : value) (e : parser_env) : result (parser_output * parser_env) :=
  let* x := entry_point cmd arg e in
  let '(l, r, e) := x in run_blocks 16 l r e.
End engine.

(** ** The program's side: [yyparse] of lib_parsing/orig/parsing.ml

    The rest of the program is a [client]: the lexer with the positions it leaves in its buffer, the
    semantic actions, the error function of the grammar.  They may keep any state [W]; the
    heap is a part of it. *)

Inductive parse_exn := YYexit (v : value) | Parse_error | Invalid_argument | Other_exn (v : value).
(** The value of a symbol with the positions of its first and last characters. *)
Definition attr : Type := value * Z * Z.
Record client (W : Type) := mkClient {
  heap : W -> heap_t;
  lexer : W -> (attr + parse_exn) * W;
  actions : Z -> list attr -> Z -> W -> (value + parse_exn) * W;
  error_function : W -> option parse_exn * W }.
Arguments heap {W}. Arguments lexer {W}. Arguments actions {W}. Arguments error_function {W}.

Definition grow_array {A} (l : list A) (oldsize newsize : Z) (x : A) : list A :=
  take (Z.to_nat oldsize) l ++ replicate (Z.to_nat (newsize - oldsize)) x.
Definition set_size n (e : parser_env) : parser_env :=
  mkEnv (s_stack e) (v_stack e) (symb_start_stack e) (symb_end_stack e) n (stackbase e) (curr_char e) (lval e)
    (symb_start e) (symb_end e) (e_asp e) (rule_len e) (rule_number e) (e_sp e) (e_state e) (e_errflag e).
(** None: [Array.create] raises [Invalid_argument]. *)
Definition grow_stacks (e : parser_env) : option parser_env :=
  let oldsize := stacksize e in
  let newsize := oldsize * 2 in
  if newsize >? Max_wosize then None
  else Some (set_size newsize (set_stacks (grow_array (s_stack e) oldsize newsize 0) (grow_array (v_stack e) oldsize newsize Val_unit)
    (grow_array (symb_start_stack e) oldsize newsize 0) (grow_array (symb_end_stack e) oldsize newsize 0) e)).
Definition set_symb s en (e : parser_env) : parser_env :=
  mkEnv (s_stack e) (v_stack e) (symb_start_stack e) (symb_end_stack e) (stacksize e) (stackbase e) (curr_char e) (lval e)
    s en (e_asp e) (rule_len e) (rule_number e) (e_sp e) (e_state e) (e_errflag e).
Definition set_base b c (e : parser_env) : parser_env :=
  mkEnv (s_stack e) (v_stack e) (symb_start_stack e) (symb_end_stack e) (stacksize e) b c (lval e)
    (symb_start e) (symb_end e) (e_asp e) (rule_len e) (rule_number e) (e_sp e) (e_state e) (e_errflag e).
(** What [yyparse] puts back before it returns. *)
Definition restore_env (e0 e : parser_env) : parser_env :=
  mkEnv (s_stack e) (v_stack e) (symb_start_stack e) (symb_end_stack e) (stacksize e) (stackbase e0) (curr_char e0) (lval e)
    (symb_start e) (symb_end e) (e_asp e0) (rule_len e) (rule_number e) (e_sp e0) (e_state e0) (e_errflag e0).

(** An action begins by reading its arguments: [peek_val], [rhs_start] and [rhs_end]. *)
Definition peek (e : parser_env) (i : Z) : result attr :=
  if i <? 0 then Fault
  else
    let* v := slot (v_stack e) i in
    let* s := slot (symb_start_stack e) i in
    let* en := slot (symb_end_stack e) i in
    Ok (v, s, en).
Fixpoint peek_all (e : parser_env) (i : Z) (n : nat) : result (list attr) :=
  match n with
  | O => Ok []
  | S n => let* x := peek e i in let* l := peek_all e (i + 1) n in Ok (x :: l)
  end.
Definition symbol_end (e : parser_env) : result Z := if e_asp e <? 0 then Fault else slot (symb_end_stack e) (e_asp e).

Section yyparse.
Context {W : Type} (cl : client W) (tbl : parser_tables).

Definition run_action (e : parser_env) (w : W) : result ((value + parse_exn) * W) :=
  let* args := peek_all e (e_asp e - rule_len e + 1) (Z.to_nat (rule_len e)) in
  let* p := symbol_end e in
  Ok (actions cl (rule_number e) args p w).
(** A turn of [loop]: the next call of it, or the exception that ends it. *)
Inductive loop_turn := Again (cmd : parser_input) (arg : value) (e : parser_env) (w : W) | Raised (x : parse_exn) (e : parser_env) (w : W).
Definition parse_turn (cmd : parser_input) (arg : value) (e : parser_env) (w : W) : result loop_turn :=
  let* x := parse_engine (heap cl w) tbl cmd arg e in
  let '(o, e) := x in
  match o with
  | READ_TOKEN =>
      match lexer cl w with
      | (inl (t, s, en), w) => Ok (Again TOKEN_READ t (set_symb s en e) w)
      | (inr x, w) => Ok (Raised x e w)
      end
  | RAISE_PARSE_ERROR => Ok (Raised Parse_error e w)
  | COMPUTE_SEMANTIC_ACTION =>
      let* r := run_action e w in
      match r with
      | (inl v, w) => Ok (Again SEMANTIC_ACTION_COMPUTED v e w)
      | (inr Parse_error, w) => Ok (Again ERROR_DETECTED Val_unit e w)
      | (inr x, w) => Ok (Raised x e w)
      end
  | GROW_STACKS_1 =>
      match grow_stacks e with
      | Some e => Ok (Again STACKS_GROWN_1 Val_unit e w)
      | None => Ok (Raised Invalid_argument e w)
      end
  | GROW_STACKS_2 =>
      match grow_stacks e with
      | Some e => Ok (Again STACKS_GROWN_2 Val_unit e w)
      | None => Ok (Raised Invalid_argument e w)
      end
  | CALL_ERROR_FUNCTION =>
      match error_function cl w with
      | (None, w) => Ok (Again ERROR_DETECTED Val_unit e w)
      | (Some x, w) => Ok (Raised x e w)
      end
  end.
(** The loop ends with an exception, whatever the result. *)
Fixpoint parse_loop (fuel : nat) (cmd : parser_input) (arg : value) (e : parser_env) (w : W) : result (parse_exn * parser_env * W) :=
  match fuel with
  | O => Loop
  | S fuel =>
      let* t := parse_turn cmd arg e w in
      match t with
      | Again cmd arg e w => parse_loop fuel cmd arg e w
      | Raised x e w => Ok (x, e, w)
      end
  end.
Definition yyparse (fuel : nat) (start : Z) (e0 : parser_env) (w : W) : result ((value + parse_exn) * parser_env * W) :=
  let* x := parse_loop fuel START Val_unit (set_base (e_sp e0 + 1) start e0) w in
  let '(x, e, w) := x in
  let e := restore_env e0 e in
  match x with YYexit v => Ok (inl v, e, w) | _ => Ok (inr x, e, w) end.
End yyparse.
