(* ===== verification/ParseTables.v ===== *)
(** * The tables of a parser, and the grammar they implement

    [lr] is the automaton that the tables of [Parsing] encode.  A [grammar] says what the tables are for: the
    right-hand sides of the rules, and for each state what must be on the stack below it (the
    symbols, and the states that can be under each of them).  [validates] is a boolean function that
    checks the tables against the grammar state by state; the laws of [ParseLaws] are about
    tables that pass.  [derives] is what the parser recognises: trees of the grammar over the tokens read. *)
From stdpp Require Import gmap list.
From S2P Require Import Prelude Mlvalues Lexing Parsing.

Record lr := mkLr {
  a_const : list Z; a_block : list Z; a_lhs : list Z; a_len : list Z; a_defred : list Z; a_dgoto : list Z;
  a_sindex : list Z; a_rindex : list Z; a_gindex : list Z; a_size : Z; a_table : list Z; a_check : list Z }.
(** An array of OCaml integers. *)
Definition ints (h : heap_t) (v : value) (l : list Z) : Prop :=
  exists b t, v = Ptr b /\ h !! b = Some (mkBlock t (Fields (map Val_long l))).
Record encodes (h : heap_t) (tbl : parser_tables) (A : lr) : Prop := {
  e_const : ints h (transl_const tbl) (a_const A);
  e_block : ints h (transl_block tbl) (a_block A);
  e_lhs : shorts h (lhs tbl) (a_lhs A);
  e_len : shorts h (len tbl) (a_len A);
  e_defred : shorts h (defred tbl) (a_defred A);
  e_dgoto : shorts h (dgoto tbl) (a_dgoto A);
  e_sindex : shorts h (sindex tbl) (a_sindex A);
  e_rindex : shorts h (rindex tbl) (a_rindex A);
  e_gindex : shorts h (gindex tbl) (a_gindex A);
  e_size : tablesize tbl = a_size A;
  e_table : shorts h (table tbl) (a_table A);
  e_check : shorts h (check tbl) (a_check A) }.

(** The entry of the packed table for the base [n1] and the column [c]. *)
Definition entry (A : lr) (n1 c : Z) : option Z :=
  if negb (n1 =? 0) && (n1 + c >=? 0) && (n1 + c <=? a_size A) && (get (a_check A) (n1 + c) =? c)
  then Some (get (a_table A) (n1 + c)) else None.
Definition goto (A : lr) (q m : Z) : Z :=
  match entry A (get (a_gindex A) m) q with Some q' => q' | None => get (a_dgoto A) m end.

(** ** Grammars *)

Inductive symbol := T (c : Z) | N (m : Z).
#[export] Instance symbol_eq_dec : EqDecision symbol.
Proof. solve_decision. Defined.
(** A symbol on the stack, and the states that can be under it. *)
Abbreviation below := (list (symbol * list Z)).
(** [past q]: what is on the stack when [q] is on its top, from the top.  [final n]: the rule [n] spans the whole
    input.  The last three bound the work of a parser: a reduction must lower the weight of the symbols on the stack and
    the rank of the state on the top. *)
Record grammar := mkGrammar {
  rhs : list (list symbol); past : list below; tokens : list Z; final : list Z;
  term_weight : Z; nonterm_weight : list Z; rank : list Z; max_rank : Z }.

Section validator.
Variables (A : lr) (G : grammar).

Definition nstates : Z := Z.of_nat (length (a_defred A)).
Definition nrules : Z := Z.of_nat (length (a_len A)).
Definition past_of (q : Z) : below := past G !!! Z.to_nat q.
Definition rhs_of (n : Z) : list symbol := rhs G !!! Z.to_nat n.
Definition nth (l : list Z) (n : Z) : Z := default 0 (l !! Z.to_nat n).
Definition rank_of (q : Z) : Z := nth (rank G) q.
Definition weight (X : symbol) : Z := match X with T _ => term_weight G | N m => nth (nonterm_weight G) m end.
Definition weights (l : list symbol) : Z := fold_right (fun X s => weight X + s) 0 l.
Definition range (n : Z) : list Z := map Z.of_nat (seq 0 (Z.to_nat n)).
Definition mem (x : Z) (l : list Z) : bool := existsb (Z.eqb x) l.

(** What must be under a state is known to be there: [p] asks for less than [p0]. *)
Fixpoint covers (p p0 : below) : bool :=
  match p, p0 with
  | [], _ => true
  | (X, Q) :: p, (X0, Q0) :: p0 => bool_decide (X = X0) && forallb (fun q => mem q Q) Q0 && covers p p0
  | _ :: _, [] => false
  end.
Definition trans_ok (q : Z) (X : symbol) (q' : Z) : bool :=
  (0 <? q') && (q' <? nstates) &&
  match past_of q' with [] => true | (Y, Q) :: p => bool_decide (Y = X) && mem q Q && covers p (past_of q) end.
Definition shift_ok (q c : Z) : bool :=
  match entry A (get (a_sindex A) q) c with Some q' => trans_ok q (T c) q' | None => true end.
(** The states that can be uncovered when the symbols [l], from the top, are popped. *)
Fixpoint uncovered (l : list symbol) (p : below) (Q : list Z) : option (list Z) :=
  match l, p with
  | [], _ => Some Q
  | X :: l, (Y, Q') :: p => if decide (X = Y) then uncovered l p Q' else None
  | _ :: _, [] => None
  end.
Definition reduce_ok (q n : Z) : bool :=
  (0 <=? n) && (n <? nrules) &&
  (let r := rhs_of n in
   let m := get (a_lhs A) n in
   (get (a_len A) n =? Z.of_nat (length r)) && (0 <=? m) && (m <? Z.of_nat (length (a_gindex A))) &&
   match uncovered (reverse r) (past_of q) [q] with
   | Some Q =>
       (negb (mem n (final G)) || forallb (Z.eqb 0) Q) &&
       forallb (fun q1 => trans_ok q1 (N m) (goto A q1 m) &&
         (weight (N m) + rank_of (goto A q1 m) <? weights r + rank_of q)) Q
   | None => false
   end).
Definition state_ok (q : Z) : bool :=
  shift_ok q ERRCODE &&
  forallb (shift_ok q) (tokens G) &&
  (let n := get (a_defred A) q in
   if n =? 0 then
     forallb (fun c => match entry A (get (a_rindex A) q) c with Some n => reduce_ok q n | None => true end) (tokens G)
   else reduce_ok q n).
Definition shape_ok : bool :=
  (length (a_sindex A) =? length (a_defred A))%nat && (length (a_rindex A) =? length (a_defred A))%nat &&
  (length (a_lhs A) =? length (a_len A))%nat && (length (a_dgoto A) =? length (a_gindex A))%nat &&
  (Z.of_nat (length (a_table A)) =? a_size A + 1) && (Z.of_nat (length (a_check A)) =? a_size A + 1) &&
  (0 <? nstates) && (nstates <? 2 ^ 15) && (nrules <? 2 ^ 15) && (a_size A <? 2 ^ 20).
Definition bounds_ok : bool :=
  (0 <=? term_weight G) && forallb (Z.leb 0) (nonterm_weight G) &&
  forallb (fun r => (0 <=? r) && (r <=? max_rank G)) (rank G) && (0 <=? max_rank G).
Definition tokens_ok : bool :=
  forallb (fun c => (0 <=? c) && (c <? 2 ^ 20)) (tokens G) &&
  forallb (fun c => mem c (tokens G)) (a_const A) && forallb (fun c => mem c (tokens G)) (a_block A).
Definition validates (start : Z) : bool :=
  shape_ok && bounds_ok && tokens_ok && mem start (tokens G) && forallb state_ok (range nstates) &&
  bool_decide (past_of 0 = []).
End validator.

(** ** Derivations *)

(** A token with its attributes: its number, its value and positions. *)
Abbreviation token := (Z * attr)%type.
(** The position where the last of the symbols [l] ends, [p] being the position before them. *)
Definition end_of (p : Z) (l : list attr) : Z := match last l with Some (_, _, en) => en | None => p end.
Definition start_of (p : Z) (l : list attr) : Z := match l with (_, s, _) :: _ => s | [] => p end.
Lemma end_of_snoc p l v s en : end_of p (l ++ [(v, s, en)]) = en.
Proof. unfold end_of. by rewrite last_snoc. Qed.
Lemma end_of_app p l1 l2 : end_of p (l1 ++ l2) = end_of (end_of p l1) l2.
Proof.
  induction l2 as [|[[v s] en] l2 _] using rev_ind; [by rewrite app_nil_r|]. by rewrite app_assoc, !end_of_snoc.
Qed.

Section derives.
Context {W : Type} (cl : client W) (A : lr) (G : grammar).

(** The symbols [Xs] derive the tokens [ts] and have the attributes [vs], computed by the semantic actions; they begin
    behind the position [p].  Only when errors were repaired ([err]) can tokens be missing, and the symbol of errors be there. *)
Inductive derives (err : Prop) (p : Z) : list symbol -> list token -> list attr -> Prop :=
  | d_nil : derives err p [] [] []
  | d_token Xs ts vs c x : derives err p Xs ts vs -> derives err p (Xs ++ [T c]) (ts ++ [(c, x)]) (vs ++ [x])
  | d_rule Xs ts vs n us ws v w w' :
      derives err p Xs ts vs -> derives err (end_of p vs) (rhs_of G n) us ws ->
      actions cl n ws (end_of (end_of p vs) ws) w = (inl v, w') ->
      derives err p (Xs ++ [N (get (a_lhs A) n)]) (ts ++ us)
        (vs ++ [(v, start_of (end_of p vs) ws, end_of (end_of p vs) ws)])
  | d_error Xs ts vs x : err -> derives err p Xs ts vs -> derives err p (Xs ++ [T ERRCODE]) ts (vs ++ [x])
  | d_skip Xs ts vs t : err -> derives err p Xs ts vs -> derives err p Xs (ts ++ [t]) vs.

Lemma derives_length err p Xs ts vs : derives err p Xs ts vs -> length Xs = length vs.
Proof. induction 1; rewrite ?length_app; simpl; lia. Qed.
Lemma derives_weaken (err err' : Prop) p Xs ts vs : (err -> err') -> derives err p Xs ts vs -> derives err' p Xs ts vs.
Proof. intros He. induction 1; econstructor; eauto. Qed.
Lemma derives_skips (err : Prop) p Xs ts ts' vs : err -> derives err p Xs ts vs -> derives err p Xs (ts ++ ts') vs.
Proof.
  intros He Hd. induction ts' as [|t ts' IH] using rev_ind; [by rewrite app_nil_r|]. rewrite app_assoc. by apply d_skip.
Qed.
(** The symbols on the stack can be split. *)
Definition splits (err : Prop) p Xs Ys ts vs : Prop :=
  exists ts1 ts2 vs1 vs2, ts = ts1 ++ ts2 /\ vs = vs1 ++ vs2 /\ derives err p Xs ts1 vs1 /\ derives err (end_of p vs1) Ys ts2 vs2.
Lemma splits_all err p Xs ts vs : derives err p Xs ts vs -> splits err p Xs [] ts vs.
Proof. intros Hd. exists ts, [], vs, []. rewrite !app_nil_r. split; [done|]. split; [done|]. split; [done|constructor]. Qed.
Lemma snoc_split {B} (l1 l2 l : list B) x : l1 ++ l2 = l ++ [x] -> (l2 = [] /\ l1 = l ++ [x]) \/ exists l2', l2 = l2' ++ [x] /\ l1 ++ l2' = l.
Proof.
  destruct l2 as [|y l2 _] using rev_ind; [rewrite app_nil_r; by left|]. rewrite app_assoc. intros [E1 E2]%app_inj_2; [|done].
  right. exists l2. by simplify_eq.
Qed.
Lemma derives_app err p Zs ts vs : derives err p Zs ts vs -> forall Xs Ys, Zs = Xs ++ Ys -> splits err p Xs Ys ts vs.
Proof.
  induction 1 as [p|p Xs0 ts vs c x Hd IH|p Xs0 ts vs n us ws v w w' Hd IH Hr _ Ha|p Xs0 ts vs x He Hd IH|p Xs0 ts vs t He Hd IH]; intros Xs Ys E.
  - symmetry in E. apply app_nil in E as [-> ->]. apply splits_all. constructor.
  - symmetry in E. destruct (snoc_split _ _ _ _ E) as [[-> ->]|(Ys' & -> & E')].
    + apply splits_all. by apply d_token.
    + destruct (IH Xs Ys' (eq_sym E')) as (ts1 & ts2 & vs1 & vs2 & -> & -> & H1 & H2).
      exists ts1, (ts2 ++ [(c, x)]), vs1, (vs2 ++ [x]). rewrite !app_assoc. do 3 (split; [done|]). by apply d_token.
  - symmetry in E. destruct (snoc_split _ _ _ _ E) as [[-> ->]|(Ys' & -> & E')].
    + apply splits_all. by eapply d_rule.
    + destruct (IH Xs Ys' (eq_sym E')) as (ts1 & ts2 & vs1 & vs2 & -> & -> & H1 & H2).
      exists ts1, (ts2 ++ us), vs1, (vs2 ++ [(v, start_of (end_of p (vs1 ++ vs2)) ws, end_of (end_of p (vs1 ++ vs2)) ws)]).
      rewrite !app_assoc. do 3 (split; [done|]). rewrite end_of_app in *. by eapply d_rule.
  - symmetry in E. destruct (snoc_split _ _ _ _ E) as [[-> ->]|(Ys' & -> & E')].
    + apply splits_all. by apply d_error.
    + destruct (IH Xs Ys' (eq_sym E')) as (ts1 & ts2 & vs1 & vs2 & -> & -> & H1 & H2).
      exists ts1, ts2, vs1, (vs2 ++ [x]). rewrite !app_assoc. do 3 (split; [done|]). by apply d_error.
  - destruct (IH Xs Ys E) as (ts1 & ts2 & vs1 & vs2 & -> & -> & H1 & H2).
    exists ts1, (ts2 ++ [t]), vs1, vs2. rewrite !app_assoc. do 3 (split; [done|]). by apply d_skip.
Qed.
End derives.
