(* ===== verification/ParseStack.v ===== *)
(** * The stack of a parser

    The four arrays of [Parsing] hold one stack of [item]s above the base of the current parse ([seg]: a
    segment of an array).  A stack is [legal] when each state is a transition of the tables away from the one under it;
    the checks of [ParseTables] then say what is on it. *)
From stdpp Require Import gmap list.
From S2P Require Import Prelude Mlvalues Lexing Parsing ParseTables.

(** ** Segments of arrays *)

Definition seg {B} (b : Z) (x arr : list B) : Prop := 0 <= b /\ forall i y, x !! i = Some y -> arr !! (Z.to_nat b + i)%nat = Some y.
Lemma seg_slot {B} b (x arr : list B) i y : seg b x arr -> x !! i = Some y -> slot arr (b + Z.of_nat i) = Ok y.
Proof. intros [Hb Hs] Hi. unfold slot. replace (Z.to_nat (b + Z.of_nat i)) with (Z.to_nat b + i)%nat by lia. by rewrite (Hs _ _ Hi). Qed.
Lemma seg_nil {B} b (arr : list B) : 0 <= b -> seg b [] arr.
Proof. intros Hb. split; [done|]. intros i y Hi. by rewrite lookup_nil in Hi. Qed.
Lemma seg_app_l {B} b (x x' arr : list B) : seg b (x ++ x') arr -> seg b x arr.
Proof. intros [Hb Hs]. split; [done|]. intros i y Hi. apply Hs. by apply lookup_app_l_Some. Qed.
Lemma set_slot_ok {B} (arr : list B) i x : 0 <= i < Z.of_nat (length arr) -> set_slot arr i x = Ok (<[Z.to_nat i := x]> arr).
Proof. intros Hi. unfold set_slot. by destruct (Z.ltb_spec i (Z.of_nat (length arr))); [|lia]. Qed.
Lemma seg_snoc {B} b (x arr : list B) i y :
  seg b x arr -> i = b + Z.of_nat (length x) -> i < Z.of_nat (length arr) -> seg b (x ++ [y]) (<[Z.to_nat i := y]> arr).
Proof.
  intros [Hb Hs] -> Hl. split; [done|]. intros j z Hj. apply lookup_app_Some in Hj as [Hj|[Hlj Hj]].
  - rewrite list_lookup_insert_ne; [by apply Hs|]. apply lookup_lt_Some in Hj. lia.
  - apply list_lookup_singleton_Some in Hj as [Hj ->]. replace (Z.to_nat b + j)%nat with (Z.to_nat (b + Z.of_nat (length x))) by lia.
    apply list_lookup_insert_eq. lia.
Qed.
Lemma seg_grow {B} b (x arr : list B) n n' y :
  seg b x arr -> b + Z.of_nat (length x) <= n -> seg b x (grow_array arr n n' y).
Proof.
  intros [Hb Hs] Hn. split; [done|]. intros i z Hi. pose proof (Hs _ _ Hi) as Ha. apply lookup_lt_Some in Hi. unfold grow_array.
  rewrite lookup_app_l; [by rewrite lookup_take_lt by lia|]. rewrite length_take. apply lookup_lt_Some in Ha. lia.
Qed.
Lemma length_grow {B} (arr : list B) n n' y :
  Z.of_nat (length arr) = n -> n <= n' -> Z.of_nat (length (grow_array arr n n' y)) = n'.
Proof. intros Hl Hn. unfold grow_array. rewrite length_app, length_take, length_replicate. lia. Qed.

(** ** Legal stacks *)

Record item := mkItem { i_sym : symbol; i_state : Z; i_attr : attr }.
(** The bottom of a stack is the initial state 0. *)
Definition top_state (l : list item) : Z := match last l with Some it => i_state it | None => 0 end.
Lemma top_state_snoc l it : top_state (l ++ [it]) = i_state it.
Proof. unfold top_state. by rewrite last_snoc. Qed.

Section legal.
Variables (A : lr) (G : grammar).

Inductive legal : list item -> Prop :=
  | legal_nil : legal []
  | legal_snoc l it : legal l -> trans_ok A G (top_state l) (i_sym it) (i_state it) = true -> legal (l ++ [it]).
(** What [p] says is on the stack is there. *)
Inductive agrees : below -> list item -> Prop :=
  | agrees_nil l : agrees [] l
  | agrees_cons X Q p l it : i_sym it = X -> mem (top_state l) Q = true -> agrees p l -> agrees ((X, Q) :: p) (l ++ [it]).

Lemma mem_elem x l : mem x l = true <-> x ∈ l.
Proof. unfold mem. rewrite existsb_exists, list_elem_of_In. split; [intros (y & Hy & <-%Z.eqb_eq)|intros Hx; exists x; rewrite Z.eqb_eq]; done. Qed.
Lemma forallb_mem (f : Z -> bool) l x : forallb f l = true -> mem x l = true -> f x = true.
Proof. rewrite forallb_forall, mem_elem, list_elem_of_In. intros H. apply H. Qed.
Lemma agrees_covers p p0 l : covers p p0 = true -> agrees p0 l -> agrees p l.
Proof.
  intros Hc Ha. revert p Hc. induction Ha as [l|X Q p0 l it HX HQ Ha IH]; intros [|[Y Q'] p]; simpl; try done; [constructor..|].
  rewrite !andb_true_iff, bool_decide_eq_true. intros [[-> HQ'] Hp]. apply agrees_cons; [done| |by apply IH].
  exact (forallb_mem _ _ _ HQ' HQ).
Qed.
Lemma legal_inv l it : legal (l ++ [it]) -> legal l /\ trans_ok A G (top_state l) (i_sym it) (i_state it) = true.
Proof.
  intros Hl. inversion Hl as [E|l' it' Hl' Ht E]; [by destruct l|]. apply app_inj_2 in E as [-> [= ->]]; done.
Qed.
Lemma legal_app_l l1 l2 : legal (l1 ++ l2) -> legal l1.
Proof. induction l2 as [|it l2 IH] using rev_ind; [by rewrite app_nil_r|]. rewrite app_assoc. intros [Hl _]%legal_inv. by apply IH. Qed.
Lemma trans_ok_range q X q' : trans_ok A G q X q' = true -> 0 < q' < nstates A.
Proof. unfold trans_ok. rewrite !andb_true_iff. lia. Qed.
Lemma legal_agrees l : past_of G 0 = [] -> legal l -> agrees (past_of G (top_state l)) l.
Proof.
  intros H0. induction 1 as [|l it Hl IH Ht]; [unfold top_state; simpl; rewrite H0; constructor|]. rewrite top_state_snoc.
  unfold trans_ok in Ht. rewrite andb_true_iff in Ht. destruct Ht as [_ Ht].
  destruct (past_of G (i_state it)) as [|[Y Q] p]; [constructor|]. rewrite !andb_true_iff, bool_decide_eq_true in Ht.
  destruct Ht as [[-> HQ] Hc]. apply agrees_cons; [done|done|]. by eapply agrees_covers.
Qed.
Lemma top_state_range l : 0 < nstates A -> legal l -> 0 <= top_state l < nstates A.
Proof. intros Hn. destruct 1 as [|l it Hl Ht]; [unfold top_state; simpl; lia|]. rewrite top_state_snoc. apply trans_ok_range in Ht. lia. Qed.
(** The initial state is at the bottom only. *)
Lemma bottom_only l : legal l -> top_state l = 0 -> l = [].
Proof. destruct 1 as [|l it Hl Ht]; [done|]. rewrite top_state_snoc. apply trans_ok_range in Ht. lia. Qed.
Lemma uncovered_ok Xs : forall p Q Q' l, uncovered Xs p Q = Some Q' -> agrees p l -> mem (top_state l) Q = true ->
  exists l1 l2, l = l1 ++ l2 /\ map i_sym l2 = reverse Xs /\ mem (top_state l1) Q' = true.
Proof.
  induction Xs as [|X Xs IH]; intros p Q Q' l Hu Ha HQ; simpl in Hu.
  - injection Hu as <-. exists l, []. by rewrite app_nil_r.
  - destruct p as [|[Y Q1] p]; [done|]. destruct (decide (X = Y)) as [->|]; [|done].
    inversion Ha as [|? ? ? l' it HY HQ1 Ha']; subst. destruct (IH _ _ _ _ Hu Ha' HQ1) as (l1 & l2 & -> & Hm & Ht).
    exists l1, (l2 ++ [it]). rewrite app_assoc, map_app, Hm, reverse_cons. done.
Qed.

(** ** What a validated table allows *)

Definition stack_weight (l : list item) : Z := weights G (map i_sym l).
Lemma weights_app l1 l2 : weights G (l1 ++ l2) = weights G l1 + weights G l2.
Proof. induction l1 as [|X l1 IH]; simpl; [done|]. rewrite IH. lia. Qed.
Lemma stack_weight_app l1 l2 : stack_weight (l1 ++ l2) = stack_weight l1 + stack_weight l2.
Proof. unfold stack_weight. by rewrite map_app, weights_app. Qed.
Lemma stack_weight_one it : stack_weight [it] = weight G (i_sym it).
Proof. unfold stack_weight. simpl. lia. Qed.

Context (start : Z) (V : validates A G start = true).
Lemma v_split : shape_ok A = true /\ bounds_ok G = true /\ tokens_ok A G = true /\ mem start (tokens G) = true /\
  forallb (state_ok A G) (range (nstates A)) = true /\ past_of G 0 = [].
Proof. pose proof V as Hv. unfold validates in Hv. rewrite !andb_true_iff, bool_decide_eq_true in Hv. tauto. Qed.
Record shape : Prop := {
  sh_sindex : length (a_sindex A) = length (a_defred A);
  sh_rindex : length (a_rindex A) = length (a_defred A);
  sh_lhs : length (a_lhs A) = length (a_len A);
  sh_dgoto : length (a_dgoto A) = length (a_gindex A);
  sh_table : Z.of_nat (length (a_table A)) = a_size A + 1;
  sh_check : Z.of_nat (length (a_check A)) = a_size A + 1;
  sh_states : 0 < nstates A < 2 ^ 15;
  sh_rules : nrules A < 2 ^ 15;
  sh_size : a_size A < 2 ^ 20 }.
Lemma v_shape : shape.
Proof. destruct v_split as [Hs _]. unfold shape_ok in Hs. rewrite !andb_true_iff, !Nat.eqb_eq in Hs. split; lia. Qed.
Record bounds : Prop := {
  bd_term : 0 <= term_weight G;
  bd_rank q : 0 <= rank_of G q <= max_rank G;
  bd_weight X : 0 <= weight G X }.
Lemma nth_Forall (P : Z -> Prop) l n : P 0 -> Forall P l -> P (nth l n).
Proof. intros H0 Hl. unfold nth. destruct (l !! Z.to_nat n) as [x|] eqn:E; simpl; [|done]. by eapply Forall_lookup_1. Qed.
Lemma forallb_Forall_Z (f : Z -> bool) l : forallb f l = true -> Forall (fun x => f x = true) l.
Proof. rewrite forallb_forall, Forall_forall. intros H x Hx. apply H. by apply list_elem_of_In. Qed.
Lemma v_bounds : bounds.
Proof.
  destruct v_split as (_ & Hb & _). unfold bounds_ok in Hb. rewrite !andb_true_iff in Hb. destruct Hb as [[[Ht Hn] Hr] Hm].
  apply forallb_Forall_Z in Hn, Hr. split.
  - lia.
  - intros q. unfold rank_of. apply nth_Forall; [lia|]. eapply Forall_impl; [exact Hr|]. simpl. intros x. rewrite andb_true_iff. lia.
  - intros [c|m]; simpl; [lia|]. apply nth_Forall; [lia|]. eapply Forall_impl; [exact Hn|]. simpl. intros x. lia.
Qed.
Lemma stack_weight_nonneg l : 0 <= stack_weight l.
Proof. unfold stack_weight. induction (map i_sym l) as [|X Xs IH]; simpl; [done|]. pose proof (bd_weight v_bounds X). lia. Qed.
Lemma v_token c : mem c (tokens G) = true -> 0 <= c < 2 ^ 20.
Proof.
  destruct v_split as (_ & _ & Ht & _). unfold tokens_ok in Ht. rewrite !andb_true_iff in Ht. destruct Ht as [[Ht _] _].
  intros Hc. pose proof (forallb_mem _ _ _ Ht Hc) as H. simpl in H. rewrite andb_true_iff in H. lia.
Qed.
Lemma v_const i c : a_const A !! i = Some c \/ a_block A !! i = Some c -> mem c (tokens G) = true.
Proof.
  destruct v_split as (_ & _ & Ht & _). unfold tokens_ok in Ht. rewrite !andb_true_iff in Ht. destruct Ht as [[_ H1] H2].
  apply forallb_Forall_Z in H1, H2. intros [Hi|Hi]; [by eapply (Forall_lookup_1 _ _ _ _ H1)|by eapply (Forall_lookup_1 _ _ _ _ H2)].
Qed.
Lemma elem_range q n : 0 <= q < n -> mem q (range n) = true.
Proof. intros Hq. apply mem_elem, list_elem_of_In. unfold range. apply in_map_iff. exists (Z.to_nat q). split; [lia|]. apply in_seq. lia. Qed.
Lemma v_state q : 0 <= q < nstates A -> state_ok A G q = true.
Proof. intros Hq. destruct v_split as (_ & _ & _ & _ & Hs & _). exact (forallb_mem _ _ _ Hs (elem_range _ _ Hq)). Qed.
Lemma v_shift q c q' : 0 <= q < nstates A -> c = ERRCODE \/ mem c (tokens G) = true ->
  entry A (get (a_sindex A) q) c = Some q' -> trans_ok A G q (T c) q' = true.
Proof.
  intros Hq Hc He. pose proof (v_state q Hq) as Hs. unfold state_ok in Hs. rewrite !andb_true_iff in Hs. destruct Hs as [[H1 H2] _].
  assert (shift_ok A G q c = true) as H by (destruct Hc as [->|Hc]; [done|exact (forallb_mem _ _ _ H2 Hc)]).
  unfold shift_ok in H. by rewrite He in H.
Qed.
Lemma v_default q : 0 <= q < nstates A -> get (a_defred A) q <> 0 -> reduce_ok A G q (get (a_defred A) q) = true.
Proof.
  intros Hq Hd. pose proof (v_state q Hq) as Hs. unfold state_ok in Hs. rewrite !andb_true_iff in Hs. destruct Hs as [_ Hs].
  cbv zeta in Hs. by destruct (Z.eqb_spec (get (a_defred A) q) 0).
Qed.
Lemma v_reduce q c n : 0 <= q < nstates A -> get (a_defred A) q = 0 -> mem c (tokens G) = true ->
  entry A (get (a_rindex A) q) c = Some n -> reduce_ok A G q n = true.
Proof.
  intros Hq Hd Hc He. pose proof (v_state q Hq) as Hs. unfold state_ok in Hs. rewrite !andb_true_iff in Hs. destruct Hs as [_ Hs].
  cbv zeta in Hs. destruct (Z.eqb_spec (get (a_defred A) q) 0); [|done]. pose proof (forallb_mem _ _ _ Hs Hc) as H. simpl in H. by rewrite He in H.
Qed.
(** A reduction finds the right-hand side of its rule on the stack. *)
Record reducible (l1 l2 : list item) (n : Z) : Prop := {
  rd_rule : 0 <= n < nrules A;
  rd_rhs : map i_sym l2 = rhs_of G n;
  rd_len : get (a_len A) n = Z.of_nat (length l2);
  rd_lhs : 0 <= get (a_lhs A) n < Z.of_nat (length (a_gindex A));
  rd_goto : trans_ok A G (top_state l1) (N (get (a_lhs A) n)) (goto A (top_state l1) (get (a_lhs A) n)) = true;
  rd_work : weight G (N (get (a_lhs A) n)) + rank_of G (goto A (top_state l1) (get (a_lhs A) n)) <
    stack_weight l2 + rank_of G (top_state (l1 ++ l2));
  rd_final : mem n (final G) = true -> l1 = [] }.
Lemma reduce_reducible l n : legal l -> reduce_ok A G (top_state l) n = true -> exists l1 l2, l = l1 ++ l2 /\ reducible l1 l2 n.
Proof.
  intros Hl Hr. unfold reduce_ok in Hr. cbv zeta in Hr. rewrite !andb_true_iff in Hr. destruct Hr as [Hn [[[Hlen Hm0] Hm] Hu]].
  destruct (uncovered _ _ _) as [Q|] eqn:Eu; [|done]. rewrite andb_true_iff in Hu. destruct Hu as [Hf Hq].
  destruct v_split as (_ & _ & _ & _ & _ & H0).
  destruct (uncovered_ok _ _ _ _ _ Eu (legal_agrees l H0 Hl)) as (l1 & l2 & -> & Hs & Ht).
  { unfold mem. simpl. by rewrite Z.eqb_refl. }
  rewrite reverse_involutive in Hs. pose proof (forallb_mem _ _ _ Hq Ht) as H. simpl in H. rewrite andb_true_iff in H. destruct H as [H1 H2].
  exists l1, l2. split; [done|]. assert (length l2 = length (rhs_of G n)) as El by (rewrite <-Hs; symmetry; apply length_map).
  split; try done; try lia.
  - unfold stack_weight. rewrite Hs. simpl weight. lia.
  - intros Hfn. rewrite Hfn in Hf. simpl in Hf. pose proof (forallb_mem _ _ _ Hf Ht) as E. apply Z.eqb_eq in E.
    apply bottom_only; [by eapply legal_app_l|]. done.
Qed.
End legal.
