(* ===== verification/ParseRun.v ===== *)
(** * The runs of the parsing engine

    [cfg] relates the record of a parser to a stack of items and to the tokens used so far.  [Inv] is what holds at each
    label of [parse_engine], [Post] what holds when it returns; [code_at_ok] goes through the labels one by
    one, and [size] bounds the labels a call visits.  [M] bounds the work that is left ([pot]). *)
From stdpp Require Import gmap list.
From S2P Require Import Prelude Mlvalues Lexing Parsing ParseTables ParseStack.

Definition i_val (it : item) : value := (i_attr it).1.1.
Definition i_start (it : item) : Z := (i_attr it).1.2.
Definition i_end (it : item) : Z := (i_attr it).2.
(** The stacks of [e] hold the items [l] above the slot [b]; [p0] is the position there. *)
Record holds (b p0 : Z) (e : parser_env) (l : list item) : Prop := {
  hs_base : 0 <= b /\ stackbase e = b + 1;
  hs_len_s : Z.of_nat (length (s_stack e)) = stacksize e;
  hs_len_v : Z.of_nat (length (v_stack e)) = stacksize e;
  hs_len_st : Z.of_nat (length (symb_start_stack e)) = stacksize e;
  hs_len_en : Z.of_nat (length (symb_end_stack e)) = stacksize e;
  hs_size : stacksize e <= Max_wosize;
  hs_room : b + Z.of_nat (length l) < stacksize e;
  hs_s : seg b (0 :: map i_state l) (s_stack e);
  hs_v : seg (b + 1) (map i_val l) (v_stack e);
  hs_st : seg (b + 1) (map i_start l) (symb_start_stack e);
  hs_en : seg b (p0 :: map i_end l) (symb_end_stack e) }.

Lemma holds_app_l b p0 e l1 l2 : holds b p0 e (l1 ++ l2) -> holds b p0 e l1.
Proof.
  intros [? ? ? ? ? ? Hr Hs Hv Hst Hen]. rewrite length_app in Hr. rewrite map_app in Hs, Hv, Hst, Hen.
  split; try done; [lia|by apply (seg_app_l _ (0 :: _) (map i_state l2))|by eapply seg_app_l|by eapply seg_app_l|by apply (seg_app_l _ (p0 :: _) (map i_end l2))].
Qed.
(** Storing an item on the top. *)
Lemma holds_snoc b p0 e l it i :
  holds b p0 e l -> i = b + Z.of_nat (length l) + 1 -> i < stacksize e ->
  holds b p0 (set_stacks (<[Z.to_nat i := i_state it]> (s_stack e)) (<[Z.to_nat i := i_val it]> (v_stack e))
    (<[Z.to_nat i := i_start it]> (symb_start_stack e)) (<[Z.to_nat i := i_end it]> (symb_end_stack e)) e) (l ++ [it]).
Proof.
  intros [Hb Hls Hlv Hlst Hlen Hsz Hr Hs Hv Hst Hen] Hi Hroom.
  split; cbn; rewrite ?length_insert, ?map_app, ?length_app; cbn [length]; try done; try lia.
  - apply (seg_snoc _ (0 :: _)); [done|simpl; rewrite length_map; lia|lia].
  - apply seg_snoc; [done|rewrite length_map; lia|lia].
  - apply seg_snoc; [done|rewrite length_map; lia|lia].
  - apply (seg_snoc _ (p0 :: _)); [done|simpl; rewrite length_map; lia|lia].
Qed.
Lemma lookup_top x (l : list item) (f : item -> Z) :
  (x :: map f l) !! length l = Some (match last l with Some it => f it | None => x end).
Proof.
  destruct l as [|it l _] using rev_ind; [done|]. rewrite last_snoc, map_app, length_app, Nat.add_1_r. simpl.
  rewrite lookup_app_r by (rewrite length_map; lia). by rewrite length_map, Nat.sub_diag.
Qed.
Lemma end_of_items p0 l : end_of p0 (map i_attr l) = match last l with Some it => i_end it | None => p0 end.
Proof.
  destruct l as [|it l _] using rev_ind; [done|]. rewrite last_snoc, map_app. unfold i_end. simpl. destruct (i_attr it) as [[v s] en].
  apply end_of_snoc.
Qed.
Lemma holds_top b p0 e l : holds b p0 e l -> slot (s_stack e) (b + Z.of_nat (length l)) = Ok (top_state l).
Proof. intros H. eapply seg_slot; [apply H|]. apply lookup_top. Qed.
Lemma holds_end b p0 e l : holds b p0 e l -> slot (symb_end_stack e) (b + Z.of_nat (length l)) = Ok (end_of p0 (map i_attr l)).
Proof. intros H. rewrite end_of_items. eapply seg_slot; [apply H|]. apply lookup_top. Qed.
Lemma holds_range b p0 e l : holds b p0 e l -> 0 <= b /\ b + Z.of_nat (length l) < 2 ^ 22 - 1 /\ u32 (stacksize e) = stacksize e.
Proof.
  intros H. pose proof (hs_base _ _ _ _ H). pose proof (hs_size _ _ _ _ H). pose proof (hs_room _ _ _ _ H). unfold Max_wosize in *.
  split; [lia|]. split; [lia|]. apply u32_small. unfold is_u32. lia.
Qed.
Lemma holds_grow b p0 e l e' : holds b p0 e l -> grow_stacks e = Some e' -> holds b p0 e' l /\ b + Z.of_nat (length l) + 1 < stacksize e'.
Proof.
  intros [Hb Hls Hlv Hlst Hlen Hsz Hr Hs Hv Hst Hen]. unfold grow_stacks. destruct (Z.gtb_spec (stacksize e * 2) Max_wosize); [done|].
  intros [= <-]. assert (0 <= stacksize e) by lia.
  split; [split|]; simpl; rewrite ?length_grow by lia; try done; try lia; (apply seg_grow; [done|simpl; rewrite length_map; lia]).
Qed.

Lemma wrap31_word x : 0 <= x < 2 ^ 22 -> wrap31 x = x.
Proof. intros Hx. apply wrap31_small. unfold is_long, Min_long, Max_long. lia. Qed.
Lemma sub_add_word a m : 0 <= a < 2 ^ 22 -> 0 <= m <= a -> a ⊟ m ⊞ 1 = a - m + 1.
Proof. intros Ha Hm. rewrite (u32_small (a - m)), u32_small; [done|unfold is_u32; lia..]. Qed.

Section run.
Context {W : Type} (cl : client W) (tbl : parser_tables) (A : lr) (G : grammar) (start : Z) (V : validates A G start = true).
Context (b p0 : Z) (err : Prop) (all : list token).
Abbreviation holds := (holds b p0).
Abbreviation legal := (legal A G).

(** The token that was read and is not yet used. *)
Definition ahead (e : parser_env) : list token :=
  if curr_char e <? 0 then [] else [(curr_char e, (lval e, symb_start e, symb_end e))].
Definition char_ok (e : parser_env) : Prop := curr_char e = -1 \/ mem (curr_char e) (tokens G) = true.
Record cfg (e : parser_env) (l : list item) (ts : list token) : Prop := {
  cf_holds : holds e l;
  cf_legal : legal l;
  cf_derives : derives cl A G err p0 (map i_sym l) ts (map i_attr l);
  cf_all : all = ts ++ ahead e;
  cf_char : char_ok e }.
(** The symbol [X], with the attributes of the last token, is about to be pushed. *)
Record pending (X : symbol) (q' : Z) (e : parser_env) (l : list item) (ts : list token) : Prop := {
  pd_holds : holds e l;
  pd_legal : legal l;
  pd_trans : trans_ok A G (top_state l) X q' = true;
  pd_derives : derives cl A G err p0 (map i_sym l ++ [X]) ts (map i_attr l ++ [(lval e, symb_start e, symb_end e)]);
  pd_all : all = ts ++ ahead e;
  pd_char : char_ok e }.
Definition flag_ok (f : Z) : Prop := 0 <= f <= 3 /\ (0 < f -> err).
Record at_stack (r : regs) (l : list item) : Prop := {
  at_state : state r = top_state l;
  at_sp : sp r = b + Z.of_nat (length l);
  at_flag : flag_ok (errflag r) }.
(** The items [l2] are to be replaced by the left-hand side of the rule [n]. *)
Record reducing (e : parser_env) (r : regs) (l1 l2 : list item) (n : Z) (ts : list token) : Prop := {
  rg_cfg : cfg e (l1 ++ l2) ts;
  rg_rule : reducible A G l1 l2 n;
  rg_state : state r = goto A (top_state l1) (get (a_lhs A) n);
  rg_sp : sp r = b + Z.of_nat (length l1) + 1;
  rg_flag : flag_ok (errflag r);
  rg_asp : e_asp e = b + Z.of_nat (length (l1 ++ l2));
  rg_len : rule_len e = Z.of_nat (length l2);
  rg_number : rule_number e = n }.

(** ** Potential *)

Definition flag_cost : Z := 2 * term_weight G + 2 * max_rank G + 3.
Definition char_cost : Z := flag_cost + 2 * term_weight G + 2 * max_rank G + 1.
(** Of the symbols with the weight [w] on the stack, the state [q] on the top, the next token and the error flag [f]. *)
Definition pot (w q : Z) (e : parser_env) (f : Z) : Z :=
  2 * (w + rank_of G q) + (if curr_char e <? 0 then 0 else char_cost) + flag_cost * (3 - f).

(** An action that fails leaves the stack that its rule was to replace, so the work for that one is kept until it has returned; the state in
    which the recovery begins is then not the one of the stack. *)
Definition Inv (M : Z) (lab : label) (r : regs) (e : parser_env) : Prop :=
  match lab with
  | loop => exists l ts, cfg e l ts /\ at_stack r l /\ pot (stack_weight G l) (top_state l) e (errflag r) <= M
  | testshift => exists l ts, cfg e l ts /\ at_stack r l /\ 0 <= curr_char e /\ get (a_defred A) (top_state l) = 0 /\
      pot (stack_weight G l) (top_state l) e (errflag r) <= M
  | recover => exists l ts, cfg e l ts /\ sp r = b + Z.of_nat (length l) /\ flag_ok (errflag r) /\ err /\
      ((errflag r < 3 /\ exists q, pot (stack_weight G l) q e (errflag r) - 2 <= M) \/
       (state r = top_state l /\ 0 <= curr_char e /\ pot (stack_weight G l) (top_state l) e (errflag r) - 1 <= M))
  | shift n2 => exists l ts, cfg e l ts /\ at_stack r l /\ 0 <= curr_char e /\ 0 <= n2 <= a_size A /\
      trans_ok A G (top_state l) (T (curr_char e)) (get (a_table A) n2) = true /\
      pot (stack_weight G l) (top_state l) e (errflag r) <= M
  | shift_recover n2 => exists l ts X, pending X (get (a_table A) n2) e l ts /\ sp r = b + Z.of_nat (length l) /\
      flag_ok (errflag r) /\ 0 <= n2 <= a_size A /\
      pot (stack_weight G l + weight G X) (get (a_table A) n2) e (errflag r) + 1 <= M
  | push => exists l ts X, pending X (state r) e l ts /\ sp r = b + Z.of_nat (length l) + 1 /\
      sp r < stacksize e /\ flag_ok (errflag r) /\ pot (stack_weight G l + weight G X) (state r) e (errflag r) <= M
  | reduce n => exists l ts, cfg e l ts /\ at_stack r l /\ reduce_ok A G (top_state l) n = true /\
      pot (stack_weight G l) (top_state l) e (errflag r) <= M
  | semantic_action => exists l1 l2 n ts, reducing e r l1 l2 n ts /\ sp r < stacksize e /\
      pot (stack_weight G l1 + weight G (N (get (a_lhs A) n))) (state r) e (errflag r) + 1 <= M /\
      pot (stack_weight G (l1 ++ l2)) (top_state (l1 ++ l2)) e (errflag r) - 1 <= M
  end.
Definition Post (M : Z) (o : parser_output) (e : parser_env) : Prop :=
  match o with
  | READ_TOKEN => exists l ts, cfg e l ts /\ at_stack (RESTORE e) l /\ curr_char e = -1 /\ get (a_defred A) (top_state l) = 0 /\
      pot (stack_weight G l) (top_state l) e (e_errflag e) <= M
  | CALL_ERROR_FUNCTION => exists l ts, cfg e l ts /\ at_stack (RESTORE e) l /\ 0 <= curr_char e /\
      pot (stack_weight G l) (top_state l) e (e_errflag e) <= M
  | GROW_STACKS_1 => exists l ts X, pending X (e_state e) e l ts /\ sp (RESTORE e) = b + Z.of_nat (length l) + 1 /\
      flag_ok (e_errflag e) /\ pot (stack_weight G l + weight G X) (e_state e) e (e_errflag e) + 1 <= M
  | GROW_STACKS_2 => exists l1 l2 n ts, reducing e (RESTORE e) l1 l2 n ts /\
      pot (stack_weight G l1 + weight G (N (get (a_lhs A) n))) (e_state e) e (e_errflag e) + 2 <= M /\
      pot (stack_weight G (l1 ++ l2)) (top_state (l1 ++ l2)) e (e_errflag e) <= M
  | COMPUTE_SEMANTIC_ACTION => Inv M semantic_action (RESTORE e) e
  | RAISE_PARSE_ERROR => err
  end.
(** How many labels are left. *)
Definition size (lab : label) (r : regs) (e : parser_env) : nat :=
  let c := 0 <=? curr_char e in
  let k := if errflag r <? 3 then 5%nat else 0%nat in
  match lab with
  | semantic_action => 1
  | reduce _ => 2
  | loop => if c then 8 + k else 3
  | push => if c then 9 + k else 4
  | shift_recover _ => if c then 10 + k else 5
  | shift _ => 6
  | recover => 4 + (if errflag r <? 3 then 7 else 0)
  | testshift => 7 + k
  end.
End run.
