(* ===== verification/ParseSteps.v ===== *)
(** * What the parsing engine does at each label

    One lemma for each label of [parse_engine]: from the invariant [Inv] of [ParseRun] the code goes to a label where
    it holds again, or returns with [Post].  No access is outside a table or a stack. *)
From stdpp Require Import gmap list.
From S2P Require Import Prelude Mlvalues Lexing Parsing ParseTables ParseStack ParseRun.

Section steps.
Context {W : Type} (cl : client W) (tbl : parser_tables) (A : lr) (G : grammar) (start : Z) (V : validates A G start = true).
Context (b p0 : Z) (err : Prop) (all : list token) (h : heap_t) (E : encodes h tbl A).
Abbreviation holds := (holds b p0).
Abbreviation legal := (legal A G).
Abbreviation cfg := (cfg cl A G b p0 err all).
Abbreviation pending := (pending cl A G b p0 err all).
Abbreviation reducing := (reducing cl A G b p0 err all).
Abbreviation at_stack := (at_stack b err).
Abbreviation Inv := (Inv cl A G b p0 err all).
Abbreviation Post := (Post cl A G b p0 err all).

(** ** Reading the tables *)

Lemma short_state v l q : shorts h v l -> length l = length (a_defred A) -> 0 <= q < nstates A -> Short h v q = Ok (get l q) /\ - 2 ^ 15 <= get l q < 2 ^ 15.
Proof.
  intros Hs Hl Hq. unfold nstates in Hq. assert (0 <= q < Z.of_nat (length l)) as Hq' by lia.
  split; [by apply Short_ok|]. by eapply get_short.
Qed.
Lemma entry_some n1 c q : entry A n1 c = Some q -> 0 <= n1 + c <= a_size A /\ q = get (a_table A) (n1 + c).
Proof.
  unfold entry. destruct (_ && _) eqn:Ec; [|done]. intros [= <-]. rewrite !andb_true_iff in Ec. lia.
Qed.
Lemma entry_ok_eq n1 c : - 2 ^ 15 <= n1 < 2 ^ 15 -> 0 <= c < 2 ^ 20 ->
  s32 (n1 + c) = n1 + c /\ entry_ok h tbl n1 c = Ok (match entry A n1 c with Some _ => true | None => false end).
Proof.
  intros Hn Hc. pose proof (v_shape A G start V) as Sh. assert (s32 (n1 + c) = n1 + c) as Es by (apply s32_small; unfold is_s32; lia).
  split; [done|]. unfold entry_ok, entry. rewrite Es, (e_size _ _ _ E).
  destruct (negb (n1 =? 0)); cbn [andb]; [|done]. destruct (Z.geb_spec (n1 + c) 0); cbn [andb]; [|done].
  destruct (Z.leb_spec (n1 + c) (a_size A)); cbn [andb]; [|done].
  rewrite (Short_ok h _ (a_check A)) by (apply E || (rewrite (sh_check A Sh); lia)). cbn [rbind]. by destruct (_ =? c).
Qed.
Lemma short_table n2 : 0 <= n2 <= a_size A -> Short h (table tbl) n2 = Ok (get (a_table A) n2).
Proof. intros Hn. pose proof (v_shape A G start V) as Sh. apply Short_ok; [apply E|]. rewrite (sh_table A Sh). lia. Qed.
Lemma legal_state l : legal l -> 0 <= top_state l < nstates A /\ top_state l < 2 ^ 15.
Proof. intros Hl. pose proof (sh_states A (v_shape A G start V)). pose proof (top_state_range A G l). intuition lia. Qed.

(** ** [SAVE] and [RESTORE] *)

Lemma holds_save r e l : holds e l -> holds (SAVE r e) l.
Proof. by intros []. Qed.
Lemma cfg_save r e l ts : cfg e l ts -> cfg (SAVE r e) l ts.
Proof. intros [H1 H2 H3 H4 H5]. split; try done. by apply holds_save. Qed.
Lemma pending_save r X q e l ts : pending X q e l ts -> pending X q (SAVE r e) l ts.
Proof. intros [H1 H2 H3 H4 H5 H6]. split; try done. by apply holds_save. Qed.
Lemma restore_save r e : 0 <= state r < 2 ^ 15 -> 0 <= sp r < 2 ^ 22 -> 0 <= errflag r <= 3 -> RESTORE (SAVE r e) = r.
Proof.
  intros Hq Hs Hf. destruct r as [q s f]. simpl in *. unfold RESTORE. simpl. rewrite !wrap31_word by lia. f_equal. apply u32_small. unfold is_u32. lia.
Qed.
Lemma at_save r e l ts : cfg e l ts -> at_stack r l -> RESTORE (SAVE r e) = r.
Proof.
  intros C [Hq Hs [Hf _]]. pose proof (legal_state l (cf_legal _ _ _ _ _ _ _ _ _ _ C)). pose proof (holds_range _ _ _ _ (cf_holds _ _ _ _ _ _ _ _ _ _ C)).
  apply restore_save; lia.
Qed.
Lemma saved_flag r e : flag_ok err (errflag r) -> e_errflag (SAVE r e) = errflag r.
Proof. intros [Hf _]. simpl. apply wrap31_word. lia. Qed.
Lemma saved_state r e : 0 <= state r < 2 ^ 15 -> e_state (SAVE r e) = state r.
Proof. intros Hq. simpl. apply wrap31_word. lia. Qed.

(** ** The labels *)

Definition next_ok (M : Z) (lab : label) (r : regs) (e : parser_env) (x : result next) : Prop :=
  match x with
  | Ok (Goto l' r' e') => Inv M l' r' e' /\ (size l' r' e' < size lab r e)%nat
  | Ok (Return o e') => Post M o e'
  | _ => False
  end.
Lemma char_neg e : char_ok G e -> curr_char e < 0 -> curr_char e = -1.
Proof. intros [Hc|Hc]; [done|]. apply (v_token A G start V) in Hc. lia. Qed.
Lemma char_mem e : char_ok G e -> 0 <= curr_char e -> mem (curr_char e) (tokens G) = true.
Proof. intros [Hc|Hc]; [lia|done]. Qed.

Lemma at_loop_ok M r e : Inv M loop r e -> next_ok M loop r e (at_loop h tbl r e).
Proof.
  intros (l & ts & C & At & HM). pose proof C as [Ch Cl _ _ Cc]. pose proof (at_state _ _ _ _ At) as Eq.
  destruct (legal_state l Cl) as [Hq _]. unfold at_loop. rewrite Eq.
  destruct (short_state (defred tbl) (a_defred A) (top_state l)) as [-> _]; [apply E|done|done|]. cbn [rbind].
  destruct (Z.eqb_spec (get (a_defred A) (top_state l)) 0) as [Hd|Hd]; cbn [negb].
  - destruct (Z.geb_spec (curr_char e) 0) as [Hc|Hc]; cbn [next_ok ParseRun.Post ParseRun.Inv].
    + split; [by exists l, ts|]. unfold size. destruct (Z.leb_spec 0 (curr_char e)); lia.
    + exists l, ts. split; [by apply cfg_save|]. rewrite (at_save r e l ts), saved_flag by (done || apply At).
      split; [done|]. split; [by apply char_neg|]. by split.
  - cbn [next_ok ParseRun.Inv]. split; [exists l, ts; split; [done|]; split; [done|]; split; [by apply (v_default A G start V)|done]|].
    unfold size. destruct (0 <=? curr_char e), (errflag r <? 3); lia.
Qed.
Lemma at_testshift_ok M r e : Inv M testshift r e -> next_ok M testshift r e (at_testshift h tbl r e).
Proof.
  intros (l & ts & C & At & Hc & Hd & HM). pose proof C as [Ch Cl _ _ Cc]. pose proof (at_state _ _ _ _ At) as Eq.
  pose proof (v_shape A G start V) as Sh. destruct (legal_state l Cl) as [Hq _]. pose proof (char_mem e Cc Hc) as Hm.
  pose proof (v_token A G start V _ Hm) as Hcr. unfold at_testshift. rewrite Eq.
  destruct (short_state (sindex tbl) (a_sindex A) (top_state l)) as [-> Hr]; [apply E|apply Sh|done|]. cbn [rbind].
  destruct (entry_ok_eq _ (curr_char e) Hr Hcr) as [-> ->]. cbn [rbind]. destruct (entry _ _ _) as [q'|] eqn:Ee.
  { destruct (entry_some _ _ _ Ee) as [Hn2 ->]. cbn [next_ok ParseRun.Inv size rbind]. split; [|lia]. exists l, ts. do 4 (split; [done|]). split; [|done].
    apply (v_shift A G start V); [done|by right|done]. }
  destruct (short_state (rindex tbl) (a_rindex A) (top_state l)) as [-> Hr2]; [apply E|apply Sh|done|]. cbn [rbind].
  destruct (entry_ok_eq _ (curr_char e) Hr2 Hcr) as [-> ->]. cbn [rbind]. destruct (entry A (get (a_rindex A) _) _) as [n|] eqn:Ee2.
  { destruct (entry_some _ _ _ Ee2) as [Hn2 En]. rewrite short_table by done. cbn [next_ok ParseRun.Inv size rbind]. split; [|lia]. exists l, ts.
    do 2 (split; [done|]). split; [|done]. rewrite <-En. by apply (v_reduce A G start V _ (curr_char e)). }
  pose proof (at_flag _ _ _ _ At) as [Hf Hferr]. destruct (Z.gtb_spec (errflag r) 0) as [Hf0|Hf0]; cbn [next_ok ParseRun.Post ParseRun.Inv size].
  - split; [|destruct (errflag r <? 3); lia]. exists l, ts. split; [done|]. split; [apply At|]. split; [apply At|]. split; [apply Hferr; lia|]. right. split; [done|]. split; [done|lia].
  - exists l, ts. split; [by apply cfg_save|]. rewrite (at_save r e l ts), saved_flag by (done || apply At). done.
Qed.

(** What is on the stack derives its part of the tokens. *)
Lemma derives_stack p l1 l2 ts : derives cl A G err p (map i_sym (l1 ++ l2)) ts (map i_attr (l1 ++ l2)) ->
  exists ts1 ts2, ts = ts1 ++ ts2 /\ derives cl A G err p (map i_sym l1) ts1 (map i_attr l1) /\
    derives cl A G err (end_of p (map i_attr l1)) (map i_sym l2) ts2 (map i_attr l2).
Proof.
  rewrite !map_app. intros D. destruct (derives_app _ _ _ _ _ _ _ _ D _ _ eq_refl) as (ts1 & ts2 & vs1 & vs2 & -> & Ev & D1 & D2).
  exists ts1, ts2. pose proof (derives_length _ _ _ _ _ _ _ _ D1) as Hl. rewrite length_map in Hl.
  apply app_inj_1 in Ev as [-> ->]; [done|]. by rewrite length_map.
Qed.
Lemma discard_states_ok e fuel : forall l, holds e l -> legal l -> (length l < fuel)%nat ->
  exists o, discard_states h tbl fuel (b + Z.of_nat (length l)) e = Ok o /\
    match o with
    | Some (sp', n2) => exists l1 l2, l = l1 ++ l2 /\ sp' = b + Z.of_nat (length l1) /\ 0 <= n2 <= a_size A /\
        trans_ok A G (top_state l1) (T ERRCODE) (get (a_table A) n2) = true
    | None => True
    end.
Proof.
  pose proof (v_shape A G start V) as Sh.
  induction fuel as [|fuel IH]; intros l H Hl Hf; [lia|]. cbn [discard_states]. rewrite (holds_top _ _ _ _ H). cbn [rbind].
  destruct (legal_state l Hl) as [Hq _]. destruct (short_state (sindex tbl) (a_sindex A) (top_state l)) as [-> Hr]; [apply E|apply Sh|done|].
  cbn [rbind]. destruct (entry_ok_eq _ ERRCODE Hr) as [-> ->]; [unfold ERRCODE; lia|]. cbn [rbind].
  destruct (entry _ _ _) as [q'|] eqn:Ee.
  { destruct (entry_some _ _ _ Ee) as [Hn2 ->]. eexists. split; [done|]. exists l, []. rewrite app_nil_r.
    do 3 (split; [done|]). apply (v_shift A G start V); [done|by left|done]. }
  pose proof (holds_range _ _ _ _ H) as (Hb & Hlen & _). pose proof (hs_base _ _ _ _ H) as [_ ->].
  rewrite (u32_small (b + 1)) by (unfold is_u32; lia). destruct (Z.leb_spec (b + Z.of_nat (length l)) (b + 1)); [by eexists|].
  destruct l as [|it l _] using rev_ind; [simpl in *; lia|]. rewrite length_app in *. cbn [length] in *.
  rewrite u32_small by (unfold is_u32; lia). replace (b + Z.of_nat (length l + 1) - 1) with (b + Z.of_nat (length l)) by lia.
  destruct (IH l) as (o & -> & Ho); [by eapply holds_app_l|by apply legal_inv in Hl as [? _]|lia|].
  exists o. split; [done|]. destruct o as [[sp' n2]|]; [|done]. destruct Ho as (l1 & l2 & -> & Hrest).
  exists l1, (l2 ++ [it]). by rewrite app_assoc.
Qed.
Lemma ahead_some e : 0 <= curr_char e -> ahead e = [(curr_char e, (lval e, symb_start e, symb_end e))].
Proof. intros Hc. unfold ahead. by destruct (Z.ltb_spec (curr_char e) 0); [lia|]. Qed.
Lemma holds_char c e l : holds e l -> holds (set_char c e) l.
Proof. by intros []. Qed.
Lemma at_recover_ok M r e : Inv M recover r e -> next_ok M recover r e (at_recover h tbl r e).
Proof.
  intros (l & ts & C & Hs & [Hf Hfe] & He & HM). pose proof C as [Ch Cl Cd Ca Cc].
  pose proof (v_bounds A G start V) as B. pose proof (bd_term G B) as Bt. pose proof (holds_range _ _ _ _ Ch) as (Hb & _).
  unfold at_recover. destruct (Z.ltb_spec (errflag r) 3) as [Hf3|Hf3].
  - assert (exists q, pot G (stack_weight G l) q e (errflag r) - 2 <= M) as [q Hq] by (destruct HM as [[_ ?]|(_ & _ & ?)]; [done|exists (top_state l); lia]). clear HM.
    rewrite Hs. destruct (discard_states_ok e (S (Z.to_nat (b + Z.of_nat (length l)))) l Ch Cl) as (o & -> & Ho); [lia|].
    cbn [rbind]. destruct o as [[sp' n2]|]; [|done]. destruct Ho as (l1 & l2 & -> & -> & Hn2 & Ht).
    destruct (derives_stack _ _ _ _ Cd) as (ts1 & ts2 & -> & D1 & _). cbn [next_ok ParseRun.Inv sp errflag]. split.
    + exists l1, (ts1 ++ ts2), (T ERRCODE). split; [|split; [done|split; [by split; [lia|]|split; [done|]]]].
      * split; [by eapply holds_app_l|by eapply legal_app_l|done| |done|done]. apply d_error; [done|]. by apply derives_skips.
      * pose proof (bd_rank G B (get (a_table A) n2)). pose proof (bd_rank G B q).
        pose proof (stack_weight_nonneg A G start V l2). rewrite stack_weight_app in Hq. simpl weight.
        unfold pot in *. unfold flag_cost in *. nia.
    + unfold size. cbn [errflag]. destruct (Z.ltb_spec (errflag r) 3); [|lia]. destruct (0 <=? curr_char e); simpl; lia.
  - destruct HM as [[? _]|(Hst & Hc & HM)]; [lia|]. destruct (Z.eqb_spec (curr_char e) 0) as [H0|H0]; [done|]. cbn [next_ok ParseRun.Inv]. split.
    + exists l, (ts ++ ahead e). split; [|split; [by split|]].
      * split; [by apply holds_char|done|by apply derives_skips|by rewrite app_nil_r|by left].
      * unfold pot in *. cbn [set_char curr_char]. destruct (Z.ltb_spec (curr_char e) 0); [lia|].
        destruct (Z.ltb_spec (-1) 0); [|lia]. unfold char_cost, flag_cost in *. pose proof (bd_rank G B 0). lia.
    + unfold size. cbn [set_char curr_char]. destruct (Z.ltb_spec (errflag r) 3); [lia|]. simpl. lia.
Qed.
Lemma at_shift_ok M n2 r e : Inv M (shift n2) r e -> next_ok M (shift n2) r e (code_at h tbl (shift n2) r e).
Proof.
  intros (l & ts & C & At & Hc & Hn2 & Ht & HM). pose proof C as [Ch Cl Cd Ca Cc]. pose proof (at_flag _ _ _ _ At) as [Hf He].
  pose proof (v_bounds A G start V) as B. pose proof (bd_term G B) as Bt. cbn [code_at next_ok ParseRun.Inv sp errflag]. split; [|by vm_compute; lia].
  exists l, (ts ++ ahead e), (T (curr_char e)). split; [|split; [apply At|split; [|split; [done|]]]].
  - split; [by apply holds_char|done|done| |by rewrite app_nil_r|by left]. rewrite ahead_some by done. by apply d_token.
  - destruct (Z.gtb_spec (errflag r) 0); split; try lia; intros; apply He; lia.
  - pose proof (bd_rank G B (get (a_table A) n2)). pose proof (bd_rank G B (top_state l)). unfold pot in *. cbn [set_char curr_char].
    destruct (Z.ltb_spec (curr_char e) 0); [lia|]. destruct (Z.ltb_spec (-1) 0); [|lia]. simpl weight.
    unfold char_cost, flag_cost in *. destruct (Z.gtb_spec (errflag r) 0); nia.
Qed.
Lemma at_shift_recover_ok M n2 r e : Inv M (shift_recover n2) r e -> next_ok M (shift_recover n2) r e (at_shift_recover h tbl n2 r e).
Proof.
  intros (l & ts & X & P & Hs & Hf & Hn2 & HM). pose proof (pd_holds _ _ _ _ _ _ _ _ _ _ _ _ P) as Ch. pose proof (pd_trans _ _ _ _ _ _ _ _ _ _ _ _ P) as Ht.
  pose proof (holds_range _ _ _ _ Ch) as (Hb & Hlen & Hsz). pose proof (trans_ok_range _ _ _ _ _ Ht) as Hq.
  pose proof (sh_states A (v_shape A G start V)) as Hns. unfold at_shift_recover. rewrite short_table by done. cbn [rbind]. cbv zeta. cbn [sp].
  rewrite Hs, Hsz, (u32_small (_ + 1)) by (unfold is_u32; lia). destruct (Z.ltb_spec (b + Z.of_nat (length l) + 1) (stacksize e)) as [Hr|Hr].
  - cbn [next_ok ParseRun.Inv state sp errflag]. split; [exists l, ts, X; do 4 (split; [done|]); lia|].
    unfold size. cbn [errflag]. destruct (0 <=? curr_char e), (errflag r <? 3); simpl; lia.
  - cbn [next_ok ParseRun.Post]. exists l, ts, X. rewrite restore_save by (simpl; destruct Hf; lia).
    rewrite saved_flag, saved_state by (done || (simpl; lia)). cbn [state sp errflag]. split; [by apply pending_save|]. done.
Qed.
Lemma at_push_ok M r e : Inv M push r e -> next_ok M push r e (at_push r e).
Proof.
  intros (l & ts & X & P & Hs & Hr & Hf & HM). pose proof P as [Ch Cl Ht Cd Ca Cc]. pose proof (holds_range _ _ _ _ Ch) as (Hb & Hlen & _).
  pose proof (trans_ok_range _ _ _ _ _ Ht) as Hq. pose proof (sh_states A (v_shape A G start V)) as Hns. unfold at_push.
  rewrite (set_slot_ok (s_stack e)) by (rewrite (hs_len_s _ _ _ _ Ch); lia). cbn [rbind].
  rewrite (set_slot_ok (v_stack e)) by (rewrite (hs_len_v _ _ _ _ Ch); lia). cbn [rbind].
  rewrite (set_slot_ok (symb_start_stack e)) by (rewrite (hs_len_st _ _ _ _ Ch); lia). cbn [rbind].
  rewrite (set_slot_ok (symb_end_stack e)) by (rewrite (hs_len_en _ _ _ _ Ch); lia). cbn [rbind].
  rewrite wrap31_word by lia. cbn [next_ok ParseRun.Inv]. set (it := mkItem X (state r) (lval e, symb_start e, symb_end e)).
  split; [|unfold size; cbn [set_stacks curr_char]; destruct (0 <=? curr_char e), (errflag r <? 3); simpl; lia].
  exists (l ++ [it]), ts. split; [|split].
  - split; [exact (holds_snoc _ _ _ _ it _ Ch Hs Hr)|by constructor|by rewrite !map_app|done|done].
  - split; [by rewrite top_state_snoc|rewrite length_app; simpl; lia|done].
  - rewrite top_state_snoc, stack_weight_app, stack_weight_one. exact HM.
Qed.
Lemma goto_ok q m : 0 <= q < 2 ^ 15 -> 0 <= m < Z.of_nat (length (a_gindex A)) ->
  (let* n1 := Short h (gindex tbl) m in
   let* ok := entry_ok h tbl n1 q in
   if ok then Short h (table tbl) (s32 (n1 + q)) else Short h (dgoto tbl) m) = Ok (goto A q m).
Proof.
  intros Hq Hm. pose proof (v_shape A G start V) as Sh. rewrite (Short_ok h _ (a_gindex A)) by (done || apply E). cbn [rbind].
  destruct (entry_ok_eq (get (a_gindex A) m) q) as [-> ->]; [eapply get_short; [apply E|done]|lia|]. cbn [rbind]. unfold goto.
  destruct (entry _ _ _) as [q'|] eqn:Ee.
  - destruct (entry_some _ _ _ Ee) as [Hn2 ->]. by apply short_table.
  - apply Short_ok; [apply E|]. by rewrite (sh_dgoto A Sh).
Qed.
Lemma reducing_save r e l1 l2 n ts : reducing e r l1 l2 n ts -> reducing (SAVE r e) r l1 l2 n ts.
Proof. intros [H1 H2 H3 H4 H5 H6 H7 H8]. split; try done. by apply cfg_save. Qed.
Lemma at_reduce_ok M n r e : Inv M (reduce n) r e -> next_ok M (reduce n) r e (at_reduce h tbl n r e).
Proof.
  intros (l & ts & C & At & Hr & HM). pose proof C as [Ch Cl Cd Ca Cc]. pose proof (v_shape A G start V) as Sh.
  destruct (reduce_reducible A G start V l n Cl Hr) as (l1 & l2 & -> & R). pose proof R as [Rn Rr Rl Rm Rg Rw _].
  pose proof (sh_rules A Sh) as Hnr. unfold nrules in Rn, Hnr. pose proof (holds_range _ _ _ _ Ch) as (Hb & Hlen & Hsz).
  rewrite length_app in Hlen. pose proof (holds_app_l _ _ _ _ _ Ch) as Ch1. destruct (legal_state l1 (legal_app_l _ _ _ _ Cl)) as [Hq1 Hq1'].
  unfold at_reduce. rewrite (Short_ok h _ (a_len A)) by (done || apply E). cbn [rbind]. cbv zeta. cbn [set_rule s_stack stacksize].
  rewrite (Short_ok h (lhs tbl) (a_lhs A)) by (rewrite ?(sh_lhs A Sh); done || apply E). cbn [rbind].
  rewrite (at_sp _ _ _ _ At), Rl, length_app, sub_add_word by lia.
  replace (b + Z.of_nat (length l1 + length l2) - Z.of_nat (length l2) + 1) with (b + Z.of_nat (length l1) + 1) by lia.
  rewrite (u32_small (_ + 1 - 1)) by (unfold is_u32; lia). rewrite Z.add_simpl_r, (holds_top _ _ _ _ Ch1). cbn [rbind].
  pose proof (goto_ok (top_state l1) (get (a_lhs A) n)) as Hg. destruct (Short h (gindex tbl) _) as [n1| | |]; try (by discriminate Hg; lia).
  cbn [rbind] in *. destruct (entry_ok h tbl n1 _) as [ok| | |]; try (by discriminate Hg; lia). cbn [rbind] in *. rewrite Hg by lia. cbn [rbind].
  set (e' := set_rule _ _ _ e). set (r' := mkRegs _ _ _). assert (reducing e' r' l1 l2 n ts) as Rd.
  { subst e'. split; cbn; try done; [|apply At|rewrite wrap31_word by lia; rewrite length_app; lia|apply wrap31_word; lia|apply wrap31_word; lia].
    split; try done. by destruct Ch. }
  assert (pot G (stack_weight G l1 + weight G (N (get (a_lhs A) n))) (state r') e' (errflag r') + 2 <= M) as HM'.
  { rewrite stack_weight_app in HM. unfold pot in *. cbn [curr_char e' r' set_rule state errflag]. lia. }
  change (pot G (stack_weight G (l1 ++ l2)) (top_state (l1 ++ l2)) e' (errflag r') <= M) in HM.
  rewrite Hsz. change (stacksize e) with (stacksize e'). destruct (Z.ltb_spec (b + Z.of_nat (length l1) + 1) (stacksize e')).
  - cbn [next_ok ParseRun.Inv]. split; [exists l1, l2, n, ts; split; [done|]; split; [done|]; split; lia|simpl; lia].
  - cbn [next_ok ParseRun.Post]. exists l1, l2, n, ts. apply trans_ok_range in Rg. pose proof (sh_states A Sh).
    rewrite restore_save by (cbn; destruct (at_flag _ _ _ _ At); lia). rewrite saved_flag, saved_state by (apply At || (cbn; lia)).
    split; [by apply reducing_save|]. by split.
Qed.
Lemma at_action_ok M r e : Inv M semantic_action r e -> next_ok M semantic_action r e (code_at h tbl semantic_action r e).
Proof.
  intros (l1 & l2 & n & ts & R & Hr & HM). cbn [code_at next_ok ParseRun.Post]. pose proof R as [Rc Rr Rs Rp Rf _ _ _].
  pose proof (rd_goto _ _ _ _ _ Rr) as Hg. rewrite <-Rs in Hg. apply trans_ok_range in Hg. pose proof (sh_states A (v_shape A G start V)).
  pose proof (holds_range _ _ _ _ (holds_app_l _ _ _ _ _ (cf_holds _ _ _ _ _ _ _ _ _ _ Rc))) as (Hb & Hl & _).
  rewrite restore_save by (destruct Rf; lia). exists l1, l2, n, ts. split; [by apply reducing_save|]. done.
Qed.
Lemma code_at_ok M lab r e : Inv M lab r e -> next_ok M lab r e (code_at h tbl lab r e).
Proof.
  destruct lab; [apply at_loop_ok|apply at_testshift_ok|apply at_recover_ok|apply at_shift_ok|apply at_shift_recover_ok|
    apply at_push_ok|apply at_reduce_ok|apply at_action_ok].
Qed.
(** A run through the labels returns. *)
Lemma run_blocks_ok M fuel : forall lab r e, Inv M lab r e -> (size lab r e <= fuel)%nat ->
  exists o e', run_blocks h tbl fuel lab r e = Ok (o, e') /\ Post M o e'.
Proof.
  induction fuel as [|fuel IH]; intros lab r e I Hs.
  - exfalso. unfold size in Hs. destruct lab; try lia; destruct (errflag r <? 3), (0 <=? curr_char e); simpl in Hs; lia.
  - cbn [run_blocks]. pose proof (code_at_ok M lab r e I) as H. destruct (code_at h tbl lab r e) as [[lab' r' e'|o e']| | |]; try done.
    + destruct H as [I' Hs']. cbn [rbind]. apply IH; [done|lia].
    + cbn [rbind]. by eexists _, _.
Qed.
(** ** The answers of the program *)

(** The value [t] that the lexer returned is the token [c] with the value [v]. *)
Definition token_of (t : value) (c : Z) (v : value) : Prop :=
  (Is_block t = true /\ exists k, Tag_val h t = Ok k /\ 0 <= k /\ a_block A !! Z.to_nat k = Some c /\ Field h t 0 = Ok v) \/
  (exists i, t = Val_long i /\ 0 <= i <= Max_long /\ a_const A !! Z.to_nat i = Some c /\ v = Val_long 0).
Lemma ints_field v l i c : ints h v l -> 0 <= i -> l !! Z.to_nat i = Some c -> Field h v i = Ok (Val_long c).
Proof.
  intros (k & t & -> & Hk) Hi Hc. unfold Field. simpl. rewrite Hk. cbn [of_ptr rbind data]. destruct (Z.ltb_spec i 0); [lia|].
  by rewrite list_lookup_fmap, Hc.
Qed.
Lemma read_token_ok t c v e : token_of t c v ->
  read_token h tbl t e = Ok (set_lval v (set_char c e)) /\ mem c (tokens G) = true /\ 0 <= c.
Proof.
  intros Ht. assert (mem c (tokens G) = true) as Hm.
  { destruct Ht as [(_ & k & _ & _ & Hk & _)|(i & _ & _ & Hi & _)]; eapply (v_const A G start V); [by right|by left]. }
  pose proof (v_token A G start V c Hm) as Hc. assert (Long_val (Val_long c) = Ok c) as Ec.
  { rewrite Long_Val_long. f_equal. apply wrap31_small. unfold is_long, Min_long, Max_long. lia. }
  split; [|split; [done|lia]]. unfold read_token. destruct Ht as [(-> & k & -> & Hk0 & Hk & Hv)|(i & -> & Hi & Hc' & ->)].
  - cbn [rbind]. rewrite (ints_field _ _ _ _ (e_block _ _ _ E) Hk0 Hk). cbn [rbind]. rewrite Ec. cbn [rbind]. by rewrite Hv.
  - unfold Is_block. rewrite Is_long_Val_long. cbn [negb]. rewrite Long_Val_long, wrap31_small by (unfold is_long, Min_long in *; lia).
    cbn [rbind]. rewrite (ints_field _ _ _ _ (e_const _ _ _ E) (proj1 Hi) Hc'). cbn [rbind]. by rewrite Ec.
Qed.
(** The arguments of an action are those of the items that are reduced. *)
Lemma peek_all_ok e l2 : forall l1, holds e (l1 ++ l2) -> peek_all e (b + Z.of_nat (length l1) + 1) (length l2) = Ok (map i_attr l2).
Proof.
  induction l2 as [|it l2 IH]; intros l1 H; [done|]. cbn [length peek_all]. pose proof (holds_range _ _ _ _ H) as (Hb & _).
  assert ((l1 ++ it :: l2) !! length l1 = Some it) as Hi by (by rewrite lookup_app_r, Nat.sub_diag).
  unfold peek. destruct (Z.ltb_spec (b + Z.of_nat (length l1) + 1) 0); [lia|].
  replace (b + Z.of_nat (length l1) + 1) with (b + 1 + Z.of_nat (length l1)) by lia.
  rewrite (seg_slot _ _ _ _ (i_val it) (hs_v _ _ _ _ H)) by (by rewrite list_lookup_fmap, Hi). cbn [rbind].
  rewrite (seg_slot _ _ _ _ (i_start it) (hs_st _ _ _ _ H)) by (by rewrite list_lookup_fmap, Hi). cbn [rbind].
  replace (b + 1 + Z.of_nat (length l1)) with (b + Z.of_nat (S (length l1))) by lia.
  rewrite (seg_slot _ _ _ _ (i_end it) (hs_en _ _ _ _ H)) by (change (map i_end (l1 ++ it :: l2) !! length l1 = Some (i_end it)); by rewrite list_lookup_fmap, Hi). cbn [rbind].
  specialize (IH (l1 ++ [it])). rewrite <-app_assoc, length_app in IH. simpl length in IH.
  replace (b + Z.of_nat (S (length l1)) + 1) with (b + Z.of_nat (length l1 + 1) + 1) by lia. rewrite (IH H). simpl.
  unfold i_val, i_start, i_end. by destruct (i_attr it) as [[??]?].
Qed.
Lemma run_action_ok e r l1 l2 n ts w : reducing e r l1 l2 n ts ->
  run_action cl e w = Ok (actions cl n (map i_attr l2) (end_of (end_of p0 (map i_attr l1)) (map i_attr l2)) w).
Proof.
  intros [Rc _ _ _ _ Ra Rl Rn]. pose proof (cf_holds _ _ _ _ _ _ _ _ _ _ Rc) as H. pose proof (holds_range _ _ _ _ H) as (Hb & _).
  unfold run_action. rewrite Ra, Rl, Rn, length_app, Nat2Z.id.
  replace (b + Z.of_nat (length l1 + length l2) - Z.of_nat (length l2) + 1) with (b + Z.of_nat (length l1) + 1) by lia.
  rewrite (peek_all_ok e l2 l1 H). cbn [rbind]. unfold symbol_end. rewrite Ra. destruct (Z.ltb_spec (b + Z.of_nat (length (l1 ++ l2))) 0); [lia|].
  rewrite (holds_end _ _ _ _ H). cbn [rbind]. by rewrite map_app, end_of_app.
Qed.
(** The left-hand side of a rule replaces its right-hand side. *)
Lemma holds_reduced e l1 l2 X q v :
  holds e (l1 ++ l2) -> b + Z.of_nat (length l1) + 1 < stacksize e -> 0 <= q < 2 ^ 15 -> e_asp e = b + Z.of_nat (length (l1 ++ l2)) ->
  let p := end_of p0 (map i_attr l1) in
  let it := mkItem X q (v, start_of p (map i_attr l2), end_of p (map i_attr l2)) in
  forall r, state r = q -> sp r = b + Z.of_nat (length l1) + 1 -> exists s v' st en,
    store_result v r e = Ok (set_stacks s v' st en e) /\ holds (set_stacks s v' st en e) (l1 ++ [it]).
Proof.
  intros H Hr Hq Ha p it r Hrs Hsp. pose proof (holds_range _ _ _ _ H) as (Hb & Hl & _). pose proof (holds_app_l _ _ _ _ _ H) as H1.
  pose proof (holds_snoc b p0 e l1 it _ H1 eq_refl Hr) as Hput. unfold store_result. rewrite Hrs, Hsp, wrap31_word by lia.
  rewrite (set_slot_ok (s_stack e)) by (rewrite (hs_len_s _ _ _ _ H); lia). cbn [rbind].
  rewrite (set_slot_ok (v_stack e)) by (rewrite (hs_len_v _ _ _ _ H); lia). cbn [rbind].
  rewrite Ha, (u32_small (b + _)) by (unfold is_u32; lia). rewrite (holds_end _ _ _ _ H), map_app, end_of_app. cbn [rbind]. fold p.
  rewrite (set_slot_ok (symb_end_stack e)) by (rewrite (hs_len_en _ _ _ _ H); lia). cbn [rbind]. rewrite length_app.
  destruct l2 as [|it0 l2].
  - rewrite Z.gtb_ltb. destruct (Z.ltb_spec (b + Z.of_nat (length l1 + length (@nil item))) (b + Z.of_nat (length l1) + 1)); [|simpl in *; lia].
    cbn [length]. rewrite Nat.add_0_r. unfold slot. rewrite list_lookup_insert_ne by lia. fold (slot (symb_end_stack e) (b + Z.of_nat (length l1))).
    rewrite (holds_end _ _ _ _ H1). cbn [rbind]. rewrite set_slot_ok by (rewrite (hs_len_st _ _ _ _ H); lia). cbn [rbind].
    eexists _, _, _, _. split; [reflexivity|]. exact Hput.
  - rewrite Z.gtb_ltb. destruct (Z.ltb_spec (b + Z.of_nat (length l1 + length (it0 :: l2))) (b + Z.of_nat (length l1) + 1)); [simpl in *; lia|].
    eexists _, _, _, _. split; [reflexivity|]. assert (<[Z.to_nat (b + Z.of_nat (length l1) + 1) := i_start it]> (symb_start_stack e) = symb_start_stack e) as Est.
    { apply list_insert_id. destruct (hs_st _ _ _ _ H) as [_ Hs]. specialize (Hs (length l1) (i_start it0)).
      replace (Z.to_nat (b + Z.of_nat (length l1) + 1)) with (Z.to_nat (b + 1) + length l1)%nat by lia.
      replace (i_start it) with (i_start it0) by (unfold i_start, it; simpl; by destruct (i_attr it0) as [[??]?]).
      apply Hs. by rewrite list_lookup_fmap, lookup_app_r, Nat.sub_diag. }
    rewrite Est in Hput. exact Hput.
Qed.
Lemma store_result_ok M e l1 l2 n ts v w w' :
  reducing e (RESTORE e) l1 l2 n ts -> sp (RESTORE e) < stacksize e ->
  pot G (stack_weight G l1 + weight G (N (get (a_lhs A) n))) (state (RESTORE e)) e (errflag (RESTORE e)) + 1 <= M ->
  actions cl n (map i_attr l2) (end_of (end_of p0 (map i_attr l1)) (map i_attr l2)) w = (inl v, w') ->
  exists e', store_result v (RESTORE e) e = Ok e' /\ Inv (M - 1) loop (RESTORE e) e'.
Proof.
  intros R Hr HM Ha. pose proof R as [C Rr Rs Rp Rf Ras _ _]. pose proof C as [Ch Cl Cd Ca Cc]. pose proof (rd_goto _ _ _ _ _ Rr) as Hg.
  pose proof (trans_ok_range _ _ _ _ _ Hg) as Hq. pose proof (sh_states A (v_shape A G start V)) as Hns. rewrite <-Rs in Hg, Hq.
  destruct (holds_reduced e l1 l2 (N (get (a_lhs A) n)) (state (RESTORE e)) v Ch) with (r := RESTORE e) as (s & v' & st & en & -> & Hh); try done; try lia.
  set (it := mkItem _ _ _) in Hh. eexists. split; [done|]. destruct (derives_stack _ _ _ _ Cd) as (ts1 & ts2 & -> & D1 & D2).
  exists (l1 ++ [it]), (ts1 ++ ts2). split; [|split].
  - split; [done| | |done|done]. { constructor; [by eapply legal_app_l|done]. }
    rewrite !map_app. simpl map. rewrite (rd_rhs _ _ _ _ _ Rr) in D2. by eapply d_rule.
  - split; [by rewrite top_state_snoc|rewrite length_app; simpl in *; lia|done].
  - rewrite top_state_snoc, stack_weight_app, stack_weight_one. unfold pot in *. simpl in *. lia.
Qed.
(** When the action of a rule fails, the recovery begins at the first symbol of its right-hand side. *)
Lemma failed_action_ok M e l1 l2 n ts : err -> reducing e (RESTORE e) l1 l2 n ts -> l2 <> [] -> errflag (RESTORE e) < 3 ->
  pot G (stack_weight G (l1 ++ l2)) (top_state (l1 ++ l2)) e (errflag (RESTORE e)) - 1 <= M -> Inv (M - 1) recover (RESTORE e) e.
Proof.
  intros He [[Ch Cl Cd Ca Cc] _ _ Rp Rf _ _ _] Hne Hf HM. destruct l2 as [|it l2]; [done|]. change (it :: l2) with ([it] ++ l2) in *. rewrite app_assoc in Ch, Cl, Cd, HM.
  destruct (derives_stack _ _ _ _ Cd) as (ts1 & ts2 & -> & D1 & _). exists (l1 ++ [it]), (ts1 ++ ts2). split; [|split; [|split; [done|split; [done|]]]].
  - split; [by eapply holds_app_l|by eapply legal_app_l|by apply derives_skips|done|done].
  - rewrite length_app. simpl length. lia.
  - left. split; [done|]. exists (top_state ((l1 ++ [it]) ++ l2)). pose proof (stack_weight_nonneg A G start V l2). rewrite stack_weight_app in HM. unfold pot in *. lia.
Qed.
Lemma size_le lab r e : (size lab r e <= 15)%nat.
Proof. unfold size. destruct lab; try lia; destruct (errflag r <? 3), (0 <=? curr_char e); simpl; lia. Qed.
End steps.
