(* ===== verification/ParseLaws.v ===== *)
(** * What a parser computes

    [ParserClient] is what the parsing engine expects of the rest of the program.  [yyparse_parses]: with tables that pass
    [validates], a parse ends, within a number of steps linear in the number of tokens; its result is the value of a
    derivation of the tokens read, and without errors no token is missing; actions may raise [Parse_error].  At the end a grammar of sums, and the two
    situations in which the engine does not recover from that ([derails]). *)
From stdpp Require Import gmap list.
From S2P Require Import Prelude Mlvalues Lexing Parsing ParseTables ParseStack ParseRun ParseSteps.

#[export] Instance parse_exn_eq_dec : EqDecision parse_exn.
Proof. solve_decision. Defined.
#[export] Instance parser_output_eq_dec : EqDecision parser_output.
Proof. solve_decision. Defined.

(** What happens during a parse: a token is read, the error function is called, an action raises [Parse_error]. *)
Inductive event := Read (t : token) | Error_called | Action_failed.
Definition reads (l : list event) : list token := omap (fun ev => match ev with Read t => Some t | _ => None end) l.
(** The parse has met an error. *)
Definition failed (trace : list event) : Prop := Error_called ∈ trace \/ Action_failed ∈ trace.

(** The promises of the lexer, the actions and the error function.  [log] is the history of the events, [left] bounds the
    tokens to come.  The tables stay in the heap; [YYexit] ends the parse at a final rule.  An
    action may raise any exception, [Parse_error] among them. *)
Class ParserClient {W : Type} (cl : client W) (tbl : parser_tables) (A : lr) (G : grammar) := {
  good : W -> Prop;
  log : W -> list event;
  left : W -> nat;
  good_tables w : good w -> encodes (heap cl w) tbl A;
  lexer_reads w t s en w' : good w -> lexer cl w = (inl (t, s, en), w') -> good w' /\ (left w' < left w)%nat /\
    exists c v, token_of A (heap cl w') t c v /\ log w' = log w ++ [Read (c, (v, s, en))];
  lexer_raises w x w' : good w -> lexer cl w = (inr x, w') -> log w' = log w /\ exists v, x = Other_exn v;
  action_ends n ws p w r w' : good w -> actions cl n ws p w = (r, w') -> good w' /\ (left w' <= left w)%nat /\
    log w' = log w ++ match r with inr Parse_error => [Action_failed] | _ => [] end /\ match r with inr (YYexit _) => mem n (final G) = true | _ => True end;
  error_ends w r w' : good w -> error_function cl w = (r, w') -> good w' /\ (left w' <= left w)%nat /\
    log w' = log w ++ [Error_called] /\ match r with Some (YYexit _) => False | _ => True end }.
Arguments good {W} {cl tbl A G} _ _. Arguments log {W} {cl tbl A G} _ _. Arguments left {W} {cl tbl A G} _ _.

Section loop.
Context {W : Type} (cl : client W) (tbl : parser_tables) (A : lr) (G : grammar) (start : Z) (V : validates A G start = true).
Context (C : ParserClient cl tbl A G) (b p0 : Z) (t0 : token) (log0 : list event).

Abbreviation Inv_at trace := (Inv cl A G b p0 (failed trace) (t0 :: reads trace)).
Abbreviation Post_at trace := (Post cl A G b p0 (failed trace) (t0 :: reads trace)).

(** The input of the parse derives the right-hand side of a final rule, whose action gave [v]; at most one token
    behind it was read. *)
Definition accepted (trace : list event) (v : value) : Prop :=
  exists n ts us ws w w', mem n (final G) = true /\ derives cl A G (failed trace) p0 (rhs_of G n) ts ws /\
    actions cl n ws (end_of p0 ws) w = (inr (YYexit v), w') /\ t0 :: reads trace = ts ++ us /\ (length us <= 1)%nat.
Definition finished (trace : list event) (x : parse_exn) : Prop :=
  match x with YYexit v => accepted trace v | Parse_error => failed trace | _ => True end.
(** A call of the engine can be made. *)
Definition ready (cmd : parser_input) (arg : value) (e : parser_env) (w : W) (trace : list event) (M : Z) : Prop :=
  exists lab r e', entry_point (heap cl w) tbl cmd arg e = Ok (lab, r, e') /\ Inv_at trace M lab r e'.

Lemma failed_app trace l : failed trace -> failed (trace ++ l).
Proof. unfold failed. set_solver. Qed.
Lemma reads_app l1 l2 : reads (l1 ++ l2) = reads l1 ++ reads l2.
Proof. apply omap_app. Qed.
Lemma cfg_weaken (err err' : Prop) all e l ts : (err -> err') -> cfg cl A G b p0 err all e l ts -> cfg cl A G b p0 err' all e l ts.
Proof. intros He [H1 H2 H3 H4 H5]. split; try done. by eapply derives_weaken. Qed.
Lemma at_weaken (err err' : Prop) r l : (err -> err') -> at_stack b err r l -> at_stack b err' r l.
Proof. intros He [H1 H2 [H3 H4]]. split; try done. split; [done|]. auto. Qed.
Lemma costs : 0 <= flag_cost G /\ flag_cost G + 1 <= char_cost G.
Proof. pose proof (v_bounds A G start V) as B. pose proof (bd_term G B). pose proof (bd_rank G B 0). unfold char_cost, flag_cost. lia. Qed.
Lemma pot_nonneg w q e f : 0 <= w -> 0 <= f <= 3 -> 0 <= pot G w q e f /\ (0 <= curr_char e -> 1 <= pot G w q e f).
Proof.
  intros Hw Hf. pose proof costs as [H1 H2]. pose proof (v_bounds A G start V) as B. pose proof (bd_rank G B q). unfold pot.
  assert (0 <= flag_cost G * (3 - f)) by nia. destruct (Z.ltb_spec (curr_char e) 0); split; intros; lia.
Qed.
(** The work that is left is not negative. *)
Lemma Inv_nonneg err all M lab r e : Inv cl A G b p0 err all M lab r e -> 0 <= M.
Proof.
  pose proof (stack_weight_nonneg A G start V) as Sw. pose proof (bd_weight G (v_bounds A G start V)) as Bw.
  destruct lab; intros I; cbn [Inv] in I.
  - destruct I as (l & ts & _ & At & HM). destruct (pot_nonneg (stack_weight G l) (top_state l) e (errflag r)); [done|apply At|lia].
  - destruct I as (l & ts & _ & At & _ & _ & HM). destruct (pot_nonneg (stack_weight G l) (top_state l) e (errflag r)); [done|apply At|lia].
  - destruct I as (l & ts & _ & _ & [Hf _] & _ & [[Hf3 (q & HM)]|(_ & Hc & HM)]).
    + pose proof costs as [Hc _]. pose proof (v_bounds A G start V) as B. pose proof (bd_term G B). pose proof (bd_rank G B q). specialize (Sw l). unfold pot, flag_cost in *. destruct (curr_char e <? 0); unfold char_cost, flag_cost in *; nia.
    + destruct (pot_nonneg (stack_weight G l) (top_state l) e (errflag r)); [done|done|lia].
  - destruct I as (l & ts & _ & At & _ & _ & _ & HM). destruct (pot_nonneg (stack_weight G l) (top_state l) e (errflag r)); [done|apply At|lia].
  - destruct I as (l & ts & X & _ & _ & Hf & _ & HM). specialize (Sw l). specialize (Bw X).
    destruct (pot_nonneg (stack_weight G l + weight G X) (get (a_table A) n2) e (errflag r)); [lia|apply Hf|lia].
  - destruct I as (l & ts & X & _ & _ & _ & Hf & HM). specialize (Sw l). specialize (Bw X).
    destruct (pot_nonneg (stack_weight G l + weight G X) (state r) e (errflag r)); [lia|apply Hf|lia].
  - destruct I as (l & ts & _ & At & _ & HM). destruct (pot_nonneg (stack_weight G l) (top_state l) e (errflag r)); [done|apply At|lia].
  - destruct I as (l1 & l2 & n & ts & R & _ & HM & _). specialize (Sw l1). specialize (Bw (N (get (a_lhs A) n))).
    destruct (pot_nonneg (stack_weight G l1 + weight G (N (get (a_lhs A) n))) (state r) e (errflag r)); [lia|apply R|lia].
Qed.
Lemma parse_engine_ok cmd arg e w trace M : good C w -> ready cmd arg e w trace M ->
  exists o e', parse_engine (heap cl w) tbl cmd arg e = Ok (o, e') /\ Post_at trace M o e'.
Proof.
  intros Hg (lab & r & e1 & He & I). unfold parse_engine. rewrite He. cbn [rbind].
  apply (run_blocks_ok cl tbl A G start V b p0 _ _ _ (good_tables w Hg) M 16 lab r e1 I). pose proof (size_le lab r e1). lia.
Qed.

(** ** After each return, the engine can be called again *)

Lemma ready_token trace M e w w' t s en : good C w -> lexer cl w = (inl (t, s, en), w') -> Post_at trace M READ_TOKEN e ->
  log C w = log0 ++ trace ->
  exists ev, log C w' = log0 ++ (trace ++ [ev]) /\ ready TOKEN_READ t (set_symb s en e) w' (trace ++ [ev]) (M + char_cost G).
Proof.
  intros Hg Hl (l & ts & Cf & At & Hc & Hd & HM) Hlog. destruct (lexer_reads w t s en w' Hg Hl) as (Hg' & _ & c & v & Ht & El).
  exists (Read (c, (v, s, en))). split; [by rewrite El, Hlog, app_assoc|].
  destruct (read_token_ok tbl A G start V (heap cl w') (good_tables w' Hg') t c v (set_symb s en e) Ht) as (Er & Hm & H0).
  eexists _, _, _. split; [unfold entry_point; rewrite Er; reflexivity|]. exists l, ts. destruct Cf as [Ch Cl Cd Ca Cc].
  assert (failed trace -> failed (trace ++ [Read (c, (v, s, en))])) as Hw by apply failed_app.
  split; [split; try done; [by destruct Ch|by eapply derives_weaken| |by right]|].
  - unfold ahead in Ca. rewrite Hc in Ca. simpl in Ca. rewrite app_nil_r in Ca. rewrite reads_app, app_comm_cons, Ca.
    unfold ahead. simpl. by destruct (Z.ltb_spec c 0); [lia|].
  - split; [by eapply at_weaken|]. split; [done|]. split; [done|]. pose proof costs. unfold pot in *. simpl in *. rewrite Hc in HM.
    simpl in HM. destruct (Z.ltb_spec c 0); lia.
Qed.
Lemma ready_error trace M e w w' r : good C w -> error_function cl w = (r, w') -> Post_at trace M CALL_ERROR_FUNCTION e ->
  log C w = log0 ++ trace ->
  log C w' = log0 ++ (trace ++ [Error_called]) /\ ready ERROR_DETECTED Val_unit e w' (trace ++ [Error_called]) (M - 1).
Proof.
  intros Hg Hr (l & ts & Cf & At & Hc & HM) Hlog. destruct (error_ends w r w' Hg Hr) as (_ & _ & El & _).
  split; [by rewrite El, Hlog, app_assoc|]. eexists _, _, _. split; [reflexivity|].
  exists l, ts. rewrite reads_app. simpl reads. rewrite app_nil_r.
  split; [eapply cfg_weaken; [apply failed_app|done]|]. destruct (at_weaken _ (failed (trace ++ [Error_called])) _ _ (failed_app _ _) At) as [A1 A2 A3].
  split; [done|]. split; [done|]. split; [unfold failed; set_solver|]. right. split; [done|]. split; [done|]. simpl. lia.
Qed.
Lemma ready_grown_1 trace M e e' w : grow_stacks e = Some e' -> Post_at trace M GROW_STACKS_1 e -> ready STACKS_GROWN_1 Val_unit e' w trace (M - 1).
Proof.
  intros Hg (l & ts & X & [Ph Pl Pt Pd Pa Pc] & Hs & Hf & HM). destruct (holds_grow _ _ _ _ _ Ph Hg) as [Ph' Hr].
  unfold grow_stacks in Hg. destruct (_ >? _); [done|]. injection Hg as <-. eexists _, _, _. split; [reflexivity|].
  exists l, ts, X. split; [by split|]. simpl in *. split; [done|]. split; [lia|]. split; [done|]. unfold pot in *. simpl in *. lia.
Qed.
Lemma ready_grown_2 trace M e e' w : grow_stacks e = Some e' -> Post_at trace M GROW_STACKS_2 e -> ready STACKS_GROWN_2 Val_unit e' w trace (M - 1).
Proof.
  intros Hg (l1 & l2 & n & ts & [[Ch Cl Cd Ca Cc] Rr Rs Rp Rf Ra Rl Rn] & HM & HM'). destruct (holds_grow _ _ _ _ _ Ch Hg) as [Ch' Hr].
  pose proof (holds_grow _ _ _ _ _ (holds_app_l _ _ _ _ _ Ch) Hg) as [_ Hr1].
  unfold grow_stacks in Hg. destruct (_ >? _); [done|]. injection Hg as <-. eexists _, _, _. split; [reflexivity|].
  exists l1, l2, n, ts. split; [split; [by split|done..]|]. simpl in *. split; [lia|]. unfold pot in *. simpl in *. split; lia.
Qed.
Lemma ready_computed trace M e w w' : good C w' -> Post_at trace M COMPUTE_SEMANTIC_ACTION e ->
  forall r, run_action cl e w = Ok (r, w') ->
  match r with
  | inl v => ready SEMANTIC_ACTION_COMPUTED v e w' trace (M - 1)
  | inr x => exists n ws p, actions cl n ws p w = (inr x, w') /\ (mem n (final G) = true -> forall v, x = YYexit v -> accepted trace v)
  end.
Proof.
  intros Hg' (l1 & l2 & n & ts & R & Hr & HM & _) r Ha. rewrite (run_action_ok cl A G b p0 _ _ _ _ _ _ _ _ w R) in Ha. injection Ha as Ha.
  destruct r as [v|x].
  - destruct (store_result_ok cl A G start V b p0 _ _ M e l1 l2 n ts v w w' R Hr HM Ha) as (e' & He & I).
    eexists _, _, _. split; [unfold entry_point; rewrite He; reflexivity|]. exact I.
  - eexists _, _, _. split; [exact Ha|]. intros Hf v ->. destruct R as [[Ch Cl Cd Ca Cc] Rr _ _ _ _ _ _].
    pose proof (rd_final _ _ _ _ _ Rr Hf) as E1. subst l1. pose proof (rd_rhs _ _ _ _ _ Rr) as Es. simpl app in Cd. rewrite Es in Cd.
    exists n, ts, (ahead e), (map i_attr l2), w, w'. split; [done|]. split; [done|]. split; [done|]. split; [done|].
    unfold ahead. destruct (_ <? 0); simpl; lia.
Qed.

Lemma ready_failed trace M e w : Post_at trace M COMPUTE_SEMANTIC_ACTION e -> e_errflag e < 3 -> rule_len e <> 0 ->
  ready ERROR_DETECTED Val_unit e w (trace ++ [Action_failed]) (M - 1).
Proof.
  intros (l1 & l2 & n & ts & [Rc Rr Rs Rp Rf Ra Rl Rn] & Hr & _ & HM) Hf Hlen. eexists _, _, _. split; [reflexivity|]. rewrite reads_app. simpl reads. rewrite app_nil_r.
  apply (failed_action_ok cl A G start V b p0 (failed (trace ++ [Action_failed])) (t0 :: reads trace) M e l1 l2 n ts); [unfold failed; set_solver| | |done|done].
  - split; try done; [by eapply cfg_weaken; [apply failed_app|]|]. destruct Rf as [Rf1 Rf2]. split; [done|]. intros ?. by apply failed_app, Rf2.
  - intros ->. simpl in Rl. lia.
Qed.

(** ** The loop of [yyparse] *)

(** The calls of [loop], and the call after another. *)
Definition call : Type := parser_input * value * parser_env * W.
Definition goes_on (s s' : call) : Prop :=
  let '(cmd, arg, e, w) := s in let '(cmd', arg', e', w') := s' in parse_turn cl tbl cmd arg e w = Ok (Again cmd' arg' e' w').
(** An action raises [Parse_error] where the recovery begins at a slot that the rule would have filled: the rule has an empty right-hand
    side, or no token was shifted since the last error. *)
Definition lost (s : call) : Prop :=
  let '(cmd, arg, e, w) := s in exists e1 w1, parse_engine (heap cl w) tbl cmd arg e = Ok (COMPUTE_SEMANTIC_ACTION, e1) /\
    run_action cl e1 w = Ok (inr Parse_error, w1) /\ (rule_len e1 = 0 \/ e_errflag e1 = 3).
Definition derails (s : call) : Prop := exists s', rtc goes_on s s' /\ lost s'.

(** Each turn uses some of the work, a token adds some. *)
Definition per_token : Z := char_cost G + 1.
Definition turn_ok (trace : list event) (M : Z) (w : W) (t : loop_turn) : Prop :=
  match t with
  | Again cmd arg e w' => exists trace' M', good C w' /\ log C w' = log0 ++ trace' /\ ready cmd arg e w' trace' M' /\
      M' + per_token * Z.of_nat (left C w') < M + per_token * Z.of_nat (left C w)
  | Raised x e w' => exists trace', log C w' = log0 ++ trace' /\ finished trace' x
  end.
Lemma action_turn trace M e w cmd arg e1 : good C w -> log C w = log0 ++ trace -> parse_engine (heap cl w) tbl cmd arg e = Ok (COMPUTE_SEMANTIC_ACTION, e1) ->
  Post_at trace M COMPUTE_SEMANTIC_ACTION e1 -> lost (cmd, arg, e, w) \/ exists t, parse_turn cl tbl cmd arg e w = Ok t /\ turn_ok trace M w t.
Proof.
  intros Hg Hlog Ee P. pose proof costs as Hc. unfold parse_turn. rewrite Ee. cbn [rbind]. pose proof P as (l1 & l2 & n & ts & R & _ & _).
  pose proof (run_action_ok cl A G b p0 _ _ _ _ _ _ _ _ w R) as Er. destruct (actions cl n _ _ w) as [r w'] eqn:Ea.
  destruct (action_ends n _ _ w r w' Hg Ea) as (Hg' & Hleft & Hl & Hx). rewrite Hlog, <-app_assoc in Hl. pose proof (ready_computed trace M e1 w w' Hg' P r Er) as Hr.
  unfold turn_ok, per_token. destruct r as [v|x]; [|destruct (decide (x = Parse_error)) as [->|Hne]].
  - right. rewrite Er. cbn [rbind]. eexists. split; [reflexivity|]. exists trace, (M - 1). rewrite app_nil_r in Hl. do 3 (split; [done|]). nia.
  - destruct (decide (rule_len e1 = 0 \/ e_errflag e1 = 3)) as [Hd|Hd]; [left; by exists e1, w'|right]. rewrite Er. cbn [rbind]. eexists. split; [reflexivity|].
    exists (trace ++ [Action_failed]), (M - 1). do 2 (split; [done|]). split; [|nia]. apply ready_failed; [done| |tauto]. pose proof (rg_flag _ _ _ _ _ _ _ _ _ _ _ _ _ R) as [Hf _]. simpl in Hf. lia.
  - right. rewrite Er. cbn [rbind]. destruct Hr as (n' & ws & p & Ha & Hacc). destruct (action_ends n' ws p w _ w' Hg Ha) as (_ & _ & _ & Hx').
    exists (Raised x e1 w'). split; [by destruct x|]. exists trace. split; [destruct x; (done || by rewrite app_nil_r in Hl)|]. destruct x; try done. by apply Hacc.
Qed.
Lemma parse_turn_ok trace M cmd arg e w : good C w -> log C w = log0 ++ trace -> ready cmd arg e w trace M ->
  lost (cmd, arg, e, w) \/ exists t, parse_turn cl tbl cmd arg e w = Ok t /\ turn_ok trace M w t.
Proof.
  intros Hg Hlog Hready. pose proof costs as Hc. destruct (parse_engine_ok cmd arg e w trace M Hg Hready) as (o & e1 & Ee & P).
  destruct (decide (o = COMPUTE_SEMANTIC_ACTION)) as [->|Ho]; [by eapply action_turn|right]. unfold parse_turn. rewrite Ee. cbn [rbind]. unfold turn_ok, per_token. destruct o; try done.
  - destruct (lexer cl w) as [[[[t s] en]|x] w'] eqn:El; (eexists; split; [reflexivity|]).
    + destruct (ready_token trace M e1 w w' t s en Hg El P Hlog) as (ev & Hlog' & R). destruct (lexer_reads w t s en w' Hg El) as (Hg' & Hleft & _).
      exists (trace ++ [ev]), (M + char_cost G). do 3 (split; [done|]). nia.
    + destruct (lexer_raises w x w' Hg El) as (Hlog' & v & ->). exists trace. split; [congruence|done].
  - eexists. split; [reflexivity|]. by exists trace.
  - destruct (grow_stacks e1) as [e2|] eqn:Eg; (eexists; split; [reflexivity|]); exists trace; [|done]. exists (M - 1). do 2 (split; [done|]). split; [by eapply ready_grown_1|lia].
  - destruct (grow_stacks e1) as [e2|] eqn:Eg; (eexists; split; [reflexivity|]); exists trace; [|done]. exists (M - 1). do 2 (split; [done|]). split; [by eapply ready_grown_2|lia].
  - destruct (error_function cl w) as [r w'] eqn:Ef. destruct (ready_error trace M e1 w w' r Hg Ef P Hlog) as [Hlog' R].
    destruct (error_ends w r w' Hg Ef) as (Hg' & Hleft & _ & Hx). destruct r as [x|]; (eexists; split; [reflexivity|]); exists (trace ++ [Error_called]).
    + split; [done|]. destruct x; try done. simpl. unfold failed. set_solver.
    + exists (M - 1). do 3 (split; [done|]). nia.
Qed.
Definition ends (res : result (parse_exn * parser_env * W)) : Prop :=
  exists x e w trace, res = Ok (x, e, w) /\ log C w = log0 ++ trace /\ finished trace x.
Lemma parse_loop_ok fuel : forall cmd arg e w trace M,
  good C w -> log C w = log0 ++ trace -> ready cmd arg e w trace M -> M + per_token * Z.of_nat (left C w) < Z.of_nat fuel ->
  ends (parse_loop cl tbl fuel cmd arg e w) \/ derails (cmd, arg, e, w).
Proof.
  induction fuel as [|fuel IH]; intros cmd arg e w trace M Hg Hlog Hready Hfuel.
  { pose proof costs. unfold per_token in *. destruct Hready as (lab & r & e' & _ & I). apply Inv_nonneg in I. nia. }
  destruct (parse_turn_ok trace M cmd arg e w Hg Hlog Hready) as [Hlost|(t & Et & Ht)]; [right; by eexists|]. cbn [parse_loop]. rewrite Et. cbn [rbind]. destruct t as [cmd' arg' e' w'|x e' w'].
  - destruct Ht as (trace' & M' & Hg' & Hlog' & R & HM). destruct (IH cmd' arg' e' w' trace' M' Hg' Hlog' R) as [He|(s & Hs & Hl)]; [lia|by left|].
    right. exists s. split; [|done]. by apply rtc_l with (cmd', arg', e', w').
  - left. destruct Ht as (trace' & Hlog' & Hf). by exists x, e', w', trace'.
Qed.
End loop.

(** ** The parser *)

(** The record of a parser before a parse: the stacks have a slot for the bottom, which holds the initial state. *)
Record fresh (e : parser_env) : Prop := {
  fr_s : Z.of_nat (length (s_stack e)) = stacksize e;
  fr_v : Z.of_nat (length (v_stack e)) = stacksize e;
  fr_st : Z.of_nat (length (symb_start_stack e)) = stacksize e;
  fr_en : Z.of_nat (length (symb_end_stack e)) = stacksize e;
  fr_size : stacksize e <= Max_wosize;
  fr_sp : 0 <= e_sp e < stacksize e;
  fr_bottom : slot (s_stack e) (e_sp e) = Ok 0 }.
(** The first token of a parse selects the entry of the grammar; its attributes are left from the last one. *)
Definition first_token (start : Z) (e : parser_env) : token := (start, (lval e, symb_start e, symb_end e)).
Definition bottom_end (e : parser_env) : Z := symb_end_stack e !!! Z.to_nat (e_sp e).
(** The turns of the loop for [n] tokens. *)
Definition work (G : grammar) (n : nat) : Z := 2 * max_rank G + char_cost G + 3 * flag_cost G + per_token G * Z.of_nat n.

Lemma seg_one b x (arr : list Z) : 0 <= b -> arr !! Z.to_nat b = Some x -> seg b [x] arr.
Proof.
  intros Hb Hx. split; [done|]. intros i y Hi. apply list_lookup_singleton_Some in Hi as [-> ->]. by rewrite Nat.add_0_r.
Qed.
Lemma start_ready {W} (cl : client W) tbl A G start (C : ParserClient cl tbl A G) e w :
  validates A G start = true -> fresh e ->
  ready cl tbl A G (e_sp e) (bottom_end e) (first_token start e) START Val_unit (set_base (e_sp e + 1) start e) w []
    (2 * max_rank G + char_cost G + 3 * flag_cost G).
Proof.
  intros V [Hs Hv Hst Hen Hsz Hsp Hb]. destruct (v_split A G start V) as (_ & _ & _ & Hm & _). pose proof (v_token A G start V start Hm) as Hstart.
  eexists _, _, _. split; [reflexivity|]. exists [], []. unfold Max_wosize in Hsz. split; [split|split].
  - split; simpl; try done; try lia.
    + apply seg_one; [lia|]. unfold slot in Hb. by destruct (s_stack e !! Z.to_nat (e_sp e)) as [x|]; simplify_eq/=.
    + apply seg_nil. lia.
    + apply seg_nil. lia.
    + apply seg_one; [lia|]. apply list_lookup_lookup_total_lt. lia.
  - constructor.
  - constructor.
  - unfold ahead. simpl. by destruct (Z.ltb_spec start 0); [lia|].
  - by right.
  - split; simpl; [done| |by split; [lia|intros; lia]]. rewrite u32_small by (unfold is_u32; lia). lia.
  - pose proof (bd_rank G (v_bounds A G start V) 0). unfold pot. simpl. change (top_state []) with 0. unfold stack_weight. simpl.
    destruct (Z.ltb_spec start 0); lia.
Qed.

(** C19: a parser that runs tables which pass the validator, with any actions.  Every parse ends: [work], a linear function of the number of
    tokens that the lexer can give, bounds the calls of the engine; no call reads or writes outside
    the tables and the stacks, whatever their size, which grows as needed.  If the parse returns [v] then the tokens
    read are a word [ts] of the grammar, followed by at most one token: the right-hand side of a final rule
    derives [ts], with values and positions computed by the semantic actions bottom-up, and its action gives [v].
    When there was no error, neither one that the engine found nor one that an action signalled by [Parse_error], the derivation has all the tokens and no
    symbol of error.  [Parse_error] is raised only after an error.  The state of an enclosing parse is restored.
    The one other outcome is a run in which an action raises [Parse_error] for a rule with an empty right-hand side or before a token was shifted after an error
    ([derails]): there the code begins the recovery at a slot of the stack that it has not filled. *)
Theorem yyparse_parses {W} (cl : client W) tbl A G start (C : ParserClient cl tbl A G) e w fuel :
  validates A G start = true -> fresh e -> good C w -> work G (left C w) < Z.of_nat fuel ->
  (exists r e' w' trace, yyparse cl tbl fuel start e w = Ok (r, e', w') /\ log C w' = log C w ++ trace /\
    (e_sp e', stackbase e', curr_char e', e_asp e', e_state e', e_errflag e') =
      (e_sp e, stackbase e, curr_char e, e_asp e, e_state e, e_errflag e) /\
    match r with
    | inl v => exists n ts us ws w1 w2, mem n (final G) = true /\
        derives cl A G (failed trace) (bottom_end e) (rhs_of G n) ts ws /\
        actions cl n ws (end_of (bottom_end e) ws) w1 = (inr (YYexit v), w2) /\
        first_token start e :: reads trace = ts ++ us /\ (length us <= 1)%nat
    | inr x => x = Parse_error -> failed trace
    end) \/
  derails cl tbl (START, Val_unit, set_base (e_sp e + 1) start e, w).
Proof.
  intros V F Hg Hfuel. pose proof (start_ready cl tbl A G start C e w V F) as R.
  destruct (parse_loop_ok cl tbl A G start V C (e_sp e) (bottom_end e) (first_token start e) (log C w) fuel START Val_unit
    (set_base (e_sp e + 1) start e) w [] _ Hg (eq_sym (app_nil_r _)) R Hfuel) as [(x & e1 & w1 & trace & Hl & Hlog & Hfin)|Hd]; [left|by right].
  unfold yyparse. rewrite Hl. cbn [rbind].
  destruct x; eexists _, _, w1, trace; (split; [reflexivity|]); (split; [done|]); (split; [done|]); try done.
Qed.

(** ** A parser of sums

    Tokens: the end of file 0, numbers 257, + 258; 1 selects the entry.  Rules:
    1 [main: e EOF]; 2 [e: NUM]; 3 [e: e PLUS NUM]; 4 [entry: 1 main]; 5 [e: error]; 6 [e: ] (the last with the end of file
    as lookahead); 7 [e: e error]. *)
Definition packed (l : list (nat * Z)) (x : Z) : list Z := fold_right (fun '(i, y) t => <[i := y]> t) (replicate 264 x) l.
Definition sum_lr : lr := mkLr [0; 258] [257] [0; 1; 2; 2; 0; 2; 2; 2] [0; 2; 1; 3; 2; 1; 0; 2] [0; 0; 2; 4; 0; 1; 0; 3; 0; 5; 7] [8; 3; 4]
  [2; 5; 0; 0; 1; 0; 3; 0; 0; 0; 0] [0; 7; 0; 0; 0; 0; 0; 0; 0; 0; 0] [0; 0; 0] 263
  (packed [(3%nat, 1); (262%nat, 2); (261%nat, 9); (7%nat, 6); (1%nat, 5); (259%nat, 6); (257%nat, 10); (260%nat, 7)] (-1))
  (packed [(3%nat, 1); (262%nat, 257); (261%nat, 256); (7%nat, 0); (1%nat, 0); (259%nat, 258); (257%nat, 256); (260%nat, 257)] (-1)).
Definition sum_grammar : grammar :=
  let entry := [(T 1, [0])] in
  let e := (N 2, [1]) :: entry in
  mkGrammar [[]; [N 2; T 0]; [T 257]; [N 2; T 258; T 257]; [T 1; N 1]; [T 256]; []; [N 2; T 256]]
    [[]; entry; (T 257, [1]) :: entry; (N 1, [1]) :: entry; e; (T 0, [4]) :: e; (T 258, [4]) :: e; (T 257, [6]) :: (T 258, [4]) :: e;
      [(N 0, [0])]; (T 256, [1]) :: entry; (T 256, [4]) :: e]
    [1; 0; 257; 258] [4] 1 [0; 0; 0] [0; 1] 1.
Example sum_validates : validates sum_lr sum_grammar 1 = true.
Proof. vm_compute. reflexivity. Qed.
Definition sum_string (l : list Z) : block := mkBlock String_tag (Bytes (short_bytes l)).
Definition number (n : Z) : block := mkBlock 0 (Fields [Val_long n]).
Definition sum_heap : heap_t :=
  {[0%nat := sum_string (a_lhs sum_lr); 1%nat := sum_string (a_len sum_lr); 2%nat := sum_string (a_defred sum_lr);
    3%nat := sum_string (a_dgoto sum_lr); 4%nat := sum_string (a_sindex sum_lr); 5%nat := sum_string (a_rindex sum_lr);
    6%nat := sum_string (a_gindex sum_lr); 7%nat := sum_string (a_table sum_lr); 8%nat := sum_string (a_check sum_lr);
    9%nat := mkBlock 0 (Fields (map Val_long (a_const sum_lr))); 10%nat := mkBlock 0 (Fields (map Val_long (a_block sum_lr)));
    13%nat := number 3; 14%nat := number 4]}.
Definition sum_tables : parser_tables :=
  mkParserTables (Ptr 9) (Ptr 10) (Ptr 0) (Ptr 1) (Ptr 2) (Ptr 3) (Ptr 4) (Ptr 5) (Ptr 6) 263 (Ptr 7) (Ptr 8).
(** The lexer gives the tokens of a list; [fails] says for which rules and arguments the action raises [Parse_error]. *)
Definition sum_state : Type := list attr * list event.
Definition arg (ws : list attr) (i : nat) : value := match ws !! i with Some (v, _, _) => v | None => Val_unit end.
Definition plus (v w : value) : value :=
  match Long_val v, Long_val w with Ok x, Ok y => Val_long (x + y) | _, _ => Val_unit end.
Definition event_of (t : attr) : event :=
  let '(v, s, en) := t in
  match v with
  | Ptr 13 => Read (257, (Val_long 3, s, en))
  | Ptr 14 => Read (257, (Val_long 4, s, en))
  | _ => if decide (v = Val_long 0) then Read (0, (Val_long 0, s, en)) else Read (258, (Val_long 0, s, en))
  end.
Definition sum_client (fails : Z -> list attr -> bool) : client sum_state := mkClient sum_state
  (fun _ => sum_heap)
  (fun w => match w with (t :: l, evs) => (inl t, (l, evs ++ [event_of t])) | ([], evs) => (inr (Other_exn Val_unit), ([], evs)) end)
  (fun n ws p w =>
    if fails n ws then (inr Parse_error, (w.1, w.2 ++ [Action_failed]))
    else
      (if n =? 1 then inl (arg ws 0) else if n =? 2 then inl (arg ws 0) else if n =? 3 then inl (plus (arg ws 0) (arg ws 2))
       else if n =? 4 then inr (YYexit (arg ws 1)) else if n =? 7 then inl (arg ws 0) else inl (Val_long 0), w))
  (fun w => let '(l, evs) := w in (None, (l, evs ++ [Error_called]))).
Lemma sum_encodes : encodes sum_heap sum_tables sum_lr.
Proof.
  split; try reflexivity;
    first [eexists _, _; split; reflexivity|eapply short_bytes_ok; [reflexivity|apply (bool_decide_unpack _); vm_compute; exact I]].
Qed.
Definition sum_tokens : list value := [Val_long 0; Val_long 1; Ptr 13; Ptr 14].
#[export] Instance sum_promises fails : ParserClient (sum_client fails) sum_tables sum_lr sum_grammar.
Proof.
  apply (Build_ParserClient _ _ _ _ _ (fun w => Forall (fun t => t.1.1 ∈ sum_tokens) w.1) (fun w => w.2) (fun w => length w.1)).
  - intros w _. exact sum_encodes.
  - intros [[|t0 l] evs] t s en w' Hg; simpl; [done|]. intros [= -> <-]. apply Forall_cons in Hg as [Ht Hl].
    split; [done|]. split; [simpl; lia|]. simpl in Ht. unfold sum_tokens in Ht. rewrite !elem_of_cons, elem_of_nil in Ht.
    destruct Ht as [-> | [-> | [-> | [-> | []]]]].
    + exists 0, (Val_long 0). split; [|done]. right. exists 0. by vm_compute.
    + exists 258, (Val_long 0). split; [|done]. right. exists 1. by vm_compute.
    + exists 257, (Val_long 3). split; [|done]. left. split; [done|]. exists 0. by vm_compute.
    + exists 257, (Val_long 4). split; [|done]. left. split; [done|]. exists 0. by vm_compute.
  - intros [[|t0 l] evs] x w' Hg; simpl; [|done]. intros [= <- <-]. split; [done|]. by eexists.
  - intros n ws p w r w' Hg. simpl. destruct (fails n ws); intros [= <- <-]; do 2 (split; [done|]); [done|]. split; [repeat case_if; by rewrite app_nil_r|].
    repeat case_if; done.
  - intros [l evs] r w' Hg [= <- <-]. done.
Defined.
(** The stacks have one slot: each push makes them grow. *)
Definition sum_env : parser_env := mkEnv [0] [Val_unit] [0] [0] 1 0 0 Val_unit 0 0 0 0 0 0 0 0.
Definition tok (v : value) (i : Z) : attr := (v, i, i + 1).
Definition sum_result (r : result ((value + parse_exn) * parser_env * sum_state)) : option ((value + parse_exn) * Z) :=
  match r with Ok (x, e, _) => Some (x, stacksize e) | _ => None end.
Definition never (n : Z) (ws : list attr) : bool := false.
Definition sums (fails : Z -> list attr -> bool) (e : parser_env) (l : list attr) := yyparse (sum_client fails) sum_tables 200 1 e (l, []).
(** 3 + 4; 3 4, where the error is repaired by dropping the 4; nothing. *)
Example sum_runs :
  let run l := sum_result (sums never sum_env l) in
  run [tok (Ptr 13) 0; tok (Val_long 1) 1; tok (Ptr 14) 2; tok (Val_long 0) 3] = Some (inl (Val_long 7), 8) /\
  run [tok (Ptr 13) 0; tok (Ptr 14) 2; tok (Val_long 0) 3] = Some (inl (Val_long 3), 4) /\
  run [tok (Val_long 0) 3] = Some (inl (Val_long 0), 4) /\
  run [tok (Ptr 13) 0; tok (Val_long 1) 1] = Some (inr (Other_exn Val_unit), 4).
Proof. vm_compute. done. Qed.
(** The action of the rule 3 refuses to add 4: the recovery takes [3 + 4] back to [3], and the rule 7 gives that. *)
Definition no_four (n : Z) (ws : list attr) : bool := (n =? 3) && bool_decide (arg ws 2 = Val_long 4).
Definition three_four : list attr := [tok (Ptr 13) 0; tok (Val_long 1) 1; tok (Ptr 14) 2; tok (Val_long 0) 3].
Example action_recovers : match sums no_four sum_env three_four with Ok (inl v, _, (_, l)) => v = Val_long 3 /\ Action_failed ∈ l | _ => False end.
Proof. vm_compute. split; [done|]. repeat constructor. Qed.
(** What happens when a parse derails.  The action of the rule 6, whose right-hand side is empty,
    raises [Parse_error]: the engine looks for a state to recover in at the slot that the rule would have filled, which
    holds what an earlier parse left; after a parse that stopped behind 3, parsing nothing gives 3. *)
Example stale_slot_recovers :
  let fails n _ := n =? 6 in
  match sums fails sum_env [tok (Ptr 13) 0; tok (Val_long 1) 1] with
  | Ok (inr (Other_exn _), e, _) => match sums fails e [tok (Val_long 0) 0] with Ok (inl v, _, _) => v = Val_long 3 | _ => False end
  | _ => False
  end.
Proof. vm_compute. reflexivity. Qed.
(** All actions for [e] raise [Parse_error], the one of the rule 5 directly after the error that [+] is: the engine goes to the state behind [e] without
    a value for it, and the parse returns what the lexer left there. *)
Example unstored_value :
  let fails n _ := negb (n =? 1) && negb (n =? 4) in
  match sums fails sum_env [tok (Val_long 1) 0; tok (Val_long 0) 1] with Ok (inl v, _, _) => v = Val_long 0 | _ => False end.
Proof. vm_compute. reflexivity. Qed.
Lemma yyparse_parses_witness :
  let w := (three_four, []) in
  let cl := sum_client no_four in
  validates sum_lr sum_grammar 1 = true /\ fresh sum_env /\ good (sum_promises no_four) w /\ work sum_grammar (left (sum_promises no_four) w) < 200 /\
  ((exists r e' w' trace, yyparse cl sum_tables 200 1 sum_env w = Ok (r, e', w') /\ w'.2 = [] ++ trace /\
    (e_sp e', stackbase e', curr_char e', e_asp e', e_state e', e_errflag e') = (0, 0, 0, 0, 0, 0) /\
    match r with
    | inl v => exists n ts us ws w1 w2, mem n [4] = true /\
        derives cl sum_lr sum_grammar (failed trace) 0 (rhs_of sum_grammar n) ts ws /\
        actions cl n ws (end_of 0 ws) w1 = (inr (YYexit v), w2) /\
        first_token 1 sum_env :: reads trace = ts ++ us /\ (length us <= 1)%nat
    | inr x => x = Parse_error -> failed trace
    end) \/ derails cl sum_tables (START, Val_unit, set_base 1 1 sum_env, w)).
Proof.
  intros w cl. assert (fresh sum_env) as F by (split; try reflexivity; [discriminate|split; [discriminate|reflexivity]]).
  assert (good (sum_promises no_four) w) as Hg by (apply (bool_decide_unpack _); vm_compute; exact I).
  split; [exact sum_validates|]. split; [exact F|]. split; [exact Hg|]. split; [vm_compute; reflexivity|].
  exact (yyparse_parses cl sum_tables sum_lr sum_grammar 1 (sum_promises no_four) sum_env w 200 sum_validates F Hg eq_refl).
Defined.
