(* ===== verification/Layer.v ===== *)
(** * Overlapping windows: kernel/Libmemlayer

    A window is an image with a [memlayer]: where it is on the screen, its neighbours in the order from front to rear, and a
    save area for the part that is not on the screen.  [_memlayerop] calls a function on the
    rectangles of which a part of a window consists, each either on the screen or in the save area; [memlhide] and
    [memlexpose] copy between the two; [memltofront] and [memltorear] change the order.

    The model has one screen, whose image is not itself a window.  What Libmemdraw does with pixels is the class
    [Memdraw]; an image is named by a number. *)
From stdpp Require Import gmap list.
From S2P Require Import Prelude Geometry.

Record memlayer := mkLayer {
  screenr : Rectangle; delta : Point; save : option nat; front : option nat; rear : option nat;
  refreshfn : option nat; clear : bool }.
Record memimage := mkImage { im_r : Rectangle; im_clipr : Rectangle; im_layer : option memlayer }.

(** What the layers expect of the drawing library: [blit imgs dst r src p] is
    [memimagedraw(dst, r, src, p, nil, p, S)].  Where the rectangles are inside both images it copies pixels.  A
    refresh function draws in its rectangle of the screen only. *)
Class Memdraw (P : Type) := {
  pixel : P -> nat -> Point -> Z;
  blit : gmap nat memimage -> nat -> Rectangle -> nat -> Point -> P -> P;
  refresh : nat -> gmap nat memimage -> nat -> Rectangle -> Point -> P -> P;
  blit_copies imgs dst r src p px d q imd ims :
    imgs !! dst = Some imd -> imgs !! src = Some ims -> dst <> src ->
    rectinrect r (im_r imd) = true -> rectinrect r (im_clipr imd) = true ->
    let r' := rectaddpt r (subpt p (rmin r)) in
    rectinrect r' (im_r ims) = true -> rectinrect r' (im_clipr ims) = true ->
    pixel (blit imgs dst r src p px) d q =
      if decide (d = dst /\ ptinrect q r = true) then pixel px src (addpt q (subpt p (rmin r))) else pixel px d q;
  refresh_inside g imgs dst r dl px d q :
    ~ (d = dst /\ ptinrect q (rectaddpt r dl) = true) -> pixel (refresh g imgs dst r dl px) d q = pixel px d q }.

Section layers.
Context {P : Type} `{Memdraw P}.

(** The [Memscreen] with all images and their pixels. *)
Record state := mkState {
  images : gmap nat memimage; image : nat; frontmost : option nat; rearmost : option nat; pixels : P }.
Definition image_of (w : nat) (s : state) : result memimage := of_ptr (images s !! w).
Definition layer_of (w : nat) (s : state) : result memlayer := of_ptr (images s !! w ≫= im_layer).
Definition set_images imgs (s : state) : state := mkState imgs (image s) (frontmost s) (rearmost s) (pixels s).
Definition set_pixels px (s : state) : state := mkState (images s) (image s) (frontmost s) (rearmost s) px.
Definition set_frontmost w (s : state) : state := mkState (images s) (image s) w (rearmost s) (pixels s).
Definition set_rearmost w (s : state) : state := mkState (images s) (image s) (frontmost s) w (pixels s).
(** Assignments to the fields of a layer. *)
Definition upd_layer (w : nat) (f : memlayer -> memlayer) (s : state) : result state :=
  let* im := image_of w s in
  let* l := of_ptr (im_layer im) in
  Ok (set_images (<[w := mkImage (im_r im) (im_clipr im) (Some (f l))]> (images s)) s).
Definition set_front v (l : memlayer) : memlayer := mkLayer (screenr l) (delta l) (save l) v (rear l) (refreshfn l) (clear l).
Definition set_rear v (l : memlayer) : memlayer := mkLayer (screenr l) (delta l) (save l) (front l) v (refreshfn l) (clear l).
Definition set_clear b (l : memlayer) : memlayer := mkLayer (screenr l) (delta l) (save l) (front l) (rear l) (refreshfn l) b.

(** ** layerop.c *)

(** The functions that are called with an image, a rectangle, a clipping rectangle and whether it is the save area. *)
Definition layer_fn : Type := option nat -> Rectangle -> Rectangle -> bool -> state -> result state.

Fixpoint _layerop (fuel : nat) (fn : layer_fn) (i : nat) (r clipr : Rectangle) (frontw : option nat) (s : state) : result state :=
  match fuel with
  | O => Loop
  | S fuel =>
      if decide (frontw = Some i) then fn (Some (image s)) r clipr false s
      else
        let* fw := of_ptr frontw in
        let* fl := layer_of fw s in
        let fr := screenr fl in
        if negb (rectXrect r fr) then _layerop fuel fn i r clipr (rear fl) s
        else
          (* [RECUR] reads front->layer->rear each time. *)
          let recur rc s := let* fl := layer_of fw s in _layerop fuel fn i rc clipr (rear fl) s in
          let '(ax, ay, bx, by_) := (x (rmin r), y (rmin r), x (rmax r), y (rmax r)) in
          let* s := if y (rmax fr) <? by_ then recur (Rect ax (y (rmax fr)) bx by_) s else Ok s in
          let by_ := if y (rmax fr) <? by_ then y (rmax fr) else by_ in
          let* s := if ay <? y (rmin fr) then recur (Rect ax ay bx (y (rmin fr))) s else Ok s in
          let ay := if ay <? y (rmin fr) then y (rmin fr) else ay in
          let* s := if x (rmax fr) <? bx then recur (Rect (x (rmax fr)) ay bx by_) s else Ok s in
          let bx := if x (rmax fr) <? bx then x (rmax fr) else bx in
          let* s := if ax <? x (rmin fr) then recur (Rect ax ay (x (rmin fr)) by_) s else Ok s in
          let ax := if ax <? x (rmin fr) then x (rmin fr) else ax in
          let* l := layer_of i s in
          fn (save l) (Rect ax ay bx by_) clipr true s
  end.
(** The pieces outside the screen, above, below, left and right; the functions do not assign the save area. *)
Definition off_screen (fn : layer_fn) (sv : option nat) (r scr clipr : Rectangle) (s : state) : result state :=
  let '(ax, ay, bx, by_) := (x (rmin r), y (rmin r), x (rmax r), y (rmax r)) in
  let* s := if ay <? y (rmin scr) then fn sv (Rect ax ay bx (y (rmin scr))) clipr true s else Ok s in
  let ay := if ay <? y (rmin scr) then y (rmin scr) else ay in
  let* s := if by_ >? y (rmax scr) then fn sv (Rect ax (y (rmax scr)) bx by_) clipr true s else Ok s in
  let by_ := if by_ >? y (rmax scr) then y (rmax scr) else by_ in
  let* s := if ax <? x (rmin scr) then fn sv (Rect ax ay (x (rmin scr)) by_) clipr true s else Ok s in
  if bx >? x (rmax scr) then fn sv (Rect (x (rmax scr)) ay bx by_) clipr true s else Ok s.
Definition _memlayerop (fuel : nat) (fn : layer_fn) (i : nat) (r0 clipr : Rectangle) (s : state) : result state :=
  let* l := layer_of i s in
  let '(ok, r) := rectclip r0 (screenr l) in
  if negb ok then Ok s
  else if clear l then fn (Some (image s)) r clipr false s
  else
    let* im := image_of (image s) s in
    let scr := im_clipr im in
    let '(ok, on_screen) := rectclip r scr in
    let* s := if ok then _layerop fuel fn i on_screen clipr (frontmost s) s else Ok s in
    if rectinrect r scr then Ok s
    else
      let* l := layer_of i s in
      if negb (rectXrect r scr) then fn (save l) r clipr true s
      else off_screen fn (save l) r scr clipr s.

(** ** lhide.c *)

(** [memdraw(dst, r, src, p, nil, p, S)] on images without layers is [memimagedraw]. *)
Definition memdraw_S (dst : option nat) (r : Rectangle) (src : option nat) (p : Point) (s : state) : result state :=
  let* d := of_ptr dst in
  let* sr := of_ptr src in
  let* imd := image_of d s in
  let* ims := image_of sr s in
  match im_layer imd, im_layer ims with
  | None, None => Ok (set_pixels (blit (images s) d r sr p (pixels s)) s)
  | _, _ => Fault
  end.
Definition lhideop (i : nat) : layer_fn := fun src sr clipr insave s =>
  let* l := layer_of i s in
  if decide (src = save l) then Ok s else memdraw_S (save l) (rectsubpt sr (delta l)) src (rmin sr) s.
Definition memlhide (fuel i : nat) (r : Rectangle) (s : state) : result state :=
  let* l := layer_of i s in
  match save l with
  | None => Ok s
  | Some _ =>
      let* im := image_of (image s) s in
      let '(ok, r) := rectclip r (im_r im) in
      if negb ok then Ok s else _memlayerop fuel (lhideop i) i r r s
  end.
Definition lexposeop (i : nat) : layer_fn := fun dst sr clipr insave s =>
  if insave : bool then Ok s
  else
    let* l := layer_of i s in
    let r := rectsubpt sr (delta l) in
    match save l with
    | Some sv => memdraw_S dst sr (Some sv) (rmin r) s
    | None => let* d := of_ptr dst in let* g := of_ptr (refreshfn l) in Ok (set_pixels (refresh g (images s) d r (delta l) (pixels s)) s)
    end.
Definition memlexpose (fuel i : nat) (r : Rectangle) (s : state) : result state :=
  let* im := image_of (image s) s in
  let '(ok, r) := rectclip r (im_r im) in
  if negb ok then Ok s else _memlayerop fuel (lexposeop i) i r r s.

(** ** ltofront.c, ltorear.c *)

(** The exchange of a window [f] with the window [r] behind it, in the order of the code of [_memltofront]. *)
Definition swap_front (i f : nat) (s : state) : result state :=
  let* fl := layer_of f s in
  let* l := layer_of i s in
  let ff := front fl in
  let rr := rear l in
  let* s := match ff with None => Ok (set_frontmost (Some i) s) | Some ff => upd_layer ff (set_rear (Some i)) s end in
  let* s := match rr with None => Ok (set_rearmost (Some f) s) | Some rr => upd_layer rr (set_front (Some f)) s end in
  let* s := upd_layer i (set_front ff) s in
  let* s := upd_layer i (set_rear (Some f)) s in
  let* s := upd_layer f (set_front (Some i)) s in
  upd_layer f (set_rear rr) s.
Fixpoint _memltofront (fuel n i : nat) (stop : option nat) (fill : bool) (s : state) : result state :=
  match n with
  | O => Loop
  | S n =>
      let* l := layer_of i s in
      if decide (front l = stop) then Ok s
      else
        let* f := of_ptr (front l) in
        let* fl := layer_of f s in
        let '(overlap, r) := rectclip (screenr l) (screenr fl) in
        let* s := if overlap : bool then let* s := memlhide fuel f r s in upd_layer f (set_clear false) s else Ok s in
        let* s := swap_front i f s in
        let* s := if overlap && fill then memlexpose fuel i r s else Ok s in
        _memltofront fuel n i stop fill s
  end.
Definition swap_rear (i r : nat) (s : state) : result state :=
  let* rl := layer_of r s in
  let* l := layer_of i s in
  let rr := rear rl in
  let f := front l in
  let* s := match rr with None => Ok (set_rearmost (Some i) s) | Some rr => upd_layer rr (set_front (Some i)) s end in
  let* s := match f with None => Ok (set_frontmost (Some r) s) | Some f => upd_layer f (set_rear (Some r)) s end in
  let* s := upd_layer i (set_rear rr) s in
  let* s := upd_layer i (set_front (Some r)) s in
  let* s := upd_layer r (set_rear (Some i)) s in
  upd_layer r (set_front f) s.
Fixpoint _memltorear (fuel n i : nat) (stop : option nat) (s : state) : result state :=
  match n with
  | O => Loop
  | S n =>
      let* l := layer_of i s in
      if decide (rear l = stop) then Ok s
      else
        let* r := of_ptr (rear l) in
        let* rl := layer_of r s in
        let '(overlap, rc) := rectclip (screenr l) (screenr rl) in
        let* s := if overlap : bool then let* s := memlhide fuel i rc s in upd_layer i (set_clear false) s else Ok s in
        let* s := swap_rear i r s in
        let* s := if overlap : bool then memlexpose fuel r rc s else Ok s in
        _memltorear fuel n i stop s
  end.

(** ** ldelete.c: [_memlsetclear] *)

(** Does a window in front of [l] touch it? *)
Fixpoint touched (n : nat) (j : option nat) (sr : Rectangle) (s : state) : result bool :=
  match n, j with
  | O, _ => Loop
  | S n, None => Ok false
  | S n, Some j => let* jl := layer_of j s in if rectXrect sr (screenr jl) then Ok true else touched n (front jl) sr s
  end.
Fixpoint setclear_from (n m : nat) (i : option nat) (s : state) : result state :=
  match n, i with
  | O, _ => Loop
  | S n, None => Ok s
  | S n, Some i =>
      let* l := layer_of i s in
      let* im := image_of (image s) s in
      let b := rectinrect (screenr l) (im_clipr im) in
      let* s := upd_layer i (set_clear b) s in
      let* s := (if b then let* t := touched m (front l) (screenr l) s in if t : bool then upd_layer i (set_clear false) s else Ok s else Ok s) in
      setclear_from n m (front l) s
  end.
(** The loops are bounded by the number of images. *)
Definition windows (s : state) : nat := S (size (images s)).
Definition _memlsetclear (s : state) : result state := setclear_from (windows s) (windows s) (rearmost s) s.
Definition _memltofrontfill (i : nat) (fill : bool) (s : state) : result state :=
  let* s := _memltofront (windows s) (windows s) i None fill s in _memlsetclear s.
Definition memltofront (i : nat) (s : state) : result state := _memltofrontfill i true s.
Definition memltorear (i : nat) (s : state) : result state :=
  let* s := _memltorear (windows s) (windows s) i None s in _memlsetclear s.
(** The arrays of [memltofrontn] and [memltorearn]. *)
Fixpoint tofront_each (ws : list nat) (stop : option nat) (s : state) : result state :=
  match ws with
  | [] => Ok s
  | i :: ws => let* s := _memltofront (windows s) (windows s) i stop true s in tofront_each ws (Some i) s
  end.
Definition memltofrontn (ws : list nat) (s : state) : result state :=
  match ws with [] => Ok s | _ => let* s := tofront_each ws None s in _memlsetclear s end.
Fixpoint torear_each (ws : list nat) (stop : option nat) (s : state) : result state :=
  match ws with
  | [] => Ok s
  | i :: ws => let* s := _memltorear (windows s) (windows s) i stop s in torear_each ws (Some i) s
  end.
Definition memltorearn (ws : list nat) (s : state) : result state :=
  match ws with [] => Ok s | _ => let* s := torear_each ws None s in _memlsetclear s end.
End layers.
Arguments state P : clear implicits.
Arguments layer_fn P : clear implicits.
