(* ===== verification/LayerPieces.v ===== *)
(** * The pieces of a window

    [_memlayerop] of [Layer] splits a rectangle of a window into pieces, on the screen or in the save area.  [calls] lists
    them; each pixel is in exactly one piece, of the right kind ([count_calls]). *)
From stdpp Require Import gmap list.
From S2P Require Import Prelude Geometry Layer.

(** ** Pieces as a function of the rectangles in front *)

Fixpoint pieces (fs : list Rectangle) (r : Rectangle) : list (Rectangle * bool) :=
  match fs with
  | [] => [(r, false)]
  | fr :: fs =>
      if negb (rectXrect r fr) then pieces fs r
      else
        let '(ax, ay, bx, by_) := (x (rmin r), y (rmin r), x (rmax r), y (rmax r)) in
        let l1 := if y (rmax fr) <? by_ then pieces fs (Rect ax (y (rmax fr)) bx by_) else [] in
        let by_ := if y (rmax fr) <? by_ then y (rmax fr) else by_ in
        let l2 := if ay <? y (rmin fr) then pieces fs (Rect ax ay bx (y (rmin fr))) else [] in
        let ay := if ay <? y (rmin fr) then y (rmin fr) else ay in
        let l3 := if x (rmax fr) <? bx then pieces fs (Rect (x (rmax fr)) ay bx by_) else [] in
        let bx := if x (rmax fr) <? bx then x (rmax fr) else bx in
        let l4 := if ax <? x (rmin fr) then pieces fs (Rect ax ay (x (rmin fr)) by_) else [] in
        let ax := if ax <? x (rmin fr) then x (rmin fr) else ax in
        l1 ++ l2 ++ l3 ++ l4 ++ [(Rect ax ay bx by_, true)]
  end.
Definition off_pieces (r scr : Rectangle) : list (Rectangle * bool) :=
  let '(ax, ay, bx, by_) := (x (rmin r), y (rmin r), x (rmax r), y (rmax r)) in
  let l1 := if ay <? y (rmin scr) then [(Rect ax ay bx (y (rmin scr)), true)] else [] in
  let ay := if ay <? y (rmin scr) then y (rmin scr) else ay in
  let l2 := if by_ >? y (rmax scr) then [(Rect ax (y (rmax scr)) bx by_, true)] else [] in
  let by_ := if by_ >? y (rmax scr) then y (rmax scr) else by_ in
  let l3 := if ax <? x (rmin scr) then [(Rect ax ay (x (rmin scr)) by_, true)] else [] in
  let l4 := if bx >? x (rmax scr) then [(Rect (x (rmax scr)) ay bx by_, true)] else [] in
  l1 ++ l2 ++ l3 ++ l4.
Definition calls (l : memlayer) (scr : Rectangle) (fs : list Rectangle) (r0 : Rectangle) : list (Rectangle * bool) :=
  let '(ok, r) := rectclip r0 (screenr l) in
  if negb ok then []
  else if clear l then [(r, false)]
  else
    let '(on, r1) := rectclip r scr in
    (if on then pieces fs r1 else []) ++
    (if rectinrect r scr then [] else if negb (rectXrect r scr) then [(r, true)] else off_pieces r scr).

(** ** Each pixel is in one piece *)

Definition b2n (b : bool) : nat := if b then 1%nat else 0%nat.
(** The number of pieces of the kind [b] that hold [p]. *)
Fixpoint pieces_at (b : bool) (p : Point) (l : list (Rectangle * bool)) : nat :=
  match l with [] => O | (r, c) :: l => (b2n (eqb b c && ptinrect p r) + pieces_at b p l)%nat end.
Lemma count_app b p l1 l2 : pieces_at b p (l1 ++ l2) = (pieces_at b p l1 + pieces_at b p l2)%nat.
Proof. induction l1 as [|[r c] l1 IH]; simpl; [done|]. rewrite IH. lia. Qed.
Lemma count_in b p l : (0 < pieces_at b p l)%nat <-> exists r, (r, b) ∈ l /\ ptinrect p r = true.
Proof.
  induction l as [|[r c] l IH]; simpl.
  - split; [lia|]. intros (r & Hr & _). by apply elem_of_nil in Hr.
  - split.
    + destruct (eqb b c) eqn:Ec; simpl; [apply eqb_prop in Ec as ->|].
      * destruct (ptinrect p r) eqn:Ep; [intros _; exists r; split; [by left|done]|].
        intros Hc. apply IH in Hc as (r' & Hr' & Hp). exists r'. split; [by right|done].
      * intros Hc. apply IH in Hc as (r' & Hr' & Hp). exists r'. split; [by right|done].
    + intros (r' & Hr' & Hp). apply elem_of_cons in Hr' as [[= -> ->]|Hr'].
      * rewrite eqb_reflx, Hp. simpl. lia.
      * enough (0 < pieces_at b p l)%nat by lia. apply IH. by exists r'.
Qed.
Definition covered (fs : list Rectangle) (p : Point) : bool := existsb (ptinrect p) fs.

(** Membership in an interval and in a rectangle, as numbers. *)
Definition within (v a b : Z) : nat := b2n ((a <=? v) && (v <? b)).
Lemma inside_product p ax ay bx by_ : b2n (ptinrect p (Rect ax ay bx by_)) = (within (x p) ax bx * within (y p) ay by_)%nat.
Proof. unfold ptinrect, within. cbn [Rect rmin rmax x y]. rewrite !Z.geb_leb. by destruct (ax <=? x p), (x p <? bx), (ay <=? y p), (y p <? by_). Qed.
Lemma cut_high v a b d : a <= d ->
  within v a b = ((if (d <? b)%Z then within v d b else 0) + within v a (if (d <? b)%Z then d else b))%nat.
Proof.
  intros Hd. destruct (Z.ltb_spec d b); [|done]. unfold within.
  destruct (Z.leb_spec a v), (Z.ltb_spec v b), (Z.leb_spec d v), (Z.ltb_spec v d); simpl; lia.
Qed.
Lemma cut_low v a b c : c <= b ->
  within v a b = ((if (a <? c)%Z then within v a c else 0) + within v (if (a <? c)%Z then c else a) b)%nat.
Proof.
  intros Hc. destruct (Z.ltb_spec a c); [|done]. unfold within.
  destruct (Z.leb_spec a v), (Z.ltb_spec v b), (Z.leb_spec c v), (Z.ltb_spec v c); simpl; lia.
Qed.
Lemma within_meet v a b c d : within v (if a <? c then c else a) (if d <? b then d else b) = (within v a b * within v c d)%nat.
Proof.
  unfold within. destruct (Z.ltb_spec a c), (Z.ltb_spec d b), (Z.leb_spec a v), (Z.leb_spec c v), (Z.ltb_spec v b), (Z.ltb_spec v d);
    simpl; done || lia || (destruct (Z.leb_spec a v); simpl; lia).
Qed.
Definition ordered (r : Rectangle) : Prop := x (rmin r) <= x (rmax r) /\ y (rmin r) <= y (rmax r).
(** What is cut off and what remains make up the rectangle; what remains is the part under [fr]. *)
Lemma cuts p r fr : rectXrect r fr = true -> ordered fr ->
  let '(ax, ay, bx, by_) := (x (rmin r), y (rmin r), x (rmax r), y (rmax r)) in
  let by' := if y (rmax fr) <? by_ then y (rmax fr) else by_ in
  let ay' := if ay <? y (rmin fr) then y (rmin fr) else ay in
  let bx' := if x (rmax fr) <? bx then x (rmax fr) else bx in
  let ax' := if ax <? x (rmin fr) then x (rmin fr) else ax in
  let e1 := if y (rmax fr) <? by_ then b2n (ptinrect p (Rect ax (y (rmax fr)) bx by_)) else O in
  let e2 := if ay <? y (rmin fr) then b2n (ptinrect p (Rect ax ay bx (y (rmin fr)))) else O in
  let e3 := if x (rmax fr) <? bx then b2n (ptinrect p (Rect (x (rmax fr)) ay' bx by')) else O in
  let e4 := if ax <? x (rmin fr) then b2n (ptinrect p (Rect ax ay' (x (rmin fr)) by')) else O in
  let e5 := b2n (ptinrect p (Rect ax' ay' bx' by')) in
  (e1 + e2 + e3 + e4 + e5)%nat = b2n (ptinrect p r) /\ e5 = b2n (ptinrect p r && ptinrect p fr).
Proof.
  destruct r as [[ax ay] [bx by_]], fr as [[cx cy] [dx dy]]. unfold rectXrect, ordered. cbn [rmin rmax x y]. rewrite !andb_true_iff.
  intros HX [Hx Hy]. rewrite !inside_product. change (mkRectangle (mkPoint ax ay) (mkPoint bx by_)) with (Rect ax ay bx by_).
  change (mkRectangle (mkPoint cx cy) (mkPoint dx dy)) with (Rect cx cy dx dy). split.
  - rewrite inside_product, (cut_high (y p) ay by_ dy) by lia.
    rewrite (cut_low (y p) ay (if dy <? by_ then dy else by_) cy) by (destruct (Z.ltb_spec dy by_); lia).
    set (Y := within (y p) (if ay <? cy then cy else ay) _). rewrite !Nat.mul_add_distr_l.
    rewrite (cut_high (x p) ax bx dx) at 5 by lia. rewrite (cut_low (x p) ax (if dx <? bx then dx else bx) cx) by (destruct (Z.ltb_spec dx bx); lia).
    destruct (dy <? by_), (ay <? cy), (dx <? bx), (ax <? cx); lia.
  - rewrite !within_meet. replace (b2n (_ && _)) with (b2n (ptinrect p (Rect ax ay bx by_)) * b2n (ptinrect p (Rect cx cy dx dy)))%nat
      by (by destruct (ptinrect p (Rect ax ay bx by_)), (ptinrect p (Rect cx cy dx dy))).
    rewrite !inside_product. lia.
Qed.
(** A rectangle of the pieces holds what is in front of it, or not. *)
Lemma count_pieces p fs : Forall ordered fs -> forall r,
  pieces_at false p (pieces fs r) = b2n (ptinrect p r && negb (covered fs p)) /\
  pieces_at true p (pieces fs r) = b2n (ptinrect p r && covered fs p).
Proof.
  induction 1 as [|fr fs Hfr _ IH]; intros r; simpl.
  { rewrite andb_true_r, andb_false_r. destruct (ptinrect p r); done. }
  destruct (rectXrect r fr) eqn:EX; cbn [negb].
  2:{ destruct (IH r) as [-> ->]. destruct (ptinrect p r) eqn:Er; [|done]. destruct (ptinrect p fr) eqn:Ef; [|done].
      exfalso. unfold rectXrect, ptinrect in *. rewrite !andb_true_iff in Er, Ef. rewrite !andb_false_iff in EX. lia. }
  pose proof (cuts p r fr EX Hfr) as [Hs He]. set (c := covered fs p) in *. change (existsb (ptinrect p) fs) with c.
  assert (forall b (t : bool) rc, pieces_at b p (if t then pieces fs rc else []) =
    ((if t then b2n (ptinrect p rc) else 0) * b2n (if b then c else negb c))%nat) as Hc.
  { intros b t rc. destruct t; [|done]. destruct (IH rc) as [H1 H2]. destruct b; [rewrite H2|rewrite H1]; destruct (ptinrect p rc), c; done. }
  rewrite !count_app, !Hc. cbn [pieces_at eqb andb]. clear Hc IH.
  set (e5 := ptinrect p (Rect _ _ _ _)) in *. set (e1 := if _ <? _ then _ else O) in *. set (e2 := if _ <? _ then _ else O) in *.
  set (e3 := if _ <? _ then _ else O) in *. set (e4 := if _ <? _ then _ else O) in *. clearbody e1 e2 e3 e4 e5 c.
  destruct (ptinrect p r), (ptinrect p fr), c, e5; simpl in *; lia.
Qed.
Lemma off_cuts p r scr : rectXrect r scr = true -> ordered scr ->
  pieces_at true p (off_pieces r scr) = b2n (ptinrect p r && negb (ptinrect p scr)) /\ pieces_at false p (off_pieces r scr) = O.
Proof.
  destruct r as [[ax ay] [bx by_]], scr as [[cx cy] [dx dy]]. unfold rectXrect, ordered, off_pieces. cbn [rmin rmax x y]. rewrite !andb_true_iff.
  intros HX [Hx Hy]. change (mkRectangle (mkPoint ax ay) (mkPoint bx by_)) with (Rect ax ay bx by_).
  change (mkRectangle (mkPoint cx cy) (mkPoint dx dy)) with (Rect cx cy dx dy). rewrite !Z.gtb_ltb, !count_app.
  assert (forall b (t : bool) rc, pieces_at b p (if t then [(rc, true)] else []) = if t then (b2n (eqb b true) * b2n (ptinrect p rc))%nat else O) as Hc.
  { intros b t rc. destruct t; [|done]. simpl. by destruct b, (ptinrect p rc). }
  rewrite !Hc. clear Hc. cbn [eqb b2n]. split; [|by case_ifs].
  pose proof (inside_product p ax ay bx by_) as E1. pose proof (inside_product p cx cy dx dy) as E2.
  assert (b2n (ptinrect p (Rect ax ay bx by_) && negb (ptinrect p (Rect cx cy dx dy))) =
    b2n (ptinrect p (Rect ax ay bx by_)) - b2n (ptinrect p (Rect ax ay bx by_)) * b2n (ptinrect p (Rect cx cy dx dy)))%nat as ->
    by (by destruct (ptinrect p (Rect ax ay bx by_)), (ptinrect p (Rect cx cy dx dy))).
  rewrite !inside_product. set (X := within (x p) cx dx). set (Y := within (y p) cy dy).
  assert (within (x p) ax bx * within (y p) ay by_ * (X * Y) = within (x p) (if (ax <? cx)%Z then cx else ax) (if (dx <? bx)%Z then dx else bx) *
    within (y p) (if (ay <? cy)%Z then cy else ay) (if (dy <? by_)%Z then dy else by_))%nat as -> by (rewrite !within_meet; subst X Y; lia).
  rewrite (cut_low (y p) ay by_ cy) by lia. rewrite (cut_high (y p) (if ay <? cy then cy else ay) by_ dy) by (destruct (Z.ltb_spec ay cy); lia).
  set (Y' := within (y p) (if ay <? cy then cy else ay) _). rewrite !Nat.mul_add_distr_l.
  rewrite (cut_low (x p) ax bx cx) at 5 by lia. rewrite (cut_high (x p) (if ax <? cx then cx else ax) bx dx) by (destruct (Z.ltb_spec ax cx); lia).
  destruct (dy <? by_), (ay <? cy), (dx <? bx), (ax <? cx); lia.
Qed.

(** ** Pieces are inside *)

Lemma rectinrect_trans r1 r2 r3 : rectinrect r1 r2 = true -> rectinrect r2 r3 = true -> rectinrect r1 r3 = true.
Proof. unfold rectinrect. rewrite !andb_true_iff. lia. Qed.
Lemma rectinrect_refl r : rectinrect r r = true.
Proof. unfold rectinrect. rewrite !andb_true_iff. lia. Qed.
Lemma rectinrect_inside p r s : rectinrect r s = true -> ptinrect p r = true -> ptinrect p s = true.
Proof. unfold rectinrect, ptinrect. rewrite !andb_true_iff. lia. Qed.
Lemma rectclip_in r b r' : rectclip r b = (true, r') -> rectinrect r' r = true /\ rectinrect r' b = true /\ rectXrect r b = true /\
  forall p, ptinrect p r' = ptinrect p r && ptinrect p b.
Proof.
  pose proof (rectclip_spec r b) as Hs. unfold rectclip in *. destruct (rectXrect r b) eqn:EX; [|done]. cbn [negb] in *. intros [= <-].
  assert (forall a b : bool, (a = true <-> b = true) -> a = b) as Hb by (intros [] [] []; naive_solver).
  split; [|split; [|split; [done|]]].
  - unfold rectXrect, rectinrect in *. cbn [rmin rmax x y]. rewrite !andb_true_iff in *. rewrite !Z.gtb_ltb. case_ifs; lia.
  - unfold rectXrect, rectinrect in *. cbn [rmin rmax x y]. rewrite !andb_true_iff in *. rewrite !Z.gtb_ltb. case_ifs; lia.
  - intros p. apply Hb. rewrite andb_true_iff, !ptinrect_inside. apply Hs.
Qed.
Lemma rectclip_out r b r' : rectclip r b = (false, r') -> r' = r /\ rectXrect r b = false /\ forall p, ptinrect p r && ptinrect p b = false.
Proof.
  unfold rectclip. destruct (rectXrect r b) eqn:EX; [done|]. intros [= <-]. split; [done|]. split; [done|]. intros p.
  unfold rectXrect, ptinrect in *. destruct (_ && _ && _ && _ && _) eqn:E; [|done]. rewrite !andb_true_iff in E. rewrite !andb_false_iff in EX. lia.
Qed.
Lemma in_pieces rc b fs : forall r, (rc, b) ∈ pieces fs r -> rectinrect rc r = true.
Proof.
  induction fs as [|fr fs IH]; intros r; simpl.
  - intros [= -> ->]%list_elem_of_singleton. apply rectinrect_refl.
  - destruct (rectXrect r fr) eqn:EX; [|apply IH]. cbn [negb].
    assert (forall (t : bool) r', (t = true -> rectinrect r' r = true) -> (rc, b) ∈ (if t then pieces fs r' else []) -> rectinrect rc r = true) as Hp.
    { intros [] r' Hr' Hin; [|by apply elem_of_nil in Hin]. eapply rectinrect_trans; [by apply IH|auto]. }
    rewrite !elem_of_app, list_elem_of_singleton. unfold rectXrect in EX. rewrite !andb_true_iff in EX.
    intros [Hin|[Hin|[Hin|[Hin|[= -> ->]]]]]; [eapply Hp; [|exact Hin]..|];
      intros; unfold rectinrect; cbn [Rect rmin rmax x y]; rewrite !andb_true_iff; case_tests; lia.
Qed.
Lemma in_off_pieces rc b r scr : rectXrect r scr = true -> (rc, b) ∈ off_pieces r scr -> rectinrect rc r = true /\ b = true.
Proof.
  intros EX. unfold rectXrect in EX. rewrite !andb_true_iff in EX. unfold off_pieces. rewrite !Z.gtb_ltb, !elem_of_app.
  assert (forall (t : bool) r', (t = true -> rectinrect r' r = true) -> (rc, b) ∈ (if t then [(r', true)] else []) -> rectinrect rc r = true /\ b = true) as Hp.
  { intros [] r' Hr' Hin; [|by apply elem_of_nil in Hin]. apply list_elem_of_singleton in Hin as [= -> ->]. auto. }
  intros [Hin|[Hin|[Hin|Hin]]]; (eapply Hp; [|exact Hin]);
    intros; unfold rectinrect; cbn [Rect rmin rmax x y]; rewrite !andb_true_iff; case_tests; lia.
Qed.

(** ** The pieces of a window *)

Definition uncovered_rect (fs : list Rectangle) (r : Rectangle) : bool := forallb (fun fr => negb (rectXrect r fr)) fs.
(** A window that is marked clear is on the screen, with nothing in front of it. *)
Definition clear_ok (l : memlayer) (scr : Rectangle) (fs : list Rectangle) : Prop :=
  clear l = true -> rectinrect (screenr l) scr = true /\ uncovered_rect fs (screenr l) = true.
Definition visible (scr : Rectangle) (fs : list Rectangle) (p : Point) : bool := ptinrect p scr && negb (covered fs p).
Lemma uncovered_point fs r p : uncovered_rect fs r = true -> ptinrect p r = true -> covered fs p = false.
Proof.
  intros Hu Hp. unfold covered. apply not_true_is_false. intros (fr & Hfr & Hpf)%existsb_exists.
  unfold uncovered_rect in Hu. rewrite forallb_forall in Hu. specialize (Hu fr Hfr). unfold rectXrect, ptinrect in *.
  rewrite !andb_true_iff in Hp, Hpf. rewrite negb_true_iff, !andb_false_iff in Hu. lia.
Qed.
Lemma count_calls l scr fs r0 p : Forall ordered fs -> ordered scr -> clear_ok l scr fs ->
  let v := visible scr fs p in
  pieces_at false p (calls l scr fs r0) = b2n (ptinrect p r0 && ptinrect p (screenr l) && v) /\
  pieces_at true p (calls l scr fs r0) = b2n (ptinrect p r0 && ptinrect p (screenr l) && negb v).
Proof.
  intros Hfs Hscr Hclear v. unfold calls. destruct (rectclip r0 (screenr l)) as [[] r] eqn:E0; cbn [negb].
  2:{ apply rectclip_out in E0 as (_ & _ & E0). by rewrite E0. }
  apply rectclip_in in E0 as (_ & Hrl & _ & <-). subst v. unfold visible. destruct (clear l) eqn:Ecl.
  { destruct (Hclear Ecl) as [Hs Hu]. cbn [pieces_at eqb andb]. destruct (ptinrect p r) eqn:Ep; [|done].
    pose proof (rectinrect_inside p _ _ Hrl Ep) as Hl. by rewrite (rectinrect_inside p _ _ Hs Hl), (uncovered_point fs _ p Hu Hl). }
  destruct (rectclip r scr) as [on r1] eqn:E1. rewrite !count_app.
  assert ((if on then pieces_at false p (pieces fs r1) else O) = b2n (ptinrect p r && (ptinrect p scr && negb (covered fs p))) /\
    (if on then pieces_at true p (pieces fs r1) else O) = b2n (ptinrect p r && ptinrect p scr && covered fs p) /\ (on = rectXrect r scr)) as (H1 & H2 & Hon).
  { destruct on; [apply rectclip_in in E1 as (_ & _ & -> & E1)|apply rectclip_out in E1 as (_ & -> & E1)].
    - destruct (count_pieces p fs Hfs r1) as [-> ->]. rewrite E1. by destruct (ptinrect p r), (ptinrect p scr), (covered fs p).
    - specialize (E1 p). by destruct (ptinrect p r), (ptinrect p scr). }
  assert (forall b, pieces_at b p (if on then pieces fs r1 else []) = if on then pieces_at b p (pieces fs r1) else O) as Ec by (by intros b; destruct on).
  rewrite !Ec, H1, H2. clear H1 H2 Ec. destruct (rectinrect r scr) eqn:Ein.
  - cbn [pieces_at]. pose proof (rectinrect_inside p r scr Ein). destruct (ptinrect p r); [|done]. rewrite H by done. by destruct (covered fs p).
  - subst on. destruct (rectXrect r scr) eqn:EX; cbn [negb].
    + destruct (off_cuts p r scr EX Hscr) as [-> ->]. by destruct (ptinrect p r), (ptinrect p scr), (covered fs p).
    + cbn [pieces_at eqb andb]. destruct (ptinrect p r) eqn:Ep; [|done]. destruct (ptinrect p scr) eqn:Es; [|done].
      exfalso. unfold rectXrect, ptinrect in *. rewrite !andb_true_iff in Ep, Es. rewrite !andb_false_iff in EX. lia.
Qed.
(** Each piece is inside the rectangle and the window; the pieces on the screen are inside the screen. *)
Lemma in_calls l scr fs r0 rc b : clear_ok l scr fs -> (rc, b) ∈ calls l scr fs r0 ->
  rectinrect rc r0 = true /\ rectinrect rc (screenr l) = true /\ (b = false -> rectinrect rc scr = true).
Proof.
  intros Hclear. unfold calls. destruct (rectclip r0 (screenr l)) as [[] r] eqn:E0; cbn [negb]; [|by intros ?%elem_of_nil].
  apply rectclip_in in E0 as (Hr0 & Hrl & _ & _).
  assert (forall rc, rectinrect rc r = true -> rectinrect rc r0 = true /\ rectinrect rc (screenr l) = true) as Hsub
    by (intros rc' Hrc; split; by eapply rectinrect_trans).
  destruct (clear l) eqn:Ecl.
  { intros [= -> ->]%list_elem_of_singleton. destruct (Hsub r (rectinrect_refl r)). destruct (Hclear Ecl) as [Hs _].
    split; [done|]. split; [done|]. intros _. by eapply rectinrect_trans. }
  destruct (rectclip r scr) as [on r1] eqn:E1. rewrite elem_of_app. intros [Hin|Hin].
  - destruct on; [|by apply elem_of_nil in Hin]. apply rectclip_in in E1 as (H1 & H2 & _ & _). apply in_pieces in Hin.
    destruct (Hsub rc); [by eapply rectinrect_trans|]. split; [done|]. split; [done|]. intros _. exact (rectinrect_trans _ _ _ Hin H2).
  - destruct (rectinrect r scr); [by apply elem_of_nil in Hin|]. destruct (rectXrect r scr) eqn:EX; cbn [negb] in Hin.
    + apply in_off_pieces in Hin as [Hin ->]; [|done]. destruct (Hsub rc Hin). done.
    + apply list_elem_of_singleton in Hin as [= -> ->]. destruct (Hsub r (rectinrect_refl r)). done.
Qed.

(** ** Pieces are not inverted *)

Lemma ordered_clip r b r' : ordered r -> ordered b -> rectclip r b = (true, r') -> ordered r'.
Proof.
  unfold rectclip, ordered. destruct (rectXrect r b) eqn:EX; [|done]. cbn [negb]. intros Hr Hb [= <-].
  unfold rectXrect in EX. rewrite !andb_true_iff in EX. cbn [rmin rmax x y]. rewrite !Z.gtb_ltb. case_ifs; lia.
Qed.
Lemma ordered_pieces rc b fs : Forall ordered fs -> forall r, ordered r -> (rc, b) ∈ pieces fs r -> ordered rc.
Proof.
  induction 1 as [|fr fs Hfr _ IH]; intros r Hr; simpl.
  - by intros [= -> ->]%list_elem_of_singleton.
  - destruct (rectXrect r fr) eqn:EX; [|by apply IH]. cbn [negb].
    assert (forall (t : bool) r', (t = true -> ordered r') -> (rc, b) ∈ (if t then pieces fs r' else []) -> ordered rc) as Hp.
    { intros [] r' Hr' Hin; [|by apply elem_of_nil in Hin]. eapply IH; [|exact Hin]. auto. }
    rewrite !elem_of_app, list_elem_of_singleton. unfold rectXrect in EX. rewrite !andb_true_iff in EX. unfold ordered in *.
    intros [Hin|[Hin|[Hin|[Hin|[= -> ->]]]]]; [eapply Hp; [|exact Hin]..|]; intros; cbn [Rect rmin rmax x y]; case_tests; lia.
Qed.
Lemma ordered_off_pieces rc b r scr : ordered r -> ordered scr -> rectXrect r scr = true -> (rc, b) ∈ off_pieces r scr -> ordered rc.
Proof.
  intros Hr Hs EX. unfold rectXrect in EX. rewrite !andb_true_iff in EX. unfold off_pieces. rewrite !Z.gtb_ltb, !elem_of_app. unfold ordered in *.
  assert (forall (t : bool) r', (t = true -> ordered r') -> (rc, b) ∈ (if t then [(r', true)] else []) -> ordered rc) as Hp.
  { intros [] r' Hr' Hin; [|by apply elem_of_nil in Hin]. apply list_elem_of_singleton in Hin as [= -> ->]. auto. }
  intros [Hin|[Hin|[Hin|Hin]]]; (eapply Hp; [|exact Hin]); intros; unfold ordered; cbn [Rect rmin rmax x y]; case_tests; lia.
Qed.
Lemma ordered_calls l scr fs r0 rc b : Forall ordered fs -> ordered scr -> ordered (screenr l) -> ordered r0 ->
  (rc, b) ∈ calls l scr fs r0 -> ordered rc.
Proof.
  intros Hfs Hscr Hl Hr0. unfold calls. destruct (rectclip r0 (screenr l)) as [[] r] eqn:E0; cbn [negb]; [|by intros ?%elem_of_nil].
  pose proof (ordered_clip _ _ _ Hr0 Hl E0) as Hr. destruct (clear l); [by intros [= -> ->]%list_elem_of_singleton|].
  destruct (rectclip r scr) as [on r1] eqn:E1. rewrite elem_of_app. intros [Hin|Hin].
  - destruct on; [|by apply elem_of_nil in Hin]. eapply ordered_pieces; [done| |exact Hin]. exact (ordered_clip _ _ _ Hr Hscr E1).
  - destruct (rectinrect r scr); [by apply elem_of_nil in Hin|]. destruct (rectXrect r scr) eqn:EX; cbn [negb] in Hin.
    + exact (ordered_off_pieces _ _ _ _ Hr Hscr EX Hin).
    + by apply list_elem_of_singleton in Hin as [= -> ->].
Qed.
