(* ===== verification/LayerCalls.v ===== *)
(** * [_memlayerop] makes the calls that [LayerPieces] lists

    For a function that changes pixels only ([keeps]), [_memlayerop] is the sequence of its calls on the pieces. *)
From stdpp Require Import gmap list.
From S2P Require Import Prelude Geometry Layer LayerPieces.

Section calls.
Context {P : Type} `{Memdraw P}.
Abbreviation state := (state P).

(** The states have the same windows, in the same order. *)
Record same (s s' : state) : Prop := {
  sm_images : images s' = images s;
  sm_image : image s' = image s;
  sm_front : frontmost s' = frontmost s;
  sm_rear : rearmost s' = rearmost s }.
#[export] Instance same_preorder : PreOrder same.
Proof. split; [done|]. intros s1 s2 s3 [] []. split; congruence. Qed.
Definition keeps (fn : layer_fn P) : Prop := forall o r c b (s s' : state), fn o r c b s = Ok s' -> same s s'.
Lemma layer_of_same s s' w : same s s' -> layer_of w s' = layer_of w s.
Proof. intros E. unfold layer_of. by rewrite (sm_images _ _ E). Qed.
(** From the window [o] to the window [i] behind it there are the rectangles [fs]. *)
Inductive chain (s : state) (i : nat) : option nat -> list Rectangle -> Prop :=
  | chain_end : chain s i (Some i) []
  | chain_next f l fs : f <> i -> layer_of f s = Ok l -> chain s i (rear l) fs -> chain s i (Some f) (screenr l :: fs).
Lemma chain_same s s' i o fs : same s s' -> chain s i o fs -> chain s' i o fs.
Proof. intros E. induction 1 as [|f l fs Hf Hl Hc IH]; [constructor|]. apply chain_next; [done| |done]. by rewrite (layer_of_same s s' f E). Qed.

Section fn.
Variables (fn : layer_fn P) (i : nat) (clipr : Rectangle) (sv : option nat).
Fixpoint run_calls (l : list (Rectangle * bool)) (s : state) : result state :=
  match l with
  | [] => Ok s
  | (r, b) :: l => let* s := fn (if b : bool then sv else Some (image s)) r clipr b s in run_calls l s
  end.
Lemma run_calls_app l1 l2 s : run_calls (l1 ++ l2) s = (let* s := run_calls l1 s in run_calls l2 s).
Proof. revert s. induction l1 as [|[r b] l1 IH]; intros s; simpl; [done|]. destruct (fn _ _ _ _ s); simpl; [apply IH|done..]. Qed.
Context (K : keeps fn).
Lemma run_calls_same l : forall s s', run_calls l s = Ok s' -> same s s'.
Proof.
  induction l as [|[r b] l IH]; intros s s'; simpl; [by intros [= ->]|]. destruct (fn _ _ _ _ s) as [s1| | |] eqn:E; try done. simpl.
  intros Hr. etrans; [by eapply K|by apply IH].
Qed.
Lemma rbind_run l s (k1 k2 : state -> result state) :
  (forall s', same s s' -> k1 s' = k2 s') -> rbind (run_calls l s) k1 = rbind (run_calls l s) k2.
Proof. intros Hk. destruct (run_calls l s) as [s'| | |] eqn:E; try done. simpl. apply Hk. by eapply run_calls_same. Qed.
Lemma layerop_pieces fuel : forall r o fs s l,
  chain s i o fs -> (length fs < fuel)%nat -> layer_of i s = Ok l -> save l = sv ->
  _layerop fuel fn i r clipr o s = run_calls (pieces fs r) s.
Proof.
  induction fuel as [|fuel IH]; intros r o fs s l Hc Hf Hl Hsv; [lia|]. destruct Hc as [|f fl fs Hne Hfl Hc]; cbn [_layerop pieces].
  - rewrite decide_True by done. simpl. by destruct (fn _ _ _ _ s).
  - rewrite decide_False by congruence. cbn [of_ptr rbind]. rewrite Hfl. cbn [rbind]. simpl length in Hf.
    destruct (rectXrect r (screenr fl)) eqn:EX; cbn [negb]; [|by eapply IH; [done|lia|done|done]]. cbv beta zeta iota.
    assert (forall (t : bool) rc s', same s s' ->
      (if t then (let* fl := layer_of f s' in _layerop fuel fn i rc clipr (rear fl) s') else Ok s') = run_calls (if t then pieces fs rc else []) s') as Hrec.
    { intros [] rc s' E; [|done]. rewrite (layer_of_same s s' f E), Hfl. cbn [rbind]. eapply IH; [by eapply chain_same|lia| |done].
      by rewrite (layer_of_same s s' i E). }
    assert (forall (t : bool) rc, (if t then _layerop fuel fn i rc clipr (rear fl) s else Ok s) = run_calls (if t then pieces fs rc else []) s) as Hrec0
      by (intros t rc; rewrite <-Hrec, Hfl by done; done).
    rewrite run_calls_app, Hrec0. apply rbind_run. intros s1 E1. rewrite run_calls_app, Hrec by done. apply rbind_run. intros s2 E2.
    assert (same s s2) as E2' by (by etrans). rewrite run_calls_app, Hrec by done. apply rbind_run. intros s3 E3.
    assert (same s s3) as E3' by (by etrans). rewrite run_calls_app, Hrec by done. apply rbind_run. intros s4 E4.
    assert (same s s4) as E4' by (by etrans). rewrite (layer_of_same s s4 i E4'), Hl. cbn [rbind run_calls]. rewrite Hsv.
    by destruct (fn _ _ _ _ s4).
Qed.
Lemma off_screen_pieces r scr s : off_screen fn sv r scr clipr s = run_calls (off_pieces r scr) s.
Proof.
  unfold off_screen, off_pieces. rewrite !run_calls_app.
  assert (forall (t : bool) rc s', (if t then fn sv rc clipr true s' else Ok s') = run_calls (if t then [(rc, true)] else []) s') as Hrec.
  { intros [] rc s'; [|done]. simpl. by destruct (fn _ _ _ _ s'). }
  rewrite Hrec. apply rbind_run. intros s1 _. rewrite run_calls_app, Hrec. apply rbind_run. intros s2 _.
  rewrite run_calls_app, Hrec. apply rbind_run. intros s3 _. apply Hrec.
Qed.
Lemma memlayerop_calls fuel r0 fs s l im :
  layer_of i s = Ok l -> save l = sv -> image_of (image s) s = Ok im -> chain s i (frontmost s) fs -> (length fs < fuel)%nat ->
  _memlayerop fuel fn i r0 clipr s = run_calls (calls l (im_clipr im) fs r0) s.
Proof.
  intros Hl Hsv Him Hc Hf. unfold _memlayerop, calls. rewrite Hl. cbn [rbind]. destruct (rectclip r0 (screenr l)) as [[] r]; cbn [negb]; [|done].
  destruct (clear l); [simpl; by destruct (fn _ _ _ _ s)|]. rewrite Him. cbn [rbind].
  destruct (rectclip r (im_clipr im)) as [on r1]. rewrite run_calls_app.
  assert ((if on then _layerop fuel fn i r1 clipr (frontmost s) s else Ok s) = run_calls (if on then pieces fs r1 else []) s) as ->
    by (destruct on; [by eapply layerop_pieces|done]).
  apply rbind_run. intros s1 E1. destruct (rectinrect r (im_clipr im)); [done|]. rewrite (layer_of_same s s1 i E1), Hl. cbn [rbind]. rewrite Hsv.
  destruct (rectXrect r (im_clipr im)); cbn [negb]; [apply off_screen_pieces|]. simpl. by destruct (fn _ _ _ _ s1).
Qed.
End fn.
End calls.
