(* ===== verification/LayerOrder.v ===== *)
(** * The order of the windows

    The fields [front] and [rear] of the layers, with [frontmost] and [rearmost], are a list in both directions
    ([stacked]).  [swap_front] and [swap_rear] exchange two neighbours; nothing else of the images changes ([geo]). *)
From stdpp Require Import gmap list.
From S2P Require Import Prelude Geometry Layer LayerPieces LayerCalls.

Definition lay (imgs : gmap nat memimage) (w : nat) : option memlayer := imgs !! w ≫= im_layer.
Definition head_or (zs : list nat) (n : option nat) : option nat := match zs with [] => n | w :: _ => Some w end.
Definition last_or (p : option nat) (zs : list nat) : option nat := match last zs with Some w => Some w | None => p end.
(** The windows [zs] are linked; [p] is in front of them and [n] behind. *)
Fixpoint links (imgs : gmap nat memimage) (p : option nat) (zs : list nat) (n : option nat) : Prop :=
  match zs with
  | [] => True
  | w :: zs => (exists l, lay imgs w = Some l /\ front l = p /\ rear l = head_or zs n) /\ links imgs (Some w) zs n
  end.
(** What does not depend on the order: all but the links and [clear]. *)
Definition bare (l : memlayer) : memlayer := mkLayer (screenr l) (delta l) (save l) None None (refreshfn l) false.
Definition geo (imgs : gmap nat memimage) : gmap nat memimage :=
  (fun im => mkImage (im_r im) (im_clipr im) (bare <$> im_layer im)) <$> imgs.

Lemma last_or_app p l1 l2 : last_or p (l1 ++ l2) = last_or (last_or p l1) l2.
Proof.
  unfold last_or. destruct l2 as [|w l2 _] using rev_ind; [by rewrite app_nil_r|]. by rewrite app_assoc, !last_snoc.
Qed.
Lemma last_or_cons p w zs : last_or p (w :: zs) = last_or (Some w) zs.
Proof. exact (last_or_app p [w] zs). Qed.
Lemma head_or_app l1 l2 n : head_or (l1 ++ l2) n = head_or l1 (head_or l2 n).
Proof. by destruct l1. Qed.
Lemma links_app imgs l1 : forall p l2 n, links imgs p (l1 ++ l2) n <-> links imgs p l1 (head_or l2 n) /\ links imgs (last_or p l1) l2 n.
Proof.
  induction l1 as [|w l1 IH]; intros p l2 n; simpl; [by unfold last_or; simpl; tauto|]. rewrite IH, head_or_app, last_or_cons. tauto.
Qed.
Lemma links_frame imgs imgs' zs : forall p n,
  (forall w, w ∈ zs -> forall l, lay imgs w = Some l -> exists l', lay imgs' w = Some l' /\ front l' = front l /\ rear l' = rear l) ->
  links imgs p zs n -> links imgs' p zs n.
Proof.
  induction zs as [|w zs IH]; intros p n Hf; simpl; [done|]. intros [(l & Hl & Hp & Hr) Hz]. split.
  - destruct (Hf w (list_elem_of_here _ _) l Hl) as (l' & Hl' & Hp' & Hr'). exists l'. split; [done|]. split; congruence.
  - apply IH; [|done]. intros w' Hw'. apply Hf. by right.
Qed.

Section order.
Context {P : Type} `{Memdraw P}.
Abbreviation state := (state P).

Record stacked (s : state) (zs : list nat) : Prop := {
  st_nodup : NoDup zs;
  st_links : links (images s) None zs None;
  st_front : frontmost s = head_or zs None;
  st_rear : rearmost s = last_or None zs }.

Lemma layer_of_lay w (s : state) : layer_of w s = of_ptr (lay (images s) w).
Proof. done. Qed.
(** Nothing changed but links and marks. *)
Record rearranged (s s' : state) : Prop := {
  ra_geo : geo (images s') = geo (images s);
  ra_image : image s' = image s;
  ra_pixels : pixels s' = pixels s }.
#[export] Instance rearranged_preorder : PreOrder rearranged.
Proof. split; [done|]. intros s1 s2 s3 [] []. split; congruence. Qed.
(** An update of a layer. *)
Lemma upd_layer_ok w f (s : state) l : lay (images s) w = Some l -> bare (f l) = bare l ->
  exists s', upd_layer w f s = Ok s' /\ (forall w', lay (images s') w' = if decide (w' = w) then Some (f l) else lay (images s) w') /\
    rearranged s s' /\ frontmost s' = frontmost s /\ rearmost s' = rearmost s.
Proof.
  intros Hl Hb. unfold lay in Hl. destruct (images s !! w) as [im|] eqn:Ei; [|done]. simpl in Hl. unfold upd_layer, image_of. rewrite Ei.
  cbn [of_ptr rbind]. rewrite Hl. cbn [of_ptr rbind]. eexists. split; [done|]. cbn [set_images images image frontmost rearmost pixels].
  split; [intros w'; unfold lay; case_decide as E; [subst; by rewrite lookup_insert_eq|by rewrite lookup_insert_ne]|].
  split; [|done]. split; [|done..]. cbn [set_images images].
  unfold geo. rewrite fmap_insert. apply insert_id. rewrite lookup_fmap, Ei. simpl. rewrite Hl. simpl. by rewrite Hb.
Qed.
Lemma links_ends imgs imgs' zs : forall p n p' n', NoDup zs -> links imgs p zs n ->
  (forall w, w ∈ zs -> forall l, lay imgs w = Some l -> exists l', lay imgs' w = Some l' /\
    front l' = (if decide (head zs = Some w) then p' else front l) /\ rear l' = (if decide (last zs = Some w) then n' else rear l)) ->
  links imgs' p' zs n'.
Proof.
  induction zs as [|w zs IH]; intros p n p' n' Hnd Hz Hf; simpl; [done|]. apply NoDup_cons in Hnd as [Hw Hnd].
  destruct Hz as [(l & Hl & Hp & Hr) Hz]. destruct (Hf w (list_elem_of_here _ _) l Hl) as (l' & Hl' & Hp' & Hr'). split.
  - exists l'. split; [done|]. rewrite decide_True in Hp' by done. split; [done|]. rewrite Hr'. destruct zs as [|w2 zs]; [by rewrite decide_True|].
    rewrite decide_False; [exact Hr|]. intros [= El]. apply Hw. apply list_elem_of_lookup. exists (Nat.pred (length (w2 :: zs))).
    by rewrite <-last_lookup.
  - eapply (IH (Some w) n); [done|done|]. intros w' Hw' l1 Hl1. destruct (Hf w' (list_elem_of_further _ _ _ Hw') l1 Hl1) as (l2 & Hl2 & Hp2 & Hr2).
    exists l2. split; [done|]. rewrite decide_False in Hp2 by (intros [= ->]; done). split.
    + rewrite Hp2. destruct (decide (head zs = Some w')) as [E|E]; [|done]. destruct zs as [|w2 zs]; [done|]. injection E as <-. destruct Hz as [(l3 & Hl3 & Hp3 & _) _]. congruence.
    + rewrite Hr2. destruct zs as [|w2 zs]; [by apply elem_of_nil in Hw'|]. done.
Qed.
Lemma links_lookup imgs A w B : links imgs None (A ++ w :: B) None ->
  exists l, lay imgs w = Some l /\ front l = last_or None A /\ rear l = head_or B None.
Proof. intros [_ [Hw _]]%links_app. exact Hw. Qed.
Lemma links_lay imgs zs p n w : links imgs p zs n -> w ∈ zs -> exists l, lay imgs w = Some l.
Proof. revert p. induction zs as [|w' zs IH]; intros p Hz Hw; [by apply elem_of_nil in Hw|]. destruct Hz as [(l & Hl & _) Hz]. apply elem_of_cons in Hw as [->|Hw]; [by exists l|by eapply IH]. Qed.

(** ** Exchanging neighbours *)

(** The links after [f] and the window [i] behind it changed places between [ff] and [rr]. *)
Definition new_front (i f : nat) (ff rr : option nat) (w : nat) (v : option nat) : option nat :=
  if decide (w = i) then ff else if decide (w = f) then Some i else if decide (rr = Some w) then Some f else v.
Definition new_rear (i f : nat) (ff rr : option nat) (w : nat) (v : option nat) : option nat :=
  if decide (w = i) then Some f else if decide (w = f) then rr else if decide (ff = Some w) then Some i else v.
Definition relinked (i f : nat) (ff rr : option nat) (s s' : state) : Prop :=
  forall w l, lay (images s) w = Some l ->
    lay (images s') w = Some (mkLayer (screenr l) (delta l) (save l) (new_front i f ff rr w (front l)) (new_rear i f ff rr w (rear l)) (refreshfn l) (clear l)).
Lemma relinked_stacked i f A B s s' :
  stacked s (A ++ f :: i :: B) -> relinked i f (last_or None A) (head_or B None) s s' ->
  frontmost s' = head_or (A ++ i :: f :: B) None -> rearmost s' = last_or None (A ++ i :: f :: B) -> stacked s' (A ++ i :: f :: B).
Proof.
  intros [Hnd Hl _ _] Hr Hf Hb. assert (A ++ i :: f :: B ≡ₚ A ++ f :: i :: B) as Hp by (by rewrite (Permutation_swap i f)).
  split; [by rewrite Hp| |done|done]. apply NoDup_app in Hnd as (HA & HAB & Hnd). apply NoDup_cons in Hnd as [Hfi Hnd].
  apply NoDup_cons in Hnd as [HiB HB]. assert (f ∉ B /\ f <> i) as [HfB Hne] by set_solver.
  assert (i ∉ A /\ f ∉ A) as [HiA HfA] by (split; intros Hx; apply (HAB _ Hx); set_solver).
  apply links_app in Hl as [HlA HlB]. cbn [links head_or] in HlB. destruct HlB as ((lf & Elf & _) & (li & Eli & _) & HlB).
  apply links_app. cbn [links head_or]. split; [|split; [|split]].
  - eapply (links_ends _ _ A None (Some f) None); [done|done|]. intros w Hw l Hl. rewrite (Hr w l Hl). eexists. split; [done|]. cbn [front rear].
    unfold new_front, new_rear. rewrite !(decide_False (P := w = i)), !(decide_False (P := w = f)) by (intros ->; done).
    rewrite (decide_False (P := head_or B None = Some w)) by (destruct B; simpl; [done|]; intros [= ->]; apply (HAB w Hw); set_solver).
    unfold last_or. split.
    + case_decide as E; [|done]. destruct A as [|a A]; [done|]. injection E as ->. destruct HlA as [(l2 & Hl2 & Hp2 & _) _]. congruence.
    + destruct (last A); [|done]. done.
  - rewrite (Hr i li Eli). eexists. split; [done|]. cbn [front rear]. unfold new_front, new_rear. by rewrite !decide_True.
  - rewrite (Hr f lf Elf). eexists. split; [done|]. cbn [front rear]. unfold new_front, new_rear.
    rewrite !(decide_False (P := f = i)), !decide_True by done. done.
  - eapply (links_ends _ _ B (Some i) None); [done|done|]. intros w Hw l Hl. rewrite (Hr w l Hl). eexists. split; [done|]. cbn [front rear].
    unfold new_front, new_rear. rewrite !(decide_False (P := w = i)), !(decide_False (P := w = f)) by (intros ->; done).
    rewrite (decide_False (P := last_or None A = Some w)).
    2:{ unfold last_or. destruct (last A) as [a|] eqn:El; [|done]. intros [= ->]. apply (HAB w); [|set_solver].
        apply list_elem_of_lookup. exists (Nat.pred (length A)). by rewrite <-last_lookup. }
    split; [destruct B; done|]. case_decide as E; [|done]. apply last_Some in E as (B' & ->).
    apply links_app in HlB as [_ [(l2 & Hl2 & _ & Hr2) _]]. simpl in Hr2. congruence.
Qed.
(** The exchange in [zs], where [f] is in front of [i]. *)
Definition swapped (i f : nat) (A B : list nat) (s s' : state) : Prop :=
  stacked s' (A ++ i :: f :: B) /\ rearranged s s' /\
  forall w l, lay (images s) w = Some l -> exists l', lay (images s') w = Some l' /\ clear l' = clear l /\ bare l' = bare l.
Lemma swapped_intro i f A B s s' :
  stacked s (A ++ f :: i :: B) -> relinked i f (last_or None A) (head_or B None) s s' -> rearranged s s' ->
  frontmost s' = (match A with [] => Some i | _ => frontmost s end) ->
  rearmost s' = (match B with [] => Some f | _ => rearmost s end) -> swapped i f A B s s'.
Proof.
  intros Hs Hr Hg Hf Hb. split; [|split; [done|intros w l Hl; eexists; split; [by apply Hr|done]]].
  apply (relinked_stacked i f A B s s'); [done|done| |].
  - rewrite Hf, (st_front _ _ Hs). by destruct A.
  - rewrite Hb, (st_rear _ _ Hs), !last_or_app, !last_or_cons. destruct B as [|b B]; [done|]. by rewrite !last_or_cons.
Qed.
Ltac upd_step H :=
  match goal with |- context [upd_layer ?w ?f ?s] =>
    let s1 := fresh "s" in let Hl := fresh "L" in let Hg := fresh "G" in let Hfr := fresh "F" in let Hre := fresh "R" in
    edestruct (upd_layer_ok w f s) as (s1 & -> & Hl & Hg & Hfr & Hre); [H|done|cbn [rbind]] end.
Ltac case_decides := repeat case_decide; simplify_eq; try congruence.
Lemma last_or_in A w : last_or None A = Some w -> w ∈ A.
Proof.
  unfold last_or. destruct (last A) as [a|] eqn:El; [|done]. intros [= ->]. apply list_elem_of_lookup. exists (Nat.pred (length A)). by rewrite <-last_lookup.
Qed.
Lemma head_or_in B w : head_or B None = Some w -> w ∈ B.
Proof. destruct B; [done|]. intros [= ->]. by left. Qed.
(** The window in front of a place is linked to the new one, and the one behind. *)
Lemma front_link_ok A v (s : state) : (forall w, w ∈ A -> exists l, lay (images s) w = Some l) ->
  exists s1, (match last_or None A with None => Ok (set_frontmost v s) | Some ff => upd_layer ff (set_rear v) s end) = Ok s1 /\
    (forall w, lay (images s1) w = if decide (last_or None A = Some w) then set_rear v <$> lay (images s) w else lay (images s) w) /\
    rearranged s s1 /\ frontmost s1 = (match A with [] => v | _ => frontmost s end) /\ rearmost s1 = rearmost s.
Proof.
  intros HA. destruct (last_or None A) as [a|] eqn:El.
  - destruct (HA a (last_or_in _ _ El)) as (la & Ela). destruct (upd_layer_ok a (set_rear v) s la Ela eq_refl) as (s1 & -> & L & G & F & R).
    exists s1. split; [done|]. split; [intros w; rewrite L; case_decides; by rewrite Ela|]. split; [done|]. split; [|done]. by destruct A.
  - destruct A as [|a A _] using rev_ind; [by eexists|]. by rewrite last_or_app in El.
Qed.
Lemma rear_link_ok B v (s : state) : (forall w, w ∈ B -> exists l, lay (images s) w = Some l) ->
  exists s1, (match head_or B None with None => Ok (set_rearmost v s) | Some rr => upd_layer rr (set_front v) s end) = Ok s1 /\
    (forall w, lay (images s1) w = if decide (head_or B None = Some w) then set_front v <$> lay (images s) w else lay (images s) w) /\
    rearranged s s1 /\ frontmost s1 = frontmost s /\ rearmost s1 = (match B with [] => v | _ => rearmost s end).
Proof.
  intros HB. destruct B as [|b B]; [by eexists|]. simpl head_or. destruct (HB b (list_elem_of_here _ _)) as (lb & Elb).
  destruct (upd_layer_ok b (set_front v) s lb Elb eq_refl) as (s1 & -> & L & G & F & R). exists s1. split; [done|].
  split; [intros w; rewrite L; case_decides; by rewrite Elb|]. done.
Qed.
(** What the windows around the exchange are not. *)
Record apart (i f : nat) (A B : list nat) : Prop := {
  ap_ne : f <> i; ap_fi : last_or None A <> Some i; ap_ff : last_or None A <> Some f;
  ap_ri : head_or B None <> Some i; ap_rf : head_or B None <> Some f }.
Lemma NoDup_apart i f A B : NoDup (A ++ f :: i :: B) -> apart i f A B.
Proof.
  intros (HA & HAB & Hnd)%NoDup_app. apply NoDup_cons in Hnd as [Hfi Hnd]. apply NoDup_cons in Hnd as [HiB HB].
  split; [set_solver| | |intros Hw%head_or_in; done|intros Hw%head_or_in; set_solver]; intros Hw%last_or_in; apply (HAB _ Hw); set_solver.
Qed.
Lemma neighbours f i A B s : stacked s (A ++ f :: i :: B) -> exists lf li,
  lay (images s) f = Some lf /\ front lf = last_or None A /\ rear lf = Some i /\
  lay (images s) i = Some li /\ front li = Some f /\ rear li = head_or B None.
Proof.
  intros [_ Hl _ _]. destruct (links_lookup _ _ _ _ Hl) as (lf & Elf & Hff & Hfr). change (A ++ f :: i :: B) with (A ++ [f] ++ i :: B) in Hl.
  rewrite app_assoc in Hl. destruct (links_lookup _ _ _ _ Hl) as (li & Eli & Hif & Hir). exists lf, li. rewrite last_or_app in Hif. done.
Qed.
Lemma stacked_lay s zs w : stacked s zs -> w ∈ zs -> exists l, lay (images s) w = Some l.
Proof. intros [_ Hl _ _]. by apply links_lay with (p := None) (n := None). Qed.

Lemma swap_front_ok i f A B s : stacked s (A ++ f :: i :: B) -> exists s', swap_front i f s = Ok s' /\ swapped i f A B s s'.
Proof.
  intros Hs. destruct (neighbours f i A B s Hs) as (lf & li & Elf & Hff & Hfr & Eli & Hif & Hir). destruct (NoDup_apart _ _ _ _ (st_nodup _ _ Hs)).
  unfold swap_front. rewrite !layer_of_lay, Elf, Eli. cbn [of_ptr rbind]. rewrite Hff, Hir.
  destruct (front_link_ok A (Some i) s) as (s1 & -> & L1 & G1 & F1 & R1); [intros w Hw; apply (stacked_lay _ _ _ Hs); set_solver|]. cbn [rbind].
  destruct (rear_link_ok B (Some f) s1) as (s2 & -> & L2 & G2 & F2 & R2).
  { intros w Hw. rewrite L1. destruct (stacked_lay s _ w Hs) as [l El]; [set_solver|]. rewrite El. case_decide; by eexists. }
  cbn [rbind].
  upd_step ltac:(rewrite L2, decide_False by done; rewrite L1, decide_False by done; exact Eli).
  upd_step ltac:(rewrite L, decide_True by done; reflexivity).
  upd_step ltac:(rewrite L0, decide_False by done; rewrite L, decide_False by done; rewrite L2, decide_False by done; rewrite L1, decide_False by done; exact Elf).
  upd_step ltac:(rewrite L3, decide_True by done; reflexivity).
  eexists. split; [reflexivity|]. apply swapped_intro; [done| | |congruence|destruct B; congruence].
  - intros w l El. rewrite L4, L3, L0, L, L2, L1. unfold new_front, new_rear.
    destruct (decide (w = f)) as [->|Hwf].
    { rewrite decide_False by done. assert (l = lf) as -> by congruence. case_decides. done. }
    destruct (decide (w = i)) as [->|Hwi].
    { assert (l = li) as -> by congruence. by case_decides. }
    rewrite El. destruct l. by case_decides.
  - repeat (etrans; [eassumption|]). done.
Qed.
Lemma swap_rear_ok i r A B s : stacked s (A ++ i :: r :: B) -> exists s', swap_rear i r s = Ok s' /\ swapped r i A B s s'.
Proof.
  intros Hs. destruct (neighbours i r A B s Hs) as (li & lr & Eli & Hif & Hir & Elr & Hrf & Hrr). destruct (NoDup_apart _ _ _ _ (st_nodup _ _ Hs)).
  unfold swap_rear. rewrite !layer_of_lay, Elr, Eli. cbn [of_ptr rbind]. rewrite Hrr, Hif.
  destruct (rear_link_ok B (Some i) s) as (s1 & -> & L1 & G1 & F1 & R1); [intros w Hw; apply (stacked_lay _ _ _ Hs); set_solver|]. cbn [rbind].
  destruct (front_link_ok A (Some r) s1) as (s2 & -> & L2 & G2 & F2 & R2).
  { intros w Hw. rewrite L1. destruct (stacked_lay s _ w Hs) as [l El]; [set_solver|]. rewrite El. case_decide; by eexists. }
  cbn [rbind].
  upd_step ltac:(rewrite L2, decide_False by done; rewrite L1, decide_False by done; exact Eli).
  upd_step ltac:(rewrite L, decide_True by done; reflexivity).
  upd_step ltac:(rewrite L0, decide_False by done; rewrite L, decide_False by done; rewrite L2, decide_False by done; rewrite L1, decide_False by done; exact Elr).
  upd_step ltac:(rewrite L3, decide_True by done; reflexivity).
  eexists. split; [reflexivity|]. apply swapped_intro; [done| | |destruct A; congruence|congruence].
  - intros w l El. rewrite L4, L3, L0, L, L2, L1. unfold new_front, new_rear.
    destruct (decide (w = r)) as [->|Hwf].
    { assert (l = lr) as -> by congruence. by case_decides. }
    destruct (decide (w = i)) as [->|Hwi].
    { assert (l = li) as -> by congruence. by case_decides. }
    rewrite El. destruct l. by case_decides.
  - repeat (etrans; [eassumption|]). done.
Qed.
(** The chain that [_layerop] follows from the front to a window. *)
Definition rects (imgs : gmap nat memimage) (A : list nat) : list Rectangle := omap (fun w => screenr <$> lay imgs w) A.
Lemma links_chain (s : state) i A : forall p, links (images s) p A (Some i) -> i ∉ A ->
  chain s i (head_or A (Some i)) (rects (images s) A) /\ (length (rects (images s) A) <= length A)%nat.
Proof.
  induction A as [|w A IH]; intros p Hl Hi; [split; [constructor|simpl; lia]|]. destruct Hl as [(l & El & _ & Hr) Hl].
  apply not_elem_of_cons in Hi as [Hiw HiA]. destruct (IH _ Hl HiA) as [Hc Hf]. unfold rects. cbn [head_or omap list_omap]. rewrite El. cbn [fmap option_fmap option_map].
  split; [|simpl; fold (rects (images s) A); lia].
  apply chain_next; [done|by rewrite layer_of_lay, El|]. by rewrite Hr.
Qed.
Lemma stacked_chain (s : state) A i B : stacked s (A ++ i :: B) ->
  chain s i (frontmost s) (rects (images s) A) /\ (length (rects (images s) A) <= length A)%nat.
Proof.
  intros Hs. rewrite (st_front _ _ Hs), head_or_app. pose proof (st_links _ _ Hs) as Hl. apply links_app in Hl as [Hl _].
  apply (links_chain s i A None Hl). intros Hi. pose proof (st_nodup _ _ Hs) as Hnd. apply NoDup_app in Hnd as (_ & HAB & _). apply (HAB i Hi). by left.
Qed.
(** There are not more windows than images. *)
Lemma stacked_length (s : state) zs : stacked s zs -> (length zs < windows s)%nat.
Proof.
  intros Hs. unfold windows. enough (length zs <= size (images s))%nat by lia. rewrite <-size_dom.
  replace (length zs) with (size (list_to_set zs : gset nat)) by (apply size_list_to_set; apply Hs).
  apply subseteq_size. intros w Hw. apply elem_of_list_to_set in Hw. destruct (stacked_lay s zs w Hs Hw) as [l El].
  apply elem_of_dom. unfold lay in El. destruct (images s !! w); [by eexists|done].
Qed.
End order.
