(* ===== verification/LayerPixels.v ===== *)
(** * What is on the screen and in the save areas

    [geo_ok]: the windows have save areas of their own that fit.  [shows] says that the screen and the save
    areas together hold a picture of each window: the pixels that are visible are on the screen, the others in the
    save area.  [memlhide] copies the visible pixels of a rectangle to the save area, [memlexpose] copies from there. *)
From stdpp Require Import gmap list.
From S2P Require Import Prelude Geometry Layer LayerPieces LayerCalls LayerOrder.

(** ** Coordinates without overflow *)

Definition small (v : Z) : Prop := - 2 ^ 28 <= v <= 2 ^ 28.
Definition small_pt (p : Point) : Prop := small (x p) /\ small (y p).
Definition small_rect (r : Rectangle) : Prop := small_pt (rmin r) /\ small_pt (rmax r).
Lemma s32_add_small a b : small a -> small b -> s32 (a + b) = a + b /\ s32 (a - b) = a - b.
Proof. unfold small. intros. split; apply s32_small; unfold is_s32; lia. Qed.
Lemma subpt_small p d : small_pt p -> small_pt d -> subpt p d = mkPoint (x p - x d) (y p - y d).
Proof. intros [] []. unfold subpt. f_equal; by apply s32_add_small. Qed.
Lemma addpt_subpt p d : small_pt p -> small_pt d -> addpt (subpt p d) d = p.
Proof.
  intros Hp Hd. rewrite subpt_small by done. unfold addpt. cbn [x y]. destruct p as [px py]. cbn [x y] in *. destruct Hp, Hd. unfold small in *.
  cbn [x y] in *. f_equal; rewrite s32_small by (unfold is_s32; lia); lia.
Qed.
Lemma rectsubpt_small r d : small_rect r -> small_pt d -> rectsubpt r d =
  mkRectangle (mkPoint (x (rmin r) - x d) (y (rmin r) - y d)) (mkPoint (x (rmax r) - x d) (y (rmax r) - y d)).
Proof. intros [] Hd. unfold rectsubpt. by rewrite !subpt_small. Qed.
Lemma rectaddpt_rectsubpt r d : small_rect r -> small_pt d -> rectaddpt (rectsubpt r d) d = r.
Proof. intros [] Hd. unfold rectaddpt, rectsubpt. cbn [rmin rmax]. rewrite !addpt_subpt by done. by destruct r. Qed.
Lemma in_rectsubpt p r d : small_pt p -> small_rect r -> small_pt d -> ptinrect (subpt p d) (rectsubpt r d) = ptinrect p r.
Proof.
  intros Hp Hr Hd. rewrite subpt_small, rectsubpt_small by done. unfold ptinrect. cbn [rmin rmax x y].
  lia.
Qed.
Lemma rectinrect_rectsubpt r s d : small_rect r -> small_rect s -> small_pt d -> rectinrect r s = true ->
  rectinrect (rectsubpt r d) (rectsubpt s d) = true.
Proof. intros Hr Hs Hd. rewrite !rectsubpt_small by done. unfold rectinrect. cbn [rmin rmax x y]. rewrite !andb_true_iff. lia. Qed.
Lemma small_inside p r : small_rect r -> ptinrect p r = true -> small_pt p.
Proof. intros [[] []]. unfold ptinrect, small_pt, small in *. rewrite !andb_true_iff. lia. Qed.
Lemma small_sub r s : small_rect s -> ordered r -> rectinrect r s = true -> small_rect r.
Proof. intros [[] []] []. unfold rectinrect, small_rect, small_pt, small in *. rewrite !andb_true_iff. lia. Qed.
(** The displacement of a copy between a window and its save area. *)
Lemma to_save r d : small_rect r -> small_pt d -> subpt (rmin r) (rmin (rectsubpt r d)) = d.
Proof.
  intros Hr Hd. rewrite rectsubpt_small by done. destruct Hr as [[] _], Hd, d as [dx dy]. unfold subpt. cbn [rmin x y] in *. unfold small in *.
  f_equal; rewrite s32_small by (unfold is_s32; lia); lia.
Qed.
Lemma from_save r d p : small_rect r -> small_pt d -> small_pt p ->
  let k := subpt (rmin (rectsubpt r d)) (rmin r) in rectaddpt r k = rectsubpt r d /\ addpt p k = subpt p d.
Proof.
  intros Hr Hd Hp k. assert (k = mkPoint (- x d) (- y d)) as ->.
  { subst k. rewrite rectsubpt_small by done. destruct Hr as [[] _], Hd. unfold subpt. cbn [rmin x y]. unfold small in *.
    f_equal; rewrite s32_small by (unfold is_s32; lia); lia. }
  assert (forall q, small_pt q -> addpt q (mkPoint (- x d) (- y d)) = subpt q d) as Ha.
  { intros q [] . destruct Hd. unfold addpt, subpt. cbn [x y]. f_equal; f_equal; lia. }
  split; [|by apply Ha]. destruct Hr. unfold rectaddpt, rectsubpt. by rewrite !Ha.
Qed.

(** ** Well-formed windows *)

Record window_ok (g : gmap nat memimage) (img : nat) (l : memlayer) : Prop := {
  wo_ordered : ordered (screenr l);
  wo_small : small_rect (screenr l);
  wo_delta : small_pt (delta l);
  wo_save sv : save l = Some sv -> sv <> img /\ g !! sv = Some (mkImage (rectsubpt (screenr l) (delta l)) (rectsubpt (screenr l) (delta l)) None);
  wo_refresh : save l = None -> is_Some (refreshfn l) }.
Record geo_ok (g : gmap nat memimage) (img : nat) (ws : list nat) : Prop := {
  go_screen : exists im, g !! img = Some im /\ im_layer im = None /\ ordered (im_r im) /\ ordered (im_clipr im) /\ small_rect (im_clipr im) /\
    rectinrect (im_clipr im) (im_r im) = true;
  go_windows w l : w ∈ ws -> lay g w = Some l -> window_ok g img l;
  go_saves w1 w2 l1 l2 sv : w1 ∈ ws -> w2 ∈ ws -> lay g w1 = Some l1 -> lay g w2 = Some l2 ->
    save l1 = Some sv -> save l2 = Some sv -> w1 = w2 }.
Lemma geo_ok_perm g img ws ws' : ws ≡ₚ ws' -> geo_ok g img ws -> geo_ok g img ws'.
Proof. intros Hp [H1 H2 H3]. split; [done|..]; intros *; rewrite <-?Hp; eauto. Qed.
Lemma lay_geo imgs w : lay (geo imgs) w = bare <$> lay imgs w.
Proof. unfold lay, geo. rewrite lookup_fmap. by destruct (imgs !! w). Qed.
Lemma rects_geo imgs A : rects (geo imgs) A = rects imgs A.
Proof. induction A as [|w A IH]; [done|]. unfold rects in *. cbn [omap list_omap]. rewrite lay_geo. destruct (lay imgs w); simpl; by rewrite IH. Qed.

Section pixels.
Context {P : Type} `{Memdraw P}.
Abbreviation state := (state P).

Definition valid (s : state) (zs : list nat) : Prop := geo_ok (geo (images s)) (image s) zs.
(** Where the screen can be drawn. *)
Definition screen (s : state) : Rectangle := match images s !! image s with Some im => im_clipr im | None => Rect 0 0 0 0 end.
Definition shown (s : state) (A : list nat) (p : Point) : bool := visible (screen s) (rects (images s) A) p.
Definition clears (s : state) (zs : list nat) : Prop := forall A w B l, zs = A ++ w :: B -> lay (images s) w = Some l ->
  clear_ok l (screen s) (rects (images s) A).
(** The picture of the window [w] is [c w]; where there is no window the screen shows [bg].  [C]: the windows of which this is known. *)
Record shows (C : nat -> Prop) (c : nat -> Point -> Z) (bg : Point -> Z) (s : state) (zs : list nat) : Prop := {
  sh_window A w B l sv p : zs = A ++ w :: B -> C w -> lay (images s) w = Some l -> save l = Some sv -> ptinrect p (screenr l) = true ->
    (if shown s A p then pixel (pixels s) (image s) p else pixel (pixels s) sv (subpt p (delta l))) = c w p;
  sh_ground p : ptinrect p (screen s) = true -> covered (rects (images s) zs) p = false -> pixel (pixels s) (image s) p = bg p }.

Lemma valid_screen s zs : valid s zs -> exists im, images s !! image s = Some im /\ im_layer im = None /\ ordered (im_r im) /\
  screen s = im_clipr im /\ ordered (screen s) /\ small_rect (screen s) /\ rectinrect (screen s) (im_r im) = true.
Proof.
  intros [(im & Him & Hl & Ho & Hc & Hs & Hin) _ _]. unfold screen. unfold geo in Him. rewrite lookup_fmap in Him.
  destruct (images s !! image s) as [im0|] eqn:E; [|done]. injection Him as <-. cbn [im_layer im_clipr im_r] in *. exists im0. split; [done|].
  split; [by destruct (im_layer im0)|]. done.
Qed.
Record window_facts (s : state) (l : memlayer) : Prop := {
  wf_ordered : ordered (screenr l);
  wf_small : small_rect (screenr l);
  wf_delta : small_pt (delta l);
  wf_save sv : save l = Some sv -> sv <> image s /\
    images s !! sv = Some (mkImage (rectsubpt (screenr l) (delta l)) (rectsubpt (screenr l) (delta l)) None);
  wf_refresh : save l = None -> is_Some (refreshfn l) }.
Lemma valid_window s zs w l : valid s zs -> w ∈ zs -> lay (images s) w = Some l -> window_facts s l.
Proof.
  intros V Hw Hl. destruct (go_windows _ _ _ V w (bare l) Hw) as [H1 H2 H3 H4 H5]; [by rewrite lay_geo, Hl|]. split; try done.
  intros sv Hsv. destruct (H4 sv Hsv) as [Hne Hg]. split; [done|]. unfold geo in Hg. rewrite lookup_fmap in Hg.
  destruct (images s !! sv) as [[r c lo]|]; [|done]. simpl in Hg. destruct lo; [done|]. by injection Hg as -> ->.
Qed.
Lemma ordered_rects s zs A : valid s zs -> (forall w, w ∈ A -> w ∈ zs) -> Forall ordered (rects (images s) A).
Proof.
  intros V HA. unfold rects. apply Forall_forall. intros r (w & Hw & Hr)%list_elem_of_omap.
  destruct (lay (images s) w) as [l|] eqn:El; [|done]. injection Hr as <-. exact (wf_ordered _ _ (valid_window s zs w l V (HA _ Hw) El)).
Qed.

(** ** The calls of hide and expose *)

Lemma lhideop_keeps i : keeps (lhideop (P := P) i).
Proof. intros o r c b s s'. unfold lhideop, memdraw_S, rbind. intros Hs. repeat case_match; simplify_eq; done. Qed.
Lemma lexposeop_keeps i : keeps (lexposeop (P := P) i).
Proof. intros o r c b s s'. unfold lexposeop, memdraw_S, rbind. intros Hs. repeat case_match; simplify_eq; done. Qed.

(** A list of pieces of the window [l]. *)
Definition pieces_of (s : state) (l : memlayer) (L : list (Rectangle * bool)) : Prop := forall rc b, (rc, b) ∈ L ->
  ordered rc /\ rectinrect rc (screenr l) = true /\ (b = false -> rectinrect rc (screen s) = true).
Lemma pieces_same s s' l L : same s s' -> pieces_of s l L -> pieces_of s' l L.
Proof. intros [E1 E2 _ _] HL rc b Hin. unfold screen. rewrite E1, E2. by apply HL. Qed.
Lemma layers_valid_same s s' zs : same s s' -> valid s zs -> valid s' zs.
Proof. intros [E1 E2 _ _]. unfold valid. by rewrite E1, E2. Qed.
Lemma facts_same s s' l : same s s' -> window_facts s l -> window_facts s' l.
Proof. intros [E1 E2 _ _] []. split; try done. intros sv. rewrite E1, E2. auto. Qed.

(** Hiding a piece of the screen. *)
Lemma hide_piece s zs i l sv rc c : valid s zs -> layer_of i s = Ok l -> window_facts s l -> save l = Some sv ->
  ordered rc -> rectinrect rc (screenr l) = true -> rectinrect rc (screen s) = true ->
  exists s', lhideop i (Some (image s)) rc c false s = Ok s' /\
    (forall p, ptinrect p (screenr l) = true -> pixel (pixels s') sv (subpt p (delta l)) =
      if ptinrect p rc then pixel (pixels s) (image s) p else pixel (pixels s) sv (subpt p (delta l))) /\
    (forall d q, d <> sv -> pixel (pixels s') d q = pixel (pixels s) d q).
Proof.
  intros V Hl F Hsv Ho Hin Hscr. destruct (valid_screen s zs V) as (im & Him & Hnl & _ & Esc & _ & _ & Hclip).
  destruct (wf_save _ _ F sv Hsv) as [Hne Hsave]. pose proof (small_sub rc _ (wf_small _ _ F) Ho Hin) as Hsm.
  unfold lhideop. rewrite Hl. cbn [rbind]. rewrite Hsv, decide_False by congruence. unfold memdraw_S, image_of. cbn [of_ptr rbind].
  rewrite Hsave, Him. cbn [of_ptr rbind im_layer]. rewrite Hnl. eexists. split; [reflexivity|]. cbn [set_pixels pixels].
  pose proof (to_save rc _ Hsm (wf_delta _ _ F)) as Hd. pose proof (rectaddpt_rectsubpt rc _ Hsm (wf_delta _ _ F)) as Hr.
  pose proof (rectinrect_rectsubpt rc _ _ Hsm (wf_small _ _ F) (wf_delta _ _ F) Hin) as Hs.
  assert (forall d q, pixel (blit (images s) sv (rectsubpt rc (delta l)) (image s) (rmin rc) (pixels s)) d q =
    if decide (d = sv /\ ptinrect q (rectsubpt rc (delta l)) = true) then pixel (pixels s) (image s) (addpt q (delta l)) else pixel (pixels s) d q) as Hb.
  { intros d q. rewrite (blit_copies _ _ _ _ _ _ d q _ _ Hsave Him Hne); rewrite ?Hd; try done; rewrite ?Hr; [by eapply rectinrect_trans|by rewrite <-Esc]. }
  split.
  - intros p Hp. rewrite Hb. pose proof (small_inside _ _ (wf_small _ _ F) Hp) as Hpsm.
    rewrite in_rectsubpt, addpt_subpt by (done || apply F). destruct (ptinrect p rc); case_decide; naive_solver.
  - intros d q Hdne. rewrite Hb. case_decide; naive_solver.
Qed.
Lemma expose_piece s zs i l sv rc c : valid s zs -> layer_of i s = Ok l -> window_facts s l -> save l = Some sv ->
  ordered rc -> rectinrect rc (screenr l) = true -> rectinrect rc (screen s) = true ->
  exists s', lexposeop i (Some (image s)) rc c false s = Ok s' /\
    (forall p, ptinrect p (screenr l) = true -> pixel (pixels s') (image s) p =
      if ptinrect p rc then pixel (pixels s) sv (subpt p (delta l)) else pixel (pixels s) (image s) p) /\
    (forall d q, d <> image s \/ ptinrect q (screenr l) = false -> pixel (pixels s') d q = pixel (pixels s) d q).
Proof.
  intros V Hl F Hsv Ho Hin Hscr. destruct (valid_screen s zs V) as (im & Him & Hnl & _ & Esc & _ & _ & Hclip).
  destruct (wf_save _ _ F sv Hsv) as [Hne Hsave]. pose proof (small_sub rc _ (wf_small _ _ F) Ho Hin) as Hsm.
  unfold lexposeop. rewrite Hl. cbn [rbind]. rewrite Hsv. unfold memdraw_S, image_of. cbn [of_ptr rbind].
  rewrite Hsave, Him. cbn [of_ptr rbind im_layer]. rewrite Hnl. eexists. split; [reflexivity|]. cbn [set_pixels pixels].
  pose proof (rectinrect_rectsubpt rc _ _ Hsm (wf_small _ _ F) (wf_delta _ _ F) Hin) as Hs.
  set (k := subpt (rmin (rectsubpt rc (delta l))) (rmin rc)).
  assert (forall d q, pixel (blit (images s) (image s) rc sv (rmin (rectsubpt rc (delta l))) (pixels s)) d q =
    if decide (d = image s /\ ptinrect q rc = true) then pixel (pixels s) sv (addpt q k) else pixel (pixels s) d q) as Hb.
  { assert (rectaddpt rc k = rectsubpt rc (delta l)) as Hk by (apply (from_save rc (delta l) (rmin rc)); [done|apply F|apply Hsm]).
    intros d q. rewrite (blit_copies _ _ _ _ _ _ d q _ _ Him Hsave); fold k; rewrite ?Hk; try done; [by eapply rectinrect_trans|by rewrite <-Esc]. }
  split.
  - intros p Hp. rewrite Hb. pose proof (small_inside _ _ (wf_small _ _ F) Hp) as Hpsm.
    destruct (from_save rc (delta l) p Hsm (wf_delta _ _ F) Hpsm) as [_ Hk]. fold k in Hk. rewrite Hk.
    destruct (ptinrect p rc); case_decide; naive_solver.
  - intros d q Hdq. rewrite Hb. case_decide as E; [|done]. destruct E as [-> Eq]. pose proof (rectinrect_inside q _ _ Hin Eq). naive_solver congruence.
Qed.
Lemma refresh_piece s i l rc c : layer_of i s = Ok l -> window_facts s l -> save l = None ->
  ordered rc -> rectinrect rc (screenr l) = true ->
  exists s', lexposeop i (Some (image s)) rc c false s = Ok s' /\
    (forall d q, d <> image s \/ ptinrect q rc = false -> pixel (pixels s') d q = pixel (pixels s) d q).
Proof.
  intros Hl F Hsv Ho Hin. unfold lexposeop. rewrite Hl. cbn [rbind]. rewrite Hsv. destruct (wf_refresh _ _ F Hsv) as [g ->]. cbn [of_ptr rbind].
  eexists. split; [reflexivity|]. cbn [set_pixels pixels]. intros d q Hdq. apply refresh_inside.
  rewrite rectaddpt_rectsubpt; [naive_solver congruence|by eapply small_sub; [apply F|..]|apply F].
Qed.

Definition hit (p : Point) (L : list (Rectangle * bool)) : bool := (0 <? pieces_at false p L)%nat.
Lemma hit_cons p rc b L : hit p ((rc, b) :: L) = (negb b && ptinrect p rc) || hit p L.
Proof. unfold hit. cbn [pieces_at]. destruct b; simpl; [done|]. by destruct (ptinrect p rc). Qed.
Lemma run_hide i l sv c zs L : save l = Some sv -> forall s, valid s zs -> layer_of i s = Ok l -> window_facts s l -> pieces_of s l L ->
  exists s', run_calls (lhideop i) c (Some sv) L s = Ok s' /\ same s s' /\
    (forall p, ptinrect p (screenr l) = true -> pixel (pixels s') sv (subpt p (delta l)) =
      if hit p L then pixel (pixels s) (image s) p else pixel (pixels s) sv (subpt p (delta l))) /\
    (forall d q, d <> sv -> pixel (pixels s') d q = pixel (pixels s) d q).
Proof.
  intros Hsv. induction L as [|[rc b] L IH]; intros s V Hl F HL; [by exists s|]. cbn [run_calls].
  assert (exists s1, lhideop i (if b then Some sv else Some (image s)) rc c b s = Ok s1 /\
    (forall p, ptinrect p (screenr l) = true -> pixel (pixels s1) sv (subpt p (delta l)) =
      if negb b && ptinrect p rc then pixel (pixels s) (image s) p else pixel (pixels s) sv (subpt p (delta l))) /\
    (forall d q, d <> sv -> pixel (pixels s1) d q = pixel (pixels s) d q)) as (s1 & E1 & Hp1 & Ho1).
  { destruct (HL rc b (list_elem_of_here _ _)) as (Ho & Hin & Hscr). destruct b; cbn [negb andb]; [|by eapply hide_piece; auto].
    exists s. split; [|done]. unfold lhideop. rewrite Hl. cbn [rbind]. by rewrite Hsv, decide_True. }
  pose proof (lhideop_keeps i _ _ _ _ _ _ E1) as S1. rewrite E1. cbn [rbind]. destruct (wf_save _ _ F sv Hsv) as [Hne _].
  destruct (IH s1) as (s' & -> & S' & Hp & Ho); [by eapply layers_valid_same|by rewrite (layer_of_same s s1 i S1)|by eapply facts_same| |].
  { eapply pieces_same; [done|]. intros rc' b' Hin'. apply HL. by right. }
  exists s'. split; [done|]. split; [by etrans|]. split.
  - intros p Hps. rewrite Hp, hit_cons, (sm_image _ _ S1), Ho1, Hp1 by done. by destruct (negb b && ptinrect p rc), (hit p L).
  - intros d q Hd. by rewrite Ho, Ho1.
Qed.
Lemma run_expose i l c zs L : forall s, valid s zs -> layer_of i s = Ok l -> window_facts s l -> pieces_of s l L ->
  exists s', run_calls (lexposeop i) c (save l) L s = Ok s' /\ same s s' /\
    (forall sv p, save l = Some sv -> ptinrect p (screenr l) = true -> pixel (pixels s') (image s) p =
      if hit p L then pixel (pixels s) sv (subpt p (delta l)) else pixel (pixels s) (image s) p) /\
    (forall d q, d <> image s \/ hit q L = false -> pixel (pixels s') d q = pixel (pixels s) d q).
Proof.
  induction L as [|[rc b] L IH]; intros s V Hl F HL; [by exists s|]. cbn [run_calls].
  assert (exists s1, lexposeop i (if b then save l else Some (image s)) rc c b s = Ok s1 /\
    (forall sv p, save l = Some sv -> ptinrect p (screenr l) = true -> pixel (pixels s1) (image s) p =
      if negb b && ptinrect p rc then pixel (pixels s) sv (subpt p (delta l)) else pixel (pixels s) (image s) p) /\
    (forall d q, d <> image s \/ negb b && ptinrect q rc = false -> pixel (pixels s1) d q = pixel (pixels s) d q)) as (s1 & E1 & Hp1 & Ho1).
  { destruct (HL rc b (list_elem_of_here _ _)) as (Ho & Hin & Hscr). destruct b; cbn [negb andb]; [by exists s|].
    destruct (save l) as [sv|] eqn:Esv.
    - destruct (expose_piece s zs i l sv rc c) as (s1 & E1 & Hp & Hq); auto. exists s1. split; [done|].
      split; [intros sv' p [= <-]; apply Hp|]. intros d q Hdq. destruct (ptinrect q (screenr l)) eqn:Eq; [|apply Hq; by right].
      destruct (decide (d = image s)) as [->|]; [|apply Hq; by left]. destruct Hdq as [|Hdq]; [done|]. by rewrite Hp, Hdq.
    - destruct (refresh_piece s i l rc c) as (s1 & E1 & Hq); auto. exists s1. done. }
  pose proof (lexposeop_keeps i _ _ _ _ _ _ E1) as S1. rewrite E1. cbn [rbind].
  destruct (IH s1) as (s' & -> & S' & Hp & Ho); [by eapply layers_valid_same|by rewrite (layer_of_same s s1 i S1)|by eapply facts_same| |].
  { eapply pieces_same; [done|]. intros rc' b' Hin'. apply HL. by right. }
  exists s'. split; [done|]. split; [by etrans|]. rewrite (sm_image _ _ S1) in *. split.
  - intros sv p Hsv Hps. destruct (wf_save _ _ F sv Hsv) as [Hne _]. rewrite (Hp sv), hit_cons, (Hp1 sv), (Ho1 sv) by auto.
    by destruct (negb b && ptinrect p rc), (hit p L).
  - intros d q Hdq. rewrite hit_cons, orb_false_iff in Hdq. rewrite Ho, Ho1; naive_solver.
Qed.

(** ** [memlhide] and [memlexpose] *)

(** The pixels of [r0] that the window [l], behind [A], has on the screen. *)
Definition on_screen (s : state) (A : list nat) (l : memlayer) (r0 : Rectangle) (p : Point) : bool :=
  ptinrect p r0 && ptinrect p (screenr l) && shown s A p.
Record picked (s : state) (A : list nat) (l : memlayer) (r0 : Rectangle) (L : list (Rectangle * bool)) : Prop := {
  pk_pieces : pieces_of s l L;
  pk_hit p : hit p L = on_screen s A l r0 p }.
Lemma layerop_picked s zs A i B l r0 fn c : zs = A ++ i :: B -> stacked s zs -> valid s zs -> clears s zs -> lay (images s) i = Some l ->
  ordered r0 -> keeps fn ->
  exists L, _memlayerop (windows s) fn i r0 c s = run_calls fn c (save l) L s /\ picked s A l r0 L.
Proof.
  intros -> St V Cl Hl Ho K. destruct (valid_screen _ _ V) as (im & Him & _ & _ & Esc & Hoc & _).
  destruct (stacked_chain s A i B St) as [Hc Hlen]. pose proof (stacked_length s _ St) as Hw. rewrite length_app in Hw. simpl in Hw.
  pose proof (valid_window s _ i l V) as F. specialize (F ltac:(set_solver) Hl).
  exists (calls l (screen s) (rects (images s) A) r0). split.
  - rewrite Esc. apply memlayerop_calls; try done; [by rewrite layer_of_lay, Hl|unfold image_of; by rewrite Him|lia].
  - pose proof (Cl A i B l eq_refl Hl) as Hco.
    assert (Forall ordered (rects (images s) A)) as HA by (eapply ordered_rects; [done|set_solver]). split.
    + intros rc b Hin. destruct (in_calls _ _ _ _ _ _ Hco Hin) as (_ & H2 & H3).
      split; [by eapply ordered_calls; [| | | |exact Hin]; try done; apply F|done].
    + intros p. unfold hit, on_screen, shown. destruct (count_calls l (screen s) (rects (images s) A) r0 p HA Hoc Hco) as [-> _].
      by destruct (_ && _ && _).
Qed.
(** A rectangle is cut to the image of the screen first: nothing that is visible is lost. *)
Lemma clipped_on_screen s zs A l r0 : valid s zs -> exists im, image_of (image s) s = Ok im /\
  forall ok r, rectclip r0 (im_r im) = (ok, r) -> (ordered r0 -> ok = true -> ordered r) /\
    forall p, on_screen s A l r0 p = if ok then on_screen s A l r p else false.
Proof.
  intros V. destruct (valid_screen _ _ V) as (im & Him & _ & Hoi & Esc & Hoc & _ & Hclip). exists im. split; [unfold image_of; by rewrite Him|].
  intros ok r Hr. split; [intros Ho ->; exact (ordered_clip _ _ _ Ho Hoi Hr)|]. intros p. unfold on_screen, shown, visible. destruct (ptinrect p (screen s)) eqn:Es.
  2:{ rewrite !andb_false_l, !andb_false_r. by destruct ok. }
  pose proof (rectinrect_inside p _ _ Hclip Es) as Hi. destruct ok; [apply rectclip_in in Hr as (_ & _ & _ & Hr)|apply rectclip_out in Hr as (_ & _ & Hr)].
  - by rewrite Hr, Hi, andb_true_r.
  - specialize (Hr p). rewrite Hi, andb_true_r in Hr. by rewrite Hr.
Qed.
Lemma memlhide_ok s zs A i B l r0 : zs = A ++ i :: B -> stacked s zs -> valid s zs -> clears s zs -> lay (images s) i = Some l -> ordered r0 ->
  exists s', memlhide (windows s) i r0 s = Ok s' /\ same s s' /\
    (forall sv p, save l = Some sv -> ptinrect p (screenr l) = true -> pixel (pixels s') sv (subpt p (delta l)) =
      if on_screen s A l r0 p then pixel (pixels s) (image s) p else pixel (pixels s) sv (subpt p (delta l))) /\
    (forall d q, save l <> Some d -> pixel (pixels s') d q = pixel (pixels s) d q).
Proof.
  intros Ez St V Cl Hl Ho. pose proof (valid_window s zs i l V) as F. specialize (F ltac:(subst zs; set_solver) Hl).
  unfold memlhide. rewrite layer_of_lay, Hl. cbn [of_ptr rbind]. destruct (save l) as [sv|] eqn:Esv; [|by exists s].
  destruct (clipped_on_screen s zs A l r0 V) as (im & Him & Hclip). rewrite Him. cbn [rbind]. destruct (rectclip r0 (im_r im)) as [ok r] eqn:Er.
  destruct (Hclip ok r eq_refl) as [Hor Hon]. destruct ok; cbn [negb].
  - destruct (layerop_picked s zs A i B l r (lhideop i) r Ez St V Cl Hl) as (L & -> & [HL Hh]); [auto|apply lhideop_keeps|]. rewrite Esv.
    destruct (run_hide i l sv r zs L Esv s V) as (s' & -> & S' & Hp & Hq); [by rewrite layer_of_lay, Hl|done|done|].
    exists s'. split; [done|]. split; [done|]. split; [|intros d q Hd; apply Hq; congruence].
    intros sv' p [= <-] Hps. by rewrite Hp, Hh, Hon.
  - exists s. split; [done|]. split; [done|]. split; [|done]. intros sv' p _ _. by rewrite Hon.
Qed.
Lemma memlexpose_ok s zs A i B l r0 : zs = A ++ i :: B -> stacked s zs -> valid s zs -> clears s zs -> lay (images s) i = Some l -> ordered r0 ->
  exists s', memlexpose (windows s) i r0 s = Ok s' /\ same s s' /\
    (forall sv p, save l = Some sv -> ptinrect p (screenr l) = true -> pixel (pixels s') (image s) p =
      if on_screen s A l r0 p then pixel (pixels s) sv (subpt p (delta l)) else pixel (pixels s) (image s) p) /\
    (forall d q, d <> image s \/ on_screen s A l r0 q = false -> pixel (pixels s') d q = pixel (pixels s) d q).
Proof.
  intros Ez St V Cl Hl Ho. pose proof (valid_window s zs i l V) as F. specialize (F ltac:(subst zs; set_solver) Hl).
  unfold memlexpose. destruct (clipped_on_screen s zs A l r0 V) as (im & Him & Hclip). rewrite Him. cbn [rbind].
  destruct (rectclip r0 (im_r im)) as [ok r] eqn:Er. destruct (Hclip ok r eq_refl) as [Hor Hon]. destruct ok; cbn [negb].
  - destruct (layerop_picked s zs A i B l r (lexposeop i) r Ez St V Cl Hl) as (L & -> & [HL Hh]); [auto|apply lexposeop_keeps|].
    destruct (run_expose i l r zs L s V) as (s' & -> & S' & Hp & Hq); [by rewrite layer_of_lay, Hl|done|done|].
    exists s'. split; [done|]. split; [done|]. split; [intros sv p Hsv Hps; by rewrite (Hp sv), Hh, Hon|].
    intros d q Hdq. apply Hq. by rewrite Hh, <-Hon.
  - exists s. split; [done|]. split; [done|]. split; [|done]. intros sv p _ _. by rewrite Hon.
Qed.
End pixels.
