(* ===== verification/LayerLaws.v ===== *)
(** * Moving windows keeps their pictures

    [exchange_ok]: two windows that are neighbours in the order change places, and the screen and the save areas still show
    the same pictures.  [memltofront], [memltorear] and their variants for several windows follow, and leave
    exactly the windows marked [clear] that are visible entirely. *)
From stdpp Require Import gmap list.
From S2P Require Import Prelude Geometry Layer LayerPieces LayerCalls LayerOrder LayerPixels.

Lemma covered_app A B p : covered (A ++ B) p = covered A p || covered B p.
Proof. apply existsb_app. Qed.
Lemma covered_perm A B p : A ≡ₚ B -> covered A p = covered B p.
Proof. induction 1; simpl; [done|by rewrite IHPermutation| |congruence]. by destruct (ptinrect p y), (ptinrect p x). Qed.
Lemma rects_app imgs A B : rects imgs (A ++ B) = rects imgs A ++ rects imgs B.
Proof. apply omap_app. Qed.
Lemma rects_cons imgs w A l : lay imgs w = Some l -> rects imgs (w :: A) = screenr l :: rects imgs A.
Proof. intros Hl. unfold rects. cbn [omap list_omap]. by rewrite Hl. Qed.
Lemma rects_perm imgs A B : A ≡ₚ B -> rects imgs A ≡ₚ rects imgs B.
Proof. intros Hp. unfold rects. by rewrite Hp. Qed.
Lemma rectXrect_comm r s : rectXrect r s = rectXrect s r.
Proof. unfold rectXrect. lia. Qed.
(** A window of a list in which two neighbours are named. *)
Lemma exchange_cases {X} (A B A1 B1 : list X) i f w : A ++ i :: f :: B = A1 ++ w :: B1 ->
  (exists A2, A = A1 ++ w :: A2) \/ (w = i /\ A1 = A) \/ (w = f /\ A1 = A ++ [i]) \/ (exists B2, B = B2 ++ w :: B1 /\ A1 = A ++ i :: f :: B2).
Proof.
  intros E. destruct (app_eq_inv _ _ _ _ E) as [(k & -> & Ek)|(k & -> & Ek)].
  - destruct k as [|y k]; [injection Ek as -> _; right; left; by rewrite app_nil_r|]. injection Ek as -> _. left. by exists k.
  - destruct k as [|y k]; [injection Ek as -> _; right; left; by rewrite app_nil_r|]. injection Ek as -> Ek.
    destruct k as [|y2 k]; [injection Ek as -> _; right; right; left; by simplify_list_eq|]. injection Ek as -> Ek.
    right; right; right. exists k. by simplify_list_eq.
Qed.

Section laws.
Context {P : Type} `{Memdraw P}.
Abbreviation state := (state P).
Context (C : nat -> Prop) (c : nat -> Point -> Z) (bg : Point -> Z).

Record good (s : state) (zs : list nat) : Prop := {
  gd_stacked : stacked s zs;
  gd_valid : valid s zs;
  gd_clears : clears s zs;
  gd_shows : shows C c bg s zs }.

(** The same images, whatever their order and pixels. *)
Record alike (s s' : state) : Prop := { al_geo : geo (images s') = geo (images s); al_image : image s' = image s }.
#[export] Instance alike_preorder : PreOrder alike.
Proof. split; [done|]. intros s1 s2 s3 [] []. split; congruence. Qed.
Lemma same_alike s s' : same s s' -> alike s s'.
Proof. intros [E1 E2 _ _]. split; congruence. Qed.
Lemma rearranged_alike s s' : rearranged s s' -> alike s s'.
Proof. by intros []. Qed.
Lemma geo_rects imgs imgs' A : geo imgs' = geo imgs -> rects imgs' A = rects imgs A.
Proof. intros E. by rewrite <-(rects_geo imgs'), E, rects_geo. Qed.
Lemma geo_screen (s s' : state) : alike s s' -> screen s' = screen s.
Proof.
  intros [E Ei]. unfold screen. rewrite Ei. pose proof (f_equal (lookup (image s)) E) as El. unfold geo in El. rewrite !lookup_fmap in El.
  destruct (images s' !! image s), (images s !! image s); simpl in El; try done. by injection El.
Qed.
Lemma geo_shown (s s' : state) A p : alike s s' -> shown s' A p = shown s A p.
Proof. intros R. unfold shown. by rewrite (geo_screen s s' R), (geo_rects _ _ A (al_geo _ _ R)). Qed.
Lemma geo_windows (s s' : state) : alike s s' -> windows s' = windows s.
Proof.
  intros [E _]. unfold windows. f_equal. pose proof (f_equal size E) as El. unfold geo in El. by rewrite !map_size_fmap in El.
Qed.
Lemma geo_valid (s s' : state) zs zs' : alike s s' -> zs ≡ₚ zs' -> valid s zs -> valid s' zs'.
Proof. intros [E Ei] Hp V. unfold valid. rewrite E, Ei. by eapply geo_ok_perm. Qed.
Lemma geo_lay (s s' : state) w l' : alike s s' -> lay (images s') w = Some l' ->
  exists l, lay (images s) w = Some l /\ screenr l' = screenr l /\ delta l' = delta l /\ save l' = save l.
Proof.
  intros [E _] Hl. pose proof (lay_geo (images s') w) as E1. rewrite E, lay_geo, Hl in E1. destruct (lay (images s) w) as [l|]; [|done].
  injection E1 as E1 E2 E3 E4. by exists l.
Qed.
(** The windows in front of [w], after an exchange. *)
Lemma shown_app (s : state) A B p : shown s (A ++ B) p = shown s A p && negb (covered (rects (images s) B) p).
Proof. unfold shown, visible. rewrite rects_app, covered_app. destruct (ptinrect p (screen s)); [|done]. by destruct (covered (rects (images s) A) p). Qed.
Lemma shown_perm (s : state) A B p : A ≡ₚ B -> shown s A p = shown s B p.
Proof. intros Hp. unfold shown, visible. by rewrite (covered_perm _ _ p (rects_perm (images s) _ _ Hp)). Qed.
Lemma shown_in (s : state) A w l p : w ∈ A -> lay (images s) w = Some l -> ptinrect p (screenr l) = true -> shown s A p = false.
Proof.
  intros (A1 & A2 & ->)%list_elem_of_split Hl Hp. rewrite shown_app, (rects_cons _ _ _ _ Hl). simpl. by rewrite Hp, andb_false_r.
Qed.

(** The steps between the calls of hide and expose: links and marks change. *)
Lemma clears_exchange (s s' : state) A f i B lf li :
  clears s (A ++ f :: i :: B) -> NoDup (A ++ f :: i :: B) -> alike s s' -> lay (images s) f = Some lf -> lay (images s) i = Some li ->
  (forall w l', lay (images s') w = Some l' -> exists l, lay (images s) w = Some l /\ (clear l' = true -> clear l = true)) ->
  (rectXrect (screenr lf) (screenr li) = true -> forall lf', lay (images s') f = Some lf' -> clear lf' = false) ->
  clears s' (A ++ i :: f :: B).
Proof.
  intros Cl Hnd R Hf Hi Hc Hover A1 w B1 l' E Hl'. destruct (Hc w l' Hl') as (l & Hl & Hcl). intros Ht.
  destruct (geo_lay s s' w l' R Hl') as (l0 & Hl0 & Es & _). assert (l0 = l) as -> by congruence.
  rewrite Es, (geo_screen s s' R), (geo_rects _ _ A1 (al_geo _ _ R)). specialize (Hcl Ht).
  destruct (exchange_cases _ _ _ _ _ _ _ E) as [(A2 & ->)|[[-> ->]|[[-> ->]|(B2 & -> & ->)]]].
  - rewrite <-app_assoc in Cl. exact (Cl A1 w _ l eq_refl Hl Hcl).
  - change (A ++ f :: i :: B) with (A ++ [f] ++ i :: B) in Cl. rewrite app_assoc in Cl. destruct (Cl _ _ _ _ eq_refl Hl Hcl) as [H1 H2].
    split; [done|]. rewrite rects_app in H2. unfold uncovered_rect in *. rewrite forallb_app, andb_true_iff in H2. apply H2.
  - destruct (Cl _ _ _ _ eq_refl Hl Hcl) as [H1 H2]. split; [done|]. rewrite rects_app, (rects_cons _ _ _ _ Hi). unfold uncovered_rect in *.
    rewrite forallb_app, H2. simpl. rewrite andb_true_r. assert (l = lf) as -> by congruence.
    destruct (rectXrect (screenr lf) (screenr li)); [|done]. specialize (Hover eq_refl l' Hl'). congruence.
  - specialize (Cl (A ++ f :: i :: B2) w B1 l). rewrite <-app_assoc in Cl. destruct (Cl eq_refl Hl Hcl) as [H1 H2]. split; [done|].
    unfold uncovered_rect in *. rewrite forallb_forall in *. intros r Hr. apply H2. rewrite <-list_elem_of_In in *.
    rewrite (rects_perm (images s) (A ++ f :: i :: B2) (A ++ i :: f :: B2)); [done|]. by rewrite (Permutation_swap i f).
Qed.

(** The pixels after the exchange of [f] with the window [i] behind it: [f] was hidden where [i] covers it now, [i] exposed. *)
Record exchanged (s s' : state) (A : list nat) (lf li : memlayer) (shown_i : Prop) : Prop := {
  xc_hidden sv p : save lf = Some sv -> ptinrect p (screenr lf) = true -> pixel (pixels s') sv (subpt p (delta lf)) =
    if ptinrect p (screenr li) && shown s A p then pixel (pixels s) (image s) p else pixel (pixels s) sv (subpt p (delta lf));
  xc_exposed sv p : shown_i -> save li = Some sv -> ptinrect p (screenr li) = true -> pixel (pixels s') (image s) p =
    if ptinrect p (screenr lf) && shown s A p then pixel (pixels s) sv (subpt p (delta li)) else pixel (pixels s) (image s) p;
  xc_screen p : ptinrect p (screenr lf) && ptinrect p (screenr li) && shown s A p = false ->
    pixel (pixels s') (image s) p = pixel (pixels s) (image s) p;
  xc_rest d q : d <> image s -> save lf <> Some d -> pixel (pixels s') d q = pixel (pixels s) d q }.
Lemma shows_exchange (s s' : state) A f i B lf li shown_i :
  valid s (A ++ f :: i :: B) -> shows C c bg s (A ++ f :: i :: B) -> NoDup (A ++ f :: i :: B) ->
  lay (images s) f = Some lf -> lay (images s) i = Some li -> alike s s' -> exchanged s s' A lf li shown_i -> (C i -> shown_i) ->
  shows C c bg s' (A ++ i :: f :: B).
Proof.
  intros V [Sw Sg] Hnd Hf Hi R [Xh Xe Xs Xr] HC. set (zs := A ++ f :: i :: B) in *.
  assert (forall w l sv, w ∈ zs -> lay (images s) w = Some l -> save l = Some sv -> sv <> image s) as Hne
    by (intros w l sv Hw Hl Hsv; by apply (wf_save _ _ (valid_window s zs w l V Hw Hl))).
  assert (forall w l sv, w ∈ zs -> w <> f -> lay (images s) w = Some l -> save l = Some sv -> save lf <> Some sv) as Hsaves.
  { intros w l sv Hw Hwf Hl Hsv Hsf. apply Hwf. apply (go_saves _ _ _ V w f (bare l) (bare lf) sv); try done; [by unfold zs; set_solver|by rewrite lay_geo, Hl|by rewrite lay_geo, Hf]. }
  assert (forall p, ptinrect p (screenr li) = false -> pixel (pixels s') (image s) p = pixel (pixels s) (image s) p) as Hout
    by (intros p Hp; apply Xs; by rewrite Hp, andb_false_r).
  assert (f <> i /\ f ∉ A /\ i ∉ A /\ f ∉ B /\ i ∉ B) as (Hfi & HfA & HiA & HfB & HiB).
  { pose proof Hnd as (_ & HAB & Hnd')%NoDup_app. apply NoDup_cons in Hnd' as [H1 Hnd']. apply NoDup_cons in Hnd' as [H2 _].
    repeat split; try set_solver; intros Hx; apply (HAB _ Hx); set_solver. }
  split.
  - intros A1 w B1 l' sv p E HCw Hl' Hsv' Hp'. rewrite (al_image _ _ R), (geo_shown s s' A1 p R).
    destruct (geo_lay s s' w l' R Hl') as (l & Hl & Es & Ed & Esv). rewrite Es in Hp'. rewrite Ed. rewrite Esv in Hsv'.
    destruct (exchange_cases _ _ _ _ _ _ _ E) as [(A2 & ->)|[[-> ->]|[[-> ->]|(B2 & -> & ->)]]].
    + assert (w <> f) as Hwf by set_solver. assert (w ∈ zs) as Hw by (unfold zs; set_solver).
      rewrite <-(Sw A1 w (A2 ++ f :: i :: B) l sv p); try done; [|unfold zs; by rewrite <-app_assoc].
      rewrite (Xr sv) by eauto. destruct (shown s A1 p); [|done]. apply Xs.
      rewrite (shown_in s (A1 ++ w :: A2) w l p) by (done || set_solver). by rewrite andb_false_r.
    + assert (l = li) as -> by congruence. assert (i ∈ zs) as Hw by (unfold zs; set_solver).
      pose proof (Sw (A ++ [f]) i B li sv p) as Hs. rewrite <-app_assoc in Hs. specialize (Hs eq_refl HCw Hi Hsv' Hp').
      rewrite shown_app, (rects_cons _ _ _ _ Hf) in Hs. simpl in Hs. rewrite orb_false_r in Hs.
      rewrite (Xr sv) by eauto. rewrite (Xe sv p (HC HCw) Hsv' Hp'). destruct (shown s A p), (ptinrect p (screenr lf)); done.
    + assert (l = lf) as -> by congruence. pose proof (Sw A f (i :: B) lf sv p eq_refl HCw Hf Hsv' Hp') as Hs.
      rewrite shown_app, (rects_cons _ _ _ _ Hi). simpl. rewrite orb_false_r, (Xh sv p Hsv' Hp').
      destruct (ptinrect p (screenr li)) eqn:Ei; [by rewrite andb_false_r|]. rewrite Hout by done. by destruct (shown s A p).
    + assert (w <> f) as Hwf by set_solver. assert (w ∈ zs) as Hw by (unfold zs; set_solver).
      pose proof (Sw (A ++ f :: i :: B2) w B1 l sv p) as Hs. unfold zs in Hs. rewrite <-app_assoc in Hs. specialize (Hs eq_refl HCw Hl Hsv' Hp').
      rewrite (shown_perm s (A ++ i :: f :: B2) (A ++ f :: i :: B2)) by (by rewrite (Permutation_swap i f)). rewrite (Xr sv) by eauto.
      destruct (shown s (A ++ f :: i :: B2) p) eqn:Esh; [|done]. rewrite Hout; [done|].
      destruct (ptinrect p (screenr li)) eqn:Ei; [|done]. rewrite (shown_in s _ i li p) in Esh; try done. set_solver.
  - intros p. rewrite (geo_screen s s' R), (geo_rects _ _ _ (al_geo _ _ R)), (al_image _ _ R). intros Hp Hc.
    rewrite (covered_perm _ (rects (images s) zs)) in Hc by (apply rects_perm; unfold zs; by rewrite (Permutation_swap i f)).
    rewrite <-(Sg p Hp Hc). apply Hout. unfold zs in Hc. rewrite rects_app, (rects_cons _ f _ _ Hf), (rects_cons _ i _ _ Hi), covered_app in Hc.
    simpl in Hc. rewrite !orb_false_iff in Hc. tauto.
Qed.

Lemma stacked_same (s s' : state) zs : same s s' -> stacked s zs -> stacked s' zs.
Proof. intros [E1 E2 E3 E4] [H1 H2 H3 H4]. split; congruence. Qed.
Lemma clears_same (s s' : state) zs : same s s' -> clears s zs -> clears s' zs.
Proof. intros [E1 E2 _ _] Cl A w B l. unfold screen. rewrite E1, E2. apply Cl. Qed.
Lemma saves_apart (s : state) zs f i lf li sv : valid s zs -> f ∈ zs -> i ∈ zs -> f <> i ->
  lay (images s) f = Some lf -> lay (images s) i = Some li -> save li = Some sv -> save lf <> Some sv.
Proof.
  intros V Hfz Hiz Hne Hf Hi Hsi Hsf. apply Hne. apply (go_saves _ _ _ V f i (bare lf) (bare li) sv); try done; by rewrite lay_geo, ?Hf, ?Hi.
Qed.
(** Marking a window. *)
Lemma mark_ok w b (s : state) zs l : stacked s zs -> lay (images s) w = Some l -> exists s', upd_layer w (set_clear b) s = Ok s' /\ stacked s' zs /\
  rearranged s s' /\ forall w', lay (images s') w' = if decide (w' = w) then Some (set_clear b l) else lay (images s) w'.
Proof.
  intros [H1 H2 H3 H4] Hl. destruct (upd_layer_ok w (set_clear b) s l Hl eq_refl) as (s' & -> & L & R & F & Re). exists s'. split; [done|].
  split; [|done]. split; [done| |congruence|congruence]. eapply links_frame; [|exact H2]. intros w' _ l' Hl'. rewrite L.
  case_decide as E; [subst; exists (set_clear b l); by simplify_eq|by exists l'].
Qed.
(** Two neighbours change places. *)
Lemma exchange_ok (s : state) A f i B lf li (overlap : bool) r (swap : state -> result state) (fill : bool) :
  good s (A ++ f :: i :: B) -> lay (images s) f = Some lf -> lay (images s) i = Some li ->
  (if overlap then ordered r /\ forall p, ptinrect p r = ptinrect p (screenr lf) && ptinrect p (screenr li)
   else rectXrect (screenr lf) (screenr li) = false) ->
  (forall s2, stacked s2 (A ++ f :: i :: B) -> exists s3, swap s2 = Ok s3 /\ swapped i f A B s2 s3) -> (C i -> fill = true) ->
  exists s', (let* s1 := if overlap then let* s1 := memlhide (windows s) f r s in upd_layer f (set_clear false) s1 else Ok s in
    let* s1 := swap s1 in if overlap && fill then memlexpose (windows s) i r s1 else Ok s1) = Ok s' /\
    good s' (A ++ i :: f :: B) /\ alike s s'.
Proof.
  intros [St V Cl Sh] Hf Hi Hr Hswap HC. set (zs := A ++ f :: i :: B) in *. set (zs' := A ++ i :: f :: B) in *.
  assert (zs ≡ₚ zs') as Hperm by (unfold zs, zs'; by rewrite (Permutation_swap i f)). pose proof (st_nodup _ _ St) as Hnd. destruct overlap.
  - destruct Hr as [Ho Hr]. destruct (memlhide_ok s zs A f (i :: B) lf r eq_refl St V Cl Hf Ho) as (s1 & -> & S1 & Hp1 & Hq1). cbn [rbind].
    pose proof (stacked_same _ _ _ S1 St) as St1. destruct (mark_ok f false s1 zs lf St1) as (s2 & -> & St2 & R2 & L2); [by rewrite (sm_images _ _ S1)|].
    cbn [rbind]. destruct (Hswap s2 St2) as (s3 & -> & St3 & R3 & L3). cbn [rbind andb].
    assert (alike s s3) as R by (etrans; [by apply same_alike|etrans; by apply rearranged_alike]).
    pose proof (geo_valid s s3 zs zs' R Hperm V) as V3.
    assert (forall w l', lay (images s3) w = Some l' -> exists l, lay (images s) w = Some l /\ (clear l' = true -> clear l = true) /\ (w = f -> clear l' = false)) as Hcl.
    { intros w l' Hl'. destruct (geo_lay s s3 w l' R Hl') as (l & Hl & _). exists l. split; [done|].
      assert (lay (images s2) w = Some (if decide (w = f) then set_clear false lf else l)) as Hl2 by (rewrite L2; case_decide; [done|by rewrite (sm_images _ _ S1)]).
      destruct (L3 w _ Hl2) as (l3 & Hl3 & Ec & _). assert (l3 = l') as -> by congruence. rewrite Ec. case_decide; [done|]. split; [done|]. by intros ->. }
    assert (clears s3 zs') as Cl3.
    { apply (clears_exchange s s3 A f i B lf li); try done.
      - intros w l' Hl'. destruct (Hcl w l' Hl') as (l & Hl & Hc & _). by exists l.
      - intros _ lf' Hlf'. destruct (Hcl f lf' Hlf') as (_ & _ & _ & Hc). auto. }
    assert (forall d q, pixel (pixels s3) d q = pixel (pixels s1) d q) as Hpx by (by intros; rewrite (ra_pixels _ _ R3), (ra_pixels _ _ R2)).
    assert (forall sv, save lf = Some sv -> sv <> image s) as Hne by (apply (wf_save _ _ (valid_window s zs f lf V ltac:(unfold zs; set_solver) Hf))).
    assert (forall p, on_screen s A lf r p = ptinrect p (screenr lf) && ptinrect p (screenr li) && shown s A p) as Hon.
    { intros p. unfold on_screen. rewrite Hr. by destruct (ptinrect p (screenr lf)), (ptinrect p (screenr li)). }
    destruct fill.
    + destruct (neighbours i f A B s3 St3) as (li3 & _ & Hi3 & _). destruct (geo_lay s s3 i li3 R Hi3) as (li' & Hi' & Es & Ed & Esv).
      assert (li' = li) as -> by congruence.
      destruct (memlexpose_ok s3 zs' A i (f :: B) li3 r eq_refl St3 V3 Cl3 Hi3 Ho) as (s4 & E4 & S4 & Hp4 & Hq4).
      rewrite (geo_windows s s3 R) in E4. rewrite E4. exists s4. split; [done|]. assert (alike s s4) as R4 by (etrans; [done|by apply same_alike]).
      split; [|done]. split; [by eapply stacked_same|by eapply layers_valid_same|by eapply clears_same|].
      assert (forall p, on_screen s3 A li3 r p = ptinrect p (screenr lf) && ptinrect p (screenr li) && shown s A p) as Hon3.
      { intros p. unfold on_screen. rewrite Hr, Es, (geo_shown s s3 A p R). by destruct (ptinrect p (screenr lf)), (ptinrect p (screenr li)). }
      apply (shows_exchange s s4 A f i B lf li True); try done. split.
      * intros sv p Hsv Hp. rewrite Hq4, Hpx, (Hp1 sv), Hon, Hp by (done || rewrite (al_image _ _ R); left; auto). done.
      * intros sv p _ Hsv Hp. pose proof (Hp4 sv p) as H4. rewrite Esv, Es, Ed, (al_image _ _ R) in H4. rewrite (H4 Hsv Hp), Hon3, !Hpx.
        rewrite Hp, andb_true_r, !Hq1; [done| |].
        -- intros Hsf. exact (Hne _ Hsf eq_refl).
        -- apply (saves_apart s zs f i lf li sv V); try done; [unfold zs; set_solver|unfold zs; set_solver|apply (NoDup_apart _ _ _ _ Hnd)].
      * intros p Hp. rewrite Hq4, Hpx, Hq1; [done|intros Hsf; exact (Hne _ Hsf eq_refl)|right; by rewrite Hon3].
      * intros d q Hd Hsf. rewrite Hq4, Hpx, Hq1 by (done || left; by rewrite (al_image _ _ R)). done.
    + exists s3. split; [done|]. split; [|done]. split; try done. apply (shows_exchange s s3 A f i B lf li False); try done.
      2:{ intros Hci. by specialize (HC Hci). }
      split; [| by intros ? ? [] |intros p _; rewrite Hpx; apply Hq1; intros Hsf; exact (Hne _ Hsf eq_refl)|intros d q _ Hsf; rewrite Hpx; by apply Hq1].
      intros sv p Hsv Hp. by rewrite Hpx, (Hp1 sv), Hon, Hp by done.
  - cbn [rbind andb]. destruct (Hswap s St) as (s3 & -> & St3 & R3 & L3). cbn [rbind]. exists s3. pose proof (rearranged_alike _ _ R3) as R.
    split; [done|]. split; [|done]. split; [done|by eapply geo_valid| |].
    + apply (clears_exchange s s3 A f i B lf li); try done; [|by rewrite Hr].
      intros w l' Hl'. destruct (geo_lay s s3 w l' R Hl') as (l & Hl & _). exists l. split; [done|].
      destruct (L3 w l Hl) as (l3 & Hl3 & Ec & _). assert (l3 = l') as -> by congruence. by rewrite Ec.
    + assert (forall p, ptinrect p (screenr lf) && ptinrect p (screenr li) = false) as Hno.
      { intros p. apply (rectclip_out _ _ (screenr lf)). unfold rectclip. by rewrite Hr. }
      apply (shows_exchange s s3 A f i B lf li True); try done. split; rewrite (ra_pixels _ _ R3); try done; intros sv p; specialize (Hno p).
      * intros _ Hp. rewrite Hp in Hno. simpl in Hno. by rewrite Hno.
      * intros _ _ Hp. rewrite Hp, andb_true_r in Hno. by rewrite Hno.
Qed.
End laws.
