(* ===== verification/LayerMoves.v ===== *)
(** * Windows to the front and to the rear

    The loops of [memltofront], [memltorear] and of their variants for several windows, on top of [LayerLaws.exchange_ok];
    then [_memlsetclear].  [windows_keep_pictures] is the contract; an instance of [Memdraw] and runs follow. *)
From stdpp Require Import gmap list.
From S2P Require Import Prelude Geometry Layer LayerPieces LayerCalls LayerOrder LayerPixels LayerLaws.

Section moves.
Context {P : Type} `{Memdraw P}.
Abbreviation state := (state P).
Context (C : nat -> Prop) (c : nat -> Point -> Z) (bg : Point -> Z).
Abbreviation good := (good C c bg).

(** ** Passing windows *)

Lemma meet_regions r1 r2 ok r : rectclip r1 r2 = (ok, r) -> ordered r1 -> ordered r2 ->
  if ok then ordered r /\ forall p, ptinrect p r = ptinrect p r1 && ptinrect p r2 else rectXrect r1 r2 = false.
Proof.
  intros E H1 H2. destruct ok; [|by apply rectclip_out in E as (_ & E & _)]. split; [exact (ordered_clip _ _ _ H1 H2 E)|].
  by apply rectclip_in in E as (_ & _ & _ & E).
Qed.
Lemma good_window (s : state) zs w l : good s zs -> w ∈ zs -> lay (images s) w = Some l -> ordered (screenr l).
Proof. intros G Hw Hl. exact (wf_ordered _ _ (valid_window s zs w l (gd_valid _ _ _ _ _ G) Hw Hl)). Qed.
Lemma memltofront_loop A1 B i fill A2 : (C i -> fill = true) -> forall (n : nat) s,
  good s (A1 ++ A2 ++ i :: B) -> (length A2 < n)%nat ->
  exists s', _memltofront (windows s) n i (last_or None A1) fill s = Ok s' /\ good s' (A1 ++ i :: A2 ++ B) /\ alike s s'.
Proof.
  intros HC. revert B. induction A2 as [|f A2 IH] using rev_ind; intros B n s G Hn; (destruct n as [|n]; [lia|]); cbn [_memltofront].
  - pose proof (gd_stacked _ _ _ _ _ G) as St. destruct (links_lookup _ _ _ _ (st_links _ _ St)) as (li & Hi & Hfr & _).
    rewrite layer_of_lay, Hi. cbn [of_ptr rbind]. rewrite Hfr, decide_True by done. by exists s.
  - rewrite length_app in Hn. simpl length in Hn. assert (A1 ++ (A2 ++ [f]) ++ i :: B = (A1 ++ A2) ++ f :: i :: B) as Ez by (by simplify_list_eq).
    rewrite Ez in G. pose proof (gd_stacked _ _ _ _ _ G) as St. destruct (neighbours f i _ B s St) as (lf & li & Hf & _ & _ & Hi & Hfr & _).
    rewrite layer_of_lay, Hi. cbn [of_ptr rbind]. rewrite Hfr. rewrite decide_False.
    2:{ intros E. symmetry in E. apply last_or_in in E. pose proof (st_nodup _ _ St) as (_ & HAB & _)%NoDup_app. apply (HAB f); set_solver. }
    cbn [of_ptr rbind]. rewrite layer_of_lay, Hf. cbn [of_ptr rbind]. destruct (rectclip (screenr li) (screenr lf)) as [ov r] eqn:Er.
    pose proof (meet_regions _ _ _ _ Er (good_window s _ i li G ltac:(set_solver) Hi) (good_window s _ f lf G ltac:(set_solver) Hf)) as Hr.
    destruct (exchange_ok C c bg s (A1 ++ A2) f i B lf li ov r (swap_front i f) fill) as (s1 & E1 & G1 & R1); try done.
    { destruct ov; [|by rewrite rectXrect_comm]. destruct Hr as [Ho Hr]. split; [done|]. intros p. by rewrite Hr, andb_comm. }
    { intros s2 Hs2. by apply swap_front_ok. }
    destruct (IH (f :: B) n s1) as (s' & E' & G' & R'); [by rewrite app_assoc|lia|].
    exists s'. split; [|split; [by simplify_list_eq|by etrans]]. rewrite (geo_windows s s1 R1) in E'. rewrite <-E'.
    destruct ov; cbn [rbind andb] in *.
    + destruct (memlhide (windows s) f r s) as [sa| | |]; try done. cbn [rbind] in *. destruct (upd_layer f (set_clear false) sa) as [sb| | |]; try done.
      cbn [rbind] in *. destruct (swap_front i f sb) as [sc| | |]; try done. cbn [rbind] in *. by rewrite E1.
    + destruct (swap_front i f s) as [sc| | |]; try done. cbn [rbind] in *. by simplify_eq.
Qed.
Lemma memltorear_loop A B2 i B1 : forall (n : nat) s,
  good s (A ++ i :: B1 ++ B2) -> (length B1 < n)%nat ->
  exists s', _memltorear (windows s) n i (head_or B2 None) s = Ok s' /\ good s' (A ++ B1 ++ i :: B2) /\ alike s s'.
Proof.
  revert A. induction B1 as [|r0 B1 IH]; intros A n s G Hn; (destruct n as [|n]; [simpl in Hn; lia|]); cbn [_memltorear].
  - pose proof (gd_stacked _ _ _ _ _ G) as St. destruct (links_lookup _ _ _ _ (st_links _ _ St)) as (li & Hi & _ & Hre).
    rewrite layer_of_lay, Hi. cbn [of_ptr rbind]. rewrite Hre, decide_True by done. by exists s.
  - simpl in Hn. change (A ++ i :: (r0 :: B1) ++ B2) with (A ++ i :: r0 :: B1 ++ B2) in G. pose proof (gd_stacked _ _ _ _ _ G) as St.
    destruct (neighbours i r0 _ _ s St) as (li & lr & Hi & _ & Hre & Hr0 & _ & _).
    rewrite layer_of_lay, Hi. cbn [of_ptr rbind]. rewrite Hre. rewrite decide_False.
    2:{ intros E. symmetry in E. apply head_or_in in E. pose proof (st_nodup _ _ St) as (_ & _ & Hnd)%NoDup_app. apply NoDup_cons in Hnd as [_ Hnd].
        apply NoDup_cons in Hnd as [Hx _]. set_solver. }
    cbn [of_ptr rbind]. rewrite layer_of_lay, Hr0. cbn [of_ptr rbind]. destruct (rectclip (screenr li) (screenr lr)) as [ov r] eqn:Er.
    pose proof (meet_regions _ _ _ _ Er (good_window s _ i li G ltac:(set_solver) Hi) (good_window s _ r0 lr G ltac:(set_solver) Hr0)) as Hr.
    destruct (exchange_ok C c bg s A i r0 (B1 ++ B2) li lr ov r (swap_rear i r0) true) as (s1 & E1 & G1 & R1); try done.
    { intros s2 Hs2. by apply swap_rear_ok. }
    destruct (IH (A ++ [r0]) n s1) as (s' & E' & G' & R'); [by rewrite <-app_assoc|lia|].
    exists s'. split; [|split; [by rewrite <-app_assoc in G'|by etrans]]. rewrite (geo_windows s s1 R1) in E'. rewrite <-E'.
    destruct ov; cbn [rbind andb] in *.
    + destruct (memlhide (windows s) i r s) as [sa| | |]; try done. cbn [rbind] in *. destruct (upd_layer i (set_clear false) sa) as [sb| | |]; try done.
      cbn [rbind] in *. destruct (swap_rear i r0 sb) as [sc| | |]; try done. cbn [rbind] in *. by rewrite E1.
    + destruct (swap_rear i r0 s) as [sc| | |]; try done. cbn [rbind] in *. by simplify_eq.
Qed.

(** ** Marking the windows that are clear *)

Lemma shows_rearranged (s s' : state) zs : rearranged s s' -> shows C c bg s zs -> shows C c bg s' zs.
Proof.
  intros R [Sw Sg]. pose proof (rearranged_alike _ _ R) as Al. split.
  - intros A w B l' sv p E HC Hl' Hsv Hp. destruct (geo_lay s s' w l' Al Hl') as (l & Hl & Es & Ed & Esv).
    rewrite (geo_shown s s' A p Al), (ra_pixels _ _ R), (ra_image _ _ R), Ed. eapply Sw; try done; congruence.
  - intros p. rewrite (geo_screen s s' Al), (geo_rects _ _ _ (al_geo _ _ Al)), (ra_pixels _ _ R), (ra_image _ _ R). apply Sg.
Qed.
(** The mark says whether all of the window is on the screen and nothing in front touches it. *)
Definition marked (s : state) (A : list nat) (l : memlayer) : Prop :=
  clear l = rectinrect (screenr l) (screen s) && uncovered_rect (rects (images s) A) (screenr l).
Definition exact (s : state) (zs : list nat) : Prop := forall A w B l, zs = A ++ w :: B -> lay (images s) w = Some l -> marked s A l.
Lemma exact_clears (s : state) zs : exact s zs -> clears s zs.
Proof. intros Hex A w B l Ez Hl Hc. specialize (Hex A w B l Ez Hl). unfold marked in Hex. rewrite Hc in Hex. symmetry in Hex. by apply andb_true_iff in Hex. Qed.
Lemma touched_ok (s : state) zs A : stacked s zs -> forall B n sr, zs = A ++ B -> (length A < n)%nat ->
  touched n (last_or None A) sr s = Ok (negb (uncovered_rect (rects (images s) A) sr)).
Proof.
  intros St. induction A as [|w A IH] using rev_ind; intros B n sr Ez Hn; (destruct n as [|n]; [lia|]); [done|].
  rewrite length_app in Hn. simpl in Hn. rewrite <-app_assoc in Ez. simpl in Ez. subst zs.
  destruct (links_lookup _ _ _ _ (st_links _ _ St)) as (l & Hl & Hf & _). rewrite last_or_app. change (last_or (last_or None A) [w]) with (Some w).
  cbn [touched]. rewrite layer_of_lay, Hl. cbn [of_ptr rbind]. rewrite rects_app, (rects_cons _ _ _ _ Hl). unfold uncovered_rect. rewrite forallb_app. simpl.
  destruct (rectXrect sr (screenr l)); simpl; [by rewrite andb_false_r|]. rewrite andb_true_r, Hf. eapply IH; [done|lia].
Qed.
Lemma setclear_loop m zs A : forall B n (s : state), zs = A ++ B -> stacked s zs -> valid s zs -> (length A < n)%nat -> (length zs < m)%nat ->
  (forall B1 w B2 l, B = B1 ++ w :: B2 -> lay (images s) w = Some l -> marked s (A ++ B1) l) ->
  exists s', setclear_from n m (last_or None A) s = Ok s' /\ stacked s' zs /\ rearranged s s' /\ exact s' zs.
Proof.
  induction A as [|w A IH] using rev_ind; intros B n s Ez St V Hn Hm HB; (destruct n as [|n]; [lia|]).
  { exists s. split; [done|]. split; [done|]. split; [done|]. intros A' w B' l -> Hl. by eapply HB. }
  rewrite length_app in Hn. simpl in Hn. rewrite <-app_assoc in Ez. simpl in Ez.
  destruct (links_lookup (images s) A w B) as (l & Hl & Hf & _); [rewrite <-Ez; apply St|]. rewrite last_or_app. change (last_or (last_or None A) [w]) with (Some w).
  cbn [setclear_from]. rewrite layer_of_lay, Hl. cbn [of_ptr rbind]. destruct (valid_screen s zs V) as (im & Him & _ & _ & Esc & _).
  unfold image_of. rewrite Him. cbn [of_ptr rbind]. rewrite <-Esc. set (b := rectinrect (screenr l) (screen s)).
  destruct (mark_ok w b s zs l St Hl) as (s1 & -> & St1 & R1 & L1). cbn [rbind].
  assert (exists s2, (if b then let* t := touched m (front l) (screenr l) s1 in if t : bool then upd_layer w (set_clear false) s1 else Ok s1 else Ok s1) = Ok s2 /\
    stacked s2 zs /\ rearranged s s2 /\ (forall w', lay (images s2) w' = if decide (w' = w) then
      Some (set_clear (b && uncovered_rect (rects (images s) A) (screenr l)) l) else lay (images s) w')) as (s2 & -> & St2 & R2 & L2).
  { destruct b; [|by exists s1]. rewrite Hf, (touched_ok s1 zs A St1 (w :: B) m) by (done || (rewrite Ez, length_app in Hm; lia)). cbn [rbind].
    rewrite (geo_rects _ _ A (ra_geo _ _ R1)). destruct (uncovered_rect (rects (images s) A) (screenr l)); cbn [negb andb]; [by exists s1|].
    destruct (mark_ok w false s1 zs (set_clear true l) St1) as (s2 & -> & St2 & R2 & L2); [by rewrite L1, decide_True|]. exists s2. split; [done|].
    split; [done|]. split; [by etrans|]. intros w'. rewrite L2. case_decide; [done|]. by rewrite L1, decide_False. }
  cbn [rbind]. rewrite Hf. pose proof (rearranged_alike _ _ R2) as Al.
  destruct (IH (w :: B) n s2) as (s' & -> & St' & R' & Hex); [done|done|by eapply geo_valid|lia|done| |].
  - intros B1 w' B2 l' EB Hl'. rewrite L2 in Hl'. unfold marked. rewrite (geo_screen s s2 Al), (geo_rects _ _ _ (al_geo _ _ Al)). destruct B1 as [|w1 B1].
    + injection EB as <- <-. rewrite decide_True in Hl' by done. injection Hl' as <-. by rewrite app_nil_r.
    + injection EB as <- EB. case_decide as Ew.
      { subst w'. exfalso. pose proof (st_nodup _ _ St) as Hnd. rewrite Ez in Hnd. apply NoDup_app in Hnd as (_ & _ & Hnd). apply NoDup_cons in Hnd as [Hx _]. set_solver. }
      specialize (HB B1 w' B2 l' EB Hl'). unfold marked in HB. by rewrite <-app_assoc in HB.
  - exists s'. split; [done|]. split; [done|]. split; [by etrans|done].
Qed.
Lemma memlsetclear_ok s zs : good s zs -> exists s', _memlsetclear s = Ok s' /\ good s' zs /\ exact s' zs /\ alike s s'.
Proof.
  intros [St V Cl Sh]. unfold _memlsetclear. rewrite (st_rear _ _ St). pose proof (stacked_length s zs St) as Hl.
  destruct (setclear_loop (windows s) zs zs [] (windows s) s) as (s' & -> & St' & R' & Hex); try done; [by rewrite app_nil_r|by intros [] ? ? ?|].
  pose proof (rearranged_alike _ _ R') as Al. exists s'. split; [done|]. split; [|done].
  split; [done|by eapply geo_valid|by apply exact_clears|by eapply shows_rearranged].
Qed.

(** ** Several windows *)

(** The windows that are not in [ws]. *)
Definition others (ws zs : list nat) : list nat := filter (fun w => w ∉ ws) zs.
Lemma others_nil zs : others [] zs = zs.
Proof. unfold others. induction zs as [|w zs IH]; [done|]. rewrite filter_cons_True by set_solver. by rewrite IH. Qed.
Lemma others_cons i ws R : i ∉ R -> others (i :: ws) R = others ws R.
Proof.
  unfold others. induction R as [|w R IH]; intros Hi; [done|]. apply not_elem_of_cons in Hi as [Hiw HiR]. rewrite !filter_cons, IH by done.
  destruct (decide (w ∉ i :: ws)), (decide (w ∉ ws)); set_solver.
Qed.
Lemma filter_out (ws : list nat) i R1 R2 : i ∉ R1 ++ R2 -> others (i :: ws) (R1 ++ i :: R2) = others ws (R1 ++ R2).
Proof.
  intros Hi. rewrite <-(others_cons i ws) by done. unfold others. rewrite !filter_app, filter_cons_False; [done|]. intros Hx. apply Hx. by left.
Qed.
Lemma tofront_each_ok ws : forall W R s, good s (W ++ R) -> NoDup ws -> (forall w, w ∈ ws -> w ∈ R) ->
  exists s', tofront_each ws (last_or None W) s = Ok s' /\ good s' (W ++ ws ++ others ws R).
Proof.
  induction ws as [|i ws IH]; intros W R s G Hnd HR.
  { exists s. split; [done|]. simpl. by rewrite others_nil. }
  apply NoDup_cons in Hnd as [Hi Hnd]. destruct (list_elem_of_split R i (HR i (list_elem_of_here _ _))) as (R1 & R2 & ->).
  destruct (memltofront_loop W R2 i true R1) with (n := windows s) (s := s) as (s1 & E1 & G1 & Al); [done|done| |].
  { pose proof (stacked_length s _ (gd_stacked _ _ _ _ _ G)) as Hl. rewrite !length_app in Hl. lia. }
  pose proof (st_nodup _ _ (gd_stacked _ _ _ _ _ G)) as (_ & _ & (H1 & H2 & H3)%NoDup_app)%NoDup_app.
  assert (i ∉ R1 ++ R2) as HiR by (apply NoDup_cons in H3 as [H3 _]; intros [Hx|Hx]%elem_of_app; [apply (H2 i Hx); by left|done]).
  cbn [tofront_each]. rewrite E1. cbn [rbind]. destruct (IH (W ++ [i]) (R1 ++ R2) s1) as (s' & E' & G'); [by simplify_list_eq|done| |].
  { intros w Hw. assert (w <> i) by (by intros ->). specialize (HR w). set_solver. }
  rewrite last_or_app in E'. exists s'. split; [exact E'|]. rewrite filter_out by done. by simplify_list_eq.
Qed.
Lemma torear_each_ok ws : forall W R s, good s (R ++ W) -> NoDup ws -> (forall w, w ∈ ws -> w ∈ R) ->
  exists s', torear_each ws (head_or W None) s = Ok s' /\ good s' (others ws R ++ reverse ws ++ W).
Proof.
  induction ws as [|i ws IH]; intros W R s G Hnd HR.
  { exists s. split; [done|]. simpl. by rewrite others_nil. }
  apply NoDup_cons in Hnd as [Hi Hnd]. destruct (list_elem_of_split R i (HR i (list_elem_of_here _ _))) as (R1 & R2 & ->). rewrite <-app_assoc in G.
  destruct (memltorear_loop R1 W i R2 (windows s) s) as (s1 & E1 & G1 & Al); [done| |].
  { pose proof (stacked_length s _ (gd_stacked _ _ _ _ _ G)) as Hl. rewrite !length_app in Hl. simpl in Hl. lia. }
  pose proof (st_nodup _ _ (gd_stacked _ _ _ _ _ G)) as (_ & H2 & H3)%NoDup_app.
  assert (i ∉ R1 ++ R2) as HiR by (apply NoDup_cons in H3 as [H3 _]; intros [Hx|Hx]%elem_of_app; [apply (H2 i Hx); by left|set_solver]).
  cbn [torear_each]. rewrite E1. cbn [rbind]. destruct (IH (i :: W) (R1 ++ R2) s1) as (s' & E' & G'); [by simplify_list_eq|done| |].
  { intros w Hw. assert (w <> i) by (by intros ->). specialize (HR w). set_solver. }
  exists s'. split; [exact E'|]. rewrite filter_out by done. rewrite reverse_cons. by simplify_list_eq.
Qed.

(** C16: moving windows in the order keeps all pictures.  Let the windows [zs], from front to rear, be linked, have save areas of
    their own that fit, and let the screen and the save areas show the picture [c w] of each window [w]
    of [C] that has a save area, and [bg] where there is no window ([good]).  Then [memltofront], [memltorear],
    [memltofrontn] and [memltorearn] return, the order is the one they promise, the screen and the save areas show the
    same pictures, and exactly the windows are marked clear that lie on the screen with nothing in front ([exact]). *)
Theorem windows_keep_pictures s zs : good s zs ->
  (forall A i B, zs = A ++ i :: B -> exists s', memltofront i s = Ok s' /\ good s' (i :: A ++ B) /\ exact s' (i :: A ++ B)) /\
  (forall A i B, zs = A ++ i :: B -> exists s', memltorear i s = Ok s' /\ good s' (A ++ B ++ [i]) /\ exact s' (A ++ B ++ [i])) /\
  (forall ws, ws <> [] -> NoDup ws -> (forall w, w ∈ ws -> w ∈ zs) -> let zs' := ws ++ others ws zs in
    exists s', memltofrontn ws s = Ok s' /\ good s' zs' /\ exact s' zs') /\
  (forall ws, ws <> [] -> NoDup ws -> (forall w, w ∈ ws -> w ∈ zs) -> let zs' := others ws zs ++ reverse ws in
    exists s', memltorearn ws s = Ok s' /\ good s' zs' /\ exact s' zs').
Proof.
  intros G. pose proof (stacked_length s zs (gd_stacked _ _ _ _ _ G)) as Hl.
  assert (forall (r : result state) zs', (exists s1, r = Ok s1 /\ good s1 zs') ->
    exists s', (let* s1 := r in _memlsetclear s1) = Ok s' /\ good s' zs' /\ exact s' zs') as Hend.
  { intros r zs' (s1 & -> & G1). destruct (memlsetclear_ok s1 zs' G1) as (s' & E & G' & Hex & _). by exists s'. }
  split; [|split; [|split]].
  - intros A i B ->. apply Hend. rewrite length_app in Hl.
    destruct (memltofront_loop [] B i true A) with (n := windows s) (s := s) as (s1 & E1 & G1 & _); [done|done|lia|by exists s1].
  - intros A i B ->. apply Hend. rewrite length_app in Hl. simpl in Hl.
    destruct (memltorear_loop A [] i B (windows s) s) as (s1 & E1 & G1 & _); [by rewrite app_nil_r|lia|by exists s1].
  - intros ws Hne Hnd Hin zs'. destruct ws as [|i ws]; [done|]. apply Hend.
    destruct (tofront_each_ok (i :: ws) [] zs s) as (s1 & E1 & G1); try done. by exists s1.
  - intros ws Hne Hnd Hin zs'. destruct ws as [|i ws]; [done|]. apply Hend.
    destruct (torear_each_ok (i :: ws) [] zs s) as (s1 & E1 & G1); [by rewrite app_nil_r|done|done|]. rewrite app_nil_r in G1. by exists s1.
Qed.
End moves.

Section partition.
Context {P : Type} `{Memdraw P}.
(** C17: [_memlayerop] splits a rectangle of a window exactly.  Let [A] be the windows in front of [i].  For every function [fn]
    that changes pixels only, the operation is a sequence of calls of [fn] on rectangles [L] inside the
    rectangle [r0] and the window.  Each pixel of both is in exactly one of them: with the image of the screen
    when the pixel is inside the screen and no window of [A] covers it, else with the save area. *)
Theorem memlayerop_partitions (fn : layer_fn P) (s : state P) A i B l r0 clipr :
  stacked s (A ++ i :: B) -> valid s (A ++ i :: B) -> clears s (A ++ i :: B) -> lay (images s) i = Some l -> keeps fn ->
  exists L, _memlayerop (windows s) fn i r0 clipr s = run_calls fn clipr (save l) L s /\
    (forall p, pieces_at false p L = b2n (ptinrect p r0 && ptinrect p (screenr l) && shown s A p) /\
      pieces_at true p L = b2n (ptinrect p r0 && ptinrect p (screenr l) && negb (shown s A p))) /\
    (forall rc b, (rc, b) ∈ L -> rectinrect rc r0 = true /\ rectinrect rc (screenr l) = true).
Proof.
  intros St V Cl Hl K. destruct (valid_screen _ _ V) as (im & Him & _ & _ & Esc & Hoc & _).
  destruct (stacked_chain s A i B St) as [Hc Hlen]. pose proof (stacked_length s _ St) as Hw. rewrite length_app in Hw. simpl in Hw.
  pose proof (Cl A i B l eq_refl Hl) as Hco. exists (calls l (screen s) (rects (images s) A) r0). split; [|split].
  - rewrite Esc. apply memlayerop_calls; try done; [by rewrite layer_of_lay, Hl|unfold image_of; by rewrite Him|lia].
  - intros p. apply count_calls; [|done|done]. eapply ordered_rects; [done|set_solver].
  - intros rc b Hin. destruct (in_calls _ _ _ _ _ _ Hco Hin) as (H1 & H2 & _). done.
Qed.
End partition.

(** ** An instance and three windows *)

(** Pixels as a function: copying, and refreshing with 0. *)
Definition bitmap : Type := nat -> Point -> Z.
Definition bitmap_blit (imgs : gmap nat memimage) (dst : nat) (r : Rectangle) (src : nat) (p : Point) (px : bitmap) : bitmap := fun d q =>
  if decide (d = dst /\ ptinrect q r = true) then px src (addpt q (subpt p (rmin r))) else px d q.
Definition bitmap_refresh (g : nat) (imgs : gmap nat memimage) (dst : nat) (r : Rectangle) (dl : Point) (px : bitmap) : bitmap := fun d q =>
  if decide (d = dst /\ ptinrect q (rectaddpt r dl) = true) then 0 else px d q.
#[export] Instance bitmap_draw : Memdraw bitmap.
Proof.
  apply (Build_Memdraw bitmap (fun px d q => px d q) bitmap_blit bitmap_refresh).
  - done.
  - intros. unfold bitmap_refresh. by rewrite decide_False.
Defined.
(** The window 1 is in front, then 2 and 3; 3 is partly outside the screen. *)
Definition three_rect (w : nat) : Rectangle := match w with 1%nat => Rect 0 0 6 6 | 2%nat => Rect 3 3 9 9 | _ => Rect 5 0 12 5 end.
Definition three_window (w : nat) (f r : option nat) : memimage :=
  mkImage (three_rect w) (three_rect w) (Some (mkLayer (three_rect w) (Pt 0 0) (Some (10 + w)%nat) f r None false)).
Definition three_save (w : nat) : memimage := mkImage (three_rect w) (three_rect w) None.
Definition three_images : gmap nat memimage :=
  {[0%nat := mkImage (Rect 0 0 10 10) (Rect 0 0 10 10) None;
    1%nat := three_window 1 None (Some 2%nat); 2%nat := three_window 2 (Some 1%nat) (Some 3%nat); 3%nat := three_window 3 (Some 2%nat) None;
    11%nat := three_save 1; 12%nat := three_save 2; 13%nat := three_save 3]}.
(** The picture of [w] has the color [w], the ground is 9. *)
Definition three_pixels : bitmap := fun d q =>
  if decide (d = 0%nat) then
    if ptinrect q (three_rect 1) then 1 else if ptinrect q (three_rect 2) then 2 else if ptinrect q (three_rect 3) then 3 else 9
  else Z.of_nat (d - 10).
Definition three : state bitmap := mkState three_images 0 (Some 1%nat) (Some 3%nat) three_pixels.
Definition look (r : result (state bitmap)) (l : list (nat * Point)) : list Z :=
  match r with Ok s => map (fun '(d, p) => pixels s d p) l | _ => [] end.
(** The point (5,4) belongs to all three; what is not on the screen is in the save areas 11, 12 and 13. *)
Example three_moves :
  look (Ok three) [(0%nat, Pt 5 4); (0%nat, Pt 5 1); (0%nat, Pt 9 9)] = [1; 1; 9] /\
  look (memltofront 3 three) [(0%nat, Pt 5 4); (11%nat, Pt 5 4); (12%nat, Pt 5 4); (0%nat, Pt 5 1); (0%nat, Pt 1 1)] = [3; 1; 2; 3; 1] /\
  look (memltorear 1 three) [(0%nat, Pt 5 4); (11%nat, Pt 5 4); (0%nat, Pt 5 1); (0%nat, Pt 1 1)] = [2; 1; 3; 1] /\
  look (memltofrontn [3%nat; 2%nat] three) [(0%nat, Pt 5 4); (0%nat, Pt 4 4); (0%nat, Pt 1 1)] = [3; 2; 1].
Proof. vm_compute. done. Qed.
Lemma three_split A w B : [1%nat; 2%nat; 3%nat] = A ++ w :: B ->
  (A = [] /\ w = 1%nat) \/ (A = [1%nat] /\ w = 2%nat) \/ (A = [1%nat; 2%nat] /\ w = 3%nat).
Proof.
  destruct A as [|a [|a2 [|a3 [|a4 A]]]]; intros E; simplify_eq/=; tauto.
Qed.
Lemma three_screen p : three_pixels 0%nat p =
  if ptinrect p (three_rect 1) then 1 else if ptinrect p (three_rect 2) then 2 else if ptinrect p (three_rect 3) then 3 else 9.
Proof. done. Qed.
Lemma three_good : good (fun _ => True) (fun w _ => Z.of_nat w) (fun _ => 9) three [1%nat; 2%nat; 3%nat].
Proof.
  split.
  - split; [by apply (bool_decide_unpack _)| |done|done]. simpl. unfold lay. simpl. split; [by eexists|]. split; [by eexists|]. split; [by eexists|done].
  - split.
    + exists (mkImage (Rect 0 0 10 10) (Rect 0 0 10 10) None). split; [by vm_compute|]. unfold ordered, small_rect, small_pt, small. simpl. split; [done|].
      repeat split; lia.
    + intros w l Hw Hl. assert (w = 1%nat \/ w = 2%nat \/ w = 3%nat) as [-> | [-> | ->]] by set_solver; vm_compute in Hl; injection Hl as <-;
        (split; unfold ordered, small_rect, small_pt, small; simpl; try lia; [intros sv [= <-]; split; [done|by vm_compute]|done]).
    + intros w1 w2 l1 l2 sv Hw1 Hw2 H1 H2. assert (w1 = 1%nat \/ w1 = 2%nat \/ w1 = 3%nat) as [-> | [-> | ->]] by set_solver;
        assert (w2 = 1%nat \/ w2 = 2%nat \/ w2 = 3%nat) as [-> | [-> | ->]] by set_solver; vm_compute in H1, H2; injection H1 as <-; injection H2 as <-; simpl;
        intros E1 E2; congruence.
  - intros A w B l E Hl Hc. destruct (three_split A w B E) as [[_ ->]|[[_ ->]|[_ ->]]]; vm_compute in Hl; injection Hl as <-; done.
  - split.
    + intros A w B l sv p E _ Hl Hsv Hp. unfold shown, visible. change (screen three) with (Rect 0 0 10 10).
      change (pixel (pixels three) (image three) p) with (three_pixels 0%nat p). rewrite three_screen.
      destruct (three_split A w B E) as [[-> ->]|[[-> ->]|[-> ->]]]; vm_compute in Hl; injection Hl as <-; injection Hsv as <-.
      * change (ptinrect p (three_rect 1) = true) in Hp. rewrite Hp. by destruct (ptinrect p (Rect 0 0 10 10)).
      * change (ptinrect p (three_rect 2) = true) in Hp. rewrite Hp. change (rects (images three) [1%nat]) with [three_rect 1]. unfold covered. cbn [existsb].
        destruct (ptinrect p (Rect 0 0 10 10)), (ptinrect p (three_rect 1)); done.
      * change (ptinrect p (three_rect 3) = true) in Hp. rewrite Hp. change (rects (images three) [1%nat; 2%nat]) with [three_rect 1; three_rect 2].
        unfold covered. cbn [existsb]. destruct (ptinrect p (Rect 0 0 10 10)), (ptinrect p (three_rect 1)), (ptinrect p (three_rect 2)); done.
    + intros p _ Hc. change (pixel (pixels three) (image three) p) with (three_pixels 0%nat p). rewrite three_screen.
      change (rects (images three) [1%nat; 2%nat; 3%nat]) with [three_rect 1; three_rect 2; three_rect 3] in Hc. unfold covered in Hc. cbn [existsb] in Hc.
      destruct (ptinrect p (three_rect 1)), (ptinrect p (three_rect 2)), (ptinrect p (three_rect 3)); done.
Qed.
Lemma windows_keep_pictures_witness :
  good (fun _ => True) (fun w _ => Z.of_nat w) (fun _ => 9) three [1%nat; 2%nat; 3%nat] /\
  exists s', memltofront 3 three = Ok s' /\ good (fun _ => True) (fun w _ => Z.of_nat w) (fun _ => 9) s' [3%nat; 1%nat; 2%nat] /\
    exact s' [3%nat; 1%nat; 2%nat].
Proof.
  split; [exact three_good|].
  exact (proj1 (windows_keep_pictures (fun _ => True) (fun w _ => Z.of_nat w) (fun _ => 9) three [1%nat; 2%nat; 3%nat] three_good) [1%nat; 2%nat] 3%nat [] eq_refl).
Defined.
Lemma memlayerop_partitions_witness : exists l L, lay three_images 2 = Some l /\
  _memlayerop (windows three) (lhideop 2) 2 (three_rect 2) (three_rect 2) three = run_calls (lhideop 2) (three_rect 2) (save l) L three /\
  (forall p, pieces_at false p L = b2n (ptinrect p (three_rect 2) && ptinrect p (screenr l) && shown three [1%nat] p) /\
    pieces_at true p L = b2n (ptinrect p (three_rect 2) && ptinrect p (screenr l) && negb (shown three [1%nat] p))) /\
  (forall rc b, (rc, b) ∈ L -> rectinrect rc (three_rect 2) = true /\ rectinrect rc (screenr l) = true).
Proof.
  eexists. edestruct (memlayerop_partitions (lhideop 2) three [1%nat] 2 [3%nat]) as (L & HL);
    [apply three_good|apply three_good|apply three_good|reflexivity|apply lhideop_keeps|]. exists L. split; [reflexivity|exact HL].
Defined.
